(* ===== verification/_CoqProject ===== *)
-Q . S2P
Prelude.v
Core.v
DeviceIds.v
Connection.v
Bep.v
Wire.v
Database.v
Merge.v
BlockServer.v
Conflict.v
IndexHandler.v
IndexManager.v
BlockCache.v
Ignore.v
Session.v
Puller.v
Versions.v
FolderModel.v
Scanner.v
FolderScan.v
Net.v
Relay.v
RelayServer.v
Derp.v
Traversal.v
Supervise.v
Dialer.v
Manager.v
Frames.v
Config.v
Metadata.v
BlockStoreImpl.v
Rest.v
EventBus.v
Dispatch.v
Service.v
FsIgnore.v
Fs.v
Discovery.v
Reach.v
Tasks.v
Tls.v
Transport.v
ManagerSource.v
Transfer.v
Launch.v
Runtime.v
Proxy.v
Tui.v
Vault.v
Browse.v
Monitor.v
WebSocket.v
