(* ===== verification/Prelude.v ===== *)
(** * Verification of the syncthing-rust synchronisation core

    The program is a file synchroniser that speaks the Block Exchange Protocol.
    Two devices connect, exchange Hello messages and cluster configurations,
    send each other indexes (the list of files of a folder with version
    vectors), decide per file which side wins, download the blocks they miss
    and keep what loses as a conflict copy.  This development translates that
    core into executable definitions and proves what makes it correct; where
    the code does something else than it means to, the theorem states what the
    code does.

    ** How the program fits together

    A [BepSession] (crates/syncthing-net/src/session) owns one connection.  It
    hands received indexes to a handler, which calls the [IndexHandler]
    (crates/syncthing-sync/src/index_handler.rs).  That compares every remote
    entry with the local database, asks the conflict resolver when both sides
    changed, stores what is newer and returns the files to fetch.  They go into
    the queue of the [FolderModel] (folder_model), whose rounds call the
    [Puller] (puller); it requests blocks from peers, which answer from their
    block server (block_server.rs), verifies and installs them, archives what
    they replace ([Versioner]) and quarantines deleted files.  The scanner
    (scanner.rs), called by the folder model for a whole folder or for the paths
    its watcher named, brings the database up to date with the disk.  The
    [IndexManager] (index.rs) computes what a peer has not yet been told.

    Connections come from the connection manager (crates/syncthing-net/src/manager),
    which dials the addresses of a device through the parallel dialer, accepts
    connections, resolves simultaneous dials and schedules reconnects.  When no
    direct connection is possible, the traffic goes through a relay
    (src/relay) or a DERP server (src/derp); STUN and the port mappers (src/stun,
    src/portmapper, src/upnp.rs) find out and open the address the others can
    reach, and discovery (src/discovery) announces it and learns those of the
    others.

    The sync service (syncthing-sync/src/service) owns the folder models and the
    configuration; the daemon (cmd/syncthing) starts it, answers the sessions from
    it (bep_handler.rs), sends index updates to connected devices
    (index_dispatcher.rs) and serves the REST API (crates/syncthing-api), which
    changes the configuration.  File metadata and blocks can be kept in sled
    (crates/syncthing-db); crates/syncthing-fs is a second scanner, watcher and
    ignore language.

    ** The files

    - [Prelude]: results with [let?], options with [let+], the state and error
      monad [SE] with [let!] and [do!], Rust strings as byte lists, w-bit
      integers as [Z] with [wrap] and [to_signed], big-endian bytes, the hint
      databases, shared tactics and lemmas.
    - [Core]: syncthing-core/src/types: version vectors ([Vector::compare],
      [dominates], [concurrent_order], [increment]), file records, folders,
      indexes.  The HashSet a comparison walks is an arbitrary enumeration.
    - [DeviceIds]: syncthing-core/src/device_id.rs: Base32, Luhn-32 check
      characters, grouping, parsing at byte offsets with its panics.
    - [Connection]: syncthing-core/src/types/connection.rs: connection states,
      addresses and their textual form.
    - [Bep]: crates/bep-protocol: message records, the conversions between wire
      and core types, the Hello exchange over byte streams and the connection
      states around it.
    - [Database]: syncthing-sync/src/database.rs: the trait [LocalDatabase] as a
      class, what it promises as [LocalDatabaseLaws], the in-memory
      implementation (which satisfies the laws) and the file-system one with
      its cache.
    - [Merge]: merge.rs: edit scripts, conflict regions and the loop of the
      three-way text merge.
    - [BlockServer]: block_server.rs: validation of remote names, confinement
      below the folder root, reading and hash check.
    - [Conflict]: conflict_resolver.rs and events.rs on a [World] (database,
      disk, published events).
    - [IndexHandler]: index_handler.rs, with an abstract per-entry step it
      refines.
    - [IndexManager]: index.rs: index IDs, sequence numbers, deltas.
    - [BlockCache]: crates/syncthing-db/src/block_cache: the size-bounded LRU
      cache, the cached block store and the interleavings of its lock regions.
    - [Ignore]: syncthing-sync/src/ignore.rs: rules, globbing, matching.
    - [Session]: session/mod.rs, session/state.rs, protocol.rs: the session as
      a step function on received inputs.
    - [Frames]: connection/io.rs, connection/mod.rs, handshaker.rs: the write and
      read tasks of a connection, their coordination, the Hello exchange.
    - [Puller]: puller/mod.rs, ops.rs, rename.rs, concurrency.rs.
    - [Versions]: crates/syncthing-versioner: the simple and the staggered
      strategy behind the puller's [Versioner] interface.
    - [FolderModel]: the pull rounds of folder_model/mod.rs.
    - [Scanner]: scanner.rs and scanner/rename.rs, on an abstract directory tree.
    - [FolderScan]: the scans, the watcher loop, override and revert of
      folder_model/mod.rs, and a machine of the tasks of one folder.
    - [Supervise]: supervisor.rs and orchestrator.rs.
    - [Wire] and [Net]: byte buffers (the bytes crate) and internet addresses
      (std::net) as the network code uses them.
    - [Relay]: relay/protocol, client.rs, dial.rs, pool.rs: messages, their
      coding, the client exchanges, addresses.
    - [RelayServer]: relay/server.rs: the parser of a connection, the registry
      and the pairing of sessions as a machine.
    - [Derp]: derp/: frames, server, client and the byte pipe.
    - [Traversal]: stun/, portmapper/ and netmon.rs: packets, classification,
      mappings.
    - [Dialer]: dialer/mod.rs: address scores and one parallel dial.
    - [Manager]: manager/: the registry of connections, handshakes, dial tasks
      and reconnects, as operations and as a step relation.
    - [Config]: configuration records, validation.rs, error.rs and the start-up
      check of config_validation.rs.
    - [Metadata]: syncthing-db/src/metadata, kv.rs and blocking.rs: key encoding,
      the metadata store over a faulty key-value store, calls that time out.
    - [BlockStoreImpl]: syncthing-db/src/store.rs.
    - [Rest]: syncthing-api/src/config.rs and rest/: configuration stores, the key
      check and the handlers that change something; api_server.rs.
    - [EventBus]: syncthing-api/src/events.rs and handlers.rs: buffered events,
      paging, the long poll.
    - [Dispatch]: index_dispatcher.rs, session_logger.rs and the subscribers of
      syncthing-sync/src/events.rs.
    - [Service]: service/, bep_handler.rs and [FolderState::completion]; floating
      point as the Standard Library specifies binary64.
    - [FsIgnore]: syncthing-fs/src/ignore: patterns, their regular expressions,
      includes.
    - [Fs]: syncthing-fs/src/scanner, filesystem and watcher.rs.
    - [Discovery]: discovery/local.rs, global.rs and discovery_tasks.rs.
    - [Reach]: upnp.rs, portmapper/upnp.rs, discovery/mod.rs, nat_tasks.rs,
      relay_listener.rs and watchdog.rs.
    - [Tasks]: sync_task.rs and health_predictor.rs.
    - [Tls]: tls.rs: certificates, their files, device identities, configurations
      and handshakes over the class [Rustls].
    - [Transport]: tcp_transport.rs, transport/bep_adapter.rs, transport/mod.rs and
      relay/dial.rs: listeners, connectors, retries, the registry of transports and
      the start and stop of the manager.
    - [ManagerSource]: the block source of main.rs over the connections, and what
      it relies on at the other end, the class [BlockPeer].
    - [Transfer]: one file from the folders of its peers to the local disk.
    - [Launch]: single_instance.rs, the command line of main.rs up to its dispatch,
      and the configuration, peers and transports daemon_runner.rs starts with.
    - [Runtime]: the running daemon: sessions, ticks, shutdown, the reload of its
      configuration, daemon_controller.rs.
    - [Proxy]: transport/proxy.rs: SOCKS5 and HTTP CONNECT.
    - [Tui]: the terminal interface: tui/app.rs, events/, forms/, runner.rs,
      log_loader.rs and logging_buffer.rs.
    - [Vault]: crates/obsidian-vault-crypto-adapter.
    - [Browse]: the pages of the REST API that show something: rest/db.rs,
      rest/system.rs.
    - [Monitor]: bin/monitor: log parser, samples and alerts.
    - [WebSocket]: transport/websocket.rs: the byte pipe.

    Client theorems are proved against interfaces: the resolver, the index
    handler, the index manager, the puller, the scanner and the folder model
    for every database that satisfies [LocalDatabaseLaws]; the block store for every
    key-value store and LRU list with the laws [KeyValueLaws] and [LruCrateLaws]; the
    session for every [BepSessionHandler], of which the daemon's handler is an
    instance; the API for every [ConfigStore], of which both stores are instances;
    ignore patterns for every regex engine with [RegexLaws]; global discovery for
    every [DiscoveryServer]; certificates and handshakes for every [Rustls];
    connections for every [AuthConnector], which the TCP and relay connectors are;
    the transfer of a file for every [BlockPeer]; the vault for every cipher with
    [VaultCryptoLaws].

    ** What the theorems show

    - Convergence and safety of index exchange ([IndexHandler], [Conflict]):
      peers that exchange full indexes agree afterwards; an index never deletes
      unnamed files, and for names it has once it never downgrades a version and
      never stores unknown deletions (a name given twice can go back); a conflict is decided the same way at both ends and the losing
      file is kept; the handler refines its per-entry specification.
    - Pulling ([Puller], [FolderModel]): content installed from blocks has the
      announced digests; a failure leaves the database and all other files alone,
      and the target too unless the final rename keeps failing or the
      modification time overflows; deletions are quarantined and stay within the
      quota; a round gives the folder's status back.  A failed update of
      unchanged size is never retried, and content copied from a local file is
      not verified.
    - Scanning ([Scanner], [FolderScan]): after a scan the database describes the
      folder, with the next sequence numbers and strictly newer versions; a
      second scan finds nothing; an incremental scan only reports deletions it
      can see, and while it finds the folder pulling only those the watcher
      reported as deletions; the operations of a folder refine its task machine; no
      dirty path waits for ever.  Two devices that create the same name do not
      see a conflict.
    - Versions ([Versions]): archiving stays in its directory (which is what the
      puller asks of it), the newest versions are kept, a version comes back;
      files of one base name share one history.
    - Names and blocks ([BlockServer]): accepted names stay below any root; a
      served block comes from below the canonical root, from the requested
      range, with the requested hash.
    - Formats ([DeviceIds], [Bep]): device IDs and index updates round-trip,
      replaced letters and digits of a device ID are detected, both ends of a Hello
      exchange finish.
    - Text merge ([Merge]): for separated edits the loop terminates and equals
      applying both scripts; diffs are represented faithfully; on some valid
      diffs the loop does not end.
    - Storage ([Database], [IndexManager], [BlockCache]): the delta for a peer is
      complete; the cached store refines a map, its size is exact and bounded,
      also under interleaving; a concurrent delete can be undone.
    - Connections ([Manager], [Dialer]): in every reachable state a device has one
      registered connection at most, also while registrations overlap, and no
      unsafe address is among the direct addresses of a dial; both ends of a
      simultaneous dial keep the same link if both handshakes of an end begin
      before it registers; an address that answers and is not used up is reached
      after a bounded number of dials.  A late handshake, a due
      reconnect and two concurrent registrations each lose a connection.
    - Relay and DERP ([Relay], [RelayServer], [Derp]): messages and frames
      round-trip, encoders produce well-formed frames, a session has exactly two
      ends with the key that was issued, the DERP pipe is a byte stream; split
      messages, reconnects and large writes are lost.
    - NAT traversal ([Traversal]): the table-driven CRC-32 is the bitwise one and
      detects a corrupted byte; responses parse to what was encoded, and never
      out of bounds.
    - Supervision ([Supervise]): the restart limit is exact; permits are bounded.
    - Framing ([Frames]): what one end writes the other reads, message by message,
      as long as the session keeps up, and the read task ends on every stream; a pause inside a length, a full
      channel and an empty compressed message lose messages, and closing a
      connection leaves its tasks running.
    - Sessions ([Session]): protocol order, every request answered once, no
      waiter forgotten; the shared table of waiters mixes up peers.
    - The daemon as a whole ([Service], [Dispatch]): two daemons that exchange
      their indexes over the wire agree on every entry of the folder; later
      updates form a chain of sequence windows, complete when nothing fails; the
      loops of a folder work on its registered model.  A folder removed and added
      again, a lagging subscriber and a change before the initial index is
      acknowledged are not synchronised.
    - Configuration and API ([Config], [Rest], [EventBus]): the start-up check
      accepts exactly the consistent configurations; a change from another host
      needs the key; IDs stay unique; what is saved is loaded; paging misses no
      event.  Concurrent requests, torn writes and edits of the file lose changes.
    - Metadata ([Metadata], [BlockStoreImpl]): the store refines maps under any
      pattern of faults, with late writes of timed-out calls between the calls; a
      block read has the requested hash.  Some folder names
      collide with the keys of others.
    - The file system layer ([FsIgnore], [Fs]): a compiled pattern without backslash
      matches what its glob denotes, includes terminate, pruning and the cache change nothing,
      blocks cover a file in any order of hashing, writes are atomic.
    - Reachability ([Discovery], [Reach]): announcements are read as they were sent
      and by the release build whatever arrives; what is registered globally (TCP
      over IPv4 and relays) is what peers dial; announcements are paced; leases are renewed in time; the
      list of public addresses is kept; relay invitations keep the registry
      sound; the watchdog restarts exactly after two failures in a row.  Addresses
      found by local discovery are never used, and a failing server blocks the
      shutdown of the announce loop.
    - Identity and transports ([Tls], [Transport], [Proxy], [WebSocket]): a device
      keeps its ID across restarts; every registered connection
      has the identity its peer proved; after a SOCKS5 handshake the tunnel carries
      exactly the bytes that follow; a WebSocket delivers a prefix of what was
      written, and everything while its bridge runs.
    - The life of the daemon ([Launch], [Runtime], [ManagerSource], [Transfer]): at
      most one process holds the lock when attempts do not overlap; the configuration
      settles after one start; a reload that no deadline interrupts ends with the newest
      file applied; a file of which some connected device has each block is installed,
      if nothing local fails.
    - The interfaces ([Tui], [Browse], [Monitor]): the terminal changes the
      configuration only by a submitted form or an answered question; the browse page lists exactly the
      files below a prefix, at every depth; the monitor counts each line once.  The
      examples show the keys that crash the terminal, the name that crashes the
      page, and the alert that is never raised.
    - The vault ([Vault]): what is encrypted into an empty mirror is decrypted to the
      same files, for names in UTF-8.
    - Tasks and health ([Tasks]): the task queue is five queues, the executor
      loses no task and respects its bound, the throttle stays within its range.
    - Causal order ([Core]): comparison decides it on all four verdicts,
      [concurrent_order] is antisymmetric and total on concurrent vectors,
      increments make strict successors.

    ** Fuel

    Loops without a structural measure take fuel, and a theorem shows that the
    stated amount is enough: the merge loop needs at most twice the number of
    edits plus one rounds on separated edits ([three_way_merge] takes its fuel
    as an argument because on other inputs no amount is enough), [glob_fuel]
    bounds the backtracking of a glob, [put_fuel] the evictions of one cache
    insertion; UTF-8 replacement and chunking recurse on the length of their
    input, and so do the loops that parse a buffer ([process_data], [recv_loop],
    [derp_read_loop], [parse_attrs], [wait_loop]), each of whose rounds consumes
    input.  A varint of 64 bits has ten bytes at most, an announcement is decoded
    with one unit of fuel for each byte ([decode_loop_fuel]), included ignore files
    need one level for each readable path ([fs_includes_terminate]), and numbers of
    16 bits print with five digits, those of 32 bits with ten.  Moving the focus of
    a form takes one unit for each field ([focus_loop]).  [build_tree] takes the depth
    of the stack: one frame for each segment of a name is enough, and for a name that
    starts with a slash none is.  Renames are retried seven times, as in the code.  [redial] bounds the
    dials after which an answering address is reached.

    ** What is a parameter

    Code that is not in the repository: protobuf coding (prost), block
    compression (lz4), the diff algorithm (similar), SHA-256, the lru, regex and
    igd crates, sled, JSON texts (serde_json), HTTP exchanges, the clock, and the
    outcome of file-system, network and send operations.  They are arguments of
    the definitions or fields of an environment record ([ConflictEnv], [PullEnv],
    [SessionEnv], [ScanEnv], [VersEnv], [MapEnv], [Igd], [HttpClient]); what is
    relied on is a named law or hypothesis.  The broadcast and notify primitives of
    tokio are modelled by what their documentation promises.  Log output and
    counters used only for logs are left out.

    ** What is not modelled

    Sockets and the drawing of the terminal screens, the tray icon and its
    interprocess messages, the metrics text of the API, the CSV and JSON texts of the
    monitor, the subcommands that only print, the benchmark, the stress test and the
    command line and MCP clients of the REST API are input and output around the
    core.  The test utilities and the archived code under docs/ are not part of the
    program.  Backoff durations of reconnects are random and computed in floating
    point: a scheduled reconnect is due at an arbitrary time.  Calls that add folders
    to the service, and calls of the metadata store, are taken one after another.  The tasks of one pull
    run concurrently in the code and one after the other, in an arbitrary order,
    here. *)

From stdpp Require Export prelude gmap strings list fin_maps sorting.
From Stdlib Require Export ZArith Lia Ascii.

#[global] Open Scope Z_scope.

(** ** Results

    Rust's [Result<T, E>], with the [?] operator as a bind notation. *)
Inductive result (E A : Type) : Type :=
| Ok (a : A)
| Err (e : E).
Arguments Ok {E A} a.
Arguments Err {E A} e.

Definition result_bind {E A B : Type} (r : result E A) (k : A -> result E B) : result E B :=
  match r with
  | Ok a => k a
  | Err e => Err e
  end.

Definition result_map {E A B : Type} (f : A -> B) (r : result E A) : result E B :=
  result_bind r (fun a => Ok (f a)).

Definition ok_or {E A : Type} (o : option A) (e : E) : result E A :=
  match o with
  | Some a => Ok a
  | None => Err e
  end.

Definition is_ok {E A : Type} (r : result E A) : bool :=
  match r with
  | Ok _ => true
  | Err _ => false
  end.

Declare Scope rust_scope.
Delimit Scope rust_scope with rust.
Notation "'let?' x ':=' c 'in' k" := (result_bind c (fun x => k))
  (at level 10, x pattern, c at level 100, k at level 200) : rust_scope.
Notation "'let+' x ':=' c 'in' k" := (@mbind option _ _ _ (fun x => k) c)
  (at level 10, x pattern, c at level 100, k at level 200) : rust_scope.
#[global] Open Scope rust_scope.

(** ** Stateful, fallible code

    A method that may change a state [S] and may return early with [?]: the
    changes made before an error stay. *)
Definition SE (S E A : Type) : Type := S -> result E A * S.

Definition se_ret {S E A : Type} (a : A) : SE S E A := fun s => (Ok a, s).

Definition se_throw {S E A : Type} (e : E) : SE S E A := fun s => (Err e, s).

Definition se_bind {S E A B : Type} (c : SE S E A) (k : A -> SE S E B) : SE S E B :=
  fun s => match c s with
           | (Ok a, s') => k a s'
           | (Err e, s') => (Err e, s')
           end.

(** A reader that cannot change the state, and a pure update. *)
Definition se_read {S E A : Type} (f : S -> result E A) : SE S E A := fun s => (f s, s).

Definition se_modify {S E : Type} (f : S -> S) : SE S E unit := fun s => (Ok tt, f s).

Notation "'let!' x ':=' c 'in' k" := (se_bind c (fun x => k))
  (at level 10, x pattern, c at level 100, k at level 200) : rust_scope.
Notation "'do!' c 'in' k" := (se_bind c (fun _ => k))
  (at level 10, c at level 100, k at level 200) : rust_scope.

(** ** Strings

    A Rust [str] is its sequence of UTF-8 bytes: a list of 8-bit characters. *)
Abbreviation str := (list ascii).

Definition lit (s : string) : str := String.list_ascii_of_string s.
Notation "'$' s" := (lit s%string) (at level 1, s constr at level 0, format "'$' s") : rust_scope.

Fixpoint strip_prefix {A : Type} `{EqDecision A} (p s : list A) : option (list A) :=
  match p, s with
  | [], _ => Some s
  | x :: p', y :: s' => if decide (x = y) then strip_prefix p' s' else None
  | _ :: _, [] => None
  end.

Definition starts_with {A : Type} `{EqDecision A} (p s : list A) : bool :=
  match strip_prefix p s with
  | Some _ => true
  | None => false
  end.

Definition ends_with {A : Type} `{EqDecision A} (p s : list A) : bool :=
  starts_with (reverse p) (reverse s).

Definition contains {A : Type} `{EqDecision A} (c : A) (s : list A) : bool :=
  existsb (fun x => bool_decide (x = c)) s.

(** [s.contains(p)] for a substring [p]. *)
Fixpoint contains_sub {A : Type} `{EqDecision A} (p s : list A) : bool :=
  starts_with p s ||
  match s with
  | [] => false
  | _ :: s' => contains_sub p s'
  end.

(** [s.split(c)]: never empty, the separators removed. *)
Fixpoint split_on {A : Type} `{EqDecision A} (c : A) (s : list A) : list (list A) :=
  match s with
  | [] => [[]]
  | x :: s' =>
      if decide (x = c) then [] :: split_on c s'
      else match split_on c s' with
           | [] => [[x]]
           | h :: t => (x :: h) :: t
           end
  end.

(** [segments.join(sep)]. *)
Fixpoint join {A : Type} (sep : list A) (segs : list (list A)) : list A :=
  match segs with
  | [] => []
  | [h] => h
  | h :: t => h ++ sep ++ join sep t
  end.

(** [s.rsplit_once(c)]: the parts before and after the last [c]. *)
Fixpoint rsplit_once {A : Type} `{EqDecision A} (c : A) (s : list A) : option (list A * list A) :=
  match s with
  | [] => None
  | x :: s' =>
      match rsplit_once c s' with
      | Some (a, b) => Some (x :: a, b)
      | None => if decide (x = c) then Some ([], s') else None
      end
  end.

(** [Path::new(base).join(name)] on Unix: an absolute name replaces the base. *)
Definition path_join (base name : str) : str :=
  if starts_with ($"/") name then name
  else if decide (base = []) then name
  else if ends_with ($"/") base then base ++ name
  else base ++ $"/" ++ name.

(** ** Machine integers

    A [w]-bit integer is a [Z]; [wrap] is the truncation of an [as] cast to an
    unsigned type (and of release-mode arithmetic), [to_signed] that of a cast
    to a signed one. *)
Definition wrap (w z : Z) : Z := z mod 2 ^ w.

Definition to_signed (w z : Z) : Z :=
  let u := wrap w z in
  if u <? 2 ^ (w - 1) then u else u - 2 ^ w.

Definition in_u (w z : Z) : Prop := 0 <= z < 2 ^ w.

Definition in_i (w z : Z) : Prop := - 2 ^ (w - 1) <= z < 2 ^ (w - 1).

#[global] Instance in_u_dec (w z : Z) : Decision (in_u w z).
Proof. unfold in_u. apply _. Defined.

#[global] Instance in_i_dec (w z : Z) : Decision (in_i w z).
Proof. unfold in_i. apply _. Defined.

Definition u64_max : Z := 2 ^ 64 - 1.

(** [to_be_bytes] of an [8*n]-bit integer and [from_be_bytes]. *)
Fixpoint be_split (n : nat) (z : Z) : list Z :=
  match n with
  | O => []
  | S n' => (z / 2 ^ (8 * Z.of_nat n')) mod 256 :: be_split n' z
  end.

Definition be_combine (bs : list Z) : Z :=
  fold_left (fun acc b => acc * 256 + b) bs 0.

Abbreviation is_byte := (in_u 8).

(** ** Sorting

    [slice::sort_by_key], which is stable. *)
Fixpoint insert_by {A : Type} (key : A -> Z) (x : A) (l : list A) : list A :=
  match l with
  | [] => [x]
  | y :: l' => if key x <=? key y then x :: l else y :: insert_by key x l'
  end.

Definition sort_by {A : Type} (key : A -> Z) (l : list A) : list A := foldr (insert_by key) [] l.

(** ** Tactics *)

(** Splits boolean tests of a branch into the propositions they decide. *)
Ltac reflect_bools :=
  repeat match goal with
  | H : (_ && _)%bool = true |- _ => apply andb_prop in H; destruct H
  | H : (_ || _)%bool = false |- _ => apply orb_false_elim in H; destruct H
  | H : negb _ = true |- _ => apply negb_true_iff in H
  | H : negb _ = false |- _ => apply negb_false_iff in H
  | H : Z.ltb _ _ = true |- _ => apply Z.ltb_lt in H
  | H : Z.ltb _ _ = false |- _ => apply Z.ltb_ge in H
  | H : Z.leb _ _ = true |- _ => apply Z.leb_le in H
  | H : Z.leb _ _ = false |- _ => apply Z.leb_gt in H
  | H : Z.eqb _ _ = true |- _ => apply Z.eqb_eq in H
  | H : Z.eqb _ _ = false |- _ => apply Z.eqb_neq in H
  | H : Z.gtb _ _ = true |- _ => rewrite Z.gtb_ltb in H
  | H : Z.gtb _ _ = false |- _ => rewrite Z.gtb_ltb in H
  | H : bool_decide _ = true |- _ => apply bool_decide_eq_true_1 in H
  | H : bool_decide _ = false |- _ => apply bool_decide_eq_false_1 in H
  end.

(** Case analysis on the scrutinee of every [match]/[if] of the goal. *)
Ltac crush_match :=
  repeat case_match; reflect_bools; simplify_eq/=; try done; try lia.

(** ** Generic lemmas *)

Create HintDb rust.
Create Rewrite HintDb rust.

Lemma result_bind_Ok {E A B : Type} (r : result E A) (k : A -> result E B) b :
  result_bind r k = Ok b -> exists a, r = Ok a /\ k a = Ok b.
Proof. destruct r; naive_solver. Qed.

Lemma se_bind_run {S E A B : Type} (c : SE S E A) (k : A -> SE S E B) s a s' :
  c s = (Ok a, s') -> se_bind c k s = k a s'.
Proof. unfold se_bind. by intros ->. Qed.

Lemma se_bind_Ok {S E A B : Type} (c : SE S E A) (k : A -> SE S E B) s b s' :
  se_bind c k s = (Ok b, s') -> exists a s1, c s = (Ok a, s1) /\ k a s1 = (Ok b, s').
Proof. unfold se_bind. destruct (c s) as [[a|e] s1]; naive_solver. Qed.

Lemma se_bind_Err {S E A B : Type} (c : SE S E A) (k : A -> SE S E B) s e s' :
  se_bind c k s = (Err e, s') ->
  c s = (Err e, s') \/ exists a s1, c s = (Ok a, s1) /\ k a s1 = (Err e, s').
Proof. unfold se_bind. destruct (c s) as [[a|e'] s1]; naive_solver. Qed.

Lemma rsplit_once_Some {A : Type} `{EqDecision A} (c : A) s a b :
  rsplit_once c s = Some (a, b) -> s = a ++ c :: b /\ c ∉ b.
Proof.
  revert a b. induction s as [|x s IH]; intros a b; simpl; [done|].
  destruct (rsplit_once c s) as [[a' b']|] eqn:E.
  - intros [= <- <-]. destruct (IH _ _ eq_refl) as [-> ?]. done.
  - case_decide; [|done]. intros [= <- <-]. subst. split; [done|]. clear IH. intros Hin.
    induction s as [|y s IH]; [by apply elem_of_nil in Hin|]. simpl in E.
    destruct (rsplit_once c s) as [[? ?]|]; [done|]. case_decide; [done|].
    apply elem_of_cons in Hin as [->|Hin]; [done|]. by apply IH.
Qed.

Lemma wrap_range w z : 0 <= w -> in_u w (wrap w z).
Proof. intros Hw. unfold in_u, wrap. apply Z.mod_pos_bound. by apply Z.pow_pos_nonneg. Qed.

Lemma wrap_id w z : in_u w z -> wrap w z = z.
Proof. apply Z.mod_small. Qed.

Lemma to_signed_range w z : 0 < w -> in_i w (to_signed w z).
Proof.
  intros Hw. unfold in_i, to_signed.
  pose proof (wrap_range w z ltac:(lia)) as [H0 H1].
  assert (2 ^ w = 2 * 2 ^ (w - 1)) as E by (rewrite <-Z.pow_succ_r by lia; f_equal; lia).
  destruct (Z.ltb_spec (wrap w z) (2 ^ (w - 1))); lia.
Qed.

Lemma to_signed_id w z : 0 < w -> in_i w z -> to_signed w z = z.
Proof.
  intros Hw [H0 H1]. unfold to_signed, wrap.
  assert (2 ^ w = 2 * 2 ^ (w - 1)) as E by (rewrite <-Z.pow_succ_r by lia; f_equal; lia).
  destruct (decide (0 <= z)).
  - rewrite Z.mod_small by lia. destruct (Z.ltb_spec z (2 ^ (w - 1))); lia.
  - assert (z mod 2 ^ w = z + 2 ^ w) as ->.
    { symmetry. apply (Z.mod_unique z (2 ^ w) (-1)); lia. }
    destruct (Z.ltb_spec (z + 2 ^ w) (2 ^ (w - 1))); lia.
Qed.

(** Casting to signed and back is the identity on the unsigned type. *)
Lemma wrap_to_signed w z : 0 < w -> in_u w z -> wrap w (to_signed w z) = z.
Proof.
  intros Hw Hz. unfold to_signed. rewrite (wrap_id w z Hz). destruct Hz.
  destruct (Z.ltb_spec z (2 ^ (w - 1))).
  - by apply Z.mod_small.
  - unfold wrap. symmetry. apply (Z.mod_unique _ _ (-1)); lia.
Qed.

Lemma length_be_split n z : length (be_split n z) = n.
Proof. induction n; simpl; congruence. Qed.

Lemma be_split_bytes n z : Forall is_byte (be_split n z).
Proof.
  induction n; simpl; constructor; [|done].
  unfold in_u. apply Z.mod_pos_bound. lia.
Qed.

Lemma be_combine_acc bs acc :
  fold_left (fun a b => a * 256 + b) bs acc = acc * 2 ^ (8 * Z.of_nat (length bs)) + be_combine bs.
Proof.
  unfold be_combine. revert acc. induction bs as [|b bs IH]; intros acc; simpl fold_left.
  - simpl. lia.
  - rewrite IH, (IH (0 * 256 + b)). simpl length. rewrite Nat2Z.inj_succ.
    replace (8 * Z.succ (Z.of_nat (length bs))) with (8 + 8 * Z.of_nat (length bs)) by lia.
    rewrite Z.pow_add_r by lia. change (2 ^ 8) with 256. ring.
Qed.

Lemma be_combine_cons b bs :
  be_combine (b :: bs) = b * 2 ^ (8 * Z.of_nat (length bs)) + be_combine bs.
Proof. unfold be_combine at 1. simpl. rewrite be_combine_acc. f_equal. Qed.

Lemma be_combine_split n z : be_combine (be_split n z) = z mod 2 ^ (8 * Z.of_nat n).
Proof.
  induction n as [|n IH].
  - simpl. rewrite Z.mod_1_r. done.
  - cbn [be_split]. rewrite be_combine_cons, length_be_split, IH, Nat2Z.inj_succ.
    replace (8 * Z.succ (Z.of_nat n)) with (8 * Z.of_nat n + 8) by lia.
    rewrite (Z.pow_add_r 2 _ 8) by lia. change (2 ^ 8) with 256.
    rewrite Z.rem_mul_r by lia. ring.
Qed.

Lemma be_combine_split_id n z : in_u (8 * Z.of_nat n) z -> be_combine (be_split n z) = z.
Proof. intros H. rewrite be_combine_split. by apply Z.mod_small. Qed.

Lemma be_combine_bound bs : Forall is_byte bs -> in_u (8 * Z.of_nat (length bs)) (be_combine bs).
Proof.
  unfold in_u. induction 1 as [|b bs Hb Hbs IH]; [simpl; unfold be_combine; simpl; lia|].
  rewrite be_combine_cons. simpl length. rewrite Nat2Z.inj_succ.
  replace (8 * Z.succ (Z.of_nat (length bs))) with (8 + 8 * Z.of_nat (length bs)) by lia.
  rewrite Z.pow_add_r by lia. change (2 ^ 8) with 256 in *. nia.
Qed.

Lemma mod_mul_mod a b c : 0 < b -> 0 < c -> (a mod (b * c)) mod b = a mod b.
Proof.
  intros Hb Hc. rewrite Z.rem_mul_r by lia.
  rewrite Z.mul_comm, Z.mod_add, Z.mod_mod by lia. done.
Qed.

Lemma be_split_mod n z m : (n <= m)%nat -> be_split n (z mod 2 ^ (8 * Z.of_nat m)) = be_split n z.
Proof.
  revert m. induction n as [|n IH]; intros m Hm; [done|]. cbn [be_split].
  f_equal; [|apply IH; lia].
  replace (8 * Z.of_nat m) with (8 * Z.of_nat n + 8 * (Z.of_nat m - Z.of_nat n)) by lia.
  rewrite Z.pow_add_r by lia.
  rewrite Z.rem_mul_r by lia.
  rewrite (Z.mul_comm (2 ^ (8 * Z.of_nat n))), Z.div_add, (Z.div_small (_ mod _)), Z.add_0_l by
    first [lia | apply Z.mod_pos_bound; lia].
  replace (8 * (Z.of_nat m - Z.of_nat n)) with (8 + 8 * (Z.of_nat m - Z.of_nat n - 1)) by lia.
  rewrite Z.pow_add_r by lia. change (2 ^ 8) with 256.
  by rewrite mod_mul_mod by lia.
Qed.

Lemma be_split_combine bs : Forall is_byte bs -> be_split (length bs) (be_combine bs) = bs.
Proof.
  induction 1 as [|b bs Hb Hbs IH]; [done|].
  cbn [be_split length]. pose proof (be_combine_bound bs Hbs) as [H0 H1].
  rewrite be_combine_cons. f_equal.
  - rewrite Z.div_add_l, Z.div_small, Z.add_0_r by lia. by apply Z.mod_small.
  - transitivity (be_split (length bs) (be_combine bs)); [|done].
    rewrite <-(be_split_mod _ (b * _ + _) (length bs)) by lia. f_equal.
    rewrite (Z.add_comm (b * _)), Z.mod_add by lia. by apply Z.mod_small.
Qed.

Lemma be_split_inj n x y :
  in_u (8 * Z.of_nat n) x -> in_u (8 * Z.of_nat n) y -> be_split n x = be_split n y -> x = y.
Proof.
  intros Hx Hy E. apply (f_equal be_combine) in E. by rewrite !be_combine_split_id in E.
Qed.

Lemma strip_prefix_Some {A : Type} `{EqDecision A} (p s r : list A) :
  strip_prefix p s = Some r <-> s = p ++ r.
Proof.
  revert s. induction p as [|x p IH]; intros s; simpl; [naive_solver|].
  destruct s as [|y s]; [naive_solver|]. case_decide; [|naive_solver].
  rewrite IH. naive_solver.
Qed.

Lemma strip_prefix_app {A : Type} `{EqDecision A} (p r : list A) : strip_prefix p (p ++ r) = Some r.
Proof. by apply strip_prefix_Some. Qed.

Lemma starts_with_spec {A : Type} `{EqDecision A} (p s : list A) :
  starts_with p s = true <-> exists r, s = p ++ r.
Proof.
  unfold starts_with. destruct (strip_prefix p s) eqn:E.
  - apply strip_prefix_Some in E. naive_solver.
  - split; [done|]. intros [r ->]. by rewrite strip_prefix_app in E.
Qed.

Lemma ends_with_spec {A : Type} `{EqDecision A} (p s : list A) :
  ends_with p s = true <-> exists r, s = r ++ p.
Proof.
  unfold ends_with. rewrite starts_with_spec. split; intros [r E].
  - exists (reverse r). rewrite <-(reverse_involutive s), E, reverse_app, reverse_involutive. done.
  - exists (reverse r). by rewrite E, reverse_app.
Qed.

Lemma starts_with_app {A : Type} `{EqDecision A} (p s : list A) : starts_with p (p ++ s) = true.
Proof.
  unfold starts_with. induction p as [|x p IH]; [done|]. cbn. by rewrite decide_True.
Qed.

Lemma contains_spec {A : Type} `{EqDecision A} (c : A) (s : list A) :
  contains c s = true <-> c ∈ s.
Proof.
  unfold contains. rewrite existsb_exists. split.
  - intros (x & Hin & ->%bool_decide_eq_true_1). by apply list_elem_of_In.
  - intros Hin. exists c. rewrite bool_decide_eq_true_2 by done.
    split; [by apply list_elem_of_In|done].
Qed.

Lemma contains_false {A : Type} `{EqDecision A} (c : A) (s : list A) :
  contains c s = false <-> c ∉ s.
Proof. rewrite <-contains_spec. destruct (contains c s); naive_solver. Qed.

Lemma split_on_nonempty {A : Type} `{EqDecision A} (c : A) s : split_on c s <> [].
Proof. destruct s; simpl; [done|]. repeat case_match; done. Qed.

Lemma join_split_on {A : Type} `{EqDecision A} (c : A) s : join [c] (split_on c s) = s.
Proof.
  induction s as [|x s IH]; [done|]. simpl. pose proof (split_on_nonempty c s) as Hne.
  case_decide as E; subst.
  - destruct (split_on c s); [done|]. simpl in *. by f_equal.
  - destruct (split_on c s) as [|h t]; [done|]. rewrite <-IH. by destruct t.
Qed.

Lemma elem_of_join {A : Type} (sep : list A) segs seg x :
  x ∈ seg -> seg ∈ segs -> x ∈ join sep segs.
Proof.
  intros Hx. induction segs as [|h t IH]; [by intros ?%elem_of_nil|].
  destruct t as [|h' t].
  - by intros ->%list_elem_of_singleton.
  - change (join sep (h :: h' :: t)) with (h ++ sep ++ join sep (h' :: t)).
    rewrite !elem_of_app. intros [->|Hin]%elem_of_cons; [by left|]. right; right. by apply IH.
Qed.

Lemma split_on_no_sep {A : Type} `{EqDecision A} (c : A) s seg : seg ∈ split_on c s -> c ∉ seg.
Proof.
  revert seg. induction s as [|x s IH]; simpl; intros seg.
  - intros ->%list_elem_of_singleton. apply not_elem_of_nil.
  - case_decide as E; subst.
    + intros [->|Hin]%elem_of_cons; [apply not_elem_of_nil|auto].
    + destruct (split_on c s) as [|h t].
      * intros ->%list_elem_of_singleton. by intros ?%list_elem_of_singleton.
      * intros [->|Hin]%elem_of_cons.
        -- intros [->|Hc]%elem_of_cons; [done|]. by apply (IH h); [left|].
        -- apply IH. by right.
Qed.

Lemma split_on_app_sep {A : Type} `{EqDecision A} (c : A) h s :
  c ∉ h -> split_on c (h ++ c :: s) = h :: split_on c s.
Proof.
  induction h as [|x h IH]; simpl; intros Hn.
  - by rewrite decide_True.
  - rewrite decide_False by set_solver. rewrite IH by set_solver. done.
Qed.

Lemma split_on_no {A : Type} `{EqDecision A} (c : A) h : c ∉ h -> split_on c h = [h].
Proof.
  induction h as [|x h IH]; simpl; intros Hn; [done|].
  rewrite decide_False by set_solver. rewrite IH by set_solver. done.
Qed.

Lemma split_on_join {A : Type} `{EqDecision A} (c : A) segs :
  segs <> [] -> (forall seg, seg ∈ segs -> c ∉ seg) -> split_on c (join [c] segs) = segs.
Proof.
  induction segs as [|h t IH]; [done|]. intros _ Hn. destruct t as [|h' t].
  - simpl. apply split_on_no. set_solver.
  - change (join [c] (h :: h' :: t)) with (h ++ c :: join [c] (h' :: t)).
    rewrite split_on_app_sep by set_solver. rewrite IH; [done|done|set_solver].
Qed.

#[export] Hint Resolve wrap_range to_signed_range be_split_bytes : rust.
#[export] Hint Rewrite length_be_split @strip_prefix_app : rust.

(** *** Sorting *)

Lemma insert_by_perm {A : Type} (key : A -> Z) x l : insert_by key x l ≡ₚ x :: l.
Proof.
  induction l as [|y l IH]; [done|]. cbn. destruct (key x <=? key y); [done|]. rewrite IH. apply Permutation_swap.
Qed.

Lemma sort_by_perm {A : Type} (key : A -> Z) l : sort_by key l ≡ₚ l.
Proof. induction l as [|x l IH]; [done|]. cbn. by rewrite insert_by_perm, IH. Qed.

Lemma insert_by_sorted {A : Type} (key : A -> Z) x l :
  StronglySorted (fun a b => key a <= key b) l -> StronglySorted (fun a b => key a <= key b) (insert_by key x l).
Proof.
  induction 1 as [|y l HS IH HF]; cbn; [repeat constructor|].
  destruct (Z.leb_spec (key x) (key y)).
  - constructor; [by constructor|]. constructor; [lia|]. eapply Forall_impl; [exact HF|]. cbn. lia.
  - constructor; [done|]. rewrite insert_by_perm. constructor; [lia|done].
Qed.

Lemma sort_by_sorted {A : Type} (key : A -> Z) l : StronglySorted (fun a b => key a <= key b) (sort_by key l).
Proof. induction l; [constructor|]. cbn. by apply insert_by_sorted. Qed.

Lemma sort_by_fmap {A B : Type} (f : A -> B) (key : B -> Z) l :
  sort_by key (f <$> l) = f <$> sort_by (fun a => key (f a)) l.
Proof.
  unfold sort_by. induction l as [|x l IH]; [done|]. rewrite fmap_cons. cbn [foldr]. rewrite IH. clear IH.
  induction (foldr _ [] l) as [|y l' IH]; [done|]. rewrite fmap_cons. cbn [insert_by].
  destruct (key (f x) <=? key (f y)); [done|]. rewrite fmap_cons. by rewrite IH.
Qed.

(** Equal keys keep their order. *)
Lemma sort_by_const {A : Type} (key : A -> Z) (k : Z) l :
  Forall (fun a => key a = k) l -> sort_by key l = l.
Proof.
  unfold sort_by. induction 1 as [|x l E HF IH]; [done|]. cbn [foldr]. rewrite IH. destruct HF as [|y l E' HF]; [done|]. cbn.
  by rewrite E, E', Z.leb_refl.
Qed.

(** What a prefix of the sorted list leaves out has no smaller key. *)
Lemma sort_by_take_least {A : Type} (key : A -> Z) n l a b :
  a ∈ take n (sort_by key l) -> b ∈ l -> b ∈ take n (sort_by key l) \/ key a <= key b.
Proof.
  intros Ha Hb. rewrite <-(sort_by_perm key), <-(take_drop n (sort_by key l)) in Hb.
  apply elem_of_app in Hb as [Hb|Hb]; [by left|]. right.
  pose proof (sort_by_sorted key l) as HS. rewrite <-(take_drop n (sort_by key l)) in HS.
  revert HS Ha Hb. generalize (take n (sort_by key l)) (drop n (sort_by key l)). intros p q.
  induction p as [|x p IH]; [intros _ ?%elem_of_nil; done|]. intros [HS HF]%StronglySorted_inv.
  intros [->|Ha]%elem_of_cons Hb; [|auto]. rewrite Forall_forall in HF. apply HF. set_solver.
Qed.
