(* ===== verification/Core.v ===== *)
(** * Core types of [syncthing-core]

    The data every other component exchanges
    ([crates/syncthing-core/src/types/mod.rs], [types/folder.rs]): version
    vectors with their comparisons, file metadata, folders and index
    messages.  A [HashMap<u64, u64>] is a [gmap Z Z]; counters are 64-bit and
    wrap on overflow as release-mode arithmetic does. *)

From S2P Require Import Prelude.

(** ** Version vectors *)

Record Vector := mkVector { counters : gmap Z Z }.

#[global] Instance Vector_eq_dec : EqDecision Vector.
Proof. solve_decision. Defined.

Definition vector_new : Vector := mkVector ∅.

Definition vector_with_counter (v : Vector) (device_id counter : Z) : Vector :=
  mkVector (<[device_id := counter]> (counters v)).

Definition vector_get (v : Vector) (device_id : Z) : Z :=
  default 0 (counters v !! device_id).

(** [*counters.entry(device_id).or_insert(0) += 1] *)
Definition vector_increment (v : Vector) (device_id : Z) : Vector :=
  mkVector (<[device_id := wrap 64 (vector_get v device_id + 1)]> (counters v)).

Inductive VersionComparison := Equal | Greater | Less | Conflict.

#[global] Instance VersionComparison_eq_dec : EqDecision VersionComparison.
Proof. solve_decision. Defined.

(** The [HashSet] of the keys of both vectors; its iteration order is
    unspecified, so the loops below take the enumeration as an argument. *)
Definition all_devices (a b : Vector) : list Z :=
  elements (dom (counters a) ∪ dom (counters b)).

Definition compare_step (a b : Vector) (flags : bool * bool) (device : Z) : bool * bool :=
  let '(has_greater, has_less) := flags in
  let self_count := vector_get a device in
  let other_count := vector_get b device in
  if self_count >? other_count then (true, has_less)
  else if self_count <? other_count then (has_greater, true)
  else (has_greater, has_less).

Definition compare_flags (flags : bool * bool) : VersionComparison :=
  match flags with
  | (true, true) => Conflict
  | (true, false) => Greater
  | (false, true) => Less
  | (false, false) => Equal
  end.

Definition vector_compare_in (a b : Vector) (devices : list Z) : VersionComparison :=
  compare_flags (fold_left (compare_step a b) devices (false, false)).

Definition vector_compare (a b : Vector) : VersionComparison :=
  vector_compare_in a b (all_devices a b).

Fixpoint dominates_in (a b : Vector) (devices : list Z) : bool :=
  match devices with
  | [] => true
  | device :: rest =>
      if vector_get a device <? vector_get b device then false
      else dominates_in a b rest
  end.

Definition vector_dominates (a b : Vector) : bool :=
  dominates_in a b (all_devices a b).

Inductive ConcurrentOrder := SelfGreater | OtherGreater.

#[global] Instance ConcurrentOrder_eq_dec : EqDecision ConcurrentOrder.
Proof. solve_decision. Defined.

Fixpoint concurrent_order_loop (a b : Vector) (ids : list Z) (first : option ConcurrentOrder)
  : option ConcurrentOrder :=
  match ids with
  | [] => None
  | id :: rest =>
      let x := vector_get a id in
      let y := vector_get b id in
      let dir := if x >? y then Some SelfGreater
                 else if x <? y then Some OtherGreater
                 else None in
      match dir, first with
      | None, _ => concurrent_order_loop a b rest first
      | Some d, None => concurrent_order_loop a b rest (Some d)
      | Some d, Some d0 =>
          if bool_decide (d0 <> d) then first
          else concurrent_order_loop a b rest first
      end
  end.

(** The [BTreeSet] is iterated in increasing order. *)
Definition sorted_devices (a b : Vector) : list Z :=
  merge_sort Z.le (all_devices a b).

Definition vector_concurrent_order (a b : Vector) : option ConcurrentOrder :=
  concurrent_order_loop a b (sorted_devices a b) None.

(** ** Index identifiers *)

(** [IndexID(pub [u8; 8])] *)
Record IndexID := mkIndexID { index_id_bytes : list Z }.

#[global] Instance IndexID_eq_dec : EqDecision IndexID.
Proof. solve_decision. Defined.

Definition index_id_from_u64 (value : Z) : IndexID := mkIndexID (be_split 8 value).

Definition index_id_as_u64 (i : IndexID) : Z := be_combine (index_id_bytes i).

(** ** File metadata *)

Inductive FileType := File | Directory | Symlink.

#[global] Instance FileType_eq_dec : EqDecision FileType.
Proof. solve_decision. Defined.

Record BlockInfo := mkBlockInfo {
  bi_size : Z;
  bi_hash : list Z;
  bi_offset : Z;
}.

#[global] Instance BlockInfo_eq_dec : EqDecision BlockInfo.
Proof. solve_decision. Defined.

Record FileInfoBase := mkFileInfoBase {
  base_size : Z;
  base_modified_s : Z;
  base_modified_ns : Z;
  base_blocks_hash : option (list Z);
  base_content_hash : option (list Z);
}.

#[global] Instance FileInfoBase_eq_dec : EqDecision FileInfoBase.
Proof. solve_decision. Defined.

Record FileInfo := mkFileInfo {
  name : str;
  file_type : FileType;
  size : Z;
  permissions : Z;
  modified_s : Z;
  modified_ns : Z;
  version : Vector;
  sequence : Z;
  block_size : Z;
  blocks : list BlockInfo;
  symlink_target : option str;
  deleted : option bool;
  modified_by : option Z;
  blocks_hash : option (list Z);
  no_permissions : option bool;
  base_version : option FileInfoBase;
}.

#[global] Instance FileInfo_eq_dec : EqDecision FileInfo.
Proof. solve_decision. Defined.

Definition file_info_new (n : str) : FileInfo :=
  mkFileInfo n File 0 0 0 0 vector_new 0 0 [] None (Some false) None None None None.

Definition is_deleted (f : FileInfo) : bool := default false (deleted f).

Definition mark_deleted (f : FileInfo) : FileInfo :=
  mkFileInfo (name f) (file_type f) (size f) (permissions f) (modified_s f) (modified_ns f)
    (version f) (sequence f) (block_size f) (blocks f) (symlink_target f) (Some true)
    (modified_by f) (blocks_hash f) (no_permissions f) (base_version f).

(** [file.sequence = s] *)
Definition with_sequence (f : FileInfo) (s : Z) : FileInfo :=
  mkFileInfo (name f) (file_type f) (size f) (permissions f) (modified_s f) (modified_ns f)
    (version f) s (block_size f) (blocks f) (symlink_target f) (deleted f)
    (modified_by f) (blocks_hash f) (no_permissions f) (base_version f).

(** ** Index messages, folders *)

Record Index := mkIndex { index_folder : str; index_files : list FileInfo }.

Record IndexUpdate := mkIndexUpdate { update_folder_id : str; update_files_list : list FileInfo }.

Record IndexDelta := mkIndexDelta {
  delta_folder : str;
  delta_index_id : IndexID;
  delta_start_sequence : Z;
  delta_files : list FileInfo;
}.

Inductive FolderType := SendReceive | SendOnly | ReceiveOnly | ReceiveEncrypted.

Definition folder_can_send (t : FolderType) : bool :=
  match t with
  | SendReceive | SendOnly => true
  | _ => false
  end.

Definition folder_can_sync (t : FolderType) : bool :=
  match t with
  | SendReceive | ReceiveOnly | ReceiveEncrypted => true
  | _ => false
  end.

Inductive FolderStatus :=
| FolderIdle | FolderScanWaiting | FolderScanning | FolderSyncWaiting | FolderPulling | FolderPushing
| FolderSynced | FolderPaused | FolderError.

(** [DeviceId(pub [u8; 32])] *)
Record DeviceId := mkDeviceId { device_id_bytes : list Z }.

#[global] Instance DeviceId_eq_dec : EqDecision DeviceId.
Proof. solve_decision. Defined.

#[global] Instance DeviceId_countable : Countable DeviceId.
Proof.
  refine (inj_countable' device_id_bytes mkDeviceId _). by intros [].
Defined.

Inductive VersioningConfig :=
| VersioningNone
| VersioningSimple (params : gmap str str)
| VersioningStaggered (params : gmap str str)
| VersioningExternal (params : gmap str str).

Record Folder := mkFolder {
  folder_id : str;
  folder_path : str;
  folder_label : option str;
  folder_type : FolderType;
  folder_paused : bool;
  rescan_interval_secs : Z;
  folder_devices : list DeviceId;
  ignore_patterns : list str;
  versioning : option VersioningConfig;
}.

Definition folder_new (id path : str) : Folder :=
  mkFolder id path None SendReceive false 3600 [] [] None.

(** ** The causal order

    [vle a b]: [b] has seen everything [a] has.  Vectors are identified up to
    their counter values: an absent counter reads as 0. *)
Definition vle (a b : Vector) : Prop := forall d, vector_get a d <= vector_get b d.

#[global] Instance Vector_equiv : Equiv Vector :=
  fun a b => forall d, vector_get a d = vector_get b d.

Definition concurrent (a b : Vector) : Prop := ~ vle a b /\ ~ vle b a.

Definition flip_order (o : ConcurrentOrder) : ConcurrentOrder :=
  match o with
  | SelfGreater => OtherGreater
  | OtherGreater => SelfGreater
  end.

Definition flip_comparison (c : VersionComparison) : VersionComparison :=
  match c with
  | Equal => Equal
  | Greater => Less
  | Less => Greater
  | Conflict => Conflict
  end.

(** [first_divergence a b id]: the smallest counter ID on which they differ. *)
Definition first_divergence (a b : Vector) (id : Z) : Prop :=
  vector_get a id <> vector_get b id /\ forall id', id' < id -> vector_get a id' = vector_get b id'.

#[global] Instance Vector_equivalence : Equivalence (≡@{Vector}).
Proof.
  split; unfold equiv, Vector_equiv.
  - done.
  - intros a b H d. by rewrite H.
  - intros a b c H1 H2 d. by rewrite H1, H2.
Qed.

#[global] Instance vle_preorder : PreOrder vle.
Proof. split; [intros a d; lia|intros a b c H1 H2 d; specialize (H1 d); specialize (H2 d); lia]. Qed.

Lemma vle_antisymm a b : vle a b -> vle b a -> a ≡ b.
Proof. intros H1 H2 d. specialize (H1 d); specialize (H2 d). lia. Qed.

#[global] Instance vle_proper : Proper ((≡) ==> (≡) ==> iff) vle.
Proof.
  intros a a' Ha b b' Hb. split; intros H d; specialize (H d);
    specialize (Ha d); specialize (Hb d); lia.
Qed.

Lemma vector_get_with_counter v d c d' :
  vector_get (vector_with_counter v d c) d' = if decide (d = d') then c else vector_get v d'.
Proof.
  unfold vector_get, vector_with_counter; simpl. rewrite lookup_insert.
  by case_decide.
Qed.

Lemma vector_get_increment v d d' :
  vector_get (vector_increment v d) d' =
  if decide (d = d') then wrap 64 (vector_get v d + 1) else vector_get v d'.
Proof. apply vector_get_with_counter. Qed.

Lemma get_outside a b d : d ∉ all_devices a b -> vector_get a d = 0 /\ vector_get b d = 0.
Proof.
  unfold all_devices. rewrite elem_of_elements, elem_of_union, !elem_of_dom.
  unfold vector_get. intros Hn. destruct (counters a !! d), (counters b !! d);
    try by (exfalso; apply Hn; eauto). done.
Qed.

Lemma all_devices_comm a b : all_devices a b = all_devices b a.
Proof. unfold all_devices. by rewrite (union_comm_L (dom (counters a))). Qed.

(** Enumerations of the devices: what the loops may be given. *)
Definition enumerates (a b : Vector) (ids : list Z) : Prop :=
  forall d, d ∉ ids -> vector_get a d = vector_get b d.

Lemma all_devices_enumerates a b : enumerates a b (all_devices a b).
Proof. intros d Hd. by destruct (get_outside a b d Hd) as [-> ->]. Qed.

Lemma enumerates_perm a b ids ids' : ids ≡ₚ ids' -> enumerates a b ids -> enumerates a b ids'.
Proof. intros Hp He d Hd. apply He. by rewrite Hp. Qed.

Lemma dominates_in_spec a b ids :
  enumerates a b ids -> dominates_in a b ids = true <-> vle b a.
Proof.
  intros He.
  assert (dominates_in a b ids = true <-> forall d, d ∈ ids -> vector_get b d <= vector_get a d) as ->.
  { clear He. induction ids as [|x ids IH]; simpl.
    - split; [intros _ d Hd; by apply not_elem_of_nil in Hd|done].
    - destruct (Z.ltb_spec (vector_get a x) (vector_get b x)).
      + split; [done|]. intros Hd. specialize (Hd x ltac:(by left)). lia.
      + rewrite IH. split; [|by intros Hd d ?; apply Hd; right].
        intros Hd d [->|?]%elem_of_cons; [lia|auto]. }
  split; [|intros Hv d _; apply Hv].
  intros Hd d. destruct (decide (d ∈ ids)); [auto|]. rewrite (He d) by done. lia.
Qed.

Lemma vector_dominates_spec a b : vector_dominates a b = true <-> vle b a.
Proof. apply dominates_in_spec, all_devices_enumerates. Qed.

Lemma vector_dominates_false a b : vector_dominates a b = false <-> ~ vle b a.
Proof. rewrite <-vector_dominates_spec. destruct (vector_dominates a b); naive_solver. Qed.

#[global] Instance vle_dec a b : Decision (vle a b).
Proof.
  refine (match vector_dominates b a as x return vector_dominates b a = x -> _ with
          | true => fun H => left _
          | false => fun H => right _
          end eq_refl).
  - by apply vector_dominates_spec.
  - by apply vector_dominates_false.
Defined.

Lemma compare_step_fold a b ids g l :
  fold_left (compare_step a b) ids (g, l) =
  (g || negb (dominates_in b a ids), l || negb (dominates_in a b ids)).
Proof.
  revert g l. induction ids as [|x ids IH]; intros g l; simpl.
  - by rewrite !orb_false_r.
  - rewrite Z.gtb_ltb.
    destruct (Z.ltb_spec (vector_get b x) (vector_get a x)) as [H1|H1];
      destruct (Z.ltb_spec (vector_get a x) (vector_get b x)) as [H2|H2]; try lia;
      rewrite IH; simpl; rewrite ?orb_true_r; done.
Qed.

Lemma vector_compare_in_dominates a b ids :
  vector_compare_in a b ids =
  compare_flags (negb (dominates_in b a ids), negb (dominates_in a b ids)).
Proof. unfold vector_compare_in. by rewrite compare_step_fold. Qed.

Lemma enumerates_sym a b ids : enumerates a b ids -> enumerates b a ids.
Proof. intros H d Hd. symmetry. by apply H. Qed.

Lemma dominates_in_enum a b ids :
  enumerates a b ids -> dominates_in a b ids = vector_dominates a b.
Proof.
  intros He. apply eq_true_iff_eq.
  by rewrite dominates_in_spec, vector_dominates_spec.
Qed.

Lemma vector_compare_in_enum a b ids :
  enumerates a b ids ->
  vector_compare_in a b ids =
  compare_flags (negb (vector_dominates b a), negb (vector_dominates a b)).
Proof.
  intros He. rewrite vector_compare_in_dominates.
  by rewrite (dominates_in_enum a b), (dominates_in_enum b a) by auto using enumerates_sym.
Qed.

Lemma vector_compare_dominates a b :
  vector_compare a b = compare_flags (negb (vector_dominates b a), negb (vector_dominates a b)).
Proof. apply vector_compare_in_enum, all_devices_enumerates. Qed.

Lemma vector_compare_cases a b :
  match vector_compare a b with
  | Equal => a ≡ b
  | Greater => vle b a /\ ~ vle a b
  | Less => vle a b /\ ~ vle b a
  | Conflict => concurrent a b
  end.
Proof.
  rewrite vector_compare_dominates.
  destruct (vector_dominates b a) eqn:E1; destruct (vector_dominates a b) eqn:E2; simpl;
    rewrite ?vector_dominates_spec, ?vector_dominates_false in E1;
    rewrite ?vector_dominates_spec, ?vector_dominates_false in E2; try done.
  by apply vle_antisymm.
Qed.

(** The direction of one counter, as both loops compute it. *)
Definition dir_at (a b : Vector) (id : Z) : option ConcurrentOrder :=
  if vector_get a id >? vector_get b id then Some SelfGreater
  else if vector_get a id <? vector_get b id then Some OtherGreater
  else None.

Lemma dir_at_cases a b id :
  match dir_at a b id with
  | Some SelfGreater => vector_get b id < vector_get a id
  | Some OtherGreater => vector_get a id < vector_get b id
  | None => vector_get a id = vector_get b id
  end.
Proof. unfold dir_at. rewrite Z.gtb_ltb. crush_match. Qed.

Lemma dir_at_flip a b id : dir_at b a id = flip_order <$> dir_at a b id.
Proof. unfold dir_at. rewrite !Z.gtb_ltb. crush_match. Qed.

Lemma concurrent_order_loop_cons a b id ids first :
  concurrent_order_loop a b (id :: ids) first =
  match dir_at a b id, first with
  | None, _ => concurrent_order_loop a b ids first
  | Some d, None => concurrent_order_loop a b ids (Some d)
  | Some d, Some d0 => if bool_decide (d0 <> d) then first else concurrent_order_loop a b ids first
  end.
Proof. done. Qed.

Lemma concurrent_order_loop_flip a b ids first :
  concurrent_order_loop b a ids (flip_order <$> first) =
  flip_order <$> concurrent_order_loop a b ids first.
Proof.
  revert first. induction ids as [|id ids IH]; intros first; [done|].
  rewrite !concurrent_order_loop_cons, (dir_at_flip a b).
  destruct (dir_at a b id) as [d|], first as [d0|]; simpl; rewrite <-?IH; try done.
  destruct d, d0; simpl; by rewrite <-?IH.
Qed.

Lemma concurrent_order_flip a b :
  vector_concurrent_order b a = flip_order <$> vector_concurrent_order a b.
Proof.
  unfold vector_concurrent_order, sorted_devices. rewrite (all_devices_comm b a).
  apply (concurrent_order_loop_flip a b _ None).
Qed.

(** With a first direction fixed, the loop answers it exactly when some later
    counter goes the other way. *)
Lemma concurrent_order_loop_Some a b ids d0 :
  concurrent_order_loop a b ids (Some d0) =
  if bool_decide (Exists (fun id => dir_at a b id = Some (flip_order d0)) ids) then Some d0 else None.
Proof.
  induction ids as [|id ids IH].
  - rewrite bool_decide_eq_false_2; [done|]. by intros ?%Exists_nil.
  - rewrite concurrent_order_loop_cons, IH.
    rewrite (bool_decide_ext _ _ (Exists_cons _ id ids)).
    destruct (dir_at a b id) as [d|] eqn:E.
    + destruct d, d0; repeat case_bool_decide; naive_solver.
    + repeat case_bool_decide; naive_solver.
Qed.

Lemma concurrent_order_loop_None a b ids :
  concurrent_order_loop a b ids None = None <->
  (forall d, ~ (Exists (fun id => dir_at a b id = Some d) ids /\
                Exists (fun id => dir_at a b id = Some (flip_order d)) ids)).
Proof.
  induction ids as [|id ids IH].
  - split; [|done]. intros _ d [H _]. by apply Exists_nil in H.
  - rewrite concurrent_order_loop_cons. setoid_rewrite Exists_cons.
    destruct (dir_at a b id) as [d|] eqn:E.
    + rewrite concurrent_order_loop_Some. case_bool_decide as Hx.
      * split; [done|]. intros Hn. exfalso. apply (Hn d). naive_solver.
      * split; [|done]. intros _ d'. destruct d, d'; naive_solver.
    + rewrite IH. naive_solver.
Qed.

Lemma sorted_devices_perm a b : sorted_devices a b ≡ₚ all_devices a b.
Proof. apply merge_sort_Permutation. Qed.

Lemma Exists_dir_at a b d :
  Exists (fun id => dir_at a b id = Some d) (sorted_devices a b) <->
  exists id, dir_at a b id = Some d.
Proof.
  rewrite Exists_exists. split; [naive_solver|]. intros [id E]. exists id. split; [|done].
  rewrite sorted_devices_perm. destruct (decide (id ∈ all_devices a b)) as [|Hn]; [done|].
  exfalso. destruct (get_outside a b id Hn) as [E1 E2]. unfold dir_at in E.
  rewrite E1, E2 in E. done.
Qed.

Lemma concurrent_dirs a b :
  concurrent a b <-> (exists i, dir_at a b i = Some SelfGreater) /\
                     (exists j, dir_at a b j = Some OtherGreater).
Proof.
  unfold concurrent. split.
  - intros [H1 H2].
    destruct (decide (Exists (fun i => dir_at a b i = Some SelfGreater) (sorted_devices a b))) as [Hs|Hs];
      destruct (decide (Exists (fun i => dir_at a b i = Some OtherGreater) (sorted_devices a b))) as [Ho|Ho];
      rewrite Exists_dir_at in Hs; rewrite Exists_dir_at in Ho; [done| | |]; exfalso.
    + apply H2. intros d. pose proof (dir_at_cases a b d) as Hc.
      destruct (dir_at a b d) as [[]|] eqn:E; [lia|naive_solver|lia].
    + apply H1. intros d. pose proof (dir_at_cases a b d) as Hc.
      destruct (dir_at a b d) as [[]|] eqn:E; [naive_solver|lia|lia].
    + apply H1. intros d. pose proof (dir_at_cases a b d) as Hc.
      destruct (dir_at a b d) as [[]|] eqn:E; [naive_solver|lia|lia].
  - intros [[i Hi] [j Hj]].
    pose proof (dir_at_cases a b i) as Ci. pose proof (dir_at_cases a b j) as Cj.
    rewrite Hi in Ci. rewrite Hj in Cj. split; intros H.
    + specialize (H i). lia.
    + specialize (H j). lia.
Qed.

Lemma sorted_devices_sorted a b : Sorted Z.le (sorted_devices a b).
Proof. apply Sorted_merge_sort. intros x y. lia. Qed.

(** On a sorted enumeration the answer is the direction of the first counter
    that diverges. *)
Lemma concurrent_order_loop_first a b ids d :
  StronglySorted Z.le ids ->
  concurrent_order_loop a b ids None = Some d ->
  exists id, dir_at a b id = Some d /\ forall id', id' ∈ ids -> id' < id -> dir_at a b id' = None.
Proof.
  induction 1 as [|x ids Hs IH Hx]; [done|]. rewrite concurrent_order_loop_cons.
  destruct (dir_at a b x) as [dx|] eqn:E.
  - rewrite concurrent_order_loop_Some. case_bool_decide; [|done]. intros [= <-].
    exists x. split; [done|]. intros id' [->|Hin]%elem_of_cons Hlt; [lia|].
    rewrite Forall_forall in Hx. specialize (Hx id' Hin). lia.
  - intros Ho. destruct (IH Ho) as (id & Hid & Hlow). exists id. split; [done|].
    intros id' [->|Hin]%elem_of_cons Hlt; auto.
Qed.

Lemma concurrent_order_first a b d :
  vector_concurrent_order a b = Some d ->
  exists id, first_divergence a b id /\ dir_at a b id = Some d.
Proof.
  intros H. unfold vector_concurrent_order in H.
  apply concurrent_order_loop_first in H as (id & Hd & Hlow).
  2:{ apply Sorted_StronglySorted; [intros x y z; lia|apply sorted_devices_sorted]. }
  exists id. split; [|done]. split.
  - pose proof (dir_at_cases a b id) as Hc. rewrite Hd in Hc. destruct d; lia.
  - intros id' Hlt. destruct (decide (id' ∈ all_devices a b)) as [Hin|Hn].
    + specialize (Hlow id'). rewrite sorted_devices_perm in Hlow.
      pose proof (dir_at_cases a b id') as Hc. by rewrite (Hlow Hin Hlt) in Hc.
    + by apply all_devices_enumerates.
Qed.

Lemma concurrent_order_is_Some a b :
  is_Some (vector_concurrent_order a b) <-> concurrent a b.
Proof.
  rewrite <-not_eq_None_Some. unfold vector_concurrent_order.
  rewrite concurrent_order_loop_None, concurrent_dirs. setoid_rewrite Exists_dir_at. split.
  - intros Hn.
    destruct (decide (Exists (fun i => dir_at a b i = Some SelfGreater) (sorted_devices a b))) as [Hs|Hs];
      destruct (decide (Exists (fun i => dir_at a b i = Some OtherGreater) (sorted_devices a b))) as [Ho|Ho];
      rewrite Exists_dir_at in Hs; rewrite Exists_dir_at in Ho; [done| | |]; exfalso;
      apply Hn; intros []; naive_solver.
  - intros [Hs Ho] Hn. apply (Hn SelfGreater). done.
Qed.

Lemma first_divergence_unique a b i j : first_divergence a b i -> first_divergence a b j -> i = j.
Proof.
  intros [Hi Li] [Hj Lj]. destruct (Z.lt_trichotomy i j) as [H|[H|H]]; [|done|].
  - by apply Lj in H.
  - by apply Li in H.
Qed.

Lemma vle_increment v d :
  0 <= vector_get v d < u64_max -> vle v (vector_increment v d) /\ ~ vle (vector_increment v d) v.
Proof.
  intros Hr. assert (vector_get (vector_increment v d) d = vector_get v d + 1) as E.
  { rewrite vector_get_increment, decide_True by done. apply wrap_id.
    unfold in_u, u64_max in *. lia. }
  split.
  - intros d'. destruct (decide (d = d')) as [<-|Hne]; [lia|].
    rewrite vector_get_increment, decide_False by done. lia.
  - intros H. specialize (H d). lia.
Qed.

(** ** Properties *)

(** The version-vector comparison decides the causal order: [Equal],
    [Greater], [Less] and [Conflict] hold exactly for vectors with the same
    counters, for a strict successor, a strict predecessor and concurrent
    histories; swapping the arguments swaps the verdict. *)
Theorem vector_compare_correct a b :
  (vector_compare a b = Equal <-> a ≡ b) /\
  (vector_compare a b = Greater <-> vle b a /\ ~ vle a b) /\
  (vector_compare a b = Less <-> vle a b /\ ~ vle b a) /\
  (vector_compare a b = Conflict <-> concurrent a b) /\
  vector_compare b a = flip_comparison (vector_compare a b).
Proof.
  pose proof (vector_compare_cases a b) as H1. pose proof (vector_compare_cases b a) as H2.
  assert (a ≡ b -> vle a b /\ vle b a) as Heq by (intros E; split; by rewrite E).
  unfold concurrent in *.
  destruct (vector_compare a b), (vector_compare b a); simpl; naive_solver.
Qed.

(** The loop of [Vector::compare] runs over a [HashSet], whose order is
    unspecified: every order in which the devices may be visited gives the
    same verdict. *)
Theorem vector_compare_order_independent a b ids :
  ids ≡ₚ all_devices a b -> vector_compare_in a b ids = vector_compare a b.
Proof.
  intros Hp. unfold vector_compare.
  by rewrite !vector_compare_in_enum by
    eauto using enumerates_perm, all_devices_enumerates, Permutation_sym.
Qed.

Lemma vector_compare_order_independent_witness :
  vector_compare_in (mkVector {[1 := 5; 2 := 3]}) (mkVector {[2 := 4]}) [1; 2] = Conflict.
Proof.
  rewrite (vector_compare_order_independent (mkVector {[1 := 5; 2 := 3]}) (mkVector {[2 := 4]}) [1; 2]).
  - vm_compute. reflexivity.
  - vm_compute. apply perm_swap.
Defined.

(** The directed concurrent order is defined exactly on concurrent
    vectors, the two ends compute mirrored directions, and the direction is
    that of the smallest counter ID on which the vectors differ. *)
Theorem concurrent_order_correct a b :
  (is_Some (vector_concurrent_order a b) <-> concurrent a b) /\
  vector_concurrent_order b a = flip_order <$> vector_concurrent_order a b /\
  (forall id, concurrent a b -> first_divergence a b id ->
     vector_concurrent_order a b =
     Some (if vector_get b id <? vector_get a id then SelfGreater else OtherGreater)).
Proof.
  split; [apply concurrent_order_is_Some|]. split; [apply concurrent_order_flip|].
  intros id [d Hd]%concurrent_order_is_Some Hf. rewrite Hd. f_equal.
  apply concurrent_order_first in Hd as (id' & Hf' & Hdir).
  rewrite (first_divergence_unique _ _ _ _ Hf Hf').
  pose proof (dir_at_cases a b id') as Hc. rewrite Hdir in Hc.
  destruct d; crush_match.
Qed.

Lemma concurrent_order_correct_witness :
  vector_concurrent_order (mkVector {[1 := 6]}) (mkVector {[2 := 5]}) = Some SelfGreater.
Proof.
  pose proof (concurrent_order_correct (mkVector {[1 := 6]}) (mkVector {[2 := 5]})) as (Hs & _ & H).
  rewrite (H 1).
  - vm_compute. reflexivity.
  - apply Hs. vm_compute. eauto.
  - split; [vm_compute; done|]. intros id' Hlt. unfold vector_get; simpl.
    rewrite !lookup_singleton_ne by lia. done.
Defined.

(** A local change recorded by [increment] yields a strict successor, and
    two devices changing the same ancestor under distinct counter IDs are seen
    as concurrent, never as a linear history (no 64-bit overflow assumed). *)
Theorem increment_concurrent v d1 d2 :
  d1 <> d2 -> 0 <= vector_get v d1 < u64_max -> 0 <= vector_get v d2 < u64_max ->
  vector_compare (vector_increment v d1) v = Greater /\
  vector_compare (vector_increment v d1) (vector_increment v d2) = Conflict.
Proof.
  intros Hne H1 H2. split.
  - destruct (vle_increment v d1 H1) as [Hle Hn].
    pose proof (vector_compare_cases (vector_increment v d1) v) as Hc.
    destruct (vector_compare _ _); try done; [|naive_solver|destruct Hc; naive_solver].
    exfalso. apply Hn. by rewrite Hc.
  - pose proof (vector_compare_cases (vector_increment v d1) (vector_increment v d2)) as Hc.
    destruct (vle_increment v d1 H1) as [_ Hn1]. destruct (vle_increment v d2 H2) as [_ Hn2].
    assert (forall x y, x <> y -> 0 <= vector_get v x < u64_max ->
              ~ vle (vector_increment v x) (vector_increment v y)) as Hinc.
    { intros x y Hxy Hr Hle. specialize (Hle x). rewrite !vector_get_increment in Hle.
      rewrite decide_True, decide_False in Hle by done. rewrite wrap_id in Hle; [lia|].
      unfold in_u, u64_max in *. lia. }
    pose proof (Hinc d1 d2 Hne H1) as Ha. pose proof (Hinc d2 d1 (not_eq_sym Hne) H2) as Hb.
    destruct (vector_compare _ _); try naive_solver. exfalso. apply Ha. by rewrite Hc.
Qed.

Lemma increment_concurrent_witness :
  vector_compare (vector_increment vector_new 1) (vector_increment vector_new 2) = Conflict.
Proof. apply (increment_concurrent vector_new 1 2); vm_compute; done. Defined.
