(* ===== verification/DeviceIds.v ===== *)
(** * Device identifiers ([crates/syncthing-core/src/device_id.rs])

    The text form of an identifier: unpadded Base32 with Luhn-32 check
    characters in groups of seven, and the legacy hexadecimal form.  A Rust
    [char] is its Unicode code point here and a text the list of its chars, so
    byte lengths and byte slices of non-ASCII texts are modelled: a slice off a
    char boundary panics ([None]).  The [hex] crate and the Unicode tables of
    [char::is_alphanumeric] beyond ASCII are parameters. *)

From S2P Require Import Prelude Core.

Abbreviation chars := (list Z).

Definition codes (s : str) : chars := (fun c => Z.of_nat (nat_of_ascii c)) <$> s.

Definition BASE32_ALPHABET : chars := codes ($"ABCDEFGHIJKLMNOPQRSTUVWXYZ234567").

Inductive DeviceIdError :=
| InvalidByteLength
| InvalidHex
| InvalidChecksum
| InvalidBase32Char (c : Z)
| InvalidTextLength (n : nat).

(** [c.len_utf8()] *)
Definition len_utf8 (c : Z) : nat :=
  if c <? 128 then 1 else if c <? 2048 then 2 else if c <? 65536 then 3 else 4.

(** [s.len()], in bytes. *)
Definition byte_len (s : chars) : nat := sum_list (len_utf8 <$> s).

(** The chars after the first [n] bytes; [None] inside a char or past the end. *)
Fixpoint skip_bytes (n : nat) (s : chars) : option chars :=
  match n, s with
  | O, _ => Some s
  | _, [] => None
  | _, c :: s' => if (len_utf8 c <=? n)%nat then skip_bytes (n - len_utf8 c) s' else None
  end.

Fixpoint take_bytes (n : nat) (s : chars) : option chars :=
  match n, s with
  | O, _ => Some []
  | _, [] => None
  | _, c :: s' =>
      if (len_utf8 c <=? n)%nat then cons c <$> take_bytes (n - len_utf8 c) s' else None
  end.

(** [&s[a..b]] *)
Definition byte_slice (a b : nat) (s : chars) : option chars :=
  let+ t := skip_bytes a s in take_bytes (b - a) t.

Definition to_ascii_uppercase (c : Z) : Z := if (97 <=? c) && (c <=? 122) then c - 32 else c.

(** [iter().position(|&b| b as char == c)] *)
Fixpoint alphabet_position (c : Z) (alphabet : chars) : option Z :=
  match alphabet with
  | [] => None
  | b :: rest => if b =? c then Some 0 else Z.succ <$> alphabet_position c rest
  end.

Definition alphabet_char (i : Z) : Z := nth (Z.to_nat i) BASE32_ALPHABET 0.

(** [while bits_left >= w { push((buffer >> (bits_left - w)) & mask); bits_left -= w }] *)
Fixpoint drain (w : Z) (fuel : nat) (buffer bits_left : Z) (out : list Z) : Z * list Z :=
  match fuel with
  | O => (bits_left, out)
  | S fuel' =>
      if w <=? bits_left
      then drain w fuel' buffer (bits_left - w)
             (out ++ [Z.land (Z.shiftr buffer (bits_left - w)) (Z.ones w)])
      else (bits_left, out)
  end.

(** One input unit of [v] bits: [buffer = (buffer << v) | x; bits_left += v]
    on a [u32] buffer, then the draining loop. *)
Definition feed (v w : Z) (st : Z * Z * list Z) (x : Z) : Z * Z * list Z :=
  let '(buffer, bits_left, out) := st in
  let buffer' := Z.lor (wrap 32 (Z.shiftl buffer v)) x in
  let '(bits', out') := drain w (Z.to_nat (bits_left + v)) buffer' (bits_left + v) out in
  (buffer', bits', out').

Definition to_base32 (bytes : list Z) : chars :=
  let '(buffer, bits_left, out) := fold_left (feed 8 5) bytes (0, 0, []) in
  let out' :=
    if 0 <? bits_left
    then out ++ [Z.land (wrap 32 (Z.shiftl buffer (5 - bits_left))) (Z.ones 5)]
    else out in
  alphabet_char <$> out'.

Fixpoint base32_indices (s : chars) : result DeviceIdError (list Z) :=
  match s with
  | [] => Ok []
  | c :: s' =>
      let c' := to_ascii_uppercase c in
      let? i := ok_or (alphabet_position c' BASE32_ALPHABET) (InvalidBase32Char c') in
      let? idxs := base32_indices s' in
      Ok (i :: idxs)
  end.

Definition from_base32 (s : chars) : result DeviceIdError (list Z) :=
  let? idxs := base32_indices s in
  let '(_, _, out) := fold_left (feed 5 8) idxs (0, 0, []) in
  Ok out.

Definition base32_char_to_value (c : Z) : Z :=
  default 0 (alphabet_position (to_ascii_uppercase c) BASE32_ALPHABET).

(** The weighted sum; [factor] alternates 1, 2. *)
Fixpoint luhn32_sum (factor sum : Z) (s : chars) : Z :=
  match s with
  | [] => sum
  | c :: s' =>
      let addend := factor * base32_char_to_value c in
      luhn32_sum (if factor =? 2 then 1 else 2)
        (wrap 32 (sum + (addend / 32 + addend mod 32))) s'
  end.

Definition luhn32_char (s : chars) : Z :=
  alphabet_char ((32 - luhn32_sum 1 0 s mod 32) mod 32).

(** [result.insert(end, luhn32_char(&result[start..end]))] for group [i]. *)
Definition luhnify_step (res : option chars) (i : nat) : option chars :=
  let+ r := res in
  let+ group := byte_slice (i * 13) (i * 13 + 13) r in
  let+ before := take_bytes (i * 13 + 13) r in
  let+ after := skip_bytes (i * 13 + 13) r in
  Some (before ++ luhn32_char group :: after).

Definition luhnify (s : chars) : option chars :=
  fold_left luhnify_step [3; 2; 1; 0]%nat (Some s).

(** Group [i] of [verify_luhn32_checksum]; [None] is a panic. *)
Definition verify_group (s : chars) (i : nat) : option bool :=
  let+ group := byte_slice (i * 14) (i * 14 + 13) s in
  Some (match s !! (i * 14 + 13)%nat with
        | None => false
        | Some check_char => check_char =? luhn32_char group
        end).

Fixpoint verify_groups (s : chars) (groups : list nat) : option bool :=
  match groups with
  | [] => Some true
  | i :: rest =>
      let+ b := verify_group s i in
      if (b : bool) then verify_groups s rest else Some false
  end.

Definition verify_luhn32_checksum (s : chars) : option bool :=
  if (byte_len s =? 56)%nat then verify_groups s [0; 1; 2; 3]%nat else Some false.

Definition from_bytes (bytes : list Z) : result DeviceIdError DeviceId :=
  if (length bytes =? 32)%nat then Ok (mkDeviceId bytes) else Err InvalidByteLength.

(** [counter_id]: the first 8 bytes, big endian. *)
Definition counter_id (id : DeviceId) : Z := be_combine (take 8 (device_id_bytes id)).

Fixpoint chunks_fuel {A : Type} (fuel n : nat) (l : list A) : list (list A) :=
  match fuel with
  | O => []
  | S fuel' => match l with [] => [] | _ => take n l :: chunks_fuel fuel' n (drop n l) end
  end.

(** [l.chunks(n)] *)
Definition chunks {A : Type} (n : nat) (l : list A) : list (list A) := chunks_fuel (length l) n l.

Definition dash : Z := 45.

(** [Display]: 52 Base32 chars (right-padded with '0' when shorter, cut when
    longer), check characters, groups of seven joined by dashes. *)
Definition device_id_to_string (id : DeviceId) : option chars :=
  let base32 := to_base32 (device_id_bytes id) in
  let+ data :=
    if (52 <=? byte_len base32)%nat then byte_slice 0 52 base32
    else Some (base32 ++ replicate (52 - length base32) 48) in
  let+ with_luhn := luhnify data in
  Some (join [dash] (chunks 7 with_luhn)).

Section Parsing.
Context (unicode_alphanumeric : Z -> bool)
        (hex_encode : list Z -> str)
        (hex_decode : chars -> option (list Z)).

(** [char::is_alphanumeric] *)
Definition is_alphanumeric (c : Z) : bool :=
  if c <? 128
  then ((48 <=? c) && (c <=? 57)) || ((65 <=? c) && (c <=? 90)) || ((97 <=? c) && (c <=? 122))
  else unicode_alphanumeric c.

Definition short_id (id : DeviceId) : str := hex_encode (take 8 (device_id_bytes id)).

Definition clean (s : chars) : chars := filter is_alphanumeric s.

(** The four data groups of the checked form. *)
Definition base32_data (cleaned : chars) : option chars :=
  let+ g0 := byte_slice 0 13 cleaned in
  let+ g1 := byte_slice 14 27 cleaned in
  let+ g2 := byte_slice 28 41 cleaned in
  let+ g3 := byte_slice 42 55 cleaned in
  Some (g0 ++ g1 ++ g2 ++ g3).

(** [FromStr]; [None] is a panic. *)
Definition device_id_from_str (s : chars) : option (result DeviceIdError DeviceId) :=
  let cleaned := clean s in
  if (byte_len cleaned =? 64)%nat then
    Some (let? bytes := ok_or (hex_decode cleaned) InvalidHex in from_bytes bytes)
  else if (byte_len cleaned =? 56)%nat then
    let+ data := base32_data cleaned in
    let+ valid := verify_luhn32_checksum cleaned in
    Some (if (valid : bool) then let? bytes := from_base32 data in from_bytes bytes
          else Err InvalidChecksum)
  else Some (Err (InvalidTextLength (byte_len cleaned))).

Definition is_valid (id : DeviceId) : option bool :=
  let+ id_str := device_id_to_string id in
  let cleaned := clean id_str in
  if (byte_len cleaned =? 56)%nat then verify_luhn32_checksum cleaned else Some false.

End Parsing.

(** ** Regrouping bits

    The reference: the [n] low base-[2^w] digits of a number, most significant
    first.  Feeding [v]-bit units and draining [w]-bit units computes them,
    although the buffer only keeps 32 bits. *)
Fixpoint digits (w : Z) (n : nat) (z : Z) : list Z :=
  match n with
  | O => []
  | S n' => digits w n' (z / 2 ^ w) ++ [z mod 2 ^ w]
  end.

Definition value (w : Z) (ds : list Z) : Z := fold_left (fun acc d => acc * 2 ^ w + d) ds 0.

Lemma digits_S w n z : digits w (S n) z = digits w n (z / 2 ^ w) ++ [z mod 2 ^ w].
Proof. done. Qed.

Lemma length_digits w n z : length (digits w n z) = n.
Proof. revert z. induction n as [|n IH]; intros z; simpl; [done|]. rewrite length_app, IH. simpl. lia. Qed.

Lemma digits_range w n z : 0 <= w -> Forall (in_u w) (digits w n z).
Proof.
  intros Hw. revert z. induction n as [|n IH]; intros z; simpl; [done|].
  apply Forall_app. split; [done|]. constructor; [|done]. by apply wrap_range.
Qed.

Lemma value_snoc w ds d : value w (ds ++ [d]) = value w ds * 2 ^ w + d.
Proof. unfold value. by rewrite fold_left_app. Qed.

Lemma value_nonneg w ds : Forall (in_u w) ds -> 0 <= value w ds.
Proof.
  induction ds as [|d ds IH] using rev_ind; [done|]. intros [H1 H2]%Forall_app.
  apply Forall_singleton in H2 as [? ?]. rewrite value_snoc.
  pose proof (Z.pow_nonneg 2 w ltac:(lia)). specialize (IH H1). nia.
Qed.

Lemma digits_value w ds : 0 <= w -> Forall (in_u w) ds -> digits w (length ds) (value w ds) = ds.
Proof.
  intros Hw. induction ds as [|d ds IH] using rev_ind; [done|]. intros [H1 H2]%Forall_app.
  apply Forall_singleton in H2 as [? ?]. rewrite length_app, Nat.add_comm, value_snoc. simpl.
  rewrite Z.div_add_l, (Z.div_small d), Z.add_0_r, IH by (done || lia).
  by rewrite Z.add_comm, Z.mod_add, Z.mod_small by lia.
Qed.

Lemma value_digits w n z : 0 <= w -> value w (digits w n z) = z mod 2 ^ (w * Z.of_nat n).
Proof.
  intros Hw. revert z. induction n as [|n IH]; intros z.
  - rewrite Z.mul_0_r, Z.mod_1_r. done.
  - cbn [digits]. rewrite value_snoc, IH, Nat2Z.inj_succ.
    replace (w * Z.succ (Z.of_nat n)) with (w + w * Z.of_nat n) by lia.
    rewrite Z.pow_add_r, (Z.rem_mul_r z) by lia. ring.
Qed.

Lemma window_bits z k w :
  0 <= k -> 0 <= w -> k + w <= 32 ->
  Z.land (Z.shiftr (z mod 2 ^ 32) k) (Z.ones w) = (z / 2 ^ k) mod 2 ^ w.
Proof.
  intros Hk Hw Hkw. rewrite <-Z.shiftr_div_pow2, <-(Z.land_ones (Z.shiftr z k)) by lia.
  apply Z.bits_inj'. intros i Hi. rewrite !Z.land_spec, !Z.shiftr_spec by lia.
  destruct (Z.ltb_spec i w).
  - by rewrite Z.mod_pow2_bits_low by lia.
  - by rewrite Z.ones_spec_high, !andb_false_r by lia.
Qed.

Lemma push_bits z v x :
  0 <= v -> in_u v x ->
  Z.lor (z * 2 ^ v) x = z * 2 ^ v + x.
Proof.
  intros Hv [H0 H1]. rewrite <-Z.shiftl_mul_pow2 by lia.
  symmetry. rewrite Z.add_nocarry_lxor, <-Z.lxor_lor; [done| |].
  all: apply Z.bits_inj'; intros i Hi; rewrite Z.land_spec, Z.bits_0, Z.shiftl_spec by lia.
  all: destruct (Z.ltb_spec i v); [by rewrite Z.testbit_neg_r by lia|].
  all: rewrite <-(Z.mod_small x (2 ^ v)), Z.mod_pow2_bits_high by lia; by rewrite andb_false_r.
Qed.

Lemma buffer_push z v x :
  0 <= v <= 32 -> in_u v x ->
  Z.lor (wrap 32 (Z.shiftl (z mod 2 ^ 32) v)) x = (z * 2 ^ v + x) mod 2 ^ 32.
Proof.
  intros Hv Hx. rewrite Z.shiftl_mul_pow2 by lia. unfold wrap. rewrite Z.mul_mod_idemp_l by lia.
  assert (2 ^ 32 = 2 ^ v * 2 ^ (32 - v)) as E by (rewrite <-Z.pow_add_r by lia; f_equal; lia).
  pose proof (Z.pow_pos_nonneg 2 v) as P1. pose proof (Z.pow_pos_nonneg 2 (32 - v)) as P2.
  rewrite E, (Z.mul_comm z), Z.mul_mod_distr_l, (Z.mul_comm (2 ^ v) (z mod _)), push_bits by (done || lia).
  pose proof (Z.mod_pos_bound z (2 ^ (32 - v))) as Hm. destruct Hx as [H0 H1].
  apply (Z.mod_unique _ _ (z / 2 ^ (32 - v))); [left; nia|].
  rewrite (Z.div_mod z (2 ^ (32 - v))) at 1 by lia. ring.
Qed.

(** What holds between two input units: [total] bits consumed with value [z]. *)
Definition regrouped (w z : Z) (total : Z) (st : Z * Z * list Z) : Prop :=
  exists n, st.1.1 = z mod 2 ^ 32 /\ 0 <= st.1.2 < w /\
    st.2 = digits w n (z / 2 ^ st.1.2) /\ w * Z.of_nat n + st.1.2 = total.

Lemma drain_correct w fuel z bits n :
  0 < w -> 0 <= bits <= 32 -> bits <= Z.of_nat fuel ->
  exists bits' n', drain w fuel (z mod 2 ^ 32) bits (digits w n (z / 2 ^ bits)) =
    (bits', digits w n' (z / 2 ^ bits')) /\ 0 <= bits' < w /\
    w * Z.of_nat n' + bits' = w * Z.of_nat n + bits.
Proof.
  intros Hw. revert bits n. induction fuel as [|fuel IH]; intros bits n Hb Hf; simpl.
  - exists bits, n. split; [done|]. lia.
  - destruct (Z.leb_spec w bits); [|exists bits, n; split; [done|lia]].
    rewrite window_bits by lia.
    assert (digits w n (z / 2 ^ bits) ++ [(z / 2 ^ (bits - w)) mod 2 ^ w] =
            digits w (S n) (z / 2 ^ (bits - w))) as ->.
    { cbn [digits]. rewrite Z.div_div, <-Z.pow_add_r by lia. do 4 f_equal. lia. }
    destruct (IH (bits - w) (S n)) as (b' & n' & E & Hb' & Hn'); [lia|lia|].
    exists b', n'. split; [done|]. split; [done|]. lia.
Qed.

Lemma feed_correct v w z total st x :
  0 < w -> 0 <= v -> v + w <= 32 -> in_u v x -> regrouped w z total st ->
  regrouped w (z * 2 ^ v + x) (total + v) (feed v w st x).
Proof.
  intros Hw Hv Hvw Hx (n & Hb & Hr & Ho & Ht). destruct st as [[buffer bits] out]. simpl in *. subst.
  unfold feed. rewrite buffer_push by (done || lia).
  assert (z / 2 ^ bits = (z * 2 ^ v + x) / 2 ^ (bits + v)) as ->.
  { destruct Hx as [H0 H1]. rewrite (Z.add_comm bits v), Z.pow_add_r, <-Z.div_div by lia. f_equal.
    rewrite Z.div_add_l, Z.div_small by lia. lia. }
  destruct (drain_correct w (Z.to_nat (bits + v)) (z * 2 ^ v + x) (bits + v) n)
    as (b' & n' & -> & Hb' & Hn'); [lia|lia|lia|].
  exists n'. simpl. split; [done|]. split; [done|]. split; [done|]. lia.
Qed.

Lemma feed_all v w xs z total st :
  0 < w -> 0 <= v -> v + w <= 32 -> Forall (in_u v) xs -> regrouped w z total st ->
  regrouped w (fold_left (fun acc d => acc * 2 ^ v + d) xs z) (total + v * Z.of_nat (length xs))
    (fold_left (feed v w) xs st).
Proof.
  intros Hw Hv Hvw. revert z total st. induction xs as [|x xs IH]; intros z total st Hx Hr.
  - simpl. by rewrite Z.mul_0_r, Z.add_0_r.
  - apply Forall_cons in Hx as [Hx Hxs]. cbn [fold_left length].
    replace (total + v * Z.of_nat (S (length xs))) with ((total + v) + v * Z.of_nat (length xs)) by lia.
    apply IH; [done|]. by apply feed_correct.
Qed.

Lemma regroup_correct v w xs :
  0 < w -> 0 <= v -> v + w <= 32 -> Forall (in_u v) xs ->
  regrouped w (value v xs) (v * Z.of_nat (length xs)) (fold_left (feed v w) xs (0, 0, [])).
Proof.
  intros Hw Hv Hvw Hx. change (v * Z.of_nat (length xs)) with (0 + v * Z.of_nat (length xs)).
  apply feed_all; [done..|]. exists O. simpl. split; [done|]. split; [lia|]. split; [done|]. lia.
Qed.

Lemma alphabet_char_position i :
  in_u 5 i ->
  alphabet_position (to_ascii_uppercase (alphabet_char i)) BASE32_ALPHABET = Some i.
Proof.
  intros [H0 H1]. change (2 ^ 5) with 32 in H1.
  assert (forallb (fun n => bool_decide (alphabet_position (to_ascii_uppercase
            (alphabet_char (Z.of_nat n))) BASE32_ALPHABET = Some (Z.of_nat n))) (seq 0 32) = true) as Ha
    by (vm_compute; reflexivity).
  rewrite forallb_forall in Ha. specialize (Ha (Z.to_nat i)). rewrite in_seq, Z2Nat.id in Ha by lia.
  eapply bool_decide_eq_true_1, Ha. lia.
Qed.

(** The alphabet consists of upper-case letters and digits. *)
Lemma alphabet_char_range i :
  in_u 5 i -> 50 <= alphabet_char i <= 55 \/ 65 <= alphabet_char i <= 90.
Proof.
  intros [H0 H1]. change (2 ^ 5) with 32 in H1.
  assert (forallb (fun n => let c := alphabet_char (Z.of_nat n) in
            ((50 <=? c) && (c <=? 55)) || ((65 <=? c) && (c <=? 90))) (seq 0 32) = true) as Ha
    by (vm_compute; reflexivity).
  rewrite forallb_forall in Ha. specialize (Ha (Z.to_nat i)). rewrite in_seq, Z2Nat.id in Ha by lia.
  specialize (Ha ltac:(lia)). apply orb_prop in Ha as [Ha|Ha]; reflect_bools; lia.
Qed.

Lemma base32_indices_chars ds :
  Forall (in_u 5) ds -> base32_indices (alphabet_char <$> ds) = Ok ds.
Proof.
  induction 1 as [|d ds Hd Hds IH]; [done|]. cbn [fmap list_fmap base32_indices].
  rewrite alphabet_char_position by done. simpl. by rewrite IH.
Qed.

(** The digits [to_base32] writes: 32 bytes are 52 five-bit digits of the
    identifier's value shifted by the four padding bits. *)
Lemma to_base32_digits bs :
  length bs = 32%nat -> Forall is_byte bs ->
  to_base32 bs = alphabet_char <$> digits 5 52 (value 8 bs * 2 ^ 4).
Proof.
  intros Hl Hb. unfold to_base32.
  destruct (regroup_correct 8 5 bs) as (n & E1 & E2 & E3 & E4); [lia|lia|lia|done|].
  destruct (fold_left (feed 8 5) bs (0, 0, [])) as [[buffer bits] out]. cbn [fst snd] in E1, E2, E3, E4. subst.
  rewrite Hl in E4. assert (bits = 1 /\ n = 51%nat) as [-> ->] by lia.
  change (0 <? 1) with true. cbn iota. rewrite (digits_S 5 51). f_equal. f_equal.
  - f_equal. change (2 ^ 5) with (2 ^ 1 * 2 ^ 4). by rewrite Z.div_mul_cancel_r by lia.
  - f_equal. rewrite Z.shiftl_mul_pow2, Z.land_ones by lia. unfold wrap. rewrite Z.mul_mod_idemp_l by lia.
    change (2 ^ 32) with (2 ^ 5 * 2 ^ 27). rewrite mod_mul_mod by lia. done.
Qed.

Lemma from_base32_digits bs :
  length bs = 32%nat -> Forall is_byte bs ->
  from_base32 (alphabet_char <$> digits 5 52 (value 8 bs * 2 ^ 4)) = Ok bs.
Proof.
  intros Hl Hb. unfold from_base32. rewrite base32_indices_chars by (apply digits_range; lia).
  cbn [result_bind].
  destruct (regroup_correct 5 8 (digits 5 52 (value 8 bs * 2 ^ 4))) as (n & E1 & E2 & E3 & E4);
    [lia|lia|lia|apply digits_range; lia|].
  destruct (fold_left (feed 5 8) _ (0, 0, [])) as [[buffer bits] out]. cbn [fst snd] in E1, E2, E3, E4.
  rewrite length_digits in E4. assert (bits = 4 /\ n = 32%nat) as [-> ->] by lia.
  subst out. rewrite value_digits by lia.
  assert (0 <= value 8 bs < 2 ^ 256) as Hv.
  { rewrite <-(digits_value 8 bs), value_digits by (done || lia). rewrite Hl.
    apply Z.mod_pos_bound. lia. }
  rewrite Z.mod_small, Z.div_mul by lia. rewrite <-Hl at 1. rewrite digits_value by (done || lia). done.
Qed.

(** ** Byte slices *)

Lemma len_utf8_pos c : (1 <= len_utf8 c)%nat.
Proof. unfold len_utf8. repeat case_match; lia. Qed.

Lemma skip_bytes_app p q : skip_bytes (byte_len p) (p ++ q) = Some q.
Proof.
  induction p as [|c p IH]; [by destruct q|]. unfold byte_len in *. cbn [fmap list_fmap sum_list app].
  pose proof (len_utf8_pos c). destruct (len_utf8 c) as [|k] eqn:E; [lia|]. simpl. rewrite E.
  replace (S k <=? S (k + _))%nat with true by (symmetry; apply Nat.leb_le; lia).
  replace (S (k + _) - S k)%nat with (sum_list (len_utf8 <$> p)) by lia. done.
Qed.

Lemma take_bytes_app p q : take_bytes (byte_len p) (p ++ q) = Some p.
Proof.
  induction p as [|c p IH]; [by destruct q|]. unfold byte_len in *. cbn [fmap list_fmap sum_list app].
  pose proof (len_utf8_pos c). destruct (len_utf8 c) as [|k] eqn:E; [lia|]. simpl. rewrite E.
  replace (S k <=? S (k + _))%nat with true by (symmetry; apply Nat.leb_le; lia).
  replace (S (k + _) - S k)%nat with (sum_list (len_utf8 <$> p)) by lia. by rewrite IH.
Qed.

Abbreviation is_ascii := (fun c : Z => c < 128).

Lemma byte_len_ascii s : Forall is_ascii s -> byte_len s = length s.
Proof.
  induction 1 as [|c s Hc Hs IH]; [done|]. unfold byte_len in *. cbn [fmap list_fmap sum_list length].
  simpl. rewrite IH. unfold len_utf8. destruct (Z.ltb_spec c 128); simpl; lia.
Qed.

(** Discharges the length and range side conditions of slices. *)
Ltac slices :=
  match goal with
  | |- Forall _ _ =>
      repeat (first [apply Forall_app; split | apply Forall_cons; split]); done
  | |- _ => repeat (progress (rewrite ?length_app; simpl)); first [done | lia]
  end.

Lemma byte_slice_mid p g q a b :
  Forall is_ascii p -> Forall is_ascii g -> a = length p -> b = (length p + length g)%nat ->
  byte_slice a b (p ++ g ++ q) = Some g.
Proof.
  intros Hp Hg -> ->. unfold byte_slice.
  rewrite <-(byte_len_ascii p), skip_bytes_app by done. simpl.
  replace (byte_len p + length g - byte_len p)%nat with (length g) by lia.
  by rewrite <-(byte_len_ascii g), take_bytes_app by done.
Qed.

Lemma luhn32_char_alphabet s : exists i, in_u 5 i /\ luhn32_char s = alphabet_char i.
Proof. eexists. split; [|done]. by apply (wrap_range 5). Qed.

Lemma luhn32_char_ascii s : is_ascii (luhn32_char s).
Proof.
  destruct (luhn32_char_alphabet s) as (i & Hi & ->). pose proof (alphabet_char_range i Hi). simpl. lia.
Qed.

Lemma luhnify_step_correct i p g q :
  Forall is_ascii p -> Forall is_ascii g -> length p = (i * 13)%nat -> length g = 13%nat ->
  luhnify_step (Some (p ++ g ++ q)) i = Some (p ++ g ++ luhn32_char g :: q).
Proof.
  intros Hp Hg Lp Lg. unfold luhnify_step. simpl.
  rewrite (byte_slice_mid p g q) by (done || lia). simpl.
  assert (byte_len (p ++ g) = (i * 13 + 13)%nat) as E.
  { rewrite byte_len_ascii by by apply Forall_app. rewrite length_app. lia. }
  rewrite app_assoc, <-E, take_bytes_app, skip_bytes_app. simpl. by rewrite <-app_assoc.
Qed.

Lemma verify_group_correct i p g x q :
  Forall is_ascii p -> Forall is_ascii g -> length p = (i * 14)%nat -> length g = 13%nat ->
  verify_group (p ++ g ++ x :: q) i = Some (x =? luhn32_char g).
Proof.
  intros Hp Hg Lp Lg. unfold verify_group. rewrite (byte_slice_mid p g) by (done || lia). simpl.
  rewrite lookup_app_r, lookup_app_r by lia.
  by replace (_ - _ - _)%nat with 0%nat by lia.
Qed.

(** A text of four 13-character groups, each followed by a character. *)
Definition interleaved (a b c d : chars) (x y z w : Z) : chars :=
  a ++ x :: b ++ y :: c ++ z :: d ++ [w].

Section Groups.
Context (a b c d : chars).
Hypothesis Ha : Forall is_ascii a /\ length a = 13%nat.
Hypothesis Hb : Forall is_ascii b /\ length b = 13%nat.
Hypothesis Hc : Forall is_ascii c /\ length c = 13%nat.
Hypothesis Hd : Forall is_ascii d /\ length d = 13%nat.

Lemma luhnify_groups :
  luhnify (a ++ b ++ c ++ d) =
  Some (interleaved a b c d (luhn32_char a) (luhn32_char b) (luhn32_char c) (luhn32_char d)).
Proof using Ha Hb Hc Hd.
  destruct Ha, Hb, Hc, Hd. unfold luhnify, interleaved. cbn [fold_left].
  pose proof (luhnify_step_correct 3 (a ++ b ++ c) d []) as E3. rewrite <-!app_assoc, !app_nil_r in E3.
  rewrite E3 by slices.
  pose proof (luhnify_step_correct 2 (a ++ b) c) as E2. setoid_rewrite <-app_assoc in E2.
  rewrite E2 by slices.
  rewrite (luhnify_step_correct 1 a b); [|done|done|lia|done].
  by apply (luhnify_step_correct 0 [] a).
Qed.

Context (x y z w : Z).
Hypothesis Hx : is_ascii x /\ is_ascii y /\ is_ascii z /\ is_ascii w.

Lemma interleaved_ascii : Forall is_ascii (interleaved a b c d x y z w).
Proof using Ha Hb Hc Hd Hx.
  unfold interleaved. destruct Hx as (? & ? & ? & ?), Ha, Hb, Hc, Hd.
  slices.
Qed.

Lemma length_interleaved : length (interleaved a b c d x y z w) = 56%nat.
Proof using Ha Hb Hc Hd.
  unfold interleaved. destruct Ha, Hb, Hc, Hd. slices.
Qed.

Lemma interleaved_groups :
  let t := interleaved a b c d x y z w in
  t = [] ++ a ++ x :: b ++ y :: c ++ z :: d ++ [w] /\
  t = (a ++ [x]) ++ b ++ y :: c ++ z :: d ++ [w] /\
  t = (a ++ [x] ++ b ++ [y]) ++ c ++ z :: d ++ [w] /\
  t = (a ++ [x] ++ b ++ [y] ++ c ++ [z]) ++ d ++ [w].
Proof. unfold interleaved. simpl. by rewrite <-!app_assoc; simpl; rewrite <-!app_assoc; simpl; rewrite <-!app_assoc. Qed.

Lemma verify_interleaved :
  verify_luhn32_checksum (interleaved a b c d x y z w) =
  Some ((x =? luhn32_char a) && ((y =? luhn32_char b) &&
        ((z =? luhn32_char c) && (w =? luhn32_char d)))).
Proof using Ha Hb Hc Hd Hx.
  destruct interleaved_groups as (G0 & G1 & G2 & G3). simpl in G0, G1, G2, G3.
  unfold verify_luhn32_checksum. rewrite byte_len_ascii by apply interleaved_ascii.
  rewrite length_interleaved. cbn [Nat.eqb verify_groups].
  destruct Hx as (? & ? & ? & ?), Ha, Hb, Hc, Hd.
  pose proof (verify_group_correct 0 [] a) as E0. cbn [app] in E0.
  rewrite G0 at 1. rewrite E0 by slices. simpl.
  rewrite G1 at 1. rewrite verify_group_correct by slices. simpl.
  rewrite G2 at 1. rewrite verify_group_correct by slices. simpl.
  rewrite G3 at 1. rewrite verify_group_correct by slices. simpl.
  repeat case_match; done.
Qed.

Lemma base32_data_interleaved : base32_data (interleaved a b c d x y z w) = Some (a ++ b ++ c ++ d).
Proof using Ha Hb Hc Hd Hx.
  destruct interleaved_groups as (G0 & G1 & G2 & G3). simpl in G0, G1, G2, G3.
  destruct Hx as (? & ? & ? & ?), Ha, Hb, Hc, Hd. unfold base32_data.
  pose proof (byte_slice_mid [] a) as E0. cbn [app] in E0.
  rewrite G0 at 1. rewrite E0 by slices. simpl.
  rewrite G1 at 1. rewrite byte_slice_mid by slices. simpl.
  rewrite G2 at 1. rewrite byte_slice_mid by slices. simpl.
  rewrite G3 at 1. rewrite byte_slice_mid by slices. simpl.
  done.
Qed.
End Groups.

Lemma split_groups (s : chars) :
  length s = 52%nat -> Forall is_ascii s ->
  exists a b c d, s = a ++ b ++ c ++ d /\
    (Forall is_ascii a /\ length a = 13%nat) /\ (Forall is_ascii b /\ length b = 13%nat) /\
    (Forall is_ascii c /\ length c = 13%nat) /\ (Forall is_ascii d /\ length d = 13%nat).
Proof.
  intros Hl Hs. exists (take 13 s), (take 13 (drop 13 s)), (take 13 (drop 26 s)), (drop 39 s).
  rewrite !length_take, !length_drop. split.
  - rewrite <-(take_drop 13 s) at 1. f_equal.
    rewrite <-(take_drop 13 (drop 13 s)) at 1. rewrite drop_drop. f_equal.
    rewrite <-(take_drop 13 (drop _ s)) at 1. by rewrite drop_drop.
  - repeat split; try lia; auto using Forall_take, Forall_drop.
Qed.

Lemma concat_chunks {A : Type} n fuel (l : list A) :
  (0 < n)%nat -> (length l <= fuel)%nat -> concat (chunks_fuel fuel n l) = l.
Proof.
  intros Hn. revert l. induction fuel as [|fuel IH]; intros l Hl.
  - destruct l; simpl in *; [done|lia].
  - destruct l as [|x l]; [done|]. cbn [chunks_fuel concat].
    rewrite IH; [apply take_drop|]. rewrite length_drop. simpl in *. lia.
Qed.

Definition in_alphabet (c : Z) : Prop := exists i, in_u 5 i /\ c = alphabet_char i.

Lemma in_alphabet_ascii c : in_alphabet c -> is_ascii c.
Proof. intros (i & Hi & ->). pose proof (alphabet_char_range i Hi). simpl. lia. Qed.

Lemma to_base32_alphabet bs :
  length bs = 32%nat -> Forall is_byte bs ->
  Forall in_alphabet (to_base32 bs) /\ length (to_base32 bs) = 52%nat.
Proof.
  intros Hl Hb. rewrite to_base32_digits by done. split.
  - apply Forall_fmap. eapply Forall_impl; [apply digits_range; lia|]. intros i Hi. by exists i.
  - by rewrite length_fmap, length_digits.
Qed.

Section ParsingProofs.
Context (unicode_alphanumeric : Z -> bool) (hex_decode : chars -> option (list Z)).

Lemma clean_app s t :
  clean unicode_alphanumeric (s ++ t) = clean unicode_alphanumeric s ++ clean unicode_alphanumeric t.
Proof. apply filter_app. Qed.

Lemma clean_join segs :
  clean unicode_alphanumeric (join [dash] segs) = clean unicode_alphanumeric (concat segs).
Proof.
  induction segs as [|h t IH]; [done|]. destruct t as [|h' t].
  - simpl. by rewrite app_nil_r.
  - change (join [dash] (h :: h' :: t)) with (h ++ [dash] ++ join [dash] (h' :: t)).
    rewrite !clean_app, IH. cbn [concat]. by rewrite !clean_app.
Qed.

Lemma clean_alphabet s :
  Forall in_alphabet s -> clean unicode_alphanumeric s = s.
Proof.
  induction 1 as [|c s (i & Hi & ->) Hs IH]; [done|]. unfold clean in *.
  rewrite filter_cons_True, IH; [done|]. pose proof (alphabet_char_range i Hi) as Hr.
  unfold is_alphanumeric. replace (alphabet_char i <? 128) with true by (symmetry; apply Z.ltb_lt; lia).
  apply Is_true_true. rewrite !orb_true_iff, !andb_true_iff, !Z.leb_le. lia.
Qed.

(** The text of a well-formed identifier and what cleaning it gives back. *)
Lemma device_id_text id :
  length (device_id_bytes id) = 32%nat -> Forall is_byte (device_id_bytes id) ->
  exists a b c d s,
    to_base32 (device_id_bytes id) = a ++ b ++ c ++ d /\
    (Forall is_ascii a /\ length a = 13%nat) /\ (Forall is_ascii b /\ length b = 13%nat) /\
    (Forall is_ascii c /\ length c = 13%nat) /\ (Forall is_ascii d /\ length d = 13%nat) /\
    device_id_to_string id = Some s /\
    clean unicode_alphanumeric s =
      interleaved a b c d (luhn32_char a) (luhn32_char b) (luhn32_char c) (luhn32_char d).
Proof.
  intros Hl Hb. pose proof (to_base32_alphabet _ Hl Hb) as [HA HL].
  pose proof (Forall_impl _ _ _ HA in_alphabet_ascii) as Hasc.
  destruct (split_groups _ HL Hasc) as (a & b & c & d & E & Ha & Hb' & Hc & Hd).
  unfold device_id_to_string. rewrite byte_len_ascii, HL by done. cbn [Nat.leb].
  assert (byte_slice 0 52 (to_base32 (device_id_bytes id)) = Some (to_base32 (device_id_bytes id))) as ->.
  { pose proof (byte_slice_mid [] (to_base32 (device_id_bytes id)) [] 0 52) as Es.
    cbn [app length] in Es. rewrite app_nil_r in Es. apply Es; [done|done|done|lia]. }
  cbn [mbind option_bind]. rewrite E in *. rewrite luhnify_groups by done. cbn [mbind option_bind].
  exists a, b, c, d. eexists. repeat (split; [done|]). rewrite clean_join.
  unfold chunks. rewrite concat_chunks by lia. apply clean_alphabet.
  apply Forall_app in HA as [? [? [? ?]%Forall_app]%Forall_app].
  unfold interleaved. repeat (first [apply Forall_app; split | apply Forall_cons; split]);
    done || apply luhn32_char_alphabet.
Qed.

End ParsingProofs.

(** ** What the check characters detect *)

Definition luhn_weight (factor v : Z) : Z := factor * v / 32 + factor * v mod 32.

Fixpoint luhn_total (factor : Z) (s : chars) : Z :=
  match s with
  | [] => 0
  | c :: s' => luhn_weight factor (base32_char_to_value c) + luhn_total (if factor =? 2 then 1 else 2) s'
  end.

Fixpoint luhn_factor (factor : Z) (n : nat) : Z :=
  match n with
  | O => factor
  | S n' => luhn_factor (if factor =? 2 then 1 else 2) n'
  end.

Lemma luhn32_sum_total f acc s : luhn32_sum f acc s mod 32 = (acc + luhn_total f s) mod 32.
Proof.
  revert f acc. induction s as [|c s IH]; intros f acc; simpl; [by rewrite Z.add_0_r|].
  rewrite IH. unfold wrap, luhn_weight. change (2 ^ 32) with (32 * 2 ^ 27).
  rewrite <-Z.add_mod_idemp_l, mod_mul_mod, Z.add_mod_idemp_l by lia. f_equal. lia.
Qed.

Lemma luhn_total_app f s t :
  luhn_total f (s ++ t) = luhn_total f s + luhn_total (luhn_factor f (length s)) t.
Proof. revert f. induction s as [|c s IH]; intros f; simpl; [done|]. rewrite IH. lia. Qed.

Lemma luhn_factor_cases f n : f = 1 \/ f = 2 -> luhn_factor f n = 1 \/ luhn_factor f n = 2.
Proof. revert f. induction n as [|n IH]; intros f Hf; simpl; [done|]. apply IH. case_match; auto. Qed.

(** Both weightings permute the 32 values. *)
Lemma luhn_weight_inj f v v' :
  f = 1 \/ f = 2 -> in_u 5 v -> in_u 5 v' ->
  luhn_weight f v mod 32 = luhn_weight f v' mod 32 -> v = v'.
Proof.
  unfold in_u, luhn_weight. change (2 ^ 5) with 32. intros Hf Hv Hv'.
  destruct Hf as [-> | ->]; Z.div_mod_to_equations; lia.
Qed.

Lemma alphabet_position_bound c l i : alphabet_position c l = Some i -> 0 <= i < Z.of_nat (length l).
Proof.
  revert i. induction l as [|b l IH]; simpl; [done|]. intros j. case_match; [intros [= <-]; lia|].
  destruct (alphabet_position c l) as [k|]; [|done]. intros [= <-]. specialize (IH k eq_refl). lia.
Qed.

Lemma alphabet_position_range c i : alphabet_position c BASE32_ALPHABET = Some i -> in_u 5 i.
Proof. apply alphabet_position_bound. Qed.

Lemma base32_char_to_value_range c : in_u 5 (base32_char_to_value c).
Proof.
  unfold base32_char_to_value. destruct (alphabet_position _ _) as [i|] eqn:E; simpl.
  - by eapply alphabet_position_range.
  - by split.
Qed.

Lemma alphabet_position_inj c c' i l :
  alphabet_position c l = Some i -> alphabet_position c' l = Some i -> c = c'.
Proof.
  revert i. induction l as [|b l IH]; simpl; intros i; [done|].
  pose proof (alphabet_position_bound c l) as P. pose proof (alphabet_position_bound c' l) as P'.
  destruct (Z.eqb_spec b c), (Z.eqb_spec b c'); intros H1 H2; subst; auto.
  - destruct (alphabet_position c' l) as [k|]; [|done]. specialize (P' k eq_refl). simplify_eq/=. lia.
  - destruct (alphabet_position c l) as [k|]; [|done]. specialize (P k eq_refl). simplify_eq/=. lia.
  - destruct (alphabet_position c l) as [k|], (alphabet_position c' l) as [k'|]; try done.
    simpl in H1, H2. apply (IH k); [done|]. simplify_eq. f_equal. lia.
Qed.

Lemma luhn32_char_inj s t :
  luhn32_char s = luhn32_char t -> luhn_total 1 s mod 32 = luhn_total 1 t mod 32.
Proof.
  unfold luhn32_char. rewrite !luhn32_sum_total, !Z.add_0_l. intros E.
  set (x := luhn_total 1 s) in *. set (y := luhn_total 1 t) in *.
  assert ((32 - x mod 32) mod 32 = (32 - y mod 32) mod 32) as E'.
  { pose proof (alphabet_char_position _ (wrap_range 5 (32 - x mod 32) ltac:(lia))) as H1.
    pose proof (alphabet_char_position _ (wrap_range 5 (32 - y mod 32) ltac:(lia))) as H2.
    unfold wrap in H1, H2. change (2 ^ 5) with 32 in H1, H2. rewrite E in H1. congruence. }
  clear E. Z.div_mod_to_equations. lia.
Qed.

(** Replacing one character by one of another value changes the check
    character of its group. *)
Lemma luhn32_char_substitution p x x' q :
  luhn32_char (p ++ x :: q) = luhn32_char (p ++ x' :: q) ->
  base32_char_to_value x = base32_char_to_value x'.
Proof.
  intros E%luhn32_char_inj. rewrite !luhn_total_app in E. cbn [luhn_total] in E.
  eapply luhn_weight_inj; [apply (luhn_factor_cases 1 (length p)); auto|apply base32_char_to_value_range..|].
  set (f := luhn_factor 1 (length p)) in *. revert E.
  generalize (luhn_total (if f =? 2 then 1 else 2) q). intros r E.
  set (w := luhn_weight f _) in *. set (w' := luhn_weight f _) in *. clearbody w w'.
  Z.div_mod_to_equations. lia.
Qed.

(** Characters that need no case folding, and the blocks of an accepted text:
    thirteen alphabet characters and their check character. *)
Definition upper_alnum (c : Z) : Prop := 48 <= c <= 57 \/ 65 <= c <= 90.

Definition alphabet_upper (c : Z) : Prop := exists i, alphabet_position c BASE32_ALPHABET = Some i /\
  base32_char_to_value c = i.

Definition checked_block (b : chars) : Prop :=
  exists g, b = g ++ [luhn32_char g] /\ length g = 13%nat /\ Forall alphabet_upper g.

Lemma block_distance b b' j c :
  checked_block b -> checked_block b' -> b' = <[j := c]> b -> b' = b.
Proof.
  intros (g & -> & Lg & Hg) (g' & -> & Lg' & Hg') E.
  destruct (decide (j < 13)%nat) as [Hj|Hj].
  - rewrite insert_app_l in E by lia. apply app_inj_2 in E as [E1 [= E2]]; [|done].
    destruct (lookup_lt_is_Some_2 g j ltac:(lia)) as [y Hy].
    rewrite (insert_take_drop g j c) in E1 by lia.
    assert (luhn32_char (take j g ++ c :: drop (S j) g) = luhn32_char (take j g ++ y :: drop (S j) g)) as E3
      by (rewrite (take_drop_middle g j y Hy), <-E1; congruence).
    apply luhn32_char_substitution in E3. symmetry in E3.
    assert (alphabet_upper y) as (i & Hi & Vi) by (exact (Forall_lookup_1 _ _ _ _ Hg Hy)).
    assert (alphabet_upper c) as (i' & Hi' & Vi').
    { rewrite E1 in Hg'. apply Forall_app in Hg' as [_ Hc]. by inversion Hc. }
    assert (y = c) as -> by (eapply alphabet_position_inj; [done|congruence]).
    assert (g' = g) as ->; [|done]. rewrite E1. by apply take_drop_middle.
  - assert (g' = g) as ->; [|done]. rewrite insert_app_r_alt in E by lia.
    apply app_inj_1 in E as [E _]; [done|lia].
Qed.

Lemma blocks_distance bs bs' k c :
  length bs = length bs' -> Forall checked_block bs -> Forall checked_block bs' ->
  concat bs' = <[k := c]> (concat bs) -> concat bs' = concat bs.
Proof.
  revert bs' k. induction bs as [|b bs IH]; intros [|b' bs'] k Hl H H' E; try done. simpl in *.
  apply Forall_cons in H as [Hb H], H' as [Hb' H'].
  assert (length b = 14%nat) as Lb by (destruct Hb as (g & -> & ? & _); rewrite length_app; simpl; lia).
  assert (length b' = 14%nat) as Lb' by (destruct Hb' as (g & -> & ? & _); rewrite length_app; simpl; lia).
  destruct (decide (k < 14)%nat) as [Hk|Hk].
  - rewrite insert_app_l in E by lia. apply app_inj_1 in E as [E1 E2]; [|rewrite length_insert; lia].
    rewrite E2. f_equal. by eapply block_distance.
  - rewrite insert_app_r_alt in E by lia. apply app_inj_1 in E as [-> E2]; [|lia].
    f_equal. eapply IH; [lia|done|done|done].
Qed.

Lemma alphabet_upper_intro c : upper_alnum c -> is_Some (alphabet_position (to_ascii_uppercase c) BASE32_ALPHABET) ->
  alphabet_upper c.
Proof.
  intros Hu [i Hi]. assert (to_ascii_uppercase c = c) as E.
  { unfold to_ascii_uppercase. destruct (Z.leb_spec 97 c), (Z.leb_spec c 122); simpl; unfold upper_alnum in *; lia. }
  exists i. rewrite E in Hi. split; [done|]. unfold base32_char_to_value. by rewrite E, Hi.
Qed.

Lemma base32_indices_Ok s idxs :
  base32_indices s = Ok idxs -> Forall upper_alnum s -> Forall alphabet_upper s.
Proof.
  revert idxs. induction s as [|c s IH]; intros idxs E Hu; [done|]. apply Forall_cons in Hu as [Hc Hu].
  cbn [base32_indices] in E. apply result_bind_Ok in E as (i & E1 & E). apply result_bind_Ok in E as (r & E2 & _).
  constructor; [|by eapply IH]. apply alphabet_upper_intro; [done|].
  destruct (alphabet_position _ _); [by eexists|discriminate E1].
Qed.

Lemma upper_alnum_ascii c : upper_alnum c -> is_ascii c.
Proof. unfold upper_alnum. simpl. lia. Qed.

(** Every 56-character text of ASCII characters falls into four blocks. *)
Lemma split_interleaved (t : chars) :
  length t = 56%nat ->
  exists a b c d x y z w, t = interleaved a b c d x y z w /\
    length a = 13%nat /\ length b = 13%nat /\ length c = 13%nat /\ length d = 13%nat.
Proof.
  intros Hl. assert (forall r : chars, (14 <= length r)%nat -> exists g x q, r = g ++ x :: q /\ length g = 13%nat) as Hs.
  { intros r Hr. destruct (lookup_lt_is_Some_2 r 13 ltac:(lia)) as [x Hx].
    exists (take 13 r), x, (drop 14 r). rewrite length_take. split; [|lia].
    symmetry. by apply take_drop_middle. }
  destruct (Hs t ltac:(lia)) as (a & x & t1 & -> & La). rewrite length_app in Hl. simpl in Hl.
  destruct (Hs t1 ltac:(lia)) as (b & y & t2 & -> & Lb). rewrite length_app in Hl. simpl in Hl.
  destruct (Hs t2 ltac:(lia)) as (c & z & t3 & -> & Lc). rewrite length_app in Hl. simpl in Hl.
  destruct (Hs t3 ltac:(lia)) as (d & w & t4 & -> & Ld). rewrite length_app in Hl. simpl in Hl.
  destruct t4; simpl in Hl; [|lia]. exists a, b, c, d, x, y, z, w. done.
Qed.

(** The printed text of a 32-byte identifier parses to it. *)
Lemma device_id_text_parses unicode_alphanumeric hex_decode id :
  length (device_id_bytes id) = 32%nat -> Forall is_byte (device_id_bytes id) ->
  exists s, device_id_to_string id = Some s /\
    device_id_from_str unicode_alphanumeric hex_decode s = Some (Ok id) /\
    is_valid unicode_alphanumeric id = Some true.
Proof.
  intros Hl Hb.
  destruct (device_id_text unicode_alphanumeric id Hl Hb)
    as (a & b & c & d & s & E & Ha & Hb' & Hc & Hd & Es & Ec).
  pose proof (luhn32_char_ascii a). pose proof (luhn32_char_ascii b).
  pose proof (luhn32_char_ascii c). pose proof (luhn32_char_ascii d).
  assert (byte_len (clean unicode_alphanumeric s) = 56%nat) as HL.
  { rewrite Ec, byte_len_ascii by by apply interleaved_ascii. by apply length_interleaved. }
  assert (verify_luhn32_checksum (clean unicode_alphanumeric s) = Some true) as HV.
  { rewrite Ec, verify_interleaved by done. by rewrite !Z.eqb_refl. }
  exists s. split; [done|]. unfold device_id_from_str, is_valid. rewrite Es. cbn [mbind option_bind].
  rewrite HL, HV. split; [|done]. cbn [Nat.eqb]. rewrite Ec, base32_data_interleaved by done.
  cbn [mbind option_bind]. rewrite <-E, to_base32_digits, from_base32_digits by done.
  cbn [result_bind]. unfold from_bytes. rewrite Hl. cbn [Nat.eqb]. by destruct id.
Qed.

(** ** Properties *)

(** C31: printing a 32-byte identifier never panics, and parsing the printed text
    gives the identifier back: the Base32 coding through a 32-bit buffer loses
    nothing, the check characters verify and the grouping dashes are ignored. *)
Theorem device_id_roundtrip unicode_alphanumeric hex_decode id :
  length (device_id_bytes id) = 32%nat -> Forall is_byte (device_id_bytes id) ->
  exists s, device_id_to_string id = Some s /\
    device_id_from_str unicode_alphanumeric hex_decode s = Some (Ok id) /\
    is_valid unicode_alphanumeric id = Some true.
Proof. apply device_id_text_parses. Qed.

Lemma device_id_roundtrip_witness :
  exists s, device_id_to_string (mkDeviceId (Z.of_nat <$> seq 100 32)) = Some s /\
    device_id_from_str (fun _ => false) (fun _ => None) s =
      Some (Ok (mkDeviceId (Z.of_nat <$> seq 100 32))).
Proof.
  destruct (device_id_roundtrip (fun _ => false) (fun _ => None) (mkDeviceId (Z.of_nat <$> seq 100 32)))
    as (s & H1 & H2 & _); [reflexivity| |exists s; split; assumption].
  apply (bool_decide_unpack _). vm_compute. exact I.
Defined.

(** A text the parser accepts is four checked blocks. *)
Lemma accepted_blocks unicode_alphanumeric hex_decode s t id :
  clean unicode_alphanumeric s = t -> length t = 56%nat -> Forall upper_alnum t ->
  device_id_from_str unicode_alphanumeric hex_decode s = Some (Ok id) ->
  exists bs, t = concat bs /\ length bs = 4%nat /\ Forall checked_block bs.
Proof.
  intros Hc Hl Hu E. unfold device_id_from_str in E. rewrite Hc in E.
  pose proof (Forall_impl _ _ _ Hu upper_alnum_ascii) as Hasc.
  rewrite byte_len_ascii, Hl in E by done. cbn [Nat.eqb] in E.
  destruct (split_interleaved t Hl) as (a & b & c & d & x & y & z & w & -> & La & Lb & Lc & Ld).
  assert (Forall upper_alnum a /\ Forall upper_alnum b /\ Forall upper_alnum c /\ Forall upper_alnum d)
    as (Ua & Ub & Uc & Ud).
  { unfold interleaved in Hu. repeat (setoid_rewrite Forall_app in Hu || setoid_rewrite Forall_cons in Hu). tauto. }
  assert (is_ascii x /\ is_ascii y /\ is_ascii z /\ is_ascii w) as Hx.
  { unfold interleaved in Hasc. repeat (setoid_rewrite Forall_app in Hasc || setoid_rewrite Forall_cons in Hasc). tauto. }
  pose proof (Forall_impl _ _ _ Ua upper_alnum_ascii). pose proof (Forall_impl _ _ _ Ub upper_alnum_ascii).
  pose proof (Forall_impl _ _ _ Uc upper_alnum_ascii). pose proof (Forall_impl _ _ _ Ud upper_alnum_ascii).
  rewrite base32_data_interleaved, verify_interleaved in E by done. cbn [mbind option_bind] in E.
  destruct (_ && _) eqn:V in E; [|done]. reflect_bools. subst.
  injection E as E. apply result_bind_Ok in E as (bytes & E & _). unfold from_base32 in E.
  apply result_bind_Ok in E as (idxs & E & _).
  apply base32_indices_Ok in E; [|rewrite !Forall_app; done]. rewrite !Forall_app in E.
  exists [a ++ [luhn32_char a]; b ++ [luhn32_char b]; c ++ [luhn32_char c]; d ++ [luhn32_char d]].
  split; [unfold interleaved; simpl; by rewrite <-!app_assoc, app_nil_r|]. split; [done|].
  destruct E as (? & ? & ? & ?). repeat constructor; eexists; done.
Qed.

Lemma from_str_no_panic unicode_alphanumeric hex_decode s :
  Forall is_ascii (clean unicode_alphanumeric s) ->
  is_Some (device_id_from_str unicode_alphanumeric hex_decode s).
Proof.
  intros Hasc. unfold device_id_from_str. destruct (_ =? 64)%nat; [done|].
  destruct (Nat.eqb_spec (byte_len (clean unicode_alphanumeric s)) 56) as [E|]; [|done].
  rewrite byte_len_ascii in E by done. revert Hasc E. generalize (clean unicode_alphanumeric s). intros t Hasc E.
  destruct (split_interleaved t E) as (a & b & c & d & x & y & z & w & -> & La & Lb & Lc & Ld).
  unfold interleaved in Hasc. repeat (setoid_rewrite Forall_app in Hasc || setoid_rewrite Forall_cons in Hasc).
  rewrite base32_data_interleaved, verify_interleaved by tauto. done.
Qed.

(** C33: the Luhn-32 check characters detect every single-character
    substitution: when an identifier text is accepted, replacing any one of its
    56 characters by a different upper-case letter or digit makes the parser
    answer an error, never another identifier and never a panic. *)
Theorem device_id_substitution_rejected unicode_alphanumeric hex_decode s s' t k c id :
  clean unicode_alphanumeric s = t -> clean unicode_alphanumeric s' = <[k := c]> t ->
  length t = 56%nat -> Forall upper_alnum t -> upper_alnum c ->
  (k < 56)%nat -> t !! k <> Some c ->
  device_id_from_str unicode_alphanumeric hex_decode s = Some (Ok id) ->
  exists e, device_id_from_str unicode_alphanumeric hex_decode s' = Some (Err e).
Proof.
  intros Hs Hs' Hl Hu Hc Hk Hne Ha.
  assert (Forall upper_alnum (<[k := c]> t)) as Hu' by by apply Forall_insert.
  assert (length (<[k := c]> t) = 56%nat) as Hl' by by rewrite length_insert.
  destruct (from_str_no_panic unicode_alphanumeric hex_decode s') as [[id'|e] E]; [| |by exists e].
  { rewrite Hs'. apply (Forall_impl _ _ _ Hu' upper_alnum_ascii). }
  destruct (accepted_blocks _ _ _ _ _ Hs Hl Hu Ha) as (bs & -> & Lb & Cb).
  destruct (accepted_blocks _ _ _ _ _ Hs' Hl' Hu' E) as (bs' & Eb & Lb' & Cb').
  exfalso. apply Hne. pose proof (blocks_distance bs bs' k c ltac:(lia) Cb Cb' (eq_sym Eb)) as Hd.
  rewrite <-Hd, <-Eb. apply list_lookup_insert_eq. lia.
Qed.

Definition zero_text : chars := replicate 56 65.

Lemma device_id_substitution_rejected_witness :
  exists e, device_id_from_str (fun _ => false) (fun _ => None) (<[20%nat := 66]> zero_text) = Some (Err e).
Proof.
  apply (device_id_substitution_rejected (fun _ => false) (fun _ => None) zero_text
           (<[20%nat := 66]> zero_text) zero_text 20 66 (mkDeviceId (replicate 32 0))).
  - vm_compute. reflexivity.
  - vm_compute. reflexivity.
  - reflexivity.
  - apply Forall_replicate. right. lia.
  - right. lia.
  - lia.
  - vm_compute. congruence.
  - vm_compute. reflexivity.
Defined.

(** Parsing can panic.  The 56-byte test counts bytes, but the groups are
    sliced at fixed byte offsets: if the char U+00E9 counts as alphanumeric (it
    is a letter), a text in which it straddles byte 13 aborts the parser
    instead of being rejected. *)
Theorem device_id_from_str_panics unicode_alphanumeric hex_decode :
  unicode_alphanumeric 233 = true ->
  device_id_from_str unicode_alphanumeric hex_decode (replicate 12 65 ++ [233] ++ replicate 42 65) = None.
Proof.
  intros H. unfold device_id_from_str.
  assert (clean unicode_alphanumeric (replicate 12 65 ++ [233] ++ replicate 42 65) =
          replicate 12 65 ++ [233] ++ replicate 42 65) as ->.
  { simpl. unfold clean. repeat (rewrite filter_cons_True; [f_equal|]; try done).
    unfold is_alphanumeric. simpl. by rewrite H. }
  vm_compute. reflexivity.
Qed.

Lemma device_id_from_str_panics_witness :
  device_id_from_str (fun c => c =? 233) (fun _ => None) (replicate 12 65 ++ [233] ++ replicate 42 65) = None.
Proof. apply (device_id_from_str_panics (fun c => c =? 233) (fun _ => None)). reflexivity. Defined.

(** The parser folds the case of data characters but not of check
    characters: the lower-case spelling of an accepted identifier is rejected. *)
Theorem device_id_lowercase_rejected unicode_alphanumeric hex_decode :
  device_id_from_str unicode_alphanumeric hex_decode zero_text = Some (Ok (mkDeviceId (replicate 32 0))) /\
  device_id_from_str unicode_alphanumeric hex_decode (replicate 56 97) = Some (Err InvalidChecksum) /\
  from_base32 (replicate 52 97) = from_base32 (replicate 52 65).
Proof. vm_compute. repeat split; reflexivity. Qed.
