(* ===== verification/Connection.v ===== *)
(** * Connection types ([crates/syncthing-core/src/types/connection.rs])

    Connection states, peer addresses with their text form and their two JSON
    forms, statistics and priorities. *)

From S2P Require Import Prelude Core.

Inductive ConnectionState :=
| CsInitial
| CsConnecting
| CsConnected
| CsTlsHandshakeComplete
| CsProtocolHandshakeComplete
| CsClusterConfigComplete
| CsDisconnecting
| CsDisconnected
| CsError.

#[global] Instance ConnectionState_eq_dec : EqDecision ConnectionState.
Proof. solve_decision. Defined.

Definition cs_is_active (s : ConnectionState) : bool :=
  match s with
  | CsConnected | CsTlsHandshakeComplete | CsProtocolHandshakeComplete | CsClusterConfigComplete => true
  | _ => false
  end.

Definition cs_can_send (s : ConnectionState) : bool :=
  match s with
  | CsProtocolHandshakeComplete | CsClusterConfigComplete => true
  | _ => false
  end.

Definition cs_is_terminated (s : ConnectionState) : bool :=
  match s with
  | CsDisconnected | CsError => true
  | _ => false
  end.

Inductive AddressType :=
| Tcp (addr : str)
| Quic (addr : str)
| Relay (url : str)
| Dynamic.

#[global] Instance AddressType_eq_dec : EqDecision AddressType.
Proof. solve_decision. Defined.

Definition address_as_str (a : AddressType) : str :=
  match a with
  | Tcp addr | Quic addr | Relay addr => addr
  | Dynamic => $"dynamic"
  end.

(** [Display], which is also what [Serialize] writes. *)
Definition address_to_string (a : AddressType) : str :=
  match a with
  | Tcp addr => $"tcp://" ++ addr
  | Quic addr => $"quic://" ++ addr
  | Relay url => $"relay://" ++ url
  | Dynamic => $"dynamic"
  end.

Definition parse_address_str (s : str) : option AddressType :=
  match strip_prefix ($"tcp://") s with
  | Some addr => Some (Tcp addr)
  | None =>
      match strip_prefix ($"quic://") s with
      | Some addr => Some (Quic addr)
      | None => Relay <$> strip_prefix ($"relay://") s
      end
  end.

(** What the visitor can be given: a string, or an object with its first key
    and that key's value (a string or null). *)
Inductive AddressJson :=
| JsonStr (s : str)
| JsonObj (first : option (str * option str)).

Definition address_deserialize (j : AddressJson) : option AddressType :=
  match j with
  | JsonStr s =>
      if decide (s = $"Dynamic" \/ s = $"dynamic") then Some Dynamic else parse_address_str s
  | JsonObj None => None
  | JsonObj (Some (key, value)) =>
      if decide (key = $"Tcp") then Tcp <$> value
      else if decide (key = $"Quic") then Quic <$> value
      else if decide (key = $"Relay") then Relay <$> value
      else if decide (key = $"Dynamic")
           then match value with None => Some Dynamic | Some _ => None end
      else None
  end.

Record ConnectionStats := mkConnectionStats {
  stats_connected_at : option Z;
  stats_last_activity : option Z;
  stats_bytes_sent : Z;
  stats_bytes_received : Z;
  stats_messages_sent : Z;
  stats_messages_received : Z;
  stats_retry_count : Z;
}.

Inductive ConnectionType := Incoming | Outgoing.

Inductive ConnectionPriority := PrioLowest | PrioLow | PrioNormal | PrioHigh | PrioHighest.

(** ** Properties *)

(** What may be sent may be used: sending states are active, active states
    have not terminated. *)
Lemma can_send_active s : cs_can_send s = true -> cs_is_active s = true /\ cs_is_terminated s = false.
Proof. by destruct s. Qed.

(** Every address survives serialization: reading back the string written
    for it gives the same variant and the same payload, whatever the payload
    holds, and the legacy object form reads to the same value. *)
Theorem address_json_roundtrip a :
  address_deserialize (JsonStr (address_to_string a)) = Some a /\
  match a with
  | Tcp s => address_deserialize (JsonObj (Some ($"Tcp", Some s))) = Some a
  | Quic s => address_deserialize (JsonObj (Some ($"Quic", Some s))) = Some a
  | Relay s => address_deserialize (JsonObj (Some ($"Relay", Some s))) = Some a
  | Dynamic => address_deserialize (JsonObj (Some ($"Dynamic", None))) = Some a
  end.
Proof. destruct a; split; try reflexivity. Qed.
