(* ===== verification/Bep.v ===== *)
(** * BEP messages ([crates/bep-protocol])

    The wire structures ([messages/mod.rs]), their conversion to and from the
    core types ([messages/conversions.rs]) and the Hello handshake
    ([handshake.rs], [connection.rs]).  Protobuf encoding belongs to the
    [prost] crate: [Hello::encode_to_vec] and [Hello::decode] are parameters. *)

From S2P Require Import Prelude Core Connection.

(** ** Wire structures *)

Record Hello := mkHello {
  hello_device_name : str;
  hello_client_name : str;
  hello_client_version : str;
  hello_num_connections : Z;
  hello_timestamp : Z;
}.

Inductive MessageType :=
| MtClusterConfig | MtIndex | MtIndexUpdate | MtRequest | MtResponse | MtDownloadProgress | MtPing | MtClose.

Inductive MessageCompression := CompressionNone | CompressionLz4.

Record Header := mkHeader { header_type : Z; header_compression : Z }.

Record WireCounter := mkWireCounter { wc_id : Z; wc_value : Z }.

Record WireVector := mkWireVector { wv_counters : list WireCounter }.

Record WireBlockInfo := mkWireBlockInfo { wb_offset : Z; wb_size : Z; wb_hash : list Z }.

Inductive FileInfoType := FitFile | FitDirectory | FitSymlinkFile | FitSymlinkDirectory | FitSymlink.

(** [FileInfoType as i32] *)
Definition file_info_type_code (t : FileInfoType) : Z :=
  match t with
  | FitFile => 0
  | FitDirectory => 1
  | FitSymlinkFile => 2
  | FitSymlinkDirectory => 3
  | FitSymlink => 4
  end.

Record UnixData := mkUnixData { ud_owner : str; ud_group : str; ud_uid : Z; ud_gid : Z }.

Record WindowsData := mkWindowsData { wd_owner : str; wd_owner_is_group : bool }.

Record Xattr := mkXattr { xa_name : str; xa_value : list Z }.

Record PlatformData := mkPlatformData {
  pd_unix : option UnixData;
  pd_windows : option WindowsData;
  pd_linux : option (list Xattr);
  pd_darwin : option (list Xattr);
  pd_freebsd : option (list Xattr);
  pd_netbsd : option (list Xattr);
}.

Record WireFileInfo := mkWireFileInfo {
  wf_name : str;
  wf_type : Z;
  wf_size : Z;
  wf_permissions : Z;
  wf_modified_s : Z;
  wf_deleted : bool;
  wf_invalid : bool;
  wf_no_permissions : bool;
  wf_version : option WireVector;
  wf_sequence : Z;
  wf_modified_ns : Z;
  wf_modified_by : Z;
  wf_block_size : Z;
  wf_platform : option PlatformData;
  wf_blocks : list WireBlockInfo;
  wf_symlink_target : str;
  wf_blocks_hash : list Z;
  wf_encrypted : list Z;
  wf_previous_blocks_hash : list Z;
}.

Record Request := mkRequest {
  req_id : Z;
  req_folder : str;
  req_name : str;
  req_offset : Z;
  req_size : Z;
  req_hash : list Z;
  req_from_temporary : bool;
  req_block_no : Z;
}.

Inductive ErrorCode := NoError | Generic | NoSuchFile | InvalidFile.

Definition error_code_i32 (c : ErrorCode) : Z :=
  match c with
  | NoError => 0
  | Generic => 1
  | NoSuchFile => 2
  | InvalidFile => 3
  end.

Record Response := mkResponse { resp_id : Z; resp_data : list Z; resp_code : Z }.

Record WireIndex := mkWireIndex {
  wi_folder : str;
  wi_files : list WireFileInfo;
  wi_last_sequence : Z;
}.

Record WireIndexUpdate := mkWireIndexUpdate {
  wu_folder : str;
  wu_files : list WireFileInfo;
  wu_last_sequence : Z;
  wu_prev_sequence : Z;
}.

Record WireDevice := mkWireDevice {
  wd_id : list Z;
  wd_name : str;
  wd_addresses : list str;
  wd_compression : Z;
  wd_cert_name : str;
  wd_max_sequence : Z;
  wd_introducer : bool;
  wd_index_id : Z;
  wd_skip_introduction_removals : bool;
  wd_encryption_password_token : list Z;
}.

Record WireFolder := mkWireFolder {
  wfo_id : str;
  wfo_label : str;
  wfo_type : Z;
  wfo_stop_reason : Z;
  wfo_devices : list WireDevice;
}.

Record ClusterConfig := mkClusterConfig { cc_folders : list WireFolder; cc_secondary : bool }.

(** ** [String::from_utf8_lossy]

    The length of the longest valid sequence at the head, or of the invalid
    part that one replacement character stands for. *)
Definition byte_of (c : ascii) : Z := Z.of_nat (nat_of_ascii c).

Definition in_range (lo hi : Z) (c : option ascii) : bool :=
  match c with
  | Some c => (lo <=? byte_of c) && (byte_of c <=? hi)
  | None => false
  end.

Definition utf8_second (b : Z) : option (nat * Z * Z) :=
  if (194 <=? b) && (b <=? 223) then Some (2%nat, 128, 191)
  else if b =? 224 then Some (3%nat, 160, 191)
  else if b =? 237 then Some (3%nat, 128, 159)
  else if (225 <=? b) && (b <=? 239) then Some (3%nat, 128, 191)
  else if b =? 240 then Some (4%nat, 144, 191)
  else if (241 <=? b) && (b <=? 243) then Some (4%nat, 128, 191)
  else if b =? 244 then Some (4%nat, 128, 143)
  else None.

(** [inl n]: a valid char of [n] bytes; [inr n]: [n] bytes to replace. *)
Definition utf8_head (s : str) : nat + nat :=
  match s with
  | [] => inr 1%nat
  | c :: _ =>
      if byte_of c <? 128 then inl 1%nat
      else match utf8_second (byte_of c) with
           | None => inr 1%nat
           | Some (w, lo, hi) =>
               if negb (in_range lo hi (s !! 1%nat)) then inr 1%nat
               else if (w =? 2)%nat then inl 2%nat
               else if negb (in_range 128 191 (s !! 2%nat)) then inr 2%nat
               else if (w =? 3)%nat then inl 3%nat
               else if negb (in_range 128 191 (s !! 3%nat)) then inr 3%nat
               else inl 4%nat
           end
  end.

(** U+FFFD in UTF-8. *)
Definition replacement : str := ["239"; "191"; "189"]%char.

Fixpoint lossy_fuel (fuel : nat) (s : str) : str :=
  match fuel, s with
  | O, _ | _, [] => []
  | S fuel', _ =>
      match utf8_head s with
      | inl n => take n s ++ lossy_fuel fuel' (drop n s)
      | inr n => replacement ++ lossy_fuel fuel' (drop n s)
      end
  end.

Definition from_utf8_lossy (s : str) : str := lossy_fuel (length s) s.

Fixpoint utf8_valid_fuel (fuel : nat) (s : str) : bool :=
  match fuel, s with
  | _, [] => true
  | O, _ => false
  | S fuel', _ =>
      match utf8_head s with
      | inl n => utf8_valid_fuel fuel' (drop n s)
      | inr _ => false
      end
  end.

(** The invariant of every Rust [String]. *)
Definition utf8_valid (s : str) : bool := utf8_valid_fuel (length s) s.

(** ** Conversions *)

Definition wire_of_vector (v : Vector) : WireVector :=
  mkWireVector ((fun p : Z * Z => mkWireCounter p.1 p.2) <$> map_to_list (counters v)).

(** [collect()] into a map: a later counter replaces an earlier one. *)
Definition vector_of_wire (v : WireVector) : Vector :=
  mkVector (fold_left (fun m c => <[wc_id c := wc_value c]> m) (wv_counters v) ∅).

Definition wire_of_block (b : BlockInfo) : WireBlockInfo :=
  mkWireBlockInfo (bi_offset b) (bi_size b) (bi_hash b).

Definition block_of_wire (b : WireBlockInfo) : BlockInfo :=
  mkBlockInfo (wb_size b) (wb_hash b) (wb_offset b).

Definition wire_of_file (f : FileInfo) : WireFileInfo := {|
  wf_name := name f;
  wf_type := file_info_type_code
               match file_type f with
               | Directory => FitDirectory
               | Symlink => FitSymlink
               | File => FitFile
               end;
  wf_size := size f;
  wf_permissions := permissions f;
  wf_modified_s := modified_s f;
  wf_deleted := default false (deleted f);
  wf_invalid := false;
  wf_no_permissions := default false (no_permissions f);
  wf_version := Some (wire_of_vector (version f));
  wf_sequence := to_signed 64 (sequence f);
  wf_modified_ns := modified_ns f;
  wf_modified_by := default 0 (modified_by f);
  wf_block_size := block_size f;
  wf_platform := None;
  wf_blocks := wire_of_block <$> blocks f;
  wf_symlink_target := default [] (symlink_target f);
  wf_blocks_hash := default [] (blocks_hash f);
  wf_encrypted := [];
  wf_previous_blocks_hash := [];
|}.

Definition file_of_wire (f : WireFileInfo) : FileInfo := {|
  name := wf_name f;
  file_type :=
    if wf_type f =? file_info_type_code FitDirectory then Directory
    else if wf_type f =? file_info_type_code FitSymlink then Symlink
    else File;
  size := wf_size f;
  permissions := wf_permissions f;
  modified_s := wf_modified_s f;
  modified_ns := wf_modified_ns f;
  version := default vector_new (vector_of_wire <$> wf_version f);
  sequence := wrap 64 (wf_sequence f);
  block_size := wf_block_size f;
  blocks := block_of_wire <$> wf_blocks f;
  symlink_target :=
    if decide (wf_symlink_target f = []) then None else Some (from_utf8_lossy (wf_symlink_target f));
  deleted := Some (wf_deleted f);
  modified_by := if wf_modified_by f =? 0 then None else Some (wf_modified_by f);
  blocks_hash := if decide (wf_blocks_hash f = []) then None else Some (wf_blocks_hash f);
  no_permissions := if wf_no_permissions f then Some true else None;
  base_version := None;
|}.

Definition i64_max : Z := 2 ^ 63 - 1.

(** [iter().max()] and [iter().min()] *)
Definition list_max (l : list Z) : option Z :=
  match l with [] => None | x :: r => Some (fold_left Z.max r x) end.

Definition list_min (l : list Z) : option Z :=
  match l with [] => None | x :: r => Some (fold_left Z.min r x) end.

Definition wire_of_index (idx : Index) : WireIndex :=
  mkWireIndex (index_folder idx) (wire_of_file <$> index_files idx)
    (default 0 (list_max (sequence <$> index_files idx)) `min` i64_max).

Definition index_of_wire (idx : WireIndex) : Index :=
  mkIndex (wi_folder idx) (file_of_wire <$> wi_files idx).

Definition wire_of_index_update (upd : IndexUpdate) : WireIndexUpdate :=
  let sequences := sequence <$> update_files_list upd in
  let last_sequence := default 0 (list_max sequences) in
  let prev_sequence := default 0 (list_min sequences) in
  let prev_sequence := if 0 <? prev_sequence then prev_sequence - 1 else 0 in
  mkWireIndexUpdate (update_folder_id upd) (wire_of_file <$> update_files_list upd)
    (last_sequence `min` i64_max) (prev_sequence `min` i64_max).

Definition index_update_of_wire (upd : WireIndexUpdate) : IndexUpdate :=
  mkIndexUpdate (wu_folder upd) (file_of_wire <$> wu_files upd).

(** ** The Hello handshake *)

Definition HELLO_MAGIC : Z := 0x2EA7D90B.
Definition MAX_HELLO_SIZE : nat := 1024.
Definition OLD_MAGIC_1 : Z := 0x00010000.
Definition OLD_MAGIC_2 : Z := 0x00010001.

Inductive HelloError :=
| HelloTooLarge (n : nat)
| HelloOldProtocol
| HelloUnexpectedMagic (magic : Z)
| HelloIo
| HelloDecode.

(** [read_exact] of [n] bytes: an early end of the stream is an I/O error. *)
Definition read_exact (n : nat) (inb : list Z) : result HelloError (list Z * list Z) :=
  if (n <=? length inb)%nat then Ok (take n inb, drop n inb) else Err HelloIo.

Definition hello_new (device client client_ver : str) (now : Z) : Hello :=
  mkHello device client client_ver 1 now.

(** The state of a raw connection; the stream is the bytes still to be read
    and the bytes written. *)
Record BepRawConnection := mkBepRawConnection {
  conn_inbound : list Z;
  conn_outbound : list Z;
  conn_state : ConnectionState;
  conn_messages_sent : Z;
  conn_messages_received : Z;
  conn_type : ConnectionType;
  conn_device_id : option DeviceId;
  conn_remote_hello : option Hello;
}.

Definition set_state (c : BepRawConnection) (s : ConnectionState) : BepRawConnection :=
  mkBepRawConnection (conn_inbound c) (conn_outbound c) s (conn_messages_sent c)
    (conn_messages_received c) (conn_type c) (conn_device_id c) (conn_remote_hello c).

Definition set_stream (c : BepRawConnection) (inb outb : list Z) : BepRawConnection :=
  mkBepRawConnection inb outb (conn_state c) (conn_messages_sent c)
    (conn_messages_received c) (conn_type c) (conn_device_id c) (conn_remote_hello c).

Definition set_device_id (c : BepRawConnection) (id : DeviceId) : BepRawConnection :=
  mkBepRawConnection (conn_inbound c) (conn_outbound c) (conn_state c) (conn_messages_sent c)
    (conn_messages_received c) (conn_type c) (Some id) (conn_remote_hello c).

Definition conn_is_alive (c : BepRawConnection) : bool := cs_is_active (conn_state c).

Definition is_hello_complete (c : BepRawConnection) : bool :=
  match conn_state c with
  | CsProtocolHandshakeComplete | CsClusterConfigComplete => true
  | _ => false
  end.

Definition conn_close (c : BepRawConnection) : BepRawConnection :=
  set_state (set_state c CsDisconnecting) CsDisconnected.

Section Handshake.
Context (encode : Hello -> list Z) (decode : list Z -> option Hello).

Definition send_hello (hello : Hello) : SE (list Z * list Z) HelloError unit :=
  fun '(inb, outb) =>
    let msg_bytes := encode hello in
    if (MAX_HELLO_SIZE <? length msg_bytes)%nat then (Err (HelloTooLarge (length msg_bytes)), (inb, outb))
    else (Ok tt, (inb, outb ++ be_split 4 HELLO_MAGIC ++
                       be_split 2 (wrap 16 (Z.of_nat (length msg_bytes))) ++ msg_bytes)).

(** Reading [n] bytes off the stream. *)
Definition stream_read (n : nat) : SE (list Z * list Z) HelloError (list Z) :=
  fun '(inb, outb) =>
    match read_exact n inb with
    | Ok (bs, rest) => (Ok bs, (rest, outb))
    | Err e => (Err e, (inb, outb))
    end.

Definition recv_hello : SE (list Z * list Z) HelloError Hello :=
  let! magic_bytes := stream_read 4 in
  let magic := be_combine magic_bytes in
  if magic =? HELLO_MAGIC then
    let! len_bytes := stream_read 2 in
    let len := Z.to_nat (be_combine len_bytes) in
    if (MAX_HELLO_SIZE <? len)%nat then se_throw (HelloTooLarge len)
    else
      let! buf := stream_read len in
      match decode buf with
      | Some hello => se_ret hello
      | None => se_throw HelloDecode
      end
  else if (magic =? OLD_MAGIC_1) || (magic =? OLD_MAGIC_2) then se_throw HelloOldProtocol
  else se_throw (HelloUnexpectedMagic magic).

Definition exchange_hello (our_hello : Hello) : SE (list Z * list Z) HelloError Hello :=
  do! send_hello our_hello in recv_hello.

Definition exchange_hello_server (our_hello : Hello) : SE (list Z * list Z) HelloError Hello :=
  let! their_hello := recv_hello in
  do! send_hello our_hello in
  se_ret their_hello.

(** [perform_hello] and [perform_hello_server], by the direction of the
    connection; an error leaves the state at [TlsHandshakeComplete]. *)
Definition perform_hello (server : bool) (c : BepRawConnection) (device client client_ver : str) (now : Z)
  : result HelloError Hello * BepRawConnection :=
  let c1 := set_state c CsTlsHandshakeComplete in
  let our_hello := hello_new device client client_ver now in
  let run := if server then exchange_hello_server our_hello else exchange_hello our_hello in
  match run (conn_inbound c1, conn_outbound c1) with
  | (Ok remote_hello, (inb, outb)) =>
      let c2 := set_stream c1 inb outb in
      (Ok remote_hello,
       mkBepRawConnection inb outb CsProtocolHandshakeComplete
         (wrap 64 (conn_messages_sent c2 + 1)) (wrap 64 (conn_messages_received c2 + 1))
         (conn_type c2) (conn_device_id c2) (Some remote_hello))
  | (Err e, (inb, outb)) => (Err e, set_stream c1 inb outb)
  end.

(** [BepRawConnection::connect] and [accept], on a fresh stream. *)
Definition conn_connect (inb : list Z) (device client client_ver : str) (now : Z) :=
  perform_hello false (mkBepRawConnection inb [] CsConnected 0 0 Outgoing None None)
    device client client_ver now.

Definition conn_accept (inb : list Z) (device client client_ver : str) (now : Z) :=
  perform_hello true (mkBepRawConnection inb [] CsConnected 0 0 Incoming None None)
    device client client_ver now.

End Handshake.

(** ** Lemmas *)

Lemma utf8_head_pos s n : utf8_head s = inl n -> (1 <= n)%nat.
Proof. unfold utf8_head. intros H. crush_match. Qed.

Lemma from_utf8_lossy_valid s : utf8_valid s = true -> from_utf8_lossy s = s.
Proof.
  unfold utf8_valid, from_utf8_lossy. generalize (length s) as fuel. intros fuel. revert s.
  induction fuel as [|fuel IH]; intros s H; [by destruct s|].
  destruct s as [|c s]; [done|]. cbn [utf8_valid_fuel lossy_fuel] in *.
  destruct (utf8_head (c :: s)) as [n|n]; [|done]. rewrite IH by done. apply take_drop.
Qed.

Lemma fold_left_insert_map (l : list (Z * Z)) (m : gmap Z Z) :
  NoDup l.*1 -> (forall k, k ∈ l.*1 -> m !! k = None) ->
  fold_left (fun m p => <[p.1 := p.2]> m) l m = list_to_map l ∪ m.
Proof.
  revert m. induction l as [|[k v] l IH]; intros m Hn Hd; simpl; [by rewrite (left_id_L ∅ (∪))|].
  inversion Hn as [|? ? Hk Hn']; subst. rewrite IH; [|done|].
  - simpl. rewrite <-insert_union_r; [by rewrite insert_union_l|]. by apply not_elem_of_list_to_map_1.
  - intros k' Hk'. rewrite lookup_insert_ne; [|by intros ->]. apply Hd. by right.
Qed.

Lemma vector_wire_roundtrip v : vector_of_wire (wire_of_vector v) = v.
Proof.
  destruct v as [m]. unfold vector_of_wire, wire_of_vector. simpl. f_equal.
  pose proof (fold_left_insert_map (map_to_list m) ∅ (NoDup_fst_map_to_list m) ltac:(done)) as H.
  rewrite list_to_map_to_list, (right_id_L ∅ (∪)) in H. rewrite <-H at 2.
  generalize (map_to_list m) (∅ : gmap Z Z). clear. intros l. induction l as [|p l IH]; intros m; [done|].
  simpl. apply IH.
Qed.

Lemma block_wire_roundtrip b : block_of_wire (wire_of_block b) = b.
Proof. by destruct b. Qed.

(** What a file keeps across the wire: the base version is local, an absent
    optional field and its default value are not distinguished. *)
Definition wire_normal (f : FileInfo) : FileInfo := {|
  name := name f;
  file_type := file_type f;
  size := size f;
  permissions := permissions f;
  modified_s := modified_s f;
  modified_ns := modified_ns f;
  version := version f;
  sequence := sequence f;
  block_size := block_size f;
  blocks := blocks f;
  symlink_target := match symlink_target f with Some (_ :: _) => symlink_target f | _ => None end;
  deleted := Some (is_deleted f);
  modified_by := match modified_by f with
                 | Some z => if z =? 0 then None else Some z
                 | None => None
                 end;
  blocks_hash := match blocks_hash f with Some (_ :: _) => blocks_hash f | _ => None end;
  no_permissions := match no_permissions f with Some true => Some true | _ => None end;
  base_version := None;
|}.

Lemma list_max_spec l : l <> [] -> exists m, list_max l = Some m /\ m ∈ l /\ forall x, x ∈ l -> x <= m.
Proof.
  destruct l as [|x l]; [done|]. intros _. eexists. split; [done|]. revert x.
  induction l as [|y l IH]; intros x; cbn [fold_left].
  - split; [by left|]. intros z ->%list_elem_of_singleton. lia.
  - destruct (IH (x `max` y)) as [H1 H2]. split.
    + apply elem_of_cons in H1 as [->|H1]; [|by do 2 right].
      destruct (Z.max_spec x y) as [[_ ->]|[_ ->]]; [right; left|left].
    + intros z [->|[->|Hz]%elem_of_cons]%elem_of_cons.
      * specialize (H2 (x `max` y) ltac:(by left)). lia.
      * specialize (H2 (x `max` y) ltac:(by left)). lia.
      * apply H2. by right.
Qed.

Lemma list_min_spec l : l <> [] -> exists m, list_min l = Some m /\ m ∈ l /\ forall x, x ∈ l -> m <= x.
Proof.
  destruct l as [|x l]; [done|]. intros _. eexists. split; [done|]. revert x.
  induction l as [|y l IH]; intros x; cbn [fold_left].
  - split; [by left|]. intros z ->%list_elem_of_singleton. lia.
  - destruct (IH (x `min` y)) as [H1 H2]. split.
    + apply elem_of_cons in H1 as [->|H1]; [|by do 2 right].
      destruct (Z.min_spec x y) as [[_ ->]|[_ ->]]; [left|right; left].
    + intros z [->|[->|Hz]%elem_of_cons]%elem_of_cons.
      * specialize (H2 (x `min` y) ltac:(by left)). lia.
      * specialize (H2 (x `min` y) ltac:(by left)). lia.
      * apply H2. by right.
Qed.

Lemma file_wire_roundtrip f :
  in_u 64 (sequence f) -> from_option utf8_valid true (symlink_target f) = true ->
  file_of_wire (wire_of_file f) = wire_normal f.
Proof.
  intros Hs Hu. destruct f as [n ft sz pm ms mn v sq bsz bl st dl mb bh np bv]. simpl in *.
  unfold file_of_wire, wire_of_file, wire_normal. simpl. f_equal.
  - by destruct ft.
  - apply vector_wire_roundtrip.
  - by apply wrap_to_signed.
  - rewrite <-list_fmap_compose. rewrite <-(list_fmap_id bl) at 2. apply list_fmap_ext.
    intros i b _. apply block_wire_roundtrip.
  - destruct st as [[|c t]|]; [done| |done]. rewrite decide_False by done.
    f_equal. by apply from_utf8_lossy_valid.
  - by destruct mb.
  - by destruct bh as [[|]|].
  - by destruct np as [[]|].
Qed.

Section HandshakeProofs.
Context (encode : Hello -> list Z) (decode : list Z -> option Hello).

Lemma stream_read_app n bs rest outb :
  length bs = n -> stream_read n (bs ++ rest, outb) = (Ok bs, (rest, outb)).
Proof.
  intros <-. unfold stream_read, read_exact. rewrite length_app.
  replace (_ <=? _)%nat with true by (symmetry; apply Nat.leb_le; lia).
  by rewrite take_app_length, drop_app_length.
Qed.

(** The bytes of a Hello on the wire. *)
Definition hello_frame (h : Hello) : list Z :=
  be_split 4 HELLO_MAGIC ++ be_split 2 (wrap 16 (Z.of_nat (length (encode h)))) ++ encode h.

Lemma send_hello_frame h inb outb :
  (length (encode h) <= MAX_HELLO_SIZE)%nat ->
  send_hello encode h (inb, outb) = (Ok tt, (inb, outb ++ hello_frame h)).
Proof.
  intros Hl. unfold send_hello.
  replace (MAX_HELLO_SIZE <? _)%nat with false by (symmetry; apply Nat.ltb_ge; lia). done.
Qed.

Lemma recv_hello_frame h rest outb :
  (length (encode h) <= MAX_HELLO_SIZE)%nat -> decode (encode h) = Some h ->
  recv_hello decode (hello_frame h ++ rest, outb) = (Ok h, (rest, outb)).
Proof.
  intros Hl Hd. unfold recv_hello, hello_frame. rewrite <-!app_assoc.
  erewrite se_bind_run by (by apply stream_read_app). cbn [Z.eqb].
  rewrite be_combine_split_id by by vm_compute. rewrite Z.eqb_refl.
  erewrite se_bind_run by (by apply stream_read_app, length_be_split).
  assert (in_u 16 (Z.of_nat (length (encode h)))) as Hu
    by (unfold MAX_HELLO_SIZE in Hl; unfold in_u; lia).
  rewrite wrap_id, be_combine_split_id, Nat2Z.id by done.
  replace (MAX_HELLO_SIZE <? _)%nat with false by (symmetry; apply Nat.ltb_ge; lia).
  erewrite se_bind_run by (by apply stream_read_app). by rewrite Hd.
Qed.
End HandshakeProofs.

Lemma stream_read_Ok n inb outb bs st :
  stream_read n (inb, outb) = (Ok bs, st) -> inb = bs ++ st.1 /\ length bs = n /\ st.2 = outb.
Proof.
  unfold stream_read, read_exact. destruct (Nat.leb_spec n (length inb)); [|done].
  intros [= <- <-]. simpl. rewrite take_drop, length_take. split; [done|]. split; [lia|done].
Qed.

(** ** Properties *)

(** An index update survives the wire up to the documented normalization
    of optional fields, and the window it announces is exact: every file of it has a sequence number above
    [prev_sequence] and at most [last_sequence], and both bounds are attained. *)
Theorem index_update_wire_roundtrip upd :
  Forall (fun f => 0 < sequence f <= i64_max /\
                   from_option utf8_valid true (symlink_target f) = true) (update_files_list upd) ->
  let w := wire_of_index_update upd in
  index_update_of_wire w = mkIndexUpdate (update_folder_id upd) (wire_normal <$> update_files_list upd) /\
  (forall f, f ∈ update_files_list upd -> wu_prev_sequence w < sequence f <= wu_last_sequence w) /\
  (update_files_list upd <> [] ->
   exists f g, f ∈ update_files_list upd /\ g ∈ update_files_list upd /\
     sequence f = wu_prev_sequence w + 1 /\ sequence g = wu_last_sequence w).
Proof.
  intros Hf. rewrite Forall_forall in Hf. split.
  { unfold index_update_of_wire. simpl. f_equal. rewrite <-list_fmap_compose.
    apply list_fmap_ext. intros i f Hi%list_elem_of_lookup_2. destruct (Hf f Hi) as [Hs Hu].
    apply file_wire_roundtrip; [|done]. unfold in_u, i64_max in *. lia. }
  destruct (decide (update_files_list upd = [])) as [E|E]; [rewrite E; split; [by intros ? ?%elem_of_nil|done]|].
  assert (sequence <$> update_files_list upd <> []) as Hne by (by destruct (update_files_list upd)).
  destruct (list_max_spec _ Hne) as (mx & Emx & (g & -> & Hg)%list_elem_of_fmap & Hmx).
  destruct (list_min_spec _ Hne) as (mn & Emn & (f & -> & Hfi)%list_elem_of_fmap & Hmn).
  simpl. rewrite Emx, Emn. simpl. pose proof (Hf f Hfi) as [? _]. pose proof (Hf g Hg) as [? _].
  replace (0 <? sequence f) with true by (symmetry; apply Z.ltb_lt; lia). split.
  - intros h Hh. specialize (Hmx (sequence h)). specialize (Hmn (sequence h)).
    rewrite list_elem_of_fmap in Hmx, Hmn. specialize (Hmx (ex_intro _ h (conj eq_refl Hh))).
    specialize (Hmn (ex_intro _ h (conj eq_refl Hh))). lia.
  - intros _. exists f, g. split; [done|]. split; [done|]. lia.
Qed.

Definition sample_file (n : str) (seq : Z) : FileInfo := with_sequence (file_info_new n) seq.

Lemma index_update_wire_roundtrip_witness :
  let upd := mkIndexUpdate ($"default") [sample_file ($"a") 3; sample_file ($"b") 7] in
  index_update_of_wire (wire_of_index_update upd) = upd /\
  wu_prev_sequence (wire_of_index_update upd) = 2 /\ wu_last_sequence (wire_of_index_update upd) = 7.
Proof.
  intros upd. destruct (index_update_wire_roundtrip upd) as (H & _ & _).
  - repeat constructor; vm_compute; congruence.
  - split; [|split]; [rewrite H; vm_compute; reflexivity|vm_compute; reflexivity|vm_compute; reflexivity].
Defined.

(** A dialing and an accepting side that are connected to each other both
    complete the handshake, each knows the other's Hello, and what each side
    wrote is exactly one frame: neither waits for bytes the other has not sent. *)
Theorem hello_exchange_pair encode decode dc cc vc tc ds cs vs ts rest rest' :
  let hc := hello_new dc cc vc tc in
  let hs := hello_new ds cs vs ts in
  (length (encode hc) <= MAX_HELLO_SIZE)%nat -> (length (encode hs) <= MAX_HELLO_SIZE)%nat ->
  decode (encode hc) = Some hc -> decode (encode hs) = Some hs ->
  exists client server,
    conn_accept encode decode (hello_frame encode hc ++ rest) ds cs vs ts = (Ok hc, server) /\
    conn_connect encode decode (conn_outbound server ++ rest') dc cc vc tc = (Ok hs, client) /\
    conn_outbound client = hello_frame encode hc /\
    conn_inbound client = rest' /\ conn_inbound server = rest /\
    is_hello_complete client = true /\ is_hello_complete server = true /\
    conn_remote_hello client = Some hs /\ conn_remote_hello server = Some hc.
Proof.
  intros hc hs Lc Ls Dc Ds. unfold conn_accept, conn_connect, perform_hello, exchange_hello_server,
    exchange_hello. cbn [conn_inbound conn_outbound set_state].
  fold hc hs. erewrite (se_bind_run (recv_hello decode)) by by apply recv_hello_frame.
  erewrite se_bind_run by by apply send_hello_frame. cbn [se_ret].
  eexists _, _. split; [done|]. cbn [conn_outbound app].
  erewrite se_bind_run by by apply send_hello_frame. rewrite recv_hello_frame by done.
  split; [done|]. done.
Qed.

Lemma hello_exchange_pair_witness :
  exists client server,
    conn_accept (fun _ => [1; 2]) (fun _ => Some (hello_new ($"a") [] [] 0))
      ([46; 167; 217; 11; 0; 2; 1; 2] ++ [9]) ($"a") [] [] 0 = (Ok (hello_new ($"a") [] [] 0), server) /\
    conn_outbound client = [46; 167; 217; 11; 0; 2; 1; 2].
Proof.
  destruct (hello_exchange_pair (fun _ => [1; 2]) (fun _ => Some (hello_new ($"a") [] [] 0))
              ($"a") [] [] 0 ($"a") [] [] 0 [9] []) as (c & s & H1 & _ & H2 & _);
    [vm_compute; lia|vm_compute; lia|reflexivity|reflexivity|].
  exists c, s. split; [exact H1|exact H2].
Defined.

(** Whatever a peer sends, a Hello is only accepted from a frame that starts
    with the magic number, announces at most 1024 bytes, and whose announced
    bytes decode to it; the stream is left right after the frame. *)
Theorem recv_hello_sound decode inb outb h st :
  recv_hello decode (inb, outb) = (Ok h, st) ->
  exists magic len body, inb = magic ++ len ++ body ++ st.1 /\ st.2 = outb /\
    length magic = 4%nat /\ be_combine magic = HELLO_MAGIC /\
    length len = 2%nat /\ Z.of_nat (length body) = 0 `max` be_combine len /\
    (length body <= MAX_HELLO_SIZE)%nat /\ decode body = Some h.
Proof.
  unfold recv_hello. intros (magic & [s1 o1] & E1 & H)%se_bind_Ok.
  apply stream_read_Ok in E1 as (-> & Lm & Ho1). simpl in Ho1; subst o1.
  destruct (Z.eqb_spec (be_combine magic) HELLO_MAGIC) as [Em|]; [|by destruct (_ || _)].
  apply se_bind_Ok in H as (len & [s2 o2] & E2 & H).
  apply stream_read_Ok in E2 as (E2 & Ll & Ho2). simpl in E2, Ho2. subst s1 o2.
  destruct (Nat.ltb_spec MAX_HELLO_SIZE (Z.to_nat (be_combine len))); [done|].
  apply se_bind_Ok in H as (body & [s3 o3] & E3 & H).
  apply stream_read_Ok in E3 as (E3 & Lb & Ho3). simpl in E3, Ho3. subst s2 o3.
  destruct (decode body) as [h'|] eqn:Ed; [|done]. injection H as -> <-.
  exists magic, len, body. simpl. repeat (split; [done || lia|]). done.
Qed.

Lemma recv_hello_sound_witness :
  exists body : list Z, Some (hello_new [] [] [] 0) = Some (hello_new [] [] [] 0) /\ length body = 1%nat /\
    recv_hello (fun _ => Some (hello_new [] [] [] 0)) ([46; 167; 217; 11; 0; 1; 5], [])
      = (Ok (hello_new [] [] [] 0), ([], [])).
Proof.
  destruct (recv_hello_sound (fun _ => Some (hello_new [] [] [] 0)) [46; 167; 217; 11; 0; 1; 5] []
              (hello_new [] [] [] 0) ([], [])) as (m & l & body & E & _ & Lm & _ & Ll & _ & _ & D).
  - vm_compute. reflexivity.
  - exists body. split; [exact D|]. split; [|vm_compute; reflexivity].
    simpl in E. apply (f_equal length) in E. rewrite !length_app in E. simpl in E. lia.
Defined.
