(* ===== verification/Wire.v ===== *)
(** * Byte buffers and codecs

    The part of the [bytes] crate the network protocols use ([BufMut::put_*],
    [Buf::get_*], [copy_to_bytes], [advance]) on lists of bytes, and the class of
    codecs: a type with an encoder and a decoder of which the decoder, applied
    to an encoding followed by anything, gives the value and what follows. *)

From S2P Require Import Prelude Core Connection Bep.

(** ** Writers *)

Definition put_u8 (z : Z) : list Z := be_split 1 z.
Definition put_u16 (z : Z) : list Z := be_split 2 z.
Definition put_u32 (z : Z) : list Z := be_split 4 z.
Definition put_i32 (z : Z) : list Z := be_split 4 z.

(** ** Readers

    A reader takes a value off the front of a buffer; [None] stands for a
    buffer that is too short. *)
Definition Reader (A : Type) : Type := list Z -> option (A * list Z).

Definition r_ret {A : Type} (a : A) : Reader A := fun bs => Some (a, bs).

Definition r_fail {A : Type} : Reader A := fun _ => None.

Definition r_bind {A B : Type} (r : Reader A) (k : A -> Reader B) : Reader B :=
  fun bs => match r bs with
            | Some (a, rest) => k a rest
            | None => None
            end.

Notation "'let<' x ':=' c 'in' k" := (r_bind c (fun x => k))
  (at level 10, x pattern, c at level 100, k at level 200) : rust_scope.

(** [copy_to_bytes(n)] behind a test of [remaining]. *)
Definition get_bytes (n : nat) : Reader (list Z) :=
  fun bs => if (n <=? length bs)%nat then Some (take n bs, drop n bs) else None.

Definition get_uint (n : nat) : Reader Z :=
  let< bs := get_bytes n in r_ret (be_combine bs).

Definition get_u8 : Reader Z := get_uint 1.
Definition get_u16 : Reader Z := get_uint 2.
Definition get_u32 : Reader Z := get_uint 4.
Definition get_i32 : Reader Z := let< z := get_u32 in r_ret (to_signed 32 z).

(** ** Strings as bytes *)

Definition bytes_of_str (s : str) : list Z := byte_of <$> s.

Definition str_of_bytes (bs : list Z) : str := (fun b => ascii_of_nat (Z.to_nat b)) <$> bs.

(** ** Codecs *)

Class Codec (A : Type) := {
  enc : A -> list Z;
  dec : Reader A;
  representable : A -> Prop;
}.

Class CodecLaws (A : Type) `{Codec A} := {
  dec_enc : forall a rest, representable a -> dec (enc a ++ rest) = Some (a, rest);
  enc_bytes : forall a, representable a -> Forall is_byte (enc a);
}.

(** ** Lemmas *)

Create Rewrite HintDb wire.

Lemma r_bind_run {A B : Type} (r : Reader A) (k : A -> Reader B) bs a rest :
  r bs = Some (a, rest) -> r_bind r k bs = k a rest.
Proof. unfold r_bind. by intros ->. Qed.

Lemma r_bind_Some {A B : Type} (r : Reader A) (k : A -> Reader B) bs b rest :
  r_bind r k bs = Some (b, rest) -> exists a mid, r bs = Some (a, mid) /\ k a mid = Some (b, rest).
Proof. unfold r_bind. destruct (r bs) as [[a mid]|]; naive_solver. Qed.

Lemma get_bytes_app n xs rest : length xs = n -> get_bytes n (xs ++ rest) = Some (xs, rest).
Proof.
  intros <-. unfold get_bytes. rewrite length_app.
  rewrite (proj2 (Nat.leb_le _ _)) by lia. by rewrite take_app_length, drop_app_length.
Qed.

Lemma get_bytes_Some n bs xs rest :
  get_bytes n bs = Some (xs, rest) <-> bs = xs ++ rest /\ length xs = n.
Proof.
  split.
  - unfold get_bytes. destruct (Nat.leb_spec n (length bs)); [|done]. intros [= <- <-].
    split; [by rewrite take_drop|]. rewrite length_take. lia.
  - intros [-> Hl]. by apply get_bytes_app.
Qed.

Lemma get_bytes_None n bs : get_bytes n bs = None <-> (length bs < n)%nat.
Proof. unfold get_bytes. destruct (Nat.leb_spec n (length bs)); split; (done || lia). Qed.

Lemma get_uint_put n z rest :
  in_u (8 * Z.of_nat n) z -> get_uint n (be_split n z ++ rest) = Some (z, rest).
Proof.
  intros Hz. unfold get_uint.
  rewrite (r_bind_run _ _ _ _ _ (get_bytes_app n _ rest (length_be_split n z))).
  unfold r_ret. by rewrite be_combine_split_id.
Qed.

Lemma get_uint_Some n bs z rest :
  get_uint n bs = Some (z, rest) -> exists xs, bs = xs ++ rest /\ length xs = n /\ z = be_combine xs.
Proof.
  unfold get_uint. intros (xs & mid & H & K)%r_bind_Some. unfold r_ret in K.
  apply get_bytes_Some in H as [-> Hl]. naive_solver.
Qed.

Lemma get_u8_put z rest : in_u 8 z -> get_u8 (put_u8 z ++ rest) = Some (z, rest).
Proof. apply (get_uint_put 1). Qed.

Lemma get_u16_put z rest : in_u 16 z -> get_u16 (put_u16 z ++ rest) = Some (z, rest).
Proof. apply (get_uint_put 2). Qed.

Lemma get_u32_put z rest : in_u 32 z -> get_u32 (put_u32 z ++ rest) = Some (z, rest).
Proof. apply (get_uint_put 4). Qed.

(** A signed integer is written as its two's complement. *)
Lemma put_i32_wrap z : put_i32 z = put_u32 (wrap 32 z).
Proof. symmetry. apply (be_split_mod 4 z 4). lia. Qed.

Lemma to_signed_wrap w z : 0 < w -> in_i w z -> to_signed w (wrap w z) = z.
Proof.
  intros Hw Hz. rewrite <-(to_signed_id w z Hw Hz) at 2. unfold to_signed, wrap.
  by rewrite Z.mod_mod by (apply Z.pow_nonzero; lia).
Qed.

Lemma get_i32_put z rest : in_i 32 z -> get_i32 (put_i32 z ++ rest) = Some (z, rest).
Proof.
  intros Hz. unfold get_i32. rewrite put_i32_wrap.
  rewrite (r_bind_run _ _ _ _ _ (get_u32_put _ rest (wrap_range 32 z ltac:(lia)))).
  unfold r_ret. by rewrite to_signed_wrap by (done || lia).
Qed.

Lemma length_put_u8 z : length (put_u8 z) = 1%nat.
Proof. apply length_be_split. Qed.

Lemma length_put_u16 z : length (put_u16 z) = 2%nat.
Proof. apply length_be_split. Qed.

Lemma length_put_u32 z : length (put_u32 z) = 4%nat.
Proof. apply length_be_split. Qed.

Lemma length_put_i32 z : length (put_i32 z) = 4%nat.
Proof. apply length_be_split. Qed.

Lemma str_of_bytes_of_str s : str_of_bytes (bytes_of_str s) = s.
Proof.
  unfold str_of_bytes, bytes_of_str. rewrite <-list_fmap_compose. rewrite <-(list_fmap_id s) at 2.
  apply list_fmap_ext. intros _ c _. unfold byte_of. simpl. rewrite Nat2Z.id. apply ascii_nat_embedding.
Qed.

Lemma bytes_of_str_bytes s : Forall is_byte (bytes_of_str s).
Proof.
  unfold bytes_of_str. apply Forall_fmap, Forall_true. intros c. unfold in_u, byte_of. simpl.
  pose proof (nat_ascii_bounded c). lia.
Qed.

Lemma length_bytes_of_str s : length (bytes_of_str s) = length s.
Proof. apply length_fmap. Qed.

(** Encodings under the laws are prefix free: a stream of them is read in one
    way only. *)
Lemma enc_prefix_free {A : Type} `{CodecLaws A} a b r r' :
  representable a -> representable b -> enc a ++ r = enc b ++ r' -> a = b /\ r = r'.
Proof.
  intros Ha Hb E. pose proof (dec_enc a r Ha) as Da. rewrite E, (dec_enc b r' Hb) in Da. naive_solver.
Qed.

#[export] Hint Rewrite @length_app length_put_u8 length_put_u16 length_put_u32 length_put_i32
  length_bytes_of_str length_be_split @length_replicate : wire.
#[export] Hint Resolve be_split_bytes bytes_of_str_bytes Forall_app_2 : rust.
