(* ===== verification/Database.v ===== *)
(** * The local database ([crates/syncthing-sync/src/database.rs])

    [LocalDatabase] is the trait of the source as a type class: readers return
    a [result], writers a [result] and the next state.  [LocalDatabaseLaws] is
    what the components above rely on, stated against an abstract view (per
    folder, a finite map from names to file metadata and a sequence counter);
    [MemoryDatabase] implements it.  [FileSystemDatabase] is the persistent
    implementation: the JSON files of a folder are a map from file names to the
    metadata they hold, next to the in-memory cache. *)

From S2P Require Import Prelude Core.

(** Errors of the sync engine ([error.rs]); messages are dropped, the variant
    and the path or offset are kept. *)
Inductive SyncError :=
| SyncIo
| SyncCore
| SyncScan (folder : str)
| SyncPull (path : str)
| SyncDatabase
| SyncFolderNotFound (folder : str)
| SyncFileNotFound (path : str)
| SyncIndex
| SyncConflict (path : str)
| SyncChecksumMismatch (offset : Z)
| SyncTimeout
| SyncCancelled
| SyncConfig
| SyncOther.

Definition sync_error_is_temporary (e : SyncError) : bool :=
  match e with
  | SyncIo | SyncTimeout | SyncPull _ => true
  | _ => false
  end.

Abbreviation Res A := (result SyncError A).

(** ** The trait *)
Class LocalDatabase (DB : Type) := {
  get_file : DB -> str -> str -> Res (option FileInfo);
  get_folder_files : DB -> str -> Res (list FileInfo);
  update_file : DB -> str -> FileInfo -> Res unit * DB;
  update_files : DB -> str -> list FileInfo -> Res unit * DB;
  delete_file : DB -> str -> str -> Res unit * DB;
  has_file : DB -> str -> str -> Res bool;
  get_folder : DB -> str -> Res (option Folder);
  update_folder : DB -> Folder -> Res unit * DB;
  get_needed_files : DB -> str -> Z -> Res (list FileInfo);
  check_globals : DB -> str -> str -> Res (list FileInfo);
  get_sequence : DB -> str -> Res Z;
  increment_sequence : DB -> str -> Res Z * DB;
  reset_sequence : DB -> str -> Res unit * DB;
  get_folder_index_meta : DB -> str -> Res (option (IndexID * Z));
  update_folder_index_meta : DB -> str -> IndexID -> Z -> Res unit * DB;
}.

(** What a database promises.  [db_inv] is its representation invariant; every
    writer preserves it and changes the view exactly as stated. *)
Class LocalDatabaseLaws (DB : Type) `{LocalDatabase DB} := {
  db_inv : DB -> Prop;
  db_files : DB -> str -> gmap str FileInfo;
  db_seq : DB -> str -> Z;
  db_meta : DB -> str -> option (IndexID * Z);
  law_names : forall s fo n f, db_inv s -> db_files s fo !! n = Some f -> name f = n;
  law_get_file : forall s fo n, db_inv s -> get_file s fo n = Ok (db_files s fo !! n);
  law_get_folder_files : forall s fo, db_inv s ->
    exists l, get_folder_files s fo = Ok l /\ l ≡ₚ (map_to_list (db_files s fo)).*2;
  law_get_needed : forall s fo since, db_inv s ->
    exists l, get_needed_files s fo since = Ok l /\
      l ≡ₚ filter (fun f => since < sequence f) (map_to_list (db_files s fo)).*2;
  law_update_file : forall s fo f, db_inv s ->
    exists s', update_file s fo f = (Ok tt, s') /\ db_inv s' /\
      db_files s' fo = <[name f := f]> (db_files s fo) /\
      (forall fo', fo' <> fo -> db_files s' fo' = db_files s fo') /\
      (forall fo', db_seq s' fo' = db_seq s fo') /\ (forall fo', db_meta s' fo' = db_meta s fo');
  law_update_files : forall s fo fs, db_inv s ->
    exists s', update_files s fo fs = (Ok tt, s') /\ db_inv s' /\
      db_files s' fo = fold_left (fun m f => <[name f := f]> m) fs (db_files s fo) /\
      (forall fo', fo' <> fo -> db_files s' fo' = db_files s fo') /\
      (forall fo', db_seq s' fo' = db_seq s fo') /\ (forall fo', db_meta s' fo' = db_meta s fo');
  law_delete_file : forall s fo n, db_inv s ->
    exists s', delete_file s fo n = (Ok tt, s') /\ db_inv s' /\
      db_files s' fo = base.delete n (db_files s fo) /\
      (forall fo', fo' <> fo -> db_files s' fo' = db_files s fo') /\
      (forall fo', db_seq s' fo' = db_seq s fo') /\ (forall fo', db_meta s' fo' = db_meta s fo');
  law_get_sequence : forall s fo, db_inv s -> get_sequence s fo = Ok (db_seq s fo);
  law_increment_sequence : forall s fo, db_inv s ->
    exists s', increment_sequence s fo = (Ok (wrap 64 (db_seq s fo + 1)), s') /\ db_inv s' /\
      db_seq s' fo = wrap 64 (db_seq s fo + 1) /\
      (forall fo', fo' <> fo -> db_seq s' fo' = db_seq s fo') /\
      (forall fo', db_files s' fo' = db_files s fo') /\ (forall fo', db_meta s' fo' = db_meta s fo');
  law_reset_sequence : forall s fo, db_inv s ->
    exists s', reset_sequence s fo = (Ok tt, s') /\ db_inv s' /\ db_seq s' fo = 0 /\
      (forall fo', fo' <> fo -> db_seq s' fo' = db_seq s fo') /\
      (forall fo', db_files s' fo' = db_files s fo') /\ (forall fo', db_meta s' fo' = db_meta s fo');
  law_get_meta : forall s fo, db_inv s -> get_folder_index_meta s fo = Ok (db_meta s fo);
  law_update_meta : forall s fo id m, db_inv s ->
    exists s', update_folder_index_meta s fo id m = (Ok tt, s') /\ db_inv s' /\
      db_meta s' fo = Some (id, m) /\
      (forall fo', fo' <> fo -> db_meta s' fo' = db_meta s fo') /\
      (forall fo', db_files s' fo' = db_files s fo') /\ (forall fo', db_seq s' fo' = db_seq s fo');
}.

(** ** Per-folder file lists, shared by both implementations *)

Fixpoint list_find_name (n : str) (l : list FileInfo) : option FileInfo :=
  match l with
  | [] => None
  | f :: l' => if decide (name f = n) then Some f else list_find_name n l'
  end.

(** [files[position] = info] or [files.push(info)]. *)
Fixpoint list_upsert (info : FileInfo) (l : list FileInfo) : list FileInfo :=
  match l with
  | [] => [info]
  | f :: l' => if decide (name f = name info) then info :: l' else f :: list_upsert info l'
  end.

Definition list_retain_not (n : str) (l : list FileInfo) : list FileInfo :=
  filter (fun f => name f <> n) l.

(** ** The in-memory implementation *)
Record MemoryDatabase := mkMemoryDatabase {
  md_files : gmap str (list FileInfo);
  md_folders : gmap str Folder;
  md_sequences : gmap str Z;
  md_index_metas : gmap str (IndexID * Z);
}.

Definition memory_database_new : MemoryDatabase := mkMemoryDatabase ∅ ∅ ∅ ∅.

Definition md_get_file (s : MemoryDatabase) (folder n : str) : Res (option FileInfo) :=
  Ok (files ← md_files s !! folder; list_find_name n files).

Definition md_get_folder_files (s : MemoryDatabase) (folder : str) : Res (list FileInfo) :=
  Ok (default [] (md_files s !! folder)).

Definition md_update_file (s : MemoryDatabase) (folder : str) (info : FileInfo)
  : Res unit * MemoryDatabase :=
  let files := default [] (md_files s !! folder) in
  (Ok tt, mkMemoryDatabase (<[folder := list_upsert info files]> (md_files s))
            (md_folders s) (md_sequences s) (md_index_metas s)).

Fixpoint md_update_files (s : MemoryDatabase) (folder : str) (new_files : list FileInfo)
  : Res unit * MemoryDatabase :=
  match new_files with
  | [] => (Ok tt, s)
  | file :: rest =>
      match md_update_file s folder file with
      | (Err e, s') => (Err e, s')
      | (Ok _, s') => md_update_files s' folder rest
      end
  end.

Definition md_delete_file (s : MemoryDatabase) (folder n : str) : Res unit * MemoryDatabase :=
  (Ok tt, match md_files s !! folder with
          | None => s
          | Some files =>
              mkMemoryDatabase (<[folder := list_retain_not n files]> (md_files s))
                (md_folders s) (md_sequences s) (md_index_metas s)
          end).

Definition md_has_file (s : MemoryDatabase) (folder n : str) : Res bool :=
  let? r := md_get_file s folder n in
  Ok (match r with Some _ => true | None => false end).

Definition md_get_folder (s : MemoryDatabase) (fid : str) : Res (option Folder) :=
  Ok (md_folders s !! fid).

Definition md_update_folder (s : MemoryDatabase) (folder : Folder) : Res unit * MemoryDatabase :=
  (Ok tt, mkMemoryDatabase (md_files s) (<[folder_id folder := folder]> (md_folders s))
            (md_sequences s) (md_index_metas s)).

Definition md_get_needed_files (s : MemoryDatabase) (folder : str) (since : Z)
  : Res (list FileInfo) :=
  let? files := md_get_folder_files s folder in
  Ok (filter (fun f => since < sequence f) files).

Definition md_check_globals (s : MemoryDatabase) (folder n : str) : Res (list FileInfo) :=
  let? r := md_get_file s folder n in
  Ok (match r with Some file => [file] | None => [] end).

Definition md_get_sequence (s : MemoryDatabase) (folder : str) : Res Z :=
  Ok (default 0 (md_sequences s !! folder)).

Definition md_set_sequence (s : MemoryDatabase) (folder : str) (v : Z) : MemoryDatabase :=
  mkMemoryDatabase (md_files s) (md_folders s) (<[folder := v]> (md_sequences s))
    (md_index_metas s).

Definition md_increment_sequence (s : MemoryDatabase) (folder : str) : Res Z * MemoryDatabase :=
  let seq := wrap 64 (default 0 (md_sequences s !! folder) + 1) in
  (Ok seq, md_set_sequence s folder seq).

Definition md_reset_sequence (s : MemoryDatabase) (folder : str) : Res unit * MemoryDatabase :=
  (Ok tt, md_set_sequence s folder 0).

Definition md_get_folder_index_meta (s : MemoryDatabase) (folder : str)
  : Res (option (IndexID * Z)) :=
  Ok (md_index_metas s !! folder).

Definition md_update_folder_index_meta (s : MemoryDatabase) (folder : str) (id : IndexID)
    (max_sequence : Z) : Res unit * MemoryDatabase :=
  (Ok tt, mkMemoryDatabase (md_files s) (md_folders s) (md_sequences s)
            (<[folder := (id, max_sequence)]> (md_index_metas s))).

#[global] Instance MemoryDatabase_LocalDatabase : LocalDatabase MemoryDatabase := {|
  get_file := md_get_file;
  get_folder_files := md_get_folder_files;
  update_file := md_update_file;
  update_files := md_update_files;
  delete_file := md_delete_file;
  has_file := md_has_file;
  get_folder := md_get_folder;
  update_folder := md_update_folder;
  get_needed_files := md_get_needed_files;
  check_globals := md_check_globals;
  get_sequence := md_get_sequence;
  increment_sequence := md_increment_sequence;
  reset_sequence := md_reset_sequence;
  get_folder_index_meta := md_get_folder_index_meta;
  update_folder_index_meta := md_update_folder_index_meta;
|}.

(** ** The file-system implementation

    [fs_json] holds, per folder directory and JSON file name, the metadata the
    file decodes to; [pick] is the entry [DashMap::iter().next()] yields, which
    is unspecified.  I/O failures are not modelled: the operations are those of
    a disk that answers. *)
Record FileSystemDatabase := mkFileSystemDatabase {
  fs_json : gmap (str * str) FileInfo;
  fs_seq : gmap str Z;
  fs_cache : gmap str (list FileInfo);
  fs_cache_size : Z;
  fs_cache_cap : Z;
}.

Definition fs_new : FileSystemDatabase := mkFileSystemDatabase ∅ ∅ ∅ 0 100000.

(** [format!("{}.json", name.replace('/', "_"))] *)
Definition fs_file_name (n : str) : str :=
  ((fun c => if decide (c = "/"%char) then "_"%char else c) <$> n) ++ $".json".

Definition fs_get_file (s : FileSystemDatabase) (folder n : str) : Res (option FileInfo) :=
  match files ← fs_cache s !! folder; list_find_name n files with
  | Some file => Ok (Some file)
  | None => Ok (fs_json s !! (folder, fs_file_name n))
  end.

Definition fs_get_folder_files (s : FileSystemDatabase) (folder : str) : Res (list FileInfo) :=
  Ok (omap (fun kv => if decide (kv.1.1 = folder) then Some kv.2 else None) (map_to_list (fs_json s))).

Definition fs_evict_one_folder (pick : gmap str (list FileInfo) -> option str)
    (s : FileSystemDatabase) : FileSystemDatabase :=
  match pick (fs_cache s) with
  | Some key =>
      let count := Z.of_nat (length (default [] (fs_cache s !! key))) in
      mkFileSystemDatabase (fs_json s) (fs_seq s) (delete key (fs_cache s))
        (fs_cache_size s - count) (fs_cache_cap s)
  | None => s
  end.

Definition fs_update_file (pick : gmap str (list FileInfo) -> option str)
    (s : FileSystemDatabase) (folder : str) (info : FileInfo) : FileSystemDatabase :=
  let json := <[(folder, fs_file_name (name info)) := info]> (fs_json s) in
  let files := default [] (fs_cache s !! folder) in
  let cache := <[folder := list_upsert info files]> (fs_cache s) in
  match list_find_name (name info) files with
  | Some _ => mkFileSystemDatabase json (fs_seq s) cache (fs_cache_size s) (fs_cache_cap s)
  | None =>
      let size := fs_cache_size s + 1 in
      let s' := mkFileSystemDatabase json (fs_seq s) cache size (fs_cache_cap s) in
      if size >? fs_cache_cap s then fs_evict_one_folder pick s' else s'
  end.

Definition fs_delete_file (s : FileSystemDatabase) (folder n : str) : FileSystemDatabase :=
  let json := delete (folder, fs_file_name n) (fs_json s) in
  match fs_cache s !! folder with
  | None => mkFileSystemDatabase json (fs_seq s) (fs_cache s) (fs_cache_size s) (fs_cache_cap s)
  | Some files =>
      let after := list_retain_not n files in
      mkFileSystemDatabase json (fs_seq s) (<[folder := after]> (fs_cache s))
        (fs_cache_size s - (Z.of_nat (length files) - Z.of_nat (length after))) (fs_cache_cap s)
  end.

(** The file [seq_<folder>]; 64-bit, wrapping. *)
Definition fs_increment_sequence (s : FileSystemDatabase) (folder : str) : Z * FileSystemDatabase :=
  let seq := match fs_seq s !! folder with
             | Some current => wrap 64 (current + 1)
             | None => 1
             end in
  (seq, mkFileSystemDatabase (fs_json s) (<[folder := seq]> (fs_seq s)) (fs_cache s)
          (fs_cache_size s) (fs_cache_cap s)).

(** ** The view of a file list and its lemmas *)

Definition files_map (l : list FileInfo) : gmap str FileInfo :=
  list_to_map ((fun f => (name f, f)) <$> l).

Lemma list_find_name_map n l : list_find_name n l = files_map l !! n.
Proof.
  induction l as [|f l IH]; [done|]. cbn [list_find_name].
  change (files_map (f :: l)) with (<[name f := f]> (files_map l)).
  rewrite lookup_insert, IH. done.
Qed.

Lemma files_map_cons f l : files_map (f :: l) = <[name f := f]> (files_map l).
Proof. done. Qed.

Lemma files_map_upsert info l : files_map (list_upsert info l) = <[name info := info]> (files_map l).
Proof.
  induction l as [|f l IH]; [done|]. cbn [list_upsert]. case_decide as E.
  - by rewrite !files_map_cons, E, insert_insert_eq.
  - rewrite !files_map_cons, IH. by rewrite insert_insert_ne.
Qed.

Lemma upsert_name_in info l n : n ∈ name <$> list_upsert info l <-> n = name info \/ n ∈ name <$> l.
Proof.
  induction l as [|f l IH]; cbn [list_upsert].
  - cbn. rewrite list_elem_of_singleton, elem_of_nil. naive_solver.
  - case_decide as E; rewrite !fmap_cons, !elem_of_cons; [rewrite E|rewrite IH]; naive_solver.
Qed.

Lemma upsert_NoDup info l : NoDup (name <$> l) -> NoDup (name <$> list_upsert info l).
Proof.
  induction l as [|f l IH]; cbn [list_upsert]; intros Hn.
  - cbn. apply NoDup_singleton.
  - rewrite fmap_cons, NoDup_cons in Hn. destruct Hn as [Hf Hl].
    case_decide as E; rewrite fmap_cons, NoDup_cons.
    + by rewrite <-E.
    + split; [|auto]. rewrite upsert_name_in. naive_solver.
Qed.

Lemma files_map_to_list l : NoDup (name <$> l) -> (map_to_list (files_map l)).*2 ≡ₚ l.
Proof.
  intros Hn. unfold files_map. rewrite map_to_list_to_map.
  - rewrite <-list_fmap_compose. by rewrite list_fmap_id.
  - by rewrite <-list_fmap_compose.
Qed.

Lemma files_map_names l n f : files_map l !! n = Some f -> name f = n.
Proof.
  induction l as [|g l IH]; [done|]. rewrite files_map_cons, lookup_insert.
  case_decide; naive_solver.
Qed.

(** ** The memory database refines the abstract view *)

Definition md_inv (s : MemoryDatabase) : Prop :=
  forall fo l, md_files s !! fo = Some l -> NoDup (name <$> l).

Definition md_view (s : MemoryDatabase) (fo : str) : gmap str FileInfo :=
  files_map (default [] (md_files s !! fo)).

Lemma md_inv_new : md_inv memory_database_new.
Proof. intros fo l E. simpl in E. by rewrite lookup_empty in E. Qed.

Lemma md_inv_folder s fo : md_inv s -> NoDup (name <$> default [] (md_files s !! fo)).
Proof.
  intros Hi. destruct (md_files s !! fo) as [l|] eqn:E; simpl; [eauto|constructor].
Qed.

Lemma md_get_file_view s fo n : md_get_file s fo n = Ok (md_view s fo !! n).
Proof.
  unfold md_get_file, md_view. f_equal. destruct (md_files s !! fo) as [l|]; [|done].
  apply list_find_name_map.
Qed.

Lemma md_update_file_inv s fo f : md_inv s -> md_inv (md_update_file s fo f).2.
Proof.
  intros Hi fo' l. simpl. rewrite lookup_insert. case_decide; [|apply Hi].
  intros [= <-]. by apply upsert_NoDup, md_inv_folder.
Qed.

Lemma md_update_file_view s fo f fo' :
  md_view (md_update_file s fo f).2 fo' =
  if decide (fo = fo') then <[name f := f]> (md_view s fo) else md_view s fo'.
Proof.
  unfold md_view; simpl. rewrite lookup_insert. case_decide; [|done]. apply files_map_upsert.
Qed.

Lemma md_update_files_fold s fo fs :
  md_inv s ->
  exists s', md_update_files s fo fs = (Ok tt, s') /\ md_inv s' /\
    md_view s' fo = fold_left (fun m f => <[name f := f]> m) fs (md_view s fo) /\
    (forall fo', fo' <> fo -> md_view s' fo' = md_view s fo') /\
    md_sequences s' = md_sequences s /\ md_index_metas s' = md_index_metas s.
Proof.
  revert s. induction fs as [|f fs IH]; intros s Hi; [by exists s|].
  change (md_update_files s fo (f :: fs)) with (md_update_files (md_update_file s fo f).2 fo fs).
  destruct (IH _ (md_update_file_inv s fo f Hi)) as (s' & E' & Hi' & Hv & Ho & Hs & Hm).
  exists s'. split; [done|]. split; [done|]. split; [|split; [|done]].
  - rewrite Hv, md_update_file_view, decide_True by done. done.
  - intros fo' Hne. rewrite Ho, md_update_file_view, decide_False by done. done.
Qed.

Lemma files_map_retain n l : files_map (list_retain_not n l) = base.delete n (files_map l).
Proof.
  unfold list_retain_not. induction l as [|f l IH]; [symmetry; apply delete_empty|]. rewrite filter_cons, files_map_cons.
  case_decide as E; [rewrite files_map_cons, IH; by rewrite delete_insert_ne|].
  by rewrite IH, <-E, delete_insert_eq.
Qed.

Lemma md_delete_file_spec s fo n :
  md_inv s -> md_inv (md_delete_file s fo n).2 /\
  forall fo', md_view (md_delete_file s fo n).2 fo' =
    if decide (fo = fo') then base.delete n (md_view s fo) else md_view s fo'.
Proof.
  intros Hi. unfold md_delete_file, md_view. destruct (md_files s !! fo) as [l|] eqn:E; cbn.
  - split.
    + intros fo' l'. cbn. rewrite lookup_insert. case_decide; [|apply Hi]. intros [= <-].
      eapply sublist_NoDup; [exact (Hi fo l E)|apply fmap_sublist, sublist_filter].
    + intros fo'. rewrite lookup_insert. case_decide; [|done]. apply files_map_retain.
  - split; [done|]. intros fo'. case_decide as Ef; [|done]. subst fo'. rewrite E. symmetry. apply delete_empty.
Qed.

#[global, refine] Instance MemoryDatabase_Laws : LocalDatabaseLaws MemoryDatabase := {
  db_inv := md_inv;
  db_files := md_view;
  db_seq := fun s fo => default 0 (md_sequences s !! fo);
  db_meta := fun s fo => md_index_metas s !! fo;
}.
Proof.
  - intros s fo n f _. apply files_map_names.
  - intros s fo n _. apply md_get_file_view.
  - intros s fo Hi. eexists. split; [reflexivity|]. symmetry.
    by apply files_map_to_list, md_inv_folder.
  - intros s fo since Hi. eexists. split; [reflexivity|].
    apply filter_Permutation. symmetry. by apply files_map_to_list, md_inv_folder.
  - intros s fo f Hi. exists (md_update_file s fo f).2. split; [reflexivity|].
    split; [by apply md_update_file_inv|].
    split; [by rewrite md_update_file_view, decide_True|].
    split; [|done]. intros fo' Hne. by rewrite md_update_file_view, decide_False.
  - intros s fo fs Hi. destruct (md_update_files_fold s fo fs Hi) as (s' & E & Hi' & Hv & Ho & Hs & Hm).
    exists s'. rewrite Hs, Hm. done.
  - intros s fo n Hi. destruct (md_delete_file_spec s fo n Hi) as [Hi' Hv].
    exists (md_delete_file s fo n).2. split; [reflexivity|]. split; [done|].
    split; [by rewrite Hv, decide_True|]. split; [intros fo' Hne; by rewrite Hv, decide_False|].
    split; intros fo'; unfold md_delete_file; cbn; by destruct (md_files s !! fo).
  - done.
  - intros s fo Hi. eexists. split; [reflexivity|]. split; [done|]. simpl.
    split; [by rewrite lookup_insert_eq|]. split; [|done].
    intros fo' Hne. by rewrite lookup_insert_ne.
  - intros s fo Hi. eexists. split; [reflexivity|]. split; [done|]. simpl.
    split; [by rewrite lookup_insert_eq|]. split; [|done].
    intros fo' Hne. by rewrite lookup_insert_ne.
  - done.
  - intros s fo id m Hi. eexists. split; [reflexivity|]. split; [done|]. simpl.
    split; [by rewrite lookup_insert_eq|]. split; [|done].
    intros fo' Hne. by rewrite lookup_insert_ne.
Defined.

(** ** The file-system database: cache transparency and name collisions *)

(** Every cached entry is what its JSON file holds. *)
Definition fs_coherent (s : FileSystemDatabase) : Prop :=
  forall fo l n f, fs_cache s !! fo = Some l -> list_find_name n l = Some f ->
    fs_json s !! (fo, fs_file_name n) = Some f.

(** The cached names of a folder that map to the same JSON file as [n]. *)
Definition fs_collides (s : FileSystemDatabase) (fo n : str) : Prop :=
  exists l m f, fs_cache s !! fo = Some l /\ list_find_name m l = Some f /\
    m <> n /\ fs_file_name m = fs_file_name n.

Lemma fs_get_file_coherent s fo n :
  fs_coherent s -> fs_get_file s fo n = Ok (fs_json s !! (fo, fs_file_name n)).
Proof.
  intros Hc. unfold fs_get_file.
  destruct (files ← fs_cache s !! fo; list_find_name n files) as [f|] eqn:E; [|done].
  apply bind_Some in E as (l & Hl & Hf). by rewrite (Hc fo l n f).
Qed.

Lemma list_find_upsert info l n :
  list_find_name n (list_upsert info l) =
  if decide (name info = n) then Some info else list_find_name n l.
Proof. by rewrite !list_find_name_map, files_map_upsert, lookup_insert. Qed.

Lemma fs_evict_coherent pick s : fs_coherent s -> fs_coherent (fs_evict_one_folder pick s).
Proof.
  intros Hc. unfold fs_evict_one_folder. destruct (pick (fs_cache s)) as [k|]; [|done].
  intros fo l n f; simpl. rewrite lookup_delete. case_decide; [done|]. apply Hc.
Qed.

Lemma fs_evict_json pick s : fs_json (fs_evict_one_folder pick s) = fs_json s.
Proof. unfold fs_evict_one_folder. by destruct (pick (fs_cache s)). Qed.

Lemma fs_update_json pick s fo f :
  fs_json (fs_update_file pick s fo f) = <[(fo, fs_file_name (name f)) := f]> (fs_json s).
Proof. unfold fs_update_file. repeat case_match; rewrite ?fs_evict_json; done. Qed.

Lemma fs_update_coherent pick s fo f :
  fs_coherent s -> ~ fs_collides s fo (name f) -> fs_coherent (fs_update_file pick s fo f).
Proof.
  intros Hc Hn.
  assert (forall sz, fs_coherent (mkFileSystemDatabase
            (<[(fo, fs_file_name (name f)) := f]> (fs_json s)) (fs_seq s)
            (<[fo := list_upsert f (default [] (fs_cache s !! fo))]> (fs_cache s))
            sz (fs_cache_cap s))) as Hbase.
  { intros sz fo' l n g. simpl. rewrite !lookup_insert. case_decide as E; subst.
    - intros [= <-]. rewrite list_find_upsert. case_decide as En; subst.
      + intros [= <-]. by rewrite decide_True.
      + destruct (fs_cache s !! fo') as [l|] eqn:El; [|done]. intros Hf.
        rewrite decide_False; [by apply (Hc fo' l)|].
        intros [= Ep]. apply Hn. exists l, n, g. naive_solver.
    - intros Hl Hf. rewrite decide_False by naive_solver. by apply (Hc fo' l). }
  unfold fs_update_file. repeat case_match; auto using fs_evict_coherent.
Qed.

(** As long as the cached names of a folder do not collide with the name
    written, the cache of the file-system database is transparent: after an
    update (evictions included, whichever folder is evicted) a read answers the
    metadata just written for that name, and the previous answer for every name
    stored in another JSON file. *)
Theorem fs_update_get pick s fo f fo' n :
  fs_coherent s -> ~ fs_collides s fo (name f) ->
  fs_coherent (fs_update_file pick s fo f) /\
  fs_get_file (fs_update_file pick s fo f) fo (name f) = Ok (Some f) /\
  ((fo', fs_file_name n) <> (fo, fs_file_name (name f)) ->
   fs_get_file (fs_update_file pick s fo f) fo' n = fs_get_file s fo' n).
Proof.
  intros Hc Hn. pose proof (fs_update_coherent pick s fo f Hc Hn) as Hc'.
  split; [done|]. rewrite !fs_get_file_coherent, fs_update_json by done. split.
  - by rewrite lookup_insert_eq.
  - intros Hne. by rewrite lookup_insert_ne.
Qed.

Lemma fs_update_get_witness :
  fs_get_file (fs_update_file (fun _ => None) fs_new ($"f") (file_info_new ($"a/b"))) ($"f") ($"a/b")
  = Ok (Some (file_info_new ($"a/b"))).
Proof.
  apply (fs_update_get (fun _ => None) fs_new ($"f") (file_info_new ($"a/b")) ($"f") ($"x")).
  - intros fo l n f Hl. done.
  - intros (l & m & g & Hl & _). done.
Defined.

(** The name encoding is not injective: ["a/b"] and ["a_b"] share one JSON
    file.  Storing both leaves a single entry on disk, and once the cache is
    cold, looking up ["a/b"] answers the metadata of ["a_b"]. *)
Theorem fs_name_collision :
  let s := fs_update_file (fun _ => None)
             (fs_update_file (fun _ => None) fs_new ($"f") (file_info_new ($"a/b")))
             ($"f") (file_info_new ($"a_b")) in
  fs_get_folder_files s ($"f") = Ok [file_info_new ($"a_b")] /\
  fs_get_file (fs_evict_one_folder (fun _ => Some ($"f")) s) ($"f") ($"a/b") =
  Ok (Some (file_info_new ($"a_b"))).
Proof. vm_compute. done. Qed.
