(* ===== verification/Merge.v ===== *)
(** * Three-way text merge ([crates/syncthing-sync/src/merge.rs])

    [TextDiff::from_lines] belongs to the [similar] crate and is a parameter:
    a function from two texts to the list of its operations, each with the old
    and new line ranges.  Slicing out of range panics in Rust, which is the
    [Panic] outcome here; the main loop takes fuel, and termination is proved
    or refuted for every fuel. *)

From S2P Require Import Prelude.

Local Open Scope nat_scope.

Record MergeResult := mkMergeResult {
  content : str;
  has_conflicts : bool;
  conflict_count : nat;
}.

(** [s.split_inclusive('\n')] *)
Fixpoint split_lines (s : str) : list str :=
  match s with
  | [] => []
  | c :: s' =>
      if decide (c = "010"%char) then [c] :: split_lines s'
      else match split_lines s' with
           | [] => [[c]]
           | l :: ls => (c :: l) :: ls
           end
  end.

(** One operation of a diff with its [old_range()] and [new_range()]. *)
Inductive DiffTag := DiffEqual | DiffDelete | DiffInsert | DiffReplace.

Record DiffOp := mkDiffOp {
  op_tag : DiffTag;
  old_start : nat;
  old_end : nat;
  new_start : nat;
  new_end : nat;
}.

Record Edit := mkEdit {
  start : nat;
  end_ : nat;
  lines : list str;
}.

(** [v[a..b]]; [None] when Rust panics. *)
Definition slice {A : Type} (a b : nat) (v : list A) : option (list A) :=
  if bool_decide (a <= b <= length v) then Some (take (b - a) (drop a v)) else None.

Fixpoint from_diff_loop (ops : list DiffOp) (side_lines : list str) : option (list Edit) :=
  match ops with
  | [] => Some []
  | op :: rest =>
      if bool_decide (old_start op = new_start op /\ old_end op = new_end op) &&
         match op_tag op with DiffEqual => true | _ => false end
      then from_diff_loop rest side_lines
      else
        let+ ls := slice (new_start op) (new_end op) side_lines in
        let+ edits := from_diff_loop rest side_lines in
        Some (mkEdit (old_start op) (old_end op) ls :: edits)
  end.

(** [Edit::from_diff] *)
Definition from_diff (ops : list DiffOp) (side : str) : option (list Edit) :=
  from_diff_loop ops (split_lines side).

Definition overlaps (le re : Edit) : bool :=
  (start le <? end_ re) && (start re <? end_ le).

Definition conflict_pairs (local_edits remote_edits : list Edit) : list (nat * nat) :=
  le ← local_edits;
  re ← remote_edits;
  if overlaps le re then [(start le `min` start re, end_ le `max` end_ re)] else [].

(** The regions sorted by start, folded into maximal ones. *)
Fixpoint merge_regions (merged_last : option (nat * nat)) (regions : list (nat * nat))
  : list (nat * nat) :=
  match regions, merged_last with
  | [], None => []
  | [], Some last => [last]
  | (s, e) :: rest, None => merge_regions (Some (s, e)) rest
  | (s, e) :: rest, Some (ls, le) =>
      if s <=? le then merge_regions (Some (ls, le `max` e)) rest
      else (ls, le) :: merge_regions (Some (s, e)) rest
  end.

(** [sort_by_key(|r| r.0)] is a stable sort on the start. *)
Fixpoint insert_region (r : nat * nat) (l : list (nat * nat)) : list (nat * nat) :=
  match l with
  | [] => [r]
  | x :: l' => if r.1 <=? x.1 then r :: x :: l' else x :: insert_region r l'
  end.

Definition sort_regions (l : list (nat * nat)) : list (nat * nat) :=
  foldr insert_region [] l.

Definition find_conflict_regions (local_edits remote_edits : list Edit) : list (nat * nat) :=
  merge_regions None (sort_regions (conflict_pairs local_edits remote_edits)).

Definition build_side (base_lines : list str) (edits : list Edit) (s e : nat) : option str :=
  match list_find (fun ed => s <= start ed < e) edits with
  | Some (_, edit) =>
      let+ before := slice s (start edit) base_lines in
      let+ after := slice (end_ edit) e base_lines in
      Some (concat before ++ concat (lines edit) ++ concat after)
  | None =>
      let+ body := slice s e base_lines in
      Some (concat body)
  end.

(** The local variables of the main loop. *)
Record MergeState := mkMergeState {
  ms_merged : str;
  ms_has_conflicts : bool;
  ms_conflict_count : nat;
  pos : nat;
  li : nat;
  ri : nat;
  ci : nat;
}.

(** [while i < edits.len() && edits[i].end <= pos { i += 1 }] *)
Fixpoint skip_prefix (edits : list Edit) (p : nat) : nat :=
  match edits with
  | [] => 0
  | e :: rest => if end_ e <=? p then S (skip_prefix rest p) else 0
  end.

Definition skip_covered (edits : list Edit) (i p : nat) : nat := i + skip_prefix (drop i edits) p.

Definition min_option (a b : option nat) : option nat :=
  match a, b with
  | Some x, Some y => Some (x `min` y)
  | Some x, None => Some x
  | None, _ => b
  end.

Section Loop.
Context (base_lines : list str) (local_edits remote_edits : list Edit)
        (conflicts : list (nat * nat)).

Definition loop_guard (st : MergeState) : bool :=
  (pos st <? length base_lines) || (li st <? length local_edits) || (ri st <? length remote_edits).

Definition emit_conflict (st : MergeState) (cstart cend : nat) : option MergeState :=
  let+ local_side := build_side base_lines local_edits cstart cend in
  let+ remote_side := build_side base_lines remote_edits cstart cend in
  let merged := ms_merged st ++ $"<<<<<<< local" ++ ["010"%char] ++ local_side ++
                $"=======" ++ ["010"%char] ++ remote_side ++
                $">>>>>>> remote" ++ ["010"%char] in
  Some (mkMergeState merged true (S (ms_conflict_count st)) cend
          (skip_covered local_edits (li st) cend) (skip_covered remote_edits (ri st) cend)
          (S (ci st))).

(** The position after an edit: insertions ([start == end]) leave it. *)
Definition pos_after (st : MergeState) (e : Edit) : nat :=
  if start e =? end_ e then pos st else end_ e.

Definition apply_local (st : MergeState) (e : Edit) : MergeState :=
  mkMergeState (ms_merged st ++ concat (lines e)) (ms_has_conflicts st) (ms_conflict_count st)
    (pos_after st e) (S (li st)) (ri st) (ci st).

Definition apply_remote (st : MergeState) (e : Edit) : MergeState :=
  mkMergeState (ms_merged st ++ concat (lines e)) (ms_has_conflicts st) (ms_conflict_count st)
    (pos_after st e) (li st) (S (ri st)) (ci st).

Definition next_event (st : MergeState) : nat :=
  default (length base_lines)
    (min_option (fst <$> conflicts !! ci st)
       (min_option (start <$> local_edits !! li st) (start <$> remote_edits !! ri st)))
  `max` pos st.

Definition copy_base (st : MergeState) : option MergeState :=
  let next := next_event st in
  let+ ls := slice (pos st) next base_lines in
  Some (mkMergeState (ms_merged st ++ concat ls) (ms_has_conflicts st) (ms_conflict_count st)
          next (li st) (ri st) (ci st)).

Definition remote_step (st : MergeState) : option MergeState :=
  match remote_edits !! ri st with
  | Some e => if start e =? pos st then Some (apply_remote st e) else copy_base st
  | None => copy_base st
  end.

Definition edit_step (st : MergeState) : option MergeState :=
  match local_edits !! li st with
  | Some e => if start e =? pos st then Some (apply_local st e) else remote_step st
  | None => remote_step st
  end.

(** One iteration of the loop body; [None] is a panic. *)
Definition merge_step (st : MergeState) : option MergeState :=
  match conflicts !! ci st with
  | Some (cstart, cend) => if cstart =? pos st then emit_conflict st cstart cend else edit_step st
  | None => edit_step st
  end.

Inductive outcome :=
| Done (r : MergeResult)
| Panic
| OutOfFuel.

Fixpoint merge_loop (fuel : nat) (st : MergeState) : outcome :=
  if loop_guard st then
    match fuel with
    | O => OutOfFuel
    | S fuel' =>
        match merge_step st with
        | Some st' => merge_loop fuel' st'
        | None => Panic
        end
    end
  else Done (mkMergeResult (ms_merged st) (ms_has_conflicts st) (ms_conflict_count st)).

End Loop.

Definition merge_init : MergeState := mkMergeState [] false 0 0 0 0 0.

(** [diff] stands for [TextDiff::from_lines(old, new).ops()]. *)
Definition three_way_merge (diff : str -> str -> list DiffOp) (fuel : nat)
    (base local remote : str) : outcome :=
  if decide (local = remote) then Done (mkMergeResult local false 0)
  else if decide (local = base) then Done (mkMergeResult remote false 0)
  else if decide (remote = base) then Done (mkMergeResult local false 0)
  else
    let base_lines := split_lines base in
    match from_diff (diff base local) local, from_diff (diff base remote) remote with
    | Some local_edits, Some remote_edits =>
        merge_loop base_lines local_edits remote_edits
          (find_conflict_regions local_edits remote_edits) fuel merge_init
    | _, _ => Panic
    end.

Definition merge_text (diff : str -> str -> list DiffOp) (fuel : nat) (local remote : str) : outcome :=
  three_way_merge diff fuel local local remote.

Definition mergeable_suffixes : list str :=
  [$".md"; $".txt"; $".rs"; $".toml"; $".json"; $".yaml"; $".yml"; $".py"; $".js"; $".ts";
   $".css"; $".html"; $".sh"; $".ps1"; $".ini"; $".cfg"; $".log"; $".c"; $".h"; $".cpp";
   $".go"; $".java"; $".kt"; $".swift"; $".rb"; $".php"].

Definition is_mergeable_text (path : str) : bool :=
  existsb (fun suffix => ends_with suffix path) mergeable_suffixes.

(** ** Specification: applying an edit script

    The reference definition of a conflict-free merge: the edits of both sides
    in order of position (local first on ties), applied to the base lines. *)

Fixpoint interleave (l : list Edit) : list Edit -> list Edit :=
  match l with
  | [] => fun r => r
  | e :: l' =>
      fix go (r : list Edit) : list Edit :=
        match r with
        | [] => e :: l'
        | e' :: r' =>
            if start e <=? start e' then e :: interleave l' (e' :: r')
            else e' :: go r'
        end
  end.

Fixpoint apply_edits (base : list str) (p : nat) (edits : list Edit) : str :=
  match edits with
  | [] => concat (drop p base)
  | e :: rest =>
      concat (take (start e - p) (drop p base)) ++ concat (lines e) ++ apply_edits base (end_ e) rest
  end.

(** Edits in order, within the base, none overlapping the previous one. *)
Fixpoint script (n p : nat) (edits : list Edit) : Prop :=
  match edits with
  | [] => p <= n
  | e :: rest => p <= start e <= end_ e /\ end_ e <= n /\ script n (end_ e) rest
  end.

(** No local and remote edit touch the same base lines, and no remote insertion
    sits exactly where a local replacement starts. *)
Definition separated (l r : list Edit) : Prop :=
  forall le re, le ∈ l -> re ∈ r ->
    overlaps le re = false /\ ~ (start le < end_ le /\ start re = start le /\ end_ re = start re).

Lemma conflict_pairs_nil l r : separated l r -> conflict_pairs l r = [].
Proof.
  unfold conflict_pairs. induction l as [|le l IH]; intros Hs; [done|].
  cbn [mbind list_bind]. rewrite IH by (intros x y Hx Hy; apply Hs; [by right|done]).
  rewrite app_nil_r. assert (forall re, re ∈ r -> overlaps le re = false) as Hr.
  { intros re Hre. apply (Hs le re); [by left|done]. }
  clear Hs IH. induction r as [|re r IH]; [done|]. cbn [mbind list_bind].
  rewrite (Hr re) by (by left). apply IH. intros x Hx. apply Hr. by right.
Qed.

Lemma find_conflict_regions_nil l r : separated l r -> find_conflict_regions l r = [].
Proof. intros Hs. unfold find_conflict_regions. by rewrite conflict_pairs_nil. Qed.

Lemma script_le n p es : script n p es -> p <= n.
Proof. destruct es as [|e es]; simpl; [done|]. intros (? & ? & _). lia. Qed.

(** A script from [p] is one from any later point its head allows. *)
Lemma script_raise n p q es :
  script n p es -> q <= n -> (forall e, head es = Some e -> q <= start e) -> script n q es.
Proof.
  destruct es as [|e es]; simpl; [done|]. intros (H1 & H2 & H3) Hq Hh.
  specialize (Hh e eq_refl). split; [lia|done].
Qed.

Lemma script_start n p es e : script n p es -> e ∈ es -> p <= start e <= end_ e.
Proof.
  revert p. induction es as [|x es IH]; intros p H Hin; [by apply elem_of_nil in Hin|].
  destruct H as (H1 & H2 & H3). apply elem_of_cons in Hin as [->|Hin]; [lia|].
  specialize (IH _ H3 Hin). lia.
Qed.

Lemma concat_app {A : Type} (x y : list (list A)) : concat (x ++ y) = concat x ++ concat y.
Proof. induction x; simpl; [done|]. by rewrite IHx, app_assoc. Qed.

Lemma drop_split {A : Type} (p q : nat) (v : list A) :
  p <= q -> take (q - p) (drop p v) ++ drop q v = drop p v.
Proof.
  intros H. rewrite <-(take_drop (q - p) (drop p v)) at 2. rewrite drop_drop.
  by replace (p + (q - p)) with q by lia.
Qed.

Lemma take_split {A : Type} (p q r : nat) (v : list A) :
  p <= q -> q <= r -> take (q - p) (drop p v) ++ take (r - q) (drop q v) = take (r - p) (drop p v).
Proof.
  intros H1 H2. replace (r - p) with ((q - p) + (r - q)) by lia.
  rewrite <-take_take_drop, drop_drop. by replace (p + (q - p)) with q by lia.
Qed.

(** Copying base lines up to a point before the next edit. *)
Lemma apply_edits_advance base p q es :
  p <= q -> (forall e, head es = Some e -> q <= start e) ->
  apply_edits base p es = concat (take (q - p) (drop p base)) ++ apply_edits base q es.
Proof.
  intros Hpq Hh. destruct es as [|e es]; simpl.
  - by rewrite <-concat_app, drop_split.
  - specialize (Hh e eq_refl).
    by rewrite <-(take_split p q (start e)), concat_app, <-app_assoc by lia.
Qed.

#[local] Arguments interleave : simpl never.

Lemma interleave_nil_r l : interleave l [] = l.
Proof. by destruct l. Qed.

Lemma interleave_cons e l e' r :
  interleave (e :: l) (e' :: r) =
  if start e <=? start e' then e :: interleave l (e' :: r) else e' :: interleave (e :: l) r.
Proof. done. Qed.

Lemma separated_tail_l e l r : separated (e :: l) r -> separated l r.
Proof. intros H x y Hx Hy. apply H; [by right|done]. Qed.

Lemma separated_tail_r e l r : separated l (e :: r) -> separated l r.
Proof. intros H x y Hx Hy. apply H; [done|by right]. Qed.

Section Correctness.
Context (base : list str) (L R : list Edit).

Abbreviation n := (length base).

(** The loop invariant: [l] and [r] are the edits left. *)
Definition merge_inv (st : MergeState) (l r : list Edit) : Prop :=
  drop (li st) L = l /\ drop (ri st) R = r /\ script n (pos st) l /\ script n (pos st) r /\
  separated l r /\ ms_has_conflicts st = false /\ ms_conflict_count st = 0.

(** The text the loop is going to answer. *)
Definition merge_target (st : MergeState) (l r : list Edit) : str :=
  ms_merged st ++ apply_edits base (pos st) (interleave l r).

Lemma drop_cons_lookup {A : Type} (v : list A) i x t :
  drop i v = x :: t -> v !! i = Some x /\ drop (S i) v = t /\ i < length v.
Proof.
  intros E. assert (v !! i = Some x) as Hx.
  { rewrite <-(Nat.add_0_r i), <-lookup_drop, E. done. }
  split; [done|]. split; [|by apply lookup_lt_Some in Hx].
  rewrite <-Nat.add_1_r, <-drop_drop, E. done.
Qed.

Lemma drop_nil_lookup {A : Type} (v : list A) i :
  drop i v = [] -> v !! i = None /\ length v <= i.
Proof.
  intros E. assert (length v <= i).
  { apply (f_equal length) in E. rewrite length_drop in E. simpl in E. lia. }
  split; [by apply lookup_ge_None|done].
Qed.

Lemma apply_local_inv st e l r :
  merge_inv st (e :: l) r -> start e = pos st ->
  merge_inv (apply_local st e) l r /\
  merge_target (apply_local st e) l r = merge_target st (e :: l) r.
Proof.
  intros (Hl & Hr & Sl & Sr & Hs & Hc & Hn) He.
  assert (pos_after st e = end_ e) as Hp.
  { unfold pos_after. destruct (Nat.eqb_spec (start e) (end_ e)); lia. }
  destruct Sl as (H1 & H2 & H3). split.
  - unfold merge_inv, apply_local; simpl. rewrite Hp.
    split; [by apply drop_cons_lookup in Hl as (_ & ? & _)|]. split; [done|]. split; [done|].
    split; [|eauto using separated_tail_l].
    apply (script_raise _ (pos st)); [done|done|].
    intros e' Hh. destruct r as [|x r]; [done|]. injection Hh as ->.
    destruct (Hs e e' ltac:(by left) ltac:(by left)) as [Ho Ht].
    destruct Sr as (Hx & _). unfold overlaps in Ho. apply andb_false_iff in Ho.
    rewrite !Nat.ltb_ge in Ho. lia.
  - unfold merge_target, apply_local; simpl. rewrite Hp, <-app_assoc. f_equal.
    assert (interleave (e :: l) r = e :: interleave l r) as ->.
    { destruct r as [|x r]; [by rewrite !interleave_nil_r|]. rewrite interleave_cons.
      destruct (Nat.leb_spec (start e) (start x)); [done|]. destruct Sr. lia. }
    simpl. by rewrite He, Nat.sub_diag.
Qed.

Lemma apply_remote_inv st e l r :
  merge_inv st l (e :: r) -> start e = pos st ->
  (forall x, head l = Some x -> start x <> pos st) ->
  merge_inv (apply_remote st e) l r /\
  merge_target (apply_remote st e) l r = merge_target st l (e :: r).
Proof.
  intros (Hl & Hr & Sl & Sr & Hs & Hc & Hn) He Hh.
  assert (pos_after st e = end_ e) as Hp.
  { unfold pos_after. destruct (Nat.eqb_spec (start e) (end_ e)); lia. }
  destruct Sr as (H1 & H2 & H3). split.
  - unfold merge_inv, apply_remote; simpl. rewrite Hp.
    split; [done|]. split; [by apply drop_cons_lookup in Hr as (_ & ? & _)|].
    split; [|split; [done|eauto using separated_tail_r]].
    apply (script_raise _ (pos st)); [done|done|].
    intros x Hx. specialize (Hh x Hx). destruct l as [|y l]; [done|]. injection Hx as ->.
    destruct (Hs x e ltac:(by left) ltac:(by left)) as [Ho _].
    destruct Sl as (Hy & _). unfold overlaps in Ho. apply andb_false_iff in Ho.
    rewrite !Nat.ltb_ge in Ho. lia.
  - unfold merge_target, apply_remote; simpl. rewrite Hp, <-app_assoc. f_equal.
    assert (interleave l (e :: r) = e :: interleave l r) as ->.
    { destruct l as [|x l]; [done|]. rewrite interleave_cons. specialize (Hh x eq_refl).
      destruct (Nat.leb_spec (start x) (start e)); [|done]. destruct Sl. lia. }
    simpl. by rewrite He, Nat.sub_diag.
Qed.

(** The next edit position: where the loop copies base lines up to. *)
Definition next_start (l r : list Edit) : nat :=
  default n (min_option (start <$> head l) (start <$> head r)).

Lemma next_start_bounds p l r :
  script n p l -> script n p r ->
  p <= next_start l r <= n /\ (forall e, head l = Some e -> next_start l r <= start e) /\
  (forall e, head r = Some e -> next_start l r <= start e).
Proof.
  unfold next_start. destruct l as [|x l], r as [|y r]; simpl; intros Hl Hr;
    repeat split; intros; simplify_eq; lia.
Qed.

Lemma head_interleave l r e :
  head (interleave l r) = Some e -> head l = Some e \/ head r = Some e.
Proof.
  destruct l as [|x l]; [by right|]. destruct r as [|y r]; [by left|].
  rewrite interleave_cons. case_match; naive_solver.
Qed.

Lemma copy_base_inv st l r :
  merge_inv st l r ->
  exists st', copy_base base L R [] st = Some st' /\ merge_inv st' l r /\
    merge_target st' l r = merge_target st l r /\ pos st' = next_start l r.
Proof.
  intros (Hl & Hr & Sl & Sr & Hs & Hc & Hn).
  destruct (next_start_bounds _ _ _ Sl Sr) as (Hb & Bl & Br).
  assert (next_event base L R [] st = next_start l r) as Hnext.
  { unfold next_event. rewrite lookup_nil. simpl.
    assert (L !! li st = head l) as ->.
    { destruct l; [by apply drop_nil_lookup in Hl as [-> _]|by apply drop_cons_lookup in Hl as [-> _]]. }
    assert (R !! ri st = head r) as ->.
    { destruct r; [by apply drop_nil_lookup in Hr as [-> _]|by apply drop_cons_lookup in Hr as [-> _]]. }
    fold (next_start l r). unfold next_start in *. lia. }
  unfold copy_base. rewrite Hnext. unfold slice.
  rewrite bool_decide_eq_true_2 by lia. simpl. eexists. split; [done|].
  split; [|split; [|done]].
  - unfold merge_inv; simpl. split; [done|]. split; [done|].
    split; [apply (script_raise _ (pos st)); auto; lia|].
    split; [apply (script_raise _ (pos st)); auto; lia|]. done.
  - unfold merge_target; simpl. rewrite <-app_assoc. f_equal. symmetry.
    apply apply_edits_advance; [lia|]. intros e [He|He]%head_interleave; auto.
Qed.

(** At an edit position with edits left, one iteration consumes an edit. *)
Lemma merge_step_consume st l r :
  merge_inv st l r -> l <> [] \/ r <> [] -> pos st = next_start l r ->
  exists st' l' r', merge_step base L R [] st = Some st' /\ merge_inv st' l' r' /\
    merge_target st' l' r' = merge_target st l r /\ S (length l' + length r') = length l + length r.
Proof.
  intros Hi Hne Hp. pose proof Hi as (Hl & Hr & Sl & Sr & _).
  unfold merge_step. rewrite lookup_nil. unfold edit_step, remote_step.
  destruct l as [|e l].
  - destruct r as [|e' r]; [naive_solver|].
    destruct (drop_nil_lookup _ _ Hl) as [-> _]. destruct (drop_cons_lookup _ _ _ _ Hr) as [-> _].
    unfold next_start in Hp; simpl in Hp. rewrite (proj2 (Nat.eqb_eq _ _)) by lia.
    destruct (apply_remote_inv st e' [] r Hi) as [Hi' Ht]; [lia|done|].
    exists (apply_remote st e'), [], r. split; [done|]. split; [done|]. split; [done|]. simpl. lia.
  - destruct (drop_cons_lookup _ _ _ _ Hl) as [-> _].
    destruct (Nat.eqb_spec (start e) (pos st)) as [Heq|Hneq].
    + destruct (apply_local_inv st e l r Hi Heq) as [Hi' Ht].
      exists (apply_local st e), l, r. split; [done|]. split; [done|]. split; [done|]. simpl. lia.
    + unfold next_start in Hp. destruct r as [|e' r]; [simpl in Hp; lia|]. simpl in Hp.
      destruct (drop_cons_lookup _ _ _ _ Hr) as [-> _].
      rewrite (proj2 (Nat.eqb_eq _ _)) by lia.
      destruct (apply_remote_inv st e' (e :: l) r Hi) as [Hi' Ht]; [lia|by intros x [= ->]|].
      exists (apply_remote st e'), (e :: l), r.
      split; [done|]. split; [done|]. split; [done|]. simpl. lia.
Qed.

(** Away from every edit position the iteration copies base lines. *)
Lemma merge_step_copy st l r :
  merge_inv st l r -> pos st <> next_start l r -> merge_step base L R [] st = copy_base base L R [] st.
Proof.
  intros (Hl & Hr & Sl & Sr & _) Hp. destruct (next_start_bounds _ _ _ Sl Sr) as (Hb & Bl & Br).
  assert (forall (v : list Edit) i x, drop i v = x -> v !! i = head x) as Hlk.
  { intros v i [|e x] E; [by apply drop_nil_lookup in E as [-> _]|by apply drop_cons_lookup in E as [-> _]]. }
  unfold merge_step. rewrite lookup_nil. unfold edit_step, remote_step.
  rewrite (Hlk _ _ _ Hl), (Hlk _ _ _ Hr).
  destruct (head l) as [e|] eqn:El; destruct (head r) as [e'|] eqn:Er; try done.
  - specialize (Bl e eq_refl). specialize (Br e' eq_refl).
    rewrite !(proj2 (Nat.eqb_neq _ _)) by lia. done.
  - specialize (Bl e eq_refl). rewrite (proj2 (Nat.eqb_neq _ _)) by lia. done.
  - specialize (Br e' eq_refl). rewrite (proj2 (Nat.eqb_neq _ _)) by lia. done.
Qed.

Lemma loop_guard_false st :
  merge_inv st [] [] -> pos st = n -> loop_guard base L R st = false.
Proof.
  intros (Hl & Hr & _) Hp. apply drop_nil_lookup in Hl as [_ Hl]. apply drop_nil_lookup in Hr as [_ Hr].
  unfold loop_guard. rewrite !(proj2 (Nat.ltb_ge _ _)) by lia. done.
Qed.

Lemma loop_guard_true st l r :
  merge_inv st l r -> loop_guard base L R st = false -> l = [] /\ r = [] /\ pos st = n.
Proof.
  intros (Hl & Hr & Sl & _) Hg. unfold loop_guard in Hg.
  apply orb_false_elim in Hg as [Hg H3]. apply orb_false_elim in Hg as [H1 H2].
  rewrite Nat.ltb_ge in H1, H2, H3. apply script_le in Sl.
  split; [|split; [|lia]].
  - destruct l as [|e l]; [done|]. apply drop_cons_lookup in Hl as (_ & _ & ?). lia.
  - destruct r as [|e r]; [done|]. apply drop_cons_lookup in Hr as (_ & _ & ?). lia.
Qed.

Lemma merge_loop_correct fuel st l r :
  merge_inv st l r -> 2 * (length l + length r) + 1 <= fuel ->
  merge_loop base L R [] fuel st = Done (mkMergeResult (merge_target st l r) false 0).
Proof.
  remember (length l + length r) as k eqn:Hk. revert fuel st l r Hk.
  induction k as [k IH] using lt_wf_ind. intros fuel st l r Hk Hi Hf.
  assert (loop_guard base L R st = false ->
          merge_loop base L R [] fuel st = Done (mkMergeResult (merge_target st l r) false 0)) as Hend.
  { intros Hg. destruct (loop_guard_true st l r Hi Hg) as (-> & -> & Hp).
    destruct Hi as (_ & _ & _ & _ & _ & Hc & Hn).
    unfold merge_target; simpl. rewrite drop_ge by lia. simpl. rewrite app_nil_r.
    destruct fuel as [|f]; simpl; rewrite Hg, Hc, Hn; done. }
  assert (forall f st1, merge_inv st1 l r -> l <> [] \/ r <> [] -> pos st1 = next_start l r ->
            merge_target st1 l r = merge_target st l r -> 2 * k <= f ->
            merge_loop base L R [] f st1 = Done (mkMergeResult (merge_target st l r) false 0)) as Hev.
  { intros f st1 Hi1 Hne Hp Ht Hf1.
    destruct (merge_step_consume st1 l r Hi1 Hne Hp) as (st2 & l2 & r2 & Es & Hi2 & Ht2 & Hlen).
    destruct f as [|f]; [lia|]. cbn [merge_loop]. rewrite Es.
    destruct (loop_guard base L R st1) eqn:Hg1.
    - rewrite <-Ht, <-Ht2. apply (IH (length l2 + length r2)); [lia|done|done|lia].
    - destruct (loop_guard_true st1 l r Hi1 Hg1) as (-> & -> & _). naive_solver. }
  destruct (loop_guard base L R st) eqn:Hg; [|by apply Hend].
  destruct (decide (pos st = next_start l r)) as [Hp|Hp].
  - destruct (decide (l = [] /\ r = [])) as [[-> ->]|Hne].
    + rewrite (loop_guard_false st Hi Hp) in Hg. done.
    + apply Hev; [done| |done|done|lia]. destruct l, r; naive_solver.
  - destruct (copy_base_inv st l r Hi) as (st1 & Es & Hi1 & Ht1 & Hp1).
    destruct fuel as [|f]; [lia|]. cbn [merge_loop]. rewrite Hg, (merge_step_copy st l r Hi Hp), Es.
    destruct (decide (l = [] /\ r = [])) as [[-> ->]|Hne].
    + rewrite <-Ht1. destruct Hi1 as (H1 & H2 & H3 & H4 & H5 & H6 & H7).
      assert (loop_guard base L R st1 = false) as Hg1 by (apply loop_guard_false; done).
      unfold merge_target; simpl. rewrite drop_ge by (rewrite Hp1; done). simpl. rewrite app_nil_r.
      destruct f; simpl; rewrite Hg1, H6, H7; done.
    + apply Hev; [done| |done|done|lia]. destruct l, r; naive_solver.
Qed.

End Correctness.

(** ** Diffs

    What [TextDiff] documents: its operations tile both texts in order, equal
    operations cover equal lines, deletions produce nothing and insertions
    consume nothing.  The lines it tiles are taken to be those that end with a
    line feed, the lines [merge.rs] splits the texts into; a text with a lone
    carriage return, if the library ends a line there, has no valid diff in
    this sense. *)
Fixpoint valid_diff (base side : list str) (o m : nat) (ops : list DiffOp) : Prop :=
  match ops with
  | [] => o = length base /\ m = length side
  | op :: rest =>
      old_start op = o /\ new_start op = m /\
      o <= old_end op <= length base /\ m <= new_end op <= length side /\
      match op_tag op with
      | DiffEqual => take (old_end op - o) (drop o base) = take (new_end op - m) (drop m side)
      | DiffDelete => new_end op = m
      | DiffInsert => old_end op = o
      | DiffReplace => True
      end /\
      valid_diff base side (old_end op) (new_end op) rest
  end.

Lemma concat_split_lines s : concat (split_lines s) = s.
Proof.
  induction s as [|c s IH]; [done|]. simpl. case_decide.
  - simpl. by rewrite IH.
  - destruct (split_lines s); simpl in *; by rewrite <-IH.
Qed.

Lemma from_diff_loop_correct base side o m ops :
  valid_diff base side o m ops -> o <= length base ->
  exists L, from_diff_loop ops side = Some L /\ script (length base) o L /\
    apply_edits base o L = concat (drop m side).
Proof.
  revert o m. induction ops as [|op ops IH]; intros o m Hv Ho.
  - destruct Hv as [-> ->]. exists []. simpl. rewrite !drop_ge by lia. done.
  - destruct Hv as (Eo & Em & Hob & Hnb & Htag & Hrest).
    destruct (IH _ _ Hrest ltac:(lia)) as (L & HL & HS & HA). cbn [from_diff_loop]. rewrite HL.
    destruct (bool_decide _ && _) eqn:E.
    + apply andb_prop in E as [[E1 E2]%bool_decide_eq_true_1 Et].
      destruct (op_tag op); try done. exists L. split; [done|].
      assert (forall e, head L = Some e -> old_end op <= start e) as Hh.
      { destruct L as [|e0 L]; [done|]. intros e [= ->]. simpl in HS. lia. }
      split.
      { destruct L as [|e L]; simpl in *; [lia|]. destruct HS as (? & ? & ?). split; [lia|done]. }
      rewrite (apply_edits_advance base o (old_end op)), HA, Htag by (done || lia).
      by rewrite <-concat_app, drop_split by lia.
    + rewrite Em, Eo in *. unfold slice. rewrite bool_decide_eq_true_2 by lia. simpl.
      eexists. split; [done|]. simpl. split; [split; [lia|]; split; [lia|done]|].
      rewrite Nat.sub_diag. simpl. rewrite HA. by rewrite <-concat_app, drop_split by lia.
Qed.

(** ** Properties *)

(** The edit list the merge derives from a valid diff is an ordered,
    in-range, non-overlapping script over the base, slicing never panics, and
    applying it to the base yields exactly the side's text. *)
Theorem from_diff_faithful base side ops :
  valid_diff (split_lines base) (split_lines side) 0 0 ops ->
  exists L, from_diff ops side = Some L /\ script (length (split_lines base)) 0 L /\
    apply_edits (split_lines base) 0 L = side.
Proof.
  intros Hv. destruct (from_diff_loop_correct _ _ _ _ _ Hv ltac:(lia)) as (L & HL & HS & HA).
  exists L. split; [done|]. split; [done|]. rewrite HA. apply concat_split_lines.
Qed.

(** A text of one-character lines. *)
Definition text (cs : string) : str := concat ((fun c => [c; "010"%char]) <$> lit cs).

Lemma from_diff_faithful_witness :
  exists L, from_diff [mkDiffOp DiffEqual 0 1 0 1; mkDiffOp DiffInsert 1 1 1 2;
                       mkDiffOp DiffEqual 1 2 2 3] (text "axb") = Some L /\
    apply_edits (split_lines (text "ab")) 0 L = text "axb".
Proof.
  destruct (from_diff_faithful (text "ab") (text "axb")
    [mkDiffOp DiffEqual 0 1 0 1; mkDiffOp DiffInsert 1 1 1 2; mkDiffOp DiffEqual 1 2 2 3])
    as (L & HL & _ & HA).
  - vm_compute. repeat split; lia || done.
  - exists L. split; assumption.
Defined.

(** C38: for edits of the two sides that are separated, the merge loop
    terminates (two iterations per edit and one more suffice), reports no
    conflict, and answers the base with the edits of both sides applied in
    order of position. *)
Theorem three_way_merge_separated diff fuel base local remote L R :
  local <> remote -> local <> base -> remote <> base ->
  valid_diff (split_lines base) (split_lines local) 0 0 (diff base local) ->
  valid_diff (split_lines base) (split_lines remote) 0 0 (diff base remote) ->
  from_diff (diff base local) local = Some L ->
  from_diff (diff base remote) remote = Some R ->
  separated L R -> 2 * (length L + length R) + 1 <= fuel ->
  three_way_merge diff fuel base local remote =
  Done (mkMergeResult (apply_edits (split_lines base) 0 (interleave L R)) false 0).
Proof.
  intros H1 H2 H3 VL VR HL HR Hs Hf.
  destruct (from_diff_loop_correct _ _ _ _ _ VL ltac:(lia)) as (L' & HL' & SL & _).
  destruct (from_diff_loop_correct _ _ _ _ _ VR ltac:(lia)) as (R' & HR' & SR & _).
  unfold from_diff in HL, HR. simplify_eq. unfold three_way_merge, from_diff.
  rewrite !decide_False, HL, HR by done. rewrite find_conflict_regions_nil by done.
  apply (merge_loop_correct (split_lines base) L R fuel merge_init L R); [|done].
  unfold merge_inv. simpl. rewrite !drop_0. done.
Qed.

Definition sample_diff (base side : str) : list DiffOp :=
  if decide (side = text "xbc") then [mkDiffOp DiffReplace 0 1 0 1; mkDiffOp DiffEqual 1 3 1 3]
  else [mkDiffOp DiffEqual 0 3 0 3; mkDiffOp DiffInsert 3 3 3 4].

Lemma three_way_merge_separated_witness :
  three_way_merge sample_diff 5 (text "abc") (text "xbc") (text "abcy") =
  Done (mkMergeResult (text "xbcy") false 0).
Proof.
  rewrite (three_way_merge_separated sample_diff 5 (text "abc") (text "xbc") (text "abcy")
    [mkEdit 0 1 [text "x"]] [mkEdit 3 3 [text "y"]]).
  - vm_compute. reflexivity.
  - vm_compute. congruence.
  - vm_compute. congruence.
  - vm_compute. congruence.
  - vm_compute. repeat split; lia || done.
  - vm_compute. repeat split; lia || done.
  - vm_compute. reflexivity.
  - vm_compute. reflexivity.
  - intros le re ->%list_elem_of_singleton ->%list_elem_of_singleton.
    split; [reflexivity|simpl; lia].
  - vm_compute. lia.
Defined.

(** When local and remote agree, or only one side changed, the merge answers
    the agreed or the changed text with no conflict, whatever the diff; the
    two-way fallback [merge_text] always answers the remote text. *)
Theorem three_way_merge_one_sided diff fuel base local remote :
  three_way_merge diff fuel base local local = Done (mkMergeResult local false 0) /\
  three_way_merge diff fuel base base remote = Done (mkMergeResult remote false 0) /\
  three_way_merge diff fuel base local base = Done (mkMergeResult local false 0) /\
  merge_text diff fuel local remote = Done (mkMergeResult remote false 0).
Proof.
  unfold merge_text, three_way_merge. repeat split; repeat case_decide; naive_solver.
Qed.

(** The operations of the two diffs of [hang_base]: locally the last line is
    replaced; remotely the first line is deleted and a line is inserted before
    the last one. *)
Definition hang_base : str := text "abc".
Definition hang_local : str := text "abx".
Definition hang_remote : str := text "bnc".

Definition hang_diff (base side : str) : list DiffOp :=
  if decide (side = hang_local)
  then [mkDiffOp DiffEqual 0 2 0 2; mkDiffOp DiffReplace 2 3 2 3]
  else [mkDiffOp DiffDelete 0 1 0 0; mkDiffOp DiffEqual 1 2 0 1; mkDiffOp DiffInsert 2 2 1 2;
        mkDiffOp DiffEqual 2 3 2 3].

Lemma merge_loop_stuck bl L R cs fuel st :
  loop_guard bl L R st = true -> merge_step bl L R cs st = Some st ->
  merge_loop bl L R cs fuel st = OutOfFuel.
Proof. intros Hg Hs. induction fuel as [|f IH]; simpl; rewrite Hg; [done|]. by rewrite Hs. Qed.

(** The merge loop need not terminate.  On valid diffs where the remote
    side inserts lines exactly where the local side replaces one, the local
    replacement is applied first, the position passes the insertion, and from
    then on no iteration makes progress: whatever the number of iterations the
    loop is still running. *)
Theorem three_way_merge_diverges :
  valid_diff (split_lines hang_base) (split_lines hang_local) 0 0 (hang_diff hang_base hang_local) /\
  valid_diff (split_lines hang_base) (split_lines hang_remote) 0 0 (hang_diff hang_base hang_remote) /\
  forall fuel, three_way_merge hang_diff fuel hang_base hang_local hang_remote = OutOfFuel.
Proof.
  split; [vm_compute; repeat split; lia || done|]. split; [vm_compute; repeat split; lia || done|].
  intros fuel. unfold three_way_merge.
  destruct (decide (hang_local = hang_remote)) as [E|_]; [by vm_compute in E|].
  destruct (decide (hang_local = hang_base)) as [E|_]; [by vm_compute in E|].
  destruct (decide (hang_remote = hang_base)) as [E|_]; [by vm_compute in E|].
  do 3 (destruct fuel as [|fuel]; [vm_compute; reflexivity|]).
  cbn -[hang_base hang_local hang_remote]. 
  set (L := from_diff _ hang_local). vm_compute in L. subst L.
  set (R := from_diff _ hang_remote). vm_compute in R. subst R.
  apply merge_loop_stuck; vm_compute; reflexivity.
Qed.

(** The local side inserts a line at the top, the remote side changes the last
    line: the edits do not touch. *)
Definition shift_diff (base side : str) : list DiffOp :=
  if decide (side = text "xabc")
  then [mkDiffOp DiffInsert 0 0 0 1; mkDiffOp DiffEqual 0 3 1 4]
  else [mkDiffOp DiffEqual 0 2 0 2; mkDiffOp DiffReplace 2 3 2 3].

(** Edits that do not overlap can still be reported as a conflict.  Equal
    lines that an earlier insertion has shifted are taken for an edit of every
    line after the insertion, so inserting a line at the top on one side and
    changing the last line on the other yields conflict markers. *)
Theorem three_way_merge_shifted_conflict :
  valid_diff (split_lines (text "abc")) (split_lines (text "xabc")) 0 0
    (shift_diff (text "abc") (text "xabc")) /\
  valid_diff (split_lines (text "abc")) (split_lines (text "aby")) 0 0
    (shift_diff (text "abc") (text "aby")) /\
  exists r, three_way_merge shift_diff 10 (text "abc") (text "xabc") (text "aby") = Done r /\
    has_conflicts r = true /\ conflict_count r = 1.
Proof.
  split; [vm_compute; repeat split; lia || done|]. split; [vm_compute; repeat split; lia || done|].
  eexists. split; [vm_compute; reflexivity|]. done.
Qed.
