(* ===== verification/BlockServer.v ===== *)
(** * Serving blocks ([crates/syncthing-sync/src/block_server.rs])

    Validation of remote file names and the handler of block requests.  Paths
    are their components.  What the operating system answers (canonicalization
    through symbolic links, the current directory, opening, short reads) and
    the SHA-256 digest are parameters. *)

From S2P Require Import Prelude Core Bep.

Inductive BlockRequestError :=
| FolderNotFound
| FileNotFound
| InvalidFileName
| HashMismatch
| IoError.

Definition error_code (e : BlockRequestError) : ErrorCode :=
  match e with
  | FolderNotFound | FileNotFound => NoSuchFile
  | InvalidFileName | HashMismatch => InvalidFile
  | IoError => Generic
  end.

Definition slash : ascii := "/"%char.
Definition backslash : ascii := "\"%char.
Definition nul : ascii := "000"%char.

Definition segment_valid (segment : str) : bool :=
  negb (bool_decide (segment = []) || bool_decide (segment = $".") || bool_decide (segment = $"..")) &&
  negb (contains backslash segment).

Definition validate_remote_name (n : str) : result BlockRequestError unit :=
  if decide (n = []) then Err InvalidFileName
  else if starts_with [slash] n || starts_with [backslash] n then Err InvalidFileName
  else if contains nul n then Err InvalidFileName
  else if forallb segment_valid (split_on slash n) then Ok tt
  else Err InvalidFileName.

(** A path: whether it is absolute, and its components. *)
Record PathBuf := mkPathBuf { path_absolute : bool; components : list str }.

Definition path_push (p : PathBuf) (segment : str) : PathBuf :=
  mkPathBuf (path_absolute p) (components p ++ [segment]).

(** [base.join(p)]: an absolute [p] replaces [base]. *)
Definition path_append (base p : PathBuf) : PathBuf :=
  if path_absolute p then p else mkPathBuf (path_absolute base) (components base ++ components p).

Definition path_parent (p : PathBuf) : option PathBuf :=
  match components p with
  | [] => None
  | _ => Some (mkPathBuf (path_absolute p) (take (length (components p) - 1) (components p)))
  end.

Definition path_file_name (p : PathBuf) : option str := last (components p).

Definition path_starts_with (p root : PathBuf) : bool :=
  bool_decide (path_absolute p = path_absolute root) && starts_with (components root) (components p).

Definition sanitize_name (n : str) : result BlockRequestError PathBuf :=
  let? _ := validate_remote_name n in
  Ok (fold_left path_push (split_on slash n) (mkPathBuf false [])).

Inductive OpenError := OpenNotFound | OpenOther.

Section Serve.
Context (canonicalize : PathBuf -> option PathBuf)
        (current_dir : option PathBuf)
        (open_file : PathBuf -> result OpenError (list Z))
        (read_some : nat -> nat)
        (sha256 : list Z -> list Z).

Definition temporary_path (folder_root final_path : PathBuf) : result BlockRequestError PathBuf :=
  let parent := default folder_root (path_parent final_path) in
  let? file_name := ok_or (path_file_name final_path) InvalidFileName in
  Ok (path_push parent ($".syncthing." ++ file_name ++ $".tmp")).

(** The canonical form, or an absolute spelling when the file is missing. *)
Definition canonical_or_absolute (p : PathBuf) : PathBuf :=
  match canonicalize p with
  | Some c => c
  | None => if path_absolute p then p
            else path_append (default (mkPathBuf false []) current_dir) p
  end.

(** [seek] then one [read] into a buffer of [size] bytes: a negative offset is
    refused by the system, [read_some] bounds what one call delivers. *)
Definition read_at (data : list Z) (offset size : Z) : result BlockRequestError (list Z) :=
  if offset <? 0 then Err IoError
  else
    let n := Z.to_nat (size `max` 0) in
    Ok (take (n `min` read_some n) (drop (Z.to_nat offset) data)).

Definition serve_block_request_sync (folder_root : PathBuf) (req : Request)
  : result BlockRequestError (list Z) :=
  let? relative_path := sanitize_name (req_name req) in
  let final_path := path_append folder_root relative_path in
  let? file_path :=
    if req_from_temporary req then temporary_path folder_root final_path else Ok final_path in
  let canonical_root := default folder_root (canonicalize folder_root) in
  let canonical_file := canonical_or_absolute file_path in
  if negb (path_starts_with canonical_file canonical_root) then Err InvalidFileName
  else
    let? data := match open_file canonical_file with
                 | Ok data => Ok data
                 | Err OpenNotFound => Err FileNotFound
                 | Err OpenOther => Err IoError
                 end in
    let? buf := read_at data (req_offset req) (req_size req) in
    if decide (req_hash req = []) then Ok buf
    else if decide (sha256 buf = req_hash req) then Ok buf
    else Err HashMismatch.

End Serve.

(** ** Specification: lexical resolution of a path *)

(** What a path denotes when no symbolic link is involved: ["."] stays, [".."]
    climbs. *)
Fixpoint resolve (acc segs : list str) : list str :=
  match segs with
  | [] => acc
  | s :: rest =>
      if decide (s = $"..") then resolve (take (length acc - 1) acc) rest
      else if decide (s = $"." \/ s = []) then resolve acc rest
      else resolve (acc ++ [s]) rest
  end.

Lemma segment_valid_spec s :
  segment_valid s = true <-> s <> [] /\ s <> ($".") /\ s <> ($"..") /\ backslash ∉ s.
Proof.
  unfold segment_valid. rewrite andb_true_iff, !negb_true_iff, !orb_false_iff, contains_false.
  rewrite !bool_decide_eq_false. naive_solver.
Qed.

Lemma resolve_valid acc segs :
  Forall (fun s => segment_valid s = true) segs -> resolve acc segs = acc ++ segs.
Proof.
  intros H. revert acc. induction H as [|s segs Hs _ IH]; intros acc; simpl; [by rewrite app_nil_r|].
  apply segment_valid_spec in Hs as (H1 & H2 & H3 & _).
  rewrite decide_False by done. rewrite decide_False by naive_solver. rewrite IH.
  by rewrite <-app_assoc.
Qed.

Lemma validate_remote_name_Ok n :
  validate_remote_name n = Ok tt ->
  n <> [] /\ nul ∉ n /\ Forall (fun s => segment_valid s = true) (split_on slash n).
Proof.
  unfold validate_remote_name. case_decide; [done|]. destruct (_ || _); [done|].
  destruct (contains nul n) eqn:En; [done|]. destruct (forallb _ _) eqn:Ef; [|done].
  intros _. split; [done|]. split; [by apply contains_false|].
  apply Forall_forall. intros s Hs. rewrite forallb_forall in Ef. by apply Ef, list_elem_of_In.
Qed.

Lemma fold_path_push segs a cs :
  fold_left path_push segs (mkPathBuf a cs) = mkPathBuf a (cs ++ segs).
Proof.
  revert cs. induction segs as [|s segs IH]; intros cs; simpl; [by rewrite app_nil_r|].
  unfold path_push at 2. simpl. rewrite IH. by rewrite <-app_assoc.
Qed.

(** ** Properties *)

(** C34: an accepted remote name cannot escape the folder: its components are
    non-empty, are neither dot entries nor contain separators or NUL, joining
    them gives the name back, and resolving them below any root climbs nowhere
    but ends strictly below that root at exactly those components. *)
Theorem validate_remote_name_confined n root :
  validate_remote_name n = Ok tt ->
  sanitize_name n = Ok (mkPathBuf false (split_on slash n)) /\
  join [slash] (split_on slash n) = n /\
  (forall s, s ∈ split_on slash n ->
     s <> [] /\ s <> ($".") /\ s <> ($"..") /\ slash ∉ s /\ backslash ∉ s /\ nul ∉ s) /\
  resolve root (split_on slash n) = root ++ split_on slash n /\
  split_on slash n <> [].
Proof.
  intros Hv. destruct (validate_remote_name_Ok n Hv) as (Hn & Hnul & Hs).
  split; [unfold sanitize_name; rewrite Hv; simpl; by rewrite fold_path_push|].
  split; [apply join_split_on|]. split; [|split; [by apply resolve_valid|apply split_on_nonempty]].
  intros s Hin. rewrite Forall_forall in Hs. apply Hs in Hin as Hval.
  apply segment_valid_spec in Hval as (H1 & H2 & H3 & H4). repeat (split; [done|]).
  split; [by eapply split_on_no_sep|]. split; [done|]. intros Hc. apply Hnul.
  rewrite <-(join_split_on slash n). eapply elem_of_join; done.
Qed.

Lemma validate_remote_name_confined_witness :
  resolve [$"srv"; $"data"] (split_on slash ($"a/b.txt")) = [$"srv"; $"data"; $"a"; $"b.txt"].
Proof.
  destruct (validate_remote_name_confined ($"a/b.txt") [$"srv"; $"data"]) as (_ & _ & _ & E & _).
  - vm_compute. reflexivity.
  - rewrite E. vm_compute. reflexivity.
Defined.

Lemma path_starts_with_spec p root :
  path_starts_with p root = true <->
  path_absolute p = path_absolute root /\ exists rest, components p = components root ++ rest.
Proof.
  unfold path_starts_with. rewrite andb_true_iff, bool_decide_eq_true, starts_with_spec. done.
Qed.

(** C35: whatever a peer requests and whatever the links on disk are, data is only
    served from an opened file whose canonical path lies below the canonical
    folder root, it is a prefix of the requested range of that file and no
    longer than requested, and if the request names a hash the data has it. *)
Theorem serve_block_request_sound canonicalize current_dir open_file read_some sha256 root req buf :
  serve_block_request_sync canonicalize current_dir open_file read_some sha256 root req = Ok buf ->
  exists p data,
    open_file p = Ok data /\
    path_absolute p = path_absolute (default root (canonicalize root)) /\
    (exists rest, components p = components (default root (canonicalize root)) ++ rest) /\
    0 <= req_offset req /\
    (exists n, buf = take n (drop (Z.to_nat (req_offset req)) data) /\
       Z.of_nat n <= req_size req `max` 0) /\
    (req_hash req <> [] -> sha256 buf = req_hash req).
Proof.
  unfold serve_block_request_sync.
  intros (rel & _ & H)%result_bind_Ok. apply result_bind_Ok in H as (fp & _ & H).
  destruct (path_starts_with _ _) eqn:Ep; [|done]. cbn [negb] in H.
  apply path_starts_with_spec in Ep as [Ea Er].
  apply result_bind_Ok in H as (data & Ed & H). apply result_bind_Ok in H as (b & Eb & H).
  assert (buf = b /\ (req_hash req <> [] -> sha256 b = req_hash req)) as [-> Hh].
  { case_decide; [injection H as ->; done|]. case_decide; [injection H as ->; done|done]. }
  exists (canonical_or_absolute canonicalize current_dir fp), data.
  split; [by destruct (open_file _) as [|[]]; simplify_eq|]. split; [done|]. split; [done|].
  unfold read_at in Eb. destruct (Z.ltb_spec (req_offset req) 0); [done|]. injection Eb as <-.
  split; [done|]. split; [|done]. eexists. split; [done|]. lia.
Qed.

(** A disk with one file below the root [/srv]. *)
Definition demo_open (p : PathBuf) : result OpenError (list Z) :=
  if decide (components p = [$"srv"; $"a"]) then Ok [10; 11; 12; 13] else Err OpenNotFound.

Definition demo_request (n : str) : Request := mkRequest 1 ($"f") n 1 2 [] false 0.

Lemma serve_block_request_sound_witness :
  exists p data, demo_open p = Ok data /\
    exists n, [11; 12] = take n (drop 1 data) /\ Z.of_nat n <= 2.
Proof.
  destruct (serve_block_request_sound Some None demo_open (fun n => n) (fun b => b)
              (mkPathBuf true [$"srv"]) (demo_request ($"a")) [11; 12])
    as (p & data & H1 & _ & _ & _ & (n & H2 & H3) & _).
  - vm_compute. reflexivity.
  - exists p, data. split; [exact H1|]. exists n. split; [exact H2|exact H3].
Defined.

(** A missing file below a symbolically linked folder root is answered as an
    invalid name, not as a missing file: the root is compared in canonical form,
    the file, which cannot be canonicalized, in its original spelling. *)
Theorem missing_file_reported_invalid :
  let canonicalize p := if decide (components p = [$"data"]) then Some (mkPathBuf true [$"mnt"; $"d"]) else None in
  let serve root := serve_block_request_sync canonicalize None demo_open (fun n => n) (fun b => b)
                      (mkPathBuf true root) (demo_request ($"gone")) in
  serve [$"data"] = Err InvalidFileName /\ serve [$"srv"] = Err FileNotFound /\
  error_code InvalidFileName = InvalidFile /\ error_code FileNotFound = NoSuchFile.
Proof. vm_compute. repeat split; reflexivity. Qed.
