(* ===== verification/Conflict.v ===== *)
(** * Conflict resolution ([crates/syncthing-sync/src/conflict_resolver.rs], [events.rs])

    The resolver works on a [World]: the local database (any implementation of
    [LocalDatabase]), the files on disk and the published events.  The clock,
    the device name and the outcome of file-system calls come from a
    [ConflictEnv]; text diffs are the parameter of [Merge]. *)

From S2P Require Import Prelude Core DeviceIds Database Merge.

(** ** Events *)

Inductive ItemAction := ItemAdd | ItemModify | ItemDelete | ItemConflict.

Inductive ConflictResolution := UseLocal | UseRemote | ResolveMerge | RenameBoth.

#[global] Instance ConflictResolution_eq_dec : EqDecision ConflictResolution.
Proof. solve_decision. Defined.

Record SyncStats := mkSyncStats {
  ss_files_added : Z;
  ss_files_modified : Z;
  ss_files_deleted : Z;
  ss_bytes_transferred : Z;
  ss_conflicts_detected : Z;
  ss_conflicts_resolved : Z;
}.

Inductive SyncEvent :=
| LocalIndexUpdated (folder : str) (files : list FileInfo)
| RemoteIndexReceived (folder : str) (device : DeviceId) (files : list FileInfo)
| FolderScanCompleted (folder : str) (files_changed : Z)
| FolderScanFailed (folder : str) (error : str)
| WatcherDirtySetSize (folder : str) (size : Z)
| WatcherEventsDropped (folder : str) (dropped : Z)
| IncrementalScanTriggered (folder : str) (paths : Z)
| ItemStarted (folder item : str) (action : ItemAction)
| ItemFinished (folder item : str) (action : ItemAction) (error : option str)
| ConflictDetected (folder item : str) (local_version remote_version : Vector)
| ConflictResolved (folder item : str) (resolution : ConflictResolution)
| DownloadProgress (folder file : str) (bytes_done bytes_total : Z)
| UploadProgress (folder file : str) (bytes_done bytes_total : Z)
| FolderStateChanged (folder : str) (from_status to_status : FolderStatus)
| FolderConfigUpdated (folder : Folder)
| DeviceConnected (device : DeviceId)
| DeviceDisconnected (device : DeviceId) (reason : str)
| SyncComplete (folder : str) (stats : SyncStats)
| IndexUpdateChunkSent (folder : str) (device : DeviceId) (chunk_index total_chunks files bytes : Z).

(** ** Disk

    What is at a path: nothing, a file with its content, or a directory. *)
Inductive Node := FileNode (bytes : str) | DirNode.

Definition Disk := str -> option Node.

Definition path_exists (d : Disk) (p : str) : bool := bool_decide (is_Some (d p)).

Definition disk_write (d : Disk) (p : str) (c : str) : Disk :=
  fun q => if decide (q = p) then Some (FileNode c) else d q.

(** [fs::rename]: the entry and, for a directory, everything below it moves. *)
Definition disk_rename (d : Disk) (old new : str) : Disk :=
  fun q =>
    if decide (q = new) then d old
    else match strip_prefix (new ++ $"/") q with
         | Some r => d (old ++ $"/" ++ r)
         | None => if decide (q = old) then None
                   else if starts_with (old ++ $"/") q then None else d q
         end.

Record ConflictEnv := mkConflictEnv {
  env_timestamp : str;
  env_local_device_id : option DeviceId;
  env_hex_encode : list Z -> str;
  env_rename_ok : bool;
  env_write_ok : bool;
  env_read_ok : str -> bool;
  env_diff : str -> str -> list DiffOp;
  env_fuel : nat;
}.

Record World (DB : Type) := mkWorld {
  w_db : DB;
  w_disk : Disk;
  w_events : list SyncEvent;
}.
Arguments mkWorld {DB}.
Arguments w_db {DB}.
Arguments w_disk {DB}.
Arguments w_events {DB}.

(** The pairs [(modified_s, modified_ns)] are compared lexicographically. *)
Definition mtime_lt (a b : FileInfo) : bool :=
  (modified_s a <? modified_s b) ||
  ((modified_s a =? modified_s b) && (modified_ns a <? modified_ns b)).

Definition remote_wins_conflict (local remote : FileInfo) : bool :=
  if mtime_lt local remote then true
  else if mtime_lt remote local then false
  else match vector_concurrent_order (version remote) (version local) with
       | Some SelfGreater => true
       | _ => false
       end.

Definition is_conflict (local remote : FileInfo) : bool :=
  if vector_dominates (version local) (version remote) then false
  else if vector_dominates (version remote) (version local) then false
  else true.

Definition select_winner (local remote : FileInfo) : FileInfo :=
  if vector_dominates (version remote) (version local) then remote
  else if vector_dominates (version local) (version remote) then local
  else if modified_s local <? modified_s remote then remote
  else if modified_s remote <? modified_s local then local
  else if modified_ns local <? modified_ns remote then remote
  else local.

Definition compare_versions (v1 v2 : Vector) : VersionComparison :=
  let v1_dominates := vector_dominates v1 v2 in
  let v2_dominates := vector_dominates v2 v1 in
  if v1_dominates && negb v2_dominates then Greater
  else if v2_dominates && negb v1_dominates then Less
  else if v1_dominates && v2_dominates then Equal
  else Conflict.

(** The stem and the extension of the conflict copy's name. *)
Definition conflict_stem_ext (n : str) : str * str :=
  match rsplit_once "."%char n with
  | Some (s, e) =>
      if negb (contains "/"%char e) && negb (contains "\"%char e) then (s, "."%char :: e) else (n, [])
  | None => (n, [])
  end.

Definition device_tag (env : ConflictEnv) : str :=
  match env_local_device_id env with
  | Some id => short_id (env_hex_encode env) id
  | None => $"local"
  end.

Definition conflict_name (env : ConflictEnv) (n : str) : str :=
  let '(stem, ext) := conflict_stem_ext n in
  stem ++ $".sync-conflict-" ++ env_timestamp env ++ $"-" ++ device_tag env ++ ext.

Section Resolver.
Context {DB : Type} `{LocalDatabase DB}.

Definition WorldM (A : Type) : Type := SE (World DB) SyncError A.

Definition publish (e : SyncEvent) : WorldM unit :=
  se_modify (fun w => mkWorld (w_db w) (w_disk w) (w_events w ++ [e])).

Definition w_get_file (folder n : str) : WorldM (option FileInfo) :=
  se_read (fun w => get_file (w_db w) folder n).

Definition w_get_folder_files (folder : str) : WorldM (list FileInfo) :=
  se_read (fun w => get_folder_files (w_db w) folder).

Definition w_update_file (folder : str) (info : FileInfo) : WorldM unit :=
  fun w => let '(r, db') := update_file (w_db w) folder info in
           (r, mkWorld db' (w_disk w) (w_events w)).

Definition w_set_disk (f : Disk -> Disk) : WorldM unit :=
  se_modify (fun w => mkWorld (w_db w) (f (w_disk w)) (w_events w)).

Definition rename_conflict_files (env : ConflictEnv) (folder : str) (local remote : FileInfo)
    (fpath : str) : WorldM unit :=
  let local_path := path_join fpath (name local) in
  let conflict_path := path_join fpath (conflict_name env (name local)) in
  let! present := se_read (fun w => Ok (path_exists (w_disk w) local_path)) in
  do! (if (present : bool) then
         if env_rename_ok env
         then w_set_disk (fun d => disk_rename d local_path conflict_path)
         else se_throw (SyncConflict (name local))
       else se_ret tt) in
  w_update_file folder remote.

(** [read_to_string(path).ok()] when the path exists. *)
Definition w_read_text (env : ConflictEnv) (p : str) : WorldM (option str) :=
  se_read (fun w => Ok match w_disk w p with
                       | Some (FileNode c) => if env_read_ok env p then Some c else None
                       | _ => None
                       end).

Definition merge_files (env : ConflictEnv) (folder : str) (local remote : FileInfo)
    (fpath : str) : WorldM unit :=
  if negb (is_mergeable_text (name local)) then rename_conflict_files env folder local remote fpath
  else
    let local_path := path_join fpath (name local) in
    let! local_content := w_read_text env local_path in
    match local_content with
    | None => rename_conflict_files env folder local remote fpath
    | Some lc =>
        let! remote_content := w_read_text env (path_join fpath (name remote)) in
        match remote_content with
        | None => rename_conflict_files env folder local remote fpath
        | Some rc =>
            match merge_text (env_diff env) (env_fuel env) lc rc with
            | Done merged =>
                if env_write_ok env then
                  do! w_set_disk (fun d => disk_write d local_path (content merged)) in
                  do! (if has_conflicts merged
                       then publish (ConflictResolved folder (name local) ResolveMerge)
                       else se_ret tt) in
                  w_update_file folder remote
                else se_throw (SyncConflict (name local))
            (* unreachable: the two-way merge always answers *)
            | _ => se_throw SyncOther
            end
        end
    end.

Definition apply_resolution (env : ConflictEnv) (folder : str) (local remote : FileInfo)
    (fpath : str) (resolution : ConflictResolution) : WorldM unit :=
  match resolution with
  | UseLocal => w_update_file folder local
  | UseRemote => w_update_file folder remote
  | ResolveMerge => merge_files env folder local remote fpath
  | RenameBoth => rename_conflict_files env folder local remote fpath
  end.

Definition resolve_conflict (env : ConflictEnv) (folder : str) (local remote : FileInfo)
    (fpath : str) : WorldM ConflictResolution :=
  if negb (is_conflict local remote) then se_ret UseRemote
  else
    do! publish (ConflictDetected folder (name local) (version local) (version remote)) in
    if negb (remote_wins_conflict local remote) then
      do! w_update_file folder local in
      do! publish (ConflictResolved folder (name local) UseLocal) in
      se_ret UseLocal
    else
      let resolution := if is_mergeable_text (name local) then ResolveMerge else RenameBoth in
      if decide (resolution = ResolveMerge) then
        do! w_update_file folder remote in
        do! publish (ConflictResolved folder (name local) resolution) in
        se_ret UseRemote
      else
        do! apply_resolution env folder local remote fpath resolution in
        do! publish (ConflictResolved folder (name local) resolution) in
        se_ret resolution.

(** The concurrent pairs of a batch, in its order. *)
Fixpoint check_conflicts (folder : str) (remote_files : list FileInfo)
  : WorldM (list (FileInfo * FileInfo)) :=
  match remote_files with
  | [] => se_ret []
  | remote :: rest =>
      let! found := w_get_file folder (name remote) in
      let! conflicts := check_conflicts folder rest in
      se_ret match found with
             | Some local => if is_conflict local remote then (local, remote) :: conflicts else conflicts
             | None => conflicts
             end
  end.

End Resolver.

(** ** Lemmas *)

Lemma is_conflict_spec l r : is_conflict l r = true <-> concurrent (version l) (version r).
Proof.
  unfold is_conflict, concurrent. rewrite <-!vector_dominates_spec.
  destruct (vector_dominates (version l) (version r)), (vector_dominates (version r) (version l)); naive_solver.
Qed.

Lemma is_conflict_sym l r : is_conflict l r = is_conflict r l.
Proof. apply eq_true_iff_eq. rewrite !is_conflict_spec. unfold concurrent. tauto. Qed.

Lemma mtime_lt_asym a b : mtime_lt a b = true -> mtime_lt b a = false.
Proof.
  unfold mtime_lt. destruct (Z.ltb_spec (modified_s a) (modified_s b)), (Z.eqb_spec (modified_s a) (modified_s b)),
    (Z.ltb_spec (modified_ns a) (modified_ns b)), (Z.ltb_spec (modified_s b) (modified_s a)),
    (Z.eqb_spec (modified_s b) (modified_s a)), (Z.ltb_spec (modified_ns b) (modified_ns a)); simpl; try done; lia.
Qed.

(** On concurrent versions exactly one of the two ends lets the remote win. *)
Lemma remote_wins_antisym l r :
  is_conflict l r = true -> remote_wins_conflict r l = negb (remote_wins_conflict l r).
Proof.
  intros Hc. unfold remote_wins_conflict.
  destruct (mtime_lt l r) eqn:E1; [by rewrite (mtime_lt_asym _ _ E1)|].
  destruct (mtime_lt r l) eqn:E2; [done|].
  apply is_conflict_spec, concurrent_order_is_Some in Hc as [o Ho].
  rewrite (concurrent_order_flip (version l) (version r)), Ho. by destruct o.
Qed.

Lemma compare_versions_compare a b : compare_versions a b = vector_compare a b.
Proof.
  rewrite vector_compare_dominates. unfold compare_versions, compare_flags.
  by destruct (vector_dominates a b), (vector_dominates b a).
Qed.

Lemma path_join_relative base n :
  starts_with ($"/") n = false ->
  exists sep, forall m, starts_with ($"/") m = false -> path_join base m = base ++ sep ++ m /\ path_join base n = base ++ sep ++ n.
Proof.
  intros Hn. unfold path_join. rewrite Hn. destruct (decide (base = [])) as [->|].
  - exists []. intros m ->. done.
  - destruct (ends_with ($"/") base); [exists []|exists ($"/")]; intros m ->; done.
Qed.

Lemma conflict_stem_ext_spec n : let '(s, e) := conflict_stem_ext n in s ++ e = n.
Proof.
  unfold conflict_stem_ext. destruct (rsplit_once "."%char n) as [[s e]|] eqn:E; [|apply app_nil_r].
  destruct (_ && _); [|apply app_nil_r]. by apply rsplit_once_Some in E as [-> _].
Qed.

Lemma conflict_name_longer env n : (length n < length (conflict_name env n))%nat.
Proof.
  unfold conflict_name. pose proof (conflict_stem_ext_spec n) as H. destruct (conflict_stem_ext n) as [s e].
  rewrite <-H, !length_app. simpl. lia.
Qed.

Lemma conflict_name_relative env n :
  n <> [] -> starts_with ($"/") n = false -> starts_with ($"/") (conflict_name env n) = false.
Proof.
  intros Hne Hn. unfold conflict_name. pose proof (conflict_stem_ext_spec n) as H.
  destruct (conflict_stem_ext n) as [[|c s] e]; [done|]. subst n.
  unfold starts_with in *. simpl in *. case_decide; done.
Qed.

(** Renaming to a longer path moves the entry. *)
Lemma disk_rename_moved d old new :
  (length old < length new)%nat -> disk_rename d old new new = d old /\ disk_rename d old new old = None.
Proof.
  intros Hl. unfold disk_rename. rewrite !decide_True by done. split; [done|].
  rewrite decide_False by (intros ->; lia).
  destruct (strip_prefix _ old) as [r|] eqn:E; [|by rewrite decide_True].
  apply strip_prefix_Some in E. apply (f_equal length) in E. rewrite !length_app in E. simpl in E. lia.
Qed.

Section ResolverProofs.
Context {DB : Type} `{LocalDatabaseLaws DB}.
Implicit Types w : World DB.

(** The view of the database in a world. *)
Definition w_files (w : World DB) (fo : str) : gmap str FileInfo := db_files (w_db w) fo.
Definition w_inv (w : World DB) : Prop := db_inv (w_db w).

Lemma w_update_file_run fo f w :
  w_inv w -> exists w', w_update_file fo f w = (Ok tt, w') /\ w_inv w' /\
    w_files w' fo = <[name f := f]> (w_files w fo) /\
    (forall fo', fo' <> fo -> w_files w' fo' = w_files w fo') /\
    w_disk w' = w_disk w /\ w_events w' = w_events w.
Proof.
  intros Hi. destruct (law_update_file (w_db w) fo f Hi) as (db' & E & Hi' & Hf & Ho & _).
  exists (mkWorld db' (w_disk w) (w_events w)). unfold w_update_file. rewrite E. done.
Qed.

Lemma publish_run e w : publish e w = (Ok tt, mkWorld (w_db w) (w_disk w) (w_events w ++ [e])).
Proof. done. Qed.

(** Keeping a copy and accepting the remote version. *)
Lemma rename_conflict_files_run env fo l r fp w :
  w_inv w -> env_rename_ok env = true ->
  exists w', rename_conflict_files env fo l r fp w = (Ok tt, w') /\ w_inv w' /\
    w_files w' fo = <[name r := r]> (w_files w fo) /\
    (forall fo', fo' <> fo -> w_files w' fo' = w_files w fo') /\
    w_disk w' = (if path_exists (w_disk w) (path_join fp (name l))
                 then disk_rename (w_disk w) (path_join fp (name l)) (path_join fp (conflict_name env (name l)))
                 else w_disk w) /\
    w_events w' = w_events w.
Proof.
  intros Hi Hr. unfold rename_conflict_files.
  erewrite se_bind_run by done. destruct (path_exists _ _) eqn:Ep; rewrite ?Hr.
  - unfold w_set_disk. erewrite se_bind_run by done.
    destruct (w_update_file_run fo r (mkWorld (w_db w) (disk_rename (w_disk w) (path_join fp (name l))
      (path_join fp (conflict_name env (name l)))) (w_events w)) Hi) as (w' & E & H'). by exists w'.
  - erewrite se_bind_run by done. destruct (w_update_file_run fo r w Hi) as (w' & E & H'). by exists w'.
Qed.

(** The version both ends settle on. *)
Definition conflict_winner (local remote : FileInfo) : FileInfo :=
  if remote_wins_conflict local remote then remote else local.

Lemma conflict_winner_sym l r : is_conflict l r = true -> conflict_winner r l = conflict_winner l r.
Proof.
  intros Hc. unfold conflict_winner. rewrite (remote_wins_antisym l r Hc).
  by destruct (remote_wins_conflict l r).
Qed.

Lemma resolve_conflict_run env fo l r fp w :
  w_inv w -> env_rename_ok env = true -> is_conflict l r = true ->
  exists res w', resolve_conflict env fo l r fp w = (Ok res, w') /\ w_inv w' /\
    w_files w' fo = <[name (conflict_winner l r) := conflict_winner l r]> (w_files w fo) /\
    (forall fo', fo' <> fo -> w_files w' fo' = w_files w fo') /\
    w_events w' = w_events w ++ [ConflictDetected fo (name l) (version l) (version r);
                                 ConflictResolved fo (name l)
                                   (if remote_wins_conflict l r
                                    then if is_mergeable_text (name l) then ResolveMerge else RenameBoth
                                    else UseLocal)] /\
    (if remote_wins_conflict l r
     then res = if is_mergeable_text (name l) then UseRemote else RenameBoth
     else res = UseLocal) /\
    w_disk w' = (if remote_wins_conflict l r && negb (is_mergeable_text (name l)) &&
                    path_exists (w_disk w) (path_join fp (name l))
                 then disk_rename (w_disk w) (path_join fp (name l)) (path_join fp (conflict_name env (name l)))
                 else w_disk w).
Proof.
  intros Hi Hr Hc. unfold resolve_conflict, conflict_winner. rewrite Hc. cbn [negb].
  erewrite se_bind_run by apply publish_run. set (w1 := mkWorld _ _ _).
  assert (w_inv w1) as Hi1 by done.
  destruct (remote_wins_conflict l r); cbn [negb andb].
  - destruct (is_mergeable_text (name l)); cbn [negb].
    + rewrite decide_True by done. destruct (w_update_file_run fo r w1 Hi1) as (w2 & E & Hi2 & Hf & Ho & Hd & He).
      erewrite se_bind_run by done. erewrite se_bind_run by apply publish_run.
      eexists _, _. split; [done|]. simpl. rewrite He, Hd. subst w1; simpl. by rewrite <-app_assoc.
    + rewrite decide_False by done. cbn [apply_resolution].
      destruct (rename_conflict_files_run env fo l r fp w1 Hi1 Hr) as (w2 & E & Hi2 & Hf & Ho & Hd & He).
      erewrite se_bind_run by done. erewrite se_bind_run by apply publish_run.
      eexists _, _. split; [done|]. simpl. rewrite He, Hd. subst w1; simpl. by rewrite <-app_assoc.
  - destruct (w_update_file_run fo l w1 Hi1) as (w2 & E & Hi2 & Hf & Ho & Hd & He).
    erewrite se_bind_run by done. erewrite se_bind_run by apply publish_run.
    eexists _, _. split; [done|]. simpl. rewrite He, Hd. subst w1; simpl. by rewrite <-app_assoc.
Qed.

(** C15: two peers that exchange concurrent versions of a file converge without
    talking to each other: each resolves the conflict on its own, both
    databases end up with the same version (the newer modification time, then
    the first diverging counter), exactly one side keeps its own file, and no
    other file of the folder and no other folder changes. *)
Theorem conflict_convergence envA envB fo fa fb pathA pathB wA wB :
  name fa = name fb -> is_conflict fa fb = true ->
  env_rename_ok envA = true -> env_rename_ok envB = true -> w_inv wA -> w_inv wB ->
  exists rA wA' rB wB' winner,
    resolve_conflict envA fo fa fb pathA wA = (Ok rA, wA') /\
    resolve_conflict envB fo fb fa pathB wB = (Ok rB, wB') /\
    (winner = fa \/ winner = fb) /\
    w_files wA' fo = <[name fa := winner]> (w_files wA fo) /\
    w_files wB' fo = <[name fa := winner]> (w_files wB fo) /\
    (forall fo', fo' <> fo -> w_files wA' fo' = w_files wA fo' /\ w_files wB' fo' = w_files wB fo') /\
    (rA = UseLocal <-> rB <> UseLocal).
Proof.
  intros Hn Hc RA RB IA IB.
  destruct (resolve_conflict_run envA fo fa fb pathA wA IA RA Hc) as (rA & wA' & EA & _ & FA & OA & _ & ResA & _).
  rewrite is_conflict_sym in Hc.
  destruct (resolve_conflict_run envB fo fb fa pathB wB IB RB Hc) as (rB & wB' & EB & _ & FB & OB & _ & ResB & _).
  exists rA, wA', rB, wB', (conflict_winner fa fb). split; [done|]. split; [done|].
  assert (name (conflict_winner fa fb) = name fa) as Hw
    by (unfold conflict_winner; by destruct (remote_wins_conflict fa fb)).
  split; [unfold conflict_winner; destruct (remote_wins_conflict fa fb); auto|]. split; [by rewrite FA, Hw|].
  split; [by rewrite FB, <-(conflict_winner_sym fb fa Hc), Hw|].
  split; [intros fo' Hfo; by rewrite OA, OB|].
  rewrite (remote_wins_antisym fb fa Hc) in ResA.
  destruct (remote_wins_conflict fb fa); simpl in ResA; rewrite ?ResA, ?ResB; repeat case_match; naive_solver.
Qed.

(** C17: losing a conflict never destroys a file: when the remote version wins
    over a binary file, the local content is found under the conflict name in
    the same folder, the original path is free for the download, and the
    database holds the remote version. *)
Theorem conflict_copy_kept env fo l r fp w node :
  w_inv w -> env_rename_ok env = true -> is_conflict l r = true ->
  remote_wins_conflict l r = true -> is_mergeable_text (name l) = false ->
  name l <> [] -> starts_with ($"/") (name l) = false -> name l = name r ->
  w_disk w (path_join fp (name l)) = Some node ->
  exists w', resolve_conflict env fo l r fp w = (Ok RenameBoth, w') /\
    w_disk w' (path_join fp (conflict_name env (name l))) = Some node /\
    w_disk w' (path_join fp (name l)) = None /\
    w_files w' fo !! name l = Some r.
Proof.
  intros Hi Hr Hc Hw Hm Hne Hrel Hn Hd.
  destruct (resolve_conflict_run env fo l r fp w Hi Hr Hc) as (res & w' & E & _ & Hf & _ & _ & Hres & Hdisk).
  unfold conflict_winner in Hf. rewrite Hw, Hm in *. cbn [andb negb] in Hdisk. subst res.
  exists w'. split; [done|].
  unfold path_exists in Hdisk. rewrite bool_decide_eq_true_2 in Hdisk by (by eexists). rewrite Hdisk.
  destruct (path_join_relative fp (name l) Hrel) as [sep Hsep].
  destruct (Hsep (conflict_name env (name l))) as [E1 E2]; [by apply conflict_name_relative|].
  destruct (disk_rename_moved (w_disk w) (path_join fp (name l)) (path_join fp (conflict_name env (name l)))) as [M1 M2].
  { rewrite E1, E2, !length_app. pose proof (conflict_name_longer env (name l)). lia. }
  rewrite M1, M2. split; [done|]. split; [done|]. by rewrite Hf, Hn, lookup_insert_eq.
Qed.

(** A failed rename aborts the resolution before anything is lost: the error
    names the file, and database and disk are as before. *)
Theorem conflict_rename_error env fo l r fp w :
  env_rename_ok env = false -> is_conflict l r = true ->
  remote_wins_conflict l r = true -> is_mergeable_text (name l) = false ->
  path_exists (w_disk w) (path_join fp (name l)) = true ->
  exists w', resolve_conflict env fo l r fp w = (Err (SyncConflict (name l)), w') /\
    w_db w' = w_db w /\ w_disk w' = w_disk w.
Proof.
  intros Hr Hc Hw Hm Hp. unfold resolve_conflict. rewrite Hc, Hw, Hm. cbn [negb].
  erewrite se_bind_run by apply publish_run. rewrite decide_False by done. cbn [apply_resolution].
  unfold se_bind at 1, rename_conflict_files. erewrite se_bind_run by done. cbn [w_disk].
  rewrite Hp, Hr. cbn. by eexists.
Qed.

(** A local win leaves the two versions concurrent: the version stored
    afterwards is the unchanged local one, which does not dominate the remote
    version, so the same conflict is detected again on the next exchange. *)
Theorem local_win_stays_concurrent env fo l r fp w :
  w_inv w -> env_rename_ok env = true -> is_conflict l r = true -> remote_wins_conflict l r = false ->
  exists w' stored, resolve_conflict env fo l r fp w = (Ok UseLocal, w') /\
    w_files w' fo !! name l = Some stored /\
    vector_compare (version stored) (version r) = Conflict /\
    vector_dominates (version stored) (version r) = false.
Proof.
  intros Hi Hr Hc Hw.
  destruct (resolve_conflict_run env fo l r fp w Hi Hr Hc) as (res & w' & E & _ & Hf & _ & _ & Hres & _).
  unfold conflict_winner in Hf. rewrite Hw in *. subst res. exists w', l. split; [done|].
  rewrite Hf, lookup_insert_eq. split; [done|].
  rewrite vector_compare_dominates. unfold is_conflict in Hc.
  destruct (vector_dominates (version l) (version r)); [done|].
  by destruct (vector_dominates (version r) (version l)).
Qed.

End ResolverProofs.

(** Worlds over the in-memory database, for the witnesses. *)
Definition demo_env : ConflictEnv :=
  mkConflictEnv ($"20260101-000000") None (fun _ => []) true true (fun _ => true) (fun _ _ => []) 0.

Definition demo_file (n : str) (v : Vector) (mtime : Z) : FileInfo :=
  mkFileInfo n File 0 0 mtime 0 v 0 0 [] None (Some false) None None None None.

Definition demo_local : FileInfo := demo_file ($"a.bin") (mkVector {[1 := 2; 2 := 1]}) 10.
Definition demo_remote : FileInfo := demo_file ($"a.bin") (mkVector {[1 := 1; 2 := 2]}) 20.

Definition demo_world : World MemoryDatabase :=
  mkWorld memory_database_new (disk_write (fun _ => None) ($"/d/a.bin") ($"data")) [].

Lemma demo_world_inv : w_inv demo_world.
Proof. apply md_inv_new. Qed.

Lemma conflict_convergence_witness :
  exists rA wA' rB wB' winner,
    resolve_conflict demo_env ($"f") demo_local demo_remote ($"/d") demo_world = (Ok rA, wA') /\
    resolve_conflict demo_env ($"f") demo_remote demo_local ($"/d") demo_world = (Ok rB, wB') /\
    w_files wA' ($"f") !! ($"a.bin") = Some winner /\ w_files wB' ($"f") !! ($"a.bin") = Some winner.
Proof.
  destruct (conflict_convergence demo_env demo_env ($"f") demo_local demo_remote ($"/d") ($"/d")
              demo_world demo_world) as (rA & wA' & rB & wB' & winner & E1 & E2 & _ & F1 & F2 & _).
  - reflexivity.
  - vm_compute. reflexivity.
  - reflexivity.
  - reflexivity.
  - exact demo_world_inv.
  - exact demo_world_inv.
  - exists rA, wA', rB, wB', winner. rewrite E1, E2, F1, F2.
    split; [reflexivity|]. split; [reflexivity|].
    split; apply lookup_insert_eq.
Defined.

Lemma conflict_copy_kept_witness :
  exists w', resolve_conflict demo_env ($"f") demo_local demo_remote ($"/d") demo_world = (Ok RenameBoth, w') /\
    w_disk w' ($"/d/a.sync-conflict-20260101-000000-local.bin") = Some (FileNode ($"data")).
Proof.
  destruct (conflict_copy_kept demo_env ($"f") demo_local demo_remote ($"/d") demo_world (FileNode ($"data")))
    as (w' & E & D & _ & _).
  - exact demo_world_inv.
  - reflexivity.
  - vm_compute. reflexivity.
  - vm_compute. reflexivity.
  - vm_compute. reflexivity.
  - vm_compute. congruence.
  - vm_compute. reflexivity.
  - reflexivity.
  - vm_compute. reflexivity.
  - exists w'. split; [exact E|exact D].
Defined.

Lemma conflict_rename_error_witness :
  exists w', resolve_conflict (mkConflictEnv ($"t") None (fun _ => []) false true (fun _ => true) (fun _ _ => []) 0)
               ($"f") demo_local demo_remote ($"/d") demo_world = (Err (SyncConflict ($"a.bin")), w') /\
    w_db w' = w_db demo_world.
Proof.
  destruct (conflict_rename_error (mkConflictEnv ($"t") None (fun _ => []) false true (fun _ => true) (fun _ _ => []) 0)
              ($"f") demo_local demo_remote ($"/d") demo_world) as (w' & E & D & _).
  - reflexivity.
  - vm_compute. reflexivity.
  - vm_compute. reflexivity.
  - vm_compute. reflexivity.
  - vm_compute. reflexivity.
  - exists w'. split; [exact E|exact D].
Defined.

Lemma local_win_stays_concurrent_witness :
  exists w' stored, resolve_conflict demo_env ($"f") demo_remote demo_local ($"/d") demo_world = (Ok UseLocal, w') /\
    w_files w' ($"f") !! ($"a.bin") = Some stored /\
    vector_compare (version stored) (version demo_local) = Conflict.
Proof.
  destruct (local_win_stays_concurrent demo_env ($"f") demo_remote demo_local ($"/d") demo_world)
    as (w' & stored & E & F & C & _).
  - exact demo_world_inv.
  - reflexivity.
  - vm_compute. reflexivity.
  - vm_compute. reflexivity.
  - exists w', stored. split; [exact E|]. split; [exact F|exact C].
Defined.
