(* ===== verification/IndexHandler.v ===== *)
(** * Handling remote indexes ([crates/syncthing-sync/src/index_handler.rs])

    The handler of full indexes and of index updates, over the [World] of
    [Conflict].  [index_step] is the abstract effect of one remote entry on the
    view of a folder; the handler is proved to refine it for every database
    that satisfies [LocalDatabaseLaws], and what two peers reach by exchanging
    indexes is derived from it. *)

From S2P Require Import Prelude Core DeviceIds Database Merge Bep BlockServer Conflict.

Inductive UpdateDecision := DecideUpdate | DecideIgnore | DecideConflict.

Definition metadata_differs (local remote : FileInfo) : bool :=
  negb (size local =? size remote) || negb (modified_s local =? modified_s remote) ||
  negb (modified_ns local =? modified_ns remote).

Definition needs_update (local remote : FileInfo) : UpdateDecision :=
  match compare_versions (version local) (version remote) with
  | Equal => if metadata_differs local remote then DecideConflict else DecideIgnore
  | Greater => DecideIgnore
  | Less => DecideUpdate
  | Conflict => DecideConflict
  end.

(** Threshold on the size of a remote index: [MASS_DELETION_SAFETY_RATIO = 0.5].
    The quotient of two counts below [2^53] compares with one half in floating
    point as the counts do in integers. *)
Definition effective_full_index (remote_count local_count : nat) : bool :=
  if (0 <? remote_count)%nat
  then negb ((2 * remote_count <? local_count `max` 1)%nat && (10 <? local_count)%nat)
  else negb (10 <? local_count)%nat.

Record IndexDiff := mkIndexDiff {
  to_download : list FileInfo;
  to_upload : list FileInfo;
  diff_conflicts : list (FileInfo * FileInfo);
}.

Section Handler.
Context {DB : Type} `{LocalDatabase DB}.

Definition needed_after (remote_file : FileInfo) (resolution : ConflictResolution) : list FileInfo :=
  if bool_decide (resolution = UseRemote) && negb (is_deleted remote_file) then [remote_file] else [].

(** The loop body: the needed files it pushes. *)
Definition process_file (env : ConflictEnv) (folder : Folder) (remote_file : FileInfo)
  : WorldM (DB := DB) (list FileInfo) :=
  match validate_remote_name (name remote_file) with
  | Err _ => se_ret []
  | Ok _ =>
      let! found := w_get_file (folder_id folder) (name remote_file) in
      match found with
      | Some local_file =>
          match needs_update local_file remote_file with
          | DecideUpdate =>
              if is_conflict local_file remote_file then
                let! resolution := resolve_conflict env (folder_id folder) local_file remote_file
                                     (folder_path folder) in
                se_ret (needed_after remote_file resolution)
              else
                do! w_update_file (folder_id folder) remote_file in
                se_ret (if is_deleted remote_file then [] else [remote_file])
          | DecideIgnore => se_ret []
          | DecideConflict =>
              let! resolution := resolve_conflict env (folder_id folder) local_file remote_file
                                   (folder_path folder) in
              se_ret (needed_after remote_file resolution)
          end
      | None =>
          if is_deleted remote_file then se_ret []
          else do! w_update_file (folder_id folder) remote_file in se_ret [remote_file]
      end
  end.

Fixpoint process_loop (env : ConflictEnv) (folder : Folder) (files : list FileInfo)
  : WorldM (DB := DB) (list FileInfo) :=
  match files with
  | [] => se_ret []
  | f :: rest =>
      let! needed := process_file env folder f in
      let! needed' := process_loop env folder rest in
      se_ret (needed ++ needed')
  end.

(** Local files the remote index does not name. *)
Definition unpushed (files local_files : list FileInfo) : list FileInfo :=
  filter (fun l => negb (existsb (fun f => bool_decide (name f = name l)) files) && negb (is_deleted l))
    local_files.

Definition process_files (env : ConflictEnv) (folder : Folder) (files : list FileInfo)
    (is_full_index : bool) : WorldM (DB := DB) (list FileInfo) :=
  let! needed_files := process_loop env folder files in
  do! (if is_full_index then
         let! local_files := w_get_folder_files (folder_id folder) in
         let u := unpushed files local_files in
         if decide (u = []) then se_ret tt
         else publish (LocalIndexUpdated (folder_id folder) u)
       else se_ret tt) in
  se_ret needed_files.

Definition handle_index (env : ConflictEnv) (folder : Folder) (device : DeviceId) (index : Index)
  : WorldM (DB := DB) (list FileInfo) :=
  let remote_count := length (index_files index) in
  if decide (index_folder index = folder_id folder) then
    let! local_files := w_get_folder_files (folder_id folder) in
    process_files env folder (index_files index)
      (effective_full_index remote_count (length local_files))
  else se_throw SyncIndex.

Definition handle_index_update (env : ConflictEnv) (folder : Folder) (device : DeviceId)
    (update : IndexUpdate) : WorldM (DB := DB) (list FileInfo) :=
  if decide (update_folder_id update = folder_id folder) then
    let! needed := process_files env folder (update_files_list update) false in
    do! publish (RemoteIndexReceived (folder_id folder) device (update_files_list update)) in
    se_ret needed
  else se_throw SyncIndex.

Fixpoint diff_loop (local_files remote_files : list FileInfo) (diff : IndexDiff) : IndexDiff :=
  match remote_files with
  | [] => diff
  | remote :: rest =>
      diff_loop local_files rest
        match list_find_name (name remote) local_files with
        | Some local =>
            match needs_update local remote with
            | DecideUpdate => mkIndexDiff (to_download diff ++ [remote]) (to_upload diff) (diff_conflicts diff)
            | DecideConflict =>
                mkIndexDiff (to_download diff) (to_upload diff) (diff_conflicts diff ++ [(local, remote)])
            | DecideIgnore => mkIndexDiff (to_download diff) (to_upload diff ++ [local]) (diff_conflicts diff)
            end
        | None =>
            if is_deleted remote then diff
            else mkIndexDiff (to_download diff ++ [remote]) (to_upload diff) (diff_conflicts diff)
        end
  end.

Definition calculate_diff (db : DB) (folder : str) (remote_files : list FileInfo) : Res IndexDiff :=
  let? local_files := get_folder_files db folder in
  let diff := diff_loop local_files remote_files (mkIndexDiff [] [] []) in
  Ok (mkIndexDiff (to_download diff) (to_upload diff ++ unpushed remote_files local_files)
        (diff_conflicts diff)).

Definition generate_index_update (db : DB) (folder : str) (since_sequence : Z) : Res (list FileInfo) :=
  get_needed_files db folder since_sequence.

Definition handler_check_globals (db : DB) (folder n : str) : Res (list FileInfo) :=
  check_globals db folder n.

End Handler.

(** [merge_indexes]: the map of winners, and the index of its values. *)
Definition merge_file (file_map : gmap str FileInfo) (file : FileInfo) : gmap str FileInfo :=
  match file_map !! name file with
  | Some existing =>
      if decide (select_winner existing file = file) then <[name file := file]> file_map else file_map
  | None => <[name file := file]> file_map
  end.

Definition merge_indexes (indexes : list Index) : Index :=
  match indexes with
  | [] => mkIndex [] []
  | first :: _ =>
      mkIndex (index_folder first)
        (map_to_list (fold_left (fun m idx => fold_left merge_file (index_files idx) m) indexes ∅)).*2
  end.

(** ** The abstract effect of a remote entry *)

Definition index_step (m : gmap str FileInfo) (r : FileInfo) : gmap str FileInfo * list FileInfo :=
  let need := if is_deleted r then [] else [r] in
  if negb (is_ok (validate_remote_name (name r))) then (m, [])
  else match m !! name r with
       | None => if is_deleted r then (m, []) else (<[name r := r]> m, [r])
       | Some l =>
           match vector_compare (version l) (version r) with
           | Greater => (m, [])
           | Less => (<[name r := r]> m, need)
           | Equal => (m, if metadata_differs l r then need else [])
           | Conflict =>
               (<[name r := conflict_winner l r]> m,
                if remote_wins_conflict l r && is_mergeable_text (name r) then need else [])
           end
       end.

Fixpoint index_steps (m : gmap str FileInfo) (rs : list FileInfo) : gmap str FileInfo * list FileInfo :=
  match rs with
  | [] => (m, [])
  | r :: rest =>
      let '(m1, n1) := index_step m r in
      let '(m2, n2) := index_steps m1 rest in
      (m2, n1 ++ n2)
  end.

(** ** Refinement *)

Lemma needs_update_compare l r :
  needs_update l r =
  match vector_compare (version l) (version r) with
  | Equal => if metadata_differs l r then DecideConflict else DecideIgnore
  | Greater => DecideIgnore
  | Less => DecideUpdate
  | Conflict => DecideConflict
  end.
Proof. unfold needs_update. by rewrite compare_versions_compare. Qed.

Lemma compare_is_conflict l r :
  is_conflict l r = match vector_compare (version l) (version r) with Conflict => true | _ => false end.
Proof.
  rewrite vector_compare_dominates. unfold is_conflict, compare_flags.
  by destruct (vector_dominates (version l) (version r)), (vector_dominates (version r) (version l)).
Qed.

Section Refinement.
Context {DB : Type} `{LocalDatabaseLaws DB} (env : ConflictEnv) (folder : Folder).
Hypothesis rename_ok : env_rename_ok env = true.
Abbreviation fo := (folder_id folder).

(** Same database view, disk and events aside. *)
Definition same_view (w w' : World DB) : Prop := forall fo', w_files w' fo' = w_files w fo'.

Lemma process_file_refines r w :
  w_inv w -> exists w', process_file env folder r w = (Ok (index_step (w_files w fo) r).2, w') /\ w_inv w' /\
    w_files w' fo = (index_step (w_files w fo) r).1 /\
    (forall fo', fo' <> fo -> w_files w' fo' = w_files w fo').
Proof using rename_ok.
  intros Hi. unfold process_file, index_step.
  destruct (validate_remote_name (name r)) as [[]|] eqn:Hv; cbn [is_ok negb]; [|by exists w].
  assert (w_get_file fo (name r) w = (Ok (w_files w fo !! name r), w)) as Hg.
  { unfold w_get_file, se_read. by rewrite (law_get_file (w_db w) fo (name r) Hi). }
  erewrite se_bind_run by exact Hg.
  destruct (w_files w fo !! name r) as [l|] eqn:El.
  - pose proof (law_names (w_db w) fo (name r) l Hi El) as Hn.
    rewrite needs_update_compare, compare_is_conflict.
    destruct (vector_compare (version l) (version r)) eqn:Ec.
    + destruct (metadata_differs l r); [|by exists w].
      unfold resolve_conflict. rewrite compare_is_conflict, Ec. cbn [negb].
      erewrite se_bind_run by done. exists w. unfold needed_after. by destruct (is_deleted r).
    + by exists w.
    + destruct (w_update_file_run fo r w Hi) as (w' & E & Hi' & Hf & Ho & _).
      erewrite se_bind_run by done. exists w'. by destruct (is_deleted r).
    + assert (is_conflict l r = true) as Hc by by rewrite compare_is_conflict, Ec.
      destruct (resolve_conflict_run env fo l r (folder_path folder) w Hi rename_ok Hc)
        as (res & w' & E & Hi' & Hf & Ho & _ & Hres & _).
      erewrite se_bind_run by done. exists w'. split; [|split; [done|split; [|done]]].
      * unfold needed_after, se_ret. rewrite Hn in Hres. f_equal. f_equal.
        destruct (remote_wins_conflict l r), (is_mergeable_text (name r)); subst res; by destruct (is_deleted r).
      * rewrite Hf. unfold conflict_winner. by destruct (remote_wins_conflict l r); rewrite ?Hn.
  - destruct (is_deleted r); [by exists w|].
    destruct (w_update_file_run fo r w Hi) as (w' & E & Hi' & Hf & Ho & _).
    erewrite se_bind_run by done. by exists w'.
Qed.

Lemma process_loop_refines rs w :
  w_inv w -> exists w', process_loop env folder rs w = (Ok (index_steps (w_files w fo) rs).2, w') /\ w_inv w' /\
    w_files w' fo = (index_steps (w_files w fo) rs).1 /\
    (forall fo', fo' <> fo -> w_files w' fo' = w_files w fo').
Proof using rename_ok.
  revert w. induction rs as [|r rs IH]; intros w Hi; [by exists w|].
  destruct (process_file_refines r w Hi) as (w1 & E1 & Hi1 & Hf1 & Ho1).
  destruct (IH w1 Hi1) as (w2 & E2 & Hi2 & Hf2 & Ho2). exists w2. cbn [process_loop index_steps].
  erewrite se_bind_run by exact E1. erewrite se_bind_run by exact E2. rewrite Hf1 in *.
  destruct (index_step (w_files w fo) r) as [m1 n1]. simpl in *.
  destruct (index_steps m1 rs) as [m2 n2]. simpl in *.
  split; [done|]. split; [done|]. split; [done|]. intros fo' Hne. by rewrite Ho2, Ho1.
Qed.

(** Neither the threshold nor the full-index flag changes the database. *)
Lemma process_files_refines rs full w :
  w_inv w -> exists w', process_files env folder rs full w = (Ok (index_steps (w_files w fo) rs).2, w') /\
    w_inv w' /\ w_files w' fo = (index_steps (w_files w fo) rs).1 /\
    (forall fo', fo' <> fo -> w_files w' fo' = w_files w fo').
Proof using rename_ok.
  intros Hi. destruct (process_loop_refines rs w Hi) as (w1 & E & Hi1 & Hf & Ho).
  unfold process_files. erewrite se_bind_run by exact E. destruct full; [|by exists w1].
  destruct (law_get_folder_files (w_db w1) fo Hi1) as (l & El & _).
  set (u := unpushed rs l).
  exists (if decide (u = []) then w1
          else mkWorld (w_db w1) (w_disk w1) (w_events w1 ++ [LocalIndexUpdated fo u])).
  split; [|by case_decide].
  erewrite se_bind_run; [done|]. unfold w_get_folder_files. erewrite se_bind_run; [|unfold se_read; by rewrite El].
  fold u. by case_decide.
Qed.

(** C16: handling a full index never panics or fails on a working database, and
    its effect on the stored metadata is exactly the abstract one: each valid
    entry is compared with what is stored, wins, loses or is resolved; the
    needed files are those of the abstract step; other folders are untouched.
    In particular the mass-deletion threshold never changes what is stored. *)
Theorem handle_index_refines device idx w :
  w_inv w -> index_folder idx = fo ->
  exists w', handle_index env folder device idx w = (Ok (index_steps (w_files w fo) (index_files idx)).2, w') /\
    w_inv w' /\ w_files w' fo = (index_steps (w_files w fo) (index_files idx)).1 /\
    (forall fo', fo' <> fo -> w_files w' fo' = w_files w fo').
Proof using rename_ok.
  intros Hi Hf. unfold handle_index. rewrite decide_True by done.
  destruct (law_get_folder_files (w_db w) fo Hi) as (l & El & _).
  erewrite se_bind_run; [|unfold w_get_folder_files, se_read; by rewrite El].
  by apply process_files_refines.
Qed.

(** An index or an index update for another folder is refused, and nothing
    changes, not even the events. *)
Theorem handle_index_folder_mismatch device idx upd w :
  index_folder idx <> fo -> update_folder_id upd <> fo ->
  handle_index env folder device idx w = (Err SyncIndex, w) /\
  handle_index_update env folder device upd w = (Err SyncIndex, w).
Proof. intros H1 H2. unfold handle_index, handle_index_update. by rewrite !decide_False. Qed.

Lemma handle_index_update_run device upd w :
  w_inv w -> update_folder_id upd = fo ->
  exists w', handle_index_update env folder device upd w =
      (Ok (index_steps (w_files w fo) (update_files_list upd)).2, w') /\
    w_inv w' /\ w_files w' fo = (index_steps (w_files w fo) (update_files_list upd)).1.
Proof using rename_ok.
  intros Hi Hf. unfold handle_index_update. rewrite decide_True by done.
  destruct (process_files_refines (update_files_list upd) false w Hi) as (w1 & E & Hi1 & Hf1 & _).
  erewrite se_bind_run by exact E. by eexists.
Qed.

End Refinement.

(** ** What the abstract step guarantees *)

Definition valid_entry (r : FileInfo) : Prop := is_ok (validate_remote_name (name r)) = true.

Lemma index_step_other m r n : n <> name r -> (index_step m r).1 !! n = m !! n.
Proof.
  intros Hn. unfold index_step. repeat case_match; simpl; try done; by apply lookup_insert_ne.
Qed.

Lemma index_steps_other m rs n : n ∉ (name <$> rs) -> (index_steps m rs).1 !! n = m !! n.
Proof.
  revert m. induction rs as [|r rs IH]; intros m Hn; [done|]. cbn [index_steps].
  pose proof (index_step_other m r n ltac:(set_solver)) as H1.
  destruct (index_step m r) as [m1 n1]. specialize (IH m1 ltac:(set_solver)).
  destruct (index_steps m1 rs) as [m2 n2]. simpl in *. congruence.
Qed.

(** The effect of a step on its own name depends only on the entry there. *)
Definition entry_step (old : option FileInfo) (r : FileInfo) : option FileInfo :=
  if negb (is_ok (validate_remote_name (name r))) then old
  else match old with
       | None => if is_deleted r then None else Some r
       | Some l =>
           match vector_compare (version l) (version r) with
           | Greater | Equal => Some l
           | Less => Some r
           | Conflict => Some (conflict_winner l r)
           end
       end.

Lemma index_step_entry m r : (index_step m r).1 !! name r = entry_step (m !! name r) r.
Proof.
  unfold index_step, entry_step. destruct (negb _); [done|]. destruct (m !! name r) as [l|] eqn:E.
  - destruct (vector_compare _ _); simpl; try done; apply lookup_insert_eq.
  - destruct (is_deleted r); simpl; [done|apply lookup_insert_eq].
Qed.

(** With distinct names a batch acts entry by entry. *)
Lemma index_steps_entry m rs r :
  NoDup (name <$> rs) -> r ∈ rs -> (index_steps m rs).1 !! name r = entry_step (m !! name r) r.
Proof.
  revert m. induction rs as [|x rs IH]; intros m Hn Hr; [by apply elem_of_nil in Hr|].
  cbn [fmap list_fmap] in Hn. inversion Hn as [|? ? Hx Hn']; subst. cbn [index_steps].
  pose proof (index_step_entry m x) as Hs. pose proof (index_step_other m x (name r)) as Ho.
  destruct (index_step m x) as [m1 n1].
  pose proof (index_steps_other m1 rs (name x) Hx) as Ho2. specialize (IH m1 Hn').
  destruct (index_steps m1 rs) as [m2 n2]. simpl in *.
  apply elem_of_cons in Hr as [->|Hr]; [congruence|]. rewrite IH by done. f_equal. apply Ho.
  intros E. apply Hx. rewrite <-E. apply list_elem_of_fmap. by exists r.
Qed.

Lemma entry_step_source old r f :
  entry_step old r = Some f ->
  old = Some f \/ (f = r /\ valid_entry r /\ (old = None -> is_deleted r = false)).
Proof.
  unfold entry_step, valid_entry, conflict_winner. intros E.
  destruct (is_ok (validate_remote_name (name r))) eqn:Ev; cbn [negb] in E; [|by left].
  destruct old as [l|]; [|destruct (is_deleted r) eqn:Ed; [done|]; right; naive_solver].
  destruct (vector_compare _ _); [naive_solver..|]. destruct (remote_wins_conflict l r); naive_solver.
Qed.

(** The stored version is never replaced by one it strictly dominates. *)
Lemma entry_step_monotone l r :
  exists l', entry_step (Some l) r = Some l' /\ ~ (vle (version l') (version l) /\ ~ vle (version l) (version l')).
Proof.
  unfold entry_step, conflict_winner. pose proof (vector_compare_cases (version l) (version r)) as Hc.
  assert (~ (vle (version l) (version l) /\ ~ vle (version l) (version l))) as Hr by (intros [? ?]; contradiction).
  destruct (negb _); [by exists l|].
  destruct (vector_compare (version l) (version r)); [by exists l|by exists l| |].
  - exists r. split; [done|]. naive_solver.
  - destruct (remote_wins_conflict l r); [|by exists l]. exists r. split; [done|].
    unfold concurrent in Hc. naive_solver.
Qed.

(** A batch acts on a name by its entries of that name, one after the other. *)
Lemma index_steps_fold m rs n :
  (index_steps m rs).1 !! n = foldl entry_step (m !! n) (filter (fun r => name r = n) rs).
Proof.
  revert m. induction rs as [|r rs IH]; intros m; [done|]. cbn [index_steps]. rewrite filter_cons.
  pose proof (index_step_entry m r) as Hs. pose proof (index_step_other m r n) as Ho.
  destruct (index_step m r) as [m1 n1]. specialize (IH m1). destruct (index_steps m1 rs) as [m2 n2].
  cbn [fst] in *. rewrite IH. case_decide as Hn; cbn [foldl].
  - subst n. by rewrite Hs.
  - by rewrite Ho.
Qed.

Lemma entry_steps_source rs old f :
  foldl entry_step old rs = Some f -> old = Some f \/ (f ∈ rs /\ valid_entry f).
Proof.
  revert old. induction rs as [|r rs IH]; intros old Hf; [by left|]. cbn in Hf.
  apply IH in Hf as [Hf|[Hin Hv]]; [|right; split; [by right|done]].
  apply entry_step_source in Hf as [Hf|(-> & Hv & _)]; [by left|]. right. split; [by left|done].
Qed.

Lemma entry_steps_stay rs old : is_Some old -> is_Some (foldl entry_step old rs).
Proof.
  revert old. induction rs as [|r rs IH]; intros old Ho; [done|]. cbn. apply IH. destruct Ho as [l ->].
  destruct (entry_step_monotone l r) as (l' & -> & _). eauto.
Qed.

(** What a batch may do to one name, and what it may do when it has the name once. *)
Lemma index_steps_safe m rs n :
  (n ∉ (name <$> rs) -> (index_steps m rs).1 !! n = m !! n) /\
  (forall f, (index_steps m rs).1 !! n = Some f ->
     m !! n = Some f \/ (f ∈ rs /\ name f = n /\ valid_entry f)) /\
  (is_Some (m !! n) -> is_Some ((index_steps m rs).1 !! n)) /\
  ((length (filter (fun r => name r = n) rs) <= 1)%nat ->
   (forall f, m !! n = None -> (index_steps m rs).1 !! n = Some f -> is_deleted f = false) /\
   (forall l, m !! n = Some l -> exists l', (index_steps m rs).1 !! n = Some l' /\
      ~ (vle (version l') (version l) /\ ~ vle (version l) (version l')))).
Proof.
  split; [apply index_steps_other|]. rewrite index_steps_fold. split_and!.
  - intros f [Hf|[[Hn Hin]%list_elem_of_filter Hv]]%entry_steps_source; [by left|by right].
  - apply entry_steps_stay.
  - destruct (filter _ rs) as [|r [|]]; cbn; [|intros _|lia].
    + intros _. split; [intros f ->; done|]. intros l ->. exists l. split; [done|]. intros [? Hc]. by apply Hc.
    + split; [|intros l ->; apply entry_step_monotone].
      intros f -> [Hf|(-> & _ & Hd)]%entry_step_source; [done|by apply Hd].
Qed.

Section Safety.
Context {DB : Type} `{LocalDatabaseLaws DB}.

(** C5: What a remote index can do to a folder, whatever it contains (on a
    database that keeps its laws and a disk on which renames work): files the
    index does not name keep their entry, so nothing is deleted because a peer does
    not have it; no entry disappears; an entry that appears or changes comes from
    the index under a name that passed validation.  For a name the index has at
    most once, no deletion marker is stored for a file this device never had, and a
    stored version is not replaced by one it strictly dominates;
    [named_twice_downgrades] shows that a name given twice can go back. *)
Theorem handle_index_safe env folder device idx (w : World DB) n :
  env_rename_ok env = true -> w_inv w -> index_folder idx = folder_id folder ->
  exists needed w', handle_index env folder device idx w = (Ok needed, w') /\
    (n ∉ (name <$> index_files idx) ->
       w_files w' (folder_id folder) !! n = w_files w (folder_id folder) !! n) /\
    (forall f, w_files w' (folder_id folder) !! n = Some f ->
       w_files w (folder_id folder) !! n = Some f \/ (f ∈ index_files idx /\ name f = n /\ valid_entry f)) /\
    (is_Some (w_files w (folder_id folder) !! n) -> is_Some (w_files w' (folder_id folder) !! n)) /\
    ((length (filter (fun f => name f = n) (index_files idx)) <= 1)%nat ->
     (forall f, w_files w (folder_id folder) !! n = None -> w_files w' (folder_id folder) !! n = Some f ->
        is_deleted f = false) /\
     (forall l, w_files w (folder_id folder) !! n = Some l ->
        exists l', w_files w' (folder_id folder) !! n = Some l' /\
          ~ (vle (version l') (version l) /\ ~ vle (version l) (version l')))).
Proof.
  intros Hr Hi Hf. unfold handle_index. rewrite decide_True by done.
  destruct (law_get_folder_files (w_db w) (folder_id folder) Hi) as (loc & El & _).
  erewrite se_bind_run; [|unfold w_get_folder_files, se_read; by rewrite El].
  destruct (process_files_refines env folder Hr (index_files idx)
              (effective_full_index (length (index_files idx)) (length loc)) w Hi) as (w' & E & _ & Hf' & _).
  eexists _, w'. split; [exact E|]. rewrite Hf'. apply index_steps_safe.
Qed.

(** ** Convergence of two peers *)

(** Two entries agree: the same version, or a deletion the other never had. *)
Definition agree (a b : option FileInfo) : Prop :=
  match a, b with
  | Some f, Some g => version f ≡ version g
  | Some f, None | None, Some f => is_deleted f = true
  | None, None => True
  end.

Lemma entry_exchange_agree a b :
  name a = name b -> valid_entry a -> valid_entry b ->
  agree (entry_step (Some a) b) (entry_step (Some b) a).
Proof.
  unfold valid_entry, entry_step. intros Hn Ha Hb. rewrite Ha, Hb. cbn [negb].
  assert (is_conflict a b = match vector_compare (version a) (version b) with Conflict => true | _ => false end)
    as Hc by apply compare_is_conflict.
  pose proof (vector_compare_cases (version a) (version b)) as H1.
  rewrite !vector_compare_dominates in *.
  destruct (vector_dominates (version a) (version b)), (vector_dominates (version b) (version a)); simpl in *.
  - exact H1.
  - reflexivity.
  - reflexivity.
  - rewrite (conflict_winner_sym a b) by done. reflexivity.
Qed.

(** A batch that lists the view of another folder. *)
Lemma index_steps_view (m mb : gmap str FileInfo) rs n :
  (forall k f, mb !! k = Some f -> name f = k) -> rs ≡ₚ (map_to_list mb).*2 ->
  (index_steps m rs).1 !! n = match mb !! n with None => m !! n | Some r => entry_step (m !! n) r end.
Proof.
  intros Hn Hp.
  assert (name <$> (map_to_list mb).*2 = (map_to_list mb).*1) as Hk.
  { rewrite <-list_fmap_compose. apply list_fmap_ext. intros i [k f] Hi%list_elem_of_lookup_2.
    apply elem_of_map_to_list in Hi. simpl. by apply Hn. }
  assert (NoDup (name <$> rs)) as Hnd by (rewrite Hp, Hk; apply NoDup_fst_map_to_list).
  destruct (mb !! n) as [r|] eqn:E.
  - pose proof (Hn _ _ E) as Hnr. subst n. apply index_steps_entry; [done|].
    rewrite Hp. apply list_elem_of_fmap. exists (name r, r). split; [done|]. by apply elem_of_map_to_list.
  - apply index_steps_other. rewrite Hp, Hk. intros ([k f] & -> & Hin)%list_elem_of_fmap.
    apply elem_of_map_to_list in Hin. simpl in E. congruence.
Qed.

(** C4: two peers that send each other their full index of a folder agree
    afterwards on every valid name: the same version is stored on both sides,
    or one side records a deletion of a file the other never had.  No further
    round is needed, whatever edits were concurrent. *)
Theorem index_exchange_converges envA envB folderA folderB devA devB filesA filesB (wA wB : World DB) :
  env_rename_ok envA = true -> env_rename_ok envB = true -> w_inv wA -> w_inv wB ->
  folder_id folderA = folder_id folderB ->
  filesA ≡ₚ (map_to_list (w_files wA (folder_id folderA))).*2 ->
  filesB ≡ₚ (map_to_list (w_files wB (folder_id folderA))).*2 ->
  Forall valid_entry filesA -> Forall valid_entry filesB ->
  exists nA wA' nB wB',
    handle_index envA folderA devB (mkIndex (folder_id folderA) filesB) wA = (Ok nA, wA') /\
    handle_index envB folderB devA (mkIndex (folder_id folderA) filesA) wB = (Ok nB, wB') /\
    forall n, agree (w_files wA' (folder_id folderA) !! n) (w_files wB' (folder_id folderA) !! n).
Proof.
  intros RA RB IA IB Hfo PA PB VA VB. unfold handle_index. cbn [index_folder index_files].
  rewrite !decide_True by done.
  destruct (law_get_folder_files (w_db wA) (folder_id folderA) IA) as (la & Ela & _).
  destruct (law_get_folder_files (w_db wB) (folder_id folderB) IB) as (lb & Elb & _).
  erewrite se_bind_run; [|unfold w_get_folder_files, se_read; by rewrite Ela].
  erewrite (se_bind_run (w_get_folder_files (folder_id folderB)));
    [|unfold w_get_folder_files, se_read; by rewrite Elb].
  destruct (process_files_refines envA folderA RA filesB
              (effective_full_index (length filesB) (length la)) wA IA) as (wA' & EA & _ & FA & _).
  destruct (process_files_refines envB folderB RB filesA
              (effective_full_index (length filesA) (length lb)) wB IB) as (wB' & EB & _ & FB & _).
  eexists _, wA', _, wB'. split; [exact EA|]. split; [exact EB|]. intros n.
  rewrite <-Hfo in FB. rewrite FA, FB.
  pose proof (fun k f => law_names (w_db wA) (folder_id folderA) k f IA) as NA.
  pose proof (fun k f => law_names (w_db wB) (folder_id folderA) k f IB) as NB.
  rewrite (index_steps_view _ (w_files wB (folder_id folderA)) filesB n NB PB).
  rewrite (index_steps_view _ (w_files wA (folder_id folderA)) filesA n NA PA).
  assert (forall (m : gmap str FileInfo) fs f, fs ≡ₚ (map_to_list m).*2 -> Forall valid_entry fs ->
            m !! n = Some f -> valid_entry f) as Hval.
  { intros m fs f Hp Hv Hf. rewrite Hp, Forall_forall in Hv. apply Hv.
    apply list_elem_of_fmap. exists (n, f). split; [done|]. by apply elem_of_map_to_list. }
  destruct (w_files wA (folder_id folderA) !! n) as [a|] eqn:Ea,
    (w_files wB (folder_id folderA) !! n) as [b|] eqn:Eb.
  - apply entry_exchange_agree; [|exact (Hval _ _ _ PA VA Ea)|exact (Hval _ _ _ PB VB Eb)].
    by rewrite (NA _ _ Ea), (NB _ _ Eb).
  - pose proof (Hval _ _ _ PA VA Ea) as Hv. unfold valid_entry in Hv. unfold entry_step. rewrite Hv. cbn [negb].
    destruct (is_deleted a) eqn:Ed; [exact Ed|simpl; reflexivity].
  - pose proof (Hval _ _ _ PB VB Eb) as Hv. unfold valid_entry in Hv. unfold entry_step. rewrite Hv. cbn [negb].
    destruct (is_deleted b) eqn:Ed; [exact Ed|simpl; reflexivity].
  - done.
Qed.

(** Two entries with equal versions and different metadata: the local one is
    kept and the other one queued for download. *)
Lemma equal_version_swap env folder device x y (wx : World DB) :
  env_rename_ok env = true -> w_inv wx -> valid_entry y -> name x = name y -> version x ≡ version y ->
  metadata_differs x y = true -> is_deleted y = false ->
  w_files wx (folder_id folder) !! name y = Some x ->
  exists w', handle_index_update env folder device (mkIndexUpdate (folder_id folder) [y]) wx = (Ok [y], w') /\
    w_files w' (folder_id folder) !! name x = Some x.
Proof.
  intros Hr Hix Vy Hnx Hvx Mx Dy Hx.
  destruct (handle_index_update_run env folder Hr device (mkIndexUpdate (folder_id folder) [y]) wx Hix eq_refl)
    as (w' & E & _ & Hf). exists w'.
  assert (index_steps (w_files wx (folder_id folder)) [y] = (w_files wx (folder_id folder), [y])) as Es.
  { cbn [index_steps]. unfold index_step. unfold valid_entry in Vy. rewrite Vy, Hx. cbn [negb].
    assert (vector_compare (version x) (version y) = Equal) as ->.
    { rewrite vector_compare_dominates.
      assert (vle (version x) (version y)) as H1 by by rewrite Hvx.
      assert (vle (version y) (version x)) as H2 by by rewrite Hvx.
      apply vector_dominates_spec in H1, H2. by rewrite H1, H2. }
    by rewrite Mx, Dy. }
  cbn [update_files_list] in E, Hf. rewrite Es in E, Hf. split; [done|]. by rewrite Hf, Hnx.
Qed.

(** Equal versions with different metadata never converge: the handler calls
    it a conflict, the resolver sees none and answers [UseRemote], so each end
    keeps its own entry and queues the other's file for download. *)
Theorem equal_version_metadata_swap env folder device a b :
  env_rename_ok env = true -> valid_entry a -> valid_entry b -> name a = name b ->
  version a ≡ version b -> metadata_differs a b = true -> metadata_differs b a = true ->
  is_deleted a = false -> is_deleted b = false ->
  (forall wa : World DB, w_inv wa -> w_files wa (folder_id folder) !! name b = Some a ->
     exists w', handle_index_update env folder device (mkIndexUpdate (folder_id folder) [b]) wa = (Ok [b], w') /\
       w_files w' (folder_id folder) !! name a = Some a) /\
  (forall wb : World DB, w_inv wb -> w_files wb (folder_id folder) !! name a = Some b ->
     exists w', handle_index_update env folder device (mkIndexUpdate (folder_id folder) [a]) wb = (Ok [a], w') /\
       w_files w' (folder_id folder) !! name b = Some b).
Proof.
  intros Hr Va Vb Hn Hv M1 M2 D1 D2. split; intros wx Hix Hx.
  - by apply equal_version_swap.
  - apply equal_version_swap; [done|done|done|done|by symmetry|done|done|done].
Qed.

End Safety.

(** ** Witnesses, over the in-memory database *)

Definition demo_folder : Folder := folder_new ($"f") ($"/d").
Definition demo_device : DeviceId := mkDeviceId [].

(** A world whose folder ["f"] holds one file. *)
Definition world_with (f : FileInfo) : World MemoryDatabase :=
  mkWorld (md_update_file memory_database_new ($"f") f).2 (fun _ => None) [].

Lemma world_with_inv f : w_inv (world_with f).
Proof. apply md_update_file_inv, md_inv_new. Qed.

Lemma world_with_files f : w_files (world_with f) ($"f") = {[name f := f]}.
Proof. reflexivity. Qed.

Lemma handle_index_refines_witness :
  exists w', handle_index demo_env demo_folder demo_device (mkIndex ($"f") [demo_remote]) (world_with demo_local) =
    (Ok [], w') /\ w_files w' ($"f") !! ($"a.bin") = Some demo_remote.
Proof.
  destruct (handle_index_refines demo_env demo_folder eq_refl demo_device (mkIndex ($"f") [demo_remote])
              (world_with demo_local) (world_with_inv _) eq_refl) as (w' & E & _ & F & _).
  exists w'. split; [rewrite E; vm_compute; reflexivity|].
  change ($"f") with (folder_id demo_folder). rewrite F. vm_compute. reflexivity.
Defined.

Lemma handle_index_folder_mismatch_witness :
  handle_index demo_env demo_folder demo_device (mkIndex ($"g") []) (world_with demo_local) =
    (Err SyncIndex, world_with demo_local).
Proof.
  destruct (handle_index_folder_mismatch demo_env demo_folder demo_device (mkIndex ($"g") [])
              (mkIndexUpdate ($"g") []) (world_with demo_local)) as [E _].
  - vm_compute. congruence.
  - vm_compute. congruence.
  - exact E.
Defined.

Lemma handle_index_safe_witness :
  exists needed w', handle_index demo_env demo_folder demo_device (mkIndex ($"f") []) (world_with demo_local) =
    (Ok needed, w') /\ w_files w' ($"f") !! ($"a.bin") = Some demo_local.
Proof.
  destruct (handle_index_safe demo_env demo_folder demo_device (mkIndex ($"f") []) (world_with demo_local) ($"a.bin"))
    as (needed & w' & E & H & _).
  - reflexivity.
  - apply world_with_inv.
  - reflexivity.
  - exists needed, w'. split; [exact E|]. change ($"f") with (folder_id demo_folder).
    rewrite H; [vm_compute; reflexivity|]. apply not_elem_of_nil.
Defined.

(** An index that has a name twice: the first entry wins the conflict with the local
    version {1:2}, the second one, {1:1}, wins the conflict with the first, and the
    folder ends up with a version the local one strictly dominates. *)
Definition named_twice (v : Vector) (mtime : Z) : FileInfo :=
  mkFileInfo ($"a.bin") File 1 0 mtime 0 v 1 1 [] None None None None None None.

Example named_twice_downgrades :
  let local := named_twice (vector_with_counter vector_new 1 2) 1 in
  let first := named_twice (vector_with_counter vector_new 2 1) 2 in
  let second := named_twice (vector_with_counter vector_new 1 1) 3 in
  (index_steps {[ $"a.bin" := local ]} [first; second]).1 !! ($"a.bin") = Some second /\
  vector_compare (version second) (version local) = Less.
Proof. vm_compute. split; reflexivity. Qed.

Lemma index_exchange_converges_witness :
  exists nA wA' nB wB',
    handle_index demo_env demo_folder demo_device (mkIndex ($"f") [demo_remote]) (world_with demo_local) = (Ok nA, wA') /\
    handle_index demo_env demo_folder demo_device (mkIndex ($"f") [demo_local]) (world_with demo_remote) = (Ok nB, wB') /\
    agree (w_files wA' ($"f") !! ($"a.bin")) (w_files wB' ($"f") !! ($"a.bin")).
Proof.
  destruct (index_exchange_converges demo_env demo_env demo_folder demo_folder demo_device demo_device
              [demo_local] [demo_remote] (world_with demo_local) (world_with demo_remote))
    as (nA & wA' & nB & wB' & E1 & E2 & H).
  - reflexivity.
  - reflexivity.
  - apply world_with_inv.
  - apply world_with_inv.
  - reflexivity.
  - vm_compute. reflexivity.
  - vm_compute. reflexivity.
  - constructor; [vm_compute; reflexivity|constructor].
  - constructor; [vm_compute; reflexivity|constructor].
  - exists nA, wA', nB, wB'. split; [exact E1|]. split; [exact E2|]. exact (H ($"a.bin")).
Defined.

Definition demo_touched : FileInfo := demo_file ($"a.bin") (version demo_local) 99.

Lemma equal_version_metadata_swap_witness :
  (exists w', handle_index_update demo_env demo_folder demo_device (mkIndexUpdate ($"f") [demo_touched])
                (world_with demo_local) = (Ok [demo_touched], w')) /\
  (exists w', handle_index_update demo_env demo_folder demo_device (mkIndexUpdate ($"f") [demo_local])
                (world_with demo_touched) = (Ok [demo_local], w')).
Proof.
  destruct (equal_version_metadata_swap (DB := MemoryDatabase) demo_env demo_folder demo_device demo_local demo_touched)
    as [H1 H2]; try reflexivity.
  split.
  - destruct (H1 (world_with demo_local) (world_with_inv _)) as (w' & E & _); [vm_compute; reflexivity|].
    exists w'. exact E.
  - destruct (H2 (world_with demo_touched) (world_with_inv _)) as (w' & E & _); [vm_compute; reflexivity|].
    exists w'. exact E.
Defined.

(** Merging three indexes can keep a version that another index strictly
    supersedes: concurrent versions are decided by modification time, and a
    fold over them is not transitive. *)
Theorem merge_indexes_keeps_dominated :
  let old := demo_file ($"a") (mkVector {[1 := 1]}) 30 in
  let cur := demo_file ($"a") (mkVector {[1 := 2]}) 10 in
  let other := demo_file ($"a") (mkVector {[2 := 1]}) 20 in
  index_files (merge_indexes [mkIndex ($"f") [cur]; mkIndex ($"f") [other]; mkIndex ($"f") [old]]) = [old] /\
  vector_compare (version cur) (version old) = Greater.
Proof. vm_compute. split; reflexivity. Qed.
