(* ===== verification/IndexManager.v ===== *)
(** * Delta indexes ([crates/syncthing-sync/src/index.rs])

    The index manager of one folder over any lawful database: sequence numbers
    are allocated by the database, a peer that acknowledged a sequence number
    of the current index ID is sent only what is newer.  [IndexID::random()] is
    a parameter of the operations that call it. *)

From S2P Require Import Prelude Core Database.

Record IndexManager := mkIndexManager {
  im_folder : str;
  local_index_id : option IndexID;
  local_max_sequence : Z;
  remote_index_ids : gmap DeviceId IndexID;
  remote_max_sequences : gmap DeviceId Z;
}.

Definition set_local_index (m : IndexManager) (id : option IndexID) (max : Z) : IndexManager :=
  mkIndexManager (im_folder m) id max (remote_index_ids m) (remote_max_sequences m).

Definition register_remote_index (m : IndexManager) (device : DeviceId) (index_id : IndexID)
    (max_sequence : Z) : IndexManager :=
  mkIndexManager (im_folder m) (local_index_id m) (local_max_sequence m)
    (<[device := index_id]> (remote_index_ids m)) (<[device := max_sequence]> (remote_max_sequences m)).

Inductive EitherIndex := FullIndex (files : list FileInfo) | DeltaIndex (delta : IndexDelta).

Section Manager.
Context {DB : Type} `{LocalDatabase DB}.

Abbreviation ManagerM A := (SE (IndexManager * DB) SyncError A).

Definition db_call {A : Type} (f : DB -> Res A * DB) : ManagerM A :=
  fun '(m, db) => let '(r, db') := f db in (r, (m, db')).

Definition db_query {A : Type} (f : DB -> Res A) : ManagerM A := se_read (fun '(m, db) => f db).

Definition index_manager_new (db : DB) (folder : str) : Res IndexManager :=
  let? meta := get_folder_index_meta db folder in
  let? seq := get_sequence db folder in
  Ok (mkIndexManager folder (fst <$> meta) seq ∅ ∅).

Definition get_index_delta (m : IndexManager) (db : DB) (device : DeviceId) : option IndexDelta :=
  let+ lid := local_index_id m in
  let+ rid := remote_index_ids m !! device in
  if decide (lid = rid) then
    let remote_sequence := default 0 (remote_max_sequences m !! device) in
    match get_needed_files db (im_folder m) remote_sequence with
    | Ok files => Some (mkIndexDelta (im_folder m) lid remote_sequence files)
    | Err _ => None
    end
  else None.

Definition update_index_id (random : IndexID) : ManagerM IndexID :=
  do! se_modify (fun '(m, db) => (set_local_index m (Some random) 0, db)) in
  let! folder := se_read (fun '(m, _) => Ok (im_folder m)) in
  do! db_call (fun db => reset_sequence db folder) in
  do! db_call (fun db => update_folder_index_meta db folder random 0) in
  se_ret random.

(** [for file in files.iter_mut() { file.sequence = increment_sequence()? }] *)
Fixpoint assign_sequences (folder : str) (files : list FileInfo) : ManagerM (list FileInfo) :=
  match files with
  | [] => se_ret []
  | f :: rest =>
      let! s := db_call (fun db => increment_sequence db folder) in
      let! rest' := assign_sequences folder rest in
      se_ret (with_sequence f s :: rest')
  end.

(** [update_index_delta], and [update_index], which has the same body: the
    files with their sequence numbers. *)
Definition update_index_delta (random : IndexID) (files : list FileInfo) : ManagerM (list FileInfo) :=
  let! m := se_read (fun '(m, _) => Ok m) in
  let index_id := default random (local_index_id m) in
  let folder := im_folder m in
  do! se_modify (fun '(m, db) => (set_local_index m (Some index_id) (local_max_sequence m), db)) in
  let! files' := assign_sequences folder files in
  do! db_call (fun db => update_files db folder files') in
  let! max_sequence := db_query (fun db => get_sequence db folder) in
  do! se_modify (fun '(m, db) => (set_local_index m (local_index_id m) max_sequence, db)) in
  do! db_call (fun db => update_folder_index_meta db folder index_id max_sequence) in
  se_ret files'.

Definition update_index : IndexID -> list FileInfo -> ManagerM (list FileInfo) := update_index_delta.

Definition prepare_index_for_device (m : IndexManager) (db : DB) (device : DeviceId) : Res EitherIndex :=
  match get_index_delta m db device with
  | Some delta =>
      if decide (delta_files delta = [])
      then let? files := get_folder_files db (im_folder m) in Ok (FullIndex files)
      else Ok (DeltaIndex delta)
  | None => let? files := get_folder_files db (im_folder m) in Ok (FullIndex files)
  end.

(** A history of local updates. *)
Fixpoint update_batches (random : IndexID) (batches : list (list FileInfo)) : ManagerM unit :=
  match batches with
  | [] => se_ret tt
  | b :: rest => do! update_index_delta random b in update_batches random rest
  end.

End Manager.

(** ** Correctness of the delta mechanism *)

(** [fs] with consecutive sequence numbers after [s]. *)
Fixpoint numbered (s : Z) (fs : list FileInfo) : list FileInfo :=
  match fs with
  | [] => []
  | f :: rest => with_sequence f (s + 1) :: numbered (s + 1) rest
  end.

Definition insert_all (fs : list FileInfo) (m : gmap str FileInfo) : gmap str FileInfo :=
  fold_left (fun m f => <[name f := f]> m) fs m.

(** Every stored entry has a sequence number the counter has passed. *)
Definition seq_bounded (m : gmap str FileInfo) (s : Z) : Prop :=
  forall n f, m !! n = Some f -> name f = n /\ sequence f <= s.

(** [m] extends [m0]: entries are those of [m0] or newer than [s0]. *)
Definition newer_than (m0 : gmap str FileInfo) (s0 : Z) (m : gmap str FileInfo) : Prop :=
  forall n, m !! n = m0 !! n \/ exists f, m !! n = Some f /\ s0 < sequence f.

Lemma numbered_range s fs f :
  f ∈ numbered s fs -> s < sequence f <= s + Z.of_nat (length fs).
Proof.
  revert s. induction fs as [|x fs IH]; intros s; [by intros ?%elem_of_nil|].
  cbn [numbered length]. intros [->|Hin]%elem_of_cons; [simpl; lia|]. apply IH in Hin. lia.
Qed.

Lemma insert_all_cases fs m n :
  insert_all fs m !! n = m !! n \/ exists f, f ∈ fs /\ name f = n /\ insert_all fs m !! n = Some f.
Proof.
  revert m. induction fs as [|f fs IH]; intros m; [by left|]. unfold insert_all in *. cbn [fold_left].
  destruct (IH (<[name f := f]> m)) as [E|(g & Hg & Hn & E)].
  - destruct (decide (name f = n)) as [<-|Hne].
    + right. exists f. split; [by left|]. split; [done|]. by rewrite E, lookup_insert_eq.
    + left. by rewrite E, lookup_insert_ne.
  - right. exists g. split; [by right|]. done.
Qed.

Lemma list_find_name_Some n fs f : list_find_name n fs = Some f -> f ∈ fs /\ name f = n.
Proof.
  induction fs as [|x fs IH]; simpl; [done|]. case_decide.
  - intros [= <-]. split; [by left|done].
  - intros E. destruct (IH E). split; [by right|done].
Qed.

Lemma list_find_name_None n fs : list_find_name n fs = None -> forall f, f ∈ fs -> name f <> n.
Proof.
  induction fs as [|x fs IH]; simpl; intros E f; [by intros ?%elem_of_nil|]. case_decide; [done|].
  intros [->|Hin]%elem_of_cons; [done|]. by apply IH.
Qed.

Lemma insert_all_lookup fs m n :
  (forall f g, f ∈ fs -> g ∈ fs -> name f = name g -> f = g) ->
  insert_all fs m !! n = match list_find_name n fs with Some f => Some f | None => m !! n end.
Proof.
  revert m. induction fs as [|f fs IH]; intros m Hinj; [done|]. unfold insert_all in *. cbn [fold_left list_find_name].
  rewrite IH by (intros x y Hx Hy; apply Hinj; by right).
  destruct (list_find_name n fs) as [g|] eqn:E.
  - destruct (list_find_name_Some n fs g E) as [Hg Hn]. case_decide as Hd; [|done]. f_equal. symmetry. apply Hinj; [by left|by right|congruence].
  - case_decide as Hd; [by rewrite <-Hd, lookup_insert_eq|by rewrite lookup_insert_ne].
Qed.

(** Applying the newer entries of [m] to [m0] gives [m]. *)
Lemma delta_reconstructs m0 s0 m delta :
  seq_bounded m0 s0 -> newer_than m0 s0 m -> (forall n f, m !! n = Some f -> name f = n) ->
  delta ≡ₚ filter (fun f => s0 < sequence f) (map_to_list m).*2 ->
  insert_all delta m0 = m.
Proof.
  intros Hb Hn Hnames Hp.
  assert (forall f, f ∈ delta <-> m !! name f = Some f /\ s0 < sequence f) as Hd.
  { intros f. rewrite Hp, list_elem_of_filter, list_elem_of_fmap. split.
    - intros (Hs & [k g] & -> & Hin%elem_of_map_to_list). simpl in *. by rewrite (Hnames _ _ Hin).
    - intros [Hf Hs]. split; [done|]. exists (name f, f). split; [done|]. by apply elem_of_map_to_list. }
  apply map_eq. intros n. rewrite insert_all_lookup.
  2: { intros f g [Hf _]%Hd [Hg _]%Hd E. rewrite E in Hf. congruence. }
  destruct (list_find_name n delta) as [f|] eqn:E.
  - apply list_find_name_Some in E as [[Hf _]%Hd <-]. done.
  - destruct (Hn n) as [->|(f & Hf & Hs)]; [done|]. exfalso.
    eapply list_find_name_None; [exact E| |by apply Hnames]. apply Hd.
    by rewrite (Hnames _ _ Hf).
Qed.

Section ManagerProofs.
Context {DB : Type} `{LocalDatabaseLaws DB}.
Implicit Types (m : IndexManager) (db : DB).

Lemma assign_sequences_run folder fs m db :
  db_inv db -> 0 <= db_seq db folder -> db_seq db folder + Z.of_nat (length fs) < 2 ^ 64 ->
  exists db', assign_sequences folder fs (m, db) = (Ok (numbered (db_seq db folder) fs), (m, db')) /\
    db_inv db' /\ db_seq db' folder = db_seq db folder + Z.of_nat (length fs) /\
    (forall fo, db_files db' fo = db_files db fo) /\ (forall fo, db_meta db' fo = db_meta db fo).
Proof.
  revert db. induction fs as [|f fs IH]; intros db Hi Hpos Hlt.
  - exists db. cbn [assign_sequences length]. split; [done|]. split; [done|]. split; [lia|done].
  - cbn [length] in Hlt. destruct (law_increment_sequence db folder Hi) as (db1 & E & Hi1 & Hs & _ & Hf & Hm).
    rewrite wrap_id in E, Hs by (unfold in_u; lia).
    destruct (IH db1 Hi1 ltac:(lia) ltac:(lia)) as (db2 & E2 & Hi2 & Hs2 & Hf2 & Hm2).
    exists db2. cbn [assign_sequences numbered length].
    erewrite se_bind_run; [|unfold db_call; by rewrite E]. erewrite se_bind_run by exact E2.
    rewrite Hs. split; [done|]. split; [done|]. split; [lia|].
    split; intros fo; [by rewrite Hf2|by rewrite Hm2].
Qed.

(** One update: consecutive new sequence numbers, the files stored under them,
    counter, metadata and manager in step. *)
Lemma update_index_delta_run (random : IndexID) (fs : list FileInfo) m db :
  db_inv db -> 0 <= db_seq db (im_folder m) ->
  db_seq db (im_folder m) + Z.of_nat (length fs) < 2 ^ 64 ->
  exists m' db',
    update_index_delta random fs (m, db) = (Ok (numbered (db_seq db (im_folder m)) fs), (m', db')) /\
    db_inv db' /\ im_folder m' = im_folder m /\
    local_index_id m' = Some (default random (local_index_id m)) /\
    remote_index_ids m' = remote_index_ids m /\ remote_max_sequences m' = remote_max_sequences m /\
    db_seq db' (im_folder m) = db_seq db (im_folder m) + Z.of_nat (length fs) /\
    local_max_sequence m' = db_seq db' (im_folder m) /\
    db_meta db' (im_folder m) = Some (default random (local_index_id m), local_max_sequence m') /\
    db_files db' (im_folder m) = insert_all (numbered (db_seq db (im_folder m)) fs) (db_files db (im_folder m)).
Proof.
  intros Hi Hpos Hlt. unfold update_index_delta.
  erewrite se_bind_run by done. erewrite se_bind_run by done.
  set (m1 := set_local_index m _ _).
  destruct (assign_sequences_run (im_folder m) fs m1 db Hi Hpos Hlt) as (db1 & E1 & Hi1 & Hs1 & Hf1 & _).
  erewrite se_bind_run by exact E1.
  destruct (law_update_files db1 (im_folder m) (numbered (db_seq db (im_folder m)) fs) Hi1)
    as (db2 & E2 & Hi2 & Hf2 & _ & Hs2 & _).
  erewrite se_bind_run; [|unfold db_call; by rewrite E2].
  erewrite se_bind_run; [|unfold db_query, se_read; by rewrite (law_get_sequence db2 (im_folder m) Hi2)].
  erewrite se_bind_run by done.
  destruct (law_update_meta db2 (im_folder m) (default random (local_index_id m)) (db_seq db2 (im_folder m)) Hi2)
    as (db3 & E3 & Hi3 & Hm3 & _ & Hf3 & Hs3).
  erewrite se_bind_run; [|unfold db_call; by rewrite E3].
  eexists _, db3. split; [done|]. simpl. rewrite Hs3, Hs2, Hs1. repeat (split; [done|]).
  split; [by rewrite Hm3, Hs2, Hs1|]. rewrite Hf3, Hf2. unfold insert_all. by rewrite Hf1.
Qed.

Definition batch_count (batches : list (list FileInfo)) : Z := Z.of_nat (length (concat batches)).

(** Running a history keeps every entry either as it was at the start or
    newer than the starting counter. *)
Lemma update_batches_run (random : IndexID) (batches : list (list FileInfo)) m db (m0 : gmap str FileInfo) s0 :
  db_inv db -> 0 <= s0 <= db_seq db (im_folder m) ->
  db_seq db (im_folder m) + batch_count batches < 2 ^ 64 ->
  newer_than m0 s0 (db_files db (im_folder m)) ->
  seq_bounded (db_files db (im_folder m)) (db_seq db (im_folder m)) ->
  local_index_id m <> None ->
  exists m' db', update_batches random batches (m, db) = (Ok tt, (m', db')) /\
    db_inv db' /\ im_folder m' = im_folder m /\ local_index_id m' = local_index_id m /\
    remote_index_ids m' = remote_index_ids m /\ remote_max_sequences m' = remote_max_sequences m /\
    newer_than m0 s0 (db_files db' (im_folder m)) /\
    seq_bounded (db_files db' (im_folder m)) (db_seq db' (im_folder m)) /\
    db_seq db (im_folder m) <= db_seq db' (im_folder m).
Proof.
  revert m db. induction batches as [|b batches IH]; intros m db Hi Hs Hlt Hn Hb Hid.
  - exists m, db. repeat (split; [done|]). lia.
  - unfold batch_count in Hlt. cbn [concat] in Hlt. rewrite length_app in Hlt.
    destruct (update_index_delta_run random b m db Hi ltac:(lia) ltac:(lia))
      as (m1 & db1 & E1 & Hi1 & Hfo & Hid1 & R1 & R2 & Hs1 & _ & _ & Hf1).
    assert (local_index_id m1 = local_index_id m) as Hid2 by (rewrite Hid1; by destruct (local_index_id m)).
    destruct (IH m1 db1) as (m' & db' & E2 & H'); rewrite ?Hfo; [done|lia|unfold batch_count; lia| | |congruence|].
    + intros n. rewrite Hf1.
      destruct (insert_all_cases (numbered (db_seq db (im_folder m)) b) (db_files db (im_folder m)) n)
        as [->|(f & Hin & _ & ->)]; [apply Hn|].
      right. exists f. split; [done|]. apply numbered_range in Hin. lia.
    + intros n f. rewrite Hf1, Hs1.
      destruct (insert_all_cases (numbered (db_seq db (im_folder m)) b) (db_files db (im_folder m)) n)
        as [->|(g & Hin & Hng & ->)].
      * intros Hf. destruct (Hb _ _ Hf). split; [done|]. lia.
      * intros [= <-]. split; [done|]. apply numbered_range in Hin. lia.
    + exists m', db'. cbn [update_batches]. erewrite se_bind_run by exact E1. split; [done|].
      rewrite Hfo in H'. destruct H' as (? & ? & ? & ? & ? & ? & ? & ?).
      repeat (split; [done || congruence|]). lia.
Qed.

(** The delta index is complete and minimal.  Let a peer have acknowledged
    the folder's current index ID and sequence number, and hold the files
    recorded at that point.  After any history of local updates (counter below
    2^64) the delta prepared for the peer consists of files newer than what it
    acknowledged, and storing them over what the peer holds gives exactly the
    current files. *)
Theorem index_delta_complete (random : IndexID) (batches : list (list FileInfo)) m db device id :
  db_inv db -> 0 <= db_seq db (im_folder m) ->
  db_seq db (im_folder m) + batch_count batches < 2 ^ 64 ->
  seq_bounded (db_files db (im_folder m)) (db_seq db (im_folder m)) ->
  local_index_id m = Some id ->
  exists m' db' delta,
    update_batches random batches (register_remote_index m device id (db_seq db (im_folder m)), db) =
      (Ok tt, (m', db')) /\
    get_index_delta m' db' device = Some delta /\
    delta_index_id delta = id /\ delta_start_sequence delta = db_seq db (im_folder m) /\
    Forall (fun f => db_seq db (im_folder m) < sequence f <= db_seq db' (im_folder m)) (delta_files delta) /\
    insert_all (delta_files delta) (db_files db (im_folder m)) = db_files db' (im_folder m).
Proof.
  intros Hi Hpos Hlt Hb Hid.
  destruct (update_batches_run random batches (register_remote_index m device id (db_seq db (im_folder m))) db
              (db_files db (im_folder m)) (db_seq db (im_folder m)))
    as (m' & db' & E & Hi' & Hfo & Hid' & R1 & R2 & Hn & Hb' & Hle); simpl;
    [done|lia|done|by left|done|by rewrite Hid|]. simpl in *.
  destruct (law_get_needed db' (im_folder m) (db_seq db (im_folder m)) Hi') as (fs & Eg & Hp).
  exists m', db', (mkIndexDelta (im_folder m) id (db_seq db (im_folder m)) fs).
  split; [done|]. split.
  { unfold get_index_delta. rewrite Hid', Hid, R1, R2, !lookup_insert_eq. simpl. rewrite decide_True by done.
    simpl. rewrite Hfo, Eg. done. }
  split; [done|]. split; [done|]. simpl. split.
  - apply Forall_forall. intros f. rewrite Hp, list_elem_of_filter, list_elem_of_fmap.
    intros (Hs & [k g] & -> & Hin%elem_of_map_to_list). simpl in *. destruct (Hb' _ _ Hin). lia.
  - eapply delta_reconstructs; [done|done| |done]. intros n f Hf. by eapply law_names.
Qed.

(** After the index ID is rotated no device gets a delta: every peer that
    acknowledged another ID is sent the full file list. *)
Theorem rotated_index_sends_full (random : IndexID) m db device m' db' :
  db_inv db -> remote_index_ids m !! device <> Some random ->
  update_index_id random (m, db) = (Ok random, (m', db')) ->
  exists files, prepare_index_for_device m' db' device = Ok (FullIndex files) /\
    files ≡ₚ (map_to_list (db_files db' (im_folder m'))).*2 /\
    db_seq db' (im_folder m') = 0 /\ local_max_sequence m' = 0.
Proof.
  intros Hi Hne E. unfold update_index_id in E. erewrite se_bind_run in E by done.
  erewrite se_bind_run in E by done.
  destruct (law_reset_sequence db (im_folder m) Hi) as (db1 & E1 & Hi1 & Hs1 & _).
  erewrite se_bind_run in E; [|unfold db_call; simpl; by rewrite E1].
  destruct (law_update_meta db1 (im_folder m) random 0 Hi1) as (db2 & E2 & Hi2 & _ & _ & _ & Hs2).
  erewrite se_bind_run in E; [|unfold db_call; simpl; by rewrite E2].
  injection E as <- <-. destruct (law_get_folder_files db2 (im_folder m) Hi2) as (fs & Ef & Hp).
  exists fs. split; [|split; [done|split; [by simpl; rewrite Hs2|done]]].
  unfold prepare_index_for_device, get_index_delta. simpl.
  destruct (remote_index_ids m !! device) as [rid|] eqn:Er; simpl.
  - rewrite decide_False by congruence. by rewrite Ef.
  - by rewrite Ef.
Qed.

End ManagerProofs.

Definition demo_id : IndexID := index_id_from_u64 7.

Definition demo_manager : IndexManager := mkIndexManager ($"f") (Some demo_id) 0 ∅ ∅.

Lemma index_delta_complete_witness :
  exists m' db' delta,
    update_batches demo_id [[file_info_new ($"a")]; [file_info_new ($"b"); file_info_new ($"a")]]
      (register_remote_index demo_manager (mkDeviceId []) demo_id 0, memory_database_new) = (Ok tt, (m', db')) /\
    get_index_delta m' db' (mkDeviceId []) = Some delta /\
    insert_all (delta_files delta) ∅ = db_files db' ($"f").
Proof.
  destruct (index_delta_complete demo_id [[file_info_new ($"a")]; [file_info_new ($"b"); file_info_new ($"a")]]
              demo_manager memory_database_new (mkDeviceId []) demo_id)
    as (m' & db' & delta & E & G & _ & _ & _ & I).
  - apply md_inv_new.
  - vm_compute. congruence.
  - vm_compute. reflexivity.
  - intros n f E. vm_compute in E. discriminate E.
  - reflexivity.
  - exists m', db', delta. split; [exact E|]. split; [exact G|exact I].
Defined.

Lemma rotated_index_sends_full_witness :
  exists files m' db',
    prepare_index_for_device m' db' (mkDeviceId []) = Ok (FullIndex files) /\ local_max_sequence m' = 0.
Proof.
  set (r := update_index_id demo_id (demo_manager, memory_database_new)).
  destruct (rotated_index_sends_full demo_id demo_manager memory_database_new (mkDeviceId []) r.2.1 r.2.2)
    as (files & P & _ & _ & L).
  - apply md_inv_new.
  - vm_compute. congruence.
  - vm_compute. reflexivity.
  - exists files, r.2.1, r.2.2. split; [exact P|exact L].
Defined.
