(* ===== verification/BlockCache.v ===== *)
(** * The block store and its cache ([crates/syncthing-db/src/block_cache])

    [LruCache] bounds the cached bytes on top of the [lru] crate, and
    [CachedBlockStore] combines it with a key-value store.  Both external
    components are interfaces with the laws their documentation states
    ([LruCrate], [KeyValueStore]); the proofs are against the interfaces, and
    executable instances show that the laws can hold.  The last part models
    concurrent callers: the locks are held per access, so operations of
    different callers interleave. *)

From S2P Require Import Prelude Core.

Abbreviation BlockHash := (list Z).
Abbreviation Bytes := (list Z).

(** ** The [lru] crate: entries from the most to the least recently used *)

Class LruCrate (T : Type) := {
  lru_new : nat -> T;
  lru_peek : T -> BlockHash -> option Bytes;
  lru_get : T -> BlockHash -> option Bytes * T;
  lru_pop : T -> BlockHash -> option Bytes * T;
  lru_pop_lru : T -> option (BlockHash * Bytes) * T;
  lru_put : T -> BlockHash -> Bytes -> T;
  lru_contains : T -> BlockHash -> bool;
  lru_is_empty : T -> bool;
  lru_clear : T -> T;
}.

Fixpoint assoc_find (h : BlockHash) (l : list (BlockHash * Bytes)) : option Bytes :=
  match l with
  | [] => None
  | (k, v) :: l' => if decide (k = h) then Some v else assoc_find h l'
  end.

Definition assoc_remove (h : BlockHash) (l : list (BlockHash * Bytes)) : list (BlockHash * Bytes) :=
  filter (fun p => p.1 <> h) l.

Class LruCrateLaws (T : Type) `{LruCrate T} := {
  lru_entries : T -> list (BlockHash * Bytes);
  lru_cap : T -> nat;
  lru_new_spec : forall n, lru_entries (lru_new n) = [] /\ lru_cap (lru_new n) = n;
  lru_peek_spec : forall c h, lru_peek c h = assoc_find h (lru_entries c);
  lru_get_spec : forall c h, (lru_get c h).1 = assoc_find h (lru_entries c) /\
    lru_cap (lru_get c h).2 = lru_cap c /\
    lru_entries (lru_get c h).2 =
      match assoc_find h (lru_entries c) with
      | Some d => (h, d) :: assoc_remove h (lru_entries c)
      | None => lru_entries c
      end;
  lru_pop_spec : forall c h, (lru_pop c h).1 = assoc_find h (lru_entries c) /\
    lru_cap (lru_pop c h).2 = lru_cap c /\
    lru_entries (lru_pop c h).2 = assoc_remove h (lru_entries c);
  lru_pop_lru_spec : forall c, (lru_pop_lru c).1 = last (lru_entries c) /\
    lru_cap (lru_pop_lru c).2 = lru_cap c /\
    lru_entries (lru_pop_lru c).2 = take (length (lru_entries c) - 1) (lru_entries c);
  lru_put_spec : forall c h d, lru_cap (lru_put c h d) = lru_cap c /\
    lru_entries (lru_put c h d) = take (lru_cap c) ((h, d) :: assoc_remove h (lru_entries c));
  lru_contains_spec : forall c h, lru_contains c h = bool_decide (is_Some (assoc_find h (lru_entries c)));
  lru_is_empty_spec : forall c, lru_is_empty c = bool_decide (lru_entries c = []);
  lru_clear_spec : forall c, lru_entries (lru_clear c) = [] /\ lru_cap (lru_clear c) = lru_cap c;
}.

(** ** [LruCache] *)

Record LruCache (T : Type) := mkLruCache {
  entries : T;
  max_size : Z;
  current_size : Z;
}.
Arguments mkLruCache {T}.
Arguments entries {T}.
Arguments max_size {T}.
Arguments current_size {T}.

Definition data_len (d : Bytes) : Z := Z.of_nat (length d).

Section Cache.
Context {T : Type} `{LruCrate T}.

Definition cache_new (max : Z) : LruCache T := mkLruCache (lru_new (Z.to_nat (max `max` 1))) max 0.

Definition cache_peek (c : LruCache T) (h : BlockHash) : option Bytes := lru_peek (entries c) h.

Definition cache_touch (c : LruCache T) (h : BlockHash) : bool * LruCache T :=
  let '(r, e) := lru_get (entries c) h in
  (bool_decide (is_Some r), mkLruCache e (max_size c) (current_size c)).

Definition cache_remove (c : LruCache T) (h : BlockHash) : LruCache T :=
  let '(r, e) := lru_pop (entries c) h in
  mkLruCache e (max_size c)
    match r with
    | Some d => wrap 64 (current_size c - data_len d)
    | None => current_size c
    end.

(** [while current_size + data_size > max_size && !is_empty() { pop_lru() }] *)
Fixpoint evict_loop (fuel : nat) (c : LruCache T) (data_size : Z) (evicted : Z) : LruCache T * Z :=
  if (max_size c <? wrap 64 (current_size c + data_size)) && negb (lru_is_empty (entries c)) then
    match fuel with
    | O => (c, evicted)
    | S fuel' =>
        match lru_pop_lru (entries c) with
        | (Some (_, old_data), e) =>
            evict_loop fuel' (mkLruCache e (max_size c) (wrap 64 (current_size c - data_len old_data)))
              data_size (evicted + 1)
        | (None, e) => (mkLruCache e (max_size c) (current_size c), evicted)
        end
    end
  else (c, evicted).

(** [put]: the number of evicted entries; [fuel] bounds the eviction loop. *)
Definition cache_put (fuel : nat) (c : LruCache T) (h : BlockHash) (data : Bytes) : Z * LruCache T :=
  let data_size := data_len data in
  let c1 := cache_remove c h in
  let '(c2, evicted) := evict_loop fuel c1 data_size 0 in
  if data_size <=? max_size c2
  then (evicted, mkLruCache (lru_put (entries c2) h data) (max_size c2) (wrap 64 (current_size c2 + data_size)))
  else (evicted, c2).

Definition cache_contains (c : LruCache T) (h : BlockHash) : bool := lru_contains (entries c) h.

Definition cache_clear (c : LruCache T) : LruCache T := mkLruCache (lru_clear (entries c)) (max_size c) 0.

End Cache.

(** ** The key-value store behind it *)

Inductive StorageError := StorageFailure | HashMismatchError.

Class KeyValueStore (KV : Type) := {
  kv_get : KV -> list Z -> result StorageError (option Bytes);
  kv_put : KV -> list Z -> Bytes -> result StorageError unit * KV;
  kv_contains : KV -> list Z -> result StorageError bool;
  kv_delete : KV -> list Z -> result StorageError unit * KV;
}.

(** A failing call reports it and changes nothing. *)
Class KeyValueLaws (KV : Type) `{KeyValueStore KV} := {
  kv_map : KV -> gmap (list Z) Bytes;
  kv_get_spec : forall s k r, kv_get s k = Ok r -> r = kv_map s !! k;
  kv_contains_spec : forall s k b, kv_contains s k = Ok b -> b = bool_decide (is_Some (kv_map s !! k));
  kv_put_spec : forall s k d, kv_map (kv_put s k d).2 =
    match (kv_put s k d).1 with Ok _ => <[k := d]> (kv_map s) | Err _ => kv_map s end;
  kv_delete_spec : forall s k, kv_map (kv_delete s k).2 =
    match (kv_delete s k).1 with Ok _ => delete k (kv_map s) | Err _ => kv_map s end;
}.

Record CacheStats := mkCacheStats { hits : Z; misses : Z; evictions : Z }.

(** ["block:"] *)
Definition BLOCK_KEY_PREFIX : list Z := [98; 108; 111; 99; 107; 58].

Definition make_block_key (h : BlockHash) : list Z := BLOCK_KEY_PREFIX ++ h.

Record CachedBlockStore (KV T : Type) := mkCachedBlockStore {
  bs_store : KV;
  bs_cache : LruCache T;
  bs_stats : CacheStats;
}.
Arguments mkCachedBlockStore {KV T}.
Arguments bs_store {KV T}.
Arguments bs_cache {KV T}.
Arguments bs_stats {KV T}.

Section BlockStore.
Context {KV T : Type} `{KeyValueStore KV} `{LruCrate T}.
Context (sha256 : Bytes -> BlockHash).
Abbreviation Store := (CachedBlockStore KV T).

(** Enough rounds for the eviction loop: the number of entries is bounded by
    the capacity. *)
Definition put_fuel (s : Store) : nat := Z.to_nat (max_size (bs_cache s) `max` 1).

(** Inserting into the cache and counting the evictions. *)
Definition cache_fill (s : Store) (h : BlockHash) (data : Bytes) : Store :=
  let '(evicted, c) := cache_put (put_fuel s) (bs_cache s) h data in
  mkCachedBlockStore (bs_store s) c
    (mkCacheStats (hits (bs_stats s)) (misses (bs_stats s)) (wrap 64 (evictions (bs_stats s) + evicted))).

Definition set_store (s : Store) (kv : KV) : Store := mkCachedBlockStore kv (bs_cache s) (bs_stats s).

Definition store_put (s : Store) (h : BlockHash) (data : Bytes) : result StorageError unit * Store :=
  if decide (sha256 data = h) then
    let '(r, kv) := kv_put (bs_store s) (make_block_key h) data in
    match r with
    | Ok _ => (Ok tt, cache_fill (set_store s kv) h data)
    | Err e => (Err e, set_store s kv)
    end
  else (Err HashMismatchError, s).

Definition store_get (s : Store) (h : BlockHash) : result StorageError (option Bytes) * Store :=
  match cache_peek (bs_cache s) h with
  | Some data =>
      let '(_, c) := cache_touch (bs_cache s) h in
      (Ok (Some data), mkCachedBlockStore (bs_store s) c
         (mkCacheStats (wrap 64 (hits (bs_stats s) + 1)) (misses (bs_stats s)) (evictions (bs_stats s))))
  | None =>
      let s1 := mkCachedBlockStore (bs_store s) (bs_cache s)
         (mkCacheStats (hits (bs_stats s)) (wrap 64 (misses (bs_stats s) + 1)) (evictions (bs_stats s))) in
      match kv_get (bs_store s1) (make_block_key h) with
      | Ok (Some data) => (Ok (Some data), cache_fill s1 h data)
      | Ok None => (Ok None, s1)
      | Err e => (Err e, s1)
      end
  end.

Definition store_has (s : Store) (h : BlockHash) : result StorageError bool :=
  if cache_contains (bs_cache s) h then Ok true else kv_contains (bs_store s) (make_block_key h).

Definition store_delete (s : Store) (h : BlockHash) : result StorageError unit * Store :=
  let '(r, kv) := kv_delete (bs_store s) (make_block_key h) in
  match r with
  | Ok _ => (Ok tt, mkCachedBlockStore kv (cache_remove (bs_cache s) h) (bs_stats s))
  | Err e => (Err e, set_store s kv)
  end.

Fixpoint store_prefetch (s : Store) (hashes : list BlockHash) : result StorageError unit * Store :=
  match hashes with
  | [] => (Ok tt, s)
  | h :: rest =>
      match kv_get (bs_store s) (make_block_key h) with
      | Ok (Some data) =>
          store_prefetch (if cache_contains (bs_cache s) h then s else cache_fill s h data) rest
      | Ok None => store_prefetch s rest
      | Err e => (Err e, s)
      end
  end.

Definition store_clear_cache (s : Store) : Store :=
  mkCachedBlockStore (bs_store s) (cache_clear (bs_cache s)) (bs_stats s).

End BlockStore.

(** ** The size invariant of the cache *)

Definition total (l : list (BlockHash * Bytes)) : Z := foldr (fun p acc => data_len p.2 + acc) 0 l.

Lemma total_nonneg l : 0 <= total l.
Proof. induction l as [|p l IH]; simpl; [lia|]. unfold data_len. lia. Qed.

Lemma total_app l1 l2 : total (l1 ++ l2) = total l1 + total l2.
Proof. induction l1 as [|p l1 IH]; simpl; [lia|]. rewrite IH. lia. Qed.

Lemma total_length l : Forall (fun p => p.2 <> []) l -> Z.of_nat (length l) <= total l.
Proof.
  induction 1 as [|[k d] l Hd _ IH]; simpl; [lia|]. simpl in Hd. unfold data_len.
  destruct d; [done|]. simpl length. lia.
Qed.

Lemma assoc_find_elem h d l : assoc_find h l = Some d -> (h, d) ∈ l.
Proof.
  induction l as [|[k v] l IH]; simpl; [done|]. case_decide.
  - intros [= ->]. subst. by left.
  - intros E. right. auto.
Qed.

Lemma assoc_find_None h l : assoc_find h l = None <-> h ∉ l.*1.
Proof.
  induction l as [|[k v] l IH]; simpl; [split; [intros _; apply not_elem_of_nil|done]|].
  case_decide as E; subst.
  - split; [done|]. intros Hn. exfalso. apply Hn. by left.
  - rewrite IH, not_elem_of_cons. naive_solver.
Qed.

Lemma assoc_find_NoDup h d l : NoDup l.*1 -> (h, d) ∈ l -> assoc_find h l = Some d.
Proof.
  induction l as [|[k v] l IH]; simpl; intros Hn Hin; [by apply elem_of_nil in Hin|].
  inversion Hn as [|? ? Hk Hn']; subst. apply elem_of_cons in Hin as [[= -> ->]|Hin]; [by rewrite decide_True|].
  rewrite decide_False; [by apply IH|]. intros ->. apply Hk. apply list_elem_of_fmap. by exists (h, d).
Qed.

Lemma assoc_remove_notin h l : h ∉ l.*1 -> assoc_remove h l = l.
Proof.
  unfold assoc_remove. induction l as [|p l IH]; [done|]. cbn [fmap list_fmap].
  intros [H1 H2]%not_elem_of_cons. rewrite filter_cons_True by congruence. by rewrite IH.
Qed.

Lemma total_remove h l :
  NoDup l.*1 ->
  total (assoc_remove h l) = total l - match assoc_find h l with Some d => data_len d | None => 0 end.
Proof.
  induction l as [|[k v] l IH]; [simpl; lia|]. cbn [fmap list_fmap]. intros Hn.
  inversion Hn as [|? ? Hk Hn']; subst. unfold assoc_remove in *. cbn [assoc_find]. case_decide as E.
  - subst k. rewrite filter_cons_False by (simpl; congruence).
    pose proof (assoc_remove_notin h l Hk) as Hr. unfold assoc_remove in Hr. rewrite Hr. simpl. lia.
  - rewrite filter_cons_True by done. simpl. rewrite IH by done. lia.
Qed.

Lemma NoDup_remove h l : NoDup l.*1 -> NoDup (assoc_remove h l).*1 /\ h ∉ (assoc_remove h l).*1.
Proof.
  intros Hn. unfold assoc_remove. split.
  - induction l as [|[k v] l IH]; [constructor|]. cbn [fmap list_fmap] in Hn.
    inversion Hn as [|? ? Hk Hn']; subst. destruct (decide (k = h)) as [->|Hne].
    + rewrite filter_cons_False by (simpl; congruence). by apply IH.
    + rewrite filter_cons_True by done. cbn [fmap list_fmap]. constructor; [|by apply IH].
      intros (p & E & [_ Hin]%list_elem_of_filter)%list_elem_of_fmap. apply Hk.
      apply list_elem_of_fmap. by exists p.
  - intros (p & E & [Hne _]%list_elem_of_filter)%list_elem_of_fmap. by apply Hne.
Qed.

Lemma elem_of_take {A : Type} n (l : list A) x : x ∈ take n l -> x ∈ l.
Proof. rewrite <-(take_drop n l) at 2. set_solver. Qed.

Lemma NoDup_take_fst n (l : list (BlockHash * Bytes)) : NoDup l.*1 -> NoDup (take n l).*1.
Proof.
  intros Hn. rewrite <-(take_drop n l), fmap_app in Hn. by apply NoDup_app in Hn as [? _].
Qed.

Lemma last_take {A : Type} (l : list A) x : last l = Some x -> take (length l - 1) l ++ [x] = l.
Proof.
  intros E. destruct l as [|y l] using rev_ind; [done|]. rewrite last_snoc in E. simplify_eq.
  rewrite length_app. simpl. replace (length l + 1 - 1)%nat with (length l) by lia.
  by rewrite take_app_length.
Qed.

Section CacheProofs.
Context {T : Type} `{LruCrateLaws T}.
Implicit Types c : LruCache T.

Abbreviation cached c := (lru_entries (entries c)).

(** [current_size] is the number of cached bytes, within the limit; blocks are
    not empty, so the crate's own entry limit is never reached. *)
Definition cache_inv c : Prop :=
  NoDup (cached c).*1 /\ Forall (fun p => p.2 <> []) (cached c) /\
  current_size c = total (cached c) /\ current_size c <= max_size c < 2 ^ 63 /\
  lru_cap (entries c) = Z.to_nat (max_size c `max` 1).

Lemma cache_inv_new max : 0 <= max < 2 ^ 63 -> cache_inv (cache_new max).
Proof.
  intros Hm. destruct (lru_new_spec (Z.to_nat (max `max` 1))) as [He Hc].
  unfold cache_inv, cache_new. cbn [entries current_size max_size]. rewrite He.
  split; [constructor|]. split; [constructor|]. split; [done|]. split; [lia|done].
Qed.

Lemma cache_remove_spec c h :
  cache_inv c -> cache_inv (cache_remove c h) /\ max_size (cache_remove c h) = max_size c /\
    cached (cache_remove c h) = assoc_remove h (cached c).
Proof.
  intros (Hn & Hf & Hs & Hm & Hc). unfold cache_remove.
  destruct (lru_pop_spec (entries c) h) as (E1 & E2 & E3). destruct (lru_pop (entries c) h) as [r e].
  simpl in *. subst r. unfold cache_inv. simpl. rewrite E3, E2.
  destruct (NoDup_remove h (cached c) Hn) as [Hn' _]. pose proof (total_remove h (cached c) Hn) as Ht.
  pose proof (total_nonneg (assoc_remove h (cached c))). pose proof (total_nonneg (cached c)).
  assert (match assoc_find h (cached c) with
          | Some d => wrap 64 (current_size c - data_len d)
          | None => current_size c
          end = total (assoc_remove h (cached c))) as ->.
  { revert Ht. destruct (assoc_find h (cached c)); intros Ht; [|lia]. rewrite Ht, Hs. apply wrap_id. unfold in_u, data_len in *. lia. }
  assert (total (assoc_remove h (cached c)) <= total (cached c)) as Hle.
  { rewrite Ht. destruct (assoc_find _ _); unfold data_len; lia. }
  split; [|done]. split; [done|]. split; [|split; [done|split; [lia|done]]].
  apply Forall_forall. intros p [_ Hp]%list_elem_of_filter. by eapply Forall_forall in Hf.
Qed.

(** The eviction loop stops, drops least recently used entries only, and
    leaves room unless nothing is cached. *)
Lemma evict_loop_spec fuel c ds ev :
  cache_inv c -> 0 <= ds < 2 ^ 63 -> (length (cached c) <= fuel)%nat ->
  exists c' k, evict_loop fuel c ds ev = (c', ev + Z.of_nat k) /\ cache_inv c' /\
    max_size c' = max_size c /\ (k <= length (cached c))%nat /\
    cached c' = take (length (cached c) - k) (cached c) /\
    (current_size c' + ds <= max_size c' \/ cached c' = []).
Proof.
  revert c ev. induction fuel as [|fuel IH]; intros c ev Hi Hds Hl.
  - exists c, O. assert (cached c = []) as E by (by apply nil_length_inv; lia). unfold evict_loop.
    rewrite lru_is_empty_spec, bool_decide_eq_true_2, andb_false_r by done.
    rewrite E. split; [f_equal; lia|]. repeat (split; [done || lia|]). by right.
  - cbn [evict_loop]. pose proof Hi as (Hn & Hf & Hs & Hm & Hc). pose proof (total_nonneg (cached c)).
    rewrite lru_is_empty_spec, (wrap_id 64 (current_size c + ds)) by (unfold in_u; lia).
    destruct (Z.ltb_spec (max_size c) (current_size c + ds)) as [Hlt|Hge]; cbn [andb].
    2: { exists c, O. rewrite Nat.sub_0_r, firstn_all. split; [f_equal; lia|]. repeat (split; [done || lia|]). left. lia. }
    destruct (bool_decide_reflect (cached c = [])) as [E|E]; cbn [negb].
    { exists c, O. rewrite Nat.sub_0_r, firstn_all. split; [f_equal; lia|]. repeat (split; [done || lia|]). by right. }
    destruct (lru_pop_lru_spec (entries c)) as (P1 & P2 & P3).
    destruct (lru_pop_lru (entries c)) as [r e]. simpl in P1, P2, P3.
    destruct (last (cached c)) as [[k d]|] eqn:El; [|by apply last_None in El]. subst r.
    pose proof (last_take _ _ El) as Hlt'. set (l' := take (length (cached c) - 1) (cached c)) in *.
    assert (total (cached c) = total l' + data_len d) as Ht.
    { rewrite <-Hlt', total_app. simpl. lia. }
    pose proof (total_nonneg l'). assert (0 <= data_len d) by (unfold data_len; lia).
    set (c1 := mkLruCache e (max_size c) (wrap 64 (current_size c - data_len d))).
    assert (cache_inv c1) as Hi1.
    { unfold cache_inv, c1. simpl. rewrite P3, P2. rewrite wrap_id by (unfold in_u; lia).
      split; [by apply NoDup_take_fst|]. split; [by apply Forall_take|]. split; [lia|].
      split; [lia|done]. }
    assert (length l' = (length (cached c) - 1)%nat) as Hll by (subst l'; rewrite length_take; lia).
    destruct (IH c1 (ev + 1) Hi1 Hds) as (c' & k' & E' & Hi' & Hm' & Hk & Ht' & Hg).
    { simpl. rewrite P3, Hll. lia. }
    simpl in Hk, Ht'. rewrite P3 in Hk, Ht'. exists c', (S k'). split.
    { rewrite E'. f_equal. lia. }
    split; [done|]. split; [done|]. split; [destruct (cached c); [done|simpl in *; lia]|].
    split; [|done]. rewrite Ht', Hll. subst l'. rewrite take_take. f_equal. lia.
Qed.

(** What a cache may hold after an insertion: the new block, and entries it
    held before under other hashes. *)
Lemma cache_put_spec fuel c h d :
  cache_inv c -> d <> [] -> data_len d < 2 ^ 63 -> (length (cached c) <= fuel)%nat ->
  cache_inv (cache_put fuel c h d).2 /\ max_size (cache_put fuel c h d).2 = max_size c /\
  (forall k v, (k, v) ∈ cached (cache_put fuel c h d).2 -> (k = h /\ v = d) \/ (k <> h /\ (k, v) ∈ cached c)) /\
  (data_len d <= max_size c -> assoc_find h (cached (cache_put fuel c h d).2) = Some d).
Proof.
  intros Hi Hd Hd63 Hl. unfold cache_put. assert (0 < data_len d) as Hd0.
  { unfold data_len. destruct d; [done|]. simpl. lia. }
  destruct (cache_remove_spec c h Hi) as (Hi1 & Hm1 & Ec1).
  destruct (NoDup_remove h (cached c) (proj1 Hi)) as [_ Hnotin].
  assert (length (assoc_remove h (cached c)) <= length (cached c))%nat as Hlen by apply length_filter.
  destruct (evict_loop_spec fuel (cache_remove c h) (data_len d) 0 Hi1 ltac:(lia)) as (c2 & k & E & Hi2 & Hm2 & _ & Ec2 & Hg).
  { rewrite Ec1. lia. }
  rewrite E. rewrite Ec1 in Ec2. set (l2 := take _ _) in Ec2.
  assert (forall k v, (k, v) ∈ l2 -> k <> h /\ (k, v) ∈ cached c) as Hsub.
  { intros k' v' Hin%elem_of_take. apply list_elem_of_filter in Hin as [? ?]. done. }
  assert (h ∉ l2.*1) as Hh.
  { intros ([k' v'] & -> & Hin)%list_elem_of_fmap. by apply Hsub in Hin as [? _]. }
  rewrite Hm2, Hm1. destruct (Z.leb_spec (data_len d) (max_size c)) as [Hfit|Hbig]; cbn [snd entries max_size].
  - destruct Hi2 as (Hn & Hf & Hs & Hm & Hc). rewrite Ec2 in Hn, Hf, Hs. pose proof (total_nonneg l2).
    destruct (lru_put_spec (entries c2) h d) as [Pc Pe].
    assert (total l2 + data_len d <= max_size c) as Hroom.
    { destruct Hg as [Hg|Hg]; [lia|]. rewrite Ec2 in Hg. rewrite Hg. simpl. lia. }
    assert (Forall (fun p => p.2 <> []) ((h, d) :: l2)) as Hf' by (constructor; done).
    assert (lru_entries (lru_put (entries c2) h d) = (h, d) :: l2) as Ee.
    { rewrite Pe, Ec2, assoc_remove_notin by done. apply take_ge.
      apply total_length in Hf'. simpl in Hf'. simpl. rewrite Hc. lia. }
    split; [|split; [done|]].
    + unfold cache_inv. cbn [entries max_size current_size]. rewrite Ee, Pc, wrap_id by (unfold in_u; lia).
      split; [simpl; by constructor|]. split; [done|]. split; [simpl; lia|]. split; [lia|]. rewrite Hc. f_equal. lia.
    + cbn [entries]. rewrite Ee. split.
      * intros k' v' [[= -> ->]|Hin]%elem_of_cons; [by left|]. right. by apply Hsub.
      * intros _. simpl. by rewrite decide_True.
  - split; [done|]. split; [lia|]. split; [|lia]. rewrite Ec2. intros k' v' Hin. right. by apply Hsub.
Qed.

Lemma cache_touch_spec c h :
  cache_inv c -> cache_inv (cache_touch c h).2 /\ max_size (cache_touch c h).2 = max_size c /\
  (forall k v, (k, v) ∈ cached (cache_touch c h).2 <-> (k, v) ∈ cached c).
Proof.
  intros (Hn & Hf & Hs & Hm & Hc). unfold cache_touch.
  destruct (lru_get_spec (entries c) h) as (E1 & E2 & E3). destruct (lru_get (entries c) h) as [r e].
  simpl in *. unfold cache_inv. simpl. rewrite E3, E2. destruct (assoc_find h (cached c)) as [d|] eqn:Ed; [|done].
  destruct (NoDup_remove h (cached c) Hn) as [Hn' Hh]. pose proof (total_remove h (cached c) Hn) as Ht. rewrite Ed in Ht.
  pose proof (assoc_find_elem _ _ _ Ed) as Hin.
  split; [|split; [done|]].
  - split; [simpl; by constructor|]. split.
    { constructor; [by eapply (Forall_forall _ (cached c)) in Hf|]. apply Forall_forall.
      intros p [_ Hp]%list_elem_of_filter. by eapply Forall_forall in Hf. }
    split; [simpl; lia|]. done.
  - intros k v. rewrite elem_of_cons. unfold assoc_remove. rewrite list_elem_of_filter. simpl. split.
    + intros [[= -> ->]|[_ ?]]; done.
    + intros Hkv. destruct (decide (k = h)) as [->|]; [|by right]. left. f_equal.
      apply (assoc_find_NoDup h v) in Hkv; [|done]. congruence.
Qed.

End CacheProofs.

(** ** The store refines a map *)

Inductive BlockOp :=
| OpPut (h : BlockHash) (data : Bytes)
| OpGet (h : BlockHash)
| OpHas (h : BlockHash)
| OpDelete (h : BlockHash)
| OpPrefetch (hashes : list BlockHash)
| OpClearCache.

Inductive BlockResult :=
| RUnit (r : result StorageError unit)
| RData (r : result StorageError (option Bytes))
| RBool (r : result StorageError bool).

Section StoreProofs.
Context {KV T : Type} `{KeyValueLaws KV} `{LruCrateLaws T}.
Context (sha256 : Bytes -> BlockHash).
Abbreviation Store := (CachedBlockStore KV T).
Implicit Types s : Store.

Definition exec_op (s : Store) (op : BlockOp) : BlockResult * Store :=
  match op with
  | OpPut h d => let '(r, s') := store_put sha256 s h d in (RUnit r, s')
  | OpGet h => let '(r, s') := store_get s h in (RData r, s')
  | OpHas h => (RBool (store_has s h), s)
  | OpDelete h => let '(r, s') := store_delete s h in (RUnit r, s')
  | OpPrefetch hs => let '(r, s') := store_prefetch s hs in (RUnit r, s')
  | OpClearCache => (RUnit (Ok tt), store_clear_cache s)
  end.

(** The abstract store: a map from keys to blocks.  An error changes nothing. *)
Definition spec_op (m : gmap (list Z) Bytes) (op : BlockOp) (r : BlockResult) (m' : gmap (list Z) Bytes) : Prop :=
  match op, r with
  | OpPut h d, RUnit (Ok _) => sha256 d = h /\ m' = <[make_block_key h := d]> m
  | OpPut h d, RUnit (Err e) => (sha256 d <> h -> e = HashMismatchError) /\ m' = m
  | OpGet h, RData (Ok o) => o = m !! make_block_key h /\ m' = m
  | OpGet h, RData (Err _) => m' = m
  | OpHas h, RBool (Ok b) => b = bool_decide (is_Some (m !! make_block_key h)) /\ m' = m
  | OpHas h, RBool (Err _) => m' = m
  | OpDelete h, RUnit (Ok _) => m' = delete (make_block_key h) m
  | OpDelete h, RUnit (Err _) => m' = m
  | OpPrefetch _, RUnit _ => m' = m
  | OpClearCache, RUnit r => r = Ok tt /\ m' = m
  | _, _ => False
  end.

(** Blocks that are put are not empty. *)
Definition op_ok (op : BlockOp) : Prop :=
  match op with
  | OpPut _ d => d <> [] /\ data_len d < 2 ^ 63
  | _ => True
  end.

Definition store_map (s : Store) : gmap (list Z) Bytes := kv_map (bs_store s).
Definition store_cached (s : Store) : list (BlockHash * Bytes) := lru_entries (entries (bs_cache s)).

(** The cache is coherent with the store, and blocks are what their key says. *)
Definition store_inv (s : Store) : Prop :=
  cache_inv (bs_cache s) /\
  (forall h d, (h, d) ∈ store_cached s -> store_map s !! make_block_key h = Some d) /\
  (forall h d, store_map s !! make_block_key h = Some d -> d <> [] /\ data_len d < 2 ^ 63).

Lemma make_block_key_inj h h' : make_block_key h = make_block_key h' -> h = h'.
Proof. apply app_inv_head. Qed.

Lemma cached_length_fuel s : cache_inv (bs_cache s) -> (length (store_cached s) <= put_fuel s)%nat.
Proof.
  intros (_ & Hf & Hs & Hm & _). apply total_length in Hf. unfold put_fuel, store_cached. lia.
Qed.

Lemma cache_fill_inv s h d :
  cache_inv (bs_cache s) -> d <> [] -> data_len d < 2 ^ 63 ->
  (forall k v, (k, v) ∈ store_cached s -> k <> h -> store_map s !! make_block_key k = Some v) ->
  store_map s !! make_block_key h = Some d ->
  (forall k v, store_map s !! make_block_key k = Some v -> v <> [] /\ data_len v < 2 ^ 63) ->
  store_inv (cache_fill s h d) /\ store_map (cache_fill s h d) = store_map s /\
  max_size (bs_cache (cache_fill s h d)) = max_size (bs_cache s).
Proof.
  intros Hi Hd H63 Hc Hm Hne. pose proof (cached_length_fuel s Hi) as Hl.
  destruct (cache_put_spec (put_fuel s) (bs_cache s) h d Hi Hd H63 Hl) as (Hi' & Hmax & Hsub & _).
  unfold cache_fill. destruct (cache_put (put_fuel s) (bs_cache s) h d) as [ev c]. simpl in *.
  split; [|done]. split; [done|]. split; [|done].
  intros k v Hin. unfold store_map. simpl. apply Hsub in Hin as [[-> ->]|[Hk Hin]]; [done|by apply Hc].
Qed.

Lemma store_prefetch_inv s hs :
  store_inv s -> store_inv (store_prefetch s hs).2 /\ store_map (store_prefetch s hs).2 = store_map s /\
    max_size (bs_cache (store_prefetch s hs).2) = max_size (bs_cache s).
Proof.
  revert s. induction hs as [|h hs IH]; intros s Hi; [done|]. cbn [store_prefetch].
  destruct (kv_get (bs_store s) (make_block_key h)) as [[d|]|e] eqn:E; [|by apply IH|done].
  apply kv_get_spec in E. symmetry in E. destruct (cache_contains (bs_cache s) h); [by apply IH|].
  destruct Hi as (Hc & Hcoh & Hne). destruct (Hne _ _ E) as [Hd H63].
  destruct (cache_fill_inv s h d) as (Hi' & Hm & Hx); [done|done|done|by intros; apply Hcoh|done|done|].
  destruct (IH _ Hi') as (? & Hm' & Hx'). by rewrite Hm', Hx'.
Qed.

Lemma store_put_refines s h d :
  store_inv s -> op_ok (OpPut h d) -> let op := OpPut h d in
  store_inv (exec_op s op).2 /\ max_size (bs_cache (exec_op s op).2) = max_size (bs_cache s) /\
  spec_op (store_map s) op (exec_op s op).1 (store_map (exec_op s op).2).
Proof.
  intros Hi Hop. pose proof Hi as (Hc & Hcoh & Hne). simpl.
  destruct Hop as [Hd H63]. unfold store_put. case_decide as Hh; [|by simpl].
  pose proof (kv_put_spec (bs_store s) (make_block_key h) d) as Hp.
  destruct (kv_put (bs_store s) (make_block_key h) d) as [[[]|e] kv]; simpl in *.
  + destruct (cache_fill_inv (set_store s kv) h d) as (Hi' & Hm & Hx); [done|done|done| | | |].
    * intros k v Hin Hk. unfold store_map. simpl. rewrite Hp, lookup_insert_ne; [by apply Hcoh|].
      by intros ?%make_block_key_inj.
    * unfold store_map. simpl. by rewrite Hp, lookup_insert_eq.
    * intros k v. unfold store_map. simpl. rewrite Hp.
      intros [[_ <-]|[_ Hk]]%lookup_insert_Some; [done|by eapply Hne].
    * split; [done|]. split; [done|]. split; [done|]. by rewrite Hm.
  + split; [|done]. split; [done|]. unfold store_map, store_cached in *. simpl. by rewrite Hp.
Qed.

Lemma store_get_refines s h :
  store_inv s -> let op := OpGet h in
  store_inv (exec_op s op).2 /\ max_size (bs_cache (exec_op s op).2) = max_size (bs_cache s) /\
  spec_op (store_map s) op (exec_op s op).1 (store_map (exec_op s op).2).
Proof.
  intros Hi. pose proof Hi as (Hc & Hcoh & Hne). simpl.
  unfold store_get, cache_peek. rewrite lru_peek_spec.
  destruct (assoc_find h (lru_entries (entries (bs_cache s)))) as [d|] eqn:Ed.
  + apply assoc_find_elem in Ed. destruct (cache_touch_spec (bs_cache s) h Hc) as (Hc' & Hx & Hs).
    destruct (cache_touch (bs_cache s) h) as [b c]. simpl in *. split; [|split; [done|]].
    * split; [done|]. split; [|done]. intros k v Hin. by apply Hcoh, Hs.
    * split; [|done]. symmetry. by apply Hcoh.
  + simpl. destruct (kv_get (bs_store s) (make_block_key h)) as [[d|]|e] eqn:E; simpl.
    * apply kv_get_spec in E. symmetry in E. destruct (Hne _ _ E) as [Hd H63].
      match goal with |- store_inv (cache_fill ?s1 h d) /\ _ =>
        destruct (cache_fill_inv s1 h d) as (Hi' & Hm & Hx); [done|done|done|by intros; apply Hcoh|done|done|] end.
      split; [done|]. split; [done|]. rewrite Hm. by split.
    * apply kv_get_spec in E. split; [done|]. split; [done|]. done.
    * done.
Qed.

(** Every operation refines the abstract one and keeps the invariant. *)
Lemma exec_op_refines s op :
  store_inv s -> op_ok op ->
  store_inv (exec_op s op).2 /\ max_size (bs_cache (exec_op s op).2) = max_size (bs_cache s) /\
  spec_op (store_map s) op (exec_op s op).1 (store_map (exec_op s op).2).
Proof.
  intros Hi Hop. pose proof Hi as (Hc & Hcoh & Hne). destruct op as [h d|h|h|h|hs|]; simpl.
  - by apply store_put_refines.
  - by apply store_get_refines.
  - split; [done|]. split; [done|]. unfold store_has, cache_contains. rewrite lru_contains_spec.
    destruct (assoc_find h (lru_entries (entries (bs_cache s)))) as [d|] eqn:Ed.
    + rewrite bool_decide_eq_true_2 by (by eexists). split; [|done]. symmetry. apply bool_decide_eq_true_2.
      apply assoc_find_elem in Ed. apply Hcoh in Ed. by eexists.
    + rewrite bool_decide_eq_false_2 by (by intros [? ?]).
      destruct (kv_contains (bs_store s) (make_block_key h)) as [b|e] eqn:E; [|done].
      split; [|done]. by apply kv_contains_spec in E.
  - unfold store_delete. pose proof (kv_delete_spec (bs_store s) (make_block_key h)) as Hp.
    destruct (kv_delete (bs_store s) (make_block_key h)) as [[[]|e] kv]; simpl in *.
    + destruct (cache_remove_spec (bs_cache s) h Hc) as (Hc' & Hx & Hs). split; [|done].
      split; [done|]. unfold store_map, store_cached in *. simpl. rewrite Hp, Hs. split.
      * intros k v [Hk Hin]%list_elem_of_filter. rewrite lookup_delete_ne; [by apply Hcoh|].
        by intros ?%make_block_key_inj.
      * intros k v [_ Hk]%lookup_delete_Some. by eapply Hne.
    + split; [|done]. split; [done|]. unfold store_map, store_cached in *. simpl. by rewrite Hp.
  - destruct (store_prefetch_inv s hs Hi) as (Hi' & Hm & Hx). destruct (store_prefetch s hs) as [r s']. done.
  - destruct (lru_clear_spec (entries (bs_cache s))) as [He Hcap]. destruct Hc as (_ & _ & Hcs & Hm & Hcc).
    split; [|done]. split; [|split; [|done]].
    + unfold cache_inv. simpl. rewrite He, Hcap. split; [constructor|]. split; [constructor|]. split; [done|].
      split; [|done]. pose proof (total_nonneg (lru_entries (entries (bs_cache s)))). lia.
    + unfold store_cached. simpl. rewrite He. by intros h d ?%elem_of_nil.
Qed.

Fixpoint exec_ops (s : Store) (ops : list BlockOp) : Store :=
  match ops with
  | [] => s
  | op :: rest => exec_ops (exec_op s op).2 rest
  end.

Lemma exec_ops_inv s ops :
  store_inv s -> Forall op_ok ops -> store_inv (exec_ops s ops) /\
    max_size (bs_cache (exec_ops s ops)) = max_size (bs_cache s).
Proof.
  intros Hi Ho. revert s Hi. induction Ho as [|op ops Hop _ IH]; intros s Hi; [done|]. simpl.
  destruct (exec_op_refines s op Hi Hop) as (Hi' & Hx & _). destruct (IH _ Hi') as [? Hx']. by rewrite Hx'.
Qed.

(** The cached block store behaves like a plain map from hashes to blocks.
    After any sequence of operations on non-empty blocks (store failures
    included) the next operation answers as the map does: a get returns exactly
    the stored block, a put is refused unless the data has the given hash, a
    delete removes the block from cache and store. *)
Theorem block_store_refines_map s ops op :
  store_inv s -> Forall op_ok ops -> op_ok op ->
  let s1 := exec_ops s ops in
  let r := exec_op s1 op in
  spec_op (store_map s1) op r.1 (store_map r.2).
Proof. intros Hi Ho Hop. by apply exec_op_refines; [apply exec_ops_inv|]. Qed.

(** The cache never exceeds its limit: after any sequence of operations the
    recorded size is the number of bytes really cached and is at most the
    configured maximum, and the size arithmetic never wraps. *)
Theorem block_cache_bounded kv stats max ops :
  0 <= max < 2 ^ 63 -> (forall h d, kv_map kv !! make_block_key h = Some d -> d <> [] /\ data_len d < 2 ^ 63) ->
  Forall op_ok ops ->
  let s := exec_ops (mkCachedBlockStore kv (cache_new max) stats) ops in
  current_size (bs_cache s) = total (store_cached s) /\ 0 <= current_size (bs_cache s) <= max.
Proof.
  intros Hm Hkv Ho. destruct (exec_ops_inv (mkCachedBlockStore kv (cache_new max) stats) ops) as [Hi Hx]; [|done|].
  - split; [by apply cache_inv_new|]. split; [|done]. intros h d. unfold store_cached. simpl.
    rewrite (proj1 (lru_new_spec _)). by intros ?%elem_of_nil.
  - destruct Hi as ((_ & _ & Hs & Hle & _) & _ & _). rewrite Hx in Hle. simpl in Hle.
    pose proof (total_nonneg (store_cached (exec_ops (mkCachedBlockStore kv (cache_new max) stats) ops))).
    split; [exact Hs|]. unfold store_cached in *. lia.
Qed.

End StoreProofs.

(** ** Concurrent callers

    Between its access to the store and its access to the cache an operation
    holds no lock.  What is left to do is pending; a step starts an operation
    or finishes a pending one. *)
Inductive Pending :=
| PendingPut (h : BlockHash) (data : Bytes)
| PendingGet (h : BlockHash) (data : Bytes)
| PendingDelete (h : BlockHash).

Section Concurrency.
Context {KV T : Type} `{KeyValueLaws KV} `{LruCrateLaws T}.
Context (sha256 : Bytes -> BlockHash).
Abbreviation Store := (CachedBlockStore KV T).
Abbreviation System := (CachedBlockStore KV T * list Pending)%type.

Inductive conc_step : System -> System -> Prop :=
| StepPutStore s ps h d kv :
    sha256 d = h -> d <> [] -> data_len d < 2 ^ 63 ->
    kv_put (bs_store s) (make_block_key h) d = (Ok tt, kv) ->
    conc_step (s, ps) (set_store s kv, PendingPut h d :: ps)
| StepPutCache s ps1 h d ps2 :
    conc_step (s, ps1 ++ PendingPut h d :: ps2) (cache_fill s h d, ps1 ++ ps2)
| StepGetHit s ps h d :
    cache_peek (bs_cache s) h = Some d ->
    conc_step (s, ps) ((store_get s h).2, ps)
| StepGetStore s ps h d :
    cache_peek (bs_cache s) h = None -> kv_get (bs_store s) (make_block_key h) = Ok (Some d) ->
    conc_step (s, ps) (s, PendingGet h d :: ps)
| StepGetCache s ps1 h d ps2 :
    conc_step (s, ps1 ++ PendingGet h d :: ps2) (cache_fill s h d, ps1 ++ ps2)
| StepDeleteStore s ps h kv :
    kv_delete (bs_store s) (make_block_key h) = (Ok tt, kv) ->
    conc_step (s, ps) (set_store s kv, PendingDelete h :: ps)
| StepDeleteCache s ps1 h ps2 :
    conc_step (s, ps1 ++ PendingDelete h :: ps2)
      (mkCachedBlockStore (bs_store s) (cache_remove (bs_cache s) h) (bs_stats s), ps1 ++ ps2).

(** A block under its own hash. *)
Definition block_ok (h : BlockHash) (d : Bytes) : Prop := sha256 d = h /\ d <> [] /\ data_len d < 2 ^ 63.

Definition pending_ok (p : Pending) : Prop :=
  match p with
  | PendingPut h d | PendingGet h d => block_ok h d
  | PendingDelete _ => True
  end.

Definition integrity (x : System) : Prop :=
  cache_inv (bs_cache x.1) /\
  (forall h d, (h, d) ∈ store_cached x.1 -> block_ok h d) /\
  (forall h d, store_map x.1 !! make_block_key h = Some d -> block_ok h d) /\
  Forall pending_ok x.2.

Lemma cache_fill_integrity s h d ps :
  integrity (s, ps) -> block_ok h d -> integrity (cache_fill s h d, ps).
Proof.
  intros (Hi & Hc & Hm & Hp) (Hh & Hd & H63). pose proof (cached_length_fuel s Hi) as Hl.
  destruct (cache_put_spec (put_fuel s) (bs_cache s) h d Hi Hd H63 Hl) as (Hi' & _ & Hsub & _).
  unfold cache_fill. destruct (cache_put (put_fuel s) (bs_cache s) h d) as [ev c]. simpl in *.
  split; [done|]. split; [|done]. intros k v Hin. apply Hsub in Hin as [[-> ->]|[_ Hin]]; [done|by apply Hc].
Qed.

Lemma integrity_drop s ps1 p ps2 :
  integrity (s, ps1 ++ p :: ps2) -> integrity (s, ps1 ++ ps2) /\ pending_ok p.
Proof.
  intros (Hi & Hc & Hm & Hp). simpl in Hp. apply Forall_app in Hp as [Hp1 Hp2]. apply Forall_cons in Hp2 as [Hp2 Hp3].
  split; [|done]. repeat (split; [done|]). by apply Forall_app.
Qed.

Lemma conc_step_integrity x y : conc_step x y -> integrity x -> integrity y.
Proof.
  destruct 1 as [s ps h d kv Hh Hd H63 Hk|s ps1 h d ps2|s ps h d Hpk|s ps h d Hpk Hk|s ps1 h d ps2|s ps h kv Hk|s ps1 h ps2];
    intros Hi.
  - destruct Hi as (Hi & Hc & Hm & Hp). pose proof (kv_put_spec (bs_store s) (make_block_key h) d) as Hs.
    rewrite Hk in Hs. simpl in Hs. split; [done|]. split; [done|]. split; [|by constructor].
    intros k v. unfold store_map. simpl. rewrite Hs. intros [[E <-]|[_ E]]%lookup_insert_Some; [|by apply Hm].
    by apply make_block_key_inj in E as <-.
  - apply integrity_drop in Hi as [Hi Hp]. by apply cache_fill_integrity.
  - destruct Hi as (Hi & Hc & Hm & Hp). unfold store_get. rewrite Hpk.
    destruct (cache_touch_spec (bs_cache s) h Hi) as (Hi' & _ & Hs). destruct (cache_touch (bs_cache s) h) as [b c].
    split; [done|]. split; [|done]. intros k v Hin. by apply Hc, Hs.
  - destruct Hi as (Hi & Hc & Hm & Hp). apply kv_get_spec in Hk. repeat (split; [done|]). constructor; [|done].
    by apply Hm.
  - apply integrity_drop in Hi as [Hi Hp]. by apply cache_fill_integrity.
  - destruct Hi as (Hi & Hc & Hm & Hp). pose proof (kv_delete_spec (bs_store s) (make_block_key h)) as Hs.
    rewrite Hk in Hs. simpl in Hs. split; [done|]. split; [done|]. split; [|by constructor].
    intros k v. unfold store_map. simpl. rewrite Hs. intros [_ E]%lookup_delete_Some. by apply Hm.
  - apply integrity_drop in Hi as [(Hi & Hc & Hm & Hp) _].
    destruct (cache_remove_spec (bs_cache s) h Hi) as (Hi' & _ & Hs). split; [done|]. split; [|done].
    intros k v. unfold store_cached. simpl. rewrite Hs. intros [_ Hin]%list_elem_of_filter. by apply Hc.
Qed.

(** Under any interleaving of concurrent puts, gets and deletes the store
    keeps its integrity: whatever a get answers has the hash it was asked for,
    and the cache accounting stays exact and within its limit. *)
Theorem block_store_concurrent_integrity x s ps h d :
  integrity x -> rtc conc_step x (s, ps) ->
  (store_get s h).1 = Ok (Some d) ->
  sha256 d = h /\ current_size (bs_cache s) = total (store_cached s) /\
  current_size (bs_cache s) <= max_size (bs_cache s).
Proof.
  intros Hi Hr Hg. assert (integrity (s, ps)) as (Hc & Hcc & Hm & _).
  { revert Hi. induction Hr as [|x y z Hs _ IH]; [done|]. intros Hi. by eapply IH, conc_step_integrity. }
  split; [|by destruct Hc as (_ & _ & ? & [? _] & _)]. unfold store_get, cache_peek in Hg. rewrite lru_peek_spec in Hg.
  destruct (assoc_find h (lru_entries (entries (bs_cache s)))) as [d'|] eqn:E.
  - destruct (cache_touch (bs_cache s) h). simpl in Hg. simplify_eq. apply assoc_find_elem in E.
    by destruct (Hcc _ _ E).
  - simpl in Hg. destruct (kv_get (bs_store s) (make_block_key h)) as [[d'|]|e] eqn:Ek; simpl in Hg; simplify_eq.
    apply kv_get_spec in Ek. symmetry in Ek. by destruct (Hm _ _ Ek).
Qed.

End Concurrency.

(** ** Instances: the laws can hold *)

#[global] Instance list_lru : LruCrate (nat * list (BlockHash * Bytes)) := {|
  lru_new n := (n, []);
  lru_peek c h := assoc_find h c.2;
  lru_get c h := (assoc_find h c.2,
                  match assoc_find h c.2 with
                  | Some d => (c.1, (h, d) :: assoc_remove h c.2)
                  | None => c
                  end);
  lru_pop c h := (assoc_find h c.2, (c.1, assoc_remove h c.2));
  lru_pop_lru c := (last c.2, (c.1, take (length c.2 - 1) c.2));
  lru_put c h d := (c.1, take c.1 ((h, d) :: assoc_remove h c.2));
  lru_contains c h := bool_decide (is_Some (assoc_find h c.2));
  lru_is_empty c := bool_decide (c.2 = []);
  lru_clear c := (c.1, []);
|}.

#[global, refine] Instance list_lru_laws : LruCrateLaws (nat * list (BlockHash * Bytes)) := {
  lru_entries := snd;
  lru_cap := fst;
}.
Proof. all: intros; simpl; try done. by destruct (assoc_find h c.2). Defined.

#[global] Instance map_store : KeyValueStore (gmap (list Z) Bytes) := {|
  kv_get m k := Ok (m !! k);
  kv_put m k d := (Ok tt, <[k := d]> m);
  kv_contains m k := Ok (bool_decide (is_Some (m !! k)));
  kv_delete m k := (Ok tt, delete k m);
|}.

#[global, refine] Instance map_store_laws : KeyValueLaws (gmap (list Z) Bytes) := { kv_map := fun m => m }.
Proof. all: intros; simpl in *; simplify_eq; done. Defined.

Definition demo_store : CachedBlockStore (gmap (list Z) Bytes) (nat * list (BlockHash * Bytes)) :=
  mkCachedBlockStore ∅ (cache_new 3) (mkCacheStats 0 0 0).

Lemma demo_store_inv : store_inv demo_store.
Proof.
  split; [apply cache_inv_new; lia|]. split; [by intros h d ?%elem_of_nil|].
  intros h d E. unfold store_map in E. simpl in E. by rewrite lookup_empty in E.
Qed.

Lemma block_store_refines_map_witness :
  exists m', spec_op (fun d => d)
    (store_map (exec_ops (fun d => d) demo_store [OpPut [1; 2] [1; 2]; OpPut [3; 4] [3; 4]]))
    (OpGet [1; 2]) (RData (Ok (Some [1; 2]))) m'.
Proof.
  eexists. apply (block_store_refines_map (fun d => d) demo_store
    [OpPut [1; 2] [1; 2]; OpPut [3; 4] [3; 4]] (OpGet [1; 2]) demo_store_inv).
  - repeat constructor; vm_compute; congruence.
  - exact I.
Defined.

Lemma block_cache_bounded_witness :
  let s := exec_ops (fun d => d) demo_store [OpPut [1; 2] [1; 2]; OpPut [3; 4] [3; 4]] in
  0 <= current_size (bs_cache s) <= 3.
Proof.
  apply (block_cache_bounded (fun d => d) ∅ (mkCacheStats 0 0 0) 3 [OpPut [1; 2] [1; 2]; OpPut [3; 4] [3; 4]]).
  - lia.
  - intros h d E. vm_compute in E. discriminate E.
  - repeat constructor; vm_compute; congruence.
Defined.

Lemma block_store_concurrent_integrity_witness :
  exists s : CachedBlockStore (gmap (list Z) Bytes) (nat * list (BlockHash * Bytes)),
    (store_get s [1]).1 = Ok (Some [1]) /\ (fun d : Bytes => d) [1] = [1].
Proof.
  set (s0 := set_store demo_store {[make_block_key [1] := [1]]}).
  set (s1 := cache_fill s0 [1] [1]).
  exists s1. split; [vm_compute; reflexivity|].
  apply (block_store_concurrent_integrity (fun d => d) (demo_store, []) s1 [] [1] [1]).
  - destruct demo_store_inv as (Hc & _ & _). split; [exact Hc|]. split; [by intros h d ?%elem_of_nil|].
    split; [|constructor]. intros h d E. vm_compute in E. discriminate E.
  - eapply rtc_l; [apply (StepPutStore (fun d => d) demo_store [] [1] [1] {[make_block_key [1] := [1]]});
      [reflexivity|congruence|vm_compute; reflexivity|vm_compute; reflexivity]|].
    eapply rtc_l; [apply (StepPutCache (fun d => d) s0 [] [1] [1] [])|]. apply rtc_refl.
  - vm_compute. reflexivity.
Defined.

(** A delete can be lost under concurrency: a get that has read the block
    before the delete refills the cache after it, and although every operation
    has finished and the store no longer has the block, it is still served. *)
Theorem concurrent_delete_resurrects :
  exists s : CachedBlockStore (gmap (list Z) Bytes) (nat * list (BlockHash * Bytes)),
    rtc (conc_step (fun d => d)) (set_store demo_store {[make_block_key [1] := [1]]}, []) (s, []) /\
    store_map s !! make_block_key [1] = None /\ (store_get s [1]).1 = Ok (Some [1]) /\
    store_has s [1] = Ok true.
Proof.
  set (s0 := set_store demo_store {[make_block_key [1] := [1]]}).
  set (s1 := set_store s0 ∅).
  exists (cache_fill (mkCachedBlockStore (bs_store s1) (cache_remove (bs_cache s1) [1]) (bs_stats s1)) [1] [1]).
  split; [|vm_compute; repeat split; reflexivity].
  eapply rtc_l; [apply (StepGetStore _ s0 [] [1] [1]); vm_compute; reflexivity|].
  eapply rtc_l; [apply (StepDeleteStore _ s0 [PendingGet [1] [1]] [1] ∅); vm_compute; reflexivity|].
  eapply rtc_l; [apply (StepDeleteCache _ s1 [] [1] [PendingGet [1] [1]])|].
  eapply rtc_l; [apply (StepGetCache _ _ [] [1] [1] [])|]. apply rtc_refl.
Qed.
