(* ===== verification/Ignore.v ===== *)
(** * Ignore rules ([crates/syncthing-sync/src/ignore.rs])

    Parsing of [.stignore] lines and the backtracking glob matcher, proved
    equivalent to the declarative meaning of patterns and terminating.  The
    matcher's indices are represented by the suffixes they denote. *)

From S2P Require Import Prelude.

Record IgnoreRule := mkIgnoreRule {
  pattern : str;
  is_negation : bool;
  anchored : bool;
  directory_only : bool;
}.

Abbreviation IgnoreMatcher := (list IgnoreRule).

Definition star : ascii := "*"%char.
Definition question : ascii := "?"%char.

(** The UTF-8 encodings of the chars [trim] removes. *)
Definition whitespace : list str :=
  [["009"]; ["010"]; ["011"]; ["012"]; ["013"]; ["032"]; ["194"; "133"]; ["194"; "160"];
   ["225"; "154"; "128"]; ["226"; "128"; "128"]; ["226"; "128"; "129"]; ["226"; "128"; "130"];
   ["226"; "128"; "131"]; ["226"; "128"; "132"]; ["226"; "128"; "133"]; ["226"; "128"; "134"];
   ["226"; "128"; "135"]; ["226"; "128"; "136"]; ["226"; "128"; "137"]; ["226"; "128"; "138"];
   ["226"; "128"; "168"]; ["226"; "128"; "169"]; ["226"; "128"; "175"]; ["226"; "129"; "159"];
   ["227"; "128"; "128"]]%char.

Fixpoint strip_any (ps : list str) (s : str) : option str :=
  match ps with
  | [] => None
  | p :: rest => match strip_prefix p s with Some s' => Some s' | None => strip_any rest s end
  end.

Fixpoint trim_with (ps : list str) (fuel : nat) (s : str) : str :=
  match fuel with
  | O => s
  | S fuel' => match strip_any ps s with Some s' => trim_with ps fuel' s' | None => s end
  end.

Definition trim (s : str) : str :=
  let t := trim_with whitespace (length s) s in
  reverse (trim_with (reverse <$> whitespace) (length t) (reverse t)).

(** [content.lines()] *)
Definition str_lines (content : str) : list str :=
  let ls := split_on "010"%char content in
  let ls := match last ls with
            | Some [] => take (length ls - 1) ls
            | _ => ls
            end in
  (fun l => match last l with
            | Some c => if decide (c = "013"%char) then take (length l - 1) l else l
            | None => l
            end) <$> ls.

Definition add_line (m : IgnoreMatcher) (line : str) : IgnoreMatcher :=
  let line := trim line in
  if bool_decide (line = []) || starts_with ($"#") line then m
  else
    let negation := starts_with ($"!") line in
    let p := if negation then drop 1 line else line in
    let dir := ends_with ($"/") p in
    let p := if dir then take (length p - 1) p else p in
    let anch := starts_with ($"/") p in
    let p := if anch then drop 1 p else p in
    m ++ [mkIgnoreRule p negation anch dir].

(** [load]: the content read, if the file could be read. *)
Definition load (content : option str) : IgnoreMatcher :=
  match content with
  | Some c => fold_left add_line (str_lines c) []
  | None => []
  end.

(** [while p < pat.len() && pat[p] == b'*' { p += 1 }; p == pat.len()] *)
Fixpoint only_stars (p : str) : bool :=
  match p with
  | [] => true
  | c :: p' => if decide (c = star) then only_stars p' else false
  end.

(** The main loop: [p] and [t] are what is left of pattern and text, [back] the
    pattern after the last star and the text at [match_idx].  [None]: out of
    fuel. *)
Fixpoint glob_loop (fuel : nat) (p t : str) (back : option (str * str)) : option bool :=
  match t with
  | [] => Some (only_stars p)
  | x :: t' =>
      match fuel with
      | O => None
      | S fuel' =>
          let retry :=
            match back with
            | Some (ps, ts) => glob_loop fuel' ps (drop 1 ts) (Some (ps, drop 1 ts))
            | None => Some false
            end in
          match p with
          | c :: p' =>
              if decide (c = x \/ c = question) then glob_loop fuel' p' t' back
              else if decide (c = star) then glob_loop fuel' p' t (Some (p', t))
              else retry
          | [] => retry
          end
      end
  end.

Definition glob_fuel (p t : str) : nat := (length p + 2) * (length t + 1) * (length t + 1).

Definition glob_match (p t : str) : bool := default false (glob_loop (glob_fuel p t) p t None).

(** [zip(..).all(|(p, c)| glob_match(p, c))] *)
Fixpoint match_components (ps cs : list str) : bool :=
  match ps, cs with
  | p :: ps', c :: cs' => glob_match p c && match_components ps' cs'
  | _, _ => true
  end.

Definition unanchored_match (p path : str) : bool :=
  let path_components := split_on "/"%char path in
  if contains "/"%char p then
    let pat_components := split_on "/"%char p in
    if (length path_components <? length pat_components)%nat then false
    else existsb (fun start => match_components pat_components (drop start path_components))
           (seq 0 (S (length path_components - length pat_components)))
  else existsb (glob_match p) path_components.

Definition anchored_match (p path : str) : bool :=
  let pat_components := split_on "/"%char p in
  let path_components := split_on "/"%char path in
  if (length path_components <? length pat_components)%nat then false
  else match_components pat_components path_components.

Definition rule_matches (rule : IgnoreRule) (path : str) (is_dir : bool) : bool :=
  if directory_only rule && negb is_dir then false
  else if anchored rule then anchored_match (pattern rule) path
  else unanchored_match (pattern rule) path.

Definition matches (m : IgnoreMatcher) (path : str) (is_dir : bool) : bool :=
  fold_left (fun ignored rule => if rule_matches rule path is_dir then negb (is_negation rule) else ignored)
    m false.

(** ** The meaning of a pattern *)

Inductive glob : str -> str -> Prop :=
| GlobNil : glob [] []
| GlobChar c p t : c <> star -> glob p t -> glob (c :: p) (c :: t)
| GlobQuestion x p t : glob p t -> glob (question :: p) (x :: t)
| GlobStarEmpty p t : glob p t -> glob (star :: p) t
| GlobStarMore x p t : glob (star :: p) t -> glob (star :: p) (x :: t).

Lemma glob_star p t : glob (star :: p) t <-> exists v w, t = v ++ w /\ glob p w.
Proof.
  split.
  - intros H. remember (star :: p) as q eqn:E. revert E.
    induction H as [|c q t Hc _ _|x q t _ _|q t H _|x q t H IH]; intros E; try done.
    + injection E as -> ->. done.
    + injection E as ->. by exists [], t.
    + destruct (IH E) as (v & w & -> & Hw). by exists (x :: v), w.
  - intros (v & w & -> & Hw). induction v as [|x v IH]; [by constructor|]. by apply GlobStarMore.
Qed.

Lemma glob_star_extend p v t : glob (star :: p) t -> glob (star :: p) (v ++ t).
Proof. intros (v' & w & -> & Hw)%glob_star. apply glob_star. exists (v ++ v'), w. by rewrite app_assoc. Qed.

(** A star-free prefix consumes one character each. *)
Lemma glob_prefix q p t :
  star ∉ q -> glob (q ++ p) t -> exists v w, t = v ++ w /\ length v = length q /\ glob p w.
Proof.
  revert t. induction q as [|c q IH]; intros t Hq H; [by exists [], t|].
  apply not_elem_of_cons in Hq as [Hc Hq]. simpl in H.
  inversion H as [|? ? t' Hne Hr|x ? t' Hr|? ? Hr|? ? ? Hr]; subst; try done.
  - destruct (IH _ Hq Hr) as (v & w & -> & Hl & Hw). exists (c :: v), w. simpl. by rewrite Hl.
  - destruct (IH _ Hq Hr) as (v & w & -> & Hl & Hw). exists (x :: v), w. simpl. by rewrite Hl.
Qed.

Lemma only_stars_glob p : only_stars p = true <-> glob p [].
Proof.
  induction p as [|c p IH]; simpl; [split; [constructor|done]|]. case_decide as E.
  - subst. rewrite IH. split; [by constructor|]. intros H. by inversion H.
  - split; [done|]. intros H. by inversion H.
Qed.

(** What is still to be found out: the rest matches as it is, or the last star
    takes at least one character more. *)
Definition pending (p t : str) (back : option (str * str)) : Prop :=
  glob p t \/ match back with Some (ps, ts) => glob (star :: ps) (drop 1 ts) | None => False end.

(** The text consumed since the last star was matched by as many star-free
    pattern characters. *)
Definition back_inv (p t : str) (back : option (str * str)) : Prop :=
  match back with
  | None => True
  | Some (ps, ts) => exists q u, ps = q ++ p /\ ts = u ++ t /\ length q = length u /\ star ∉ q
  end.

Definition measure (np nt : nat) (t : str) (back : option (str * str)) : nat :=
  match back with
  | None => (np + 1) * (nt + 1) * (nt + 1) + length t
  | Some (ps, ts) => length ps * (nt + 1) * (nt + 1) + length ts * (nt + 1) + length t
  end.

(** If the last star could take more, the rest of the pattern matches a suffix
    of the rest of the text: earlier stars need not be revisited. *)
Lemma back_suffix p t ps ts :
  back_inv p t (Some (ps, ts)) -> glob (star :: ps) (drop 1 ts) -> exists v w, t = v ++ w /\ glob p w.
Proof.
  intros (q & u & -> & -> & Hl & Hq) (v & w & E & Hw)%glob_star.
  destruct (glob_prefix q p w Hq Hw) as (w1 & w2 & -> & Hl1 & Hg).
  exists (take (length t - length w2) t), w2. split; [|done].
  assert (w2 = drop (length (u ++ t) - length w2) (u ++ t)) as Ew.
  { destruct (u ++ t) as [|x r] eqn:Eut.
    - simpl in *. symmetry in E. apply app_nil in E as [-> E]. apply app_nil in E as [-> ->]. done.
    - rewrite skipn_cons, drop_0 in E. subst r. rewrite app_assoc. rewrite app_comm_cons. rewrite length_app.
      replace (length (x :: v ++ w1) + length w2 - length w2)%nat with (length (x :: v ++ w1)) by lia.
      by rewrite drop_app_length. }
  assert (length w2 <= length t)%nat as Hle.
  { apply (f_equal length) in E. rewrite length_drop, !length_app in E. lia. }
  rewrite length_app in Ew. rewrite drop_app_ge in Ew by lia.
  replace (length u + length t - length w2 - length u)%nat with (length t - length w2)%nat in Ew by lia.
  rewrite Ew at 2. by rewrite take_drop.
Qed.

Lemma glob_star_cons p x t : glob (star :: p) (x :: t) <-> glob p (x :: t) \/ glob (star :: p) t.
Proof.
  split; [|intros [H|H]; [by apply GlobStarEmpty|by apply GlobStarMore]].
  intros ([|v0 v] & w & Ew & Hw)%glob_star; [simpl in Ew; subst; by left|]. right.
  injection Ew as _ ->. apply glob_star. by exists v, w.
Qed.

(** Coming back to a star: it takes one more byte. *)
Lemma pending_retry p t : pending p t (Some (p, t)) <-> glob (star :: p) t.
Proof.
  unfold pending. split.
  - intros [H|H]; [by apply GlobStarEmpty|]. destruct t as [|z t]; [by apply H|]. by apply GlobStarMore.
  - intros ([|v0 v] & w & -> & Hw)%glob_star; [by left|]. right. simpl. apply glob_star. by exists v, w.
Qed.

(** Reading a star makes it the place to come back to. *)
Lemma pending_star p x t back :
  back_inv (star :: p) (x :: t) back ->
  pending p (x :: t) (Some (p, x :: t)) <-> pending (star :: p) (x :: t) back.
Proof.
  intros Hi. unfold pending. rewrite skipn_cons, drop_0, glob_star_cons. split; [by left|].
  intros [H|H]; [done|]. destruct back as [[ps ts]|]; [|done]. apply glob_star_cons.
  destruct (back_suffix _ _ _ _ Hi H) as (v & w & -> & Hw). by apply glob_star_extend.
Qed.

Lemma glob_loop_correct np nt fuel p t back :
  star ∉ t ->
  match back with
  | Some (ps, ts) => star ∉ ts /\ (length ts <= nt)%nat
  | None => (length p <= np)%nat
  end ->
  (length t <= nt)%nat -> back_inv p t back -> (measure np nt t back <= fuel)%nat ->
  exists b, glob_loop fuel p t back = Some b /\ (b = true <-> pending p t back).
Proof.
  revert p t back. induction fuel as [fuel IH] using lt_wf_ind; intros p t back Ht Hb Hnt Hi Hf.
  destruct t as [|x t].
  { exists (only_stars p). split; [by destruct fuel|]. rewrite only_stars_glob. unfold pending.
    split; [by left|]. intros [H|H]; [done|]. destruct back as [[ps ts]|]; [|done].
    destruct (back_suffix _ _ _ _ Hi H) as (v & w & E & Hw). symmetry in E. by apply app_nil in E as [-> ->]. }
  destruct fuel as [|fuel].
  { exfalso. unfold measure in Hf. destruct back as [[ps ts]|]; simpl in Hf; lia. }
  cbn [glob_loop].
  assert (forall r, r = match back with
            | Some (ps, ts) => glob_loop fuel ps (drop 1 ts) (Some (ps, drop 1 ts))
            | None => Some false
            end -> ~ glob p (x :: t) ->
          exists b, r = Some b /\ (b = true <-> pending p (x :: t) back)) as Hretry.
  { intros r -> Hn. unfold pending. destruct back as [[ps ts]|]; [|exists false; naive_solver].
    destruct Hb as [Hts Hlt]. destruct Hi as (q & u & Eq & Eu & Hl & Hq).
    assert (exists y ts', ts = y :: ts') as (y & ts' & ->) by (subst ts; destruct u; simpl; eauto).
    apply not_elem_of_cons in Hts as [_ Hts]. simpl in Hlt. rewrite skipn_cons, drop_0.
    destruct (IH fuel ltac:(lia) ps ts' (Some (ps, ts'))) as (b & E & Hb); [done|split; [done|lia]|lia| | |].
    - exists [], []. split; [done|]. split; [done|]. split; [done|]. apply not_elem_of_nil.
    - unfold measure in *. cbn [length] in Hf. lia.
    - exists b. split; [done|]. rewrite Hb, pending_retry. naive_solver. }
  destruct p as [|c p]; [apply Hretry; [done|]; intros H; by inversion H|].
  apply not_elem_of_cons in Ht as [Hx Ht]. cbn [length] in Hnt.
  destruct (decide (c = x \/ c = question)) as [Hc|Hc].
  - assert (c <> star) as Hcs by (destruct Hc as [->| ->]; [congruence|done]).
    destruct (IH fuel ltac:(lia) p t back) as (b & E & Hbt); [done| |lia| | |].
    + destruct back as [[ps ts]|]; [done|]. simpl in Hb. lia.
    + destruct back as [[ps ts]|]; [|done]. destruct Hi as (q & u & -> & -> & Hl & Hq).
      exists (q ++ [c]), (u ++ [x]). rewrite <-!app_assoc, !length_app. simpl.
      split; [done|]. split; [done|]. split; [lia|]. rewrite elem_of_app, list_elem_of_singleton. naive_solver.
    + unfold measure in *. destruct back as [[ps ts]|]; simpl in *; lia.
    + exists b. split; [done|]. rewrite Hbt. unfold pending. split; intros [H|H]; auto; left.
      * destruct Hc as [->| ->]; [by constructor|by apply GlobQuestion].
      * inversion H; subst; done.
  - destruct (decide (c = star)) as [->|Hcs].
    + destruct (IH fuel ltac:(lia) p (x :: t) (Some (p, x :: t))) as (b & E & Hbt).
      * by apply not_elem_of_cons.
      * split; [by apply not_elem_of_cons|simpl; lia].
      * simpl; lia.
      * exists [], []. split; [done|]. split; [done|]. split; [done|]. apply not_elem_of_nil.
      * unfold measure in *. destruct back as [[ps ts]|]; cbn [length] in *.
        -- destruct Hi as (q & u & -> & -> & Hl & Hq). rewrite !length_app in *. cbn [length] in *. nia.
        -- nia.
      * exists b. split; [done|]. rewrite Hbt. by apply pending_star.
    + apply Hretry; [done|]. intros H. inversion H; subst; naive_solver.
Qed.

(** ** Properties *)

(** On texts without a literal star, the backtracking matcher terminates
    (within [glob_fuel] iterations) and answers true exactly for the texts the
    pattern denotes: a star any sequence, a question mark any one byte, other
    bytes themselves.  Remembering only the last star loses no match. *)
Theorem glob_match_correct p t :
  star ∉ t -> glob_loop (glob_fuel p t) p t None = Some (glob_match p t) /\ (glob_match p t = true <-> glob p t).
Proof.
  intros Ht. destruct (glob_loop_correct (length p) (length t) (glob_fuel p t) p t None) as (b & E & Hb);
    [done|done|done|done|unfold measure, glob_fuel; nia|].
  unfold glob_match. rewrite E. simpl. split; [done|]. rewrite Hb. unfold pending. naive_solver.
Qed.

Lemma glob_match_correct_witness : glob ($"*.t?t") ($"a.b.txt").
Proof.
  apply (glob_match_correct ($"*.t?t") ($"a.b.txt")).
  - apply (bool_decide_unpack _). vm_compute. exact I.
  - vm_compute. reflexivity.
Defined.

(** A literal star in a file name confuses the matcher: it is consumed by the
    pattern's star as an ordinary character, so the pattern ["*"], which denotes
    every name, does not match a name that starts with a star. *)
Theorem glob_match_star_name :
  glob_match ($"*") ($"*a") = false /\ glob ($"*") ($"*a") /\ glob_match ($"*") ($"a*") = true.
Proof.
  split; [vm_compute; reflexivity|]. split; [|vm_compute; reflexivity].
  do 2 apply GlobStarMore. apply GlobStarEmpty. constructor.
Qed.

Lemma matches_app m rule path is_dir :
  matches (m ++ [rule]) path is_dir =
  if rule_matches rule path is_dir then negb (is_negation rule) else matches m path is_dir.
Proof. unfold matches. by rewrite fold_left_app. Qed.

(** The last matching rule decides: a path is ignored exactly when some rule
    matches it, is not a negation, and no later rule matches. *)
Theorem matches_last_rule m path is_dir :
  matches m path is_dir = true <->
  exists before rule after, m = before ++ rule :: after /\ rule_matches rule path is_dir = true /\
    is_negation rule = false /\ Forall (fun r => rule_matches r path is_dir = false) after.
Proof.
  induction m as [|r m IH] using rev_ind.
  - split; [done|]. intros (b & rule & a & E & _). by destruct b.
  - rewrite matches_app. destruct (rule_matches r path is_dir) eqn:Er.
    + split.
      * intros Hn. exists m, r, []. apply negb_true_iff in Hn. done.
      * intros (b & rule & a & E & Hm & Hneg & Ha). destruct a as [|a0 a _] using rev_ind.
        -- apply app_inj_2 in E as [_ [= ->]]; [|done]. by rewrite Hneg.
        -- rewrite app_comm_cons, app_assoc in E. apply app_inj_2 in E as [_ [= ->]]; [|done].
           apply Forall_app in Ha as [_ Ha]. inversion Ha; subst. congruence.
    + rewrite IH. split.
      * intros (b & rule & a & -> & Hm & Hneg & Ha). exists b, rule, (a ++ [r]).
        rewrite <-app_assoc. repeat (split; [done|]). apply Forall_app. by split; [|constructor].
      * intros (b & rule & a & E & Hm & Hneg & Ha). destruct a as [|a0 a _] using rev_ind.
        -- apply app_inj_2 in E as [_ [= ->]]; [|done]. congruence.
        -- rewrite app_comm_cons, app_assoc in E. apply app_inj_2 in E as [-> [= ->]]; [|done].
           apply Forall_app in Ha as [Ha _]. by exists b, rule, a.
Qed.
