(* ===== verification/Session.v ===== *)
(** * BEP sessions ([crates/syncthing-net/src/session], [protocol.rs])

    The life of one session as a step function on received inputs: waiting for
    the peer's ClusterConfig, sending the initial indexes, the steady-state
    loop and the cleanup.  The handler is a type class (the source's trait);
    protobuf coding and the outcome of sends are parameters.  The map of
    pending responses is part of the state because it is shared: every session
    of the daemon is given the same one, so an entry records the device the
    request went to. *)

From S2P Require Import Prelude Core Connection Bep.

(** [protocol::MessageType::from_u16] and the header conversions. *)
Definition message_type_of (v : Z) : option MessageType :=
  match v with
  | 0 => Some MtClusterConfig
  | 1 => Some MtIndex
  | 2 => Some MtIndexUpdate
  | 3 => Some MtRequest
  | 4 => Some MtResponse
  | 5 => Some MtDownloadProgress
  | 6 => Some MtPing
  | 7 => Some MtClose
  | _ => None
  end.

Definition message_type_code (t : MessageType) : Z :=
  match t with
  | MtClusterConfig => 0
  | MtIndex => 1
  | MtIndexUpdate => 2
  | MtRequest => 3
  | MtResponse => 4
  | MtDownloadProgress => 5
  | MtPing => 6
  | MtClose => 7
  end.

Record MessageHeader := mkMessageHeader {
  mh_type : MessageType;
  mh_id : Z;
  mh_compressed : bool;
}.

Definition to_bep_header (h : MessageHeader) : Header :=
  mkHeader (message_type_code (mh_type h)) (if mh_compressed h then 1 else 0).

Definition from_bep_header (h : Header) : option MessageHeader :=
  let+ t := message_type_of (header_type h) in
  Some (mkMessageHeader t 0 (header_compression h =? 1)).

Inductive BepSessionEvent :=
| EvClusterConfigComplete (device : DeviceId) (shared : list str)
| EvIndexSent (device : DeviceId) (folder : str) (file_count : nat) (last_sequence : Z)
| EvIndexReceived (device : DeviceId) (folder : str) (file_count : nat)
| EvIndexUpdateReceived (device : DeviceId) (folder : str) (file_count : nat)
| EvBlockRequested (device : DeviceId) (folder n : str) (offset size : Z)
| EvHeartbeatTimeout (device : DeviceId) (idle : Z)
| EvPeerSyncState (device : DeviceId) (folder : str)
| EvSessionEnded (device : DeviceId).

Record BepSessionMetrics := mkMetrics {
  m_messages_sent : Z;
  m_messages_recv : Z;
  m_bytes_sent : Z;
  m_bytes_recv : Z;
  m_blocks_requested : Z;
  m_blocks_served : Z;
  m_heartbeat_timeouts : Z;
  m_errors : Z;
  m_index_received : Z;
  m_index_update_received : Z;
  m_requests_received : Z;
  m_responses_received : Z;
  m_closes_received : Z;
}.

(** The sum of two counter records, each counter modulo 2^64 ([fetch_add]). *)
Definition metrics_add (a b : BepSessionMetrics) : BepSessionMetrics :=
  let add x y := wrap 64 (x + y) in
  mkMetrics (add (m_messages_sent a) (m_messages_sent b)) (add (m_messages_recv a) (m_messages_recv b))
    (add (m_bytes_sent a) (m_bytes_sent b)) (add (m_bytes_recv a) (m_bytes_recv b))
    (add (m_blocks_requested a) (m_blocks_requested b)) (add (m_blocks_served a) (m_blocks_served b))
    (add (m_heartbeat_timeouts a) (m_heartbeat_timeouts b)) (add (m_errors a) (m_errors b))
    (add (m_index_received a) (m_index_received b))
    (add (m_index_update_received a) (m_index_update_received b))
    (add (m_requests_received a) (m_requests_received b))
    (add (m_responses_received a) (m_responses_received b)) (add (m_closes_received a) (m_closes_received b)).

Definition count_error : BepSessionMetrics := mkMetrics 0 0 0 0 0 0 0 1 0 0 0 0 0.
Definition count_index : BepSessionMetrics := mkMetrics 0 0 0 0 0 0 0 0 1 0 0 0 0.
Definition count_index_update : BepSessionMetrics := mkMetrics 0 0 0 0 0 0 0 0 0 1 0 0 0.
Definition count_request : BepSessionMetrics := mkMetrics 0 0 0 0 1 0 0 0 0 0 1 0 0.
Definition count_response : BepSessionMetrics := mkMetrics 0 0 0 0 0 0 0 0 0 0 0 1 0.
Definition count_close : BepSessionMetrics := mkMetrics 0 0 0 0 0 0 0 0 0 0 0 0 1.
Definition count_received (len : Z) : BepSessionMetrics := mkMetrics 0 1 0 len 0 0 0 0 0 0 0 0 0.
Definition count_sent : BepSessionMetrics := mkMetrics 1 0 0 0 0 0 0 0 0 0 0 0 0.
Definition count_served (len : Z) : BepSessionMetrics := mkMetrics 1 0 len 0 0 1 0 0 0 0 0 0 0.
Definition count_heartbeat_timeout : BepSessionMetrics := mkMetrics 0 0 0 0 0 0 1 0 0 0 0 0 0.

(** The trait; [None] is an error of the handler. *)
Class BepSessionHandler (H : Type) := {
  generate_cluster_config : H -> DeviceId -> option ClusterConfig;
  generate_index : H -> str -> DeviceId -> option Index;
  on_index : H -> DeviceId -> Index -> option unit * H;
  on_index_update : H -> DeviceId -> IndexUpdate -> option unit * H;
  on_block_request : H -> DeviceId -> Request -> result ErrorCode (list Z);
}.

(** What is sent to the peer. *)
Inductive Outgoing :=
| OutClusterConfig (cc : ClusterConfig)
| OutIndex (idx : WireIndex)
| OutResponse (resp : Response)
| OutPing.

Inductive Phase := AwaitClusterConfig | Steady | Ended (ok : bool).

Record SessionEnv := mkSessionEnv {
  dec_cluster_config : list Z -> option ClusterConfig;
  dec_index : list Z -> option WireIndex;
  dec_index_update : list Z -> option WireIndexUpdate;
  dec_request : list Z -> option Request;
  dec_response : list Z -> option Response;
  enc_response : Response -> option (list Z);
  send_ok : list Outgoing -> Outgoing -> bool;
}.

Record BepSession (H : Type) := mkBepSession {
  ses_device : DeviceId;
  ses_handler : H;
  ses_pending : gmap Z DeviceId;
  ses_delivered : list (Z * Response);
  ses_sent : list Outgoing;
  ses_events : list BepSessionEvent;
  ses_metrics : BepSessionMetrics;
  ses_state : ConnectionState;
  ses_my_folders : list str;
  ses_remote_shared : option (list str);
  ses_phase : Phase;
}.
Arguments mkBepSession {H}.
Arguments ses_device {H}.
Arguments ses_handler {H}.
Arguments ses_pending {H}.
Arguments ses_delivered {H}.
Arguments ses_sent {H}.
Arguments ses_events {H}.
Arguments ses_metrics {H}.
Arguments ses_state {H}.
Arguments ses_my_folders {H}.
Arguments ses_remote_shared {H}.
Arguments ses_phase {H}.

(** What the loops can observe: a received message, an error of the
    connection, the ten-second timeout of the first phase, a message whose
    handling was cut off after thirty seconds (leaving the handler in state
    [h]), a heartbeat tick with the nanoseconds since the last message.  The
    last two are steps of others on the shared map: a request sent to [device]
    is registered, another session settles a request. *)
Inductive SessionInput (H : Type) :=
| InMessage (t : MessageType) (payload : list Z)
| InRecvError
| InTimeout
| InHandlingTimeout (t : MessageType) (payload : list Z) (h : H)
| InHeartbeat (idle : Z)
| InRegister (id : Z) (device : DeviceId)
| InTaken (id : Z).
Arguments InMessage {H}.
Arguments InRecvError {H}.
Arguments InTimeout {H}.
Arguments InHandlingTimeout {H}.
Arguments InHeartbeat {H}.
Arguments InRegister {H}.
Arguments InTaken {H}.

Section Session.
Context {H : Type} `{BepSessionHandler H} (env : SessionEnv).
Implicit Types s : BepSession H.

Definition emit s (e : BepSessionEvent) : BepSession H :=
  mkBepSession (ses_device s) (ses_handler s) (ses_pending s) (ses_delivered s) (ses_sent s)
    (ses_events s ++ [e]) (ses_metrics s) (ses_state s) (ses_my_folders s) (ses_remote_shared s) (ses_phase s).

Definition count s (d : BepSessionMetrics) : BepSession H :=
  mkBepSession (ses_device s) (ses_handler s) (ses_pending s) (ses_delivered s) (ses_sent s)
    (ses_events s) (metrics_add (ses_metrics s) d) (ses_state s) (ses_my_folders s) (ses_remote_shared s) (ses_phase s).

Definition set_handler s (h : H) : BepSession H :=
  mkBepSession (ses_device s) h (ses_pending s) (ses_delivered s) (ses_sent s)
    (ses_events s) (ses_metrics s) (ses_state s) (ses_my_folders s) (ses_remote_shared s) (ses_phase s).

Definition set_phase s (p : Phase) : BepSession H :=
  mkBepSession (ses_device s) (ses_handler s) (ses_pending s) (ses_delivered s) (ses_sent s)
    (ses_events s) (ses_metrics s) (ses_state s) (ses_my_folders s) (ses_remote_shared s) p.

(** A send that succeeds puts the message on the wire. *)
Definition transmit s (o : Outgoing) : BepSession H :=
  mkBepSession (ses_device s) (ses_handler s) (ses_pending s) (ses_delivered s) (ses_sent s ++ [o])
    (ses_events s) (ses_metrics s) (ses_state s) (ses_my_folders s) (ses_remote_shared s) (ses_phase s).

(** [pending_responses.remove(&id)] and [tx.send(resp)]. *)
Definition deliver s (id : Z) (resp : Response) : BepSession H :=
  mkBepSession (ses_device s) (ses_handler s) (delete id (ses_pending s)) (ses_delivered s ++ [(id, resp)])
    (ses_sent s) (ses_events s) (ses_metrics s) (ses_state s) (ses_my_folders s) (ses_remote_shared s) (ses_phase s).

(** A step of another task on the shared map. *)
Definition set_pending s (pending : gmap Z DeviceId) : BepSession H :=
  mkBepSession (ses_device s) (ses_handler s) pending (ses_delivered s) (ses_sent s)
    (ses_events s) (ses_metrics s) (ses_state s) (ses_my_folders s) (ses_remote_shared s) (ses_phase s).

(** The start of [run]: [None] when it returns before the loop. *)
Definition session_start (device : DeviceId) (h : H) (pending : gmap Z DeviceId) (st : ConnectionState)
  : option (BepSession H) :=
  let+ cc := generate_cluster_config h device in
  if send_ok env [] (OutClusterConfig cc)
  then Some (mkBepSession device h pending [] [OutClusterConfig cc] [] (mkMetrics 0 0 0 0 0 0 0 0 0 0 0 0 0)
               st (wfo_id <$> cc_folders cc) None AwaitClusterConfig)
  else None.

(** The initial index of one folder. *)
Definition send_initial_index s (folder : str) : BepSession H :=
  match generate_index (ses_handler s) folder (ses_device s) with
  | Some index =>
      let o := OutIndex (wire_of_index index) in
      if send_ok env (ses_sent s) o
      then emit (transmit s o)
             (EvIndexSent (ses_device s) folder (length (index_files index))
                (default 0 (list_max (sequence <$> index_files index))))
      else count s count_error
  | None => s
  end.

Definition shared_folders s : list str :=
  match ses_remote_shared s with
  | Some remote => filter (fun id => bool_decide (id ∈ remote)) (ses_my_folders s)
  | None => ses_my_folders s
  end.

(** The peer's ClusterConfig completes the exchange and sends the indexes. *)
Definition complete_cluster_config s (cc : ClusterConfig) : BepSession H :=
  let remote := wfo_id <$> cc_folders cc in
  let s1 := mkBepSession (ses_device s) (ses_handler s) (ses_pending s) (ses_delivered s) (ses_sent s)
              (ses_events s ++ [EvClusterConfigComplete (ses_device s) remote]) (ses_metrics s)
              CsClusterConfigComplete (ses_my_folders s) (Some remote) Steady in
  fold_left send_initial_index (shared_folders s1) s1.

(** The handling of a decoded message up to the call of the handler. *)
Definition received_index s (w : WireIndex) : BepSession H :=
  emit (emit (count s count_index)
    (EvIndexReceived (ses_device s) (wi_folder w) (length (wi_files w))))
    (EvPeerSyncState (ses_device s) (wi_folder w)).

Definition received_index_update s (w : WireIndexUpdate) : BepSession H :=
  emit (emit (count s count_index_update)
    (EvIndexUpdateReceived (ses_device s) (wu_folder w) (length (wu_files w))))
    (EvPeerSyncState (ses_device s) (wu_folder w)).

Definition received_request s (req : Request) : BepSession H :=
  emit (count s count_request)
    (EvBlockRequested (ses_device s) (req_folder req) (req_name req) (req_offset req) (req_size req)).

Definition handle_request s (req : Request) : BepSession H :=
  let s1 := received_request s req in
  match on_block_request (ses_handler s1) (ses_device s1) req with
  | Ok data =>
      let resp := mkResponse (req_id req) data (error_code_i32 NoError) in
      match enc_response env resp with
      | Some payload =>
          if send_ok env (ses_sent s1) (OutResponse resp)
          then count (transmit s1 (OutResponse resp)) (count_served (Z.of_nat (length payload)))
          else count s1 count_error
      | None => count s1 count_error
      end
  | Err code =>
      let resp := mkResponse (req_id req) [] (error_code_i32 code) in
      match enc_response env resp with
      | Some _ =>
          if send_ok env (ses_sent s1) (OutResponse resp)
          then count (transmit s1 (OutResponse resp)) count_sent
          else count s1 count_error
      | None => count s1 count_error
      end
  end.

Definition handle_response s (resp : Response) : BepSession H :=
  let s1 := count s count_response in
  if decide (is_Some (ses_pending s1 !! resp_id resp)) then deliver s1 (resp_id resp) resp
  else count s1 count_error.

(** [handle_message]: the next state, and [false] for [Err(ConnectionClosed)]. *)
Definition handle_message s (t : MessageType) (payload : list Z) : BepSession H * bool :=
  match t with
  | MtPing => (s, true)
  | MtIndex =>
      match dec_index env payload with
      | Some w =>
          let s1 := received_index s w in
          let '(r, h) := on_index (ses_handler s1) (ses_device s1) (index_of_wire w) in
          (match r with Some _ => set_handler s1 h | None => count (set_handler s1 h) count_error end, true)
      | None => (count s count_error, true)
      end
  | MtIndexUpdate =>
      match dec_index_update env payload with
      | Some w =>
          let s1 := received_index_update s w in
          let '(r, h) := on_index_update (ses_handler s1) (ses_device s1) (index_update_of_wire w) in
          (match r with Some _ => set_handler s1 h | None => count (set_handler s1 h) count_error end, true)
      | None => (count s count_error, true)
      end
  | MtRequest =>
      match dec_request env payload with
      | Some req => (handle_request s req, true)
      | None => (count s count_error, true)
      end
  | MtResponse =>
      match dec_response env payload with
      | Some resp => (handle_response s resp, true)
      | None => (count s count_error, true)
      end
  | MtClose => (count s count_close, false)
  | MtClusterConfig | MtDownloadProgress => (s, true)
  end.

(** Handling cut off by the timeout while the handler, or the send of its
    answer, is waiting: what was done before stays, the handler is left in
    state [h] and no answer is sent.  The other messages never wait. *)
Definition handle_message_cut s (t : MessageType) (payload : list Z) (h : H) : option (BepSession H) :=
  match t with
  | MtIndex => let+ w := dec_index env payload in Some (set_handler (received_index s w) h)
  | MtIndexUpdate => let+ w := dec_index_update env payload in Some (set_handler (received_index_update s w) h)
  | MtRequest => let+ req := dec_request env payload in Some (set_handler (received_request s req) h)
  | MtPing | MtResponse | MtClose | MtClusterConfig | MtDownloadProgress => None
  end.

(** The response a waiter gets when its session ends. *)
Definition failed_response (id : Z) : Response := mkResponse id [] (error_code_i32 Generic).

(** After the loop: every pending response is failed, then [SessionEnded]. *)
Definition finish s : BepSession H :=
  let s1 := fold_left (fun s id => deliver s id (failed_response id)) ((map_to_list (ses_pending s)).*1) s in
  set_phase (emit s1 (EvSessionEnded (ses_device s1))) (Ended true).

(** One step; the steps of other tasks on the map happen in every phase. *)
Definition session_step s (i : SessionInput H) : BepSession H :=
  match i with
  | InRegister id device => set_pending s (<[id := device]> (ses_pending s))
  | InTaken id => set_pending s (delete id (ses_pending s))
  | _ =>
  match ses_phase s with
  | Ended _ => s
  | AwaitClusterConfig =>
      match i with
      | InMessage MtClusterConfig payload =>
          match dec_cluster_config env payload with
          | Some cc => complete_cluster_config s cc
          | None => s
          end
      | InMessage _ _ => s
      | InRecvError | InTimeout => set_phase s (Ended false)
      | _ => s
      end
  | Steady =>
      match i with
      | InMessage t payload =>
          let '(s1, ok) := handle_message (count s (count_received (Z.of_nat (length payload)))) t payload in
          if ok then s1 else finish s1
      | InHandlingTimeout t payload h =>
          match handle_message_cut (count s (count_received (Z.of_nat (length payload)))) t payload h with
          | Some s1 => finish s1
          | None => s
          end
      | InRecvError => finish s
      | InHeartbeat idle =>
          if 120_000_000_000 <? idle
          then finish (emit (count s count_heartbeat_timeout) (EvHeartbeatTimeout (ses_device s) idle))
          else if send_ok env (ses_sent s) OutPing then count (transmit s OutPing) count_sent
          else finish s
      | _ => s
      end
  end
  end.

Definition session_run s (inputs : list (SessionInput H)) : BepSession H := fold_left session_step inputs s.

End Session.

(** ** Lemmas *)

Section SessionProofs.
Context {H : Type} `{BepSessionHandler H} (env : SessionEnv).
Implicit Types s : BepSession H.

Lemma session_run_app s i j : session_run env s (i ++ j) = session_run env (session_run env s i) j.
Proof. apply fold_left_app. Qed.

(** Sending the initial indexes leaves everything but sent messages, events
    and counters alone. *)
Record same_core s s' : Prop := {
  core_device : ses_device s' = ses_device s;
  core_handler : ses_handler s' = ses_handler s;
  core_pending : ses_pending s' = ses_pending s;
  core_delivered : ses_delivered s' = ses_delivered s;
  core_my : ses_my_folders s' = ses_my_folders s;
  core_remote : ses_remote_shared s' = ses_remote_shared s;
  core_phase : ses_phase s' = ses_phase s;
}.

Lemma same_core_refl s : same_core s s.
Proof. by split. Qed.

Lemma same_core_trans s1 s2 s3 : same_core s1 s2 -> same_core s2 s3 -> same_core s1 s3.
Proof. intros [] []. split; congruence. Qed.

Lemma send_initial_index_core s fo : same_core s (send_initial_index env s fo).
Proof. unfold send_initial_index. repeat case_match; by split. Qed.

Lemma send_initial_indexes_core fs s : same_core s (fold_left (send_initial_index env) fs s).
Proof.
  revert s. induction fs as [|fo fs IH]; intros s; [apply same_core_refl|].
  eapply same_core_trans; [apply send_initial_index_core|apply IH].
Qed.

Lemma deliver_all_spec ids s :
  NoDup ids ->
  let s' := fold_left (fun s id => deliver s id (failed_response id)) ids s in
  ses_pending s' = foldr delete (ses_pending s) ids /\
  ses_delivered s' = ses_delivered s ++ ((fun id => (id, failed_response id)) <$> ids) /\
  ses_device s' = ses_device s /\ ses_sent s' = ses_sent s /\ ses_events s' = ses_events s /\
  ses_my_folders s' = ses_my_folders s /\ ses_remote_shared s' = ses_remote_shared s /\
  ses_handler s' = ses_handler s.
Proof.
  revert s. induction ids as [|id ids IH]; intros s Hn; [simpl; by rewrite app_nil_r|].
  inversion Hn as [|? ? Hid Hn']; subst. cbn [fold_left].
  destruct (IH (deliver s id (failed_response id)) Hn') as (E1 & E2 & E3 & E4 & E5 & E6 & E7 & E8).
  simpl in *. split.
  - rewrite E1. clear. induction ids as [|x ids IH]; [done|]. simpl. rewrite IH. apply delete_delete.
  - split; [|done]. rewrite E2. by rewrite <-app_assoc.
Qed.

Lemma foldr_delete_keys (m : gmap Z DeviceId) : foldr delete m ((map_to_list m).*1) = ∅.
Proof.
  apply map_eq. intros k. rewrite lookup_empty.
  destruct (decide (k ∈ (map_to_list m).*1)) as [Hin|Hout].
  - revert Hin. generalize ((map_to_list m).*1). intros l Hin.
    induction l as [|x l IH]; [by apply elem_of_nil in Hin|]. simpl.
    destruct (decide (x = k)) as [->|Hne]; [apply lookup_delete_eq|]. rewrite lookup_delete_ne by done.
    apply IH. by apply elem_of_cons in Hin as [->|].
  - assert (m !! k = None) as Hm.
    { destruct (m !! k) as [d|] eqn:E; [|done]. exfalso. apply Hout. apply list_elem_of_fmap.
      exists (k, d). split; [done|]. by apply elem_of_map_to_list. }
    generalize ((map_to_list m).*1). intros l. induction l as [|x l IH]; [done|]. simpl.
    destruct (decide (x = k)) as [->|Hne]; [apply lookup_delete_eq|]. by rewrite lookup_delete_ne.
Qed.

Lemma finish_spec s :
  ses_pending (finish s) = ∅ /\
  ses_delivered (finish s) =
    ses_delivered s ++ ((fun id => (id, failed_response id)) <$> (map_to_list (ses_pending s)).*1) /\
  ses_sent (finish s) = ses_sent s /\ ses_phase (finish s) = Ended true /\
  ses_events (finish s) = ses_events s ++ [EvSessionEnded (ses_device s)] /\
  ses_my_folders (finish s) = ses_my_folders s /\ ses_remote_shared (finish s) = ses_remote_shared s /\
  ses_device (finish s) = ses_device s.
Proof.
  unfold finish.
  destruct (deliver_all_spec ((map_to_list (ses_pending s)).*1) s (NoDup_fst_map_to_list _))
    as (E1 & E2 & E3 & E4 & E5 & E6 & E7 & _). simpl in *.
  rewrite E1, E2, E3, E4, E5, E6, E7, foldr_delete_keys. done.
Qed.

Definition received s (p : list Z) : BepSession H := count s (count_received (Z.of_nat (length p))).

(** The shapes a step can have; the case analysis every proof about
    [session_step] starts with. *)
Inductive step_case s : SessionInput H -> BepSession H -> Prop :=
| case_idle i :
    (forall t p, i = InMessage t p -> ses_phase s <> Steady) ->
    (forall id d, i <> InRegister id d) -> (forall id, i <> InTaken id) -> step_case s i s
| case_register id d : step_case s (InRegister id d) (set_pending s (<[id := d]> (ses_pending s)))
| case_taken id : step_case s (InTaken id) (set_pending s (delete id (ses_pending s)))
| case_config p cc :
    ses_phase s = AwaitClusterConfig ->
    step_case s (InMessage MtClusterConfig p) (complete_cluster_config env s cc)
| case_fail i :
    i = InRecvError \/ i = InTimeout -> ses_phase s = AwaitClusterConfig -> step_case s i (set_phase s (Ended false))
| case_message t p :
    ses_phase s = Steady ->
    step_case s (InMessage t p)
      (let '(s1, ok) := handle_message env (received s p) t p in if ok then s1 else finish s1)
| case_cut t p h s1 :
    ses_phase s = Steady -> handle_message_cut env (received s p) t p h = Some s1 ->
    step_case s (InHandlingTimeout t p h) (finish s1)
| case_error i :
    i = InRecvError \/ (exists idle, i = InHeartbeat idle) -> ses_phase s = Steady -> step_case s i (finish s)
| case_heartbeat idle :
    ses_phase s = Steady ->
    step_case s (InHeartbeat idle)
      (finish (emit (count s count_heartbeat_timeout) (EvHeartbeatTimeout (ses_device s) idle)))
| case_ping idle :
    ses_phase s = Steady -> step_case s (InHeartbeat idle) (count (transmit s OutPing) count_sent).

Lemma session_step_case s i : step_case s i (session_step env s i).
Proof.
  assert (forall j, (forall t p, j = InMessage t p -> ses_phase s <> Steady) ->
    match j with InRegister _ _ | InTaken _ => False | _ => True end -> step_case s j s) as Hidle.
  { intros j Hm Hj. apply case_idle; [done| |]; by intros; intros ->. }
  unfold session_step.
  destruct i as [t p| | |t p h|idle|id d|id]; [..|apply case_register|apply case_taken];
    (destruct (ses_phase s) as [| |ok] eqn:Ep; [| |by apply Hidle]).
  - destruct t; try (by apply Hidle).
    destruct (dec_cluster_config env p); [by apply case_config|by apply Hidle].
  - by apply case_message.
  - apply case_fail; eauto.
  - apply case_error; eauto.
  - apply case_fail; eauto.
  - by apply Hidle.
  - by apply Hidle.
  - fold (received s p). destruct (handle_message_cut env _ t p h) as [s1|] eqn:E; [by eapply case_cut|by apply Hidle].
  - by apply Hidle.
  - destruct (_ <? _); [by apply case_heartbeat|].
    destruct (send_ok env (ses_sent s) OutPing); [by apply case_ping|apply case_error; eauto].
Qed.

(** ** Order of the protocol *)

(** Index messages are only sent for folders of both sides, and nothing is
    handled or sent while the peer's ClusterConfig is outstanding. *)
Definition index_events_shared s : Prop :=
  forall d fo n q, EvIndexSent d fo n q ∈ ses_events s ->
    fo ∈ ses_my_folders s /\ exists remote, ses_remote_shared s = Some remote /\ fo ∈ remote.

Definition waiting_inert (h : H) (cc : ClusterConfig) s : Prop :=
  ses_phase s = AwaitClusterConfig ->
  ses_handler s = h /\ ses_delivered s = [] /\ ses_sent s = [OutClusterConfig cc] /\ ses_events s = [].

Lemma elem_of_snoc_event s e x : x ∈ ses_events s ++ [e] -> x ∈ ses_events s \/ x = e.
Proof. rewrite elem_of_app, list_elem_of_singleton. done. Qed.

Lemma send_initial_indexes_events fs s :
  index_events_shared s -> (forall fo, fo ∈ fs -> fo ∈ ses_my_folders s /\
    exists remote, ses_remote_shared s = Some remote /\ fo ∈ remote) ->
  index_events_shared (fold_left (send_initial_index env) fs s).
Proof.
  revert s. induction fs as [|fo fs IH]; intros s Hi Hf; [done|]. cbn [fold_left].
  destruct (send_initial_index_core s fo) as [_ _ _ _ Em Er _]. apply IH.
  - intros d f n q Hin. rewrite Em, Er. unfold send_initial_index in Hin.
    destruct (generate_index _ _ _) as [idx|]; [|by eapply Hi].
    destruct (send_ok env _ _); [|by eapply Hi]. simpl in Hin.
    apply elem_of_snoc_event in Hin as [Hin|[= -> -> -> ->]]; [by eapply Hi|]. apply Hf. by left.
  - intros f Hin. rewrite Em, Er. apply Hf. by right.
Qed.

(** Handling a message of the steady state keeps folders and phase and adds no
    index event. *)
Lemma handle_message_frame s t p :
  let s' := (handle_message env s t p).1 in
  ses_my_folders s' = ses_my_folders s /\ ses_remote_shared s' = ses_remote_shared s /\
  ses_phase s' = ses_phase s /\ ses_device s' = ses_device s /\
  (forall d fo n q, EvIndexSent d fo n q ∈ ses_events s' -> EvIndexSent d fo n q ∈ ses_events s).
Proof.
  assert (forall l (e : BepSessionEvent) d fo n q, (forall d fo n q, e <> EvIndexSent d fo n q) ->
            EvIndexSent d fo n q ∈ l ++ [e] -> EvIndexSent d fo n q ∈ l) as Hsnoc.
  { intros l e d fo n q Hne. rewrite elem_of_app, list_elem_of_singleton. intros [?|E]; [done|].
    exfalso. by eapply Hne. }
  unfold handle_message, handle_request, handle_response.
  destruct t; repeat case_match; simpl; repeat (split; [done|]); intros d' fo' n' q' Hin;
    repeat (apply Hsnoc in Hin; [|done]); done.
Qed.

Lemma handle_message_sent s t p : exists tail, ses_sent (handle_message env s t p).1 = ses_sent s ++ tail.
Proof.
  unfold handle_message, handle_request, handle_response.
  destruct t; repeat case_match; simpl; eauto using app_nil_r; by exists []; rewrite app_nil_r.
Qed.

Lemma send_initial_indexes_sent fs s : exists tail, ses_sent (fold_left (send_initial_index env) fs s) = ses_sent s ++ tail.
Proof.
  revert s. induction fs as [|fo fs IH]; intros s; [exists []; by rewrite app_nil_r|]. cbn [fold_left].
  destruct (IH (send_initial_index env s fo)) as [t ->].
  assert (exists t', ses_sent (send_initial_index env s fo) = ses_sent s ++ t') as [t' ->].
  { unfold send_initial_index. repeat case_match; simpl; eauto; by exists []; rewrite app_nil_r. }
  exists (t' ++ t). by rewrite app_assoc.
Qed.

Lemma handle_message_cut_frame s t p h s' :
  handle_message_cut env s t p h = Some s' ->
  ses_my_folders s' = ses_my_folders s /\ ses_remote_shared s' = ses_remote_shared s /\
  ses_sent s' = ses_sent s /\ ses_pending s' = ses_pending s /\ ses_delivered s' = ses_delivered s /\
  (forall d fo n q, EvIndexSent d fo n q ∈ ses_events s' -> EvIndexSent d fo n q ∈ ses_events s).
Proof.
  unfold handle_message_cut. intros Hc.
  destruct t; try done;
    [destruct (dec_index env p)|destruct (dec_index_update env p)|destruct (dec_request env p)]; try done;
    injection Hc as <-; simpl; repeat (split; [done|]); intros d fo n q Hin;
    repeat (apply elem_of_app in Hin as [Hin|Hin%list_elem_of_singleton]; [|done]); done.
Qed.

Lemma session_step_sent s i : exists tail, ses_sent (session_step env s i) = ses_sent s ++ tail.
Proof.
  assert (exists tail : list Outgoing, ses_sent s = ses_sent s ++ tail) as Hnil by (exists []; by rewrite app_nil_r).
  assert (forall x : BepSession H, ses_sent x = ses_sent s -> exists tail, ses_sent (finish x) = ses_sent s ++ tail) as Hfin.
  { intros x Hx. destruct (finish_spec x) as (_ & _ & -> & _). by rewrite Hx. }
  destruct (session_step_case s i) as [| | |p cc _| |t p _|t p h s1 _ Hc| | |]; try done; try by apply Hfin.
  - unfold complete_cluster_config.
    match goal with |- context [fold_left _ ?fs ?s1] => destruct (send_initial_indexes_sent fs s1) as [t ->] end.
    by eexists.
  - destruct (handle_message_sent (received s p) t p) as [tl E].
    destruct (handle_message env _ t p) as [s1 ok]. simpl in E. exists tl. rewrite <-E.
    destruct ok; [done|]. apply finish_spec.
  - apply Hfin. apply handle_message_cut_frame in Hc as (_ & _ & -> & _). done.
  - by eexists.
Qed.

Lemma finish_events s : index_events_shared s -> index_events_shared (finish s).
Proof.
  intros Hi d fo n q. destruct (finish_spec s) as (_ & _ & _ & _ & -> & -> & -> & _).
  intros [Hin|Heq]%elem_of_snoc_event; [by eapply Hi|done].
Qed.

(** The invariant of a session started with [h] and [cc]. *)
Definition session_inv (h : H) (cc : ClusterConfig) s : Prop :=
  waiting_inert h cc s /\ index_events_shared s /\ exists tail, ses_sent s = OutClusterConfig cc :: tail.

Lemma waiting_inert_left h cc s : ses_phase s <> AwaitClusterConfig -> waiting_inert h cc s.
Proof. by intros ? ?. Qed.

Lemma session_step_order h cc s i :
  session_inv h cc s ->
  waiting_inert h cc (session_step env s i) /\ index_events_shared (session_step env s i).
Proof.
  intros (Hw & Hi & _).
  assert (forall x, index_events_shared x -> waiting_inert h cc (finish x) /\ index_events_shared (finish x)) as Hfin.
  { intros x Hx. split; [|by apply finish_events]. apply waiting_inert_left.
    destruct (finish_spec x) as (_ & _ & _ & -> & _). done. }
  destruct (session_step_case s i) as [|id d|id|p cc' Ep|i _ Ep|t p Ep|t p h' s1 Ep Hc|i _ Ep|idle Ep|idle Ep];
    try done; try (by apply Hfin).
  - destruct (Hw Ep) as (_ & _ & _ & Hev).
    unfold complete_cluster_config. set (s1 := mkBepSession _ _ _ _ _ _ _ _ _ _ _). split.
    + apply waiting_inert_left. rewrite (core_phase _ _ (send_initial_indexes_core _ s1)). done.
    + apply send_initial_indexes_events.
      * intros d fo n q. subst s1. simpl. rewrite Hev. by intros ?%list_elem_of_singleton.
      * intros fo. subst s1. unfold shared_folders. simpl.
        intros [Hr%bool_decide_unpack Hm]%list_elem_of_filter. by split; [|eexists].
  - destruct (handle_message_frame (received s p) t p) as (E1 & E2 & E3 & _ & He).
    destruct (handle_message env _ t p) as [s1 ok]. simpl in *.
    assert (index_events_shared s1) as Hs1.
    { intros d fo n q Hin. rewrite E1, E2. by eapply Hi, He. }
    destruct ok; [|by apply Hfin]. split; [|done]. apply waiting_inert_left. congruence.
  - apply Hfin. apply handle_message_cut_frame in Hc as (E1 & E2 & _ & _ & _ & He).
    intros d fo n q Hin. rewrite E1, E2. by eapply Hi, He.
  - apply Hfin. intros d fo n q [Hin|?]%elem_of_snoc_event; [by eapply Hi|done].
  - split; [|done]. apply waiting_inert_left. simpl. congruence.
Qed.

Lemma session_run_inv h cc inputs s :
  session_inv h cc s -> session_inv h cc (session_run env s inputs).
Proof.
  revert s. induction inputs as [|i inputs IH]; intros s Hs; [done|]. apply IH.
  destruct (session_step_order h cc s i Hs) as [H1 H2]. destruct Hs as (_ & _ & tail & Et).
  destruct (session_step_sent s i) as [t Est]. split; [done|]. split; [done|]. exists (tail ++ t).
  by rewrite Est, Et.
Qed.

(** The session follows the protocol order whatever the peer sends and
    however sends fail: the first message sent is our ClusterConfig; until the
    peer's ClusterConfig arrives nothing is handled, answered or announced; and
    an initial index is only ever sent for a folder both sides share. *)
Theorem session_protocol_order device h pending st s0 inputs :
  session_start env device h pending st = Some s0 ->
  exists cc, generate_cluster_config h device = Some cc /\
    let s := session_run env s0 inputs in
    (ses_phase s = AwaitClusterConfig ->
       ses_handler s = h /\ ses_delivered s = [] /\
       ses_sent s = [OutClusterConfig cc] /\ ses_events s = []) /\
    (forall d fo n q, EvIndexSent d fo n q ∈ ses_events s ->
       fo ∈ ses_my_folders s /\ exists remote, ses_remote_shared s = Some remote /\ fo ∈ remote) /\
    (exists tail, ses_sent s = OutClusterConfig cc :: tail).
Proof.
  unfold session_start. destruct (generate_cluster_config h device) as [cc|]; [|done]. simpl.
  destruct (send_ok env [] (OutClusterConfig cc)); [|done]. intros [= <-]. exists cc. split; [done|].
  apply (session_run_inv h cc). split; [by intros _|]. split; [|by eexists].
  intros d fo n q. simpl. by intros ?%elem_of_nil.
Qed.

(** ** Requests are answered *)

Definition response_for (h : H) (device : DeviceId) (req : Request) : Response :=
  match on_block_request h device req with
  | Ok data => mkResponse (req_id req) data (error_code_i32 NoError)
  | Err code => mkResponse (req_id req) [] (error_code_i32 code)
  end.

Definition responses (sent : list Outgoing) : list Response :=
  omap (fun o => match o with OutResponse r => Some r | _ => None end) sent.

(** The answers a run owes: one per request read in the steady state. *)
Fixpoint owed s (inputs : list (SessionInput H)) : list Response :=
  match inputs with
  | [] => []
  | i :: rest =>
      match ses_phase s, i with
      | Steady, InMessage MtRequest p =>
          match dec_request env p with
          | Some req => [response_for (ses_handler s) (ses_device s) req]
          | None => []
          end
      | _, _ => []
      end ++ owed (session_step env s i) rest
  end.

Lemma responses_app a b : responses (a ++ b) = responses a ++ responses b.
Proof. apply omap_app. Qed.

Lemma initial_indexes_responses fs s :
  responses (ses_sent (fold_left (send_initial_index env) fs s)) = responses (ses_sent s).
Proof.
  revert s. induction fs as [|fo fs IH]; intros s; [done|]. cbn [fold_left]. rewrite IH.
  unfold send_initial_index. repeat case_match; simpl; rewrite ?responses_app; simpl; by rewrite ?app_nil_r.
Qed.

Hypothesis sends_work : forall h o, send_ok env h o = true.
Hypothesis encoding_works : forall r, is_Some (enc_response env r).

Lemma handle_message_responses s t p :
  responses (ses_sent (handle_message env s t p).1) = responses (ses_sent s) ++
  match t with
  | MtRequest => match dec_request env p with
                 | Some req => [response_for (ses_handler s) (ses_device s) req]
                 | None => []
                 end
  | _ => []
  end.
Proof using sends_work encoding_works.
  unfold handle_message, handle_response. destruct t; try (repeat case_match; simpl; by rewrite app_nil_r).
  destruct (dec_request env p) as [req|]; [|simpl; by rewrite app_nil_r].
  unfold handle_request, response_for. cbn [ses_handler ses_device emit count received_request].
  destruct (on_block_request (ses_handler s) (ses_device s) req) as [data|code].
  - destruct (encoding_works (mkResponse (req_id req) data (error_code_i32 NoError))) as [b Eb].
    rewrite Eb, sends_work. simpl. by rewrite responses_app.
  - destruct (encoding_works (mkResponse (req_id req) [] (error_code_i32 code))) as [b Eb].
    rewrite Eb, sends_work. simpl. by rewrite responses_app.
Qed.

Lemma session_step_responses s i :
  responses (ses_sent (session_step env s i)) = responses (ses_sent s) ++
  match ses_phase s, i with
  | Steady, InMessage MtRequest p =>
      match dec_request env p with
      | Some req => [response_for (ses_handler s) (ses_device s) req]
      | None => []
      end
  | _, _ => []
  end.
Proof using sends_work encoding_works.
  assert (forall x : BepSession H, ses_sent x = ses_sent s ->
            responses (ses_sent (finish x)) = responses (ses_sent s) ++ []) as Hfin.
  { intros x Hx. destruct (finish_spec x) as (_ & _ & -> & _). by rewrite Hx, app_nil_r. }
  destruct (session_step_case s i) as [i Hm|id d|id|p cc Ep|i Hi Ep|t p Ep|t p h s1 Ep Hc|i Hi Ep|idle Ep|idle Ep].
  - destruct (ses_phase s), i as [[] p| | | | | |]; try (by rewrite app_nil_r). by destruct (Hm MtRequest p).
  - by destruct (ses_phase s); rewrite app_nil_r.
  - by destruct (ses_phase s); rewrite app_nil_r.
  - rewrite Ep, app_nil_r. unfold complete_cluster_config. by rewrite initial_indexes_responses.
  - by rewrite Ep, app_nil_r.
  - rewrite Ep. pose proof (handle_message_responses (received s p) t p) as E.
    destruct (handle_message env _ t p) as [s1 ok]. simpl in E. rewrite <-E. destruct ok; [done|].
    by destruct (finish_spec s1) as (_ & _ & -> & _).
  - rewrite Ep. apply Hfin. by apply handle_message_cut_frame in Hc as (_ & _ & -> & _).
  - rewrite Ep, Hfin by done. destruct Hi as [->|[idle ->]]; done.
  - rewrite Ep. by apply Hfin.
  - rewrite Ep. simpl. by rewrite responses_app.
Qed.

(** While the connection accepts messages, every block request read in the
    steady state is answered exactly once, in order, with the request's ID, and
    with the handler's data or its error code; nothing else is answered. *)
Theorem session_answers_requests s inputs :
  responses (ses_sent (session_run env s inputs)) = responses (ses_sent s) ++ owed s inputs.
Proof using sends_work encoding_works.
  revert s. induction inputs as [|i inputs IH]; intros s; [by rewrite app_nil_r|].
  change (session_run env s (i :: inputs)) with (session_run env (session_step env s i) inputs).
  rewrite IH, session_step_responses, <-app_assoc. done.
Qed.

End SessionProofs.

(** ** Pending responses *)

Definition registered {H} (inputs : list (SessionInput H)) : list Z :=
  omap (fun i => match i with InRegister id _ => Some id | _ => None end) inputs.

Definition taken {H} (inputs : list (SessionInput H)) : list Z :=
  omap (fun i => match i with InTaken id => Some id | _ => None end) inputs.

Section Settled.
Context {H : Type} `{BepSessionHandler H} (env : SessionEnv).
Implicit Types s : BepSession H.

(** Of the requests [known], each is still pending, answered here (once), or
    among those [gone] to another session. *)
Record settled (known gone : list Z) s : Prop := {
  st_once : NoDup (ses_delivered s).*1;
  st_known : forall id, id ∈ known ->
    is_Some (ses_pending s !! id) \/ id ∈ (ses_delivered s).*1 \/ id ∈ gone;
  st_pending : forall id, is_Some (ses_pending s !! id) -> id ∈ known /\ id ∉ (ses_delivered s).*1;
  st_delivered : Forall (fun p => resp_id p.2 = p.1 /\ p.1 ∈ known) (ses_delivered s);
}.

Lemma settled_same known gone s s' :
  ses_pending s' = ses_pending s -> ses_delivered s' = ses_delivered s ->
  settled known gone s -> settled known gone s'.
Proof. intros E1 E2 []. split; rewrite ?E1, ?E2; done. Qed.

Lemma settled_deliver known gone s id resp :
  is_Some (ses_pending s !! id) -> resp_id resp = id ->
  settled known gone s -> settled known gone (deliver s id resp).
Proof.
  intros Hp Hr [Hn Hu Hd Hf]. destruct (Hd _ Hp) as [Hk Hnd]. split; simpl; rewrite ?fmap_app; simpl.
  - apply NoDup_app. split; [done|]. split; [|apply NoDup_singleton]. by intros x Hx ->%list_elem_of_singleton.
  - intros x Hx. rewrite elem_of_app, list_elem_of_singleton. destruct (decide (x = id)) as [->|Hne]; [tauto|].
    rewrite lookup_delete_ne by done. destruct (Hu _ Hx) as [?|[?|?]]; tauto.
  - intros x [d [Hne Hs]%lookup_delete_Some]. destruct (Hd x) as [? Hx]; [by eexists|]. split; [done|].
    rewrite elem_of_app, list_elem_of_singleton. intros [?|?]; [done|congruence].
  - apply Forall_app. split; [done|]. by repeat constructor.
Qed.

Lemma settled_finish known gone s : settled known gone s -> settled known gone (finish s).
Proof.
  intros Hs.
  assert (forall ids x, NoDup ids -> (forall id, id ∈ ids -> is_Some (ses_pending x !! id)) -> settled known gone x ->
            settled known gone (fold_left (fun s id => deliver s id (failed_response id)) ids x)) as Hall.
  { induction ids as [|id ids IH]; intros x Hn Hin Hx; [done|]. inversion Hn as [|? ? Hid Hn']; subst. apply IH; [done| |].
    - intros k Hk. simpl. rewrite lookup_delete_ne; [apply Hin; by right|]. by intros ->.
    - apply settled_deliver; [apply Hin; by left|done|done]. }
  unfold finish. eapply settled_same; [| |apply (Hall ((map_to_list (ses_pending s)).*1) s)];
    [done|done|apply NoDup_fst_map_to_list| |done].
  intros id ([k d] & -> & Hin%elem_of_map_to_list)%list_elem_of_fmap. by eexists.
Qed.

Lemma settled_handle_message known gone s t p :
  settled known gone s -> settled known gone (handle_message env s t p).1.
Proof.
  intros Hs. unfold handle_message, handle_request, handle_response.
  destruct t; try (repeat case_match; by (eapply settled_same; [| |exact Hs])).
  destruct (dec_response env p) as [resp|]; [|by (eapply settled_same; [| |exact Hs])].
  cbn [fst]. case_decide as Hd; [|by (eapply settled_same; [| |exact Hs])].
  apply settled_deliver; [done|done|]. by (eapply settled_same; [| |exact Hs]).
Qed.

Lemma settled_register known gone s id d :
  id ∉ known -> settled known gone s ->
  settled (known ++ [id]) gone (set_pending s (<[id := d]> (ses_pending s))).
Proof.
  intros Hid [Hn Hu Hd Hf]. rewrite Forall_forall in Hf. split; simpl; [done| | |].
  - intros x [Hx| ->%list_elem_of_singleton]%elem_of_app; [|left; rewrite lookup_insert_eq; eauto].
    rewrite lookup_insert_ne by (by intros ->). by apply Hu.
  - intros x. rewrite elem_of_app, list_elem_of_singleton.
    destruct (decide (x = id)) as [->|Hne]; [|rewrite lookup_insert_ne by done; naive_solver].
    intros _. split; [by right|]. intros ([k r] & -> & Hin)%list_elem_of_fmap.
    by destruct (Hf _ Hin).
  - apply Forall_forall. intros q Hq. rewrite elem_of_app. naive_solver.
Qed.

Lemma settled_taken known gone s id :
  settled known gone s -> settled known (gone ++ [id]) (set_pending s (delete id (ses_pending s))).
Proof.
  intros [Hn Hu Hd Hf]. split; simpl; [done| | |done].
  - intros x Hx. rewrite elem_of_app, list_elem_of_singleton. destruct (decide (x = id)) as [->|Hne]; [tauto|].
    rewrite lookup_delete_ne by done. destruct (Hu _ Hx) as [?|[?|?]]; tauto.
  - intros x [d [_ Hx]%lookup_delete_Some]. apply Hd. by eexists.
Qed.

Lemma settled_step known gone s i :
  NoDup (known ++ registered [i]) -> settled known gone s ->
  settled (known ++ registered [i]) (gone ++ taken [i]) (session_step env s i).
Proof.
  intros Hnd Hs.
  assert (forall j : SessionInput H, registered [j] = [] -> taken [j] = [] -> forall s', settled known gone s' ->
            settled (known ++ registered [j]) (gone ++ taken [j]) s') as Hk.
  { intros j -> -> s'. by rewrite !app_nil_r. }
  revert Hnd. destruct (session_step_case env s i) as [i _ Hr Ht|id d|id|p cc Ep|i [-> | ->] Ep|t p Ep|t p h s1 Ep Hc|i [->|[idle ->]] Ep|idle Ep|idle Ep];
    intros Hnd; try (apply Hk; [done|done|]; first [done|by apply settled_finish|by eapply settled_same; [| |exact Hs]]).
  - destruct i; try (by apply Hk); [by destruct (Hr id device)|by destruct (Ht id)].
  - simpl in *. rewrite app_nil_r. apply settled_register; [|done].
    apply NoDup_app in Hnd as (_ & Hx & _). intros Hin. apply (Hx _ Hin). by apply list_elem_of_singleton.
  - simpl. rewrite app_nil_r. by apply settled_taken.
  - apply Hk; [done|done|]. unfold complete_cluster_config.
    match goal with |- context [fold_left _ ?fs ?s1] => destruct (send_initial_indexes_core env fs s1) as [_ _ E1 E2 _ _ _] end.
    eapply settled_same; [exact E1|exact E2|]. by eapply settled_same; [| |exact Hs].
  - apply Hk; [done|done|]. assert (settled known gone (received s p)) as Hp by (by eapply settled_same; [| |exact Hs]).
    apply (settled_handle_message _ _ _ t p) in Hp. destruct (handle_message env _ t p) as [s1 ok].
    destruct ok; [done|by apply settled_finish].
  - apply Hk; [done|done|]. apply settled_finish.
    apply handle_message_cut_frame in Hc as (_ & _ & _ & E1 & E2 & _). eapply settled_same; [exact E1|exact E2|]. by eapply settled_same; [| |exact Hs].
  - apply Hk; [done|done|]. apply settled_finish. by eapply settled_same; [| |exact Hs].
Qed.

Lemma settled_run known gone s inputs :
  NoDup (known ++ registered inputs) -> settled known gone s ->
  settled (known ++ registered inputs) (gone ++ taken inputs) (session_run env s inputs).
Proof.
  revert known gone s. induction inputs as [|i inputs IH]; intros known gone s Hn Hs.
  - by rewrite !app_nil_r.
  - change (i :: inputs) with ([i] ++ inputs) in *. unfold registered, taken in *.
    rewrite !omap_app, !app_assoc in *. apply IH; [done|]. apply settled_step; [|done].
    by apply NoDup_app in Hn as [? _].
Qed.

(** The step that ends the loop leaves nothing pending. *)
Lemma ended_step s i :
  ses_phase s <> Ended true -> ses_phase (session_step env s i) = Ended true ->
  ses_pending (session_step env s i) = ∅.
Proof.
  intros He.
  destruct (session_step_case env s i) as [| | |p cc Ep| |t p Ep| | | |];
    try (intros _; apply finish_spec); try (simpl; done).
  - unfold complete_cluster_config.
    match goal with |- context [fold_left _ ?fs ?s1] => destruct (send_initial_indexes_core env fs s1) as [_ _ _ _ _ _ ->] end.
    done.
  - destruct (handle_message_frame env (received s p) t p) as (_ & _ & E3 & _).
    destruct (handle_message env _ t p) as [s1 ok]. simpl in E3. destruct ok; [congruence|intros _; apply finish_spec].
Qed.

(** No waiter is forgotten.  Along any run, with requests registered under
    fresh IDs at any point and others settled by other sessions, each request
    is answered at most once here, by a response that carries its ID; and at
    the step that ends the loop every request registered so far has been
    answered by this session or settled by another one. *)
Theorem session_settles_pending s inputs :
  ses_delivered s = [] -> NoDup ((map_to_list (ses_pending s)).*1 ++ registered inputs) ->
  let known := (map_to_list (ses_pending s)).*1 ++ registered inputs in
  let s' := session_run env s inputs in
  NoDup (ses_delivered s').*1 /\
  Forall (fun p => resp_id p.2 = p.1 /\ p.1 ∈ known) (ses_delivered s') /\
  (forall i, ses_phase s' <> Ended true -> ses_phase (session_step env s' i) = Ended true ->
     forall id, id ∈ known -> id ∈ (ses_delivered (session_step env s' i)).*1 \/ id ∈ taken inputs).
Proof.
  intros Hd Hn known s'.
  assert (settled ((map_to_list (ses_pending s)).*1) [] s) as Hs.
  { split; rewrite ?Hd; [constructor| | |constructor].
    - intros id ([k d] & -> & Hin%elem_of_map_to_list)%list_elem_of_fmap. left. by eexists.
    - intros id [d Hid]. split; [|apply not_elem_of_nil]. apply list_elem_of_fmap. exists (id, d).
      by split; [|apply elem_of_map_to_list]. }
  apply (settled_run _ _ _ inputs Hn) in Hs. fold s' known in Hs. split; [apply Hs|]. split; [apply Hs|].
  intros i He Hi id Hid.
  assert (registered [i] = [] /\ taken [i] = []) as [Er Et].
  { destruct i; try done; simpl in Hi; congruence. }
  assert (settled (known ++ registered [i]) (taken inputs ++ taken [i]) (session_step env s' i)) as Hs'.
  { apply settled_step; [by rewrite Er, app_nil_r|done]. }
  rewrite Er, Et, !app_nil_r in Hs'. destruct (st_known _ _ _ Hs' id Hid) as [Hp|?]; [|done].
  rewrite (ended_step _ _ He Hi), lookup_empty in Hp. by destruct Hp.
Qed.

End Settled.

(** The pending responses of different peers are not kept apart.  When one
    session ends, requests that were sent to other devices over other sessions
    are failed too; and a peer's response is delivered to a waiter of another
    device if it carries that request's ID. *)
Theorem session_fails_foreign_requests {H : Type} `{BepSessionHandler H} env (s : BepSession H) id dev :
  ses_phase s = Steady -> ses_pending s !! id = Some dev -> dev <> ses_device s ->
  (id, failed_response id) ∈ ses_delivered (session_step env s InRecvError) /\
  (forall p resp, dec_response env p = Some resp -> resp_id resp = id ->
     (id, resp) ∈ ses_delivered (session_step env s (InMessage MtResponse p))).
Proof.
  intros Hp Hid Hne. unfold session_step. rewrite Hp. split.
  - destruct (finish_spec s) as (_ & -> & _). apply elem_of_app. right. apply list_elem_of_fmap.
    exists id. split; [done|]. apply list_elem_of_fmap. exists (id, dev). split; [done|]. by apply elem_of_map_to_list.
  - intros p resp Hr <-. cbn [handle_message]. rewrite Hr. unfold handle_response. simpl.
    rewrite decide_True by (by eexists). simpl. apply elem_of_app. right. by apply list_elem_of_singleton.
Qed.

(** ** Witnesses: a handler without files *)

#[global] Instance null_handler : BepSessionHandler unit := {|
  generate_cluster_config _ _ := Some (mkClusterConfig [mkWireFolder ($"f") [] 0 0 []] false);
  generate_index _ fo _ := Some (mkIndex fo []);
  on_index h _ _ := (Some tt, h);
  on_index_update h _ _ := (Some tt, h);
  on_block_request _ _ _ := Ok [1; 2];
|}.

Definition demo_session_env : SessionEnv :=
  mkSessionEnv (fun _ => Some (mkClusterConfig [mkWireFolder ($"f") [] 0 0 []] false)) (fun _ => None)
    (fun _ => None) (fun p => Some (mkRequest (Z.of_nat (length p)) [] [] 0 0 [] false 0)) (fun _ => None)
    (fun _ => Some []) (fun _ _ => true).

Definition demo_session (pending : gmap Z DeviceId) (ph : Phase) : BepSession unit :=
  mkBepSession (mkDeviceId [1]) tt pending [] [] [] (mkMetrics 0 0 0 0 0 0 0 0 0 0 0 0 0)
    CsProtocolHandshakeComplete [$"f"] None ph.

Lemma session_protocol_order_witness :
  exists cc, generate_cluster_config tt (mkDeviceId [1]) = Some cc /\
    exists tail, ses_sent (session_run demo_session_env
      (mkBepSession (mkDeviceId [1]) tt ∅ [] [OutClusterConfig cc] [] (mkMetrics 0 0 0 0 0 0 0 0 0 0 0 0 0)
         CsProtocolHandshakeComplete [$"f"] None AwaitClusterConfig)
      [InMessage MtClusterConfig []; InMessage MtRequest [0]]) = OutClusterConfig cc :: tail.
Proof.
  destruct (session_protocol_order demo_session_env (mkDeviceId [1]) tt ∅ CsProtocolHandshakeComplete
    (mkBepSession (mkDeviceId [1]) tt ∅ [] [OutClusterConfig (mkClusterConfig [mkWireFolder ($"f") [] 0 0 []] false)]
       [] (mkMetrics 0 0 0 0 0 0 0 0 0 0 0 0 0) CsProtocolHandshakeComplete [$"f"] None AwaitClusterConfig)
    [InMessage MtClusterConfig []; InMessage MtRequest [0]]) as (cc & E & _ & _ & tail & Et).
  - reflexivity.
  - exists cc. split; [exact E|]. exists tail. injection E as <-. exact Et.
Defined.

Lemma session_answers_requests_witness :
  responses (ses_sent (session_run demo_session_env (demo_session ∅ Steady)
    [InMessage MtRequest [0]; InMessage MtPing []; InMessage MtRequest [0; 0]])) =
  [mkResponse 1 [1; 2] 0; mkResponse 2 [1; 2] 0].
Proof.
  rewrite (session_answers_requests demo_session_env (fun _ _ => eq_refl) (fun _ => ex_intro _ [] eq_refl)
             (demo_session ∅ Steady) [InMessage MtRequest [0]; InMessage MtPing []; InMessage MtRequest [0; 0]]).
  vm_compute. reflexivity.
Defined.

Lemma session_settles_pending_witness :
  let s' := session_run demo_session_env (demo_session {[7 := mkDeviceId [1]]} Steady) [InRegister 8 (mkDeviceId [1])] in
  8 ∈ (ses_delivered (session_step demo_session_env s' InRecvError)).*1.
Proof.
  destruct (session_settles_pending demo_session_env (demo_session {[7 := mkDeviceId [1]]} Steady)
              [InRegister 8 (mkDeviceId [1])]) as (_ & _ & H).
  - reflexivity.
  - apply (bool_decide_unpack _). vm_compute. exact I.
  - destruct (H InRecvError) with (id := 8) as [Hd|Ht].
    + discriminate.
    + vm_compute. reflexivity.
    + apply (bool_decide_unpack _). vm_compute. exact I.
    + exact Hd.
    + by apply not_elem_of_nil in Ht.
Defined.

Lemma session_fails_foreign_requests_witness :
  (7, failed_response 7) ∈
    ses_delivered (session_step demo_session_env (demo_session {[7 := mkDeviceId [2]]} Steady) InRecvError).
Proof.
  apply (session_fails_foreign_requests demo_session_env (demo_session {[7 := mkDeviceId [2]]} Steady) 7 (mkDeviceId [2])).
  - reflexivity.
  - vm_compute. reflexivity.
  - discriminate.
Defined.
