(* ===== verification/Puller.v ===== *)
(** * Pulling files ([crates/syncthing-sync/src/puller])

    Downloads, directory creation and quarantined deletions of one pull, on
    the [World] of the conflict resolver (database, disk, events).  What file
    system calls answer, the peers, SHA-256, the clock, the versioner and the
    order in which the spawned tasks run are in a [PullEnv]; the tasks of one
    pull are run one after the other in that order. *)

From S2P Require Import Prelude Core Bep BlockServer Database Merge Conflict.

(** ** Concurrency limits ([puller/concurrency.rs]) *)

Record ConcurrencyPolicy := mkPolicy { cp_downloads : Z; cp_blocks : Z }.

Definition policy_set (downloads blocks : Z) : ConcurrencyPolicy :=
  mkPolicy (downloads `max` 1) (blocks `max` 1).

Definition policy_new : ConcurrencyPolicy := policy_set 2 4.

Definition set_for_rtt (rtt_ms : Z) : ConcurrencyPolicy :=
  if rtt_ms =? 0 then policy_set 2 4
  else if rtt_ms <=? 50 then policy_set 8 16
  else if rtt_ms <=? 300 then policy_set 4 8
  else policy_set 2 4.

Definition set_for_direct : ConcurrencyPolicy := policy_set 6 12.

Definition set_for_relay : ConcurrencyPolicy := policy_set 2 4.

(** The tracker: [u64::MAX] until the first sample, then a moving average. *)
Definition rtt_new : Z := u64_max.

Definition rtt_sample (old sample_ms : Z) : Z :=
  if old =? u64_max then sample_ms else wrap 64 (wrap 64 (old * 7) + sample_ms) / 8.

(** ** Paths *)

(** [Path::parent] and [Path::file_name] of a path that ends in a name. *)
Definition parent_of (p : str) : str :=
  match rsplit_once slash p with
  | Some ([], _) => [slash]
  | Some (d, _) => d
  | None => []
  end.

Definition file_name_of (p : str) : str :=
  match rsplit_once slash p with
  | Some (_, n) => n
  | None => p
  end.

Definition temp_path_for (file_path : str) : str :=
  path_join (parent_of file_path) ($".syncthing." ++ file_name_of file_path ++ $".tmp").

(** [fs::create_dir_all]: what is missing of [p] and the directories above it. *)
Definition disk_mkdirs (d : Disk) (p : str) : Disk :=
  fun q => match d q with
           | Some n => Some n
           | None => if decide (q = p) then Some DirNode
                     else if starts_with (q ++ [slash]) p then Some DirNode else None
           end.

(** [fs::remove_file] does not remove directories. *)
Definition disk_remove (d : Disk) (p : str) : Disk :=
  fun q => if decide (q = p) then match d p with Some DirNode => Some DirNode | _ => None end else d q.

Definition is_dir (d : Disk) (p : str) : bool := match d p with Some DirNode => true | _ => false end.

Definition is_file (d : Disk) (p : str) : bool := match d p with Some (FileNode _) => true | _ => false end.

(** ** Environment *)

Inductive IoOp :=
| IoCreateDirAll (p : str)
| IoCopy (source target : str)
| IoCreate (p : str)
| IoWrite (p : str) (block : nat)
| IoFlush (p : str)
| IoSetPermissions (p : str)
| IoReadText (p : str)
| IoWriteAll (p : str)
| IoRename (source target : str) (attempt : nat)
| IoRemove (p : str) (attempt : nat)
| IoRemoveDirAll (p : str)
| IoMetadata (p : str).

Record FileVersion := mkFileVersion { version_time : Z; mod_time : Z; version_size : Z }.

(** The [Versioner] trait: [v_restore] answers the content restored to the
    given path outside the folder. *)
Record Versioner := mkVersioner {
  v_archive : Disk -> str -> result unit unit * Disk;
  v_versions : Disk -> str -> option (list FileVersion);
  v_restore : Disk -> str -> Z -> option str;
}.

(** [pe_io] says which calls succeed, [pe_torn] what a failed write leaves in
    the file; a failed call of another kind changes nothing. *)
Record PullEnv := mkPullEnv {
  pe_io : IoOp -> bool;
  pe_torn : IoOp -> str;
  pe_source : option (str -> str -> BlockInfo -> nat -> result SyncError str);
  pe_versioner : option Versioner;
  pe_sha256 : str -> list Z;
  pe_utf8 : str -> bool;
  pe_diff : str -> str -> list DiffOp;
  pe_fuel : nat;
  pe_scratch_dir : FileVersion -> str;
  pe_date : str;
  pe_time : str;
  pe_now : Z;
  pe_parse_date : str -> option Z;
  pe_dir_len : str -> Z;
  pe_error_text : SyncError -> str;
  pe_schedule : list FileInfo -> list FileInfo;
}.

(** How a spawned task ends without a value. *)
Inductive PullError := PullFailed (e : SyncError) | TaskPanicked | TaskDiverged.

Record PullStats := mkPullStats { files_succeeded : Z; files_failed : Z; bytes_transferred : Z }.

Definition pull_stats_default : PullStats := mkPullStats 0 0 0.

(** The file's record with the base version of a merge. *)
Definition with_base (f : FileInfo) (b : FileInfoBase) : FileInfo :=
  mkFileInfo (name f) (file_type f) (size f) (permissions f) (modified_s f) (modified_ns f)
    (version f) (sequence f) (block_size f) (blocks f) (symlink_target f) (deleted f)
    (modified_by f) (blocks_hash f) (no_permissions f) (Some b).

Section Puller.
Context {DB : Type} `{LocalDatabase DB} (env : PullEnv).

Definition PullM (A : Type) : Type := SE (World DB) PullError A.

(** A database call inside a task, with [?] or with its error only logged. *)
Definition db_try {A} (c : WorldM (DB := DB) A) : PullM A :=
  fun w => let '(r, w') := c w in
           (match r with Ok a => Ok a | Err e => Err (PullFailed e) end, w').

Definition db_log (c : WorldM (DB := DB) unit) : PullM unit := fun w => (Ok tt, (c w).2).

Definition on_disk {A} (f : Disk -> A) : PullM A := se_read (fun w => Ok (f (w_disk w))).

Definition set_disk (f : Disk -> Disk) : PullM unit :=
  se_modify (fun w => mkWorld (w_db w) (f (w_disk w)) (w_events w)).

Definition announce (e : SyncEvent) : PullM unit :=
  se_modify (fun w => mkWorld (w_db w) (w_disk w) (w_events w ++ [e])).

(** A call that changes the disk when it succeeds, and the error otherwise. *)
Definition io (op : IoOp) (f : Disk -> Disk) (n : str) : PullM unit :=
  if pe_io env op then set_disk f else se_throw (PullFailed (SyncPull n)).

Definition check_name (f : FileInfo) : PullM unit :=
  match validate_remote_name (name f) with
  | Ok _ => se_ret tt
  | Err _ => se_throw (PullFailed (SyncPull (name f)))
  end.

(** ** Renaming into place ([puller/rename.rs]) *)

Definition try_rename (temp file : str) (attempt : nat) : PullM bool :=
  if pe_io env (IoRename temp file attempt)
  then do! set_disk (fun d => disk_rename d temp file) in se_ret true
  else se_ret false.

Definition remove_target (file : str) (attempt : nat) : PullM unit :=
  let! present := on_disk (fun d => path_exists d file) in
  if present && pe_io env (IoRemove file attempt) then set_disk (fun d => disk_remove d file) else se_ret tt.

Fixpoint rename_retries (n : nat) (temp file : str) (attempt : nat) : PullM bool :=
  match n with
  | O => se_ret false
  | S n' =>
      do! remove_target file attempt in
      let! ok := try_rename temp file attempt in
      if (ok : bool) then se_ret true else rename_retries n' temp file (S attempt)
  end.

Definition RENAME_RETRY_MAX_ATTEMPTS : nat := 5.

Definition rename_with_retry (temp file n : str) : PullM unit :=
  let! ok := try_rename temp file 0 in
  if (ok : bool) then se_ret tt
  else
    do! remove_target file 1 in
    let! ok := try_rename temp file 1 in
    if (ok : bool) then se_ret tt
    else
      let! ok := rename_retries RENAME_RETRY_MAX_ATTEMPTS temp file 2 in
      if (ok : bool) then se_ret tt else se_throw (PullFailed (SyncPull n)).

(** ** Helpers ([puller/ops.rs]) *)

Fixpoint recover_loop (v : Versioner) (d : Disk) (file_path : str) (expected : list Z)
    (versions : list FileVersion) : option str :=
  match versions with
  | [] => None
  | ver :: rest =>
      let tmp_path := path_join (pe_scratch_dir env ver) (file_name_of file_path) in
      match v_restore v d tmp_path (version_time ver) with
      | Some c =>
          if decide (pe_sha256 env c = expected) then (if pe_utf8 env c then Some c else None)
          else recover_loop v d file_path expected rest
      | None => recover_loop v d file_path expected rest
      end
  end.

Definition recover_base_content (v : Versioner) (d : Disk) (file_path : str) (base : FileInfoBase)
  : option str :=
  let+ expected := base_content_hash base in
  let+ versions := v_versions v d file_path in
  recover_loop v d file_path expected versions.

(** [a.iter().zip(b).all(|(a, b)| a.hash == b.hash)] after the length test. *)
Definition same_blocks (a b : list BlockInfo) : bool := bool_decide (bi_hash <$> a = bi_hash <$> b).

Fixpoint copy_source_among (folder_path : str) (f : FileInfo) (d : Disk) (db_files : list FileInfo)
  : option str :=
  match db_files with
  | [] => None
  | g :: rest =>
      if is_deleted g || bool_decide (name g = name f) then copy_source_among folder_path f d rest
      else if same_blocks (blocks g) (blocks f) then
        let source_path := path_join folder_path (name g) in
        if path_exists d source_path && is_file d source_path then Some source_path
        else copy_source_among folder_path f d rest
      else copy_source_among folder_path f d rest
  end.

Definition find_local_copy_source (folder_path : str) (f : FileInfo) (folder : str)
  : PullM (option str) :=
  if bool_decide (blocks f = []) || is_deleted f then se_ret None
  else
    let! files := db_try (w_get_folder_files folder) in
    on_disk (fun d => copy_source_among folder_path f d files).

(** ** Downloading *)

Definition cleanup_temp (temp : str) : PullM unit :=
  let! present := on_disk (fun d => path_exists d temp) in
  if present && pe_io env (IoRemove temp 0) then set_disk (fun d => disk_remove d temp) else se_ret tt.

Definition fail_download {A} (temp : str) (e : SyncError) : PullM A :=
  do! cleanup_temp temp in se_throw (PullFailed e).

(** [file.write_all(data)] at the end of the temporary file. *)
Definition disk_append (d : Disk) (p data : str) : Disk :=
  match d p with
  | Some (FileNode c) => disk_write d p (c ++ data)
  | _ => d
  end.

Fixpoint write_blocks (folder : str) (f : FileInfo) (temp : str) (idx : nat) (bytes_done : Z)
    (bs : list BlockInfo) : PullM unit :=
  match bs with
  | [] => se_ret tt
  | b :: rest =>
      match pe_source env with
      | None => fail_download temp (SyncPull (name f))
      | Some request_block =>
          match request_block folder (name f) b idx with
          | Err e => fail_download temp e
          | Ok data =>
              if decide (pe_sha256 env data = bi_hash b) then
                if pe_io env (IoWrite temp idx) then
                  do! set_disk (fun d => disk_append d temp data) in
                  let done := wrap 64 (bytes_done + Z.of_nat (length data)) in
                  do! announce (DownloadProgress folder (name f) done (wrap 64 (size f))) in
                  write_blocks folder f temp (S idx) done rest
                else
                  do! set_disk (fun d => disk_write d temp (pe_torn env (IoWrite temp idx))) in
                  fail_download temp (SyncPull (name f))
              else fail_download temp (SyncChecksumMismatch (bi_offset b))
          end
      end
  end.

(** [fs::read_to_string]. *)
Definition read_text (d : Disk) (p : str) : option str :=
  match d p with
  | Some (FileNode c) => if pe_io env (IoReadText p) && pe_utf8 env c then Some c else None
  | _ => None
  end.

(** The three-way merge of a downloaded text with the local one: the record to
    store. *)
Definition merge_downloaded (folder : str) (f : FileInfo) (file_path temp : str) : PullM FileInfo :=
  let! local_info := se_read (fun w => Ok match get_file (w_db w) folder (name f) with
                                          | Ok o => o
                                          | Err _ => None
                                          end) in
  let! d := on_disk (fun d => d) in
  match (if path_exists d file_path then local_info ≫= base_version else None) with
  | Some base =>
      if is_mergeable_text (name f) then
        match read_text d file_path, read_text d temp, pe_versioner env with
        | Some local_content, Some remote_content, Some v =>
            match recover_base_content v d file_path base with
            | Some base_content =>
                match three_way_merge (pe_diff env) (pe_fuel env) base_content local_content remote_content with
                | Done merged =>
                    if pe_io env (IoWriteAll temp) then
                      do! set_disk (fun d => disk_write d temp (content merged)) in
                      se_ret (with_base f (mkFileInfoBase (Z.of_nat (length (content merged)))
                                (modified_s f) (modified_ns f) None (Some (pe_sha256 env (content merged)))))
                    else
                      do! set_disk (fun d => disk_write d temp (pe_torn env (IoWriteAll temp))) in se_ret f
                | Panic => se_throw TaskPanicked
                | OutOfFuel => se_throw TaskDiverged
                end
            | None => se_ret f
            end
        | _, _, _ => se_ret f
        end
      else se_ret f
  | None => se_ret f
  end.

(** [versioner.archive(path)] when both exist; its error is only logged. *)
Definition archive_old (file_path : str) : PullM unit :=
  match pe_versioner env with
  | Some v =>
      let! present := on_disk (fun d => path_exists d file_path) in
      if (present : bool) then set_disk (fun d => (v_archive v d file_path).2) else se_ret tt
  | None => se_ret tt
  end.

(** [UNIX_EPOCH + from_secs(s as u64) + from_nanos(ns as u64)]: the addition
    panics when the seconds leave [i64]. *)
Definition mtime_overflows (f : FileInfo) : bool :=
  2 ^ 63 <=? wrap 64 (modified_s f) + wrap 64 (modified_ns f) / 1_000_000_000.

Definition set_mtime (f : FileInfo) : PullM unit :=
  if mtime_overflows f then se_throw TaskPanicked else se_ret tt.

Definition make_parent (file_path n : str) : PullM unit :=
  io (IoCreateDirAll (parent_of file_path)) (fun d => disk_mkdirs d (parent_of file_path)) n.

Definition copy_local (folder : str) (f : FileInfo) (file_path temp source : str) : PullM unit :=
  do! make_parent file_path (name f) in
  let! content := on_disk (fun d => d source) in
  do! (if pe_io env (IoCopy source temp)
       then set_disk (fun d => match content with
                               | Some (FileNode c) => disk_write d temp c
                               | _ => d
                               end)
       else do! set_disk (fun d => disk_write d temp (pe_torn env (IoCopy source temp))) in
            se_throw (PullFailed (SyncPull (name f)))) in
  do! archive_old file_path in
  do! rename_with_retry temp file_path (name f) in
  do! set_mtime f in
  db_log (w_update_file folder f).

Definition download_blocks (folder : str) (f : FileInfo) (file_path temp : str) : PullM unit :=
  do! make_parent file_path (name f) in
  do! io (IoCreate temp) (fun d => disk_write d temp []) (name f) in
  do! write_blocks folder f temp 0 0 (blocks f) in
  do! (if pe_io env (IoFlush temp) then se_ret tt else fail_download temp (SyncPull (name f))) in
  do! (if pe_io env (IoSetPermissions temp) then se_ret tt else fail_download temp (SyncPull (name f))) in
  let! merged_info := merge_downloaded folder f file_path temp in
  do! archive_old file_path in
  do! rename_with_retry temp file_path (name f) in
  do! set_mtime f in
  db_log (w_update_file folder merged_info).

Definition download_file (folder_path folder : str) (f : FileInfo) : PullM unit :=
  do! check_name f in
  let file_path := path_join folder_path (name f) in
  let temp := temp_path_for file_path in
  let! source := find_local_copy_source folder_path f folder in
  match source with
  | Some source_path => copy_local folder f file_path temp source_path
  | None => download_blocks folder f file_path temp
  end.

(** ** Directories and deletions *)

Definition create_directory (folder_path : str) (f : FileInfo) : PullM unit :=
  do! check_name f in
  let dir_path := path_join folder_path (name f) in
  let! d := on_disk (fun d => d) in
  if path_exists d dir_path then
    if is_dir d dir_path then se_ret tt else se_throw (PullFailed (SyncPull (name f)))
  else io (IoCreateDirAll dir_path) (fun d => disk_mkdirs d dir_path) (name f).

(** Where a deleted entry goes: the day's directory, with the time of day
    appended when that place is taken. *)
Definition trash_dest (d : Disk) (folder_path rel_name : str) : str :=
  let trash_dir := path_join (path_join folder_path ($".sttrash")) (pe_date env) in
  let dest := path_join trash_dir rel_name in
  if path_exists d dest then path_join (parent_of dest) (file_name_of dest ++ $"." ++ pe_time env) else dest.

Definition move_to_trash (file_path folder_path rel_name : str) : PullM unit :=
  let trash_dir := path_join (path_join folder_path ($".sttrash")) (pe_date env) in
  let parent := parent_of (path_join trash_dir rel_name) in
  do! io (IoCreateDirAll parent) (fun d => disk_mkdirs d parent) rel_name in
  let! dest := on_disk (fun d => trash_dest d folder_path rel_name) in
  io (IoRename file_path dest 0) (fun d => disk_rename d file_path dest) rel_name.

Definition pull_delete_file (folder_path folder : str) (f : FileInfo) : PullM unit :=
  do! check_name f in
  let file_path := path_join folder_path (name f) in
  let! present := on_disk (fun d => path_exists d file_path) in
  do! (if (present : bool) then move_to_trash file_path folder_path (name f) else se_ret tt) in
  db_try (w_update_file folder f).

(** [cleanup_sttrash]: the directories named by a day more than a week ago,
    unless their removal fails. *)
Definition trash_expired (day : str) : bool :=
  match pe_parse_date env day with
  | Some midnight => midnight <? pe_now env - 7 * 86400
  | None => false
  end.

Definition cleanup_sttrash (folder_path : str) : PullM unit :=
  let trash_root := path_join folder_path ($".sttrash") in
  set_disk (fun d q =>
    match strip_prefix (trash_root ++ [slash]) q with
    | Some r =>
        let day := default [] (head (split_on slash r)) in
        let dir := path_join trash_root day in
        if trash_expired day && is_dir d dir && pe_io env (IoRemoveDirAll dir) then None else d q
    | None => d q
    end).

(** ** The pull *)

Definition item_action (f : FileInfo) : ItemAction := if is_deleted f then ItemDelete else ItemModify.

Definition pull_item (folder_path folder : str) (f : FileInfo) : PullM unit :=
  if is_deleted f then pull_delete_file folder_path folder f
  else match file_type f with
       | Directory => create_directory folder_path f
       | File => download_file folder_path folder f
       | Symlink => se_ret tt
       end.

(** The spawned task: the two events around the work; a panic ends it. *)
Definition pull_task (folder_path folder : str) (f : FileInfo) : PullM unit :=
  do! announce (ItemStarted folder (name f) (item_action f)) in
  fun w =>
    let '(r, w') := pull_item folder_path folder f w in
    match r with
    | Ok _ => (r, (announce (ItemFinished folder (name f) (item_action f) None) w').2)
    | Err (PullFailed e) =>
        (r, (announce (ItemFinished folder (name f) (item_action f) (Some (pe_error_text env e))) w').2)
    | Err _ => (r, w')
    end.

(** Running the tasks and joining them; a task that diverges is never joined. *)
Fixpoint run_tasks (folder_path folder : str) (stats : PullStats) (files : list FileInfo) : PullM PullStats :=
  match files with
  | [] => se_ret stats
  | f :: rest =>
      fun w =>
        let '(r, w') := pull_task folder_path folder f w in
        match r with
        | Ok _ => run_tasks folder_path folder
                    (mkPullStats (files_succeeded stats + 1) (files_failed stats) (bytes_transferred stats)) rest w'
        | Err TaskDiverged => (Err TaskDiverged, w')
        | Err _ => run_tasks folder_path folder
                     (mkPullStats (files_succeeded stats) (files_failed stats + 1) (bytes_transferred stats)) rest w'
        end
  end.

(** [max(PULL_DELETE_QUOTA_MIN, (n as f64 * 0.25) as usize)]; the product is
    exact below 2^53 files. *)
Definition delete_quota (local_count : nat) : nat := (20 `max` (local_count / 4))%nat.

Definition within_quota (quota : nat) (needed : list FileInfo) : list FileInfo :=
  if (quota <? length (filter (fun f => is_deleted f = true) needed))%nat
  then filter (fun f => is_deleted f = false) needed
  else needed.

Definition pull_folder (folder : Folder) (needed : list FileInfo) : PullM PullStats :=
  let base_path := folder_path folder in
  do! io (IoCreateDirAll base_path) (fun d => disk_mkdirs d base_path) base_path in
  let! local_files := db_try (w_get_folder_files (folder_id folder)) in
  let quota := delete_quota (length (filter (fun f => is_deleted f = false) local_files)) in
  do! cleanup_sttrash base_path in
  run_tasks base_path (folder_id folder) pull_stats_default (pe_schedule env (within_quota quota needed)).

(** ** What still has to be pulled *)

Definition needs_pull (base_path : str) (d : Disk) (f : FileInfo) : result SyncError bool :=
  let file_path := path_join base_path (name f) in
  if is_deleted f then Ok (path_exists d file_path)
  else if negb (path_exists d file_path) then Ok true
  else if decide (file_type f = Directory) then Ok false
  else if pe_io env (IoMetadata file_path) then
    Ok match d file_path with
       | Some (FileNode c) => negb (Z.of_nat (length c) =? wrap 64 (size f))
       | _ => negb (pe_dir_len env file_path =? wrap 64 (size f))
       end
  else Err SyncIo.

Fixpoint filter_needed (base_path : str) (d : Disk) (files : list FileInfo) : result SyncError (list FileInfo) :=
  match files with
  | [] => Ok []
  | f :: rest =>
      let? needed := needs_pull base_path d f in
      let? more := filter_needed base_path d rest in
      Ok (if (needed : bool) then f :: more else more)
  end.

Definition check_needed_files (folder : Folder) : WorldM (DB := DB) (list FileInfo) :=
  let! files := w_get_folder_files (folder_id folder) in
  se_read (fun w => filter_needed (folder_path folder) (w_disk w) files).

End Puller.

(** ** Frames: what a computation leaves alone *)

Section Frames.
Context {DB : Type} `{LocalDatabase DB} (env : PullEnv).
Context (skip : str -> Prop).
Implicit Types w : World DB.

Definition keeps w w' : Prop :=
  w_db w' = w_db w /\ forall q n, ~ skip q -> w_disk w q = Some n -> w_disk w' q = Some n.

(** The computation changes neither the database nor an existing entry outside
    [skip]. *)
Definition frames {A} (c : PullM (DB := DB) A) : Prop := forall w, keeps w (c w).2.

Lemma keeps_refl w : keeps w w.
Proof. done. Qed.

Lemma keeps_trans w1 w2 w3 : keeps w1 w2 -> keeps w2 w3 -> keeps w1 w3.
Proof. intros [E1 K1] [E2 K2]. split; [congruence|]. eauto. Qed.

Lemma frames_ret {A} (a : A) : frames (se_ret a).
Proof. intros w. apply keeps_refl. Qed.

Lemma frames_throw {A} e : frames (A := A) (se_throw e).
Proof. intros w. apply keeps_refl. Qed.

Lemma frames_read {A} (f : World DB -> result PullError A) : frames (se_read f).
Proof. intros w. apply keeps_refl. Qed.

Lemma frames_bind {A B} (c : PullM A) (k : A -> PullM B) :
  frames c -> (forall a, frames (k a)) -> frames (se_bind c k).
Proof.
  intros Hc Hk w. unfold se_bind. specialize (Hc w). destruct (c w) as [[a|e] w1]; [|done].
  eapply keeps_trans; [exact Hc|apply Hk].
Qed.

Lemma frames_set_disk f :
  (forall d q n, ~ skip q -> d q = Some n -> f d q = Some n) -> frames (set_disk f).
Proof. intros Hf w. split; [done|]. intros q n. apply Hf. Qed.

Lemma frames_announce e : frames (announce e).
Proof. intros w. by split. Qed.

Lemma disk_write_keeps (p c : str) : skip p -> forall (d : Disk) q n, ~ skip q -> d q = Some n -> disk_write d p c q = Some n.
Proof. intros Hp d q n Hq Hd. unfold disk_write. case_decide; [by subst|done]. Qed.

Lemma disk_append_keeps (p c : str) : skip p -> forall (d : Disk) q n, ~ skip q -> d q = Some n -> disk_append d p c q = Some n.
Proof. intros Hp d q n Hq Hd. unfold disk_append. repeat case_match; try done. by apply disk_write_keeps. Qed.

Lemma disk_remove_keeps (p : str) : skip p -> forall (d : Disk) q n, ~ skip q -> d q = Some n -> disk_remove d p q = Some n.
Proof. intros Hp d q n Hq Hd. unfold disk_remove. case_decide; [by subst|done]. Qed.

Lemma disk_mkdirs_keeps (d : Disk) (p q : str) n : d q = Some n -> disk_mkdirs d p q = Some n.
Proof. unfold disk_mkdirs. by intros ->. Qed.

Lemma frames_check_name f : frames (check_name f).
Proof. intros w. unfold check_name. case_match; apply keeps_refl. Qed.

Lemma frames_io op f n :
  (forall d q m, ~ skip q -> d q = Some m -> f d q = Some m) -> frames (io env op f n).
Proof. intros Hf. unfold io. case_match; [by apply frames_set_disk|apply frames_throw]. Qed.

Lemma frames_mkdirs op p n : frames (io env op (fun d => disk_mkdirs d p) n).
Proof. apply frames_io. intros. by apply disk_mkdirs_keeps. Qed.

Context (temp : str) (Htemp : skip temp).

Lemma frames_cleanup : frames (cleanup_temp env temp).
Proof using Htemp.
  apply frames_bind; [apply frames_read|]. intros a. case_match; [|apply frames_ret].
  apply frames_set_disk. by apply disk_remove_keeps.
Qed.

Lemma frames_fail {A} e : frames (A := A) (fail_download env temp e).
Proof using Htemp. apply frames_bind; [apply frames_cleanup|]. intros. apply frames_throw. Qed.

(** A call after which the download goes on only if it succeeded. *)
Definition checked (op : IoOp) (n : str) : PullM (DB := DB) unit :=
  if pe_io env op then se_ret tt else fail_download env temp (SyncPull n).

Lemma frames_checked op n : frames (checked op n).
Proof using Htemp. unfold checked. case_match; [apply frames_ret|apply frames_fail]. Qed.

Lemma checked_ok op n w w' : checked op n w = (Ok tt, w') -> w' = w.
Proof.
  unfold checked. case_match; [by intros [= <-]|]. intros Hf. by apply se_bind_Ok in Hf as ([] & ? & _ & ?).
Qed.

Lemma frames_write_blocks folder f idx bytes bs : frames (write_blocks env folder f temp idx bytes bs).
Proof using Htemp.
  revert idx bytes. induction bs as [|b bs IH]; intros idx bytes; simpl; [apply frames_ret|].
  destruct (pe_source env) as [src|]; [|apply frames_fail].
  destruct (src folder (name f) b idx) as [data|e]; [|apply frames_fail].
  case_decide; [|apply frames_fail]. case_match.
  - apply frames_bind; [apply frames_set_disk; by apply disk_append_keeps|]. intros _.
    apply frames_bind; [apply frames_announce|]. intros _. apply IH.
  - apply frames_bind; [apply frames_set_disk; by apply disk_write_keeps|]. intros _. apply frames_fail.
Qed.

Lemma frames_merge folder f file_path : frames (merge_downloaded env folder f file_path temp).
Proof using Htemp.
  unfold merge_downloaded. apply frames_bind; [apply frames_read|]. intros li.
  apply frames_bind; [apply frames_read|]. intros d.
  repeat case_match; try apply frames_ret; try apply frames_throw;
    (apply frames_bind; [apply frames_set_disk; by apply disk_write_keeps|]; intros _; apply frames_ret).
Qed.

(** An archiver that only touches what is skipped. *)
Definition archives_within : Prop :=
  forall v, pe_versioner env = Some v -> forall d p q, ~ skip q -> (v_archive v d p).2 q = d q.

Lemma frames_archive file_path : archives_within -> frames (archive_old env file_path).
Proof.
  intros Ha. unfold archive_old. destruct (pe_versioner env) as [v|] eqn:Ev; [|apply frames_ret].
  apply frames_bind; [apply frames_read|]. intros b. case_match; [|apply frames_ret].
  apply frames_set_disk. intros d q n Hq Hd. by rewrite (Ha v).
Qed.

End Frames.

(** ** Renaming into place *)

Section Rename.
Context {DB : Type} `{LocalDatabase DB} (env : PullEnv) (temp file : str).
Implicit Types w : World DB.

Lemma try_rename_yes k w : pe_io env (IoRename temp file k) = true ->
  try_rename (DB := DB) env temp file k w =
    (Ok true, mkWorld (w_db w) (disk_rename (w_disk w) temp file) (w_events w)).
Proof. unfold try_rename. by intros ->. Qed.

Lemma try_rename_no k w : pe_io env (IoRename temp file k) = false ->
  try_rename (DB := DB) env temp file k w = (Ok false, w).
Proof. unfold try_rename. by intros ->. Qed.

Lemma remove_target_ok k w : exists w1, remove_target (DB := DB) env file k w = (Ok tt, w1) /\
  w_db w1 = w_db w /\ forall q, q <> file -> w_disk w1 q = w_disk w q.
Proof.
  unfold remove_target, on_disk, se_bind, se_read. case_match; [|eauto].
  eexists. split; [reflexivity|]. split; [done|]. intros q Hq. simpl. unfold disk_remove. by case_decide.
Qed.

Definition renamed w w' : Prop :=
  exists w1, w_db w1 = w_db w /\ (forall q, q <> file -> w_disk w1 q = w_disk w q) /\
    w' = mkWorld (w_db w1) (disk_rename (w_disk w1) temp file) (w_events w1).

Lemma renamed_via w w1 w' :
  w_db w1 = w_db w -> (forall q, q <> file -> w_disk w1 q = w_disk w q) -> renamed w1 w' -> renamed w w'.
Proof. intros E K (w2 & E2 & K2 & ->). exists w2. split; [congruence|]. split; [|done]. intros q Hq. rewrite K2, K; done. Qed.

(** At most the target was removed. *)
Definition target_lost w w' : Prop := w_db w' = w_db w /\ forall q, q <> file -> w_disk w' q = w_disk w q.

Lemma target_lost_via w w1 w' :
  w_db w1 = w_db w -> (forall q, q <> file -> w_disk w1 q = w_disk w q) -> target_lost w1 w' -> target_lost w w'.
Proof. intros E K [E2 K2]. split; [congruence|]. intros q Hq. by rewrite K2, K. Qed.

Lemma rename_retries_spec n k w :
  exists w', (rename_retries (DB := DB) env n temp file k w = (Ok true, w') /\ renamed w w') \/
    (rename_retries (DB := DB) env n temp file k w = (Ok false, w') /\ target_lost w w' /\
     forall j, (k <= j < k + n)%nat -> pe_io env (IoRename temp file j) = false).
Proof.
  revert k w. induction n as [|n IH]; intros k w; cbn [rename_retries].
  - exists w. right. split; [done|]. split; [done|]. lia.
  - destruct (remove_target_ok k w) as (w1 & E1 & Edb & Ed).
    rewrite (se_bind_run _ _ _ _ _ E1). destruct (pe_io env (IoRename temp file k)) eqn:Er.
    + rewrite (se_bind_run _ _ _ _ _ (try_rename_yes k w1 Er)).
      eexists. left. split; [reflexivity|]. exists w1. done.
    + rewrite (se_bind_run _ _ _ _ _ (try_rename_no k w1 Er)). destruct (IH (S k) w1) as (w' & [[E Hr]|(E & Hl & Hj)]); exists w'; [left|right]; (split; [exact E|]).
      * by eapply renamed_via.
      * split; [by eapply target_lost_via|]. intros j Hj'. destruct (decide (j = k)) as [->|]; [done|]. apply Hj. lia.
Qed.

(** When one of the seven attempts can succeed, the rename succeeds; when it
    answers at all, the temporary file has taken the target's place; when it
    fails, at most the target is gone. *)
Lemma rename_with_retry_spec n w :
  exists w', (rename_with_retry (DB := DB) env temp file n w = (Ok tt, w') /\ renamed w w') \/
    (rename_with_retry (DB := DB) env temp file n w = (Err (PullFailed (SyncPull n)), w') /\ target_lost w w' /\
     forall j, (j < 7)%nat -> pe_io env (IoRename temp file j) = false).
Proof.
  unfold rename_with_retry. destruct (pe_io env (IoRename temp file 0)) eqn:E0.
  { rewrite (se_bind_run _ _ _ _ _ (try_rename_yes 0 w E0)). eexists. left. split; [reflexivity|]. exists w. done. }
  rewrite (se_bind_run _ _ _ _ _ (try_rename_no 0 w E0)).
  destruct (remove_target_ok 1 w) as (w1 & E1 & Edb & Ed). rewrite (se_bind_run _ _ _ _ _ E1).
  destruct (pe_io env (IoRename temp file 1)) eqn:E1'.
  { rewrite (se_bind_run _ _ _ _ _ (try_rename_yes 1 w1 E1')). eexists. left. split; [reflexivity|]. exists w1. done. }
  rewrite (se_bind_run _ _ _ _ _ (try_rename_no 1 w1 E1')).
  destruct (rename_retries_spec RENAME_RETRY_MAX_ATTEMPTS 2 w1) as (w' & [[E Hr]|(E & Hl & Hj)]);
    exists w'; rewrite (se_bind_run _ _ _ _ _ E); [left|right]; (split; [reflexivity|]).
  - by eapply renamed_via.
  - split; [by eapply target_lost_via|]. intros j Hj'. destruct j as [|[|j]]; [done|done|]. apply Hj. unfold RENAME_RETRY_MAX_ATTEMPTS. lia.
Qed.

End Rename.

(** ** Downloads *)

Section Download.
Context {DB : Type} `{LocalDatabase DB} (env : PullEnv) (folder : str) (f : FileInfo) (file temp : str).
Implicit Types w : World DB.

(** The common end of a download: rename, modification time, database. *)
Definition install (info : FileInfo) : PullM (DB := DB) unit :=
  do! rename_with_retry env temp file (name f) in
  do! set_mtime f in
  db_log (w_update_file folder info).

Definition renames_possible : Prop :=
  exists j, (j < 7)%nat /\ pe_io env (IoRename temp file j) = true.

Lemma install_no_error info w e w' :
  renames_possible -> mtime_overflows f = false -> install info w = (Err e, w') -> False.
Proof.
  intros (j & Hj & Hio) Hm He. unfold install in He. apply se_bind_Err in He as [He|(a & w1 & _ & He)].
  - destruct (rename_with_retry_spec env temp file (name f) w) as (w2 & [[E _]|(_ & _ & Hall)]).
    + by rewrite E in He.
    + rewrite (Hall j Hj) in Hio. done.
  - unfold set_mtime in He. rewrite Hm in He. done.
Qed.

(** [q] is neither the file or temporary file nor below them. *)
Definition apart (q : str) : Prop :=
  q <> file /\ q <> temp /\ starts_with (file ++ $"/") q = false /\ starts_with (temp ++ $"/") q = false.

Lemma disk_rename_apart (d : Disk) q : apart q -> disk_rename d temp file q = d q.
Proof.
  intros (Hf & Ht & Hbf & Hbt). unfold disk_rename. rewrite decide_False by done.
  unfold starts_with in Hbf. destruct (strip_prefix (file ++ $"/") q); [done|].
  rewrite decide_False by done. by rewrite Hbt.
Qed.

(** The two errors of the end of a download. *)
Definition rename_gave_up (e : PullError) : Prop :=
  e = PullFailed (SyncPull (name f)) /\ forall j, (j < 7)%nat -> pe_io env (IoRename temp file j) = false.

Definition mtime_panicked (e : PullError) : Prop := e = TaskPanicked /\ mtime_overflows f = true.

Lemma install_error info w e w' :
  install info w = (Err e, w') ->
  (w_db w' = w_db w /\ forall q, apart q -> w_disk w' q = w_disk w q) /\ (rename_gave_up e \/ mtime_panicked e).
Proof.
  intros He. unfold install in He. apply se_bind_Err in He as [He|([] & w1 & E1 & He)].
  - destruct (rename_with_retry_spec env temp file (name f) w) as (w2 & [[E _]|(E & [Edb Ed] & Hall)]); rewrite E in He; [done|].
    injection He as <- <-. split; [|by left]. split; [done|]. intros q Hq. apply Ed, Hq.
  - destruct (rename_with_retry_spec env temp file (name f) w) as (w2 & [[E (w3 & Edb & Ed & ->)]|[E _]]); rewrite E in E1; [|done].
    injection E1 as <-. unfold set_mtime in He. destruct (mtime_overflows f) eqn:Em; [|done]. injection He as <- <-.
    split; [|by right]. split; [done|]. intros q Hq. cbn. rewrite disk_rename_apart by done. apply Ed, Hq.
Qed.

Lemma install_ok info w w' :
  install info w = (Ok tt, w') ->
  exists w1, renamed temp file w w1 /\ mtime_overflows f = false /\ w_disk w' = w_disk w1 /\
    w_db w' = (update_file (w_db w) folder info).2.
Proof.
  intros E. unfold install in E. apply se_bind_Ok in E as ([] & w1 & E1 & E). exists w1.
  assert (renamed temp file w w1) as Hr.
  { destruct (rename_with_retry_spec env temp file (name f) w) as (w2 & [[E' Hr]|[E' _]]); congruence. }
  split; [done|]. unfold set_mtime in E. destruct (mtime_overflows f); [done|]. split; [done|].
  assert (w_db w1 = w_db w) as Edb by (destruct Hr as (w2 & <- & _ & ->); done).
  unfold se_bind, se_ret, db_log, w_update_file in E. rewrite Edb in E.
  destruct (update_file (w_db w) folder info) as [r db]. injection E as <-. done.
Qed.

Section Failure.
Context (area : str -> Prop) (Harea : archives_within env area).

Definition skipped (q : str) : Prop := q = temp \/ area q.

Lemma archives_skipped : archives_within env skipped.
Proof using Harea. intros v Hv d p q Hq. apply Harea; [done|]. intros Ha. apply Hq. by right. Qed.

(** What a failed download may have changed: never the database nor a file
    apart, and the file itself only when the error is one of its end. *)
Definition fails_well e w w' : Prop :=
  (w_db w' = w_db w /\ forall q n, apart q -> ~ area q -> w_disk w q = Some n -> w_disk w' q = Some n) /\
  (keeps skipped w w' \/ rename_gave_up e \/ mtime_panicked e).

Lemma fails_well_keeps e w w' : keeps skipped w w' -> fails_well e w w'.
Proof using Type.
  intros K. split; [|by left]. split; [apply K|]. intros q n Hq Ha. apply K. intros [->|?]; [|done]. by destruct Hq as (_ & ? & _).
Qed.

Lemma fails_well_trans e w w1 w' : keeps skipped w w1 -> fails_well e w1 w' -> fails_well e w w'.
Proof using Type.
  intros K [[E Kq] Hr]. split; [|destruct Hr as [Hr|Hr]; [left; by eapply keeps_trans|by right]].
  destruct (fails_well_keeps e w w1 K) as [[E' Kq'] _]. split; [congruence|]. intros q n Hq Ha Hd. by apply Kq, Kq'.
Qed.

Lemma fails_bind {A B} (c : PullM (DB := DB) A) (k : A -> PullM (DB := DB) B) w e w' :
  frames skipped c -> se_bind c k w = (Err e, w') ->
  (forall a w1, k a w1 = (Err e, w') -> fails_well e w1 w') -> fails_well e w w'.
Proof using Type.
  intros Hc Hb Hk. specialize (Hc w). apply se_bind_Err in Hb as [Hb|(a & w1 & E & Hb)].
  - rewrite Hb in Hc. by apply fails_well_keeps.
  - rewrite E in Hc. eapply fails_well_trans; [exact Hc|]. by eapply Hk.
Qed.

Lemma install_fails_well info w e w' : install info w = (Err e, w') -> fails_well e w w'.
Proof using Type.
  intros [[E K] He]%install_error. split; [|by right]. split; [done|]. intros q n Hq _ Hd. by rewrite K.
Qed.

Lemma copy_local_error source w e w' :
  copy_local env folder f file temp source w = (Err e, w') -> fails_well e w w'.
Proof using Harea.
  intros He. assert (skipped temp) as Ht by (by left). unfold copy_local in He.
  eapply fails_bind; [apply frames_mkdirs|exact He|]. clear w He. intros [] w He.
  eapply fails_bind; [apply frames_read|exact He|]. clear w He. intros nd w He.
  eapply fails_bind; [|exact He|].
  { destruct (pe_io env _); [|apply frames_bind; [apply frames_set_disk; by apply disk_write_keeps|intros; apply frames_throw]].
    apply frames_set_disk. intros d q n Hq Hd. repeat case_match; try done. by apply (disk_write_keeps skipped). }
  clear w He. intros [] w He.
  eapply fails_bind; [apply frames_archive, archives_skipped|exact He|].
  clear w He. intros [] w He. by eapply install_fails_well.
Qed.

Lemma download_blocks_error w e w' :
  download_blocks env folder f file temp w = (Err e, w') -> fails_well e w w'.
Proof using Harea.
  intros He. assert (skipped temp) as Ht by (by left). unfold download_blocks in He.
  eapply fails_bind; [apply frames_mkdirs|exact He|]. clear w He. intros [] w He.
  eapply fails_bind; [|exact He|].
  { apply frames_io. by apply disk_write_keeps. }
  clear w He. intros [] w He. eapply fails_bind; [by apply frames_write_blocks|exact He|].
  clear w He. intros [] w He. eapply fails_bind; [by apply (frames_checked env)|exact He|].
  clear w He. intros [] w He. eapply fails_bind; [by apply (frames_checked env)|exact He|].
  clear w He. intros [] w He. eapply fails_bind; [by apply frames_merge|exact He|].
  clear w He. intros info w He. eapply fails_bind; [apply frames_archive, archives_skipped|exact He|].
  clear w He. intros [] w He. by eapply install_fails_well.
Qed.

End Failure.

End Download.

Lemma temp_path_longer p : (length p < length (temp_path_for p))%nat.
Proof.
  unfold temp_path_for, parent_of, file_name_of. set (t := fun n => $".syncthing." ++ n ++ $".tmp").
  assert (forall b n, (length b + length n + 15 <= length (path_join b (t n)))%nat) as Hj.
  { intros b n. assert (length (t n) = length n + 15)%nat as Ht.
    { subst t. simpl. rewrite length_app. simpl. lia. }
    unfold path_join. replace (starts_with ($"/") (t n)) with false by reflexivity.
    case_decide; [subst b; rewrite Ht; cbn [length]; lia|].
    destruct (ends_with _ b); rewrite ?length_app, Ht; cbn [length]; lia. }
  destruct (rsplit_once slash p) as [[d n]|] eqn:E.
  - apply rsplit_once_Some in E as [-> _]. rewrite length_app. cbn [length].
    destruct d as [|c d].
    + change (S (length n) < length (path_join [slash] (t n)))%nat. specialize (Hj [slash] n). cbn [length] in Hj. lia.
    + change (length (c :: d) + S (length n) < length (path_join (c :: d) (t n)))%nat.
      specialize (Hj (c :: d) n). lia.
  - change (length p < length (path_join [] (t p)))%nat. specialize (Hj [] p). cbn [length] in Hj. lia.
Qed.

Lemma temp_path_differs p : temp_path_for p <> p.
Proof. intros E. pose proof (temp_path_longer p) as Hl. rewrite E in Hl. lia. Qed.

Section DownloadFile.
Context {DB : Type} `{LocalDatabase DB} (env : PullEnv) (fp folder : str) (f : FileInfo).
Implicit Types w : World DB.
Let file := path_join fp (name f).
Let temp := temp_path_for file.

Lemma frames_find_source skip : frames (DB := DB) skip (find_local_copy_source fp f folder).
Proof.
  unfold find_local_copy_source. case_match; [apply frames_ret|]. apply frames_bind; [|intros; apply frames_read].
  intros w. unfold db_try, w_get_folder_files, se_read. simpl. apply keeps_refl.
Qed.

(** C14: a download that fails, at whichever step (refused name, missing source,
    failed or corrupt block, full disk, failed rename, modification time out of
    range), leaves the database as it was and every existing file other than
    the target, the download's temporary file and the versioner's archive.  The
    target is kept too, unless the error is one of the two of the end of a
    download: each of the seven attempts to rename the temporary file failed,
    or the task panicked because the modification time is not representable. *)
Theorem download_failure_keeps_files area w e w' :
  archives_within env area -> download_file env fp folder f w = (Err e, w') ->
  w_db w' = w_db w /\
  (forall q n, apart file temp q -> ~ area q -> w_disk w q = Some n -> w_disk w' q = Some n) /\
  ((forall q n, q <> temp -> ~ area q -> w_disk w q = Some n -> w_disk w' q = Some n) \/
   rename_gave_up env f file temp e \/ mtime_panicked f e).
Proof.
  intros Ha He. cut (fails_well env f file temp area e w w').
  { intros [[E Kq] Hr]. split_and!; [done|done|]. destruct Hr as [[_ K]|Hr]; [left|by right].
    intros q n Hq Hn. apply K. intros [?|?]; done. }
  unfold download_file in He. eapply fails_bind; [apply frames_check_name|exact He|].
  clear w He. intros [] w He. eapply fails_bind; [apply frames_find_source|exact He|].
  clear w He. intros [source|] w He; [by eapply copy_local_error|by eapply download_blocks_error].
Qed.

(** A peer that does not answer: the download fails with its error and only
    the temporary file was touched. *)
Lemma download_unreachable w src b bs e :
  validate_remote_name (name f) = Ok tt -> find_local_copy_source fp f folder w = (Ok None, w) ->
  (forall op, pe_io env op = true) -> blocks f = b :: bs -> pe_source env = Some src ->
  src folder (name f) b 0%nat = Err e ->
  exists w', download_file env fp folder f w = (Err (PullFailed e), w') /\ keeps (fun q => q = temp) w w'.
Proof.
  intros Hv Hs Hio Hb Hsrc He. unfold download_file, check_name. rewrite Hv.
  rewrite (se_bind_run _ _ w tt w) by done. rewrite (se_bind_run _ _ _ _ _ Hs).
  unfold download_blocks, make_parent, io. rewrite !Hio.
  set (w1 := mkWorld (w_db w) (disk_mkdirs (w_disk w) (parent_of file)) (w_events w)).
  rewrite (se_bind_run _ _ w tt w1) by done.
  set (w2 := mkWorld (w_db w1) (disk_write (w_disk w1) temp []) (w_events w1)).
  rewrite (se_bind_run _ _ w1 tt w2) by done. rewrite Hb. cbn [write_blocks]. rewrite Hsrc, He.
  assert (keeps (fun q => q = temp) w w2) as K.
  { split; [done|]. intros q n Hq Hd. apply (disk_write_keeps (fun q => q = temp)); [done|done|]. by apply disk_mkdirs_keeps. }
  pose proof (frames_fail (DB := DB) env (fun q => q = temp) temp eq_refl (A := unit) e w2) as Kf.
  destruct (fail_download (A := unit) env temp e w2) as [r w3] eqn:Ef. exists w3. split; [|by eapply keeps_trans].
  assert (r = Err (PullFailed e)) as ->.
  { revert Ef. unfold fail_download, cleanup_temp, on_disk, se_bind, se_read. destruct (_ && _); by intros [= <- _]. }
  unfold se_bind at 1. fold file temp. by rewrite Ef.
Qed.

Lemma write_blocks_ok bs idx bytes c w w' :
  w_disk w temp = Some (FileNode c) -> write_blocks env folder f temp idx bytes bs w = (Ok tt, w') ->
  exists datas, Forall2 (fun data b => pe_sha256 env data = bi_hash b) datas bs /\
    w_disk w' temp = Some (FileNode (c ++ concat datas)).
Proof.
  revert idx bytes c w. induction bs as [|b bs IH]; intros idx bytes c w Hd Hw; simpl in Hw.
  - injection Hw as <-. exists []. by rewrite app_nil_r.
  - assert (forall e (k : World DB), fail_download (A := unit) env temp e k = (Ok tt, w') -> False) as Hfail.
    { intros e k Hk. apply se_bind_Ok in Hk as ([] & ? & _ & Hk). done. }
    destruct (pe_source env) as [src|]; [|by apply Hfail in Hw].
    destruct (src folder (name f) b idx) as [data|e]; [|by apply Hfail in Hw].
    case_decide as Hh; [|by apply Hfail in Hw].
    destruct (pe_io env (IoWrite temp idx)); [|by apply se_bind_Ok in Hw as ([] & ? & _ & ?%Hfail)].
    apply se_bind_Ok in Hw as ([] & w1 & E1 & Hw). injection E1 as <-.
    apply se_bind_Ok in Hw as ([] & w2 & E2 & Hw). injection E2 as <-.
    apply (IH _ _ (c ++ data)) in Hw as (datas & Hds & Ed).
    + exists (data :: datas). split; [by constructor|]. simpl. by rewrite app_assoc.
    + simpl. unfold disk_append. rewrite Hd. unfold disk_write. by rewrite decide_True.
Qed.

Lemma merge_downloaded_skip w :
  is_mergeable_text (name f) = false \/
    (forall g, get_file (w_db w) folder (name f) = Ok (Some g) -> base_version g = None) ->
  merge_downloaded env folder f file temp w = (Ok f, w).
Proof.
  intros Hs. unfold merge_downloaded, se_bind, se_read, on_disk. simpl. case_match eqn:Eb; [|done].
  destruct Hs as [->|Hs]; [done|]. exfalso.
  destruct (path_exists (w_disk w) file); [|done].
  destruct (get_file (w_db w) folder (name f)) as [[g|]|e] eqn:Eg; try done. simpl in Eb.
  rewrite (Hs g eq_refl) in Eb. done.
Qed.

End DownloadFile.

Section Verified.
Context {DB : Type} `{Hdb : LocalDatabase DB} `{Hlaws : !LocalDatabaseLaws DB}.
Context (env : PullEnv) (fp folder : str) (f : FileInfo).
Implicit Types w : World DB.
Let file := path_join fp (name f).
Let temp := temp_path_for file.

Lemma disk_rename_target (d : Disk) old new : disk_rename d old new new = d old.
Proof. unfold disk_rename. by rewrite decide_True. Qed.

(** What [install] leaves behind. *)
Lemma install_effect info w w' :
  db_inv (w_db w) -> name info = name f -> install env folder f file temp info w = (Ok tt, w') ->
  w_disk w' file = w_disk w temp /\ db_files (w_db w') folder !! name f = Some info /\
  forall q n, apart file temp q -> w_disk w q = Some n -> w_disk w' q = Some n.
Proof.
  intros Hinv Hn E. apply install_ok in E as (w1 & (w2 & E2 & K2 & ->) & _ & Ed & Edb). simpl in Ed.
  assert (temp <> file) as Hne by apply temp_path_differs.
  destruct (law_update_file (w_db w) folder info Hinv) as (db' & Eu & _ & Ef & _).
  rewrite Ed, Edb, Eu. simpl. split; [by rewrite disk_rename_target, K2|]. split; [by rewrite Ef, Hn, lookup_insert_eq|].
  intros q n Hq Hd. rewrite disk_rename_apart by done. rewrite K2; [done|apply Hq].
Qed.

(** A successful download from blocks: the temporary file holds verified chunks
    and is installed. *)
Lemma download_blocks_ok area w w' :
  archives_within env area -> ~ area temp ->
  is_mergeable_text (name f) = false \/
    (forall g, get_file (w_db w) folder (name f) = Ok (Some g) -> base_version g = None) ->
  download_blocks env folder f file temp w = (Ok tt, w') ->
  exists datas w1, Forall2 (fun data b => pe_sha256 env data = bi_hash b) datas (blocks f) /\
    w_disk w1 temp = Some (FileNode (concat datas)) /\ keeps (skipped temp area) w w1 /\
    install env folder f file temp f w1 = (Ok tt, w').
Proof.
  intros Ha Hat Hnm E. assert (skipped temp area temp) as Ht by (by left). unfold download_blocks in E.
  assert (forall A (c : PullM A) a v v', frames (skipped temp area) c -> c v = (Ok a, v') ->
            keeps (skipped temp area) w v -> keeps (skipped temp area) w v') as Hk.
  { intros A c a v v' Hc Ev Hv. specialize (Hc v). rewrite Ev in Hc. by eapply keeps_trans. }
  apply se_bind_Ok in E as ([] & w1 & E1 & E).
  pose proof (Hk _ _ _ _ _ (frames_mkdirs _ _ _ _ _) E1 (keeps_refl _ w)) as K1.
  apply se_bind_Ok in E as ([] & w2 & E2 & E).
  assert (w_disk w2 temp = Some (FileNode [])) as Ht2.
  { unfold io in E2. destruct (pe_io env _); [|done]. injection E2 as <-. simpl. unfold disk_write. by rewrite decide_True. }
  assert (keeps (skipped temp area) w w2) as K2.
  { eapply Hk; [|exact E2|exact K1]. apply frames_io. by apply disk_write_keeps. }
  apply se_bind_Ok in E as ([] & w3 & E3 & E).
  pose proof (Hk _ _ _ _ _ (frames_write_blocks env _ _ Ht _ _ _ _ _) E3 K2) as K3.
  destruct (write_blocks_ok env fp folder f _ _ _ _ _ _ Ht2 E3) as (datas & Hds & Ed3). simpl in Ed3.
  apply se_bind_Ok in E as ([] & w4 & E4%(checked_ok env) & E). subst w4.
  apply se_bind_Ok in E as ([] & w4 & E4%(checked_ok env) & E). subst w4.
  rewrite (se_bind_run _ _ _ _ _ (merge_downloaded_skip env fp folder f w3 ltac:(by rewrite (proj1 K3)))) in E.
  apply se_bind_Ok in E as ([] & w5 & E5 & E). exists datas, w5. split; [done|].
  split; [|split; [|exact E]].
  - rewrite <-Ed3. revert E5. unfold archive_old. destruct (pe_versioner env) as [v|] eqn:Ev; [|by intros [= <-]].
    unfold se_bind, on_disk, se_read. destruct (path_exists _ _); [|by intros [= <-]].
    intros [= <-]. simpl. by apply (Ha v).
  - exact (Hk _ _ _ _ _ (frames_archive env _ file (archives_skipped env temp area Ha)) E5 K3).
Qed.

(** C7: what a download puts in place is what the index announced.  When
    [download_file] succeeds without a local copy and without a text merge, the
    file consists of one chunk per announced block, each with the announced
    SHA-256 digest; the database records the file; everything else on disk is
    kept; and if the chunks have the announced total size, the file is not
    pulled again. *)
Theorem download_file_verified area w w' :
  db_inv (w_db w) -> archives_within env area -> ~ area temp ->
  find_local_copy_source fp f folder w = (Ok None, w) ->
  is_mergeable_text (name f) = false \/
    (forall g, db_files (w_db w) folder !! name f = Some g -> base_version g = None) ->
  download_file env fp folder f w = (Ok tt, w') ->
  (exists datas, Forall2 (fun data b => pe_sha256 env data = bi_hash b) datas (blocks f) /\
     w_disk w' file = Some (FileNode (concat datas)) /\
     (is_deleted f = false -> pe_io env (IoMetadata file) = true ->
      Z.of_nat (length (concat datas)) = wrap 64 (size f) -> needs_pull env fp (w_disk w') f = Ok false)) /\
  db_files (w_db w') folder !! name f = Some f /\
  (forall q n, apart file temp q -> ~ area q -> w_disk w q = Some n -> w_disk w' q = Some n).
Proof.
  intros Hinv Ha Hat Hsrc Hnm E. unfold download_file in E. apply se_bind_Ok in E as ([] & w0 & E0 & E).
  assert (w0 = w) as ->.
  { unfold check_name in E0. destruct (validate_remote_name (name f)); [|done]. by injection E0. }
  rewrite (se_bind_run _ _ _ _ _ Hsrc) in E. apply (download_blocks_ok area) in E as (datas & w1 & Hds & Et & K & E); [|done|done|].
  2: { destruct Hnm as [?|Hb]; [by left|]. right. intros g. rewrite law_get_file by done. intros [= Hg]. by apply Hb. }
  apply install_effect in E as (Ef & Edb & Kq); [|by rewrite (proj1 K)|done]. rewrite Et in Ef.
  split; [|split; [done|]].
  - exists datas. split; [done|]. split; [done|]. intros Hdel Hio Hsz. unfold needs_pull. fold file.
    assert (path_exists (w_disk w') file = true) as ->.
    { unfold path_exists. apply bool_decide_eq_true_2. rewrite Ef. by eexists. }
    rewrite Hdel, Ef, Hio. simpl. case_decide; [done|]. by rewrite Hsz, Z.eqb_refl.
  - intros q n Hq Haq Hd. apply Kq; [done|]. apply K; [|done]. intros [?|?]; [|done]. by apply Hq.
Qed.

End Verified.

(** Content copied from another local file is not verified.  When the
    database lists a file with the announced block hashes, that file's current
    content [c] is installed under the new name and recorded with the announced
    metadata, whatever [c] hashes to. *)
Theorem copy_source_unverified {DB : Type} `{Hdb : LocalDatabase DB} `{Hlaws : !LocalDatabaseLaws DB}
    env fp folder f (w : World DB) source c :
  db_inv (w_db w) -> validate_remote_name (name f) = Ok tt ->
  find_local_copy_source fp f folder w = (Ok (Some source), w) -> w_disk w source = Some (FileNode c) ->
  (forall op, pe_io env op = true) -> pe_versioner env = None -> mtime_overflows f = false ->
  exists w', download_file env fp folder f w = (Ok tt, w') /\
    w_disk w' (path_join fp (name f)) = Some (FileNode c) /\
    db_files (w_db w') folder !! name f = Some f.
Proof.
  intros Hinv Hv Hs Hc Hio Hnv Hm. unfold download_file, check_name. rewrite Hv.
  rewrite (se_bind_run _ _ _ _ _ (eq_refl : se_ret tt w = (Ok tt, w))), (se_bind_run _ _ _ _ _ Hs).
  set (file := path_join fp (name f)). set (temp := temp_path_for file). unfold copy_local, make_parent, io.
  rewrite !Hio. set (w1 := mkWorld (w_db w) (disk_mkdirs (w_disk w) (parent_of file)) (w_events w)).
  rewrite (se_bind_run _ _ w tt w1) by done.
  assert (w_disk w1 source = Some (FileNode c)) as Hc1 by (by apply disk_mkdirs_keeps).
  rewrite (se_bind_run _ _ w1 (w_disk w1 source) w1) by done. rewrite Hc1.
  set (w2 := mkWorld (w_db w1) (disk_write (w_disk w1) temp c) (w_events w1)).
  rewrite (se_bind_run _ _ w1 tt w2) by done.
  rewrite (se_bind_run _ _ w2 tt w2) by (unfold archive_old; by rewrite Hnv).
  fold (install env folder f file temp f). destruct (install env folder f file temp f w2) as [[[]|e] w'] eqn:E.
  - exists w'. apply install_effect in E as (Ef & Edb & _); [|done|done]. split; [done|]. split; [|done].
    fold file in Ef. rewrite Ef. fold temp. unfold w2. simpl. unfold disk_write. by rewrite decide_True.
  - exfalso. eapply install_no_error; [|exact Hm|exact E]. exists 0%nat. split; [lia|apply Hio].
Qed.

(** ** Deletions *)

Section Delete.
Context {DB : Type} `{Hdb : LocalDatabase DB} `{Hlaws : !LocalDatabaseLaws DB}.
Context (env : PullEnv) (fp folder : str) (f : FileInfo).
Implicit Types w : World DB.
Let file := path_join fp (name f).
Let trash_parent := parent_of (path_join (path_join (path_join fp ($".sttrash")) (pe_date env)) (name f)).

(** The disk when the destination is chosen, and the destination. *)
Definition with_trash_dir (d : Disk) : Disk := disk_mkdirs d trash_parent.
Definition trash_target w : str := trash_dest env (with_trash_dir (w_disk w)) fp (name f).

Lemma disk_rename_below (d : Disk) old new r : disk_rename d old new (new ++ $"/" ++ r) = d (old ++ $"/" ++ r).
Proof.
  unfold disk_rename. rewrite decide_False.
  - by rewrite (app_assoc new), strip_prefix_app.
  - intros E. apply (f_equal length) in E. rewrite !length_app in E. simpl in E. lia.
Qed.

Lemma pull_delete_ok w w' :
  pull_delete_file env fp folder f w = (Ok tt, w') -> path_exists (w_disk w) file = true ->
  w_disk w' = disk_rename (with_trash_dir (w_disk w)) file (trash_target w) /\
  w_db w' = (update_file (w_db w) folder f).2.
Proof.
  intros E Hx. unfold pull_delete_file in E. apply se_bind_Ok in E as ([] & w0 & E0 & E).
  assert (w0 = w) as ->.
  { unfold check_name in E0. destruct (validate_remote_name (name f)); [|done]. by injection E0. }
  rewrite (se_bind_run _ _ w true w) in E by (unfold on_disk, se_read; unfold file in Hx; by rewrite Hx).
  apply se_bind_Ok in E as ([] & w1 & E1 & E). unfold move_to_trash, io in E1.
  destruct (pe_io env (IoCreateDirAll _)); [|done].
  rewrite (se_bind_run _ _ w tt (mkWorld (w_db w) (with_trash_dir (w_disk w)) (w_events w))) in E1 by done.
  rewrite (se_bind_run _ _ _ (trash_target w) (mkWorld (w_db w) (with_trash_dir (w_disk w)) (w_events w))) in E1 by done.
  destruct (pe_io env _); [|done]. injection E1 as <-. unfold db_try, w_update_file in E. simpl in E.
  destruct (update_file (w_db w) folder f) as [[[]|e] db]; [|done]. by injection E as <-.
Qed.

(** C11: a remote deletion never destroys data.  When a file or directory that
    exists is deleted, it and everything below it is found under the day's
    trash directory afterwards, the database records the deletion, and if the
    chosen place was free, every file content that was on disk is still
    there. *)
Theorem quarantine_keeps_content w w' :
  db_inv (w_db w) -> path_exists (w_disk w) file = true ->
  pull_delete_file env fp folder f w = (Ok tt, w') ->
  let dest := trash_target w in
  w_disk w' dest = w_disk w file /\
  (forall r n, w_disk w (file ++ $"/" ++ r) = Some n -> w_disk w' (dest ++ $"/" ++ r) = Some n) /\
  db_files (w_db w') folder !! name f = Some f /\
  (w_disk w dest = None -> (forall r, w_disk w (dest ++ $"/" ++ r) = None) ->
   forall q c, w_disk w q = Some (FileNode c) -> exists q', w_disk w' q' = Some (FileNode c)).
Proof.
  intros Hinv Hx E dest. destruct (pull_delete_ok w w' E Hx) as [-> ->]. fold dest.
  destruct (law_update_file (w_db w) folder f Hinv) as (db' & Eu & _ & Ef & _). rewrite Eu. cbn [snd].
  assert (forall q n, w_disk w q = Some n -> with_trash_dir (w_disk w) q = Some n) as Hm.
  { intros q n. apply disk_mkdirs_keeps. }
  assert (with_trash_dir (w_disk w) file = w_disk w file) as Hfile.
  { unfold path_exists in Hx. apply bool_decide_eq_true_1 in Hx as [n Hn]. by rewrite Hn, (Hm _ _ Hn). }
  split; [by rewrite disk_rename_target|]. split; [|split; [by rewrite Ef, lookup_insert_eq|]].
  - intros r n Hn. rewrite disk_rename_below. by apply Hm.
  - intros Hfree Hbelow q c Hq. destruct (decide (q = file)) as [->|Hne].
    { exists dest. by rewrite disk_rename_target, Hfile. }
    destruct (strip_prefix (file ++ $"/") q) as [r|] eqn:Er.
    { apply strip_prefix_Some in Er as ->. rewrite <-app_assoc in Hq. exists (dest ++ $"/" ++ r).
      rewrite disk_rename_below. by apply Hm. }
    exists q. unfold disk_rename. rewrite decide_False by (intros ->; congruence).
    destruct (strip_prefix (dest ++ $"/") q) as [r|] eqn:Er'.
    { apply strip_prefix_Some in Er' as ->. rewrite <-app_assoc, Hbelow in Hq. done. }
    rewrite decide_False by done. unfold starts_with. rewrite Er. by apply Hm.
Qed.

End Delete.

(** ** The deletion quota *)

Create HintDb announces.

Section Quota.
Context {DB : Type} `{LocalDatabase DB} (env : PullEnv).
Implicit Types w : World DB.

(** The computation only appends events that satisfy [ok]. *)
Definition announces {A} (ok : SyncEvent -> Prop) (c : PullM (DB := DB) A) : Prop :=
  forall w, exists evs, w_events (c w).2 = w_events w ++ evs /\ Forall ok evs.

Lemma announces_read {A} ok (g : World DB -> result PullError A) : announces ok (se_read g).
Proof. intros w. exists []. simpl. by rewrite app_nil_r. Qed.

Lemma announces_ret {A} ok (a : A) : announces ok (se_ret a).
Proof. apply (announces_read ok (fun _ => Ok a)). Qed.

Lemma announces_throw {A} ok e : announces (A := A) ok (se_throw e).
Proof. apply (announces_read ok (fun _ => Err e)). Qed.

Lemma announces_set_disk ok g : announces ok (set_disk g).
Proof. intros w. exists []. simpl. by rewrite app_nil_r. Qed.

Lemma announces_event (ok : SyncEvent -> Prop) e : ok e -> announces ok (announce e).
Proof. intros He w. exists [e]. by repeat constructor. Qed.

Lemma announces_bind {A B} ok (c : PullM A) (k : A -> PullM B) :
  announces ok c -> (forall a, announces ok (k a)) -> announces ok (se_bind c k).
Proof.
  intros Hc Hk w. destruct (Hc w) as (e1 & E1 & F1). unfold se_bind. destruct (c w) as [[a|e] w1]; [|eauto].
  destruct (Hk a w1) as (e2 & E2 & F2). exists (e1 ++ e2). simpl in E1. rewrite E2, E1, app_assoc.
  split; [done|]. by apply Forall_app.
Qed.

Lemma announces_update_file ok folder info : announces ok (db_try (w_update_file folder info)).
Proof.
  intros w. exists []. rewrite app_nil_r. unfold db_try, w_update_file.
  by destruct (update_file (w_db w) folder info) as [[]].
Qed.

Lemma announces_log ok folder info : announces ok (db_log (w_update_file folder info)).
Proof.
  intros w. exists []. rewrite app_nil_r. unfold db_log, w_update_file.
  by destruct (update_file (w_db w) folder info) as [[]].
Qed.

Lemma announces_folder_files ok folder : announces ok (db_try (w_get_folder_files folder)).
Proof. intros w. exists []. by rewrite app_nil_r. Qed.

#[local] Hint Resolve announces_read announces_ret announces_throw announces_set_disk announces_event
  announces_update_file announces_log announces_folder_files : announces.

(** Follows the structure of a computation down to its primitive steps. *)
Ltac announce_step :=
  match goal with
  | |- announces _ (se_bind _ _) => apply announces_bind; [|intros ?]
  | |- announces _ (match ?x with _ => _ end) => destruct x
  | |- announces _ (let _ := _ in _) => cbv zeta
  end.
Ltac solve_announces := repeat announce_step; auto with announces.

Definition not_started (e : SyncEvent) : Prop := match e with ItemStarted _ _ _ => False | _ => True end.

Lemma announces_cleanup temp : announces not_started (cleanup_temp env temp).
Proof. unfold cleanup_temp, on_disk. solve_announces. Qed.

Lemma announces_fail {A} temp e : announces (A := A) not_started (fail_download env temp e).
Proof. apply announces_bind; [apply announces_cleanup|]. intros. apply announces_throw. Qed.

Lemma announces_io op g n : announces not_started (io env op g n).
Proof. unfold io. solve_announces. Qed.

#[local] Hint Resolve announces_fail announces_io : announces.

Lemma announces_write_blocks folder f temp idx bytes bs :
  announces not_started (write_blocks env folder f temp idx bytes bs).
Proof.
  revert idx bytes. induction bs as [|b bs IH]; intros idx bytes; simpl; [apply announces_ret|].
  solve_announces; by apply announces_event.
Qed.

Lemma announces_rename temp file n : announces not_started (rename_with_retry env temp file n).
Proof.
  assert (forall k, announces not_started (try_rename env temp file k)) as Ht.
  { intros k. unfold try_rename. solve_announces. }
  assert (forall k, announces not_started (remove_target env file k)) as Hr.
  { intros k. unfold remove_target, on_disk. solve_announces. }
  assert (forall m k, announces not_started (rename_retries env m temp file k)) as Hl.
  { induction m as [|m IH]; intros k; cbn [rename_retries]; solve_announces. }
  unfold rename_with_retry. solve_announces.
Qed.

Lemma announces_download fp folder f : announces not_started (download_file env fp folder f).
Proof.
  unfold download_file, check_name, find_local_copy_source, copy_local, download_blocks, make_parent,
    archive_old, set_mtime, merge_downloaded, on_disk. cbv zeta.
  solve_announces; auto using announces_rename, announces_write_blocks.
Qed.

Lemma announces_item fp folder f : announces not_started (pull_item env fp folder f).
Proof.
  unfold pull_item, pull_delete_file, move_to_trash, create_directory, check_name, on_disk. cbv zeta.
  solve_announces; auto using announces_download.
Qed.

(** The deletions a list of events starts. *)
Definition starts_delete (e : SyncEvent) : bool :=
  match e with ItemStarted _ _ ItemDelete => true | _ => false end.

Definition deletions (evs : list SyncEvent) : nat := length (filter (fun e => starts_delete e = true) evs).

Lemma deletions_app a b : deletions (a ++ b) = (deletions a + deletions b)%nat.
Proof. unfold deletions. by rewrite filter_app, length_app. Qed.

Lemma deletions_none evs : Forall not_started evs -> deletions evs = 0%nat.
Proof.
  unfold deletions. induction 1 as [|e evs He _ IH]; [done|]. rewrite filter_cons_False; [done|]. by destruct e.
Qed.

Definition deleted_count (l : list FileInfo) : nat := length (filter (fun f => is_deleted f = true) l).

Lemma pull_task_deletions fp folder f w :
  exists evs, w_events (pull_task env fp folder f w).2 = w_events w ++ evs /\
    deletions evs = if is_deleted f then 1%nat else 0%nat.
Proof.
  unfold pull_task. rewrite (se_bind_run _ _ w tt
    (mkWorld (w_db w) (w_disk w) (w_events w ++ [ItemStarted folder (name f) (item_action f)]))) by done.
  set (w1 := mkWorld _ _ _). destruct (announces_item fp folder f w1) as (evs & E & Hn).
  destruct (pull_item env fp folder f w1) as [r w2]. simpl in E.
  assert (forall tail, deletions ([ItemStarted folder (name f) (item_action f)] ++ evs ++ tail) =
            ((if is_deleted f then 1 else 0) + deletions tail)%nat) as Hcount.
  { intros tail. rewrite !deletions_app, (deletions_none evs) by done. unfold item_action. by destruct (is_deleted f). }
  destruct r as [a|[e| |]]; simpl; rewrite E; eexists; rewrite <-!app_assoc;
    (split; [rewrite ?(app_nil_r evs); reflexivity|]).
  - by rewrite Hcount, Nat.add_0_r.
  - by rewrite Hcount, Nat.add_0_r.
  - specialize (Hcount []). rewrite app_nil_r in Hcount. by rewrite Hcount, Nat.add_0_r.
  - specialize (Hcount []). rewrite app_nil_r in Hcount. by rewrite Hcount, Nat.add_0_r.
Qed.

Lemma run_tasks_deletions fp folder stats l w :
  exists evs, w_events (run_tasks env fp folder stats l w).2 = w_events w ++ evs /\
    (deletions evs <= deleted_count l)%nat.
Proof.
  revert stats w. induction l as [|f l IH]; intros stats w; cbn [run_tasks].
  - exists []. simpl. by rewrite app_nil_r.
  - destruct (pull_task_deletions fp folder f w) as (e1 & E1 & D1).
    destruct (pull_task env fp folder f w) as [r w1]. simpl in E1.
    assert (deleted_count (f :: l) = (if is_deleted f then 1 else 0) + deleted_count l)%nat as Hc.
    { unfold deleted_count. rewrite filter_cons. destruct (is_deleted f); done. }
    destruct r as [a|[e| |]];
      try (match goal with |- context [run_tasks env fp folder ?st l w1] => destruct (IH st w1) as (e2 & E2 & D2) end;
           exists (e1 ++ e2); rewrite E2, E1, app_assoc, deletions_app; split; [done|lia]).
    exists e1. simpl. rewrite E1. split; [done|]. rewrite Hc. lia.
Qed.

(** C10: one pull never applies more remote deletions than the quota, a quarter
    of the live local files but at least twenty; and a batch that asks for more
    is refused as a whole: not one of its deletions is started. *)
Theorem pull_deletes_within_quota folder needed w locals :
  (forall l, pe_schedule env l ≡ₚ l) -> get_folder_files (w_db w) (folder_id folder) = Ok locals ->
  let quota := delete_quota (length (filter (fun f => is_deleted f = false) locals)) in
  exists evs, w_events (pull_folder env folder needed w).2 = w_events w ++ evs /\
    (deletions evs <= quota)%nat /\
    ((quota < deleted_count needed)%nat -> deletions evs = 0%nat).
Proof.
  intros Hp Hl quota. unfold pull_folder, io.
  destruct (pe_io env (IoCreateDirAll (folder_path folder))).
  2: { exists []. simpl. rewrite app_nil_r. split; [done|]. split; [unfold deletions; simpl; lia|done]. }
  rewrite (se_bind_run _ _ w tt (mkWorld (w_db w) (disk_mkdirs (w_disk w) (folder_path folder)) (w_events w))) by done.
  set (w1 := mkWorld _ _ _).
  rewrite (se_bind_run _ _ w1 locals w1) by (unfold db_try, w_get_folder_files, se_read; simpl; by rewrite Hl).
  fold quota. unfold cleanup_sttrash. set (g := fun d q => _).
  rewrite (se_bind_run _ _ w1 tt (mkWorld (w_db w1) (g (w_disk w1)) (w_events w1))) by done.
  match goal with |- context [run_tasks env ?a ?b ?st ?l ?v] => destruct (run_tasks_deletions a b st l v) as (evs & E & D) end.
  exists evs. rewrite E. split; [done|]. unfold deleted_count in *. rewrite (Hp (within_quota quota needed)) in D.
  unfold within_quota in D. destruct (Nat.ltb_spec quota (length (filter (fun f => is_deleted f = true) needed))) as [Hq|Hq].
  - assert (filter (fun f => is_deleted f = true) (filter (fun f => is_deleted f = false) needed) = []) as En.
    { clear. induction needed as [|f l IH]; [done|]. rewrite filter_cons. case_decide as Hf; [|done].
      rewrite filter_cons_False; [done|congruence]. }
    rewrite En in D. simpl in D. split; [lia|]. intros _. lia.
  - split; [lia|]. lia.
Qed.

End Quota.

(** ** Witnesses: a folder at [/r] on the in-memory database *)

Lemma run_fst {S E A : Type} (c : SE S E A) s r : (c s).1 = r -> c s = (r, (c s).2).
Proof. destruct (c s). by intros <-. Qed.

Definition ascii_codes (s : str) : list Z := (fun c => Z.of_N (N_of_ascii c)) <$> s.

Definition pull_env (source : option (str -> str -> BlockInfo -> nat -> result SyncError str)) : PullEnv :=
  mkPullEnv (fun _ => true) (fun _ => []) source None ascii_codes (fun _ => true) (fun _ _ => []) 100
    (fun _ => []) ($"20260101") ($"120000") 0 (fun _ => None) (fun _ => 0) (fun _ => []) (fun l => l).

(** A file of one block with content "new", and a deletion. *)
Definition pull_file_info : FileInfo :=
  mkFileInfo ($"a.bin") File 3 420 5 0 (vector_with_counter vector_new 1 2) 1 131072
    [mkBlockInfo 3 (ascii_codes ($"new")) 0] None None None None None None.

Definition pull_deletion : FileInfo := mark_deleted pull_file_info.

Definition pull_world (db : list FileInfo) : World MemoryDatabase :=
  mkWorld (md_update_files memory_database_new ($"f") db).2
    (fun q => if decide (q = $"/r/a.bin") then Some (FileNode ($"old"))
              else if decide (q = $"/r/b.bin") then Some (FileNode ($"other")) else None) [].

Lemma pull_world_inv l : db_inv (w_db (pull_world l)).
Proof.
  destruct (md_update_files_fold memory_database_new ($"f") l md_inv_new) as (s & E & Hi & _).
  change (md_inv (md_update_files memory_database_new ($"f") l).2). by rewrite E.
Qed.

Definition pull_folder_demo : Folder := folder_new ($"f") ($"/r").

Lemma download_failure_keeps_files_witness :
  let w := pull_world [] in
  w_disk (download_file (pull_env (Some (fun _ _ _ _ => Ok ($"bad")))) ($"/r") ($"f") pull_file_info w).2 ($"/r/a.bin") =
    Some (FileNode ($"old")).
Proof.
  destruct (download_failure_keeps_files (pull_env (Some (fun _ _ _ _ => Ok ($"bad")))) ($"/r") ($"f") pull_file_info
            (fun _ => False) (pull_world []) (PullFailed (SyncChecksumMismatch 0))
            (download_file (pull_env (Some (fun _ _ _ _ => Ok ($"bad")))) ($"/r") ($"f") pull_file_info (pull_world [])).2)
    as (_ & _ & [K|[[E _]|[E _]]]).
  - intros v Hv. discriminate.
  - apply run_fst. vm_compute. reflexivity.
  - apply K; [vm_compute; discriminate|intros []|reflexivity].
  - discriminate E.
  - discriminate E.
Defined.

(** A rename that keeps failing costs the target: it was removed before the
    rename was tried again. *)
Example failed_rename_loses_target :
  let env := mkPullEnv (fun op => match op with IoRename _ _ _ => false | _ => true end) (fun _ => [])
    (Some (fun _ _ _ _ => Ok ($"new"))) None ascii_codes (fun _ => true) (fun _ _ => []) 100
    (fun _ => []) ($"20260101") ($"120000") 0 (fun _ => None) (fun _ => 0) (fun _ => []) (fun l => l) in
  let '(r, w') := download_file env ($"/r") ($"f") pull_file_info (pull_world []) in
  r = Err (PullFailed (SyncPull ($"a.bin"))) /\ w_disk (pull_world []) ($"/r/a.bin") = Some (FileNode ($"old")) /\
  w_disk w' ($"/r/a.bin") = None.
Proof. vm_compute. auto. Qed.

Lemma download_file_verified_witness :
  let w' := (download_file (pull_env (Some (fun _ _ _ _ => Ok ($"new")))) ($"/r") ($"f") pull_file_info (pull_world [])).2 in
  db_files (w_db w') ($"f") !! ($"a.bin") = Some pull_file_info /\
  w_disk w' ($"/r/b.bin") = Some (FileNode ($"other")).
Proof.
  destruct (download_file_verified (pull_env (Some (fun _ _ _ _ => Ok ($"new")))) ($"/r") ($"f") pull_file_info (fun _ => False)
              (pull_world []) (download_file (pull_env (Some (fun _ _ _ _ => Ok ($"new")))) ($"/r") ($"f") pull_file_info (pull_world [])).2)
    as (_ & E & K).
  - apply pull_world_inv.
  - intros v Hv. discriminate.
  - intros [].
  - vm_compute. reflexivity.
  - left. vm_compute. reflexivity.
  - apply run_fst. vm_compute. reflexivity.
  - split; [exact E|]. apply K.
    + repeat split; vm_compute; first [discriminate|reflexivity].
    + intros [].
    + reflexivity.
Defined.

(** The database says that [b.bin] has the blocks of [a.bin]; on disk it is
    something else. *)
Definition pull_copy_source : FileInfo :=
  mkFileInfo ($"b.bin") File 3 420 5 0 (vector_with_counter vector_new 1 1) 1 131072
    [mkBlockInfo 3 (ascii_codes ($"new")) 0] None None None None None None.

Lemma copy_source_unverified_witness :
  exists w', download_file (pull_env None) ($"/r") ($"f") pull_file_info (pull_world [pull_copy_source]) = (Ok tt, w') /\
    w_disk w' ($"/r/a.bin") = Some (FileNode ($"other")) /\
    db_files (w_db w') ($"f") !! ($"a.bin") = Some pull_file_info /\
    ascii_codes ($"other") <> ascii_codes ($"new").
Proof.
  destruct (copy_source_unverified (pull_env None) ($"/r") ($"f") pull_file_info (pull_world [pull_copy_source])
              ($"/r/b.bin") ($"other")) as (w' & E & Ed & Edb).
  - apply pull_world_inv.
  - vm_compute. reflexivity.
  - vm_compute. reflexivity.
  - reflexivity.
  - reflexivity.
  - reflexivity.
  - reflexivity.
  - exists w'. split; [exact E|]. split; [exact Ed|]. split; [exact Edb|]. vm_compute. discriminate.
Defined.

Lemma quarantine_keeps_content_witness :
  let w' := (pull_delete_file (pull_env None) ($"/r") ($"f") pull_deletion (pull_world [])).2 in
  w_disk w' ($"/r/.sttrash/20260101/a.bin") = Some (FileNode ($"old")) /\
  exists q, w_disk w' q = Some (FileNode ($"other")).
Proof.
  destruct (quarantine_keeps_content (pull_env None) ($"/r") ($"f") pull_deletion (pull_world [])
              (pull_delete_file (pull_env None) ($"/r") ($"f") pull_deletion (pull_world [])).2) as (E & _ & _ & Hall).
  - apply pull_world_inv.
  - vm_compute. reflexivity.
  - apply run_fst. vm_compute. reflexivity.
  - split.
    + exact E.
    + apply (Hall eq_refl) with ($"/r/b.bin"); [|reflexivity].
      intros r. cbn. rewrite !decide_False; [reflexivity| |]; vm_compute; discriminate.
Defined.

Lemma pull_deletes_within_quota_witness :
  exists evs, w_events (pull_folder (pull_env None) pull_folder_demo (repeat pull_deletion 21) (pull_world [])).2 = evs /\
    deletions evs = 0%nat.
Proof.
  destruct (pull_deletes_within_quota (pull_env None) pull_folder_demo (repeat pull_deletion 21) (pull_world []) [])
    as (evs & E & _ & Hz).
  - intros l. reflexivity.
  - reflexivity.
  - exists evs. split; [exact E|]. apply Hz. vm_compute. lia.
Defined.
