(* ===== verification/Versions.v ===== *)
(** * Archived versions of files ([crates/syncthing-versioner])

    The helpers of [util.rs], the simple and the staggered strategy, and the
    factory, as implementations of the [Versioner] interface of [Puller].  Times
    are nanoseconds since 1970.  Listing a directory, the calls that can fail
    and chrono's formatting and parsing of timestamps are parameters. *)

From S2P Require Import Prelude Core Connection Bep Database Merge BlockServer Conflict Puller.

Definition tilde : ascii := "~"%char.

(** [ve_read_dir]: names and modification times, in the order they are listed;
    [None] when the directory cannot be read. *)
Record VersEnv := mkVersEnv {
  ve_read_dir : Disk -> str -> option (list (str * option Z));
  ve_io : IoOp -> bool;
  ve_now : Z;
  ve_format : Z -> str;
  ve_parse : str -> option Z;
}.

Definition NANOS : Z := 1_000_000_000.

(** [duration_since(UNIX_EPOCH).unwrap_or_default().as_secs()] *)
Definition epoch_secs (t : Z) : Z := if t <? 0 then 0 else t / NANOS.

Section Versioners.
Context (env : VersEnv).

(** ** Helpers ([util.rs]) *)

Definition STVERSIONS_DIR : str := $".stversions".

Definition file_name_or_unknown (file_path : str) : str :=
  let n := file_name_of file_path in
  if bool_decide (n = []) || negb (utf8_valid n) then $"unknown" else n.

Definition version_prefix (file_path : str) : str := file_name_or_unknown file_path ++ [tilde].

Definition version_path (versions_dir file_path timestamp : str) : str :=
  path_join versions_dir (version_prefix file_path ++ timestamp).

Definition extract_timestamp (filename : str) : option Z :=
  let tag := match rsplit_once tilde filename with Some (_, tag) => tag | None => filename end in
  (fun secs => secs * NANOS) <$> ve_parse env tag.

(** The version a listed name stands for. *)
Definition version_of (d : Disk) (versions_dir : str) (fname : str) (mtime : Z) : FileVersion :=
  mkFileVersion (default mtime (extract_timestamp fname)) mtime
    (match d (path_join versions_dir fname) with Some (FileNode c) => Z.of_nat (length c) | _ => 0 end).

Definition list_versions_for (d : Disk) (versions_dir file_path : str) : list FileVersion :=
  match ve_read_dir env d versions_dir with
  | None => []
  | Some entries =>
      sort_by (fun v => - version_time v)
        (omap (fun '(raw, meta) =>
                 let fname := from_utf8_lossy raw in
                 if starts_with (version_prefix file_path) fname
                 then (version_of d versions_dir fname) <$> meta else None) entries)
  end.

Inductive VersionError := VersionIo | VersionInternal.

(** The loop over the entries: the content copied to the file. *)
Fixpoint restore_entries (d : Disk) (versions_dir file_path : str) (version_time : Z)
    (entries : list (str * option Z)) : result VersionError str :=
  match entries with
  | [] => Err VersionInternal
  | (raw, meta) :: rest =>
      let fname := from_utf8_lossy raw in
      if negb (starts_with (version_prefix file_path) fname) then restore_entries d versions_dir file_path version_time rest
      else match meta with
           | None => Err VersionIo
           | Some mtime =>
               let version_ts := default mtime (extract_timestamp fname) in
               if Z.abs (version_ts - version_time) / NANOS <? 2 then
                 let source := path_join versions_dir raw in
                 match d source with
                 | Some (FileNode c) => if ve_io env (IoCopy source file_path) then Ok c else Err VersionIo
                 | _ => Err VersionIo
                 end
               else restore_entries d versions_dir file_path version_time rest
           end
  end.

Definition restore_by_timestamp (d : Disk) (versions_dir file_path : str) (version_time : Z) : result VersionError str :=
  match ve_read_dir env d versions_dir with
  | None => Err VersionInternal
  | Some entries => restore_entries d versions_dir file_path version_time entries
  end.

Definition archive_file (d : Disk) (versions_dir file_path : str) : result VersionError str * Disk :=
  if negb (ve_io env (IoCreateDirAll versions_dir)) then (Err VersionIo, d)
  else
    let d := disk_mkdirs d versions_dir in
    let dest := version_path versions_dir file_path (ve_format env (ve_now env / NANOS)) in
    match d file_path with
    | Some (FileNode c) =>
        if ve_io env (IoCopy file_path dest) then (Ok dest, disk_write d dest c) else (Err VersionIo, d)
    | _ => (Err VersionIo, d)
    end.

(** ** The simple strategy *)

Record SimpleVersioner := mkSimpleVersioner { sv_versions_dir : str; sv_keep : nat }.

Definition simple_new (folder_path : str) (keep : nat) : SimpleVersioner :=
  mkSimpleVersioner (path_join folder_path STVERSIONS_DIR) keep.

(** The loop over the versions beyond the limit. *)
Fixpoint prune_old (versions_dir file_path : str) (old : list FileVersion) (d : Disk) : result VersionError unit * Disk :=
  match old with
  | [] => (Ok tt, d)
  | v :: rest =>
      let path := version_path versions_dir file_path (ve_format env (epoch_secs (version_time v))) in
      if path_exists d path then
        if ve_io env (IoRemove path 0) && negb (is_dir d path)
        then prune_old versions_dir file_path rest (disk_remove d path)
        else (Err VersionIo, d)
      else prune_old versions_dir file_path rest d
  end.

Definition simple_prune (v : SimpleVersioner) (d : Disk) (file_path : str) : result VersionError unit * Disk :=
  let versions := list_versions_for d (sv_versions_dir v) file_path in
  if (length versions <=? sv_keep v)%nat then (Ok tt, d)
  else prune_old (sv_versions_dir v) file_path (drop (sv_keep v) versions) d.

Definition simple_archive (v : SimpleVersioner) (d : Disk) (file_path : str) : result VersionError unit * Disk :=
  if negb (path_exists d file_path) then (Ok tt, d)
  else match archive_file d (sv_versions_dir v) file_path with
       | (Err e, d) => (Err e, d)
       | (Ok _, d) => simple_prune v d file_path
       end.

(** ** The staggered strategy *)

Record Interval := mkInterval { step_secs : Z; end_secs : Z }.

Record StaggeredVersioner := mkStaggeredVersioner { st_versions_dir : str; st_intervals : list Interval; st_max_age : Z }.

Definition DEFAULT_MAX_AGE_SECS : Z := 365 * 24 * 60 * 60.

(** [st_max_age] is [intervals[3].end_secs]. *)
Definition staggered_new (folder_path : str) (max_age_days : option Z) : StaggeredVersioner :=
  let max_age_secs := default DEFAULT_MAX_AGE_SECS ((fun d => d * 86400) <$> max_age_days) in
  mkStaggeredVersioner (path_join folder_path STVERSIONS_DIR)
    [mkInterval 30 3600; mkInterval 3600 86400; mkInterval 86400 (30 * 86400); mkInterval (7 * 86400) max_age_secs]
    max_age_secs.

Definition staggered_archive (v : StaggeredVersioner) (d : Disk) (file_path : str) : result VersionError unit * Disk :=
  if negb (path_exists d file_path) then (Ok tt, d)
  else match archive_file d (st_versions_dir v) file_path with
       | (Err e, d) => (Err e, d)
       | (Ok _, d) => (Ok tt, d)
       end.

Definition staggered_get_versions (v : StaggeredVersioner) (d : Disk) (file_path : str) : list FileVersion :=
  sort_by version_time (list_versions_for d (st_versions_dir v) file_path).

Fixpoint find_step_in (intervals : list Interval) (age_secs : Z) : Z :=
  match intervals with
  | [] => 0
  | i :: rest => if age_secs <? end_secs i then step_secs i else find_step_in rest age_secs
  end.

Definition find_step (v : StaggeredVersioner) (age_secs : Z) : Z := find_step_in (st_intervals v) age_secs.

(** The loop over the versions of one file, youngest first. *)
Fixpoint stagger (v : StaggeredVersioner) (prev_age : option Z) (versions : list (str * Z)) : list str :=
  match versions with
  | [] => []
  | (fname, age) :: rest =>
      if (st_max_age v <? age) && (0 <? st_max_age v) then fname :: stagger v prev_age rest
      else match prev_age with
           | None => stagger v (Some age) rest
           | Some prev =>
               let step := find_step v age in
               if (0 <? step) && (0 <? (age - prev) ÷ step) then stagger v (Some age) rest
               else fname :: stagger v prev_age rest
           end
  end.

Definition remove_names (versions_dir : str) (names : list str) (d : Disk) : Disk :=
  fold_left (fun d n =>
      let path := path_join versions_dir n in
      if path_exists d path && ve_io env (IoRemove path 0) then disk_remove d path else d) names d.

(** The timestamped names of a directory, with the base name and the age. *)
Definition aged_names (now_secs : Z) (entries : list (str * option Z)) : list (str * (str * Z)) :=
  omap (fun '(raw, _) =>
          let fname := from_utf8_lossy raw in
          let+ (base, _) := rsplit_once tilde fname in
          let+ ts := extract_timestamp fname in
          Some (base, (fname, now_secs - epoch_secs ts))) entries.

(** Grouped by base name. *)
Definition groups (l : list (str * (str * Z))) : list (list (str * Z)) :=
  (fun base => (filter (fun p => p.1 = base) l).*2) <$> remove_dups l.*1.

Definition prune_group (v : StaggeredVersioner) (versions : list (str * Z)) : list str :=
  if (length versions <=? 1)%nat then [] else stagger v None (sort_by snd versions).

Definition prune_all (v : StaggeredVersioner) (d : Disk) : Disk :=
  match ve_read_dir env d (st_versions_dir v) with
  | None => d
  | Some entries =>
      remove_names (st_versions_dir v)
        (concat (prune_group v <$> groups (aged_names (epoch_secs (ve_now env)) entries))) d
  end.

(** The names older than the limit. *)
Definition expired (v : StaggeredVersioner) (entries : list (str * option Z)) : list str :=
  omap (fun '(raw, meta) =>
          let+ mtime := meta in
          let version_ts := default mtime (extract_timestamp (from_utf8_lossy raw)) in
          if st_max_age v <? epoch_secs (ve_now env) - epoch_secs version_ts then Some raw else None) entries.

Definition staggered_clean (v : StaggeredVersioner) (d : Disk) : Disk :=
  match ve_read_dir env d (st_versions_dir v) with
  | None => d
  | Some entries => prune_all v (remove_names (st_versions_dir v) (expired v entries) d)
  end.

(** ** The factory *)

(** [str::parse] of an unsigned integer of [w] bits. *)
Fixpoint parse_digits (acc : Z) (s : str) : option Z :=
  match s with
  | [] => Some acc
  | c :: s' =>
      let n := Z.of_N (N_of_ascii c) in
      if (48 <=? n) && (n <=? 57) then parse_digits (acc * 10 + (n - 48)) s' else None
  end.

Definition parse_unsigned (w : Z) (s : str) : option Z :=
  let digits := match s with "+"%char :: s' => s' | _ => s end in
  if decide (digits = []) then None
  else let+ n := parse_digits 0 digits in
       if n <? 2 ^ w then Some n else None.

(** The interface of the puller: the first argument of a version call is the
    disk it sees. *)
Definition simple_versioner (v : SimpleVersioner) : Versioner :=
  mkVersioner
    (fun d p => let '(r, d') := simple_archive v d p in (match r with Ok _ => Ok tt | Err _ => Err tt end, d'))
    (fun d p => Some (list_versions_for d (sv_versions_dir v) p))
    (fun d p t => match restore_by_timestamp d (sv_versions_dir v) p t with Ok c => Some c | Err _ => None end).

Definition staggered_versioner (v : StaggeredVersioner) : Versioner :=
  mkVersioner
    (fun d p => let '(r, d') := staggered_archive v d p in (match r with Ok _ => Ok tt | Err _ => Err tt end, d'))
    (fun d p => Some (staggered_get_versions v d p))
    (fun d p t => match restore_by_timestamp d (st_versions_dir v) p t with Ok c => Some c | Err _ => None end).

Definition create_versioner (cfg : VersioningConfig) (folder_path : str) : option Versioner :=
  match cfg with
  | VersioningNone => None
  | VersioningSimple params =>
      let keep := default 5 (params !! $"keep" ≫= parse_unsigned 64) in
      Some (simple_versioner (simple_new folder_path (Z.to_nat keep)))
  | VersioningStaggered params =>
      let max_age := params !! $"maxAge" ≫= parse_unsigned 32 in
      Some (staggered_versioner (staggered_new folder_path max_age))
  | VersioningExternal _ => None
  end.
End Versioners.

(** ** Paths of archived versions *)

Lemma file_name_of_no_slash p : slash ∉ file_name_of p.
Proof.
  unfold file_name_of. destruct (rsplit_once slash p) as [[a b]|] eqn:E; [by apply rsplit_once_Some in E as [_ ?]|].
  revert E. induction p as [|x p IH]; [intros _ ?%elem_of_nil; done|]. cbn. destruct (rsplit_once slash p) as [[? ?]|]; [done|].
  case_decide; [done|]. intros _ [?|?]%elem_of_cons; [done|]. by apply IH.
Qed.

Lemma version_prefix_start p : exists c rest, version_prefix p = c :: rest /\ c <> slash /\ slash ∉ version_prefix p.
Proof.
  unfold version_prefix, file_name_or_unknown. pose proof (file_name_of_no_slash p) as Hn.
  destruct (bool_decide (file_name_of p = []) || negb (utf8_valid (file_name_of p))) eqn:E.
  - eexists _, _. split; [reflexivity|]. split; [done|]. vm_compute. intros Hin. repeat (apply elem_of_cons in Hin as [?|Hin]; [done|]).
    by apply elem_of_nil in Hin.
  - apply orb_false_iff in E as [E%bool_decide_eq_false_1 _]. destruct (file_name_of p) as [|c rest]; [done|].
    exists c, (rest ++ [tilde]). split; [done|]. split; [intros ->; apply Hn; by left|].
    rewrite elem_of_app, list_elem_of_singleton. intros [?|?]; [done|done].
Qed.

(** What an archiver of the folder may touch: its directory, what is below, and
    the directories above. *)
Definition stversions_area (folder_path q : str) : Prop :=
  let dir := path_join folder_path STVERSIONS_DIR in
  q = dir \/ starts_with (dir ++ [slash]) q = true \/ starts_with (q ++ [slash]) dir = true.

Lemma ends_with_last {A : Type} `{EqDecision A} (x : A) l y : ends_with [x] (l ++ [y]) = bool_decide (x = y).
Proof.
  unfold ends_with, starts_with. rewrite reverse_snoc. cbn. case_decide as E; [by rewrite bool_decide_true|by rewrite bool_decide_false].
Qed.

Lemma stversions_dir_spec fp : exists rest, path_join fp STVERSIONS_DIR = rest ++ ["s"%char].
Proof.
  unfold path_join. change (starts_with ($"/") STVERSIONS_DIR) with false. cbn iota.
  case_decide; [by exists ($".stversion")|]. destruct (ends_with ($"/") fp).
  - exists (fp ++ $".stversion"). by rewrite <-app_assoc.
  - exists (fp ++ $"/" ++ $".stversion"). by rewrite <-!app_assoc.
Qed.

Lemma version_path_eq fp p ts :
  version_path (path_join fp STVERSIONS_DIR) p ts = path_join fp STVERSIONS_DIR ++ [slash] ++ version_prefix p ++ ts.
Proof.
  destruct (stversions_dir_spec fp) as [rest ->]. destruct (version_prefix_start p) as (c & r & E & Hc & _).
  unfold version_path, path_join. rewrite E. cbn [app].
  assert (starts_with ($"/") (c :: r ++ ts) = false) as ->.
  { unfold starts_with. cbn. by case_decide. }
  rewrite decide_False by (by destruct rest). change ($"/") with [slash]. rewrite ends_with_last. cbn [bool_decide]. done.
Qed.

Lemma version_path_area fp p ts : stversions_area fp (version_path (path_join fp STVERSIONS_DIR) p ts).
Proof. right. left. rewrite version_path_eq, app_assoc. apply starts_with_app. Qed.

Lemma disk_mkdirs_outside fp (d : Disk) q :
  ~ stversions_area fp q -> disk_mkdirs d (path_join fp STVERSIONS_DIR) q = d q.
Proof.
  intros Hq. unfold disk_mkdirs. destruct (d q); [done|]. rewrite decide_False by (intros ->; apply Hq; by left).
  destruct (starts_with (q ++ [slash]) _) eqn:E; [|done]. exfalso. apply Hq. by right; right.
Qed.

Section Frame.
Context (env : VersEnv) (fp : str).
Let dir := path_join fp STVERSIONS_DIR.

Lemma archive_file_outside d p q : ~ stversions_area fp q -> (archive_file env d dir p).2 q = d q.
Proof.
  intros Hq. unfold archive_file. destruct (negb _); [done|]. cbv zeta.
  destruct (disk_mkdirs d dir p) as [[c|]|]; [|by apply disk_mkdirs_outside..].
  destruct (ve_io _ _); [|by apply disk_mkdirs_outside]. cbn [snd]. unfold disk_write.
  rewrite decide_False by (intros ->; apply Hq, version_path_area). by apply disk_mkdirs_outside.
Qed.

Lemma prune_old_outside p old d q : ~ stversions_area fp q -> (prune_old env dir p old d).2 q = d q.
Proof.
  intros Hq. revert d. induction old as [|v old IH]; intros d; [done|]. cbn [prune_old].
  destruct (path_exists d _); [|apply IH]. destruct (_ && _); [|done]. rewrite IH. unfold disk_remove.
  rewrite decide_False; [done|]. intros ->. apply Hq, version_path_area.
Qed.

(** Archiving keeps to its own directory: whatever strategy a folder is
    configured with, it meets what the puller asks of an archiver, so the
    guarantees of downloads hold with versioning switched on. *)
Theorem created_versioner_within penv cfg :
  pe_versioner penv = create_versioner env cfg fp -> archives_within penv (stversions_area fp).
Proof.
  intros Hv v E d p q Hq. rewrite Hv in E. destruct cfg as [|params|params|params]; try done; injection E as <-; cbn [v_archive simple_versioner staggered_versioner].
  - unfold simple_archive, simple_prune. cbn [sv_versions_dir simple_new]. fold dir.
    destruct (negb (path_exists d p)); [done|].
    pose proof (archive_file_outside d p q Hq) as Ha. destruct (archive_file env d dir p) as [[dest|e] d1]; [|done]. cbn [snd] in Ha.
    destruct (_ <=? _)%nat; [done|].
    pose proof (prune_old_outside p (drop (sv_keep (simple_new fp (Z.to_nat (default 5 (params !! $"keep" ≫= parse_unsigned 64)))))
                   (list_versions_for env d1 dir p)) d1 q Hq) as Hp.
    destruct (prune_old _ _ _ _ _) as [r d2]. cbn in *. congruence.
  - unfold staggered_archive. cbn [st_versions_dir staggered_new]. fold dir.
    destruct (negb (path_exists d p)); [done|].
    pose proof (archive_file_outside d p q Hq) as Ha. destruct (archive_file env d dir p) as [[dest|e] d1]; done.
Qed.
End Frame.

(** ** The simple strategy keeps the newest versions *)

Section Simple.
Context (env : VersEnv) (fp p : str) (MAX_TS : Z).
Let dir := path_join fp STVERSIONS_DIR.

(** Timestamps that fit the format are parsed back. *)
Hypothesis Hchrono : forall t, 0 <= t < MAX_TS ->
  ve_parse env (ve_format env t) = Some t /\ tilde ∉ ve_format env t /\ slash ∉ ve_format env t.

(** The directory lists what is in it, once. *)
Definition lists (d : Disk) : Prop := exists l, ve_read_dir env d dir = Some l /\ NoDup l.*1 /\
  (forall n, n ∈ l.*1 -> slash ∉ n) /\
  (forall n, slash ∉ n -> n ∈ l.*1 <-> is_Some (d (dir ++ [slash] ++ n))) /\
  (forall n meta, (n, meta) ∈ l -> exists mtime, meta = Some mtime).

Hypothesis Hio : forall op, ve_io env op = true.

Definition archive_at (t : Z) : str := version_path dir p (ve_format env t).

(** Everything listed with the file's prefix is a timestamped file. *)
Definition archived_only (d : Disk) : Prop :=
  forall n, slash ∉ n -> is_Some (d (dir ++ [slash] ++ n)) -> starts_with (version_prefix p) (from_utf8_lossy n) = true ->
    exists t c, 0 <= t < MAX_TS /\ from_utf8_lossy n = n /\ n = version_prefix p ++ ve_format env t /\
      d (archive_at t) = Some (FileNode c).

Hypothesis Hutf8 : forall t, 0 <= t < MAX_TS -> utf8_valid (version_prefix p ++ ve_format env t) = true.

Lemma archive_at_inj t t' : 0 <= t < MAX_TS -> 0 <= t' < MAX_TS -> archive_at t = archive_at t' -> t = t'.
Proof using All.
  intros Ht Ht' E. unfold archive_at in E. unfold dir in E. rewrite !version_path_eq in E.
  apply app_inv_head in E. cbn [app] in E. injection E as E. apply app_inv_head in E.
  destruct (Hchrono t Ht) as [P _], (Hchrono t' Ht') as [P' _]. rewrite E in P. congruence.
Qed.

Lemma rsplit_last (a b : str) c : c ∉ b -> rsplit_once c (a ++ c :: b) = Some (a, b).
Proof.
  intros Hb. assert (rsplit_once c b = None) as E0.
  { clear -Hb. induction b as [|x b IH]; [done|]. cbn. rewrite IH by set_solver. case_decide; [set_solver|done]. }
  induction a as [|x a IH]; cbn; [rewrite E0, decide_True by done; done|]. by rewrite IH.
Qed.

Lemma extract_archived t : 0 <= t < MAX_TS ->
  extract_timestamp env (version_prefix p ++ ve_format env t) = Some (t * NANOS).
Proof using All.
  intros Ht. destruct (Hchrono t Ht) as (P & Hn & _). unfold extract_timestamp, version_prefix.
  rewrite <-app_assoc. cbn [app]. rewrite rsplit_last by done. by rewrite P.
Qed.

(** The times a disk holds versions of the file for. *)
Definition times (d : Disk) : list Z := (fun v => epoch_secs (version_time v)) <$> list_versions_for env d dir p.

Lemma epoch_secs_nanos t : 0 <= t -> epoch_secs (t * NANOS) = t.
Proof.
  intros Ht. unfold epoch_secs, NANOS. destruct (Z.ltb_spec (t * 1000000000) 0); [lia|]. by apply Z.div_mul.
Qed.

(** The entry of a listing as a version of the file. *)
Definition pick (d : Disk) (entry : str * option Z) : option FileVersion :=
  let '(raw, meta) := entry in
  let fname := from_utf8_lossy raw in
  if starts_with (version_prefix p) fname then (version_of env d dir fname) <$> meta else None.

Definition secs_of (v : FileVersion) : Z := epoch_secs (version_time v).

Lemma pick_archived d n meta v :
  archived_only d -> slash ∉ n -> is_Some (d (dir ++ [slash] ++ n)) -> pick d (n, meta) = Some v ->
  exists t, 0 <= t < MAX_TS /\ n = version_prefix p ++ ve_format env t /\ version_time v = t * NANOS /\
    is_Some (d (archive_at t)).
Proof using All.
  intros HA Hs Hd E. unfold pick in E. destruct (starts_with _ _) eqn:Ep; [|done].
  destruct (HA n Hs Hd Ep) as (t & c & Ht & Eu & En & Ea). exists t. split; [done|]. split; [done|].
  destruct meta as [mtime|]; [|done]. injection E as <-. cbn. rewrite Eu, En, extract_archived by done.
  split; [done|]. rewrite Ea. by eexists.
Qed.

Lemma pick_back d t mtime :
  0 <= t < MAX_TS ->
  exists v, pick d (version_prefix p ++ ve_format env t, Some mtime) = Some v /\ secs_of v = t.
Proof using All.
  intros Ht. set (n := version_prefix p ++ ve_format env t). exists (version_of env d dir n mtime).
  assert (from_utf8_lossy n = n) as Eu by (apply from_utf8_lossy_valid, (Hutf8 t Ht)).
  unfold pick. rewrite Eu. assert (starts_with (version_prefix p) n = true) as -> by (apply starts_with_app).
  split; [done|]. unfold secs_of. cbn. assert (extract_timestamp env n = Some (t * NANOS)) as -> by (by apply extract_archived).
  apply epoch_secs_nanos. lia.
Qed.

Lemma picked_nodup d (l : list (str * option Z)) :
  archived_only d -> NoDup l.*1 -> (forall n, n ∈ l.*1 -> slash ∉ n /\ is_Some (d (dir ++ [slash] ++ n))) ->
  NoDup (secs_of <$> omap (pick d) l).
Proof using All.
  intros HA. induction l as [|[n meta] l IH]; intros Hnd Hin; [constructor|].
  cbn in Hnd. apply NoDup_cons in Hnd as [Hn Hnd]. cbn [omap list_omap].
  assert (NoDup (secs_of <$> omap (pick d) l)) as HN by (apply IH; [done|intros; apply Hin; by right]).
  destruct (pick d (n, meta)) as [v|] eqn:Ev; [|exact HN]. cbn. constructor; [|exact HN].
  intros (v' & Et & ((n', meta') & Hl & Ev')%list_elem_of_omap)%list_elem_of_fmap. apply Hn.
  apply (list_elem_of_fmap_2 fst) in Hl. cbn in Hl.
  destruct (Hin n ltac:(by left)) as [Hs Hd]. destruct (Hin n' ltac:(by right)) as [Hs' Hd'].
  destruct (pick_archived d n meta v HA Hs Hd Ev) as (t & Ht & -> & E1 & _).
  destruct (pick_archived d n' meta' v' HA Hs' Hd' Ev') as (t' & Ht' & -> & E2 & _).
  unfold secs_of in Et. rewrite E1, E2, !epoch_secs_nanos in Et by lia. by subst t'.
Qed.

Lemma secs_sorted (vs : list FileVersion) :
  Forall (fun v => 0 <= version_time v) vs ->
  StronglySorted (fun a b => - version_time a <= - version_time b) vs -> StronglySorted Z.ge (secs_of <$> vs).
Proof.
  intros HF HS. induction HS as [|v vs HS IH HV]; [constructor|]. apply Forall_cons in HF as [H0 HF].
  cbn. constructor; [by apply IH|]. apply Forall_fmap. rewrite Forall_forall in HV, HF |- *. intros v' Hv'.
  specialize (HV v' Hv'). specialize (HF v' Hv'). cbn in *. unfold secs_of, epoch_secs.
  destruct (Z.ltb_spec (version_time v) 0), (Z.ltb_spec (version_time v') 0); try lia.
  apply Z.le_ge, Z.div_le_mono; unfold NANOS; lia.
Qed.

Lemma times_spec d :
  lists d -> archived_only d ->
  NoDup (times d) /\ StronglySorted Z.ge (times d) /\
  (forall t, t ∈ times d -> 0 <= t < MAX_TS /\ is_Some (d (archive_at t))) /\
  (forall t, 0 <= t < MAX_TS -> is_Some (d (archive_at t)) -> t ∈ times d).
Proof using All.
  intros (l & El & Hnd & Hns & Hin & Hmeta) HA.
  assert (times d = secs_of <$> sort_by (fun v => - version_time v) (omap (pick d) l)) as ->
    by (unfold times, list_versions_for; by rewrite El).
  assert (forall n, n ∈ l.*1 -> slash ∉ n /\ is_Some (d (dir ++ [slash] ++ n))) as Hin'
    by (intros n Hn; split; [by apply Hns|apply Hin; [by apply Hns|done]]).
  assert (forall v, v ∈ omap (pick d) l -> exists t, 0 <= t < MAX_TS /\ version_time v = t * NANOS /\ is_Some (d (archive_at t))) as Hv.
  { intros v ((n, meta) & Hl & Ev)%list_elem_of_omap. apply (list_elem_of_fmap_2 fst) in Hl.
    destruct (Hin' n Hl) as [Hs Hd]. destruct (pick_archived d n meta v HA Hs Hd Ev) as (t & ? & _ & ? & ?). eauto. }
  split_and!.
  - rewrite sort_by_perm. by apply picked_nodup.
  - apply secs_sorted; [|apply sort_by_sorted]. rewrite sort_by_perm. apply Forall_forall.
    intros v (t & Ht & -> & _)%Hv. unfold NANOS. lia.
  - intros t (v & -> & Hin2)%list_elem_of_fmap. rewrite sort_by_perm in Hin2.
    destruct (Hv v Hin2) as (t & Ht & E & Hd). unfold secs_of. by rewrite E, epoch_secs_nanos by lia.
  - intros t Ht Hd. rewrite sort_by_perm. set (n := version_prefix p ++ ve_format env t).
    assert (archive_at t = dir ++ [slash] ++ n) as Eat by apply version_path_eq.
    assert (n ∈ l.*1) as Hn.
    { apply Hin; [|by rewrite <-Eat]. unfold n.
      destruct (version_prefix_start p) as (? & ? & _ & _ & Hp). destruct (Hchrono t Ht) as (_ & _ & Hf). set_solver. }
    apply list_elem_of_fmap in Hn as ((n', meta) & En & Hl). cbn in En. subst n'.
    destruct (Hmeta n meta Hl) as [mtime ->]. destruct (pick_back d t mtime Ht) as (v & Ev & Es).
    apply list_elem_of_fmap. exists v. split; [done|]. apply list_elem_of_omap. by exists (n, Some mtime).
Qed.

Lemma mkdirs_below (d : Disk) n : n <> [] -> disk_mkdirs d dir (dir ++ [slash] ++ n) = d (dir ++ [slash] ++ n).
Proof.
  intros Hn. unfold disk_mkdirs. destruct (d _); [done|].
  rewrite decide_False by (intros E; apply (f_equal length) in E; rewrite !length_app in E; cbn in E; lia).
  destruct (starts_with _ dir) eqn:E; [|done]. unfold starts_with in E.
  destruct (strip_prefix _ dir) as [r|] eqn:Er; [|done]. apply strip_prefix_Some in Er.
  apply (f_equal length) in Er. rewrite !length_app in Er. cbn in Er. lia.
Qed.

Lemma version_name_ne t : version_prefix p ++ ve_format env t <> [].
Proof. destruct (version_prefix_start p) as (? & ? & -> & _). done. Qed.

Lemma prune_old_removes old d :
  NoDup (secs_of <$> old) ->
  (forall v, v ∈ old -> 0 <= secs_of v < MAX_TS /\ exists c, d (archive_at (secs_of v)) = Some (FileNode c)) ->
  exists d', prune_old env dir p old d = (Ok tt, d') /\
    forall t, 0 <= t < MAX_TS -> d' (archive_at t) = if decide (t ∈ secs_of <$> old) then None else d (archive_at t).
Proof using All.
  revert d. induction old as [|v old IH]; intros d Hnd Hold.
  - exists d. split; [done|]. intros t _. rewrite decide_False; [done|]. apply not_elem_of_nil.
  - cbn in Hnd. apply NoDup_cons in Hnd as [Hv Hnd]. destruct (Hold v ltac:(by left)) as [Hr [c Hc]].
    cbn [prune_old]. change (version_path dir p (ve_format env (epoch_secs (version_time v)))) with (archive_at (secs_of v)).
    unfold path_exists, is_dir. rewrite Hc, bool_decide_true, Hio by (by eexists). cbn [andb negb].
    assert (forall t, 0 <= t < MAX_TS -> t <> secs_of v -> disk_remove d (archive_at (secs_of v)) (archive_at t) = d (archive_at t)) as Hrm.
    { intros t Ht Hne. unfold disk_remove. rewrite decide_False; [done|]. intros E. by apply archive_at_inj in E. }
    destruct (IH (disk_remove d (archive_at (secs_of v))) Hnd) as (d' & E & Hd').
    + intros v' Hv'. destruct (Hold v' ltac:(by right)) as [Hr' [c' Hc']]. split; [done|]. exists c'.
      rewrite Hrm; [done|done|]. intros E. apply Hv. rewrite <-E. by apply list_elem_of_fmap_2.
    + exists d'. split; [done|]. intros t Ht. rewrite Hd' by done. cbn [fmap list_fmap].
      destruct (decide (t = secs_of v)) as [->|Hne].
      * rewrite decide_False by done. rewrite decide_True by (by left). unfold disk_remove. rewrite decide_True by done. by rewrite Hc.
      * rewrite Hrm by done. destruct (decide (t ∈ secs_of <$> old)); [by rewrite decide_True by (by right)|].
        rewrite decide_False; [done|]. by intros [?|?]%elem_of_cons.
Qed.

Lemma archived_is_file d t :
  archived_only d -> 0 <= t < MAX_TS -> is_Some (d (archive_at t)) -> exists c, d (archive_at t) = Some (FileNode c).
Proof using All.
  intros HA Ht Hd. set (n := version_prefix p ++ ve_format env t).
  assert (archive_at t = dir ++ [slash] ++ n) as Eat by apply version_path_eq.
  assert (from_utf8_lossy n = n) as Eu by (apply from_utf8_lossy_valid, (Hutf8 t Ht)).
  destruct (HA n) as (t' & c & Ht' & _ & En & Ec).
  - unfold n. destruct (version_prefix_start p) as (? & ? & _ & _ & Hp). destruct (Hchrono t Ht) as (_ & _ & Hf). set_solver.
  - by rewrite <-Eat.
  - rewrite Eu. apply starts_with_app.
  - apply app_inv_head in En. destruct (Hchrono t Ht) as [P _], (Hchrono t' Ht') as [P' _]. rewrite En, P' in P.
    injection P as ->. by exists c.
Qed.

(** The disk once the content [c] is copied to the archive. *)
Definition copied (d : Disk) (now : Z) (c : str) : Disk := disk_write (disk_mkdirs d dir) (archive_at now) c.

Lemma copied_at d now c t :
  0 <= now < MAX_TS -> 0 <= t < MAX_TS ->
  copied d now c (archive_at t) = if decide (t = now) then Some (FileNode c) else d (archive_at t).
Proof using All.
  intros Hnow Ht. unfold copied, disk_write. destruct (decide (t = now)) as [->|Hne]; [by rewrite decide_True|].
  rewrite decide_False by (intros E; by apply archive_at_inj in E). unfold archive_at, dir. rewrite version_path_eq.
  apply mkdirs_below, version_name_ne.
Qed.

Lemma copied_only d now c : 0 <= now < MAX_TS -> archived_only d -> archived_only (copied d now c).
Proof using All.
  intros Hnow HA n Hs Hd Hpre. destruct (decide (dir ++ [slash] ++ n = archive_at now)) as [E|E].
  - unfold archive_at, dir in E. rewrite version_path_eq in E. apply app_inv_head in E. cbn in E. injection E as ->.
    exists now, c. split; [done|]. split; [apply from_utf8_lossy_valid, (Hutf8 now Hnow)|]. split; [done|].
    by rewrite copied_at, decide_True.
  - assert (n <> []) as Hn by (intros ->; destruct (version_prefix_start p) as (? & ? & Ev & _); by rewrite Ev in Hpre).
    assert (copied d now c (dir ++ [slash] ++ n) = d (dir ++ [slash] ++ n)) as Ed
      by (unfold copied, disk_write; rewrite decide_False by done; by apply mkdirs_below).
    rewrite Ed in Hd. destruct (HA n Hs Hd Hpre) as (t & c' & Ht & Eu & En & Ec).
    exists t, (if decide (t = now) then c else c'). split; [done|]. split; [done|]. split; [done|]. rewrite copied_at by done. by case_decide.
Qed.

Lemma copied_times d now c t :
  0 <= now < MAX_TS -> lists d -> lists (copied d now c) -> archived_only d ->
  t ∈ times (copied d now c) <-> t = now \/ t ∈ times d.
Proof using All.
  intros Hnow HL HL1 HA. destruct (times_spec d HL HA) as (_ & _ & T1 & T2).
  destruct (times_spec _ HL1 (copied_only d now c Hnow HA)) as (_ & _ & S1 & S2). split.
  - intros Ht. destruct (S1 t Ht) as [Hr Hd]. rewrite copied_at in Hd by done. case_decide; [by left|]. right. by apply T2.
  - intros [->|Ht]; [apply S2; [done|]; rewrite copied_at, decide_True by done; by eexists|].
    destruct (T1 t Ht) as [Hr Hd]. apply S2; [done|]. rewrite copied_at by done. by case_decide.
Qed.

Lemma split_keep {A : Type} (k : nat) (l : list Z) t (x : option A) :
  NoDup l -> (t ∉ l -> x = None) ->
  (if decide (t ∈ drop k l) then None else x) = if decide (t ∈ take k l) then x else None.
Proof.
  intros Hnd Hx. rewrite <-(take_drop k l) in Hnd, Hx. apply NoDup_app in Hnd as (_ & Hdis & _).
  repeat case_decide; try done; [exfalso; by eapply Hdis|]. apply Hx. by rewrite elem_of_app; intros [?|?].
Qed.

(** Archiving with the simple strategy stores the current content under the
    present time and then holds exactly the [keep] newest versions of the file,
    with the content they had. *)
Theorem simple_archive_keeps_newest keep d c :
  d p = Some (FileNode c) -> ~ stversions_area fp p -> archived_only d -> 0 <= ve_now env / NANOS < MAX_TS ->
  lists d -> lists (copied d (ve_now env / NANOS) c) ->
  exists all d', simple_archive env (simple_new fp keep) d p = (Ok tt, d') /\
    NoDup all /\ StronglySorted Z.ge all /\ (forall t, t ∈ all <-> t = ve_now env / NANOS \/ t ∈ times d) /\
    forall t, 0 <= t < MAX_TS ->
      d' (archive_at t) = if decide (t ∈ take keep all)
                          then (if decide (t = ve_now env / NANOS) then Some (FileNode c) else d (archive_at t)) else None.
Proof using All.
  intros Hp Harea HA Hnow HL HL1. set (now := ve_now env / NANOS) in *. set (d1 := copied d now c).
  pose proof (copied_only d now c Hnow HA) as HA1. fold d1 in HA1. destruct (times_spec d1 HL1 HA1) as (Nd & Ss & S1 & S2).
  set (vs := list_versions_for env d1 dir p).
  assert (NoDup (secs_of <$> drop keep vs)) as Nd2.
  { rewrite fmap_drop. eapply sublist_NoDup; [exact Nd|apply sublist_drop]. }
  destruct (prune_old_removes (drop keep vs) d1 Nd2) as (d' & Epr & Hd').
  { intros v Hv. assert (secs_of v ∈ times d1) as Hin.
    { apply (list_elem_of_fmap_2 secs_of). by eapply elem_of_sublist, sublist_drop. }
    destruct (S1 _ Hin) as [Hr Hd]. split; [done|]. by apply archived_is_file. }
  exists (times d1), d'. split; [|split_and!; [done|done|intros t; by apply copied_times|]].
  - unfold simple_archive, simple_prune, archive_file. cbn [sv_versions_dir sv_keep simple_new]. fold dir.
    unfold path_exists. rewrite Hp, bool_decide_true, !Hio by (by eexists). cbn [negb].
    rewrite (disk_mkdirs_outside fp d p Harea : disk_mkdirs d dir p = d p), Hp. fold now.
    change (disk_write _ _ c) with d1. fold vs.
    destruct (Nat.leb_spec (length vs) keep) as [Hle|Hgt]; [|done].
    rewrite (drop_ge vs keep) in Epr by lia. cbn in Epr. by injection Epr as <-.
  - intros t Ht. rewrite Hd' by done. rewrite fmap_drop. change (secs_of <$> vs) with (times d1).
    pose proof (copied_at d now c t Hnow Ht) as Ed. fold d1 in Ed. rewrite <-Ed.
    apply split_keep; [done|]. intros Hn.
    destruct (d1 (archive_at t)) eqn:E; [|done]. exfalso. apply Hn, S2; [done|]. by rewrite E.
Qed.
End Simple.

(** ** Restoring *)

Section Restore.
Context (env : VersEnv) (fp p : str) (MAX_TS : Z).
Let dir := path_join fp STVERSIONS_DIR.
Let at_ := archive_at env fp p.

Hypothesis Hchrono : forall t, 0 <= t < MAX_TS ->
  ve_parse env (ve_format env t) = Some t /\ tilde ∉ ve_format env t /\ slash ∉ ve_format env t.
Hypothesis Hio : forall op, ve_io env op = true.
Hypothesis Hutf8 : forall t, 0 <= t < MAX_TS -> utf8_valid (version_prefix p ++ ve_format env t) = true.

(** The path restored to carries the name of the archived file. *)
Context (target : str) (Htarget : version_prefix target = version_prefix p).

Definition near (t vt : Z) : Prop := Z.abs (t * NANOS - vt) / NANOS < 2.

Lemma archive_join t : path_join dir (version_prefix p ++ ve_format env t) = at_ t.
Proof. done. Qed.

Lemma restore_entries_spec d vt (l : list (str * option Z)) :
  archived_only env fp p MAX_TS d ->
  (forall n, n ∈ l.*1 -> slash ∉ n /\ is_Some (d (dir ++ [slash] ++ n))) ->
  (forall n meta, (n, meta) ∈ l -> exists mtime, meta = Some mtime) ->
  (exists t c, 0 <= t < MAX_TS /\ near t vt /\ version_prefix p ++ ve_format env t ∈ l.*1 /\ d (at_ t) = Some (FileNode c)) ->
  exists t c, 0 <= t < MAX_TS /\ near t vt /\ d (at_ t) = Some (FileNode c) /\
    restore_entries env d dir target vt l = Ok c.
Proof using All.
  intros HA. induction l as [|[n meta] l IH]; intros Hin Hmeta (t & c & Ht & Hnear & Hn & Hd); [by apply elem_of_nil in Hn|].
  cbn [restore_entries]. rewrite Htarget. destruct (Hin n ltac:(by left)) as [Hs Hdn].
  assert (forall t', 0 <= t' < MAX_TS -> (exists c, d (at_ t') = Some (FileNode c)) -> near t' vt ->
            version_prefix p ++ ve_format env t' ∈ (l.*1 : list str) ->
            exists t c, 0 <= t < MAX_TS /\ near t vt /\ d (at_ t) = Some (FileNode c) /\ restore_entries env d dir target vt l = Ok c) as Hrest.
  { intros t' Ht' [c' Hc'] Hnear' Hl. apply IH; [intros; apply Hin; by right|intros; eapply Hmeta; by right|]. eauto 10. }
  cbn in Hn. apply elem_of_cons in Hn as [<-|Hn].
  - assert (from_utf8_lossy (version_prefix p ++ ve_format env t) = version_prefix p ++ ve_format env t) as Eu
      by (apply from_utf8_lossy_valid, (Hutf8 t Ht)).
    rewrite Eu, starts_with_app. cbn [negb]. destruct (Hmeta _ meta ltac:(by left)) as [mtime ->].
    rewrite (extract_archived env fp p MAX_TS Hchrono Hio Hutf8 t Ht). change (default mtime (Some (t * NANOS))) with (t * NANOS).
    rewrite (proj2 (Z.ltb_lt _ _) Hnear). rewrite archive_join, Hd, Hio. eauto 10.
  - destruct (negb _) eqn:Ep; [apply (Hrest t); eauto|]. apply negb_false_iff in Ep.
    destruct (HA n Hs Hdn Ep) as (t' & c' & Ht' & Eu & -> & Ec). destruct (Hmeta _ meta ltac:(by left)) as [mtime ->].
    rewrite Eu, (extract_archived env fp p MAX_TS Hchrono Hio Hutf8 t' Ht'). change (default mtime (Some (t' * NANOS))) with (t' * NANOS).
    destruct (Z.ltb_spec (Z.abs (t' * NANOS - vt) / NANOS) 2); [|apply (Hrest t); eauto].
    rewrite archive_join. unfold at_. rewrite Ec, Hio. eauto 10.
Qed.

(** What was archived comes back: restoring the version of a moment gives the
    content archived then, unless another version of the file lies within two
    seconds; in general the content of some version that close. *)
Theorem archive_restore_roundtrip d c vt :
  archived_only env fp p MAX_TS d -> 0 <= ve_now env / NANOS < MAX_TS ->
  d p = Some (FileNode c) -> ~ stversions_area fp p -> near (ve_now env / NANOS) vt ->
  lists env fp d -> lists env fp (copied env fp p d (ve_now env / NANOS) c) ->
  exists d1 dest c', archive_file env d dir p = (Ok dest, d1) /\ restore_by_timestamp env d1 dir target vt = Ok c' /\
    (exists t, near t vt /\ d1 (at_ t) = Some (FileNode c')) /\
    ((forall t, t ∈ times env fp p d -> near t vt -> t = ve_now env / NANOS) -> c' = c).
Proof using All.
  intros HA Hnow Hp Harea Hnear HL HL1. set (now := ve_now env / NANOS) in *. set (d1 := copied env fp p d now c).
  assert (archived_only env fp p MAX_TS d1) as HA1 by (by eapply copied_only).
  assert (d1 (at_ now) = Some (FileNode c)) as Hc.
  { unfold d1, at_. erewrite copied_at; [|done..]. by rewrite decide_True. }
  pose proof HL1 as (l & El & Hnd & Hns & Hin & Hmeta). fold dir d1 in El, Hin.
  assert (at_ now = dir ++ [slash] ++ version_prefix p ++ ve_format env now) as Eat by apply version_path_eq.
  destruct (restore_entries_spec d1 vt l HA1) as (t & c' & Ht & Hn & Hd & Er).
  - intros n Hl. split; [by apply Hns|]. apply Hin; [by apply Hns|done].
  - done.
  - exists now, c. split; [done|]. split; [done|]. split; [|done]. apply Hin; [|rewrite <-Eat, Hc; by eexists].
    destruct (version_prefix_start p) as (? & ? & _ & _ & Hpp). destruct (Hchrono now Hnow) as (_ & _ & Hf). set_solver.
  - exists d1, (at_ now), c'. split; [|split; [unfold restore_by_timestamp; by rewrite El|split; [by exists t|]]].
    + unfold archive_file. rewrite Hio. cbn [negb]. rewrite (disk_mkdirs_outside fp d p Harea : disk_mkdirs d dir p = d p), Hp, Hio.
      done.
    + intros Hiso. destruct (decide (t = now)) as [->|Hne]; [congruence|]. exfalso. apply Hne, Hiso; [|done].
      assert (t ∈ times env fp p d1) as Htm.
      { destruct (times_spec env fp p MAX_TS Hchrono Hio Hutf8 d1 HL1 HA1) as (_ & _ & _ & S2).
        apply S2; [done|]. fold at_. rewrite Hd. by eexists. }
      unfold d1 in Htm. erewrite copied_times in Htm; [|done..]. by destruct Htm.
Qed.
End Restore.

(** Versions are filed under the bare file name: two files of the same name in
    different directories share their versions; the later archive of the same
    second replaces the earlier one, and restoring either file gives the same
    content. *)
Theorem versions_mixed env fp p p' d c d1 d2 dest dest' :
  let dir := path_join fp STVERSIONS_DIR in
  file_name_of p = file_name_of p' -> archive_file env d dir p = (Ok dest, d1) ->
  archive_file env d1 dir p' = (Ok dest', d2) -> d1 p' = Some (FileNode c) -> ~ stversions_area fp p' ->
  dest' = dest /\ d2 dest = Some (FileNode c) /\
  (forall d3, list_versions_for env d3 dir p = list_versions_for env d3 dir p') /\
  (forall d3 target target' t, file_name_of target = file_name_of target' ->
     (forall x, ve_io env (IoCopy x target) = ve_io env (IoCopy x target')) ->
     restore_by_timestamp env d3 dir target t = restore_by_timestamp env d3 dir target' t).
Proof.
  intros dir En E1 E2 Hc Harea.
  assert (forall a b, file_name_of a = file_name_of b -> version_prefix a = version_prefix b) as Hpre
    by (intros a b E; unfold version_prefix, file_name_or_unknown; by rewrite E).
  assert (dest = version_path dir p (ve_format env (ve_now env / NANOS))) as ->.
  { unfold archive_file in E1. destruct (negb _); [done|]. destruct (disk_mkdirs d dir p) as [[?|]|]; [|done..].
    destruct (ve_io _ _); [|done]. by injection E1 as <- _. }
  split; [|split; [|split]].
  - unfold archive_file in E2. destruct (negb _); [done|]. destruct (disk_mkdirs d1 dir p') as [[?|]|]; [|done..].
    destruct (ve_io _ _); [|done]. injection E2 as <- _. unfold version_path. by rewrite (Hpre p p' En).
  - unfold archive_file in E2. destruct (negb _); [done|]. rewrite (disk_mkdirs_outside fp d1 p' Harea : disk_mkdirs d1 dir p' = d1 p'), Hc in E2.
    destruct (ve_io _ _); [|done]. injection E2 as _ <-. unfold disk_write, version_path. rewrite (Hpre p p' En). by rewrite decide_True.
  - intros d3. unfold list_versions_for. by rewrite (Hpre p p' En).
  - intros d3 t1 t2 t Et Hio. unfold restore_by_timestamp. destruct (ve_read_dir env d3 dir) as [l|]; [|done].
    induction l as [|[n meta] l IH]; [done|]. cbn [restore_entries]. rewrite (Hpre t1 t2 Et), Hio. by rewrite IH.
Qed.

(** ** The staggered windows *)

Section Stagger.
Context (v : StaggeredVersioner).

(** The versions the loop lets stand. *)
Fixpoint stagger_kept (prev_age : option Z) (versions : list (str * Z)) : list (str * Z) :=
  match versions with
  | [] => []
  | (fname, age) :: rest =>
      if (st_max_age v <? age) && (0 <? st_max_age v) then stagger_kept prev_age rest
      else match prev_age with
           | None => (fname, age) :: stagger_kept (Some age) rest
           | Some prev =>
               let step := find_step v age in
               if (0 <? step) && (0 <? (age - prev) ÷ step) then (fname, age) :: stagger_kept (Some age) rest
               else stagger_kept prev_age rest
           end
  end.

Lemma stagger_split prev l : stagger v prev l ++ (stagger_kept prev l).*1 ≡ₚ l.*1.
Proof.
  revert prev. induction l as [|[n a] l IH]; intros prev; [done|]. cbn [stagger stagger_kept fmap list_fmap fst].
  destruct (_ && _); [cbn; by rewrite IH|]. destruct prev as [pv|].
  - destruct (_ && _); cbn; [by rewrite <-Permutation_middle, IH|by rewrite IH].
  - cbn. by rewrite <-Permutation_middle, IH.
Qed.

Lemma stagger_kept_elem prev l x : x ∈ stagger_kept prev l -> x ∈ l.
Proof.
  revert prev. induction l as [|[n a] l IH]; intros prev; [done|]. cbn [stagger_kept].
  destruct (_ && _); [right; by eapply IH|]. destruct prev as [pv|].
  - destruct (_ && _); [intros [->|?]%elem_of_cons; [by left|right; by eapply IH]|right; by eapply IH].
  - intros [->|?]%elem_of_cons; [by left|right; by eapply IH].
Qed.

(** Two ages a step apart. *)
Definition spaced (a b : Z) : Prop := 0 < find_step v b <= b - a.

Lemma quot_pos age prev step : prev <= age -> 0 < step -> (0 <? (age - prev) ÷ step) = true <-> step <= age - prev.
Proof.
  intros Hp Hs. rewrite Z.ltb_lt, Z.quot_div_nonneg by lia. split.
  - intros Hq. pose proof (Z.mul_div_le (age - prev) step Hs). nia.
  - intros Hle. apply Z.div_str_pos. lia.
Qed.

Lemma stagger_kept_spaced l prev :
  Forall (fun x => prev <= x.2) l -> StronglySorted (fun x y => x.2 <= y.2) l ->
  (forall x, head (stagger_kept (Some prev) l) = Some x -> spaced prev x.2) /\
  Sorted (fun x y => spaced x.2 y.2) (stagger_kept (Some prev) l).
Proof.
  revert prev. induction l as [|[n a] l IH]; intros prev HF HS; [split; [done|constructor]|].
  apply Forall_cons in HF as [Ha HF]. apply StronglySorted_inv in HS as [HS HA]. cbn [stagger_kept].
  destruct (_ && _); [by apply IH|]. cbv zeta. destruct (0 <? find_step v a) eqn:Es; cbn [andb]; [|by apply IH].
  apply Z.ltb_lt in Es. destruct (0 <? (a - prev) ÷ find_step v a) eqn:Eq; [|by apply IH].
  apply quot_pos in Eq; [|done|done]. destruct (IH a HA HS) as [Hh Hs]. split.
  - intros x [= <-]. done.
  - constructor; [done|]. destruct (stagger_kept (Some a) l) as [|y l']; constructor. by apply Hh.
Qed.

Lemma stagger_kept_covers l prev n a :
  Forall (fun x => prev <= x.2) l -> StronglySorted (fun x y => x.2 <= y.2) l ->
  (n, a) ∈ l -> a <= st_max_age v -> (n, a) ∉ stagger_kept (Some prev) l ->
  exists b, (b = prev \/ exists k, (k, b) ∈ stagger_kept (Some prev) l) /\ b <= a /\ ~ spaced b a.
Proof.
  revert prev. induction l as [|[m b] l IH]; intros prev HF HS Hin Hmax; [by apply elem_of_nil in Hin|].
  apply Forall_cons in HF as [Hb HF]. apply StronglySorted_inv in HS as [HS HA]. cbn [stagger_kept].
  assert (forall q, q <= b -> (n, a) ∉ stagger_kept (Some q) l -> (n, a) ∈ l ->
            exists b', (b' = q \/ exists k, (k, b') ∈ stagger_kept (Some q) l) /\ b' <= a /\ ~ spaced b' a) as Hrest.
  { intros q Hq Hno Hl. apply IH; try done. eapply Forall_impl; [exact HA|]. cbn. lia. }
  destruct ((st_max_age v <? b) && (0 <? st_max_age v)) eqn:Eo.
  { apply elem_of_cons in Hin as [[= -> ->]|Hin]; [apply andb_prop in Eo as [Eo%Z.ltb_lt _]; lia|]. intros Hno. by apply Hrest. }
  cbv zeta. destruct ((0 <? find_step v b) && (0 <? (b - prev) ÷ find_step v b)) eqn:Ek.
  - intros Hno. apply elem_of_cons in Hin as [[= -> ->]|Hin]; [by destruct Hno; left|].
    destruct (Hrest b ltac:(lia)) as (b' & Hb' & Hle & Hsp); [intros ?; apply Hno; by right|done|].
    exists b'. split; [|done]. right. destruct Hb' as [->|[k Hk]]; [exists m; by left|exists k; by right].
  - intros Hno. apply elem_of_cons in Hin as [[= -> ->]|Hin]; [|by apply Hrest]. exists prev. split; [by left|]. split; [done|].
    intros [H1 H2]. rewrite (proj2 (Z.ltb_lt _ _) H1) in Ek. cbn in Ek.
    rewrite (proj2 (quot_pos b prev _ Hb H1) H2) in Ek. done.
Qed.

(** Staggering thins out and never wipes out.  Of the versions of a file, ages
    ascending and within the limit, the removed and the kept ones are all there
    were; the youngest is kept; neighbours that are kept lie at least the step
    of their window apart; and every removed version has a kept one that is
    younger by less than a step. *)
Theorem stagger_thins_out l :
  StronglySorted (fun x y => x.2 <= y.2) l -> Forall (fun x => x.2 <= st_max_age v) l ->
  stagger v None l ++ (stagger_kept None l).*1 ≡ₚ l.*1 /\
  head (stagger_kept None l) = head l /\
  Sorted (fun x y => spaced x.2 y.2) (stagger_kept None l) /\
  (forall n a, (n, a) ∈ l -> (n, a) ∉ stagger_kept None l ->
     exists k b, (k, b) ∈ stagger_kept None l /\ b <= a /\ ~ spaced b a).
Proof.
  intros HS HM. split; [apply stagger_split|]. destruct l as [|[n a] l]; [split_and!; [done|constructor|set_solver]|].
  apply StronglySorted_inv in HS as [HS HA]. pose proof HM as HM'. apply Forall_cons in HM as [Hm HM]. cbn in Hm.
  cbn [stagger_kept]. destruct (Z.ltb_spec (st_max_age v) a) as [?|_]; [lia|]. cbn [andb].
  destruct (stagger_kept_spaced l a HA HS) as [Hh Hs]. split; [done|]. split.
  - constructor; [done|]. destruct (stagger_kept (Some a) l) as [|y l']; constructor. by apply Hh.
  - intros n' a' Hin Hno. apply elem_of_cons in Hin as [[= -> ->]|Hin]; [by destruct Hno; left|].
    assert (a' <= st_max_age v) as Ha' by (rewrite Forall_forall in HM; exact (HM _ Hin)).
    destruct (stagger_kept_covers l a n' a' HA HS Hin Ha') as (b & Hb & Hle & Hsp); [intros ?; apply Hno; by right|].
    destruct Hb as [->|[k Hk]]; [exists n, a; split; [by left|done]|exists k, b; split; [by right|done]].
Qed.
End Stagger.

(** ** Witnesses *)

(** A clock that counts the seconds with a unary timestamp. *)
Definition demo_stamp (t : Z) : str := replicate (Z.to_nat t) "1"%char.

Definition demo_unstamp (s : str) : option Z :=
  if forallb (fun c => bool_decide (c = "1"%char)) s then Some (Z.of_nat (length s)) else None.

(** A folder with the file [a], archived once, one second after the epoch; now
    it is the second after. *)
Definition demo_versions (d : Disk) : list (str * option Z) :=
  (fun n => (n, Some 0)) <$> filter (fun n => is_Some (d ($"/r/.stversions/" ++ n))) [$"a~1"; $"a~11"].

Definition demo_vers_env : VersEnv :=
  mkVersEnv (fun d _ => Some (demo_versions d)) (fun _ => true) (2 * NANOS) demo_stamp demo_unstamp.

Definition demo_archived : Disk := fun q =>
  if decide (q = $"/r/a") then Some (FileNode ($"new"))
  else if decide (q = $"/r/.stversions/a~1") then Some (FileNode ($"old")) else None.

Lemma demo_times t : 0 <= t < 3 -> t = 0 \/ t = 1 \/ t = 2.
Proof. lia. Qed.

Lemma demo_chrono t : 0 <= t < 3 ->
  ve_parse demo_vers_env (ve_format demo_vers_env t) = Some t /\ tilde ∉ ve_format demo_vers_env t /\ slash ∉ ve_format demo_vers_env t.
Proof.
  intros [-> | [-> | -> ]]%demo_times; (split; [reflexivity|split; apply (bool_decide_unpack _); vm_compute; exact I]).
Qed.

Lemma demo_utf8 t : 0 <= t < 3 -> utf8_valid (version_prefix ($"/r/a") ++ ve_format demo_vers_env t) = true.
Proof. by intros [-> | [-> | -> ]]%demo_times. Qed.

Lemma demo_outside : ~ stversions_area ($"/r") ($"/r/a").
Proof. intros [?|[?|?]]; done. Qed.

(** What is below the archive directory. *)
Lemma demo_archived_below n : is_Some (demo_archived ($"/r/.stversions/" ++ n)) <-> n = $"a~1".
Proof.
  unfold demo_archived. rewrite decide_False by done. split.
  - case_decide as E; [|by intros [? ?]]. intros _. by apply (app_inv_head ($"/r/.stversions/")) in E.
  - intros ->. by eexists.
Qed.

Lemma demo_archived_only : archived_only demo_vers_env ($"/r") ($"/r/a") 3 demo_archived.
Proof.
  intros n _ Hn%demo_archived_below _. subst n. exists 1, ($"old"). split; [lia|]. split; [reflexivity|]. by split.
Qed.

Lemma demo_lists_of (d : Disk) (ns : list str) :
  (forall n, is_Some (d ($"/r/.stversions/" ++ n)) <-> n ∈ ns) -> (forall n, n ∈ ns -> n ∈ [$"a~1"; $"a~11"]) ->
  lists demo_vers_env ($"/r") d.
Proof.
  intros Hd Hns. exists (demo_versions d). split; [done|]. unfold demo_versions.
  assert (((fun n => (n, Some 0)) <$> filter (fun n => is_Some (d ($"/r/.stversions/" ++ n))) [$"a~1"; $"a~11"]).*1 =
          filter (fun n => is_Some (d ($"/r/.stversions/" ++ n))) [$"a~1"; $"a~11"]) as E
    by (rewrite <-list_fmap_compose; apply list_fmap_id).
  rewrite E. split_and!.
  - apply NoDup_filter. apply (bool_decide_unpack _). vm_compute. exact I.
  - intros n [_ Hn]%list_elem_of_filter. repeat (apply elem_of_cons in Hn as [->|Hn]; [apply (bool_decide_unpack _); vm_compute; exact I|]).
    by apply elem_of_nil in Hn.
  - intros n _. rewrite list_elem_of_filter. split; [by intros [? _]|]. intros Hs. split; [done|]. apply Hns. by apply Hd.
  - intros n meta (m & [= -> ->] & _)%list_elem_of_fmap. by eexists.
Qed.

Lemma demo_lists : lists demo_vers_env ($"/r") demo_archived.
Proof.
  apply (demo_lists_of _ [$"a~1"]); [|set_solver]. intros n. by rewrite demo_archived_below, list_elem_of_singleton.
Qed.

Lemma demo_lists_copied : lists demo_vers_env ($"/r") (copied demo_vers_env ($"/r") ($"/r/a") demo_archived 2 ($"new")).
Proof.
  apply (demo_lists_of _ [$"a~1"; $"a~11"]); [|done]. intros n. unfold copied, disk_write.
  destruct (decide (n = $"a~11")) as [->|Hne]; [split; [intros _; set_solver|intros _; by eexists]|].
  rewrite decide_False by (intros E; apply (app_inv_head ($"/r/.stversions/")) in E; done).
  destruct (decide (n = [])) as [->|Hn]; [split; [by intros [? ?]|set_solver]|].
  pose proof (mkdirs_below ($"/r") demo_archived n Hn) as E.
  change (disk_mkdirs demo_archived ($"/r/.stversions") ($"/r/.stversions/" ++ n) = demo_archived ($"/r/.stversions/" ++ n)) in E.
  change (path_join ($"/r") STVERSIONS_DIR) with ($"/r/.stversions"). rewrite E, demo_archived_below. set_solver.
Qed.

Lemma simple_archive_keeps_newest_witness :
  exists d', simple_archive demo_vers_env (simple_new ($"/r") 1) demo_archived ($"/r/a") = (Ok tt, d') /\
    d' ($"/r/.stversions/a~11") = Some (FileNode ($"new")) /\ d' ($"/r/.stversions/a~1") = None.
Proof.
  destruct (simple_archive_keeps_newest demo_vers_env ($"/r") ($"/r/a") 3 demo_chrono (fun _ => eq_refl) demo_utf8 1 demo_archived ($"new"))
    as (all & d' & E & Nd & Ss & Hall & Hd').
  - reflexivity.
  - exact demo_outside.
  - exact demo_archived_only.
  - split; reflexivity || discriminate.
  - exact demo_lists.
  - exact demo_lists_copied.
  - assert (d' = (simple_archive demo_vers_env (simple_new ($"/r") 1) demo_archived ($"/r/a")).2) as Hd by (rewrite E; reflexivity).
    exists d'. split; [exact E|]. rewrite Hd. split; vm_compute; reflexivity.
Defined.

Lemma archive_restore_roundtrip_witness :
  exists d1 dest c', archive_file demo_vers_env demo_archived ($"/r/.stversions") ($"/r/a") = (Ok dest, d1) /\
    restore_by_timestamp demo_vers_env d1 ($"/r/.stversions") ($"/scratch/a") (2 * NANOS + 5) = Ok c'.
Proof.
  destruct (archive_restore_roundtrip demo_vers_env ($"/r") ($"/r/a") 3 demo_chrono (fun _ => eq_refl) demo_utf8 ($"/scratch/a") eq_refl
              demo_archived ($"new") (2 * NANOS + 5)) as (d1 & dest & c' & E & R & _).
  - exact demo_archived_only.
  - split; reflexivity || discriminate.
  - reflexivity.
  - exact demo_outside.
  - reflexivity.
  - exact demo_lists.
  - exact demo_lists_copied.
  - exists d1, dest, c'. split; [exact E|exact R].
Defined.

Lemma created_versioner_within_witness :
  archives_within (mkPullEnv (fun _ => true) (fun _ => []) None
      (create_versioner demo_vers_env (VersioningSimple ∅) ($"/r")) ascii_codes (fun _ => true) (fun _ _ => []) 100
      (fun _ => []) ($"20260101") ($"120000") 0 (fun _ => None) (fun _ => 0) (fun _ => []) (fun l => l))
    (stversions_area ($"/r")).
Proof. apply (created_versioner_within demo_vers_env ($"/r") _ (VersioningSimple ∅)). reflexivity. Defined.

(** [x/a] and [y/a] *)
Definition demo_twins : Disk := fun q =>
  if decide (q = $"/r/x/a") then Some (FileNode ($"of x"))
  else if decide (q = $"/r/y/a") then Some (FileNode ($"of y")) else None.

Lemma versions_mixed_witness :
  exists dest d1 d2, archive_file demo_vers_env demo_twins ($"/r/.stversions") ($"/r/x/a") = (Ok dest, d1) /\
    d1 dest = Some (FileNode ($"of x")) /\
    archive_file demo_vers_env d1 ($"/r/.stversions") ($"/r/y/a") = (Ok dest, d2) /\ d2 dest = Some (FileNode ($"of y")).
Proof.
  eexists _, _, _. split; [reflexivity|]. split; [reflexivity|]. split; [reflexivity|].
  eapply (versions_mixed demo_vers_env ($"/r") ($"/r/x/a") ($"/r/y/a") demo_twins ($"of y")).
  - reflexivity.
  - reflexivity.
  - reflexivity.
  - reflexivity.
  - intros [E|[E|E]]; vm_compute in E; discriminate.
Defined.

(** Versions of the first minute: the limit of the first window is 30 seconds,
    so of [0, 10, 40] the second is removed; it would be the oldest of [0, 10]. *)
Lemma stagger_thins_out_witness :
  let v := staggered_new ($"/r") None in
  let l := [($"n", 0); ($"o", 10); ($"p", 40)] in
  stagger v None l = [$"o"] /\ Sorted (fun x y => spaced v x.2 y.2) (stagger_kept v None l).
Proof.
  intros v l. split; [reflexivity|].
  apply (stagger_thins_out v l).
  - repeat constructor; discriminate.
  - repeat constructor; discriminate.
Defined.
