(* ===== verification/FolderModel.v ===== *)
(** * The pull rounds of a folder ([crates/syncthing-sync/src/folder_model/mod.rs])

    The state of one folder, the queue filled by remote indexes and one round
    of [pull], with the folder's status and events.  Scanning and the watcher
    are not modelled here. *)

From S2P Require Import Prelude Core Database Merge BlockServer Conflict Puller.

#[global] Instance FolderStatus_eq_dec : EqDecision FolderStatus.
Proof. solve_decision. Defined.

(** [model::FolderState] *)
Record FolderState := mkFolderState {
  fst_folder_id : str;
  fst_status : FolderStatus;
  fst_last_scan : option Z;
  fst_last_pull : option Z;
  fst_local_files : Z;
  fst_remote_files : Z;
  fst_in_sync_files : Z;
  fst_need_files : Z;
  fst_errors : list SyncError;
}.

Definition folder_state_new (id : str) : FolderState := mkFolderState id FolderIdle None None 0 0 0 0 [].

Definition set_status (s : FolderState) (st : FolderStatus) : FolderState :=
  mkFolderState (fst_folder_id s) st (fst_last_scan s) (fst_last_pull s) (fst_local_files s)
    (fst_remote_files s) (fst_in_sync_files s) (fst_need_files s) (fst_errors s).

Definition set_need_files (s : FolderState) (n : Z) : FolderState :=
  mkFolderState (fst_folder_id s) (fst_status s) (fst_last_scan s) (fst_last_pull s) (fst_local_files s)
    (fst_remote_files s) (fst_in_sync_files s) n (fst_errors s).

Definition pull_completed (s : FolderState) (now : Z) : FolderState :=
  mkFolderState (fst_folder_id s) FolderIdle (fst_last_scan s) (Some now) (fst_local_files s)
    (fst_remote_files s) (fst_in_sync_files s) 0 (fst_errors s).

Definition pull_errored (s : FolderState) (st : FolderStatus) (e : SyncError) : FolderState :=
  mkFolderState (fst_folder_id s) st (fst_last_scan s) (fst_last_pull s) (fst_local_files s)
    (fst_remote_files s) (fst_in_sync_files s) (fst_need_files s) (fst_errors s ++ [e]).

(** The folder with its queue, its database, disk and events. *)
Record FolderModel (DB : Type) := mkFolderModel {
  fm_folder : Folder;
  fm_state : FolderState;
  fm_pending : list FileInfo;
  fm_world : World DB;
}.
Arguments mkFolderModel {DB}.
Arguments fm_folder {DB}.
Arguments fm_state {DB}.
Arguments fm_pending {DB}.
Arguments fm_world {DB}.

(** [for file in files { if !queue.iter().any(|f| f.name == file.name) { queue.push(file) } }] *)
Definition enqueue (queue files : list FileInfo) : list FileInfo :=
  fold_left (fun q file => if existsb (fun g => bool_decide (name g = name file)) q then q else q ++ [file])
    files queue.

Definition next_pull_backoff (current_ms : Z) : Z :=
  if current_ms =? 0 then 500 else (current_ms * 2) `min` 10_000.

Section FolderModel.
Context {DB : Type} `{LocalDatabase DB}.

Definition publish_world (w : World DB) (e : SyncEvent) : World DB :=
  mkWorld (w_db w) (w_disk w) (w_events w ++ [e]).

Definition state_changed (m : FolderModel DB) (a b : FolderStatus) : SyncEvent :=
  FolderStateChanged (folder_id (fm_folder m)) a b.

Definition handle_remote_index (m : FolderModel DB) (files : list FileInfo) : FolderModel DB :=
  mkFolderModel (fm_folder m) (fm_state m) (enqueue (fm_pending m) files) (fm_world m).

(** One round: what [pull] returns and the folder afterwards.  [TaskDiverged]
    stands for a round that never returns. *)
Definition pull (env : PullEnv) (m : FolderModel DB) : result PullError PullStats * FolderModel DB :=
  let folder := fm_folder m in
  if folder_paused folder then (Ok pull_stats_default, m)
  else if negb (folder_can_sync (folder_type folder)) then (Ok pull_stats_default, m)
  else if decide (fst_status (fm_state m) = FolderPulling) then (Ok pull_stats_default, m)
  else
    let old := fst_status (fm_state m) in
    let st := set_status (fm_state m) FolderPulling in
    let w := publish_world (fm_world m) (state_changed m old FolderPulling) in
    let restored (w : World DB) :=
      mkFolderModel folder (set_status st old) [] (publish_world w (state_changed m FolderPulling old)) in
    match check_needed_files env folder w with
    | (Err e, w) => (Err (PullFailed e), restored w)
    | (Ok fs_needed, w) =>
        let needed := enqueue (fm_pending m) fs_needed in
        if decide (needed = []) then (Ok pull_stats_default, restored w)
        else
          let st := set_need_files st (Z.of_nat (length needed)) in
          match pull_folder env folder needed w with
          | (Ok stats, w) =>
              let w := publish_world w (state_changed m FolderPulling FolderIdle) in
              let w := publish_world w (SyncComplete (folder_id folder)
                         (mkSyncStats (files_succeeded stats) 0 0 0 0 0)) in
              (Ok stats, mkFolderModel folder (pull_completed st (pe_now env)) [] w)
          | (Err (PullFailed e), w) =>
              (Err (PullFailed e),
               mkFolderModel folder (pull_errored st old e) []
                 (publish_world w (state_changed m FolderPulling old)))
          | (Err bad, w) => (Err bad, mkFolderModel folder st [] w)
          end
    end.

(** The next delay of the pull loop after a round. *)
Definition backoff_after (backoff : Z) (r : result PullError PullStats) : Z :=
  match r with
  | Ok stats => if 0 <? files_failed stats then next_pull_backoff backoff else 0
  | Err _ => next_pull_backoff backoff
  end.

End FolderModel.

(** ** Rounds end *)

Section Rounds.
Context {DB : Type} `{LocalDatabase DB}.
Implicit Types m : FolderModel DB.

(** Only a failed setup or a diverging merge makes a pull fail. *)
Lemma run_tasks_result env fp folder stats files (w : World DB) :
  exists w', (exists stats', run_tasks env fp folder stats files w = (Ok stats', w')) \/
    run_tasks env fp folder stats files w = (Err TaskDiverged, w').
Proof.
  revert stats w. induction files as [|f files IH]; intros stats w; cbn [run_tasks].
  - exists w. left. by eexists.
  - destruct (pull_task env fp folder f w) as [[a|[e| |]] w1]; [apply IH|apply IH|apply IH|]. exists w1. by right.
Qed.

Lemma pull_folder_result env folder needed (w : World DB) r w' :
  pull_folder env folder needed w = (r, w') -> r <> Err TaskPanicked.
Proof.
  unfold pull_folder, io. destruct (pe_io env _); [|by intros [= <- _]].
  rewrite (se_bind_run _ _ w tt (mkWorld (w_db w) (disk_mkdirs (w_disk w) (folder_path folder)) (w_events w))) by done.
  set (w1 := mkWorld _ _ _). unfold se_bind at 1, db_try, w_get_folder_files, se_read. simpl.
  destruct (get_folder_files (w_db w) (folder_id folder)) as [l|e]; [|by intros [= <- _]].
  unfold cleanup_sttrash. set (g := fun d q => _).
  rewrite (se_bind_run _ _ w1 tt (mkWorld (w_db w1) (g (w_disk w1)) (w_events w1))) by done.
  match goal with |- run_tasks env ?a ?b ?st ?fs ?v = _ -> _ =>
    destruct (run_tasks_result env a b st fs v) as (w2 & [[st' ->]| ->]) end; by intros [= <- _].
Qed.

(** A round gives the folder back.  Whatever fails, when [pull] returns the
    folder is in the status it had before, or idle after a completed round; only
    a round that never returns (a diverging text merge) leaves it pulling.  The
    queue of remote files is empty afterwards unless the round was skipped, and
    every change of status was published. *)
Theorem pull_restores_status env m r m' :
  pull env m = (r, m') -> r <> Err TaskDiverged ->
  m' = m \/
  (fm_pending m' = [] /\
   (fst_status (fm_state m') = fst_status (fm_state m) \/
    (exists stats, r = Ok stats) /\ fst_status (fm_state m') = FolderIdle) /\
   state_changed m FolderPulling (fst_status (fm_state m')) ∈ w_events (fm_world m')).
Proof.
  unfold pull. intros E Hr. destruct (folder_paused (fm_folder m)); [left; congruence|].
  destruct (negb _); [left; congruence|]. case_decide as Hs; [left; congruence|]. right.
  set (w0 := publish_world _ _) in E.
  destruct (check_needed_files env (fm_folder m) w0) as [[fs|e] w1].
  2: { injection E as <- <-. simpl. split; [done|]. split; [by left|]. set_solver. }
  case_decide as Hn.
  { injection E as <- <-. simpl. split; [done|]. split; [by left|]. set_solver. }
  destruct (pull_folder env (fm_folder m) _ w1) as [[stats|[e| |]] w2] eqn:Ep.
  - injection E as <- <-. simpl. split; [done|]. split; [right; split; [by eexists|done]|]. set_solver.
  - injection E as <- <-. simpl. split; [done|]. split; [by left|]. set_solver.
  - by apply pull_folder_result in Ep.
  - injection E as <- <-. done.
Qed.

End Rounds.

(** ** A failed update of the same size *)

Section LostUpdate.
Context {DB : Type} `{Hdb : LocalDatabase DB} `{Hlaws : !LocalDatabaseLaws DB}.
Context (folder : Folder) (f : FileInfo) (c : str).
Let file := path_join (folder_path folder) (name f).
Implicit Types w : World DB.

(** The database lists [f] only; the disk still has other content [c] of the
    announced size. *)
Record stale w : Prop := {
  stale_inv : db_inv (w_db w);
  stale_db : db_files (w_db w) (folder_id folder) = {[name f := f]};
  stale_disk : w_disk w file = Some (FileNode c);
}.

Hypothesis Hlive : is_deleted f = false.
Hypothesis Hfile : file_type f = File.
Hypothesis Hsize : Z.of_nat (length c) = wrap 64 (size f).

Lemma stale_files w : stale w -> get_folder_files (w_db w) (folder_id folder) = Ok [f].
Proof.
  intros [Hi Hf _]. destruct (law_get_folder_files (w_db w) (folder_id folder) Hi) as (l & -> & Hl).
  rewrite Hf, map_to_list_singleton in Hl. simpl in Hl. apply Permutation_singleton_r in Hl. by subst.
Qed.

Lemma stale_not_needed env w :
  pe_io env (IoMetadata file) = true -> stale w -> check_needed_files env folder w = (Ok [], w).
Proof using Hlive Hfile Hsize.
  intros Hio Hs. unfold check_needed_files, w_get_folder_files.
  rewrite (se_bind_run _ _ w [f] w) by (unfold se_read; by rewrite stale_files).
  unfold se_read. cbn [filter_needed]. unfold needs_pull. fold file. rewrite Hlive, (stale_disk w Hs), Hio, Hfile.
  assert (path_exists (w_disk w) file = true) as ->.
  { unfold path_exists. apply bool_decide_eq_true_2. rewrite (stale_disk w Hs). by eexists. }
  simpl. by rewrite Hsize, Z.eqb_refl.
Qed.

Section Round.
Context (env : PullEnv) (src : str -> str -> BlockInfo -> nat -> result SyncError str) (b : BlockInfo)
  (bs : list BlockInfo) (e : SyncError).
Hypothesis Hname : validate_remote_name (name f) = Ok tt.
Hypothesis Hblocks : blocks f = b :: bs.
Hypothesis Hio : forall op, pe_io env op = true.
Hypothesis Hsched : forall l, pe_schedule env l ≡ₚ l.
Hypothesis Hsrc : pe_source env = Some src.
Hypothesis Hdown : src (folder_id folder) (name f) b 0%nat = Err e.
Hypothesis Htrash : starts_with (path_join (folder_path folder) ($".sttrash") ++ [slash]) file = false.

Lemma stale_download w :
  stale w -> exists w', pull_task env (folder_path folder) (folder_id folder) f w = (Err (PullFailed e), w') /\ stale w'.
Proof using Hlive Hfile Hname Hblocks Hio Hsrc Hdown.
  intros Hs. unfold pull_task. set (w1 := mkWorld (w_db w) (w_disk w) (w_events w ++
    [ItemStarted (folder_id folder) (name f) (item_action f)])).
  rewrite (se_bind_run _ _ w tt w1) by done.
  assert (find_local_copy_source (folder_path folder) f (folder_id folder) w1 = (Ok None, w1)) as Hnone.
  { unfold find_local_copy_source. rewrite Hblocks, Hlive. simpl.
    rewrite (se_bind_run _ _ w1 [f] w1) by (unfold db_try, w_get_folder_files, se_read; simpl; by rewrite stale_files).
    unfold on_disk, se_read. cbn [copy_source_among]. by rewrite Hlive, bool_decide_eq_true_2. }
  destruct (download_unreachable env (folder_path folder) (folder_id folder) f w1 src b bs e Hname Hnone Hio Hblocks Hsrc Hdown)
    as (w2 & E & Kdb & Kd).
  unfold pull_item. rewrite Hlive, Hfile, E. simpl. eexists. split; [reflexivity|].
  split; simpl; rewrite ?Kdb; [apply Hs|apply Hs|]. apply Kd; [|apply Hs].
  intros Et. by apply (temp_path_differs file).
Qed.

Lemma stale_round w :
  stale w -> exists w', pull_folder env folder [f] w = (Ok (mkPullStats 0 1 0), w') /\ stale w'.
Proof using Hlive Hfile Hname Hblocks Hio Hsrc Hdown Hsched Htrash.
  intros Hs. unfold pull_folder, io. rewrite Hio.
  set (w1 := mkWorld (w_db w) (disk_mkdirs (w_disk w) (folder_path folder)) (w_events w)).
  rewrite (se_bind_run _ _ w tt w1) by done.
  rewrite (se_bind_run _ _ w1 [f] w1) by (unfold db_try, w_get_folder_files, se_read; simpl; by rewrite stale_files).
  unfold cleanup_sttrash. set (g := fun d q => _).
  set (w2 := mkWorld (w_db w1) (g (w_disk w1)) (w_events w1)). rewrite (se_bind_run _ _ w1 tt w2) by done.
  assert (stale w2) as Hs2.
  { split; [apply Hs|apply Hs|]. simpl. subst g. unfold starts_with in Htrash. simpl.
    destruct (strip_prefix _ file); [done|]. apply disk_mkdirs_keeps, Hs. }
  assert (pe_schedule env (within_quota (delete_quota (length (filter (fun f => is_deleted f = false) [f]))) [f]) = [f]) as ->.
  { unfold within_quota.
    assert (filter (fun f => is_deleted f = true) [f] = []) as -> by (rewrite filter_cons_False; [done|congruence]). simpl.
    apply Permutation_singleton_r, Hsched. }
  cbn [run_tasks]. destruct (stale_download w2 Hs2) as (w3 & E & Hs3). rewrite E. simpl. by exists w3.
Qed.

(** An update that failed to download is forgotten when the new file has
    the size of the old one.  The queued file is taken from the queue, its
    download fails and is counted; but the database already lists the new
    version and the sizes agree, so every later round, even with all peers
    reachable again, finds nothing to pull and leaves the old content. *)
Theorem same_size_update_lost (m : FolderModel DB) :
  fm_folder m = folder -> folder_paused folder = false -> folder_can_sync (folder_type folder) = true ->
  fst_status (fm_state m) <> FolderPulling -> fm_pending m = [f] -> stale (fm_world m) ->
  exists m1, pull env m = (Ok (mkPullStats 0 1 0), m1) /\ w_disk (fm_world m1) file = Some (FileNode c) /\
    forall env2, pe_io env2 (IoMetadata file) = true ->
      exists m2, pull env2 m1 = (Ok pull_stats_default, m2) /\ w_disk (fm_world m2) file = Some (FileNode c).
Proof using Hlive Hfile Hsize Hname Hblocks Hio Hsrc Hdown Hsched Htrash.
  intros Hfo Hp Hc Hst Hq Hs. unfold pull. rewrite Hfo, Hp, Hc, decide_False by done. simpl.
  set (w0 := publish_world _ _). assert (stale w0) as Hs0 by (destruct Hs; by split).
  rewrite (stale_not_needed env w0 (Hio _) Hs0), Hq. change (enqueue [f] []) with [f].
  rewrite decide_False by done. destruct (stale_round w0 Hs0) as (w1 & -> & Hs1).
  eexists. split; [reflexivity|]. split; [apply Hs1|]. intros env2 Hio2. simpl. rewrite Hp, Hc. simpl.
  match goal with |- context [check_needed_files env2 folder ?v] => assert (stale v) as Hs2 by (destruct Hs1; by split) end.
  rewrite (stale_not_needed env2 _ Hio2 Hs2). simpl. eexists. split; [reflexivity|]. apply Hs1.
Qed.

End Round.

End LostUpdate.

(** ** Witnesses *)

Definition demo_model (db pending : list FileInfo) : FolderModel MemoryDatabase :=
  mkFolderModel pull_folder_demo (folder_state_new ($"f")) pending (pull_world db).

Lemma pull_restores_status_witness :
  let m := demo_model [] [pull_file_info] in
  let m' := (pull (pull_env None) m).2 in
  fm_pending m' = [] /\
  state_changed m FolderPulling (fst_status (fm_state m')) ∈ w_events (fm_world m').
Proof.
  destruct (pull_restores_status (pull_env None) (demo_model [] [pull_file_info])
              (pull (pull_env None) (demo_model [] [pull_file_info])).1
              (pull (pull_env None) (demo_model [] [pull_file_info])).2) as [E|(Hp & _ & He)].
  - apply surjective_pairing.
  - vm_compute. discriminate.
  - apply (f_equal fm_pending) in E. vm_compute in E. discriminate.
  - split; [exact Hp|exact He].
Defined.

Lemma same_size_update_lost_witness :
  let unreachable := pull_env (Some (fun _ _ _ _ => Err SyncTimeout)) in
  let reachable := pull_env (Some (fun _ _ _ _ => Ok ($"new"))) in
  let m := demo_model [pull_file_info] [pull_file_info] in
  exists m1 m2, pull unreachable m = (Ok (mkPullStats 0 1 0), m1) /\
    pull reachable m1 = (Ok pull_stats_default, m2) /\
    w_disk (fm_world m2) ($"/r/a.bin") = Some (FileNode ($"old")).
Proof.
  destruct (same_size_update_lost pull_folder_demo pull_file_info ($"old") eq_refl eq_refl eq_refl
              (pull_env (Some (fun _ _ _ _ => Err SyncTimeout))) (fun _ _ _ _ => Err SyncTimeout)
              (mkBlockInfo 3 (ascii_codes ($"new")) 0) [] SyncTimeout eq_refl eq_refl (fun _ => eq_refl)
              (fun l => Permutation_refl l) eq_refl eq_refl eq_refl
              (demo_model [pull_file_info] [pull_file_info])) as (m1 & E1 & _ & Hlater).
  - reflexivity.
  - reflexivity.
  - reflexivity.
  - discriminate.
  - reflexivity.
  - split; [apply pull_world_inv|vm_compute; reflexivity|reflexivity].
  - destruct (Hlater (pull_env (Some (fun _ _ _ _ => Ok ($"new")))) eq_refl) as (m2 & E2 & Ed).
    exists m1, m2. split; [exact E1|]. split; [exact E2|]. exact Ed.
Defined.
