(* ===== verification/Scanner.v ===== *)
(** * The folder scanner ([crates/syncthing-sync/src/scanner.rs], [scanner/rename.rs])

    Full scans, sub-scans, single files, deletion marks and quick scans, over
    the [World] of [Conflict] (any database).  The file system is what the
    scanner sees of it: for a path followed through symbolic links the entry
    there ([sc_at]), directories with their entries in the order they are
    listed, and how many bytes each read of a file returns ([sc_read_max]). *)

From S2P Require Import Prelude Core Connection Bep Database Merge Conflict IndexHandler Ignore BlockServer Puller.

Definition DEFAULT_BLOCK_SIZE : Z := 131072.

Definition DEFAULT_IGNORED_NAMES : list str :=
  [$".stfolder"; $".stversions"; $".sttrash"; $".stignore"; $"config.json"; $"cert.pem"; $"key.pem";
   $"db"; $"logs"].

Definition DEFAULT_IGNORED_SUFFIXES : list str := [$".syncthing.tmp"; $"~syncthing~"].

Definition backslash : ascii := "\"%char.

(** [s.replace('\\', "/")] *)
Definition to_slashes (s : str) : str := (fun c => if decide (c = backslash) then slash else c) <$> s.

Definition is_default_ignored_path (relative_path : str) : bool :=
  existsb (fun c => bool_decide (c ∈ DEFAULT_IGNORED_NAMES)) (split_on slash (to_slashes relative_path)).

(** The loop over the segments: proper prefixes, longest last. *)
Fixpoint ancestors_ignored (m : IgnoreMatcher) (prefix : str) (segments : list str) : bool :=
  match segments with
  | [] | [_] => false
  | segment :: rest =>
      let prefix := if decide (prefix = []) then segment else prefix ++ [slash] ++ segment in
      matches m prefix true || ancestors_ignored m prefix rest
  end.

Definition is_ignored_with_ancestors (m : IgnoreMatcher) (relative_path : str) (is_dir : bool) : bool :=
  let normalized := to_slashes relative_path in
  matches m normalized is_dir || ancestors_ignored m [] (split_on slash normalized).

(** ** What is on disk *)

(** Modification times in seconds and nanoseconds, before 1970 negative. *)
Inductive Entry :=
| EFile (mtime : Z * Z) (bytes : list Z) (readable : bool)
| EDir (mtime : Z * Z) (readable : bool) (entries : list (str * Entry))
| ESymlink (mtime : Z * Z) (target : option str)
| EOther (mtime : Z * Z)
| EBroken.

Record ScanEnv := mkScanEnv {
  sc_at : str -> option Entry;
  sc_read_max : str -> nat -> nat;
  sc_sha256 : list Z -> list Z;
  sc_ignore : str -> option str;
  sc_error_text : SyncError -> str;
  sc_counter_id : Z;
}.

Section Scan.
Context (env : ScanEnv).

Definition path_is_there (p : str) : bool := bool_decide (is_Some (sc_at env p)).

(** [duration_since(UNIX_EPOCH).unwrap_or_default()] *)
Definition since_epoch (mtime : Z * Z) : Z * Z := if mtime.1 <? 0 then (0, 0) else mtime.

(** ** One file *)

(** [for i in 0..num_blocks]: the blocks and the bytes hashed. *)
Fixpoint read_blocks (n : nat) (path : str) (i : nat) (offset : Z) (rest : list Z)
    : list BlockInfo * list Z :=
  match n with
  | O => ([], [])
  | S n' =>
      let buffer := take (Z.to_nat DEFAULT_BLOCK_SIZE `min` sc_read_max env path i) rest in
      let bytes_read := length buffer in
      if (bytes_read =? 0)%nat then ([], [])
      else
        let '(bs, hashed) :=
          read_blocks n' path (S i) (offset + Z.of_nat bytes_read) (drop bytes_read rest) in
        (mkBlockInfo (Z.of_nat bytes_read) (sc_sha256 env buffer) offset :: bs, buffer ++ hashed)
  end.

Definition num_blocks (size : Z) : Z := (size + DEFAULT_BLOCK_SIZE - 1) / DEFAULT_BLOCK_SIZE.

Definition scan_file (path relative_path : str) (mtime : Z * Z) (bytes : list Z) (readable : bool)
    (folder : str) : Res FileInfo :=
  let size := Z.of_nat (length bytes) in
  let '(s, ns) := since_epoch mtime in
  let? (blocks, hashed) :=
    (if 0 <? size then
       if readable then Ok (read_blocks (Z.to_nat (num_blocks size)) path 0 0 bytes)
       else Err (SyncScan folder)
     else Ok ([mkBlockInfo 0 (sc_sha256 env []) 0], [])) in
  Ok (mkFileInfo relative_path File size 420 s ns vector_new 0 DEFAULT_BLOCK_SIZE blocks None None None
        None None (Some (mkFileInfoBase size s ns None (Some (sc_sha256 env hashed))))).

(** A directory or symbolic link. *)
Definition scan_plain (relative_path : str) (t : FileType) (s ns : Z) (target : option str) : FileInfo :=
  mkFileInfo relative_path t 0 493 s ns vector_new 0 0 [] target None None None None
    (Some (mkFileInfoBase 0 s ns None None)).

(** ** The walk *)

(** Names the scanner never looks at. *)
Definition skip_name (n : str) : bool :=
  bool_decide (n ∈ DEFAULT_IGNORED_NAMES) ||
  existsb (fun suffix => ends_with suffix n) DEFAULT_IGNORED_SUFFIXES ||
  (starts_with ($".") n || starts_with ($"~") n || ends_with ($".tmp") n) ||
  contains_sub ($".sync-conflict-") n.

Definition relative_of (prefix n : str) : str :=
  if decide (prefix = []) then to_slashes n
  else to_slashes (from_utf8_lossy prefix) ++ [slash] ++ to_slashes n.

Definition is_dir_entry (e : Entry) : bool := match e with EDir _ _ _ => true | _ => false end.

(** One entry of the directory [current]; the visited paths are threaded. *)
Fixpoint scan_entry (m : IgnoreMatcher) (folder current prefix : str) (raw_name : str) (e : Entry)
    (visited : list str) {struct e} : Res (list FileInfo) * list str :=
  let path := path_join current raw_name in
  let n := from_utf8_lossy raw_name in
  if skip_name n then (Ok [], visited)
  else match e with
       | EBroken => (Err (SyncScan folder), visited)
       | _ =>
           let relative_path := relative_of prefix n in
           if matches m relative_path (is_dir_entry e) then (Ok [], visited)
           else if bool_decide (path ∈ visited) then (Ok [], visited)
           else
             let visited := path :: visited in
             match e with
             | EDir mtime readable entries =>
                 if negb readable then (Err (SyncScan folder), visited)
                 else
                   let next_prefix := path_join prefix raw_name in
                   let '(r, visited) :=
                     (fix scan_all (l : list (str * Entry)) (visited : list str)
                        : Res (list FileInfo) * list str :=
                        match l with
                        | [] => (Ok [], visited)
                        | (n', e') :: l' =>
                            match scan_entry m folder path next_prefix n' e' visited with
                            | (Err er, visited) => (Err er, visited)
                            | (Ok fs, visited) =>
                                let '(r, visited) := scan_all l' visited in
                                (result_map (app fs) r, visited)
                            end
                        end) entries visited in
                   let '(s, ns) := since_epoch mtime in
                   (result_map (fun fs => fs ++ [scan_plain relative_path Directory s ns None]) r, visited)
             | EFile mtime bytes readable =>
                 (result_map (fun f => [f]) (scan_file path relative_path mtime bytes readable folder), visited)
             | ESymlink mtime target =>
                 match target with
                 | None => (Err (SyncScan folder), visited)
                 | Some t =>
                     (Ok [scan_plain relative_path Symlink (since_epoch mtime).1 0 (Some (from_utf8_lossy t))], visited)
                 end
             | _ => (Ok [], visited)
             end
       end.

Fixpoint scan_entries (m : IgnoreMatcher) (folder current prefix : str) (l : list (str * Entry))
    (visited : list str) : Res (list FileInfo) * list str :=
  match l with
  | [] => (Ok [], visited)
  | (n, e) :: l' =>
      match scan_entry m folder current prefix n e visited with
      | (Err er, visited) => (Err er, visited)
      | (Ok fs, visited) =>
          let '(r, visited) := scan_entries m folder current prefix l' visited in
          (result_map (app fs) r, visited)
      end
  end.

(** [scan_directory] from the scan root, where nothing has been visited. *)
Definition scan_directory (m : IgnoreMatcher) (folder current prefix : str) (root : Entry)
    : Res (list FileInfo) :=
  match root with
  | EDir _ true entries => (scan_entries m folder current prefix entries []).1
  | _ => Err (SyncScan folder)
  end.

(** ** Changes *)

Definition has_file_changed (old new : FileInfo) : bool :=
  if (length (blocks old) =? length (blocks new))%nat &&
     forallb (fun '(o, n) => bool_decide (bi_hash o = bi_hash n)) (zip (blocks old) (blocks new))
  then false
  else if negb (size old =? size new) then true
  else if negb (modified_s old =? modified_s new) || negb (modified_ns old =? modified_ns new) then true
  else if negb (permissions old =? permissions new) then true
  else true.

(** A copy of [f] marked as deleted; [bs] the block list it keeps. *)
Definition deleted_copy (f : FileInfo) (seq : Z) (bs : list BlockInfo) : FileInfo :=
  mkFileInfo (name f) (file_type f) 0 (permissions f) (modified_s f) (modified_ns f)
    (vector_increment (version f) (sc_counter_id env)) seq (block_size f) bs (symlink_target f)
    (Some true) (modified_by f) (blocks_hash f) (no_permissions f) (base_version f).

(** A scanned file that replaces a known one. *)
Definition modified_copy (existing f : FileInfo) (seq : Z) : FileInfo :=
  mkFileInfo (name f) (file_type f) (size f) (permissions f) (modified_s f) (modified_ns f)
    (vector_increment (version existing) (sc_counter_id env)) seq (block_size f) (blocks f)
    (symlink_target f) (deleted f) (modified_by f) (blocks_hash f) (no_permissions f)
    (base_version existing).

(** A scanned file the database does not know. *)
Definition new_copy (f : FileInfo) (seq : Z) : FileInfo :=
  mkFileInfo (name f) (file_type f) (size f) (permissions f) (modified_s f) (modified_ns f)
    (vector_with_counter vector_new 1 1) seq (block_size f) (blocks f) (symlink_target f) (deleted f)
    (modified_by f) (blocks_hash f) (no_permissions f) (base_version f).

Definition clear_blocks (f : FileInfo) : FileInfo :=
  if is_deleted f then
    mkFileInfo (name f) (file_type f) (size f) (permissions f) (modified_s f) (modified_ns f)
      (version f) (sequence f) (block_size f) [] (symlink_target f) (deleted f) (modified_by f)
      (blocks_hash f) (no_permissions f) (base_version f)
  else f.
End Scan.

(** ** Renames ([rename.rs]) *)

Definition has_same_blocks (a b : FileInfo) : bool :=
  if negb (length (blocks a) =? length (blocks b))%nat || bool_decide (blocks a = []) then false
  else forallb (fun '(x, y) => bool_decide (bi_hash x = bi_hash y)) (zip (blocks a) (blocks b)).

(** Whether the file at [idx] is a new name of a deleted one. *)
Definition is_rename_target (files : list FileInfo) (idx : nat) (f : FileInfo) : bool :=
  if is_deleted f || bool_decide (blocks f = []) then false
  else existsb (fun '(del_idx, d) => negb (del_idx =? idx)%nat && is_deleted d && has_same_blocks d f)
         (imap pair files).

Definition detect_and_reorder_renames (files : list FileInfo) : list FileInfo :=
  let indexed := imap pair files in
  let targets := filter (fun p => is_rename_target files p.1 p.2 = true) indexed in
  if decide (targets = []) then files
  else targets.*2 ++ (filter (fun p => is_rename_target files p.1 p.2 = false) indexed).*2.

(** ** Scans against the database *)

Section Database.
Context {DB : Type} `{LocalDatabase DB}.
Context (env : ScanEnv).

Definition w_increment_sequence (folder : str) : WorldM (DB := DB) Z := fun w =>
  let '(r, db') := increment_sequence (w_db w) folder in (r, mkWorld db' (w_disk w) (w_events w)).

(** The ignore rules of a folder: its [.stignore] and the configured ones. *)
Definition load_matcher (folder : Folder) : IgnoreMatcher :=
  fold_left add_line (ignore_patterns folder)
    (load (sc_ignore env (path_join (folder_path folder) ($".stignore")))).

(** Database files that are gone and not being downloaded. *)
Fixpoint mark_vanished (folder : Folder) (db_files : list FileInfo) : WorldM (DB := DB) (list FileInfo) :=
  match db_files with
  | [] => se_ret []
  | db_file :: rest =>
      let full_path := path_join (folder_path folder) (name db_file) in
      if negb (path_is_there env full_path) && negb (is_deleted db_file) then
        if path_is_there env (temp_path_for full_path) then mark_vanished folder rest
        else
          let! seq := w_increment_sequence (folder_id folder) in
          let! marked := mark_vanished folder rest in
          se_ret (deleted_copy env db_file seq (blocks db_file) :: marked)
      else mark_vanished folder rest
  end.

(** Scanned files that are new or differ from their entry. *)
Fixpoint compare_scanned (folder : Folder) (files : list FileInfo) : WorldM (DB := DB) (list FileInfo) :=
  match files with
  | [] => se_ret []
  | f :: rest =>
      let! found := w_get_file (folder_id folder) (name f) in
      match found with
      | Some existing =>
          if has_file_changed existing f then
            let! seq := w_increment_sequence (folder_id folder) in
            let! changed := compare_scanned folder rest in
            se_ret (modified_copy env existing f seq :: changed)
          else compare_scanned folder rest
      | None =>
          let! seq := w_increment_sequence (folder_id folder) in
          let! changed := compare_scanned folder rest in
          se_ret (new_copy f seq :: changed)
      end
  end.

Fixpoint store_all (folder : str) (files : list FileInfo) : WorldM (DB := DB) unit :=
  match files with
  | [] => se_ret tt
  | f :: rest => do! w_update_file folder f in store_all folder rest
  end.

Definition scan_folder_at (folder : Folder) (sub : option str) : WorldM (DB := DB) (list FileInfo) :=
  if from_option is_default_ignored_path false sub then se_ret []
  else
    let path := folder_path folder in
    let scan_root := from_option (path_join path) path sub in
    match sc_at env scan_root with
    | None => se_throw (SyncScan (folder_id folder))
    | Some root =>
        if negb (is_dir_entry root) then se_throw (SyncScan (folder_id folder))
        else
          let m := load_matcher folder in
          if from_option (fun s => is_ignored_with_ancestors m s true) false sub then se_ret []
          else
            match scan_directory env m (folder_id folder) scan_root (default [] sub) root with
            | Err e =>
                do! publish (FolderScanFailed (folder_id folder) (sc_error_text env e)) in se_throw e
            | Ok files =>
                let! vanished :=
                  match sub with
                  | None => let! db_files := w_get_folder_files (folder_id folder) in mark_vanished folder db_files
                  | Some _ => se_ret []
                  end in
                let! changed := compare_scanned folder files in
                let changed_files := vanished ++ changed in
                let changed_files :=
                  match sub with None => detect_and_reorder_renames changed_files | Some _ => changed_files end in
                let changed_files := clear_blocks <$> changed_files in
                do! store_all (folder_id folder) changed_files in
                do! publish (FolderScanCompleted (folder_id folder) (Z.of_nat (length changed_files))) in
                se_ret changed_files
            end
    end.

Definition scan_folder (folder : Folder) : WorldM (DB := DB) (list FileInfo) := scan_folder_at folder None.

Definition scan_folder_sub (folder : Folder) (sub : str) : WorldM (DB := DB) (list FileInfo) :=
  scan_folder_at folder (Some sub).

Definition scan_changed_file (folder : Folder) (relative_path : str) : WorldM (DB := DB) (option FileInfo) :=
  if is_default_ignored_path relative_path then se_ret None
  else if is_ignored_with_ancestors (load_matcher folder) relative_path false then se_ret None
  else
    let full_path := path_join (folder_path folder) relative_path in
    match sc_at env full_path with
    | Some (EFile mtime bytes readable) =>
        match scan_file env full_path relative_path mtime bytes readable (folder_id folder) with
        | Err e => se_throw e
        | Ok file_info =>
            let! found := w_get_file (folder_id folder) relative_path in
            match found with
            | Some existing =>
                if negb (has_file_changed existing file_info) then se_ret None
                else
                  let! seq := w_increment_sequence (folder_id folder) in
                  se_ret (Some (modified_copy env existing file_info seq))
            | None =>
                let! seq := w_increment_sequence (folder_id folder) in
                se_ret (Some (new_copy file_info seq))
            end
        end
    | Some EBroken | None => se_throw (SyncScan (folder_id folder))
    | Some _ => se_ret None
    end.

Definition scan_mark_deleted (folder : Folder) (relative_path : str) : WorldM (DB := DB) (option FileInfo) :=
  let! found := w_get_file (folder_id folder) relative_path in
  match found with
  | Some db_file =>
      if negb (is_deleted db_file) then
        let! seq := w_increment_sequence (folder_id folder) in
        se_ret (Some (deleted_copy env db_file seq []))
      else se_ret None
  | None => se_ret None
  end.

(** The loop of [mark_deleted_subtree]. *)
Fixpoint mark_subtree (folder : Folder) (prefix prefix_slash : str) (db_files : list FileInfo)
    : WorldM (DB := DB) (list FileInfo) :=
  match db_files with
  | [] => se_ret []
  | db_file :: rest =>
      if is_deleted db_file then mark_subtree folder prefix prefix_slash rest
      else if bool_decide (name db_file = prefix) || starts_with prefix_slash (name db_file) then
        if path_is_there env (path_join (folder_path folder) (name db_file))
        then mark_subtree folder prefix prefix_slash rest
        else
          let! seq := w_increment_sequence (folder_id folder) in
          let! marked := mark_subtree folder prefix prefix_slash rest in
          se_ret (deleted_copy env db_file seq [] :: marked)
      else mark_subtree folder prefix prefix_slash rest
  end.

Definition mark_deleted_subtree (folder : Folder) (relative_prefix : str) : WorldM (DB := DB) (list FileInfo) :=
  if is_default_ignored_path relative_prefix then se_ret []
  else
    let prefix_slash := if ends_with [slash] relative_prefix then relative_prefix else relative_prefix ++ [slash] in
    let! db_files := w_get_folder_files (folder_id folder) in
    mark_subtree folder relative_prefix prefix_slash db_files.

Definition entry_mtime (e : Entry) : Z * Z :=
  match e with
  | EFile t _ _ | EDir t _ _ | ESymlink t _ | EOther t => since_epoch t
  | EBroken => (0, 0)
  end.

Definition quick_changed (folder : Folder) (db_file : FileInfo) : bool :=
  if is_deleted db_file then false
  else
    let full_path := path_join (folder_path folder) (name db_file) in
    match sc_at env full_path with
    | Some EBroken | None => negb (path_is_there env (temp_path_for full_path))
    | Some e =>
        let '(s, ns) := entry_mtime e in
        negb (modified_s db_file =? s) || negb (modified_ns db_file =? ns)
    end.

Definition quick_scan (folder : Folder) : WorldM (DB := DB) (list FileInfo) :=
  let! db_files := w_get_folder_files (folder_id folder) in
  se_ret (filter (fun f => quick_changed folder f = true) db_files).
End Database.

(** ** Lemmas *)

(** Files that wait for their sequence numbers, numbered after [s]. *)
Definition number (s : Z) (l : list (Z -> FileInfo)) : list FileInfo :=
  imap (fun i g => g (s + 1 + Z.of_nat i)) l.

Lemma number_cons s g l : number s (g :: l) = g (s + 1) :: number (s + 1) l.
Proof.
  unfold number. rewrite imap_cons. f_equal; [f_equal; lia|]. apply imap_ext. intros i x _.
  unfold compose. replace (s + 1 + Z.of_nat (S i)) with (s + 1 + 1 + Z.of_nat i) by lia. done.
Qed.

Lemma number_app s a b : number s (a ++ b) = number s a ++ number (s + Z.of_nat (length a)) b.
Proof.
  revert s. induction a as [|g a IH]; intros s; cbn [app length].
  - by replace (s + Z.of_nat 0) with s by lia.
  - rewrite !number_cons, IH. by replace (s + Z.of_nat (S (length a))) with (s + 1 + Z.of_nat (length a)) by lia.
Qed.

Lemma length_number s l : length (number s l) = length l.
Proof. apply length_imap. Qed.

Lemma elem_of_number s l f :
  f ∈ number s l -> exists g q, g ∈ l /\ f = g q /\ s < q <= s + Z.of_nat (length l).
Proof.
  unfold number. intros (i & g & -> & Hg)%elem_of_lookup_imap_1. exists g, (s + 1 + Z.of_nat i).
  split; [by eapply list_elem_of_lookup_2|]. split; [done|].
  apply lookup_lt_Some in Hg. lia.
Qed.

Lemma number_names s l (nm : (Z -> FileInfo) -> str) :
  (forall g q, g ∈ l -> name (g q) = nm g) -> name <$> number s l = nm <$> l.
Proof.
  revert s. induction l as [|g l IH]; intros s Hn; [done|]. rewrite number_cons. cbn.
  rewrite Hn by left. f_equal. apply IH. intros. apply Hn. by right.
Qed.

Section Laws.
Context {DB : Type} `{DBL : LocalDatabaseLaws DB}.
Context (env : ScanEnv).

(** [w'] differs from [w] in its sequence number for [fo] only. *)
Record seq_moved (fo : str) (n : Z) (w w' : World DB) : Prop := {
  sm_inv : db_inv (w_db w');
  sm_files : forall fo', db_files (w_db w') fo' = db_files (w_db w) fo';
  sm_seq : db_seq (w_db w') fo = db_seq (w_db w) fo + n;
  sm_disk : w_disk w' = w_disk w;
  sm_events : w_events w' = w_events w;
}.

Lemma seq_moved_trans fo n m w1 w2 w3 :
  seq_moved fo n w1 w2 -> seq_moved fo m w2 w3 -> seq_moved fo (n + m) w1 w3.
Proof.
  intros [A1 A2 A3 A4 A5] [B1 B2 B3 B4 B5]. split; [done| |lia|congruence|congruence].
  intros. by rewrite B2, A2.
Qed.

Lemma w_increment_run fo (w : World DB) :
  db_inv (w_db w) -> 0 <= db_seq (w_db w) fo -> db_seq (w_db w) fo + 1 < 2 ^ 64 ->
  exists w', w_increment_sequence fo w = (Ok (db_seq (w_db w) fo + 1), w') /\ seq_moved fo 1 w w'.
Proof.
  intros I H0 H1. destruct (law_increment_sequence (w_db w) fo I) as (s' & E & I' & Es & _ & Ef & _).
  rewrite wrap_id in E, Es by (unfold in_u; lia).
  exists (mkWorld s' (w_disk w) (w_events w)). unfold w_increment_sequence. rewrite E. split; [done|].
  by split.
Qed.

Definition vanished (folder : Folder) (f : FileInfo) : bool :=
  let full_path := path_join (folder_path folder) (name f) in
  negb (path_is_there env full_path) && negb (is_deleted f) && negb (path_is_there env (temp_path_for full_path)).

Definition deletion_of (f : FileInfo) : Z -> FileInfo := fun q => deleted_copy env f q (blocks f).

Lemma mark_vanished_run folder l (w : World DB) :
  let fo := folder_id folder in
  db_inv (w_db w) -> 0 <= db_seq (w_db w) fo -> db_seq (w_db w) fo + Z.of_nat (length l) < 2 ^ 64 ->
  exists w', let marks := deletion_of <$> filter (fun f => vanished folder f = true) l in
    mark_vanished env folder l w = (Ok (number (db_seq (w_db w) fo) marks), w') /\
    seq_moved fo (Z.of_nat (length marks)) w w'.
Proof.
  intros fo. revert w. induction l as [|f l IH]; intros w I H0 H1; cbn [length] in H1.
  - exists w. split; [done|]. split; try done. cbn. lia.
  - cbn [mark_vanished]. rewrite filter_cons. destruct (decide (vanished folder f = true)) as [Ev|Ev].
    2: { assert (forall A (x y : A), (if negb (path_is_there env (path_join (folder_path folder) (name f))) && negb (is_deleted f)
           then if path_is_there env (temp_path_for (path_join (folder_path folder) (name f))) then x else y else x) = x) as Hx.
         { intros A x y. unfold vanished in Ev. destruct (negb _ && negb _); [|done]. by destruct (path_is_there env (temp_path_for _)). }
         rewrite Hx. apply IH; [done|done|lia]. }
    unfold vanished in Ev. apply andb_prop in Ev as [-> Et%negb_true_iff]. rewrite Et.
    destruct (w_increment_run fo w I H0) as (w1 & E1 & M1); [lia|].
    rewrite (se_bind_run _ _ _ _ _ E1). pose proof M1 as [I1 _ Es1 _ _].
    destruct (IH w1) as (w2 & E2 & M2); [done|lia|lia|]. cbn in E2.
    rewrite (se_bind_run _ _ _ _ _ E2). exists w2. cbn [fmap list_fmap]. rewrite number_cons, Es1.
    split; [done|]. pose proof (seq_moved_trans _ _ _ _ _ _ M1 M2) as M. cbn [length].
    by replace (Z.of_nat (S _)) with (1 + Z.of_nat (length (deletion_of <$> filter (fun f => vanished folder f = true) l))) by lia.
Qed.

(** What becomes of a scanned file given the entries known. *)
Definition change_of (V : gmap str FileInfo) (f : FileInfo) : option (Z -> FileInfo) :=
  match V !! name f with
  | Some existing => if has_file_changed existing f then Some (modified_copy env existing f) else None
  | None => Some (new_copy f)
  end.

Lemma compare_scanned_run folder l (w : World DB) :
  let fo := folder_id folder in
  db_inv (w_db w) -> 0 <= db_seq (w_db w) fo -> db_seq (w_db w) fo + Z.of_nat (length l) < 2 ^ 64 ->
  exists w', let changes := omap (change_of (db_files (w_db w) fo)) l in
    compare_scanned env folder l w = (Ok (number (db_seq (w_db w) fo) changes), w') /\
    seq_moved fo (Z.of_nat (length changes)) w w'.
Proof.
  intros fo. revert w. induction l as [|f l IH]; intros w I H0 H1; cbn [length] in H1.
  - exists w. split; [done|]. split; try done. cbn. lia.
  - set (V := db_files (w_db w) fo).
    assert (compare_scanned env folder (f :: l) w =
            match change_of V f with
            | Some g => (let! seq := w_increment_sequence (folder_id folder) in
                         let! changed := compare_scanned env folder l in se_ret (g seq :: changed)) w
            | None => compare_scanned env folder l w
            end) as ->.
    { cbn [compare_scanned]. unfold se_bind at 1, w_get_file, se_read. rewrite law_get_file by done.
      fold fo V. unfold change_of. destruct (V !! name f) as [existing|]; [|done].
      by destruct (has_file_changed existing f). }
    assert (forall g, exists w',
      (let! seq := w_increment_sequence (folder_id folder) in
       let! changed := compare_scanned env folder l in se_ret (g seq :: changed)) w =
        (Ok (number (db_seq (w_db w) fo) (g :: omap (change_of (db_files (w_db w) fo)) l)), w') /\
      seq_moved fo (Z.of_nat (length (g :: omap (change_of (db_files (w_db w) fo)) l))) w w') as Hstep.
    { intros g. destruct (w_increment_run fo w I H0) as (w1 & E1 & M1); [lia|].
      fold fo. rewrite (se_bind_run _ _ _ _ _ E1). pose proof M1 as [I1 Ef1 Es1 _ _].
      destruct (IH w1) as (w2 & E2 & M2); [done|lia|lia|]. cbn in E2. rewrite (Ef1 fo) in E2, M2.
      rewrite (se_bind_run _ _ _ _ _ E2). exists w2. rewrite number_cons, Es1. split; [done|].
      pose proof (seq_moved_trans _ _ _ _ _ _ M1 M2) as M. cbn [length].
      by replace (Z.of_nat (S _)) with (1 + Z.of_nat (length (omap (change_of (db_files (w_db w) fo)) l))) by lia. }
    change (omap (change_of V) (f :: l)) with
      (match change_of V f with Some g => g :: omap (change_of V) l | None => omap (change_of V) l end).
    destruct (change_of V f) as [g|]; [apply (Hstep g)|]. apply IH; [done|done|lia].
Qed.

Lemma store_all_run fo l (w : World DB) :
  db_inv (w_db w) ->
  exists db', store_all fo l w = (Ok tt, mkWorld db' (w_disk w) (w_events w)) /\ db_inv db' /\
    db_files db' fo = fold_left (fun m f => <[name f := f]> m) l (db_files (w_db w) fo) /\
    (forall fo', fo' <> fo -> db_files db' fo' = db_files (w_db w) fo') /\
    (forall fo', db_seq db' fo' = db_seq (w_db w) fo').
Proof.
  revert w. induction l as [|f l IH]; intros w I.
  - exists (w_db w). by destruct w.
  - destruct (law_update_file (w_db w) fo f I) as (s1 & E & I1 & Ef & Eo & Es & _).
    cbn [store_all]. erewrite se_bind_run by (unfold w_update_file; rewrite E; done).
    destruct (IH (mkWorld s1 (w_disk w) (w_events w)) I1) as (db' & E' & I' & Ef' & Eo' & Es').
    exists db'. cbn in *. rewrite E', Ef', Ef. split_and!; try done.
    + intros fo' Hn. by rewrite Eo', Eo.
    + intros fo'. by rewrite Es', Es.
Qed.
End Laws.

(** ** Renames *)

Section Renames.
Context (files : list FileInfo).

Lemma filter_bool_split {A : Type} (p : A -> bool) (l : list A) :
  filter (fun x => p x = true) l ++ filter (fun x => p x = false) l ≡ₚ l.
Proof.
  induction l as [|x l IH]; [done|]. rewrite !filter_cons.
  destruct (p x) eqn:E; [rewrite decide_True, decide_False by congruence|rewrite decide_False, decide_True by congruence].
  - cbn. by rewrite IH.
  - by rewrite <-Permutation_middle, IH.
Qed.

Lemma imap_pair_snd : (imap pair files).*2 = files.
Proof.
  apply list_eq. intros i. rewrite list_lookup_fmap, list_lookup_imap. by destruct (files !! i).
Qed.

Lemma reorder_perm : detect_and_reorder_renames files ≡ₚ files.
Proof.
  unfold detect_and_reorder_renames. case_decide; [done|]. rewrite <-fmap_app.
  rewrite (filter_bool_split (fun p => is_rename_target files p.1 p.2)). by rewrite imap_pair_snd.
Qed.

Lemma rename_target_spec idx f :
  files !! idx = Some f ->
  is_rename_target files idx f = true <->
  is_deleted f = false /\ exists d, d ∈ files /\ is_deleted d = true /\ has_same_blocks d f = true.
Proof.
  intros Hf. unfold is_rename_target.
  assert (forall d, has_same_blocks d f = true -> blocks f <> []) as Hne.
  { intros d. unfold has_same_blocks. destruct (Nat.eqb_spec (length (blocks d)) (length (blocks f))) as [El|]; [|done].
    cbn [negb orb]. case_bool_decide as Ed; [done|]. intros _ E. rewrite E in El. by destruct (blocks d). }
  destruct (is_deleted f) eqn:Edel; cbn [orb]; [naive_solver|]. case_bool_decide as Eb.
  - split; [done|]. intros (_ & d & _ & _ & Hs). by apply Hne in Hs.
  - rewrite existsb_exists. split.
    + intros ([i d] & Hin & Hp). split; [done|]. apply list_elem_of_In, elem_of_lookup_imap_1 in Hin as (j & x & [= -> ->] & Hx).
      apply andb_prop in Hp as [[_ Hd]%andb_prop Hs]. exists x. split; [by eapply list_elem_of_lookup_2|done].
    + intros (_ & d & (i & Hi)%list_elem_of_lookup & Hd & Hs). exists (i, d). split.
      * apply list_elem_of_In. apply elem_of_lookup_imap. eauto.
      * rewrite Hd, Hs. destruct (Nat.eqb_spec i idx) as [->|]; [|done]. congruence.
Qed.

(** The reordered list is rename targets, then everything else. *)
Lemma reorder_split :
  exists l1 l2, detect_and_reorder_renames files = l1 ++ l2 /\ l1 ++ l2 ≡ₚ files /\
    (forall f, f ∈ l1 -> is_deleted f = false /\ exists d, d ∈ files /\ is_deleted d = true /\ has_same_blocks d f = true) /\
    (forall f, f ∈ l2 -> is_deleted f = false -> forall d, d ∈ files -> is_deleted d = true -> has_same_blocks d f = false).
Proof.
  set (tg := filter (fun p => is_rename_target files p.1 p.2 = true) (imap pair files)).
  set (ot := filter (fun p => is_rename_target files p.1 p.2 = false) (imap pair files)).
  assert (forall f, f ∈ tg.*2 -> is_deleted f = false /\
            exists d, d ∈ files /\ is_deleted d = true /\ has_same_blocks d f = true) as Htg.
  { intros f ([i g] & -> & [Ht Hin]%list_elem_of_filter)%list_elem_of_fmap. cbn in *.
    apply elem_of_lookup_imap_1 in Hin as (j & x & [= -> ->] & Hx). by apply (rename_target_spec j). }
  assert (forall f, f ∈ ot.*2 -> is_deleted f = false ->
            forall d, d ∈ files -> is_deleted d = true -> has_same_blocks d f = false) as Hot.
  { intros f ([i g] & -> & [Ht Hin]%list_elem_of_filter)%list_elem_of_fmap Hf d Hd Hdd. cbn in *.
    apply elem_of_lookup_imap_1 in Hin as (j & x & [= -> ->] & Hx).
    destruct (has_same_blocks d x) eqn:Es; [|done].
    rewrite (proj2 (rename_target_spec j x Hx)) in Ht; [done|]. eauto 10. }
  assert (tg.*2 ++ ot.*2 ≡ₚ files) as HP.
  { unfold tg, ot. rewrite <-fmap_app, (filter_bool_split (fun p => is_rename_target files p.1 p.2)).
    by rewrite imap_pair_snd. }
  unfold detect_and_reorder_renames. fold tg ot. case_decide as E.
  - exists [], files. split_and!; [done|done|by intros f ?%elem_of_nil|].
    rewrite E in HP. cbn in HP. intros f Hf. apply Hot. by rewrite HP.
  - exists tg.*2, ot.*2. done.
Qed.
End Renames.

(** ** Views after a scan *)

Definition store_list (l : list FileInfo) (V : gmap str FileInfo) : gmap str FileInfo :=
  fold_left (fun m f => <[name f := f]> m) l V.

Lemma store_list_other l V n : n ∉ name <$> l -> store_list l V !! n = V !! n.
Proof.
  revert V. induction l as [|f l IH]; intros V Hn; [done|]. cbn in *.
  unfold store_list in IH |- *. cbn. rewrite IH by set_solver. apply lookup_insert_ne. set_solver.
Qed.

Lemma store_list_elem l V f : NoDup (name <$> l) -> f ∈ l -> store_list l V !! name f = Some f.
Proof.
  revert V. induction l as [|g l IH]; intros V Hd Hin; [by apply elem_of_nil in Hin|].
  cbn in Hd. apply NoDup_cons in Hd as [Hg Hd]. apply elem_of_cons in Hin as [->|Hin].
  - change (store_list (g :: l) V) with (store_list l (<[name g := g]> V)).
    rewrite store_list_other by done. by rewrite lookup_insert_eq.
  - change (store_list (g :: l) V) with (store_list l (<[name g := g]> V)). by apply IH.
Qed.

Lemma clear_blocks_name f : name (clear_blocks f) = name f.
Proof. unfold clear_blocks. by destruct (is_deleted f). Qed.

Lemma clear_blocks_names (l : list FileInfo) : name <$> (clear_blocks <$> l) = name <$> l.
Proof. rewrite <-list_fmap_compose. apply list_fmap_ext. intros. apply clear_blocks_name. Qed.

Section Runs.
Context {DB : Type} `{DBL : LocalDatabaseLaws DB}.
Context (env : ScanEnv) (folder : Folder).

(** A scan of the whole folder that can read what is there. *)
Record scannable (w : World DB) (files : list FileInfo) : Prop := {
  sb_inv : db_inv (w_db w);
  sb_seq : 0 <= db_seq (w_db w) (folder_id folder);
  sb_room : db_seq (w_db w) (folder_id folder) +
            Z.of_nat (base.size (db_files (w_db w) (folder_id folder)) + length files) < 2 ^ 64;
  sb_root : exists mt entries, sc_at env (folder_path folder) = Some (EDir mt true entries) /\
    scan_directory env (load_matcher env folder) (folder_id folder) (folder_path folder) []
      (EDir mt true entries) = Ok files;
}.

Let fo : str := folder_id folder.

Lemma scan_folder_run (w : World DB) files :
  scannable w files ->
  exists dbl w' changed,
    dbl ≡ₚ (map_to_list (db_files (w_db w) fo)).*2 /\
    changed = clear_blocks <$> detect_and_reorder_renames
      (number (db_seq (w_db w) fo)
         ((deletion_of env <$> filter (fun f => vanished env folder f = true) dbl) ++
          omap (change_of env (db_files (w_db w) fo)) files)) /\
    scan_folder env folder w = (Ok changed, w') /\ db_inv (w_db w') /\
    db_files (w_db w') fo = store_list changed (db_files (w_db w) fo) /\
    (forall fo', fo' <> fo -> db_files (w_db w') fo' = db_files (w_db w) fo') /\
    db_seq (w_db w') fo = db_seq (w_db w) fo + Z.of_nat (length changed) /\
    w_disk w' = w_disk w /\
    w_events w' = w_events w ++ [FolderScanCompleted fo (Z.of_nat (length changed))].
Proof.
  intros [I H0 Hroom (mt & entries & Hat & Hscan)].
  destruct (law_get_folder_files (w_db w) fo I) as (dbl & Hdbl & HP).
  assert (length dbl = base.size (db_files (w_db w) fo)) as Hlen
    by (rewrite HP, length_fmap; apply length_map_to_list).
  fold fo in H0, Hroom, Hscan. set (V := db_files (w_db w) fo) in *. set (s := db_seq (w_db w) fo) in *.
  destruct (mark_vanished_run env folder dbl w I H0) as (w1 & E1 & M1); [fold fo s; lia|]. fold fo s in E1, M1.
  cbv zeta in E1, M1. set (marks := deletion_of env <$> _) in *.
  assert (length marks <= length dbl)%nat as Hm by (unfold marks; rewrite length_fmap; apply length_filter).
  destruct M1 as [I1 F1 S1 D1 V1].
  destruct (compare_scanned_run env folder files w1 I1) as (w2 & E2 & M2);
    [fold fo; lia|fold fo; rewrite S1; lia|]. fold fo in E2, M2. cbv zeta in E2, M2. rewrite (F1 fo) in E2, M2. fold V in E2, M2.
  set (changes := omap (change_of env V) files) in *. destruct M2 as [I2 F2 S2 D2 V2].
  set (changed := clear_blocks <$> detect_and_reorder_renames (number s (marks ++ changes))).
  destruct (store_all_run fo changed w2 I2) as (db' & E3 & I3 & F3 & O3 & S3).
  exists dbl, (mkWorld db' (w_disk w2) (w_events w2 ++ [FolderScanCompleted fo (Z.of_nat (length changed))])), changed.
  split; [done|]. split; [done|]. split.
  { unfold scan_folder, scan_folder_at. cbn [from_option default]. rewrite Hat. cbn [is_dir_entry negb].
    change (default [] None) with ([] : str). fold fo. rewrite Hscan.
    erewrite se_bind_run by (erewrite se_bind_run by (unfold w_get_folder_files, se_read; by rewrite Hdbl); exact E1).
    rewrite S1 in E2. rewrite (se_bind_run _ _ _ _ _ E2). rewrite <-number_app. fold changed.
    rewrite (se_bind_run _ _ _ _ _ E3). done. }
  cbn [w_db w_disk w_events]. split_and!.
  - done.
  - rewrite F3, F2, F1. done.
  - intros fo' Hn. by rewrite O3, F2, F1.
  - rewrite S3, S2, S1. unfold changed. rewrite length_fmap, reorder_perm, length_number, length_app. fold fo s. lia.
  - by rewrite D2, D1.
  - by rewrite V2, V1.
Qed.
End Runs.

(** ** The walk *)

Section EntryInd.
Context (P : Entry -> Prop)
  (HFile : forall t b r, P (EFile t b r))
  (HDir : forall t r l, Forall (fun p => P p.2) l -> P (EDir t r l))
  (HSymlink : forall t x, P (ESymlink t x))
  (HOther : forall t, P (EOther t))
  (HBroken : P EBroken).

Fixpoint Entry_nested_ind (e : Entry) : P e :=
  match e with
  | EFile t b r => HFile t b r
  | EDir t r l => HDir t r l ((fix go (l : list (str * Entry)) : Forall (fun p => P p.2) l :=
      match l with
      | [] => Forall_nil_2 _
      | p :: l' => Forall_cons_2 _ p l' (Entry_nested_ind p.2) (go l')
      end) l)
  | ESymlink t x => HSymlink t x
  | EOther t => HOther t
  | EBroken => HBroken
  end.
End EntryInd.

Section Walk.
Context (env : ScanEnv) (m : IgnoreMatcher) (folder : str).

(** The directory case of [scan_entry] in terms of [scan_entries]. *)
Lemma scan_entry_dir current prefix raw mtime readable entries visited :
  scan_entry env m folder current prefix raw (EDir mtime readable entries) visited =
  let path := path_join current raw in
  let n := from_utf8_lossy raw in
  if skip_name n then (Ok [], visited)
  else if matches m (relative_of prefix n) true then (Ok [], visited)
  else if bool_decide (path ∈ visited) then (Ok [], visited)
  else if negb readable then (Err (SyncScan folder), path :: visited)
  else let '(r, visited) := scan_entries env m folder path (path_join prefix raw) entries (path :: visited) in
       let '(s, ns) := since_epoch mtime in
       (result_map (fun fs => fs ++ [scan_plain (relative_of prefix n) Directory s ns None]) r, visited).
Proof.
  cbn [scan_entry is_dir_entry]. cbv zeta. destruct (skip_name _); [done|]. destruct (matches _ _ _); [done|].
  destruct (bool_decide _); [done|]. destruct (negb readable); [done|].
  match goal with |- (let '(_, _) := ?G entries _ in _) = _ => set (go := G) end.
  assert (forall l v, go l v = scan_entries env m folder (path_join current raw) (path_join prefix raw) l v) as ->; [|done].
  induction l as [|[n' e'] l IH]; intros v; [done|]. cbn.
  destruct (scan_entry env m folder _ _ n' e' v) as [[fs|er] v']; [|done]. fold go. by rewrite IH.
Qed.

(** A property of the records every scanned entry is turned into. *)
Definition recorded (Q : str -> Prop) (f : FileInfo) : Prop :=
  deleted f = None /\ Q (name f) /\ (file_type f = File -> blocks f <> [] \/ size f <> 0).

Lemma scan_file_recorded (Q : str -> Prop) path rel mt bytes rd f :
  Q rel -> scan_file env path rel mt bytes rd folder = Ok f -> recorded Q f.
Proof.
  intros HQ. unfold scan_file. destruct (since_epoch mt) as [s ns].
  intros ([bs hashed] & E & [= <-])%result_bind_Ok. split; [done|]. split; [done|]. intros _. cbn.
  destruct (Z.ltb_spec 0 (Z.of_nat (length bytes))); [right; lia|]. injection E as <- _. by left.
Qed.

(** Every relative name built below a prefix in [P] satisfies [Q]. *)
Definition names_closed (P : str -> Prop) (Q : str -> Prop) : Prop :=
  forall prefix raw, P prefix -> skip_name (from_utf8_lossy raw) = false ->
    Q (relative_of prefix (from_utf8_lossy raw)) /\ P (path_join prefix raw).

Lemma scan_entry_recorded (P Q : str -> Prop) :
  names_closed P Q -> forall e current prefix raw visited fs v',
  P prefix -> scan_entry env m folder current prefix raw e visited = (Ok fs, v') -> Forall (recorded Q) fs.
Proof.
  intros HN. induction e as [t b r|t r l IH|t x|t|] using Entry_nested_ind; intros current prefix raw visited fs v' HP.
  2: { rewrite scan_entry_dir. cbv zeta. destruct (skip_name _) eqn:Esk; [by intros [= <- <-]|].
    destruct (HN prefix raw HP Esk) as [HQ HP'].
    destruct (matches _ _ _); [by intros [= <- <-]|]. destruct (bool_decide _); [by intros [= <- <-]|].
    destruct (negb r); [done|].
    assert (forall v gs v1, scan_entries env m folder (path_join current raw) (path_join prefix raw) l v = (Ok gs, v1) ->
              Forall (recorded Q) gs) as Hall.
    { clear fs v' visited. induction IH as [|[n' e'] l' He _ IHl]; intros v gs v1; [by intros [= <- <-]|].
      cbn. destruct (scan_entry env m folder _ _ n' e' v) as [[fs|er] v2] eqn:E1; [|done].
      destruct (scan_entries env m folder _ _ l' v2) as [[gs'|er] v3] eqn:E2; [|done]. intros [= <- <-].
      apply Forall_app. split; [by eapply He|by eapply IHl]. }
    destruct (scan_entries _ _ _ _ _ _ _) as [[gs|er] v1] eqn:E; destruct (since_epoch t) as [s ns]; [|done].
    intros [= <- <-]. apply Forall_app. split; [by eapply Hall|]. constructor; [|done]. by split. }
  4: { cbn [scan_entry]. cbv zeta. destruct (skip_name _); [by intros [= <- <-]|done]. }
  all: cbn [scan_entry]; cbv zeta; destruct (skip_name _) eqn:Esk; [by intros [= <- <-]|];
    destruct (HN prefix raw HP Esk) as [HQ HP'];
    destruct (matches _ _ _); [by intros [= <- <-]|]; destruct (bool_decide _); [by intros [= <- <-]|].
  - destruct (scan_file _ _ _ _ _ _ _) as [f|] eqn:Ef; [|done]. intros [= <- <-].
    constructor; [|done]. by eapply scan_file_recorded.
  - destruct x as [x|]; [|done]. intros [= <- <-]. constructor; [|done]. by split.
  - by intros [= <- <-].
Qed.

Lemma scan_directory_recorded (P Q : str -> Prop) current prefix root fs :
  names_closed P Q -> P prefix ->
  scan_directory env m folder current prefix root = Ok fs -> Forall (recorded Q) fs.
Proof.
  intros HN HP. unfold scan_directory. destruct root as [| mt [] entries | | |]; try done.
  generalize (@nil str) as v. revert fs. induction entries as [|[n e] l IH]; intros fs v; cbn.
  - by intros [= <-].
  - destruct (scan_entry _ _ _ _ _ _ _ _) as [[gs|] v1] eqn:E1; [|done].
    destruct (scan_entries _ _ _ _ _ l v1) as [[gs'|] v2] eqn:E2; [|done]. intros [= <-].
    apply Forall_app. split; [by eapply scan_entry_recorded|]. eapply (IH gs' v1). by rewrite E2.
Qed.
End Walk.

(** ** What a scan records *)

Lemma has_file_changed_refl old new : blocks old = blocks new -> has_file_changed old new = false.
Proof.
  intros E. unfold has_file_changed. rewrite E, Nat.eqb_refl. cbn [andb].
  assert (forall l : list BlockInfo, forallb (fun '(o, n) => bool_decide (bi_hash o = bi_hash n)) (zip l l) = true) as ->; [|done].
  induction l as [|b bs IH]; [done|]. cbn. rewrite bool_decide_true by done. exact IH.
Qed.

(** What the comparison comes to: the digests of the blocks, in order, and nothing
    else. *)
Lemma has_file_changed_hashes old new :
  has_file_changed old new = false <-> bi_hash <$> blocks old = bi_hash <$> blocks new.
Proof.
  unfold has_file_changed.
  transitivity ((length (blocks old) =? length (blocks new))%nat &&
    forallb (fun '(o, n) => bool_decide (bi_hash o = bi_hash n)) (zip (blocks old) (blocks new)) = true).
  { destruct (_ && _); [done|]. repeat case_match; naive_solver. }
  generalize (blocks new) as bs. induction (blocks old) as [|b l IH]; intros [|b' bs]; cbn; [done..|].
  specialize (IH bs). destruct (length l =? length bs)%nat; cbn in *; [|split; [done|]; intros [= _ Hl]; by apply IH in Hl].
  rewrite andb_true_iff, IH, bool_decide_eq_true. split; [by intros [-> ->]|by intros [= -> ->]].
Qed.

Lemma clear_blocks_id f : is_deleted f = false -> clear_blocks f = f.
Proof. unfold clear_blocks. by intros ->. Qed.

(** [b] has seen what [a] has, and more. *)
Definition vlt (a b : Vector) : Prop := vle a b /\ ~ vle b a.

Lemma increment_vlt v d : 0 <= vector_get v d < 2 ^ 64 - 1 -> vlt v (vector_increment v d).
Proof.
  intros Hd. assert (wrap 64 (vector_get v d + 1) = vector_get v d + 1) as Hw by (apply wrap_id; unfold in_u; lia).
  split.
  - intros x. rewrite vector_get_increment. case_decide; subst; lia.
  - intros Hle. specialize (Hle d). rewrite vector_get_increment, decide_True in Hle by done. lia.
Qed.

Lemma nodup_names_inj (l : list FileInfo) f g :
  NoDup (name <$> l) -> f ∈ l -> g ∈ l -> name f = name g -> f = g.
Proof.
  induction l as [|x l IH]; [by intros _ ?%elem_of_nil|]. cbn [fmap list_fmap].
  intros [Hx Hn]%NoDup_cons [->|Hf]%elem_of_cons [->|Hg]%elem_of_cons E; [done| | |by apply IH].
  - exfalso. apply Hx. rewrite E. by apply list_elem_of_fmap_2.
  - exfalso. apply Hx. rewrite <-E. by apply list_elem_of_fmap_2.
Qed.

Section Recorded.
Context {DB : Type} `{DBL : LocalDatabaseLaws DB}.
Context (env : ScanEnv) (folder : Folder).
Let fo : str := folder_id folder.

(** An entry that records a file as the walk found it: not deleted, with its type,
    size, permissions, time, link and blocks. *)
Definition same_file (e f : FileInfo) : Prop :=
  is_deleted e = false /\ file_type e = file_type f /\ size e = size f /\ permissions e = permissions f /\
  modified_s e = modified_s f /\ modified_ns e = modified_ns f /\ symlink_target e = symlink_target f /\
  blocks e = blocks f.

(** What the walk found can be told apart and is still there. *)
Record consistent (files : list FileInfo) : Prop := {
  cs_names : NoDup (name <$> files);
  cs_there : forall f, f ∈ files -> path_is_there env (path_join (folder_path folder) (name f)) = true;
}.

Section Batch.
Context (V : gmap str FileInfo) (files dbl : list FileInfo) (s : Z).
Context (HV : forall n f, V !! n = Some f -> name f = n) (HP : dbl ≡ₚ (map_to_list V).*2)
        (HC : consistent files) (HL : forall f, f ∈ files -> is_deleted f = false).

Let raw : list FileInfo :=
  number s ((deletion_of env <$> filter (fun f => vanished env folder f = true) dbl) ++ omap (change_of env V) files).

Lemma dbl_elem f : f ∈ dbl <-> V !! name f = Some f.
Proof.
  rewrite HP, list_elem_of_fmap. split.
  - intros ([n g] & -> & Hin%elem_of_map_to_list). cbn. by rewrite (HV n g Hin).
  - intros Hf. exists (name f, f). split; [done|]. by apply elem_of_map_to_list.
Qed.

Lemma dbl_names : NoDup (name <$> dbl).
Proof.
  rewrite HP, <-list_fmap_compose.
  assert ((name ∘ snd) <$> map_to_list V = (map_to_list V).*1) as ->; [|apply NoDup_fst_map_to_list].
  apply list_fmap_ext. intros i [n f] Hi. apply list_elem_of_lookup_2, elem_of_map_to_list in Hi. by apply HV.
Qed.

Lemma change_name f g q : change_of env V f = Some g -> name (g q) = name f.
Proof. unfold change_of. intros H'. repeat case_match; by simplify_eq. Qed.

Lemma raw_elem g :
  g ∈ raw -> exists q, s < q <= s + Z.of_nat (length raw) /\
    ((exists f, f ∈ dbl /\ vanished env folder f = true /\ g = deletion_of env f q) \/
     (exists f h, f ∈ files /\ change_of env V f = Some h /\ g = h q)).
Proof.
  intros (h & q & Hin & -> & Hq)%elem_of_number. exists q. unfold raw. rewrite length_number. split; [done|].
  apply elem_of_app in Hin as [(f & -> & [Hv Hf]%list_elem_of_filter)%list_elem_of_fmap|(f & Hf & E)%list_elem_of_omap].
  - left. by exists f.
  - right. by exists f, h.
Qed.

Lemma number_elem t (l : list (Z -> FileInfo)) g : g ∈ l -> exists q, g q ∈ number t l.
Proof.
  revert t. induction l as [|h l IH]; intros t; [by intros ?%elem_of_nil|]. rewrite number_cons.
  intros [->|Hin]%elem_of_cons; [eexists; by left|]. destruct (IH (t + 1) Hin) as [q Hq]. exists q. by right.
Qed.

Lemma changes_names_in (n : str) (l : list FileInfo) :
  n ∈ (fun g : Z -> FileInfo => name (g 0)) <$> omap (change_of env V) l -> n ∈ name <$> l.
Proof.
  intros (g & -> & (f & Hf & E)%list_elem_of_omap)%list_elem_of_fmap. rewrite (change_name _ _ _ E).
  by apply list_elem_of_fmap_2.
Qed.

Lemma changes_nodup (l : list FileInfo) :
  NoDup (name <$> l) -> NoDup ((fun g : Z -> FileInfo => name (g 0)) <$> omap (change_of env V) l).
Proof.
  induction l as [|f l IH]; [constructor|]. cbn [fmap list_fmap]. intros [Hf Hn]%NoDup_cons. cbn [omap list_omap].
  destruct (change_of env V f) as [g|] eqn:E; [|by apply IH]. cbn [fmap list_fmap]. constructor; [|by apply IH].
  rewrite (change_name _ _ _ E). intros Hin. by apply Hf, changes_names_in.
Qed.

Lemma raw_names : NoDup (name <$> raw).
Proof.
  unfold raw. rewrite (number_names _ _ (fun g => name (g 0))).
  2: { intros g q Hg. apply elem_of_app in Hg as [(f & -> & _)%list_elem_of_fmap|(f & Hf & E)%list_elem_of_omap]; [done|].
       by rewrite !(change_name _ _ _ E). }
  rewrite fmap_app. apply NoDup_app. split_and!.
  - rewrite <-list_fmap_compose. change (NoDup (name <$> filter (fun f => vanished env folder f = true) dbl)).
    eapply sublist_NoDup; [exact dbl_names|apply fmap_sublist, sublist_filter].
  - intros n Hn Hin%changes_names_in.
    apply list_elem_of_fmap in Hin as (f' & -> & Hf'). apply (cs_there _ HC) in Hf'.
    apply list_elem_of_fmap in Hn as (g & Eg & (f & -> & [Hv Hf]%list_elem_of_filter)%list_elem_of_fmap).
    cbn in Eg. unfold vanished in Hv. rewrite <-Eg, Hf' in Hv. done.
  - apply changes_nodup, (cs_names _ HC).
Qed.

Lemma raw_seqs : sequence <$> raw = seqZ (s + 1) (Z.of_nat (length raw)).
Proof.
  unfold raw. rewrite length_number. set (l := _ ++ _).
  assert (forall g q, g ∈ l -> sequence (g q) = q) as Hq.
  { intros g q. unfold l. intros [(f & -> & _)%list_elem_of_fmap|(f & _ & E)%list_elem_of_omap]%elem_of_app; [done|].
    unfold change_of in E. repeat case_match; by simplify_eq. }
  clearbody l. revert Hq. clear. revert s. induction l as [|g l IH]; intros s Hq; [done|].
  rewrite number_cons. cbn [fmap list_fmap length]. rewrite Hq by left. rewrite seqZ_cons by lia. f_equal.
  rewrite IH by (intros; apply Hq; by right). f_equal; lia.
Qed.

Lemma change_live f g q :
  f ∈ files -> change_of env V f = Some g -> is_deleted (g q) = false /\ blocks (g q) = blocks f /\ same_file (g q) f.
Proof.
  intros Hf%HL. unfold change_of, is_deleted in *. intros E. repeat case_match; by simplify_eq.
Qed.

(** Which files change: those that are new or whose digests differ. *)
Lemma change_of_is_Some f :
  is_Some (change_of env V f) <->
  forall old, V !! name f = Some old -> bi_hash <$> blocks old <> bi_hash <$> blocks f.
Proof.
  unfold change_of. destruct (V !! name f) as [old|]; [|naive_solver].
  destruct (has_file_changed old f) eqn:E.
  - split; [|by eauto]. intros _ old' [= <-] Hb. apply has_file_changed_hashes in Hb. congruence.
  - apply has_file_changed_hashes in E. split; [by intros []|]. intros Hall. by destruct (Hall old).
Qed.

Let changed : list FileInfo := clear_blocks <$> detect_and_reorder_renames raw.

Lemma changed_elem g :
  g ∈ changed <-> exists r, r ∈ raw /\ g = clear_blocks r.
Proof.
  unfold changed. rewrite list_elem_of_fmap. setoid_rewrite reorder_perm. naive_solver.
Qed.

(** The names that are reported. *)
Lemma changed_name_iff n :
  n ∈ name <$> changed <->
  (exists f, f ∈ files /\ name f = n /\ is_Some (change_of env V f)) \/
  (exists f, V !! n = Some f /\ vanished env folder f = true).
Proof.
  rewrite list_elem_of_fmap. split.
  - intros (g & -> & (r & Hr & ->)%changed_elem). rewrite clear_blocks_name.
    apply raw_elem in Hr as (q & _ & [(f & Hf & Hv & ->)|(f & h & Hf & E & ->)]).
    + right. exists f. cbn. split; [by apply dbl_elem|done].
    + left. exists f. rewrite (change_name _ _ _ E). by eauto.
  - intros [(f & Hf & <- & [g E])|(f & Hf & Hv)].
    + destruct (number_elem s ((deletion_of env <$> filter (fun f => vanished env folder f = true) dbl) ++
                    omap (change_of env V) files) g) as [q Hq].
      { apply elem_of_app. right. apply list_elem_of_omap. eauto. }
      exists (clear_blocks (g q)). rewrite clear_blocks_name, (change_name _ _ _ E). split; [done|].
      apply changed_elem. by exists (g q).
    + destruct (number_elem s ((deletion_of env <$> filter (fun f => vanished env folder f = true) dbl) ++
                    omap (change_of env V) files) (deletion_of env f)) as [q Hq].
      { apply elem_of_app. left. apply list_elem_of_fmap_2, list_elem_of_filter. split; [done|].
        apply dbl_elem. by rewrite (HV n f Hf). }
      exists (clear_blocks (deletion_of env f q)). rewrite clear_blocks_name. split; [by rewrite <- (HV n f Hf)|].
      apply changed_elem. by exists (deletion_of env f q).
Qed.

Lemma changed_names : NoDup (name <$> changed).
Proof. unfold changed. rewrite clear_blocks_names, reorder_perm. exact raw_names. Qed.

Lemma changed_stored g : g ∈ changed -> store_list changed V !! name g = Some g.
Proof. apply store_list_elem, changed_names. Qed.

Lemma changed_seqs : sequence <$> changed ≡ₚ seqZ (s + 1) (Z.of_nat (length changed)).
Proof.
  assert (sequence <$> changed = sequence <$> detect_and_reorder_renames raw) as ->.
  { unfold changed. rewrite <-list_fmap_compose. apply list_fmap_ext. intros i f _. cbn.
    unfold clear_blocks. by destruct (is_deleted f). }
  unfold changed. rewrite length_fmap, reorder_perm. by rewrite raw_seqs.
Qed.

(** A scanned file is recorded as it was found. *)
Lemma scanned_recorded f :
  f ∈ files -> exists e, store_list changed V !! name f = Some e /\ has_file_changed e f = false /\
    (is_Some (change_of env V f) -> same_file e f).
Proof.
  intros Hf. destruct (change_of env V f) as [g|] eqn:E.
  - assert (exists q, g q ∈ raw) as [q Hq].
    { apply number_elem, elem_of_app. right. apply list_elem_of_omap. eauto. }
    destruct (change_live f g q Hf E) as (Hl & Hb & Hsame). exists (g q).
    split; [|split; [by apply has_file_changed_refl|done]].
    rewrite <-(change_name _ _ q E). apply changed_stored, changed_elem. exists (g q). split; [done|].
    symmetry. by apply clear_blocks_id.
  - assert (exists e, V !! name f = Some e /\ has_file_changed e f = false) as (e & He & Hc).
    { unfold change_of in E. repeat case_match; simplify_eq. eauto. }
    exists e. split; [|split; [done|by intros []]]. rewrite store_list_other; [done|].
    intros (g & En & (r & Hr & ->)%changed_elem)%list_elem_of_fmap. rewrite clear_blocks_name in En.
    apply raw_elem in Hr as (q & _ & [(d & Hd & Hv & ->)|(f' & h & Hf' & E' & ->)]).
    + cbn in En. unfold vanished in Hv. rewrite <-En, (cs_there _ HC f Hf) in Hv. done.
    + rewrite (change_name _ _ _ E') in En.
      assert (f' = f) as -> by (by apply (nodup_names_inj files _ _ (cs_names _ HC))). congruence.
Qed.

(** A vanished file is recorded as deleted. *)
Lemma vanished_recorded n f :
  V !! n = Some f -> vanished env folder f = true ->
  exists e, store_list changed V !! n = Some e /\ is_deleted e = true /\ blocks e = [] /\ size e = 0.
Proof.
  intros Hf Hv. pose proof (HV n f Hf) as <-.
  assert (exists q, deletion_of env f q ∈ raw) as [q Hq].
  { apply number_elem, elem_of_app. left. apply list_elem_of_fmap_2, list_elem_of_filter.
    split; [done|]. by apply dbl_elem. }
  exists (clear_blocks (deletion_of env f q)). split; [|done].
  rewrite <-(clear_blocks_name (deletion_of env f q)) at 1. apply changed_stored, changed_elem. eauto.
Qed.

(** Versions only move forward. *)
Lemma changed_newer g old :
  (forall n f, V !! n = Some f -> 0 <= vector_get (version f) (sc_counter_id env) < 2 ^ 64 - 1) ->
  g ∈ changed -> V !! name g = Some old -> vlt (version old) (version g).
Proof.
  intros Hroom (r & Hr & ->)%changed_elem Hold. rewrite clear_blocks_name in Hold.
  assert (version (clear_blocks r) = version r) as -> by (unfold clear_blocks; by destruct (is_deleted r)).
  apply raw_elem in Hr as (q & _ & [(d & Hd & _ & ->)|(f' & h & Hf' & E' & ->)]).
  - cbn in *. apply dbl_elem in Hd. simplify_eq. apply increment_vlt. eauto.
  - rewrite (change_name _ _ _ E') in Hold. unfold change_of in E'. rewrite Hold in E'.
    case_match; simplify_eq. apply increment_vlt. eauto.
Qed.

(** Nothing is left to do. *)
Lemma nothing_vanished n f : store_list changed V !! n = Some f -> vanished env folder f = false.
Proof.
  intros Hf. destruct (decide (n ∈ name <$> changed)) as [(g & -> & Hg)%list_elem_of_fmap|Hn].
  - rewrite (changed_stored g Hg) in Hf. simplify_eq. apply changed_elem in Hg as (r & Hr & ->).
    unfold vanished. rewrite clear_blocks_name.
    apply raw_elem in Hr as (q & _ & [(d & _ & _ & ->)|(f' & h & Hf' & E' & ->)]).
    + cbn. by rewrite andb_false_r.
    + by rewrite (change_name _ _ _ E'), (cs_there _ HC).
  - rewrite store_list_other in Hf by done. destruct (vanished env folder f) eqn:Ev; [|done].
    exfalso. apply Hn. destruct (vanished_recorded n f Hf Ev) as (e & He & Hd & _).
    destruct (decide (n ∈ name <$> changed)) as [|Hn']; [done|]. rewrite store_list_other in He by done.
    simplify_eq. unfold vanished in Ev. rewrite Hd, andb_false_r in Ev. done.
Qed.

Lemma length_changed : (length changed <= base.size V + length files)%nat.
Proof.
  unfold changed. rewrite length_fmap, reorder_perm. unfold raw. rewrite length_number, length_app, length_fmap.
  assert (length dbl = base.size V) as <- by (rewrite HP, length_fmap; apply length_map_to_list).
  apply Nat.add_le_mono; [apply length_filter|]. clear. induction files as [|f l IH]; [done|].
  cbn. destruct (change_of env V f); cbn; lia.
Qed.
End Batch.

Lemma omap_nil {A B : Type} (g : A -> option B) (l : list A) : (forall x, x ∈ l -> g x = None) -> omap g l = [].
Proof.
  induction l as [|x l IH]; intros Hn; [done|]. cbn. rewrite Hn by left. apply IH. intros y Hy. apply Hn. by right.
Qed.

Lemma filter_none {A : Type} (p : A -> bool) (l : list A) :
  (forall x, x ∈ l -> p x = false) -> filter (fun x => p x = true) l = [].
Proof.
  induction l as [|x l IH]; intros Hn; [done|]. rewrite filter_cons, Hn by left. cbn.
  apply IH. intros y Hy. apply Hn. by right.
Qed.

Lemma store_list_size (l : list FileInfo) V : (base.size (store_list l V) <= base.size V + length l)%nat.
Proof.
  revert V. induction l as [|f l IH]; intros V; [cbn; lia|].
  change (store_list (f :: l) V) with (store_list l (<[name f := f]> V)).
  specialize (IH (<[name f := f]> V)). cbn [length].
  assert (base.size (<[name f := f]> V) <= S (base.size V))%nat; [|lia].
  rewrite map_size_insert. destruct (V !! name f); cbn; lia.
Qed.

Lemma scannable_live (w : World DB) files : scannable env folder w files -> forall f, f ∈ files -> is_deleted f = false.
Proof.
  intros [_ _ _ (mt & entries & _ & Hs)] f Hf.
  eapply (scan_directory_recorded _ _ _ (fun _ => True) (fun _ => True)) in Hs; [|done|done].
  rewrite Forall_forall in Hs. destruct (Hs f Hf) as [Hd _]. unfold is_deleted. by rewrite Hd.
Qed.

(** Local versions that can still be incremented. *)
Definition counters_room (V : gmap str FileInfo) : Prop :=
  forall n f, V !! n = Some f -> 0 <= vector_get (version f) (sc_counter_id env) < 2 ^ 64 - 1.

(** C9: After a full scan that could read the folder, whose files have distinct
    names and are still there when the entries are compared, on a database with
    room in its counters: every file the walk found has an entry with the digests
    of its present blocks; the files reported are exactly those that had no entry
    or one with other digests, and the known files that are neither on disk nor
    being downloaded.  The former are recorded as found (type, size, permissions,
    time, link, blocks), the latter marked deleted with no blocks; every other
    entry is untouched, so a change of metadata alone is not recorded.  The
    reported entries are stored as returned, carry exactly the next sequence
    numbers, and have versions strictly above those they replace. *)
Theorem scan_records_folder files (w : World DB) :
  scannable env folder w files -> consistent files -> counters_room (db_files (w_db w) fo) ->
  exists changed w', scan_folder env folder w = (Ok changed, w') /\
    (forall f, f ∈ files -> exists e, db_files (w_db w') fo !! name f = Some e /\
       bi_hash <$> blocks e = bi_hash <$> blocks f /\ (name f ∈ name <$> changed -> same_file e f)) /\
    (forall n, n ∈ name <$> changed <->
       (exists f, f ∈ files /\ name f = n /\
          forall old, db_files (w_db w) fo !! name f = Some old -> bi_hash <$> blocks old <> bi_hash <$> blocks f) \/
       (exists f, db_files (w_db w) fo !! n = Some f /\ is_deleted f = false /\
          path_is_there env (path_join (folder_path folder) n) = false /\
          path_is_there env (temp_path_for (path_join (folder_path folder) n)) = false)) /\
    (forall n f, db_files (w_db w) fo !! n = Some f -> vanished env folder f = true ->
       exists e, db_files (w_db w') fo !! n = Some e /\ is_deleted e = true /\ blocks e = [] /\ size e = 0) /\
    (forall n, n ∉ name <$> changed -> db_files (w_db w') fo !! n = db_files (w_db w) fo !! n) /\
    (forall g, g ∈ changed -> db_files (w_db w') fo !! name g = Some g /\
       forall old, db_files (w_db w) fo !! name g = Some old -> vlt (version old) (version g)) /\
    sequence <$> changed ≡ₚ seqZ (db_seq (w_db w) fo + 1) (Z.of_nat (length changed)) /\
    db_seq (w_db w') fo = db_seq (w_db w) fo + Z.of_nat (length changed).
Proof.
  intros HS HC HR. pose proof (scannable_live w files HS) as HL.
  pose proof (fun n f => law_names (w_db w) fo n f (sb_inv _ _ _ _ HS)) as HV.
  destruct (scan_folder_run env folder w files HS) as (dbl & w' & changed & HP & Ec & E & _ & EV & _ & Es & _).
  exists changed, w'. split; [exact E|]. fold fo in HP, Ec, EV, Es. rewrite EV, Ec. split_and!.
  - intros f Hf. destruct (scanned_recorded _ _ _ (db_seq (w_db w) fo) HV HP HC HL f Hf) as (e & He & Hh & Hs).
    exists e. split; [exact He|]. split; [by apply has_file_changed_hashes|].
    intros Hin. apply (changed_name_iff _ _ _ _ HV HP) in Hin as [(f' & Hf' & En & Hch)|(f' & Hf' & Hv)].
    + apply Hs. by rewrite <- (nodup_names_inj files _ _ (cs_names _ HC) Hf' Hf En).
    + exfalso. unfold vanished in Hv. rewrite (HV _ _ Hf'), (cs_there _ HC f Hf) in Hv. done.
  - intros n. rewrite (changed_name_iff _ _ _ _ HV HP). setoid_rewrite change_of_is_Some.
    apply or_iff_compat_l. split; intros (f & Hf & Hv); exists f; (split; [done|]); revert Hv; unfold vanished;
      rewrite (HV _ _ Hf), !andb_true_iff, !negb_true_iff; naive_solver.
  - by apply vanished_recorded.
  - intros n. apply store_list_other.
  - intros g Hg. split; [by apply changed_stored|]. intros old. by eapply changed_newer.
  - by apply changed_seqs.
  - by rewrite Es, Ec.
Qed.

(** A scan settles: on a folder that did not change, the next scan finds
    nothing, returns the empty list and leaves every entry and the sequence
    number as they are. *)
Theorem scan_idempotent files (w : World DB) :
  scannable env folder w files -> consistent files ->
  db_seq (w_db w) fo + 3 * Z.of_nat (base.size (db_files (w_db w) fo) + length files) < 2 ^ 64 ->
  exists changed w1 w2, scan_folder env folder w = (Ok changed, w1) /\
    scan_folder env folder w1 = (Ok [], w2) /\
    db_files (w_db w2) fo = db_files (w_db w1) fo /\ db_seq (w_db w2) fo = db_seq (w_db w1) fo.
Proof.
  intros HS HC HR. pose proof (scannable_live w files HS) as HL.
  pose proof (fun n f => law_names (w_db w) fo n f (sb_inv _ _ _ _ HS)) as HV.
  destruct (scan_folder_run env folder w files HS) as (dbl & w1 & changed & HP & Ec & E & I1 & EV & _ & Es & _).
  fold fo in HP, Ec, EV, Es. pose proof (store_list_size changed (db_files (w_db w) fo)) as Hsz.
  assert (length changed <= base.size (db_files (w_db w) fo) + length files)%nat as Hlen
    by (rewrite Ec; by apply length_changed).
  assert (scannable env folder w1 files) as HS1.
  { destruct HS as [_ H0 _ Hroot]. split; [done| | |done]; fold fo; [fold fo in H0; lia|]. rewrite EV. lia. }
  destruct (scan_folder_run env folder w1 files HS1) as (dbl1 & w2 & changed2 & HP2 & Ec2 & E2 & _ & EV2 & _ & Es2 & _).
  fold fo in HP2, Ec2, EV2, Es2. assert (changed2 = []) as ->.
  { rewrite Ec2. replace (filter _ dbl1) with (@nil FileInfo); [replace (omap _ files) with (@nil (Z -> FileInfo)); [done|]|].
    - symmetry. apply omap_nil. intros f Hf. destruct (scanned_recorded (db_files (w_db w) fo) files dbl (db_seq (w_db w) fo) HV HP HC HL f Hf)
        as (e & He & Hc & _). rewrite <-Ec, <-EV in He. unfold change_of. by rewrite He, Hc.
    - symmetry. apply filter_none. intros f Hf. rewrite HP2, list_elem_of_fmap in Hf.
      destruct Hf as ([n g] & -> & Hin%elem_of_map_to_list). rewrite EV, Ec in Hin.
      by apply nothing_vanished in Hin. }
  exists changed, w1, w2. split; [done|]. split; [done|]. rewrite EV2, Es2. cbn. split; [done|lia].
Qed.
End Recorded.

(** ** Two devices *)

Section TwoDevices.
Context {DB : Type} `{DBL : LocalDatabaseLaws DB}.

(** A new file enters the database as found, with the version every new file gets. *)
Lemma scan_new_entry env folder files (w : World DB) f :
  scannable env folder w files -> consistent env folder files -> f ∈ files ->
  db_files (w_db w) (folder_id folder) !! name f = None ->
  exists changed w' q, scan_folder env folder w = (Ok changed, w') /\ w_inv w' /\ new_copy f q ∈ changed /\
    w_files w' (folder_id folder) !! name f = Some (new_copy f q).
Proof.
  intros HS HC Hf HN. pose proof (scannable_live env folder w files HS) as HL.
  pose proof (fun n g => law_names (w_db w) (folder_id folder) n g (sb_inv _ _ _ _ HS)) as HV.
  destruct (scan_folder_run env folder w files HS) as (dbl & w' & changed & HP & Ec & E & I & EV & _).
  set (V := db_files (w_db w) (folder_id folder)) in *.
  assert (change_of env V f = Some (new_copy f)) as Hch by (unfold change_of; by rewrite HN).
  assert (exists q, new_copy f q ∈ number (db_seq (w_db w) (folder_id folder))
            ((deletion_of env <$> filter (fun f => vanished env folder f = true) dbl) ++ omap (change_of env V) files)) as [q Hq].
  { apply number_elem, elem_of_app. right. apply list_elem_of_omap. eauto. }
  assert (new_copy f q ∈ changed) as Hin.
  { rewrite Ec. apply changed_elem. exists (new_copy f q). split; [done|]. symmetry. apply clear_blocks_id. exact (HL f Hf). }
  exists changed, w', q. split; [done|]. split; [done|]. split; [done|].
  change (w_files w') with (db_files (w_db w')). rewrite EV. change (name f) with (name (new_copy f q)).
  rewrite Ec in Hin |- *. by apply changed_stored.
Qed.

(** Two devices that each create a file under the same name give it the same
    version: after their scans, neither sees a conflict.  Each keeps its own
    entry, queues the other's content for download, and no conflict copy is
    made of either. *)
Theorem created_twice_swapped envA envB cenv folderA folderB device filesA filesB (wA wB : World DB) fa fb :
  env_rename_ok cenv = true -> folder_id folderA = folder_id folderB ->
  scannable envA folderA wA filesA -> consistent envA folderA filesA ->
  scannable envB folderB wB filesB -> consistent envB folderB filesB ->
  fa ∈ filesA -> fb ∈ filesB -> name fa = name fb -> valid_entry fa -> metadata_differs fa fb = true ->
  db_files (w_db wA) (folder_id folderA) !! name fa = None ->
  db_files (w_db wB) (folder_id folderB) !! name fb = None ->
  exists changedA wA1 changedB wB1 a b wA2 wB2,
    scan_folder envA folderA wA = (Ok changedA, wA1) /\ a ∈ changedA /\ blocks a = blocks fa /\
    scan_folder envB folderB wB = (Ok changedB, wB1) /\ b ∈ changedB /\ blocks b = blocks fb /\
    handle_index_update cenv folderA device (mkIndexUpdate (folder_id folderA) [b]) wA1 = (Ok [b], wA2) /\
    w_files wA2 (folder_id folderA) !! name a = Some a /\
    handle_index_update cenv folderB device (mkIndexUpdate (folder_id folderB) [a]) wB1 = (Ok [a], wB2) /\
    w_files wB2 (folder_id folderB) !! name b = Some b.
Proof.
  intros Hr Hfo SA CA SB CB HA HB Hn Hva Hmd NA NB.
  destruct (scan_new_entry envA folderA filesA wA fa SA CA HA NA) as (chA & wA1 & qa & EA & IA & InA & FA).
  destruct (scan_new_entry envB folderB filesB wB fb SB CB HB NB) as (chB & wB1 & qb & EB & IB & InB & FB).
  assert (is_deleted fa = false) as Da by exact (scannable_live _ _ _ _ SA _ HA).
  assert (is_deleted fb = false) as Db by exact (scannable_live _ _ _ _ SB _ HB).
  assert (metadata_differs fb fa = true) as Hmd'.
  { unfold metadata_differs in *. by rewrite (Z.eqb_sym (size fb)), (Z.eqb_sym (modified_s fb)), (Z.eqb_sym (modified_ns fb)). }
  assert (valid_entry (new_copy fa qa)) as Va by exact Hva.
  assert (valid_entry (new_copy fb qb)) as Vb by (unfold valid_entry in *; cbn; by rewrite <-Hn).
  destruct (equal_version_swap cenv folderA device (new_copy fa qa) (new_copy fb qb) wA1) as (wA2 & UA & GA);
    [done|done|done|done|done|exact Hmd|exact Db|cbn; by rewrite <-Hn|].
  destruct (equal_version_swap cenv folderB device (new_copy fb qb) (new_copy fa qa) wB1) as (wB2 & UB & GB);
    [done|done|done|done|done|exact Hmd'|exact Da|cbn; by rewrite Hn|].
  by exists chA, wA1, chB, wB1, (new_copy fa qa), (new_copy fb qb), wA2, wB2.
Qed.
End TwoDevices.

(** ** Blocks *)

Section Blocks.
Context (env : ScanEnv).

(** [bs] cuts [bytes], which start at [offset], into hashed blocks. *)
Fixpoint tiles (offset : Z) (bs : list BlockInfo) (bytes : list Z) : Prop :=
  match bs with
  | [] => bytes = []
  | b :: bs' =>
      bi_offset b = offset /\ 0 < bi_size b <= DEFAULT_BLOCK_SIZE /\
      (bs' <> [] -> bi_size b = DEFAULT_BLOCK_SIZE) /\ bi_size b <= Z.of_nat (length bytes) /\
      bi_hash b = sc_sha256 env (take (Z.to_nat (bi_size b)) bytes) /\
      tiles (offset + bi_size b) bs' (drop (Z.to_nat (bi_size b)) bytes)
  end.

Definition full_reads (path : str) : Prop := forall i, DEFAULT_BLOCK_SIZE <= Z.of_nat (sc_read_max env path i).

Lemma read_blocks_tiles n path i offset bytes :
  full_reads path -> Z.of_nat (length bytes) <= Z.of_nat n * DEFAULT_BLOCK_SIZE ->
  tiles offset (read_blocks env n path i offset bytes).1 bytes /\ (read_blocks env n path i offset bytes).2 = bytes.
Proof.
  intros Hfull. revert i offset bytes. induction n as [|n IH]; intros i offset bytes Hn.
  { assert (bytes = []) as -> by (apply length_zero_iff_nil; lia). done. }
  cbn [read_blocks]. cbv zeta. specialize (Hfull i).
  rewrite Nat.min_l by lia. set (B := Z.to_nat DEFAULT_BLOCK_SIZE).
  assert (Z.of_nat B = DEFAULT_BLOCK_SIZE) as HB by (apply Z2Nat.id; unfold DEFAULT_BLOCK_SIZE; lia).
  clearbody B.
  rewrite length_take. destruct (Nat.eqb_spec (B `min` length bytes) 0) as [E0|E0].
  { assert (length bytes = 0%nat) by (unfold DEFAULT_BLOCK_SIZE in HB; lia).
    assert (bytes = []) as -> by (by apply length_zero_iff_nil). done. }
  set (k := (B `min` length bytes)%nat) in *.
  destruct (IH (S i) (offset + Z.of_nat k) (drop k bytes)) as [IH1 IH2]; [rewrite length_drop; lia|].
  destruct (read_blocks env n path (S i) (offset + Z.of_nat k) (drop k bytes)) as [bs hashed] eqn:E.
  cbn [fst snd] in IH1, IH2 |- *. subst hashed.
  assert (take k bytes = take B bytes) as Hk.
  { unfold k. destruct (Nat.min_spec B (length bytes)) as [[? ->]|[? ->]]; [done|].
    by rewrite !take_ge by lia. }
  split; [|rewrite <-Hk; apply take_drop]. cbn [tiles bi_offset bi_size bi_hash]. rewrite Nat2Z.id. split_and!; try done.
  - lia.
  - lia.
  - intros Hbs. destruct (decide (B <= length bytes)%nat) as [|Hs]; [lia|]. exfalso. apply Hbs.
    rewrite drop_ge in IH1 by lia. destruct bs as [|b bs]; [done|]. cbn in IH1. lia.
  - lia.
  - by rewrite Hk.
Qed.

Lemma num_blocks_enough L : 0 < L -> L <= Z.of_nat (Z.to_nat (num_blocks L)) * DEFAULT_BLOCK_SIZE.
Proof.
  unfold num_blocks, DEFAULT_BLOCK_SIZE. intros Hpos.
  pose proof (Z.div_mod (L + 131072 - 1) 131072 ltac:(lia)).
  pose proof (Z.mod_pos_bound (L + 131072 - 1) 131072 ltac:(lia)). lia.
Qed.

(** A scanned regular file is described completely: its recorded blocks cut
    its bytes into consecutive full-size blocks (the last one may be shorter),
    each with the hash of its bytes, and the content hash is that of the whole
    file; when single reads return less than a block, the block loop stops
    early and a file of two bytes, read one at a time, is recorded with
    [size] two and one block of one byte. *)
Theorem scan_file_blocks path rel mtime bytes folder :
  full_reads path -> bytes <> [] ->
  (exists f, scan_file env path rel mtime bytes true folder = Ok f /\ size f = Z.of_nat (length bytes) /\
     tiles 0 (blocks f) bytes /\
     (base_version f ≫= base_content_hash) = Some (sc_sha256 env bytes)) /\
  (forall path' b1 b2, sc_read_max env path' 0 = 1%nat ->
     exists f, scan_file env path' rel mtime [b1; b2] true folder = Ok f /\ size f = 2 /\
       bi_size <$> blocks f = [1] /\ (base_version f ≫= base_content_hash) = Some (sc_sha256 env [b1])).
Proof.
  intros Hfull Hne. assert (0 < Z.of_nat (length bytes)) as Hpos by (destruct bytes; [done|cbn; lia]). split.
  - destruct (read_blocks_tiles (Z.to_nat (num_blocks (Z.of_nat (length bytes)))) path 0 0 bytes Hfull) as [HT HH].
    { by apply num_blocks_enough. }
    unfold scan_file. destruct (since_epoch mtime) as [s ns]. rewrite (proj2 (Z.ltb_lt _ _) Hpos).
    destruct (read_blocks _ _ _ _ _ _) as [bs hashed]. cbn [fst snd] in *. subst hashed.
    eexists. split; [reflexivity|]. done.
  - intros path' b1 b2 Hr. unfold scan_file. destruct (since_epoch mtime) as [s ns].
    change (Z.to_nat (num_blocks (Z.of_nat (length [b1; b2])))) with 1%nat. cbn [read_blocks]. rewrite Hr.
    eexists. split; [reflexivity|]. done.
Qed.
End Blocks.

(** The changed files are only permuted, and every file that carries the blocks
    of a deleted one comes before every deletion: a peer that applies the list
    in order still has the old name's blocks when it builds the new one. *)
Theorem rename_order files i j f d :
  detect_and_reorder_renames files ≡ₚ files /\
  (detect_and_reorder_renames files !! i = Some f -> is_deleted f = false ->
   detect_and_reorder_renames files !! j = Some d -> is_deleted d = true -> has_same_blocks d f = true -> (i < j)%nat).
Proof.
  split; [apply reorder_perm|]. destruct (reorder_split files) as (l1 & l2 & -> & HP & H1 & H2).
  intros Hi Hf Hj Hd Hs.
  assert (d ∈ files) as Hin by (rewrite <-HP; by eapply list_elem_of_lookup_2).
  rewrite lookup_app_Some in Hi, Hj. destruct Hi as [Hi|[Hi Hi2]].
  - apply lookup_lt_Some in Hi. destruct Hj as [Hj|[Hj _]]; [|lia].
    destruct (H1 d) as [Hn _]; [by eapply list_elem_of_lookup_2|congruence].
  - exfalso. pose proof (H2 f ltac:(by eapply list_elem_of_lookup_2) Hf d Hin Hd). congruence.
Qed.

Section Blind.
Context {DB : Type} `{DBL : LocalDatabaseLaws DB}.

(** Directories and symbolic links carry no blocks and blocks are all that is
    compared, so whatever is recorded under their name stays: a directory that
    was deleted and created again stays deleted in the index, a link that
    points elsewhere now keeps its old target. *)
Theorem scan_blind_without_blocks env folder files (w : World DB) f e :
  scannable env folder w files -> consistent env folder files -> f ∈ files -> blocks f = [] ->
  db_files (w_db w) (folder_id folder) !! name f = Some e -> blocks e = [] ->
  exists changed w', scan_folder env folder w = (Ok changed, w') /\ name f ∉ name <$> changed /\
    db_files (w_db w') (folder_id folder) !! name f = Some e.
Proof.
  intros HS HC Hf Hb He Heb.
  pose proof (fun n g => law_names (w_db w) (folder_id folder) n g (sb_inv _ _ _ _ HS)) as HV.
  destruct (scan_folder_run env folder w files HS) as (dbl & w' & changed & HP & Ec & E & I & EV & _).
  exists changed, w'. split; [done|].
  assert (name f ∉ name <$> changed) as Hn.
  { rewrite Ec, clear_blocks_names, reorder_perm. intros (g & En & Hg)%list_elem_of_fmap.
    apply raw_elem in Hg as (q & _ & [(d & Hd & Hv & ->)|(f' & h & Hf' & E' & ->)]).
    - cbn in En. unfold vanished in Hv. rewrite <-En, (cs_there _ _ _ HC f Hf) in Hv. done.
    - rewrite (change_name _ _ _ _ _ E') in En.
      assert (f' = f) as -> by (by apply (nodup_names_inj files _ _ (cs_names _ _ _ HC))).
      unfold change_of in E'. rewrite He, has_file_changed_refl in E' by congruence. done. }
  split; [done|]. rewrite EV. by rewrite store_list_other.
Qed.
End Blind.

(** ** Witnesses *)

Definition demo_root : Entry :=
  EDir (1, 0) true [($"a.txt", EFile (5, 0) [7; 8] true);
                    ($"sub", EDir (6, 0) true [($"b", EFile (4, 0) [9] true)]);
                    ($".hidden", EFile (4, 0) [] true)].

Definition demo_scan_env (bytes_at_once : nat) : ScanEnv :=
  mkScanEnv
    (fun p => if decide (p = $"/d") then Some demo_root
              else if decide (p ∈ [$"/d/a.txt"; $"/d/sub"; $"/d/sub/b"]) then Some (EOther (0, 0)) else None)
    (fun _ _ => bytes_at_once) (fun bytes => bytes) (fun _ => None) (fun _ => []) 1.

Definition demo_all : ScanEnv := demo_scan_env (Z.to_nat DEFAULT_BLOCK_SIZE).

Definition demo_found : list FileInfo :=
  match scan_directory demo_all (load_matcher demo_all demo_folder) ($"f") ($"/d") [] demo_root with Ok l => l | Err _ => [] end.

(** The index knows a file that is gone and an old, empty version of [a.txt]. *)
Definition demo_known : World MemoryDatabase :=
  mkWorld (md_update_file (md_update_file memory_database_new ($"f") (demo_file ($"gone") vector_new 3)).2
             ($"f") (demo_file ($"a.txt") (mkVector {[1 := 4]}) 3)).2 (fun _ => None) [].

(** A scan of a concrete folder, whose invariant [tac] proves. *)
Ltac scannable_by tac :=
  split; [tac|vm_compute; discriminate|vm_compute; reflexivity|
          eexists _, _; split; [reflexivity|vm_compute; reflexivity]].

Lemma demo_known_scannable : scannable demo_all demo_folder demo_known demo_found.
Proof. scannable_by ltac:(apply md_update_file_inv, md_update_file_inv, md_inv_new). Qed.

Lemma demo_consistent : consistent demo_all demo_folder demo_found.
Proof.
  split.
  - apply (bool_decide_unpack _). vm_compute. exact I.
  - apply Forall_forall, (bool_decide_unpack _). vm_compute. exact I.
Qed.

Lemma scan_records_folder_witness :
  exists changed w', scan_folder demo_all demo_folder demo_known = (Ok changed, w') /\
    name <$> changed = [$"gone"; $"a.txt"; $"sub/b"; $"sub"] /\
    exists e, db_files (w_db w') ($"f") !! ($"gone") = Some e /\ is_deleted e = true.
Proof.
  destruct (scan_records_folder demo_all demo_folder demo_found demo_known demo_known_scannable demo_consistent)
    as (changed & w' & E & _ & _ & Hv & _).
  - change (map_Forall (fun _ f => 0 <= vector_get (version f) 1 < 2 ^ 64 - 1) (db_files (w_db demo_known) ($"f"))).
    apply (bool_decide_unpack _). vm_compute. exact I.
  - exists changed, w'. split; [exact E|]. split.
    + assert (fst (scan_folder demo_all demo_folder demo_known) = Ok changed) as Hc by (rewrite E; reflexivity).
      vm_compute in Hc. injection Hc as <-. reflexivity.
    + destruct (Hv ($"gone") (demo_file ($"gone") vector_new 3)) as (e & He & Hd & _);
        [vm_compute; reflexivity|vm_compute; reflexivity|]. exists e. split; [exact He|exact Hd].
Defined.

Lemma scan_idempotent_witness :
  exists changed w1 w2, scan_folder demo_all demo_folder demo_known = (Ok changed, w1) /\
    scan_folder demo_all demo_folder w1 = (Ok [], w2).
Proof.
  destruct (scan_idempotent demo_all demo_folder demo_found demo_known demo_known_scannable demo_consistent)
    as (changed & w1 & w2 & E1 & E2 & _); [vm_compute; reflexivity|]. exists changed, w1, w2. split; [exact E1|exact E2].
Defined.

(** The other device's [a.txt] is longer. *)
Definition demo_other_root : Entry := EDir (1, 0) true [($"a.txt", EFile (5, 0) [7; 8; 9] true)].
Definition demo_other : ScanEnv :=
  mkScanEnv (fun p => if decide (p = $"/d") then Some demo_other_root
                      else if decide (p = $"/d/a.txt") then Some (EOther (0, 0)) else None)
    (fun _ _ => Z.to_nat DEFAULT_BLOCK_SIZE) (fun bytes => bytes) (fun _ => None) (fun _ => []) 1.

Definition demo_other_found : list FileInfo :=
  match scan_directory demo_other (load_matcher demo_other demo_folder) ($"f") ($"/d") [] demo_other_root with Ok l => l | Err _ => [] end.

Lemma created_twice_swapped_witness :
  exists a b wA wA' wB wB',
    bi_hash <$> blocks a = [[7; 8]] /\ bi_hash <$> blocks b = [[7; 8; 9]] /\
    handle_index_update demo_env demo_folder demo_device (mkIndexUpdate ($"f") [b]) wA = (Ok [b], wA') /\
    handle_index_update demo_env demo_folder demo_device (mkIndexUpdate ($"f") [a]) wB = (Ok [a], wB').
Proof.
  destruct (created_twice_swapped demo_all demo_other demo_env demo_folder demo_folder demo_device demo_found demo_other_found
              (world_with demo_local) (world_with demo_local)
              (nth 0 demo_found demo_local) (nth 0 demo_other_found demo_local))
    as (chA & wA1 & chB & wB1 & a & b & wA2 & wB2 & EA & InA & BA & EB & InB & BB & UA & _ & UB & _).
  - reflexivity.
  - reflexivity.
  - scannable_by ltac:(apply world_with_inv).
  - apply demo_consistent.
  - scannable_by ltac:(apply world_with_inv).
  - split.
    + apply (bool_decide_unpack _). vm_compute. exact I.
    + apply Forall_forall, (bool_decide_unpack _). vm_compute. exact I.
  - apply (bool_decide_unpack _). vm_compute. exact I.
  - apply (bool_decide_unpack _). vm_compute. exact I.
  - vm_compute. reflexivity.
  - vm_compute. reflexivity.
  - vm_compute. reflexivity.
  - vm_compute. reflexivity.
  - vm_compute. reflexivity.
  - exists a, b, wA1, wA2, wB1, wB2. rewrite BA, BB. split; [vm_compute; reflexivity|].
    split; [vm_compute; reflexivity|]. split; [exact UA|exact UB].
Defined.

Lemma scan_file_blocks_witness :
  (exists f, scan_file demo_all ($"/d/a.txt") ($"a.txt") (5, 0) [7; 8] true ($"f") = Ok f /\ tiles demo_all 0 (blocks f) [7; 8]) /\
  sc_read_max (demo_scan_env 1) ($"/d/a.txt") 0 = 1%nat.
Proof.
  split; [|reflexivity].
  destruct (scan_file_blocks demo_all ($"/d/a.txt") ($"a.txt") (5, 0) [7; 8] ($"f")) as [(f & E & _ & HT & _) _].
  - intros i. vm_compute. discriminate.
  - discriminate.
  - exists f. split; [exact E|exact HT].
Defined.

Lemma rename_order_witness :
  let old := deleted_copy demo_all (nth 0 demo_found demo_local) 1 (blocks (nth 0 demo_found demo_local)) in
  let files := [old; demo_local; new_copy (nth 0 demo_found demo_local) 2] in
  detect_and_reorder_renames files = [new_copy (nth 0 demo_found demo_local) 2; old; demo_local] /\ (0 < 1)%nat.
Proof.
  intros old files. split; [vm_compute; reflexivity|].
  apply (proj2 (rename_order files 0 1 (new_copy (nth 0 demo_found demo_local) 2) old)); vm_compute; reflexivity.
Defined.

(** The directory [sub] was deleted once. *)
Definition demo_sub_deleted : FileInfo := deleted_copy demo_all (scan_plain ($"sub") Directory 2 0 None) 1 [].

Lemma scan_blind_without_blocks_witness :
  exists changed w', scan_folder demo_all demo_folder (world_with demo_sub_deleted) = (Ok changed, w') /\
    db_files (w_db w') ($"f") !! ($"sub") = Some demo_sub_deleted /\ is_deleted demo_sub_deleted = true.
Proof.
  destruct (scan_blind_without_blocks demo_all demo_folder demo_found (world_with demo_sub_deleted)
              (scan_plain ($"sub") Directory 6 0 None) demo_sub_deleted) as (changed & w' & E & _ & HF).
  - scannable_by ltac:(apply world_with_inv).
  - apply demo_consistent.
  - apply (bool_decide_unpack _). vm_compute. exact I.
  - reflexivity.
  - vm_compute. reflexivity.
  - reflexivity.
  - exists changed, w'. split; [exact E|]. split; [exact HF|reflexivity].
Defined.
