(* ===== verification/FolderScan.v ===== *)
(** * The scans of a folder ([crates/syncthing-sync/src/folder_model/mod.rs])

    Full and incremental scans with the folder's status and events, the dirty
    sets the watcher fills, its debounced loop, and the operations on
    receive-only folders.  The state is that of [FolderModel]; the scanner is
    that of [Scanner].  The last part interleaves scans and pulls of one folder,
    which run in different tasks and share its status. *)

From S2P Require Import Prelude Core Connection Bep Database Merge BlockServer Conflict IndexHandler Ignore Puller FolderModel Scanner.

#[global] Instance FolderType_eq_dec : EqDecision FolderType.
Proof. solve_decision. Defined.

(** ** Full scans *)

Definition scan_completed (s : FolderState) (now : Z) (local_files : Z) : FolderState :=
  mkFolderState (fst_folder_id s) FolderIdle (Some now) (fst_last_pull s) local_files
    (fst_remote_files s) (fst_in_sync_files s) (fst_need_files s) (fst_errors s).

Definition set_local_files (s : FolderState) (n : Z) : FolderState :=
  mkFolderState (fst_folder_id s) (fst_status s) (fst_last_scan s) (fst_last_pull s) n
    (fst_remote_files s) (fst_in_sync_files s) (fst_need_files s) (fst_errors s).

Section FolderScan.
Context {DB : Type} `{LocalDatabase DB}.
Context (env : ScanEnv) (now : Z).
Implicit Types m : FolderModel DB.

Definition with_world m (w : World DB) : FolderModel DB := mkFolderModel (fm_folder m) (fm_state m) (fm_pending m) w.

Definition with_state m (s : FolderState) : FolderModel DB := mkFolderModel (fm_folder m) s (fm_pending m) (fm_world m).

Definition announce_state m (from to : FolderStatus) : FolderModel DB :=
  with_world m (publish_world (fm_world m) (state_changed m from to)).

(** The status before, and the folder marked as scanning. *)
Definition begin_scan m : FolderStatus * FolderModel DB :=
  let old_status := fst_status (fm_state m) in
  (old_status, announce_state (with_state m (set_status (fm_state m) FolderScanning)) old_status FolderScanning).

Definition scan_failed m (old_status : FolderStatus) (e : SyncError) : FolderModel DB :=
  announce_state (with_state m (pull_errored (fm_state m) old_status e)) FolderScanning old_status.

Definition announce_changes m (files : list FileInfo) : FolderModel DB :=
  if decide (files = []) then m
  else with_world m (publish_world (fm_world m) (LocalIndexUpdated (folder_id (fm_folder m)) files)).

Definition scan_succeeded m : FolderModel DB :=
  let local_files :=
    match get_folder_files (w_db (fm_world m)) (folder_id (fm_folder m)) with
    | Ok all_files => Z.of_nat (length all_files)
    | Err _ => fst_local_files (fm_state m)
    end in
  announce_state (with_state m (scan_completed (fm_state m) now local_files)) FolderScanning FolderIdle.

Definition scan_inner m (sub : option str) : Res (list FileInfo) * FolderModel DB :=
  if folder_paused (fm_folder m) then (Ok [], m)
  else
    let '(old_status, m) := begin_scan m in
    match scan_folder_at env (fm_folder m) sub (fm_world m) with
    | (Ok files, w) => (Ok files, scan_succeeded (announce_changes (with_world m w) files))
    | (Err e, w) => (Err e, scan_failed (with_world m w) old_status e)
    end.

Definition fm_scan m : Res (list FileInfo) * FolderModel DB := scan_inner m None.

Definition fm_scan_sub m (sub : str) : Res (list FileInfo) * FolderModel DB := scan_inner m (Some sub).

(** ** Incremental scans *)

(** A call of the scanner whose failure is only logged: what it found. *)
Definition found (c : WorldM (DB := DB) (list FileInfo)) : World DB -> list FileInfo * World DB := fun w =>
  let '(r, w') := c w in (match r with Ok files => files | Err _ => [] end, w').

Definition found_one (c : WorldM (DB := DB) (option FileInfo)) : World DB -> list FileInfo * World DB := fun w =>
  let '(r, w') := c w in (match r with Ok (Some file) => [file] | _ => [] end, w').

(** One changed path. *)
Definition scan_change (folder : Folder) (pull_in_flight : bool) (relative : str) (w : World DB)
    : list FileInfo * World DB :=
  match sc_at env (path_join (folder_path folder) relative) with
  | Some (EDir _ _ _) =>
      let '(files, w) := found (scan_folder_sub env folder relative) w in
      if pull_in_flight then (files, w)
      else
        let '(gone, w) := found (mark_deleted_subtree env folder relative) w in
        (files ++ gone, w)
  | Some EBroken | None => ([], w)
  | Some _ => found_one (scan_changed_file env folder relative) w
  end.

(** One path a deletion was reported for. *)
Definition scan_delete (folder : Folder) (relative : str) (w : World DB) : list FileInfo * World DB :=
  if path_is_there env (path_join (folder_path folder) relative) then ([], w)
  else found (mark_deleted_subtree env folder relative) w.

Fixpoint collect (step : str -> World DB -> list FileInfo * World DB) (paths : list str) (w : World DB)
    : list FileInfo * World DB :=
  match paths with
  | [] => ([], w)
  | p :: rest =>
      let '(files, w) := step p w in
      let '(more, w) := collect step rest w in
      (files ++ more, w)
  end.

Definition pull_in_flight m (old_status : FolderStatus) : bool :=
  negb (bool_decide (fm_pending m = [])) || bool_decide (old_status = FolderPulling).

Definition scan_incremental m (changes deletes : list str) : Res (list FileInfo) * FolderModel DB :=
  let folder := fm_folder m in
  let '(old_status, m) := begin_scan m in
  let '(changed, w) := collect (scan_change folder (pull_in_flight m old_status)) changes (fm_world m) in
  let '(gone, w) := collect (scan_delete folder) deletes w in
  let changed_files := clear_blocks <$> detect_and_reorder_renames (changed ++ gone) in
  let '(r, db) := update_files (w_db w) (folder_id folder) changed_files in
  let m := with_world m (mkWorld db (w_disk w) (w_events w)) in
  match r with
  | Err e => (Err e, scan_failed m old_status e)
  | Ok _ =>
      let m := scan_succeeded (announce_changes m changed_files) in
      (Ok changed_files,
       with_world m (publish_world (fm_world m)
         (FolderScanCompleted (folder_id folder) (Z.of_nat (length changed_files)))))
  end.
End FolderScan.

(** ** The watcher *)

(** The folder with what the watcher recorded.  Timers and clocks in seconds. *)
Record WatchedFolder (DB : Type) := mkWatchedFolder {
  wf_model : FolderModel DB;
  wf_dirty_changes : gset str;
  wf_dirty_deletes : gset str;
  wf_events_received : Z;
  wf_dropped : Z;
  wf_last_reported : Z;
}.
Arguments mkWatchedFolder {DB}.
Arguments wf_model {DB}.
Arguments wf_dirty_changes {DB}.
Arguments wf_dirty_deletes {DB}.
Arguments wf_events_received {DB}.
Arguments wf_dropped {DB}.
Arguments wf_last_reported {DB}.

(** [abs_path.strip_prefix(base)], with forward slashes. *)
Definition relative_path (base abs_path : PathBuf) : option str :=
  if bool_decide (path_absolute base = path_absolute abs_path) then
    (fun rest => to_slashes (from_utf8_lossy (join [slash] rest))) <$> strip_prefix (components base) (components abs_path)
  else None.

Definition WATCHER_DEBOUNCE : Z := 5.
Definition MIN_SCAN_GAP : Z := 5.

Section Watcher.
Context {DB : Type} `{LocalDatabase DB}.
Context (env : ScanEnv) (root : PathBuf) (order : gset str -> list str).
Implicit Types f : WatchedFolder DB.

Definition with_model f (m : FolderModel DB) : WatchedFolder DB :=
  mkWatchedFolder m (wf_dirty_changes f) (wf_dirty_deletes f) (wf_events_received f) (wf_dropped f) (wf_last_reported f).

(** One path of an event. *)
Definition record_path (is_remove : bool) f (p : PathBuf) : WatchedFolder DB :=
  match relative_path root p with
  | None => f
  | Some relative =>
      if contains_sub ($".syncthing.") relative && ends_with ($".tmp") relative then f
      else if is_remove
           then mkWatchedFolder (wf_model f) (wf_dirty_changes f) ({[relative]} ∪ wf_dirty_deletes f)
                  (wf_events_received f) (wf_dropped f) (wf_last_reported f)
           else mkWatchedFolder (wf_model f) ({[relative]} ∪ wf_dirty_changes f) (wf_dirty_deletes f)
                  (wf_events_received f) (wf_dropped f) (wf_last_reported f)
  end.

Definition record_event f (is_remove : bool) (paths : list PathBuf) : WatchedFolder DB :=
  fold_left (record_path is_remove) paths
    (mkWatchedFolder (wf_model f) (wf_dirty_changes f) (wf_dirty_deletes f) (wrap 64 (wf_events_received f + 1))
       (wf_dropped f) (wf_last_reported f)).

Definition publish_folder f (e : SyncEvent) : WatchedFolder DB :=
  with_model f (with_world (wf_model f) (publish_world (fm_world (wf_model f)) e)).

(** The callback of the watcher: a full channel drops the event. *)
Definition drop_event f : WatchedFolder DB :=
  mkWatchedFolder (wf_model f) (wf_dirty_changes f) (wf_dirty_deletes f) (wf_events_received f)
    (wrap 64 (wf_dropped f + 1)) (wf_last_reported f).

Definition report_dropped f : WatchedFolder DB :=
  if wf_last_reported f <? wf_dropped f then
    publish_folder
      (mkWatchedFolder (wf_model f) (wf_dirty_changes f) (wf_dirty_deletes f) (wf_events_received f)
         (wf_dropped f) (wf_dropped f))
      (WatcherEventsDropped (folder_id (fm_folder (wf_model f))) (wf_dropped f - wf_last_reported f))
  else f.

Definition names_root (p : str) : bool := bool_decide (p = []) || bool_decide (p = [slash]).

Definition process_dirty_set (now : Z) f : Res (list FileInfo) * WatchedFolder DB :=
  let changes := order (wf_dirty_changes f) in
  let deletes := order (wf_dirty_deletes f) in
  let f := mkWatchedFolder (wf_model f) ∅ ∅ (wf_events_received f) (wf_dropped f) (wf_last_reported f) in
  let dirty_count := (length changes + length deletes)%nat in
  if (dirty_count =? 0)%nat then (Ok [], f)
  else
    let fid := folder_id (fm_folder (wf_model f)) in
    let f := publish_folder f (WatcherDirtySetSize fid (Z.of_nat dirty_count)) in
    let f := report_dropped f in
    let threshold := 100 `max` (fst_local_files (fm_state (wf_model f)) / 10) in
    if (threshold <? Z.of_nat dirty_count) || existsb names_root changes || existsb names_root deletes then
      let '(r, m) := fm_scan env now (wf_model f) in (r, with_model f m)
    else
      let f := publish_folder f (IncrementalScanTriggered fid (Z.of_nat dirty_count)) in
      let '(r, m) := scan_incremental env now (wf_model f) changes deletes in (r, with_model f m).

(** The loop: the folder, when the debounce timer fires, when the last scan ended. *)
Record WatchLoop := mkWatchLoop { wl_folder : WatchedFolder DB; wl_timer : option Z; wl_last_scan : Z }.

Definition watch_start f (now : Z) : WatchLoop := mkWatchLoop f None (now - MIN_SCAN_GAP).

(** An event received at [now]. *)
Definition watch_event (l : WatchLoop) (now : Z) (is_remove : bool) (paths : list PathBuf) : WatchLoop :=
  mkWatchLoop (record_event (wl_folder l) is_remove paths) (Some (now + WATCHER_DEBOUNCE)) (wl_last_scan l).

(** The timer branch at [now], with a scan that ends at [ended]. *)
Definition watch_timer (l : WatchLoop) (now ended : Z) : WatchLoop :=
  match wl_timer l with
  | None => l
  | Some _ =>
      if now - wl_last_scan l <? MIN_SCAN_GAP then mkWatchLoop (wl_folder l) None (wl_last_scan l)
      else mkWatchLoop (process_dirty_set ended (wl_folder l)).2 None ended
  end.
End Watcher.
Arguments mkWatchLoop {DB}.
Arguments wl_folder {DB}.
Arguments wl_timer {DB}.
Arguments wl_last_scan {DB}.

(** ** Configuration and receive-only folders *)

Section ReceiveOnly.
Context {DB : Type} `{LocalDatabase DB}.
Context (scan_env : Disk -> ScanEnv) (penv : PullEnv) (now : Z).
Implicit Types m : FolderModel DB.

Definition fm_update_config m (config : Folder) : FolderModel DB :=
  let m := mkFolderModel config (fm_state m) (fm_pending m) (fm_world m) in
  with_world m (publish_world (fm_world m) (FolderConfigUpdated config)).

Definition fm_pause m : FolderModel DB := with_state m (set_status (fm_state m) FolderIdle).

Definition fm_resume m : FolderModel DB := m.

Definition init_state_from_db m : FolderModel DB :=
  match get_folder_files (w_db (fm_world m)) (folder_id (fm_folder m)) with
  | Ok files =>
      with_state m (set_local_files (fm_state m) (Z.of_nat (length (filter (fun f => is_deleted f = false) files))))
  | Err _ => m
  end.

(** The file with its version incremented once more. *)
Definition overridden (counter_id : Z) (f : FileInfo) : FileInfo :=
  mkFileInfo (name f) (file_type f) (size f) (permissions f) (modified_s f) (modified_ns f)
    (vector_increment (version f) counter_id) (sequence f) (block_size f) (blocks f) (symlink_target f)
    (deleted f) (modified_by f) (blocks_hash f) (no_permissions f) (base_version f).

Definition override_local_changes m : Res unit * FolderModel DB :=
  let fid := folder_id (fm_folder m) in
  if negb (bool_decide (folder_type (fm_folder m) = ReceiveOnly)) then (Err (SyncScan fid), m)
  else
    let env := scan_env (w_disk (fm_world m)) in
    match fm_scan env now m with
    | (Err e, m) => (Err e, m)
    | (Ok changed, m) =>
        if decide (changed = []) then (Ok tt, m)
        else
          let '(r, db) := update_files (w_db (fm_world m)) fid (overridden (sc_counter_id env) <$> changed) in
          (match r with Ok _ => Ok tt | Err _ => Err (SyncScan fid) end,
           with_world m (mkWorld db (w_disk (fm_world m)) (w_events (fm_world m))))
    end.

(** Whether a recorded file that is on disk is removed by a revert. *)
Definition revert_removes (d : Disk) (path : str) (remote : FileInfo) : bool :=
  if is_deleted remote then true
  else if pe_io penv (IoMetadata path) then
    match d path with
    | Some (FileNode c) => negb (Z.of_nat (length c) =? wrap 64 (size remote))
    | _ => negb (pe_dir_len penv path =? wrap 64 (size remote))
    end
  else true.

Definition revert_file (folder : Folder) (w : World DB) (remote : FileInfo) : World DB :=
  let local_path := path_join (folder_path folder) (name remote) in
  if negb (path_exists (w_disk w) local_path) then w
  else if negb (revert_removes (w_disk w) local_path remote) then w
  else
    let d := if pe_io penv (IoRemove local_path 0) then disk_remove (w_disk w) local_path else w_disk w in
    mkWorld (delete_file (w_db w) (folder_id folder) (name remote)).2 d (w_events w).

Definition revert_local_changes m : result PullError unit * FolderModel DB :=
  let folder := fm_folder m in
  if negb (bool_decide (folder_type folder = ReceiveOnly)) then (Err (PullFailed (SyncScan (folder_id folder))), m)
  else
    match get_folder_files (w_db (fm_world m)) (folder_id folder) with
    | Err e => (Err (PullFailed e), m)
    | Ok remote_files =>
        let m := with_world m (fold_left (revert_file folder) remote_files (fm_world m)) in
        match fm_scan (scan_env (w_disk (fm_world m))) now m with
        | (Err e, m) => (Err (PullFailed e), m)
        | (Ok _, m) => let '(r, m) := pull penv m in (result_map (fun _ => tt) r, m)
        end
    end.
End ReceiveOnly.

(** ** Scans and pulls at the same time

    The status as the tasks of one folder see it.  Each task takes it, works
    without holding the lock, and sets it again. *)
Inductive FolderTask :=
| ScanTask (old_status : FolderStatus)
| PullTask (old_status : FolderStatus).

Record FolderTasks := mkFolderTasks {
  ft_status : FolderStatus;
  ft_pending : bool;
  ft_running : list FolderTask;
}.

Inductive task_step : FolderTasks -> FolderTasks -> Prop :=
| step_queue s p rs : task_step (mkFolderTasks s p rs) (mkFolderTasks s true rs)
| step_begin_scan s p rs : task_step (mkFolderTasks s p rs) (mkFolderTasks FolderScanning p (ScanTask s :: rs))
| step_scan_ok s p rs1 old rs2 :
    task_step (mkFolderTasks s p (rs1 ++ ScanTask old :: rs2)) (mkFolderTasks FolderIdle p (rs1 ++ rs2))
| step_scan_failed s p rs1 old rs2 :
    task_step (mkFolderTasks s p (rs1 ++ ScanTask old :: rs2)) (mkFolderTasks old p (rs1 ++ rs2))
| step_begin_pull s p rs :
    s <> FolderPulling -> task_step (mkFolderTasks s p rs) (mkFolderTasks FolderPulling false (PullTask s :: rs))
| step_pull_ok s p rs1 old rs2 :
    task_step (mkFolderTasks s p (rs1 ++ PullTask old :: rs2)) (mkFolderTasks FolderIdle p (rs1 ++ rs2))
| step_pull_restored s p rs1 old rs2 :
    task_step (mkFolderTasks s p (rs1 ++ PullTask old :: rs2)) (mkFolderTasks old p (rs1 ++ rs2)).

Definition is_pull_task (t : FolderTask) : bool := match t with PullTask _ => true | ScanTask _ => false end.

(** What an incremental scan that starts now believes. *)
Definition believes_pulling (t : FolderTasks) : bool := ft_pending t || bool_decide (ft_status t = FolderPulling).

(** ** Scans bracket the status *)

Section Brackets.
Context {DB : Type} `{LocalDatabase DB}.
Context (env : ScanEnv) (now : Z).
Implicit Types m : FolderModel DB.

Lemma announce_changes_status m files : fst_status (fm_state (announce_changes m files)) = fst_status (fm_state m).
Proof. unfold announce_changes. by case_decide. Qed.

Lemma announce_changes_pending m files : fm_pending (announce_changes m files) = fm_pending m.
Proof. unfold announce_changes. by case_decide. Qed.

(** ** What an incremental scan reports as deleted *)

Definition live (f : FileInfo) : Prop := is_deleted f = false.

Lemma compare_scanned_live folder files (w : World DB) l w' :
  Forall live files -> compare_scanned env folder files w = (Ok l, w') -> Forall live l.
Proof.
  intros HF. revert l w w'. induction HF as [|f files Hf HF IH]; intros l w w'; cbn [compare_scanned].
  - intros [= <- <-]. constructor.
  - intros (found & w1 & _ & E)%se_bind_Ok. destruct found as [existing|].
    + destruct (has_file_changed existing f); [|by eapply IH].
      apply se_bind_Ok in E as (seq & w2 & _ & (changed & w3 & E & [= <- <-])%se_bind_Ok).
      constructor; [exact Hf|by eapply IH].
    + apply se_bind_Ok in E as (seq & w2 & _ & (changed & w3 & E & [= <- <-])%se_bind_Ok).
      constructor; [exact Hf|by eapply IH].
Qed.

Lemma scan_directory_live im folder current prefix root files :
  scan_directory env im folder current prefix root = Ok files -> Forall live files.
Proof.
  intros Hs. eapply (scan_directory_recorded _ _ _ (fun _ => True) (fun _ => True)) in Hs; [|done|done].
  eapply Forall_impl; [exact Hs|]. intros f [Hd _]. unfold live, is_deleted. by rewrite Hd.
Qed.

Lemma scan_folder_sub_live folder sub (w : World DB) l w' :
  scan_folder_sub env folder sub w = (Ok l, w') -> Forall live l.
Proof.
  unfold scan_folder_sub, scan_folder_at. cbn [from_option default].
  destruct (is_default_ignored_path sub); [intros [= <- <-]; constructor|].
  destruct (sc_at env _) as [root|]; [|done]. destruct (negb _); [done|].
  destruct (is_ignored_with_ancestors _ _ _); [intros [= <- <-]; constructor|].
  destruct (scan_directory _ _ _ _ _ _) as [files|e] eqn:Es; [|done].
  intros (vanished & w1 & [= <- <-] & (changed & w2 & Ec & E)%se_bind_Ok)%se_bind_Ok. cbn [app] in E.
  assert (clear_blocks <$> changed = changed) as Hid.
  { pose proof (compare_scanned_live folder files w changed w2 (scan_directory_live _ _ _ _ _ _ Es) Ec) as HL. clear -HL.
    induction HL as [|f l Hf HL IH]; [done|]. cbn. by rewrite IH, clear_blocks_id. }
  rewrite Hid in E. apply se_bind_Ok in E as ([] & w3 & _ & ([] & w4 & _ & [= <- <-])%se_bind_Ok).
  eapply compare_scanned_live; [by eapply scan_directory_live|exact Ec].
Qed.

Lemma scan_file_live path rel mt bytes rd folder f : scan_file env path rel mt bytes rd folder = Ok f -> live f.
Proof.
  intros Hs. apply (scan_file_recorded env folder (fun _ => True)) in Hs as [Hd _]; [|done].
  unfold live, is_deleted. by rewrite Hd.
Qed.

Lemma scan_changed_file_live folder rel (w : World DB) f w' :
  scan_changed_file env folder rel w = (Ok (Some f), w') -> live f.
Proof.
  unfold scan_changed_file. destruct (is_default_ignored_path rel); [done|].
  destruct (is_ignored_with_ancestors _ _ _); [done|].
  destruct (sc_at env _) as [[mt bytes rd| | | |]|]; try done.
  destruct (scan_file _ _ _ _ _ _ _) as [fi|] eqn:Es; [|done]. apply scan_file_live in Es.
  intros (found & w1 & _ & E)%se_bind_Ok. destruct found as [existing|].
  - destruct (negb _); [done|]. apply se_bind_Ok in E as (seq & w2 & _ & [= <- <-]). exact Es.
  - apply se_bind_Ok in E as (seq & w2 & _ & [= <- <-]). exact Es.
Qed.

(** [n] is [p] or lies below it. *)
Definition at_or_below (p n : str) : Prop :=
  n = p \/ starts_with (if ends_with [slash] p then p else p ++ [slash]) n = true.

Definition gone_below (folder : Folder) (p : str) (f : FileInfo) : Prop :=
  path_is_there env (path_join (folder_path folder) (name f)) = false /\ at_or_below p (name f).

Lemma mark_subtree_gone folder p ps db_files (w : World DB) l w' :
  ps = (if ends_with [slash] p then p else p ++ [slash]) ->
  mark_subtree env folder p ps db_files w = (Ok l, w') -> Forall (gone_below folder p) l.
Proof.
  intros Hps. revert l w w'. induction db_files as [|d db_files IH]; intros l w w'; cbn [mark_subtree].
  - intros [= <- <-]. constructor.
  - destruct (is_deleted d); [apply IH|].
    destruct (bool_decide (name d = p) || starts_with ps (name d)) eqn:En; [|apply IH].
    destruct (path_is_there env _) eqn:Et; [apply IH|].
    intros (seq & w1 & _ & (marked & w2 & Em & [= <- <-])%se_bind_Ok)%se_bind_Ok.
    constructor; [|by eapply IH]. split; [exact Et|]. unfold at_or_below. rewrite <-Hps.
    apply orb_prop in En as [En|En]; [left; by apply bool_decide_eq_true_1 in En|by right].
Qed.

Lemma mark_deleted_subtree_gone folder p (w : World DB) l w' :
  mark_deleted_subtree env folder p w = (Ok l, w') -> Forall (gone_below folder p) l.
Proof.
  unfold mark_deleted_subtree. destruct (is_default_ignored_path p); [intros [= <- <-]; constructor|].
  intros (db_files & w1 & _ & E)%se_bind_Ok. by eapply mark_subtree_gone.
Qed.

Lemma collect_all (step : str -> World DB -> list FileInfo * World DB) (Q : str -> FileInfo -> Prop) paths w :
  (forall p w, Forall (Q p) (step p w).1) -> Forall (fun f => exists p, p ∈ paths /\ Q p f) (collect step paths w).1.
Proof.
  intros Hs. revert w. induction paths as [|p paths IH]; intros w; [constructor|]. cbn [collect].
  specialize (Hs p w). destruct (step p w) as [files w1]. specialize (IH w1).
  destruct (collect step paths w1) as [more w2]. cbn in *. apply Forall_app. split.
  - eapply Forall_impl; [exact Hs|]. intros f Hf. exists p. split; [by left|done].
  - eapply Forall_impl; [exact IH|]. intros f (q & Hq & Hf). exists q. split; [by right|done].
Qed.

Lemma found_all (Q : FileInfo -> Prop) (c : WorldM (DB := DB) (list FileInfo)) w :
  (forall l w', c w = (Ok l, w') -> Forall Q l) -> Forall Q (found c w).1.
Proof.
  intros Hc. unfold found. destruct (c w) as [[l|e] w'] eqn:E; [by eapply Hc|constructor].
Qed.

Lemma scan_change_all folder inflight p (w : World DB) :
  Forall (fun f => live f \/ (inflight = false /\ gone_below folder p f)) (scan_change env folder inflight p w).1.
Proof.
  unfold scan_change. destruct (sc_at env _) as [[mt b r|mt r es|mt t|mt|]|]; try constructor.
  2: { pose proof (found_all live (scan_folder_sub env folder p) w (scan_folder_sub_live folder p w)) as HL.
       destruct (found _ w) as [files w1]. cbn [fst] in HL. destruct inflight.
       - eapply Forall_impl; [exact HL|]. by left.
       - pose proof (found_all _ (mark_deleted_subtree env folder p) w1 (mark_deleted_subtree_gone folder p w1)) as HG.
         destruct (found _ w1) as [gone w2]. cbn [fst] in HG |- *. apply Forall_app. split.
         + eapply Forall_impl; [exact HL|]. by left.
         + eapply Forall_impl; [exact HG|]. by right. }
  all: unfold found_one; destruct (scan_changed_file env folder p w) as [[[f|]|e] w1] eqn:E; try constructor;
    [left; by eapply scan_changed_file_live|constructor].
Qed.

Lemma scan_delete_all folder p (w : World DB) : Forall (gone_below folder p) (scan_delete env folder p w).1.
Proof.
  unfold scan_delete. destruct (path_is_there env _); [constructor|].
  apply found_all, mark_deleted_subtree_gone.
Qed.

(** C20: An incremental scan reports a deletion only for a file that is not on disk
    any more and lies at or below a path the watcher named.  When the scan
    finds the folder pulling, or files waiting to be pulled, a path reported as
    changed yields no deletion; only at or below a path that was reported as
    deleted one is reported. *)
Theorem incremental_deletions_sound m changes deletes files m' f :
  scan_incremental env now m changes deletes = (Ok files, m') -> f ∈ files -> is_deleted f = true ->
  path_is_there env (path_join (folder_path (fm_folder m)) (name f)) = false /\
  exists p, at_or_below p (name f) /\
    (p ∈ deletes \/ p ∈ changes /\ fm_pending m = [] /\ fst_status (fm_state m) <> FolderPulling).
Proof.
  unfold scan_incremental. cbn [begin_scan]. set (m1 := announce_state _ _ _). set (old := fst_status (fm_state m)).
  set (inflight := pull_in_flight m1 old). cbv beta iota zeta.
  pose proof (collect_all (scan_change env (fm_folder m) inflight) _ changes (fm_world m1)
                (fun p w => scan_change_all (fm_folder m) inflight p w)) as HC.
  destruct (collect _ changes _) as [changed w1]. cbn [fst] in HC.
  pose proof (collect_all (scan_delete env (fm_folder m)) _ deletes w1 (fun p w => scan_delete_all (fm_folder m) p w)) as HD.
  destruct (collect _ deletes _) as [gone w2]. cbn [fst] in HD.
  destruct (update_files _ _ _) as [[u|e] db]; [|done]. intros [= <- <-].
  intros (g & -> & Hg)%list_elem_of_fmap Hdel. rewrite reorder_perm in Hg. rewrite clear_blocks_name.
  assert (is_deleted g = true) as Hgd.
  { destruct (is_deleted g) eqn:Eg; [done|]. rewrite clear_blocks_id in Hdel by done. congruence. }
  rewrite Forall_forall in HC, HD. apply elem_of_app in Hg as [Hg|Hg].
  - destruct (HC g Hg) as (p & Hp & [Hl|[Hi [Ht Hb]]]); [unfold live in Hl; by rewrite Hgd in Hl|].
    split; [done|]. exists p. split; [done|]. right. unfold inflight, pull_in_flight in Hi.
    apply orb_false_iff in Hi as [H1%negb_false_iff%bool_decide_eq_true_1 H2%bool_decide_eq_false_1]. done.
  - destruct (HD g Hg) as (p & Hp & [Ht Hb]). split; [done|]. exists p. split; [done|]. by left.
Qed.
End Brackets.

(** ** Interleavings *)

Definition tasks_of {DB : Type} (m : FolderModel DB) (running : list FolderTask) : FolderTasks :=
  mkFolderTasks (fst_status (fm_state m)) (negb (bool_decide (fm_pending m = []))) running.

Definition no_tasks : FolderTasks := mkFolderTasks FolderIdle false [].

Section Tasks.
Context {DB : Type} `{LocalDatabase DB}.
Implicit Types m : FolderModel DB.

Lemma scan_brackets m m1 m2 rs :
  m1 = (begin_scan m).2 -> fm_pending m2 = fm_pending m ->
  fst_status (fm_state m2) = FolderIdle \/ fst_status (fm_state m2) = (begin_scan m).1 ->
  rtc task_step (tasks_of m rs) (tasks_of m2 rs).
Proof.
  intros -> Hp Hs. unfold tasks_of. rewrite Hp.
  eapply rtc_l; [apply step_begin_scan|]. apply rtc_once.
  destruct Hs as [-> | ->]; [apply (step_scan_ok _ _ [])|apply (step_scan_failed _ _ [])].
Qed.

Lemma scan_inner_steps env now m sub r m' rs :
  scan_inner env now m sub = (r, m') -> rtc task_step (tasks_of m rs) (tasks_of m' rs).
Proof.
  unfold scan_inner. destruct (folder_paused _); [intros [= _ <-]; reflexivity|].
  destruct (begin_scan m) as [old m1] eqn:Eb. unfold begin_scan in Eb. injection Eb as <- <-.
  destruct (scan_folder_at _ _ _ _) as [[files|e] w]; intros [= _ <-].
  - eapply scan_brackets; [reflexivity| |left; reflexivity].
    unfold scan_succeeded. cbn. by rewrite announce_changes_pending.
  - eapply scan_brackets; [reflexivity|reflexivity|by right].
Qed.

Lemma scan_incremental_steps env now m changes deletes r m' rs :
  scan_incremental env now m changes deletes = (r, m') -> rtc task_step (tasks_of m rs) (tasks_of m' rs).
Proof.
  unfold scan_incremental. cbn [begin_scan].
  destruct (collect _ changes _) as [changed w1]. destruct (collect _ deletes _) as [gone w2].
  destruct (update_files _ _ _) as [[u|e] db]; intros [= _ <-].
  - eapply scan_brackets; [reflexivity| |left; reflexivity].
    unfold scan_succeeded. cbn. by rewrite announce_changes_pending.
  - eapply scan_brackets; [reflexivity|reflexivity|by right].
Qed.

Lemma pull_steps env m r m' rs :
  pull env m = (r, m') -> r <> Err TaskDiverged -> rtc task_step (tasks_of m rs) (tasks_of m' rs).
Proof.
  intros E Hr. unfold pull in E. destruct (folder_paused _); [injection E as _ <-; reflexivity|].
  destruct (negb (folder_can_sync _)); [injection E as _ <-; reflexivity|].
  case_decide as Hs; [injection E as _ <-; reflexivity|].
  assert (forall m2 : FolderModel DB, fm_pending m2 = [] ->
            fst_status (fm_state m2) = FolderIdle \/ fst_status (fm_state m2) = fst_status (fm_state m) ->
            rtc task_step (tasks_of m rs) (tasks_of m2 rs)) as Hgo.
  { intros m2 Hp Hst. unfold tasks_of. rewrite Hp, (bool_decide_eq_true_2 (@nil FileInfo = [])) by done. cbn [negb].
    eapply rtc_l; [by apply step_begin_pull|]. apply rtc_once.
    destruct Hst as [-> | ->]; [apply (step_pull_ok _ _ [])|apply (step_pull_restored _ _ [])]. }
  set (w0 := publish_world _ _) in E. destruct (check_needed_files _ _ w0) as [[fs|e] w1].
  2: { injection E as _ <-. apply Hgo; [done|by right]. }
  case_decide as Hn; [injection E as _ <-; apply Hgo; [done|by right]|].
  destruct (pull_folder env (fm_folder m) _ w1) as [[stats|[e| |]] w2] eqn:Ep.
  - injection E as _ <-. apply Hgo; [done|by left].
  - injection E as _ <-. apply Hgo; [done|by right].
  - by apply pull_folder_result in Ep.
  - by injection E as <- _.
Qed.

(** Every operation on a folder that returns is a sequence of the steps of the
    task machine, whatever other tasks are running. *)
Theorem folder_ops_refine_tasks env penv now m rs :
  (forall sub r m', scan_inner env now m sub = (r, m') -> rtc task_step (tasks_of m rs) (tasks_of m' rs)) /\
  (forall changes deletes r m', scan_incremental env now m changes deletes = (r, m') ->
     rtc task_step (tasks_of m rs) (tasks_of m' rs)) /\
  (forall r m', pull penv m = (r, m') -> r <> Err TaskDiverged -> rtc task_step (tasks_of m rs) (tasks_of m' rs)) /\
  (forall files, rtc task_step (tasks_of m rs) (tasks_of (handle_remote_index m files) rs)).
Proof.
  split_and!.
  - intros sub r m'. apply scan_inner_steps.
  - intros changes deletes r m'. apply scan_incremental_steps.
  - intros r m'. apply pull_steps.
  - intros files. unfold tasks_of, handle_remote_index. cbn.
    destruct (decide (enqueue (fm_pending m) files = [])) as [E|E].
    + rewrite E. assert (fm_pending m = []) as ->; [|reflexivity].
      revert E. generalize (fm_pending m) as q. induction files as [|f files IH]; intros q; [done|].
      intros E. apply (IH (if existsb (fun g => bool_decide (name g = name f)) q then q else q ++ [f])) in E.
      destruct (existsb _ q); [done|]. by destruct q.
    + rewrite (bool_decide_eq_false_2 (enqueue _ _ = [])) by done. apply rtc_once, step_queue.
Qed.
End Tasks.

(** Steps of tasks that do not overlap. *)
Definition serial_step (t t' : FolderTasks) : Prop := task_step t t' /\ (length (ft_running t') <= 1)%nat.

Definition serial_inv (t : FolderTasks) : Prop :=
  (ft_running t = [] /\ ft_status t = FolderIdle) \/
  (ft_running t = [ScanTask FolderIdle] /\ ft_status t = FolderScanning) \/
  (ft_running t = [PullTask FolderIdle] /\ ft_status t = FolderPulling).

Lemma app_singleton {A : Type} (l1 l2 : list A) x y : l1 ++ x :: l2 = [y] -> l1 = [] /\ l2 = [] /\ x = y.
Proof. destruct l1 as [|z [|? ?]]; intros E; simplify_list_eq; naive_solver. Qed.

Lemma app_not_nil {A : Type} (l1 l2 : list A) x : l1 ++ x :: l2 <> [].
Proof. by destruct l1. Qed.

Lemma serial_inv_step t t' : serial_inv t -> serial_step t t' -> serial_inv t'.
Proof.
  unfold serial_inv. intros Hi [Hs Hl]. destruct Hs; cbn [ft_running ft_status ft_pending] in *.
  - exact Hi.
  - destruct rs as [|? [|? ?]]; cbn in Hl; [|lia|lia]. naive_solver.
  - destruct Hi as [[E _]|[[E _]|[E _]]]; [by apply app_not_nil in E|..];
      apply app_singleton in E as (-> & -> & E); simplify_eq. by left.
  - destruct Hi as [[E _]|[[E _]|[E _]]]; [by apply app_not_nil in E|..];
      apply app_singleton in E as (-> & -> & E); simplify_eq. by left.
  - destruct rs as [|? [|? ?]]; cbn in Hl; [|lia|lia]. naive_solver.
  - destruct Hi as [[E _]|[[E _]|[E _]]]; [by apply app_not_nil in E|..];
      apply app_singleton in E as (-> & -> & E); simplify_eq. by left.
  - destruct Hi as [[E _]|[[E _]|[E _]]]; [by apply app_not_nil in E|..];
      apply app_singleton in E as (-> & -> & E); simplify_eq. by left.
Qed.

(** As long as the scans and pulls of a folder do not overlap, its status tells
    the truth: it is pulling exactly while a pull runs, scanning exactly while
    a scan runs, and idle otherwise; an incremental scan then never overlooks
    a running pull. *)
Theorem serial_status_exact t :
  rtc serial_step no_tasks t ->
  (ft_status t = FolderPulling <-> exists old, PullTask old ∈ ft_running t) /\
  (ft_status t = FolderScanning <-> exists old, ScanTask old ∈ ft_running t) /\
  ((exists old, PullTask old ∈ ft_running t) -> believes_pulling t = true).
Proof.
  intros Hr. assert (serial_inv t) as Hi.
  { revert Hr. assert (serial_inv no_tasks) as H0 by by left. generalize dependent no_tasks.
    intros t0 H0 Hr. induction Hr; [done|]. eauto using serial_inv_step. }
  unfold believes_pulling. destruct Hi as [[-> ->]|[[-> ->]|[-> ->]]].
  - split_and!; [split; [done|set_solver]|split; [done|set_solver]|set_solver].
  - split_and!; [split; [done|set_solver]|split; [intros _; exists FolderIdle; set_solver|done]|set_solver].
  - split_and!; [split; [intros _; exists FolderIdle; set_solver|done]|split; [done|set_solver]|].
    intros _. by rewrite orb_true_r.
Qed.

(** Nothing keeps a scan from running during a pull.  When it ends first, the
    folder is idle while the pull still runs, and the guard of incremental
    scans is gone; when it fails last, it restores the status of a pull that
    has ended, and the folder refuses to pull although no task is running. *)
Theorem overlap_breaks_status {DB : Type} `{LocalDatabase DB} :
  (exists t, rtc task_step no_tasks t /\ PullTask FolderIdle ∈ ft_running t /\ believes_pulling t = false) /\
  (exists t, rtc task_step no_tasks t /\ ft_running t = [] /\ ft_status t = FolderPulling /\
     forall env (m : FolderModel DB), fst_status (fm_state m) = ft_status t -> (pull env m).2 = m).
Proof.
  split.
  - exists (mkFolderTasks FolderIdle false [PullTask FolderIdle]). split; [|split; [by left|done]].
    eapply rtc_l; [by apply step_begin_pull|]. eapply rtc_l; [apply step_begin_scan|].
    apply rtc_once. apply (step_scan_ok _ _ []).
  - exists (mkFolderTasks FolderPulling false []). split_and!; [|done|done|].
    + eapply rtc_l; [by apply step_begin_pull|]. eapply rtc_l; [apply step_begin_scan|].
      eapply rtc_l; [apply (step_pull_ok _ _ [ScanTask FolderPulling] FolderIdle [])|].
      apply rtc_once. apply (step_scan_failed _ _ []).
    + intros env m Hs. cbn in Hs. unfold pull. destruct (folder_paused _); [done|]. destruct (negb _); [done|].
      by rewrite decide_True.
Qed.

(** ** The watcher loses nothing *)

Section WatcherLoop.
Context {DB : Type} `{LocalDatabase DB}.
Context (env : ScanEnv) (root : PathBuf) (order : gset str -> list str).

Definition clean (f : WatchedFolder DB) : Prop := wf_dirty_changes f = ∅ /\ wf_dirty_deletes f = ∅.

(** The states of the loop at a time. *)
Inductive watch_reach : Z -> WatchLoop (DB := DB) -> Prop :=
| reach_start f t : clean f -> watch_reach t (watch_start f t)
| reach_event t l now is_remove paths :
    watch_reach t l -> t <= now -> watch_reach now (watch_event root l now is_remove paths)
| reach_timer t l now ended d :
    watch_reach t l -> wl_timer l = Some d -> t <= now -> d <= now -> now <= ended ->
    watch_reach ended (watch_timer env order l now ended).

Lemma process_dirty_set_clean now (f : WatchedFolder DB) : clean (process_dirty_set env order now f).2.
Proof.
  unfold process_dirty_set. destruct (_ =? 0)%nat; [done|]. cbv zeta.
  assert (forall g : WatchedFolder DB, clean g -> clean (report_dropped g)) as Hr
    by (intros g Hg; unfold report_dropped; by destruct (_ <? _)).
  destruct (_ || _ || _).
  - destruct (fm_scan _ _ _) as [r m]. cbn [snd]. by apply (Hr (publish_folder _ _)).
  - destruct (scan_incremental _ _ _ _ _) as [r m]. cbn [snd]. by apply (Hr (publish_folder _ _)).
Qed.

Record watch_inv (t : Z) (l : WatchLoop (DB := DB)) : Prop := {
  wi_last : wl_last_scan l <= t;
  wi_timer : forall d, wl_timer l = Some d -> wl_last_scan l + MIN_SCAN_GAP <= d;
  wi_armed : wl_timer l = None -> clean (wl_folder l);
}.

Lemma timer_runs t l now ended d :
  watch_inv t l -> wl_timer l = Some d -> d <= now ->
  watch_timer env order l now ended = mkWatchLoop (process_dirty_set env order ended (wl_folder l)).2 None ended.
Proof.
  intros [Hl Ht _] Hd Hn. unfold watch_timer. rewrite Hd. specialize (Ht d Hd).
  destruct (Z.ltb_spec (now - wl_last_scan l) MIN_SCAN_GAP); [lia|done].
Qed.

Lemma watch_reach_inv t l : watch_reach t l -> watch_inv t l.
Proof.
  induction 1 as [f t Hc|t l now is_remove paths _ IH Hn|t l now ended d _ IH Hd Hn Hdn He].
  - split; [cbn; unfold MIN_SCAN_GAP; lia|done|done].
  - destruct IH as [Hl Ht _]. split; [cbn; lia| |done].
    intros d [= <-]. cbn. unfold WATCHER_DEBOUNCE, MIN_SCAN_GAP. lia.
  - rewrite (timer_runs t l now ended d IH Hd Hdn). split; cbn; [lia|done|].
    intros _. apply process_dirty_set_clean.
Qed.

(** No recorded change waits forever and none is skipped: while a path is in a
    dirty set the debounce timer is armed, and when it fires the minimum gap
    between scans has always passed, so the sets are processed and emptied. *)
Theorem watcher_processes_dirty t l :
  watch_reach t l ->
  (~ clean (wl_folder l) -> exists d, wl_timer l = Some d) /\
  (forall now ended d, wl_timer l = Some d -> d <= now ->
     wl_folder (watch_timer env order l now ended) = (process_dirty_set env order ended (wl_folder l)).2 /\
     clean (wl_folder (watch_timer env order l now ended))).
Proof.
  intros Hr%watch_reach_inv. split.
  - intros Hc. destruct (wl_timer l) as [d|] eqn:Ed; [by exists d|]. by apply (wi_armed _ _ Hr) in Ed.
  - intros now ended d Hd Hn. rewrite (timer_runs t l now ended d Hr Hd Hn). split; [done|].
    apply process_dirty_set_clean.
Qed.
End WatcherLoop.

(** ** What a full scan announces *)

Section Announce.
Context {DB : Type} `{DBL : LocalDatabaseLaws DB}.
Implicit Types m : FolderModel DB.

Lemma scannable_ext env folder (w w' : World DB) files :
  w_db w' = w_db w -> scannable env folder w files -> scannable env folder w' files.
Proof. intros E [A B C D]. split; by rewrite ?E. Qed.

(** A full scan of a readable folder: what it returns, stores and publishes. *)
Lemma fm_scan_run env now m files :
  folder_paused (fm_folder m) = false -> scannable env (fm_folder m) (fm_world m) files ->
  exists changed m', fm_scan env now m = (Ok changed, m') /\ fm_folder m' = fm_folder m /\ fm_pending m' = fm_pending m /\
    fst_status (fm_state m') = FolderIdle /\
    let fo := folder_id (fm_folder m) in
    let V := db_files (w_db (fm_world m)) fo in
    db_inv (w_db (fm_world m')) /\ w_disk (fm_world m') = w_disk (fm_world m) /\
    db_files (w_db (fm_world m')) fo = store_list changed V /\
    (exists dbl, dbl ≡ₚ (map_to_list V).*2 /\
      changed = clear_blocks <$> detect_and_reorder_renames
        (number (db_seq (w_db (fm_world m)) fo)
           ((deletion_of env <$> filter (fun f => vanished env (fm_folder m) f = true) dbl) ++ omap (change_of env V) files))) /\
    w_events (fm_world m') = w_events (fm_world m) ++
      [state_changed m (fst_status (fm_state m)) FolderScanning; FolderScanCompleted fo (Z.of_nat (length changed))] ++
      (if decide (changed = []) then [] else [LocalIndexUpdated fo changed]) ++
      [state_changed m FolderScanning FolderIdle].
Proof.
  intros Hp HS. unfold fm_scan, scan_inner. rewrite Hp. cbn [begin_scan].
  set (m1 := announce_state _ _ _).
  destruct (scan_folder_run env (fm_folder m) (fm_world m1) files) as (dbl & w' & changed & HP & Ec & E & I & EV & _ & _ & Ed & Ee).
  { by eapply scannable_ext; [|exact HS]. }
  unfold scan_folder in E. change (fm_folder m1) with (fm_folder m). rewrite E.
  eexists changed, _. split; [reflexivity|].
  split; [unfold scan_succeeded, announce_changes; cbn; by case_decide|].
  split; [unfold scan_succeeded, announce_changes; cbn; by case_decide|]. split; [done|].
  unfold scan_succeeded, announce_changes. cbv zeta. split_and!.
  - case_decide; exact I.
  - case_decide; exact Ed.
  - case_decide; exact EV.
  - by exists dbl.
  - case_decide; cbn; rewrite Ee; cbn; by rewrite <-!app_assoc.
Qed.

(** A scan tells the peers what it stored: when something changed, it publishes
    exactly one index update between its two changes of status, with the
    returned files, and each of them is the database entry of its name. *)
Theorem scan_announces_stored env now m files :
  folder_paused (fm_folder m) = false -> scannable env (fm_folder m) (fm_world m) files ->
  consistent env (fm_folder m) files ->
  exists changed m', fm_scan env now m = (Ok changed, m') /\ fst_status (fm_state m') = FolderIdle /\
    let fo := folder_id (fm_folder m) in
    (forall g, g ∈ changed -> db_files (w_db (fm_world m')) fo !! name g = Some g) /\
    w_events (fm_world m') = w_events (fm_world m) ++
      [state_changed m (fst_status (fm_state m)) FolderScanning; FolderScanCompleted fo (Z.of_nat (length changed))] ++
      (if decide (changed = []) then [] else [LocalIndexUpdated fo changed]) ++
      [state_changed m FolderScanning FolderIdle].
Proof.
  intros Hp HS HC.
  destruct (fm_scan_run env now m files Hp HS) as (changed & m' & E & _ & _ & Hs & _ & _ & EV & (dbl & HP & Ec) & Ee).
  exists changed, m'. split; [done|]. split; [done|]. split; [|done].
  intros g Hg. rewrite EV. rewrite Ec in Hg |- *. apply changed_stored; [|done|done|done].
  intros n f. apply law_names, (sb_inv _ _ _ _ HS).
Qed.

(** Accepting the local changes of a receive-only folder increments their
    versions after the scan has announced them: what is stored is strictly
    newer than what the peers were told, under the same sequence number, and no
    second announcement follows. *)
Theorem override_not_announced scan_env now m files :
  let env := scan_env (w_disk (fm_world m)) in
  let fo := folder_id (fm_folder m) in
  folder_type (fm_folder m) = ReceiveOnly -> folder_paused (fm_folder m) = false ->
  scannable env (fm_folder m) (fm_world m) files -> consistent env (fm_folder m) files ->
  exists changed m', override_local_changes scan_env now m = (Ok tt, m') /\
    (forall fs, LocalIndexUpdated fo fs ∈ drop (length (w_events (fm_world m))) (w_events (fm_world m')) -> fs = changed) /\
    (forall g, g ∈ changed -> exists e, db_files (w_db (fm_world m')) fo !! name g = Some e /\
       sequence e = sequence g /\ version e = vector_increment (version g) (sc_counter_id env)).
Proof.
  intros env fo Ht Hp HS HC.
  destruct (fm_scan_run env now m files Hp HS) as (changed & m1 & E & Hf & _ & _ & I & _ & EV & (dbl & HP & Ec) & Ee).
  fold fo in EV, Ec, Ee. unfold override_local_changes. rewrite bool_decide_eq_true_2 by done. cbn [negb]. fold env. rewrite E.
  assert (forall w, w_events w = w_events (fm_world m1) ->
            forall fs, LocalIndexUpdated fo fs ∈ drop (length (w_events (fm_world m))) (w_events (DB := DB) w) -> fs = changed) as Hev.
  { intros w -> fs. rewrite Ee, drop_app_length. case_decide; set_solver. }
  assert (NoDup (name <$> changed)) as Hnd.
  { rewrite Ec. apply changed_names; [|done|done]. intros n f. apply law_names, (sb_inv _ _ _ _ HS). }
  clear Ec. case_decide as En.
  { subst changed. exists [], m1. split; [done|]. split; [by apply Hev|]. by intros g ?%elem_of_nil. }
  destruct (law_update_files (w_db (fm_world m1)) fo (overridden (sc_counter_id env) <$> changed) I)
    as (db' & Eu & _ & Ef & _).
  fold fo. rewrite Eu. eexists changed, _. split; [reflexivity|]. split; [by apply Hev|].
  intros g Hg. exists (overridden (sc_counter_id env) g). split; [|done]. cbn [fm_world with_world w_db]. rewrite Ef.
  change (name g) with (name (overridden (sc_counter_id env) g)).
  apply (store_list_elem (overridden (sc_counter_id env) <$> changed)); [|by apply list_elem_of_fmap_2].
  rewrite <-list_fmap_compose. exact Hnd.
Qed.
End Announce.

(** ** Reverting *)

Section Revert.
Context {DB : Type} `{DBL : LocalDatabaseLaws DB}.
Context (scan_env : Disk -> ScanEnv) (penv : PullEnv) (now : Z).
Context (m : FolderModel DB) (f : FileInfo) (c : str).
Let folder := fm_folder m.
Let fo := folder_id folder.
Let path := path_join (folder_path folder) (name f).

(** The folder holds one file, changed to another size. *)
Hypothesis Hinv : db_inv (w_db (fm_world m)).
Hypothesis Hdb : db_files (w_db (fm_world m)) fo = {[name f := f]}.
Hypothesis Hseq : 0 <= db_seq (w_db (fm_world m)) fo < 2 ^ 64.
Hypothesis Hdisk : w_disk (fm_world m) path = Some (FileNode c).
Hypothesis Hsize : Z.of_nat (length c) <> wrap 64 (size f).
Hypothesis Hio : forall op, pe_io penv op = true.
Hypothesis Hseen : forall d, d path = None ->
  exists mt, sc_at (scan_env d) (folder_path folder) = Some (EDir mt true []).

Lemma revert_file_removes :
  exists db, db_inv db /\ db_files db fo = ∅ /\ db_seq db fo = db_seq (w_db (fm_world m)) fo /\
    revert_file penv folder (fm_world m) f = mkWorld db (disk_remove (w_disk (fm_world m)) path) (w_events (fm_world m)).
Proof using All.
  unfold revert_file. fold path. unfold path_exists. rewrite bool_decide_eq_true_2 by (rewrite Hdisk; by eexists). cbn [negb].
  assert (revert_removes penv (w_disk (fm_world m)) path f = true) as ->.
  { unfold revert_removes. destruct (is_deleted f); [done|]. rewrite Hio, Hdisk. by apply negb_true_iff, Z.eqb_neq. }
  cbn [negb]. rewrite Hio. destruct (law_delete_file (w_db (fm_world m)) fo (name f) Hinv) as (db & E & I & Ef & _ & Es & _).
  exists db. split; [done|]. split; [|split; [by rewrite Es|]].
  - rewrite Ef, Hdb. apply delete_singleton_eq.
  - fold fo. by rewrite E.
Qed.

Lemma empty_files (db : DB) : db_inv db -> db_files db fo = ∅ -> get_folder_files db fo = Ok [].
Proof using All.
  intros I E. destruct (law_get_folder_files db fo I) as (l & -> & Hl). rewrite E, map_to_list_empty in Hl.
  by apply Permutation_nil_r in Hl as ->.
Qed.

(** Reverting a changed file forgets it: the file is removed from disk and from
    the index, the following scan and pull find nothing to do and succeed, and
    nothing asks the peers for the file again. *)
Theorem revert_forgets_file :
  folder_type folder = ReceiveOnly -> folder_paused folder = false -> fm_pending m = [] ->
  exists m', revert_local_changes scan_env penv now m = (Ok tt, m') /\
    w_disk (fm_world m') path = None /\ db_files (w_db (fm_world m')) fo = ∅ /\ fm_pending m' = [] /\
    fst_status (fm_state m') = FolderIdle.
Proof using All.
  intros Ht Hp Hpend. unfold revert_local_changes. fold folder fo. rewrite bool_decide_eq_true_2 by done. cbn [negb].
  assert (get_folder_files (w_db (fm_world m)) fo = Ok [f]) as ->.
  { destruct (law_get_folder_files (w_db (fm_world m)) fo Hinv) as (l & -> & Hl).
    rewrite Hdb, map_to_list_singleton in Hl. by apply Permutation_singleton_r in Hl as ->. }
  destruct revert_file_removes as (db & I & Ef & Es & Er). cbn [fold_left]. rewrite Er.
  set (d := disk_remove _ path). set (m1 := with_world m _).
  assert (d path = None) as Hd by (unfold d, disk_remove; rewrite decide_True by done; by rewrite Hdisk).
  destruct (Hseen d Hd) as [mt Hat].
  destruct (fm_scan_run (scan_env d) now m1 [] Hp) as (changed & m2 & E2 & Hf2 & Hq2 & Hs2 & I2 & Hd2 & EV2 & (dbl & HP & Ec) & _).
  { split; cbn [m1 with_world fm_world w_db fm_folder]; fold folder fo; [done|lia| |].
    - rewrite Ef, map_size_empty, Es. cbn. lia.
    - exists mt, []. split; [exact Hat|reflexivity]. }
  change (w_disk (fm_world m1)) with d in Hd2 |- *. rewrite E2.
  cbn [m1 with_world fm_folder fm_world w_db fm_pending] in EV2, HP, Ec, Hf2, Hq2. fold folder fo in EV2, HP, Ec. rewrite Ef in EV2, HP. rewrite map_to_list_empty in HP. apply Permutation_nil_r in HP as ->.
  cbn in Ec. subst changed. cbn in EV2.
  unfold pull. rewrite Hf2. fold folder. rewrite Hp, Ht. cbn [folder_can_sync negb].
  rewrite Hs2, decide_False by done. unfold check_needed_files, w_get_folder_files.
  erewrite se_bind_run by (unfold se_read; cbn [publish_world w_db]; fold fo; by rewrite empty_files).
  cbn [se_read filter_needed]. rewrite Hq2, Hpend.
  eexists. split; [reflexivity|]. cbn. by rewrite Hd2.
Qed.
End Revert.

(** ** Witnesses *)

Definition demo_scan_model (w : World MemoryDatabase) (folder : Folder) : FolderModel MemoryDatabase :=
  mkFolderModel folder (folder_state_new ($"f")) [] w.

Definition demo_receive_only : Folder := mkFolder ($"f") ($"/d") None ReceiveOnly false 3600 [] [] None.

Lemma incremental_deletions_sound_witness :
  exists files m' f, scan_incremental demo_all 9 (demo_scan_model demo_known demo_folder) [$"sub"] [$"gone"] = (Ok files, m') /\
    f ∈ files /\ name f = $"gone" /\ path_is_there demo_all ($"/d/gone") = false.
Proof.
  destruct (scan_incremental demo_all 9 (demo_scan_model demo_known demo_folder) [$"sub"] [$"gone"]) as [r m'] eqn:E.
  assert (r = (scan_incremental demo_all 9 (demo_scan_model demo_known demo_folder) [$"sub"] [$"gone"]).1) as Hr by (rewrite E; reflexivity).
  vm_compute in Hr. subst r.
  eexists _, m', _. split; [reflexivity|]. split; [left|].
  destruct (incremental_deletions_sound _ _ _ _ _ _ _ _ E ltac:(left) eq_refl) as [Ht _].
  split; [reflexivity|exact Ht].
Defined.

Lemma folder_ops_refine_tasks_witness :
  rtc task_step (tasks_of (demo_scan_model demo_known demo_folder) [PullTask FolderIdle])
    (tasks_of (fm_scan demo_all 9 (demo_scan_model demo_known demo_folder)).2 [PullTask FolderIdle]).
Proof.
  eapply (proj1 (folder_ops_refine_tasks demo_all (pull_env None) 9 (demo_scan_model demo_known demo_folder) [PullTask FolderIdle])
            None (fm_scan demo_all 9 (demo_scan_model demo_known demo_folder)).1).
  apply surjective_pairing.
Defined.

Lemma serial_status_exact_witness :
  believes_pulling (mkFolderTasks FolderPulling false [PullTask FolderIdle]) = true.
Proof.
  apply (serial_status_exact (mkFolderTasks FolderPulling false [PullTask FolderIdle])).
  - apply rtc_once. split; [by apply step_begin_pull|cbn; lia].
  - exists FolderIdle. left.
Defined.

Lemma overlap_breaks_status_witness :
  exists t, rtc task_step no_tasks t /\ PullTask FolderIdle ∈ ft_running t /\ believes_pulling t = false.
Proof. exact (proj1 (overlap_breaks_status (DB := MemoryDatabase))). Defined.

(** A download into [sub] has begun: its temporary file is there, the file is not. *)
Definition demo_downloading : ScanEnv :=
  mkScanEnv (fun p => if decide (p = $"/d/sub") then Some (EDir (1, 0) true [])
                      else if decide (p = $"/d/sub/.syncthing.new.tmp") then Some (EOther (0, 0)) else None)
    (fun _ _ => 1%nat) (fun bytes => bytes) (fun _ => None) (fun _ => []) 1.

(** The consequence: while the pull of [sub/new] is running and a full scan has
    ended during it, an incremental scan of [sub] records and announces [sub/new]
    as deleted; when the status is intact it does not. *)
Theorem overlap_deletes_download :
  let new := demo_file ($"sub/new") vector_new 3 in
  let m := demo_scan_model (world_with new) demo_folder in
  let pulling := with_state m (set_status (fm_state m) FolderPulling) in
  rtc task_step no_tasks (tasks_of m [PullTask FolderIdle]) /\
  (exists d m', scan_incremental demo_downloading 9 m [$"sub"] [] = (Ok [d], m') /\ name d = name new /\ is_deleted d = true /\
     LocalIndexUpdated ($"f") [d] ∈ w_events (fm_world m')) /\
  (exists m', scan_incremental demo_downloading 9 pulling [$"sub"] [] = (Ok [], m')).
Proof.
  intros new m pulling. split; [|split].
  - eapply rtc_l; [by apply step_begin_pull|]. eapply rtc_l; [apply step_begin_scan|].
    apply rtc_once. apply (step_scan_ok _ _ []).
  - eexists _, _. split; [vm_compute; reflexivity|]. split; [reflexivity|]. split; [reflexivity|].
    apply list_elem_of_In. vm_compute. tauto.
  - eexists. vm_compute. reflexivity.
Qed.

Definition demo_watch : WatchLoop (DB := MemoryDatabase) :=
  watch_event (mkPathBuf true [$"d"])
    (watch_start (mkWatchedFolder (demo_scan_model demo_known demo_folder) ∅ ∅ 0 0 0) 0) 3 true
    [mkPathBuf true [$"d"; $"gone"]].

Lemma watcher_processes_dirty_witness :
  wf_dirty_deletes (wl_folder demo_watch) = {[ $"gone" ]} /\
  clean (wl_folder (watch_timer demo_all elements demo_watch 8 9)).
Proof.
  split; [vm_compute; reflexivity|].
  refine (proj2 (proj2 (watcher_processes_dirty demo_all (mkPathBuf true [$"d"]) elements 3 demo_watch _) 8 9 8 _ _)).
  - eapply reach_event; [apply reach_start; split; reflexivity|lia].
  - reflexivity.
  - lia.
Defined.

Lemma scan_announces_stored_witness :
  exists changed m', fm_scan demo_all 9 (demo_scan_model demo_known demo_folder) = (Ok changed, m') /\
    fst_status (fm_state m') = FolderIdle.
Proof.
  destruct (scan_announces_stored demo_all 9 (demo_scan_model demo_known demo_folder) demo_found)
    as (changed & m' & E & Hs & _).
  - reflexivity.
  - exact demo_known_scannable.
  - exact demo_consistent.
  - exists changed, m'. split; [exact E|exact Hs].
Defined.

Lemma override_not_announced_witness :
  exists m', override_local_changes (fun _ => demo_all) 9 (demo_scan_model demo_known demo_receive_only) = (Ok tt, m').
Proof.
  destruct (override_not_announced (fun _ => demo_all) 9 (demo_scan_model demo_known demo_receive_only) demo_found)
    as (changed & m' & E & _).
  - reflexivity.
  - reflexivity.
  - scannable_by ltac:(apply md_update_file_inv, md_update_file_inv, md_inv_new).
  - destruct demo_consistent as [Hn Ht]. split; [exact Hn|exact Ht].
  - exists m'. exact E.
Defined.

(** The scanner sees an empty folder once the only file is gone. *)
Definition demo_empty_env (d : Disk) : ScanEnv :=
  mkScanEnv (fun p => if decide (p = $"/r") then Some (EDir (1, 0) true []) else None)
    (fun _ _ => 1%nat) (fun bytes => bytes) (fun _ => None) (fun _ => []) 1.

Definition demo_revert_model : FolderModel MemoryDatabase :=
  mkFolderModel (mkFolder ($"f") ($"/r") None ReceiveOnly false 3600 [] [] None) (folder_state_new ($"f")) []
    (pull_world [demo_file ($"a.bin") vector_new 3]).

Lemma revert_forgets_file_witness :
  exists m', revert_local_changes demo_empty_env (pull_env None) 9 demo_revert_model = (Ok tt, m') /\
    w_disk (fm_world m') ($"/r/a.bin") = None /\ db_files (w_db (fm_world m')) ($"f") = ∅.
Proof.
  destruct (revert_forgets_file demo_empty_env (pull_env None) 9 demo_revert_model (demo_file ($"a.bin") vector_new 3) ($"old"))
    as (m' & E & Hd & Hf & _).
  - apply pull_world_inv.
  - vm_compute. reflexivity.
  - vm_compute. split; [discriminate|reflexivity].
  - reflexivity.
  - vm_compute. discriminate.
  - reflexivity.
  - intros d _. exists (1, 0). reflexivity.
  - reflexivity.
  - reflexivity.
  - reflexivity.
  - exists m'. split; [exact E|]. split; [exact Hd|exact Hf].
Defined.
