(* ===== verification/Net.v ===== *)
(** * Internet addresses

    The part of [std::net] the network code uses: [IpAddr] and [SocketAddr],
    the parsers behind [str::parse] and the classification methods. *)

From S2P Require Import Prelude.

Inductive IpAddr :=
| V4 (octets : list Z)
| V6 (segments : list Z).

#[global] Instance IpAddr_eq_dec : EqDecision IpAddr.
Proof. solve_decision. Defined.

Record SocketAddr := mkSocketAddr { sa_ip : IpAddr; sa_port : Z }.

#[global] Instance SocketAddr_eq_dec : EqDecision SocketAddr.
Proof. solve_decision. Defined.

#[global] Instance IpAddr_countable : Countable IpAddr.
Proof.
  refine (inj_countable' (fun ip => match ip with V4 os => (true, os) | V6 ss => (false, ss) end)
            (fun p : bool * list Z => if p.1 then V4 p.2 else V6 p.2) _). by intros [].
Defined.

#[global] Instance SocketAddr_countable : Countable SocketAddr.
Proof.
  refine (inj_countable' (fun a => (sa_ip a, sa_port a)) (fun p => mkSocketAddr p.1 p.2) _). by intros [].
Defined.

Definition ip_ok (ip : IpAddr) : Prop :=
  match ip with
  | V4 os => length os = 4%nat /\ Forall (in_u 8) os
  | V6 ss => length ss = 8%nat /\ Forall (in_u 16) ss
  end.

(** ** Parsing

    A parser consumes characters from the front; [read_atomically] of the
    library is the [None] that leaves the caller's input as it was. *)
Definition PReader (A : Type) : Type := str -> option (A * str).

Definition read_given_char (c : ascii) : PReader unit := fun s =>
  match s with
  | x :: s' => if decide (x = c) then Some (tt, s') else None
  | [] => None
  end.

Definition to_digit (radix : Z) (c : ascii) : option Z :=
  let n := Z.of_nat (nat_of_ascii c) in
  let d := if (48 <=? n) && (n <=? 57) then n - 48
           else if (97 <=? n) && (n <=? 122) then n - 87
           else if (65 <=? n) && (n <=? 90) then n - 55
           else 36 in
  if d <? radix then Some d else None.

(** The digits at the front with their value, and the rest. *)
Fixpoint read_digits (radix : Z) (acc : Z) (count : nat) (s : str) : Z * nat * str :=
  match s with
  | c :: s' =>
      match to_digit radix c with
      | Some d => read_digits radix (acc * radix + d) (S count) s'
      | None => (acc, count, s)
      end
  | [] => (acc, count, s)
  end.

(** [read_number::<T>(radix, max_digits, allow_zero_prefix)], [bits] the width
    of [T]. *)
Definition read_number (bits radix : Z) (max_digits : option nat) (allow_zero_prefix : bool)
    : PReader Z := fun s =>
  let '(v, count, rest) := read_digits radix 0 0 s in
  if match max_digits with Some m => (m <? count)%nat | None => false end then None
  else if (count =? 0)%nat then None
  else if negb allow_zero_prefix && bool_decide (head s = Some "0"%char) && (1 <? count)%nat then None
  else if v <? 2 ^ bits then Some (v, rest) else None.

(** [read_separator(sep, index, inner)]: the separator before every item but
    the first. *)
Definition read_separator {A : Type} (sep : ascii) (index : nat) (inner : PReader A) : PReader A :=
  fun s => match index with
           | O => inner s
           | S _ => match read_given_char sep s with
                    | Some (_, s') => inner s'
                    | None => None
                    end
           end.

Definition read_ipv4_addr : PReader (list Z) := fun s =>
  let octet := read_number 8 10 (Some 3%nat) false in
  let+ (a, s1) := read_separator "."%char 0 octet s in
  let+ (b, s2) := read_separator "."%char 1 octet s1 in
  let+ (c, s3) := read_separator "."%char 2 octet s2 in
  let+ (d, s4) := read_separator "."%char 3 octet s3 in
  Some ([a; b; c; d], s4).

(** [read_groups(p, groups)]: the groups read from index [i] on, whether they
    end with an embedded IPv4 address, and the rest; [n] groups are left. *)
Fixpoint read_groups (i n : nat) (s : str) : list Z * bool * str :=
  match n with
  | O => ([], false, s)
  | S n' =>
      match (if (1 <? n)%nat then read_separator ":"%char i read_ipv4_addr s else None) with
      | Some ([a; b; c; d], s') => ([a * 256 + b; c * 256 + d], true, s')
      | _ =>
          match read_separator ":"%char i (read_number 16 16 (Some 4%nat) true) s with
          | Some (g, s') =>
              let '(gs, v4, s'') := read_groups (S i) n' s' in (g :: gs, v4, s'')
          | None => ([], false, s)
          end
      end
  end.

Definition read_ipv6_addr : PReader (list Z) := fun s =>
  let '(head, head_ipv4, s1) := read_groups 0 8 s in
  if (length head =? 8)%nat then Some (head, s1)
  else if head_ipv4 then None
  else
    let+ (_, s2) := read_given_char ":"%char s1 in
    let+ (_, s3) := read_given_char ":"%char s2 in
    let '(tail, _, s4) := read_groups 0 (8 - (length head + 1)) s3 in
    Some (head ++ replicate (8 - length head - length tail) 0 ++ tail, s4).

Definition read_ip_addr : PReader IpAddr := fun s =>
  match read_ipv4_addr s with
  | Some (os, s') => Some (V4 os, s')
  | None => match read_ipv6_addr s with
            | Some (ss, s') => Some (V6 ss, s')
            | None => None
            end
  end.

Definition read_port : PReader Z := fun s =>
  let+ (_, s') := read_given_char ":"%char s in read_number 16 10 None true s'.

Definition read_scope_id : PReader Z := fun s =>
  let+ (_, s') := read_given_char "%"%char s in read_number 32 10 None true s'.

Definition read_socket_addr : PReader SocketAddr := fun s =>
  match (let+ (os, s1) := read_ipv4_addr s in
         let+ (p, s2) := read_port s1 in Some (mkSocketAddr (V4 os) p, s2)) with
  | Some r => Some r
  | None =>
      let+ (_, s1) := read_given_char "["%char s in
      let+ (ss, s2) := read_ipv6_addr s1 in
      let s3 := match read_scope_id s2 with Some (_, s') => s' | None => s2 end in
      let+ (_, s4) := read_given_char "]"%char s3 in
      let+ (p, s5) := read_port s4 in
      Some (mkSocketAddr (V6 ss) p, s5)
  end.

(** [parse_with]: the whole input has to be used. *)
Definition parse_with {A : Type} (p : PReader A) (s : str) : option A :=
  match p s with
  | Some (a, []) => Some a
  | _ => None
  end.

Definition parse_ip (s : str) : option IpAddr := parse_with read_ip_addr s.
Definition parse_socket_addr (s : str) : option SocketAddr := parse_with read_socket_addr s.

(** ** Classification *)

Definition v4_loopback (os : list Z) : bool := bool_decide (os !! 0%nat = Some 127).

Definition v4_multicast (os : list Z) : bool :=
  match os with o :: _ => (224 <=? o) && (o <=? 239) | [] => false end.

Definition v4_link_local (os : list Z) : bool :=
  match os with a :: b :: _ => (a =? 169) && (b =? 254) | _ => false end.

Definition v4_private (os : list Z) : bool :=
  match os with
  | a :: b :: _ => (a =? 10) || ((a =? 172) && (16 <=? b) && (b <=? 31)) || ((a =? 192) && (b =? 168))
  | _ => false
  end.

Definition is_loopback (ip : IpAddr) : bool :=
  match ip with
  | V4 os => v4_loopback os
  | V6 ss => bool_decide (ss = [0; 0; 0; 0; 0; 0; 0; 1])
  end.

Definition is_multicast (ip : IpAddr) : bool :=
  match ip with
  | V4 os => v4_multicast os
  | V6 ss => match ss with s :: _ => s / 256 =? 255 | [] => false end
  end.

Definition is_unspecified (ip : IpAddr) : bool :=
  match ip with
  | V4 os => bool_decide (os = [0; 0; 0; 0])
  | V6 ss => bool_decide (ss = replicate 8 0)
  end.

(** [Ipv4Addr::to_ipv6_mapped]: the IPv6 address under which a dual-stack
    socket reaches the IPv4 address. *)
Definition to_ipv6_mapped (os : list Z) : list Z :=
  match os with
  | [a; b; c; d] => [0; 0; 0; 0; 0; 65535; a * 256 + b; c * 256 + d]
  | _ => []
  end.

Example parse_v4 : parse_ip ($"192.168.1.1") = Some (V4 [192; 168; 1; 1]).
Proof. reflexivity. Qed.
Example parse_v4_octal : parse_ip ($"192.168.01.1") = None.
Proof. reflexivity. Qed.
Example parse_v6 : parse_ip ($"fe80::1:ff") = Some (V6 [65152; 0; 0; 0; 0; 0; 1; 255]).
Proof. reflexivity. Qed.
Example parse_socket_v6 :
  parse_socket_addr ($"[::1%3]:8384") = Some (mkSocketAddr (V6 [0; 0; 0; 0; 0; 0; 0; 1]) 8384).
Proof. reflexivity. Qed.

(** ** Lemmas *)

Lemma read_digits_nonneg radix acc count s v n rest :
  0 < radix -> 0 <= acc -> read_digits radix acc count s = (v, n, rest) -> 0 <= v.
Proof.
  intros Hr. revert acc count. induction s as [|c s IH]; intros acc count Ha; simpl.
  - by intros [= <- <- <-].
  - unfold to_digit. destruct (_ <? radix) eqn:E; [|by intros [= <- <- <-]].
    intros HD. eapply IH; [|exact HD].
    enough (0 <= (if (48 <=? Z.of_nat (nat_of_ascii c)) && (Z.of_nat (nat_of_ascii c) <=? 57)
      then Z.of_nat (nat_of_ascii c) - 48
      else if (97 <=? Z.of_nat (nat_of_ascii c)) && (Z.of_nat (nat_of_ascii c) <=? 122)
      then Z.of_nat (nat_of_ascii c) - 87
      else if (65 <=? Z.of_nat (nat_of_ascii c)) && (Z.of_nat (nat_of_ascii c) <=? 90)
      then Z.of_nat (nat_of_ascii c) - 55 else 36)) by nia.
    repeat case_match; reflect_bools; lia.
Qed.

Lemma read_number_range bits radix m z s v rest :
  0 < radix -> read_number bits radix m z s = Some (v, rest) -> in_u bits v.
Proof.
  intros Hr. unfold read_number. destruct (read_digits radix 0 0 s) as [[v' n] rest'] eqn:E.
  apply read_digits_nonneg in E; [|done..].
  do 3 (destruct (_ : bool); [done|]). destruct (Z.ltb_spec v' (2 ^ bits)); [|done].
  intros [= -> ->]. done.
Qed.
