(* ===== verification/Relay.v ===== *)
(** * The relay protocol ([crates/syncthing-net/src/relay])

    The XDR messages ([protocol/mod.rs]), reading and writing them on a stream
    ([protocol/io.rs]), the client's exchanges ([client.rs]), relay URLs and
    session addresses ([dial.rs]) and the choice of relays ([pool.rs]). *)

From S2P Require Import Prelude Core DeviceIds Connection Bep Wire Net.

(** ** Messages *)

Definition RELAY_MAGIC : Z := 0x9E79BC40.

Inductive RelayMessageType :=
| RtPing | RtPong | RtJoinRelayRequest | RtJoinSessionRequest
| RtResponse | RtConnectRequest | RtSessionInvitation | RtRelayFull.

#[global] Instance RelayMessageType_eq_dec : EqDecision RelayMessageType.
Proof. solve_decision. Defined.

(** [self as i32]: the discriminants of the enum. *)
Definition relay_type_code (t : RelayMessageType) : Z :=
  match t with
  | RtPing => 0
  | RtPong => 1
  | RtJoinRelayRequest => 2
  | RtJoinSessionRequest => 3
  | RtResponse => 4
  | RtConnectRequest => 5
  | RtSessionInvitation => 6
  | RtRelayFull => 7
  end.

Definition relay_type_from_i32 (v : Z) : option RelayMessageType :=
  match v with
  | 0 => Some RtPing
  | 1 => Some RtPong
  | 2 => Some RtJoinRelayRequest
  | 3 => Some RtJoinSessionRequest
  | 4 => Some RtResponse
  | 5 => Some RtConnectRequest
  | 6 => Some RtSessionInvitation
  | 7 => Some RtRelayFull
  | _ => None
  end.

Record RelayHeader := mkRelayHeader {
  rh_magic : Z;
  rh_type : RelayMessageType;
  rh_length : Z;
}.

Definition RELAY_HEADER_SIZE : nat := 12.

Definition relay_header_encode (h : RelayHeader) : list Z :=
  put_u32 (rh_magic h) ++ put_i32 (relay_type_code (rh_type h)) ++ put_i32 (rh_length h).

Definition relay_header_decode : Reader RelayHeader := fun buf =>
  if (length buf <? RELAY_HEADER_SIZE)%nat then None
  else
    (let< magic := get_u32 in
     let< msg_type := get_i32 in
     let< msg_len := get_i32 in
     match relay_type_from_i32 msg_type with
     | Some mt => r_ret (mkRelayHeader magic mt msg_len)
     | None => r_fail
     end) buf.

Record JoinSessionRequest := mkJoinSessionRequest { jsr_key : list Z }.

Record RelayResponse := mkRelayResponse { rr_code : Z; rr_message : str }.

Record ConnectRequest := mkConnectRequest { cr_id : list Z }.

Record SessionInvitation := mkSessionInvitation {
  si_from : list Z;
  si_key : list Z;
  si_address : list Z;
  si_port : Z;
  si_server_socket : bool;
}.

Inductive RelayMessage :=
| RmPing
| RmPong
| RmJoinRelayRequest
| RmJoinSessionRequest (m : JoinSessionRequest)
| RmResponse (m : RelayResponse)
| RmConnectRequest (m : ConnectRequest)
| RmSessionInvitation (m : SessionInvitation)
| RmRelayFull.

Definition response_success : RelayResponse := mkRelayResponse 0 ($"success").
Definition response_not_found : RelayResponse := mkRelayResponse 1 ($"not found").
Definition response_already_connected : RelayResponse := mkRelayResponse 2 ($"already connected").

(** ** Opaque data *)

Definition padded_len (len : nat) : nat :=
  let rem := (len mod 4)%nat in
  if (rem =? 0)%nat then len else (len + (4 - rem))%nat.

Definition encode_opaque (data : list Z) : list Z :=
  put_u32 (wrap 32 (Z.of_nat (length data))) ++ data ++
  let pad := ((4 - length data mod 4) mod 4)%nat in
  if (0 <? pad)%nat then replicate pad 0 else [].

Definition decode_opaque : Reader (list Z) :=
  let< len := get_u32 in
  let len := Z.to_nat len in
  let padded := padded_len len in
  fun buf =>
    if (length buf <? padded)%nat then None
    else
      (let< data := get_bytes len in
       if (len <? padded)%nat then let< _ := get_bytes (padded - len) in r_ret data
       else r_ret data) buf.

Definition encode_string (s : str) : list Z := encode_opaque (bytes_of_str s).

Definition decode_string : Reader str :=
  let< bytes := decode_opaque in
  if utf8_valid (str_of_bytes bytes) then r_ret (str_of_bytes bytes) else r_fail.

(** ** Encoding *)

(** A message without body: [Ping], [Pong], [JoinRelayRequest], [RelayFull]. *)
Definition encode_empty (t : RelayMessageType) : list Z :=
  relay_header_encode (mkRelayHeader RELAY_MAGIC t 0).

Definition encode_header_of (t : RelayMessageType) (payload_len : nat) : list Z :=
  relay_header_encode (mkRelayHeader RELAY_MAGIC t (to_signed 32 (Z.of_nat payload_len))).

Definition join_session_request_encode (m : JoinSessionRequest) : list Z :=
  let payload_len := (4 + padded_len (length (jsr_key m)))%nat in
  encode_header_of RtJoinSessionRequest payload_len ++ encode_opaque (jsr_key m).

Definition response_encode (m : RelayResponse) : list Z :=
  let payload_len := (4 + 4 + padded_len (length (bytes_of_str (rr_message m))))%nat in
  encode_header_of RtResponse payload_len ++ put_i32 (rr_code m) ++ encode_string (rr_message m).

Definition connect_request_encode (m : ConnectRequest) : list Z :=
  let payload_len := (4 + padded_len (length (cr_id m)))%nat in
  encode_header_of RtConnectRequest payload_len ++ encode_opaque (cr_id m).

Definition session_invitation_encode (m : SessionInvitation) : list Z :=
  let payload_len := (4 + padded_len (length (si_from m)) + 4 + padded_len (length (si_key m))
                      + 4 + padded_len (length (si_address m)) + 4 + 4)%nat in
  encode_header_of RtSessionInvitation payload_len ++
  encode_opaque (si_from m) ++ encode_opaque (si_key m) ++ encode_opaque (si_address m) ++
  put_u32 (si_port m) ++ put_u32 (if si_server_socket m then 1 else 0).

Definition relay_message_encode (m : RelayMessage) : list Z :=
  match m with
  | RmPing => encode_empty RtPing
  | RmPong => encode_empty RtPong
  | RmJoinRelayRequest => encode_empty RtJoinRelayRequest
  | RmJoinSessionRequest m => join_session_request_encode m
  | RmResponse m => response_encode m
  | RmConnectRequest m => connect_request_encode m
  | RmSessionInvitation m => session_invitation_encode m
  | RmRelayFull => encode_empty RtRelayFull
  end.

(** ** Decoding of bodies *)

Definition join_session_request_decode : Reader JoinSessionRequest :=
  let< key := decode_opaque in r_ret (mkJoinSessionRequest key).

Definition response_decode : Reader RelayResponse :=
  let< code := get_i32 in
  let< message := decode_string in
  r_ret (mkRelayResponse code message).

Definition connect_request_decode : Reader ConnectRequest :=
  let< id := decode_opaque in r_ret (mkConnectRequest id).

Definition session_invitation_decode : Reader SessionInvitation :=
  let< from := decode_opaque in
  let< key := decode_opaque in
  let< address := decode_opaque in
  fun body =>
    if (length body <? 8)%nat then None
    else
      (let< port := get_u32 in
       let< server_socket := get_u32 in
       r_ret (mkSessionInvitation from key address port (negb (server_socket =? 0)))) body.

(** ** Streams ([io.rs]) *)

Inductive RelayError :=
| ReReadHeader
| ReInvalidHeader
| ReBadMagic (magic : Z)
| ReTooLarge (len : Z)
| ReReadBody
| ReBadBody (t : RelayMessageType)
| ReWrite.

(** The bytes still to come from the other end. *)
Definition relay_read_exact (n : nat) (e : RelayError) : SE (list Z) RelayError (list Z) := fun inb =>
  match get_bytes n inb with
  | Some (bs, rest) => (Ok bs, rest)
  | None => (Err e, [])
  end.

Definition MAX_RELAY_BODY : Z := 1024 * 1024.

(** The value of a body decoder; bytes of the body it leaves are dropped. *)
Definition body_as {A : Type} (r : Reader A) (t : RelayMessageType) (body : list Z)
    : result RelayError A :=
  ok_or (fst <$> r body) (ReBadBody t).

Definition decode_body (t : RelayMessageType) (body : list Z) : result RelayError RelayMessage :=
  match t with
  | RtPing => Ok RmPing
  | RtPong => Ok RmPong
  | RtJoinRelayRequest => Ok RmJoinRelayRequest
  | RtJoinSessionRequest => result_map RmJoinSessionRequest (body_as join_session_request_decode t body)
  | RtResponse => result_map RmResponse (body_as response_decode t body)
  | RtConnectRequest => result_map RmConnectRequest (body_as connect_request_decode t body)
  | RtSessionInvitation => result_map RmSessionInvitation (body_as session_invitation_decode t body)
  | RtRelayFull => Ok RmRelayFull
  end.

Definition read_message : SE (list Z) RelayError RelayMessage :=
  let! header_buf := relay_read_exact RELAY_HEADER_SIZE ReReadHeader in
  let! header := se_read (fun _ => ok_or (fst <$> relay_header_decode header_buf) ReInvalidHeader) in
  if negb (rh_magic header =? RELAY_MAGIC) then se_throw (ReBadMagic (rh_magic header))
  else
    let body_len := wrap 64 (rh_length header) in
    if MAX_RELAY_BODY <? body_len then se_throw (ReTooLarge body_len)
    else
      let! body := (if 0 <? body_len then relay_read_exact (Z.to_nat body_len) ReReadBody
                    else se_ret []) in
      se_read (fun _ => decode_body (rh_type header) body).

(** ** Codec laws *)

Lemma padded_len_pad len : padded_len len = (len + (4 - len mod 4) mod 4)%nat.
Proof.
  unfold padded_len. pose proof (Nat.mod_upper_bound len 4 ltac:(lia)).
  destruct (Nat.eqb_spec (len mod 4) 0) as [E|E]; [rewrite E; simpl; lia|].
  rewrite (Nat.mod_small (4 - len mod 4)) by lia. done.
Qed.

(** The bytes [encode_opaque] appends after the data. *)
Definition padding (len : nat) : list Z := replicate ((4 - len mod 4) mod 4) 0.

Lemma encode_opaque_eq data :
  encode_opaque data = put_u32 (wrap 32 (Z.of_nat (length data))) ++ data ++ padding (length data).
Proof.
  unfold encode_opaque, padding.
  by destruct ((4 - length data mod 4) mod 4)%nat.
Qed.

Lemma length_encode_opaque data : length (encode_opaque data) = (4 + padded_len (length data))%nat.
Proof.
  rewrite encode_opaque_eq, padded_len_pad. unfold padding. autorewrite with wire. lia.
Qed.

Definition opaque_ok (data : list Z) : Prop :=
  Forall is_byte data /\ in_u 32 (Z.of_nat (length data)).

Lemma decode_encode_opaque data rest :
  opaque_ok data -> decode_opaque (encode_opaque data ++ rest) = Some (data, rest).
Proof.
  intros [_ Hl]. rewrite encode_opaque_eq, wrap_id by done. rewrite <-!(assoc_L (++)).
  unfold decode_opaque. rewrite (r_bind_run _ _ _ _ _ (get_u32_put _ _ Hl)), Nat2Z.id.
  pose proof (padded_len_pad (length data)) as Hp.
  assert (length (padding (length data)) = (padded_len (length data) - length data)%nat) as Hpl
    by (unfold padding; rewrite length_replicate; lia).
  rewrite !length_app, (proj2 (Nat.ltb_ge _ _)) by lia.
  rewrite (r_bind_run _ _ _ _ _ (get_bytes_app _ data _ eq_refl)).
  destruct (Nat.ltb_spec (length data) (padded_len (length data))).
  - by rewrite (r_bind_run _ _ _ _ _ (get_bytes_app _ _ rest Hpl)).
  - assert (padding (length data) = []) as -> by (apply nil_length_inv; lia). done.
Qed.

Lemma encode_opaque_bytes data : Forall is_byte data -> Forall is_byte (encode_opaque data).
Proof.
  intros Hd. rewrite encode_opaque_eq. repeat apply Forall_app_2; [apply be_split_bytes|done|].
  apply Forall_replicate. unfold in_u. lia.
Qed.

#[export] Instance opaque_codec : Codec (list Z) :=
  {| enc := encode_opaque; dec := decode_opaque; representable := opaque_ok |}.

#[export] Instance opaque_laws : CodecLaws (list Z).
Proof.
  split; [apply decode_encode_opaque|]. intros a [Ha _]. by apply encode_opaque_bytes.
Qed.

#[export] Instance string_codec : Codec str :=
  {| enc := encode_string; dec := decode_string;
     representable := fun s => utf8_valid s = true /\ in_u 32 (Z.of_nat (length s)) |}.

#[export] Instance string_laws : CodecLaws str.
Proof.
  split; intros s; cbn [enc dec representable string_codec].
  - intros rest [Hu Hl]. unfold decode_string, encode_string.
    rewrite (r_bind_run _ _ _ (bytes_of_str s) rest).
    + by rewrite str_of_bytes_of_str, Hu.
    + apply decode_encode_opaque. split; [apply bytes_of_str_bytes|]. by rewrite length_bytes_of_str.
  - intros _. apply encode_opaque_bytes, bytes_of_str_bytes.
Qed.

#[export] Instance join_session_request_codec : Codec JoinSessionRequest :=
  {| enc := fun m => enc (jsr_key m); dec := join_session_request_decode;
     representable := fun m => representable (jsr_key m) |}.

#[export] Instance connect_request_codec : Codec ConnectRequest :=
  {| enc := fun m => enc (cr_id m); dec := connect_request_decode;
     representable := fun m => representable (cr_id m) |}.

#[export] Instance response_codec : Codec RelayResponse :=
  {| enc := fun m => put_i32 (rr_code m) ++ enc (rr_message m); dec := response_decode;
     representable := fun m => in_i 32 (rr_code m) /\ representable (rr_message m) |}.

#[export] Instance session_invitation_codec : Codec SessionInvitation :=
  {| enc := fun m => enc (si_from m) ++ enc (si_key m) ++ enc (si_address m) ++
       put_u32 (si_port m) ++ put_u32 (if si_server_socket m then 1 else 0);
     dec := session_invitation_decode;
     representable := fun m => representable (si_from m) /\ representable (si_key m) /\
       representable (si_address m) /\ in_u 32 (si_port m) |}.

(** Runs the next reader of a chain on the encoding at the front of the buffer. *)
Ltac read_next law := rewrite <-?(assoc_L (++)); erewrite r_bind_run by (apply law; done).

#[export] Instance join_session_request_laws : CodecLaws JoinSessionRequest.
Proof.
  split; cbn [enc dec representable join_session_request_codec]; [|intros [k]; apply (enc_bytes k)]. intros [k] rest Hk.
  unfold join_session_request_decode. by read_next (dec_enc (A := list Z)).
Qed.

#[export] Instance connect_request_laws : CodecLaws ConnectRequest.
Proof.
  split; cbn [enc dec representable connect_request_codec]; [|intros [k]; apply (enc_bytes k)]. intros [k] rest Hk.
  unfold connect_request_decode. by read_next (dec_enc (A := list Z)).
Qed.

#[export] Instance response_laws : CodecLaws RelayResponse.
Proof.
  split; cbn [enc dec representable response_codec].
  - intros [c s] rest [Hc Hs]. unfold response_decode. cbn [rr_code rr_message] in *.
    read_next get_i32_put. by read_next (dec_enc (A := str)).
  - intros [c s] [Hc Hs]. apply Forall_app_2; [apply be_split_bytes|by apply (enc_bytes s)].
Qed.

#[export] Instance session_invitation_laws : CodecLaws SessionInvitation.
Proof.
  split; cbn [enc dec representable session_invitation_codec].
  - intros [f k a p b] rest (Hf & Hk & Ha & Hp). unfold session_invitation_decode.
    cbn [si_from si_key si_address si_port si_server_socket] in *.
    do 3 read_next (dec_enc (A := list Z)). rewrite <-?(assoc_L (++)).
    rewrite (proj2 (Nat.ltb_ge _ _)) by (autorewrite with wire; lia).
    read_next get_u32_put.
    rewrite (r_bind_run _ _ _ (if b then 1 else 0) rest) by (apply get_u32_put; by destruct b).
    by destruct b.
  - intros [f k a p b] (Hf & Hk & Ha & Hp).
    rewrite !Forall_app. split_and!; first [by apply (enc_bytes (A := list Z)) | apply be_split_bytes].
Qed.

(** ** Whole messages *)

Definition message_type (m : RelayMessage) : RelayMessageType :=
  match m with
  | RmPing => RtPing
  | RmPong => RtPong
  | RmJoinRelayRequest => RtJoinRelayRequest
  | RmJoinSessionRequest _ => RtJoinSessionRequest
  | RmResponse _ => RtResponse
  | RmConnectRequest _ => RtConnectRequest
  | RmSessionInvitation _ => RtSessionInvitation
  | RmRelayFull => RtRelayFull
  end.

Definition message_body (m : RelayMessage) : list Z :=
  match m with
  | RmJoinSessionRequest m => enc m
  | RmResponse m => enc m
  | RmConnectRequest m => enc m
  | RmSessionInvitation m => enc m
  | _ => []
  end.

(** What the Rust types guarantee of a message, and that its body fits the
    limit of the reader. *)
Definition message_ok (m : RelayMessage) : Prop :=
  match m with
  | RmJoinSessionRequest m => representable m
  | RmResponse m => representable m
  | RmConnectRequest m => representable m
  | RmSessionInvitation m => representable m
  | _ => True
  end /\ Z.of_nat (length (message_body m)) <= MAX_RELAY_BODY.

Lemma encode_message_eq m :
  relay_message_encode m = encode_header_of (message_type m) (length (message_body m)) ++ message_body m.
Proof.
  destruct m as [ | | |m|m|m|m| ]; cbn [relay_message_encode message_type message_body enc
    join_session_request_codec response_codec connect_request_codec session_invitation_codec
    opaque_codec string_codec]; rewrite ?app_nil_r; try done;
    unfold join_session_request_encode, response_encode, connect_request_encode,
      session_invitation_encode, encode_string; do 2 f_equal;
    rewrite ?length_app, ?length_encode_opaque; autorewrite with wire; lia.
Qed.

Lemma relay_type_roundtrip t : relay_type_from_i32 (relay_type_code t) = Some t.
Proof. by destruct t. Qed.

Lemma decode_header t len rest :
  in_i 32 len ->
  relay_header_decode (relay_header_encode (mkRelayHeader RELAY_MAGIC t len) ++ rest) =
  Some (mkRelayHeader RELAY_MAGIC t len, rest).
Proof.
  intros Hl. unfold relay_header_decode, relay_header_encode. cbn [rh_magic rh_type rh_length].
  rewrite (proj2 (Nat.ltb_ge _ _)) by (autorewrite with wire; unfold RELAY_HEADER_SIZE; lia).
  read_next get_u32_put. rewrite <-?(assoc_L (++)).
  rewrite (r_bind_run _ _ _ (relay_type_code t) _) by (apply get_i32_put; by destruct t).
  read_next get_i32_put. by rewrite relay_type_roundtrip.
Qed.

Lemma length_header h : length (relay_header_encode h) = RELAY_HEADER_SIZE.
Proof. unfold relay_header_encode. by autorewrite with wire. Qed.

Lemma decode_body_message m : message_ok m -> decode_body (message_type m) (message_body m) = Ok m.
Proof.
  intros [Hm _].
  destruct m as [ | | |m|m|m|m| ]; try done; cbn [message_type message_body decode_body] in *;
    unfold body_as; pose proof (dec_enc m [] Hm) as D; rewrite app_nil_r in D;
    change (dec (enc m)) with (join_session_request_decode (enc m)) in D ||
    change (dec (enc m)) with (response_decode (enc m)) in D ||
    change (dec (enc m)) with (connect_request_decode (enc m)) in D ||
    change (dec (enc m)) with (session_invitation_decode (enc m)) in D; by rewrite D.
Qed.

Lemma in_i32_small z : 0 <= z <= MAX_RELAY_BODY -> in_i 32 z.
Proof. unfold in_i, MAX_RELAY_BODY. lia. Qed.

Lemma read_encoded m rest :
  message_ok m -> read_message (relay_message_encode m ++ rest) = (Ok m, rest).
Proof.
  intros Hm. pose proof (decode_body_message m Hm) as Hb. destruct Hm as [_ Hl].
  rewrite encode_message_eq. unfold encode_header_of.
  rewrite to_signed_id by (lia || (apply in_i32_small; lia)).
  rewrite <-(assoc_L (++)). unfold read_message, relay_read_exact.
  erewrite se_bind_run by (rewrite get_bytes_app by apply length_header; done).
  erewrite se_bind_run by (unfold se_read;
    rewrite <-(app_nil_r (relay_header_encode _)), decode_header by (apply in_i32_small; lia); done).
  cbn [fst rh_magic rh_type rh_length]. rewrite Z.eqb_refl. cbn [negb].
  assert (in_u 64 (Z.of_nat (length (message_body m)))) as H64
    by (unfold in_u; unfold MAX_RELAY_BODY in Hl; lia).
  rewrite (wrap_id _ _ H64).
  rewrite (proj2 (Z.ltb_ge _ _)) by done.
  destruct (Z.ltb_spec 0 (Z.of_nat (length (message_body m)))) as [Hlt|Hge].
  - rewrite Nat2Z.id. erewrite se_bind_run by (by rewrite get_bytes_app). unfold se_read. by rewrite Hb.
  - assert (message_body m = []) as E by (apply nil_length_inv; lia). rewrite E in *.
    unfold se_bind, se_ret, se_read. simpl. by rewrite Hb.
Qed.

Lemma encode_message_bytes m : message_ok m -> Forall is_byte (relay_message_encode m).
Proof.
  intros [Hm _]. rewrite encode_message_eq. apply Forall_app. split.
  - unfold encode_header_of, relay_header_encode. rewrite !Forall_app.
    split_and!; apply be_split_bytes.
  - destruct m as [ | | |m|m|m|m| ]; cbn [message_body] in *; try apply Forall_nil_2;
      by apply (enc_bytes m).
Qed.

#[export] Instance relay_message_codec : Codec RelayMessage :=
  {| enc := relay_message_encode;
     dec := fun inb => match read_message inb with (Ok m, rest) => Some (m, rest) | _ => None end;
     representable := message_ok |}.

#[export] Instance relay_message_laws : CodecLaws RelayMessage.
Proof.
  split; cbn [enc dec representable relay_message_codec].
  - intros m rest Hm. by rewrite read_encoded.
  - apply encode_message_bytes.
Qed.

(** ** The client ([client.rs])

    A protocol or session stream: the bytes to come and the bytes written. *)
Record Stream := mkStream { st_in : list Z; st_out : list Z }.

Inductive ClientError :=
| CeRelay (e : RelayError)
| CeTimeout
| CeRejected (code : Z)
| CeRelayFull
| CePeerNotFound
| CeKeyNotFound
| CeSessionFull
| CeUnexpected (m : RelayMessage)
| CeConfig
| CeAddress
| CeSsrf
| CeConnect
| CeUnfinished.

(** What the network does: whether a write succeeds after [n] bytes have been
    written, and whether the next message arrives in time when [n] bytes are
    still to come. *)
Record RelayEnv := mkRelayEnv { re_write : nat -> bool; re_timely : nat -> bool }.

Section Client.
Context (env : RelayEnv).

Definition write_message (m : RelayMessage) : SE Stream ClientError unit := fun st =>
  if re_write env (length (st_out st)) then
    (Ok tt, mkStream (st_in st) (st_out st ++ relay_message_encode m))
  else (Err (CeRelay ReWrite), st).

Definition client_read : SE Stream ClientError RelayMessage := fun st =>
  match read_message (st_in st) with
  | (Ok m, rest) => (Ok m, mkStream rest (st_out st))
  | (Err e, rest) => (Err (CeRelay e), mkStream rest (st_out st))
  end.

(** [timeout(.., read_message(..))] *)
Definition client_read_timely : SE Stream ClientError RelayMessage := fun st =>
  if re_timely env (length (st_in st)) then client_read st else (Err CeTimeout, st).

Definition join_relay : SE Stream ClientError unit :=
  do! write_message RmJoinRelayRequest in
  let! m := client_read_timely in
  match m with
  | RmResponse resp =>
      if rr_code resp =? 0 then se_ret tt
      else if rr_code resp =? 2 then se_ret tt
      else se_throw (CeRejected (rr_code resp))
  | RmRelayFull => se_throw CeRelayFull
  | other => se_throw (CeUnexpected other)
  end.

Definition request_session (target : DeviceId) : SE Stream ClientError SessionInvitation :=
  do! write_message (RmConnectRequest (mkConnectRequest (device_id_bytes target))) in
  let! m := client_read_timely in
  match m with
  | RmSessionInvitation inv => se_ret inv
  | RmResponse resp =>
      if rr_code resp =? 1 then se_throw CePeerNotFound else se_throw (CeRejected (rr_code resp))
  | RmRelayFull => se_throw CeRelayFull
  | other => se_throw (CeUnexpected other)
  end.

(** Every round of the loop reads a message of at least a header. *)
Fixpoint wait_loop (fuel : nat) : SE Stream ClientError SessionInvitation :=
  match fuel with
  | O => se_throw CeUnfinished
  | S fuel' =>
      let! m := client_read in
      match m with
      | RmSessionInvitation inv => se_ret inv
      | RmPing => do! write_message RmPong in wait_loop fuel'
      | other => se_throw (CeUnexpected other)
      end
  end.

Definition wait_invitation : SE Stream ClientError SessionInvitation := fun st =>
  wait_loop (S (length (st_in st))) st.

Definition ping : SE Stream ClientError unit :=
  do! write_message RmPing in
  let! m := client_read_timely in
  match m with
  | RmPong => se_ret tt
  | other => se_throw (CeUnexpected other)
  end.

(** [join_session]: [stream] is what [TcpStream::connect] gave. *)
Definition join_session (connected : option Stream) (key : list Z) : result ClientError unit * option Stream :=
  match connected with
  | None => (Err CeConnect, None)
  | Some st =>
      let '(r, st') :=
        (do! write_message (RmJoinSessionRequest (mkJoinSessionRequest key)) in
         let! m := client_read_timely in
         match m with
         | RmResponse resp =>
             if rr_code resp =? 0 then se_ret tt
             else if rr_code resp =? 1 then se_throw CeKeyNotFound
             else if rr_code resp =? 2 then se_throw CeSessionFull
             else se_throw (CeRejected (rr_code resp))
         | RmRelayFull => se_throw CeRelayFull
         | other => se_throw (CeUnexpected other)
         end) st in
      (r, Some st')
  end.
End Client.

(** ** Addresses ([dial.rs]) *)

(** [s.split_once(p)] for a substring [p]. *)
Fixpoint split_once {A : Type} `{EqDecision A} (p s : list A) : option (list A * list A) :=
  match strip_prefix p s with
  | Some r => Some ([], r)
  | None => match s with
            | [] => None
            | x :: s' => match split_once p s' with
                         | Some (a, b) => Some (x :: a, b)
                         | None => None
                         end
            end
  end.

Definition default_device_id : DeviceId := mkDeviceId (replicate 32 0).

(** The scalar values of a string, which [DeviceId::from_str] walks. *)
Definition utf8_char (n : nat) (s : str) : Z :=
  match n, bytes_of_str s with
  | 1%nat, a :: _ => a
  | 2%nat, a :: b :: _ => (a mod 32) * 64 + b mod 64
  | 3%nat, a :: b :: c :: _ => (a mod 16) * 4096 + (b mod 64) * 64 + c mod 64
  | 4%nat, a :: b :: c :: d :: _ =>
      (a mod 8) * 262144 + (b mod 64) * 4096 + (c mod 64) * 64 + d mod 64
  | _, _ => 65533
  end.

Fixpoint chars_fuel (fuel : nat) (s : str) : list Z :=
  match fuel, s with
  | O, _ | _, [] => []
  | S fuel', _ =>
      match utf8_head s with
      | inl n => utf8_char n s :: chars_fuel fuel' (drop n s)
      | inr n => 65533 :: chars_fuel fuel' (drop n s)
      end
  end.

Definition chars_of (s : str) : list Z := chars_fuel (length s) s.

Section Addresses.
Context (unicode_alphanumeric : Z -> bool) (hex_decode : list Z -> option (list Z)).

(** [None] is a panic of [DeviceId::from_str]. *)
Definition parse_relay_url (url : str) : option (result ClientError (SocketAddr * DeviceId)) :=
  match strip_prefix ($"relay://") url with
  | None => Some (Err CeConfig)
  | Some url =>
      let '(addr_part, id_part) :=
        match split_once ($"/?id=") url with
        | Some r => r
        | None => match split_once ($"?id=") url with
                  | Some r => r
                  | None => (url, [])
                  end
        end in
      match parse_socket_addr addr_part with
      | None => Some (Err CeConfig)
      | Some addr =>
          if decide (id_part = []) then Some (Ok (addr, default_device_id))
          else match device_id_from_str unicode_alphanumeric hex_decode (chars_of id_part) with
               | None => None
               | Some (Err _) => Some (Err CeConfig)
               | Some (Ok id) => Some (Ok (addr, id))
               end
      end
  end.

Definition resolve_session_addr (protocol_addr : SocketAddr) (invitation : SessionInvitation)
    : result ClientError SocketAddr :=
  let? addr :=
    (if decide (si_address invitation = []) then
       Ok (mkSocketAddr (sa_ip protocol_addr) (wrap 16 (si_port invitation)))
     else
       match parse_ip (from_utf8_lossy (str_of_bytes (si_address invitation))) with
       | None => Err CeAddress
       | Some ip => Ok (mkSocketAddr ip (wrap 16 (si_port invitation)))
       end) in
  if is_loopback (sa_ip addr) || is_multicast (sa_ip addr) || is_unspecified (sa_ip addr) then Err CeSsrf
  else match sa_ip addr with
       | V4 os => if v4_link_local os then Err CeSsrf else Ok addr
       | V6 _ => Ok addr
       end.

(** ** Choosing relays ([pool.rs]) *)

(** [fetch_default_relay], given what [fetch_relay_pool] returned. *)
Definition fetch_default_relay (pool : option (list str)) : option str :=
  match pool with
  | Some urls => if decide (urls = []) then None else last urls
  | None => None
  end.

(** [reachable]: the TCP connection is established in time. A panicking parse
    ends the task ([None]). *)
Fixpoint filter_healthy_relays (reachable : SocketAddr -> bool) (urls : list str) : option (list str) :=
  match urls with
  | [] => Some []
  | url :: urls' =>
      match parse_relay_url url with
      | None => None
      | Some (Err _) => filter_healthy_relays reachable urls'
      | Some (Ok (addr, _)) =>
          let+ rest := filter_healthy_relays reachable urls' in
          Some (if reachable addr then url :: rest else rest)
      end
  end.

(** [joined]: TLS connect and [join_relay] succeed in time; [tls_ok]: the TLS
    configuration can be built; [found] relays have been collected. *)
Fixpoint filter_relays_tls_loop (joined : SocketAddr -> bool) (need found : nat) (urls : list str)
    : option (list str) :=
  match urls with
  | [] => Some []
  | url :: urls' =>
      if (0 <? need)%nat && (need <=? found)%nat then Some []
      else match parse_relay_url url with
           | None => None
           | Some (Err _) => filter_relays_tls_loop joined need found urls'
           | Some (Ok (addr, _)) =>
               if joined addr then
                 let+ rest := filter_relays_tls_loop joined need (S found) urls' in
                 Some (url :: rest)
               else filter_relays_tls_loop joined need found urls'
           end
  end.

Definition filter_healthy_relays_tls (tls_ok : bool) (joined : SocketAddr -> bool) (urls : list str) (need : nat) : option (list str) :=
  if tls_ok then filter_relays_tls_loop joined need 0 urls else Some [].
End Addresses.

(** ** Theorems *)

(** Reading [n] messages one after the other. *)
Fixpoint read_messages (n : nat) : SE (list Z) RelayError (list RelayMessage) :=
  match n with
  | O => se_ret []
  | S n' => let! m := read_message in let! ms := read_messages n' in se_ret (m :: ms)
  end.

Lemma relay_read_exact_Ok n e inb bs rest :
  relay_read_exact n e inb = (Ok bs, rest) -> inb = bs ++ rest /\ length bs = n.
Proof.
  unfold relay_read_exact. destruct (get_bytes n inb) as [[xs r]|] eqn:E; [|done].
  intros [= -> ->]. by apply get_bytes_Some.
Qed.

Lemma header_decode_Some buf h rest :
  relay_header_decode buf = Some (h, rest) ->
  exists len, buf = take 12 buf ++ rest /\ length (take 12 buf) = 12%nat /\
    rh_magic h = be_combine (take 4 buf) /\ rh_length h = to_signed 32 len.
Proof.
  unfold relay_header_decode. destruct (_ <? _)%nat; [done|].
  intros (m & r1 & H1 & H)%r_bind_Some. apply get_uint_Some in H1 as (x1 & -> & L1 & ->).
  apply r_bind_Some in H as (t & r2 & (t' & r2' & H2 & [= <- <-])%r_bind_Some & H).
  apply get_uint_Some in H2 as (x2 & -> & L2 & ->).
  apply r_bind_Some in H as (l & r3 & (l' & r3' & H3 & [= <- <-])%r_bind_Some & H).
  apply get_uint_Some in H3 as (x3 & -> & L3 & ->).
  destruct (relay_type_from_i32 _) as [mt|]; [|done]. injection H as <- <-.
  exists (be_combine x3). rewrite !(assoc_L (++)).
  rewrite !(take_app_length' (_ ++ _) _ 12) by (rewrite !length_app; lia).
  rewrite <-!(assoc_L (++)). rewrite (take_app_length' x1 _ 4) by lia.
  rewrite !length_app. cbn. repeat split; lia.
Qed.

(** A message that is read consumes its header and the body length the header
    announces, at most 12 bytes and one mebibyte. *)
Lemma read_message_consumes inb m rest :
  read_message inb = (Ok m, rest) ->
  exists pre len, inb = pre ++ rest /\ Z.of_nat (length pre) = 12 + len /\
    0 <= len <= MAX_RELAY_BODY /\ be_combine (take 4 pre) = RELAY_MAGIC.
Proof.
  unfold read_message. intros (hb & s1 & H1 & H)%se_bind_Ok.
  apply relay_read_exact_Ok in H1 as [-> L1].
  apply se_bind_Ok in H as (h & s2 & [= H2 <-] & H).
  destruct (relay_header_decode hb) as [[h' r]|] eqn:E; [|done]. injection H2 as ->.
  apply header_decode_Some in E as (len & E & L & Hm & Hl).
  destruct (Z.eqb_spec (rh_magic h) RELAY_MAGIC) as [Em|]; [|done].
  cbn [negb] in H. destruct (Z.ltb_spec MAX_RELAY_BODY (wrap 64 (rh_length h))) as [|Hle]; [done|].
  pose proof (wrap_range 64 (rh_length h) ltac:(lia)) as [Hr _].
  apply se_bind_Ok in H as (body & s3 & H3 & [= _ <-]).
  destruct (Z.ltb_spec 0 (wrap 64 (rh_length h))) as [Hp|Hz].
  - apply relay_read_exact_Ok in H3 as [-> L3]. exists (hb ++ body), (wrap 64 (rh_length h)).
    rewrite (assoc_L (++)), take_app_le by (unfold RELAY_HEADER_SIZE in L1; lia).
    rewrite length_app, L1, <-Hm. unfold RELAY_HEADER_SIZE. split_and!; [done|lia|lia|lia|done].
  - injection H3 as <- <-. exists hb, 0. rewrite <-Hm, L1. unfold RELAY_HEADER_SIZE, MAX_RELAY_BODY.
    split_and!; [done|lia|lia|lia|done].
Qed.

Lemma read_messages_run ms rest :
  Forall message_ok ms ->
  read_messages (length ms) (concat (relay_message_encode <$> ms) ++ rest) = (Ok ms, rest).
Proof.
  induction 1 as [|m ms Hm _ IH]; [done|]. cbn [length read_messages fmap list_fmap concat].
  rewrite <-(assoc_L (++)). rewrite (se_bind_run _ _ _ _ _ (read_encoded m _ Hm)).
  by rewrite (se_bind_run _ _ _ _ _ IH).
Qed.

(** Every sequence of relay messages whose bodies fit the reader's limit is
    read back from the stream exactly as it was written, message by message,
    leaving what follows in the stream untouched; and two different such
    streams are never byte-for-byte equal. *)
Theorem relay_stream_roundtrip ms rest :
  Forall message_ok ms ->
  read_messages (length ms) (concat (relay_message_encode <$> ms) ++ rest) = (Ok ms, rest) /\
  (forall ms', Forall message_ok ms' ->
     concat (relay_message_encode <$> ms') = concat (relay_message_encode <$> ms) -> ms' = ms).
Proof.
  intros Hms. split; [by apply read_messages_run|]. intros ms' Hms'.
  revert ms Hms. induction Hms' as [|m' ms' Hm' _ IH]; intros ms Hms; destruct Hms as [|m ms Hm Hms].
  - done.
  - cbn. rewrite encode_message_eq. intros E. apply (f_equal length) in E.
    unfold encode_header_of in E. rewrite !length_app, length_header in E. done.
  - cbn. rewrite encode_message_eq. intros E. apply (f_equal length) in E.
    unfold encode_header_of in E. rewrite !length_app, length_header in E. done.
  - cbn. intros E. pose proof (enc_prefix_free m' m _ _ Hm' Hm E) as [-> E']. f_equal. by apply IH.
Qed.

Definition sample_invitation : SessionInvitation :=
  mkSessionInvitation (replicate 32 7) (replicate 32 9) [] 0 true.

Lemma sample_invitation_ok : message_ok (RmSessionInvitation sample_invitation).
Proof.
  split; [|by vm_compute].
  repeat apply conj; try (apply Forall_replicate || apply Forall_nil_2); by vm_compute.
Qed.

Lemma relay_stream_roundtrip_witness :
  read_messages 2 (concat (relay_message_encode <$> [RmPing; RmSessionInvitation sample_invitation]) ++ [1])
  = (Ok [RmPing; RmSessionInvitation sample_invitation], [1]).
Proof.
  apply (relay_stream_roundtrip [RmPing; RmSessionInvitation sample_invitation] [1]).
  constructor; [by split|]. constructor; [apply sample_invitation_ok|constructor].
Defined.

Lemma padded_len_div n : Nat.divide 4 (padded_len n).
Proof.
  rewrite padded_len_pad. pose proof (Nat.div_mod n 4 ltac:(lia)) as E.
  pose proof (Nat.mod_upper_bound n 4 ltac:(lia)).
  destruct (n mod 4)%nat as [|[|[|[|?]]]]; cbv [Nat.sub Nat.modulo Nat.divmod snd];
    [exists (n / 4)%nat|exists (S (n / 4))..|]; lia.
Qed.

Lemma encode_opaque_div data : Nat.divide 4 (length (encode_opaque data)).
Proof.
  rewrite length_encode_opaque. apply Nat.divide_add_r; [by exists 1%nat|apply padded_len_div].
Qed.

Lemma message_body_div m : Nat.divide 4 (length (message_body m)).
Proof.
  assert (Nat.divide 4 4) as H4 by (by exists 1%nat).
  destruct m as [ | | |m|m|m|m| ]; try (by exists 0%nat);
    cbn [message_body enc join_session_request_codec response_codec connect_request_codec
         session_invitation_codec opaque_codec string_codec]; unfold encode_string;
    autorewrite with wire; auto using encode_opaque_div, Nat.divide_add_r.
Qed.

(** C40: What an encoder produces is a well-formed frame: bytes only, a whole
    number of 4-byte words, and a header that carries the magic number, the
    message's own type and exactly the number of bytes that follow. *)
Theorem relay_encode_well_formed m :
  message_ok m ->
  Forall is_byte (relay_message_encode m) /\
  Nat.divide 4 (length (relay_message_encode m)) /\
  relay_header_decode (relay_message_encode m) =
    Some (mkRelayHeader RELAY_MAGIC (message_type m)
            (Z.of_nat (length (relay_message_encode m)) - 12),
          drop 12 (relay_message_encode m)).
Proof.
  intros Hm. split; [by apply encode_message_bytes|]. destruct Hm as [_ Hl].
  rewrite encode_message_eq. unfold encode_header_of.
  rewrite to_signed_id by (lia || (apply in_i32_small; lia)).
  rewrite length_app, length_header. unfold RELAY_HEADER_SIZE. split.
  - apply Nat.divide_add_r; [by exists 3%nat|apply message_body_div].
  - rewrite decode_header by (apply in_i32_small; lia).
    rewrite (drop_app_length' _ _ 12) by (by rewrite length_header). do 3 f_equal. lia.
Qed.

Lemma relay_encode_well_formed_witness :
  Nat.divide 4 (length (relay_message_encode (RmSessionInvitation sample_invitation))).
Proof. apply (relay_encode_well_formed _ sample_invitation_ok). Defined.

(** A relay message that is accepted carries the magic number and takes
    exactly the announced number of bytes off the stream, never more than a
    header and one mebibyte; a negative length is among the rejected ones. *)
Theorem read_message_bounded inb m rest :
  read_message inb = (Ok m, rest) ->
  exists pre len, inb = pre ++ rest /\ Z.of_nat (length pre) = 12 + len /\
    0 <= len <= 2 ^ 20 /\ be_combine (take 4 pre) = RELAY_MAGIC.
Proof. apply read_message_consumes. Qed.

Lemma read_message_bounded_witness :
  exists pre len, relay_message_encode RmPing ++ [5] = pre ++ [5] /\
    Z.of_nat (length pre) = 12 + len /\ 0 <= len <= 2 ^ 20 /\ be_combine (take 4 pre) = RELAY_MAGIC.
Proof. apply (read_message_bounded _ RmPing). reflexivity. Defined.

(** ** The client's waiting loop *)

Section Waiting.
Context (env : RelayEnv).

Lemma wait_loop_finishes fuel st :
  (length (st_in st) < fuel)%nat -> fst (wait_loop env fuel st) <> Err CeUnfinished.
Proof.
  revert st. induction fuel as [|fuel IH]; intros st Hf; [lia|]. cbn [wait_loop].
  unfold se_bind, client_read. destruct (read_message (st_in st)) as [[m|e] rest] eqn:E; [|done].
  destruct m; try done. unfold write_message. cbn [st_out st_in].
  destruct (re_write env _); [|done]. apply IH.
  apply read_message_consumes in E as (pre & len & E & Hl & Hb & _).
  rewrite E, length_app in Hf. cbn [st_in]. lia.
Qed.

Lemma wait_loop_pings n fuel inv rest out :
  (forall k, re_write env k = true) -> message_ok (RmSessionInvitation inv) -> (n < fuel)%nat ->
  wait_loop env fuel (mkStream (concat (replicate n (relay_message_encode RmPing)) ++
                                relay_message_encode (RmSessionInvitation inv) ++ rest) out) =
  (Ok inv, mkStream rest (out ++ concat (replicate n (relay_message_encode RmPong)))).
Proof.
  intros Hw Hinv. revert fuel out. induction n as [|n IH]; intros [|fuel] out Hf; try lia.
  - cbn [wait_loop replicate concat app]. unfold se_bind, client_read. cbn [st_in].
    rewrite (read_encoded _ rest Hinv). by rewrite app_nil_r.
  - cbn [wait_loop]. unfold se_bind at 1, client_read. cbn [st_in replicate concat].
    rewrite <-(assoc_L (++)). rewrite read_encoded by done.
    unfold se_bind, write_message. cbn [st_in st_out]. rewrite Hw, IH by lia.
    by rewrite <-(assoc_L (++)).
Qed.
End Waiting.

(** A client waiting for an invitation always comes back: it answers every
    keep-alive ping the relay sends with a pong, any number of them, and
    returns the invitation that follows without touching what comes after;
    on any other input it returns an error, never looping for ever. *)
Theorem wait_invitation_answers_pings env n inv rest out st :
  (forall k, re_write env k = true) -> message_ok (RmSessionInvitation inv) ->
  wait_invitation env (mkStream (concat (replicate n (relay_message_encode RmPing)) ++
                                 relay_message_encode (RmSessionInvitation inv) ++ rest) out) =
    (Ok inv, mkStream rest (out ++ concat (replicate n (relay_message_encode RmPong)))) /\
  fst (wait_invitation env st) <> Err CeUnfinished.
Proof.
  intros Hw Hinv. split; [|apply wait_loop_finishes; lia].
  unfold wait_invitation. cbn [st_in]. apply wait_loop_pings; [done..|].
  rewrite length_app. enough (n <= length (concat (replicate n (relay_message_encode RmPing))))%nat by lia.
  induction n as [|n IH]; [done|]. cbn [replicate concat]. rewrite length_app.
  change (length (relay_message_encode RmPing)) with 12%nat. lia.
Qed.

Lemma wait_invitation_answers_pings_witness :
  let env := mkRelayEnv (fun _ => true) (fun _ => true) in
  fst (wait_invitation env (mkStream (relay_message_encode RmPing ++
    relay_message_encode (RmSessionInvitation sample_invitation)) [])) = Ok sample_invitation.
Proof.
  intros env.
  pose proof (wait_invitation_answers_pings env 1 sample_invitation [] [] (mkStream [] [])
    (fun _ => eq_refl) sample_invitation_ok) as [E _].
  rewrite app_nil_r in E. cbn [replicate concat] in E. rewrite app_nil_r in E. by rewrite E.
Defined.

(** ** Session addresses *)

(** The IPv4 destinations the address check refuses. *)
Definition v4_refused (os : list Z) : bool :=
  v4_loopback os || v4_multicast os || bool_decide (os = [0; 0; 0; 0]) || v4_link_local os.

(** The address check behind relay invitations: an accepted address is
    never a refused IPv4 address or an IPv6 loopback, multicast or unspecified
    one, and its port is the announced one modulo 2^16.  But the same IPv4
    destinations pass in their IPv6-mapped form: an invitation can send the
    client to its own loopback interface or to the link-local metadata
    service. *)
Theorem resolve_session_addr_guard proto inv :
  (forall addr, resolve_session_addr proto inv = Ok addr ->
     sa_port addr = wrap 16 (si_port inv) /\
     match sa_ip addr with
     | V4 os => v4_refused os = false
     | V6 ss => is_loopback (V6 ss) = false /\ is_multicast (V6 ss) = false /\ is_unspecified (V6 ss) = false
     end) /\
  (forall text os, (text, os) ∈ [($"::ffff:127.0.0.1", [127; 0; 0; 1]); ($"::ffff:169.254.169.254", [169; 254; 169; 254])] ->
     v4_refused os = true /\
     resolve_session_addr proto (mkSessionInvitation (si_from inv) (si_key inv) (bytes_of_str text)
                                   (si_port inv) (si_server_socket inv)) =
     Ok (mkSocketAddr (V6 (to_ipv6_mapped os)) (wrap 16 (si_port inv)))).
Proof.
  split.
  - unfold resolve_session_addr. intros addr (a & Ha & H)%result_bind_Ok.
    assert (sa_port a = wrap 16 (si_port inv)) as Hp.
    { destruct (decide _); [by injection Ha as <-|]. destruct (parse_ip _); [by injection Ha as <-|done]. }
    destruct (is_loopback _ || _ || _) eqn:E; [done|].
    apply orb_false_elim in E as [[E1 E2]%orb_false_elim E3].
    destruct a as [[os|ss] p]; cbn in *.
    + destruct (v4_link_local os) eqn:E4; [done|]. injection H as <-. split; [done|]. unfold v4_refused.
      cbn. by rewrite E1, E2, E3, E4.
    + by injection H as <-.
  - intros text os Hin.
    apply elem_of_cons in Hin as [E|[E| []%elem_of_nil]%elem_of_cons]; injection E as -> ->;
      (split; [reflexivity|]); unfold resolve_session_addr; cbn [si_address si_port]; reflexivity.
Qed.
