(* ===== verification/RelayServer.v ===== *)
(** * The relay server ([crates/syncthing-net/src/relay/server.rs])

    Registered clients and sessions waiting to be paired, the message loop of
    a protocol connection, and the tasks of all connections as a step relation
    whose steps are the stretches between two awaits or lock acquisitions.
    Sockets, TLS and the random keys are inputs of the steps. *)

From S2P Require Import Prelude Core DeviceIds Connection Bep Wire Net Relay.

Definition MAX_CLIENTS : nat := 1000.

(** Identities of protocol connections (their writers) and session streams. *)
Abbreviation ConnId := nat.
Abbreviation StreamId := nat.

Record RelayClient := mkRelayClient { rcl_device : DeviceId; rcl_writer : ConnId }.

(** The stream of the first arriver stands for itself and its oneshot sender. *)
Record PendingSession := mkPendingSession {
  ps_from : DeviceId;
  ps_to : DeviceId;
  ps_first : option StreamId;
}.

Record RelayServer := mkRelayServer {
  rs_clients : gmap DeviceId RelayClient;
  rs_pending : gmap (list Z) PendingSession;
}.

Definition relay_server_new : RelayServer := mkRelayServer ∅ ∅.

Definition remove_client (s : RelayServer) (d : DeviceId) : RelayServer :=
  mkRelayServer (delete d (rs_clients s)) (rs_pending s).

Definition insert_client (s : RelayServer) (c : ConnId) (d : DeviceId) : RelayServer :=
  mkRelayServer (<[d := mkRelayClient d c]> (rs_clients s)) (rs_pending s).

(** ** Protocol connections *)

(** What was written to which connection, oldest first. *)
Abbreviation Output := (list (ConnId * list Z)).

Definition invalid_id_response : RelayResponse :=
  mkRelayResponse 1 ($"invalid device ID: Device ID error: Invalid device ID length").

Definition inv_to_initiator (from : DeviceId) (key : list Z) : SessionInvitation :=
  mkSessionInvitation (device_id_bytes from) key [] 0 false.

Definition inv_to_target (from : DeviceId) (key : list Z) : SessionInvitation :=
  mkSessionInvitation (device_id_bytes from) key [] 0 true.

(** [key] is what the random generator gives. *)
Definition handle_connect_request (s : RelayServer) (from : DeviceId) (req : ConnectRequest)
    (writer : ConnId) (key : list Z) : RelayServer * Output :=
  match from_bytes (cr_id req) with
  | Err _ => (s, [(writer, response_encode invalid_id_response)])
  | Ok target_id =>
      match rs_clients s !! target_id with
      | None => (s, [(writer, response_encode response_not_found)])
      | Some target_client =>
          (mkRelayServer (rs_clients s)
             (<[key := mkPendingSession from target_id None]> (rs_pending s)),
           [(writer, session_invitation_encode (inv_to_initiator from key));
            (rcl_writer target_client, session_invitation_encode (inv_to_target from key))])
      end
  end.

(** The [match header.message_type] of the message loop. *)
Definition protocol_message (s : RelayServer) (c : ConnId) (d : DeviceId)
    (t : RelayMessageType) (body : list Z) (key : list Z) : RelayServer * Output :=
  match t with
  | RtPing => (s, [(c, encode_empty RtPong)])
  | RtPong => (s, [])
  | RtJoinRelayRequest => (s, [(c, response_encode response_success)])
  | RtConnectRequest =>
      match connect_request_decode body with
      | Some (req, _) => handle_connect_request s d req c key
      | None => (s, [])
      end
  | RtResponse | RtSessionInvitation | RtJoinSessionRequest | RtRelayFull => (s, [])
  end.

(** [while data.remaining() >= Header::SIZE]: every round takes a header off
    [data], so its length is enough fuel.  [keys n] is the [n]th random key. *)
Fixpoint process_data (fuel : nat) (s : RelayServer) (c : ConnId) (d : DeviceId)
    (keys : nat -> list Z) (data : list Z) : RelayServer * Output :=
  match fuel with
  | O => (s, [])
  | S fuel' =>
      if (length data <? RELAY_HEADER_SIZE)%nat then (s, [])
      else match relay_header_decode data with
           | None => (s, [])
           | Some (header, data) =>
               if negb (rh_magic header =? RELAY_MAGIC) then (s, [])
               else
                 let body_len := Z.to_nat (Z.max (rh_length header) 0) in
                 if (length data <? body_len)%nat then (s, [])
                 else
                   let '(s1, out1) :=
                     protocol_message s c d (rh_type header) (take body_len data) (keys 0%nat) in
                   let '(s2, out2) :=
                     process_data fuel' s1 c d (fun n => keys (S n)) (drop body_len data) in
                   (s2, out1 ++ out2)
           end
  end.

(** One [read] of up to 65536 bytes: [let mut data = Bytes::from(..)] and the
    loop over it.  What the loop leaves is dropped with [data]. *)
Definition protocol_read (s : RelayServer) (c : ConnId) (d : DeviceId) (keys : nat -> list Z)
    (data : list Z) : RelayServer * Output :=
  process_data (length data) s c d keys data.

(** The reads of one connection, one after the other. *)
Fixpoint protocol_reads (s : RelayServer) (c : ConnId) (d : DeviceId) (keys : nat -> nat -> list Z)
    (chunks : list (list Z)) : RelayServer * Output :=
  match chunks with
  | [] => (s, [])
  | chunk :: chunks' =>
      let '(s1, out1) := protocol_read s c d (keys 0%nat) chunk in
      let '(s2, out2) := protocol_reads s1 c d (fun n => keys (S n)) chunks' in
      (s2, out1 ++ out2)
  end.

(** ** Session connections *)

(** The first read of a session stream: the key it asks for. *)
Definition session_request (data : list Z) : option (list Z) :=
  match relay_header_decode data with
  | None => None
  | Some (header, data) =>
      if negb (rh_magic header =? RELAY_MAGIC) || negb (bool_decide (rh_type header = RtJoinSessionRequest))
      then None
      else
        let body_len := Z.to_nat (Z.max (rh_length header) 0) in
        let body := if (body_len <=? length data)%nat then take body_len data else data in
        jsr_key <$> (fst <$> join_session_request_decode body)
  end.

Inductive SessionRole :=
| Phase1
| Phase2 (first : StreamId).

(** The role under the lock of [pending_sessions]. *)
Definition session_role (s : RelayServer) (stream : StreamId) (key : list Z)
    : RelayServer * option SessionRole :=
  match rs_pending s !! key with
  | None => (s, None)
  | Some session =>
      match ps_first session with
      | Some first =>
          (mkRelayServer (rs_clients s)
             (<[key := mkPendingSession (ps_from session) (ps_to session) None]> (rs_pending s)),
           Some (Phase2 first))
      | None =>
          (mkRelayServer (rs_clients s)
             (<[key := mkPendingSession (ps_from session) (ps_to session) (Some stream)]> (rs_pending s)),
           Some Phase1)
      end
  end.

Definition remove_session (s : RelayServer) (key : list Z) : RelayServer :=
  mkRelayServer (rs_clients s) (delete key (rs_pending s)).

(** ** All connections together *)

Inductive ConnPhase := ConnAdmitted | ConnRegistered | ConnClosed.

Record RelaySys := mkRelaySys {
  sys_server : RelayServer;
  (** protocol connections: device and progress *)
  sys_conns : gmap ConnId (DeviceId * ConnPhase);
  sys_out : Output;
  (** keys handed out, with the two devices *)
  sys_issued : list (list Z * DeviceId * DeviceId);
  (** session streams that asked to join, with their key *)
  sys_joined : list (StreamId * list Z);
  (** tasks of first arrivers *)
  sys_waiting : list (StreamId * list Z);
  (** tasks of second arrivers: first stream, own stream, key *)
  sys_pairing : list (StreamId * StreamId * list Z);
  (** streams forwarded to each other *)
  sys_forwarded : list (StreamId * StreamId * list Z);
}.

Definition sys_init : RelaySys := mkRelaySys relay_server_new ∅ [] [] [] [] [] [].

Definition set_server (st : RelaySys) (s : RelayServer) (out : Output) : RelaySys :=
  mkRelaySys s (sys_conns st) (sys_out st ++ out) (sys_issued st) (sys_joined st) (sys_waiting st)
    (sys_pairing st) (sys_forwarded st).

Definition set_conn (st : RelaySys) (c : ConnId) (d : DeviceId) (p : ConnPhase) : RelaySys :=
  mkRelaySys (sys_server st) (<[c := (d, p)]> (sys_conns st)) (sys_out st) (sys_issued st)
    (sys_joined st) (sys_waiting st) (sys_pairing st) (sys_forwarded st).

(** The capacity test after the TLS handshake. *)
Definition accept_client (st : RelaySys) (c : ConnId) (d : DeviceId) : RelaySys :=
  if (MAX_CLIENTS <=? base.size (rs_clients (sys_server st)))%nat then
    set_conn (set_server st (sys_server st) [(c, encode_empty RtRelayFull)]) c d ConnClosed
  else set_conn st c d ConnAdmitted.

(** The insertion, in a lock region of its own. *)
Definition register_client (st : RelaySys) (c : ConnId) (d : DeviceId) : RelaySys :=
  set_conn (set_server st (insert_client (sys_server st) c d) []) c d ConnRegistered.

(** The end of the read loop: [ClientGuard::drop]. *)
Definition end_client (st : RelaySys) (c : ConnId) (d : DeviceId) : RelaySys :=
  set_conn (set_server st (remove_client (sys_server st) d) []) c d ConnClosed.

(** A failed ping: the ping task removes the client, the read loop goes on. *)
Definition ping_failed (st : RelaySys) (d : DeviceId) : RelaySys :=
  set_server st (remove_client (sys_server st) d) [].

(** A request of connection [c] for a session. *)
Definition request_step (st : RelaySys) (c : ConnId) (d : DeviceId) (req : ConnectRequest)
    (key : list Z) : RelaySys :=
  let '(s, out) := handle_connect_request (sys_server st) d req c key in
  let st' := set_server st s out in
  match from_bytes (cr_id req) with
  | Ok target =>
      match rs_clients (sys_server st) !! target with
      | Some _ => mkRelaySys (sys_server st') (sys_conns st') (sys_out st')
                    ((key, d, target) :: sys_issued st') (sys_joined st') (sys_waiting st')
                    (sys_pairing st') (sys_forwarded st')
      | None => st'
      end
  | Err _ => st'
  end.

(** A session stream asks for [key]. *)
Definition join_step (st : RelaySys) (stream : StreamId) (key : list Z) : RelaySys :=
  let '(s, role) := session_role (sys_server st) stream key in
  mkRelaySys s (sys_conns st) (sys_out st) (sys_issued st) ((stream, key) :: sys_joined st)
    (match role with Some Phase1 => (stream, key) :: sys_waiting st | _ => sys_waiting st end)
    (match role with Some (Phase2 first) => (first, stream, key) :: sys_pairing st | _ => sys_pairing st end)
    (sys_forwarded st).

(** The first arriver's wait ends, by the time limit or because its sender was
    dropped: it removes the key. *)
Definition first_ends (st : RelaySys) (key : list Z) (waiting : list (StreamId * list Z)) : RelaySys :=
  mkRelaySys (remove_session (sys_server st) key) (sys_conns st) (sys_out st) (sys_issued st)
    (sys_joined st) waiting (sys_pairing st) (sys_forwarded st).

(** The second arriver has answered both peers ([ok]) or failed to. *)
Definition pair_ends (st : RelaySys) (a b : StreamId) (key : list Z) (ok : bool)
    (pairing : list (StreamId * StreamId * list Z)) : RelaySys :=
  mkRelaySys (if ok then remove_session (sys_server st) key else sys_server st)
    (sys_conns st) (sys_out st) (sys_issued st) (sys_joined st) (sys_waiting st) pairing
    (if ok then (a, b, key) :: sys_forwarded st else sys_forwarded st).

Inductive relay_step : RelaySys -> RelaySys -> Prop :=
| RsAccept st c d :
    sys_conns st !! c = None -> relay_step st (accept_client st c d)
| RsRegister st c d :
    sys_conns st !! c = Some (d, ConnAdmitted) -> relay_step st (register_client st c d)
| RsRequest st c d req key :
    sys_conns st !! c = Some (d, ConnRegistered) -> relay_step st (request_step st c d req key)
| RsReply st c d t body :
    sys_conns st !! c = Some (d, ConnRegistered) -> t <> RtConnectRequest ->
    relay_step st (set_server st (sys_server st) (protocol_message (sys_server st) c d t body []).2)
| RsPingFailed st c d :
    sys_conns st !! c = Some (d, ConnRegistered) -> relay_step st (ping_failed st d)
| RsEnd st c d :
    sys_conns st !! c = Some (d, ConnRegistered) -> relay_step st (end_client st c d)
| RsJoin st stream data key :
    stream ∉ (sys_joined st).*1 -> session_request data = Some key ->
    relay_step st (join_step st stream key)
| RsFirstEnds st stream key w1 w2 :
    sys_waiting st = w1 ++ (stream, key) :: w2 -> relay_step st (first_ends st key (w1 ++ w2))
| RsPairEnds st a b key ok p1 p2 :
    sys_pairing st = p1 ++ (a, b, key) :: p2 -> relay_step st (pair_ends st a b key ok (p1 ++ p2)).

Definition relay_reachable : RelaySys -> Prop := rtc relay_step sys_init.

(** ** The message loop *)

Section Loop.
Context (c : ConnId) (d : DeviceId).

Lemma header_decode_short data h rest :
  relay_header_decode data = Some (h, rest) -> length data = (12 + length rest)%nat.
Proof.
  intros (len & E & L & _)%header_decode_Some. rewrite E at 1. rewrite length_app, L. done.
Qed.

(** More fuel than bytes changes nothing. *)
Lemma process_data_fuel fuel fuel' s keys data :
  (length data <= fuel)%nat -> (length data <= fuel')%nat ->
  process_data fuel s c d keys data = process_data fuel' s c d keys data.
Proof.
  revert fuel' s keys data. induction fuel as [|fuel IH]; intros [|fuel'] s keys data H1 H2;
    try (assert (length data = 0%nat) as E by lia; apply nil_length_inv in E as ->; done).
  cbn [process_data]. destruct (_ <? _)%nat; [done|].
  destruct (relay_header_decode data) as [[h rest]|] eqn:E; [|done].
  apply header_decode_short in E. destruct (negb _); [done|]. destruct (_ <? _)%nat; [done|].
  destruct (protocol_message _ _ _ _ _ _) as [s1 out1].
  rewrite (IH fuel'); [done| |]; rewrite length_drop; lia.
Qed.

(** The loop on a complete message at the front of the data. *)
Lemma process_data_message fuel s keys m rest :
  message_ok m -> (length (relay_message_encode m ++ rest) <= fuel)%nat ->
  process_data fuel s c d keys (relay_message_encode m ++ rest) =
  let '(s1, out1) := protocol_message s c d (message_type m) (message_body m) (keys 0%nat) in
  let '(s2, out2) := process_data (length rest) s1 c d (fun n => keys (S n)) rest in
  (s2, out1 ++ out2).
Proof.
  intros [_ Hl]. rewrite encode_message_eq. unfold encode_header_of.
  rewrite to_signed_id by (lia || (apply in_i32_small; lia)).
  rewrite <-(assoc_L (++)), length_app, length_header. unfold RELAY_HEADER_SIZE at 1.
  destruct fuel as [|fuel]; intros Hf; [lia|]. cbn [process_data].
  rewrite length_app, length_header, (proj2 (Nat.ltb_ge _ _)) by lia.
  rewrite decode_header by (apply in_i32_small; lia). cbn [rh_magic rh_type rh_length].
  rewrite Z.eqb_refl. cbn [negb]. rewrite Z.max_l, Nat2Z.id by lia.
  rewrite length_app, (proj2 (Nat.ltb_ge _ _)) by lia.
  rewrite take_app_length, drop_app_length.
  destruct (protocol_message _ _ _ _ _ _) as [s1 out1].
  rewrite length_app in Hf. by rewrite (process_data_fuel fuel (length rest)) by lia.
Qed.

Lemma process_data_partial fuel s keys data :
  (length data < 12)%nat -> process_data fuel s c d keys data = (s, []).
Proof.
  intros Hl. destruct fuel; [done|]. cbn [process_data].
  by rewrite (proj2 (Nat.ltb_lt _ _)) by done.
Qed.
End Loop.

(** The messages of a client handled one by one. *)
Fixpoint handle_messages (s : RelayServer) (c : ConnId) (d : DeviceId) (keys : nat -> list Z)
    (ms : list RelayMessage) : RelayServer * Output :=
  match ms with
  | [] => (s, [])
  | m :: ms' =>
      let '(s1, out1) := match m with
        | RmPing => (s, [(c, relay_message_encode RmPong)])
        | RmJoinRelayRequest => (s, [(c, relay_message_encode (RmResponse response_success))])
        | RmConnectRequest req => handle_connect_request s d req c (keys 0%nat)
        | _ => (s, [])
        end in
      let '(s2, out2) := handle_messages s1 c d (fun n => keys (S n)) ms' in
      (s2, out1 ++ out2)
  end.

Lemma protocol_message_spec s c d m key :
  message_ok m ->
  protocol_message s c d (message_type m) (message_body m) key =
  match m with
  | RmPing => (s, [(c, relay_message_encode RmPong)])
  | RmJoinRelayRequest => (s, [(c, relay_message_encode (RmResponse response_success))])
  | RmConnectRequest req => handle_connect_request s d req c key
  | _ => (s, [])
  end.
Proof.
  intros [Hm _]. destruct m as [ | | |m|m|m|m| ]; try done. cbn [message_type message_body protocol_message].
  pose proof (dec_enc m [] Hm) as D. rewrite app_nil_r in D.
  change (dec (enc m)) with (connect_request_decode (enc m)) in D. by rewrite D.
Qed.

Lemma process_data_messages c d ms s keys tail :
  Forall message_ok ms -> (length tail < 12)%nat ->
  protocol_read s c d keys (concat (relay_message_encode <$> ms) ++ tail) = handle_messages s c d keys ms.
Proof.
  intros Hms Ht. unfold protocol_read. revert s keys. induction Hms as [|m ms Hm _ IH]; intros s keys.
  - by apply process_data_partial.
  - cbn [fmap list_fmap concat handle_messages]. rewrite <-(assoc_L (++)).
    rewrite process_data_message by done. rewrite protocol_message_spec by done.
    destruct (match m with RmPing => _ | _ => _ end) as [s1 out1]. by rewrite IH.
Qed.

(** ** Invariant of the system *)

Definition streams (l : list (StreamId * StreamId * list Z)) : list StreamId :=
  concat ((fun '(a, b, _) => [a; b]) <$> l).

Lemma streams_app l1 l2 : streams (l1 ++ l2) = streams l1 ++ streams l2.
Proof. unfold streams. by rewrite fmap_app, concat_app. Qed.

Lemma streams_cons a b k l : streams ((a, b, k) :: l) = a :: b :: streams l.
Proof. done. Qed.

Lemma streams_perm l1 l2 : l1 ≡ₚ l2 -> streams l1 ≡ₚ streams l2.
Proof. unfold streams. induction 1 as [|[[a b] k] ? ? ? IH|[[a b] k] [[a' b'] k'] ?|]; cbn; [done| | |by etrans].
  - by rewrite IH.
  - solve_Permutation.
Qed.

Lemma elem_of_streams x l : x ∈ streams l -> exists a b k, (a, b, k) ∈ l /\ (x = a \/ x = b).
Proof.
  induction l as [|[[a b] k] l IH]; [by intros ?%elem_of_nil|]. rewrite streams_cons.
  intros [->|[->|Hin]%elem_of_cons]%elem_of_cons; [by exists a, b, k; split; [left|auto]..|].
  destruct (IH Hin) as (a' & b' & k' & Hi & Hx). exists a', b', k'. split; [by right|done].
Qed.

Lemma joined_fun (l : list (StreamId * list Z)) x k k' :
  NoDup l.*1 -> (x, k) ∈ l -> (x, k') ∈ l -> k = k'.
Proof.
  intros Hn H1 H2. apply list_elem_of_lookup in H1 as [i Hi], H2 as [j Hj].
  assert (l.*1 !! i = Some x) as Li by (by rewrite list_lookup_fmap, Hi).
  assert (l.*1 !! j = Some x) as Lj by (by rewrite list_lookup_fmap, Hj).
  pose proof (NoDup_lookup _ _ _ _ Hn Li Lj) as ->. congruence.
Qed.

Record relay_inv (st : RelaySys) : Prop := {
  inv_clients : forall d cl, rs_clients (sys_server st) !! d = Some cl ->
    rcl_device cl = d /\ sys_conns st !! rcl_writer cl = Some (d, ConnRegistered);
  inv_joined : NoDup (sys_joined st).*1;
  inv_pending : forall k p, rs_pending (sys_server st) !! k = Some p ->
    (k, ps_from p, ps_to p) ∈ sys_issued st /\
    (forall f, ps_first p = Some f ->
       (f, k) ∈ sys_joined st /\ f ∉ streams (sys_pairing st ++ sys_forwarded st));
  inv_pairs : forall a b k, (a, b, k) ∈ sys_pairing st ++ sys_forwarded st ->
    (a, k) ∈ sys_joined st /\ (b, k) ∈ sys_joined st /\ exists d1 d2, (k, d1, d2) ∈ sys_issued st;
  inv_nodup : NoDup (streams (sys_pairing st ++ sys_forwarded st));
}.

Lemma relay_inv_init : relay_inv sys_init.
Proof.
  split; cbn; [by intros d cl ?%lookup_empty_Some|constructor|by intros k p ?%lookup_empty_Some| |constructor].
  by intros a b k ?%elem_of_nil.
Qed.

(** Steps of protocol connections leave the sessions alone, up to new output. *)
Lemma relay_inv_clients st s conns out :
  relay_inv st -> rs_pending s = rs_pending (sys_server st) ->
  (forall d cl, rs_clients s !! d = Some cl ->
     rcl_device cl = d /\ conns !! rcl_writer cl = Some (d, ConnRegistered)) ->
  relay_inv (mkRelaySys s conns out (sys_issued st) (sys_joined st) (sys_waiting st)
               (sys_pairing st) (sys_forwarded st)).
Proof. intros [I1 I2 I3 I4 I5] Hp Hc. split; cbn; try done. by rewrite Hp. Qed.

Lemma streams_joined st x :
  relay_inv st -> x ∈ streams (sys_pairing st ++ sys_forwarded st) -> x ∈ (sys_joined st).*1.
Proof.
  intros I (a & b & k & Hin & Hx)%elem_of_streams. apply (inv_pairs st I) in Hin as (Ha & Hb & _).
  apply list_elem_of_fmap. destruct Hx as [->| ->]; [by exists (a, k)|by exists (b, k)].
Qed.

Lemma relay_inv_join st stream key :
  relay_inv st -> stream ∉ (sys_joined st).*1 -> relay_inv (join_step st stream key).
Proof.
  intros I Hf. pose proof (fun x => streams_joined st x I) as Hs. destruct I as [I1 I2 I3 I4 I5].
  assert (NoDup (stream :: (sys_joined st).*1)) as Hn by (by constructor).
  unfold join_step, session_role.
  destruct (rs_pending (sys_server st) !! key) as [p|] eqn:E.
  2: { split; cbn; try done; [naive_solver set_solver|]. intros a b k Hin.
       destruct (I4 a b k Hin) as (? & ? & ?). set_solver. }
  destruct (I3 _ _ E) as [Hi Hfirst]. destruct (ps_first p) as [f|] eqn:Ef.
  - destruct (Hfirst f eq_refl) as [Hfj Hfs].
    assert (f <> stream) as Hne.
    { intros ->. apply Hf, list_elem_of_fmap. by exists (stream, key). }
    split; cbn [sys_server sys_conns sys_issued sys_joined sys_pairing sys_forwarded rs_clients
                rs_pending app fmap list_fmap fst]; [done|done| | |].
    + intros k p' [[<- <-]|[Hk Hp]]%lookup_insert_Some; [cbn; split; [done|done]|].
      destruct (I3 _ _ Hp) as [? Hp']. split; [done|]. intros f' Ef'. destruct (Hp' _ Ef') as [Hj Hns].
      split; [by right|]. rewrite streams_cons, !not_elem_of_cons. split_and!; [| |done].
      * intros ->. apply Hk. symmetry. by eapply joined_fun.
      * intros ->. apply Hf, list_elem_of_fmap. by exists (stream, k).
    + intros a b k [[= -> -> ->]|Hin]%elem_of_cons.
      * split_and!; [by right|by left|by eauto].
      * destruct (I4 _ _ _ Hin) as (? & ? & ?). split_and!; [by right..|done].
    + rewrite streams_cons. constructor; [|constructor; [|done]].
      * rewrite not_elem_of_cons. done.
      * intros Hin. by apply Hf, Hs.
  - split; cbn [sys_server sys_conns sys_issued sys_joined sys_pairing sys_forwarded rs_clients
                rs_pending app fmap list_fmap fst]; [done|done| | |done].
    + intros k p' [[<- <-]|[Hk Hp]]%lookup_insert_Some.
      * cbn. split; [done|]. intros f [= <-]. split; [by left|]. intros Hin. by apply Hf, Hs.
      * destruct (I3 _ _ Hp) as [? Hp']. split; [done|]. intros f Ef'. destruct (Hp' _ Ef'). by split; [right|].
    + intros a b k Hin. destruct (I4 _ _ _ Hin) as (? & ? & ?). split_and!; [by right..|done].
Qed.

Lemma relay_inv_request st c d req key :
  relay_inv st -> relay_inv (request_step st c d req key).
Proof.
  intros I. unfold request_step, handle_connect_request.
  destruct (from_bytes (cr_id req)) as [target|e]; [|by apply (relay_inv_clients st); [| |apply I]].
  destruct (rs_clients (sys_server st) !! target) as [cl|];
    [|by apply (relay_inv_clients st); [| |apply I]].
  destruct I as [I1 I2 I3 I4 I5]. split; cbn; try done.
  - intros k p [[<- <-]|[Hk Hp]]%lookup_insert_Some; [cbn; split; [by left|done]|].
    destruct (I3 _ _ Hp) as [? Hp']. split; [by right|done].
  - intros a b k Hin. destruct (I4 _ _ _ Hin) as (? & ? & d1 & d2 & ?). split_and!; [done..|].
    exists d1, d2. by right.
Qed.

Lemma relay_inv_pair st a b key ok p1 p2 :
  relay_inv st -> sys_pairing st = p1 ++ (a, b, key) :: p2 ->
  relay_inv (pair_ends st a b key ok (p1 ++ p2)).
Proof.
  intros [I1 I2 I3 I4 I5] Ep. rewrite Ep in *.
  assert ((p1 ++ (a, b, key) :: p2) ++ sys_forwarded st ≡ₚ
          (p1 ++ p2) ++ (a, b, key) :: sys_forwarded st) as HP by solve_Permutation.
  destruct ok.
  - split; cbn.
    + done.
    + done.
    + intros k p [_ Hp]%lookup_delete_Some. destruct (I3 _ _ Hp) as [? Hf]. split; [done|].
      intros f Ef. destruct (Hf _ Ef). split; [done|]. by rewrite <-(streams_perm _ _ HP).
    + intros a' b' k Hin. apply I4. by rewrite HP.
    + by rewrite <-(streams_perm _ _ HP).
  - assert ((p1 ++ (a, b, key) :: p2) ++ sys_forwarded st ≡ₚ
          (a, b, key) :: (p1 ++ p2) ++ sys_forwarded st) as HQ by solve_Permutation.
    rewrite (streams_perm _ _ HQ), streams_cons in I5.
    split; cbn; [done|done| | |by do 2 apply NoDup_cons in I5 as [_ I5]].
    + intros k p Hp. destruct (I3 _ _ Hp) as [? Hf]. split; [done|].
      intros f Ef. destruct (Hf _ Ef) as [? Hns]. split; [done|].
      rewrite (streams_perm _ _ HQ), streams_cons in Hns. set_solver.
    + intros a' b' k Hin. apply I4. rewrite HQ. by right.
Qed.

Lemma relay_inv_step st st' : relay_inv st -> relay_step st st' -> relay_inv st'.
Proof.
  intros I. destruct 1 as [st c d Hc|st c d Hc|st c d req key Hc|st c d t body Hc Ht|st c d Hc|st c d Hc
    |st stream data key Hf Hd|st stream key w1 w2 Hw|st a b key ok p1 p2 Hp].
  - unfold accept_client. destruct (_ <=? _)%nat; (apply (relay_inv_clients st); [done|done|]);
      intros d' cl Hcl; destruct (inv_clients st I _ _ Hcl) as [? Hw]; (split; [done|]);
      rewrite lookup_insert_ne by congruence; done.
  - apply (relay_inv_clients st); [done|done|]. cbn. intros d' cl [[<- <-]|[Hn Hcl]]%lookup_insert_Some.
    + cbn. by rewrite lookup_insert_eq.
    + destruct (inv_clients st I _ _ Hcl) as [? Hw]. split; [done|]. rewrite lookup_insert_ne; [done|].
      intros ->. rewrite Hw in Hc. congruence.
  - by apply relay_inv_request.
  - apply (relay_inv_clients st); [done|done|apply I].
  - apply (relay_inv_clients st); [done|done|]. cbn. intros d' cl [_ Hcl]%lookup_delete_Some.
    by apply (inv_clients st I).
  - apply (relay_inv_clients st); [done|done|]. cbn. intros d' cl [Hn Hcl]%lookup_delete_Some.
    destruct (inv_clients st I _ _ Hcl) as [? Hw]. split; [done|]. rewrite lookup_insert_ne; [done|].
    intros ->. rewrite Hw in Hc. congruence.
  - by apply relay_inv_join.
  - destruct I as [I1 I2 I3 I4 I5]. split; cbn; try done.
    intros k p [_ Hp]%lookup_delete_Some. by apply I3.
  - by apply relay_inv_pair.
Qed.

Lemma relay_reachable_inv st : relay_reachable st -> relay_inv st.
Proof.
  unfold relay_reachable. intros H. revert st H. apply (rtc_ind_r (R := relay_step)); [apply relay_inv_init|].
  intros; by eapply relay_inv_step.
Qed.

(** ** Theorems *)

(** C30: In every reachable state of the relay, whatever the order of arrivals,
    time-outs and failures, a session stream is forwarded to at most one
    partner, never to itself, and both partners presented the same key, which
    the relay had issued for a request between two devices. *)
Theorem relay_sessions_exclusive st :
  relay_reachable st ->
  NoDup (streams (sys_forwarded st)) /\
  forall a b k, (a, b, k) ∈ sys_forwarded st ->
    a <> b /\ (a, k) ∈ sys_joined st /\ (b, k) ∈ sys_joined st /\
    exists d1 d2, (k, d1, d2) ∈ sys_issued st.
Proof.
  intros I%relay_reachable_inv. pose proof (inv_nodup st I) as Hn.
  rewrite streams_app in Hn. apply NoDup_app in Hn as (_ & _ & Hn). split; [done|].
  intros a b k Hin. split.
  - apply list_elem_of_split in Hin as (l1 & l2 & E). rewrite E, streams_app, streams_cons in Hn.
    apply NoDup_app in Hn as (_ & _ & [Hab _]%NoDup_cons). set_solver.
  - apply (inv_pairs st I). set_solver.
Qed.

Definition dev (n : Z) : DeviceId := mkDeviceId (replicate 32 n).

Definition sample_key : list Z := replicate 32 9.

(** Two devices connect, one asks for the other, both session streams join. *)
Definition sample_registered : RelaySys :=
  register_client (accept_client (register_client (accept_client sys_init 1 (dev 1)) 1 (dev 1)) 2 (dev 2)) 2 (dev 2).

Definition sample_joined : RelaySys :=
  join_step (join_step (request_step sample_registered 1 (dev 1)
    (mkConnectRequest (device_id_bytes (dev 2))) sample_key) 10 sample_key) 11 sample_key.

Definition sample_forwarding : RelaySys := pair_ends sample_joined 10 11 sample_key true [].

Definition sample_join_data : list Z := join_session_request_encode (mkJoinSessionRequest sample_key).

Lemma sample_registered_reachable : relay_reachable sample_registered.
Proof.
  repeat (eapply rtc_r; [|first [apply RsAccept; reflexivity | apply RsRegister; reflexivity]]).
  apply rtc_refl.
Qed.

Lemma sample_forwarding_reachable : relay_reachable sample_forwarding.
Proof.
  eapply rtc_r; [|apply (RsPairEnds _ _ _ _ _ [] []); reflexivity].
  eapply rtc_r; [|apply (RsJoin _ _ sample_join_data); [vm_compute; set_solver|reflexivity]].
  eapply rtc_r; [|apply (RsJoin _ _ sample_join_data); [vm_compute; set_solver|reflexivity]].
  eapply rtc_r; [apply sample_registered_reachable|]. by apply RsRequest.
Qed.

Lemma relay_sessions_exclusive_witness :
  sys_forwarded sample_forwarding = [(10%nat, 11%nat, sample_key)] /\
  NoDup (streams (sys_forwarded sample_forwarding)).
Proof.
  split; [reflexivity|]. apply (relay_sessions_exclusive _ sample_forwarding_reachable).
Defined.

(** The registry never names a dead connection: in every reachable state a
    registered device's entry carries that device and the writer of a
    connection of it that is still being served. *)
Theorem relay_registry_sound st d cl :
  relay_reachable st -> rs_clients (sys_server st) !! d = Some cl ->
  rcl_device cl = d /\ sys_conns st !! rcl_writer cl = Some (d, ConnRegistered).
Proof. intros I%relay_reachable_inv. apply (inv_clients st I). Qed.

Lemma relay_registry_sound_witness :
  sys_conns sample_registered !! 2%nat = Some (dev 2, ConnRegistered).
Proof.
  apply (relay_registry_sound sample_registered (dev 2) (mkRelayClient (dev 2) 2)
           sample_registered_reachable). reflexivity.
Defined.

(** The server's chunk parser refines message-by-message handling: when a
    read delivers whole messages, followed by fewer bytes than a header, every
    message is handled, in order, and nothing else happens. *)
Theorem relay_read_refines s c d keys ms tail :
  Forall message_ok ms -> (length tail < 12)%nat ->
  protocol_read s c d keys (concat (relay_message_encode <$> ms) ++ tail) =
  handle_messages s c d keys ms.
Proof. apply process_data_messages. Qed.

Lemma relay_read_refines_witness :
  protocol_read relay_server_new 1 (dev 1) (fun _ => sample_key)
    (relay_message_encode RmPing ++ relay_message_encode RmJoinRelayRequest ++ [158; 121]) =
  (relay_server_new, [(1%nat, relay_message_encode RmPong);
                      (1%nat, relay_message_encode (RmResponse response_success))]).
Proof.
  apply (relay_read_refines relay_server_new 1 (dev 1) (fun _ => sample_key)
           [RmPing; RmJoinRelayRequest] [158; 121]); [|cbn; lia].
  repeat constructor; by vm_compute.
Defined.

Lemma wrong_first_byte s c d keys fuel b data :
  b <> 158 -> Forall is_byte (b :: data) ->
  process_data fuel s c d keys (b :: data) = (s, []).
Proof.
  intros Hb Hby. destruct fuel; [done|]. cbn [process_data]. destruct (_ <? _)%nat eqn:El; [done|].
  destruct (relay_header_decode (b :: data)) as [[h rest]|] eqn:E; [|done].
  apply header_decode_Some in E as (len & _ & L & Hm & _).
  destruct (Z.eqb_spec (rh_magic h) RELAY_MAGIC) as [Em|]; [|done]. exfalso. apply Hb.
  assert (length (take 4 (b :: data)) = 4%nat) as L4.
  { rewrite length_take in *. lia. }
  pose proof (be_split_combine (take 4 (b :: data)) (Forall_take _ _ _ Hby)) as Hs.
  rewrite L4, <-Hm, Em in Hs. by injection Hs.
Qed.

Lemma partial_message s c d keys m k :
  message_ok m -> (k < length (relay_message_encode m))%nat ->
  protocol_read s c d keys (take k (relay_message_encode m)) = (s, []).
Proof.
  intros [_ Hl] Hk. unfold protocol_read. revert Hk. rewrite encode_message_eq. unfold encode_header_of.
  rewrite to_signed_id by (lia || (apply in_i32_small; lia)).
  set (h := relay_header_encode _). assert (length h = 12%nat) as Lh by apply length_header.
  rewrite length_app, Lh. intros Hk. destruct (decide (k < 12)%nat) as [Hs|Hs].
  - apply process_data_partial. rewrite length_take. lia.
  - rewrite take_app_ge by lia.
    destruct (length (h ++ _)) as [|fuel]; [done|]. cbn [process_data]. destruct (_ <? _)%nat; [done|].
    unfold h. rewrite decode_header by (apply in_i32_small; lia). cbn [rh_magic rh_type rh_length].
    destruct (negb _); [done|]. rewrite Z.max_l, Nat2Z.id by lia.
    rewrite (proj2 (Nat.ltb_lt _ _)); [done|]. rewrite length_take. rewrite length_header in *.
    unfold RELAY_HEADER_SIZE. lia.
Qed.

(** The server does not keep an incomplete message for the next read: a
    message that arrives in two pieces, cut anywhere inside, has no effect and
    is never answered (as long as its later bytes do not contain the first
    byte of the magic number, and so cannot look like a message themselves). *)
Theorem relay_split_message_lost s c d keys m k :
  message_ok m -> 158 ∉ drop 1 (relay_message_encode m) ->
  (0 < k < length (relay_message_encode m))%nat ->
  protocol_reads s c d keys [take k (relay_message_encode m); drop k (relay_message_encode m)] = (s, []).
Proof.
  intros Hm H158 [H0 Hk]. cbn [protocol_reads]. rewrite partial_message by done.
  unfold protocol_read. destruct (drop k (relay_message_encode m)) as [|b rest] eqn:E; [done|].
  rewrite wrong_first_byte; [done| |].
  - intros ->. apply H158. apply list_elem_of_lookup. exists (k - 1)%nat. rewrite lookup_drop.
    replace (1 + (k - 1))%nat with (k + 0)%nat by lia. by rewrite <-lookup_drop, E.
  - rewrite <-E. apply Forall_drop. by apply encode_message_bytes.
Qed.

Lemma relay_split_message_lost_witness :
  protocol_reads relay_server_new 1 (dev 1) (fun _ _ => sample_key)
    [take 5 (relay_message_encode RmPing); drop 5 (relay_message_encode RmPing)] = (relay_server_new, []) /\
  protocol_reads relay_server_new 1 (dev 1) (fun _ _ => sample_key) [relay_message_encode RmPing] =
    (relay_server_new, [(1%nat, relay_message_encode RmPong)]).
Proof.
  split; [|reflexivity]. apply relay_split_message_lost.
  - split; [done|by vm_compute].
  - vm_compute. set_solver.
  - vm_compute. lia.
Defined.

(** A device that reconnects before its old connection has ended becomes
    unreachable: when the old connection ends, the entry of the new, still
    served connection is removed, and requests for the device are answered
    with "not found". *)
Theorem relay_reconnect_unregistered st c1 c2 d :
  c1 <> c2 ->
  sys_conns st !! c1 = Some (d, ConnRegistered) -> sys_conns st !! c2 = Some (d, ConnRegistered) ->
  length (device_id_bytes d) = 32%nat ->
  let st' := end_client st c1 d in
  relay_step st st' /\ sys_conns st' !! c2 = Some (d, ConnRegistered) /\
  forall from writer key,
    handle_connect_request (sys_server st') from (mkConnectRequest (device_id_bytes d)) writer key =
    (sys_server st', [(writer, relay_message_encode (RmResponse response_not_found))]).
Proof.
  intros Hne H1 H2 Hl st'. split; [by constructor|]. split; [by cbn; rewrite lookup_insert_ne|].
  intros from writer key. unfold handle_connect_request, from_bytes. cbn [cr_id]. rewrite Hl. cbn [Nat.eqb].
  destruct d as [bs]. cbn. by rewrite lookup_delete_eq.
Qed.

Lemma relay_reconnect_unregistered_witness :
  let st := register_client (accept_client sample_registered 3 (dev 2)) 3 (dev 2) in
  relay_step st (end_client st 2 (dev 2)) /\
  sys_conns (end_client st 2 (dev 2)) !! 3%nat = Some (dev 2, ConnRegistered).
Proof.
  intros st. pose proof (relay_reconnect_unregistered st 2 3 (dev 2) ltac:(done) eq_refl eq_refl eq_refl)
    as (H1 & H2 & _). by split.
Defined.

(** A request for a registered device makes the server send both ends an
    invitation that the client's reader accepts, with the same key, a pending
    session under that key, and opposite roles.  Both invitations leave the
    address empty and carry port 0, and the client's address resolution keeps
    that port: no session address it returns has a usable port. *)
Theorem relay_invitations s from target writer key cl :
  rs_clients s !! target = Some cl -> length (device_id_bytes target) = 32%nat ->
  opaque_ok (device_id_bytes from) -> opaque_ok key ->
  (length (device_id_bytes from) <= 32)%nat -> (length key <= 32)%nat ->
  exists s' i1 i2,
    handle_connect_request s from (mkConnectRequest (device_id_bytes target)) writer key =
      (s', [(writer, relay_message_encode (RmSessionInvitation i1));
            (rcl_writer cl, relay_message_encode (RmSessionInvitation i2))]) /\
    (forall i rest, i = i1 \/ i = i2 ->
       read_message (relay_message_encode (RmSessionInvitation i) ++ rest) = (Ok (RmSessionInvitation i), rest)) /\
    si_key i1 = key /\ si_key i2 = key /\ si_server_socket i1 = negb (si_server_socket i2) /\
    rs_pending s' !! key = Some (mkPendingSession from target None) /\
    (forall proto i addr, i = i1 \/ i = i2 -> resolve_session_addr proto i = Ok addr -> sa_port addr = 0).
Proof.
  intros Hc Hl Hf Hk Hlf Hlk.
  exists (mkRelayServer (rs_clients s) (<[key := mkPendingSession from target None]> (rs_pending s))),
    (inv_to_initiator from key), (inv_to_target from key).
  split_and!; try done.
  - unfold handle_connect_request, from_bytes. cbn [cr_id]. rewrite Hl. cbn [Nat.eqb].
    destruct target as [bs]. cbn in Hc |- *. by rewrite Hc.
  - intros i rest Hi. apply read_encoded.
    assert (padded_len (length (device_id_bytes from)) <= 36 /\ padded_len (length key) <= 36)%nat as [P1 P2].
    { rewrite !padded_len_pad. pose proof (Nat.mod_upper_bound (4 - length (device_id_bytes from) mod 4) 4).
      pose proof (Nat.mod_upper_bound (4 - length key mod 4) 4). lia. }
    assert (opaque_ok []) as Hnil by (split; [constructor|by vm_compute]).
    destruct Hi as [->| ->]; (split; [split_and!; try done|]);
      cbn [message_body enc session_invitation_codec opaque_codec inv_to_initiator inv_to_target
           si_from si_key si_address si_port si_server_socket];
      autorewrite with wire; rewrite !length_encode_opaque; cbn [length];
      change (padded_len 0) with 0%nat; unfold MAX_RELAY_BODY; lia.
  - cbn. by rewrite lookup_insert_eq.
  - intros proto i addr Hi. unfold resolve_session_addr.
    assert (si_address i = [] /\ si_port i = 0) as [-> ->] by (by destruct Hi as [->| ->]).
    rewrite decide_True by done. cbn [result_bind].
    destruct (_ || _ || _); [done|]. cbn [sa_ip]. destruct (sa_ip proto) as [os|ss].
    + destruct (v4_link_local os); [done|]. by intros [= <-].
    + by intros [= <-].
Qed.

Lemma relay_invitations_witness :
  exists s' i1 i2,
    handle_connect_request (sys_server sample_registered) (dev 1) (mkConnectRequest (device_id_bytes (dev 2))) 1 sample_key =
      (s', [(1%nat, relay_message_encode (RmSessionInvitation i1));
            (2%nat, relay_message_encode (RmSessionInvitation i2))]).
Proof.
  assert (opaque_ok sample_key /\ opaque_ok (device_id_bytes (dev 1))) as [Hk Hd]
    by (split; (split; [by apply Forall_replicate; vm_compute|by vm_compute])).
  destruct (relay_invitations (sys_server sample_registered) (dev 1) (dev 2) 1 sample_key (mkRelayClient (dev 2) 2)
    eq_refl eq_refl Hd Hk) as (s' & i1 & i2 & E & _); [cbn; lia..|]. by exists s', i1, i2.
Defined.
