(* ===== verification/Derp.v ===== *)
(** * The DERP relay ([crates/syncthing-net/src/derp])

    Frames ([protocol.rs]), the server that forwards packets between
    registered devices ([server.rs]), the byte pipe over it ([pipe.rs],
    [transport.rs]) and the stand-alone client ([client.rs]).  Tasks exchange
    data through bounded channels, which are lists here; sockets are the bytes
    that pass through them. *)

From S2P Require Import Prelude Core Connection Bep Wire Net.

(** ** Frames *)

Definition PROTOCOL_VERSION : Z := 1.
Definition MAX_FRAME_SIZE : Z := 1000000.

Inductive FrameType := FtClientInfo | FtServerInfo | FtSendPacket | FtRecvPacket | FtKeepAlive | FtClosePeer.

Definition frame_type_code (t : FrameType) : Z :=
  match t with
  | FtClientInfo => 1
  | FtServerInfo => 2
  | FtSendPacket => 3
  | FtRecvPacket => 4
  | FtKeepAlive => 5
  | FtClosePeer => 6
  end.

Definition frame_type_from_u8 (v : Z) : option FrameType :=
  match v with
  | 1 => Some FtClientInfo
  | 2 => Some FtServerInfo
  | 3 => Some FtSendPacket
  | 4 => Some FtRecvPacket
  | 5 => Some FtKeepAlive
  | 6 => Some FtClosePeer
  | _ => None
  end.

Inductive Frame :=
| FrClientInfo (device_id : DeviceId) (version : Z)
| FrServerInfo (version : Z)
| FrSendPacket (target : DeviceId) (payload : list Z)
| FrRecvPacket (from : DeviceId) (payload : list Z)
| FrKeepAlive
| FrClosePeer (target : DeviceId).

Definition frame_type (f : Frame) : FrameType :=
  match f with
  | FrClientInfo _ _ => FtClientInfo
  | FrServerInfo _ => FtServerInfo
  | FrSendPacket _ _ => FtSendPacket
  | FrRecvPacket _ _ => FtRecvPacket
  | FrKeepAlive => FtKeepAlive
  | FrClosePeer _ => FtClosePeer
  end.

Definition frame_body (f : Frame) : list Z :=
  put_u8 (frame_type_code (frame_type f)) ++
  match f with
  | FrClientInfo device_id version => device_id_bytes device_id ++ put_u8 version
  | FrServerInfo version => put_u8 version
  | FrSendPacket target payload =>
      device_id_bytes target ++ put_u32 (wrap 32 (Z.of_nat (length payload))) ++ payload
  | FrRecvPacket from payload =>
      device_id_bytes from ++ put_u32 (wrap 32 (Z.of_nat (length payload))) ++ payload
  | FrKeepAlive => []
  | FrClosePeer target => device_id_bytes target
  end.

Definition frame_encode (f : Frame) : list Z :=
  put_u32 (wrap 32 (Z.of_nat (length (frame_body f)))) ++ frame_body f.

Inductive DerpError :=
| DeTooLarge (n : Z)
| DeTooShort
| DeUnknownType
| DeFrameTooShort (t : FrameType)
| DeTruncated (t : FrameType)
| DeIo
| DeVersion (v : Z)
| DeUnexpected (f : Frame)
| DeIncomplete
| DeBusy.

(** A packet body: device and length-prefixed payload. *)
Definition packet_decode (t : FrameType) (mk : DeviceId -> list Z -> Frame) (payload_len : Z)
    : Reader (result DerpError Frame) :=
  if payload_len <? 1 + 32 + 4 then r_ret (Err (DeFrameTooShort t))
  else
    let< id := get_bytes 32 in
    let< data_len := get_u32 in
    if payload_len <? 1 + 32 + 4 + data_len then r_ret (Err (DeTruncated t))
    else
      let< payload := get_bytes (Z.to_nat data_len) in
      r_ret (Ok (mk (mkDeviceId id) payload)).

(** The [match frame_type]: reading past the end of the buffer panics
    ([None]). *)
Definition frame_payload (t : FrameType) (payload_len : Z) : Reader (result DerpError Frame) :=
  match t with
  | FtClientInfo =>
      if payload_len <? 1 + 32 then r_ret (Err (DeFrameTooShort t))
      else
        let< id := get_bytes 32 in
        let< version := get_u8 in
        r_ret (Ok (FrClientInfo (mkDeviceId id) version))
  | FtServerInfo =>
      if payload_len <? 2 then r_ret (Err (DeFrameTooShort t))
      else let< version := get_u8 in r_ret (Ok (FrServerInfo version))
  | FtSendPacket => packet_decode t FrSendPacket payload_len
  | FtRecvPacket => packet_decode t FrRecvPacket payload_len
  | FtKeepAlive => r_ret (Ok FrKeepAlive)
  | FtClosePeer =>
      if payload_len <? 1 + 32 then r_ret (Err (DeFrameTooShort t))
      else let< id := get_bytes 32 in r_ret (Ok (FrClosePeer (mkDeviceId id)))
  end.

(** [Frame::decode]: [None] is a panic; otherwise the result (with [Ok None]
    when more data is needed) and what is left in the buffer. *)
Definition frame_decode (buf : list Z) : option (result DerpError (option (Frame * nat)) * list Z) :=
  if (length buf <? 4)%nat then Some (Ok None, buf)
  else
    let payload_len := be_combine (take 4 buf) in
    if MAX_FRAME_SIZE <? payload_len then Some (Err (DeTooLarge payload_len), buf)
    else
      let total_len := (4 + Z.to_nat payload_len)%nat in
      if (length buf <? total_len)%nat then Some (Ok None, buf)
      else
        let buf := drop 4 buf in
        if payload_len <? 1 then Some (Err DeTooShort, buf)
        else
          (let< b := get_u8 in
           match frame_type_from_u8 b with
           | None => r_ret (Err DeUnknownType)
           | Some t =>
               let< r := frame_payload t payload_len in
               r_ret (result_map (fun f => Some (f, total_len)) r)
           end) buf.

(** ** Reading frames off a socket

    [read_exact] of the length, the limit, [read_exact] of the payload, and
    [decode] on the two together. *)
Definition socket_read (n : nat) : SE (list Z) DerpError (list Z) := fun inb =>
  match get_bytes n inb with
  | Some (bs, rest) => (Ok bs, rest)
  | None => (Err DeIo, [])
  end.

(** [limited]: whether the length is checked against [MAX_FRAME_SIZE] before
    the payload is read. *)
Definition read_raw_frame (limited : bool) : SE (list Z) DerpError (list Z) :=
  let! len_buf := socket_read 4 in
  let payload_len := be_combine len_buf in
  if limited && (MAX_FRAME_SIZE <? payload_len) then se_throw (DeTooLarge payload_len)
  else
    let! payload := socket_read (Z.to_nat payload_len) in
    se_ret (len_buf ++ payload).

(** The handshake read of both ends; [None] is a panic. *)
Definition read_first_frame (inb : list Z) : option (result DerpError Frame * list Z) :=
  match read_raw_frame false inb with
  | (Err e, rest) => Some (Err e, rest)
  | (Ok raw, rest) =>
      let+ (r, _) := frame_decode raw in
      Some (let? o := r in match o with Some (f, _) => Ok f | None => Err DeIncomplete end, rest)
  end.

(** ** The server *)

Abbreviation DerpConn := nat.

Definition CHANNEL_CAPACITY : nat := 1024.

Record ClientHandle := mkClientHandle {
  ch_addr : SocketAddr;
  ch_last_activity : Z;
  (** the connection whose write task receives the frames *)
  ch_tx : DerpConn;
}.

Record DerpServer := mkDerpServer {
  ds_clients : gmap DeviceId ClientHandle;
  ds_addr_index : gmap SocketAddr DeviceId;
  (** frames waiting in the channel of a connection *)
  ds_queues : gmap DerpConn (list Frame);
}.

Definition derp_server_new : DerpServer := mkDerpServer ∅ ∅ ∅.

(** [tx.try_send(frame)]: fails on a full or closed channel. *)
Definition try_send (s : DerpServer) (tx : DerpConn) (f : Frame) : DerpServer * bool :=
  match ds_queues s !! tx with
  | Some q =>
      if (length q <? CHANNEL_CAPACITY)%nat
      then (mkDerpServer (ds_clients s) (ds_addr_index s) (<[tx := q ++ [f]]> (ds_queues s)), true)
      else (s, false)
  | None => (s, false)
  end.

(** The first frame of a connection has to be a ClientInfo of our version. *)
Definition accept_client_info (frame : Frame) : result DerpError DeviceId :=
  match frame with
  | FrClientInfo device_id version =>
      if negb (version =? PROTOCOL_VERSION) then Err (DeVersion version) else Ok device_id
  | other => Err (DeUnexpected other)
  end.

Definition derp_register (s : DerpServer) (d : DeviceId) (addr : SocketAddr) (conn : DerpConn) (now : Z)
    : DerpServer :=
  let index := match ds_clients s !! d with
               | Some old => delete (ch_addr old) (ds_addr_index s)
               | None => ds_addr_index s
               end in
  mkDerpServer (<[d := mkClientHandle addr now conn]> (ds_clients s)) (<[addr := d]> index)
    (<[conn := []]> (ds_queues s)).

(** [*last_activity.write() = now]: the cell is shared with the client's entry
    as long as that entry is this connection's. *)
Definition derp_touch (s : DerpServer) (d : DeviceId) (conn : DerpConn) (now : Z) : DerpServer :=
  match ds_clients s !! d with
  | Some h =>
      if decide (ch_tx h = conn)
      then mkDerpServer (<[d := mkClientHandle (ch_addr h) now conn]> (ds_clients s))
             (ds_addr_index s) (ds_queues s)
      else s
  | None => s
  end.

(** What the read loop does with a decoded frame. *)
Definition derp_handle_frame (s : DerpServer) (d : DeviceId) (frame : Frame) : DerpServer :=
  match frame with
  | FrSendPacket target payload =>
      match ds_clients s !! target with
      | Some target_client => (try_send s (ch_tx target_client) (FrRecvPacket d payload)).1
      | None => s
      end
  | _ => s
  end.

(** The read task on the bytes of its socket; it ends with the socket, with an
    oversized frame, or with a panic ([None]).  Every round reads four bytes. *)
Fixpoint derp_read_loop (fuel : nat) (s : DerpServer) (d : DeviceId) (conn : DerpConn) (now : Z)
    (inb : list Z) : option DerpServer :=
  match fuel with
  | O => Some s
  | S fuel' =>
      match read_raw_frame true inb with
      | (Err _, _) => Some s
      | (Ok raw, rest) =>
          let s := derp_touch s d conn now in
          match frame_decode raw with
          | None => None
          | Some (Ok (Some (frame, _)), _) =>
              derp_read_loop fuel' (derp_handle_frame s d frame) d conn now rest
          | Some (_, _) => derp_read_loop fuel' s d conn now rest
          end
      end
  end.

Definition derp_read_task (s : DerpServer) (d : DeviceId) (conn : DerpConn) (now : Z) (inb : list Z)
    : option DerpServer :=
  derp_read_loop (length inb) s d conn now inb.

(** The end of [handle_client]: the entry is removed if it is still this
    connection's; a newer one is put back. *)
Definition derp_disconnect (s : DerpServer) (d : DeviceId) (addr : SocketAddr) (conn : DerpConn) : DerpServer :=
  let queues := delete conn (ds_queues s) in
  match ds_clients s !! d with
  | Some removed =>
      if decide (ch_addr removed = addr)
      then mkDerpServer (delete d (ds_clients s)) (delete addr (ds_addr_index s)) queues
      else mkDerpServer (<[d := removed]> (delete d (ds_clients s))) (ds_addr_index s) queues
  | None => mkDerpServer (ds_clients s) (ds_addr_index s) queues
  end.

(** One removal of the cleanup task. *)
Definition derp_remove_idle (s : DerpServer) (d : DeviceId) : DerpServer :=
  match ds_clients s !! d with
  | Some client =>
      (try_send (mkDerpServer (delete d (ds_clients s)) (delete (ch_addr client) (ds_addr_index s))
                   (ds_queues s)) (ch_tx client) (FrClosePeer d)).1
  | None => s
  end.

(** One tick of the cleanup task, [idle] in the order the map is walked. *)
Definition idle_clients (s : DerpServer) (now timeout : Z) : list DeviceId :=
  omap (fun '(d, h) => if timeout <? now - ch_last_activity h then Some d else None)
       (map_to_list (ds_clients s)).

Definition derp_cleanup (s : DerpServer) (now timeout : Z) : DerpServer :=
  foldl derp_remove_idle s (idle_clients s now timeout).

(** ** The byte pipe *)

Record DerpPipe := mkDerpPipe {
  dp_target : DeviceId;
  dp_local : DeviceId;
  (** encoded frames waiting for the send task; [None] after shutdown *)
  dp_write : option (list (list Z));
  (** payloads waiting for the reader; closed when the receive task has ended *)
  dp_read : list (list Z);
  dp_open : bool;
  dp_read_buffer : list Z;
}.

Definition derp_pipe_new (target local : DeviceId) : DerpPipe :=
  mkDerpPipe target local (Some []) [] true [].

Definition poll_write (p : DerpPipe) (buf : list Z) : DerpPipe * result unit nat :=
  match dp_write p with
  | Some q =>
      if (length q <? CHANNEL_CAPACITY)%nat then
        (mkDerpPipe (dp_target p) (dp_local p) (Some (q ++ [frame_encode (FrSendPacket (dp_target p) buf)]))
           (dp_read p) (dp_open p) (dp_read_buffer p), Ok (length buf))
      else (p, Err tt)
  | None => (p, Err tt)
  end.

Definition poll_shutdown (p : DerpPipe) : DerpPipe :=
  mkDerpPipe (dp_target p) (dp_local p) None (dp_read p) (dp_open p) (dp_read_buffer p).

(** [Some bs]: the bytes a read of capacity [n] returns, none at the end of
    the stream; [None]: pending. *)
Definition poll_read (p : DerpPipe) (n : nat) : DerpPipe * option (list Z) :=
  let set rd buf := mkDerpPipe (dp_target p) (dp_local p) (dp_write p) rd (dp_open p) buf in
  match dp_read_buffer p with
  | _ :: _ => (set (dp_read p) (drop n (dp_read_buffer p)), Some (take n (dp_read_buffer p)))
  | [] =>
      match dp_read p with
      | bytes :: rd => (set rd (drop n bytes), Some (take n bytes))
      | [] => if dp_open p then (p, None) else (p, Some [])
      end
  end.

(** [recv_task] on the bytes of its socket ([None] is a panic); when it ends
    the reading channel is closed. *)
Fixpoint recv_loop (fuel : nat) (inb : list Z) (q : list (list Z)) : option (list (list Z) * bool) :=
  match fuel with
  | O => Some (q, false)
  | S fuel' =>
      match read_raw_frame true inb with
      | (Err _, _) => Some (q, false)
      | (Ok raw, rest) =>
          match frame_decode raw with
          | None => None
          | Some (Ok (Some (FrRecvPacket _ payload, _)), _) =>
              if (length q <? CHANNEL_CAPACITY)%nat then recv_loop fuel' rest (q ++ [payload])
              else Some (q, false)
          | Some (Ok _, _) => recv_loop fuel' rest q
          | Some (Err _, _) => Some (q, false)
          end
      end
  end.

Definition recv_task (p : DerpPipe) (inb : list Z) : option DerpPipe :=
  let+ (q, open) := recv_loop (length inb) inb (dp_read p) in
  Some (mkDerpPipe (dp_target p) (dp_local p) (dp_write p) q open (dp_read_buffer p)).

(** ** The client's handshake ([DerpTransport::connect_server]) *)

Definition connect_server (local : DeviceId) (inb : list Z) : option (result DerpError (list Z) * list Z) :=
  let sent := frame_encode (FrClientInfo local PROTOCOL_VERSION) in
  let+ (r, rest) := read_first_frame inb in
  Some (let? f := r in match f with
                       | FrServerInfo _ => Ok rest
                       | other => Err (DeUnexpected other)
                       end, sent).

(** ** The stand-alone client ([client.rs]) *)

Inductive DerpClientState := DcDisconnected | DcConnecting | DcConnected.

#[global] Instance DerpClientState_eq_dec : EqDecision DerpClientState.
Proof. solve_decision. Defined.

(** [connect]: [socket] is what the connection attempt gives (with [None] for
    a failure or time-out), the bytes the server answers with. *)
Definition derp_client_connect (device_id : DeviceId) (socket : option (list Z)) (st : DerpClientState)
    : option (result DerpError unit * DerpClientState) :=
  if negb (bool_decide (st = DcDisconnected)) then Some (Err DeBusy, st)
  else
    match socket with
    | None => Some (Err DeIo, DcConnecting)
    | Some inb =>
        let+ (r, _) := connect_server device_id inb in
        Some (match r with
              | Ok _ => (Ok tt, DcConnected)
              | Err e => (Err e, DcConnecting)
              end)
    end.

(** ** Frame laws *)

Definition device_ok (d : DeviceId) : Prop :=
  length (device_id_bytes d) = 32%nat /\ Forall is_byte (device_id_bytes d).

(** What the Rust types guarantee of a frame, and that it fits the limit. *)
Definition frame_ok (f : Frame) : Prop :=
  match f with
  | FrClientInfo d v => device_ok d /\ in_u 8 v
  | FrServerInfo v => in_u 8 v
  | FrSendPacket d p | FrRecvPacket d p => device_ok d /\ Forall is_byte p
  | FrKeepAlive => True
  | FrClosePeer d => device_ok d
  end /\ Z.of_nat (length (frame_body f)) <= MAX_FRAME_SIZE.

(** The decoder on a complete frame whose length prefix is right. *)
Lemma frame_decode_complete n body rest :
  n = Z.of_nat (length body) -> 1 <= n <= MAX_FRAME_SIZE ->
  frame_decode (put_u32 n ++ body ++ rest) =
  (let< b := get_u8 in
   match frame_type_from_u8 b with
   | None => r_ret (Err DeUnknownType)
   | Some t =>
       let< r := frame_payload t n in
       r_ret (result_map (fun f => Some (f, (4 + length body)%nat)) r)
   end) (body ++ rest).
Proof.
  intros -> [H1 H2]. unfold frame_decode.
  assert (in_u 32 (Z.of_nat (length body))) as H32 by (unfold in_u; unfold MAX_FRAME_SIZE in H2; lia).
  rewrite !length_app, length_put_u32, (proj2 (Nat.ltb_ge _ _)) by lia.
  rewrite (take_app_length' (put_u32 _)) by (by rewrite length_put_u32).
  unfold put_u32. rewrite (be_combine_split_id 4) by done.
  rewrite (proj2 (Z.ltb_ge _ _)) by lia. rewrite Nat2Z.id, (proj2 (Nat.ltb_ge _ _)) by lia.
  rewrite (drop_app_length' (be_split 4 _)) by (by rewrite length_be_split).
  by rewrite (proj2 (Z.ltb_ge _ _)) by lia.
Qed.

Lemma frame_type_roundtrip t : frame_type_from_u8 (frame_type_code t) = Some t.
Proof. by destruct t. Qed.

Lemma get_id d rest : device_ok d -> get_bytes 32 (device_id_bytes d ++ rest) = Some (device_id_bytes d, rest).
Proof. intros [Hl _]. by apply get_bytes_app. Qed.

Lemma mkDeviceId_bytes d : mkDeviceId (device_id_bytes d) = d.
Proof. by destruct d. Qed.

Lemma packet_decode_run t mk d p rest n :
  device_ok d -> n = 1 + 32 + 4 + Z.of_nat (length p) -> in_u 32 (Z.of_nat (length p)) ->
  packet_decode t mk n (device_id_bytes d ++ put_u32 (wrap 32 (Z.of_nat (length p))) ++ p ++ rest) =
  Some (Ok (mk d p), rest).
Proof.
  intros Hd -> Hp. unfold packet_decode. rewrite (proj2 (Z.ltb_ge _ _)) by lia.
  rewrite (r_bind_run _ _ _ _ _ (get_id d _ Hd)), wrap_id by done.
  rewrite (r_bind_run _ _ _ _ _ (get_u32_put _ _ Hp)), (proj2 (Z.ltb_ge _ _)) by lia.
  rewrite Nat2Z.id, (r_bind_run _ _ _ _ _ (get_bytes_app _ p rest eq_refl)).
  by rewrite mkDeviceId_bytes.
Qed.

Lemma packet_length z d p :
  device_ok d -> Z.of_nat (length (put_u8 z ++ device_id_bytes d ++ put_u32 (wrap 32 (Z.of_nat (length p))) ++ p))
  = 1 + 32 + 4 + Z.of_nat (length p).
Proof. intros [Hl _]. rewrite !length_app, Hl, length_put_u32, length_put_u8. lia. Qed.

Lemma frame_payload_run f rest :
  frame_ok f ->
  frame_payload (frame_type f) (Z.of_nat (length (frame_body f))) (drop 1 (frame_body f) ++ rest) =
  Some (Ok f, rest).
Proof.
  intros [Hf Hl]. assert (forall z, length (put_u8 z) = 1%nat) as L1 by (intros; apply length_put_u8).
  assert (forall z (l : list Z), drop 1 (put_u8 z ++ l) = l) as Hd
    by (intros; by rewrite (drop_app_length' (put_u8 z))).
  destruct f as [d v|v|d p|d p| |d]; unfold frame_body in *; rewrite Hd; cbn [frame_type frame_payload] in *.
  - destruct Hf as [Hdv Hv]. rewrite !length_app, !L1, (proj1 Hdv). cbn [Nat.add].
    rewrite <-(assoc_L (++)). rewrite (proj2 (Z.ltb_ge _ _)) by lia.
    rewrite (r_bind_run _ _ _ _ _ (get_id d _ Hdv)), (r_bind_run _ _ _ _ _ (get_u8_put v rest Hv)).
    unfold r_ret. by rewrite mkDeviceId_bytes.
  - rewrite !length_app, !L1. cbn [Nat.add]. rewrite (proj2 (Z.ltb_ge _ _)) by lia.
    by rewrite (r_bind_run _ _ _ _ _ (get_u8_put v rest Hf)).
  - destruct Hf as [Hdv Hp]. rewrite <-!(assoc_L (++)). rewrite packet_length in * by done.
    apply packet_decode_run; [done|done|unfold in_u; unfold MAX_FRAME_SIZE in Hl; lia].
  - destruct Hf as [Hdv Hp]. rewrite <-!(assoc_L (++)). rewrite packet_length in * by done.
    apply packet_decode_run; [done|done|unfold in_u; unfold MAX_FRAME_SIZE in Hl; lia].
  - done.
  - rewrite !length_app, !L1, (proj1 Hf). cbn [Nat.add]. rewrite (proj2 (Z.ltb_ge _ _)) by lia.
    rewrite (r_bind_run _ _ _ _ _ (get_id d rest Hf)). unfold r_ret. by rewrite mkDeviceId_bytes.
Qed.

Lemma frame_body_cons f : frame_body f = put_u8 (frame_type_code (frame_type f)) ++ drop 1 (frame_body f).
Proof. unfold frame_body. by rewrite (drop_app_length' (put_u8 _)) by (by rewrite length_put_u8). Qed.

Lemma frame_body_pos f : 1 <= Z.of_nat (length (frame_body f)).
Proof. rewrite frame_body_cons, length_app, length_put_u8. lia. Qed.

Lemma length_frame_encode f : length (frame_encode f) = (4 + length (frame_body f))%nat.
Proof. unfold frame_encode. by rewrite length_app, length_put_u32. Qed.

Lemma frame_encode_eq f :
  frame_ok f -> frame_encode f = put_u32 (Z.of_nat (length (frame_body f))) ++ frame_body f.
Proof.
  intros [_ Hl]. unfold frame_encode.
  by rewrite wrap_id by (unfold in_u; unfold MAX_FRAME_SIZE in Hl; lia).
Qed.

Lemma frame_decode_encode f rest :
  frame_ok f ->
  frame_decode (frame_encode f ++ rest) = Some (Ok (Some (f, length (frame_encode f))), rest).
Proof.
  intros Hf. pose proof (frame_payload_run f rest Hf) as HP. pose proof (frame_body_pos f) as H1.
  rewrite length_frame_encode, frame_encode_eq, <-(assoc_L (++)) by done.
  rewrite (frame_decode_complete _ _ rest eq_refl) by (split; [done|apply Hf]).
  assert (frame_body f ++ rest =
          put_u8 (frame_type_code (frame_type f)) ++ drop 1 (frame_body f) ++ rest) as ->
    by (rewrite (assoc_L (++)); f_equal; apply frame_body_cons).
  rewrite (r_bind_run _ _ _ (frame_type_code (frame_type f)) (drop 1 (frame_body f) ++ rest))
    by (apply get_u8_put; by destruct (frame_type f)).
  rewrite frame_type_roundtrip, (r_bind_run _ _ _ _ _ HP). done.
Qed.

Lemma frame_encode_bytes f : frame_ok f -> Forall is_byte (frame_encode f).
Proof.
  intros [Hf _]. unfold frame_encode, frame_body. rewrite !Forall_app.
  split_and!; [apply be_split_bytes..|].
  destruct f as [d v|v|d p|d p| |d]; rewrite ?Forall_app; unfold device_ok in *;
    split_and?; try apply be_split_bytes; try done; try apply Forall_nil_2; apply Hf.
Qed.

#[export] Instance frame_codec : Codec Frame :=
  {| enc := frame_encode;
     dec := fun buf => match frame_decode buf with
                       | Some (Ok (Some (f, _)), rest) => Some (f, rest)
                       | _ => None
                       end;
     representable := frame_ok |}.

#[export] Instance frame_laws : CodecLaws Frame.
Proof.
  split; cbn [enc dec representable frame_codec]; [|apply frame_encode_bytes].
  intros f rest Hf. by rewrite frame_decode_encode.
Qed.

(** ** Reading and forwarding *)

Lemma socket_read_app n xs rest : length xs = n -> socket_read n (xs ++ rest) = (Ok xs, rest).
Proof. intros H. unfold socket_read. by rewrite (get_bytes_app n xs rest H). Qed.

Lemma read_raw_frame_run b f rest :
  frame_ok f -> read_raw_frame b (frame_encode f ++ rest) = (Ok (frame_encode f), rest).
Proof.
  intros Hf. destruct (Hf) as [_ Hl]. rewrite frame_encode_eq, <-(assoc_L (++)) by done.
  assert (in_u 32 (Z.of_nat (length (frame_body f)))) as H32 by (unfold in_u; unfold MAX_FRAME_SIZE in Hl; lia).
  unfold read_raw_frame. rewrite (se_bind_run _ _ _ _ _ (socket_read_app 4 _ _ (length_put_u32 _))).
  unfold put_u32 at 1 2 3 4. rewrite (be_combine_split_id 4) by done.
  rewrite (proj2 (Z.ltb_ge _ _)), andb_false_r by done.
  rewrite Nat2Z.id, (se_bind_run _ _ _ _ _ (socket_read_app _ _ rest eq_refl)). done.
Qed.

(** The read loop on well-formed frames. *)
Lemma derp_read_loop_run fs fuel s d conn now :
  Forall frame_ok fs -> (length (concat (frame_encode <$> fs)) <= fuel)%nat ->
  derp_read_loop fuel s d conn now (concat (frame_encode <$> fs)) =
  Some (foldl (fun s f => derp_handle_frame (derp_touch s d conn now) d f) s fs).
Proof.
  intros Hfs. revert fuel s. induction Hfs as [|f fs Hf _ IH]; intros fuel s Hl.
  - by destruct fuel.
  - cbn [fmap list_fmap concat foldl] in *. rewrite length_app, length_frame_encode in Hl.
    destruct fuel as [|fuel]; [lia|]. cbn [derp_read_loop]. rewrite read_raw_frame_run by done.
    rewrite <-(app_nil_r (frame_encode f)), frame_decode_encode by done. apply IH. lia.
Qed.

Lemma touch_tx s d conn now x :
  ch_tx <$> ds_clients (derp_touch s d conn now) !! x = ch_tx <$> ds_clients s !! x.
Proof.
  unfold derp_touch. destruct (ds_clients s !! d) as [h|] eqn:E; [|done]. case_decide as Eh; [|done].
  cbn. destruct (decide (d = x)) as [<-|Hn]; [by rewrite lookup_insert_eq, E, <-Eh|by rewrite lookup_insert_ne].
Qed.

Lemma touch_queues s d conn now : ds_queues (derp_touch s d conn now) = ds_queues s.
Proof. unfold derp_touch. repeat case_match; done. Qed.

Lemma try_send_clients s tx f : ds_clients (try_send s tx f).1 = ds_clients s.
Proof. unfold try_send. repeat case_match; done. Qed.

(** Packets for one target end up in its channel in order, until it is full. *)
Lemma forward_packets d conn now target tx bufs s q :
  ch_tx <$> ds_clients s !! target = Some tx -> ds_queues s !! tx = Some q ->
  (length q + length bufs <= CHANNEL_CAPACITY)%nat ->
  let s' := foldl (fun s f => derp_handle_frame (derp_touch s d conn now) d f) s (FrSendPacket target <$> bufs) in
  ds_queues s' !! tx = Some (q ++ (FrRecvPacket d <$> bufs)).
Proof.
  revert s q. induction bufs as [|b bufs IH]; intros s q Ht Hq Hl; cbn; [by rewrite app_nil_r|].
  rewrite <-(touch_tx s d conn now) in Ht. rewrite <-(touch_queues s d conn now) in Hq.
  set (s1 := derp_touch s d conn now) in *. cbn in Hl.
  destruct (ds_clients s1 !! target) as [h|] eqn:E; [|done]. injection Ht as Ht.
  rewrite (IH _ (q ++ [FrRecvPacket d b])).
  - by rewrite <-(assoc_L (++)).
  - by rewrite try_send_clients, E, <-Ht.
  - rewrite Ht. unfold try_send. rewrite Hq, (proj2 (Nat.ltb_lt _ _)) by lia. cbn. by rewrite lookup_insert_eq.
  - rewrite length_app. cbn. lia.
Qed.

(** The receive task of a pipe on forwarded packets, whoever sent them. *)
Lemma recv_loop_run pkts fuel q :
  Forall (fun '(d, b) => frame_ok (FrRecvPacket d b)) pkts ->
  (length (concat ((fun '(d, b) => frame_encode (FrRecvPacket d b)) <$> pkts)) <= fuel)%nat ->
  (length q + length pkts <= CHANNEL_CAPACITY)%nat ->
  recv_loop fuel (concat ((fun '(d, b) => frame_encode (FrRecvPacket d b)) <$> pkts)) q =
  Some (q ++ pkts.*2, false).
Proof.
  intros Hp. revert fuel q. induction Hp as [|[d b] pkts Hf _ IH]; intros fuel q Hl Hc.
  - cbn. destruct fuel; cbn; by rewrite app_nil_r.
  - cbn [fmap list_fmap concat] in *. rewrite length_app, length_frame_encode in Hl.
    destruct fuel as [|fuel]; [lia|]. cbn [recv_loop]. rewrite read_raw_frame_run by done.
    rewrite <-(app_nil_r (frame_encode (FrRecvPacket d b))), frame_decode_encode by done. cbn [length] in Hc.
    rewrite (proj2 (Nat.ltb_lt _ _)) by lia. rewrite IH by (lia || (rewrite length_app; cbn [length]; lia)).
    cbn. by rewrite <-(assoc_L (++)).
Qed.

(** ** Pipe contents *)

Definition pipe_content (p : DerpPipe) : list Z := dp_read_buffer p ++ concat (dp_read p).

Fixpoint poll_reads (p : DerpPipe) (ns : list nat) : DerpPipe * list (option (list Z)) :=
  match ns with
  | [] => (p, [])
  | n :: ns' =>
      let '(p1, r) := poll_read p n in
      let '(p2, rs) := poll_reads p1 ns' in
      (p2, r :: rs)
  end.

Definition read_bytes (r : option (list Z)) : list Z := from_option id [] r.

Lemma poll_read_content p n :
  read_bytes (poll_read p n).2 ++ pipe_content (poll_read p n).1 = pipe_content p.
Proof.
  unfold poll_read, pipe_content. destruct (dp_read_buffer p) as [|b bs] eqn:E; cbn.
  - destruct (dp_read p) as [|bytes rd] eqn:Er; cbn.
    + destruct (dp_open p); cbn; by rewrite E, Er.
    + by rewrite (assoc_L (++)), take_drop.
  - by rewrite (assoc_L (++)), take_drop.
Qed.

Lemma poll_reads_content p ns :
  concat (read_bytes <$> (poll_reads p ns).2) ++ pipe_content (poll_reads p ns).1 = pipe_content p.
Proof.
  revert p. induction ns as [|n ns IH]; intros p; [done|]. cbn.
  pose proof (poll_read_content p n) as Hp. destruct (poll_read p n) as [p1 r]. cbn in Hp.
  specialize (IH p1). destruct (poll_reads p1 ns) as [p2 rs]. cbn in *.
  by rewrite <-(assoc_L (++)), IH.
Qed.

(** The pipe after several writes. *)
Fixpoint poll_writes (p : DerpPipe) (bufs : list (list Z)) : DerpPipe * list (result unit nat) :=
  match bufs with
  | [] => (p, [])
  | b :: bufs' =>
      let '(p1, r) := poll_write p b in
      let '(p2, rs) := poll_writes p1 bufs' in
      (p2, r :: rs)
  end.

Lemma poll_writes_run p bufs q :
  dp_write p = Some q -> (length q + length bufs <= CHANNEL_CAPACITY)%nat ->
  dp_write (poll_writes p bufs).1 =
    Some (q ++ ((fun b => frame_encode (FrSendPacket (dp_target p) b)) <$> bufs)) /\
  (poll_writes p bufs).2 = (fun b => Ok (length b)) <$> bufs.
Proof.
  revert p q. induction bufs as [|b bufs IH]; intros p q Hq Hl; cbn.
  - by rewrite app_nil_r.
  - cbn in Hl. unfold poll_write. rewrite Hq, (proj2 (Nat.ltb_lt _ _)) by lia.
    set (p1 := mkDerpPipe _ _ _ _ _ _).
    destruct (IH p1 (q ++ [frame_encode (FrSendPacket (dp_target p) b)])) as [H1 H2];
      [done|rewrite length_app; cbn; lia|].
    destruct (poll_writes p1 bufs) as [p2 rs]. cbn in *. rewrite H1, H2. split; [|done].
    by rewrite <-(assoc_L (++)).
Qed.

(** ** Registry *)

(** The two maps of the server agree. *)
Definition index_agrees (s : DerpServer) : Prop :=
  forall a d, ds_addr_index s !! a = Some d <-> exists h, ds_clients s !! d = Some h /\ ch_addr h = a.

Lemma agrees_addr_inj s d1 d2 h1 h2 :
  index_agrees s -> ds_clients s !! d1 = Some h1 -> ds_clients s !! d2 = Some h2 ->
  ch_addr h1 = ch_addr h2 -> d1 = d2.
Proof.
  intros I H1 H2 E. assert (ds_addr_index s !! ch_addr h1 = Some d1) as A1 by (apply I; eauto).
  assert (ds_addr_index s !! ch_addr h1 = Some d2) as A2 by (apply I; eauto). congruence.
Qed.

Lemma try_send_index s tx f : ds_addr_index (try_send s tx f).1 = ds_addr_index s.
Proof. unfold try_send. repeat case_match; done. Qed.

Lemma agrees_ext s s' :
  index_agrees s -> ds_addr_index s' = ds_addr_index s ->
  (forall d, ch_addr <$> ds_clients s' !! d = ch_addr <$> ds_clients s !! d) -> index_agrees s'.
Proof.
  intros I Ei Ec a d. rewrite Ei, (I a d). specialize (Ec d). unfold fmap, option_fmap, option_map in Ec.
  split; intros (h & Hh & Ha).
  - rewrite Hh in Ec. destruct (ds_clients s' !! d) as [h'|]; [|done]. injection Ec as Ec. exists h'.
    split; [done|congruence].
  - rewrite Hh in Ec. destruct (ds_clients s !! d) as [h'|]; [|done]. injection Ec as Ec. exists h'.
    split; [done|congruence].
Qed.

(** Removing a client together with its address. *)
Lemma agrees_delete s d h q :
  index_agrees s -> ds_clients s !! d = Some h ->
  index_agrees (mkDerpServer (delete d (ds_clients s)) (delete (ch_addr h) (ds_addr_index s)) q).
Proof.
  intros I Hd a d'. cbn. rewrite lookup_delete_Some, (I a d'). split.
  - intros (Hn & h' & Hh' & Ha). exists h'. split; [|done]. apply lookup_delete_Some.
    split; [|done]. intros <-. congruence.
  - intros (h' & [Hn Hh']%lookup_delete_Some & Ha). split; [|eauto]. intros <-.
    apply Hn. by eapply agrees_addr_inj.
Qed.

Lemma agrees_register s d addr conn now :
  index_agrees s -> (forall d' h, ds_clients s !! d' = Some h -> ch_addr h = addr -> d' = d) ->
  index_agrees (derp_register s d addr conn now).
Proof.
  intros I Hfresh a d'. cbn. split.
  - intros [[<- <-]|[Hn Ha]]%lookup_insert_Some; [eexists; by rewrite lookup_insert_eq|].
    destruct (decide (d' = d)) as [->|Hd].
    + destruct (ds_clients s !! d) as [old|] eqn:E.
      * apply lookup_delete_Some in Ha as [Ho Ha]. apply I in Ha as (h & Hh & Ea). congruence.
      * apply I in Ha as (h & Hh & Ea). congruence.
    + rewrite lookup_insert_ne by done.
      destruct (ds_clients s !! d) as [old|] eqn:E; [apply lookup_delete_Some in Ha as [_ Ha]|]; by apply I.
  - intros (h & [[<- <-]|[Hn Hh]]%lookup_insert_Some & Ha).
    + cbn in Ha. subst. by rewrite lookup_insert_eq.
    + rewrite lookup_insert_ne by (intros ->; apply Hn; symmetry; by eapply Hfresh).
      destruct (ds_clients s !! d) as [old|] eqn:E; [|apply I; eauto].
      rewrite lookup_delete_ne; [apply I; eauto|]. intros Eo. apply Hn.
      eapply (agrees_addr_inj s); [done|exact E|exact Hh|congruence].
Qed.

Lemma agrees_disconnect s d addr conn : index_agrees s -> index_agrees (derp_disconnect s d addr conn).
Proof.
  intros I. unfold derp_disconnect. destruct (ds_clients s !! d) as [h|] eqn:E.
  - case_decide as Ea; [subst; by apply agrees_delete|]. rewrite insert_delete_eq, insert_id by done.
    by eapply agrees_ext.
  - by eapply agrees_ext.
Qed.

Lemma agrees_remove_idle s d : index_agrees s -> index_agrees (derp_remove_idle s d).
Proof.
  intros I. unfold derp_remove_idle. destruct (ds_clients s !! d) as [h|] eqn:E; [|done].
  eapply agrees_ext; [by eapply (agrees_delete s d h (ds_queues s))|by rewrite try_send_index|].
  intros. by rewrite try_send_clients.
Qed.

Lemma agrees_touch s d conn now : index_agrees s -> index_agrees (derp_touch s d conn now).
Proof.
  intros I. eapply agrees_ext; [done| |]; unfold derp_touch;
    destruct (ds_clients s !! d) as [h|] eqn:E; try done; case_decide; try done.
  intros x. cbn. destruct (decide (d = x)) as [<-|Hn]; [by rewrite lookup_insert_eq, E|by rewrite lookup_insert_ne].
Qed.

Lemma agrees_frame s d f : index_agrees s -> index_agrees (derp_handle_frame s d f).
Proof.
  intros I. destruct f; try done. cbn. destruct (ds_clients s !! target); [|done].
  eapply agrees_ext; [done|by rewrite try_send_index|]. intros. by rewrite try_send_clients.
Qed.

Lemma agrees_read_loop fuel s d conn now inb s' :
  index_agrees s -> derp_read_loop fuel s d conn now inb = Some s' -> index_agrees s'.
Proof.
  revert s inb. induction fuel as [|fuel IH]; intros s inb I; cbn; [by intros [= <-]|].
  destruct (read_raw_frame true inb) as [[raw|e] rest]; [|by intros [= <-]].
  destruct (frame_decode raw) as [[[[[f n]|]|e] r]|]; [| | |done]; apply IH; auto using agrees_touch, agrees_frame.
Qed.

(** ** Theorems *)

(** A DERP frame within the size limit is decoded from the front of any
    buffer as itself, consuming exactly its encoding. *)
Theorem derp_frame_roundtrip f rest :
  frame_ok f ->
  frame_decode (frame_encode f ++ rest) = Some (Ok (Some (f, length (frame_encode f))), rest).
Proof. apply frame_decode_encode. Qed.

Definition sample_device (n : Z) : DeviceId := mkDeviceId (replicate 32 n).

Lemma sample_device_ok n : is_byte n -> device_ok (sample_device n).
Proof. intros Hn. split; [done|]. by apply Forall_replicate. Qed.

Lemma derp_frame_roundtrip_witness :
  frame_decode (frame_encode (FrSendPacket (sample_device 2) [1; 2; 3]) ++ [9]) =
  Some (Ok (Some (FrSendPacket (sample_device 2) [1; 2; 3], 44%nat)), [9]).
Proof.
  apply (derp_frame_roundtrip (FrSendPacket (sample_device 2) [1; 2; 3]) [9]).
  split; [|by vm_compute]. split; [by apply sample_device_ok|repeat constructor; by vm_compute].
Defined.

Lemma packet_decode_no_panic t mk n buf :
  (Z.to_nat n <= S (length buf))%nat -> Forall is_byte buf -> packet_decode t mk n buf <> None.
Proof.
  intros Hl Hb. unfold packet_decode. destruct (Z.ltb_spec n (1 + 32 + 4)) as [|Hge]; [done|].
  unfold r_bind. destruct (get_bytes 32 buf) as [[id r1]|] eqn:E1; [|apply get_bytes_None in E1; lia].
  apply get_bytes_Some in E1 as [-> L1]. rewrite length_app in Hl.
  unfold get_u32, get_uint, r_bind. destruct (get_bytes 4 r1) as [[ln r2]|] eqn:E2;
    [|apply get_bytes_None in E2; lia].
  apply get_bytes_Some in E2 as [-> L2]. rewrite length_app in Hl. cbn [r_ret].
  destruct (Z.ltb_spec n (1 + 32 + 4 + be_combine ln)) as [|Hge2]; [done|].
  destruct (get_bytes (Z.to_nat (be_combine ln)) r2) as [[p r3]|] eqn:E3; [done|].
  apply get_bytes_None in E3. apply Forall_app in Hb as [_ [Hb _]%Forall_app].
  pose proof (be_combine_bound _ Hb) as [? _]. lia.
Qed.

(** A payload reader that runs past the end of a complete frame. *)
Lemma frame_payload_panics t n r :
  1 <= n -> (Z.to_nat n <= S (length r))%nat -> Forall is_byte r -> frame_payload t n r = None ->
  t = FtClientInfo /\ n = 33 /\ length r = 32%nat.
Proof.
  intros Hn Hl Hb Ep. destruct t; cbn [frame_payload] in Ep; try done;
    try (exfalso; eapply packet_decode_no_panic; [| |exact Ep]; done).
  - destruct (Z.ltb_spec n (1 + 32)) as [|Hge]; [done|]. unfold r_bind in Ep.
    destruct (get_bytes 32 r) as [[id r2]|] eqn:E2; [|apply get_bytes_None in E2; lia].
    apply get_bytes_Some in E2 as [-> L2]. unfold get_u8, get_uint, r_bind in Ep.
    destruct (get_bytes 1 r2) as [[? ?]|] eqn:E3; [done|]. apply get_bytes_None in E3.
    rewrite length_app in *. split; [done|]. lia.
  - destruct (Z.ltb_spec n 2) as [|Hge]; [done|]. unfold get_u8, get_uint, r_bind in Ep.
    destruct (get_bytes 1 r) as [[? ?]|] eqn:E2; [done|apply get_bytes_None in E2; lia].
  - destruct (Z.ltb_spec n (1 + 32)) as [|Hge]; [done|]. unfold r_bind in Ep.
    destruct (get_bytes 32 r) as [[? ?]|] eqn:E2; [done|apply get_bytes_None in E2; lia].
Qed.

Lemma frame_type_client_info b : frame_type_from_u8 b = Some FtClientInfo -> b = 1.
Proof. unfold frame_type_from_u8. intros H. repeat case_match; simplify_eq; done. Qed.

(** Decoding panics on exactly one kind of input: a ClientInfo frame that
    ends after the device ID (length 33), which passes the length test although
    the version byte is still to be read.  It is the first frame the server
    reads from any connection. *)
Theorem derp_decode_panics_iff buf :
  Forall is_byte buf ->
  frame_decode buf = None <-> exists id, length id = 32%nat /\ buf = put_u32 33 ++ [1] ++ id.
Proof.
  intros Hb. split; [|intros (id & Hl & ->); unfold frame_decode; change (put_u32 33) with [0; 0; 0; 33];
    do 32 (destruct id as [|? id]; [done|]); destruct id; done].
  unfold frame_decode. destruct (Nat.ltb_spec (length buf) 4) as [|H4]; [done|].
  destruct (Z.ltb_spec MAX_FRAME_SIZE (be_combine (take 4 buf))) as [|Hmax]; [done|].
  destruct (Nat.ltb_spec (length buf) (4 + Z.to_nat (be_combine (take 4 buf)))) as [|Hlen]; [done|].
  destruct (Z.ltb_spec (be_combine (take 4 buf)) 1) as [|Hpos]; [done|].
  assert (length (drop 4 buf) = (length buf - 4)%nat) as Ld by apply length_drop.
  pose proof (Forall_drop _ 4 _ Hb) as Hr.
  destruct (drop 4 buf) as [|b r] eqn:E; [cbn in Ld; lia|]. cbn [length] in Ld.
  apply Forall_cons in Hr as [Hb1 Hr].
  change (b :: r) with ([b] ++ r). unfold r_bind at 1, get_u8, get_uint.
  rewrite (r_bind_run _ _ _ _ _ (get_bytes_app 1 [b] r eq_refl)). change (be_combine [b]) with b.
  cbn [r_ret]. destruct (frame_type_from_u8 b) as [t|] eqn:Et; [|done]. unfold r_bind at 1.
  destruct (frame_payload t (be_combine (take 4 buf)) r) as [[? ?]|] eqn:Ep; [done|]. intros _.
  apply frame_payload_panics in Ep as (-> & E33 & Lr); [|lia|lia|done].
  apply frame_type_client_info in Et as ->.
  exists r. split; [done|]. rewrite <-(take_drop 4 buf), E. f_equal.
  pose proof (be_split_combine (take 4 buf) (Forall_take _ _ _ Hb)) as Hs.
  rewrite E33, length_take, Nat.min_l in Hs by lia. by rewrite <-Hs.
Qed.

Lemma derp_decode_panics_iff_witness :
  frame_decode (put_u32 33 ++ [1] ++ replicate 32 7) = None.
Proof.
  apply derp_decode_panics_iff; [|by exists (replicate 32 7)].
  apply Forall_app_2; [apply be_split_bytes|]. constructor; [by vm_compute|].
  apply Forall_replicate. by vm_compute.
Defined.

Lemma frames_concat (bufs : list (list Z)) mk :
  concat ((fun b => frame_encode (mk b)) <$> bufs) = concat (frame_encode <$> (mk <$> bufs)).
Proof. f_equal. by rewrite <-list_fmap_compose. Qed.

(** The pipe over DERP is a byte stream: what one end writes, in any number
    of writes that fit a frame and the channels, the server's read task puts
    into the other device's channel, that end's receive task takes from its
    socket, and reads of any sizes return in order, nothing lost, repeated or
    invented. *)
Theorem derp_pipe_delivers s a b ca now h bufs pa pb ns :
  device_ok a -> device_ok b ->
  ds_clients s !! b = Some h -> ds_queues s !! ch_tx h = Some [] ->
  Forall (fun buf => Forall is_byte buf /\ Z.of_nat (length buf) <= MAX_FRAME_SIZE - 37) bufs ->
  (length bufs <= CHANNEL_CAPACITY)%nat ->
  pa = derp_pipe_new b a -> pb = derp_pipe_new a b ->
  exists frames s' pb',
    dp_write (poll_writes pa bufs).1 = Some frames /\
    derp_read_task s a ca now (concat frames) = Some s' /\
    ds_queues s' !! ch_tx h = Some (FrRecvPacket a <$> bufs) /\
    recv_task pb (concat (frame_encode <$> (FrRecvPacket a <$> bufs))) = Some pb' /\
    concat (read_bytes <$> (poll_reads pb' ns).2) ++ pipe_content (poll_reads pb' ns).1 = concat bufs.
Proof.
  intros Ha Hb Hh Hq Hbufs Hcap -> ->.
  destruct (poll_writes_run (derp_pipe_new b a) bufs [] eq_refl Hcap) as [Hw _].
  assert (forall d mk, device_ok d -> mk = FrSendPacket \/ mk = FrRecvPacket ->
            Forall frame_ok (mk d <$> bufs)) as Hok.
  { intros d mk Hd Hmk. apply Forall_fmap. eapply Forall_impl; [exact Hbufs|]. intros buf [Hby Hl].
    assert (Z.of_nat (length (frame_body (mk d buf))) = 1 + 32 + 4 + Z.of_nat (length buf)) as E
      by (destruct Hmk as [->| ->]; by apply packet_length).
    split; [by destruct Hmk as [->| ->]|]. unfold compose. rewrite E. lia. }
  pose (s' := foldl (fun s f => derp_handle_frame (derp_touch s a ca now) a f) s (FrSendPacket b <$> bufs)).
  exists ((fun buf => frame_encode (FrSendPacket b buf)) <$> bufs), s',
    (mkDerpPipe a b (Some []) bufs false []).
  split_and!.
  - exact Hw.
  - unfold derp_read_task. rewrite frames_concat. apply derp_read_loop_run; [auto|done].
  - apply (forward_packets a ca now b (ch_tx h) bufs s []); [by rewrite Hh|done|done].
  - unfold recv_task. pose (pkts := (fun buf => (a, buf)) <$> bufs).
    assert (frame_encode <$> (FrRecvPacket a <$> bufs) =
            (fun '(d, buf) => frame_encode (FrRecvPacket d buf)) <$> pkts) as ->
      by (unfold pkts; by rewrite <-!list_fmap_compose).
    rewrite (recv_loop_run pkts); cbn.
    + unfold pkts. rewrite <-list_fmap_compose. by rewrite list_fmap_id.
    + unfold pkts. rewrite Forall_fmap. pose proof (Hok a FrRecvPacket Ha (or_intror eq_refl)) as H.
      by rewrite Forall_fmap in H.
    + done.
    + unfold pkts. by rewrite length_fmap.
  - apply poll_reads_content.
Qed.

Definition sample_addr (p : Z) : SocketAddr := mkSocketAddr (V4 [10; 0; 0; 1]) p.

Definition sample_derp : DerpServer :=
  derp_register (derp_register derp_server_new (sample_device 1) (sample_addr 1000) 1 0)
    (sample_device 2) (sample_addr 2000) 2 0.

Lemma derp_pipe_delivers_witness :
  exists frames s' pb',
    dp_write (poll_writes (derp_pipe_new (sample_device 2) (sample_device 1)) [[1; 2]; [3]]).1 = Some frames /\
    derp_read_task sample_derp (sample_device 1) 1 5 (concat frames) = Some s' /\
    recv_task (derp_pipe_new (sample_device 1) (sample_device 2))
      (concat (frame_encode <$> (FrRecvPacket (sample_device 1) <$> [[1; 2]; [3]]))) = Some pb' /\
    concat (read_bytes <$> (poll_reads pb' [1%nat; 5%nat]).2) ++ pipe_content (poll_reads pb' [1%nat; 5%nat]).1
      = [1; 2; 3].
Proof.
  destruct (derp_pipe_delivers sample_derp (sample_device 1) (sample_device 2) 1 5
    (mkClientHandle (sample_addr 2000) 0 2) [[1; 2]; [3]]
    (derp_pipe_new (sample_device 2) (sample_device 1)) (derp_pipe_new (sample_device 1) (sample_device 2))
    [1%nat; 5%nat]) as (fr & s' & pb' & H1 & H2 & _ & H3 & H4);
    [by apply sample_device_ok|by apply sample_device_ok|reflexivity|reflexivity| |cbn; unfold CHANNEL_CAPACITY; lia
    |reflexivity|reflexivity|].
  - repeat constructor; by vm_compute.
  - by exists fr, s', pb'.
Defined.

(** The pipe does not look at who sent a packet: whatever devices the
    packets come from, their payloads become part of the byte stream of the
    one peer the pipe was dialled for, and an empty packet reads as the end of
    the stream while the connection is alive. *)
Theorem derp_pipe_mixes_senders target local pkts d rest n :
  Forall (fun '(d, b) => frame_ok (FrRecvPacket d b)) pkts -> (length pkts <= CHANNEL_CAPACITY)%nat ->
  (exists p, recv_task (derp_pipe_new target local)
               (concat ((fun '(d, b) => frame_encode (FrRecvPacket d b)) <$> pkts)) = Some p /\
             pipe_content p = concat pkts.*2) /\
  (pkts = (d, []) :: rest -> forall p,
     recv_task (derp_pipe_new target local)
       (concat ((fun '(d, b) => frame_encode (FrRecvPacket d b)) <$> pkts)) = Some p ->
     (poll_read p n).2 = Some []).
Proof.
  intros Hp Hc. unfold recv_task. rewrite recv_loop_run by done. cbn. split.
  - eexists. split; [done|]. done.
  - intros -> p [= <-]. unfold poll_read. cbn. by rewrite take_nil.
Qed.

Lemma derp_pipe_mixes_senders_witness :
  exists p, recv_task (derp_pipe_new (sample_device 1) (sample_device 2))
    (concat ((fun '(d, b) => frame_encode (FrRecvPacket d b)) <$> [(sample_device 1, [1]); (sample_device 3, [66])])) = Some p /\
    pipe_content p = [1; 66].
Proof.
  apply (derp_pipe_mixes_senders (sample_device 1) (sample_device 2)
    [(sample_device 1, [1]); (sample_device 3, [66])] (sample_device 1) [] 1);
    [|cbn; unfold CHANNEL_CAPACITY; lia].
  constructor; [|constructor; [|constructor]]; (split; [|by vm_compute]);
    (split; [by apply sample_device_ok|repeat constructor; by vm_compute]).
Defined.

(** The two maps of the server stay in step through every operation: an
    address is indexed for a device exactly when it is the address of that
    device's registered connection.  A registration has to come from an address
    no other registered device uses, as TCP guarantees for open connections. *)
Theorem derp_index_invariant s :
  index_agrees s ->
  (forall d addr conn now,
     (forall d' h, ds_clients s !! d' = Some h -> ch_addr h = addr -> d' = d) ->
     index_agrees (derp_register s d addr conn now)) /\
  (forall d addr conn, index_agrees (derp_disconnect s d addr conn)) /\
  (forall now timeout, index_agrees (derp_cleanup s now timeout)) /\
  (forall d conn now inb s', derp_read_task s d conn now inb = Some s' -> index_agrees s').
Proof.
  intros I. split_and!.
  - intros. by apply agrees_register.
  - intros. by apply agrees_disconnect.
  - intros now timeout. unfold derp_cleanup. generalize (idle_clients s now timeout) as ds. intros ds.
    revert s I. induction ds as [|d ds IH]; intros s I; [done|]. cbn. by apply IH, agrees_remove_idle.
  - intros d conn now inb s'. by apply agrees_read_loop.
Qed.

Lemma derp_new_agrees : index_agrees derp_server_new.
Proof. intros a d. cbn. rewrite lookup_empty. split; [done|]. by intros (h & ?%lookup_empty_Some & _). Qed.

Lemma derp_index_invariant_witness :
  index_agrees (derp_register derp_server_new (sample_device 1) (sample_addr 1000) 1 0).
Proof.
  apply (derp_index_invariant derp_server_new derp_new_agrees).
  intros d' h Hh. cbn in Hh. by apply lookup_empty_Some in Hh.
Defined.

(** When a device reconnects to the DERP server from another address, the
    end of the superseded connection leaves the new registration in place, and
    packets for the device go to the new connection. *)
Theorem derp_reconnect_kept s d h1 a2 c1 c2 now from payload :
  ds_clients s !! d = Some h1 -> ch_addr h1 <> a2 -> ch_tx h1 = c1 -> c1 <> c2 ->
  let s' := derp_disconnect (derp_register s d a2 c2 now) d (ch_addr h1) c1 in
  ds_clients s' !! d = Some (mkClientHandle a2 now c2) /\
  ds_addr_index s' !! a2 = Some d /\ ds_addr_index s' !! ch_addr h1 = None /\
  ds_queues (derp_handle_frame s' from (FrSendPacket d payload)) !! c2 = Some [FrRecvPacket from payload].
Proof.
  intros H1 Ha Ht Hc s'.
  assert (s' = mkDerpServer (<[d := mkClientHandle a2 now c2]> (ds_clients s))
                 (<[a2 := d]> (delete (ch_addr h1) (ds_addr_index s)))
                 (delete c1 (<[c2 := []]> (ds_queues s)))) as E.
  { unfold s', derp_disconnect, derp_register. cbn. rewrite lookup_insert_eq, H1. cbn.
    rewrite decide_False by done. by rewrite insert_delete_eq, insert_insert_eq. }
  assert (delete c1 (<[c2 := []]> (ds_queues s)) !! c2 = Some ([] : list Frame)) as Hq
    by (by rewrite lookup_delete_ne, lookup_insert_eq).
  rewrite E. cbn. split_and!; [by rewrite lookup_insert_eq..| |].
  - rewrite lookup_insert_ne by done. by rewrite lookup_delete_eq.
  - rewrite lookup_insert_eq. cbn. unfold try_send. cbn. rewrite Hq. cbn. by rewrite lookup_insert_eq.
Qed.

Lemma derp_reconnect_kept_witness :
  let s' := derp_disconnect (derp_register sample_derp (sample_device 1) (sample_addr 3000) 3 7)
              (sample_device 1) (sample_addr 1000) 1 in
  ds_clients s' !! sample_device 1 = Some (mkClientHandle (sample_addr 3000) 7 3).
Proof.
  apply (derp_reconnect_kept sample_derp (sample_device 1) (mkClientHandle (sample_addr 1000) 0 1)
    (sample_addr 3000) 1 3 7 (sample_device 2) []); [reflexivity|done|reflexivity|done].
Defined.

(** A connection attempt of the stand-alone client that fails, for any
    reason, leaves the client in the state "connecting" for good: every later
    attempt is refused, whatever the server would answer. *)
Theorem derp_client_stuck d socket e st :
  derp_client_connect d socket DcDisconnected = Some (Err e, st) ->
  st = DcConnecting /\
  forall socket', derp_client_connect d socket' st = Some (Err DeBusy, DcConnecting).
Proof.
  intros H. assert (st = DcConnecting) as ->; [|done]. unfold derp_client_connect in H. cbn in H.
  destruct socket as [inb|]; [|by injection H]. cbn in H.
  destruct (connect_server d inb) as [[[?|?] ?]|]; by simplify_eq/=.
Qed.

Lemma derp_client_stuck_witness :
  forall socket', derp_client_connect (sample_device 1) socket' DcConnecting = Some (Err DeBusy, DcConnecting).
Proof. apply (derp_client_stuck (sample_device 1) None DeIo DcConnecting). reflexivity. Defined.

(** A write that does not fit a frame is not split: the pipe accepts it and
    reports success, but the server stops reading at it, so it and everything
    written later is lost. *)
Theorem derp_large_write_lost p buf rest s d conn now :
  dp_write p = Some [] -> device_ok (dp_target p) ->
  MAX_FRAME_SIZE - 37 < Z.of_nat (length buf) < 2 ^ 32 - 37 ->
  (poll_write p buf).2 = Ok (length buf) /\
  derp_read_task s d conn now (frame_encode (FrSendPacket (dp_target p) buf) ++ rest) = Some s.
Proof.
  intros Hw Hd Hl. split; [unfold poll_write; by rewrite Hw|].
  unfold derp_read_task. generalize (length (frame_encode (FrSendPacket (dp_target p) buf) ++ rest)).
  intros [|fuel]; [done|]. cbn [derp_read_loop].
  assert (Z.of_nat (length (frame_body (FrSendPacket (dp_target p) buf))) = 1 + 32 + 4 + Z.of_nat (length buf)) as E
    by (by apply packet_length).
  unfold frame_encode. rewrite E, <-(assoc_L (++)), wrap_id by (unfold in_u; lia).
  unfold read_raw_frame. rewrite (se_bind_run _ _ _ _ _ (socket_read_app 4 _ _ (length_put_u32 _))).
  unfold put_u32 at 1 2. rewrite (be_combine_split_id 4) by (unfold in_u; lia).
  rewrite (proj2 (Z.ltb_lt _ _)) by lia. done.
Qed.

Lemma derp_large_write_lost_witness :
  (poll_write (derp_pipe_new (sample_device 2) (sample_device 1)) (replicate (Z.to_nat 1000000) 0)).2 =
    Ok (length (replicate (Z.to_nat 1000000) 0)).
Proof.
  apply (derp_large_write_lost (derp_pipe_new (sample_device 2) (sample_device 1)) _ [] derp_server_new
    (sample_device 1) 1 0); [reflexivity|by apply sample_device_ok|].
  rewrite length_replicate. unfold MAX_FRAME_SIZE. lia.
Defined.
