(* ===== verification/Traversal.v ===== *)
(** * NAT traversal ([crates/syncthing-net/src/stun], [portmapper])

    STUN binding requests and responses with the CRC-32 fingerprint, NAT type
    detection, the NAT-PMP and PCP packets, and the port mapper that tries PCP,
    NAT-PMP and UPnP in turn.  Sockets are the datagrams that come back; UPnP
    and interface queries are parameters. *)

From S2P Require Import Prelude Core Connection Bep Wire Net.

(** ** STUN *)

Definition ATTR_SOFTWARE : Z := 0x8022.
Definition ATTR_FINGERPRINT : Z := 0x8028.
Definition ATTR_MAPPED_ADDRESS : Z := 0x0001.
Definition ATTR_XOR_MAPPED_ADDRESS : Z := 0x0020.
Definition ATTR_XOR_MAPPED_ADDRESS_ALT : Z := 0x8020.
Definition BINDING_REQUEST : list Z := [0x00; 0x01].
Definition BINDING_SUCCESS_RESPONSE : list Z := [0x01; 0x01].
Definition MAGIC_COOKIE : list Z := [0x21; 0x12; 0xa4; 0x42].
Definition HEADER_LEN : nat := 20.
Definition LEN_FINGERPRINT : nat := 8.
Definition SOFTWARE : list Z := bytes_of_str ($"syncthing-rust").

(** The inner loop that fills an entry of [CRC32_TABLE]. *)
Definition crc_bit (crc : Z) : Z :=
  if Z.testbit crc 0 then Z.lxor 0xedb88320 (Z.shiftr crc 1) else Z.shiftr crc 1.

Definition crc_entry (i : Z) : Z := Nat.iter 8 crc_bit i.

Definition CRC32_TABLE : list Z := crc_entry <$> (Z.of_nat <$> seq 0 256).

Definition crc32_step (crc byte : Z) : Z :=
  Z.lxor (default 0 (CRC32_TABLE !! Z.to_nat (Z.land (Z.lxor crc byte) 0xff))) (Z.shiftr crc 8).

(** [!x] on a 32-bit word. *)
Definition not32 (x : Z) : Z := Z.lxor (Z.ones 32) x.

Definition crc32_ieee (data : list Z) : Z := not32 (foldl crc32_step (not32 0) data).

Definition fingerprint (data : list Z) : Z := Z.lxor (crc32_ieee data) 0x5354554e.

Definition build_binding_request (tx_id : list Z) : list Z :=
  let len_software := (4 + length SOFTWARE)%nat in
  let b :=
    BINDING_REQUEST ++ put_u16 (wrap 16 (Z.of_nat (len_software + LEN_FINGERPRINT))) ++ MAGIC_COOKIE ++ tx_id ++
    put_u16 ATTR_SOFTWARE ++ put_u16 (wrap 16 (Z.of_nat (length SOFTWARE))) ++ SOFTWARE in
  b ++ put_u16 ATTR_FINGERPRINT ++ put_u16 4 ++ put_u32 (fingerprint b).

Inductive StunError :=
| SeNotStun
| SeNotSuccess
| SeMalformed
| SeMissing
| SeTxMismatch
| SeTimeout
| SeAllFailed.

(** [&data[lo..hi]]; [None] is a panic. *)
Definition slice (lo hi : nat) (data : list Z) : option (list Z) :=
  if (lo <=? hi)%nat && (hi <=? length data)%nat then Some (take (hi - lo) (drop lo data)) else None.

Definition is_stun_packet (data : list Z) : bool :=
  (HEADER_LEN <=? length data)%nat &&
  match data !! 0%nat with Some b => Z.land b 0xc0 =? 0 | None => false end &&
  bool_decide (slice 4 8 data = Some MAGIC_COOKIE).

Definition family_addr_len (fam : Z) : nat :=
  match fam with
  | 1 => 4
  | 2 => 16
  | _ => 0
  end.

(** Sixteen-bit words of a byte list. *)
Fixpoint words (b : list Z) : list Z :=
  match b with
  | x :: y :: b' => x * 256 + y :: words b'
  | _ => []
  end.

Definition ip_from_bytes (b : list Z) : option IpAddr :=
  match length b with
  | 4%nat => Some (V4 b)
  | 16%nat => Some (V6 (words b))
  | _ => None
  end.

(** [xor_addr[i] ^ MAGIC_COOKIE[i]], later bytes with the transaction ID. *)
Definition xor_key (tx_id : list Z) : list Z := MAGIC_COOKIE ++ tx_id.

Definition parse_xor_mapped_address (tx_id b : list Z) : option (IpAddr * Z) :=
  match b with
  | _ :: fam :: p0 :: p1 :: addr_field =>
      let port := Z.lxor (p0 * 256 + p1) 0x2112 in
      let addr_len := family_addr_len fam in
      if (addr_len =? 0)%nat || (length addr_field <? addr_len)%nat then None
      else
        let addr := zip_with Z.lxor (take addr_len addr_field) (xor_key tx_id) in
        let+ ip := ip_from_bytes addr in Some (ip, port)
  | _ => None
  end.

Definition parse_mapped_address (b : list Z) : option (IpAddr * Z) :=
  match b with
  | _ :: fam :: p0 :: p1 :: addr_field =>
      let addr_len := family_addr_len fam in
      if (addr_len =? 0)%nat || (length addr_field <? addr_len)%nat then None
      else let+ ip := ip_from_bytes (take addr_len addr_field) in
           Some (ip, Z.lor (Z.shiftl p0 8) p1)
  | _ => None
  end.

Definition to_socket (r : option (IpAddr * Z)) (old : option SocketAddr) : option SocketAddr :=
  match r with
  | Some (ip, port) => Some (mkSocketAddr ip port)
  | None => old
  end.

(** The attribute loop: every round takes four bytes or returns. [None] is a
    panic of a slice. *)
Fixpoint parse_attrs (fuel : nat) (tx_id attrs : list Z) (addr fallback : option SocketAddr)
    : option (result StunError (option SocketAddr * option SocketAddr)) :=
  match fuel with
  | O => Some (Ok (addr, fallback))
  | S fuel' =>
      match attrs with
      | [] => Some (Ok (addr, fallback))
      | _ =>
          if (length attrs <? 4)%nat then Some (Err SeMalformed)
          else
            let+ t := slice 0 2 attrs in
            let+ l := slice 2 4 attrs in
            let attr_type := be_combine t in
            let attr_len := be_combine l in
            let attr_len_padded := Z.land (attr_len + 3) (Z.lnot 3) in
            let+ attrs := slice 4 (length attrs) attrs in
            if Z.of_nat (length attrs) <? attr_len_padded then Some (Err SeMalformed)
            else
              let+ attr_value := slice 0 (Z.to_nat attr_len) attrs in
              let+ attrs := slice (Z.to_nat attr_len_padded) (length attrs) attrs in
              if (attr_type =? ATTR_XOR_MAPPED_ADDRESS) || (attr_type =? ATTR_XOR_MAPPED_ADDRESS_ALT)
              then parse_attrs fuel' tx_id attrs (to_socket (parse_xor_mapped_address tx_id attr_value) addr) fallback
              else if attr_type =? ATTR_MAPPED_ADDRESS
              then parse_attrs fuel' tx_id attrs addr (to_socket (parse_mapped_address attr_value) fallback)
              else parse_attrs fuel' tx_id attrs addr fallback
      end
  end.

Definition parse_response (data : list Z) : option (result StunError (list Z * SocketAddr)) :=
  if negb (is_stun_packet data) then Some (Err SeNotStun)
  else
    let+ tx_id := slice 8 20 data in
    let+ kind := slice 0 2 data in
    if negb (bool_decide (kind = BINDING_SUCCESS_RESPONSE)) then Some (Err SeNotSuccess)
    else
      let+ l := slice 2 4 data in
      let attrs_len := Z.to_nat (be_combine l) in
      let+ attrs := slice HEADER_LEN (length data) data in
      if (length attrs <? attrs_len)%nat then Some (Err SeMalformed)
      else
        let+ attrs := slice 0 attrs_len attrs in
        let+ r := parse_attrs (length attrs) tx_id attrs None None in
        Some (let? (addr, fallback) := r in
              match addr, fallback with
              | Some a, _ => Ok (tx_id, a)
              | None, Some a => Ok (tx_id, a)
              | None, None => Err SeMissing
              end).

(** [query_with_socket]: the request sent is [build_binding_request tx_id];
    [answer] is the datagram that arrives in time, if any. *)
Definition query_with_socket (tx_id : list Z) (answer : option (list Z)) : option (result StunError SocketAddr) :=
  match answer with
  | None => Some (Err SeTimeout)
  | Some response =>
      let+ r := parse_response response in
      Some (let? (resp_tx_id, addr) := r in
            if negb (bool_decide (resp_tx_id = tx_id)) then Err SeTxMismatch else Ok addr)
  end.

(** [get_public_address]: the first server whose query succeeds. *)
Fixpoint get_public_address (queries : list (result StunError SocketAddr)) : result StunError SocketAddr :=
  match queries with
  | [] => Err SeAllFailed
  | Ok addr :: _ => Ok addr
  | Err _ :: rest => get_public_address rest
  end.

Inductive NatType := NatOpen | NatRestricted | NatSymmetric | NatBlocked | NatUnknown.

#[global] Instance NatType_eq_dec : EqDecision NatType.
Proof. solve_decision. Defined.

Definition is_p2p_feasible (n : NatType) : bool :=
  match n with NatOpen | NatRestricted => true | _ => false end.

Definition needs_relay (n : NatType) : bool :=
  match n with NatSymmetric | NatBlocked | NatUnknown => true | _ => false end.

(** [detect_nat_type] with [servers] servers; [a] and [b] are the results of
    the first two through one socket. *)
Definition detect_nat_type (servers : nat) (a b : result StunError SocketAddr) : NatType * option SocketAddr :=
  if (servers <? 2)%nat then (NatUnknown, None)
  else match a with
       | Err _ => (NatBlocked, None)
       | Ok addr_a =>
           match b with
           | Err _ => (NatUnknown, Some addr_a)
           | Ok addr_b =>
               (if decide (addr_a = addr_b) then NatOpen
                else if decide (sa_ip addr_a = sa_ip addr_b) then NatRestricted
                else NatSymmetric, Some addr_a)
           end
       end.

Definition is_public_address (addr : SocketAddr) : bool :=
  match sa_ip addr with
  | V4 octets =>
      match octets with
      | a :: b :: _ =>
          if a =? 10 then false
          else if (a =? 172) && ((16 <=? b) && (b <=? 31)) then false
          else if (a =? 192) && (b =? 168) then false
          else if a =? 127 then false
          else if (a =? 169) && (b =? 254) then false
          else true
      | _ => true
      end
  | V6 segments =>
      if is_loopback (V6 segments) || is_unspecified (V6 segments) then false
      else match segments with
           | s :: _ =>
               if Z.land s 0xffc0 =? 0xfe80 then false
               else if Z.land s 0xfe00 =? 0xfc00 then false
               else if Z.land s 0xff00 =? 0xff00 then false
               else true
           | [] => true
           end
  end.

(** ** NAT-PMP *)

(** Fields of a packet at fixed offsets, read after a test of its length. *)
Definition byte_at (i : nat) (pkt : list Z) : Z := be_combine (take 1 (drop i pkt)).
Definition u16_at (i : nat) (pkt : list Z) : Z := be_combine (take 2 (drop i pkt)).
Definition u32_at (i : nat) (pkt : list Z) : Z := be_combine (take 4 (drop i pkt)).

Definition PMP_VERSION : Z := 0.
Definition PMP_OP_MAP_PUBLIC_ADDR : Z := 0.
Definition PMP_OP_MAP_UDP : Z := 1.
Definition PMP_OP_REPLY : Z := 0x80.
Definition PMP_CODE_OK : Z := 0.
Definition PMP_DEFAULT_PORT : Z := 5351.
Definition PMP_MAP_LIFETIME_SEC : Z := 7200.

Record PmpResponse := mkPmpResponse {
  pmp_op_code : Z;
  pmp_result_code : Z;
  pmp_seconds_since_epoch : Z;
  pmp_mapping_valid_seconds : Z;
  pmp_internal_port : Z;
  pmp_external_port : Z;
  pmp_public_addr : option (list Z);
}.

Record PmpMappingState := mkPmpMappingState {
  pms_gateway : SocketAddr;
  pms_external_port : Z;
  pms_internal_port : Z;
}.

Definition build_pmp_request_mapping_packet (local_port prev_port lifetime_sec : Z) : list Z :=
  [PMP_VERSION; PMP_OP_MAP_UDP; 0; 0] ++ put_u16 local_port ++ put_u16 prev_port ++ put_u32 lifetime_sec.

Definition parse_pmp_response (pkt : list Z) : option PmpResponse :=
  if (length pkt <? 12)%nat then None
  else if negb (byte_at 0 pkt =? PMP_VERSION) then None
  else
    let op_code := byte_at 1 pkt in
    let result_code := u16_at 2 pkt in
    let seconds := u32_at 4 pkt in
    if op_code =? Z.lor PMP_OP_REPLY PMP_OP_MAP_UDP then
      if negb (length pkt =? 16)%nat then None
      else Some (mkPmpResponse op_code result_code seconds (u32_at 12 pkt) (u16_at 8 pkt) (u16_at 10 pkt) None)
    else if op_code =? Z.lor PMP_OP_REPLY PMP_OP_MAP_PUBLIC_ADDR then
      if negb (length pkt =? 12)%nat then None
      else
        let addr := take 4 (drop 8 pkt) in
        Some (mkPmpResponse op_code result_code seconds 0 0 0
                (if bool_decide (addr = [0; 0; 0; 0]) then None else Some addr))
    else Some (mkPmpResponse op_code result_code seconds 0 0 0 None).

Definition build_pmp_request_public_addr_packet : list Z := [PMP_VERSION; PMP_OP_MAP_PUBLIC_ADDR; 0; 0].

Inductive MapError :=
| MeTimeout
| MeInvalid
| MeCode (code : Z)
| MeNoAddress
| MeTooShort
| MeUpnp.

(** [recv_from] into a buffer of [n] bytes: a longer datagram is cut. *)
Definition recv_from (n : nat) (answer : option (list Z)) : result MapError (list Z) :=
  ok_or (take n <$> answer) MeTimeout.

Definition pmp_probe_gateway (answer : option (list Z)) : bool :=
  match recv_from 16 answer with
  | Ok pkt => match parse_pmp_response pkt with Some _ => true | None => false end
  | Err _ => false
  end.

Definition get_external_address (answer : option (list Z)) : result MapError (list Z) :=
  let? pkt := recv_from 16 answer in
  let? resp := ok_or (parse_pmp_response pkt) MeInvalid in
  if negb (pmp_result_code resp =? PMP_CODE_OK) then Err (MeCode (pmp_result_code resp))
  else ok_or (pmp_public_addr resp) MeNoAddress.

Definition pmp_allocate_port (gateway : SocketAddr) (local_port : Z) (addr_answer map_answer : option (list Z))
    : result MapError (SocketAddr * PmpMappingState) :=
  let? external_ip := get_external_address addr_answer in
  let? pkt := recv_from 16 map_answer in
  let? resp := ok_or (parse_pmp_response pkt) MeInvalid in
  if negb (pmp_result_code resp =? PMP_CODE_OK) then Err (MeCode (pmp_result_code resp))
  else Ok (mkSocketAddr (V4 external_ip) (pmp_external_port resp),
           mkPmpMappingState gateway (pmp_external_port resp) local_port).

(** ** PCP *)

Definition PCP_VERSION : Z := 2.
Definition PCP_OP_ANNOUNCE : Z := 0.
Definition PCP_OP_MAP : Z := 1.
Definition PCP_UDP_MAPPING : Z := 17.
Definition PCP_CODE_OK : Z := 0.
Definition PCP_DEFAULT_PORT : Z := 5351.
Definition PCP_MAP_LIFETIME_SEC : Z := 7200.

Record PcpResponse := mkPcpResponse { pcp_op_code : Z; pcp_result_code : Z; pcp_lifetime : Z }.

Record PcpMappingState := mkPcpMappingState {
  pcs_gateway : SocketAddr;
  pcs_external_port : Z;
  pcs_internal_port : Z;
  pcs_my_ip : list Z;
}.

Definition encode_ipv4_mapped (octets : list Z) : list Z := replicate 10 0 ++ [0xff; 0xff] ++ octets.

Definition build_pcp_announce_request (my_ip : list Z) : list Z :=
  [PCP_VERSION; PCP_OP_ANNOUNCE; 0; 0; 0; 0; 0; 0] ++ encode_ipv4_mapped my_ip.

Definition build_pcp_request_mapping_packet (my_ip : list Z) (local_port prev_port lifetime_sec : Z)
    (prev_external_ip : list Z) : list Z :=
  [PCP_VERSION; PCP_OP_MAP; 0; 0] ++ put_u32 lifetime_sec ++ encode_ipv4_mapped my_ip ++
  replicate 12 0 ++ [PCP_UDP_MAPPING; 0; 0; 0] ++ put_u16 local_port ++ put_u16 prev_port ++
  encode_ipv4_mapped prev_external_ip.

Definition parse_pcp_response (pkt : list Z) : option PcpResponse :=
  if (length pkt <? 24)%nat then None
  else if negb (byte_at 0 pkt =? PCP_VERSION) then None
  else if Z.land (byte_at 1 pkt) 0x80 =? 0 then None
  else Some (mkPcpResponse (byte_at 1 pkt) (byte_at 3 pkt) (u32_at 4 pkt)).

Definition pcp_probe_gateway (answer : option (list Z)) : bool :=
  match recv_from 24 answer with
  | Ok pkt => match parse_pcp_response pkt with
              | Some r => pcp_result_code r =? PCP_CODE_OK
              | None => false
              end
  | Err _ => false
  end.

Definition pcp_allocate_port (gateway : SocketAddr) (local_port : Z) (my_ip : list Z) (answer : option (list Z))
    : result MapError (SocketAddr * PcpMappingState) :=
  let? buf := recv_from 60 answer in
  let? resp := ok_or (parse_pcp_response buf) MeInvalid in
  if negb (pcp_result_code resp =? PCP_CODE_OK) then Err (MeCode (pcp_result_code resp))
  else if (length buf <? 60)%nat then Err MeTooShort
  else
    let external_port := u16_at 42 buf in
    Ok (mkSocketAddr (V4 (take 4 (drop 56 buf))) external_port,
        mkPcpMappingState gateway external_port local_port my_ip).

(** ** The port mapper *)

Inductive MappingInner :=
| MapUpnp
| MapPmp (state : PmpMappingState)
| MapPcp (state : PcpMappingState).

(** Times in seconds. *)
Record Mapping := mkMapping {
  map_external : SocketAddr;
  map_good_until : Z;
  map_renew_after : Z;
  map_inner : MappingInner;
}.

Definition mapping_for (external : SocketAddr) (now lifetime : Z) (inner : MappingInner) : Mapping :=
  mkMapping external (now + lifetime) (now + lifetime / 2) inner.

Definition PORT_MAP_LIFETIME_SEC : Z := 7200.

(** What the network gives: the default gateway, the local address, and the
    answers to the probes and requests, in the order they are sent. *)
Record MapEnv := mkMapEnv {
  me_gateway : option (list Z);
  me_local_ip : option (list Z);
  me_pcp_probe : option (list Z);
  me_pcp_map : option (list Z);
  me_pmp_probe : option (list Z);
  me_pmp_addr : option (list Z);
  me_pmp_map : option (list Z);
  me_upnp : option SocketAddr;
  me_now : Z;
}.

Record PortMapper := mkPortMapper { pm_local_addr : SocketAddr; pm_last_mapping : option Mapping }.

Definition portmapper_new : PortMapper := mkPortMapper (mkSocketAddr (V4 [0; 0; 0; 0]) 0) None.

Definition local_ipv4 (pm : PortMapper) (interface : option (list Z)) : option (list Z) :=
  match sa_ip (pm_local_addr pm) with
  | V4 ip => if bool_decide (ip = [0; 0; 0; 0]) then interface else Some ip
  | V6 _ => interface
  end.

Definition pm_invalidate (pm : PortMapper) : PortMapper := mkPortMapper (pm_local_addr pm) None.

Definition try_pcp (env : MapEnv) (pm : PortMapper) (local_port : Z) : option Mapping :=
  match me_gateway env, local_ipv4 pm (me_local_ip env) with
  | Some gw, Some ip =>
      if pcp_probe_gateway (me_pcp_probe env) then
        match pcp_allocate_port (mkSocketAddr (V4 gw) PCP_DEFAULT_PORT) local_port ip (me_pcp_map env) with
        | Ok (external, state) =>
            Some (mapping_for external (me_now env) PCP_MAP_LIFETIME_SEC (MapPcp state))
        | Err _ => None
        end
      else None
  | _, _ => None
  end.

Definition try_pmp (env : MapEnv) (local_port : Z) : option Mapping :=
  match me_gateway env with
  | Some gw =>
      if pmp_probe_gateway (me_pmp_probe env) then
        match pmp_allocate_port (mkSocketAddr (V4 gw) PMP_DEFAULT_PORT) local_port
                (me_pmp_addr env) (me_pmp_map env) with
        | Ok (external, state) =>
            Some (mapping_for external (me_now env) PMP_MAP_LIFETIME_SEC (MapPmp state))
        | Err _ => None
        end
      else None
  | None => None
  end.

Definition allocate_upnp (env : MapEnv) : result MapError Mapping :=
  let? external := ok_or (me_upnp env) MeUpnp in
  Ok (mapping_for external (me_now env) PORT_MAP_LIFETIME_SEC MapUpnp).

Definition allocate_port (env : MapEnv) (local_port : Z) : SE PortMapper MapError Mapping := fun pm =>
  let found (m : Mapping) := (Ok m, mkPortMapper (pm_local_addr pm) (Some m)) in
  match try_pcp env pm local_port with
  | Some m => found m
  | None =>
      match try_pmp env local_port with
      | Some m => found m
      | None =>
          match allocate_upnp env with
          | Ok m => found m
          | Err e => (Err e, pm)
          end
      end
  end.

(** [Mapping::release]: the packet sent, for PMP and PCP. *)
Definition release_packet (m : Mapping) : option (SocketAddr * list Z) :=
  match map_inner m with
  | MapUpnp => None
  | MapPmp st => Some (pms_gateway st,
      build_pmp_request_mapping_packet (pms_internal_port st) (pms_external_port st) 0)
  | MapPcp st => Some (pcs_gateway st,
      build_pcp_request_mapping_packet (pcs_my_ip st) (pcs_internal_port st) (pcs_external_port st) 0 [0; 0; 0; 0])
  end.

(** ** Interface changes ([netmon.rs])

    One tick: the interface list now, and the one last reported. *)
Definition netmon_tick (last : option (list str)) (current : list str) : option (list str) * bool :=
  match last with
  | Some l => if bool_decide (l = current) then (last, false) else (Some current, true)
  | None => (Some current, true)
  end.

(** ** CRC-32 *)

(** Bit by bit, without the table. *)
Definition crc32_step_bits (crc byte : Z) : Z := Nat.iter 8 crc_bit (Z.lxor crc byte).

Definition crc32_bits (data : list Z) : Z := not32 (foldl crc32_step_bits (not32 0) data).

Lemma crc_bit_lxor a b : crc_bit (Z.lxor a b) = Z.lxor (crc_bit a) (crc_bit b).
Proof.
  unfold crc_bit. rewrite Z.lxor_spec, Z.shiftr_lxor. generalize (Z.shiftr a 1) as x, (Z.shiftr b 1) as y.
  generalize 0xedb88320 as p. intros p x y.
  destruct (Z.testbit a 0), (Z.testbit b 0); cbn [xorb]; apply Z.bits_inj'; intros n Hn;
    rewrite ?Z.lxor_spec; destruct (Z.testbit p n), (Z.testbit x n), (Z.testbit y n); reflexivity.
Qed.

Lemma crc_iter_lxor k a b :
  Nat.iter k crc_bit (Z.lxor a b) = Z.lxor (Nat.iter k crc_bit a) (Nat.iter k crc_bit b).
Proof. induction k as [|k IH]; [done|]. by rewrite !Nat.iter_succ, IH, crc_bit_lxor. Qed.

Lemma crc_iter_shiftl k h : Nat.iter k crc_bit (Z.shiftl h (Z.of_nat k)) = h.
Proof.
  revert h. induction k as [|k IH]; intros h; [apply Z.shiftl_0_r|].
  rewrite Nat.iter_succ_r. unfold crc_bit at 2. rewrite Z.shiftl_spec_low by lia.
  rewrite Z.shiftr_shiftl_l by lia. replace (Z.of_nat (S k) - 1) with (Z.of_nat k) by lia. apply IH.
Qed.

(** A word is its low byte and the rest. *)
Lemma low_byte_split x : x = Z.lxor (Z.land x 0xff) (Z.shiftl (Z.shiftr x 8) 8).
Proof.
  apply Z.bits_inj'. intros n Hn. rewrite Z.lxor_spec, Z.land_spec. change 0xff with (Z.ones 8).
  destruct (Z.ltb_spec n 8).
  - rewrite Z.ones_spec_low, Z.shiftl_spec_low by lia. by rewrite andb_true_r, xorb_false_r.
  - rewrite Z.ones_spec_high, Z.shiftl_spec, Z.shiftr_spec by lia.
    replace (n - 8 + 8) with n by lia. by rewrite andb_false_r, xorb_false_l.
Qed.

Lemma crc_table_lookup i : 0 <= i < 256 -> CRC32_TABLE !! Z.to_nat i = Some (crc_entry i).
Proof.
  intros Hi. unfold CRC32_TABLE. rewrite !list_lookup_fmap, lookup_seq_lt by lia.
  change (Some (crc_entry (Z.of_nat (0 + Z.to_nat i))) = Some (crc_entry i)). do 2 f_equal. lia.
Qed.

Lemma crc32_step_eq crc byte : is_byte byte -> crc32_step crc byte = crc32_step_bits crc byte.
Proof.
  intros Hb. unfold crc32_step, crc32_step_bits.
  rewrite (low_byte_split (Z.lxor crc byte)) at 2. rewrite crc_iter_lxor.
  rewrite (crc_iter_shiftl 8), Z.shiftr_lxor.
  assert (Z.shiftr byte 8 = 0) as -> by (rewrite Z.shiftr_div_pow2 by lia; apply Z.div_small; done).
  rewrite Z.lxor_0_r. f_equal. rewrite crc_table_lookup; [done|].
  change 0xff with (Z.ones 8). rewrite Z.land_ones by lia. apply Z.mod_pos_bound. lia.
Qed.

Lemma crc32_ieee_eq data : Forall is_byte data -> crc32_ieee data = crc32_bits data.
Proof.
  intros Hd. unfold crc32_ieee, crc32_bits. f_equal. generalize (not32 0) as c. induction Hd as [|b data Hb _ IH]; intros c.
  - done.
  - cbn. by rewrite crc32_step_eq.
Qed.

(** 32-bit words, by their bits. *)
Definition word32 (x : Z) : Prop := forall n, 32 <= n -> Z.testbit x n = false.

Lemma word32_range x : in_u 32 x -> word32 x.
Proof.
  intros [H0 H1] n Hn. destruct (decide (x = 0)) as [->|Hx]; [apply Z.bits_0|].
  apply Z.bits_above_log2; [done|]. assert (Z.log2 x < 32) by (apply Z.log2_lt_pow2; lia). lia.
Qed.

Lemma word32_lxor x y : word32 x -> word32 y -> word32 (Z.lxor x y).
Proof. intros Hx Hy n Hn. by rewrite Z.lxor_spec, Hx, Hy. Qed.

Lemma crc_bit_word32 x : word32 x -> word32 (crc_bit x).
Proof.
  intros Hx n Hn. unfold crc_bit. destruct (Z.testbit x 0); rewrite ?Z.lxor_spec, Z.shiftr_spec, Hx by lia; [|done].
  rewrite (word32_range 0xedb88320) by (done || by vm_compute). done.
Qed.

(** The top bit of a step is the bit shifted out, so a step can be undone. *)
Lemma crc_bit_inj x y : word32 x -> word32 y -> crc_bit x = crc_bit y -> x = y.
Proof.
  intros Hx Hy E.
  assert (forall z, word32 z -> Z.testbit (crc_bit z) 31 = Z.testbit z 0) as Htop.
  { intros z Hz. unfold crc_bit. destruct (Z.testbit z 0) eqn:E0;
      rewrite ?Z.lxor_spec, Z.shiftr_spec, Hz by lia; reflexivity. }
  pose proof (Htop x Hx) as H1. rewrite E, (Htop y Hy) in H1.
  assert (Z.shiftr x 1 = Z.shiftr y 1) as Es.
  { unfold crc_bit in E. rewrite H1 in E. destruct (Z.testbit x 0); [|done].
    apply (f_equal (Z.lxor 0xedb88320)) in E. by rewrite <-!Z.lxor_assoc, Z.lxor_nilpotent in E. }
  apply Z.bits_inj'. intros n Hn. destruct (decide (n = 0)) as [->|]; [done|].
  replace n with (n - 1 + 1) by lia. rewrite <-!Z.shiftr_spec by lia. by rewrite Es.
Qed.

Lemma crc_iter_word32 k x : word32 x -> word32 (Nat.iter k crc_bit x).
Proof. intros Hx. induction k; [done|]. rewrite Nat.iter_succ. by apply crc_bit_word32. Qed.

Lemma crc_iter_inj k x y :
  word32 x -> word32 y -> Nat.iter k crc_bit x = Nat.iter k crc_bit y -> x = y.
Proof.
  intros Hx Hy. induction k as [|k IH]; [done|]. rewrite !Nat.iter_succ. intros E. apply IH.
  apply crc_bit_inj in E; auto using crc_iter_word32.
Qed.

Lemma word32_byte b : is_byte b -> word32 b.
Proof. intros [? ?]. apply word32_range. unfold in_u. lia. Qed.

Lemma step_bits_word32 c b : word32 c -> is_byte b -> word32 (crc32_step_bits c b).
Proof. intros Hc Hb. apply crc_iter_word32, word32_lxor; [done|by apply word32_byte]. Qed.

Lemma lxor_cancel_l a b c : Z.lxor a b = Z.lxor a c -> b = c.
Proof. intros E. apply (f_equal (Z.lxor a)) in E. by rewrite <-!Z.lxor_assoc, Z.lxor_nilpotent in E. Qed.

Lemma fold_bits_word32 data c : Forall is_byte data -> word32 c -> word32 (foldl crc32_step_bits c data).
Proof. intros Hd. revert c. induction Hd as [|b data Hb _ IH]; intros c Hc; [done|]. cbn. by apply IH, step_bits_word32. Qed.

Lemma fold_bits_inj data c c' :
  Forall is_byte data -> word32 c -> word32 c' ->
  foldl crc32_step_bits c data = foldl crc32_step_bits c' data -> c = c'.
Proof.
  intros Hd. revert c c'. induction Hd as [|b data Hb _ IH]; intros c c' Hc Hc' E; [done|]. cbn [foldl] in E.
  apply IH in E; auto using step_bits_word32. unfold crc32_step_bits in E.
  apply crc_iter_inj in E; [|by apply word32_lxor; [|apply word32_byte]..].
  rewrite (Z.lxor_comm c), (Z.lxor_comm c') in E. by apply lxor_cancel_l in E.
Qed.

(** ** STUN messages *)

(** A response as a server writes it: attributes of other types, then the
    address in an XOR-MAPPED-ADDRESS attribute. *)
Definition ip_bytes (ip : IpAddr) : list Z :=
  match ip with
  | V4 os => os
  | V6 ss => concat (put_u16 <$> ss)
  end.

Definition stun_attr (t : Z) (value : list Z) : list Z :=
  put_u16 t ++ put_u16 (Z.of_nat (length value)) ++ value ++ replicate ((4 - length value mod 4) mod 4) 0.

Definition xor_address (tx_id : list Z) (addr : SocketAddr) : list Z :=
  [0; match sa_ip addr with V4 _ => 1 | V6 _ => 2 end] ++ put_u16 (Z.lxor (sa_port addr) 0x2112) ++
  zip_with Z.lxor (ip_bytes (sa_ip addr)) (xor_key tx_id).

Definition binding_response (tx_id : list Z) (others : list (Z * list Z)) (addr : SocketAddr) : list Z :=
  let attrs := concat ((fun '(t, v) => stun_attr t v) <$> others) ++
               stun_attr ATTR_XOR_MAPPED_ADDRESS (xor_address tx_id addr) in
  BINDING_SUCCESS_RESPONSE ++ put_u16 (Z.of_nat (length attrs)) ++ MAGIC_COOKIE ++ tx_id ++ attrs.

Lemma slice_app a b c : slice (length a) (length a + length b) (a ++ b ++ c) = Some b.
Proof.
  unfold slice. rewrite !length_app, (proj2 (Nat.leb_le _ _)), (proj2 (Nat.leb_le _ _)) by lia. cbn [andb].
  rewrite drop_app_length. by rewrite take_app_length' by lia.
Qed.

Lemma slice_prefix b c n : length b = n -> slice 0 n (b ++ c) = Some b.
Proof. intros <-. apply (slice_app [] b c). Qed.

Lemma slice_suffix a b n : length a = n -> slice n (length (a ++ b)) (a ++ b) = Some b.
Proof.
  intros <-. rewrite length_app. pose proof (slice_app a b []) as H. by rewrite app_nil_r in H.
Qed.

Lemma slice_within lo hi data : (lo <= hi <= length data)%nat -> exists b, slice lo hi data = Some b /\ length b = (hi - lo)%nat.
Proof.
  intros [H1 H2]. unfold slice. rewrite !(proj2 (Nat.leb_le _ _)) by lia. eexists. split; [done|].
  rewrite length_take, length_drop. lia.
Qed.

Lemma slice_bytes lo hi data b : Forall is_byte data -> slice lo hi data = Some b -> Forall is_byte b.
Proof.
  intros Hd. unfold slice. destruct (_ && _); [|done]. intros [= <-]. by apply Forall_take, Forall_drop.
Qed.

Lemma pad4 n : 0 <= n -> Z.land (n + 3) (Z.lnot 3) = n + (4 - n mod 4) mod 4.
Proof.
  intros Hn. assert (Z.land (n + 3) (Z.lnot 3) = Z.ldiff (n + 3) (Z.ones 2)) as ->.
  { apply Z.bits_inj'. intros k Hk. by rewrite Z.land_spec, Z.lnot_spec, Z.ldiff_spec by lia. }
  rewrite Z.ldiff_ones_r, Z.shiftl_mul_pow2, Z.shiftr_div_pow2 by lia. change (2 ^ 2) with 4.
  pose proof (Z.div_mod n 4 ltac:(lia)). pose proof (Z.mod_pos_bound n 4 ltac:(lia)).
  destruct (decide (n mod 4 = 0)) as [E|E].
  - rewrite E. change ((4 - 0) mod 4) with 0.
    rewrite <-(Z.div_unique (n + 3) 4 (n / 4) 3) by lia. lia.
  - rewrite (Z.mod_small (4 - n mod 4)) by lia.
    rewrite <-(Z.div_unique (n + 3) 4 (n / 4 + 1) (n mod 4 - 1)) by lia. lia.
Qed.

Lemma pad_nat n : ((4 - n mod 4) mod 4)%nat = Z.to_nat ((4 - Z.of_nat n mod 4) mod 4).
Proof.
  assert (Z.of_nat (n mod 4) = Z.of_nat n mod 4) as E by (by rewrite Nat2Z.inj_mod).
  pose proof (Nat.mod_upper_bound n 4 ltac:(lia)).
  rewrite <-E. destruct (n mod 4)%nat as [|[|[|[|?]]]]; [reflexivity..|lia].
Qed.

(** The loop on one attribute at the front. *)
Lemma parse_attrs_attr fuel tx_id t v rest addr fallback :
  in_u 16 t -> in_u 16 (Z.of_nat (length v)) ->
  parse_attrs (S fuel) tx_id (stun_attr t v ++ rest) addr fallback =
  if (t =? ATTR_XOR_MAPPED_ADDRESS) || (t =? ATTR_XOR_MAPPED_ADDRESS_ALT)
  then parse_attrs fuel tx_id rest (to_socket (parse_xor_mapped_address tx_id v) addr) fallback
  else if t =? ATTR_MAPPED_ADDRESS
  then parse_attrs fuel tx_id rest addr (to_socket (parse_mapped_address v) fallback)
  else parse_attrs fuel tx_id rest addr fallback.
Proof.
  intros Ht Hl. unfold stun_attr. set (pad := replicate _ 0). rewrite <-!(assoc_L (++)).
  assert (length pad = Z.to_nat ((4 - Z.of_nat (length v) mod 4) mod 4)) as Lp
    by (unfold pad; by rewrite length_replicate, pad_nat).
  pose proof (Z.mod_pos_bound (4 - Z.of_nat (length v) mod 4) 4 ltac:(lia)) as Hpos.
  set (hdr := put_u16 t ++ put_u16 (Z.of_nat (length v))).
  assert (length hdr = 4%nat) as Lh by (unfold hdr; by rewrite length_app, !length_put_u16).
  cbn [parse_attrs].
  destruct (put_u16 t ++ put_u16 (Z.of_nat (length v)) ++ v ++ pad ++ rest) as [|x xs] eqn:E; [done|].
  rewrite <-E. clear x xs E. rewrite (assoc_L (++) (put_u16 t)). fold hdr.
  rewrite (proj2 (Nat.ltb_ge _ _)) by (rewrite length_app; lia).
  assert (slice 0 2 (hdr ++ v ++ pad ++ rest) = Some (put_u16 t)) as ->
    by (unfold hdr; rewrite <-(assoc_L (++)); by apply slice_prefix).
  assert (slice 2 4 (hdr ++ v ++ pad ++ rest) = Some (put_u16 (Z.of_nat (length v)))) as ->
    by (unfold hdr; rewrite <-(assoc_L (++)); apply (slice_app (put_u16 t) (put_u16 _))).
  unfold mbind, option_bind. rewrite slice_suffix by done.
  unfold put_u16. rewrite !(be_combine_split_id 2) by done. rewrite pad4 by lia.
  rewrite (proj2 (Z.ltb_ge _ _)) by (rewrite !length_app, Lp; lia).
  rewrite Nat2Z.id, slice_prefix by done.
  assert (slice (Z.to_nat (Z.of_nat (length v) + (4 - Z.of_nat (length v) mod 4) mod 4))
            (length (v ++ pad ++ rest)) (v ++ pad ++ rest) = Some rest) as ->
    by (rewrite (assoc_L (++)); apply slice_suffix; rewrite length_app, Lp; lia).
  done.
Qed.

Lemma parse_attrs_nil fuel tx_id addr fallback :
  parse_attrs fuel tx_id [] addr fallback = Some (Ok (addr, fallback)).
Proof. by destruct fuel. Qed.

Lemma zip_lxor_involutive (a k : list Z) :
  (length a <= length k)%nat -> zip_with Z.lxor (zip_with Z.lxor a k) k = a.
Proof.
  revert k. induction a as [|x a IH]; intros [|y k] H; cbn in *; try done; [lia|].
  rewrite IH by lia. by rewrite Z.lxor_assoc, Z.lxor_nilpotent, Z.lxor_0_r.
Qed.

Lemma words_concat ss : Forall (in_u 16) ss -> words (concat (put_u16 <$> ss)) = ss.
Proof.
  induction 1 as [|s ss Hs _ IH]; [done|]. cbn [fmap list_fmap concat].
  pose proof (be_combine_split_id 2 s Hs) as E. revert IH. generalize (concat (put_u16 <$> ss)).
  intros tl IH. unfold put_u16. cbn [be_split app words] in *. rewrite IH. f_equal.
  etrans; [|exact E]. unfold be_combine. cbn [fold_left]. lia.
Qed.

Lemma length_ip_bytes ip : ip_ok ip -> length (ip_bytes ip) = match ip with V4 _ => 4%nat | V6 _ => 16%nat end.
Proof.
  destruct ip as [os|ss]; intros [Hl _]; [done|]. cbn. do 8 (destruct ss as [|? ss]; [done|]). by destruct ss.
Qed.

Lemma lxor_range w a b : 0 <= w -> in_u w a -> in_u w b -> in_u w (Z.lxor a b).
Proof.
  intros Hw [Ha Ha'] [Hb Hb'].
  assert (forall x, 0 <= x < 2 ^ w -> x = 0 \/ Z.log2 x < w) as Hlog.
  { intros x Hx. destruct (decide (x = 0)); [by left|right]. apply Z.log2_lt_pow2; lia. }
  assert (0 <= Z.lxor a b) as Hnn by (apply Z.lxor_nonneg; split; intros; lia).
  split; [done|]. destruct (decide (Z.lxor a b = 0)) as [->|Hn]; [lia|].
  apply Z.log2_lt_pow2; [lia|]. pose proof (Z.log2_lxor a b Ha Hb).
  destruct (Hlog a ltac:(lia)) as [->|], (Hlog b ltac:(lia)) as [->|];
    rewrite ?Z.lxor_0_l, ?Z.lxor_0_r in *; lia.
Qed.

Lemma parse_xor_address tx_id addr :
  length tx_id = 12%nat -> ip_ok (sa_ip addr) -> in_u 16 (sa_port addr) ->
  parse_xor_mapped_address tx_id (xor_address tx_id addr) = Some (sa_ip addr, sa_port addr).
Proof.
  intros Htx Hip Hport. pose proof (length_ip_bytes _ Hip) as Hl.
  assert (length (xor_key tx_id) = 16%nat) as Lk by (unfold xor_key; rewrite length_app, Htx; done).
  assert (length (zip_with Z.lxor (ip_bytes (sa_ip addr)) (xor_key tx_id)) = length (ip_bytes (sa_ip addr))) as Lz.
  { rewrite length_zip_with, Lk, Hl. by destruct (sa_ip addr). }
  pose proof (lxor_range 16 (sa_port addr) 0x2112 ltac:(lia) Hport ltac:(by vm_compute)) as Hx.
  unfold xor_address, parse_xor_mapped_address. unfold put_u16. pose proof (be_combine_split_id 2 _ Hx) as E.
  cbn [be_split app] in *. set (p0 := (_ / _) mod 256) in *. set (p1 := (_ / 2 ^ (8 * Z.of_nat 0)) mod 256) in *.
  assert (p0 * 256 + p1 = Z.lxor (sa_port addr) 0x2112) as -> by (rewrite <-E; unfold be_combine; cbn; lia).
  rewrite Z.lxor_assoc, Z.lxor_nilpotent, Z.lxor_0_r.
  assert (family_addr_len (match sa_ip addr with V4 _ => 1 | V6 _ => 2 end) = length (ip_bytes (sa_ip addr))) as ->
    by (rewrite Hl; by destruct (sa_ip addr)).
  rewrite Lz, Nat.ltb_irrefl. rewrite <-Lz at 2. rewrite take_ge, zip_lxor_involutive by (lia || (rewrite Hl, Lk; destruct (sa_ip addr); lia)).
  unfold ip_from_bytes. destruct (sa_ip addr) as [os|ss]; rewrite Hl; cbn; [done|].
  by rewrite words_concat by apply Hip.
Qed.

(** Attributes of other types leave the addresses alone. *)
Definition other_attr (tv : Z * list Z) : Prop :=
  in_u 16 tv.1 /\ in_u 16 (Z.of_nat (length tv.2)) /\
  tv.1 <> ATTR_XOR_MAPPED_ADDRESS /\ tv.1 <> ATTR_XOR_MAPPED_ADDRESS_ALT /\ tv.1 <> ATTR_MAPPED_ADDRESS.

Lemma stun_attr_length t v : (4 <= length (stun_attr t v))%nat.
Proof. unfold stun_attr. rewrite !length_app, !length_put_u16. lia. Qed.

Lemma parse_attrs_others fuel tx_id others rest addr fallback :
  Forall other_attr others ->
  parse_attrs (length others + fuel) tx_id (concat ((fun '(t, v) => stun_attr t v) <$> others) ++ rest) addr fallback =
  parse_attrs fuel tx_id rest addr fallback.
Proof.
  induction 1 as [|[t v] others (Ht & Hl & H1 & H2 & H3) _ IH]; [done|].
  cbn [fmap list_fmap concat length Nat.add]. rewrite <-(assoc_L (++)).
  rewrite parse_attrs_attr by done. cbn [fst] in *.
  rewrite !(proj2 (Z.eqb_neq _ _)) by done. apply IH.
Qed.

Lemma parse_attrs_no_panic fuel tx_id attrs addr fallback :
  Forall is_byte attrs -> parse_attrs fuel tx_id attrs addr fallback <> None.
Proof.
  revert attrs addr fallback. induction fuel as [|fuel IH]; intros attrs addr fallback Hb; [done|].
  cbn [parse_attrs]. destruct attrs as [|x xs] eqn:E; [done|]. rewrite <-E in *. clear E x xs.
  destruct (Nat.ltb_spec (length attrs) 4) as [|H4]; [done|].
  destruct (slice_within 0 2 attrs) as (t & -> & _); [lia|].
  destruct (slice_within 2 4 attrs) as (l & Hl & Ll); [lia|]. rewrite Hl. unfold mbind, option_bind.
  pose proof (slice_bytes _ _ _ _ Hb Hl) as Hbl.
  pose proof (be_combine_bound l Hbl) as [Hn _].
  destruct (slice_within 4 (length attrs) attrs) as (r & Hr & Lr); [lia|]. rewrite Hr.
  pose proof (slice_bytes _ _ _ _ Hb Hr) as Hbr.
  rewrite pad4 by done. pose proof (Z.mod_pos_bound (4 - be_combine l mod 4) 4 ltac:(lia)) as Hp.
  destruct (Z.ltb_spec (Z.of_nat (length r)) (be_combine l + (4 - be_combine l mod 4) mod 4)) as [|Hfit]; [done|].
  destruct (slice_within 0 (Z.to_nat (be_combine l)) r) as (v & -> & _); [lia|].
  destruct (slice_within (Z.to_nat (be_combine l + (4 - be_combine l mod 4) mod 4)) (length r) r)
    as (r' & Hr' & _); [lia|]. rewrite Hr'.
  pose proof (slice_bytes _ _ _ _ Hbr Hr') as Hbr'.
  destruct (_ || _); [by apply IH|]. destruct (_ =? _); by apply IH.
Qed.

Lemma parse_response_no_panic data : Forall is_byte data -> parse_response data <> None.
Proof.
  intros Hb. unfold parse_response. destruct (is_stun_packet data) eqn:E; [|done]. cbn [negb].
  unfold is_stun_packet in E. apply andb_prop in E as [[E%Nat.leb_le _]%andb_prop _]. unfold HEADER_LEN in *.
  destruct (slice_within 8 20 data) as (tx & -> & _); [lia|].
  destruct (slice_within 0 2 data) as (k & -> & _); [lia|]. unfold mbind, option_bind.
  destruct (negb _); [done|]. destruct (slice_within 2 4 data) as (l & -> & _); [lia|].
  destruct (slice_within 20 (length data) data) as (at_ & Ha & _); [lia|]. rewrite Ha.
  pose proof (slice_bytes _ _ _ _ Hb Ha) as Hab.
  destruct (Nat.ltb_spec (length at_) (Z.to_nat (be_combine l))) as [|Hle]; [done|].
  destruct (slice_within 0 (Z.to_nat (be_combine l)) at_) as (at2 & Ha2 & _); [lia|]. rewrite Ha2.
  pose proof (parse_attrs_no_panic (length at2) tx at2 None None (slice_bytes _ _ _ _ Hab Ha2)) as Hn.
  by destruct (parse_attrs _ _ _ _ _).
Qed.

Lemma length_xor_address tx_id addr :
  ip_ok (sa_ip addr) -> (length (xor_address tx_id addr) <= 20)%nat.
Proof.
  intros Hip. unfold xor_address. rewrite !length_app, length_put_u16, length_zip_with, length_ip_bytes by done.
  destruct (sa_ip addr); cbn [length]; lia.
Qed.

Lemma length_others others :
  (length others <= length (concat ((fun '(t, v) => stun_attr t v) <$> others)))%nat.
Proof.
  induction others as [|[t v] others IH]; [done|]. cbn [fmap list_fmap concat length]. rewrite length_app.
  pose proof (stun_attr_length t v). lia.
Qed.

Lemma parse_binding_response tx_id others addr :
  length tx_id = 12%nat -> ip_ok (sa_ip addr) -> in_u 16 (sa_port addr) -> Forall other_attr others ->
  in_u 16 (Z.of_nat (length (concat ((fun '(t, v) => stun_attr t v) <$> others) ++
                             stun_attr ATTR_XOR_MAPPED_ADDRESS (xor_address tx_id addr)))) ->
  parse_response (binding_response tx_id others addr) = Some (Ok (tx_id, addr)).
Proof.
  intros Htx Hip Hport Hoth Hlen. unfold binding_response. cbv zeta.
  set (xa := stun_attr ATTR_XOR_MAPPED_ADDRESS (xor_address tx_id addr)) in *.
  set (cs := concat ((fun '(t, v) => stun_attr t v) <$> others)) in *.
  set (hdr := BINDING_SUCCESS_RESPONSE ++ put_u16 (Z.of_nat (length (cs ++ xa))) ++ MAGIC_COOKIE ++ tx_id).
  assert (BINDING_SUCCESS_RESPONSE ++ put_u16 (Z.of_nat (length (cs ++ xa))) ++ MAGIC_COOKIE ++ tx_id ++ cs ++ xa
          = hdr ++ (cs ++ xa)) as E0 by (unfold hdr; by rewrite <-!(assoc_L (++))).
  assert (length hdr = 20%nat) as Lh by (unfold hdr; rewrite !length_app, length_put_u16, Htx; done).
  assert (slice 4 8 (hdr ++ (cs ++ xa)) = Some MAGIC_COOKIE) as S1 by (rewrite <-E0; reflexivity).
  assert (slice 8 20 (hdr ++ (cs ++ xa)) = Some tx_id) as S2.
  { rewrite <-E0, !(assoc_L (++)), <-(assoc_L (++) _ cs xa), <-(assoc_L (++) _ tx_id).
    pose proof (slice_app ((BINDING_SUCCESS_RESPONSE ++ put_u16 (Z.of_nat (length (cs ++ xa)))) ++ MAGIC_COOKIE)
      tx_id (cs ++ xa)) as H. rewrite !length_app, length_put_u16, Htx in H. exact H. }
  assert (slice 0 2 (hdr ++ (cs ++ xa)) = Some BINDING_SUCCESS_RESPONSE) as S3 by (rewrite <-E0; reflexivity).
  assert (slice 2 4 (hdr ++ (cs ++ xa)) = Some (put_u16 (Z.of_nat (length (cs ++ xa))))) as S4
    by (rewrite <-E0; reflexivity).
  rewrite E0. unfold parse_response, is_stun_packet. rewrite S1, S2, S3, S4, bool_decide_true by done.
  rewrite (proj2 (Nat.leb_le _ _)) by (rewrite length_app; unfold HEADER_LEN; lia).
  change ((hdr ++ cs ++ xa) !! 0%nat) with (Some 1). unfold mbind, option_bind. cbn [andb negb Z.land Z.eqb].
  rewrite bool_decide_true by done. cbn [negb]. unfold put_u16. rewrite (be_combine_split_id 2), Nat2Z.id by done.
  rewrite slice_suffix by done. rewrite Nat.ltb_irrefl.
  rewrite <-(app_nil_r (cs ++ xa)) at 2. rewrite slice_prefix by done.
  assert (exists k, length (cs ++ xa) = length others + S k)%nat as [k ->].
  { exists (length (cs ++ xa) - length others - 1)%nat. pose proof (length_others others) as Ho. fold cs in Ho.
    pose proof (stun_attr_length ATTR_XOR_MAPPED_ADDRESS (xor_address tx_id addr)) as Hx. fold xa in Hx.
    rewrite length_app. lia. }
  unfold cs, xa. rewrite parse_attrs_others by done.
  rewrite <-(app_nil_r (stun_attr _ _)), parse_attrs_attr
    by (try (by vm_compute); unfold in_u; pose proof (length_xor_address tx_id addr Hip); lia).
  rewrite parse_xor_address by done. cbn. rewrite parse_attrs_nil. cbn. by destruct addr.
Qed.

(** ** Theorems *)

(** The table-driven CRC-32 of the STUN fingerprint equals the bit-by-bit
    definition, and it detects every corruption of a single byte: changing one
    byte of a message anywhere changes its fingerprint. *)
Theorem stun_crc32_correct pre b b' post :
  Forall is_byte (pre ++ b :: post) -> is_byte b' -> b' <> b ->
  crc32_ieee (pre ++ b :: post) = crc32_bits (pre ++ b :: post) /\
  fingerprint (pre ++ b' :: post) <> fingerprint (pre ++ b :: post).
Proof.
  intros Hd Hb' Hne. split; [by apply crc32_ieee_eq|].
  apply Forall_app in Hd as [Hpre [Hb Hpost]%Forall_cons].
  unfold fingerprint. rewrite !(Z.lxor_comm _ 0x5354554e). intros E%lxor_cancel_l.
  rewrite !crc32_ieee_eq in E by (apply Forall_app; split; [done|by constructor]).
  unfold crc32_bits, not32 in E. apply lxor_cancel_l in E. rewrite !foldl_app in E. cbn [foldl] in E.
  assert (word32 (foldl crc32_step_bits (Z.lxor (Z.ones 32) 0) pre)) as Hw
    by (apply fold_bits_word32; [done|apply word32_range; by vm_compute]).
  apply fold_bits_inj in E; [|done|by apply step_bits_word32..].
  apply crc_iter_inj in E; [|by apply word32_lxor; [|apply word32_byte]..].
  by apply lxor_cancel_l in E.
Qed.

Lemma stun_crc32_correct_witness :
  crc32_ieee ([49; 50] ++ 51 :: []) = crc32_bits ([49; 50] ++ 51 :: []) /\
  fingerprint ([49; 50] ++ 52 :: []) <> fingerprint ([49; 50] ++ 51 :: []).
Proof. apply stun_crc32_correct; [repeat constructor; by vm_compute|by vm_compute|done]. Defined.

(** The check value of CRC-32/IEEE: the digits 1 to 9. *)
Example crc32_check : crc32_ieee (Z.of_nat <$> seq 49 9) = 0xcbf43926.
Proof. vm_compute. reflexivity. Qed.

(** Parsing a binding response never reads out of bounds, whatever the
    datagram; and from a well-formed response, with any other attributes before
    it, the parser recovers the transaction ID and exactly the IPv4 or IPv6
    address and port the server put into it. *)
Theorem stun_response_roundtrip data tx_id others addr :
  Forall is_byte data ->
  length tx_id = 12%nat -> ip_ok (sa_ip addr) -> in_u 16 (sa_port addr) -> Forall other_attr others ->
  in_u 16 (Z.of_nat (length (concat ((fun '(t, v) => stun_attr t v) <$> others) ++
                             stun_attr ATTR_XOR_MAPPED_ADDRESS (xor_address tx_id addr)))) ->
  parse_response data <> None /\
  parse_response (binding_response tx_id others addr) = Some (Ok (tx_id, addr)).
Proof. intros. split; [by apply parse_response_no_panic|by apply parse_binding_response]. Qed.

Lemma stun_response_roundtrip_witness :
  parse_response [1; 1; 255; 255] <> None /\
  parse_response (binding_response (replicate 12 5) [(ATTR_SOFTWARE, [65; 66])] (mkSocketAddr (V4 [203; 0; 113; 7]) 22000))
  = Some (Ok (replicate 12 5, mkSocketAddr (V4 [203; 0; 113; 7]) 22000)).
Proof.
  apply stun_response_roundtrip; try (by vm_compute).
  - repeat constructor; by vm_compute.
  - split; [done|]. repeat constructor; by vm_compute.
  - repeat constructor; by vm_compute.
Defined.

(** A NAT is reported as "restricted", a type that counts as fit for direct
    connections, exactly when the two servers saw the same address with
    different ports: when the mapping does depend on the destination. *)
Theorem nat_restricted_unstable n a b :
  (2 <= n)%nat ->
  (detect_nat_type n (Ok a) (Ok b)).1 = NatRestricted <-> sa_ip a = sa_ip b /\ sa_port a <> sa_port b.
Proof.
  intros Hn. unfold detect_nat_type. rewrite (proj2 (Nat.ltb_ge _ _)) by done. cbn [fst].
  destruct a as [ia pa], b as [ib pb]; cbn. repeat case_decide; simplify_eq; naive_solver.
Qed.

Lemma nat_restricted_unstable_witness :
  (detect_nat_type 2 (Ok (mkSocketAddr (V4 [1; 2; 3; 4]) 10)) (Ok (mkSocketAddr (V4 [1; 2; 3; 4]) 11))).1 = NatRestricted.
Proof. apply nat_restricted_unstable; [lia|]. cbn. split; [done|lia]. Defined.

(** A NAT-PMP mapping reply as a gateway writes it. *)
Definition pmp_map_reply (code epoch internal external lifetime : Z) : list Z :=
  [0; 0x81] ++ put_u16 code ++ put_u32 epoch ++ put_u16 internal ++ put_u16 external ++ put_u32 lifetime.

Definition pmp_addr_reply (code epoch : Z) (addr : list Z) : list Z :=
  [0; 0x80] ++ put_u16 code ++ put_u32 epoch ++ addr.

Lemma parse_pmp_map_reply code epoch internal external lifetime :
  in_u 16 code -> in_u 32 epoch -> in_u 16 internal -> in_u 16 external -> in_u 32 lifetime ->
  parse_pmp_response (pmp_map_reply code epoch internal external lifetime) =
  Some (mkPmpResponse 0x81 code epoch lifetime internal external None).
Proof.
  intros Hc He Hi Hx Hl. unfold pmp_map_reply, put_u16, put_u32.
  rewrite <-(be_combine_split_id 2 code Hc) at 2. rewrite <-(be_combine_split_id 4 epoch He) at 2.
  rewrite <-(be_combine_split_id 2 internal Hi) at 2. rewrite <-(be_combine_split_id 2 external Hx) at 2.
  rewrite <-(be_combine_split_id 4 lifetime Hl) at 2.
  reflexivity.
Qed.

Definition two_hours (env : MapEnv) (m : Mapping) : Prop :=
  map_good_until m = me_now env + 7200 /\ map_renew_after m = me_now env + 3600.

Lemma try_pcp_times env pm port m : try_pcp env pm port = Some m -> two_hours env m.
Proof. unfold try_pcp. intros H. repeat (case_match; try done). by injection H as <-. Qed.

Lemma try_pmp_times env port m : try_pmp env port = Some m -> two_hours env m.
Proof. unfold try_pmp. intros H. repeat (case_match; try done). by injection H as <-. Qed.

Lemma allocate_upnp_times env m : allocate_upnp env = Ok m -> two_hours env m.
Proof. unfold allocate_upnp. destruct (me_upnp env); [|done]. by intros [= <-]. Qed.

(** The port mapper schedules every mapping for two hours, renewed after
    one, whatever lifetime the gateway granted: a mapping granted for less than
    an hour has expired before its renewal is due. *)
Theorem mapping_lifetime_fixed env local_port pm m pm' :
  allocate_port env local_port pm = (Ok m, pm') ->
  map_good_until m = me_now env + 7200 /\ map_renew_after m = me_now env + 3600 /\
  pm_last_mapping pm' = Some m.
Proof.
  unfold allocate_port. destruct (try_pcp env pm local_port) as [m1|] eqn:E1.
  - intros [= <- <-]. destruct (try_pcp_times _ _ _ _ E1). done.
  - destruct (try_pmp env local_port) as [m2|] eqn:E2.
    + intros [= <- <-]. destruct (try_pmp_times _ _ _ E2). done.
    + destruct (allocate_upnp env) as [m3|e] eqn:E3; [|done]. intros [= <- <-].
      destruct (allocate_upnp_times _ _ E3). done.
Qed.

(** A gateway that answers PCP and grants a minute. *)
Definition pcp_map_reply (lifetime : Z) : list Z :=
  [2; 0x81; 0; 0] ++ put_u32 lifetime ++ replicate 34 0 ++ put_u16 22000 ++ encode_ipv4_mapped [203; 0; 113; 7].

Definition sample_map_env (lifetime : Z) : MapEnv :=
  mkMapEnv (Some [192; 168; 1; 1]) (Some [192; 168; 1; 2]) (Some (take 24 (pcp_map_reply lifetime)))
    (Some (pcp_map_reply lifetime)) None None None None 1000.

Lemma mapping_lifetime_fixed_witness :
  exists m, (allocate_port (sample_map_env 60) 22000 portmapper_new).1 = Ok m /\
    parse_pcp_response (pcp_map_reply 60) = Some (mkPcpResponse 0x81 0 60) /\
    map_external m = mkSocketAddr (V4 [203; 0; 113; 7]) 22000 /\ 1000 + 60 < map_renew_after m.
Proof.
  destruct (allocate_port (sample_map_env 60) 22000 portmapper_new) as [[m|e] pm'] eqn:E; [|done].
  exists m. destruct (mapping_lifetime_fixed _ _ _ _ _ E) as (_ & Hr & _).
  split; [done|]. split; [reflexivity|]. split; [by vm_compute in E; injection E as <- _|].
  rewrite Hr. cbn. lia.
Defined.

(** NAT-PMP replies are not matched with the request: the answer to the
    address query, received instead of the answer to the mapping request, is
    taken for a mapping of external port 0. *)
Theorem pmp_wrong_reply_accepted gateway local_port epoch ip :
  length ip = 4%nat -> ip <> [0; 0; 0; 0] -> in_u 32 epoch ->
  pmp_allocate_port gateway local_port (Some (pmp_addr_reply 0 epoch ip)) (Some (pmp_addr_reply 0 epoch ip)) =
  Ok (mkSocketAddr (V4 ip) 0, mkPmpMappingState gateway 0 local_port).
Proof.
  intros Hl Hne He. do 4 (destruct ip as [|? ip]; [done|]). destruct ip; [|done].
  assert (parse_pmp_response (take 16 (pmp_addr_reply 0 epoch [z; z0; z1; z2])) =
          Some (mkPmpResponse 0x80 0 epoch 0 0 0 (Some [z; z0; z1; z2]))) as E.
  { rewrite <-(be_combine_split_id 4 epoch He) at 2.
    transitivity (Some (mkPmpResponse 0x80 0 (be_combine (be_split 4 epoch)) 0 0 0
      (if bool_decide ([z; z0; z1; z2] = [0; 0; 0; 0]) then None else Some [z; z0; z1; z2])));
      [reflexivity|]. by rewrite bool_decide_false. }
  unfold pmp_allocate_port, get_external_address, recv_from. cbn [fmap option_fmap option_map ok_or result_bind].
  rewrite E. done.
Qed.

Lemma pmp_wrong_reply_accepted_witness :
  pmp_allocate_port (mkSocketAddr (V4 [192; 168; 1; 1]) 5351) 22000
    (Some (pmp_addr_reply 0 7 [203; 0; 113; 7])) (Some (pmp_addr_reply 0 7 [203; 0; 113; 7])) =
  Ok (mkSocketAddr (V4 [203; 0; 113; 7]) 0, mkPmpMappingState (mkSocketAddr (V4 [192; 168; 1; 1]) 5351) 0 22000).
Proof. apply pmp_wrong_reply_accepted; done. Defined.
