(* ===== verification/Supervise.v ===== *)
(** * Supervision and scheduling ([supervisor.rs] and [orchestrator.rs] of syncthing-sync)

    The restart loop of a supervised task as a function of how and when its
    runs end, and the orchestrator's permits for scans and pulls as a step
    relation between tasks that wait for, hold and release them.  Durations are
    nanoseconds. *)

From S2P Require Import Prelude.

(** ** Restarts *)

Inductive RestartPolicy := Always | OnFailure | Never.

Record ExponentialBackoff := mkExponentialBackoff { initial_delay : Z; max_delay : Z; reset_after : Z }.

(** The longest [Duration]. *)
Definition DURATION_MAX : Z := 2 ^ 64 * 1_000_000_000 - 1.

(** [2u32.saturating_pow(attempt.min(31))], [saturating_mul] and [min]. *)
Definition next_delay (b : ExponentialBackoff) (attempt : Z) : Z :=
  let multiplier := (2 ^ (attempt `min` 31)) `min` (2 ^ 32 - 1) in
  ((initial_delay b * multiplier) `min` DURATION_MAX) `min` max_delay b.

Record RestartConfig := mkRestartConfig { restart_policy : RestartPolicy; backoff : ExponentialBackoff; max_restarts : Z }.

Definition restart_config_default : RestartConfig :=
  mkRestartConfig OnFailure (mkExponentialBackoff 100_000_000 60_000_000_000 60_000_000_000) 5.

(** How the spawned task ends: [Ok(Ok(()))], [Ok(Err(_))] or a panic. *)
Inductive TaskEnd := EndedOk | EndedErr | EndedPanic.

Definition should_restart (p : RestartPolicy) (r : TaskEnd) : bool :=
  match r, p with
  | EndedOk, Always => true
  | EndedOk, _ => false
  | _, Never => false
  | _, _ => true
  end.

Record SuperviseState := mkSuperviseState { sv_attempt : Z; sv_restart_count : Z; sv_window_start : Z }.

Definition supervise_start (now : Z) : SuperviseState := mkSuperviseState 0 0 now.

Inductive SuperviseOutcome :=
| Restarted (st : SuperviseState)
| Finished
| PermanentFailure.

(** After a run that ended at [now]; an overflowing counter panics, which ends
    the supervising task without the callback. *)
Definition supervise_ended (cfg : RestartConfig) (st : SuperviseState) (r : TaskEnd) (now : Z) : SuperviseOutcome :=
  if negb (should_restart (restart_policy cfg) r) then Finished
  else
    let reset := reset_after (backoff cfg) <? now - sv_window_start st in
    let window_start := if reset then now else sv_window_start st in
    let restart_count := (if reset then 0 else sv_restart_count st) + 1 in
    if 2 ^ 32 <=? restart_count then Finished
    else if max_restarts cfg <? restart_count then PermanentFailure
    else if 2 ^ 32 <=? sv_attempt st + 1 then Finished
    else Restarted (mkSuperviseState (sv_attempt st + 1) restart_count window_start).

(** The sleep before the next run. *)
Definition supervise_delay (cfg : RestartConfig) (st : SuperviseState) : option Z :=
  if 0 <? sv_attempt st then Some (next_delay (backoff cfg) (sv_attempt st - 1)) else None.

(** What happens in a row: a run ends, or the shutdown signal arrives. *)
Inductive SuperviseEvent := RunEnded (r : TaskEnd) (now : Z) | ShutdownSignal.

(** The number of runs that were started and how the supervision ended, [None]
    while a run goes on. *)
Fixpoint supervise (cfg : RestartConfig) (st : SuperviseState) (events : list SuperviseEvent)
    : nat * option SuperviseOutcome :=
  match events with
  | [] => (1%nat, None)
  | ShutdownSignal :: _ => (1%nat, Some Finished)
  | RunEnded r now :: rest =>
      match supervise_ended cfg st r now with
      | Restarted st' => let '(n, o) := supervise cfg st' rest in (S n, o)
      | o => (1%nat, Some o)
      end
  end.

(** ** The orchestrator *)

Record OrchestratorConfig := mkOrchestratorConfig {
  max_concurrent_scans : Z;
  max_concurrent_pulls : Z;
  enable_scan_stagger : bool;
  scan_stagger_secs : Z;
  throttle_percent : Z;
}.

Definition orchestrator_default : OrchestratorConfig := mkOrchestratorConfig 2 3 true 60 100.
Definition conservative : OrchestratorConfig := mkOrchestratorConfig 1 1 true 120 100.
Definition aggressive : OrchestratorConfig := mkOrchestratorConfig 4 6 true 30 100.

Inductive FolderPriority := PriorityLow | PriorityNormal | PriorityHigh | PriorityCritical.

Definition priority_code (p : FolderPriority) : Z :=
  match p with PriorityLow => 0 | PriorityNormal => 1 | PriorityHigh => 2 | PriorityCritical => 3 end.

(** A semaphore with its two counters. *)
Record PermitPool := mkPermitPool { pool_free : Z; pool_active : Z; pool_queued : Z }.

Record FolderOrchestrator := mkFolderOrchestrator {
  fo_config : OrchestratorConfig;
  fo_scans : PermitPool;
  fo_pulls : PermitPool;
  fo_staggered : gset str;
  fo_priorities : gmap str FolderPriority;
  fo_scan_counter : Z;
}.

(** The configuration as it is stored. *)
Definition clamp_config (c : OrchestratorConfig) : OrchestratorConfig :=
  mkOrchestratorConfig (max_concurrent_scans c `max` 1) (max_concurrent_pulls c `max` 1) (enable_scan_stagger c)
    (scan_stagger_secs c) (throttle_percent c `min` 100).

Definition with_config (c : OrchestratorConfig) : FolderOrchestrator :=
  mkFolderOrchestrator (clamp_config c) (mkPermitPool (max_concurrent_scans c `max` 1) 0 0)
    (mkPermitPool (max_concurrent_pulls c `max` 1) 0 0) ∅ ∅ 0.

Definition set_config (o : FolderOrchestrator) (c : OrchestratorConfig) : FolderOrchestrator :=
  mkFolderOrchestrator (clamp_config c) (fo_scans o) (fo_pulls o) (fo_staggered o) (fo_priorities o) (fo_scan_counter o).

Definition set_throttle (o : FolderOrchestrator) (percent : Z) : FolderOrchestrator :=
  let c := fo_config o in
  mkFolderOrchestrator
    (mkOrchestratorConfig (max_concurrent_scans c) (max_concurrent_pulls c) (enable_scan_stagger c) (scan_stagger_secs c)
       (percent `min` 100))
    (fo_scans o) (fo_pulls o) (fo_staggered o) (fo_priorities o) (fo_scan_counter o).

Definition set_priority (o : FolderOrchestrator) (folder : str) (p : FolderPriority) : FolderOrchestrator :=
  mkFolderOrchestrator (fo_config o) (fo_scans o) (fo_pulls o) (fo_staggered o) (<[folder := p]> (fo_priorities o))
    (fo_scan_counter o).

Definition priority (o : FolderOrchestrator) (folder : str) : FolderPriority :=
  default PriorityNormal (fo_priorities o !! folder).

(** [stable_hash] is std's default hasher. *)
Definition jitter_ms (max_secs hash : Z) (p : FolderPriority) : Z :=
  let jitter := (hash mod wrap 64 ((max_secs `max` 1) * 1000)) `max` 1 in
  jitter / (1 + (3 - priority_code p `min` 3)).

(** The delay before a folder's first scan, and the orchestrator after it. *)
Definition maybe_stagger (stable_hash : str -> Z -> Z) (o : FolderOrchestrator) (folder : str) : Z * FolderOrchestrator :=
  if bool_decide (folder ∈ fo_staggered o) then (0, o)
  else
    let done counter :=
      mkFolderOrchestrator (fo_config o) (fo_scans o) (fo_pulls o) ({[folder]} ∪ fo_staggered o) (fo_priorities o) counter in
    let max_secs := scan_stagger_secs (fo_config o) in
    if negb (enable_scan_stagger (fo_config o)) || (max_secs =? 0) then (0, done (fo_scan_counter o))
    else
      (jitter_ms max_secs (stable_hash folder (fo_scan_counter o)) (priority o folder), done (wrap 64 (fo_scan_counter o + 1))).

(** One pool, a task at a time: [begin_scan] or [begin_pull] counts the waiting
    task, then takes a permit; dropping the permit gives it back; a task that is
    cancelled while it waits simply goes away. *)
Definition pool_wait (p : PermitPool) : PermitPool := mkPermitPool (pool_free p) (pool_active p) (wrap 64 (pool_queued p + 1)).

Definition pool_acquire (p : PermitPool) : option PermitPool :=
  if 0 <? pool_free p
  then Some (mkPermitPool (pool_free p - 1) (wrap 64 (pool_active p + 1)) (wrap 64 (pool_queued p - 1)))
  else None.

Definition pool_release (p : PermitPool) : PermitPool :=
  mkPermitPool (pool_free p + 1) (wrap 64 (pool_active p - 1)) (pool_queued p).

(** The pool with the number of tasks that wait, hold a permit, or gave up. *)
Record PoolState := mkPoolState { ps_pool : PermitPool; ps_waiting : Z; ps_holding : Z; ps_cancelled : Z }.

Inductive pool_step : PoolState -> PoolState -> Prop :=
| pool_waits p w h c : pool_step (mkPoolState p w h c) (mkPoolState (pool_wait p) (w + 1) h c)
| pool_acquires p p' w h c :
    0 < w -> pool_acquire p = Some p' -> pool_step (mkPoolState p w h c) (mkPoolState p' (w - 1) (h + 1) c)
| pool_releases p w h c : 0 < h -> pool_step (mkPoolState p w h c) (mkPoolState (pool_release p) w (h - 1) c)
| pool_cancels p w h c : 0 < w -> pool_step (mkPoolState p w h c) (mkPoolState p (w - 1) h (c + 1)).

Definition pool_start (size : Z) : PoolState := mkPoolState (mkPermitPool size 0 0) 0 0 0.

(** ** Theorems *)

Section Backoff.
Context (b : ExponentialBackoff).

(** The back-off is what it says: the initial delay doubled per attempt up to
    thirty-one times, never above the configured maximum and never shorter than
    the one before. *)
Theorem next_delay_doubles attempt :
  0 <= initial_delay b <= DURATION_MAX -> 0 <= max_delay b <= DURATION_MAX -> 0 <= attempt ->
  0 <= next_delay b attempt <= max_delay b /\ next_delay b attempt <= next_delay b (attempt + 1) /\
  (attempt <= 31 -> initial_delay b * 2 ^ attempt <= max_delay b -> next_delay b attempt = initial_delay b * 2 ^ attempt).
Proof.
  intros Hi Hm Ha. unfold next_delay.
  assert (forall k, 0 <= k -> 2 ^ (k `min` 31) <= 2 ^ 31 /\ 0 < 2 ^ (k `min` 31)) as Hpow.
  { intros k Hk. split; [apply Z.pow_le_mono_r; lia|apply Z.pow_pos_nonneg; lia]. }
  destruct (Hpow attempt Ha) as [H1 H2]. destruct (Hpow (attempt + 1) ltac:(lia)) as [H3 H4].
  assert (2 ^ 31 = 2147483648) as E31 by reflexivity. assert (2 ^ 32 = 4294967296) as E32 by reflexivity.
  rewrite !(Z.min_l (2 ^ _) (2 ^ 32 - 1)) by lia. split; [|split].
  - split; [|lia]. apply Z.min_glb; [|lia]. apply Z.min_glb; [nia|]. unfold DURATION_MAX. lia.
  - assert (2 ^ (attempt `min` 31) <= 2 ^ ((attempt + 1) `min` 31)) by (apply Z.pow_le_mono_r; lia).
    assert (initial_delay b * 2 ^ (attempt `min` 31) <= initial_delay b * 2 ^ ((attempt + 1) `min` 31)) by nia. lia.
  - intros Hs Hd. rewrite (Z.min_l attempt 31) by lia. lia.
Qed.
End Backoff.

Section Restarts.
Context (cfg : RestartConfig).

(** Runs that fail one after the other within the window. *)
Fixpoint failing (start : Z) (ends : list (TaskEnd * Z)) : Prop :=
  match ends with
  | [] => True
  | (r, now) :: rest => r <> EndedOk /\ now - start <= reset_after (backoff cfg) /\ failing start rest
  end.

Definition events_of (ends : list (TaskEnd * Z)) : list SuperviseEvent := (fun '(r, now) => RunEnded r now) <$> ends.

Lemma supervise_failing st ends :
  restart_policy cfg <> Never -> 0 <= max_restarts cfg < 2 ^ 32 - 1 -> 0 <= sv_restart_count st <= max_restarts cfg ->
  0 <= sv_attempt st -> sv_attempt st + (max_restarts cfg - sv_restart_count st) < 2 ^ 32 - 1 -> failing (sv_window_start st) ends ->
  supervise cfg st (events_of ends) =
  if (Z.to_nat (max_restarts cfg - sv_restart_count st) <? length ends)%nat
  then (S (Z.to_nat (max_restarts cfg - sv_restart_count st)), Some PermanentFailure)
  else (S (length ends), None).
Proof.
  intros Hp Hm. revert st. induction ends as [|[r now] ends IH]; intros st Hc Ha0 Ha HF; [done|].
  destruct HF as (Hr & Hw & HF). cbn [events_of fmap list_fmap supervise]. unfold supervise_ended.
  assert (should_restart (restart_policy cfg) r = true) as -> by (destruct r, (restart_policy cfg); done). cbn [negb].
  destruct (Z.ltb_spec (reset_after (backoff cfg)) (now - sv_window_start st)); [lia|].
  destruct (Z.leb_spec (2 ^ 32) (sv_restart_count st + 1)); [lia|].
  destruct (Z.ltb_spec (max_restarts cfg) (sv_restart_count st + 1)) as [Hover|Hok].
  - replace (max_restarts cfg - sv_restart_count st) with 0 by lia. done.
  - destruct (Z.leb_spec (2 ^ 32) (sv_attempt st + 1)); [lia|].
    unfold events_of in IH. rewrite (IH (mkSuperviseState _ _ _)) by (cbn; done || lia). cbn [sv_restart_count].
    destruct (Z.to_nat (max_restarts cfg - sv_restart_count st)) as [|k] eqn:Ek; [lia|].
    replace (Z.to_nat (max_restarts cfg - (sv_restart_count st + 1))) with k by lia. cbn [length].
    change (S k <? S (length ends))%nat with (k <? length ends)%nat. by destruct (k <? length ends)%nat.
Qed.

(** A task that keeps failing within the window is started once more than it may
    be restarted, and then given up with the callback; it is never given up
    earlier.  A task that ends well is restarted only if it always is, and a
    task that is never restarted runs once. *)
Theorem supervise_restart_limit now ends :
  restart_policy cfg <> Never -> 0 <= max_restarts cfg < 2 ^ 32 - 1 -> failing now ends ->
  supervise cfg (supervise_start now) (events_of ends) =
    (if (Z.to_nat (max_restarts cfg) <? length ends)%nat
     then (S (Z.to_nat (max_restarts cfg)), Some PermanentFailure) else (S (length ends), None)) /\
  (restart_policy cfg = OnFailure -> forall st t rest, supervise cfg st (RunEnded EndedOk t :: rest) = (1%nat, Some Finished)).
Proof.
  intros Hp Hm HF. split.
  - rewrite (supervise_failing (supervise_start now)); cbn; [by rewrite Z.sub_0_r|done|lia|lia|lia|lia|done].
  - intros Ho st t rest. cbn. unfold supervise_ended. by rewrite Ho.
Qed.

(** The window forgives restarts but not the delay: after a restart long after
    the window started the count begins again at one, while the back-off goes
    on from the attempts of the whole life of the task. *)
Theorem supervise_backoff_not_reset st now :
  restart_policy cfg <> Never -> 1 <= max_restarts cfg < 2 ^ 32 -> 0 <= sv_attempt st < 2 ^ 32 - 1 ->
  reset_after (backoff cfg) < now - sv_window_start st ->
  exists st', supervise_ended cfg st EndedErr now = Restarted st' /\ sv_restart_count st' = 1 /\ sv_window_start st' = now /\
    supervise_delay cfg st' = Some (next_delay (backoff cfg) (sv_attempt st)).
Proof.
  intros Hp Hm Ha Hw. unfold supervise_ended.
  assert (should_restart (restart_policy cfg) EndedErr = true) as -> by (by destruct (restart_policy cfg)). cbn [negb].
  rewrite (proj2 (Z.ltb_lt _ _) Hw). change (2 ^ 32 <=? 0 + 1) with false. cbn iota.
  destruct (Z.ltb_spec (max_restarts cfg) (0 + 1)); [lia|]. destruct (Z.leb_spec (2 ^ 32) (sv_attempt st + 1)); [lia|].
  eexists. split; [reflexivity|]. split; [done|]. split; [done|]. unfold supervise_delay. cbn.
  destruct (Z.ltb_spec 0 (sv_attempt st + 1)); [|lia]. do 2 f_equal. lia.
Qed.
End Restarts.

(** ** Permits *)

Record pool_inv (size : Z) (s : PoolState) : Prop := {
  pi_waiting : 0 <= ps_waiting s;
  pi_holding : 0 <= ps_holding s;
  pi_cancelled : 0 <= ps_cancelled s;
  pi_free : 0 <= pool_free (ps_pool s);
  pi_size : pool_free (ps_pool s) + ps_holding s = size;
  pi_active : pool_active (ps_pool s) = ps_holding s;
  pi_queued : pool_queued (ps_pool s) = wrap 64 (ps_waiting s + ps_cancelled s);
}.

Lemma wrap_add a b : wrap 64 (wrap 64 a + b) = wrap 64 (a + b).
Proof. unfold wrap. by rewrite Zplus_mod_idemp_l. Qed.

Lemma pool_inv_step size s s' : 0 <= size < 2 ^ 64 -> pool_inv size s -> pool_step s s' -> pool_inv size s'.
Proof.
  intros Hsz [H1 H2 H3 H4 H5 H6 H7] Hs. destruct Hs as [p w h c|p p' w h c Hw Ha|p w h c Hh|p w h c Hw]; cbn in *.
  - split; cbn; try lia. rewrite H7, wrap_add. f_equal. lia.
  - unfold pool_acquire in Ha. destruct (Z.ltb_spec 0 (pool_free p)); [|done]. injection Ha as <-.
    split; cbn; try lia; [rewrite wrap_id; [lia|unfold in_u; lia]|].
    rewrite H7, <-Z.add_opp_r, wrap_add. f_equal. lia.
  - split; cbn; try lia. rewrite wrap_id; [lia|unfold in_u; lia].
  - split; cbn; try lia. rewrite H7. f_equal. lia.
Qed.

(** Never more scans than permits: in every state the active counter is the
    number of tasks that hold a permit, and with the free permits they make up
    the size the orchestrator was created with, whatever a later
    [set_config] says.  The queue counter also counts every task that was
    cancelled while it waited, for ever. *)
Theorem orchestrator_permits_bounded config config' s :
  max_concurrent_scans config `max` 1 < 2 ^ 64 ->
  rtc pool_step (mkPoolState (fo_scans (set_config (with_config config) config')) 0 0 0) s ->
  0 <= pool_active (ps_pool s) <= max_concurrent_scans config `max` 1 /\
  pool_active (ps_pool s) = ps_holding s /\ pool_free (ps_pool s) + ps_holding s = max_concurrent_scans config `max` 1 /\
  pool_queued (ps_pool s) = wrap 64 (ps_waiting s + ps_cancelled s).
Proof.
  intros Hm Hr. assert (pool_inv (max_concurrent_scans config `max` 1) s) as [H1 H2 H3 H4 H5 H6 H7].
  { cbn in Hr. assert (pool_inv (max_concurrent_scans config `max` 1)
                (mkPoolState (mkPermitPool (max_concurrent_scans config `max` 1) 0 0) 0 0 0)) as H0 by (split; cbn; lia || done).
    revert H0 Hr. generalize (mkPoolState (mkPermitPool (max_concurrent_scans config `max` 1) 0 0) 0 0 0). intros s0 H0 Hr.
    induction Hr; [done|]. apply IHHr. eapply pool_inv_step; [|done|done]. lia. }
  split_and!; lia || done.
Qed.

(** The priorities are upside down: the more important a folder, the longer its
    first scan is delayed, from a quarter of the jitter for low priority to all
    of it for critical. *)
Theorem jitter_priority_inverted max_secs hash p q :
  0 <= hash -> priority_code p <= priority_code q ->
  jitter_ms max_secs hash p <= jitter_ms max_secs hash q /\
  jitter_ms max_secs hash PriorityCritical = (hash mod wrap 64 ((max_secs `max` 1) * 1000)) `max` 1.
Proof.
  intros Hh Hpq. unfold jitter_ms. set (j := _ `max` 1). assert (1 <= j) by (unfold j; lia). split.
  - assert (0 <= priority_code p <= 3 /\ 0 <= priority_code q <= 3) by (destruct p, q; cbn; lia).
    apply Z.div_le_compat_l; lia.
  - cbn. apply Z.div_1_r.
Qed.

(** ** Witnesses *)

Lemma next_delay_doubles_witness :
  next_delay (backoff restart_config_default) 3 = 800_000_000.
Proof.
  apply (next_delay_doubles (backoff restart_config_default) 3); vm_compute; (split; discriminate) || discriminate.
Defined.

Definition demo_failures : list (TaskEnd * Z) := [(EndedErr, 1); (EndedPanic, 2); (EndedErr, 3)].

Lemma supervise_restart_limit_witness :
  supervise (mkRestartConfig OnFailure (backoff restart_config_default) 2) (supervise_start 0) (events_of demo_failures) =
    (3%nat, Some PermanentFailure).
Proof.
  apply (supervise_restart_limit (mkRestartConfig OnFailure (backoff restart_config_default) 2) 0 demo_failures).
  - discriminate.
  - vm_compute. split; [discriminate|reflexivity].
  - vm_compute. repeat split; discriminate.
Defined.

Lemma supervise_backoff_not_reset_witness :
  exists st', supervise_ended restart_config_default (mkSuperviseState 20 3 0) EndedErr 90_000_000_000 = Restarted st' /\
    supervise_delay restart_config_default st' = Some 60_000_000_000.
Proof.
  destruct (supervise_backoff_not_reset restart_config_default (mkSuperviseState 20 3 0) 90_000_000_000) as (st' & E & _ & _ & D).
  - discriminate.
  - vm_compute. split; [discriminate|reflexivity].
  - vm_compute. split; [discriminate|reflexivity].
  - vm_compute. reflexivity.
  - exists st'. split; [exact E|]. rewrite D. vm_compute. reflexivity.
Defined.

Lemma orchestrator_permits_bounded_witness :
  exists s, rtc pool_step (mkPoolState (fo_scans (set_config (with_config orchestrator_default) aggressive)) 0 0 0) s /\
    ps_holding s = 2 /\ pool_free (ps_pool s) = 0.
Proof.
  set (s2 := mkPoolState (mkPermitPool 0 2 0) 0 2 0).
  assert (rtc pool_step (mkPoolState (fo_scans (set_config (with_config orchestrator_default) aggressive)) 0 0 0) s2) as Hr.
  { eapply rtc_l; [apply pool_waits|]. eapply rtc_l; [apply pool_waits|].
    eapply rtc_l; [apply pool_acquires; [lia|reflexivity]|]. apply rtc_once. apply pool_acquires; [lia|reflexivity]. }
  exists s2. split; [exact Hr|]. split; [reflexivity|].
  destruct (orchestrator_permits_bounded orchestrator_default aggressive s2 ltac:(vm_compute; reflexivity) Hr) as (_ & _ & Hf & _).
  cbn in Hf |- *. lia.
Defined.

Lemma jitter_priority_inverted_witness :
  jitter_ms 60 59_999 PriorityLow = 14_999 /\ jitter_ms 60 59_999 PriorityCritical = 59_999.
Proof.
  split; [reflexivity|]. rewrite (proj2 (jitter_priority_inverted 60 59_999 PriorityLow PriorityCritical ltac:(lia) ltac:(cbn; lia))).
  reflexivity.
Defined.
