(* ===== verification/Dialer.v ===== *)
(** * The parallel dialer ([crates/syncthing-net/src/dialer/mod.rs])

    Candidate addresses with their history, the score that orders them, and
    one dial: the best three candidates race, the first handshake that succeeds
    wins. *)

From S2P Require Import Prelude Core DeviceIds Net Relay.

(** [Ord] is derived: relay below WAN below LAN. *)
Inductive AddressTypePreference := PrefRelay | PrefWan | PrefLan.

(** Durations and instants in milliseconds. *)
Record AddressScore := mkAddressScore {
  as_address : SocketAddr;
  as_rtt : option Z;
  as_success_count : Z;
  as_failure_count : Z;
  as_last_success : option Z;
  as_type : AddressTypePreference;
}.

Definition type_base (t : AddressTypePreference) : Z :=
  match t with
  | PrefLan => 1_000_000
  | PrefWan => 500_000
  | PrefRelay => 100_000
  end.

(** What an address has earned before failures are subtracted. *)
Definition earned (now : Z) (s : AddressScore) : Z :=
  type_base (as_type s) +
  match as_rtt s with Some rtt => Z.max 0 (400 - rtt) * 100 | None => 0 end +
  as_success_count s * 10_000 +
  match as_last_success s with
  | Some last =>
      let elapsed_secs := Z.max 0 (now - last) / 1000 in
      if elapsed_secs <? 3600 then (3600 - elapsed_secs) * 10 else 0
  | None => 0
  end.

Definition FAILURE_PENALTY : Z := 50_000.

(** [saturating_sub] stops at zero. *)
Definition score (now : Z) (s : AddressScore) : Z :=
  Z.max 0 (earned now s - as_failure_count s * FAILURE_PENALTY).

Definition v6_link_local (ss : list Z) : bool :=
  match ss with s :: _ => Z.land s 65472 =? 65152 | [] => false end.

Definition infer_address_type (addr : SocketAddr) : AddressTypePreference :=
  let is_private := match sa_ip addr with
                    | V4 os => v4_private os || v4_loopback os || v4_link_local os
                    | V6 ss => is_loopback (V6 ss) || v6_link_local ss
                    end in
  if is_private then PrefLan
  else if is_multicast (sa_ip addr) then PrefRelay
  else PrefWan.

(** The field [scores]; [device_scores] is a cache nothing reads back. *)
Abbreviation Scores := (gmap SocketAddr AddressScore).

Definition fresh_score (addr : SocketAddr) (t : AddressTypePreference) : AddressScore :=
  mkAddressScore addr None 0 0 None t.

(** [entry(addr).or_insert_with(..).clone()] *)
Definition score_entry (addr : SocketAddr) (t : AddressTypePreference) (scores : Scores)
    : AddressScore * Scores :=
  match scores !! addr with
  | Some s => (s, scores)
  | None => (fresh_score addr t, <[addr := fresh_score addr t]> scores)
  end.

Definition get_or_create_score (addr : SocketAddr) (scores : Scores) : AddressScore * Scores :=
  score_entry addr (infer_address_type addr) scores.

Definition record_success (addr : SocketAddr) (rtt now : Z) (scores : Scores) : Scores :=
  alter (fun s => mkAddressScore (as_address s) (Some rtt) (wrap 32 (as_success_count s + 1))
                    (as_failure_count s) (Some now) (as_type s)) addr scores.

Definition record_failure (addr : SocketAddr) (scores : Scores) : Scores :=
  alter (fun s => mkAddressScore (as_address s) (as_rtt s) (as_success_count s)
                    (wrap 32 (as_failure_count s + 1)) (as_last_success s) (as_type s)) addr scores.

(** The tuple [(is_relay, addr, relay_url, score, scheme)]. *)
Record Candidate := mkCandidate {
  cd_is_relay : bool;
  cd_addr : SocketAddr;
  cd_url : option str;
  cd_score : AddressScore;
  cd_scheme : str;
}.

Inductive DialError := DeNoAddresses | DeFailed.

Section Dialing.
Context (unicode_alphanumeric : Z -> bool) (hex_decode : list Z -> option (list Z)).

(** The loop over [addresses.iter().enumerate()], from index [i] on. *)
Fixpoint direct_candidates (address_schemes : option (list str)) (i : nat) (addresses : list SocketAddr)
    (scores : Scores) : list Candidate * Scores :=
  match addresses with
  | [] => ([], scores)
  | addr :: rest =>
      let scheme := default ($"tcp") (let+ v := address_schemes in v !! i) in
      let '(s, scores) := get_or_create_score addr scores in
      let '(cs, scores) := direct_candidates address_schemes (S i) rest scores in
      (mkCandidate false addr None s scheme :: cs, scores)
  end.

(** The loop over [relay_urls]; [None] when parsing a URL panics. *)
Fixpoint relay_candidates (relay_urls : list str) (scores : Scores) : option (list Candidate * Scores) :=
  match relay_urls with
  | [] => Some ([], scores)
  | url :: rest =>
      match parse_relay_url unicode_alphanumeric hex_decode url with
      | None => None
      | Some (Err _) => relay_candidates rest scores
      | Some (Ok (relay_addr, _)) =>
          let '(s, scores) := score_entry relay_addr PrefRelay scores in
          let+ (cs, scores) := relay_candidates rest scores in
          Some (mkCandidate true relay_addr (Some url) s ($"relay") :: cs, scores)
      end
  end.

(** [sort_by_key(|c| Reverse(score))] and [take(3)]. *)
Definition top_candidates (now : Z) (candidates : list Candidate) : list Candidate :=
  take 3 (sort_by (fun c => - score now (cd_score c)) candidates).

(** The candidates a task is spawned for. *)
Definition dial_task (has_relay : bool) (c : Candidate) : bool :=
  if cd_is_relay c then has_relay && bool_decide (is_Some (cd_url c)) else true.

(** What a connector answers: a connection with its round-trip time, or an
    error or panic. *)
Definition Attempt (C : Type) : Type := Candidate * option (C * Z).

(** [while let Some(result) = tasks.next().await]: the attempts in the order
    in which they finish, up to the first success; the others are aborted. *)
Fixpoint first_success {C : Type} (attempts : list (Attempt C)) : option (C * SocketAddr * Z) :=
  match attempts with
  | [] => None
  | (c, Some (conn, rtt)) :: _ => Some (conn, cd_addr c, rtt)
  | (_, None) :: rest => first_success rest
  end.

(** [race] gives the attempts of the spawned tasks in the order in which they
    finish; [now] is when the candidates are sorted, [finished] when the dial
    ends. *)
Definition dial_with_schemes {C : Type} (has_relay : bool) (now finished : Z)
    (race : list Candidate -> list (Attempt C)) (addresses : list SocketAddr)
    (address_schemes : option (list str)) (relay_urls : list str) (scores : Scores)
    : option (result DialError C * Scores) :=
  if bool_decide (addresses = []) && bool_decide (relay_urls = []) then Some (Err DeNoAddresses, scores)
  else
    let '(direct, scores) := direct_candidates address_schemes 0 addresses scores in
    let+ (relays, scores) := relay_candidates relay_urls scores in
    let top := top_candidates now (direct ++ relays) in
    match first_success (race (filter (fun c => dial_task has_relay c = true) top)) with
    | Some (conn, addr, rtt) => Some (Ok conn, record_success addr rtt finished scores)
    | None => Some (Err DeFailed, foldl (fun sc c => record_failure (cd_addr c) sc) scores top)
    end.

Definition dial {C : Type} (has_relay : bool) (now finished : Z) (race : list Candidate -> list (Attempt C))
    (addresses : list SocketAddr) (relay_urls : list str) (scores : Scores)
    : option (result DialError C * Scores) :=
  dial_with_schemes has_relay now finished race addresses None relay_urls scores.
End Dialing.

(** ** Lemmas *)

(** What the dialer knows of an address, stored or not. *)
Definition known (scores : Scores) (x : SocketAddr) : AddressScore :=
  default (fresh_score x (infer_address_type x)) (scores !! x).

Definition count_ok (s : AddressScore) : Prop := in_u 32 (as_success_count s) /\ in_u 32 (as_failure_count s).

Definition with_failure (s : AddressScore) : AddressScore :=
  mkAddressScore (as_address s) (as_rtt s) (as_success_count s) (wrap 32 (as_failure_count s + 1))
    (as_last_success s) (as_type s).

Definition direct_candidate (scores : Scores) (x : SocketAddr) : Candidate :=
  mkCandidate false x None (known scores x) ($"tcp").

Lemma get_or_create_spec x scores s scores' :
  get_or_create_score x scores = (s, scores') ->
  s = known scores x /\ is_Some (scores' !! x) /\
  (forall y, known scores' y = known scores y) /\ (forall y, is_Some (scores !! y) -> is_Some (scores' !! y)).
Proof.
  unfold get_or_create_score, score_entry. destruct (scores !! x) eqn:E; intros [= <- <-].
  - unfold known. rewrite E. eauto 6.
  - unfold known. rewrite E. split; [done|]. split; [eexists; apply lookup_insert_eq|]. split.
    + intros y. destruct (decide (y = x)) as [-> |N]; [by rewrite E, lookup_insert_eq|by rewrite lookup_insert_ne].
    + intros y Hy. destruct (decide (y = x)) as [->|N]; [by rewrite lookup_insert_eq|by rewrite lookup_insert_ne].
Qed.

Lemma direct_candidates_spec i addrs scores cs scores' :
  direct_candidates None i addrs scores = (cs, scores') ->
  cs = direct_candidate scores <$> addrs /\
  (forall x, known scores' x = known scores x) /\
  (forall x, x ∈ addrs \/ is_Some (scores !! x) -> is_Some (scores' !! x)).
Proof.
  revert i scores cs scores'. induction addrs as [|a addrs IH]; intros i scores cs scores'; cbn.
  { intros [= <- <-]. split_and!; [done..|]. intros x [Hx|Hx]; [by apply elem_of_nil in Hx|done]. }
  destruct (get_or_create_score a scores) as [s sc1] eqn:E1.
  destruct (direct_candidates None (S i) addrs sc1) as [cs1 sc2] eqn:E2. intros [= <- <-].
  apply get_or_create_spec in E1 as (-> & Ha & Hk & Hd). apply IH in E2 as (-> & Hk2 & Hd2). split_and!.
  - f_equal. apply list_fmap_ext. intros j x _. unfold direct_candidate. by rewrite Hk.
  - intros x. by rewrite Hk2.
  - intros x Hx. apply Hd2. rewrite elem_of_cons in Hx. naive_solver.
Qed.

(** The addresses one dial of direct addresses tries. *)
Definition tried (now : Z) (addrs : list SocketAddr) (scores : Scores) : list SocketAddr :=
  take 3 (sort_by (fun x => - score now (known scores x)) addrs).

Lemma top_direct now addrs scores :
  top_candidates now (direct_candidate scores <$> addrs) = direct_candidate scores <$> tried now addrs scores.
Proof. unfold top_candidates, tried. rewrite sort_by_fmap. cbn. by rewrite fmap_take. Qed.

Lemma direct_tasks b scores (l : list SocketAddr) :
  filter (fun c => dial_task b c = true) (direct_candidate scores <$> l) = direct_candidate scores <$> l.
Proof. induction l as [|x l IH]; [done|]. rewrite fmap_cons, filter_cons_True; [by rewrite IH|done]. Qed.

Lemma record_failures_known (l : list SocketAddr) scores x :
  NoDup l -> (forall y, y ∈ l -> is_Some (scores !! y)) ->
  known (foldl (fun sc y => record_failure y sc) scores l) x =
  (if decide (x ∈ l) then with_failure (known scores x) else known scores x).
Proof.
  intros ND. revert scores. induction ND as [|y l Hy ND IH]; intros scores HS; cbn; [done|].
  rewrite IH.
  2:{ intros z Hz. unfold record_failure. rewrite lookup_alter_is_Some. apply HS. set_solver. }
  destruct (HS y) as [s Es]; [set_solver|]. unfold record_failure, known.
  destruct (decide (x = y)) as [->|N].
  - rewrite lookup_alter_eq, Es. cbn. by rewrite decide_False, decide_True by set_solver.
  - rewrite lookup_alter_ne by done. destruct (decide (x ∈ l)).
    + by rewrite decide_True by set_solver.
    + by rewrite decide_False by set_solver.
Qed.

Lemma first_success_None {C : Type} (attempts : list (Attempt C)) :
  first_success attempts = None <-> Forall (fun t => t.2 = None) attempts.
Proof.
  induction attempts as [|[c [[conn rtt]|]] rest IH]; cbn; [done| |].
  - split; [done|]. by intros [? _]%Forall_cons.
  - rewrite IH, Forall_cons. naive_solver.
Qed.

Lemma first_success_Some {C : Type} (attempts : list (Attempt C)) conn x rtt :
  first_success attempts = Some (conn, x, rtt) ->
  exists pre c rest, attempts = pre ++ (c, Some (conn, rtt)) :: rest /\ cd_addr c = x /\ Forall (fun t => t.2 = None) pre.
Proof.
  induction attempts as [|[c [[conn' rtt']|]] rest IH]; cbn; [done| |].
  - intros [= -> <- ->]. by exists [], c, rest.
  - intros (pre & c' & rest' & -> & Hc & HF)%IH. exists ((c, None) :: pre), c', rest'.
    split_and!; [done..|]. by constructor.
Qed.

Lemma tried_nodup now addrs scores : NoDup addrs -> NoDup (tried now addrs scores).
Proof.
  intros ND. unfold tried. eapply sublist_NoDup; [|apply sublist_take]. by rewrite sort_by_perm.
Qed.

Lemma tried_incl now addrs scores x : x ∈ tried now addrs scores -> x ∈ addrs.
Proof. intros H%elem_of_take. destruct H as (i & H & _). apply list_elem_of_lookup_2 in H. by rewrite sort_by_perm in H. Qed.

(** ** One dial *)

Section Dials.
Context (unicode_alphanumeric : Z -> bool) (hex_decode : list Z -> option (list Z)).
#[local] Abbreviation dial_once := (dial unicode_alphanumeric hex_decode).

(** A dial of direct addresses, in terms of [tried] and [known]. *)
Lemma dial_direct {C : Type} b now fin (race : list Candidate -> list (Attempt C)) addrs scores :
  addrs <> [] -> NoDup addrs ->
  let attempts := race (direct_candidate scores <$> tried now addrs scores) in
  exists scores1,
    dial_once b now fin race addrs [] scores =
      Some match first_success attempts with
           | Some (conn, x, rtt) => (Ok conn, record_success x rtt fin scores1)
           | None => (Err DeFailed, foldl (fun sc y => record_failure y sc) scores1 (tried now addrs scores))
           end /\
    (forall x, known scores1 x = known scores x) /\ (forall x, x ∈ addrs -> is_Some (scores1 !! x)).
Proof.
  intros HN ND attempts. unfold dial, dial_with_schemes. rewrite bool_decide_eq_false_2 by done. cbn [andb].
  destruct (direct_candidates None 0 addrs scores) as [cs sc1] eqn:E.
  apply direct_candidates_spec in E as (-> & Hk & Hd). cbn. exists sc1.
  rewrite app_nil_r, top_direct, direct_tasks. fold attempts. split; [|auto].
  destruct (first_success attempts) as [[[conn x] rtt]|]; [done|]. do 2 f_equal.
  generalize (tried now addrs scores). intros l. clear. revert sc1.
  induction l as [|y l IH]; intros sc1; [done|]. rewrite fmap_cons. cbn. apply IH.
Qed.

(** The state after a failed dial: the addresses tried have one failure more,
    nothing else changes. *)
Lemma dial_failed_scores {C : Type} b now fin (race : list Candidate -> list (Attempt C)) addrs scores :
  addrs <> [] -> NoDup addrs ->
  first_success (race (direct_candidate scores <$> tried now addrs scores)) = None ->
  exists scores', dial_once b now fin race addrs [] scores = Some (Err DeFailed, scores') /\
    forall x, known scores' x =
      if decide (x ∈ tried now addrs scores) then with_failure (known scores x) else known scores x.
Proof.
  intros HN ND HF. destruct (dial_direct b now fin race addrs scores HN ND) as (sc1 & E & Hk & Hd).
  rewrite HF in E. eexists. split; [exact E|]. intros x. rewrite record_failures_known.
  - by rewrite Hk.
  - by apply tried_nodup.
  - intros y ?%tried_incl. auto.
Qed.

(** Of the candidates a dial leaves out none has a better score than one it
    tries; the connection it returns is the one whose handshake finished first,
    only the score of that address changes; when every attempt fails the
    addresses tried, and no other, are charged one failure. *)
Theorem dial_best_first {C : Type} b now fin (race : list Candidate -> list (Attempt C)) addrs scores :
  addrs <> [] -> NoDup addrs ->
  let attempts := race (direct_candidate scores <$> tried now addrs scores) in
  exists r scores',
    dial_once b now fin race addrs [] scores = Some (r, scores') /\
    (forall x y, x ∈ tried now addrs scores -> y ∈ addrs -> y ∉ tried now addrs scores ->
       score now (known scores y) <= score now (known scores x)) /\
    match r with
    | Ok conn => exists pre c rtt rest,
        attempts = pre ++ (c, Some (conn, rtt)) :: rest /\ Forall (fun t => t.2 = None) pre /\
        forall x, x <> cd_addr c -> known scores' x = known scores x
    | Err e => e = DeFailed /\ Forall (fun t => t.2 = None) attempts /\
        forall x, known scores' x =
          if decide (x ∈ tried now addrs scores) then with_failure (known scores x) else known scores x
    end.
Proof.
  intros HN ND attempts.
  assert (forall x y, x ∈ tried now addrs scores -> y ∈ addrs -> y ∉ tried now addrs scores ->
       score now (known scores y) <= score now (known scores x)) as Hbest.
  { intros x y Hx Hy Hn. destruct (sort_by_take_least _ _ _ _ _ Hx Hy) as [?|?]; [done|]. cbn in *. lia. }
  destruct (first_success attempts) as [[[conn x] rtt]|] eqn:E.
  - destruct (dial_direct b now fin race addrs scores HN ND) as (sc1 & Ed & Hk & _).
    fold attempts in Ed. rewrite E in Ed. do 2 eexists. split; [exact Ed|]. split; [exact Hbest|]. cbn.
    apply first_success_Some in E as (pre & c & rest & -> & <- & HF). exists pre, c, rtt, rest.
    split; [done|]. split; [done|]. intros y Hy. rewrite <-Hk. unfold known, record_success.
    by rewrite lookup_alter_ne.
  - destruct (dial_failed_scores b now fin race addrs scores HN ND E) as (sc' & Ed & Hk).
    do 2 eexists. split; [exact Ed|]. split; [exact Hbest|]. apply first_success_None in E. done.
Qed.

(** ** Repeated dials *)

(** The dials a device gets one after the other, each with what the one
    before left in the score table, until one succeeds. *)
Fixpoint redial {C : Type} (n : nat) (times : nat -> Z) (race : nat -> list Candidate -> list (Attempt C))
    (addrs : list SocketAddr) (scores : Scores) : option C :=
  match n with
  | O => None
  | S n' =>
      match dial_once true (times 0%nat) (times 0%nat) (race 0%nat) addrs [] scores with
      | Some (Ok conn, _) => Some conn
      | Some (Err _, scores') => redial n' (fun k => times (S k)) (fun k => race (S k)) addrs scores'
      | None => None
      end
  end.

(** Only [a] answers. *)
Definition only_answers {C : Type} (a : SocketAddr) (conn : C) (rtt : Z)
    (race : nat -> list Candidate -> list (Attempt C)) : Prop :=
  forall k ts, race k ts ≡ₚ (fun c => (c, if decide (cd_addr c = a) then Some (conn, rtt) else None)) <$> ts.

Lemma only_answers_first {C : Type} (a : SocketAddr) (conn : C) rtt race k ts :
  only_answers a conn rtt race ->
  (a ∈ cd_addr <$> ts -> first_success (race k ts) = Some (conn, a, rtt)) /\
  (a ∉ cd_addr <$> ts -> first_success (race k ts) = None).
Proof.
  intros HR. pose proof (HR k ts) as HP. split; intros Ha.
  - destruct (first_success (race k ts)) as [[[conn' x] rtt']|] eqn:E.
    + apply first_success_Some in E as (pre & c & rest & E & <- & _).
      assert ((c, Some (conn', rtt')) ∈ race k ts) as Hin by (rewrite E; set_solver).
      rewrite HP in Hin. apply list_elem_of_fmap in Hin as (c' & [= -> Ec] & _). case_decide; naive_solver.
    + apply first_success_None in E. rewrite HP, Forall_fmap, Forall_forall in E.
      apply list_elem_of_fmap in Ha as (c & -> & Hc). specialize (E c Hc). cbn in E. by rewrite decide_True in E.
  - apply first_success_None. rewrite HP, Forall_fmap, Forall_forall. intros c Hc. cbn.
    rewrite decide_False; [done|]. intros <-. by apply Ha, list_elem_of_fmap_2.
Qed.

Lemma earned_mono now now' s : now <= now' -> earned now' s <= earned now s.
Proof.
  intros HN. unfold earned. destruct (as_last_success s) as [t|]; [|lia].
  assert (Z.max 0 (now - t) / 1000 <= Z.max 0 (now' - t) / 1000) by (apply Z.div_le_mono; lia). cbv zeta.
  destruct (Z.ltb_spec (Z.max 0 (now' - t) / 1000) 3600), (Z.ltb_spec (Z.max 0 (now - t) / 1000) 3600); lia.
Qed.

Lemma earned_base now s : count_ok s -> type_base (as_type s) <= earned now s.
Proof.
  intros [[Hs _] _]. unfold earned. destruct (as_rtt s), (as_last_success s) as [t|]; cbv zeta;
    try destruct (Z.ltb_spec (Z.max 0 (now - t) / 1000) 3600); lia.
Qed.

Lemma count_ok_failure s : count_ok s -> count_ok (with_failure s).
Proof. intros [? ?]. split; [done|]. by apply wrap_range. Qed.

(** The failures address [x] can still take before its score is zero. *)
Definition budget (K : Z) (s : AddressScore) : nat := Z.to_nat (K - Z.min K (as_failure_count s)).

Lemma sum_list_strict {A : Type} (f g : A -> nat) l x :
  (forall y, y ∈ l -> (g y <= f y)%nat) -> x ∈ l -> (g x < f x)%nat -> (sum_list_with g l < sum_list_with f l)%nat.
Proof.
  intros HL Hx HS. induction l as [|y l IH]; [by apply elem_of_nil in Hx|]. cbn.
  assert (sum_list_with g l <= sum_list_with f l)%nat as Hle.
  { clear IH Hx. induction l as [|z l IH]; [done|]. cbn.
    pose proof (HL z). pose proof (IH (fun w Hw => HL w ltac:(set_solver))). set_solver by lia. }
  pose proof (HL y ltac:(set_solver)). apply elem_of_cons in Hx as [<-|Hx]; [lia|].
  assert (sum_list_with g l < sum_list_with f l)%nat; [|lia]. apply IH; [|done]. intros z Hz. apply HL. set_solver.
Qed.

(** What the rounds keep: the counters are in range, no address has earned
    more than [B], and [a] has not used up what its type is worth. *)
Record redial_inv (B now : Z) (a : SocketAddr) (addrs : list SocketAddr) (scores : Scores) : Prop := mkRedialInv {
  ri_count : forall x, x ∈ addrs -> count_ok (known scores x);
  ri_earned : forall x, x ∈ addrs -> earned now (known scores x) <= B;
  ri_floor : as_failure_count (known scores a) * FAILURE_PENALTY < type_base (as_type (known scores a));
}.

Lemma redial_tried_budget B now a addrs scores x :
  redial_inv B now a addrs scores -> a ∈ addrs -> a ∉ tried now addrs scores -> x ∈ tried now addrs scores ->
  0 <= as_failure_count (known scores x) < B / FAILURE_PENALTY + 1.
Proof.
  intros [HC HE HF] Ha Hn Hx. pose proof (tried_incl _ _ _ _ Hx) as Hx'.
  destruct (sort_by_take_least _ _ _ _ _ Hx Ha) as [?|Hle]; [done|].
  destruct (HC x Hx') as [_ [? _]]. split; [done|].
  pose proof (HE x Hx'). pose proof (earned_base now _ (HC a Ha)). unfold score, FAILURE_PENALTY in *.
  assert (as_failure_count (known scores x) <= B / 50000); [|lia]. apply Z.div_le_lower_bound; lia.
Qed.

Lemma redial_inv_failed B now now' a addrs scores scores' :
  redial_inv B now a addrs scores -> now <= now' -> a ∉ tried now addrs scores ->
  (forall x, known scores' x =
      if decide (x ∈ tried now addrs scores) then with_failure (known scores x) else known scores x) ->
  redial_inv B now' a addrs scores'.
Proof.
  intros [HC HE HF] HN Ha Hk. constructor.
  - intros x Hx. rewrite Hk. case_decide; [apply count_ok_failure|]; auto.
  - intros x Hx. etrans; [by apply earned_mono with (now := now)|].
    rewrite Hk. case_decide; [change (earned now (known scores x) <= B)|]; auto.
  - rewrite Hk, decide_False by done. done.
Qed.

Lemma redial_budget_decreases B now a addrs scores scores' :
  B / FAILURE_PENALTY + 1 < 2 ^ 32 ->
  redial_inv B now a addrs scores -> a ∈ addrs -> a ∉ tried now addrs scores ->
  (forall x, known scores' x =
      if decide (x ∈ tried now addrs scores) then with_failure (known scores x) else known scores x) ->
  (sum_list_with (fun x => budget (B / FAILURE_PENALTY + 1) (known scores' x)) addrs <
   sum_list_with (fun x => budget (B / FAILURE_PENALTY + 1) (known scores x)) addrs)%nat.
Proof.
  intros HB HI Ha Hn Hk. set (K := B / FAILURE_PENALTY + 1) in *.
  assert (forall x, x ∈ tried now addrs scores ->
            (budget K (known scores' x) < budget K (known scores x))%nat) as Hlt.
  { intros x Hx. pose proof (redial_tried_budget _ _ _ _ _ _ HI Ha Hn Hx) as Hf. fold K in Hf.
    rewrite Hk, decide_True by done. unfold budget, with_failure. cbn [as_failure_count].
    rewrite wrap_id by (unfold in_u; lia). lia. }
  assert (exists x, x ∈ tried now addrs scores) as [x Hx].
  { unfold tried. destruct (sort_by _ addrs) as [|x l] eqn:E; [|exists x; cbn; set_solver].
    exfalso. assert (a ∈ sort_by (fun x => - score now (known scores x)) addrs) as Hs by by rewrite sort_by_perm.
    rewrite E in Hs. by apply elem_of_nil in Hs. }
  apply sum_list_strict with (x := x); [|by apply (tried_incl now _ scores)|auto].
  intros y _. destruct (decide (y ∈ tried now addrs scores)) as [Hy|Hy]; [by apply Nat.lt_le_incl, Hlt|].
  by rewrite Hk, decide_False.
Qed.

(** One round: the address that answers is tried, or the round fails and
    charges the addresses tried. *)
Lemma redial_round {C : Type} n (conn : C) rtt times race a addrs scores :
  NoDup addrs -> a ∈ addrs -> only_answers a conn rtt race ->
  redial (S n) times race addrs scores = Some conn \/
  a ∉ tried (times 0%nat) addrs scores /\
  exists scores',
    redial (S n) times race addrs scores = redial n (fun k => times (S k)) (fun k => race (S k)) addrs scores' /\
    forall x, known scores' x =
      if decide (x ∈ tried (times 0%nat) addrs scores) then with_failure (known scores x) else known scores x.
Proof.
  intros ND Ha HR. assert (addrs <> []) as HN by (by intros ->; apply elem_of_nil in Ha).
  assert (cd_addr <$> (direct_candidate scores <$> tried (times 0%nat) addrs scores) =
          tried (times 0%nat) addrs scores) as Eaddr.
  { rewrite <-list_fmap_compose. apply list_fmap_id. }
  destruct (only_answers_first a conn rtt race 0 (direct_candidate scores <$> tried (times 0%nat) addrs scores) HR)
    as [Hhit Hmiss]. rewrite Eaddr in Hhit, Hmiss.
  destruct (decide (a ∈ tried (times 0%nat) addrs scores)) as [Hin|Hout]; [left|right; split; [done|]].
  - cbn. destruct (dial_direct true (times 0%nat) (times 0%nat) (race 0%nat) addrs scores HN ND) as (sc1 & -> & _).
    by rewrite Hhit.
  - destruct (dial_failed_scores true (times 0%nat) (times 0%nat) (race 0%nat) addrs scores HN ND (Hmiss Hout))
      as (sc' & Ed & Hk). exists sc'. split; [|done]. cbn. by rewrite Ed.
Qed.

Lemma budget_total B now a addrs scores :
  redial_inv B now a addrs scores ->
  (sum_list_with (fun x => budget (B / FAILURE_PENALTY + 1) (known scores x)) addrs
   <= length addrs * Z.to_nat (B / FAILURE_PENALTY + 1))%nat.
Proof.
  intros [HC _ _]. induction addrs as [|x l IH]; [done|]. cbn.
  assert (budget (B / FAILURE_PENALTY + 1) (known scores x) <= Z.to_nat (B / FAILURE_PENALTY + 1))%nat.
  { destruct (HC x) as [_ [? _]]; [set_solver|]. unfold budget. lia. }
  assert (forall y, y ∈ l -> count_ok (known scores y)) as HC' by set_solver. specialize (IH HC'). lia.
Qed.

(** C39: An address that answers is found: when exactly one address of a device
    accepts connections, its failures so far have not used up what its type is
    worth (a new address has none), and no address has earned more than [B] by
    its type and its history, then a number of dials bounded by [B] and the
    number of addresses reaches it. *)
Theorem redial_connects {C : Type} (conn : C) rtt times race a addrs scores B :
  NoDup addrs -> a ∈ addrs -> (forall m n : nat, (m <= n)%nat -> times m <= times n) ->
  only_answers a conn rtt race -> B / FAILURE_PENALTY + 1 < 2 ^ 32 ->
  redial_inv B (times 0%nat) a addrs scores ->
  redial (S (length addrs * Z.to_nat (B / FAILURE_PENALTY + 1))) times race addrs scores = Some conn.
Proof.
  intros ND Ha HT HR HB HI. pose proof (budget_total _ _ _ _ _ HI) as Hn.
  revert Hn. generalize (length addrs * Z.to_nat (B / FAILURE_PENALTY + 1))%nat. intros n.
  revert times race scores HT HR HI. induction n as [|n IH]; intros times race scores HT HR HI Hn.
  - destruct (redial_round 0 conn rtt times race a addrs scores ND Ha HR) as [E|(Hout & sc' & E & Hk)]; [done|].
    pose proof (redial_budget_decreases _ _ _ _ _ _ HB HI Ha Hout Hk). lia.
  - destruct (redial_round (S n) conn rtt times race a addrs scores ND Ha HR) as [E|(Hout & sc' & E & Hk)]; [done|].
    pose proof (redial_budget_decreases _ _ _ _ _ _ HB HI Ha Hout Hk).
    rewrite E. apply IH; [intros; apply HT; lia|intros k; apply HR| |lia].
    eapply redial_inv_failed; [exact HI|apply HT; lia|done|done].
Qed.

(** Addresses whose score has reached zero are tried in the order in which
    they were given: the first three, always.  A fourth one is not dialed, and
    a failed dial leaves every score at zero. *)
Theorem zero_scores_starve {C : Type} b now later (race : list Candidate -> list (Attempt C)) addrs scores :
  addrs <> [] -> NoDup addrs -> now <= later ->
  (forall x, x ∈ addrs -> in_u 32 (as_failure_count (known scores x) + 1) /\ score now (known scores x) = 0) ->
  Forall (fun t => t.2 = None) (race (direct_candidate scores <$> take 3 addrs)) ->
  tried now addrs scores = take 3 addrs /\
  exists scores', dial_once b now now race addrs [] scores = Some (Err DeFailed, scores') /\
    forall x, x ∈ addrs -> score later (known scores' x) = 0.
Proof.
  intros HN ND HL HZ HF.
  assert (tried now addrs scores = take 3 addrs) as Et.
  { unfold tried. rewrite sort_by_const with (k := 0); [done|]. apply Forall_forall. intros x Hx.
    destruct (HZ x Hx) as [_ ->]. done. }
  split; [done|]. destruct (dial_failed_scores b now now race addrs scores HN ND) as (sc' & Ed & Hk).
  { rewrite Et. by apply first_success_None. }
  exists sc'. split; [done|]. intros x Hx. destruct (HZ x Hx) as [Hw Hs]. rewrite Hk.
  unfold score in *. pose proof (earned_mono now later (known scores x) HL). case_decide; [|lia].
  change (earned later (with_failure (known scores x))) with (earned later (known scores x)).
  unfold with_failure. cbn [as_failure_count]. rewrite wrap_id by done. unfold FAILURE_PENALTY in *. lia.
Qed.
End Dials.

(** The score of an address whose counters fit in 32 bits fits in 64, and so
    does everything summed up for it: [score] cannot overflow. *)
Theorem score_in_u64 now s :
  count_ok s -> (match as_last_success s with Some t => t <= now | None => True end) ->
  (match as_rtt s with Some r => 0 <= r | None => True end) ->
  in_u 64 (earned now s) /\ in_u 64 (as_failure_count s * FAILURE_PENALTY) /\ in_u 64 (score now s).
Proof.
  intros HC HT HR. pose proof (earned_base now s HC) as Hb. destruct HC as [[Hs1 Hs2] [Hf1 Hf2]].
  assert (0 <= type_base (as_type s)) by (by destruct (as_type s)).
  assert (earned now s < 2 ^ 47); [|unfold score, FAILURE_PENALTY, in_u in *; lia].
  unfold earned. assert (type_base (as_type s) <= 1000000) by (by destruct (as_type s)).
  destruct (as_last_success s) as [t|], (as_rtt s) as [r|]; cbv zeta;
    try (pose proof (Z.div_pos (Z.max 0 (now - t)) 1000 ltac:(lia) ltac:(lia)); destruct (Z.ltb_spec (Z.max 0 (now - t) / 1000) 3600)); lia.
Qed.

(** ** Examples *)

Module Examples.
Definition no_alpha (_ : Z) : bool := false.
Definition no_hex (_ : list Z) : option (list Z) := None.
Definition lan (n : Z) : SocketAddr := mkSocketAddr (V4 [192; 168; 0; n]) 22000.
Definition wan : SocketAddr := mkSocketAddr (V4 [8; 8; 8; 8]) 22000.
Definition addrs : list SocketAddr := [lan 1; lan 2; lan 3; wan].
Definition answer (a : SocketAddr) (ts : list Candidate) : list (Attempt nat) :=
  (fun c => (c, if decide (cd_addr c = a) then Some (7%nat, 12) else None)) <$> ts.
(** Three LAN addresses with 20 failures each, and a WAN address with ten. *)
Definition worn : Scores := list_to_map
  ((fun n => (lan n, mkAddressScore (lan n) None 0 20 None PrefLan)) <$> [1; 2; 3]).
Definition dead : Scores :=
  <[wan := mkAddressScore wan None 0 10 None PrefWan]> worn.
Lemma addrs_nodup : NoDup addrs.
Proof. apply (bool_decide_eq_true_1 _). vm_compute. reflexivity. Qed.
Lemma addrs_cases (P : SocketAddr -> Prop) :
  P (lan 1) -> P (lan 2) -> P (lan 3) -> P wan -> forall x, x ∈ addrs -> P x.
Proof. intros P1 P2 P3 P4 x Hx. apply (Forall_forall P addrs); [|done]. by repeat constructor. Qed.
End Examples.

Import Examples.

(** The WAN address of a device is dialed once its three LAN addresses have
    failed often enough. *)
Example redial_small :
  redial no_alpha no_hex 11 (fun _ => 0) (fun _ => answer wan) addrs ∅ = None /\
  redial no_alpha no_hex 12 (fun _ => 0) (fun _ => answer wan) addrs ∅ = Some 7%nat.
Proof. vm_compute. split; reflexivity. Qed.

Lemma dial_best_first_witness :
  exists r scores', dial no_alpha no_hex true 0 0 (answer (lan 2)) addrs [] ∅ = Some (r, scores') /\ r = Ok 7%nat.
Proof.
  destruct (dial_best_first no_alpha no_hex true 0 0 (answer (lan 2)) addrs ∅) as (r & sc & E & _ & _);
    [done|apply addrs_nodup|].
  exists r, sc. split; [exact E|].
  assert (fst <$> dial no_alpha no_hex true 0 0 (answer (lan 2)) addrs [] ∅ = Some (Ok 7%nat)) as E'
    by (vm_compute; reflexivity). rewrite E in E'. by injection E'.
Defined.

Lemma redial_connects_witness :
  redial no_alpha no_hex (S (4 * 21)) (fun _ => 0) (fun _ => answer wan) addrs ∅ = Some 7%nat.
Proof.
  apply (redial_connects no_alpha no_hex 7%nat 12 (fun _ => 0) (fun _ => answer wan) wan addrs ∅ 1000000).
  - apply addrs_nodup.
  - apply list_elem_of_lookup_2 with (i := 3%nat). done.
  - lia.
  - intros k ts. reflexivity.
  - done.
  - constructor.
    + apply addrs_cases; done.
    + apply addrs_cases; done.
    + done.
Defined.

Lemma zero_scores_starve_witness :
  exists scores', dial no_alpha no_hex true 0 0 (answer wan) addrs [] dead = Some (Err DeFailed, scores').
Proof.
  destruct (zero_scores_starve no_alpha no_hex true 0 0 (answer wan) addrs dead) as (_ & sc & E & _).
  - done.
  - apply addrs_nodup.
  - lia.
  - apply addrs_cases; vm_compute; done.
  - by repeat constructor.
  - by exists sc.
Defined.

Lemma score_in_u64_witness : in_u 64 (score 0 (fresh_score (lan 1) PrefLan)).
Proof. apply (score_in_u64 0 (fresh_score (lan 1) PrefLan)); done. Defined.
