(* ===== verification/Manager.v ===== *)
(** * The connection manager ([crates/syncthing-net/src/manager])

    The registry of connections, the handshakes in flight, the dials in
    progress and the scheduled reconnects, with the operations of registry.rs,
    handshake.rs, dialer.rs, mod.rs, entry.rs and handle.rs.  A lock region or
    a region without suspension is one step; [register_connection], which
    decides under a lock and acts after releasing it, is given as its two
    parts, and in the step relation anything may happen between them.

    Connections are shared ([Arc<BepConnection>]): the manager holds their
    identifiers and the store [mg_conns] their state.  The timestamps and retry
    counts that no code reads are left out. *)

From S2P Require Import Prelude Core DeviceIds Connection Net Relay Dialer.

Abbreviation Uuid := positive.

#[global] Instance ConnectionType_eq_dec : EqDecision ConnectionType.
Proof. solve_decision. Defined.

(** ** Connections *)

Record Conn := mkConn {
  cn_type : ConnectionType;
  cn_state : ConnectionState;
  cn_device : option DeviceId;
  cn_last_activity : option Z;
}.

Definition is_alive (c : Conn) : bool :=
  match cn_state c with
  | CsConnected | CsTlsHandshakeComplete | CsProtocolHandshakeComplete | CsClusterConfigComplete => true
  | _ => false
  end.

Definition set_conn_state (s : ConnectionState) (c : Conn) : Conn :=
  mkConn (cn_type c) s (cn_device c) (cn_last_activity c).

(** [BepConnection::close], whose last state is [Disconnected]. *)
Definition close (c : Conn) : Conn := set_conn_state CsDisconnected c.

Definition bind_device (d : DeviceId) (c : Conn) : Conn :=
  mkConn (cn_type c) (cn_state c) (Some d) (cn_last_activity c).

(** A clock that went back gives age zero. *)
Definition last_activity_age (now : Z) (c : Conn) : option Z :=
  let+ t := cn_last_activity c in Some (Z.max 0 (now - t)).

Definition is_stale (now timeout : Z) (c : Conn) : bool :=
  match last_activity_age now c with
  | None => true
  | Some age => timeout <? age
  end.

(** The order of [[u8; 32]]. *)
Fixpoint bytes_ltb (a b : list Z) : bool :=
  match a, b with
  | x :: a', y :: b' => if x <? y then true else if y <? x then false else bytes_ltb a' b'
  | [], _ :: _ => true
  | _, [] => false
  end.

(** ** State *)

(** The cancellation sender [_cancel_tx] belongs to the dial task [pc_task];
    removing the entry drops the sender, which cancels that task. *)
Record PendingConnection := mkPendingConnection {
  pc_addresses : list SocketAddr;
  pc_relay_urls : list str;
  pc_task : nat;
}.

Inductive RegisterAction := Replace | RejectNew | InsertExisting | CreateNew.

(** What is in progress: a dial or an accepted connection between its TLS and
    BEP handshakes, each with its [HandshakeGuard], and a registration that has
    decided and not acted yet.  It is [guarded] when the task that registers
    drops its guard right afterwards. *)
Inductive Task :=
| Dialing (d : DeviceId) (addresses : list SocketAddr) (relay_urls : list str)
| Accepting (d : DeviceId)
| Registering (d : DeviceId) (c : Uuid) (decision : RegisterAction * option Uuid) (guarded : bool).

(** A spawned reconnect that sleeps, with what it captured. *)
Record PendingReconnect := mkPendingReconnect {
  pr_device : DeviceId;
  pr_addresses : list SocketAddr;
  pr_relay_urls : list str;
}.

(** Calls of [on_connected] and [on_disconnected]. *)
Inductive Callback :=
| CbConnected (d : DeviceId)
| CbDisconnected (d : DeviceId) (reason : str).

Record Manager := mkManager {
  mg_local : DeviceId;
  mg_max_connections : Z;
  mg_timeout : Z;
  mg_conns : gmap Uuid Conn;
  mg_connections : gmap DeviceId (gset Uuid);
  mg_index : gmap Uuid DeviceId;
  mg_handshakes : gmap DeviceId ConnectionType;
  mg_pending : gmap DeviceId PendingConnection;
  mg_retries : gmap DeviceId Z;
  mg_addresses : gmap DeviceId (list SocketAddr);
  mg_relay_urls : gmap DeviceId (list str);
  mg_scores : Scores;
  mg_tasks : gmap nat Task;
  mg_timers : gmap nat PendingReconnect;
  mg_next : nat;
  mg_callbacks : list Callback;
}.

Definition on_conns (f : (gmap Uuid Conn) -> (gmap Uuid Conn)) (m : Manager) : Manager :=
  mkManager (mg_local m) (mg_max_connections m) (mg_timeout m) (f (mg_conns m)) (mg_connections m) (mg_index
    m) (mg_handshakes m) (mg_pending m) (mg_retries m) (mg_addresses m) (mg_relay_urls m) (mg_scores m)
    (mg_tasks m) (mg_timers m) (mg_next m) (mg_callbacks m).
Definition on_connections (f : (gmap DeviceId (gset Uuid)) -> (gmap DeviceId (gset Uuid))) (m : Manager) : Manager :=
  mkManager (mg_local m) (mg_max_connections m) (mg_timeout m) (mg_conns m) (f (mg_connections m)) (mg_index
    m) (mg_handshakes m) (mg_pending m) (mg_retries m) (mg_addresses m) (mg_relay_urls m) (mg_scores m)
    (mg_tasks m) (mg_timers m) (mg_next m) (mg_callbacks m).
Definition on_index (f : (gmap Uuid DeviceId) -> (gmap Uuid DeviceId)) (m : Manager) : Manager :=
  mkManager (mg_local m) (mg_max_connections m) (mg_timeout m) (mg_conns m) (mg_connections m) (f (mg_index
    m)) (mg_handshakes m) (mg_pending m) (mg_retries m) (mg_addresses m) (mg_relay_urls m) (mg_scores m)
    (mg_tasks m) (mg_timers m) (mg_next m) (mg_callbacks m).
Definition on_handshakes (f : (gmap DeviceId ConnectionType) -> (gmap DeviceId ConnectionType)) (m : Manager) : Manager :=
  mkManager (mg_local m) (mg_max_connections m) (mg_timeout m) (mg_conns m) (mg_connections m) (mg_index m)
    (f (mg_handshakes m)) (mg_pending m) (mg_retries m) (mg_addresses m) (mg_relay_urls m) (mg_scores m)
    (mg_tasks m) (mg_timers m) (mg_next m) (mg_callbacks m).
Definition on_pending (f : (gmap DeviceId PendingConnection) -> (gmap DeviceId PendingConnection)) (m : Manager) : Manager :=
  mkManager (mg_local m) (mg_max_connections m) (mg_timeout m) (mg_conns m) (mg_connections m) (mg_index m)
    (mg_handshakes m) (f (mg_pending m)) (mg_retries m) (mg_addresses m) (mg_relay_urls m) (mg_scores m)
    (mg_tasks m) (mg_timers m) (mg_next m) (mg_callbacks m).
Definition on_retries (f : (gmap DeviceId Z) -> (gmap DeviceId Z)) (m : Manager) : Manager :=
  mkManager (mg_local m) (mg_max_connections m) (mg_timeout m) (mg_conns m) (mg_connections m) (mg_index m)
    (mg_handshakes m) (mg_pending m) (f (mg_retries m)) (mg_addresses m) (mg_relay_urls m) (mg_scores m)
    (mg_tasks m) (mg_timers m) (mg_next m) (mg_callbacks m).
Definition on_addresses (f : (gmap DeviceId (list SocketAddr)) -> (gmap DeviceId (list SocketAddr))) (m : Manager) : Manager :=
  mkManager (mg_local m) (mg_max_connections m) (mg_timeout m) (mg_conns m) (mg_connections m) (mg_index m)
    (mg_handshakes m) (mg_pending m) (mg_retries m) (f (mg_addresses m)) (mg_relay_urls m) (mg_scores m)
    (mg_tasks m) (mg_timers m) (mg_next m) (mg_callbacks m).
Definition on_relay_urls (f : (gmap DeviceId (list str)) -> (gmap DeviceId (list str))) (m : Manager) : Manager :=
  mkManager (mg_local m) (mg_max_connections m) (mg_timeout m) (mg_conns m) (mg_connections m) (mg_index m)
    (mg_handshakes m) (mg_pending m) (mg_retries m) (mg_addresses m) (f (mg_relay_urls m)) (mg_scores m)
    (mg_tasks m) (mg_timers m) (mg_next m) (mg_callbacks m).
Definition on_scores (f : Scores -> Scores) (m : Manager) : Manager :=
  mkManager (mg_local m) (mg_max_connections m) (mg_timeout m) (mg_conns m) (mg_connections m) (mg_index m)
    (mg_handshakes m) (mg_pending m) (mg_retries m) (mg_addresses m) (mg_relay_urls m) (f (mg_scores m))
    (mg_tasks m) (mg_timers m) (mg_next m) (mg_callbacks m).
Definition on_tasks (f : (gmap nat Task) -> (gmap nat Task)) (m : Manager) : Manager :=
  mkManager (mg_local m) (mg_max_connections m) (mg_timeout m) (mg_conns m) (mg_connections m) (mg_index m)
    (mg_handshakes m) (mg_pending m) (mg_retries m) (mg_addresses m) (mg_relay_urls m) (mg_scores m) (f
    (mg_tasks m)) (mg_timers m) (mg_next m) (mg_callbacks m).
Definition on_timers (f : (gmap nat PendingReconnect) -> (gmap nat PendingReconnect)) (m : Manager) : Manager :=
  mkManager (mg_local m) (mg_max_connections m) (mg_timeout m) (mg_conns m) (mg_connections m) (mg_index m)
    (mg_handshakes m) (mg_pending m) (mg_retries m) (mg_addresses m) (mg_relay_urls m) (mg_scores m)
    (mg_tasks m) (f (mg_timers m)) (mg_next m) (mg_callbacks m).
Definition on_next (f : nat -> nat) (m : Manager) : Manager :=
  mkManager (mg_local m) (mg_max_connections m) (mg_timeout m) (mg_conns m) (mg_connections m) (mg_index m)
    (mg_handshakes m) (mg_pending m) (mg_retries m) (mg_addresses m) (mg_relay_urls m) (mg_scores m)
    (mg_tasks m) (mg_timers m) (f (mg_next m)) (mg_callbacks m).
Definition on_callbacks (f : (list Callback) -> (list Callback)) (m : Manager) : Manager :=
  mkManager (mg_local m) (mg_max_connections m) (mg_timeout m) (mg_conns m) (mg_connections m) (mg_index m)
    (mg_handshakes m) (mg_pending m) (mg_retries m) (mg_addresses m) (mg_relay_urls m) (mg_scores m)
    (mg_tasks m) (mg_timers m) (mg_next m) (f (mg_callbacks m)).

Definition manager_new (local : DeviceId) (max_connections timeout : Z) : Manager :=
  mkManager local max_connections timeout ∅ ∅ ∅ ∅ ∅ ∅ ∅ ∅ ∅ ∅ ∅ 0 [].

Definition close_conn (c : Uuid) : Manager -> Manager := on_conns (alter close c).

Definition callback (cb : Callback) : Manager -> Manager := on_callbacks (fun l => l ++ [cb]).

(** ** Queries ([mod.rs]) *)

Definition conn_alive (m : Manager) (c : Uuid) : bool :=
  match mg_conns m !! c with Some k => is_alive k | None => false end.

(** [connections.get(device_id)], as the list its iteration yields. *)
Definition device_conns (m : Manager) (d : DeviceId) : list Uuid :=
  match mg_connections m !! d with Some nested => elements nested | None => [] end.

Definition get_connection (m : Manager) (d : DeviceId) : option Uuid :=
  list_find (fun c => conn_alive m c = true) (device_conns m d) ≫= fun p => Some p.2.

Definition get_connection_by_id (m : Manager) (c : Uuid) : option Uuid :=
  let+ d := mg_index m !! c in
  if decide (c ∈ device_conns m d) then Some c else None.

Definition is_connected (m : Manager) (d : DeviceId) : bool := bool_decide (is_Some (get_connection m d)).

Definition all_registered (m : Manager) : list (DeviceId * Uuid) :=
  p ← map_to_list (mg_connections m); (fun c => (p.1, c)) <$> elements p.2.

Definition active_connection_count (m : Manager) : nat :=
  length (filter (fun p => conn_alive m p.2 = true) (all_registered m)).

Definition can_accept_connection (m : Manager) : bool :=
  Z.of_nat (active_connection_count m) <? mg_max_connections m.

Definition connected_devices (m : Manager) : list DeviceId :=
  fst <$> filter (fun p => existsb (conn_alive m) (elements p.2) = true) (map_to_list (mg_connections m)).

Definition local_smaller (m : Manager) (d : DeviceId) : bool :=
  bytes_ltb (device_id_bytes (mg_local m)) (device_id_bytes d).

(** ** Handshakes ([handshake.rs]) *)

Definition should_yield_new (existing new : ConnectionType) (smaller : bool) : bool :=
  match existing, new with
  | Incoming, Outgoing => smaller
  | Outgoing, Incoming => negb smaller
  | _, _ => true
  end.

(** The replacement of a connection that is alive; the spawned tasks close
    what is removed. *)
Definition replace_connected (d : DeviceId) (m : Manager) : Manager :=
  if is_connected m d then
    let m' := foldl (fun m c => close_conn c (on_index (base.delete c) m)) (on_connections (base.delete d) m)
                (device_conns m d) in
    callback (CbDisconnected d ($"replaced by new connection")) m'
  else m.

(** [false]: the handshake lost the race. *)
Definition begin_handshake (d : DeviceId) (t : ConnectionType) (m : Manager) : bool * Manager :=
  let m := replace_connected d m in
  match mg_handshakes m !! d with
  | Some existing =>
      if should_yield_new existing t (local_smaller m d) then (false, m)
      else (true, on_handshakes <[d := t]> m)
  | None => (true, on_handshakes <[d := t]> m)
  end.

(** The drop of a [HandshakeGuard]. *)
Definition end_handshake (d : DeviceId) : Manager -> Manager := on_handshakes (base.delete d).

(** ** Registration ([registry.rs]) *)

Definition should_replace (old new : ConnectionType) (smaller : bool) : bool :=
  match old, new with
  | Outgoing, Incoming => smaller
  | Incoming, Outgoing => negb smaller
  | _, _ => false
  end.

Definition conn_type (m : Manager) (c : Uuid) : ConnectionType :=
  match mg_conns m !! c with Some k => cn_type k | None => Outgoing end.

(** What is decided under the lock, with the connection to close. *)
Definition register_decide (d : DeviceId) (c : Uuid) (m : Manager) : RegisterAction * option Uuid :=
  match mg_connections m !! d with
  | Some nested =>
      match elements nested with
      | old :: _ =>
          if should_replace (conn_type m old) (conn_type m c) (local_smaller m d)
          then (Replace, Some old) else (RejectNew, None)
      | [] => (InsertExisting, None)
      end
  | None => (CreateNew, None)
  end.

Definition clear_pending (d : DeviceId) : Manager -> Manager := on_pending (base.delete d).

(** Everything after the insertion into the registry. *)
Definition registered_tail (d : DeviceId) (c : Uuid) (m : Manager) : Manager :=
  callback (CbConnected d)
    (clear_pending d
       (on_conns (alter (bind_device d) c)
          (on_retries (base.delete d)
             (clear_pending d
                (on_index <[c := d]> m))))).

Definition register_act (d : DeviceId) (c : Uuid) (decision : RegisterAction * option Uuid) (m : Manager) : Manager :=
  let m := match decision.2 with Some old => close_conn old m | None => m end in
  match decision.1 with
  | RejectNew => close_conn c m
  | Replace | CreateNew => registered_tail d c (on_connections <[d := {[c]}]> m)
  | InsertExisting =>
      registered_tail d c (on_connections (fun cs => <[d := {[c]} ∪ default ∅ (cs !! d)]> cs) m)
  end.

Definition register_connection (d : DeviceId) (c : Uuid) (m : Manager) : Manager :=
  register_act d c (register_decide d c m) m.

(** Its two parts apart: task [t] decides, and acts later. *)
Definition register_begins (t : nat) (d : DeviceId) (c : Uuid) (guarded : bool) (m : Manager) : Manager :=
  on_tasks <[t := Registering d c (register_decide d c m) guarded]> m.

Definition register_acts (t : nat) (m : Manager) : Manager :=
  match mg_tasks m !! t with
  | Some (Registering d c decision guarded) =>
      let m := register_act d c decision (on_tasks (base.delete t) m) in
      if (guarded : bool) then end_handshake d m else m
  | _ => m
  end.

(** [false]: the connection has no device ID. *)
Definition register_incoming (c : Uuid) (m : Manager) : bool * Manager :=
  match mg_conns m !! c ≫= cn_device with
  | Some d => (true, register_connection d c m)
  | None => (false, m)
  end.

(** ** Reconnecting ([mod.rs]) *)

Definition should_reconnect (reason : str) : bool :=
  negb (contains_sub ($"manual disconnect") reason) &&
  negb (contains_sub ($"invalid device ID") reason) &&
  negb (contains_sub ($"unauthorized") reason) &&
  negb (contains_sub ($"paused by user") reason).

Definition known_addresses (m : Manager) (d : DeviceId) : list SocketAddr := default [] (mg_addresses m !! d).

Definition known_relay_urls (m : Manager) (d : DeviceId) : list str := default [] (mg_relay_urls m !! d).

Definition schedule_reconnect (d : DeviceId) (m : Manager) : Manager :=
  let addresses := known_addresses m d in
  let relay_urls := known_relay_urls m d in
  if bool_decide (addresses = []) && bool_decide (relay_urls = []) then m
  else
    let m := on_retries (fun r => <[d := wrap 32 (default 0 (r !! d) + 1)]> r) m in
    on_next S (on_timers <[mg_next m := mkPendingReconnect d addresses relay_urls]> m).

(** ** Disconnecting ([registry.rs]) *)

Definition disconnect (d : DeviceId) (reason : str) (m : Manager) : Manager :=
  let m := match mg_connections m !! d with
           | Some nested =>
               let m' := foldl (fun m c => on_index (base.delete c) (close_conn c m))
                           (on_connections (base.delete d) m) (elements nested) in
               callback (CbDisconnected d reason) m'
           | None => m
           end in
  if should_reconnect reason then schedule_reconnect d m else m.

Definition disconnect_connection (c : Uuid) (reason : str) (m : Manager) : Manager :=
  match mg_index m !! c with
  | None => m
  | Some d =>
      let m := on_index (base.delete c) m in
      let m := on_connections (alter (fun nested => nested ∖ {[c]}) d) m in
      let device_has_other_conns :=
        match mg_connections m !! d with Some nested => negb (bool_decide (nested = ∅)) | None => false end in
      if device_has_other_conns then m
      else
        let m := on_connections (base.delete d) m in
        let m := if should_reconnect reason then schedule_reconnect d m else m in
        callback (CbDisconnected d reason) m
  end.

Definition disconnect_all (reason : str) (m : Manager) : Manager :=
  foldl (fun m d => disconnect d reason m) m (map_to_list (mg_connections m)).*1.

(** The first loop collects, the second disconnects. *)
Definition cleanup_stale_connections (now : Z) (m : Manager) : Manager :=
  let stale := filter (fun c => match mg_conns m !! c with
                                | Some k => negb (is_alive k) || is_stale now (mg_timeout m) k
                                | None => true
                                end = true) (all_registered m).*2 in
  foldl (fun m c => disconnect_connection c ($"stale connection") m) m stale.

(** ** Dialing ([dialer.rs], and [validate_outbound_addr] of [tcp_transport.rs]) *)

Definition validate_outbound_addr (addr : SocketAddr) : bool :=
  if is_multicast (sa_ip addr) then false
  else if is_unspecified (sa_ip addr) then false
  else negb (match sa_ip addr with V4 os => v4_link_local os | V6 ss => v6_link_local ss end).

Definition connect_to_with_relay (d : DeviceId) (addresses : list SocketAddr) (relay_urls : list str)
    (m : Manager) : Manager :=
  let safe_addresses := filter (fun a => validate_outbound_addr a = true) addresses in
  let m := on_addresses <[d := safe_addresses]> m in
  let m := if decide (relay_urls = []) then m else on_relay_urls <[d := relay_urls]> m in
  if is_connected m d then m
  else match mg_pending m !! d with
       | Some _ => m
       | None =>
           let task := mg_next m in
           let m := on_pending <[d := mkPendingConnection safe_addresses relay_urls task]> (on_next S m) in
           match begin_handshake d Outgoing m with
           | (false, m) => clear_pending d m
           | (true, m) => on_tasks <[task := Dialing d safe_addresses relay_urls]> m
           end
       end.

(** The reconnect task after its sleep. *)
Definition reconnect_fires (t : nat) (m : Manager) : Manager :=
  match mg_timers m !! t with
  | Some r =>
      let m := clear_pending (pr_device r) (on_timers (base.delete t) m) in
      connect_to_with_relay (pr_device r) (pr_addresses r) (pr_relay_urls r) m
  | None => m
  end.

(** The sender of a dial task is gone. *)
Definition task_cancelled (m : Manager) (t : nat) (d : DeviceId) : bool :=
  match mg_pending m !! d with
  | Some p => negb (pc_task p =? t)%nat
  | None => true
  end.

(** The branch [_ = &mut cancel_rx], then the drop of the guard. *)
Definition dial_cancelled (t : nat) (m : Manager) : Manager :=
  match mg_tasks m !! t with
  | Some (Dialing d _ _) =>
      if task_cancelled m t d then end_handshake d (on_tasks (base.delete t) (clear_pending d m)) else m
  | _ => m
  end.

Section Steps.
Context (unicode_alphanumeric : Z -> bool) (hex_decode : list Z -> option (list Z)).

(** The branch of the dial, then the drop of the guard.  The connections an
    attempt yields are outgoing, bound to the target device and past the Hello
    exchange; a panic ends the task. *)
Definition dial_finished (t : nat) (now finished : Z) (race : list Candidate -> list (Attempt Uuid)) (m : Manager)
    : Manager :=
  match mg_tasks m !! t with
  | Some (Dialing d addresses relay_urls) =>
      let m := on_tasks (base.delete t) m in
      end_handshake d
        match dial unicode_alphanumeric hex_decode true now finished race addresses relay_urls (mg_scores m) with
        | None => m
        | Some (Ok c, scores) =>
            let m := on_scores (fun _ => scores) m in
            let m := on_conns <[c := mkConn Outgoing CsProtocolHandshakeComplete (Some d) None]> m in
            register_connection d c m
        | Some (Err _, scores) =>
            schedule_reconnect d (clear_pending d (on_scores (fun _ => scores) m))
        end
  | _ => m
  end.

(** [handle_incoming] of [tcp_transport.rs] up to the Hello exchange: the
    listener's limit, the TLS handshake that names the device [d], and the
    race. *)
Definition accept_begins (d : DeviceId) (m : Manager) : Manager :=
  if can_accept_connection m then
    match begin_handshake d Incoming m with
    | (false, m) => m
    | (true, m) => on_next S (on_tasks <[mg_next m := Accepting d]> m)
    end
  else m.

(** The rest of it, with the connection [c] or with an error of the Hello
    exchange. *)
Definition accept_finished (t : nat) (conn : option Uuid) (m : Manager) : Manager :=
  match mg_tasks m !! t with
  | Some (Accepting d) =>
      let m := on_tasks (base.delete t) m in
      end_handshake d
        match conn with
        | Some c =>
            register_connection d c
              (on_conns <[c := mkConn Incoming CsProtocolHandshakeComplete (Some d) None]> m)
        | None => m
        end
  | _ => m
  end.

(** The same two tasks up to the decision of the registration. *)
Definition dial_registers (t : nat) (now finished : Z) (race : list Candidate -> list (Attempt Uuid)) (m : Manager)
    : Manager :=
  match mg_tasks m !! t with
  | Some (Dialing d addresses relay_urls) =>
      match dial unicode_alphanumeric hex_decode true now finished race addresses relay_urls (mg_scores m) with
      | Some (Ok c, scores) =>
          register_begins t d c true
            (on_conns <[c := mkConn Outgoing CsProtocolHandshakeComplete (Some d) None]>
               (on_scores (fun _ => scores) (on_tasks (base.delete t) m)))
      | _ => dial_finished t now finished race m
      end
  | _ => m
  end.

Definition accept_registers (t : nat) (conn : option Uuid) (m : Manager) : Manager :=
  match mg_tasks m !! t, conn with
  | Some (Accepting d), Some c =>
      register_begins t d c true
        (on_conns <[c := mkConn Incoming CsProtocolHandshakeComplete (Some d) None]> (on_tasks (base.delete t) m))
  | Some (Accepting _), None => accept_finished t None m
  | _, _ => m
  end.
End Steps.

(** ** The handle ([handle.rs]) and network changes *)

Definition reconnect_device (d : DeviceId) (addresses : list SocketAddr) (relay_urls : list str) (m : Manager) : Manager :=
  connect_to_with_relay d addresses relay_urls (clear_pending d (disconnect d ($"reconnect") m)).

Definition reconnect_device_by_id (d : DeviceId) (m : Manager) : Manager :=
  reconnect_device d (known_addresses m d) (known_relay_urls m d) m.

Definition update_addresses (d : DeviceId) (addresses : list SocketAddr) (relay_urls : list str) (m : Manager) : Manager :=
  let m := if decide (addresses = []) then m else on_addresses <[d := addresses]> m in
  if decide (relay_urls = []) then m else on_relay_urls <[d := relay_urls]> m.

Definition redial_device (m : Manager) (d : DeviceId) : Manager :=
  if is_connected m d then m
  else
    let addresses := known_addresses m d in
    let relay_urls := known_relay_urls m d in
    if bool_decide (addresses = []) && bool_decide (relay_urls = []) then m
    else connect_to_with_relay d addresses relay_urls m.

(** [register_connection] and [register_incoming] of the handle for a new
    connection [c] in state [k], up to the decision; the relay listener and the
    transports register through them. *)
Definition handle_register (d : DeviceId) (c : Uuid) (k : Conn) (m : Manager) : Manager :=
  register_begins (mg_next m) d c false (on_conns <[c := k]> (on_next S m)).

Definition handle_register_incoming (c : Uuid) (k : Conn) (m : Manager) : Manager :=
  match cn_device k with
  | Some d => handle_register d c k m
  | None => on_conns <[c := k]> m
  end.

Definition handle_net_change (now : Z) (m : Manager) : Manager :=
  let m := cleanup_stale_connections now m in
  foldl redial_device m (map_to_list (mg_addresses m)).*1.

(** ** Steps

    What can happen to a manager: calls of the handle, tasks that advance,
    connections whose state or activity changes.  A registration is two steps,
    with any others between them.  Each connection is registered once: what a
    dial or a handshake yields is new, and so is what is registered through the
    handle, where its callers bind it to its device first. *)
Section Reachable.
Context (unicode_alphanumeric : Z -> bool) (hex_decode : list Z -> option (list Z)).

Inductive mstep (m : Manager) : Manager -> Prop :=
| step_connect d addresses relay_urls : mstep m (connect_to_with_relay d addresses relay_urls m)
| step_reconnect d addresses relay_urls : mstep m (reconnect_device d addresses relay_urls m)
| step_update d addresses relay_urls : mstep m (update_addresses d addresses relay_urls m)
| step_timer t : mstep m (reconnect_fires t m)
| step_cancelled t : mstep m (dial_cancelled t m)
| step_dial t now finished race :
    (forall ts a c rtt, (a, Some (c, rtt)) ∈ race ts -> mg_conns m !! c = None) ->
    mstep m (dial_registers unicode_alphanumeric hex_decode t now finished race m)
| step_accept d : mstep m (accept_begins d m)
| step_accepted t conn :
    (forall c, conn = Some c -> mg_conns m !! c = None) -> mstep m (accept_registers t conn m)
| step_handshake d t : mstep m (begin_handshake d t m).2
| step_handshake_ends d : mstep m (end_handshake d m)
| step_register d c k : mg_conns m !! c = None -> cn_device k = Some d -> mstep m (handle_register d c k m)
| step_register_incoming c k : mg_conns m !! c = None -> mstep m (handle_register_incoming c k m)
| step_acts t : mstep m (register_acts t m)
| step_disconnect d reason : mstep m (disconnect d reason m)
| step_disconnect_conn c reason : mstep m (disconnect_connection c reason m)
| step_disconnect_all reason : mstep m (disconnect_all reason m)
| step_cleanup now : mstep m (cleanup_stale_connections now m)
| step_net_change now : mstep m (handle_net_change now m)
| step_conn c state activity :
    mstep m (on_conns (alter (fun k => mkConn (cn_type k) state (cn_device k) activity) c) m).
End Reachable.

(** ** The invariant *)

(** Connection [c] is registered for device [d]. *)
Definition registered_at (m : Manager) (d : DeviceId) (c : Uuid) : Prop :=
  exists nested, mg_connections m !! d = Some nested /\ c ∈ nested.

Definition safe_task (t : Task) : Prop :=
  match t with
  | Dialing _ addresses _ => Forall (fun a => validate_outbound_addr a = true) addresses
  | _ => True
  end.

Record mg_inv (m : Manager) : Prop := mkMgInv {
  inv_single : forall d nested, mg_connections m !! d = Some nested -> exists c, nested = {[c]};
  inv_index : forall d c, registered_at m d c -> mg_index m !! c = Some d;
  inv_device : forall d c, registered_at m d c -> mg_conns m !! c ≫= cn_device = Some d;
  inv_tasks : map_Forall (fun _ t => safe_task t) (mg_tasks m);
  inv_registering : forall t d c decision guarded, mg_tasks m !! t = Some (Registering d c decision guarded) ->
    decision.1 <> InsertExisting /\ (mg_conns m !! c ≫= cn_device = Some d) /\ (forall d', ~ registered_at m d' c) /\
    forall t' d' decision' guarded', mg_tasks m !! t' = Some (Registering d' c decision' guarded') -> t' = t;
}.

(** An operation that leaves the registry alone. *)
Lemma mg_inv_same m m' :
  mg_inv m -> mg_connections m' = mg_connections m -> mg_index m' = mg_index m ->
  mg_conns m' = mg_conns m -> mg_tasks m' = mg_tasks m -> mg_inv m'.
Proof.
  intros [H1 H2 H3 H4 H5] Ec Ei Ek Et. constructor; unfold registered_at; rewrite ?Ec, ?Ei, ?Ek, ?Et; done.
Qed.

Lemma mg_inv_callback cb m : mg_inv m -> mg_inv (callback cb m).
Proof. intros HI. by apply (mg_inv_same m). Qed.

Lemma mg_inv_pending f m : mg_inv m -> mg_inv (on_pending f m).
Proof. intros HI. by apply (mg_inv_same m). Qed.

Lemma mg_inv_handshakes f m : mg_inv m -> mg_inv (on_handshakes f m).
Proof. intros HI. by apply (mg_inv_same m). Qed.

Lemma mg_inv_scores f m : mg_inv m -> mg_inv (on_scores f m).
Proof. intros HI. by apply (mg_inv_same m). Qed.

Lemma mg_inv_timers f m : mg_inv m -> mg_inv (on_timers f m).
Proof. intros HI. by apply (mg_inv_same m). Qed.

Lemma mg_inv_addresses f m : mg_inv m -> mg_inv (on_addresses f m).
Proof. intros HI. by apply (mg_inv_same m). Qed.

Lemma mg_inv_relay_urls f m : mg_inv m -> mg_inv (on_relay_urls f m).
Proof. intros HI. by apply (mg_inv_same m). Qed.

Lemma mg_inv_next f m : mg_inv m -> mg_inv (on_next f m).
Proof. intros HI. by apply (mg_inv_same m). Qed.

(** Connections change, but not the device they are bound to. *)
Lemma mg_inv_conns m f :
  (forall c, (f (mg_conns m) !! c ≫= cn_device) = (mg_conns m !! c ≫= cn_device)) -> mg_inv m -> mg_inv (on_conns f m).
Proof.
  intros Hf [H1 H2 H3 H4 H5]. constructor; [done..| |done|].
  - intros d c Hc. cbn. rewrite Hf. by apply H3.
  - intros t d c dec g Ht. cbn. rewrite Hf. by eapply H5.
Qed.

Lemma mg_inv_alter m g c :
  (forall k, cn_device (g k) = cn_device k) -> mg_inv m -> mg_inv (on_conns (alter g c) m).
Proof.
  intros Hg. apply mg_inv_conns. intros c'. destruct (decide (c' = c)) as [-> |N].
  - rewrite lookup_alter_eq. destruct (mg_conns m !! c); cbn; [apply Hg|done].
  - by rewrite lookup_alter_ne.
Qed.

Lemma mg_inv_close m c : mg_inv m -> mg_inv (close_conn c m).
Proof. by apply mg_inv_alter. Qed.

Lemma mg_inv_delete_device m d : mg_inv m -> mg_inv (on_connections (base.delete d) m).
Proof.
  intros [H1 H2 H3 H4 H5].
  assert (forall d' c, registered_at (on_connections (base.delete d) m) d' c -> registered_at m d' c) as Hsub.
  { intros d' c (nested & Hn & Hc). cbn in Hn. apply lookup_delete_Some in Hn as [_ Hn]. by exists nested. }
  constructor; [|naive_solver..|].
  - intros d' nested Hn. cbn in Hn. apply lookup_delete_Some in Hn as [_ Hn]. eauto.
  - intros t d' c dec g Ht. destruct (H5 t d' c dec g Ht) as (? & ? & Hn & ?). split_and!; [done|done| |done].
    intros d'' Hc. by apply (Hn d''), Hsub.
Qed.

Lemma mg_inv_unindex m c :
  (forall d, ~ registered_at m d c) -> mg_inv m -> mg_inv (on_index (base.delete c) m).
Proof.
  intros HN [H1 H2 H3 H4 H5]. constructor; [done| |done..]. intros d c' Hc. cbn.
  rewrite lookup_delete_ne; [by apply H2|]. intros ->. by eapply HN.
Qed.

Create HintDb manager.
#[local] Hint Resolve mg_inv_close mg_inv_delete_device mg_inv_callback mg_inv_pending mg_inv_handshakes
  mg_inv_scores mg_inv_timers mg_inv_addresses mg_inv_relay_urls mg_inv_next : manager.
#[local] Hint Unfold clear_pending end_handshake : manager.

Definition is_registering (task : Task) : bool := match task with Registering _ _ _ _ => true | _ => false end.

Lemma mg_inv_task m t task :
  safe_task task -> is_registering task = false -> mg_inv m -> mg_inv (on_tasks <[t := task]> m).
Proof.
  intros HS HR [H1 H2 H3 H4 H5]. constructor; [done..|by apply map_Forall_insert_2|]. intros t' d c dec g Ht. cbn in Ht.
  apply lookup_insert_Some in Ht as [[_ ->]|[_ Ht]]; [done|]. destruct (H5 t' d c dec g Ht) as (? & ? & ? & Hu).
  split_and!; [done..|]. intros t2 d2 dec2 g2 Ht2. cbn in Ht2. apply lookup_insert_Some in Ht2 as [[_ ->]|[_ Ht2]]; [done|]. by eapply Hu.
Qed.

Lemma mg_inv_untask m t : mg_inv m -> mg_inv (on_tasks (base.delete t) m).
Proof.
  intros [H1 H2 H3 H4 H5]. constructor; [done..|by apply map_Forall_delete|]. intros t' d c dec g Ht. cbn in Ht.
  apply lookup_delete_Some in Ht as [_ Ht]. destruct (H5 t' d c dec g Ht) as (? & ? & ? & Hu).
  split_and!; [done..|]. intros t2 d2 dec2 g2 Ht2. cbn in Ht2. apply lookup_delete_Some in Ht2 as [_ Ht2]. by eapply Hu.
Qed.

Lemma registered_single m d c c' : mg_inv m -> registered_at m d c -> registered_at m d c' -> c = c'.
Proof. intros HI (n & Hn & Hc) (n' & Hn' & Hc'). destruct (inv_single _ HI _ _ Hn). set_solver. Qed.

Lemma registered_device m d d' c : mg_inv m -> registered_at m d c -> registered_at m d' c -> d = d'.
Proof. intros HI Hc Hc'. apply (inv_index _ HI) in Hc, Hc'. congruence. Qed.

Lemma registered_singleton m d nested : mg_inv m -> mg_connections m !! d = Some nested ->
  exists c, nested = {[c]} /\ registered_at m d c.
Proof. intros HI Hn. destruct (inv_single _ HI _ _ Hn) as [c ->]. exists c. split; [done|]. eexists. split; [done|set_solver]. Qed.

(** Dropping a registered device with its connections. *)
Lemma mg_inv_drop m d c : mg_inv m -> registered_at m d c ->
  mg_inv (on_index (base.delete c) (on_connections (base.delete d) m)).
Proof.
  intros HI Hc. apply mg_inv_unindex; [|auto with manager]. intros d' (nested & Hn & Hin). cbn in Hn.
  apply lookup_delete_Some in Hn as [N Hn]. apply N. eapply registered_device; [done|done|by eexists].
Qed.

(** ** Every operation keeps it *)

Lemma begin_handshake_inv d t m : mg_inv m -> mg_inv (begin_handshake d t m).2.
Proof.
  intros HI. assert (mg_inv (replace_connected d m)) as HR.
  { unfold replace_connected. destruct (is_connected m d); [|done].
    unfold device_conns. destruct (mg_connections m !! d) as [nested|] eqn:E.
    - destruct (registered_singleton _ _ _ HI E) as (c & -> & Hc). rewrite elements_singleton. cbn [foldl].
      eapply mg_inv_same; [exact (mg_inv_close _ c (mg_inv_drop _ _ _ HI Hc))|done..].
    - cbn. eapply mg_inv_same; [apply (mg_inv_delete_device m d), HI|done..]. }
  unfold begin_handshake. destruct (mg_handshakes (replace_connected d m) !! d); [destruct (should_yield_new _ _ _)|];
    cbn [snd]; [done|..]; (eapply mg_inv_same; [exact HR|done..]).
Qed.

Lemma schedule_reconnect_inv d m : mg_inv m -> mg_inv (schedule_reconnect d m).
Proof.
  intros HI. unfold schedule_reconnect. destruct (_ && _); [done|]. eapply mg_inv_same; [exact HI|done..].
Qed.

Lemma disconnect_inv d reason m : mg_inv m -> mg_inv (disconnect d reason m).
Proof.
  intros HI. unfold disconnect. match goal with |- context [schedule_reconnect d ?x] => assert (mg_inv x) end.
  { destruct (mg_connections m !! d) as [nested|] eqn:E; [|done].
    destruct (registered_singleton _ _ _ HI E) as (c & -> & Hc). rewrite elements_singleton. cbn [foldl].
    eapply mg_inv_same; [exact (mg_inv_close _ c (mg_inv_drop _ _ _ HI Hc))|done..]. }
  destruct (should_reconnect reason); [by apply schedule_reconnect_inv|done].
Qed.

Lemma foldl_inv {A : Type} (f : Manager -> A -> Manager) l m :
  (forall m a, mg_inv m -> mg_inv (f m a)) -> mg_inv m -> mg_inv (foldl f m l).
Proof. intros Hf. revert m. induction l as [|a l IH]; intros m HI; cbn; auto. Qed.

Lemma disconnect_connection_inv c reason m : mg_inv m -> mg_inv (disconnect_connection c reason m).
Proof.
  intros HI. unfold disconnect_connection. destruct (mg_index m !! c) as [d|] eqn:Ei; [|done].
  cbn [on_connections mg_connections]. rewrite lookup_alter_eq.
  change (mg_connections (on_index (base.delete c) m)) with (mg_connections m).
  assert (forall m', mg_inv m' -> mg_inv (callback (CbDisconnected d reason)
            (if should_reconnect reason then schedule_reconnect d m' else m'))) as Htail.
  { intros m' HI'. apply mg_inv_callback. destruct (should_reconnect reason); [by apply schedule_reconnect_inv|done]. }
  assert (forall d', registered_at m d' c -> d' = d) as Hd.
  { intros d' Hc. apply (inv_index _ HI) in Hc. congruence. }
  destruct (mg_connections m !! d) as [nested|] eqn:E; cbn [fmap option_fmap option_map].
  - destruct (registered_singleton _ _ _ HI E) as (c' & -> & Hc'). destruct (decide (c' = c)) as [-> |N].
    + rewrite difference_diag_L, bool_decide_eq_true_2 by done. cbn [negb]. apply Htail.
      eapply mg_inv_same; [exact (mg_inv_drop _ _ _ HI Hc')| |done..]. cbn. apply map_eq. intros d'.
      destruct (decide (d' = d)) as [-> |N]; [by rewrite !lookup_delete_eq|].
      by rewrite !lookup_delete_ne, lookup_alter_ne.
    + replace ({[c']} ∖ {[c]} : gset Uuid) with ({[c']} : gset Uuid) by set_solver.
      rewrite bool_decide_eq_false_2 by set_solver. cbn [negb].
      apply (mg_inv_same (on_index (base.delete c) m)); [|cbn|done..].
      * apply mg_inv_unindex; [|done]. intros d' Hc. pose proof (Hd _ Hc) as ->. apply N. by eapply registered_single.
      * apply map_eq. intros d'. destruct (decide (d' = d)) as [-> |N']; [|by rewrite lookup_alter_ne].
        rewrite lookup_alter_eq, E. cbn. f_equal. set_solver.
  - apply Htail. apply (mg_inv_same (on_index (base.delete c) (on_connections (base.delete d) m))); [|cbn|done..].
    + apply mg_inv_unindex; [|by apply mg_inv_delete_device]. intros d' (n & Hn & Hc). cbn in Hn.
      apply lookup_delete_Some in Hn as [N Hn]. apply N. symmetry. apply Hd. by exists n.
    + apply map_eq. intros d'. destruct (decide (d' = d)) as [-> |N]; [by rewrite !lookup_delete_eq|].
      by rewrite !lookup_delete_ne, lookup_alter_ne.
Qed.

(** A registration acts on what it decided earlier, for a connection that is
    registered for no other device and by nobody else. *)
Lemma register_act_inv d c k decision m :
  mg_inv m -> mg_conns m !! c = Some k -> decision.1 <> InsertExisting ->
  (forall d', registered_at m d' c -> d' = d) ->
  (forall t d' dec g, mg_tasks m !! t <> Some (Registering d' c dec g)) ->
  mg_inv (register_act d c decision m).
Proof.
  intros HI Hk Hdec HN HT. unfold register_act. set (m1 := match decision.2 with Some old => close_conn old m | None => m end).
  assert (mg_inv m1 /\ mg_connections m1 = mg_connections m /\ mg_tasks m1 = mg_tasks m /\ is_Some (mg_conns m1 !! c))
    as (HI1 & Ec & Et & [k1 Hk1]).
  { unfold m1. destruct decision.2 as [old|]; [|by eauto]. split_and!; [by apply mg_inv_close|done|done|].
    cbn. rewrite lookup_alter_is_Some. by exists k. }
  clearbody m1. assert (mg_inv (registered_tail d c (on_connections <[d := {[c]}]> m1))) as Hreg.
  { assert (forall d' c', registered_at (registered_tail d c (on_connections <[d := {[c]}]> m1)) d' c' ->
              (d' = d /\ c' = c) \/ (c' <> c /\ registered_at m1 d' c')) as Hsub.
    { intros d' c' (nested & Hn & Hc). cbn in Hn. apply lookup_insert_Some in Hn as [[-> <-]|[Nd Hn]].
      - left. split; [done|set_solver].
      - right. split; [|by exists nested]. intros ->. apply Nd. symmetry. apply HN. exists nested. by rewrite <-Ec. }
    constructor.
    - intros d' nested Hn. cbn in Hn. apply lookup_insert_Some in Hn as [[-> <-]|[_ Hn]]; [eauto|].
      by apply (inv_single _ HI1 d').
    - intros d' c' [[-> ->]|[Nc Hc]]%Hsub; cbn; [by rewrite lookup_insert_eq|].
      rewrite lookup_insert_ne by done. by apply (inv_index _ HI1).
    - intros d' c' [[-> ->]|[Nc Hc]]%Hsub; cbn; [by rewrite lookup_alter_eq, Hk1|].
      rewrite lookup_alter_ne by done. by apply (inv_device _ HI1).
    - apply (inv_tasks _ HI1).
    - intros t d' c' dec g Ht. cbn in Ht. assert (c' <> c) as Nc by (intros ->; rewrite Et in Ht; by apply HT in Ht).
      destruct (inv_registering _ HI1 t d' c' dec g Ht) as (? & Hd & Hno & ?).
      split_and!; [done|cbn; by rewrite lookup_alter_ne| |done].
      intros d'' [[-> ->]|[_ Hc]]%Hsub; [done|by eapply Hno]. }
  destruct decision.1; [done|by apply mg_inv_close|done|done].
Qed.

(** With at most one connection per device no decision is to insert beside
    another. *)
Lemma register_decide_inv d c m : mg_inv m -> (register_decide d c m).1 <> InsertExisting.
Proof.
  intros HI. unfold register_decide. destruct (mg_connections m !! d) as [nested|] eqn:E; [|done].
  destruct (registered_singleton _ _ _ HI E) as (old & -> & _). rewrite elements_singleton. by destruct (should_replace _ _ _).
Qed.

(** A connection that does not exist yet is registered for no device, and is
    not being registered. *)
Lemma fresh_unregistered m d c : mg_inv m -> mg_conns m !! c = None -> ~ registered_at m d c.
Proof. intros HI Hf Hc. apply (inv_device _ HI) in Hc. by rewrite Hf in Hc. Qed.

Lemma fresh_not_registering m c t d dec g :
  mg_inv m -> mg_conns m !! c = None -> mg_tasks m !! t <> Some (Registering d c dec g).
Proof. intros HI Hf Ht. apply (inv_registering _ HI) in Ht as (_ & Ht & _). by rewrite Hf in Ht. Qed.

Lemma mg_inv_new_conn c k m : mg_inv m -> mg_conns m !! c = None -> mg_inv (on_conns <[c := k]> m).
Proof.
  intros HI Hf. assert (forall c' d, mg_conns m !! c' ≫= cn_device = Some d ->
    (<[c := k]> (mg_conns m) !! c') ≫= cn_device = Some d) as Hk.
  { intros c' d Hc. rewrite lookup_insert_ne; [done|]. intros <-. by rewrite Hf in Hc. }
  destruct HI as [H1 H2 H3 H4 H5]. constructor; [done..| |done|].
  - intros d' c' Hc. apply Hk. by apply H3.
  - intros t d' c' dec g Ht. destruct (H5 t d' c' dec g Ht) as (? & Hd & ? & ?). split_and!; [done|by apply Hk|done|done].
Qed.

Lemma register_new_inv d c k m :
  mg_inv m -> mg_conns m !! c = None -> mg_inv (register_connection d c (on_conns <[c := k]> m)).
Proof.
  intros HI Hf. pose proof (mg_inv_new_conn c k m HI Hf) as HI'. apply register_act_inv with (k := k); [done|apply lookup_insert_eq|by apply register_decide_inv|..].
  - intros d' Hc. exfalso. by apply (fresh_unregistered m d' c).
  - intros t d' dec g Ht. by apply (fresh_not_registering m c t d' dec g HI Hf).
Qed.

Lemma register_begins_inv t d c k guarded m :
  mg_inv m -> mg_conns m !! c = None -> cn_device k = Some d ->
  mg_inv (register_begins t d c guarded (on_conns <[c := k]> m)).
Proof.
  intros HI Hf Hd. pose proof (mg_inv_new_conn c k m HI Hf) as HI'. unfold register_begins. set (m1 := on_conns <[c := k]> m) in *.
  pose proof (register_decide_inv d c m1 HI') as Hdec. set (decision := register_decide d c m1) in *.
  assert (forall t' d' dec g, mg_tasks m1 !! t' <> Some (Registering d' c dec g)) as HT.
  { intros t' d' dec g. by apply (fresh_not_registering m). }
  destruct HI' as [H1 H2 H3 H4 H5]. constructor; [done..|by apply map_Forall_insert_2|].
  intros t' d' c' dec g Ht. cbn in Ht. apply lookup_insert_Some in Ht as [[<- [= <- <- <- <-]]|[Nt Ht]].
  - split_and!; [done|cbn; by rewrite lookup_insert_eq| |].
    + intros d'' Hc. by apply (fresh_unregistered m d'' c).
    + intros t2 d2 dec2 g2 Ht2. cbn in Ht2. apply lookup_insert_Some in Ht2 as [[-> _]|[_ Ht2]]; [done|by apply HT in Ht2].
  - destruct (H5 t' d' c' dec g Ht) as (? & ? & ? & Hu). split_and!; [done..|].
    intros t2 d2 dec2 g2 Ht2. cbn in Ht2. apply lookup_insert_Some in Ht2 as [[<- [= <- <- <- <-]]|[_ Ht2]]; [|by eapply Hu].
    by apply HT in Ht.
Qed.

Lemma register_acts_inv t m : mg_inv m -> mg_inv (register_acts t m).
Proof.
  intros HI. unfold register_acts. destruct (mg_tasks m !! t) as [[| |d c decision guarded]|] eqn:Et; [done|done| |done].
  destruct (inv_registering _ HI _ _ _ _ _ Et) as (Hdec & Hd & Hno & Hu).
  destruct (mg_conns m !! c) as [k|] eqn:Hk; [|done].
  assert (mg_inv (register_act d c decision (on_tasks (base.delete t) m))) as HA.
  { apply register_act_inv with (k := k); [by apply mg_inv_untask|done|done| |].
    - intros d' Hc. exfalso. by apply (Hno d').
    - intros t' d' dec g Ht. cbn in Ht. apply lookup_delete_Some in Ht as [Nt Ht]. apply Nt. symmetry. by eapply Hu. }
  destruct guarded; [by apply mg_inv_handshakes|done].
Qed.

Lemma connect_inv d addresses relay_urls m : mg_inv m -> mg_inv (connect_to_with_relay d addresses relay_urls m).
Proof.
  intros HI. unfold connect_to_with_relay.
  match goal with |- context [is_connected ?x d] => assert (mg_inv x) as HX; [|generalize dependent x] end.
  { destruct (decide (relay_urls = [])); auto with manager. }
  intros m' HI'. destruct (is_connected m' d); [done|]. destruct (mg_pending m' !! d); [done|].
  match goal with |- context [begin_handshake d Outgoing ?x] =>
    pose proof (begin_handshake_inv d Outgoing x ltac:(auto with manager)) as HB;
    destruct (begin_handshake d Outgoing x) as [[] m2] end; cbn in HB; [|unfold clear_pending; auto with manager].
  apply mg_inv_task; [|done|done]. cbn. apply Forall_forall. intros a [Ha _]%list_elem_of_filter. done.
Qed.

#[local] Hint Resolve connect_inv disconnect_inv disconnect_connection_inv schedule_reconnect_inv mg_inv_untask : manager.

Lemma cleanup_inv now m : mg_inv m -> mg_inv (cleanup_stale_connections now m).
Proof. intros HI. apply foldl_inv; auto with manager. Qed.

Lemma update_addresses_inv d addresses relay_urls m : mg_inv m -> mg_inv (update_addresses d addresses relay_urls m).
Proof. intros HI. unfold update_addresses. repeat case_decide; auto with manager. Qed.

Lemma redial_device_inv m d : mg_inv m -> mg_inv (redial_device m d).
Proof. intros HI. unfold redial_device. destruct (is_connected m d); [done|]. destruct (_ && _); auto with manager. Qed.

Lemma reconnect_fires_inv t m : mg_inv m -> mg_inv (reconnect_fires t m).
Proof. intros HI. unfold reconnect_fires, clear_pending. destruct (mg_timers m !! t); auto with manager. Qed.

Lemma dial_cancelled_inv t m : mg_inv m -> mg_inv (dial_cancelled t m).
Proof.
  intros HI. unfold dial_cancelled, end_handshake, clear_pending.
  destruct (mg_tasks m !! t) as [[d addresses relay_urls| |]|]; [|done..]. destruct (task_cancelled m t d); auto with manager.
Qed.

Lemma accept_begins_inv d m : mg_inv m -> mg_inv (accept_begins d m).
Proof.
  intros HI. unfold accept_begins. destruct (can_accept_connection m); [|done].
  pose proof (begin_handshake_inv d Incoming m HI). destruct (begin_handshake d Incoming m) as [[] m2]; [|done].
  cbn in *. apply mg_inv_next. by apply mg_inv_task.
Qed.

Lemma accept_registers_inv t conn m :
  (forall c, conn = Some c -> mg_conns m !! c = None) -> mg_inv m -> mg_inv (accept_registers t conn m).
Proof.
  intros Hf HI. unfold accept_registers. destruct (mg_tasks m !! t) as [[|d|]|] eqn:Et; [done| |done..].
  destruct conn as [c|]; [apply register_begins_inv; [auto with manager|by apply Hf|done]|].
  unfold accept_finished, end_handshake. rewrite Et. auto with manager.
Qed.

(** What a dial returns is a connection one of its attempts made. *)
Lemma dial_conn ua hd has_relay now finished (race : list Candidate -> list (Attempt Uuid)) addresses relay_urls scores c scores' :
  dial ua hd has_relay now finished race addresses relay_urls scores = Some (Ok c, scores') ->
  exists ts a rtt, (a, Some (c, rtt)) ∈ race ts.
Proof.
  unfold dial, dial_with_schemes. destruct (_ && _); [done|].
  destruct (direct_candidates None 0 addresses scores) as [cs sc1].
  destruct (relay_candidates ua hd relay_urls sc1) as [[rs sc2]|]; [|done]. cbn.
  match goal with |- context [first_success (race ?ts)] => destruct (first_success (race ts)) as [[[conn x] rtt]|] eqn:E end; [|done].
  intros [= <- <-]. apply first_success_Some in E as (pre & a & rest & E & _). eexists _, a, rtt. rewrite E. set_solver.
Qed.

Lemma dial_registers_inv ua hd t now finished race m :
  (forall ts a c rtt, (a, Some (c, rtt)) ∈ race ts -> mg_conns m !! c = None) ->
  mg_inv m -> mg_inv (dial_registers ua hd t now finished race m).
Proof.
  intros Hf HI. unfold dial_registers. destruct (mg_tasks m !! t) as [[d addresses relay_urls| |]|] eqn:Et; [|done..].
  unfold dial_finished, end_handshake, clear_pending. rewrite Et. cbn [mg_scores on_tasks].
  destruct (dial _ _ _ _ _ _ _ _ _) as [[[c|e] scores']|] eqn:E; [|auto 8 with manager..].
  apply dial_conn in E as (ts & a & rtt & Hin). apply register_begins_inv; [auto with manager|by eapply Hf|done].
Qed.

(** Deciding and acting with nothing in between is the whole task. *)
Lemma register_begins_acts t d c m :
  mg_tasks m !! t = None -> register_acts t (register_begins t d c true m) = end_handshake d (register_connection d c m).
Proof.
  intros Ht. unfold register_acts, register_begins. cbn [mg_tasks on_tasks]. rewrite lookup_insert_eq.
  unfold register_connection. f_equal. f_equal. destruct m. unfold on_tasks. cbn in *. f_equal. by rewrite delete_insert_id.
Qed.

Lemma dial_registers_acts ua hd t now finished race m d addresses relay_urls :
  mg_tasks m !! t = Some (Dialing d addresses relay_urls) ->
  register_acts t (dial_registers ua hd t now finished race m) = dial_finished ua hd t now finished race m.
Proof.
  intros Et. unfold dial_registers. rewrite Et. unfold dial_finished. rewrite Et. cbn [mg_scores on_tasks].
  destruct (dial _ _ _ _ _ _ _ _ _) as [[[c|e] scores']|].
  - rewrite register_begins_acts; [done|]. cbn. apply lookup_delete_eq.
  - unfold register_acts, schedule_reconnect. destruct (_ && _); cbn; by rewrite lookup_delete_eq.
  - unfold register_acts. cbn. by rewrite lookup_delete_eq.
Qed.

Lemma accept_registers_acts t conn m d :
  mg_tasks m !! t = Some (Accepting d) -> register_acts t (accept_registers t conn m) = accept_finished t conn m.
Proof.
  intros Et. unfold accept_registers, accept_finished. rewrite Et. destruct conn as [c|].
  - rewrite register_begins_acts; [done|]. cbn. apply lookup_delete_eq.
  - unfold register_acts. cbn. by rewrite lookup_delete_eq.
Qed.

Lemma mstep_inv ua hd m m' : mstep ua hd m m' -> mg_inv m -> mg_inv m'.
Proof.
  intros HS HI. destruct HS; auto with manager.
  - unfold reconnect_device, clear_pending. auto with manager.
  - by apply update_addresses_inv.
  - by apply reconnect_fires_inv.
  - by apply dial_cancelled_inv.
  - by apply dial_registers_inv.
  - by apply accept_begins_inv.
  - by apply accept_registers_inv.
  - by apply begin_handshake_inv.
  - unfold end_handshake. auto with manager.
  - by apply register_begins_inv; [auto with manager|done|].
  - unfold handle_register_incoming. destruct (cn_device k) eqn:Ed; [by apply register_begins_inv; [auto with manager|done|]|].
    by apply mg_inv_new_conn.
  - by apply register_acts_inv.
  - apply foldl_inv; auto with manager.
  - by apply cleanup_inv.
  - apply foldl_inv; [apply redial_device_inv|by apply cleanup_inv].
  - by apply mg_inv_alter.
Qed.

(** ** Properties *)

(** C22: Whatever happens in whatever order, also between the decision of a
    registration and its act, a device has at most one registered connection
    and a connection at most one device, the index by connection finds it, the
    connection is bound to that device, and no dial task has a multicast,
    unspecified or link-local address in its list of direct addresses, wherever
    they came from.  (Relay addresses are not filtered, and an unregistered
    connection may stay open.) *)
Theorem registry_sound ua hd local max_connections timeout m :
  rtc (mstep ua hd) (manager_new local max_connections timeout) m ->
  (forall d c c', registered_at m d c -> registered_at m d c' -> c = c') /\
  (forall d d' c, registered_at m d c -> registered_at m d' c -> d = d') /\
  (forall d c, registered_at m d c ->
     get_connection_by_id m c = Some c /\ mg_conns m !! c ≫= cn_device = Some d) /\
  (forall t d addresses relay_urls a, mg_tasks m !! t = Some (Dialing d addresses relay_urls) -> a ∈ addresses ->
     is_multicast (sa_ip a) = false /\ is_unspecified (sa_ip a) = false /\
     match sa_ip a with V4 os => v4_link_local os | V6 ss => v6_link_local ss end = false).
Proof.
  intros HR. assert (mg_inv m) as HI.
  { assert (mg_inv (manager_new local max_connections timeout)) as H0
      by (constructor; [done|by intros d c (n & Hn & _)|by intros d c (n & Hn & _)|done|done]).
    induction HR as [|x y z HS _ IH]; [done|]. apply IH. by eapply mstep_inv. }
  split_and!.
  - intros d c c'. by apply registered_single.
  - intros d d' c. by apply registered_device.
  - intros d c Hc. split; [|by apply (inv_device _ HI)]. unfold get_connection_by_id, device_conns.
    rewrite (inv_index _ HI _ _ Hc). cbn. destruct Hc as (nested & -> & Hc). rewrite decide_True; [done|].
    by apply elem_of_elements.
  - intros t d addresses relay_urls a Ht Ha. pose proof (inv_tasks _ HI _ _ Ht) as HF. cbn in HF.
    rewrite Forall_forall in HF. specialize (HF a Ha). unfold validate_outbound_addr in HF.
    destruct (is_multicast _), (is_unspecified _); [done..|]. by apply negb_true_iff in HF.
Qed.

(** *** Simultaneous dials *)


(** The state of connection [c] as the manager sees it. *)
Definition state_of (m : Manager) (c : Uuid) : option ConnectionState := cn_state <$> mg_conns m !! c.









(** *** Where the rules are not kept *)

Lemma get_connection_none m d : mg_connections m !! d = None -> is_connected m d = false.
Proof. intros HN. unfold is_connected, get_connection, device_conns. rewrite HN. by rewrite bool_decide_eq_false_2 by (by intros [? ?]). Qed.

Lemma get_connection_single m d c :
  mg_connections m !! d = Some {[c]} -> is_connected m d = conn_alive m c.
Proof.
  intros HN. unfold is_connected, get_connection, device_conns. rewrite HN, elements_singleton. cbn.
  destruct (conn_alive m c) eqn:E.
  - apply bool_decide_eq_true_2. rewrite decide_True by done. eauto.
  - apply bool_decide_eq_false_2. rewrite decide_False by done. by intros [? ?].
Qed.

Lemma schedule_reconnect_frame d m :
  mg_conns (schedule_reconnect d m) = mg_conns m /\ mg_connections (schedule_reconnect d m) = mg_connections m.
Proof. unfold schedule_reconnect. by destruct (_ && _). Qed.

Lemma registered_tail_connections d c m : mg_connections (registered_tail d c m) = mg_connections m.
Proof. reflexivity. Qed.

Lemma registered_tail_index d c m : mg_index (registered_tail d c m) = <[c := d]> (mg_index m).
Proof. reflexivity. Qed.

Lemma registered_tail_conns d c m : mg_conns (registered_tail d c m) = alter (bind_device d) c (mg_conns m).
Proof. reflexivity. Qed.

(** Disconnecting a device with one connection closes that one. *)
Lemma disconnect_conns d c reason m : mg_connections m !! d = Some {[c]} ->
  mg_conns (disconnect d reason m) = alter close c (mg_conns m).
Proof.
  intros Em. unfold disconnect. rewrite Em, elements_singleton.
  destruct (should_reconnect reason); [rewrite (proj1 (schedule_reconnect_frame _ _))|]; reflexivity.
Qed.

(** The larger device keeps its own dial, says the rule; yet a handshake the
    peer starts late, when that link is registered already, closes it before
    the race is looked at.  When the late handshake then fails (the peer has
    dropped it for the very link that was closed), the device is left with no
    connection, no dial and no scheduled reconnect. *)
Theorem late_handshake_drops_winner m d c k :
  mg_connections m !! d = Some {[c]} -> mg_conns m !! c = Some k -> is_alive k = true -> cn_type k = Outgoing ->
  local_smaller m d = false -> mg_handshakes m !! d = None -> can_accept_connection m = true ->
  let m' := accept_finished (mg_next m) None (accept_begins d m) in
  state_of m' c = Some CsDisconnected /\ is_connected m' d = false /\
  mg_pending m' = mg_pending m /\ mg_timers m' = mg_timers m /\ mg_handshakes m' !! d = None.
Proof.
  intros Hm Hk Ha _ _ Hh Hacc. cbv zeta. unfold accept_begins. rewrite Hacc. unfold begin_handshake.
  assert (conn_alive m c = true) as Hal by (unfold conn_alive; by rewrite Hk).
  unfold replace_connected. rewrite (get_connection_single _ _ _ Hm), Hal.
  unfold device_conns. rewrite Hm, elements_singleton. cbn [foldl]. cbn. rewrite Hh. unfold accept_finished. cbn.
  rewrite lookup_insert_eq. cbn. split.
  - unfold state_of. cbn. by rewrite lookup_alter_eq, Hk.
  - split; [apply get_connection_none; cbn; apply lookup_delete_eq|]. split; [done|]. split; [done|].
    apply lookup_delete_eq.
Qed.

(** A reconnect that becomes due while the device is being dialed cancels that
    dial, and then does not dial itself because the handshake of the dial it
    cancelled is still recorded: once the cancelled task has run, no dial, no
    handshake and no further reconnect is left. *)
Theorem reconnect_cancels_dial m d task timer p addresses relay_urls r :
  mg_connections m !! d = None -> mg_tasks m !! task = Some (Dialing d addresses relay_urls) ->
  mg_pending m !! d = Some p -> mg_handshakes m !! d = Some Outgoing ->
  mg_timers m !! timer = Some r -> pr_device r = d ->
  let m' := dial_cancelled task (reconnect_fires timer m) in
  mg_pending m' !! d = None /\ mg_handshakes m' !! d = None /\ is_connected m' d = false /\
  mg_tasks m' = base.delete task (mg_tasks m) /\ mg_timers m' = base.delete timer (mg_timers m).
Proof.
  intros Hm Ht Hp Hh Hr Hd. cbv zeta. unfold reconnect_fires. rewrite Hr, Hd. unfold connect_to_with_relay.
  match goal with |- context [is_connected ?x d] => set (m1 := x) end.
  assert (mg_connections m1 = mg_connections m /\ mg_tasks m1 = mg_tasks m /\
    mg_pending m1 = base.delete d (mg_pending m) /\ mg_handshakes m1 = mg_handshakes m /\
    mg_timers m1 = base.delete timer (mg_timers m)) as (Ec & Et & Ep & Eh & Etm)
    by (unfold m1; by destruct (decide (pr_relay_urls r = []))).
  rewrite get_connection_none, Ep, lookup_delete_eq by (by rewrite Ec). unfold begin_handshake.
  match goal with |- context [replace_connected d ?x] => assert (replace_connected d x = x) as -> end.
  { unfold replace_connected. rewrite get_connection_none; [done|]. cbn. by rewrite Ec. }
  cbn [mg_handshakes on_pending on_next]. rewrite Eh, Hh. cbn [should_yield_new].
  unfold dial_cancelled. cbn [clear_pending mg_tasks on_pending on_next]. rewrite Et, Ht. unfold task_cancelled.
  cbn. rewrite lookup_delete_eq. cbn. rewrite Et, Etm, Eh.
  split; [apply lookup_delete_eq|]. split; [apply lookup_delete_eq|]. split; [|done].
  apply get_connection_none. cbn. by rewrite Ec.
Qed.

(** Two registrations for one device that decide before either acts: the
    second insertion replaces the first, whose connection stays alive and in
    the index but is found by no lookup and closed by no disconnect. *)
Theorem concurrent_register_leaks m d c1 c2 k1 reason :
  mg_connections m !! d = None -> c1 <> c2 -> mg_conns m !! c1 = Some k1 -> is_alive k1 = true ->
  let m' := register_act d c2 (register_decide d c2 m) (register_act d c1 (register_decide d c1 m) m) in
  mg_connections m' !! d = Some {[c2]} /\ mg_index m' !! c1 = Some d /\ get_connection_by_id m' c1 = None /\
  conn_alive m' c1 = true /\ conn_alive (disconnect d reason m') c1 = true.
Proof.
  intros Hm Hc Hk Ha. cbv zeta. unfold register_decide. rewrite Hm. unfold register_act. cbn [fst snd].
  set (m' := registered_tail d c2 _).
  assert (mg_connections m' !! d = Some {[c2]}) as Em
    by (unfold m'; rewrite registered_tail_connections; apply lookup_insert_eq).
  assert (mg_index m' !! c1 = Some d) as Ei.
  { unfold m'. rewrite registered_tail_index, lookup_insert_ne by done. apply lookup_insert_eq. }
  assert (mg_conns m' !! c1 = Some (bind_device d k1)) as Ek.
  { unfold m'. rewrite registered_tail_conns, lookup_alter_ne by done.
    change (alter (bind_device d) c1 (mg_conns m) !! c1 = Some (bind_device d k1)). by rewrite lookup_alter_eq, Hk. }
  clearbody m'. split; [done|]. split; [done|]. split; [|split].
  - unfold get_connection_by_id, device_conns. rewrite Ei. simpl. rewrite Em, elements_singleton.
    rewrite decide_False; [done|]. set_solver.
  - unfold conn_alive. by rewrite Ek.
  - unfold conn_alive. by rewrite (disconnect_conns _ c2), lookup_alter_ne, Ek by done.
Qed.

(** The periodic cleanup takes a connection that has not carried a message
    yet for a stale one: it is unregistered at once, without being closed. *)
Theorem new_connection_swept m d c k now :
  mg_connections m = {[d := {[c]}]} -> mg_index m !! c = Some d -> mg_conns m !! c = Some k ->
  is_alive k = true -> cn_last_activity k = None ->
  let m' := cleanup_stale_connections now m in
  mg_connections m' = ∅ /\ is_connected m' d = false /\ conn_alive m' c = true.
Proof.
  intros Hm Hi Hk Ha Hl. cbv zeta. unfold cleanup_stale_connections, all_registered.
  rewrite Hm, map_to_list_singleton. cbn [mbind list_bind fst snd]. rewrite elements_singleton. cbn -[filter].
  rewrite filter_cons_True; [|rewrite Hk; unfold is_stale, last_activity_age; rewrite Hl; by rewrite orb_true_r].
  cbn [filter list_filter foldl]. unfold disconnect_connection. rewrite Hi. cbn [on_connections mg_connections].
  change (mg_connections (on_index (base.delete c) m)) with (mg_connections m).
  rewrite Hm, lookup_alter_eq, lookup_singleton_eq. cbn [fmap option_fmap option_map].
  rewrite difference_diag_L, bool_decide_eq_true_2 by done. cbn [negb].
  assert (forall m', mg_connections m' = ∅ -> mg_conns m' = mg_conns m ->
    mg_connections m' = ∅ /\ is_connected m' d = false /\ conn_alive m' c = true) as Hx.
  { intros m' Ec Ek. split; [done|]. split; [apply get_connection_none; by rewrite Ec|].
    unfold conn_alive. by rewrite Ek, Hk. }
  assert (base.delete d (alter (fun nested : gset Uuid => nested ∖ {[c]}) d {[d := {[c]}]}) = (∅ : gmap DeviceId (gset Uuid))) as Ed.
  { apply map_eq. intros d'. destruct (decide (d' = d)) as [-> |N]; [by rewrite lookup_delete_eq|].
    by rewrite lookup_delete_ne, lookup_alter_ne, lookup_singleton_ne by done. }
  apply Hx; (destruct (should_reconnect _); cbn [callback on_callbacks mg_connections mg_conns];
    [rewrite ?(proj1 (schedule_reconnect_frame _ _)), ?(proj2 (schedule_reconnect_frame _ _))|]); cbn; by rewrite ?Hm.
Qed.

(** ** Examples *)

Module Examples.
Definition dev (n : Z) : DeviceId := mkDeviceId [n].
Definition peer : SocketAddr := mkSocketAddr (V4 [192; 168; 0; 7]) 22000.
Definition local_only : SocketAddr := mkSocketAddr (V4 [169; 254; 0; 1]) 22000.
Definition no_alpha (_ : Z) : bool := false.
Definition no_hex (_ : list Z) : option (list Z) := None.
Definition live (t : ConnectionType) : Conn := mkConn t CsProtocolHandshakeComplete None None.
Definition start (n : Z) : Manager := manager_new (dev n) 1000 120_000.
(** A manager that knows two connections, not registered yet. *)
Definition two_conns (n : Z) : Manager :=
  on_conns (fun _ => {[1%positive := live Outgoing; 2%positive := live Incoming]}) (start n).
Definition answers (c : Uuid) (ts : list Candidate) : list (Attempt Uuid) := (fun t => (t, Some (c, 10))) <$> ts.
(** Device 2 has dialed device 1 and registered the connection. *)
Definition connected : Manager :=
  dial_finished no_alpha no_hex 0 0 0 (answers 1%positive)
    (connect_to_with_relay (dev 1) [peer; local_only] [] (start 2)).
(** A reconnect is scheduled, and meanwhile the device is being dialed. *)
Definition dialing : Manager :=
  connect_to_with_relay (dev 1) [peer] [] (schedule_reconnect (dev 1) (update_addresses (dev 1) [peer] [] (start 2))).
End Examples.

Import Examples.

(** The link-local address is not dialed; the dial registers its connection. *)
Example connect_small :
  mg_tasks (connect_to_with_relay (dev 1) [peer; local_only] [] (start 2)) !! 0%nat = Some (Dialing (dev 1) [peer] []) /\
  get_connection connected (dev 1) = Some 1%positive /\ mg_pending connected !! dev 1 = None.
Proof. vm_compute. split_and!; reflexivity. Qed.

Lemma registry_sound_witness : get_connection_by_id connected 1%positive = Some 1%positive.
Proof.
  destruct (registry_sound no_alpha no_hex (dev 2) 1000 120_000 connected) as (_ & _ & H3 & _).
  - eapply rtc_l; [apply (step_connect _ _ _ (dev 1) [peer; local_only] [])|].
    eapply rtc_l; [apply (step_dial _ _ _ 0 0 0 (answers 1%positive))|].
    { intros ts a c rtt (t & [= _ -> _] & _)%list_elem_of_fmap. reflexivity. }
    eapply rtc_l; [apply (step_acts _ _ _ 0)|]. rewrite (dial_registers_acts _ _ _ _ _ _ _ (dev 1) [peer] []) by (vm_compute; reflexivity).
    apply rtc_refl.
  - apply (H3 (dev 1)). exists {[1%positive]}. split; [vm_compute; reflexivity|set_solver].
Defined.


Lemma late_handshake_drops_winner_witness :
  is_connected (accept_finished (mg_next connected) None (accept_begins (dev 1) connected)) (dev 1) = false.
Proof.
  apply (late_handshake_drops_winner connected (dev 1) 1%positive (bind_device (dev 1) (live Outgoing)));
    vm_compute; reflexivity.
Defined.

Lemma reconnect_cancels_dial_witness :
  mg_pending (dial_cancelled 1 (reconnect_fires 0 dialing)) !! dev 1 = None.
Proof.
  apply (reconnect_cancels_dial dialing (dev 1) 1 0 (mkPendingConnection [peer] [] 1) [peer] []
           (mkPendingReconnect (dev 1) [peer] [])); vm_compute; reflexivity.
Defined.

Lemma concurrent_register_leaks_witness :
  get_connection_by_id
    (register_act (dev 1) 2%positive (register_decide (dev 1) 2%positive (two_conns 2))
       (register_act (dev 1) 1%positive (register_decide (dev 1) 1%positive (two_conns 2)) (two_conns 2)))
    1%positive = None.
Proof.
  apply (concurrent_register_leaks (two_conns 2) (dev 1) 1%positive 2%positive (live Outgoing) []);
    [vm_compute; reflexivity|discriminate|reflexivity|reflexivity].
Defined.

Lemma new_connection_swept_witness :
  is_connected (cleanup_stale_connections 5 connected) (dev 1) = false.
Proof.
  apply (new_connection_swept connected (dev 1) 1%positive (bind_device (dev 1) (live Outgoing)) 5);
    vm_compute; reflexivity.
Defined.
