(* ===== verification/Frames.v ===== *)
(** * BEP connections ([crates/syncthing-net/src/connection], [handshaker.rs])

    The framing of messages on a connection: the write task, the read task with
    its timeouts, size limits and bounded channel, the heartbeat, and the task
    that coordinates them; the Hello exchange of both ends.  Protobuf coding of
    the header (prost) and block compression (lz4) are parameters. *)

From S2P Require Import Prelude Core Connection Bep Wire Session.

Definition MAX_BEP_HEADER_SIZE : Z := 64 * 1024.

Definition MAX_BEP_MESSAGE_SIZE : Z := 64 * 1024 * 1024.

(** The capacity of the channel between read task and session. *)
Definition INCOMING_CAPACITY : nat := 256.

Definition MAX_IDLE_TIMEOUTS : Z := 3.

Record Message := mkMessage { msg_header : MessageHeader; msg_payload : list Z }.

(** What arrives at the read half: a byte, or the expiry of the timeout of the
    read that is waiting.  The end of the list is the end of the stream. *)
Inductive Arrival := AByte (b : Z) | AElapsed.

(** [timeout(.., read_half.read_exact(buf))]; bytes read before a timeout are
    in a buffer that is dropped. *)
Inductive ReadOutcome :=
| RdOk (bytes : list Z) (rest : list Arrival)
| RdEof
| RdElapsed (rest : list Arrival).

Fixpoint await_exact (n : nat) (s : list Arrival) : ReadOutcome :=
  match n with
  | O => RdOk [] s
  | S n' =>
      match s with
      | [] => RdEof
      | AElapsed :: s' => RdElapsed s'
      | AByte b :: s' =>
          match await_exact n' s' with
          | RdOk bs rest => RdOk (b :: bs) rest
          | o => o
          end
      end
  end.

Inductive ReadError := ReIo | ReTimeout | ReProtocol.

(** A read whose timeout is an error. *)
Definition read_or_fail (n : nat) (s : list Arrival) : result ReadError (list Z * list Arrival) :=
  match await_exact n s with
  | RdOk bs rest => Ok (bs, rest)
  | RdEof => Err ReIo
  | RdElapsed _ => Err ReTimeout
  end.

(** [inner.stats] and the channel: what the session has taken, what is queued. *)
Record ReadState := mkReadState {
  rd_bytes_received : Z;
  rd_messages_received : Z;
  rd_taken : list (MessageType * list Z);
  rd_queue : list (MessageType * list Z);
}.

Definition read_new : ReadState := mkReadState 0 0 [] [].

Definition note_received (n : Z) (st : ReadState) : ReadState :=
  mkReadState (wrap 64 (rd_bytes_received st + n)) (wrap 64 (rd_messages_received st + 1)) (rd_taken st) (rd_queue st).

(** The session receives [k] messages. *)
Definition session_takes (k : nat) (st : ReadState) : ReadState :=
  mkReadState (rd_bytes_received st) (rd_messages_received st)
    (rd_taken st ++ take k (rd_queue st)) (drop k (rd_queue st)).

(** [incoming_tx.try_send(..)]: a full channel only logs a warning. *)
Definition try_enqueue (msg : MessageType * list Z) (st : ReadState) : ReadState :=
  if (length (rd_queue st) <? INCOMING_CAPACITY)%nat
  then mkReadState (rd_bytes_received st) (rd_messages_received st) (rd_taken st) (rd_queue st ++ [msg])
  else st.

Section Framing.
Context (encode_header : Header -> list Z) (decode_header : list Z -> option Header).
Context (lz4_compress : list Z -> option (list Z)) (lz4_decompress : list Z -> Z -> option (list Z)).

(** ** Writing ([spawn_write_task]) *)

(** The payload as sent; [None] when compression fails. *)
Definition wire_payload (m : Message) : option (list Z) :=
  if mh_compressed (msg_header m) && negb (bool_decide (msg_payload m = [])) then
    let+ compressed := lz4_compress (msg_payload m) in
    Some (put_u32 (wrap 32 (Z.of_nat (length (msg_payload m)))) ++ compressed)
  else Some (msg_payload m).

Definition frame_message (m : Message) : option (list Z) :=
  let hdr_buf := encode_header (to_bep_header (msg_header m)) in
  let+ payload := wire_payload m in
  Some (put_u16 (wrap 16 (Z.of_nat (length hdr_buf))) ++ hdr_buf ++
        put_u32 (wrap 32 (Z.of_nat (length payload))) ++ payload).

(** The loop over the messages taken from the channel: the bytes written, the
    counters [bytes_sent] and [messages_sent], and whether every message was
    written. *)
Fixpoint write_task (ms : list Message) : list Z * Z * Z * bool :=
  match ms with
  | [] => ([], 0, 0, true)
  | m :: rest =>
      match frame_message m with
      | None => ([], 0, 0, false)
      | Some bytes =>
          let '(out, sent, count, ok) := write_task rest in
          (bytes ++ out, wrap 64 (sent + Z.of_nat (length bytes)), wrap 64 (count + 1), ok)
      end
  end.

(** ** Reading ([spawn_read_task]) *)

(** The header, the payload and the rest of the stream, after the two bytes
    of the header length. *)
Definition read_parts (hdr_len_buf : list Z) (s : list Arrival)
    : result ReadError (list Z * list Z * list Arrival) :=
  let hdr_len := be_combine hdr_len_buf in
  if MAX_BEP_HEADER_SIZE <? hdr_len then Err ReProtocol
  else
    let? (hdr_buf, s) := read_or_fail (Z.to_nat hdr_len) s in
    let? (msg_len_buf, s) := read_or_fail 4 s in
    let msg_len := be_combine msg_len_buf in
    if MAX_BEP_MESSAGE_SIZE <? msg_len then Err ReProtocol
    else
      let? (msg_buf, s) := read_or_fail (Z.to_nat msg_len) s in
      Ok (hdr_buf, msg_buf, s).

(** The message a header and a payload stand for.  [uncompressed_size] is cast
    to [i32]. *)
Definition decode_parts (hdr_buf msg_buf : list Z) : result ReadError (MessageType * list Z) :=
  let? bep_header := ok_or (decode_header hdr_buf) ReProtocol in
  let? header := ok_or (from_bep_header bep_header) ReProtocol in
  if mh_compressed header then
    if (length msg_buf <? 4)%nat then Err ReProtocol
    else
      let? payload := ok_or (lz4_decompress (drop 4 msg_buf) (to_signed 32 (be_combine (take 4 msg_buf)))) ReProtocol in
      Ok (mh_type header, payload)
  else Ok (mh_type header, msg_buf).

(** The loop.  [takes] says how many messages the session receives before each
    message is enqueued; the loop only ends with an error, [None] is missing
    fuel. *)
Fixpoint read_task (fuel : nat) (takes : list nat) (idle_timeouts : Z) (st : ReadState) (s : list Arrival)
    : option (ReadError * ReadState) :=
  match fuel with
  | O => None
  | S fuel' =>
      match await_exact 2 s with
      | RdEof => Some (ReIo, st)
      | RdElapsed rest =>
          if MAX_IDLE_TIMEOUTS <=? idle_timeouts + 1 then Some (ReTimeout, st)
          else read_task fuel' takes (idle_timeouts + 1) st rest
      | RdOk hdr_len_buf s =>
          match read_parts hdr_len_buf s with
          | Err e => Some (e, st)
          | Ok (hdr_buf, msg_buf, s) =>
              let st := note_received (2 + Z.of_nat (length hdr_buf) + 4 + Z.of_nat (length msg_buf)) st in
              match decode_parts hdr_buf msg_buf with
              | Err e => Some (e, st)
              | Ok msg =>
                  let st := try_enqueue msg (session_takes (default 0%nat (head takes)) st) in
                  read_task fuel' (tail takes) 0 st s
              end
          end
      end
  end.

Definition read_all (takes : list nat) (s : list Arrival) : option (ReadError * ReadState) :=
  read_task (S (length s)) takes 0 read_new s.
End Framing.

(** ** The tasks of a connection ([BepConnection::run], [close]) *)

(** Which tasks of a connection run, whether the shutdown signal was sent and
    the state others see. *)
Record ConnTasks := mkConnTasks {
  ct_state : ConnectionState;
  ct_shutdown : bool;
  ct_run : bool;
  ct_read : bool;
  ct_write : bool;
  ct_heartbeat : bool;
}.

(** [BepConnection::new], then the set-up of the handshake. *)
Definition tasks_started : ConnTasks := mkConnTasks CsProtocolHandshakeComplete false true true true true.

Definition tasks_close (t : ConnTasks) : ConnTasks :=
  mkConnTasks CsDisconnected true (ct_run t) (ct_read t) (ct_write t) (ct_heartbeat t).

(** [heartbeat_interval * 3] have passed since the last message. *)
Definition heartbeat_expired (now last_pong interval : Z) : bool := interval * 3 <? now - last_pong.

(** The heartbeat task breaks out of its loop when the interval has expired;
    [run] waits for the shutdown signal, the read task or the write task,
    aborts the heartbeat and returns: the handles it drops detach their tasks. *)
Inductive task_moves (t : ConnTasks) : ConnTasks -> Prop :=
| tm_read_ends : ct_read t = true ->
    task_moves t (mkConnTasks (ct_state t) (ct_shutdown t) (ct_run t) false (ct_write t) (ct_heartbeat t))
| tm_write_ends : ct_write t = true ->
    task_moves t (mkConnTasks (ct_state t) (ct_shutdown t) (ct_run t) (ct_read t) false (ct_heartbeat t))
| tm_heartbeat_ends now last_pong interval : ct_heartbeat t = true -> heartbeat_expired now last_pong interval = true ->
    task_moves t (mkConnTasks (ct_state t) (ct_shutdown t) (ct_run t) (ct_read t) (ct_write t) false)
| tm_run_returns : ct_run t = true -> ct_shutdown t = true \/ ct_read t = false \/ ct_write t = false ->
    task_moves t (mkConnTasks (ct_state t) (ct_shutdown t) false (ct_read t) (ct_write t) false).

(** ** The Hello exchange ([handshaker.rs]) *)

(** [now]: the milliseconds since the epoch, zero for an earlier clock. *)
Definition build_hello (device_name : str) (now : Z) : Hello :=
  mkHello device_name ($"syncthing") ($"v2.0.16") 1 now.

Section Handshaker.
Context (encode : Hello -> list Z) (decode : list Z -> option Hello).

Definition server_handshake (device_name : str) (now : Z) : SE (list Z * list Z) HelloError Hello :=
  let! remote_hello := recv_hello decode in
  do! send_hello encode (build_hello device_name now) in
  se_ret remote_hello.

Definition client_handshake (device_name : str) (now : Z) : SE (list Z * list Z) HelloError Hello :=
  do! send_hello encode (build_hello device_name now) in
  let! remote_hello := recv_hello decode in
  se_ret remote_hello.
End Handshaker.

(** ** Lemmas *)

Lemma await_exact_bytes n bs s : length bs = n -> await_exact n ((AByte <$> bs) ++ s) = RdOk bs s.
Proof. intros <-. induction bs as [|b bs IH]; [done|]. cbn. by rewrite IH. Qed.

(** How much of the stream a read uses. *)
Lemma await_exact_length n s :
  match await_exact n s with
  | RdOk bs rest => length bs = n /\ (length rest + n = length s)%nat
  | RdElapsed rest => (length rest < length s)%nat
  | RdEof => True
  end.
Proof.
  revert s. induction n as [|n IH]; intros s; cbn; [split; [done|lia]|].
  destruct s as [|[b|] s]; cbn; [done| |lia]. specialize (IH s).
  destruct (await_exact n s) as [bs rest| |rest]; cbn; [|done|lia]. destruct IH as [<- ?]. split; [done|lia].
Qed.

Lemma read_or_fail_length n s bs rest :
  read_or_fail n s = Ok (bs, rest) -> length bs = n /\ (length rest <= length s)%nat.
Proof.
  unfold read_or_fail. pose proof (await_exact_length n s). destruct (await_exact n s); [|done..].
  intros [= -> ->]. intuition lia.
Qed.

Lemma read_parts_length hb s hdr_buf msg_buf rest :
  read_parts hb s = Ok (hdr_buf, msg_buf, rest) ->
  (length rest <= length s)%nat /\ Z.of_nat (length msg_buf) <= MAX_BEP_MESSAGE_SIZE.
Proof.
  unfold read_parts. destruct (MAX_BEP_HEADER_SIZE <? be_combine hb); [done|].
  destruct (read_or_fail (Z.to_nat (be_combine hb)) s) as [[b1 s1]|] eqn:E1; [|done]. cbn.
  destruct (read_or_fail 4 s1) as [[b2 s2]|] eqn:E2; [|done]. cbn.
  destruct (Z.ltb_spec MAX_BEP_MESSAGE_SIZE (be_combine b2)); [done|].
  destruct (read_or_fail (Z.to_nat (be_combine b2)) s2) as [[b3 s3]|] eqn:E3; [|done]. cbn.
  intros [= <- <- <-]. apply read_or_fail_length in E1, E2, E3. unfold MAX_BEP_MESSAGE_SIZE in *. lia.
Qed.

Section Reading.
Context (encode_header : Header -> list Z) (decode_header : list Z -> option Header).
Context (lz4_compress : list Z -> option (list Z)) (lz4_decompress : list Z -> Z -> option (list Z)).

#[local] Abbreviation reads := (read_task decode_header lz4_decompress).

(** The fuel of [read_all] is enough: every round uses up something of the
    stream. *)
Lemma read_task_returns fuel takes idle st s :
  (length s < fuel)%nat -> exists r, reads fuel takes idle st s = Some r.
Proof.
  revert takes idle st s. induction fuel as [|fuel IH]; intros takes idle st s Hf; [lia|]. cbn [read_task].
  pose proof (await_exact_length 2 s) as Hl. destruct (await_exact 2 s) as [hb s1| |s1]; [|eauto|].
  - destruct (read_parts hb s1) as [[[h p] s2]|] eqn:E; [|eauto]. apply read_parts_length in E as [? _].
    destruct (decode_parts _ _ h p); [|eauto]. apply IH. lia.
  - destruct (MAX_IDLE_TIMEOUTS <=? idle + 1); [eauto|]. apply IH. lia.
Qed.

(** *** What was written is read *)

Context (header_law : forall h, decode_header (encode_header (to_bep_header h)) = Some (to_bep_header h)).
Context (header_small : forall h, Z.of_nat (length (encode_header (to_bep_header h))) < 2 ^ 16).
Context (lz4_law : forall p c, lz4_compress p = Some c -> Z.of_nat (length p) < 2 ^ 31 ->
  lz4_decompress c (Z.of_nat (length p)) = Some p).

(** A message the other end accepts: within the size limit as sent, and not
    compressed when empty. *)
Definition sendable (m : Message) : Prop :=
  exists p, wire_payload lz4_compress m = Some p /\ Z.of_nat (length p) <= MAX_BEP_MESSAGE_SIZE /\
    (mh_compressed (msg_header m) = true -> msg_payload m <> [] /\ Z.of_nat (length (msg_payload m)) < 2 ^ 31).

Definition delivered (m : Message) : MessageType * list Z := (mh_type (msg_header m), msg_payload m).

Lemma header_roundtrip h : from_bep_header (to_bep_header h) = Some (mkMessageHeader (mh_type h) 0 (mh_compressed h)).
Proof. destruct h as [t i c]. by destruct t, c. Qed.

Lemma decode_sent m p : sendable m -> wire_payload lz4_compress m = Some p ->
  decode_parts decode_header lz4_decompress (encode_header (to_bep_header (msg_header m))) p = Ok (delivered m).
Proof.
  intros (p' & Ep & _ & Hc) Ep'. assert (p' = p) as -> by congruence. unfold decode_parts.
  rewrite header_law. cbn [ok_or result_bind]. rewrite header_roundtrip. cbn [ok_or result_bind mh_compressed mh_type].
  unfold wire_payload in Ep.
  destruct (mh_compressed (msg_header m)) eqn:Em; cbn [andb] in Ep; [|by injection Ep as <-].
  destruct (Hc eq_refl) as [Hne Hlt]. rewrite bool_decide_eq_false_2 in Ep by done. cbn [negb] in Ep.
  destruct (lz4_compress (msg_payload m)) as [c|] eqn:El; [|done]. cbn [mbind option_bind] in Ep.
  apply (inj Some) in Ep. rewrite <-Ep.
  assert (in_u 32 (Z.of_nat (length (msg_payload m)))) as Hu by (unfold in_u; lia).
  rewrite length_app, length_put_u32. rewrite wrap_id by done. cbn [Nat.ltb Nat.leb Nat.add].
  rewrite take_app_length', drop_app_length' by (by rewrite length_put_u32).
  unfold put_u32. rewrite be_combine_split_id by done. rewrite to_signed_id by (unfold in_i; lia).
  rewrite (lz4_law _ c) by done. done.
Qed.

Lemma read_written m bytes s : sendable m -> frame_message encode_header lz4_compress m = Some bytes ->
  exists hb s1 p,
    await_exact 2 ((AByte <$> bytes) ++ s) = RdOk hb s1 /\
    read_parts hb s1 = Ok (encode_header (to_bep_header (msg_header m)), p, s) /\
    wire_payload lz4_compress m = Some p /\
    2 + Z.of_nat (length (encode_header (to_bep_header (msg_header m)))) + 4 + Z.of_nat (length p) = Z.of_nat (length bytes).
Proof.
  intros (p & Ep & Hp & _). unfold frame_message. rewrite Ep. cbn [mbind option_bind].
  intros Eb. apply (inj Some) in Eb. rewrite <-Eb. clear Eb bytes.
  set (h := encode_header (to_bep_header (msg_header m))).
  assert (in_u 16 (Z.of_nat (length h))) as Hh by (split; [lia|apply header_small]).
  assert (in_u 32 (Z.of_nat (length p))) as Hl by (unfold in_u, MAX_BEP_MESSAGE_SIZE in *; lia).
  rewrite !wrap_id by done.
  exists (put_u16 (Z.of_nat (length h))), ((AByte <$> h ++ put_u32 (Z.of_nat (length p)) ++ p) ++ s), p.
  split; [|split; [|split]].
  - rewrite fmap_app, <-app_assoc. apply await_exact_bytes, length_put_u16.
  - unfold read_parts, read_or_fail, put_u16. rewrite be_combine_split_id by done.
    replace (MAX_BEP_HEADER_SIZE <? Z.of_nat (length h)) with false
      by (symmetry; apply Z.ltb_ge; unfold in_u, MAX_BEP_HEADER_SIZE in *; lia).
    rewrite !fmap_app, <-!app_assoc, Nat2Z.id, await_exact_bytes by done. cbn [result_bind].
    rewrite await_exact_bytes by apply length_put_u32. cbn [result_bind]. unfold put_u32.
    rewrite be_combine_split_id by done.
    replace (MAX_BEP_MESSAGE_SIZE <? Z.of_nat (length p)) with false by (symmetry; apply Z.ltb_ge; lia).
    rewrite Nat2Z.id, await_exact_bytes by done. done.
  - done.
  - rewrite !length_app, length_put_u16, length_put_u32. lia.
Qed.

(** The channel never overflows: [q] messages are queued when the next of [n]
    arrives. *)
Fixpoint keeps_up (q : nat) (takes : list nat) (n : nat) : Prop :=
  match n with
  | O => True
  | S n' =>
      let q' := (q - default 0%nat (head takes))%nat in
      (q' < INCOMING_CAPACITY)%nat /\ keeps_up (S q') (tail takes) n'
  end.

Lemma write_task_cons m ms out sent count :
  write_task encode_header lz4_compress (m :: ms) = (out, sent, count, true) ->
  exists bytes out' sent' count', frame_message encode_header lz4_compress m = Some bytes /\
    write_task encode_header lz4_compress ms = (out', sent', count', true) /\
    out = bytes ++ out' /\ sent = wrap 64 (sent' + Z.of_nat (length bytes)) /\ count = wrap 64 (count' + 1).
Proof.
  cbn. destruct (frame_message _ _ m) as [bytes|]; [|done].
  destruct (write_task _ _ ms) as [[[out' sent'] count'] ok]. intros [= <- <- <- ->]. eauto 10.
Qed.

Lemma wrap_add_l w a b : wrap w (wrap w a + b) = wrap w (a + b).
Proof. unfold wrap. apply Zplus_mod_idemp_l. Qed.

Lemma read_task_written ms fuel takes idle st out sent count :
  Forall sendable ms -> write_task encode_header lz4_compress ms = (out, sent, count, true) ->
  keeps_up (length (rd_queue st)) takes (length ms) -> (length out < fuel)%nat ->
  in_u 64 (rd_bytes_received st) -> in_u 64 (rd_messages_received st) ->
  exists st', reads fuel takes idle st (AByte <$> out) = Some (ReIo, st') /\
    rd_taken st' ++ rd_queue st' = rd_taken st ++ rd_queue st ++ (delivered <$> ms) /\
    rd_bytes_received st' = wrap 64 (rd_bytes_received st + sent) /\
    rd_messages_received st' = wrap 64 (rd_messages_received st + count).
Proof.
  revert fuel takes idle st out sent count. induction ms as [|m ms IH]; intros fuel takes idle st out sent count HF HW HK Hf Hb Hm.
  { cbn in HW. injection HW as <- <- <-. destruct fuel as [|fuel]; [lia|]. exists st. cbn.
    by rewrite app_nil_r, !Z.add_0_r, !wrap_id. }
  apply Forall_cons in HF as [Hs HF].
  apply write_task_cons in HW as (bytes & out' & sent' & count' & Ew & HW & -> & -> & ->).
  destruct (read_written m bytes (AByte <$> out') Hs Ew) as (hb & s1 & p & E1 & E2 & E3 & El).
  destruct HK as [Hq HK]. destruct fuel as [|fuel]; [lia|]. cbn [read_task]. rewrite fmap_app, E1, E2, (decode_sent m p) by done.
  rewrite El. set (st1 := session_takes _ (note_received _ st)).
  assert (length (rd_queue st1) = (length (rd_queue st) - default 0%nat (head takes))%nat) as Eq
    by (unfold st1, session_takes; cbn; apply length_drop).
  set (st2 := mkReadState (rd_bytes_received st1) (rd_messages_received st1) (rd_taken st1) (rd_queue st1 ++ [delivered m])).
  assert (try_enqueue (delivered m) st1 = st2) as ->.
  { unfold try_enqueue. by rewrite (proj2 (Nat.ltb_lt _ _)) by (rewrite Eq; exact Hq). }
  assert (1 <= length bytes)%nat by lia. rewrite length_app in Hf.
  destruct (IH fuel (tail takes) 0 st2 out' sent' count' HF HW) as (st' & -> & Ht & Hbb & Hmm).
  - unfold st2. cbn [rd_queue]. rewrite length_app, Eq. cbn [length]. by rewrite Nat.add_1_r.
  - lia.
  - by apply wrap_range.
  - by apply wrap_range.
  - exists st'. split; [reflexivity|]. split.
    + rewrite Ht. unfold st2, st1, session_takes, note_received. cbn [rd_taken rd_queue].
      rewrite fmap_cons, <-!app_assoc. f_equal. by rewrite app_assoc, take_drop.
    + rewrite Hbb, Hmm. unfold st2, st1, session_takes, note_received. cbn [rd_bytes_received rd_messages_received].
      rewrite !wrap_add_l. split; unfold wrap; rewrite Zplus_mod_idemp_r; f_equal; lia.
Qed.

(** C28: What one end writes the other reads: every message, with its type and its
    payload, in order and none else, compressed or not; the counters of the two
    ends agree; and the loop ends with the end of the stream.  The messages are
    such as the reader accepts (within the size limit, none both empty and
    compressed), the session takes them before the channel is full, and no read
    times out inside the stream. *)
Theorem bep_stream_roundtrip ms takes out sent count :
  Forall sendable ms -> write_task encode_header lz4_compress ms = (out, sent, count, true) ->
  keeps_up 0 takes (length ms) ->
  exists st, read_all decode_header lz4_decompress takes (AByte <$> out) = Some (ReIo, st) /\
    rd_taken st ++ rd_queue st = delivered <$> ms /\
    rd_bytes_received st = wrap 64 sent /\ rd_messages_received st = wrap 64 count.
Proof.
  intros HF HW HK. unfold read_all.
  destruct (read_task_written ms (S (length (AByte <$> out))) takes 0 read_new out sent count) as (st & E & H1 & H2 & H3);
    [done..|rewrite length_fmap; lia|done|done|]. by exists st.
Qed.

(** A message that arrives when the channel is full is counted and dropped;
    reading goes on behind it. *)
Theorem full_channel_drops fuel takes idle st m bytes s :
  sendable m -> frame_message encode_header lz4_compress m = Some bytes ->
  length (rd_queue st) = INCOMING_CAPACITY ->
  reads (S fuel) (0%nat :: takes) idle st ((AByte <$> bytes) ++ s) =
  reads fuel takes 0 (note_received (Z.of_nat (length bytes)) st) s.
Proof.
  intros Hs Hw Hq. destruct (read_written m bytes s Hs Hw) as (hb & s1 & p & E1 & E2 & E3 & El).
  cbn [read_task]. rewrite E1, E2, (decode_sent m p), El by done. cbn [head tail default from_option].
  unfold session_takes. rewrite take_0, drop_0, app_nil_r. unfold try_enqueue. cbn [rd_queue note_received].
  by rewrite Hq, Nat.ltb_irrefl.
Qed.

(** An empty message marked as compressed is sent without the length prefix
    the reader asks of compressed messages: it ends the peer's read task. *)
Theorem empty_compressed_rejected fuel takes idle st m bytes s :
  msg_payload m = [] -> mh_compressed (msg_header m) = true ->
  frame_message encode_header lz4_compress m = Some bytes ->
  exists st', reads (S fuel) takes idle st ((AByte <$> bytes) ++ s) = Some (ReProtocol, st').
Proof.
  intros Hp Hc Hw. assert (wire_payload lz4_compress m = Some []) as Ew.
  { unfold wire_payload. by rewrite Hp, andb_false_r. }
  set (h := encode_header (to_bep_header (msg_header m))).
  assert (in_u 16 (Z.of_nat (length h))) as Hh by (split; [lia|apply header_small]).
  unfold frame_message in Hw. fold h in Hw. rewrite Ew in Hw. cbn [mbind option_bind length] in Hw.
  apply (inj Some) in Hw. rewrite <-Hw, wrap_id by done. cbn [read_task].
  rewrite fmap_app, <-app_assoc, await_exact_bytes by apply length_put_u16.
  unfold read_parts, read_or_fail, put_u16. rewrite be_combine_split_id by done.
  replace (MAX_BEP_HEADER_SIZE <? Z.of_nat (length h)) with false
    by (symmetry; apply Z.ltb_ge; unfold in_u, MAX_BEP_HEADER_SIZE in *; lia).
  rewrite fmap_app, <-app_assoc, Nat2Z.id, await_exact_bytes by done. cbn [result_bind]. rewrite app_nil_r.
  rewrite await_exact_bytes by apply length_put_u32. cbn [result_bind].
  replace (be_combine (put_u32 (wrap 32 (Z.of_nat 0)))) with 0 by (vm_compute; reflexivity).
  replace (MAX_BEP_MESSAGE_SIZE <? 0) with false by reflexivity.
  change (Z.to_nat 0) with 0%nat. cbn [await_exact result_bind].
  unfold decode_parts, h. rewrite header_law. cbn [ok_or result_bind]. rewrite header_roundtrip.
  cbn [ok_or result_bind mh_compressed]. rewrite Hc. eexists. reflexivity.
Qed.

(** A timeout that expires between the two bytes of a header length is taken
    for idleness: the byte already read is lost and the next one is taken for
    the first of a new frame. *)
Theorem elapsed_loses_byte fuel takes idle st b s :
  idle + 1 < MAX_IDLE_TIMEOUTS ->
  reads (S fuel) takes idle st (AByte b :: AElapsed :: s) = reads fuel takes (idle + 1) st s.
Proof. intros Hi. cbn [read_task await_exact]. by rewrite (proj2 (Z.leb_gt _ _)) by lia. Qed.

(** *** Every stream *)

Lemma try_enqueue_bound msg st : (length (rd_queue st) <= INCOMING_CAPACITY)%nat ->
  (length (rd_queue (try_enqueue msg st)) <= INCOMING_CAPACITY)%nat.
Proof.
  intros HQ. unfold try_enqueue. destruct (Nat.ltb_spec (length (rd_queue st)) INCOMING_CAPACITY); [|done].
  cbn [rd_queue]. rewrite length_app. cbn [length]. lia.
Qed.

Lemma read_task_bound fuel takes idle st s r :
  (length (rd_queue st) <= INCOMING_CAPACITY)%nat -> reads fuel takes idle st s = Some r ->
  (length (rd_queue r.2) <= INCOMING_CAPACITY)%nat.
Proof.
  revert takes idle st s. induction fuel as [|fuel IH]; intros takes idle st s HQ; [done|]. cbn [read_task].
  destruct (await_exact 2 s) as [hb s1| |s1].
  - destruct (read_parts hb s1) as [[[h p] s2]|]; [|by intros [= <-]].
    destruct (decode_parts _ _ h p); [|by intros [= <-]]. apply IH, try_enqueue_bound.
    unfold session_takes. cbn [rd_queue note_received]. rewrite length_drop. lia.
  - by intros [= <-].
  - destruct (MAX_IDLE_TIMEOUTS <=? idle + 1); [by intros [= <-]|]. by apply IH.
Qed.

(** Whatever arrives, well-formed or not and with whatever pauses, the read
    task ends when the stream does, with an error, and never holds more
    messages than the channel takes. *)
Theorem read_all_total takes s :
  exists e st, read_all decode_header lz4_decompress takes s = Some (e, st) /\
    (length (rd_queue st) <= INCOMING_CAPACITY)%nat.
Proof.
  destruct (read_task_returns (S (length s)) takes 0 read_new s) as [[e st] E]; [lia|].
  exists e, st. split; [exact E|]. eapply (read_task_bound _ takes 0 read_new s (e, st)); [apply Nat.le_0_l|exact E].
Qed.
End Reading.

(** ** The tasks of a connection *)

Lemma task_moves_state t t' : task_moves t t' -> ct_state t' = ct_state t.
Proof. by intros []. Qed.

(** No task of a connection changes its state: after a missed heartbeat, and
    after the read task has failed and [run] has returned, the connection still
    counts as alive; only [close] changes that. *)
Theorem dead_connection_looks_alive t :
  rtc task_moves tasks_started t -> cs_is_active (ct_state t) = true.
Proof.
  intros HR. enough (ct_state t = ct_state tasks_started) as -> by done.
  induction HR as [|x y z HS _ IH]; [done|]. rewrite IH. by eapply task_moves_state.
Qed.

(** Closing a connection does not end its tasks: [run] returns on the signal
    and its read and write tasks go on. *)
Theorem close_leaves_tasks t :
  ct_run t = true -> ct_read t = true -> ct_write t = true ->
  task_moves (tasks_close t) (mkConnTasks CsDisconnected true false true true false) /\
  forall t', task_moves (mkConnTasks CsDisconnected true false true true false) t' ->
    ct_read t' = true \/ ct_write t' = true.
Proof.
  intros Hr Hd Hw. split.
  - replace (mkConnTasks CsDisconnected true false true true false)
      with (mkConnTasks (ct_state (tasks_close t)) (ct_shutdown (tasks_close t)) false
              (ct_read (tasks_close t)) (ct_write (tasks_close t)) false) by (unfold tasks_close; cbn; by rewrite Hd, Hw).
    apply tm_run_returns; [done|by left].
  - intros t' HM. inversion HM; cbn in *; eauto.
Qed.

(** ** The Hello exchange *)

(** The two ends of a connection complete the exchange with each other: each
    learns the other's name, and the bytes that follow stay in the streams. *)
Theorem handshake_pair encode decode nc tc ns ts rest rest' :
  let hc := build_hello nc tc in
  let hs := build_hello ns ts in
  (length (encode hc) <= MAX_HELLO_SIZE)%nat -> (length (encode hs) <= MAX_HELLO_SIZE)%nat ->
  decode (encode hc) = Some hc -> decode (encode hs) = Some hs ->
  exists out_s,
    server_handshake encode decode ns ts (hello_frame encode hc ++ rest, []) = (Ok hc, (rest, out_s)) /\
    client_handshake encode decode nc tc (out_s ++ rest', []) = (Ok hs, (rest', hello_frame encode hc)).
Proof.
  intros hc hs Lc Ls Dc Ds. unfold server_handshake, client_handshake. fold hc hs.
  erewrite (se_bind_run (recv_hello decode)) by by apply recv_hello_frame.
  erewrite se_bind_run by by apply send_hello_frame. cbn [se_ret]. eexists. split; [done|].
  erewrite se_bind_run by by apply send_hello_frame.
  erewrite se_bind_run by by apply recv_hello_frame. done.
Qed.

(** ** Examples *)

Module Examples.
(** Stand-ins for protobuf and lz4 that satisfy the laws. *)
Definition plain : MessageHeader := mkMessageHeader MtPing 0 false.
Definition packed : MessageHeader := mkMessageHeader MtIndex 0 true.
Definition ping_msg : Message := mkMessage plain [].
Definition index : Message := mkMessage packed [7; 7; 8].
Definition enc_small (h : Header) : list Z := [header_type h; header_compression h].
Definition dec_small (bs : list Z) : option Header :=
  match bs with [t; c] => Some (mkHeader t c) | _ => None end.
Definition pack (p : list Z) : option (list Z) := Some p.
Definition unpack (c : list Z) (n : Z) : option (list Z) := if Z.of_nat (length c) =? n then Some c else None.
Lemma small_law h : dec_small (enc_small (to_bep_header h)) = Some (to_bep_header h).
Proof. done. Qed.
Lemma small_size h : Z.of_nat (length (enc_small (to_bep_header h))) < 2 ^ 16.
Proof. done. Qed.
Lemma unpack_pack p c : pack p = Some c -> Z.of_nat (length p) < 2 ^ 31 -> unpack c (Z.of_nat (length p)) = Some p.
Proof. intros [= <-] _. unfold unpack. by rewrite Z.eqb_refl. Qed.
Lemma index_sendable : sendable pack index.
Proof. exists [0; 0; 0; 3; 7; 7; 8]. split; [reflexivity|]. split; [vm_compute; discriminate|]. intros _. split; [discriminate|reflexivity]. Qed.
Lemma ping_sendable : sendable pack ping_msg.
Proof. exists []. split; [reflexivity|]. split; [vm_compute; discriminate|]. discriminate. Qed.
Definition full : ReadState := mkReadState 0 0 [] (replicate 256 (MtPing, [])).
End Examples.

Import Examples.

Lemma bep_stream_roundtrip_witness :
  exists st, read_all dec_small unpack [] (AByte <$> [0; 2; 1; 1; 0; 0; 0; 7; 0; 0; 0; 3; 7; 7; 8; 0; 2; 6; 0; 0; 0; 0; 0]) =
    Some (ReIo, st) /\ rd_queue st = [(MtIndex, [7; 7; 8]); (MtPing, [])].
Proof.
  destruct (bep_stream_roundtrip enc_small dec_small pack unpack small_law small_size unpack_pack
              [index; ping_msg] [] [0; 2; 1; 1; 0; 0; 0; 7; 0; 0; 0; 3; 7; 7; 8; 0; 2; 6; 0; 0; 0; 0; 0] 23 2)
    as (st & E & H1 & _).
  - constructor; [apply index_sendable|]. constructor; [apply ping_sendable|constructor].
  - vm_compute. reflexivity.
  - vm_compute. split; [lia|]. split; [lia|done].
  - exists st. split; [exact E|]. vm_compute in E. injection E as <-. reflexivity.
Defined.

Lemma full_channel_drops_witness :
  read_task dec_small unpack 2 [0%nat] 0 full (AByte <$> [0; 2; 6; 0; 0; 0; 0; 0]) =
  Some (ReIo, note_received 8 full).
Proof.
  pose proof (full_channel_drops enc_small dec_small pack unpack small_law small_size unpack_pack
    1 [] 0 full ping_msg [0; 2; 6; 0; 0; 0; 0; 0] [] ping_sendable eq_refl eq_refl) as E.
  rewrite app_nil_r in E. rewrite E. reflexivity.
Defined.

Lemma empty_compressed_rejected_witness :
  exists st', read_task dec_small unpack 1 [] 0 read_new (AByte <$> [0; 2; 1; 1; 0; 0; 0; 0]) = Some (ReProtocol, st').
Proof.
  destruct (empty_compressed_rejected enc_small dec_small pack unpack small_law small_size
    0 [] 0 read_new (mkMessage packed []) [0; 2; 1; 1; 0; 0; 0; 0] [] eq_refl eq_refl eq_refl) as [st' E].
  rewrite app_nil_r in E. by exists st'.
Defined.

(** The frame of a ping, delivered with a pause after its first byte, is not
    understood any more. *)
Lemma elapsed_loses_byte_witness :
  read_task dec_small unpack 3 [] 0 read_new (AByte 0 :: AElapsed :: (AByte <$> [2; 6; 0; 0; 0; 0; 0])) = Some (ReIo, read_new).
Proof. rewrite (elapsed_loses_byte dec_small unpack 2 [] 0 read_new 0) by reflexivity. vm_compute. reflexivity. Defined.

Lemma dead_connection_looks_alive_witness :
  cs_is_active (ct_state (mkConnTasks CsProtocolHandshakeComplete false false false true false)) = true.
Proof.
  apply (dead_connection_looks_alive (mkConnTasks CsProtocolHandshakeComplete false false false true false)).
  eapply rtc_l; [apply tm_read_ends; reflexivity|]. eapply rtc_l; [apply tm_run_returns; [reflexivity|cbn; auto]|].
  apply rtc_refl.
Defined.

Lemma close_leaves_tasks_witness :
  task_moves (tasks_close tasks_started) (mkConnTasks CsDisconnected true false true true false).
Proof. apply (close_leaves_tasks tasks_started); reflexivity. Defined.

Lemma handshake_pair_witness :
  exists out_s, server_handshake (fun _ => [1; 2]) (fun _ => Some (build_hello ($"a") 0)) ($"a") 0
    ([46; 167; 217; 11; 0; 2; 1; 2] ++ [9], []) = (Ok (build_hello ($"a") 0), ([9], out_s)).
Proof.
  destruct (handshake_pair (fun _ => [1; 2]) (fun _ => Some (build_hello ($"a") 0)) ($"a") 0 ($"a") 0 [9] [])
    as (out_s & E & _); [vm_compute; lia|vm_compute; lia|reflexivity|reflexivity|]. by exists out_s.
Defined.
