(* ===== verification/Config.v ===== *)
(** * Errors, configuration and its validation

    The error type of the program ([crates/syncthing-core/src/error.rs]; the
    message texts, which are only displayed, are left out), the configuration
    ([types/mod.rs], [constants.rs]), the checks shared by the REST API and the
    terminal interface ([crates/syncthing-core/src/validation.rs]) and the check
    of the whole configuration at startup
    ([cmd/syncthing/src/config_validation.rs]).  The Unicode tables and the
    [hex] crate are parameters, as in [DeviceIds]; [None] is a panic of the
    device ID parser. *)

From S2P Require Import Prelude Core DeviceIds Connection Bep Wire Net Relay.

(** ** [SyncthingError] *)

(** Which check of [validation.rs] failed. *)
Inductive ValidationReason :=
| FolderIdEmpty | FolderIdTooLong | FolderIdCharacters
| DeviceIdEmpty | DeviceIdInvalid (e : DeviceIdError)
| PathEmpty | PathParent | LocalDevice | DuplicatePath (folder : str).

Inductive SyncthingError :=
| EIo | ETls | ERustls | EConnection | EHandshake | EProtocol | EConfig | EDeviceId
| ESerialization | EParse | ETimeout | EDeviceNotFound | EConnectionClosed | EStorage
| EInternal | ENetwork | EValidation (reason : ValidationReason) | EOther.

Definition is_temporary (e : SyncthingError) : bool :=
  match e with
  | EIo | EConnection | ETimeout | EConnectionClosed => true
  | _ => false
  end.

Definition is_fatal (e : SyncthingError) : bool := negb (is_temporary e).

(** ** The configuration *)

Definition DEFAULT_LISTEN_ADDR : str := $"0.0.0.0:22001".
Definition DEFAULT_GUI_ADDR : str := $"127.0.0.1:8385".
Definition DEFAULT_DEVICE_NAME : str := $"syncthing-rust".
Definition DEFAULT_SCAN_INTERVAL_SECS : Z := 3600.

Record GuiConfig := mkGuiConfig {
  gui_enabled : bool;
  gui_address : str;
  gui_api_key : str;
  gui_ro_api_key : str;
}.

Definition gui_default : GuiConfig := mkGuiConfig true DEFAULT_GUI_ADDR [] [].

Record Options := mkOptions {
  listen_addresses : list str;
  global_announce_enabled : bool;
  local_announce_enabled : bool;
  relays_enabled : bool;
  opt_transports : list str;
}.

(** [#[derive(Default)]] *)
Definition options_default : Options := mkOptions [] false false false [].

Record Device := mkDevice {
  dev_id : DeviceId;
  dev_name : option str;
  dev_addresses : list AddressType;
  dev_paused : bool;
  dev_introducer : bool;
}.

Record Config := mkConfig {
  cfg_version : Z;
  cfg_listen_addr : str;
  cfg_device_name : str;
  cfg_folders : list Folder;
  cfg_devices : list Device;
  cfg_local_device_id : option DeviceId;
  cfg_gui : GuiConfig;
  cfg_options : Options;
}.

Definition config_new : Config :=
  mkConfig 1 DEFAULT_LISTEN_ADDR DEFAULT_DEVICE_NAME [] [] None gui_default options_default.

Definition set_folders (c : Config) (fs : list Folder) : Config :=
  mkConfig (cfg_version c) (cfg_listen_addr c) (cfg_device_name c) fs (cfg_devices c)
    (cfg_local_device_id c) (cfg_gui c) (cfg_options c).

Definition set_devices (c : Config) (ds : list Device) : Config :=
  mkConfig (cfg_version c) (cfg_listen_addr c) (cfg_device_name c) (cfg_folders c) ds
    (cfg_local_device_id c) (cfg_gui c) (cfg_options c).

Definition set_version (c : Config) (v : Z) : Config :=
  mkConfig v (cfg_listen_addr c) (cfg_device_name c) (cfg_folders c) (cfg_devices c)
    (cfg_local_device_id c) (cfg_gui c) (cfg_options c).

(** ** The checks *)

Section Validation.
Context (unicode_alphanumeric : Z -> bool) (hex_decode : chars -> option (list Z)).

Definition parse_id (id : str) : option (result DeviceIdError DeviceId) :=
  device_id_from_str unicode_alphanumeric hex_decode (chars_of id).

Definition folder_id_char (c : Z) : bool :=
  is_alphanumeric unicode_alphanumeric c || (c =? 45) || (c =? 95).

Definition validate_folder_id (id : str) : result SyncthingError unit :=
  if decide (id = []) then Err (EValidation FolderIdEmpty)
  else if 64 <? Z.of_nat (length id) then Err (EValidation FolderIdTooLong)
  else if negb (forallb folder_id_char (chars_of id)) then Err (EValidation FolderIdCharacters)
  else Ok tt.

Definition validate_device_id (id : str) : option (result SyncthingError unit) :=
  if decide (id = []) then Some (Err (EValidation DeviceIdEmpty))
  else
    let+ r := parse_id id in
    Some match r with
         | Err e => Err (EValidation (DeviceIdInvalid e))
         | Ok _ => Ok tt
         end.

Definition validate_path (path : str) : result SyncthingError unit :=
  if decide (path = []) then Err (EValidation PathEmpty)
  else if contains_sub ($"..") path then Err (EValidation PathParent)
  else Ok tt.

Definition validate_device_id_not_local (id : str) (local : DeviceId) : option (result SyncthingError unit) :=
  let+ r := parse_id id in
  Some match r with
       | Ok device_id => if decide (device_id = local) then Err (EValidation LocalDevice) else Ok tt
       | Err _ => Ok tt
       end.

Fixpoint validate_no_duplicate_folder_paths (folders : list Folder) (new_path : str)
  (excluding_id : option str) : result SyncthingError unit :=
  match folders with
  | [] => Ok tt
  | folder :: rest =>
      if decide (Some (folder_id folder) = excluding_id) then
        validate_no_duplicate_folder_paths rest new_path excluding_id
      else if decide (folder_path folder = new_path) then Err (EValidation (DuplicatePath (folder_id folder)))
      else validate_no_duplicate_folder_paths rest new_path excluding_id
  end.

(** ** The startup check *)

Inductive ConfigProblem :=
| BadLocalDeviceId | BadDeviceId | DuplicateDevice (id : DeviceId) | BadTcpAddress (addr : str)
| EmptyRelayAddress | BadQuicAddress (addr : str) | EmptyFolderId | FolderPathMissing (path : str)
| FolderPathNotDir (path : str) | BadListenAddr.

(** What the file system says of a path. *)
Record PathEnv := mkPathEnv { path_exists : str -> bool; path_is_dir : str -> bool }.

(** [DeviceId::from_str(&id.to_string())] *)
Definition reparse_id (id : DeviceId) : option (result DeviceIdError DeviceId) :=
  let+ text := device_id_to_string id in
  device_id_from_str unicode_alphanumeric hex_decode text.

Definition check_address (a : AddressType) : result ConfigProblem unit :=
  match a with
  | Tcp s => if bool_decide (is_Some (parse_socket_addr s)) then Ok tt else Err (BadTcpAddress s)
  | Relay s => if decide (s = []) then Err EmptyRelayAddress else Ok tt
  | Quic s => if bool_decide (is_Some (parse_socket_addr s)) then Ok tt else Err (BadQuicAddress s)
  | Dynamic => Ok tt
  end.

Fixpoint check_addresses (addrs : list AddressType) : result ConfigProblem unit :=
  match addrs with
  | [] => Ok tt
  | a :: rest => let? _ := check_address a in check_addresses rest
  end.

Fixpoint check_devices (seen : gset DeviceId) (devices : list Device) : option (result ConfigProblem unit) :=
  match devices with
  | [] => Some (Ok tt)
  | d :: rest =>
      let+ r := reparse_id (dev_id d) in
      match r with
      | Err _ => Some (Err BadDeviceId)
      | Ok _ =>
          if decide (dev_id d ∈ seen) then Some (Err (DuplicateDevice (dev_id d)))
          else match check_addresses (dev_addresses d) with
               | Err e => Some (Err e)
               | Ok _ => check_devices ({[dev_id d]} ∪ seen) rest
               end
      end
  end.

Fixpoint check_folders (env : PathEnv) (check_folder_paths : bool) (folders : list Folder)
  : result ConfigProblem unit :=
  match folders with
  | [] => Ok tt
  | f :: rest =>
      if decide (folder_id f = []) then Err EmptyFolderId
      else if check_folder_paths && negb (path_exists env (folder_path f))
      then Err (FolderPathMissing (folder_path f))
      else if check_folder_paths && negb (path_is_dir env (folder_path f))
      then Err (FolderPathNotDir (folder_path f))
      else check_folders env check_folder_paths rest
  end.

Definition validate_config_internal (env : PathEnv) (config : Config) (check_folder_paths : bool)
  : option (result ConfigProblem unit) :=
  let+ local := match cfg_local_device_id config with
                | Some id => reparse_id id
                | None => Some (Ok (mkDeviceId []))
                end in
  match local with
  | Err _ => Some (Err BadLocalDeviceId)
  | Ok _ =>
      let+ devices := check_devices ∅ (cfg_devices config) in
      match devices with
      | Err e => Some (Err e)
      | Ok _ =>
          match check_folders env check_folder_paths (cfg_folders config) with
          | Err e => Some (Err e)
          | Ok _ => if bool_decide (is_Some (parse_socket_addr (cfg_listen_addr config))) then Some (Ok tt)
                    else Some (Err BadListenAddr)
          end
      end
  end.

Definition validate_config (env : PathEnv) (config : Config) : option (result ConfigProblem unit) :=
  validate_config_internal env config true.

Definition validate_config_non_blocking (env : PathEnv) (config : Config) : option (result ConfigProblem unit) :=
  validate_config_internal env config false.
End Validation.

(** ** What the checks accept *)

Definition device_id_wf (id : DeviceId) : Prop :=
  length (device_id_bytes id) = 32%nat /\ Forall is_byte (device_id_bytes id).

#[global] Instance device_id_wf_dec id : Decision (device_id_wf id).
Proof. unfold device_id_wf. apply _. Defined.

Lemma reparse_id_wf ua hd id : device_id_wf id -> reparse_id ua hd id = Some (Ok id).
Proof.
  intros [Hl Hb]. destruct (device_id_text_parses ua hd id Hl Hb) as (s & E & Es & _).
  unfold reparse_id. by rewrite E.
Qed.

Lemma device_id_to_string_inj id id' :
  device_id_wf id -> device_id_wf id' -> device_id_to_string id = device_id_to_string id' -> id = id'.
Proof.
  intros H1 H2 E. pose proof (reparse_id_wf (fun _ => false) (fun _ => None) id H1) as E1.
  pose proof (reparse_id_wf (fun _ => false) (fun _ => None) id' H2) as E2.
  unfold reparse_id in *. rewrite E, E2 in E1. congruence.
Qed.

(** Every ASCII byte of a text is one of its chars: multi-byte sequences, valid
    or replaced, have no ASCII bytes. *)
Lemma utf8_head_ascii s n :
  utf8_head s = inl n \/ utf8_head s = inr n ->
  (n = 1%nat /\ (utf8_head s = inl n \/ match s with c :: _ => 128 <= byte_of c | [] => True end)) \/
  Forall (fun c => 128 <= byte_of c) (take n s).
Proof.
  destruct s as [|c s]; [naive_solver|]. cbn [utf8_head]. destruct (Z.ltb_spec (byte_of c) 128); [naive_solver|].
  destruct (utf8_second (byte_of c)) as [[[w lo] hi]|] eqn:Es; [|naive_solver].
  assert (128 <= lo). { unfold utf8_second in Es. crush_match. }
  assert (forall lo' o, 128 <= lo' -> in_range lo' hi o = true -> from_option (fun c => 128 <= byte_of c) True o) as Hr1.
  { intros lo' [x|]; simpl; [|done]. intros. reflect_bools. lia. }
  assert (forall o, in_range 128 191 o = true -> from_option (fun c => 128 <= byte_of c) True o) as Hr2.
  { intros [x|]; simpl; [|done]. intros. reflect_bools. lia. }
  intros E. destruct (in_range lo hi ((c :: s) !! 1%nat)) eqn:E1; cbn [negb] in E; [|naive_solver].
  right. apply Hr1 in E1; [|done].
  destruct s as [|c1 s]; [destruct E as [E|E]; repeat case_match; simplify_eq; cbn; repeat constructor; done|].
  cbn in E1. destruct (w =? 2)%nat; [destruct E; simplify_eq; cbn; rewrite take_0; by repeat constructor|].
  destruct (in_range 128 191 ((c :: c1 :: s) !! 2%nat)) eqn:E2; cbn [negb] in E;
    [|destruct E; simplify_eq; cbn; rewrite take_0; by repeat constructor].
  apply Hr2 in E2. destruct s as [|c2 s];
    [destruct E as [E|E]; repeat case_match; simplify_eq; cbn; repeat constructor; done|]. cbn in E2.
  destruct (w =? 3)%nat; [destruct E; simplify_eq; cbn; rewrite take_0; by repeat constructor|].
  destruct (in_range 128 191 ((c :: c1 :: c2 :: s) !! 3%nat)) eqn:E3; cbn [negb] in E;
    [|destruct E; simplify_eq; cbn; rewrite take_0; by repeat constructor].
  apply Hr2 in E3. destruct E; simplify_eq. destruct s as [|c3 s]; cbn in *; rewrite ?take_0; by repeat constructor.
Qed.

Lemma chars_fuel_ascii fuel s c :
  (length s <= fuel)%nat -> c ∈ s -> byte_of c < 128 -> byte_of c ∈ chars_fuel fuel s.
Proof.
  revert s. induction fuel as [|fuel IH]; intros s Hl Hin Hc.
  - destruct s; [by apply elem_of_nil in Hin|simpl in Hl; lia].
  - assert (forall n, (1 <= n)%nat -> c ∈ drop n s -> byte_of c ∈ chars_fuel fuel (drop n s)) as IH'.
    { intros n Hn Hd. apply IH; [rewrite length_drop; lia|done|done]. }
    assert (exists n, utf8_head s = inl n \/ utf8_head s = inr n) as [n En] by (destruct (utf8_head s); eauto).
    assert (1 <= n)%nat as Hn.
    { destruct En as [En|En]; [by apply utf8_head_pos in En|]. unfold utf8_head in En. crush_match. }
    destruct s as [|b s]; [by apply elem_of_nil in Hin|].
    assert (c ∈ drop n (b :: s) \/ (c = b /\ n = 1%nat /\ utf8_head (b :: s) = inl 1%nat)) as Hcase.
    { destruct (utf8_head_ascii (b :: s) n En) as [[-> Hb]|HF].
      - apply elem_of_cons in Hin as [->|Hin]; [|left; cbn; by rewrite drop_0].
        destruct Hb as [?|?]; [by right|lia].
      - left. rewrite <-(take_drop n (b :: s)) in Hin. apply elem_of_app in Hin as [Hin|?]; [|done].
        rewrite Forall_forall in HF. specialize (HF c Hin). cbn in HF. lia. }
    cbn [chars_fuel]. destruct Hcase as [Hd|(-> & -> & ->)].
    + destruct En as [-> | ->]; apply elem_of_cons; right; by apply IH'.
    + apply elem_of_cons. by left.
Qed.

Lemma ascii_byte_in_chars s c : c ∈ s -> byte_of c < 128 -> byte_of c ∈ chars_of s.
Proof. by apply chars_fuel_ascii. Qed.

(** The letters, digits, ['-'] and ['_'] of ASCII. *)
Definition plain_byte (c : ascii) : bool :=
  let b := byte_of c in
  ((48 <=? b) && (b <=? 57)) || ((65 <=? b) && (b <=? 90)) || ((97 <=? b) && (b <=? 122)) || (b =? 45) || (b =? 95).

(** An accepted folder ID is short and has no ASCII separator in it. *)
Lemma folder_id_bytes ua id :
  validate_folder_id ua id = Ok tt ->
  id <> [] /\ Z.of_nat (length id) <= 64 /\ forall c, c ∈ id -> byte_of c < 128 -> plain_byte c = true.
Proof.
  unfold validate_folder_id. case_decide; [done|]. destruct (Z.ltb_spec 64 (Z.of_nat (length id))); [done|].
  destruct (forallb _ _) eqn:E; [|done]. intros _. split; [done|]. split; [lia|]. intros c Hin Hc.
  rewrite forallb_forall in E. specialize (E (byte_of c) ltac:(by apply list_elem_of_In, ascii_byte_in_chars)).
  unfold folder_id_char, is_alphanumeric in E. unfold plain_byte. destruct (Z.ltb_spec (byte_of c) 128); [done|lia].
Qed.

Lemma plain_not (b c : ascii) : plain_byte c = true -> plain_byte b = false -> c <> b.
Proof. congruence. Qed.

Lemma folder_id_no_sep ua id b :
  validate_folder_id ua id = Ok tt -> byte_of b < 128 -> plain_byte b = false -> b ∉ id.
Proof.
  intros (_ & _ & Hp)%folder_id_bytes Hb Hn Hin. specialize (Hp b Hin Hb). congruence.
Qed.

Lemma validate_no_duplicate_spec folders path ex :
  validate_no_duplicate_folder_paths folders path ex = Ok tt <->
  forall f, f ∈ folders -> Some (folder_id f) <> ex -> folder_path f <> path.
Proof.
  induction folders as [|f fs IH]; cbn; [split; [intros _ f Hf; by apply elem_of_nil in Hf|done]|].
  setoid_rewrite elem_of_cons. repeat case_decide.
  - rewrite IH. naive_solver.
  - split; [done|]. intros H'. exfalso. apply (H' f); [by left|done|done].
  - rewrite IH. naive_solver.
Qed.

(** ** What the startup check accepts *)

Definition address_ok (a : AddressType) : Prop :=
  match a with
  | Tcp s | Quic s => is_Some (parse_socket_addr s)
  | Relay s => s <> []
  | Dynamic => True
  end.

Lemma check_addresses_spec addrs : check_addresses addrs = Ok tt <-> Forall address_ok addrs.
Proof.
  induction addrs as [|a addrs IH]; cbn; [naive_solver|]. rewrite Forall_cons, <-IH. unfold check_address.
  destruct a; cbn [address_ok]; [| |case_decide; naive_solver|naive_solver];
    case_bool_decide; cbn; naive_solver.
Qed.

Lemma check_devices_spec ua hd seen devices :
  Forall (fun d => device_id_wf (dev_id d)) devices ->
  exists r, check_devices ua hd seen devices = Some r /\
    (r = Ok tt <-> NoDup (dev_id <$> devices) /\ Forall (fun d => Forall address_ok (dev_addresses d)) devices /\
                   forall d, d ∈ devices -> dev_id d ∉ seen).
Proof.
  intros Hw. revert seen. induction Hw as [|d ds Hd _ IH]; intros seen; cbn [check_devices].
  - eexists; split; [done|]. split; [|done]. intros _. split; [constructor|]. split; [constructor|].
    by intros d ?%elem_of_nil.
  - rewrite (reparse_id_wf _ _ _ Hd). cbn [mbind option_bind].
    setoid_rewrite fmap_cons. setoid_rewrite NoDup_cons. setoid_rewrite Forall_cons. setoid_rewrite elem_of_cons. case_decide as Hin.
    { eexists; split; [done|]. split; [done|]. intros (_ & _ & Hs). exfalso. by apply (Hs d); [left|]. }
    destruct (check_addresses (dev_addresses d)) as [[]|e] eqn:Ea.
    + apply check_addresses_spec in Ea. destruct (IH ({[dev_id d]} ∪ seen)) as (r & -> & Hr).
      exists r. split; [done|]. rewrite Hr. clear -Ea Hin. split.
      * intros (Hn & Ha & Hs). split_and!; [|done|done|done|intros d' [-> |Hd']; [done|specialize (Hs d' Hd'); set_solver]].
        intros (d' & E & Hd')%list_elem_of_fmap. specialize (Hs d' Hd'). set_solver.
      * intros ([Hn1 Hn2] & [_ Ha] & Hs). split_and!; [done|done|]. intros d' Hd' [E%elem_of_singleton|?]%elem_of_union.
        -- apply Hn1. rewrite <-E. apply list_elem_of_fmap. eauto.
        -- by apply (Hs d'); [right|].
    + eexists; split; [done|]. split; [done|]. intros (_ & [Ha _] & _). exfalso.
      apply check_addresses_spec in Ha. congruence.
Qed.

Lemma check_folders_spec env chk folders :
  check_folders env chk folders = Ok tt <->
  Forall (fun f => folder_id f <> [] /\
    (chk = true -> path_exists env (folder_path f) = true /\ path_is_dir env (folder_path f) = true)) folders.
Proof.
  induction folders as [|f fs IH]; cbn; [naive_solver|]. rewrite Forall_cons, <-IH.
  case_decide; [naive_solver|]. destruct chk, (path_exists env (folder_path f)), (path_is_dir env (folder_path f));
    cbn; naive_solver.
Qed.

(** The declarative reading of the startup check. *)
Record config_ok (env : PathEnv) (chk : bool) (c : Config) : Prop := {
  ok_devices_unique : NoDup (dev_id <$> cfg_devices c);
  ok_addresses : Forall (fun d => Forall address_ok (dev_addresses d)) (cfg_devices c);
  ok_folder_ids : Forall (fun f => folder_id f <> []) (cfg_folders c);
  ok_folder_paths : chk = true ->
    Forall (fun f => path_exists env (folder_path f) = true /\ path_is_dir env (folder_path f) = true) (cfg_folders c);
  ok_listen : is_Some (parse_socket_addr (cfg_listen_addr c));
}.

Definition config_ids_wf (c : Config) : Prop :=
  from_option device_id_wf True (cfg_local_device_id c) /\ Forall (fun d => device_id_wf (dev_id d)) (cfg_devices c).

Lemma validate_config_internal_spec ua hd env c chk :
  config_ids_wf c ->
  exists r, validate_config_internal ua hd env c chk = Some r /\ (r = Ok tt <-> config_ok env chk c).
Proof.
  intros [Hloc Hdev]. unfold validate_config_internal.
  assert (exists id, match cfg_local_device_id c with Some id => reparse_id ua hd id | None => Some (Ok (mkDeviceId [])) end
                     = Some (Ok id)) as [id ->].
  { destruct (cfg_local_device_id c) as [id|]; [|eauto]. exists id. by apply reparse_id_wf. }
  cbn [mbind option_bind]. destruct (check_devices_spec ua hd ∅ (cfg_devices c) Hdev) as (rd & -> & Hrd).
  cbn [mbind option_bind]. destruct rd as [[]|e].
  - destruct Hrd as [Hrd _]. destruct (Hrd eq_refl) as (Hn & Ha & _).
    pose proof (check_folders_spec env chk (cfg_folders c)) as Hf. destruct (check_folders _ _ _) as [[]|e].
    + destruct Hf as [Hf _]. specialize (Hf eq_refl). case_bool_decide as Hl; (eexists; split; [done|]).
      * split; [|done]. intros _. split; [done|done| | |done].
        -- eapply Forall_impl; [exact Hf|]. by intros f [? _].
        -- intros ->. eapply Forall_impl; [exact Hf|]. naive_solver.
      * split; [done|]. intros []. done.
    + eexists; split; [done|]. split; [done|]. intros [_ _ H1 H2 _]. destruct Hf as [_ Hf]. rewrite Hf; [done|].
      apply Forall_forall. intros f Hin. rewrite Forall_forall in H1. split; [by apply H1|]. intros E.
      specialize (H2 E). rewrite Forall_forall in H2. by apply H2.
  - eexists; split; [done|]. split; [done|]. intros [H1 H2 _ _ _]. destruct Hrd as [_ Hrd]. rewrite Hrd; [done|].
    split_and!; [done|done|set_solver].
Qed.

(** Startup accepts exactly the configurations with distinct device IDs,
    addresses that parse, named folders in existing directories and a listen
    address that parses; it never panics on device IDs of 32 bytes, and what the
    terminal interface is started with differs only in the folder paths. *)
Theorem startup_check_exact ua hd env c :
  config_ids_wf c ->
  exists r r', validate_config ua hd env c = Some r /\ validate_config_non_blocking ua hd env c = Some r' /\
    (r = Ok tt <-> config_ok env true c) /\ (r' = Ok tt <-> config_ok env false c) /\
    (r = Ok tt -> r' = Ok tt).
Proof.
  intros Hw. unfold validate_config, validate_config_non_blocking.
  destruct (validate_config_internal_spec ua hd env c true Hw) as (r & -> & Hr).
  destruct (validate_config_internal_spec ua hd env c false Hw) as (r' & -> & Hr').
  exists r, r'. split_and!; [done|done|done|done|]. intros [H1 H2 H3 H4 H5]%Hr. apply Hr'. by split.
Qed.
