(* ===== verification/Metadata.v ===== *)
(** * The metadata store and the block store over sled

    [crates/syncthing-db/src/kv.rs] (the wrappers of sled), [blocking.rs] (every
    call runs on a blocking thread under a timeout), [metadata/mod.rs] (file
    entries, statistics and per-device entries under flat keys) and [store.rs]
    ([BlockStoreImpl]).  Sled, serde_json and the lru crate are interfaces with
    the laws their documentation states.  A closure that times out is not
    cancelled: it stays in the list of late closures and may take effect at any
    later time. *)

From S2P Require Import Prelude Core DeviceIds Connection Bep Wire BlockCache Net Relay Config.

(** ** Sled *)

Inductive BatchOp := BatchInsert (key value : Bytes) | BatchRemove (key : Bytes).

Class SledTreeApi (S : Type) := {
  sled_get : S -> Bytes -> result unit (option Bytes);
  sled_insert : S -> Bytes -> Bytes -> result unit (option Bytes) * S;
  sled_remove : S -> Bytes -> result unit (option Bytes) * S;
  sled_contains_key : S -> Bytes -> result unit bool;
  sled_apply_batch : S -> list BatchOp -> result unit unit * S;
  sled_scan_prefix : S -> Bytes -> list (result unit (Bytes * Bytes));
  sled_flush : S -> result unit unit * S;
}.

Definition batch_step (m : gmap Bytes Bytes) (op : BatchOp) : gmap Bytes Bytes :=
  match op with
  | BatchInsert k v => <[k := v]> m
  | BatchRemove k => base.delete k m
  end.

(** A tree is a map; a failing call changes nothing and a batch is atomic. *)
Class SledLaws (S : Type) `{SledTreeApi S} := {
  sled_view : S -> gmap Bytes Bytes;
  sled_get_spec : forall s k r, sled_get s k = Ok r -> r = sled_view s !! k;
  sled_contains_spec : forall s k b, sled_contains_key s k = Ok b -> b = bool_decide (is_Some (sled_view s !! k));
  sled_insert_spec : forall s k v, sled_view (sled_insert s k v).2 =
    match (sled_insert s k v).1 with Ok _ => <[k := v]> (sled_view s) | Err _ => sled_view s end;
  sled_remove_spec : forall s k, sled_view (sled_remove s k).2 =
    match (sled_remove s k).1 with Ok _ => base.delete k (sled_view s) | Err _ => sled_view s end;
  sled_remove_old : forall s k r, (sled_remove s k).1 = Ok r -> r = sled_view s !! k;
  sled_batch_spec : forall s ops, sled_view (sled_apply_batch s ops).2 =
    match (sled_apply_batch s ops).1 with Ok _ => foldl batch_step (sled_view s) ops | Err _ => sled_view s end;
  sled_scan_spec : forall s p l, sled_scan_prefix s p = Ok <$> l ->
    l ≡ₚ filter (fun kv => starts_with p kv.1 = true) (map_to_list (sled_view s));
  sled_flush_spec : forall s, sled_view (sled_flush s).2 = sled_view s;
}.

(** ** serde_json for one type *)

Class Serde (A : Type) := {
  to_vec : A -> result unit Bytes;
  from_slice : Bytes -> result unit A;
}.

Class SerdeLaws (A : Type) `{Serde A} := {
  serde_roundtrip : forall (a : A) b, to_vec a = Ok b -> from_slice b = Ok a;
}.

(** [.map_err(|e| SyncthingError::Storage(..))] *)
Definition storage_err {E A : Type} (r : result E A) : result SyncthingError A :=
  match r with
  | Ok a => Ok a
  | Err _ => Err EStorage
  end.

(** ** [kv.rs] *)

Abbreviation Batch := (list (Bytes * option Bytes)).

(** [sled::Batch] filled from a list of insertions and removals. *)
Definition sled_batch (batch : Batch) : list BatchOp :=
  (fun kv : Bytes * option Bytes =>
     match kv.2 with
     | Some v => BatchInsert kv.1 v
     | None => BatchRemove kv.1
     end) <$> batch.

(** The loop over the iterator of [scan_prefix], which stops at an error. *)
Fixpoint collect_scan (l : list (result unit (Bytes * Bytes))) : result SyncthingError (list (Bytes * Bytes)) :=
  match l with
  | [] => Ok []
  | r :: rest =>
      let? kv := storage_err r in
      let? kvs := collect_scan rest in
      Ok (kv :: kvs)
  end.

Section Kv.
Context {S : Type} `{SledTreeApi S}.

Definition db_get (key : Bytes) : SE S SyncthingError (option Bytes) :=
  se_read (fun s => storage_err (sled_get s key)).

Definition db_put (key value : Bytes) : SE S SyncthingError unit := fun s =>
  let '(r, s') := sled_insert s key value in (result_map (fun _ => tt) (storage_err r), s').

Definition db_delete (key : Bytes) : SE S SyncthingError bool := fun s =>
  let '(r, s') := sled_remove s key in
  (result_map (fun old => bool_decide (is_Some old)) (storage_err r), s').

Definition db_contains (key : Bytes) : SE S SyncthingError bool :=
  se_read (fun s => storage_err (sled_contains_key s key)).

Definition db_apply_batch (batch : Batch) : SE S SyncthingError unit := fun s =>
  let '(r, s') := sled_apply_batch s (sled_batch batch) in (storage_err r, s').

Definition db_scan_prefix (prefix : Bytes) : SE S SyncthingError (list (Bytes * Bytes)) :=
  se_read (fun s => collect_scan (sled_scan_prefix s prefix)).

Definition db_flush : SE S SyncthingError unit := fun s =>
  let '(r, s') := sled_flush s in (storage_err r, s').

(** [SledTree] has the same methods on one tree of the database. *)
Definition tree_get (key : Bytes) : SE S SyncthingError (option Bytes) :=
  se_read (fun s => storage_err (sled_get s key)).

Definition tree_put (key value : Bytes) : SE S SyncthingError unit := fun s =>
  let '(r, s') := sled_insert s key value in (result_map (fun _ => tt) (storage_err r), s').

Definition tree_delete (key : Bytes) : SE S SyncthingError bool := fun s =>
  let '(r, s') := sled_remove s key in
  (result_map (fun old => bool_decide (is_Some old)) (storage_err r), s').

Definition tree_contains (key : Bytes) : SE S SyncthingError bool :=
  se_read (fun s => storage_err (sled_contains_key s key)).

Definition tree_scan_prefix (prefix : Bytes) : SE S SyncthingError (list (Bytes * Bytes)) :=
  se_read (fun s => collect_scan (sled_scan_prefix s prefix)).

Definition tree_apply_batch (batch : Batch) : SE S SyncthingError unit := fun s =>
  let '(r, s') := sled_apply_batch s (sled_batch batch) in (storage_err r, s').

Definition tree_flush : SE S SyncthingError unit := fun s =>
  let '(r, s') := sled_flush s in (storage_err r, s').

End Kv.

(** ** [blocking.rs]

    How one closure given to the thread pool ends. *)
Inductive RunOutcome := RunCompletes | RunTimesOut | RunPanics.

Record Blocking (X : Type) := mkBlocking {
  b_state : X;
  b_runs : list RunOutcome;
  b_late : list (X -> X);
}.
Arguments mkBlocking {X}.
Arguments b_state {X}.
Arguments b_runs {X}.
Arguments b_late {X}.

(** The outcomes are given in advance; without one the closure completes.  A
    panic comes before the effect of the closure, which is its last action. *)
Definition run_blocking {X A : Type} (f : SE X SyncthingError A) : SE (Blocking X) SyncthingError A := fun w =>
  match b_runs w with
  | RunTimesOut :: rest => (Err ETimeout, mkBlocking (b_state w) rest (b_late w ++ [fun x => (f x).2]))
  | RunPanics :: rest => (Err EInternal, mkBlocking (b_state w) rest (b_late w))
  | RunCompletes :: rest => let '(r, x) := f (b_state w) in (r, mkBlocking x rest (b_late w))
  | [] => let '(r, x) := f (b_state w) in (r, mkBlocking x [] (b_late w))
  end.

(** A late closure runs to its end. *)
Inductive late_step {X : Type} : Blocking X -> Blocking X -> Prop :=
| LateRuns x runs l1 f l2 : late_step (mkBlocking x runs (l1 ++ f :: l2)) (mkBlocking (f x) runs (l1 ++ l2)).

(** The same for the [i]-th of them. *)
Definition run_late {X : Type} (i : nat) (w : Blocking X) : Blocking X :=
  match b_late w !! i with
  | Some f => mkBlocking (f (b_state w)) (b_runs w) (base.delete i (b_late w))
  | None => w
  end.

(** ** [metadata/mod.rs] *)

Inductive StoreInner (S : Type) := InnerDb (store : S) | InnerTree (tree : S).
Arguments InnerDb {S}.
Arguments InnerTree {S}.

Record DbFolderStats := mkDbFolderStats { file_count : Z; total_bytes : Z; block_count : Z }.

#[global] Instance DbFolderStats_eq_dec : EqDecision DbFolderStats.
Proof. solve_decision. Defined.

Definition stats_default : DbFolderStats := mkDbFolderStats 0 0 0.

(** The keys, as texts; the store sees their bytes. *)
Definition file_key_text (folder name : str) : str := folder ++ ":"%char :: name.

Definition make_file_key (folder name : str) : Bytes := bytes_of_str (file_key_text folder name).

Definition make_folder_stats_key (folder : str) : Bytes := bytes_of_str ($"folder_stats:" ++ folder).

Definition make_folder_prefix (folder : str) : Bytes := bytes_of_str (folder ++ $":").

Definition device_prefix_text (device_id folder : str) : str :=
  $"device/" ++ device_id ++ $"/folder/" ++ folder ++ $"/".

Definition make_device_file_key (device_id folder name : str) : Bytes :=
  bytes_of_str (device_prefix_text device_id folder ++ $"file/" ++ name).

Definition make_device_prefix (device_id folder : str) : Bytes :=
  bytes_of_str (device_prefix_text device_id folder).

Definition BLOCK_PREFIX : Bytes := bytes_of_str ($"block/").

(** [make_block_key] of the metadata module and [BlockStoreImpl::block_key]. *)
Definition meta_block_key (hash : BlockHash) : Bytes := BLOCK_PREFIX ++ hash.

#[global] Arguments make_file_key : simpl never.
#[global] Arguments make_folder_stats_key : simpl never.
#[global] Arguments make_folder_prefix : simpl never.
#[global] Arguments make_device_file_key : simpl never.
#[global] Arguments make_device_prefix : simpl never.

Section Meta.
Context {S : Type} `{SledTreeApi S} `{Serde FileInfo} `{Serde DbFolderStats}.

(** A method of the tree or of the database below a [StoreInner]. *)
Definition on_inner {A : Type} (db tree : SE S SyncthingError A) : SE (StoreInner S) SyncthingError A := fun i =>
  match i with
  | InnerDb s => let '(r, s') := db s in (r, InnerDb s')
  | InnerTree s => let '(r, s') := tree s in (r, InnerTree s')
  end.

Definition inner_get (key : Bytes) : SE (StoreInner S) SyncthingError (option Bytes) :=
  on_inner (db_get key) (tree_get key).
Definition inner_put (key value : Bytes) : SE (StoreInner S) SyncthingError unit :=
  on_inner (db_put key value) (tree_put key value).
Definition inner_delete (key : Bytes) : SE (StoreInner S) SyncthingError bool :=
  on_inner (db_delete key) (tree_delete key).
Definition inner_contains (key : Bytes) : SE (StoreInner S) SyncthingError bool :=
  on_inner (db_contains key) (tree_contains key).
Definition inner_scan_prefix (prefix : Bytes) : SE (StoreInner S) SyncthingError (list (Bytes * Bytes)) :=
  on_inner (db_scan_prefix prefix) (tree_scan_prefix prefix).
Definition inner_apply_batch (batch : Batch) : SE (StoreInner S) SyncthingError unit :=
  on_inner (db_apply_batch batch) (tree_apply_batch batch).
Definition inner_flush : SE (StoreInner S) SyncthingError unit := on_inner db_flush tree_flush.

Abbreviation MetadataStore := (Blocking (StoreInner S)).
Abbreviation M A := (SE MetadataStore SyncthingError A).

(** [let value = serde_json::to_vec(..)?] *)
Definition serialize {A : Type} `{Serde A} (a : A) : M Bytes := se_read (fun _ => storage_err (to_vec a)).

Fixpoint deserialize_all (results : list (Bytes * Bytes)) : result SyncthingError (list FileInfo) :=
  match results with
  | [] => Ok []
  | (_, value) :: rest =>
      let? info := storage_err (from_slice value) in
      let? files := deserialize_all rest in
      Ok (info :: files)
  end.

Definition get_folder_index (folder : str) : M (list FileInfo) :=
  let! results := run_blocking (inner_scan_prefix (make_folder_prefix folder)) in
  let! files := se_read (fun _ => deserialize_all results) in
  se_ret (sort_by sequence files).

(** [try_into().unwrap_or([0u8; 32])] *)
Definition block_hash_bytes (hash : list Z) : BlockHash :=
  if (length hash =? 32)%nat then hash else replicate 32 0.

Definition stats_step (acc : DbFolderStats * gset BlockHash) (file : FileInfo) : DbFolderStats * gset BlockHash :=
  let '(stats, unique_blocks) := acc in
  if is_deleted file then acc
  else (mkDbFolderStats (wrap 64 (file_count stats + 1)) (wrap 64 (total_bytes stats + wrap 64 (size file)))
          (block_count stats),
        foldl (fun u b => {[block_hash_bytes (bi_hash b)]} ∪ u) unique_blocks (blocks file)).

Definition compute_stats (files : list FileInfo) : DbFolderStats :=
  let '(stats, unique_blocks) := foldl stats_step (stats_default, ∅) files in
  mkDbFolderStats (file_count stats) (total_bytes stats) (wrap 64 (Z.of_nat (base.size unique_blocks))).

Definition update_folder_stats (folder : str) : M unit :=
  let! files := get_folder_index folder in
  let! value := serialize (compute_stats files) in
  do! run_blocking (inner_put (make_folder_stats_key folder) value) in
  se_ret tt.

Definition put_file (folder : str) (info : FileInfo) : M unit :=
  let! value := serialize info in
  do! run_blocking (inner_put (make_file_key folder (name info)) value) in
  do! update_folder_stats folder in
  se_ret tt.

Definition decode_entry {A : Type} `{Serde A} (value : option Bytes) : M (option A) :=
  match value with
  | Some bytes => se_read (fun _ => result_map Some (storage_err (from_slice bytes)))
  | None => se_ret None
  end.

Definition get_file (folder name : str) : M (option FileInfo) :=
  let! value := run_blocking (inner_get (make_file_key folder name)) in
  decode_entry value.

(** The entries of a batch, one per file. *)
Fixpoint serialize_files (folder : str) (files : list FileInfo) : result SyncthingError Batch :=
  match files with
  | [] => Ok []
  | file :: rest =>
      let? value := storage_err (to_vec file) in
      let? batch := serialize_files folder rest in
      Ok ((make_file_key folder (name file), Some value) :: batch)
  end.

Definition meta_update_index (folder : str) (files : list FileInfo) : M unit :=
  let! existing := run_blocking (inner_scan_prefix (make_folder_prefix folder)) in
  let batch : Batch := (fun kv : Bytes * Bytes => (kv.1, None)) <$> existing in
  let! entries := se_read (fun _ => serialize_files folder files) in
  do! run_blocking (inner_apply_batch (batch ++ entries)) in
  do! update_folder_stats folder in
  se_ret tt.

Definition meta_update_index_delta (folder : str) (files : list FileInfo) : M unit :=
  let! batch := se_read (fun _ => serialize_files folder files) in
  do! run_blocking (inner_apply_batch batch) in
  do! update_folder_stats folder in
  se_ret tt.

Definition meta_delete_file (folder name : str) : M unit :=
  do! run_blocking (inner_delete (make_file_key folder name)) in
  do! update_folder_stats folder in
  se_ret tt.

Definition get_folder_stats (folder : str) : M DbFolderStats :=
  let! value := run_blocking (inner_get (make_folder_stats_key folder)) in
  let! stats := decode_entry value in
  se_ret (default stats_default stats).

Definition file_exists (folder name : str) : M bool :=
  run_blocking (inner_contains (make_file_key folder name)).

Definition meta_file_count (folder : str) : M Z :=
  let! results := run_blocking (inner_scan_prefix (make_folder_prefix folder)) in
  se_ret (Z.of_nat (length results)).

Definition meta_flush : M unit := run_blocking inner_flush.

Definition put_device_file (device_id folder : str) (info : FileInfo) : M unit :=
  let! value := serialize info in
  do! run_blocking (inner_put (make_device_file_key device_id folder (name info)) value) in
  se_ret tt.

Definition get_device_file (device_id folder name : str) : M (option FileInfo) :=
  let! value := run_blocking (inner_get (make_device_file_key device_id folder name)) in
  decode_entry value.

Definition get_device_files (device_id folder : str) : M (list FileInfo) :=
  let! results := run_blocking (inner_scan_prefix (make_device_prefix device_id folder)) in
  let! files := se_read (fun _ => deserialize_all results) in
  se_ret (sort_by sequence files).

End Meta.

(** ** Keys

    Under folder IDs without separators the three kinds of keys are injective
    and disjoint. *)
Inductive MetaKey :=
| KeyFile (folder name : str)
| KeyStats (folder : str)
| KeyDevice (device_id folder name : str).

Definition key_bytes (k : MetaKey) : Bytes :=
  match k with
  | KeyFile f n => make_file_key f n
  | KeyStats f => make_folder_stats_key f
  | KeyDevice d f n => make_device_file_key d f n
  end.

Definition folder_ok (f : str) : Prop := ":"%char ∉ f /\ "/"%char ∉ f /\ f <> $"folder_stats".

Definition key_ok (k : MetaKey) : Prop :=
  match k with
  | KeyFile f _ => folder_ok f
  | KeyStats _ => True
  | KeyDevice d f _ => "/"%char ∉ d /\ "/"%char ∉ f
  end.

Lemma validated_folder_ok ua f : validate_folder_id ua f = Ok tt -> f <> $"folder_stats" -> folder_ok f.
Proof. intros Hv Hn. split_and!; [by eapply folder_id_no_sep|by eapply folder_id_no_sep|done]. Qed.

Lemma separators_inj {A : Type} (x y : A) a b a' b' :
  x ∉ a' -> y ∉ a -> a ++ x :: b = a' ++ y :: b' -> a = a' /\ x = y /\ b = b'.
Proof.
  revert a'. induction a as [|c a IH]; intros [|c' a'] Hx Hy E; simplify_eq/=; [done|set_solver|set_solver|].
  destruct (IH a') as (-> & -> & ->); set_solver.
Qed.

#[global] Instance bytes_of_str_inj : Inj (=) (=) bytes_of_str.
Proof. intros s t E. apply (f_equal str_of_bytes) in E. by rewrite !str_of_bytes_of_str in E. Qed.

Lemma bytes_of_str_app s t : bytes_of_str (s ++ t) = bytes_of_str s ++ bytes_of_str t.
Proof. apply fmap_app. Qed.

Lemma starts_with_bytes p s : starts_with (bytes_of_str p) (bytes_of_str s) = true <-> exists r, s = p ++ r.
Proof.
  rewrite starts_with_spec. split; intros [r E].
  - exists (str_of_bytes r). apply (f_equal str_of_bytes) in E. unfold str_of_bytes in E at 2. rewrite fmap_app in E.
    fold (str_of_bytes (bytes_of_str p)) in E. fold (str_of_bytes r) in E. by rewrite !str_of_bytes_of_str in E.
  - exists (bytes_of_str r). by rewrite E, bytes_of_str_app.
Qed.

Lemma file_not_device f n d f' n' : folder_ok f -> make_file_key f n <> make_device_file_key d f' n'.
Proof.
  intros (H1 & H2 & _) E%bytes_of_str_inj.
  apply (separators_inj ":"%char "/"%char f n ($"device")) in E; [naive_solver| |done].
  by apply (bool_decide_eq_true_1 _).
Qed.

Lemma device_key_inj d f n d' f' n' :
  "/"%char ∉ d -> "/"%char ∉ f -> "/"%char ∉ d' -> "/"%char ∉ f' ->
  make_device_file_key d f n = make_device_file_key d' f' n' -> d = d' /\ f = f' /\ n = n'.
Proof.
  intros H1 H2 H3 H4 E%bytes_of_str_inj. unfold device_prefix_text in E. rewrite <-!app_assoc in E.
  apply app_inv_head, separators_inj in E as (-> & _ & E); [|done|done].
  apply (app_inv_head ($"folder/")), (separators_inj "/"%char "/"%char) in E as (-> & _ & E); [|done|done].
  by apply (app_inv_head ($"file/")) in E as ->.
Qed.

Lemma key_bytes_inj k k' : key_ok k -> key_ok k' -> key_bytes k = key_bytes k' -> k = k'.
Proof.
  assert (":"%char ∉ $"folder_stats") as Hfs by by apply (bool_decide_eq_true_1 _).
  destruct k as [f n|f|d f n], k' as [f' n'|f'|d' f' n']; cbn [key_ok key_bytes]; intros Hk Hk' E.
  - apply bytes_of_str_inj in E. destruct Hk as [Hk _], Hk' as [Hk' _].
    apply separators_inj in E as (-> & _ & ->); done.
  - exfalso. destruct Hk as (Hk & _ & Hne). apply bytes_of_str_inj in E.
    apply (separators_inj ":"%char ":"%char f n ($"folder_stats") f') in E as (-> & _); done.
  - by apply file_not_device in E.
  - exfalso. destruct Hk' as (Hk' & _ & Hne). apply bytes_of_str_inj in E. symmetry in E.
    apply (separators_inj ":"%char ":"%char f' n' ($"folder_stats") f) in E as (-> & _); done.
  - apply bytes_of_str_inj, app_inv_head in E as ->. done.
  - apply bytes_of_str_inj in E. discriminate E.
  - symmetry in E. by apply file_not_device in E.
  - apply bytes_of_str_inj in E. discriminate E.
  - destruct Hk, Hk'. apply device_key_inj in E as (-> & -> & ->); done.
Qed.

(** What a scan of a folder's prefix finds. *)
Lemma folder_prefix_keys f k :
  folder_ok f -> key_ok k -> starts_with (make_folder_prefix f) (key_bytes k) = true <-> exists n, k = KeyFile f n.
Proof.
  intros Hf Hk. assert (exists s, key_bytes k = bytes_of_str s) as [s Es] by (destruct k; eexists; reflexivity).
  rewrite Es. unfold make_folder_prefix. rewrite starts_with_bytes. split; intros [n E].
  - exists n. apply key_bytes_inj; [done|done|]. rewrite Es, E, <-app_assoc. reflexivity.
  - exists n. subst k. apply bytes_of_str_inj in Es. subst s. unfold file_key_text. by rewrite <-app_assoc.
Qed.

(** What a scan of the prefix of a device and a folder finds. *)
Lemma device_prefix_keys d f k :
  "/"%char ∉ d -> "/"%char ∉ f -> key_ok k ->
  starts_with (make_device_prefix d f) (key_bytes k) = true <-> exists n, k = KeyDevice d f n.
Proof.
  intros Hd Hf Hk. assert (exists s, key_bytes k = bytes_of_str s) as [s Es] by (destruct k; eexists; reflexivity).
  rewrite Es. unfold make_device_prefix. rewrite starts_with_bytes. split; intros [n E].
  - subst s. destruct k as [f' n'|f'|d' f' n']; apply bytes_of_str_inj in Es.
    + exfalso. destruct Hk as (H1 & H2 & _).
      apply (separators_inj ":"%char "/"%char f' n' ($"device")) in Es; [naive_solver| |done].
      by apply (bool_decide_eq_true_1 _).
    + discriminate Es.
    + destruct Hk as [H1 H2]. unfold device_prefix_text in Es. rewrite <-!app_assoc in Es.
      apply app_inv_head, separators_inj in Es as (-> & _ & Es); [|done|done].
      apply (app_inv_head ($"folder/")), (separators_inj "/"%char "/"%char) in Es as (-> & _ & _); [|done|done].
      by exists n'.
  - subst k. apply bytes_of_str_inj in Es. subst s. eauto.
Qed.

(** ** Statistics do not depend on the order of the files *)

Lemma stats_step_comm acc x y : stats_step (stats_step acc x) y = stats_step (stats_step acc y) x.
Proof.
  assert (forall (bs : list BlockInfo) (u w : gset BlockHash),
    foldl (fun u b => {[block_hash_bytes (bi_hash b)]} ∪ u) (u ∪ w) bs =
    foldl (fun u b => {[block_hash_bytes (bi_hash b)]} ∪ u) u bs ∪ w) as Hu.
  { induction bs as [|b bs IH]; intros u w; cbn; [done|]. by rewrite union_assoc_L, IH. }
  assert (forall (bs : list BlockInfo) (u : gset BlockHash),
    foldl (fun u b => {[block_hash_bytes (bi_hash b)]} ∪ u) u bs =
    u ∪ foldl (fun u b => {[block_hash_bytes (bi_hash b)]} ∪ u) ∅ bs) as Hu'.
  { intros bs u. rewrite <-(union_empty_l_L u) at 1. rewrite Hu. apply union_comm_L. }
  destruct acc as [s u]. unfold stats_step. destruct (is_deleted x) eqn:Ex, (is_deleted y) eqn:Ey; rewrite ?Ex, ?Ey; try done.
  cbn [file_count total_bytes block_count]. f_equal.
  - f_equal. unfold wrap. rewrite !Z.add_mod_idemp_l by lia. f_equal. lia.
  - rewrite (Hu' (blocks y)), (Hu' (blocks x) u), (Hu' (blocks x)), (Hu' (blocks y) u). set_solver by lia.
Qed.

Lemma compute_stats_perm l l' : l ≡ₚ l' -> compute_stats l = compute_stats l'.
Proof.
  intros Hp. unfold compute_stats. enough (foldl stats_step (stats_default, ∅) l = foldl stats_step (stats_default, ∅) l')
    as -> by done.
  generalize ((stats_default, ∅) : DbFolderStats * gset BlockHash). induction Hp as [|x l l' _ IH|x y l|l l' l'' _ IH1 _ IH2];
    intros acc; cbn; [done|apply IH|by rewrite stats_step_comm|by rewrite IH1, IH2].
Qed.

(** ** The specification: a map of indexes

    [ms_stale] are the folders whose stored statistics may be out of date, which
    only a failed call leaves behind. *)
Record MetaSpec := mkMetaSpec {
  ms_files : gmap str (gmap str FileInfo);
  ms_devices : gmap (str * str) (gmap str FileInfo);
  ms_stale : gset str;
}.

Definition index_at {K : Type} `{Countable K} (m : gmap K (gmap str FileInfo)) (k : K) : gmap str FileInfo :=
  default ∅ (m !! k).

Definition add_files (ix : gmap str FileInfo) (files : list FileInfo) : gmap str FileInfo :=
  foldl (fun ix f => <[name f := f]> ix) ix files.

Inductive MetaOp :=
| MPutFile (folder : str) (info : FileInfo)
| MGetFile (folder name : str)
| MIndex (folder : str)
| MUpdate (folder : str) (files : list FileInfo)
| MDelta (folder : str) (files : list FileInfo)
| MDelete (folder name : str)
| MStats (folder : str)
| MExists (folder name : str)
| MCount (folder : str)
| MFlush
| MPutDevice (device_id folder : str) (info : FileInfo)
| MGetDevice (device_id folder name : str)
| MDeviceFiles (device_id folder : str).

Inductive MetaReply :=
| ReplyUnit
| ReplyFile (file : option FileInfo)
| ReplyFiles (files : list FileInfo)
| ReplyStats (stats : DbFolderStats)
| ReplyBool (b : bool)
| ReplyCount (n : Z).

(** The folder whose statistics an operation recalculates. *)
Definition op_folder (op : MetaOp) : option str :=
  match op with
  | MPutFile f _ | MUpdate f _ | MDelta f _ | MDelete f _ => Some f
  | _ => None
  end.

Definition meta_op_ok (op : MetaOp) : Prop :=
  match op with
  | MPutFile f _ | MGetFile f _ | MIndex f | MUpdate f _ | MDelta f _ | MDelete f _ | MStats f | MExists f _
  | MCount f => folder_ok f
  | MFlush => True
  | MPutDevice d f _ | MGetDevice d f _ | MDeviceFiles d f => "/"%char ∉ d /\ "/"%char ∉ f
  end.

Definition set_index (m : MetaSpec) (f : str) (ix : gmap str FileInfo) : MetaSpec :=
  mkMetaSpec (<[f := ix]> (ms_files m)) (ms_devices m) (ms_stale m).

(** The entries after an operation that took effect. *)
Definition spec_entries (m : MetaSpec) (op : MetaOp) : MetaSpec :=
  match op with
  | MPutFile f info => set_index m f (<[name info := info]> (index_at (ms_files m) f))
  | MUpdate f files => set_index m f (add_files ∅ files)
  | MDelta f files => set_index m f (add_files (index_at (ms_files m) f) files)
  | MDelete f n => set_index m f (base.delete n (index_at (ms_files m) f))
  | MPutDevice d f info =>
      mkMetaSpec (ms_files m) (<[(d, f) := <[name info := info]> (index_at (ms_devices m) (d, f))]> (ms_devices m))
        (ms_stale m)
  | _ => m
  end.

Definition set_stale (g : gset str -> gset str) (m : MetaSpec) : MetaSpec :=
  mkMetaSpec (ms_files m) (ms_devices m) (g (ms_stale m)).

Definition op_fresh (op : MetaOp) (m : MetaSpec) : MetaSpec :=
  match op_folder op with Some f => set_stale (fun s => s ∖ {[f]}) m | None => m end.

Definition op_stale (op : MetaOp) (m : MetaSpec) : MetaSpec :=
  match op_folder op with Some f => set_stale (fun s => s ∪ {[f]}) m | None => m end.

(** Listings have every entry once and are sorted by sequence number. *)
Definition lists_index (ix : gmap str FileInfo) (l : list FileInfo) : Prop :=
  l ≡ₚ (map_to_list ix).*2 /\ StronglySorted (fun a b => sequence a <= sequence b) l.

Definition spec_reply (m : MetaSpec) (op : MetaOp) (r : MetaReply) : Prop :=
  match op with
  | MPutFile _ _ | MUpdate _ _ | MDelta _ _ | MDelete _ _ | MFlush | MPutDevice _ _ _ => r = ReplyUnit
  | MGetFile f n => r = ReplyFile (index_at (ms_files m) f !! n)
  | MIndex f => exists l, r = ReplyFiles l /\ lists_index (index_at (ms_files m) f) l
  | MStats f => exists s, r = ReplyStats s /\
      (f ∉ ms_stale m -> s = compute_stats (map_to_list (index_at (ms_files m) f)).*2)
  | MExists f n => r = ReplyBool (bool_decide (is_Some (index_at (ms_files m) f !! n)))
  | MCount f => r = ReplyCount (Z.of_nat (base.size (index_at (ms_files m) f)))
  | MGetDevice d f n => r = ReplyFile (index_at (ms_devices m) (d, f) !! n)
  | MDeviceFiles d f => exists l, r = ReplyFiles l /\ lists_index (index_at (ms_devices m) (d, f)) l
  end.

(** A successful call answers and acts as the maps do; a failed one acted as a
    whole or not at all, and may leave the statistics behind. *)
Definition spec_step (m : MetaSpec) (op : MetaOp) (r : result SyncthingError MetaReply) (m' : MetaSpec) : Prop :=
  match r with
  | Ok reply => spec_reply m op reply /\ m' = op_fresh op (spec_entries m op)
  | Err _ => m' = op_stale op m \/ m' = op_stale op (spec_entries m op)
  end.

(** What the closure of a call that timed out may still do: nothing to the
    entries, change files of a folder, store a device's entry, or store
    statistics, which may be old by then. *)
Inductive LateEffect :=
| LateNothing
| LateFiles (folder : str) (gone : gset str) (files : list FileInfo)
| LateDevice (device_id folder : str) (info : FileInfo)
| LateStats (folder : str).

Definition without (gone : gset str) (ix : gmap str FileInfo) : gmap str FileInfo :=
  filter (fun nf : str * FileInfo => nf.1 ∉ gone) ix.

Definition late_effect (m : MetaSpec) (e : LateEffect) : MetaSpec :=
  match e with
  | LateNothing => m
  | LateFiles f gone files =>
      set_stale (fun s => s ∪ {[f]}) (set_index m f (add_files (without gone (index_at (ms_files m) f)) files))
  | LateDevice d f info => spec_entries m (MPutDevice d f info)
  | LateStats f => set_stale (fun s => s ∪ {[f]}) m
  end.

(** What a call in state [m] may leave behind.  A full update has fixed the
    names it removes when it reads the index. *)
Definition leaves_behind (m : MetaSpec) (op : MetaOp) (e : LateEffect) : Prop :=
  e = LateNothing \/
  match op with
  | MPutFile f info => e = LateFiles f ∅ [info] \/ e = LateStats f
  | MUpdate f files => e = LateFiles f (dom (index_at (ms_files m) f)) files \/ e = LateStats f
  | MDelta f files => e = LateFiles f ∅ files \/ e = LateStats f
  | MDelete f n => e = LateFiles f {[n]} [] \/ e = LateStats f
  | MPutDevice d f info => e = LateDevice d f info
  | _ => False
  end.

(** Calls one after another, and between them closures of earlier calls that
    timed out. *)
Inductive MetaEvent := MCall (op : MetaOp) | MLate (i : nat).

Definition meta_event_ok (ev : MetaEvent) : Prop :=
  match ev with MCall op => meta_op_ok op | MLate _ => True end.

(** Only a call that answers with a time-out leaves something behind, and at
    most one effect; a late effect happens as a whole or not at all. *)
Inductive spec_run : MetaSpec -> list LateEffect -> list MetaEvent -> list (result SyncthingError MetaReply) -> MetaSpec -> Prop :=
| SpecNil m late : spec_run m late [] [] m
| SpecCall m late op r m1 late1 evs rs m2 :
    spec_step m op r m1 ->
    late1 = late \/ (r = Err ETimeout /\ exists e, late1 = late ++ [e] /\ leaves_behind m op e) ->
    spec_run m1 late1 evs rs m2 -> spec_run m late (MCall op :: evs) (r :: rs) m2
| SpecLate m late i e m1 evs rs m2 :
    late !! i = Some e -> m1 = m \/ m1 = late_effect m e ->
    spec_run m1 (base.delete i late) evs rs m2 -> spec_run m late (MLate i :: evs) rs m2
| SpecNone m late i evs rs m2 : late !! i = None -> spec_run m late evs rs m2 -> spec_run m late (MLate i :: evs) rs m2.

Section MetaProofs.
Context {S : Type} `{SledLaws S} `{SerdeLaws FileInfo} `{SerdeLaws DbFolderStats}.
Abbreviation MetadataStore := (Blocking (StoreInner S)).
Abbreviation M A := (SE MetadataStore SyncthingError A).

Definition se_map {A B : Type} (g : A -> B) (c : M A) : M B := let! a := c in se_ret (g a).

Definition exec_meta (op : MetaOp) : M MetaReply :=
  match op with
  | MPutFile f info => se_map (fun _ => ReplyUnit) (put_file f info)
  | MGetFile f n => se_map ReplyFile (get_file f n)
  | MIndex f => se_map ReplyFiles (get_folder_index f)
  | MUpdate f files => se_map (fun _ => ReplyUnit) (meta_update_index f files)
  | MDelta f files => se_map (fun _ => ReplyUnit) (meta_update_index_delta f files)
  | MDelete f n => se_map (fun _ => ReplyUnit) (meta_delete_file f n)
  | MStats f => se_map ReplyStats (get_folder_stats f)
  | MExists f n => se_map ReplyBool (file_exists f n)
  | MCount f => se_map ReplyCount (meta_file_count f)
  | MFlush => se_map (fun _ => ReplyUnit) meta_flush
  | MPutDevice d f info => se_map (fun _ => ReplyUnit) (put_device_file d f info)
  | MGetDevice d f n => se_map ReplyFile (get_device_file d f n)
  | MDeviceFiles d f => se_map ReplyFiles (get_device_files d f)
  end.

Fixpoint exec_metas (evs : list MetaEvent) (w : MetadataStore)
  : list (result SyncthingError MetaReply) * MetadataStore :=
  match evs with
  | [] => ([], w)
  | MCall op :: rest =>
      let '(r, w1) := exec_meta op w in
      let '(rs, w2) := exec_metas rest w1 in
      (r :: rs, w2)
  | MLate i :: rest => exec_metas rest (run_late i w)
  end.

Definition inner_view (i : StoreInner S) : gmap Bytes Bytes :=
  match i with InnerDb s | InnerTree s => sled_view s end.

Definition meta_view (w : MetadataStore) : gmap Bytes Bytes := inner_view (b_state w).

(** [n] is stored as the bytes of a file entry of that name. *)
Definition stored (n : str) (b : Bytes) (f : FileInfo) : Prop := from_slice b = Ok f /\ name f = n.

Definition stored_stats (v : gmap Bytes Bytes) (f : str) : option DbFolderStats :=
  match v !! make_folder_stats_key f with
  | Some b => match from_slice b with Ok s => Some s | Err _ => None end
  | None => Some stats_default
  end.

Record entries_repr (v : gmap Bytes Bytes) (m : MetaSpec) : Prop := {
  er_keys : forall k b, v !! k = Some b -> exists mk, key_ok mk /\ k = key_bytes mk;
  er_files : forall f n, folder_ok f ->
    option_Forall2 (stored n) (v !! make_file_key f n) (index_at (ms_files m) f !! n);
  er_devices : forall d f n, "/"%char ∉ d -> "/"%char ∉ f ->
    option_Forall2 (stored n) (v !! make_device_file_key d f n) (index_at (ms_devices m) (d, f) !! n);
}.

(** Statistics always decode; they are exact unless the folder is stale. *)
Definition stats_repr (v : gmap Bytes Bytes) (m : MetaSpec) : Prop :=
  forall f, folder_ok f -> exists s, stored_stats v f = Some s /\
    (f ∉ ms_stale m -> s = compute_stats (map_to_list (index_at (ms_files m) f)).*2).

Definition meta_repr (v : gmap Bytes Bytes) (m : MetaSpec) : Prop := entries_repr v m /\ stats_repr v m.

(** *** Calls of the store *)

Lemma run_blocking_cases {X A : Type} (f : SE X SyncthingError A) w r w' :
  run_blocking f w = (r, w') ->
  (f (b_state w) = (r, b_state w') /\ b_late w' = b_late w) \/
  (b_state w' = b_state w /\ (r = Err ETimeout \/ r = Err EInternal)).
Proof.
  unfold run_blocking. destruct (b_runs w) as [|[] rest]; [| |intros [= <- <-]; right; cbn; auto..];
    destruct (f (b_state w)) as [r0 x] eqn:E; intros [= <- <-]; left; done.
Qed.

(** [c] leaves the store alone and its results satisfy [P]. *)
Definition reads {A : Type} (c : M A) (P : gmap Bytes Bytes -> A -> Prop) : Prop :=
  forall w r w', c w = (r, w') -> meta_view w' = meta_view w /\ forall a, r = Ok a -> P (meta_view w) a.

(** [c] succeeds and changes the store by [g], or fails and leaves it alone. *)
Definition writes {A : Type} (c : M A) (g : gmap Bytes Bytes -> gmap Bytes Bytes) : Prop :=
  forall w r w', c w = (r, w') -> meta_view w' = if is_ok r then g (meta_view w) else meta_view w.

Lemma reads_run {A : Type} (f : SE (StoreInner S) SyncthingError A) P :
  (forall i r i', f i = (r, i') -> inner_view i' = inner_view i /\ forall a, r = Ok a -> P (inner_view i) a) ->
  reads (run_blocking f) P.
Proof.
  intros Hf w r w' E. unfold meta_view. apply run_blocking_cases in E as [[E _]|[-> Hr]]; [by apply Hf|].
  split; [done|]. intros a ->. by destruct Hr.
Qed.

Lemma writes_run {A : Type} (f : SE (StoreInner S) SyncthingError A) g :
  (forall i r i', f i = (r, i') -> inner_view i' = if is_ok r then g (inner_view i) else inner_view i) ->
  writes (run_blocking f) g.
Proof.
  intros Hf w r w' E. unfold meta_view. apply run_blocking_cases in E as [[E _]|[-> [-> | ->]]]; [by apply Hf|done|done].
Qed.

Lemma reads_ret {A : Type} (a : A) (P : gmap Bytes Bytes -> A -> Prop) : (forall v, P v a) -> reads (se_ret a) P.
Proof. intros HP w r w' [= <- <-]. split; [done|]. by intros ? [= <-]. Qed.

Lemma reads_pure {A : Type} (o : result SyncthingError A) :
  reads (se_read (fun _ => o)) (fun _ a => o = Ok a).
Proof. intros w r w' [= <- <-]. done. Qed.

Lemma reads_bind {A B : Type} (c : M A) (k : A -> M B) P Q :
  reads c P -> (forall a, reads (k a) (Q a)) -> reads (se_bind c k) (fun v b => exists a, P v a /\ Q a v b).
Proof.
  intros Hc Hk w r w' E. unfold se_bind in E. destruct (c w) as [[a|e] w1] eqn:Ec.
  - destruct (Hc _ _ _ Ec) as [E1 HP]. destruct (Hk a _ _ _ E) as [E2 HQ]. rewrite E2. split; [done|].
    intros b Hb. exists a. split; [by apply HP|]. rewrite <-E1. by apply HQ.
  - destruct (Hc _ _ _ Ec) as [E1 _]. simplify_eq. split; [done|]. by intros.
Qed.

Lemma reads_impl {A : Type} (c : M A) (P Q : gmap Bytes Bytes -> A -> Prop) :
  reads c P -> (forall v a, P v a -> Q v a) -> reads c Q.
Proof. intros Hc Hi w r w' E. destruct (Hc _ _ _ E). split; eauto. Qed.

Lemma reads_get k : reads (run_blocking (inner_get k)) (fun v x => x = v !! k).
Proof.
  apply reads_run. intros [s|s] r i' E; unfold inner_get, on_inner in E; cbn in E; injection E as <- <-;
    (split; [done|]); intros a Ea; destruct (sled_get s k) as [x|] eqn:Es; cbn in Ea; simplify_eq;
    by apply sled_get_spec in Es.
Qed.

Lemma reads_contains k : reads (run_blocking (inner_contains k)) (fun v b => b = bool_decide (is_Some (v !! k))).
Proof.
  apply reads_run. intros [s|s] r i' E; unfold inner_contains, on_inner in E; cbn in E; injection E as <- <-;
    (split; [done|]); intros a Ea; destruct (sled_contains_key s k) as [x|] eqn:Es; cbn in Ea; simplify_eq;
    by apply sled_contains_spec in Es.
Qed.

Lemma collect_scan_Ok l kvs : collect_scan l = Ok kvs -> l = Ok <$> kvs.
Proof.
  revert kvs. induction l as [|[kv|[]] l IH]; intros kvs E; cbn in E; simplify_eq; [done|].
  apply result_bind_Ok in E as (kvs' & E & [= <-]). by rewrite (IH _ E).
Qed.

Abbreviation under p v := (filter (fun kv : Bytes * Bytes => starts_with p kv.1 = true) (map_to_list v)).

Lemma reads_scan p : reads (run_blocking (inner_scan_prefix p)) (fun v l => l ≡ₚ under p v).
Proof.
  apply reads_run. intros [s|s] r i' E; unfold inner_scan_prefix, on_inner in E; cbn in E; injection E as <- <-;
    (split; [done|]); intros a Ea%collect_scan_Ok; by apply sled_scan_spec.
Qed.

Lemma writes_put k b : writes (run_blocking (inner_put k b)) (<[k := b]>).
Proof.
  apply writes_run. intros [s|s] r i' E; unfold inner_put, on_inner, db_put, tree_put in E; cbn in E;
    pose proof (sled_insert_spec s k b) as Hs; destruct (sled_insert s k b) as [[o|e] s']; cbn in *; by simplify_eq.
Qed.

Lemma writes_delete k : writes (run_blocking (inner_delete k)) (base.delete k).
Proof.
  apply writes_run. intros [s|s] r i' E; unfold inner_delete, on_inner, db_delete, tree_delete in E; cbn in E;
    pose proof (sled_remove_spec s k) as Hs; destruct (sled_remove s k) as [[o|e] s']; cbn in *; by simplify_eq.
Qed.

Lemma writes_batch b : writes (run_blocking (inner_apply_batch b)) (fun v => foldl batch_step v (sled_batch b)).
Proof.
  apply writes_run. intros [s|s] r i' E; unfold inner_apply_batch, on_inner, db_apply_batch, tree_apply_batch in E;
    cbn in E; pose proof (sled_batch_spec s (sled_batch b)) as Hs;
    destruct (sled_apply_batch s (sled_batch b)) as [[o|e] s']; cbn in *; by simplify_eq.
Qed.

Lemma reads_flush : reads (run_blocking inner_flush) (fun _ _ => True).
Proof.
  apply reads_run. intros [s|s] r i' E; unfold inner_flush, on_inner, db_flush, tree_flush in E; cbn in E;
    pose proof (sled_flush_spec s) as Hs; destruct (sled_flush s) as [o s']; cbn in *; by simplify_eq.
Qed.

(** *** Listings *)

Lemma Forall2_choice {A B : Type} (R : A -> B -> Prop) (l : list A) :
  (forall x, x ∈ l -> exists y, R x y) -> exists L, Forall2 R l L.
Proof.
  induction l as [|x l IH]; intros Hx; [by exists []|].
  destruct (Hx x) as [y Hy]; [by left|]. destruct IH as [L HL]; [intros z Hz; apply Hx; by right|].
  exists (y :: L). by constructor.
Qed.

(** The entries below a prefix are the entries of an index. *)
Lemma scan_lists (v : gmap Bytes Bytes) (p : Bytes) (keyf : str -> Bytes) (ix : gmap str FileInfo)
  (results : list (Bytes * Bytes)) :
  Inj (=) (=) keyf ->
  (forall k b, v !! k = Some b -> starts_with p k = true -> exists n, k = keyf n) ->
  (forall n, starts_with p (keyf n) = true) ->
  (forall n, option_Forall2 (stored n) (v !! keyf n) (ix !! n)) ->
  results ≡ₚ under p v ->
  exists l, deserialize_all results = Ok l /\ l ≡ₚ (map_to_list ix).*2.
Proof.
  intros Hinj Hpre Hkey Hst Hp.
  assert (forall kb, kb ∈ results <-> v !! kb.1 = Some kb.2 /\ starts_with p kb.1 = true) as Hin.
  { intros [k b]. rewrite Hp, list_elem_of_filter, elem_of_map_to_list. naive_solver. }
  assert (NoDup results.*1) as Hnd.
  { rewrite Hp. apply (sublist_NoDup _ (map_to_list v).*1); [apply NoDup_fst_map_to_list|apply fmap_sublist, sublist_filter]. }
  set (R := fun (kb : Bytes * Bytes) (nf : str * FileInfo) =>
    kb.1 = keyf nf.1 /\ stored nf.1 kb.2 nf.2 /\ ix !! nf.1 = Some nf.2).
  assert (exists L, Forall2 R results L) as [L HL].
  { apply Forall2_choice. intros [k b] Hkb. apply Hin in Hkb as [Ek Ep]. cbn in *.
    destruct (Hpre _ _ Ek Ep) as [n ->]. specialize (Hst n). rewrite Ek in Hst.
    inversion Hst as [? f Hs E1 E2|]; subst. exists (n, f). done. }
  exists L.*2. split.
  - clear -HL. induction HL as [|[k b] [n f] results L (_ & [Hs _] & _) _ IH]; cbn; [done|].
    cbn in Hs. by rewrite Hs, IH.
  - apply fmap_Permutation, NoDup_Permutation; [| apply NoDup_map_to_list|].
    + apply (NoDup_fmap_1 fst), (NoDup_fmap_1 keyf). assert (keyf <$> L.*1 = results.*1) as ->; [|done].
      clear -HL. induction HL as [|x y ? ? [E _] _ IH]; [done|]. rewrite !fmap_cons. by rewrite IH, E.
    + intros [n f]. rewrite elem_of_map_to_list. split.
      * intros Hnf. apply list_elem_of_lookup in Hnf as [i Hi].
        destruct (Forall2_lookup_r _ _ _ _ _ HL Hi) as (? & _ & _ & _ & ?). done.
      * intros E. specialize (Hst n). rewrite E in Hst. inversion Hst as [b ? Hs E1 E2|]; subst.
        assert ((keyf n, b) ∈ results) as [i Hi]%list_elem_of_lookup by (apply Hin; eauto).
        destruct (Forall2_lookup_l _ _ _ _ _ HL Hi) as ([n' f'] & Hl & En & _ & Ef). cbn in *.
        apply (inj keyf) in En as <-. replace f with f' by congruence. by eapply list_elem_of_lookup_2.
Qed.

Lemma index_lists v m f results :
  entries_repr v m -> folder_ok f -> results ≡ₚ under (make_folder_prefix f) v ->
  exists l, deserialize_all results = Ok l /\ l ≡ₚ (map_to_list (index_at (ms_files m) f)).*2.
Proof.
  intros [Hk Hf _] Hok Hp. apply (scan_lists v (make_folder_prefix f) (make_file_key f)); [| | |auto|done].
  - intros n n' E. apply (key_bytes_inj (KeyFile f n) (KeyFile f n')) in E; [congruence|done|done].
  - intros k b E Es. destruct (Hk _ _ E) as (mk & Hmk & ->).
    apply folder_prefix_keys in Es as [n ->]; [by exists n|done|done].
  - intros n. apply (folder_prefix_keys f (KeyFile f n)); eauto.
Qed.

Lemma device_lists v m d f results :
  entries_repr v m -> "/"%char ∉ d -> "/"%char ∉ f -> results ≡ₚ under (make_device_prefix d f) v ->
  exists l, deserialize_all results = Ok l /\ l ≡ₚ (map_to_list (index_at (ms_devices m) (d, f))).*2.
Proof.
  intros [Hk _ Hdv] Hd Hf Hp. apply (scan_lists v (make_device_prefix d f) (make_device_file_key d f)); [| | |auto|done].
  - intros n n' E. apply device_key_inj in E as (_ & _ & ?); done.
  - intros k b E Es. destruct (Hk _ _ E) as (mk & Hmk & ->).
    apply device_prefix_keys in Es as [n ->]; [by exists n|done|done|done].
  - intros n. apply (device_prefix_keys d f (KeyDevice d f n)); [done|done|done|eauto].
Qed.

Lemma sorted_lists (ix : gmap str FileInfo) l : l ≡ₚ (map_to_list ix).*2 -> lists_index ix (sort_by sequence l).
Proof. intros Hl. split; [by rewrite sort_by_perm|apply sort_by_sorted]. Qed.

Lemma reads_index f :
  reads (get_folder_index f) (fun v l => forall m, entries_repr v m -> folder_ok f -> lists_index (index_at (ms_files m) f) l).
Proof.
  eapply reads_impl.
  - apply reads_bind; [apply reads_scan|]. intros results. apply reads_bind; [apply reads_pure|].
    intros files. apply (reads_ret _ (fun _ l => l = sort_by sequence files)). done.
  - intros v a (results & Hr & files & Hf & ->) m Hm Hok.
    destruct (index_lists v m f results Hm Hok Hr) as (l & El & Hl).
    rewrite Hf in El. injection El as <-. by apply sorted_lists.
Qed.

Lemma reads_device_files d f :
  reads (get_device_files d f) (fun v l => forall m, entries_repr v m -> "/"%char ∉ d -> "/"%char ∉ f ->
    lists_index (index_at (ms_devices m) (d, f)) l).
Proof.
  eapply reads_impl.
  - apply reads_bind; [apply reads_scan|]. intros results. apply reads_bind; [apply reads_pure|].
    intros files. apply (reads_ret _ (fun _ l => l = sort_by sequence files)). done.
  - intros v a (results & Hr & files & Hf & ->) m Hm Hd Hf'.
    destruct (device_lists v m d f results Hm Hd Hf' Hr) as (l & El & Hl).
    rewrite Hf in El. injection El as <-. by apply sorted_lists.
Qed.

(** An entry of the store, read back. *)
Lemma reads_entry {A : Type} `{Serde A} k :
  reads (let! value := run_blocking (inner_get k) in decode_entry value)
    (fun v (x : option A) => match v !! k with Some b => exists a, from_slice b = Ok a /\ x = Some a | None => x = None end).
Proof.
  eapply reads_impl.
  - apply (reads_bind _ _ _ (fun o _ (x : option A) =>
      match o with Some b => exists a, from_slice b = Ok a /\ x = Some a | None => x = None end) (reads_get k)).
    intros [b|]; cbn [decode_entry].
    + apply (reads_impl _ (fun _ x => result_map Some (storage_err (from_slice b)) = Ok x)
        (fun _ (x : option A) => exists a, from_slice b = Ok a /\ x = Some a)); [apply reads_pure|].
      intros v x. destruct (from_slice b) as [a|]; cbn; [|done]. intros [= <-]. eauto.
    + by apply (reads_ret _ (fun _ x => x = None)).
  - cbn. by intros v x (o & -> & Hx).
Qed.

(** Entries read back are those of the index. *)
Lemma stored_reads n (o : option Bytes) (o' x : option FileInfo) :
  option_Forall2 (stored n) o o' ->
  match o with Some b => exists a, from_slice b = Ok a /\ x = Some a | None => x = None end -> x = o'.
Proof. intros [b f [Hs _]|]; [|done]. intros (a & Ea & ->). congruence. Qed.

Lemma update_folder_stats_spec f m w r w' :
  update_folder_stats f w = (r, w') -> entries_repr (meta_view w) m -> folder_ok f ->
  match r with
  | Ok _ => exists b, meta_view w' = <[make_folder_stats_key f := b]> (meta_view w) /\
      from_slice b = Ok (compute_stats (map_to_list (index_at (ms_files m) f)).*2)
  | Err _ => meta_view w' = meta_view w
  end.
Proof.
  intros E Hm Hok. unfold update_folder_stats, se_bind at 1 in E.
  destruct (get_folder_index f w) as [[files|e] w1] eqn:E1; destruct (reads_index f _ _ _ E1) as [V1 Hl]; [|by simplify_eq].
  specialize (Hl files eq_refl m Hm Hok) as [Hl _]. unfold serialize, se_bind at 1, se_read in E. cbn in E.
  destruct (to_vec (compute_stats files)) as [b|u] eqn:Eb; cbn in E; [|by simplify_eq].
  unfold se_bind, se_ret in E. destruct (run_blocking (inner_put (make_folder_stats_key f) b) w1) as [[u|e] w2] eqn:E2;
    pose proof (writes_put _ _ _ _ _ E2) as V2; cbn in V2; injection E as <- <-.
  - exists b. rewrite V2, V1. split; [done|]. apply serde_roundtrip in Eb. by rewrite Eb, (compute_stats_perm _ _ Hl).
  - congruence.
Qed.

(** *** Changes of the store *)

Lemma index_at_insert {K : Type} `{Countable K} (m : gmap K (gmap str FileInfo)) k ix k' :
  index_at (<[k := ix]> m) k' = if decide (k = k') then ix else index_at m k'.
Proof. unfold index_at. rewrite lookup_insert. by case_decide. Qed.

Lemma insert_key_repr v m k0 b :
  entries_repr v m -> key_ok k0 ->
  (forall f n, folder_ok f -> KeyFile f n <> k0 ->
     <[key_bytes k0 := b]> v !! make_file_key f n = v !! make_file_key f n) /\
  (forall d f n, "/"%char ∉ d -> "/"%char ∉ f -> KeyDevice d f n <> k0 ->
     <[key_bytes k0 := b]> v !! make_device_file_key d f n = v !! make_device_file_key d f n) /\
  (forall k b', <[key_bytes k0 := b]> v !! k = Some b' -> exists mk, key_ok mk /\ k = key_bytes mk).
Proof.
  intros [Hk _ _] Hok. split_and!.
  - intros f n Hf Hne. apply lookup_insert_ne. intros E. apply Hne. symmetry. by apply key_bytes_inj.
  - intros d f n Hd Hf Hne. apply lookup_insert_ne. intros E. apply Hne. symmetry. by apply key_bytes_inj.
  - intros k b' [[<- _]|[_ E]]%lookup_insert_Some; [by exists k0|by eapply Hk].
Qed.

Lemma insert_file_repr v m f b info :
  entries_repr v m -> folder_ok f -> from_slice b = Ok info ->
  entries_repr (<[make_file_key f (name info) := b]> v)
    (set_index m f (<[name info := info]> (index_at (ms_files m) f))).
Proof.
  intros Hm Hok Hb. destruct (insert_key_repr v m (KeyFile f (name info)) b Hm Hok) as (Hf & Hd & Hk).
  cbn [key_bytes] in *. destruct Hm as [_ Hmf Hmd]. split; [done| |].
  - intros f' n' Hf'. cbn [ms_files set_index]. rewrite index_at_insert. case_decide as E; [subst f'|].
    + destruct (decide (name info = n')) as [<-|Hn]; [rewrite !lookup_insert_eq; by constructor|].
      rewrite Hf by naive_solver. rewrite lookup_insert_ne by done. by apply Hmf.
    + rewrite Hf by naive_solver. by apply Hmf.
  - intros d f' n' Hd' Hf'. cbn [ms_devices set_index]. rewrite Hd by done. by apply Hmd.
Qed.

Lemma insert_device_repr v m d f b info :
  entries_repr v m -> "/"%char ∉ d -> "/"%char ∉ f -> from_slice b = Ok info ->
  entries_repr (<[make_device_file_key d f (name info) := b]> v) (spec_entries m (MPutDevice d f info)).
Proof.
  intros Hm Hok1 Hok2 Hb. destruct (insert_key_repr v m (KeyDevice d f (name info)) b Hm) as (Hf & Hd & Hk); [done|].
  cbn [key_bytes spec_entries] in *. destruct Hm as [_ Hmf Hmd]. split; [done| |].
  - intros f' n' Hf'. cbn [ms_files]. rewrite Hf by done. by apply Hmf.
  - intros d' f' n' Hd' Hf'. cbn [ms_devices]. rewrite index_at_insert. case_decide as E; [injection E as <- <-|].
    + destruct (decide (name info = n')) as [<-|Hn]; [rewrite !lookup_insert_eq; by constructor|].
      rewrite Hd by naive_solver. rewrite lookup_insert_ne by done. by apply Hmd.
    + rewrite Hd by naive_solver. by apply Hmd.
Qed.

Lemma insert_stats_repr v m f b : entries_repr v m -> entries_repr (<[make_folder_stats_key f := b]> v) m.
Proof.
  intros Hm. destruct (insert_key_repr v m (KeyStats f) b Hm I) as (Hf & Hd & Hk). cbn [key_bytes] in *.
  destruct Hm as [_ Hmf Hmd]. split; [done| |]; intros; [rewrite Hf by done; by apply Hmf|rewrite Hd by done; by apply Hmd].
Qed.

(** Removing some entries of one folder. *)
Lemma remove_files_repr v v' m f (gone : str -> Prop) `{forall n, Decision (gone n)} ix :
  entries_repr v m -> folder_ok f ->
  (forall k, (exists n, gone n /\ k = make_file_key f n) -> v' !! k = None) ->
  (forall k, ~ (exists n, gone n /\ k = make_file_key f n) -> v' !! k = v !! k) ->
  (forall n, ix !! n = if decide (gone n) then None else index_at (ms_files m) f !! n) ->
  entries_repr v' (set_index m f ix).
Proof.
  intros [Hk Hmf Hmd] Hok Hg Hs Hix. split.
  - intros k b E. apply (Hk k b). destruct (decide (v !! k = Some b)) as [|Hne]; [done|]. exfalso. apply Hne.
    rewrite <-Hs; [done|]. intros He. apply Hg in He. congruence.
  - intros f' n Hf'. cbn [ms_files set_index]. rewrite index_at_insert. case_decide as E; [subst f'; rewrite Hix; case_decide|].
    + rewrite Hg by eauto. constructor.
    + rewrite Hs; [by apply Hmf|]. intros (n' & Hn & E). apply (key_bytes_inj (KeyFile f n) (KeyFile f n')) in E; naive_solver.
    + rewrite Hs; [by apply Hmf|]. intros (n' & Hn & E'). apply (key_bytes_inj (KeyFile f' n) (KeyFile f n')) in E'; naive_solver.
  - intros d f' n Hd Hf'. cbn [ms_devices set_index]. rewrite Hs; [by apply Hmd|]. intros (n' & _ & E).
    apply (key_bytes_inj (KeyDevice d f' n) (KeyFile f n')) in E; naive_solver.
Qed.

Lemma batch_removes v ks k :
  foldl batch_step v (BatchRemove <$> ks) !! k = if decide (k ∈ ks) then None else v !! k.
Proof.
  revert v. induction ks as [|k0 ks IH]; intros v; cbn; [done|]. rewrite IH.
  destruct (decide (k = k0)) as [->|Hne].
  - rewrite (decide_True (P := k0 ∈ k0 :: ks)) by by left. case_decide; [done|]. apply lookup_delete_eq.
  - rewrite lookup_delete_ne by done. do 2 case_decide; set_solver.
Qed.

Lemma serialize_batch_repr f files batch v m :
  serialize_files f files = Ok batch -> entries_repr v m -> folder_ok f ->
  entries_repr (foldl batch_step v (sled_batch batch))
    (set_index m f (add_files (index_at (ms_files m) f) files)).
Proof.
  intros E Hm Hok. revert batch v m E Hm. induction files as [|x files IH]; intros batch v m E Hm; cbn in E.
  - injection E as <-. cbn. destruct Hm as [Hk Hmf Hmd]. split; [done| |done]. intros f' n Hf'. cbn [ms_files set_index].
    rewrite index_at_insert. case_decide as E; [subst f'|]; by apply Hmf.
  - destruct (to_vec x) as [b|] eqn:Eb; cbn in E; [|done]. apply result_bind_Ok in E as (rest & E & [= <-]).
    apply serde_roundtrip in Eb. cbn [sled_batch fmap list_fmap foldl batch_step snd fst].
    pose proof (insert_file_repr v m f b x Hm Hok Eb) as Hm1. specialize (IH rest _ _ E Hm1).
    cbn [add_files foldl]. fold (add_files (<[name x := x]> (index_at (ms_files m) f)) files).
    cbn [ms_files set_index] in IH. rewrite index_at_insert, decide_True in IH by done.
    unfold set_index in *. cbn [ms_files ms_devices ms_stale] in IH. by rewrite insert_insert_eq in IH.
Qed.

(** Batches of file entries leave the statistics alone. *)
Lemma batch_keeps v ops k :
  Forall (fun op => match op with BatchInsert k' _ | BatchRemove k' => k' <> k end) ops ->
  foldl batch_step v ops !! k = v !! k.
Proof.
  intros HF. revert v. induction HF as [|[k' b|k'] ops Hk _ IH]; intros v; cbn; [done|..]; rewrite IH;
    [by apply lookup_insert_ne|by apply lookup_delete_ne].
Qed.

Lemma stats_key_ne f n f' : folder_ok f -> make_file_key f n <> make_folder_stats_key f'.
Proof. intros Hf E. by apply (key_bytes_inj (KeyFile f n) (KeyStats f')) in E. Qed.

Lemma serialize_keys f files batch f' :
  folder_ok f -> serialize_files f files = Ok batch ->
  Forall (fun op => match op with BatchInsert k' _ | BatchRemove k' => k' <> make_folder_stats_key f' end) (sled_batch batch).
Proof.
  intros Hok. revert batch. induction files as [|x files IH]; intros batch E; cbn in E; [injection E as <-; constructor|].
  destruct (to_vec x) as [b|]; cbn in E; [|done]. apply result_bind_Ok in E as (rest & E & [= <-]).
  constructor; [by apply stats_key_ne|by apply IH].
Qed.

(** *** Every operation refines the maps *)

Lemma stale_weaken v m op : meta_repr v m -> meta_repr v (op_stale op m).
Proof.
  intros [Hm Hs]. unfold op_stale. destruct (op_folder op) as [f|]; [|done]. split.
  - destruct Hm as [Hk Hf Hd]. by split.
  - intros f' Hf'. destruct (Hs f' Hf') as (s & E & Hst). exists s. split; [done|]. cbn. intros Hn. apply Hst. set_solver.
Qed.

Lemma finish_stats v v1 m m1 f :
  meta_repr v m -> entries_repr v1 m1 -> folder_ok f ->
  (forall f', v1 !! make_folder_stats_key f' = v !! make_folder_stats_key f') ->
  (forall f', f' <> f -> index_at (ms_files m1) f' = index_at (ms_files m) f') -> ms_stale m1 = ms_stale m ->
  meta_repr v1 (set_stale (fun s => s ∪ {[f]}) m1) /\
  forall b, from_slice b = Ok (compute_stats (map_to_list (index_at (ms_files m1) f)).*2) ->
    meta_repr (<[make_folder_stats_key f := b]> v1) (set_stale (fun s => s ∖ {[f]}) m1).
Proof.
  intros [_ Hs] Hm1 Hok Hk Hix Hst. split.
  - split; [by destruct Hm1; split|]. intros f' Hf'. destruct (Hs f' Hf') as (s & E & Hc). exists s.
    unfold stored_stats. rewrite Hk. split; [exact E|]. cbn. rewrite Hst. intros Hn. rewrite Hix by set_solver.
    apply Hc. set_solver.
  - intros b Hb. split.
    + pose proof (insert_stats_repr v1 m1 f b Hm1) as []. by split.
    + intros f' Hf'. cbn [ms_files ms_stale set_stale]. destruct (decide (f' = f)) as [->|Hne].
      * eexists. split; [|intros _; reflexivity]. unfold stored_stats. by rewrite lookup_insert_eq, Hb.
      * destruct (Hs f' Hf') as (s & E & Hc). exists s. unfold stored_stats. rewrite lookup_insert_ne, Hk, Hix, Hst.
        -- split; [exact E|]. intros Hn. apply Hc. set_solver.
        -- done.
        -- intros E'. apply (key_bytes_inj (KeyStats f) (KeyStats f')) in E'; naive_solver.
Qed.

Lemma mutation_refines {A : Type} (c : M A) g f op m w r w' :
  op_folder op = Some f -> writes c g -> meta_repr (meta_view w) m -> folder_ok f ->
  entries_repr (g (meta_view w)) (spec_entries m op) ->
  (forall f', g (meta_view w) !! make_folder_stats_key f' = meta_view w !! make_folder_stats_key f') ->
  (do! c in do! update_folder_stats f in se_ret tt) w = (r, w') ->
  exists m', meta_repr (meta_view w') m' /\
    match r with
    | Ok _ => m' = op_fresh op (spec_entries m op)
    | Err _ => m' = op_stale op m \/ m' = op_stale op (spec_entries m op)
    end.
Proof.
  intros Eop Hc Hm Hok Hg Hk E. unfold se_bind at 1 in E. destruct (c w) as [[a|e] w1] eqn:Ec;
    pose proof (Hc _ _ _ Ec) as V1; cbn in V1.
  - assert (forall f', f' <> f -> index_at (ms_files (spec_entries m op)) f' = index_at (ms_files m) f') as Hix.
    { destruct op; cbn in Eop; simplify_eq; intros f' Hne; cbn [spec_entries set_index ms_files];
        rewrite index_at_insert; by rewrite decide_False. }
    assert (ms_stale (spec_entries m op) = ms_stale m) as Hst by by destruct op.
    destruct (finish_stats _ _ _ _ f Hm Hg Hok Hk Hix Hst) as [Hbad Hgood].
    unfold se_bind, se_ret in E. destruct (update_folder_stats f w1) as [[u|e] w2] eqn:E2; injection E as <- <-.
    + destruct (update_folder_stats_spec f _ _ _ _ E2 ltac:(rewrite V1; exact Hg) Hok) as (b & -> & Hb).
      rewrite V1. exists (op_fresh op (spec_entries m op)). split; [|done]. unfold op_fresh. rewrite Eop. by apply Hgood.
    + pose proof (update_folder_stats_spec f _ _ _ _ E2 ltac:(rewrite V1; exact Hg) Hok) as V2. cbn in V2.
      rewrite V2, V1. eexists. split; [exact Hbad|]. right. unfold op_stale. by rewrite Eop.
  - injection E as <- <-. rewrite V1. eexists. split; [by apply stale_weaken|]. by left.
Qed.

Lemma se_bind_pure {A B : Type} (o : result SyncthingError A) (k : A -> M B) w :
  se_bind (se_read (fun _ => o)) k w = match o with Ok a => k a w | Err e => (Err e, w) end.
Proof. unfold se_bind, se_read. by destruct o. Qed.

Lemma put_file_refines f info m w r w' :
  put_file f info w = (r, w') -> meta_repr (meta_view w) m -> folder_ok f ->
  exists m', meta_repr (meta_view w') m' /\
    match r with
    | Ok _ => m' = op_fresh (MPutFile f info) (spec_entries m (MPutFile f info))
    | Err _ => m' = op_stale (MPutFile f info) m \/ m' = op_stale (MPutFile f info) (spec_entries m (MPutFile f info))
    end.
Proof.
  intros E Hm Hok. unfold put_file, serialize in E. rewrite se_bind_pure in E.
  destruct (to_vec info) as [b|] eqn:Eb; cbn [storage_err] in E.
  - eapply mutation_refines; [reflexivity|apply writes_put|exact Hm|exact Hok| | |exact E].
    + apply insert_file_repr; [by destruct Hm|done|by apply serde_roundtrip].
    + intros f'. apply lookup_insert_ne. by apply stats_key_ne.
  - injection E as <- <-. eexists. split; [by apply stale_weaken|]. by left.
Qed.

Lemma delta_refines f files m w r w' :
  meta_update_index_delta f files w = (r, w') -> meta_repr (meta_view w) m -> folder_ok f ->
  exists m', meta_repr (meta_view w') m' /\
    match r with
    | Ok _ => m' = op_fresh (MDelta f files) (spec_entries m (MDelta f files))
    | Err _ => m' = op_stale (MDelta f files) m \/ m' = op_stale (MDelta f files) (spec_entries m (MDelta f files))
    end.
Proof.
  intros E Hm Hok. unfold meta_update_index_delta in E. rewrite se_bind_pure in E.
  destruct (serialize_files f files) as [batch|e] eqn:Eb.
  - eapply mutation_refines; [reflexivity|apply writes_batch|exact Hm|exact Hok| | |exact E].
    + apply serialize_batch_repr; [done|by destruct Hm|done].
    + intros f'. apply batch_keeps. by eapply serialize_keys.
  - injection E as <- <-. eexists. split; [by apply stale_weaken|]. by left.
Qed.

Lemma delete_refines f n m w r w' :
  meta_delete_file f n w = (r, w') -> meta_repr (meta_view w) m -> folder_ok f ->
  exists m', meta_repr (meta_view w') m' /\
    match r with
    | Ok _ => m' = op_fresh (MDelete f n) (spec_entries m (MDelete f n))
    | Err _ => m' = op_stale (MDelete f n) m \/ m' = op_stale (MDelete f n) (spec_entries m (MDelete f n))
    end.
Proof.
  intros E Hm Hok. unfold meta_delete_file in E.
  eapply mutation_refines; [reflexivity|apply writes_delete|exact Hm|exact Hok| | |exact E].
  - apply (remove_files_repr (meta_view w) _ m f (fun n' => n' = n)); [by destruct Hm|done| | |].
    + intros k (n' & -> & ->). apply lookup_delete_eq.
    + intros k Hk. apply lookup_delete_ne. naive_solver.
    + intros n'. case_decide as E'; [subst; apply lookup_delete_eq|by apply lookup_delete_ne].
  - intros f'. apply lookup_delete_ne. by apply stats_key_ne.
Qed.

(** The removals of a full update and then its insertions. *)
Lemma update_batch_repr f files entries existing v m :
  entries_repr v m -> folder_ok f -> existing ≡ₚ under (make_folder_prefix f) v ->
  serialize_files f files = Ok entries ->
  let batch := ((fun kv : Bytes * Bytes => (kv.1, None)) <$> existing) ++ entries in
  entries_repr (foldl batch_step v (sled_batch batch)) (set_index m f (add_files ∅ files)) /\
  forall f', foldl batch_step v (sled_batch batch) !! make_folder_stats_key f' = v !! make_folder_stats_key f'.
Proof.
  intros Hm Hok Hp Ee batch.
  assert (forall k, k ∈ existing.*1 <-> exists b n, v !! k = Some b /\ k = make_file_key f n) as Hin.
  { intros k. rewrite list_elem_of_fmap. split.
    - intros ([k' b] & -> & Hkb). rewrite Hp, list_elem_of_filter, elem_of_map_to_list in Hkb. destruct Hkb as [Hs Hv].
      destruct (er_keys _ _ Hm _ _ Hv) as (mk & Hmk & Ek). cbn in *. subst k'.
      apply folder_prefix_keys in Hs as [n ->]; [|done|done]. eauto.
    - intros (b & n & Hv & ->). exists (make_file_key f n, b). split; [done|].
      rewrite Hp, list_elem_of_filter, elem_of_map_to_list. split; [|done].
      apply (folder_prefix_keys f (KeyFile f n)); eauto. }
  assert (sled_batch batch = (BatchRemove <$> existing.*1) ++ sled_batch entries) as ->.
  { unfold batch, sled_batch. rewrite fmap_app. f_equal. rewrite <-!list_fmap_compose. done. }
  rewrite foldl_app. set (v1 := foldl batch_step v (BatchRemove <$> existing.*1)).
  assert (entries_repr v1 (set_index m f ∅)) as Hm1.
  { apply (remove_files_repr v _ m f (fun n => is_Some (v !! make_file_key f n))); [done|done| | |].
    - intros k (n & [b Hb] & ->). unfold v1. rewrite batch_removes. case_decide as E; [done|].
      exfalso. apply E, Hin. eauto.
    - intros k Hk. unfold v1. rewrite batch_removes. case_decide as E; [|done].
      exfalso. apply Hk. apply Hin in E as (b & n & Hv & ->). eauto.
    - intros n. rewrite lookup_empty. case_decide as E; [done|]. pose proof (er_files _ _ Hm f n Hok) as Ho.
      destruct (v !! make_file_key f n); [by destruct E|]. by inversion Ho. }
  split.
  - pose proof (serialize_batch_repr f files entries v1 _ Ee Hm1 Hok) as Hm2. cbn [ms_files set_index] in Hm2.
    rewrite index_at_insert, decide_True in Hm2 by done. unfold set_index in *.
    cbn [ms_files ms_devices ms_stale] in Hm2. by rewrite insert_insert_eq in Hm2.
  - intros f'. rewrite batch_keeps by by eapply serialize_keys. unfold v1. rewrite batch_removes.
    case_decide as E; [|done]. exfalso. apply Hin in E as (b & n & _ & E). symmetry in E. by apply stats_key_ne in E.
Qed.

Lemma update_refines f files m w r w' :
  meta_update_index f files w = (r, w') -> meta_repr (meta_view w) m -> folder_ok f ->
  exists m', meta_repr (meta_view w') m' /\
    match r with
    | Ok _ => m' = op_fresh (MUpdate f files) (spec_entries m (MUpdate f files))
    | Err _ => m' = op_stale (MUpdate f files) m \/ m' = op_stale (MUpdate f files) (spec_entries m (MUpdate f files))
    end.
Proof.
  intros E Hm Hok. unfold meta_update_index, se_bind at 1 in E.
  destruct (run_blocking _ w) as [[existing|e] w1] eqn:E1; destruct (reads_scan _ _ _ _ E1) as [V1 Hl].
  - specialize (Hl existing eq_refl). rewrite se_bind_pure in E. rewrite <-V1 in Hm, Hl.
    destruct (serialize_files f files) as [entries|e] eqn:Ee.
    + pose proof (update_batch_repr f files entries existing (meta_view w1) m (proj1 Hm) Hok Hl Ee) as [Hr Hk].
      eapply mutation_refines; [reflexivity|apply writes_batch|exact Hm|exact Hok|exact Hr|exact Hk|exact E].
    + injection E as <- <-. eexists. split; [by apply stale_weaken|]. by left.
  - injection E as <- <-. rewrite V1. eexists. split; [by apply stale_weaken|]. by left.
Qed.

(** A reading operation whose answers satisfy the specification. *)
Lemma reading_refines {A : Type} (c : M A) (g : A -> MetaReply) P op m w r w' :
  reads c P -> op_folder op = None -> spec_entries m op = m ->
  (forall a, P (meta_view w) a -> spec_reply m op (g a)) -> meta_repr (meta_view w) m ->
  se_map g c w = (r, w') -> exists m', meta_repr (meta_view w') m' /\ spec_step m op r m'.
Proof.
  intros Hc Eop Esp HP Hm E. unfold se_map, se_bind, se_ret in E. destruct (c w) as [[a|e] w1] eqn:Ec;
    destruct (Hc _ _ _ Ec) as [V Ha]; injection E as <- <-; rewrite V; exists m; (split; [done|]); cbn;
    unfold op_fresh, op_stale; rewrite Eop, Esp; [|by left]. split; [|done]. by apply HP, Ha.
Qed.

Lemma put_device_refines d f info m w r w' :
  se_map (fun _ => ReplyUnit) (put_device_file d f info) w = (r, w') -> meta_repr (meta_view w) m ->
  "/"%char ∉ d -> "/"%char ∉ f ->
  exists m', meta_repr (meta_view w') m' /\ spec_step m (MPutDevice d f info) r m'.
Proof.
  intros E Hm Hd Hf. unfold se_map, put_device_file, serialize in E. unfold se_bind at 1 in E. rewrite se_bind_pure in E.
  destruct (to_vec info) as [b|] eqn:Eb; cbn [storage_err] in E; [|injection E as <- <-; exists m; split; [done|by left]].
  unfold se_bind, se_ret in E.
  destruct (run_blocking _ w) as [[u|e] w1] eqn:E1; pose proof (writes_put _ _ _ _ _ E1) as V; cbn in V;
    injection E as <- <-; rewrite V; [|exists m; split; [done|by left]].
  exists (spec_entries m (MPutDevice d f info)). split; [|done]. apply serde_roundtrip in Eb. destruct Hm as [He Hs].
  split; [by apply insert_device_repr|]. intros f' Hf'. destruct (Hs f' Hf') as (s & Es & Hst). exists s.
  split; [|exact Hst]. unfold stored_stats. rewrite lookup_insert_ne; [done|].
  intros E'. by apply (key_bytes_inj (KeyDevice d f (name info)) (KeyStats f')) in E'.
Qed.

(** A mutation, seen as a step of the specification. *)
Lemma unit_refines (c : M unit) op m w r w' :
  (forall r' w1, c w = (r', w1) -> exists m', meta_repr (meta_view w1) m' /\
     match r' with
     | Ok _ => m' = op_fresh op (spec_entries m op)
     | Err _ => m' = op_stale op m \/ m' = op_stale op (spec_entries m op)
     end) ->
  spec_reply m op ReplyUnit -> se_map (fun _ => ReplyUnit) c w = (r, w') ->
  exists m', meta_repr (meta_view w') m' /\ spec_step m op r m'.
Proof.
  intros Hc Hr E. unfold se_map, se_bind, se_ret in E. destruct (c w) as [[a|e] w1] eqn:Ec;
    destruct (Hc _ _ eq_refl) as (m' & Hm' & Hs); injection E as <- <-; exists m'; done.
Qed.

Lemma reads_stats f :
  reads (get_folder_stats f) (fun v s => match v !! make_folder_stats_key f with
    Some b => from_slice b = Ok s | None => s = stats_default end).
Proof.
  eapply reads_impl.
  - unfold get_folder_stats. eapply (reads_bind _ _ _ (fun o _ s => match o : option Bytes with
      | Some b => from_slice b = Ok s | None => s = stats_default end) (reads_get _)).
    intros [b|]; cbn [decode_entry].
    + eapply reads_impl; [eapply reads_bind; [apply reads_pure|]|].
      * intros a. by apply (reads_ret _ (fun _ s => s = default stats_default a)).
      * cbn. intros v s (a & E & ->). destruct (from_slice b) as [x|]; cbn in E; [|done]. by injection E as <-.
    + eapply reads_impl; [eapply reads_bind; [by apply (reads_ret _ (fun _ a => a = None))|]|].
      * intros a. by apply (reads_ret _ (fun _ s => s = default stats_default a)).
      * cbn. by intros v s (a & -> & ->).
  - cbn. by intros v s (o & -> & Hs).
Qed.

Lemma index_lookup_size v m f results :
  entries_repr v m -> folder_ok f -> results ≡ₚ under (make_folder_prefix f) v ->
  length results = base.size (index_at (ms_files m) f).
Proof.
  intros Hm Hok Hp. destruct (index_lists v m f results Hm Hok Hp) as (l & E & Hl).
  assert (length l = length results) as <-.
  { clear -E. revert l E. induction results as [|[k b] results IH]; intros l E; cbn in E; [by injection E as <-|].
    destruct (from_slice b); cbn in E; [|done]. apply result_bind_Ok in E as (l' & E & [= <-]). cbn. by rewrite (IH _ E). }
  rewrite Hl, length_fmap. apply length_map_to_list.
Qed.

Lemma exec_meta_refines op m w r w' :
  exec_meta op w = (r, w') -> meta_repr (meta_view w) m -> meta_op_ok op ->
  exists m', meta_repr (meta_view w') m' /\ spec_step m op r m'.
Proof.
  intros E Hm Hok. destruct op as [f info|f n|f|f files|f files|f n|f|f n|f| |d f info|d f n|d f]; cbn [exec_meta] in E;
    cbn [meta_op_ok] in Hok.
  - eapply unit_refines; [|done|exact E]. intros. by eapply put_file_refines.
  - unfold get_file in E.
    eapply reading_refines; [apply (reads_entry (A := FileInfo))|done|done| |exact Hm|exact E]. cbn. intros a Ha. f_equal.
    eapply stored_reads; [|exact Ha]. apply er_files; [by destruct Hm|done].
  - eapply reading_refines; [apply reads_index|done|done| |exact Hm|exact E]. cbn. intros a Ha. exists a.
    split; [done|]. destruct Hm. by apply Ha.
  - eapply unit_refines; [|done|exact E]. intros. by eapply update_refines.
  - eapply unit_refines; [|done|exact E]. intros. by eapply delta_refines.
  - eapply unit_refines; [|done|exact E]. intros. by eapply delete_refines.
  - eapply reading_refines; [apply reads_stats|done|done| |exact Hm|exact E]. cbn. intros s Hs. exists s. split; [done|].
    destruct Hm as [_ Hst]. destruct (Hst f Hok) as (s' & E' & Hc). unfold stored_stats in E'.
    destruct (meta_view w !! make_folder_stats_key f); [rewrite Hs in E'|subst s]; injection E' as <-; exact Hc.
  - eapply reading_refines; [apply reads_contains|done|done| |exact Hm|exact E]. cbn. intros b ->. f_equal.
    apply bool_decide_ext. destruct Hm as [Hm _]. pose proof (er_files _ _ Hm f n Hok) as Ho.
    inversion Ho; (split; intros [? ?]; try congruence; eauto).
  - unfold meta_file_count in E. eapply reading_refines; [|done|done| |exact Hm|exact E].
    + eapply reads_bind; [apply reads_scan|]. intros l. by apply (reads_ret _ (fun _ c => c = Z.of_nat (length l))).
    + cbn. intros a (l & Hl & ->). f_equal. f_equal. eapply index_lookup_size; [by destruct Hm|done|exact Hl].
  - eapply reading_refines; [apply reads_flush|done|done| |exact Hm|exact E]. done.
  - destruct Hok. by eapply put_device_refines.
  - unfold get_device_file in E.
    eapply reading_refines; [apply (reads_entry (A := FileInfo))|done|done| |exact Hm|exact E]. cbn. intros a Ha. f_equal.
    destruct Hok. eapply stored_reads; [|exact Ha]. apply er_devices; [by destruct Hm|done|done].
  - eapply reading_refines; [apply reads_device_files|done|done| |exact Hm|exact E]. cbn. intros a Ha. exists a.
    split; [done|]. destruct Hok, Hm. by apply Ha.
Qed.

(** *** Late closures *)

(** Whatever the store holds when it runs, closure [g] has effect [e] or none. *)
Definition late_ok (g : StoreInner S -> StoreInner S) (e : LateEffect) : Prop :=
  forall i m, meta_repr (inner_view i) m ->
    exists m', (m' = m \/ m' = late_effect m e) /\ meta_repr (inner_view (g i)) m'.

Lemma late_reads {A : Type} (f : SE (StoreInner S) SyncthingError A) P :
  reads (run_blocking f) P -> late_ok (fun x => (f x).2) LateNothing.
Proof.
  intros Hr i m Hm. exists m. split; [by left|].
  pose proof (Hr (mkBlocking i [] []) (f i).1 (mkBlocking (f i).2 [] [])) as HV. unfold run_blocking in HV. cbn in HV.
  destruct (f i) as [r x]. destruct (HV eq_refl) as [V _]. unfold meta_view in V. cbn in *. by rewrite V.
Qed.

Lemma late_writes {A : Type} (f : SE (StoreInner S) SyncthingError A) g e :
  writes (run_blocking f) g -> (forall v m, meta_repr v m -> meta_repr (g v) (late_effect m e)) ->
  late_ok (fun x => (f x).2) e.
Proof.
  intros Hw Hg i m Hm.
  pose proof (Hw (mkBlocking i [] []) (f i).1 (mkBlocking (f i).2 [] [])) as HV. unfold run_blocking in HV. cbn in HV.
  destruct (f i) as [r x]. specialize (HV eq_refl). unfold meta_view in HV. cbn in *. rewrite HV.
  destruct (is_ok r); eexists; (split; [|first [by apply Hg|exact Hm]]); auto.
Qed.

(** A batch that removes the entries [gone] of a folder and adds [files]. *)
Lemma files_effect f gone files entries ks v m :
  meta_repr v m -> folder_ok f -> serialize_files f files = Ok entries ->
  (forall k, k ∈ ks <-> exists n, n ∈ gone /\ k = make_file_key f n) ->
  meta_repr (foldl batch_step v ((BatchRemove <$> ks) ++ sled_batch entries)) (late_effect m (LateFiles f gone files)).
Proof.
  intros Hm Hok Ee Hks. rewrite foldl_app. set (v1 := foldl batch_step v (BatchRemove <$> ks)).
  assert (entries_repr v1 (set_index m f (without gone (index_at (ms_files m) f)))) as Hm1.
  { apply (remove_files_repr v _ m f (fun n => n ∈ gone)); [by destruct Hm|done| | |].
    - intros k Hk. unfold v1. rewrite batch_removes, decide_True; [done|]. by apply Hks.
    - intros k Hk. unfold v1. rewrite batch_removes, decide_False; [done|]. by rewrite Hks.
    - intros n. unfold without. case_decide as E.
      + apply map_lookup_filter_None. right. intros x _ Hx. by apply Hx.
      + destruct (index_at (ms_files m) f !! n) as [x|] eqn:El; [by apply map_lookup_filter_Some|].
        apply map_lookup_filter_None. by left. }
  pose proof (serialize_batch_repr f files entries v1 _ Ee Hm1 Hok) as Hm2. cbn [ms_files set_index] in Hm2.
  rewrite index_at_insert, decide_True in Hm2 by done. unfold set_index in Hm2.
  cbn [ms_files ms_devices ms_stale] in Hm2. rewrite insert_insert_eq in Hm2.
  refine (proj1 (finish_stats v _ m _ f Hm Hm2 Hok _ _ eq_refl)).
  - intros f'. rewrite batch_keeps by by eapply serialize_keys. unfold v1. rewrite batch_removes.
    case_decide as E; [|done]. exfalso. apply Hks in E as (n & _ & E). symmetry in E. by apply stats_key_ne in E.
  - intros f' Hne. cbn [ms_files]. rewrite index_at_insert. by rewrite decide_False.
Qed.

Lemma late_put_file f info b : folder_ok f -> to_vec info = Ok b ->
  late_ok (fun x => (inner_put (make_file_key f (name info)) b x).2) (LateFiles f ∅ [info]).
Proof.
  intros Hok Eb. eapply late_writes; [apply writes_put|]. intros v m Hm.
  refine (files_effect f ∅ [info] [(make_file_key f (name info), Some b)] [] v m Hm Hok _ _); [by cbn; rewrite Eb|set_solver].
Qed.

Lemma late_batch f gone files entries (existing : list (Bytes * Bytes)) :
  folder_ok f -> serialize_files f files = Ok entries ->
  (forall k, k ∈ existing.*1 <-> exists n, n ∈ gone /\ k = make_file_key f n) ->
  late_ok (fun x => (inner_apply_batch (((fun kv : Bytes * Bytes => (kv.1, None)) <$> existing) ++ entries) x).2)
    (LateFiles f gone files).
Proof.
  intros Hok Ee Hks. eapply late_writes; [apply writes_batch|]. intros v m Hm. cbv beta.
  replace (sled_batch _) with ((BatchRemove <$> existing.*1) ++ sled_batch entries);
    [by apply (files_effect f gone files entries existing.*1)|].
  unfold sled_batch. rewrite fmap_app. f_equal. by rewrite <-!list_fmap_compose.
Qed.

Lemma late_delete f n : folder_ok f ->
  late_ok (fun x => (inner_delete (make_file_key f n) x).2) (LateFiles f {[n]} []).
Proof.
  intros Hok. eapply late_writes; [apply writes_delete|]. intros v m Hm.
  refine (files_effect f {[n]} [] [] [make_file_key f n] v m Hm Hok eq_refl _). set_solver.
Qed.

Lemma late_put_stats f s b : to_vec s = Ok b ->
  late_ok (fun x => (inner_put (make_folder_stats_key f) b x).2) (LateStats f).
Proof.
  intros Eb%serde_roundtrip. eapply late_writes; [apply writes_put|]. intros v m [Hm Hs]. split.
  - pose proof (insert_stats_repr v m f b Hm) as []. by split.
  - intros f' Hf'. cbn [ms_files ms_stale set_stale late_effect]. unfold stored_stats. destruct (decide (f' = f)) as [->|Hne].
    + exists s. rewrite lookup_insert_eq, Eb. split; [done|set_solver].
    + destruct (Hs f' Hf') as (s' & E & Hc). exists s'. rewrite lookup_insert_ne; [split; [exact E|set_solver]|].
      intros E'. apply (key_bytes_inj (KeyStats f) (KeyStats f')) in E'; naive_solver.
Qed.

Lemma late_put_device d f info b : "/"%char ∉ d -> "/"%char ∉ f -> to_vec info = Ok b ->
  late_ok (fun x => (inner_put (make_device_file_key d f (name info)) b x).2) (LateDevice d f info).
Proof.
  intros Hd Hf Eb%serde_roundtrip. eapply late_writes; [apply writes_put|]. intros v m [Hm Hs].
  split; [by apply insert_device_repr|]. intros f' Hf'. destruct (Hs f' Hf') as (s & Es & Hst). exists s.
  split; [|exact Hst]. unfold stored_stats. rewrite lookup_insert_ne; [done|].
  intros E'. by apply (key_bytes_inj (KeyDevice d f (name info)) (KeyStats f')) in E'.
Qed.

(** *** What a call leaves behind *)

(** From state [w], [c] leaves no closure behind, or it answers with a time-out
    and leaves one that satisfies [L]. *)
Definition leaves {A : Type} (L : (StoreInner S -> StoreInner S) -> Prop) (c : M A) (w : MetadataStore) : Prop :=
  forall r w', c w = (r, w') ->
    b_late w' = b_late w \/ (r = Err ETimeout /\ exists g, b_late w' = b_late w ++ [g] /\ L g).

Lemma leaves_run {A : Type} L (f : SE (StoreInner S) SyncthingError A) w :
  L (fun x => (f x).2) -> leaves L (run_blocking f) w.
Proof.
  intros HL r w' E. unfold run_blocking in E. destruct (b_runs w) as [|[] rest].
  - destruct (f (b_state w)). injection E as <- <-. by left.
  - destruct (f (b_state w)). injection E as <- <-. by left.
  - injection E as <- <-. right. split; [done|]. by eexists.
  - injection E as <- <-. by left.
Qed.

Lemma leaves_pure {A : Type} L (o : result SyncthingError A) w : leaves L (se_read (fun _ => o)) w.
Proof. intros r w' [= <- <-]. by left. Qed.

Lemma leaves_ret {A : Type} L (a : A) w : leaves L (se_ret a) w.
Proof. intros r w' [= <- <-]. by left. Qed.

Lemma leaves_bind {A B : Type} L (c : M A) (k : A -> M B) w :
  leaves L c w -> (forall a w1, c w = (Ok a, w1) -> leaves L (k a) w1) -> leaves L (se_bind c k) w.
Proof.
  intros Hc Hk r w' E. unfold se_bind in E. destruct (c w) as [[a|e] w1] eqn:Ec.
  - destruct (Hc _ _ Ec) as [El|[? _]]; [|done]. rewrite <-El. by apply (Hk a w1 eq_refl).
  - injection E as <- <-. destruct (Hc _ _ Ec) as [El|(? & g & El & ?)]; [by left|]. right. split; [congruence|]. by exists g.
Qed.

Lemma leaves_decode {A : Type} `{Serde A} L (o : option Bytes) w : leaves L (decode_entry (A := A) o) w.
Proof. destruct o; [apply leaves_pure|apply leaves_ret]. Qed.

Section CallLeaves.
Context (L : (StoreInner S -> StoreInner S) -> Prop).
Context (Hread : forall A (f : SE (StoreInner S) SyncthingError A) P, reads (run_blocking f) P -> L (fun x => (f x).2)).

Lemma leaves_reading {A : Type} (f : SE (StoreInner S) SyncthingError A) P w : reads (run_blocking f) P -> leaves L (run_blocking f) w.
Proof using Hread. intros Hr. apply leaves_run. by eapply Hread. Qed.

Lemma leaves_index f w : leaves L (get_folder_index f) w.
Proof using Hread.
  apply leaves_bind; [eapply leaves_reading, reads_scan|]. intros results w1 _.
  apply leaves_bind; [apply leaves_pure|]. intros. apply leaves_ret.
Qed.

Lemma leaves_stats f w :
  (forall s b, to_vec s = Ok b -> L (fun x => (inner_put (make_folder_stats_key f) b x).2)) ->
  leaves L (update_folder_stats f) w.
Proof using Hread.
  intros Hs. apply leaves_bind; [apply leaves_index|]. intros files w1 _. apply leaves_bind; [apply leaves_pure|].
  intros b w2 Eb. unfold serialize, se_read in Eb. injection Eb as Eb _.
  destruct (to_vec (compute_stats files)) as [b'|] eqn:Ev; [|done]. injection Eb as ->.
  apply leaves_bind; [apply leaves_run; by eapply Hs|]. intros. apply leaves_ret.
Qed.

Lemma leaves_then_stats {A : Type} f (c : M A) w :
  leaves L c w -> (forall s b, to_vec s = Ok b -> L (fun x => (inner_put (make_folder_stats_key f) b x).2)) ->
  leaves L (do! c in do! update_folder_stats f in se_ret tt) w.
Proof using Hread.
  intros Hc Hs. apply leaves_bind; [done|]. intros _ w1 _. apply leaves_bind; [by apply leaves_stats|]. intros. apply leaves_ret.
Qed.

End CallLeaves.

(** The keys a scan of a folder finds are those of its index. *)
Lemma scanned_keys f (existing : list (Bytes * Bytes)) v m :
  entries_repr v m -> folder_ok f -> existing ≡ₚ under (make_folder_prefix f) v ->
  forall k, k ∈ existing.*1 <-> exists n, n ∈ dom (index_at (ms_files m) f) /\ k = make_file_key f n.
Proof.
  intros Hm Hok Hp k. rewrite list_elem_of_fmap. split.
  - intros ([k' b] & -> & Hkb). rewrite Hp, list_elem_of_filter, elem_of_map_to_list in Hkb. destruct Hkb as [Hs Hv].
    destruct (er_keys _ _ Hm _ _ Hv) as (mk & Hmk & Ek). cbn in *. subst k'.
    apply folder_prefix_keys in Hs as [n ->]; [|done|done]. exists n. split; [|done].
    pose proof (er_files _ _ Hm f n Hok) as Ho. cbn [key_bytes] in Hv. rewrite Hv in Ho. inversion Ho. by apply elem_of_dom.
  - intros (n & [x Hx]%elem_of_dom & ->). pose proof (er_files _ _ Hm f n Hok) as Ho. rewrite Hx in Ho.
    inversion Ho as [b ? Hs Ev|]; subst. exists (make_file_key f n, b). split; [done|].
    rewrite Hp, list_elem_of_filter, elem_of_map_to_list. split; [|done]. apply (folder_prefix_keys f (KeyFile f n)); eauto.
Qed.

Lemma leaves_map {A B : Type} L (g : A -> B) (c : M A) w : leaves L c w -> leaves L (se_map g c) w.
Proof. intros Hc. apply leaves_bind; [done|]. intros. apply leaves_ret. Qed.

Lemma exec_meta_leaves op m w :
  meta_repr (meta_view w) m -> meta_op_ok op ->
  leaves (fun g => exists e, late_ok g e /\ leaves_behind m op e) (exec_meta op) w.
Proof.
  intros Hm Hok. set (L := fun g => exists e, late_ok g e /\ leaves_behind m op e).
  assert (forall A (f : SE (StoreInner S) SyncthingError A) P, reads (run_blocking f) P -> L (fun x => (f x).2)) as Hread.
  { intros A f P Hr. exists LateNothing. split; [by eapply late_reads|by left]. }
  assert (forall f, op_folder op = Some f -> forall s b, to_vec s = Ok b ->
    L (fun x => (inner_put (make_folder_stats_key f) b x).2)) as Hstats.
  { intros f Ef s b Eb. exists (LateStats f). split; [by eapply late_put_stats|]. right. destruct op; cbn in Ef |- *; simplify_eq; auto. }
  destruct op as [f info|f n|f|f files|f files|f n|f|f n|f| |d f info|d f n|d f]; cbn [exec_meta meta_op_ok] in *; apply leaves_map.
  - apply leaves_bind; [apply leaves_pure|]. intros b w1 Eb. unfold serialize, se_read in Eb. injection Eb as Eb _.
    destruct (to_vec info) as [b'|] eqn:Ev; [|done]. injection Eb as ->.
    apply leaves_then_stats; [done| |by apply Hstats]. apply leaves_run. exists (LateFiles f ∅ [info]).
    split; [by apply late_put_file|]. right. by left.
  - apply leaves_bind; [eapply leaves_reading, reads_get; done|]. intros. apply leaves_decode.
  - by apply leaves_index.
  - apply leaves_bind; [eapply leaves_reading, reads_scan; done|]. intros existing w1 E1.
    destruct (reads_scan _ _ _ _ E1) as [V1 Hl]. specialize (Hl existing eq_refl).
    apply leaves_bind; [apply leaves_pure|]. intros entries w2 Ee. unfold se_read in Ee. injection Ee as Ee _.
    apply leaves_then_stats; [done| |by apply Hstats]. apply leaves_run.
    exists (LateFiles f (dom (index_at (ms_files m) f)) files). split; [|right; by left].
    apply late_batch; [done|done|]. eapply scanned_keys; [by destruct Hm|done|exact Hl].
  - apply leaves_bind; [apply leaves_pure|]. intros entries w2 Ee. unfold se_read in Ee. injection Ee as Ee _.
    apply leaves_then_stats; [done| |by apply Hstats]. apply leaves_run. exists (LateFiles f ∅ files). split; [|right; by left].
    apply (late_batch f ∅ files entries []); [done|done|set_solver].
  - apply leaves_then_stats; [done| |by apply Hstats]. apply leaves_run. exists (LateFiles f {[n]} []).
    split; [by apply late_delete|]. right. by left.
  - apply leaves_bind; [eapply leaves_reading, reads_get; done|]. intros. apply leaves_bind; [apply leaves_decode|].
    intros. apply leaves_ret.
  - eapply leaves_reading, reads_contains; done.
  - apply leaves_bind; [eapply leaves_reading, reads_scan; done|]. intros. apply leaves_ret.
  - eapply leaves_reading, reads_flush; done.
  - apply leaves_bind; [apply leaves_pure|]. intros b w1 Eb. unfold serialize, se_read in Eb. injection Eb as Eb _.
    destruct (to_vec info) as [b'|] eqn:Ev; [|done]. injection Eb as ->. destruct Hok.
    apply leaves_bind; [|intros; apply leaves_ret]. apply leaves_run. exists (LateDevice d f info).
    split; [by apply late_put_device|by right].
  - apply leaves_bind; [eapply leaves_reading, reads_get; done|]. intros. apply leaves_decode.
  - apply leaves_bind; [eapply leaves_reading, reads_scan; done|]. intros. apply leaves_bind; [apply leaves_pure|].
    intros. apply leaves_ret.
Qed.

Lemma run_late_refines i w m late :
  meta_repr (meta_view w) m -> Forall2 late_ok (b_late w) late ->
  match late !! i with
  | Some e => exists m', (m' = m \/ m' = late_effect m e) /\ meta_repr (meta_view (run_late i w)) m' /\
      Forall2 late_ok (b_late (run_late i w)) (base.delete i late)
  | None => run_late i w = w
  end.
Proof.
  intros Hm Hl. unfold run_late. destruct (late !! i) as [e|] eqn:Ei.
  - destruct (Forall2_lookup_r _ _ _ _ _ Hl Ei) as (g & Eg & Hg). rewrite Eg. destruct (Hg _ _ Hm) as (m' & Hm' & Hr).
    exists m'. split; [done|]. split; [done|]. by apply Forall2_delete.
  - destruct (b_late w !! i) as [g|] eqn:Eg; [|done].
    destruct (Forall2_lookup_l _ _ _ _ _ Hl Eg) as (e & ? & _). congruence.
Qed.

(** C8: The metadata store refines maps from folders to indexes.  Calls come one
    after another, with folder IDs the validation accepts other than
    [folder_stats] (no colon, no slash) and device IDs without slash; any of
    their storage operations may fail, panic or time out; and between calls the
    closures of calls that timed out may run, in any order, or never.  Then the
    answers are those of the maps: lookups, listings (each entry once, by
    sequence number), counts and statistics are exact, a full update replaces
    the folder's index and nothing else, and a call that fails has acted as a
    whole or not at all.  A call that timed out leaves at most one effect
    behind, of that call's own writes, which may happen later as a whole.
    Statistics of a folder are exact unless a call for it has failed, or one of
    its late closures has run, since the last successful change. *)
Theorem metadata_store_refines evs m w :
  meta_repr (meta_view w) m -> b_late w = [] -> Forall meta_event_ok evs ->
  exists m', spec_run m [] evs (exec_metas evs w).1 m' /\ meta_repr (meta_view (exec_metas evs w).2) m'.
Proof.
  intros Hm Hl Hevs. assert (Forall2 late_ok (b_late w) []) as HL by (rewrite Hl; constructor). clear Hl.
  revert HL. generalize (@nil LateEffect). revert m w Hm.
  induction Hevs as [|ev evs Hev _ IH]; intros m w Hm late HL; cbn [exec_metas]; [exists m; split; [constructor|done]|].
  destruct ev as [op|i]; cbn in Hev.
  - destruct (exec_meta op w) as [r w1] eqn:E. destruct (exec_meta_refines op m w r w1 E Hm Hev) as (m1 & Hm1 & Hs).
    assert (exists late1, Forall2 late_ok (b_late w1) late1 /\
      (late1 = late \/ (r = Err ETimeout /\ exists e, late1 = late ++ [e] /\ leaves_behind m op e))) as (late1 & HL1 & Hlate).
    { destruct (exec_meta_leaves op m w Hm Hev _ _ E) as [-> |(-> & g & -> & e & Hg & He)]; [by exists late; auto|].
      exists (late ++ [e]). split; [by apply Forall2_app; [|constructor]|]. right. eauto. }
    destruct (IH m1 w1 Hm1 late1 HL1) as (m2 & Hr & Hm2). destruct (exec_metas evs w1) as [rs w2]. exists m2.
    split; [by econstructor|done].
  - pose proof (run_late_refines i w m late Hm HL) as Hi. destruct (late !! i) as [e|] eqn:Ei.
    + destruct Hi as (m1 & He & Hm1 & HL1). destruct (IH m1 _ Hm1 _ HL1) as (m2 & Hr & Hm2). exists m2. split; [by eapply SpecLate|done].
    + rewrite Hi. destruct (IH m w Hm late HL) as (m2 & Hr & Hm2). exists m2. split; [by apply SpecNone|done].
Qed.

Lemma empty_repr : meta_repr ∅ (mkMetaSpec ∅ ∅ ∅).
Proof.
  split; [split|].
  - intros k b. by rewrite lookup_empty.
  - intros f n _. cbn. rewrite lookup_empty. unfold index_at. rewrite !lookup_empty. constructor.
  - intros d f n _ _. cbn. rewrite lookup_empty. unfold index_at. rewrite !lookup_empty. constructor.
  - intros f _. exists stats_default. unfold stored_stats. rewrite lookup_empty. split; [done|]. intros _.
    cbn. unfold index_at. rewrite lookup_empty. cbn. by rewrite map_to_list_empty.
Qed.

End MetaProofs.

(** ** Instances: the laws can hold *)

#[global] Instance map_sled : SledTreeApi (gmap Bytes Bytes) := {|
  sled_get m k := Ok (m !! k);
  sled_insert m k b := (Ok (m !! k), <[k := b]> m);
  sled_remove m k := (Ok (m !! k), base.delete k m);
  sled_contains_key m k := Ok (bool_decide (is_Some (m !! k)));
  sled_apply_batch m ops := (Ok tt, foldl batch_step m ops);
  sled_scan_prefix m p := Ok <$> filter (fun kv => starts_with p kv.1 = true) (map_to_list m);
  sled_flush m := (Ok tt, m);
|}.

#[global, refine] Instance map_sled_laws : SledLaws (gmap Bytes Bytes) := { sled_view := fun m => m }.
Proof.
  all: intros; cbn in *; try congruence.
  apply (list_fmap_eq_inj Ok) in H; [by rewrite H|]. by intros ? ? [= ->].
Defined.

Definition file_info_tuple (f : FileInfo) :=
  (name f, match file_type f with File => 0 | Directory => 1 | Symlink => 2 end, size f, permissions f, modified_s f,
   modified_ns f, counters (version f), sequence f, block_size f,
   ((fun b => (bi_size b, bi_hash b, bi_offset b)) <$> blocks f, symlink_target f, deleted f, modified_by f, blocks_hash f,
    no_permissions f,
    (fun b => (base_size b, base_modified_s b, base_modified_ns b, base_blocks_hash b, base_content_hash b)) <$>
      base_version f)).

Definition file_info_untuple (t : _) : FileInfo :=
  let '(n, ty, sz, pe, ms, mn, ve, sq, bs, (bl, sy, de, mb, bh, np, bv)) := t in
  mkFileInfo n (if ty =? 0 then File else if ty =? 1 then Directory else Symlink) sz pe ms mn (mkVector ve) sq bs
    ((fun t : Z * list Z * Z => let '(s, h, o) := t in mkBlockInfo s h o) <$> bl) sy de mb bh np
    ((fun t : Z * Z * Z * option (list Z) * option (list Z) =>
        let '(a, b, c, d, e) := t in mkFileInfoBase a b c d e) <$> bv).

#[global] Instance file_info_countable : Countable FileInfo.
Proof.
  refine (inj_countable' file_info_tuple file_info_untuple _). intros []. unfold file_info_tuple, file_info_untuple. cbn.
  f_equal.
  - by destruct file_type.
  - by destruct version.
  - rewrite <-list_fmap_compose. rewrite <-(list_fmap_id blocks) at 2. apply list_fmap_ext. by intros ? [] ?.
  - destruct base_version as [[]|]; done.
Defined.

#[global] Instance demo_file_serde : Serde FileInfo := {|
  to_vec f := Ok [1; Zpos (encode f)];
  from_slice b := match b with [1; Zpos p] => ok_or (decode p) tt | _ => Err tt end;
|}.

#[global] Instance demo_stats_serde : Serde DbFolderStats := {|
  to_vec s := Ok [2; file_count s; total_bytes s; block_count s];
  from_slice b := match b with [2; x; y; z] => Ok (mkDbFolderStats x y z) | _ => Err tt end;
|}.

#[global] Instance demo_file_serde_laws : SerdeLaws FileInfo.
Proof. split. intros a b [= <-]. cbn. by rewrite decode_encode. Qed.

#[global] Instance demo_stats_serde_laws : SerdeLaws DbFolderStats.
Proof. split. intros a b [= <-]. by destruct a. Qed.

Definition demo_meta (runs : list RunOutcome) : Blocking (StoreInner (gmap Bytes Bytes)) :=
  mkBlocking (InnerTree ∅) runs [].

Definition meta_demo_file (n : str) (sz sq : Z) : FileInfo :=
  mkFileInfo n File sz 420 0 0 vector_new sq 0 [mkBlockInfo 1 [7] 0] None (Some false) None None None None.

Lemma folder_ok_docs : folder_ok ($"docs").
Proof. split_and!; by apply (bool_decide_eq_true_1 _). Qed.

(** The first write times out; its closure runs after the other calls. *)
Lemma metadata_store_refines_witness :
  let evs := [MCall (MPutFile ($"docs") (meta_demo_file ($"c") 7 3)); MCall (MPutFile ($"docs") (meta_demo_file ($"b") 5 2));
              MCall (MDelta ($"docs") [meta_demo_file ($"a") 3 1]); MCall (MStats ($"docs")); MLate 0;
              MCall (MCount ($"docs"))] in
  let w := demo_meta [RunTimesOut] in
  exists m', spec_run (mkMetaSpec ∅ ∅ ∅) [] evs (exec_metas evs w).1 m' /\
    (exec_metas evs w).1 = [Err ETimeout; Ok ReplyUnit; Ok ReplyUnit; Ok (ReplyStats (mkDbFolderStats 2 8 1)); Ok (ReplyCount 3)].
Proof.
  intros evs w. destruct (metadata_store_refines evs (mkMetaSpec ∅ ∅ ∅) w) as (m' & Hr & _).
  - apply empty_repr.
  - reflexivity.
  - repeat constructor; apply folder_ok_docs.
  - exists m'. split; [exact Hr|]. vm_compute. reflexivity.
Defined.

(** ** Where the key layout breaks *)

(** The folder ID [folder_stats] passes validation, but the scan of its index
    finds the statistics of every other folder: reading its index fails once any
    folder has statistics. *)
Theorem folder_stats_folder_unusable {S : Type} `{SledLaws S} `{SerdeLaws FileInfo} `{SerdeLaws DbFolderStats}
  (w : Blocking (StoreInner S)) g b ua :
  meta_view w !! make_folder_stats_key g = Some b -> (exists e, from_slice (A := FileInfo) b = Err e) ->
  validate_folder_id ua ($"folder_stats") = Ok tt /\
  forall r w', get_folder_index ($"folder_stats") w = (r, w') -> exists e, r = Err e.
Proof.
  intros Hb [e He]. split; [reflexivity|]. intros r w' E. destruct r as [l|e']; [|by exists e']. exfalso.
  assert (reads (get_folder_index ($"folder_stats")) (fun v l => exists results files,
    results ≡ₚ filter (fun kv : Bytes * Bytes => starts_with (make_folder_prefix ($"folder_stats")) kv.1 = true) (map_to_list v) /\
    deserialize_all results = Ok files)) as Hr.
  { eapply reads_impl.
    - apply reads_bind; [apply reads_scan|]. intros results. apply reads_bind; [apply reads_pure|].
      intros files. by apply (reads_ret _ (fun _ _ => True)).
    - intros v a (results & Hr & files & Hf & _). eauto. }
  destruct (Hr _ _ _ E) as [_ Hl]. destruct (Hl l eq_refl) as (results & files & Hp & Hd).
  assert ((make_folder_stats_key g, b) ∈ results) as Hin.
  { rewrite Hp, list_elem_of_filter, elem_of_map_to_list. split; [|done]. apply starts_with_bytes. by exists g. }
  clear -Hin Hd He. revert files Hd. induction results as [|[k x] results IH]; [by apply elem_of_nil in Hin|].
  intros files Hd. cbn in Hd. apply elem_of_cons in Hin as [[= <- <-]|Hin]; [by rewrite He in Hd|].
  destruct (from_slice x); cbn in Hd; [|done]. apply result_bind_Ok in Hd as (fs & Hd & _). by eapply IH.
Qed.

Lemma folder_stats_folder_unusable_witness :
  let w := (exec_meta (MPutFile ($"docs") (meta_demo_file ($"b") 5 2)) (demo_meta [])).2 in
  forall r w', get_folder_index ($"folder_stats") w = (r, w') -> exists e, r = Err e.
Proof.
  intros w. eapply (folder_stats_folder_unusable w ($"docs") _ (fun _ => false)).
  - vm_compute. reflexivity.
  - exists tt. reflexivity.
Defined.

(** A folder ID with a colon, which a configuration update does not refuse,
    shares entries with another folder: after storing a file of one folder it is
    found in the other. *)
Example colon_folders_collide :
  let w := (put_file ($"a:b") (meta_demo_file ($"c") 5 2) (demo_meta [])).2 in
  (file_exists ($"a") ($"b:c") w).1 = Ok true /\ make_file_key ($"a") ($"b:c") = make_file_key ($"a:b") ($"c").
Proof. split; vm_compute; reflexivity. Qed.

(** A write that timed out is not cancelled: it can take effect after the retry
    succeeded, and the store is back at the old entry. *)
Example late_write_overwrites_retry :
  let w1 := (put_file ($"docs") (meta_demo_file ($"x") 1 1) (demo_meta [RunTimesOut])).2 in
  let w2 := (put_file ($"docs") (meta_demo_file ($"x") 9 2) w1).2 in
  exists w3, late_step w2 w3 /\
    result_map (fmap size) (get_file ($"docs") ($"x") w2).1 = Ok (Some 9) /\
    result_map (fmap size) (get_file ($"docs") ($"x") w3).1 = Ok (Some 1) /\
    (put_file ($"docs") (meta_demo_file ($"x") 9 2) w1).1 = Ok tt.
Proof.
  intros w1 w2. eexists. split; [apply (LateRuns (b_state w2) (b_runs w2) [] _ [])|].
  split_and!; vm_compute; reflexivity.
Qed.
