(* ===== verification/BlockStoreImpl.v ===== *)
(** * [BlockStoreImpl] ([crates/syncthing-db/src/store.rs])

    The block store that keeps blocks in the main tree of a sled database and
    file metadata in its tree [metadata], with an entry-bounded cache of the lru
    crate.  Trees of a sled database are separate key spaces, so the two are
    separate states here. *)

From S2P Require Import Prelude Core DeviceIds Connection Bep Wire BlockCache Net Relay Config Metadata.

(** ** Text helpers *)

(** [str::cmp]: bytes, lexicographically. *)
Fixpoint str_leb (a b : str) : bool :=
  match a, b with
  | [], _ => true
  | _ :: _, [] => false
  | x :: a', y :: b' =>
      if byte_of x <? byte_of y then true else if byte_of y <? byte_of x then false else str_leb a' b'
  end.

Fixpoint insert_str (x : str) (l : list str) : list str :=
  match l with
  | [] => [x]
  | y :: l' => if str_leb x y then x :: l else y :: insert_str x l'
  end.

Definition sort_strs (l : list str) : list str := foldr insert_str [] l.

(** [dedup_by(|a, b| a == b)]: equal neighbours become one. *)
Fixpoint dedup_strs (l : list str) : list str :=
  match l with
  | x :: (y :: _) as l' => if decide (x = y) then dedup_strs l' else x :: dedup_strs l'
  | _ => l
  end.

(** ["folder/"] *)
Definition FOLDER_PREFIX : Bytes := bytes_of_str ($"folder/").

Record BlockStoreImpl (S T : Type) := mkBlockStoreImpl {
  impl_store : Blocking S;
  impl_metadata : Blocking (StoreInner S);
  impl_cache : T;
}.
Arguments mkBlockStoreImpl {S T}.
Arguments impl_store {S T}.
Arguments impl_metadata {S T}.
Arguments impl_cache {S T}.

Section Impl.
Context {S T : Type} `{SledTreeApi S} `{LruCrate T} `{Serde FileInfo} `{Serde DbFolderStats}.
Context (sha256 : Bytes -> BlockHash).
Abbreviation Impl := (BlockStoreImpl S T).
Abbreviation M A := (SE Impl SyncthingError A).

(** [from_store] and [open_with_cache] on the opened database: the main tree,
    the outcome of opening the tree [metadata], and a cache. *)
Definition impl_with_cache (store : S) (metadata_tree : result SyncthingError S) (capacity : Z)
  : result SyncthingError Impl :=
  let? tree := metadata_tree in
  Ok (mkBlockStoreImpl (mkBlocking store [] []) (mkBlocking (InnerTree tree) [] [])
        (lru_new (Z.to_nat (capacity `max` 1)))).

Definition from_store (store : S) (metadata_tree : result SyncthingError S) : result SyncthingError Impl :=
  impl_with_cache store metadata_tree 1024.

(** A call on the database or on the metadata store. *)
Definition on_store {A : Type} (c : SE (Blocking S) SyncthingError A) : M A := fun s =>
  let '(r, st) := c (impl_store s) in (r, mkBlockStoreImpl st (impl_metadata s) (impl_cache s)).

Definition on_metadata {A : Type} (c : SE (Blocking (StoreInner S)) SyncthingError A) : M A := fun s =>
  let '(r, md) := c (impl_metadata s) in (r, mkBlockStoreImpl (impl_store s) md (impl_cache s)).

Definition cache_insert (h : BlockHash) (data : Bytes) : M unit :=
  se_modify (fun s => mkBlockStoreImpl (impl_store s) (impl_metadata s) (lru_put (impl_cache s) h data)).

Definition impl_flush : M unit :=
  do! on_store (run_blocking db_flush) in
  do! on_metadata meta_flush in
  se_ret tt.

Definition impl_get_device_file (device_id folder name : str) : M (option FileInfo) :=
  on_metadata (get_device_file device_id folder name).

Definition impl_put_device_file (device_id folder : str) (info : FileInfo) : M unit :=
  on_metadata (put_device_file device_id folder info).

(** The folder named by one key, when it is text. *)
Definition folder_of_key (key : Bytes) : option str :=
  let text := str_of_bytes key in
  if utf8_valid text then split_on "/"%char text !! 1%nat else None.

Definition list_folders : M (list str) :=
  let! results := on_store (run_blocking (db_scan_prefix FOLDER_PREFIX)) in
  se_ret (dedup_strs (sort_strs (omap (fun kv : Bytes * Bytes => folder_of_key kv.1) results))).

Definition impl_put (hash : BlockHash) (data : Bytes) : M unit :=
  if decide (sha256 data = hash) then
    do! on_store (run_blocking (db_put (meta_block_key hash) data)) in
    cache_insert hash data
  else se_throw EProtocol.

Definition impl_get (hash : BlockHash) : M (option Bytes) := fun s =>
  match lru_peek (impl_cache s) hash with
  | Some data => (Ok (Some data), s)
  | None =>
      (let! value := on_store (run_blocking (db_get (meta_block_key hash))) in
       match value with
       | Some data => do! cache_insert hash data in se_ret (Some data)
       | None => se_ret None
       end) s
  end.

Definition impl_has (hash : BlockHash) : M bool := fun s =>
  match lru_peek (impl_cache s) hash with
  | Some _ => (Ok true, s)
  | None => on_store (run_blocking (db_contains (meta_block_key hash))) s
  end.

Definition impl_delete (hash : BlockHash) : M unit :=
  do! on_store (run_blocking (db_delete (meta_block_key hash))) in
  se_modify (fun s => mkBlockStoreImpl (impl_store s) (impl_metadata s) (lru_pop (impl_cache s) hash).2).

Definition impl_get_index (folder : str) : M (list FileInfo) := on_metadata (get_folder_index folder).

Definition impl_update_index (folder : str) (files : list FileInfo) : M unit :=
  on_metadata (meta_update_index folder files).

Definition impl_update_index_delta (folder : str) (files : list FileInfo) : M unit :=
  on_metadata (meta_update_index_delta folder files).

Definition impl_folder_stats (folder : str) : M DbFolderStats := on_metadata (get_folder_stats folder).

End Impl.

(** ** The builder *)

Record BlockStoreImplBuilder := mkBuilder {
  builder_path : option str;
  builder_capacity : Z;
  builder_in_memory : bool;
}.

Definition builder_default : BlockStoreImplBuilder := mkBuilder None 1024 false.

Definition with_path (b : BlockStoreImplBuilder) (path : str) : BlockStoreImplBuilder :=
  mkBuilder (Some path) (builder_capacity b) false.

Definition in_memory (b : BlockStoreImplBuilder) : BlockStoreImplBuilder := mkBuilder None (builder_capacity b) true.

Definition cache_capacity (b : BlockStoreImplBuilder) (capacity : Z) : BlockStoreImplBuilder :=
  mkBuilder (builder_path b) capacity (builder_in_memory b).

(** [open_db] is [sled::open] ([None] for a temporary database) with its main
    tree and the outcome of opening [metadata]. *)
Definition build {S T : Type} `{LruCrate T} (open_db : option str -> result SyncthingError (S * result SyncthingError S))
  (b : BlockStoreImplBuilder) : result SyncthingError (BlockStoreImpl S T) :=
  if builder_in_memory b then
    let? (store, tree) := open_db None in from_store store tree
  else match builder_path b with
       | Some path => let? (store, tree) := open_db (Some path) in impl_with_cache store tree (builder_capacity b)
       | None => Err EConfig
       end.

(** ** Proofs *)

Inductive ImplOp :=
| IPut (h : BlockHash) (data : Bytes) | IGet (h : BlockHash) | IHas (h : BlockHash) | IDelete (h : BlockHash)
| IFlush | IListFolders | IMeta (op : MetaOp).

Section ImplProofs.
Context {S T : Type} `{SledLaws S} `{LruCrateLaws T} `{SerdeLaws FileInfo} `{SerdeLaws DbFolderStats}.
Context (sha256 : Bytes -> BlockHash).
Abbreviation Impl := (BlockStoreImpl S T).
Abbreviation M A := (SE Impl SyncthingError A).

(** The operations, reduced to whether they succeed. *)
Definition impl_exec (op : ImplOp) : M unit :=
  match op with
  | IPut h d => impl_put sha256 h d
  | IGet h => do! impl_get h in se_ret tt
  | IHas h => do! impl_has h in se_ret tt
  | IDelete h => impl_delete h
  | IFlush => impl_flush
  | IListFolders => do! list_folders in se_ret tt
  | IMeta op => do! on_metadata (exec_meta op) in se_ret tt
  end.

(** Calls of clients and late closures of calls that timed out. *)
Inductive impl_step : Impl -> Impl -> Prop :=
| ImplCall op s : impl_step s (impl_exec op s).2
| ImplLate s st : late_step (impl_store s) st -> impl_step s (mkBlockStoreImpl st (impl_metadata s) (impl_cache s))
| ImplRuns s runs : impl_step s (mkBlockStoreImpl (mkBlocking (b_state (impl_store s)) runs (b_late (impl_store s)))
                                   (impl_metadata s) (impl_cache s)).

(** The main tree has blocks under their hashes, and nothing else. *)
Definition blocks_only (s : S) : Prop :=
  forall k b, sled_view s !! k = Some b -> k = meta_block_key (sha256 b).

Record impl_inv (s : Impl) : Prop := {
  ii_store : blocks_only (b_state (impl_store s));
  ii_late : Forall (fun f => forall x, blocks_only x -> blocks_only (f x)) (b_late (impl_store s));
  ii_cache : forall h d, (h, d) ∈ lru_entries (impl_cache s) -> sha256 d = h;
}.

(** A closure that keeps the tree's invariant may be given to the thread pool. *)
Lemma on_store_inv {A : Type} (f : SE S SyncthingError A) s r s' :
  (forall x, blocks_only x -> blocks_only (f x).2) -> impl_inv s -> on_store (run_blocking f) s = (r, s') ->
  impl_inv s' /\ impl_cache s' = impl_cache s.
Proof.
  intros Hf [I1 I2 I3] E. unfold on_store, run_blocking in E. destruct s as [[x runs late] md c]. cbn in *.
  destruct runs as [|[] runs]; cbn in E; try (pose proof (Hf x I1) as Hx; destruct (f x) as [r0 x0]; cbn in Hx);
    injection E as <- <-; split; try done; split; cbn; try done. apply Forall_app. split; [done|]. by repeat constructor.
Qed.

Lemma read_keeps {A : Type} (g : S -> result SyncthingError A) x : blocks_only x -> blocks_only (se_read g x).2.
Proof. done. Qed.

Lemma put_keeps h d x : sha256 d = h -> blocks_only x -> blocks_only (db_put (meta_block_key h) d x).2.
Proof.
  intros Hh Hx. unfold db_put. pose proof (sled_insert_spec x (meta_block_key h) d) as Hs.
  destruct (sled_insert x (meta_block_key h) d) as [[o|e] x']; intros k b; cbn [snd] in *; cbn in Hs; rewrite Hs; [|apply Hx].
  intros [[<- <-]|[_ E]]%lookup_insert_Some; [by rewrite Hh|by apply Hx].
Qed.

Lemma delete_keeps h x : blocks_only x -> blocks_only (db_delete (meta_block_key h) x).2.
Proof.
  intros Hx. unfold db_delete. pose proof (sled_remove_spec x (meta_block_key h)) as Hs.
  destruct (sled_remove x (meta_block_key h)) as [[o|e] x']; intros k b; cbn [snd] in *; cbn in Hs; rewrite Hs; [|apply Hx].
  intros [_ E]%lookup_delete_Some. by apply Hx.
Qed.

Lemma flush_keeps x : blocks_only x -> blocks_only (db_flush x).2.
Proof.
  intros Hx. unfold db_flush. pose proof (sled_flush_spec x) as Hs. destruct (sled_flush x) as [o x'].
  intros k b. cbn [snd] in *. rewrite Hs. apply Hx.
Qed.

Lemma cache_insert_inv s h d : impl_inv s -> sha256 d = h -> impl_inv (cache_insert h d s).2.
Proof.
  intros [I1 I2 I3] Hh. split; [done|done|]. cbn. intros h' d' Hin.
  rewrite (proj2 (lru_put_spec (impl_cache s) h d)) in Hin. apply elem_of_take in Hin.
  apply elem_of_cons in Hin as [[= -> ->]|Hin]; [done|]. apply list_elem_of_filter in Hin as [_ Hin]. by apply I3.
Qed.

(** What a get answers has the hash it was asked for. *)
Lemma impl_get_inv h s r s' :
  impl_get h s = (r, s') -> impl_inv s ->
  impl_inv s' /\ forall d, r = Ok (Some d) -> sha256 d = h.
Proof.
  intros E Hi. unfold impl_get in E. rewrite lru_peek_spec in E.
  destruct (assoc_find h (lru_entries (impl_cache s))) as [d|] eqn:Ef.
  - injection E as <- <-. split; [done|]. intros d' [= <-]. apply assoc_find_elem in Ef. by eapply ii_cache.
  - unfold se_bind at 1 in E. destruct (on_store _ s) as [[v|e] s1] eqn:E1; cycle 1.
    { injection E as <- <-. split; [|done]. eapply on_store_inv; [|exact Hi|exact E1]. intros x Hx. by apply read_keeps. }
    destruct (on_store_inv _ _ _ _ ltac:(intros x Hx; by apply read_keeps) Hi E1) as [Hi1 _].
    assert (forall d, v = Some d -> sha256 d = h) as Hv.
    { intros d ->. unfold on_store in E1. destruct (run_blocking _ (impl_store s)) as [r0 st] eqn:Er.
      injection E1 as -> _. apply run_blocking_cases in Er as [[Er _]|[_ [?|?]]]; [|done|done].
      unfold db_get, se_read in Er. injection Er as Er _. destruct (sled_get _ _) as [o|] eqn:Eg; cbn in Er; [|done].
      injection Er as ->. apply sled_get_spec in Eg. symmetry in Eg. apply (ii_store _ Hi) in Eg.
      by apply app_inv_head in Eg. }
    destruct v as [d|]; cbn in E; injection E as <- <-; [|by split].
    split; [apply (cache_insert_inv s1 h d Hi1); by apply Hv|]. intros d' [= <-]. by apply Hv.
Qed.

Lemma se_bind_state {A B : Type} (c : M A) (k : A -> M B) (P : Impl -> Prop) s :
  P (c s).2 -> (forall a s1, P s1 -> P (k a s1).2) -> P (se_bind c k s).2.
Proof. intros Hc Hk. unfold se_bind. destruct (c s) as [[a|e] s1]; [by apply Hk|done]. Qed.

Lemma on_store_state {A : Type} (f : SE S SyncthingError A) s :
  (forall x, blocks_only x -> blocks_only (f x).2) -> impl_inv s -> impl_inv (on_store (run_blocking f) s).2.
Proof. intros Hf Hi. destruct (on_store _ s) as [r s'] eqn:E. by eapply on_store_inv. Qed.

Lemma on_metadata_state {A : Type} (c : SE (Blocking (StoreInner S)) SyncthingError A) s :
  impl_inv s -> impl_inv (on_metadata c s).2.
Proof. intros [? ? ?]. unfold on_metadata. destruct (c (impl_metadata s)). by split. Qed.

Lemma impl_exec_inv op s : impl_inv s -> impl_inv (impl_exec op s).2.
Proof.
  intros Hi. destruct op as [h d|h|h|h| | |op]; cbn [impl_exec].
  - unfold impl_put. case_decide as Hh; [|done]. apply se_bind_state.
    + apply on_store_state; [|done]. intros x. by apply put_keeps.
    + intros _ s1 Hi1. by apply cache_insert_inv.
  - apply se_bind_state; [|done]. destruct (impl_get h s) as [r s'] eqn:E. by eapply impl_get_inv.
  - apply se_bind_state; [|done]. unfold impl_has. destruct (lru_peek _ _); [done|].
    apply on_store_state; [|done]. intros x. by apply read_keeps.
  - unfold impl_delete. apply se_bind_state.
    + apply on_store_state; [|done]. intros x. apply delete_keeps.
    + intros _ s1 [I1 I2 I3]. split; [done|done|]. cbn. intros h' d' Hin.
      rewrite (proj2 (proj2 (lru_pop_spec _ _))) in Hin. apply list_elem_of_filter in Hin as [_ Hin]. by apply I3.
  - unfold impl_flush. apply se_bind_state; [apply on_store_state; [apply flush_keeps|done]|]. intros _ s1 Hi1.
    apply se_bind_state; [by apply on_metadata_state|done].
  - apply se_bind_state; [|done]. unfold list_folders. apply se_bind_state; [|done]. apply on_store_state; [|done]. intros x. by apply read_keeps.
  - apply se_bind_state; [by apply on_metadata_state|done].
Qed.

Lemma impl_step_inv s s' : impl_step s s' -> impl_inv s -> impl_inv s'.
Proof.
  intros [op s0|s0 st Hl|s0 runs] Hi; [by apply impl_exec_inv| |by destruct Hi].
  destruct s0 as [st0 md c]. cbn in *. destruct Hl as [x runs l1 f l2]. destruct Hi as [I1 I2 I3]. cbn in *.
  apply Forall_app in I2 as [I21 I22]. apply Forall_cons in I22 as [If I22]. split; cbn; [by apply If|by apply Forall_app|done].
Qed.

Lemma list_folders_empty s r s' : list_folders s = (r, s') -> impl_inv s -> forall l, r = Ok l -> l = [].
Proof.
  intros E Hi l ->. unfold list_folders in E. apply se_bind_Ok in E as (results & s1 & E & Er). injection Er as <- _.
  enough (results = []) as -> by done. unfold on_store in E.
  destruct (run_blocking _ (impl_store s)) as [r0 st] eqn:Eb. injection E as -> _.
  apply run_blocking_cases in Eb as [[Eb _]|[_ [?|?]]]; [|done|done]. unfold db_scan_prefix, se_read in Eb.
  injection Eb as Eb _. apply collect_scan_Ok, sled_scan_spec in Eb. destruct results as [|[k b] results]; [done|].
  assert ((k, b) ∈ (k, b) :: results) as Hin by by left. rewrite Eb in Hin.
  apply list_elem_of_filter in Hin as [Hs Hin%elem_of_map_to_list]. apply (ii_store _ Hi) in Hin. cbn in Hs. subst k.
  exfalso. clear -Hs. discriminate Hs.
Qed.

(** Whatever the order of calls, whichever of them time out and whenever the
    closures of those run, a get of the block store answers a block with the
    requested hash.  The listing of folders, however, is always empty: it scans
    the main tree for a prefix that nothing is ever stored under. *)
Theorem impl_store_sound s0 s h :
  impl_inv s0 -> rtc impl_step s0 s ->
  (forall r s' d, impl_get h s = (r, s') -> r = Ok (Some d) -> sha256 d = h) /\
  (forall r s' (l : list str), list_folders s = (r, s') -> r = Ok l -> l = []).
Proof.
  intros Hi Hr. assert (impl_inv s) as Hs by (induction Hr; eauto using impl_step_inv). split.
  - intros r s' d E Ed. by eapply impl_get_inv.
  - intros r s' l E El. by eapply list_folders_empty.
Qed.

(** A stored block is read back, from the cache. *)
Lemma impl_put_get h d s s' :
  impl_put sha256 h d s = (Ok tt, s') -> (1 <= lru_cap (impl_cache s))%nat -> impl_get h s' = (Ok (Some d), s').
Proof.
  unfold impl_put. case_decide; [|done]. intros E Hc. apply se_bind_Ok in E as ([] & s1 & E1 & E2).
  injection E2 as <-. unfold impl_get. cbn. rewrite lru_peek_spec, (proj2 (lru_put_spec _ _ _)).
  assert (lru_cap (impl_cache s1) = lru_cap (impl_cache s)) as ->.
  { unfold on_store in E1. destruct (run_blocking _ _). by injection E1 as _ <-. }
  destruct (lru_cap (impl_cache s)); [lia|]. cbn. by rewrite decide_True.
Qed.

End ImplProofs.

Definition demo_impl : BlockStoreImpl (gmap Bytes Bytes) (nat * list (BlockHash * Bytes)) :=
  mkBlockStoreImpl (mkBlocking ∅ [RunTimesOut] []) (demo_meta []) (lru_new 4).

Lemma demo_impl_inv : impl_inv (fun d => d) demo_impl.
Proof.
  split; [|constructor|by intros h d ?%elem_of_nil]. intros k b E. cbn in E. by rewrite lookup_empty in E.
Qed.

Lemma impl_store_sound_witness :
  let s1 := (impl_exec (fun d => d) (IPut [1] [1]) demo_impl).2 in
  let s2 := mkBlockStoreImpl (mkBlocking {[meta_block_key [1] := [1]]} [] []) (demo_meta []) (impl_cache s1) in
  (impl_get [1] s2).1 = Ok (Some [1]) /\ (fun d : Bytes => d) [1] = [1].
Proof.
  intros s1 s2. split; [vm_compute; reflexivity|].
  apply (proj1 (impl_store_sound (fun d => d) demo_impl s2 [1] demo_impl_inv
    ltac:(eapply rtc_l; [apply (ImplCall _ (IPut [1] [1]))|];
          eapply rtc_l; [apply (ImplLate _ s1 (mkBlocking {[meta_block_key [1] := [1]]} [] []))|apply rtc_refl];
          exact (LateRuns (X := gmap Bytes Bytes) ∅ [] [] (fun x => (db_put (meta_block_key [1]) [1] x).2) []))))
    with (r := (impl_get [1] s2).1) (s' := (impl_get [1] s2).2); [by destruct (impl_get [1] s2)|vm_compute; reflexivity].
Defined.
