(* ===== verification/Rest.v ===== *)
(** * The REST API

    [crates/syncthing-api/src/config.rs] (the configuration stores),
    [rest/mod.rs] (authentication, parsing of IDs and addresses), [rest/folder.rs],
    [rest/device.rs], [rest/config.rs] and [rest/system_ops.rs] (the handlers that
    change the configuration or call the sync model) and
    [cmd/syncthing/src/api_server.rs] (binding the listener).  Handlers are
    stateful computations over a configuration store, which is an interface, and
    a log of the calls they make into the sync model and the connection manager;
    the answers of those are given by the environment.  Error bodies are
    reduced to their status codes. *)

From S2P Require Import Prelude Core DeviceIds Connection Bep Wire BlockCache Net Relay Config Metadata.

(** ** Configuration stores *)

Class ConfigStore (C : Type) := {
  cs_load : SE C SyncthingError Config;
  cs_save : Config -> SE C SyncthingError unit;
}.

(** [cs_view] is the configuration the process works with, once loaded. *)
Class ConfigStoreLaws (C : Type) `{ConfigStore C} := {
  cs_view : C -> option Config;
  cs_load_Ok : forall c cfg c', cs_load c = (Ok cfg, c') -> cs_view c' = Some cfg /\ (forall x, cs_view c = Some x -> cfg = x);
  cs_load_cached : forall c x, cs_view c = Some x -> cs_load c = (Ok x, c);
  cs_load_Err : forall c e c', cs_load c = (Err e, c') -> cs_view c' = cs_view c;
  cs_save_Ok : forall c cfg c', cs_save cfg c = (Ok tt, c') -> cs_view c' = Some cfg;
  cs_save_Err : forall c cfg e c', cs_save cfg c = (Err e, c') -> cs_view c' = cs_view c;
}.

(** *** In memory *)

Record MemoryConfigStore := mkMemoryConfigStore { mc_config : Config; mc_changes : Z }.

Definition memory_default_config : Config :=
  mkConfig 1 DEFAULT_LISTEN_ADDR DEFAULT_DEVICE_NAME [] [] None (mkGuiConfig true DEFAULT_GUI_ADDR [] [])
    (mkOptions [ $"default" ] true true true [ $"tcp" ]).

Definition memory_new : MemoryConfigStore := mkMemoryConfigStore memory_default_config 0.

Definition memory_with_config (c : Config) : MemoryConfigStore := mkMemoryConfigStore c 0.

Definition memory_load : SE MemoryConfigStore SyncthingError Config := se_read (fun s => Ok (mc_config s)).

(** The change signal is sent and its result ignored. *)
Definition memory_save (c : Config) : SE MemoryConfigStore SyncthingError unit :=
  se_modify (fun s => mkMemoryConfigStore c (mc_changes s + 1)).

#[global] Instance memory_config_store : ConfigStore MemoryConfigStore := {|
  cs_load := memory_load; cs_save := memory_save
|}.

#[global, refine] Instance memory_config_laws : ConfigStoreLaws MemoryConfigStore := {
  cs_view := fun s => Some (mc_config s)
}.
Proof.
  - intros s cfg s' [= <- <-]. split; [done|]. by intros x [= ->].
  - by intros s x [= <-].
  - done.
  - by intros s cfg s' [= <-].
  - done.
Defined.

(** *** In a JSON file with a cache *)

(** How one access of the file ends; a failed write leaves [remains] in it. *)
Inductive FileFault := FaultNone | FaultDir | FaultRead | FaultWrite (remains : option str).

Record JsonConfigStore := mkJsonConfigStore {
  jc_cache : option Config;
  jc_file : option str;
  jc_faults : list FileFault;
}.

(** serde_json for the configuration. *)
Class ConfigJson := {
  config_to_json : Config -> result unit str;
  config_of_json : str -> result unit Config;
}.

Class ConfigJsonLaws `{ConfigJson} := {
  config_json_roundtrip : forall c s, config_to_json c = Ok s -> config_of_json s = Ok c;
}.

Section Json.
Context `{ConfigJson}.

Definition next_fault (s : JsonConfigStore) : FileFault * JsonConfigStore :=
  match jc_faults s with
  | [] => (FaultNone, s)
  | f :: rest => (f, mkJsonConfigStore (jc_cache s) (jc_file s) rest)
  end.

Definition json_save (c : Config) : SE JsonConfigStore SyncthingError unit := fun s =>
  let '(fault, s) := next_fault s in
  match fault with
  | FaultDir => (Err EIo, s)
  | _ =>
      match config_to_json c with
      | Err _ => (Err EConfig, s)
      | Ok content =>
          match fault with
          | FaultWrite remains => (Err EIo, mkJsonConfigStore (jc_cache s) remains (jc_faults s))
          | _ => (Ok tt, mkJsonConfigStore (Some c) (Some content) (jc_faults s))
          end
      end
  end.

Definition json_load : SE JsonConfigStore SyncthingError Config := fun s =>
  match jc_cache s with
  | Some c => (Ok c, s)
  | None =>
      match jc_file s with
      | None => (do! json_save config_new in se_ret config_new) s
      | Some content =>
          let '(fault, s) := next_fault s in
          match fault with
          | FaultRead => (Err EIo, s)
          | _ =>
              match config_of_json content with
              | Err _ => (Err EConfig, s)
              | Ok c => (Ok c, mkJsonConfigStore (Some c) (jc_file s) (jc_faults s))
              end
          end
      end
  end.

(** [JsonConfigStream::next] after a notification, with the modification time
    of the file; the stream remembers the last one it loaded. *)
Definition json_reload (modified : Z) (last_modified : option Z)
  : SE JsonConfigStore SyncthingError (option Z) := fun s =>
  match jc_file s with
  | None => (Ok last_modified, s)
  | Some content =>
      if decide (last_modified = Some modified) then (Ok last_modified, s)
      else
        let '(fault, s) := next_fault s in
        match fault with
        | FaultRead => (Err EIo, s)
        | _ =>
            match config_of_json content with
            | Err _ => (Err EConfig, s)
            | Ok c => (Ok (Some modified), mkJsonConfigStore (Some c) (jc_file s) (jc_faults s))
            end
        end
  end.

#[global] Instance json_config_store : ConfigStore JsonConfigStore := {|
  cs_load := json_load; cs_save := json_save
|}.

#[global, refine] Instance json_config_laws : ConfigStoreLaws JsonConfigStore := { cs_view := jc_cache }.
Proof.
  - intros [cache file faults] cfg c'. cbn. unfold json_load. cbn. destruct cache as [x|].
    + intros [= <- <-]. cbn. naive_solver.
    + intros E. split; [|done]. destruct file as [content|].
      * unfold next_fault in E. cbn in E. destruct faults as [|[] rest]; crush_match.
      * apply se_bind_Ok in E as ([] & s1 & E & [= <- <-]). unfold json_save, next_fault in E. crush_match.
  - intros [cache file faults] x [= ->]. done.
  - intros [cache file faults] e c' E. cbn in E. unfold json_load in E. cbn in *. destruct cache as [x|]; [done|].
    destruct file as [content|].
    + unfold next_fault in E. cbn in E. destruct faults as [|[] rest]; crush_match.
    + unfold se_bind, json_save, next_fault in E. crush_match.
  - intros c cfg c' E. cbn in E. unfold json_save, next_fault in E. crush_match.
  - intros c cfg e c' E. cbn in E. unfold json_save, next_fault in E. crush_match.
Defined.
End Json.

(** ** Authentication *)

Inductive Method := GET | HEAD | OPTIONS | POST | PUT | DELETE | OtherMethod.

#[global] Instance Method_eq_dec : EqDecision Method.
Proof. solve_decision. Defined.

Record ApiRequest := mkApiRequest {
  rq_path : str;
  rq_method : Method;
  rq_peer : option IpAddr;
  rq_key_header : option str;
  rq_query : option str;
}.

Definition eq_ignore_ascii_case (a b : str) : bool :=
  bool_decide ((to_ascii_uppercase <$> codes a) = (to_ascii_uppercase <$> codes b)).

(** [q.split('&').find_map(..)] *)
Fixpoint find_query_key (pairs : list str) : option str :=
  match pairs with
  | [] => None
  | kv :: rest =>
      match split_once ($"=") kv with
      | Some (k, v) => if eq_ignore_ascii_case k ($"X-API-Key") then Some v else find_query_key rest
      | None => find_query_key rest
      end
  end.

Definition provided_key (req : ApiRequest) : option str :=
  match rq_key_header req with
  | Some v => Some v
  | None => let+ q := rq_query req in find_query_key (split_on "&"%char q)
  end.

Inductive Verdict := Pass | Forbidden | Unauthorized.

Definition key_is (configured : option str) (provided : option str) : bool :=
  match configured with
  | Some k => bool_decide (k <> []) && bool_decide (provided = Some k)
  | None => false
  end.

(** [is_none_or(str::is_empty)] *)
Definition no_key (configured : option str) : bool :=
  match configured with Some k => bool_decide (k = []) | None => true end.

Definition api_key_middleware (api_key ro_api_key : option str) (req : ApiRequest) : Verdict :=
  if bool_decide (rq_path req = $"/rest/health") || bool_decide (rq_path req = $"/metrics") then Pass
  else if match rq_peer req with Some ip => is_loopback ip | None => false end then Pass
  else if key_is api_key (provided_key req) then Pass
  else if key_is ro_api_key (provided_key req) then
    (if bool_decide (rq_method req = GET) || bool_decide (rq_method req = HEAD) || bool_decide (rq_method req = OPTIONS)
     then Pass else Forbidden)
  else if no_key api_key && no_key ro_api_key then Pass
  else Unauthorized.

(** [api_server.rs]: the address the listener is bound to, [None] on failure. *)
Definition fallback_addr : SocketAddr := mkSocketAddr (V4 [0; 0; 0; 0]) 0.

Definition api_bind (addr : SocketAddr) (bind : SocketAddr -> bool) : option SocketAddr :=
  if bind addr then Some addr
  else if negb (sa_port addr =? 0) then (if bind fallback_addr then Some fallback_addr else None)
  else None.

(** The keys the server starts with. *)
Definition server_keys (config : Config) : option str * option str :=
  (Some (gui_api_key (cfg_gui config)),
   if decide (gui_ro_api_key (cfg_gui config) = []) then None else Some (gui_ro_api_key (cfg_gui config))).

(** [start_api_server] up to the listener: disabled, or bound with its keys. *)
Definition start_api_server (config : Config) (bind : SocketAddr -> bool)
  : result SyncthingError (option (SocketAddr * (option str * option str))) :=
  if negb (gui_enabled (cfg_gui config)) then Ok None
  else
    let? addr := ok_or (parse_socket_addr (gui_address (cfg_gui config))) EConfig in
    let? bound := ok_or (api_bind addr bind) ENetwork in
    Ok (Some (bound, server_keys config)).

(** ** Requests and answers *)

Record VersioningRequest := mkVersioningRequest { vr_type : str; vr_params : gmap str str }.

Record CreateFolderRequest := mkCreateFolderRequest {
  cf_id : str; cf_label : option str; cf_path : str; cf_devices : list str;
  cf_rescan : option Z; cf_versioning : option VersioningRequest;
}.

Record UpdateFolderRequest := mkUpdateFolderRequest {
  uf_id : option str; uf_label : option str; uf_path : option str; uf_rescan : option Z;
}.

Record AddDeviceRequest := mkAddDeviceRequest {
  ad_id : str; ad_name : option str; ad_addresses : option (list str); ad_introducer : option bool;
}.

Record UpdateDeviceRequest := mkUpdateDeviceRequest {
  ud_id : str; ud_name : str; ud_addresses : list str; ud_introducer : bool;
}.

Record UpdateConfigRequest := mkUpdateConfigRequest {
  uc_version : Z; uc_folders : list UpdateFolderRequest; uc_devices : list UpdateDeviceRequest;
}.

Record FolderResponse := mkFolderResponse {
  fr_id : str; fr_label : str; fr_path : str; fr_devices : list str; fr_rescan : Z;
}.

Record DeviceResponse := mkDeviceResponse {
  dr_id : option chars; dr_name : str; dr_addresses : list str; dr_introducer : bool;
}.

Record ConfigResponse := mkConfigResponse {
  cr_version : Z; cr_folders : list FolderResponse; cr_devices : list DeviceResponse;
}.

(** What the handlers ask of the sync model, the connection manager and the
    process. *)
Inductive ModelCall :=
| StopFolder (id : str) | StartFolder (id : str) | ScanFolder (id : str) | ScanFolderSub (id sub : str)
| OverrideFolder (id : str) | RevertFolder (id : str)
| ConnectTo (id : DeviceId) (addrs : list SocketAddr) | Disconnect (id : DeviceId)
| SignalShutdown | ExitProcess (code : Z).

(** Status codes, or a panic of the handler. *)
Inductive ApiFailure := Status (code : Z) | Panicked.

Record ApiEnv := mkApiEnv {
  ae_model : option (ModelCall -> result SyncthingError unit);
  ae_manager : option (DeviceId -> bool);
  ae_disconnect : DeviceId -> bool;
  ae_shutdown_tx : bool;
}.

Record ApiWorld (C : Type) := mkApiWorld { aw_store : C; aw_calls : list ModelCall }.
Arguments mkApiWorld {C}.
Arguments aw_store {C}.
Arguments aw_calls {C}.

(** [parse_address] of the API: text without a scheme is a TCP address. *)
Definition api_parse_address (a : str) : AddressType :=
  match strip_prefix ($"tcp://") a with
  | Some s => Tcp s
  | None =>
      match strip_prefix ($"quic://") a with
      | Some s => Quic s
      | None =>
          match strip_prefix ($"relay://") a with
          | Some s => Relay s
          | None => if decide (a = $"dynamic") then Dynamic else Tcp a
          end
      end
  end.

(** [as i32] and [as u32] *)
Abbreviation as_i32 := (to_signed 32).
Abbreviation as_u32 := (wrap 32).

(** [a.id.to_string() == b.to_string()] *)
Definition same_id (a b : DeviceId) : bool := bool_decide (device_id_to_string a = device_id_to_string b).

(** The first element that satisfies a test, changed in place. *)
Fixpoint alter_first {A : Type} (p : A -> bool) (g : A -> A) (l : list A) : list A :=
  match l with
  | [] => []
  | x :: rest => if p x then g x :: rest else x :: alter_first p g rest
  end.

(** ** Handlers *)

Section Handlers.
Context {C : Type} `{ConfigStore C}.
Context (unicode_alphanumeric : Z -> bool) (hex_encode : list Z -> str) (hex_decode : chars -> option (list Z)).
Context (sha256 : Bytes -> list Z) (env : ApiEnv).
Abbreviation World := (ApiWorld C).
Abbreviation M A := (SE World ApiFailure A).

Definition folder_response (f : Folder) : FolderResponse :=
  mkFolderResponse (folder_id f) (default [] (folder_label f)) (folder_path f)
    (short_id hex_encode <$> folder_devices f) (as_u32 (rescan_interval_secs f)).

Definition device_response (d : Device) : DeviceResponse :=
  mkDeviceResponse (device_id_to_string (dev_id d)) (default [] (dev_name d)) (address_to_string <$> dev_addresses d)
    (dev_introducer d).

Definition config_response (c : Config) : ConfigResponse :=
  mkConfigResponse (as_u32 (cfg_version c)) (folder_response <$> cfg_folders c) (device_response <$> cfg_devices c).

(** [state.config_store.load().await], an error answered with 500. *)
Definition load_config : M Config := fun w =>
  let '(r, c) := cs_load (aw_store w) in
  (match r with Ok cfg => Ok cfg | Err _ => Err (Status 500) end, mkApiWorld c (aw_calls w)).

Definition save_config (cfg : Config) : M unit := fun w =>
  let '(r, c) := cs_save cfg (aw_store w) in
  (match r with Ok _ => Ok tt | Err _ => Err (Status 500) end, mkApiWorld c (aw_calls w)).

Definition call (m : ModelCall) : M unit := se_modify (fun w => mkApiWorld (aw_store w) (aw_calls w ++ [m])).

(** A failed check is answered with [code]. *)
Definition guard_ok {E A : Type} (r : result E A) (code : Z) : M unit :=
  match r with Ok _ => se_ret tt | Err _ => se_throw (Status code) end.

Definition guard (b : bool) (code : Z) : M unit := if b then se_ret tt else se_throw (Status code).

Definition no_panic {A : Type} (o : option A) : M A :=
  match o with Some a => se_ret a | None => se_throw Panicked end.

(** [parse_device_id]: what does not parse is hashed. *)
Definition parse_device_id (id : str) : M DeviceId :=
  let! r := no_panic (parse_id unicode_alphanumeric hex_decode id) in
  se_ret match r with
         | Ok d => d
         | Err _ => mkDeviceId (sha256 (bytes_of_str id))
         end.

(** *** [folder.rs] *)

Definition handle_list_folders : M (list FolderResponse) :=
  let! config := load_config in se_ret (folder_response <$> cfg_folders config).

Definition find_folder (id : str) (config : Config) : option Folder :=
  List.find (fun f => bool_decide (folder_id f = id)) (cfg_folders config).

Definition handle_get_folder (id : str) : M FolderResponse :=
  let! config := load_config in
  match find_folder id config with
  | Some f => se_ret (folder_response f)
  | None => se_throw (Status 404)
  end.

Definition requested_versioning (v : VersioningRequest) : VersioningConfig :=
  if decide (vr_type v = $"simple") then VersioningSimple (vr_params v)
  else if decide (vr_type v = $"staggered") then VersioningStaggered (vr_params v)
  else if decide (vr_type v = $"external") then VersioningExternal (vr_params v)
  else VersioningNone.

(** [filter_map(|d| DeviceId::from_str(&d).ok())] *)
Fixpoint parse_devices (ds : list str) : M (list DeviceId) :=
  match ds with
  | [] => se_ret []
  | d :: rest =>
      let! r := no_panic (parse_id unicode_alphanumeric hex_decode d) in
      let! ids := parse_devices rest in
      se_ret match r with Ok id => id :: ids | Err _ => ids end
  end.

(** After the configuration was loaded; no lock is held in between. *)
Definition create_folder_in (request : CreateFolderRequest) (config : Config) : M (Z * FolderResponse) :=
  do! guard (negb (existsb (fun f => bool_decide (folder_id f = cf_id request)) (cfg_folders config))) 409 in
  let! devices := parse_devices (cf_devices request) in
  let folder := mkFolder (cf_id request) (cf_path request) (Some (default [] (cf_label request))) SendReceive false
    (as_i32 (default (as_u32 DEFAULT_SCAN_INTERVAL_SECS) (cf_rescan request))) devices []
    (requested_versioning <$> cf_versioning request) in
  do! save_config (set_folders config (cfg_folders config ++ [folder])) in
  se_ret (201, folder_response folder).

Definition create_folder (request : CreateFolderRequest) : M (Z * FolderResponse) :=
  do! guard_ok (validate_folder_id unicode_alphanumeric (cf_id request)) 400 in
  do! guard_ok (validate_path (cf_path request)) 400 in
  let! config := load_config in
  create_folder_in request config.

(** The fields a request may change. *)
Definition apply_folder_update (r : UpdateFolderRequest) (f : Folder) : Folder :=
  mkFolder (folder_id f) (default (folder_path f) (uf_path r))
    (match uf_label r with Some l => Some l | None => folder_label f end) (folder_type f) (folder_paused f)
    (match uf_rescan r with Some i => as_i32 i | None => rescan_interval_secs f end) (folder_devices f)
    (ignore_patterns f) (versioning f).

Definition update_folder (id : str) (request : UpdateFolderRequest) : M FolderResponse :=
  do! guard_ok (validate_folder_id unicode_alphanumeric id) 400 in
  do! match uf_path request with Some path => guard_ok (validate_path path) 400 | None => se_ret tt end in
  let! config := load_config in
  match find_folder id config with
  | None => se_throw (Status 404)
  | Some f =>
      let folders := alter_first (fun f => bool_decide (folder_id f = id)) (apply_folder_update request) (cfg_folders config) in
      do! save_config (set_folders config folders) in
      se_ret (folder_response (apply_folder_update request f))
  end.

Definition delete_folder (id : str) : M Z :=
  let! config := load_config in
  let kept := filter (fun f => folder_id f <> id) (cfg_folders config) in
  do! guard (negb (length kept =? length (cfg_folders config))%nat) 404 in
  do! save_config (set_folders config kept) in
  se_ret 204.

(** *** [device.rs] *)

Definition handle_list_devices : M (list DeviceResponse) :=
  let! config := load_config in se_ret (device_response <$> cfg_devices config).

Definition find_device (id : DeviceId) (config : Config) : option Device :=
  List.find (fun d => same_id (dev_id d) id) (cfg_devices config).

Definition handle_get_device (id : str) : M DeviceResponse :=
  let! config := load_config in
  let! device_id := parse_device_id id in
  match find_device device_id config with
  | Some d => se_ret (device_response d)
  | None => se_throw (Status 404)
  end.

(** The socket addresses among the new ones. *)
Definition connect_addrs (addresses : list AddressType) : list SocketAddr :=
  omap (fun a => match a with Tcp s | Quic s => parse_socket_addr s | _ => None end) addresses.

Definition add_device (request : AddDeviceRequest) : M (Z * DeviceResponse) :=
  let! valid := no_panic (validate_device_id unicode_alphanumeric hex_decode (ad_id request)) in
  do! guard_ok valid 400 in
  let! config := load_config in
  let! device_id := parse_device_id (ad_id request) in
  do! guard (negb (existsb (fun d => same_id (dev_id d) device_id) (cfg_devices config))) 409 in
  let addresses := api_parse_address <$> default [ $"dynamic" ] (ad_addresses request) in
  let device := mkDevice device_id (ad_name request) addresses false (default false (ad_introducer request)) in
  do! save_config (set_devices config (cfg_devices config ++ [device])) in
  do! match ae_manager env with
      | Some _ => call (ConnectTo device_id (connect_addrs addresses))
      | None => se_ret tt
      end in
  se_ret (201, device_response device).

Definition remove_device (id : str) : M Z :=
  let! config := load_config in
  let! device_id := parse_device_id id in
  let kept := filter (fun d => same_id (dev_id d) device_id = false) (cfg_devices config) in
  do! guard (negb (length kept =? length (cfg_devices config))%nat) 404 in
  do! save_config (set_devices config kept) in
  se_ret 204.

Definition apply_device_update (r : UpdateDeviceRequest) (d : Device) : Device :=
  mkDevice (dev_id d) (Some (ud_name r)) (api_parse_address <$> ud_addresses r) (dev_paused d) (ud_introducer r).

Definition update_device (id : str) (request : UpdateDeviceRequest) : M DeviceResponse :=
  let! config := load_config in
  let! device_id := parse_device_id id in
  let! request_id := parse_device_id (ud_id request) in
  do! guard (bool_decide (device_id = request_id)) 400 in
  match find_device device_id config with
  | None => se_throw (Status 404)
  | Some d =>
      let devices := alter_first (fun d => same_id (dev_id d) device_id) (apply_device_update request) (cfg_devices config) in
      do! save_config (set_devices config devices) in
      se_ret (device_response (apply_device_update request d))
  end.

(** *** [config.rs] *)

Definition handle_get_config : M ConfigResponse :=
  let! config := load_config in se_ret (config_response config).

(** One folder of the request: changed when it exists, added when it has a
    path, left out otherwise.  Nothing is validated. *)
Definition merge_folder (folders : list Folder) (r : UpdateFolderRequest) : list Folder :=
  match uf_id r with
  | None => folders
  | Some id =>
      if existsb (fun f => bool_decide (folder_id f = id)) folders
      then alter_first (fun f => bool_decide (folder_id f = id)) (apply_folder_update r) folders
      else match uf_path r with
           | Some path => folders ++ [apply_folder_update r (folder_new id path)]
           | None => folders
           end
  end.

Definition merge_existing_device (r : UpdateDeviceRequest) (d : Device) : Device :=
  mkDevice (dev_id d) (if decide (ud_name r = []) then dev_name d else Some (ud_name r))
    (if decide (ud_addresses r = []) then dev_addresses d else api_parse_address <$> ud_addresses r)
    (dev_paused d) (ud_introducer r).

Definition merge_device (devices : list Device) (id : DeviceId) (r : UpdateDeviceRequest) : list Device :=
  if existsb (fun d => bool_decide (dev_id d = id)) devices
  then alter_first (fun d => bool_decide (dev_id d = id)) (merge_existing_device r) devices
  else devices ++ [mkDevice id (if decide (ud_name r = []) then None else Some (ud_name r))
                     (api_parse_address <$> ud_addresses r) false (ud_introducer r)].

Fixpoint merge_devices (devices : list Device) (rs : list UpdateDeviceRequest) : M (list Device) :=
  match rs with
  | [] => se_ret devices
  | r :: rest =>
      let! id := parse_device_id (ud_id r) in
      merge_devices (merge_device devices id r) rest
  end.

Definition update_config (request : UpdateConfigRequest) : M ConfigResponse :=
  let! config := load_config in
  let folders := foldl merge_folder (cfg_folders config) (uc_folders request) in
  let! devices := merge_devices (cfg_devices config) (uc_devices request) in
  let config' := set_devices (set_folders (set_version config (as_i32 (uc_version request))) folders) devices in
  do! save_config config' in
  se_ret (config_response config').

(** *** [system_ops.rs], [db.rs]: calls into the sync model *)

(** A call of the sync model; its error is answered with [code]. *)
Definition model_call (m : ModelCall) (unavailable code : Z) : M unit :=
  match ae_model env with
  | None => se_throw (Status unavailable)
  | Some model => do! call m in guard_ok (model m) code
  end.

Fixpoint model_calls (ms : list ModelCall) (code : Z) : M unit :=
  match ms with
  | [] => se_ret tt
  | m :: rest => do! model_call m 501 code in model_calls rest code
  end.

Definition each_folder (mk : str -> ModelCall) : M Z :=
  do! match ae_model env with None => se_throw (Status 501) | Some _ => se_ret tt end in
  let! config := load_config in
  do! model_calls ((fun f => mk (folder_id f)) <$> cfg_folders config) 500 in
  se_ret 202.

Definition pause_all : M Z := each_folder StopFolder.
Definition resume_all : M Z := each_folder StartFolder.

Definition pause_folder (id : str) : M Z := do! model_call (StopFolder id) 501 500 in se_ret 202.
Definition resume_folder (id : str) : M Z := do! model_call (StartFolder id) 501 500 in se_ret 202.

Definition trigger_scan (folder : option str) : M Z :=
  match folder with
  | Some id => do! model_call (ScanFolder id) 501 500 in se_ret 202
  | None => each_folder ScanFolder
  end.

Definition trigger_folder_scan (id : str) : M Z := do! model_call (ScanFolder id) 501 500 in se_ret 202.

Definition db_scan_post (folder : str) (sub : option str) : M Z :=
  do! model_call (match sub with
                  | Some s => if decide (s = []) then ScanFolder folder else ScanFolderSub folder s
                  | None => ScanFolder folder
                  end) 503 500 in
  se_ret 200.

Definition db_override (folder : str) : M Z := do! model_call (OverrideFolder folder) 503 500 in se_ret 200.
Definition db_revert (folder : str) : M Z := do! model_call (RevertFolder folder) 503 500 in se_ret 200.

Definition set_paused (p : bool) (d : Device) : Device :=
  mkDevice (dev_id d) (dev_name d) (dev_addresses d) p (dev_introducer d).

(** The devices of a pause or resume request, with the texts of those found. *)
Fixpoint pause_devices (p : bool) (ids : list str) (devices : list Device) : M (list Device * list str) :=
  match ids with
  | [] => se_ret (devices, [])
  | text :: rest =>
      let! id := parse_device_id text in
      let found := existsb (fun d => same_id (dev_id d) id) devices in
      do! match ae_manager env with
          | Some has_connection => if p && has_connection id then call (Disconnect id) else se_ret tt
          | None => se_ret tt
          end in
      let! (devices', done) :=
        pause_devices p rest (alter_first (fun d => same_id (dev_id d) id) (set_paused p) devices) in
      se_ret (devices', if found then text :: done else done)
  end.

(** Errors of the folder calls are logged and left out of the answer. *)
Fixpoint try_calls (mk : str -> ModelCall) (ids : list str) : M (list str) :=
  match ids with
  | [] => se_ret []
  | id :: rest =>
      match ae_model env with
      | None => se_ret []
      | Some model =>
          do! call (mk id) in
          let! done := try_calls mk rest in
          se_ret (if is_ok (model (mk id)) then id :: done else done)
      end
  end.

(** Loading and saving errors are only logged. *)
Definition system_pause_resume (p : bool) (device folder : list str) : M (list str) := fun w =>
  let devices : M (list str) :=
    if decide (device = []) then se_ret []
    else fun w =>
      match load_config w with
      | (Ok config, w1) =>
          (let! (ds, done) := pause_devices p device (cfg_devices config) in
           fun w => ((Ok done : result ApiFailure (list str)), (save_config (set_devices config ds) w).2)) w1
      | (Err _, w1) => (Ok [], w1)
      end in
  (let! ds := devices in
   let! fs := try_calls (if p then StopFolder else StartFolder) folder in
   se_ret (ds ++ fs)) w.

Definition system_pause : list str -> list str -> M (list str) := system_pause_resume true.
Definition system_resume : list str -> list str -> M (list str) := system_pause_resume false.

(** [system_restart] and [system_shutdown]: a spawned task signals the shutdown a
    tenth of a second later, or exits when no channel is wired. *)
Definition system_restart : M Z :=
  do! call (if ae_shutdown_tx env then SignalShutdown else ExitProcess 3) in se_ret 200.

Definition system_shutdown : M Z :=
  do! call (if ae_shutdown_tx env then SignalShutdown else ExitProcess 0) in se_ret 200.

End Handlers.

(** ** Requests through authentication to a handler *)

Inductive ApiCall :=
| CListFolders | CGetFolder (id : str) | CCreateFolder (r : CreateFolderRequest)
| CUpdateFolder (id : str) (r : UpdateFolderRequest) | CDeleteFolder (id : str)
| CListDevices | CGetDevice (id : str) | CAddDevice (r : AddDeviceRequest)
| CUpdateDevice (id : str) (r : UpdateDeviceRequest) | CRemoveDevice (id : str)
| CGetConfig | CUpdateConfig (r : UpdateConfigRequest) | CSystemConfig (r : UpdateConfigRequest)
| CPauseAll | CResumeAll | CPauseFolder (id : str) | CResumeFolder (id : str)
| CSystemPause (devices folders : list str) | CSystemResume (devices folders : list str)
| CSystemRestart | CSystemShutdown
| CScan (folder : option str) | CScanFolder (id : str) | CDbScan (folder : str) (sub : option str)
| CDbOverride (folder : str) | CDbRevert (folder : str).

(** [build_router]: the methods and paths under which each handler is reached.  The
    pages of [Browse], the events and the exempt [/rest/health] and [/metrics]
    change nothing and are not calls here. *)
Definition call_routes (c : ApiCall) : list (Method * str) :=
  match c with
  | CListFolders => [(GET, $"/rest/folders"); (GET, $"/rest/config/folders")]
  | CGetFolder id => [(GET, $"/rest/folder/" ++ id); (GET, $"/rest/config/folders/" ++ id)]
  | CCreateFolder _ => [(POST, $"/rest/folders"); (POST, $"/rest/config/folders")]
  | CUpdateFolder id _ => [(PUT, $"/rest/folder/" ++ id); (PUT, $"/rest/config/folders/" ++ id)]
  | CDeleteFolder id => [(DELETE, $"/rest/folder/" ++ id); (DELETE, $"/rest/config/folders/" ++ id)]
  | CListDevices => [(GET, $"/rest/devices"); (GET, $"/rest/config/devices")]
  | CGetDevice id => [(GET, $"/rest/device/" ++ id); (GET, $"/rest/config/devices/" ++ id)]
  | CAddDevice _ => [(POST, $"/rest/devices"); (POST, $"/rest/config/devices")]
  | CUpdateDevice id _ => [(PUT, $"/rest/device/" ++ id); (PUT, $"/rest/config/devices/" ++ id)]
  | CRemoveDevice id => [(DELETE, $"/rest/device/" ++ id); (DELETE, $"/rest/config/devices/" ++ id)]
  | CGetConfig => [(GET, $"/rest/config")]
  | CUpdateConfig _ => [(PUT, $"/rest/config")]
  | CSystemConfig _ => [(POST, $"/rest/system/config")]
  | CPauseAll => [(POST, $"/rest/pause")]
  | CResumeAll => [(POST, $"/rest/resume")]
  | CPauseFolder id => [(POST, $"/rest/pause/" ++ id)]
  | CResumeFolder id => [(POST, $"/rest/resume/" ++ id)]
  | CSystemPause _ _ => [(POST, $"/rest/system/pause")]
  | CSystemResume _ _ => [(POST, $"/rest/system/resume")]
  | CSystemRestart => [(POST, $"/rest/system/restart")]
  | CSystemShutdown => [(POST, $"/rest/system/shutdown")]
  | CScan _ => [(POST, $"/rest/scan")]
  | CScanFolder id => [(POST, $"/rest/scan/" ++ id)]
  | CDbScan _ _ => [(POST, $"/rest/db/scan")]
  | CDbOverride _ => [(POST, $"/rest/db/override")]
  | CDbRevert _ => [(POST, $"/rest/db/revert")]
  end.

Definition reading_call (c : ApiCall) : bool :=
  match c with
  | CListFolders | CGetFolder _ | CListDevices | CGetDevice _ | CGetConfig => true
  | _ => false
  end.

Section Serve.
Context {C : Type} `{ConfigStore C}.
Context (unicode_alphanumeric : Z -> bool) (hex_encode : list Z -> str) (hex_decode : chars -> option (list Z)).
Context (sha256 : Bytes -> list Z) (env : ApiEnv).
Abbreviation M A := (SE (ApiWorld C) ApiFailure A).

Definition exec_call (c : ApiCall) : M unit :=
  match c with
  | CListFolders => do! handle_list_folders hex_encode in se_ret tt
  | CGetFolder id => do! handle_get_folder hex_encode id in se_ret tt
  | CCreateFolder r => do! create_folder unicode_alphanumeric hex_encode hex_decode r in se_ret tt
  | CUpdateFolder id r => do! update_folder unicode_alphanumeric hex_encode id r in se_ret tt
  | CDeleteFolder id => do! delete_folder id in se_ret tt
  | CListDevices => do! handle_list_devices in se_ret tt
  | CGetDevice id => do! handle_get_device unicode_alphanumeric hex_decode sha256 id in se_ret tt
  | CAddDevice r => do! add_device unicode_alphanumeric hex_decode sha256 env r in se_ret tt
  | CUpdateDevice id r => do! update_device unicode_alphanumeric hex_decode sha256 id r in se_ret tt
  | CRemoveDevice id => do! remove_device unicode_alphanumeric hex_decode sha256 id in se_ret tt
  | CGetConfig => do! handle_get_config hex_encode in se_ret tt
  | CUpdateConfig r | CSystemConfig r => do! update_config unicode_alphanumeric hex_encode hex_decode sha256 r in se_ret tt
  | CPauseAll => do! pause_all env in se_ret tt
  | CResumeAll => do! resume_all env in se_ret tt
  | CPauseFolder id => do! pause_folder env id in se_ret tt
  | CResumeFolder id => do! resume_folder env id in se_ret tt
  | CSystemPause ds fs => do! system_pause unicode_alphanumeric hex_decode sha256 env ds fs in se_ret tt
  | CSystemResume ds fs => do! system_resume unicode_alphanumeric hex_decode sha256 env ds fs in se_ret tt
  | CSystemRestart => do! system_restart env in se_ret tt
  | CSystemShutdown => do! system_shutdown env in se_ret tt
  | CScan f => do! trigger_scan env f in se_ret tt
  | CScanFolder id => do! trigger_folder_scan env id in se_ret tt
  | CDbScan f sub => do! db_scan_post env f sub in se_ret tt
  | CDbOverride f => do! db_override env f in se_ret tt
  | CDbRevert f => do! db_revert env f in se_ret tt
  end.

(** The authentication layer runs before the route is looked up. *)
Definition serve (keys : option str * option str) (req : ApiRequest) (c : ApiCall) : M unit :=
  match api_key_middleware keys.1 keys.2 req with
  | Forbidden => se_throw (Status 403)
  | Unauthorized => se_throw (Status 401)
  | Pass =>
      if decide ((rq_method req, rq_path req) ∈ call_routes c) then exec_call c else se_throw (Status 404)
  end.

End Serve.

(** ** Who may change what *)

Lemma key_is_spec configured provided :
  key_is configured provided = true <-> exists k, k <> [] /\ configured = Some k /\ provided = Some k.
Proof.
  unfold key_is. destruct configured as [k|]; [|naive_solver]. rewrite andb_true_iff, !bool_decide_eq_true. naive_solver.
Qed.

Lemma call_routes_path c r : r ∈ call_routes c -> r.2 <> $"/rest/health" /\ r.2 <> $"/metrics".
Proof.
  intros Hr. destruct c; cbn [call_routes] in Hr; repeat (apply elem_of_cons in Hr as [-> | Hr]; [split; discriminate|]);
    by apply not_elem_of_nil in Hr.
Qed.

Lemma writing_call_method c r :
  reading_call c = false -> r ∈ call_routes c -> r.1 <> GET /\ r.1 <> HEAD /\ r.1 <> OPTIONS.
Proof.
  intros Hc Hr. destruct c; try discriminate Hc; cbn [call_routes] in Hr;
    repeat (apply elem_of_cons in Hr as [-> | Hr]; [done|]); by apply not_elem_of_nil in Hr.
Qed.

Definition remote (req : ApiRequest) : Prop :=
  match rq_peer req with Some ip => is_loopback ip = false | None => True end.

(** What the middleware lets through, exactly. *)
Lemma middleware_spec k ro req :
  api_key_middleware k ro req = Pass <->
  rq_path req = $"/rest/health" \/ rq_path req = $"/metrics" \/ ~ remote req \/
  (exists a, a <> [] /\ k = Some a /\ provided_key req = Some a) \/
  (exists a, a <> [] /\ ro = Some a /\ provided_key req = Some a /\
             (rq_method req = GET \/ rq_method req = HEAD \/ rq_method req = OPTIONS)) \/
  (no_key k = true /\ no_key ro = true).
Proof.
  unfold api_key_middleware, remote. rewrite <-key_is_spec.
  assert ((exists a, a <> [] /\ ro = Some a /\ provided_key req = Some a /\
             (rq_method req = GET \/ rq_method req = HEAD \/ rq_method req = OPTIONS)) <->
          key_is ro (provided_key req) = true /\ (rq_method req = GET \/ rq_method req = HEAD \/ rq_method req = OPTIONS)) as ->.
  { rewrite key_is_spec. naive_solver. }
  assert (key_is ro (provided_key req) = true -> no_key ro = false) as Hro.
  { intros (a & Ha & -> & _)%key_is_spec. cbn. by rewrite bool_decide_eq_false_2. }
  assert (match rq_peer req with Some ip => is_loopback ip = false | None => True end <->
          match rq_peer req with Some ip => is_loopback ip | None => false end = false) as -> by (by destruct (rq_peer req)).
  case_bool_decide as P1; [cbn [orb]; split; [tauto|done]|]. case_bool_decide as P2; [cbn [orb]; split; [tauto|done]|].
  cbn [orb]. destruct (match rq_peer req with Some ip => is_loopback ip | None => false end);
    [split; [intuition discriminate|done]|].
  destruct (key_is k (provided_key req)); [split; [tauto|done]|].
  destruct (key_is ro (provided_key req)); [rewrite Hro by done|].
  - repeat case_bool_decide; cbn [orb]; (split; [try discriminate; tauto|try done]); intuition discriminate.
  - destruct (no_key k), (no_key ro); cbn [andb]; (split; [try discriminate; tauto|try done]); intuition discriminate.
Qed.

Lemma serve_unauthorized {C : Type} `{ConfigStore C} ua he hd sha env keys req c (w : ApiWorld C) r w' :
  serve ua he hd sha env keys req c w = (r, w') -> remote req -> reading_call c = false ->
  no_key keys.1 && no_key keys.2 = false ->
  ~ (exists a, a <> [] /\ keys.1 = Some a /\ provided_key req = Some a) ->
  w' = w /\ exists code, r = Err (Status code).
Proof.
  intros E Hr Hc Hk Hn. unfold serve in E.
  destruct (api_key_middleware keys.1 keys.2 req) eqn:Ev; [|injection E as <- <-; eauto..].
  case_decide as Er; [|injection E as <- <-; eauto]. exfalso.
  destruct (call_routes_path c _ Er) as [P1 P2]. destruct (writing_call_method c _ Hc Er) as (M1 & M2 & M3).
  cbn in *.
  apply middleware_spec in Ev as [?|[?|[?|[?|[(a & _ & _ & _ & Hm)|[N1 N2]]]]]]; [done|done|done|done|tauto|].
  by rewrite N1, N2 in Hk.
Qed.

(** C12: Once an API key is configured, nothing can be changed from another host
    without the administrator key: a request for any handler that changes
    something (folders, devices, configuration, pausing, scans, override, revert,
    restart and shutdown), under any of its routes, that is not local and does not
    carry that key is refused with an error status, and neither the configuration,
    the sync model nor the process is touched. *)
Theorem api_changes_need_key {C : Type} `{ConfigStore C} ua he hd sha env config req c (w : ApiWorld C) :
  remote req -> reading_call c = false -> gui_api_key (cfg_gui config) <> [] ->
  provided_key req <> Some (gui_api_key (cfg_gui config)) ->
  exists code, serve ua he hd sha env (server_keys config) req c w = (Err (Status code), w).
Proof.
  intros Hr Hc Hk Hp. destruct (serve ua he hd sha env (server_keys config) req c w) as [r w'] eqn:E.
  eapply serve_unauthorized in E as [-> [code ->]]; [by exists code|done|done| |].
  - cbn. by rewrite bool_decide_eq_false_2.
  - cbn. naive_solver.
Qed.

Definition rest_demo_request (m : Method) (path : str) (key : option str) : ApiRequest :=
  mkApiRequest path m (Some (V4 [192; 168; 1; 7])) key None.

Definition keyed_config : Config :=
  mkConfig 1 DEFAULT_LISTEN_ADDR DEFAULT_DEVICE_NAME [] [] None
    (mkGuiConfig true DEFAULT_GUI_ADDR ($"secret") ($"look")) options_default.

Definition no_env : ApiEnv := mkApiEnv None None (fun _ => false) true.

Lemma api_changes_need_key_witness :
  exists code, serve (C := MemoryConfigStore) (fun _ => false) (fun _ => []) (fun _ => None) (fun _ => []) no_env
    (server_keys keyed_config) (rest_demo_request DELETE ($"/rest/config/folders/docs") (Some ($"look"))) (CDeleteFolder ($"docs"))
    (mkApiWorld memory_new []) = (Err (Status code), mkApiWorld memory_new []).
Proof.
  apply (api_changes_need_key (C := MemoryConfigStore)); [reflexivity|reflexivity|discriminate|discriminate].
Defined.

(** With the default configuration the listener is meant for 127.0.0.1 only;
    when that port is taken it is opened on all interfaces, and as no key is
    configured every request of every host is let through. *)
Theorem default_api_exposed bind :
  bind (mkSocketAddr (V4 [127; 0; 0; 1]) 8385) = false -> bind fallback_addr = true ->
  exists keys, start_api_server config_new bind = Ok (Some (fallback_addr, keys)) /\
    forall req, api_key_middleware keys.1 keys.2 req = Pass.
Proof.
  intros H1 H2. exists (server_keys config_new). split.
  - unfold start_api_server. assert (parse_socket_addr (gui_address (cfg_gui config_new)) =
      Some (mkSocketAddr (V4 [127; 0; 0; 1]) 8385)) as -> by (vm_compute; reflexivity).
    cbn [ok_or result_bind]. unfold api_bind. by rewrite H1, H2.
  - intros req. apply middleware_spec. do 5 right. done.
Qed.

(** ** The configuration stays consistent *)

Record config_unique (c : Config) : Prop := {
  cu_folders : NoDup (folder_id <$> cfg_folders c);
  cu_devices : NoDup (dev_id <$> cfg_devices c);
}.

Lemma alter_first_key {A K : Type} (key : A -> K) p g (l : list A) :
  (forall x, key (g x) = key x) -> key <$> alter_first p g l = key <$> l.
Proof.
  intros Hg. induction l as [|x l IH]; [done|]. cbn [alter_first]. destruct (p x); rewrite !fmap_cons; [by rewrite Hg|by rewrite IH].
Qed.

Lemma NoDup_snoc_key {A K : Type} (key : A -> K) (l : list A) x :
  NoDup (key <$> l) -> (forall y, y ∈ l -> key y <> key x) -> NoDup (key <$> l ++ [x]).
Proof.
  intros Hl Hx. rewrite fmap_app. apply NoDup_app. split_and!; [done| |apply NoDup_singleton].
  intros k (y & -> & Hy)%list_elem_of_fmap E%list_elem_of_singleton. by eapply Hx.
Qed.

Lemma NoDup_filter_key {A K : Type} (key : A -> K) (P : A -> Prop) `{forall x, Decision (P x)} (l : list A) :
  NoDup (key <$> l) -> NoDup (key <$> filter P l).
Proof. intros Hl. apply (sublist_NoDup _ (key <$> l)); [done|]. apply fmap_sublist, sublist_filter. Qed.

Lemma existsb_false {A : Type} (p : A -> bool) (l : list A) : existsb p l = false -> forall x, x ∈ l -> p x = false.
Proof.
  induction l as [|y l IH]; cbn; intros E x Hx; [by apply elem_of_nil in Hx|].
  apply orb_false_iff in E as [E1 E2]. apply elem_of_cons in Hx as [->|Hx]; auto.
Qed.

Section Keeps.
Context {C : Type} `{ConfigStoreLaws C}.
Context (unicode_alphanumeric : Z -> bool) (hex_encode : list Z -> str) (hex_decode : chars -> option (list Z)).
Context (sha256 : Bytes -> list Z) (env : ApiEnv).
Abbreviation M A := (SE (ApiWorld C) ApiFailure A).

Definition api_consistent (w : ApiWorld C) : Prop := exists cfg, cs_view (aw_store w) = Some cfg /\ config_unique cfg.

(** [c] keeps the configuration consistent and its results satisfy [Q]. *)
Definition api_keeps {A : Type} (c : M A) (Q : A -> Prop) : Prop :=
  forall w r w', c w = (r, w') -> api_consistent w -> api_consistent w' /\ forall a, r = Ok a -> Q a.

Lemma keeps_bind {A B : Type} (c : M A) (k : A -> M B) Q R :
  api_keeps c Q -> (forall a, Q a -> api_keeps (k a) R) -> api_keeps (se_bind c k) R.
Proof.
  intros Hc Hk w r w' E Hw. unfold se_bind in E. destruct (c w) as [[a|e] w1] eqn:Ec.
  - destruct (Hc _ _ _ Ec Hw) as [Hw1 Ha]. eapply Hk; eauto.
  - injection E as <- <-. destruct (Hc _ _ _ Ec Hw) as [Hw1 _]. by split.
Qed.

Lemma keeps_ret {A : Type} (a : A) (Q : A -> Prop) : Q a -> api_keeps (se_ret a) Q.
Proof. intros HQ w r w' [= <- <-] Hw. split; [done|]. by intros ? [= <-]. Qed.

Lemma keeps_throw {A : Type} e (Q : A -> Prop) : api_keeps (se_throw e) Q.
Proof. intros w r w' [= <- <-] Hw. by split. Qed.

Lemma keeps_load : api_keeps load_config config_unique.
Proof.
  intros w r w' E (cfg & Hv & Hu). unfold load_config in E. destruct (cs_load (aw_store w)) as [[x|e] c'] eqn:El;
    injection E as <- <-.
  - destruct (cs_load_Ok _ _ _ El) as [Hv' Hx]. specialize (Hx _ Hv) as ->. split; [by exists cfg|]. by intros a [= <-].
  - apply cs_load_Err in El. split; [exists cfg; cbn; by rewrite El|done].
Qed.

Lemma keeps_save cfg : config_unique cfg -> api_keeps (save_config cfg) (fun _ => True).
Proof.
  intros Hu w r w' E (x & Hv & Hx). unfold save_config in E. destruct (cs_save cfg (aw_store w)) as [[[]|e] c'] eqn:Es;
    injection E as <- <-; (split; [|done]).
  - apply cs_save_Ok in Es. by exists cfg.
  - apply cs_save_Err in Es. exists x. cbn. by rewrite Es.
Qed.

Lemma keeps_call m : api_keeps (call m) (fun _ => True).
Proof. intros w r w' [= <- <-] Hw. done. Qed.

Lemma keeps_guard b code : api_keeps (guard b code) (fun _ => b = true).
Proof. destruct b; [by apply keeps_ret|apply keeps_throw]. Qed.

Lemma keeps_guard_ok {E A : Type} (x : result E A) code : api_keeps (guard_ok x code) (fun _ => True).
Proof. destruct x; [by apply keeps_ret|apply keeps_throw]. Qed.

Lemma keeps_no_panic {A : Type} (o : option A) : api_keeps (no_panic o) (fun _ => True).
Proof. destruct o; [by apply keeps_ret|apply keeps_throw]. Qed.
End Keeps.

#[export] Hint Resolve keeps_load keeps_call keeps_guard keeps_guard_ok keeps_no_panic keeps_throw : rust.

(** One step of a handler: the call by its lemma, then the continuation. *)
Ltac keeps_step :=
  match goal with
  | |- api_keeps (se_bind _ _) _ =>
      eapply keeps_bind; [first [apply keeps_load | apply keeps_guard | apply keeps_guard_ok | apply keeps_no_panic
                                | apply keeps_call | eassumption | eauto with rust]|intros ? ?; cbv beta in *]
  | |- api_keeps (se_ret _) _ => apply keeps_ret; try done
  | |- api_keeps (se_throw _) _ => apply keeps_throw
  | |- api_keeps (match ?x with _ => _ end) _ => destruct x
  end.

Section Handled.
Context {C : Type} `{ConfigStoreLaws C}.
Context (unicode_alphanumeric : Z -> bool) (hex_encode : list Z -> str) (hex_decode : chars -> option (list Z)).
Context (sha256 : Bytes -> list Z) (env : ApiEnv).
Abbreviation M A := (SE (ApiWorld C) ApiFailure A).
Abbreviation keeps_all c := (api_keeps (C := C) c (fun _ => True)).

Lemma keeps_parse_device id : keeps_all (parse_device_id unicode_alphanumeric hex_decode sha256 id).
Proof. unfold parse_device_id. repeat keeps_step. Qed.

Lemma keeps_parse_devices ds : keeps_all (parse_devices unicode_alphanumeric hex_decode ds).
Proof. induction ds as [|d ds IH]; cbn [parse_devices]; repeat keeps_step. Qed.

(** Saving changed folders or devices. *)
Lemma keeps_save_folders cfg fs :
  config_unique cfg -> NoDup (folder_id <$> fs) -> keeps_all (save_config (set_folders cfg fs)).
Proof. intros [? ?] ?. apply keeps_save. by split. Qed.

Lemma keeps_save_devices cfg ds :
  config_unique cfg -> NoDup (dev_id <$> ds) -> keeps_all (save_config (set_devices cfg ds)).
Proof. intros [? ?] ?. apply keeps_save. by split. Qed.

Lemma keeps_create_folder r : keeps_all (create_folder unicode_alphanumeric hex_encode hex_decode r).
Proof.
  unfold create_folder. do 3 keeps_step. unfold create_folder_in. keeps_step.
  eapply keeps_bind; [apply keeps_parse_devices|intros devices _]. eapply keeps_bind; [|intros; by apply keeps_ret].
  apply keeps_save_folders; [done|]. apply NoDup_snoc_key; [by apply cu_folders|]. cbn. intros f Hf.
  match goal with He : negb _ = true |- _ => apply negb_true_iff in He; eapply existsb_false in He; [|exact Hf];
    by apply bool_decide_eq_false_1 in He end.
Qed.

Lemma keeps_update_folder id r : keeps_all (update_folder unicode_alphanumeric hex_encode id r).
Proof.
  unfold update_folder. keeps_step. eapply keeps_bind.
  { destruct (uf_path r); [apply keeps_guard_ok|by apply keeps_ret]. }
  intros _ _. keeps_step. keeps_step; [|apply keeps_throw]. eapply keeps_bind; [|intros; by apply keeps_ret].
  apply keeps_save_folders; [done|]. rewrite alter_first_key by done. by apply cu_folders.
Qed.

Lemma keeps_delete_folder id : keeps_all (delete_folder (C := C) id).
Proof.
  unfold delete_folder. do 2 keeps_step. eapply keeps_bind; [|intros; by apply keeps_ret].
  apply keeps_save_folders; [done|]. by apply NoDup_filter_key, cu_folders.
Qed.

Lemma keeps_add_device r : keeps_all (add_device unicode_alphanumeric hex_decode sha256 env r).
Proof.
  unfold add_device. do 3 keeps_step. eapply keeps_bind; [apply keeps_parse_device|intros id _]. keeps_step.
  eapply keeps_bind; [|intros _ _; eapply keeps_bind; [|intros; by apply keeps_ret]].
  - apply keeps_save_devices; [done|]. apply NoDup_snoc_key; [by apply cu_devices|]. cbn. intros d Hd.
    match goal with He : negb _ = true |- _ => apply negb_true_iff in He; eapply existsb_false in He; [|exact Hd];
      apply bool_decide_eq_false_1 in He; congruence end.
  - destruct (ae_manager env); [apply keeps_call|by apply keeps_ret].
Qed.

Lemma keeps_remove_device id : keeps_all (remove_device unicode_alphanumeric hex_decode sha256 id).
Proof.
  unfold remove_device. keeps_step. eapply keeps_bind; [apply keeps_parse_device|intros d _]. keeps_step.
  eapply keeps_bind; [|intros; by apply keeps_ret]. apply keeps_save_devices; [done|]. by apply NoDup_filter_key, cu_devices.
Qed.

Lemma keeps_update_device id r : keeps_all (update_device unicode_alphanumeric hex_decode sha256 id r).
Proof.
  unfold update_device. keeps_step. do 2 (eapply keeps_bind; [apply keeps_parse_device|intros ? _]). keeps_step.
  keeps_step; [|apply keeps_throw]. eapply keeps_bind; [|intros; by apply keeps_ret].
  apply keeps_save_devices; [done|]. rewrite alter_first_key by done. by apply cu_devices.
Qed.

Lemma merge_folder_unique fs r : NoDup (folder_id <$> fs) -> NoDup (folder_id <$> merge_folder fs r).
Proof.
  intros Hn. unfold merge_folder. destruct (uf_id r) as [id|]; [|done]. destruct (existsb _ fs) eqn:E.
  - by rewrite alter_first_key.
  - destruct (uf_path r) as [path|]; [|done]. apply NoDup_snoc_key; [done|]. cbn. intros f Hf.
    eapply existsb_false in E; [|exact Hf]. by apply bool_decide_eq_false_1 in E.
Qed.

Lemma merge_device_unique ds id r : NoDup (dev_id <$> ds) -> NoDup (dev_id <$> merge_device ds id r).
Proof.
  intros Hn. unfold merge_device. destruct (existsb _ ds) eqn:E.
  - by rewrite alter_first_key.
  - apply NoDup_snoc_key; [done|]. cbn. intros d Hd. eapply existsb_false in E; [|exact Hd].
    by apply bool_decide_eq_false_1 in E.
Qed.

Lemma keeps_merge_devices ds rs :
  NoDup (dev_id <$> ds) ->
  api_keeps (merge_devices (C := C) unicode_alphanumeric hex_decode sha256 ds rs) (fun ds' => NoDup (dev_id <$> ds')).
Proof.
  revert ds. induction rs as [|r rs IH]; intros ds Hn; cbn [merge_devices]; [by apply keeps_ret|].
  eapply keeps_bind; [apply keeps_parse_device|intros id _]. by apply IH, merge_device_unique.
Qed.

Lemma keeps_update_config r : keeps_all (update_config unicode_alphanumeric hex_encode hex_decode sha256 r).
Proof.
  unfold update_config. keeps_step. eapply keeps_bind; [by apply keeps_merge_devices, cu_devices|intros ds Hds].
  eapply keeps_bind; [|intros; by apply keeps_ret]. apply keeps_save. split; cbn; [|done].
  match goal with Hu : config_unique ?c |- _ => pose proof (cu_folders _ Hu) as Hf; revert Hf; generalize (cfg_folders c) end.
  induction (uc_folders r) as [|x xs IH]; intros fs Hf; cbn; [done|]. by apply IH, merge_folder_unique.
Qed.

Lemma keeps_model_call m u code : keeps_all (model_call env m u code).
Proof. unfold model_call. destruct (ae_model env); repeat keeps_step; apply keeps_guard_ok. Qed.

Lemma keeps_model_calls ms code : keeps_all (model_calls env ms code).
Proof.
  induction ms as [|m ms IH]; cbn [model_calls]; [by apply keeps_ret|].
  eapply keeps_bind; [apply keeps_model_call|by intros].
Qed.

Lemma keeps_each_folder mk : keeps_all (each_folder env mk).
Proof.
  unfold each_folder. eapply keeps_bind; [destruct (ae_model env); [by apply (keeps_ret _ (fun _ => True))|apply keeps_throw]|intros _ _].
  keeps_step. eapply keeps_bind; [apply keeps_model_calls|intros; by apply keeps_ret].
Qed.

Lemma keeps_pause_devices p ids ds :
  NoDup (dev_id <$> ds) ->
  api_keeps (pause_devices (C := C) unicode_alphanumeric hex_decode sha256 env p ids ds) (fun r => NoDup (dev_id <$> r.1)).
Proof.
  revert ds. induction ids as [|id ids IH]; intros ds Hn; cbn [pause_devices]; [by apply keeps_ret|].
  eapply keeps_bind; [apply keeps_parse_device|intros d _]. eapply keeps_bind.
  { destruct (ae_manager env) as [hc|]; [|by apply (keeps_ret _ (fun _ => True))].
    destruct (p && hc d); [apply keeps_call|by apply keeps_ret]. }
  intros _ _. eapply keeps_bind; [apply IH; by rewrite alter_first_key|]. intros [ds' texts] Hd. by apply keeps_ret.
Qed.

Lemma keeps_try_calls mk ids : keeps_all (try_calls (C := C) env mk ids).
Proof.
  induction ids as [|id ids IH]; cbn [try_calls]; [by apply keeps_ret|]. destruct (ae_model env); [|by apply keeps_ret].
  keeps_step. eapply keeps_bind; [exact IH|intros; by apply keeps_ret].
Qed.

Lemma keeps_system_pause_resume p ds fs :
  keeps_all (system_pause_resume unicode_alphanumeric hex_decode sha256 env p ds fs).
Proof.
  unfold system_pause_resume. eapply (keeps_bind _ _ (fun _ => True)).
  - case_decide; [by apply keeps_ret|]. intros w r w' E Hw. destruct (load_config w) as [[config|e] w1] eqn:El.
    + destruct (keeps_load _ _ _ El Hw) as [Hw1 Hu]. specialize (Hu _ eq_refl).
      revert E Hw1. apply (keeps_bind _ _ (fun r => NoDup (dev_id <$> r.1))); [by apply keeps_pause_devices, cu_devices|].
      intros [ds' texts] Hd w2 r2 w3 [= <- <-] Hw2. split; [|done].
      destruct (save_config (set_devices config ds') w2) as [r3 w4] eqn:Es.
      by apply (keeps_save_devices config ds' Hu Hd _ _ _ Es).
    + injection E as <- <-. by destruct (keeps_load _ _ _ El Hw).
  - intros done _. eapply keeps_bind; [apply keeps_try_calls|intros; by apply keeps_ret].
Qed.

Lemma exec_call_keeps c : keeps_all (exec_call unicode_alphanumeric hex_encode hex_decode sha256 env c).
Proof.
  destruct c; cbn [exec_call]; (eapply (keeps_bind _ _ (fun _ => True)); [|intros; by apply keeps_ret]).
  - unfold handle_list_folders. repeat keeps_step.
  - unfold handle_get_folder. keeps_step. destruct (find_folder _ _); [by apply keeps_ret|apply keeps_throw].
  - apply keeps_create_folder.
  - apply keeps_update_folder.
  - apply keeps_delete_folder.
  - unfold handle_list_devices. repeat keeps_step.
  - unfold handle_get_device. keeps_step. eapply keeps_bind; [apply keeps_parse_device|intros d _].
    destruct (find_device _ _); [by apply keeps_ret|apply keeps_throw].
  - apply keeps_add_device.
  - apply keeps_update_device.
  - apply keeps_remove_device.
  - unfold handle_get_config. repeat keeps_step.
  - apply keeps_update_config.
  - apply keeps_update_config.
  - apply keeps_each_folder.
  - apply keeps_each_folder.
  - unfold pause_folder. eapply keeps_bind; [apply keeps_model_call|intros; by apply keeps_ret].
  - unfold resume_folder. eapply keeps_bind; [apply keeps_model_call|intros; by apply keeps_ret].
  - apply keeps_system_pause_resume.
  - apply keeps_system_pause_resume.
  - unfold system_restart. eapply keeps_bind; [apply keeps_call|intros; by apply keeps_ret].
  - unfold system_shutdown. eapply keeps_bind; [apply keeps_call|intros; by apply keeps_ret].
  - unfold trigger_scan. destruct folder; [|apply keeps_each_folder].
    eapply keeps_bind; [apply keeps_model_call|intros; by apply keeps_ret].
  - unfold trigger_folder_scan. eapply keeps_bind; [apply keeps_model_call|intros; by apply keeps_ret].
  - unfold db_scan_post. eapply keeps_bind; [apply keeps_model_call|intros; by apply keeps_ret].
  - unfold db_override. eapply keeps_bind; [apply keeps_model_call|intros; by apply keeps_ret].
  - unfold db_revert. eapply keeps_bind; [apply keeps_model_call|intros; by apply keeps_ret].
Qed.

(** A sequence of requests, each through authentication and its handler. *)
Fixpoint serve_all (keys : option str * option str) (reqs : list (ApiRequest * ApiCall)) (w : ApiWorld C) : ApiWorld C :=
  match reqs with
  | [] => w
  | (req, c) :: rest =>
      serve_all keys rest (serve unicode_alphanumeric hex_encode hex_decode sha256 env keys req c w).2
  end.

(** Whatever requests are served, in any order and whichever loads, saves and
    model calls fail, folder IDs and device IDs stay unique in the
    configuration the server works with. *)
Theorem api_keeps_ids_unique keys reqs w :
  api_consistent w -> api_consistent (serve_all keys reqs w).
Proof.
  revert w. induction reqs as [|[req c] reqs IH]; intros w Hw; [done|]. cbn [serve_all]. apply IH.
  unfold serve. destruct (api_key_middleware keys.1 keys.2 req); [|done|done]. case_decide; [|done].
  destruct (exec_call _ _ _ _ _ c w) as [r w'] eqn:E. by apply (exec_call_keeps c _ _ _ E).
Qed.

End Handled.

Lemma api_keeps_ids_unique_witness :
  let r := mkCreateFolderRequest ($"docs") None ($"/srv/docs") [] None None in
  let reqs := [(mkApiRequest ($"/rest/folders") POST (Some (V4 [127; 0; 0; 1])) None None, CCreateFolder r);
               (mkApiRequest ($"/rest/folders") POST (Some (V4 [127; 0; 0; 1])) None None, CCreateFolder r)] in
  let w := serve_all (C := MemoryConfigStore) (fun _ => false) (fun _ => []) (fun _ => None) (fun _ => []) no_env
             (server_keys keyed_config) reqs (mkApiWorld memory_new []) in
  api_consistent w /\ length (cfg_folders (mc_config (aw_store w))) = 1%nat.
Proof.
  intros r reqs w. split; [|vm_compute; reflexivity]. apply api_keeps_ids_unique. exists memory_default_config.
  split; [reflexivity|]. split; constructor.
Defined.

(** ** Creating and deleting folders *)

Section Folders.
Context {C : Type} `{ConfigStoreLaws C}.
Context (unicode_alphanumeric : Z -> bool) (hex_encode : list Z -> str) (hex_decode : chars -> option (list Z)).
Abbreviation create := (create_folder (C := C) unicode_alphanumeric hex_encode hex_decode).

Lemma load_config_view (w : ApiWorld C) cfg : cs_view (aw_store w) = Some cfg -> load_config w = (Ok cfg, w).
Proof. intros Hv. unfold load_config. rewrite (cs_load_cached _ _ Hv). by destruct w. Qed.

Lemma save_config_Ok cfg (w w' : ApiWorld C) :
  save_config cfg w = (Ok tt, w') -> cs_view (aw_store w') = Some cfg.
Proof.
  unfold save_config. destruct (cs_save cfg (aw_store w)) as [[[]|e] c] eqn:E; [|done].
  intros [= <-]. by apply cs_save_Ok in E.
Qed.

Lemma find_last (l : list Folder) x id :
  folder_id x = id -> existsb (fun f => bool_decide (folder_id f = id)) l = false ->
  List.find (fun f => bool_decide (folder_id f = id)) (l ++ [x]) = Some x.
Proof.
  intros Ex. induction l as [|y l IH]; cbn; [by rewrite bool_decide_eq_true_2|].
  intros [E1 E2]%orb_false_iff. rewrite E1. by apply IH.
Qed.

Lemma find_filtered (l : list Folder) id :
  List.find (fun f => bool_decide (folder_id f = id)) (filter (fun f => folder_id f <> id) l) = None.
Proof.
  induction l as [|y l IH]; [done|]. destruct (decide (folder_id y = id)) as [E|E].
  - rewrite filter_cons_False by (intros ?; done). exact IH.
  - rewrite filter_cons_True by done. cbn. rewrite bool_decide_eq_false_2 by done. exact IH.
Qed.

Lemma guard_Ok (b : bool) code (w : ApiWorld C) u w' : guard b code w = (Ok u, w') -> b = true /\ w' = w.
Proof. destruct b; [|done]. by intros [= <- <-]. Qed.

Lemma guard_ok_Ok {E A : Type} (x : result E A) code (w : ApiWorld C) u w' :
  guard_ok x code w = (Ok u, w') -> (exists a, x = Ok a) /\ w' = w.
Proof. destruct x; [|done]. intros [= <- <-]. eauto. Qed.

(** A folder that was created has an accepted ID and path and is found with
    what the answer said; once deleted, asking for it is answered with 404. *)
Theorem created_folder_found r (w w' : ApiWorld C) code resp :
  create r w = (Ok (code, resp), w') ->
  validate_folder_id unicode_alphanumeric (cf_id r) = Ok tt /\ validate_path (cf_path r) = Ok tt /\
  code = 201 /\ fr_id resp = cf_id r /\ fr_path resp = cf_path r /\
  handle_get_folder hex_encode (cf_id r) w' = (Ok resp, w') /\
  forall c w2, delete_folder (cf_id r) w' = (Ok c, w2) ->
    handle_get_folder hex_encode (cf_id r) w2 = (Err (Status 404), w2).
Proof.
  intros E. unfold create_folder in E.
  apply se_bind_Ok in E as (u1 & w1 & E1 & E). apply guard_ok_Ok in E1 as [[[] V1] ->].
  apply se_bind_Ok in E as (u2 & w2 & E1 & E). apply guard_ok_Ok in E1 as [[[] V2] ->].
  apply se_bind_Ok in E as (cfg & w3 & E1 & E). unfold create_folder_in in E.
  apply se_bind_Ok in E as (u4 & w4 & E4 & E). apply guard_Ok in E4 as [Hn ->]. apply negb_true_iff in Hn.
  apply se_bind_Ok in E as (devices & w5 & E5 & E). apply se_bind_Ok in E as ([] & w6 & E6 & E).
  injection E as <- <- <-. apply save_config_Ok in E6.
  split_and!; [done|done|done|done|done| |].
  - unfold handle_get_folder, find_folder. rewrite (se_bind_run _ _ _ _ _ (load_config_view _ _ E6)).
    cbn [cfg_folders set_folders].
    match goal with |- context [cfg_folders cfg ++ [?f]] => rewrite (find_last (cfg_folders cfg) f (cf_id r) eq_refl Hn) end. done.
  - intros c w7 Ed. unfold delete_folder in Ed. rewrite (se_bind_run _ _ _ _ _ (load_config_view _ _ E6)) in Ed.
    apply se_bind_Ok in Ed as (u8 & w8 & E8 & Ed). apply guard_Ok in E8 as [_ ->].
    apply se_bind_Ok in Ed as ([] & w9 & E9 & Ed). injection Ed as <- <-. apply save_config_Ok in E9.
    unfold handle_get_folder, find_folder. rewrite (se_bind_run _ _ _ _ _ (load_config_view _ _ E9)).
    cbn [cfg_folders set_folders]. by rewrite find_filtered.
Qed.
End Folders.

Lemma created_folder_found_witness :
  let r := mkCreateFolderRequest ($"docs") (Some ($"Docs")) ($"/srv/docs") [] (Some 60) None in
  let w1 := (create_folder (C := MemoryConfigStore) (fun _ => false) (fun _ => []) (fun _ => None) r
               (mkApiWorld memory_new [])).2 in
  handle_get_folder (fun _ => []) ($"docs") w1 = (Ok (mkFolderResponse ($"docs") ($"Docs") ($"/srv/docs") [] 60), w1).
Proof.
  intros r w1. apply (created_folder_found (C := MemoryConfigStore) (fun _ => false) (fun _ => []) (fun _ => None) r
    (mkApiWorld memory_new []) w1 201). vm_compute. reflexivity.
Defined.

(** ** Where the API lets a configuration through that breaks *)

Definition rest_demo_id : DeviceId := mkDeviceId (Z.of_nat <$> seq 100 32).
Definition rest_demo_id_text : str := str_of_bytes (default [] (device_id_to_string rest_demo_id)).

(** Adding a device with a host name instead of an IP address is answered with
    201, and with the saved configuration the program refuses to start. *)
Example added_device_blocks_startup :
  let r := mkAddDeviceRequest rest_demo_id_text None (Some [ $"nas.local:22000" ]) None in
  let out := add_device (C := MemoryConfigStore) (fun _ => false) (fun _ => None) (fun _ => []) no_env r
               (mkApiWorld memory_new []) in
  result_map fst out.1 = Ok 201 /\
  validate_config (fun _ => false) (fun _ => None) (mkPathEnv (fun _ => true) (fun _ => true)) (mc_config (aw_store out.2)) =
    Some (Err (BadTcpAddress ($"nas.local:22000"))).
Proof. split; vm_compute; reflexivity. Qed.

(** The update of the whole configuration validates nothing: it creates the
    folder with the empty ID that startup refuses, and folder IDs that
    [create_folder] refuses. *)
Example updated_config_blocks_startup :
  let upd id := mkUpdateConfigRequest 1 [mkUpdateFolderRequest (Some id) None (Some ($"/srv")) None] [] in
  let out id := update_config (C := MemoryConfigStore) (fun _ => false) (fun _ => []) (fun _ => None) (fun _ => []) (upd id)
                  (mkApiWorld memory_new []) in
  is_ok (out []).1 = true /\
  validate_config (fun _ => false) (fun _ => None) (mkPathEnv (fun _ => true) (fun _ => true))
    (mc_config (aw_store (out []).2)) = Some (Err EmptyFolderId) /\
  (folder_id <$> cfg_folders (mc_config (aw_store (out ($"a:b")).2))) = [ $"a:b" ] /\
  validate_folder_id (fun _ => false) ($"a:b") = Err (EValidation FolderIdCharacters).
Proof. split_and!; vm_compute; reflexivity. Qed.

(** Handlers load, change and save without a lock: of two folders created at
    the same time both are answered with 201 and one is lost. *)
Example concurrent_creates_lose_folder :
  let r id := mkCreateFolderRequest id None ($"/srv") [] None None in
  let body id := create_folder_in (C := MemoryConfigStore) (fun _ => false) (fun _ => []) (fun _ => None) (r id) in
  let w0 := mkApiWorld memory_new [] in
  let seen1 := load_config w0 in
  let seen2 := load_config seen1.2 in
  exists c1 c2, seen1.1 = Ok c1 /\ seen2.1 = Ok c2 /\
    let out1 := body ($"a") c1 seen2.2 in
    let out2 := body ($"b") c2 out1.2 in
    result_map fst out1.1 = Ok 201 /\ result_map fst out2.1 = Ok 201 /\
    (folder_id <$> cfg_folders (mc_config (aw_store out2.2))) = [ $"b" ].
Proof. intros r body w0 seen1 seen2. do 2 eexists. split; [reflexivity|]. split; [reflexivity|]. split_and!; vm_compute; reflexivity. Qed.

(** ** The file behind the configuration *)

(** Another process on the same file. *)
Definition restarted (s : JsonConfigStore) : JsonConfigStore := mkJsonConfigStore None (jc_file s) [].

(** What was saved is what the next start loads. *)
Theorem saved_config_persists `{ConfigJsonLaws} c s s' :
  json_save c s = (Ok tt, s') -> (json_load (restarted s')).1 = Ok c.
Proof.
  unfold json_save, next_fault. intros E. assert (exists text, config_to_json c = Ok text /\ jc_file s' = Some text) as (text & Et & Ef).
  { crush_match; eauto. }
  unfold json_load, restarted. cbn. rewrite Ef. cbn. by rewrite (config_json_roundtrip _ _ Et).
Qed.

(** The file is overwritten in place: when the write fails half way the running
    process goes on with its cached configuration, and the next start finds a
    file it cannot parse. *)
Theorem torn_write_loses_config `{ConfigJson} c text old file faults torn e :
  config_to_json c = Ok text -> config_of_json torn = Err e ->
  let s := mkJsonConfigStore (Some old) file (FaultWrite (Some torn) :: faults) in
  let out := json_save c s in
  out.1 = Err EIo /\ (json_load out.2).1 = Ok old /\ (json_load (restarted out.2)).1 = Err EConfig.
Proof.
  intros Ec Et s out. unfold out, s, json_save. cbn. rewrite Ec. cbn. unfold json_load, restarted. cbn. by rewrite Et.
Qed.

(** The API and the configuration watcher have a store each: an edit of the file
    is not seen by the API's, whose next save takes the edit away. *)
Theorem external_edit_overwritten `{ConfigJsonLaws} old edited text c text' :
  config_to_json edited = Ok text -> config_to_json c = Ok text' ->
  let api := mkJsonConfigStore (Some old) (Some text) [] in
  (json_load api).1 = Ok old /\ jc_file (json_save c api).2 = Some text' /\
  (json_load (restarted (json_save c api).2)).1 = Ok c.
Proof.
  intros Et Ec api. unfold json_load, json_save, restarted, api. cbn. rewrite Ec. cbn.
  by rewrite (config_json_roundtrip _ _ Ec).
Qed.
