(* ===== verification/EventBus.v ===== *)
(** * The events of the API

    [crates/syncthing-api/src/events.rs] (the ring buffer, the bus with its
    broadcast channel and WebSocket connections, filtered subscribers and
    statistics) and the event part of [handlers.rs] (numbering of messages,
    filters of a query, the long poll).  The counter of message IDs is global to
    the process and every conversion of an event takes the next one.  The
    broadcast channel of tokio keeps a bounded queue per receiver and reports
    how many events a slow receiver missed.  The JSON payload of a message is
    the event it was made from. *)

From S2P Require Import Prelude Core DeviceIds Ignore Config.

Record FolderSummary := mkFolderSummary {
  fs_files : Z; fs_directories : Z; fs_symlinks : Z; fs_bytes : Z;
  fs_need_files : Z; fs_need_directories : Z; fs_need_bytes : Z; fs_pull_errors : Z;
}.

Definition is_synced (s : FolderSummary) : bool :=
  (fs_need_files s =? 0) && (fs_need_directories s =? 0) && (fs_need_bytes s =? 0).

Inductive Event :=
| FolderSummaryEvent (folder : str) (summary : FolderSummary)
| ItemFinished (folder item : str) (error : option str)
| DeviceConnected (device : DeviceId) (addr : str)
| DeviceDisconnected (device : DeviceId) (error : option str)
| LocalIndexUpdated (folder : str) (items : list str)
| RemoteIndexUpdated (device : DeviceId) (folder : str) (items_count : Z).

Inductive EventType :=
| TFolderSummary | TItemFinished | TDeviceConnected | TDeviceDisconnected | TLocalIndexUpdated | TRemoteIndexUpdated.

#[global] Instance EventType_eq_dec : EqDecision EventType.
Proof. solve_decision. Defined.

#[global] Instance EventType_countable : Countable EventType.
Proof.
  refine (inj_countable'
    (fun t => match t with TFolderSummary => 0%nat | TItemFinished => 1%nat | TDeviceConnected => 2%nat
                         | TDeviceDisconnected => 3%nat | TLocalIndexUpdated => 4%nat | TRemoteIndexUpdated => 5%nat end)
    (fun n => match n with 0%nat => TFolderSummary | 1%nat => TItemFinished | 2%nat => TDeviceConnected
                         | 3%nat => TDeviceDisconnected | 4%nat => TLocalIndexUpdated | _ => TRemoteIndexUpdated end) _).
  by intros [].
Defined.

Definition type_of_event (e : Event) : EventType :=
  match e with
  | FolderSummaryEvent _ _ => TFolderSummary
  | ItemFinished _ _ _ => TItemFinished
  | DeviceConnected _ _ => TDeviceConnected
  | DeviceDisconnected _ _ => TDeviceDisconnected
  | LocalIndexUpdated _ _ => TLocalIndexUpdated
  | RemoteIndexUpdated _ _ _ => TRemoteIndexUpdated
  end.

(** The names used on the wire. *)
Definition event_type_name (e : Event) : str :=
  match e with
  | FolderSummaryEvent _ _ => $"FolderSummary"
  | ItemFinished _ _ _ => $"ItemFinished"
  | DeviceConnected _ _ => $"DeviceConnected"
  | DeviceDisconnected _ _ => $"DeviceDisconnected"
  | LocalIndexUpdated _ _ => $"LocalIndexUpdated"
  | RemoteIndexUpdated _ _ _ => $"RemoteIndexUpdated"
  end.

Record EventMessage := mkEventMessage { em_id : Z; em_type : str; em_time : Z; em_data : Event }.

(** [convert_event_to_message]: the message and the counter after it. *)
Definition convert_event_to_message (counter now : Z) (e : Event) : EventMessage * Z :=
  (mkEventMessage counter (event_type_name e) now e, wrap 64 (counter + 1)).

(** ** [EventBuffer] *)

Definition DEFAULT_EVENT_BUFFER_CAPACITY : nat := 1000.
Definition DEFAULT_CHANNEL_CAPACITY : nat := 1000.

Definition buffer_push (capacity : nat) (msg : EventMessage) (buf : list EventMessage) : list EventMessage :=
  (if (capacity <=? length buf)%nat then tail buf else buf) ++ [msg].

Definition buffer_since (since_id : Z) (buf : list EventMessage) : list EventMessage :=
  filter (fun m => since_id < em_id m) buf.

Definition latest_id (buf : list EventMessage) : Z := from_option em_id 0 (last buf).

(** ** [EventBus] *)

Record BroadcastReceiver := mkBroadcastReceiver { rx_queue : list Event; rx_missed : Z }.

Record EventBus := mkEventBus {
  eb_counter : Z;
  eb_buffer : list EventMessage;
  eb_capacity : nat;
  eb_channel : nat;
  eb_receivers : gmap Z BroadcastReceiver;
  eb_connections : gmap str (list Event);
}.

(** A full queue loses its oldest event. *)
Definition broadcast_to (capacity : nat) (e : Event) (r : BroadcastReceiver) : BroadcastReceiver :=
  if (capacity <=? length (rx_queue r))%nat
  then mkBroadcastReceiver (tail (rx_queue r) ++ [e]) (rx_missed r + 1)
  else mkBroadcastReceiver (rx_queue r ++ [e]) (rx_missed r).

(** The channel of a WebSocket connection has 100 places; [try_send] on a full
    one fails and is only logged. *)
Definition WS_CHANNEL_CAPACITY : nat := 100.

Definition try_send_to (e : Event) (queue : list Event) : list Event :=
  if (length queue <? WS_CHANNEL_CAPACITY)%nat then queue ++ [e] else queue.

Definition event_bus_with (counter : Z) (capacity channel : nat) : EventBus := mkEventBus counter [] capacity channel ∅ ∅.

Definition event_bus_new (counter : Z) : EventBus :=
  event_bus_with counter DEFAULT_EVENT_BUFFER_CAPACITY DEFAULT_CHANNEL_CAPACITY.

Definition subscribe (id : Z) (b : EventBus) : EventBus :=
  mkEventBus (eb_counter b) (eb_buffer b) (eb_capacity b) (eb_channel b)
    (<[id := mkBroadcastReceiver [] 0]> (eb_receivers b)) (eb_connections b).

(** The sends to the connections run in a task of their own; they are taken
    together with the publication here. *)
Definition event_publish (now : Z) (e : Event) (b : EventBus) : EventBus :=
  let '(msg, counter) := convert_event_to_message (eb_counter b) now e in
  mkEventBus counter (buffer_push (eb_capacity b) msg (eb_buffer b)) (eb_capacity b) (eb_channel b)
    (broadcast_to (eb_channel b) e <$> eb_receivers b) (try_send_to e <$> eb_connections b).

Definition bus_register (id : str) (b : EventBus) : EventBus :=
  mkEventBus (eb_counter b) (eb_buffer b) (eb_capacity b) (eb_channel b) (eb_receivers b)
    (<[id := []]> (eb_connections b)).

Definition bus_unregister (id : str) (b : EventBus) : EventBus :=
  mkEventBus (eb_counter b) (eb_buffer b) (eb_capacity b) (eb_channel b) (eb_receivers b)
    (base.delete id (eb_connections b)).

Definition connection_count (b : EventBus) : nat := base.size (eb_connections b).

Definition receiver_count (b : EventBus) : nat := base.size (eb_receivers b).

(** ** Filtered subscribers *)

Inductive RecvResult := Received (e : Event) | RecvEmpty | RecvClosed | RecvLagged (n : Z).

(** [broadcast::Receiver::try_recv] *)
Definition try_recv (closed : bool) (r : BroadcastReceiver) : RecvResult * BroadcastReceiver :=
  if 0 <? rx_missed r then (RecvLagged (rx_missed r), mkBroadcastReceiver (rx_queue r) 0)
  else match rx_queue r with
       | e :: rest => (Received e, mkBroadcastReceiver rest 0)
       | [] => (if closed then RecvClosed else RecvEmpty, r)
       end.

Definition matches_filter (filter : list EventType) (e : Event) : bool :=
  bool_decide (filter = []) || bool_decide (type_of_event e ∈ filter).

(** [FilteredSubscriber::try_recv]: skips what does not match; a lag is logged. *)
Fixpoint filtered_try_recv (fuel : nat) (closed : bool) (filter : list EventType) (r : BroadcastReceiver)
  : option (result SyncthingError (option Event) * BroadcastReceiver) :=
  match fuel with
  | O => None
  | S fuel' =>
      match try_recv closed r with
      | (Received e, r') =>
          if matches_filter filter e then Some (Ok (Some e), r') else filtered_try_recv fuel' closed filter r'
      | (RecvEmpty, r') => Some (Ok None, r')
      | (RecvClosed, r') => Some (Err EInternal, r')
      | (RecvLagged _, r') => filtered_try_recv fuel' closed filter r'
      end
  end.

(** ** Statistics *)

Record EventStats := mkEventStats { total_published : Z; by_type : gmap EventType Z }.

Definition event_stats_new : EventStats := mkEventStats 0 ∅.

Definition event_record (e : Event) (s : EventStats) : EventStats :=
  mkEventStats (wrap 64 (total_published s + 1))
    (<[type_of_event e := wrap 64 (default 0 (by_type s !! type_of_event e) + 1)]> (by_type s)).

(** ** The long poll *)

Record EventsQuery := mkEventsQuery { eq_events : option str; eq_since : option Z; eq_limit : option Z }.

Definition query_filter (q : EventsQuery) : option (list str) :=
  (fun e => trim <$> split_on ","%char e) <$> eq_events q.

Definition query_limit (q : EventsQuery) : nat := Z.to_nat (Z.min (Z.max (default 1 (eq_limit q)) 1) 1000).

Definition filter_passes (f : option (list str)) (type : str) : bool :=
  match f with
  | Some names => bool_decide (type ∈ names)
  | None => true
  end.

(** What the receiver gives in each round of the loop: an event with the time
    of its conversion, or nothing (a second without one, or an error). *)
Inductive PollRound := PollGot (e : Event) (now : Z) | PollNothing.

Fixpoint poll_loop (rounds : list PollRound) (since : Z) (limit : nat) (f : option (list str)) (counter : Z)
  (collected : list EventMessage) : list EventMessage * Z :=
  if (limit <=? length collected)%nat then (collected, counter)
  else match rounds with
       | [] | PollNothing :: _ => (collected, counter)
       | PollGot e now :: rest =>
           let '(msg, counter') := convert_event_to_message counter now e in
           poll_loop rest since limit f counter'
             (if em_id msg <=? since then collected
              else if filter_passes f (em_type msg) then collected ++ [msg] else collected)
       end.

Definition poll_buffered (buf : list EventMessage) (since : Z) (f : option (list str)) : list EventMessage :=
  filter (fun m => filter_passes f (em_type m) = true) (buffer_since since buf).

(** [events_poll_handler] on a buffer and the rounds that follow; the answer and
    the counter after it. *)
Definition events_poll (buf : list EventMessage) (rounds : list PollRound) (q : EventsQuery) (counter : Z)
  : list EventMessage * Z :=
  let since := default 0 (eq_since q) in
  let collected := poll_buffered buf since (query_filter q) in
  if decide (collected = []) then poll_loop rounds since (query_limit q) (query_filter q) counter []
  else (take (query_limit q) collected, counter).

(** Pagination of [handlers.rs]. *)
Definition page_offset (page per_page : Z) : Z := wrap 64 (Z.max 0 (page - 1) * per_page).

Definition page_limit (per_page : Z) : Z := Z.min (Z.max per_page 1) 100.

(** With no items and pages of no size the numerator wraps. *)
Definition total_pages (total per_page : Z) : Z := wrap 64 (total + per_page - 1) / Z.max per_page 1.

(** ** Proofs *)

(** Everything that takes a message ID: publications, and conversions for
    WebSocket clients and long polls. *)
Inductive bus_step : EventBus -> EventBus -> Prop :=
| StepPublish now e b : bus_step b (event_publish now e b)
| StepConvert b :
    bus_step b (mkEventBus (wrap 64 (eb_counter b + 1)) (eb_buffer b) (eb_capacity b) (eb_channel b) (eb_receivers b)
                  (eb_connections b))
| StepSubscribe id b : bus_step b (subscribe id b)
| StepRegister id b : bus_step b (bus_register id b)
| StepUnregister id b : bus_step b (bus_unregister id b).

Abbreviation increasing l := (StronglySorted (fun a b => em_id a < em_id b) l).

(** IDs grow along the buffer, which never exceeds its capacity; the counter is
    ahead of all of them as long as it has not wrapped. *)
Record bus_inv (b : EventBus) : Prop := {
  bi_sorted : increasing (eb_buffer b);
  bi_below : Forall (fun m => 0 < em_id m < eb_counter b) (eb_buffer b);
  bi_length : (length (eb_buffer b) <= eb_capacity b)%nat;
}.

Lemma increasing_snoc l m : increasing l -> Forall (fun x => em_id x < em_id m) l -> increasing (l ++ [m]).
Proof.
  induction 1 as [|x l Hs IH HF]; cbn; [by repeat constructor|]. intros [Hx Hl]%Forall_cons. constructor; [auto|].
  apply Forall_app. split; [done|]. by repeat constructor.
Qed.

Lemma increasing_tail l : increasing l -> increasing (tail l).
Proof. destruct 1; [constructor|done]. Qed.

Lemma buffer_push_inv cap msg buf :
  (0 < cap)%nat -> increasing buf -> Forall (fun m => em_id m < em_id msg) buf -> (length buf <= cap)%nat ->
  increasing (buffer_push cap msg buf) /\ (length (buffer_push cap msg buf) <= cap)%nat /\
  forall m, m ∈ buffer_push cap msg buf -> m ∈ buf \/ m = msg.
Proof.
  intros Hc Hs Hb Hl. unfold buffer_push. destruct (Nat.leb_spec cap (length buf)).
  - split_and!.
    + apply increasing_snoc; [by apply increasing_tail|]. by destruct Hb.
    + rewrite length_app. cbn. destruct buf; cbn in *; lia.
    + intros m [Hm|Hm%list_elem_of_singleton]%elem_of_app; [|by right]. left. destruct buf; [done|]. by right.
  - split_and!; [by apply increasing_snoc|rewrite length_app; cbn; lia|].
    intros m [Hm|Hm%list_elem_of_singleton]%elem_of_app; [by left|by right].
Qed.

Lemma bus_step_inv b b' :
  bus_step b b' -> (0 < eb_capacity b)%nat -> 0 < eb_counter b < 2 ^ 64 - 1 -> bus_inv b ->
  bus_inv b' /\ eb_capacity b' = eb_capacity b /\ eb_counter b <= eb_counter b' <= eb_counter b + 1.
Proof.
  intros Hs Hc Hn [H1 H2 H3].
  assert (wrap 64 (eb_counter b + 1) = eb_counter b + 1) as Hw by (apply wrap_id; unfold in_u; lia).
  assert (Forall (fun m => 0 < em_id m < eb_counter b + 1) (eb_buffer b)) as H2'.
  { eapply Forall_impl; [exact H2|]. cbn. lia. }
  destruct Hs as [now e b|b|id b|id b|id b]; cbn [event_publish convert_event_to_message subscribe bus_register
    bus_unregister eb_counter eb_capacity]; rewrite ?Hw; (split; [|split; [done|lia]]); try by (split; cbn; rewrite ?Hw).
  destruct (buffer_push_inv (eb_capacity b) (mkEventMessage (eb_counter b) (event_type_name e) now e) (eb_buffer b))
    as (Hp1 & Hp2 & Hp3); [done|done| |done|].
  { eapply Forall_impl; [exact H2|]. cbn. lia. }
  split; cbn [eb_buffer eb_counter eb_capacity]; [done| |done]. apply Forall_forall. intros m Hm.
  apply Hp3 in Hm as [Hm| ->]; [rewrite Forall_forall in H2'; by apply H2'|]. cbn. lia.
Qed.

(** ** Paging through the buffer *)

(** A client that asks again with the last ID it has seen until nothing is
    left; [pages] bounds the number of requests. *)
Fixpoint poll_pages (pages : nat) (buf : list EventMessage) (since : Z) (limit : nat) (f : option (list str))
  : list EventMessage :=
  match pages with
  | O => []
  | S pages' =>
      let page := take limit (poll_buffered buf since f) in
      match last page with
      | None => []
      | Some m => page ++ poll_pages pages' buf (em_id m) limit f
      end
  end.

Lemma poll_buffered_sorted buf since f : increasing buf -> increasing (poll_buffered buf since f).
Proof.
  intros Hs. unfold poll_buffered, buffer_since.
  assert (forall (P : EventMessage -> Prop) `{forall x, Decision (P x)} l, increasing l -> increasing (filter P l)) as Hf.
  { intros P HP l. induction 1 as [|x l Hl IH HF]; [constructor|]. destruct (decide (P x)).
    - rewrite filter_cons_True by done. constructor; [done|]. apply Forall_forall. intros y [_ Hy]%list_elem_of_filter.
      rewrite Forall_forall in HF. by apply HF.
    - by rewrite filter_cons_False. }
  by apply Hf, Hf.
Qed.

Lemma increasing_app l1 l2 :
  increasing (l1 ++ l2) -> forall a b, a ∈ l1 -> b ∈ l2 -> em_id a < em_id b.
Proof.
  induction l1 as [|x l1 IH]; cbn; intros Hs a b Ha Hb; [by apply elem_of_nil in Ha|].
  apply StronglySorted_inv in Hs as [Hs HF]. apply elem_of_cons in Ha as [->|Ha]; [|by apply IH].
  rewrite Forall_forall in HF. apply HF, elem_of_app. by right.
Qed.

Lemma filter_all {A : Type} (P : A -> Prop) `{forall x, Decision (P x)} (l : list A) :
  (forall x, x ∈ l -> P x) -> filter P l = l.
Proof.
  induction l as [|x l IH]; intros HP; [done|]. rewrite filter_cons_True by (apply HP; by left).
  f_equal. apply IH. intros y Hy. apply HP. by right.
Qed.

Lemma filter_all_out {A : Type} (P : A -> Prop) `{forall x, Decision (P x)} (l : list A) :
  (forall x, x ∈ l -> ~ P x) -> filter P l = [].
Proof.
  induction l as [|x l IH]; intros HP; [done|]. rewrite filter_cons_False by (apply HP; by left).
  apply IH. intros y Hy. apply HP. by right.
Qed.

(** Asking again from the last message of a page gives what the page left out. *)
Lemma next_page buf since f limit m :
  increasing buf -> last (take limit (poll_buffered buf since f)) = Some m ->
  poll_buffered buf (em_id m) f = drop limit (poll_buffered buf since f).
Proof.
  intros Hs Hl. pose proof (poll_buffered_sorted buf since f Hs) as HL.
  assert (since < em_id m) as Hm.
  { apply last_Some_elem_of, elem_of_take in Hl as (i & Hi & _). apply list_elem_of_lookup_2 in Hi.
    unfold poll_buffered, buffer_since in Hi. by apply list_elem_of_filter in Hi as [_ [? _]%list_elem_of_filter]. }
  assert (poll_buffered buf (em_id m) f = filter (fun x => em_id m < em_id x) (poll_buffered buf since f)) as ->.
  { unfold poll_buffered, buffer_since. rewrite !list_filter_filter. apply list_filter_iff. intros x. intuition lia. }
  rewrite <-(take_drop limit (poll_buffered buf since f)) at 1. rewrite <-(take_drop limit (poll_buffered buf since f)) in HL.
  revert HL Hl. generalize (take limit (poll_buffered buf since f)) (drop limit (poll_buffered buf since f)). intros p q HL Hl.
  rewrite filter_app, filter_all_out, filter_all; [done| |].
  - intros x Hx. eapply increasing_app; [exact HL| |done]. by apply last_Some_elem_of.
  - intros x Hx. apply last_Some in Hl as [p' ->]. apply elem_of_app in Hx as [Hx| ->%list_elem_of_singleton]; [|lia].
    rewrite <-app_assoc in HL. pose proof (increasing_app _ _ HL x m Hx ltac:(by left)). lia.
Qed.

Lemma poll_pages_all pages buf since f limit :
  increasing buf -> (1 <= limit)%nat -> (length (poll_buffered buf since f) < pages)%nat ->
  poll_pages pages buf since limit f = poll_buffered buf since f.
Proof.
  intros Hs Hl. revert since. induction pages as [|pages IH]; intros since Hp; [lia|]. cbn [poll_pages].
  destruct (last (take limit (poll_buffered buf since f))) as [m|] eqn:E.
  - rewrite IH, (next_page _ _ _ _ _ Hs E); [apply take_drop|]. rewrite (next_page _ _ _ _ _ Hs E), length_drop.
    assert (poll_buffered buf since f <> []) as Hne by (intros E0; rewrite E0, take_nil in E; done).
    destruct (poll_buffered buf since f); [done|]. cbn in *. lia.
  - apply last_None in E. destruct (poll_buffered buf since f); [done|]. destruct limit; [lia|done].
Qed.

(** In every state the bus can be in, IDs of buffered messages grow and stay
    within the capacity, and a client that polls from the buffer page by page,
    each time with the last ID it got, receives every buffered message that
    matches its filter and is newer than its first [since], exactly once and in
    order. *)
Theorem event_paging_complete b0 b since f limit :
  bus_inv b0 -> (0 < eb_capacity b0)%nat -> 0 < eb_counter b0 ->
  rtc (fun x y => bus_step x y /\ eb_counter x < 2 ^ 64 - 1) b0 b -> (1 <= limit)%nat ->
  bus_inv b /\
  poll_pages (S (eb_capacity b)) (eb_buffer b) since limit f =
    filter (fun m => since < em_id m /\ filter_passes f (em_type m) = true) (eb_buffer b).
Proof.
  intros Hi Hc Hn Hr Hl.
  assert (bus_inv b) as Hb.
  { induction Hr as [x|x y z [Hs Hx] _ IH]; [done|]. destruct (bus_step_inv x y Hs Hc ltac:(lia) Hi) as (Hy & Ec & En).
    apply IH; [done|by rewrite Ec|lia]. }
  split; [done|]. destruct Hb as [H1 H2 H3]. rewrite poll_pages_all; [|done|done|].
  - unfold poll_buffered, buffer_since. rewrite list_filter_filter. apply list_filter_iff. intros x. tauto.
  - pose proof (length_filter (fun m => since < em_id m) (eb_buffer b)).
    unfold poll_buffered, buffer_since.
    pose proof (length_filter (fun m => filter_passes f (em_type m) = true) (filter (fun m => since < em_id m) (eb_buffer b))).
    lia.
Qed.

Definition demo_event (n : str) : Event := LocalIndexUpdated n [].

Lemma event_paging_complete_witness :
  let b := event_publish 7 (demo_event ($"b")) (event_publish 5 (demo_event ($"a")) (event_bus_with 1 2 16)) in
  (em_id <$> poll_pages 3 (eb_buffer b) 0 1 None) = [1; 2].
Proof.
  intros b. destruct (event_paging_complete (event_bus_with 1 2 16) b 0 None 1) as [_ E].
  - split; [constructor|constructor|cbn; lia].
  - cbn. lia.
  - cbn. lia.
  - eapply rtc_l; [split; [apply StepPublish|cbn; lia]|]. eapply rtc_l; [split; [apply StepPublish|]|apply rtc_refl].
    vm_compute. reflexivity.
  - lia.
  - change 3%nat with (S (eb_capacity b)). rewrite E. vm_compute. reflexivity.
Defined.

(** A long poll that waits numbers the events it receives anew.  When a second
    event was published before the first one was delivered, the answer carries
    an ID beyond the second event's: a client that continues from it never sees
    the second event, although it is in the buffer. *)
Example long_poll_skips_event :
  let q since := mkEventsQuery None (Some since) None in
  let a := demo_event ($"a") in
  let b := demo_event ($"b") in
  let bus := event_publish 7 b (event_publish 5 a (event_bus_with 1 1000 1000)) in
  let first := events_poll [] [PollGot a 8; PollGot b 8] (q 0) (eb_counter bus) in
  (em_id <$> first.1) = [3] /\ (em_data <$> first.1) = [a] /\
  (em_id <$> eb_buffer bus) = [1; 2] /\ (em_data <$> eb_buffer bus) = [a; b] /\
  (events_poll (eb_buffer bus) [] (q 3) first.2).1 = [].
Proof. split_and!; vm_compute; reflexivity. Qed.

(** The documented wait of up to 60 seconds ends with the first second in which
    nothing arrives. *)
Lemma poll_gives_up_early q buf rounds counter :
  poll_buffered buf (default 0 (eq_since q)) (query_filter q) = [] ->
  events_poll buf (PollNothing :: rounds) q counter = ([], counter).
Proof.
  intros E. unfold events_poll. rewrite E, decide_True by done. cbn [poll_loop].
  by destruct (query_limit q <=? length [])%nat.
Qed.

(** ** Filtered subscribers terminate with the first match *)

Definition first_match (filter : list EventType) (queue : list Event) : option (Event * list Event) :=
  (fix go q := match q with
               | [] => None
               | e :: rest => if matches_filter filter e then Some (e, rest) else go rest
               end) queue.

(** [try_recv] of a filtered subscriber ends after at most one round per queued
    event and one for a lag, with the first matching event; what it skips is
    gone. *)
Theorem filtered_try_recv_first closed flt r :
  filtered_try_recv (length (rx_queue r) + 2) closed flt r =
  Some match first_match flt (rx_queue r) with
       | Some (e, rest) => (Ok (Some e), mkBroadcastReceiver rest 0)
       | None => (if closed then Err EInternal else Ok None,
                  mkBroadcastReceiver [] (if 0 <? rx_missed r then 0 else if decide (rx_queue r = []) then rx_missed r else 0))
       end.
Proof.
  assert (forall q n fuel, (length q < fuel)%nat -> n <= 0 ->
    filtered_try_recv fuel closed flt (mkBroadcastReceiver q n) =
    Some match first_match flt q with
         | Some (e, rest) => (Ok (Some e), mkBroadcastReceiver rest 0)
         | None => (if closed then Err EInternal else Ok None, mkBroadcastReceiver [] (if decide (q = []) then n else 0))
         end) as Hq.
  { intros q. induction q as [|e q IH]; intros n fuel Hf Hn; (destruct fuel as [|fuel]; [lia|]); cbn [filtered_try_recv];
      unfold try_recv; cbn [rx_missed rx_queue]; (destruct (Z.ltb_spec 0 n); [lia|]).
    - by destruct closed.
    - cbn [first_match]. destruct (matches_filter flt e); [done|]. rewrite IH by (cbn in Hf; lia).
      fold (first_match flt q). destruct (first_match flt q) as [[e' rest]|]; [done|]. do 3 f_equal.
      by destruct (decide (q = [])). }
  destruct r as [q n]. cbn [rx_queue rx_missed]. destruct (Z.ltb_spec 0 n) as [Hn|Hn].
  - replace (length q + 2)%nat with (S (S (length q))) by lia. remember (S (length q)) as k.
    cbn [filtered_try_recv]. unfold try_recv. cbn [rx_missed rx_queue].
    rewrite (proj2 (Z.ltb_lt 0 n)) by done. cbn beta iota. rewrite Hq by lia. by destruct (decide (q = [])).
  - apply Hq; lia.
Qed.
