(* ===== verification/Dispatch.v ===== *)
(** * Announcing local changes to peers

    [cmd/syncthing/src/tui/index_dispatcher.rs] (the loop that turns
    [LocalIndexUpdated] events into BEP [IndexUpdate] messages and its split
    into chunks), [session_logger.rs] (which records what a session has sent)
    and the subscriber side of [crates/syncthing-sync/src/events.rs].

    The encoder of the messages and SHA-256 are parameters.  What the network
    answers is part of the input: the connected devices and, for every chunk,
    whether there is a connection and whether the send succeeds.  A broadcast
    channel of tokio keeps at least as many events as it was created for and
    tells a receiver that fell behind. *)

From S2P Require Import Prelude Core Bep Database Merge Conflict Session.

Definition MAX_INDEX_UPDATE_BYTES : Z := 1_000_000.

(** The two maps the dispatcher and the session loggers share, the messages
    handed to connections and the events published on the way. *)
Record DispatchState := mkDispatchState {
  device_shared_folders : gmap DeviceId (list str);
  indexed_folders_map : gmap (DeviceId * str) Z;
  ds_sent : list (DeviceId * WireIndexUpdate);
  ds_published : list SyncEvent;
}.

(** What happens to one chunk: [get_connection] gives [None], [send_message]
    fails, or the message is sent. *)
Inductive SendOutcome := NoConnection | SendFailed | SendDone.

Section Dispatch.
Context (encode : WireIndexUpdate -> option (list Z)) (sha256 : list Z -> list Z).

Definition set_blocks (f : FileInfo) (bs : list BlockInfo) : FileInfo :=
  mkFileInfo (name f) (file_type f) (size f) (permissions f) (modified_s f) (modified_ns f)
    (version f) (sequence f) (block_size f) bs (symlink_target f) (deleted f)
    (modified_by f) (blocks_hash f) (no_permissions f) (base_version f).

(** The block list a file is announced with. *)
Definition announced_blocks (f : FileInfo) : FileInfo :=
  if is_deleted f then set_blocks f []
  else if bool_decide (file_type f = File) && (size f =? 0) && bool_decide (blocks f = [])
  then set_blocks f [mkBlockInfo 0 (sha256 []) 0]
  else f.

Definition chunk_last (chunk_prev : Z) (files : list FileInfo) : Z :=
  default chunk_prev (list_max (sequence <$> files)).

Definition chunk_update (folder : str) (chunk_prev : Z) (files : list FileInfo) : WireIndexUpdate :=
  mkWireIndexUpdate folder (wire_of_file <$> files)
    (chunk_last chunk_prev files `min` i64_max) (chunk_prev `min` i64_max).

Definition chunk_fits (folder : str) (chunk_prev : Z) (files : list FileInfo) : bool :=
  match encode (chunk_update folder chunk_prev files) with
  | Some payload => Z.of_nat (length payload) <=? MAX_INDEX_UPDATE_BYTES
  | None => false
  end.

(** The variables of the loop. *)
Record Chunking := mkChunking {
  ck_chunks : list (Z * list FileInfo);
  ck_current : list FileInfo;
  ck_prev : Z;
}.

Definition chunk_file (folder : str) (c : Chunking) (file : FileInfo) : Chunking :=
  if chunk_fits folder (ck_prev c) (ck_current c ++ [file])
  then mkChunking (ck_chunks c) (ck_current c ++ [file]) (ck_prev c)
  else if decide (ck_current c = []) then mkChunking (ck_chunks c) [file] (ck_prev c)
  else mkChunking (ck_chunks c ++ [(ck_prev c, ck_current c)]) [file] (chunk_last (ck_prev c) (ck_current c)).

Definition chunks_done (c : Chunking) : list (Z * list FileInfo) :=
  if decide (ck_current c = []) then ck_chunks c else ck_chunks c ++ [(ck_prev c, ck_current c)].

Definition build_index_update_chunks (folder : str) (initial_prev : Z) (files : list FileInfo)
  : list (Z * list FileInfo) :=
  chunks_done (fold_left (chunk_file folder) files (mkChunking [] [] initial_prev)).

(** ** Sending *)

Definition record_sent (st : DispatchState) (device : DeviceId) (folder : str) (last : Z)
    (u : WireIndexUpdate) (e : SyncEvent) : DispatchState :=
  mkDispatchState (device_shared_folders st) (<[(device, folder) := last]> (indexed_folders_map st))
    (ds_sent st ++ [(device, u)]) (ds_published st ++ [e]).

(** The loop over the chunks, from the chunk with number [i] on; it is left at
    the first failure. *)
Fixpoint send_chunks (device : DeviceId) (folder : str) (outcome : nat -> SendOutcome) (total i : nat)
    (chunks : list (Z * list FileInfo)) (st : DispatchState) : DispatchState :=
  match chunks with
  | [] => st
  | (chunk_prev, files) :: rest =>
      let u := chunk_update folder chunk_prev files in
      match encode u with
      | None => st
      | Some payload =>
          match outcome i with
          | SendDone =>
              let e := IndexUpdateChunkSent folder device (Z.of_nat i) (Z.of_nat total)
                         (Z.of_nat (length (wu_files u))) (Z.of_nat (length payload)) in
              send_chunks device folder outcome total (S i) rest
                (record_sent st device folder (chunk_last chunk_prev files) u e)
          | NoConnection | SendFailed => st
          end
      end
  end.

Definition files_to_send (prev_sequence : Z) (files : list FileInfo) : list FileInfo :=
  sort_by sequence (announced_blocks <$> filter (fun f => prev_sequence < sequence f) files).

(** One device of the loop over [connected_devices()]. *)
Definition dispatch_device (folder : str) (files : list FileInfo) (outcome : DeviceId -> nat -> SendOutcome)
    (st : DispatchState) (device : DeviceId) : DispatchState :=
  match device_shared_folders st !! device with
  | Some shared =>
      if decide (folder ∈ shared) then
        match indexed_folders_map st !! (device, folder) with
        | Some prev_sequence =>
            let chunks := build_index_update_chunks folder prev_sequence (files_to_send prev_sequence files) in
            send_chunks device folder (outcome device) (length chunks) 0 chunks st
        | None => st
        end
      else st
  | None => st
  end.

(** The body of the loop for one received event. *)
Definition dispatch_event (connected : list DeviceId) (outcome : DeviceId -> nat -> SendOutcome)
    (st : DispatchState) (e : SyncEvent) : DispatchState :=
  match e with
  | LocalIndexUpdated folder files =>
      if decide (files = []) then st else fold_left (dispatch_device folder files outcome) connected st
  | _ => st
  end.

(** [spawn_session_event_logger]: what a session reports changes the maps. *)
Definition session_event (device : DeviceId) (st : DispatchState) (e : BepSessionEvent) : DispatchState :=
  match e with
  | EvClusterConfigComplete _ shared =>
      mkDispatchState (<[device := shared]> (device_shared_folders st)) (indexed_folders_map st)
        (ds_sent st) (ds_published st)
  | EvIndexSent _ folder _ last_sequence =>
      mkDispatchState (device_shared_folders st) (<[(device, folder) := last_sequence]> (indexed_folders_map st))
        (ds_sent st) (ds_published st)
  | _ => st
  end.

(** ** The subscriber

    The queue of the dispatcher's receiver; [sub_lagged] is set when an event
    was overwritten before it was received. *)
Record EventSubscriber := mkEventSubscriber { sub_queue : list SyncEvent; sub_lagged : bool }.

Definition publish_to (capacity : nat) (s : EventSubscriber) (e : SyncEvent) : EventSubscriber :=
  let q := sub_queue s ++ [e] in
  if (length q <=? capacity)%nat then mkEventSubscriber q (sub_lagged s)
  else mkEventSubscriber (tail q) true.

(** [receiver.recv().await.ok()]: [inl] when it waits, [inr None] for an
    error. *)
Definition subscriber_recv (s : EventSubscriber) : unit + option SyncEvent * EventSubscriber :=
  if sub_lagged s then inr (None, mkEventSubscriber (sub_queue s) false)
  else match sub_queue s with
       | [] => inl tt
       | e :: q => inr (Some e, mkEventSubscriber q false)
       end.

(** The task: [dp_running] until its [while let] ends. *)
Record Dispatcher := mkDispatcher {
  dp_running : bool;
  dp_sub : EventSubscriber;
  dp_state : DispatchState;
}.

(** A step: any task publishes an event, the dispatcher takes its turn, a
    session reports to its logger. *)
Inductive DispatchInput :=
| InPublish (e : SyncEvent)
| InTurn (connected : list DeviceId) (outcome : DeviceId -> nat -> SendOutcome)
| InSession (device : DeviceId) (e : BepSessionEvent).

Definition dispatcher_turn (capacity : nat) (d : Dispatcher) (connected : list DeviceId)
    (outcome : DeviceId -> nat -> SendOutcome) : Dispatcher :=
  if dp_running d then
    match subscriber_recv (dp_sub d) with
    | inl _ => d
    | inr (None, s) => mkDispatcher false s (dp_state d)
    | inr (Some e, s) =>
        let st := mkDispatchState (device_shared_folders (dp_state d)) (indexed_folders_map (dp_state d))
                    (ds_sent (dp_state d)) [] in
        let st := dispatch_event connected outcome st e in
        mkDispatcher true (fold_left (publish_to capacity) (ds_published st) s) st
    end
  else d.

Definition dispatcher_step (capacity : nat) (d : Dispatcher) (i : DispatchInput) : Dispatcher :=
  match i with
  | InPublish e => mkDispatcher (dp_running d) (publish_to capacity (dp_sub d) e) (dp_state d)
  | InTurn connected outcome => dispatcher_turn capacity d connected outcome
  | InSession device e => mkDispatcher (dp_running d) (dp_sub d) (session_event device (dp_state d) e)
  end.

Definition dispatcher_run (capacity : nat) (d : Dispatcher) (inputs : list DispatchInput) : Dispatcher :=
  fold_left (dispatcher_step capacity) inputs d.

End Dispatch.

(** ** Chunks *)

Section Chunks.
Context (encode : WireIndexUpdate -> option (list Z)) (folder : str).

(** The next chunk starts with the file that no longer fitted. *)
Definition closed_by (prev : Z) (files : list FileInfo) (rest : list (Z * list FileInfo)) : Prop :=
  match rest with
  | (_, g :: _) :: _ => chunk_fits encode folder prev (files ++ [g]) = false
  | _ => True
  end.

(** What a split of [files] after [prev] must be: nothing lost, added or
    reordered, every chunk continues the sequence numbers of the one before, is
    within the limit or a single file, and could not have taken one file more. *)
Inductive chunked : Z -> list (Z * list FileInfo) -> list FileInfo -> Prop :=
| chunked_nil prev : chunked prev [] []
| chunked_cons prev files rest more :
    files <> [] ->
    chunk_fits encode folder prev files = true \/ length files = 1%nat ->
    closed_by prev files rest ->
    chunked (chunk_last prev files) rest more ->
    chunked prev ((prev, files) :: rest) (files ++ more).

Lemma chunked_head prev rest f more : chunked prev rest (f :: more) -> exists fs cs, rest = (prev, f :: fs) :: cs.
Proof.
  inversion 1 as [|p fs cs m Hne Hfit Hcl Hr E1 E2 E3]; subst. destruct fs as [|g fs]; [done|].
  cbn in E3. injection E3 as -> _. by eexists _, _.
Qed.

Lemma chunk_loop files done cur prev :
  (cur = [] \/ chunk_fits encode folder prev cur = true \/ length cur = 1%nat) ->
  exists rest,
    chunks_done (fold_left (chunk_file encode folder) files (mkChunking done cur prev)) = done ++ rest /\
    chunked prev rest (cur ++ files).
Proof.
  revert done cur prev. induction files as [|f files IH]; intros done cur prev Hcur; cbn [fold_left].
  - unfold chunks_done. cbn [ck_current ck_chunks ck_prev]. rewrite app_nil_r. case_decide as E.
    + exists []. subst. rewrite app_nil_r. split; [done|constructor].
    + eexists [_]. split; [done|]. rewrite <-(app_nil_r cur) at 2. constructor; [done|tauto|done|constructor].
  - unfold chunk_file at 2. cbn [ck_current ck_chunks ck_prev]. destruct (chunk_fits encode folder prev (cur ++ [f])) eqn:Hf.
    + destruct (IH done (cur ++ [f]) prev) as (rest & E & Hr); [tauto|]. exists rest. split; [done|].
      by rewrite <-app_assoc in Hr.
    + case_decide as E; [subst cur; apply (IH done [f] prev); tauto|].
      destruct (IH (done ++ [(prev, cur)]) [f] (chunk_last prev cur)) as (rest & Er & Hr); [tauto|].
      exists ((prev, cur) :: rest). split; [by rewrite Er, <-app_assoc|].
      constructor; [done|tauto| |done]. destruct (chunked_head _ _ _ _ Hr) as (fs & cs & ->). done.
Qed.

Lemma build_chunks_chunked prev files : chunked prev (build_index_update_chunks encode folder prev files) files.
Proof.
  unfold build_index_update_chunks. destruct (chunk_loop files [] [] prev) as (rest & E & Hr); [tauto|]. by rewrite E.
Qed.

End Chunks.

(** ** The chain of updates *)

Definition valid_sequence (s : Z) : Prop := 0 <= s < 2 ^ 63.

Lemma wire_sequence f : valid_sequence (sequence f) -> wf_sequence (wire_of_file f) = sequence f.
Proof.
  unfold valid_sequence, wire_of_file. cbn [wf_sequence]. intros Hs. unfold to_signed, wrap.
  rewrite Z.mod_small by lia. destruct (_ <? _) eqn:E; lia.
Qed.

(** The updates of one folder sent to one device, from the sequence number
    [s] the peer has to the one it has afterwards. *)
Inductive update_chain (folder : str) : Z -> list WireIndexUpdate -> Z -> Prop :=
| chain_done s : update_chain folder s [] s
| chain_next s u us s' :
    wu_folder u = folder ->
    wu_prev_sequence u = s ->
    StronglySorted Z.lt (wf_sequence <$> wu_files u) ->
    Forall (fun f => s < wf_sequence f <= wu_last_sequence u) (wu_files u) ->
    wu_last_sequence u ∈ (wf_sequence <$> wu_files u) ->
    update_chain folder (wu_last_sequence u) us s' ->
    update_chain folder s (u :: us) s'.

Lemma update_chain_app folder s us s' vs s'' :
  update_chain folder s us s' -> update_chain folder s' vs s'' -> update_chain folder s (us ++ vs) s''.
Proof. induction 1; intros Hv; [done|]. cbn. constructor; auto. Qed.

(** ** One event, one device *)

Section Sending.
Context (encode : WireIndexUpdate -> option (list Z)) (sha256 : list Z -> list Z).
Context (device : DeviceId) (folder : str).
Implicit Types st : DispatchState.

Definition ascending (files : list FileInfo) : Prop := StronglySorted Z.lt (sequence <$> files).

Lemma ascending_app a b : ascending (a ++ b) ->
  ascending a /\ ascending b /\ forall f g, f ∈ a -> g ∈ b -> sequence f < sequence g.
Proof.
  unfold ascending. rewrite fmap_app, StronglySorted_app. intros (Hab & Ha & Hb). split_and!; [done..|].
  intros f g Hf Hg. by apply Hab; apply list_elem_of_fmap_2.
Qed.

Lemma chunk_last_spec prev files : files <> [] ->
  chunk_last prev files ∈ (sequence <$> files) /\ forall f, f ∈ files -> sequence f <= chunk_last prev files.
Proof.
  intros Hne. unfold chunk_last. destruct (list_max_spec (sequence <$> files)) as (m & -> & Hm & Hmax).
  { by destruct files. }
  cbn [default]. split; [done|]. intros f Hf. apply Hmax. by apply list_elem_of_fmap_2.
Qed.

(** A chunk on the wire continues the chain. *)
Lemma chunk_update_chain prev files us s' :
  files <> [] -> ascending files -> valid_sequence prev ->
  Forall (fun f => prev < sequence f /\ valid_sequence (sequence f)) files ->
  update_chain folder (chunk_last prev files) us s' ->
  update_chain folder prev (chunk_update folder prev files :: us) s'.
Proof.
  intros Hne Hasc Hprev Hall Hus. destruct (chunk_last_spec prev files Hne) as [Hin Hmax].
  assert (valid_sequence (chunk_last prev files)) as Hlast.
  { apply list_elem_of_fmap in Hin as (f & -> & Hf). rewrite Forall_forall in Hall. by apply Hall. }
  assert (wf_sequence <$> (wire_of_file <$> files) = sequence <$> files) as E.
  { rewrite <-list_fmap_compose. apply Forall_fmap_ext_1. apply (Forall_impl _ _ _ Hall).
    intros f [_ Hv]. by apply wire_sequence. }
  unfold valid_sequence, i64_max in *.
  assert (chunk_last prev files `min` (2 ^ 63 - 1) = chunk_last prev files) as El by lia.
  constructor; unfold chunk_update, i64_max; cbn [wu_folder wu_files wu_prev_sequence wu_last_sequence].
  - done.
  - lia.
  - by rewrite E.
  - rewrite El. apply Forall_forall. intros w Hw.
    assert (wf_sequence w ∈ (sequence <$> files)) as Hs by (rewrite <-E; by apply list_elem_of_fmap_2).
    apply list_elem_of_fmap in Hs as (f & -> & Hf). rewrite Forall_forall in Hall.
    split; [by apply Hall|by apply Hmax].
  - by rewrite El, E.
  - by rewrite El.
Qed.


(** What sending [files] in chunks does: the updates form a chain from the
    sequence number recorded before to the one recorded afterwards and carry a
    prefix of the files. *)
Definition sent_prefix st st' (prev : Z) (files : list FileInfo) (us : list WireIndexUpdate) (s' : Z) : Prop :=
  update_chain folder prev us s' /\
  valid_sequence s' /\
  ds_sent st' = ds_sent st ++ ((device,.) <$> us) /\
  device_shared_folders st' = device_shared_folders st /\
  indexed_folders_map st' !! (device, folder) = Some s' /\
  (forall k, k <> (device, folder) -> indexed_folders_map st' !! k = indexed_folders_map st !! k) /\
  exists n, concat (wu_files <$> us) = wire_of_file <$> take n files /\
    forall f, f ∈ drop n files -> s' < sequence f.

Lemma sent_prefix_none st prev files :
  indexed_folders_map st !! (device, folder) = Some prev -> valid_sequence prev ->
  Forall (fun f => prev < sequence f) files -> sent_prefix st st prev files [] prev.
Proof.
  intros Hi Hv Hall. split_and!; [constructor|done|by rewrite app_nil_r|done|done|done|].
  exists 0%nat. split; [done|]. intros f Hf. rewrite Forall_forall in Hall. by apply Hall.
Qed.

Lemma send_chunks_chain outcome total chunks files i prev st :
  chunked encode folder prev chunks files -> ascending files -> valid_sequence prev ->
  Forall (fun f => prev < sequence f /\ valid_sequence (sequence f)) files ->
  indexed_folders_map st !! (device, folder) = Some prev ->
  exists us s', sent_prefix st (send_chunks encode device folder outcome total i chunks st) prev files us s'.
Proof.
  intros Hc. revert i st. induction Hc as [prev|prev fs rest more Hne Hfit Hcl Hc IH]; intros i st Hasc Hprev Hall Hi.
  { exists [], prev. by apply sent_prefix_none. }
  cbn [send_chunks]. destruct (ascending_app _ _ Hasc) as (Ha & Hb & Hab). apply Forall_app in Hall as [Hfs Hmore].
  destruct (chunk_last_spec prev fs Hne) as [Hin Hmax].
  assert (sent_prefix st st prev (fs ++ more) [] prev) as Hnone.
  { apply sent_prefix_none; [done..|]. apply Forall_app; split; [apply (Forall_impl _ _ _ Hfs)|apply (Forall_impl _ _ _ Hmore)]; tauto. }
  destruct (encode _) as [payload|]; [|by eauto]. destruct (outcome i); [by eauto|by eauto|].
  set (st1 := record_sent _ _ _ _ _ _).
  assert (Forall (fun f => chunk_last prev fs < sequence f /\ valid_sequence (sequence f)) more) as Hmore'.
  { rewrite Forall_forall in Hmore |- *. intros g Hg. split; [|by apply Hmore].
    apply list_elem_of_fmap in Hin as (f & -> & Hf). by apply Hab. }
  assert (valid_sequence (chunk_last prev fs)) as Hv.
  { apply list_elem_of_fmap in Hin as (f & -> & Hf). rewrite Forall_forall in Hfs. by apply Hfs. }
  destruct (IH (S i) st1 Hb Hv Hmore') as (us & s' & Hch & Hv' & Hs & Hsh & Hix & Hk & n & Hn & Hrest).
  { apply lookup_insert_eq. }
  exists (chunk_update folder prev fs :: us), s'. split_and!.
  - by apply chunk_update_chain.
  - done.
  - rewrite Hs. cbn. by rewrite <-app_assoc.
  - by rewrite Hsh.
  - done.
  - intros k Hne'. rewrite Hk by done. by apply lookup_insert_ne.
  - exists (length fs + n)%nat. rewrite take_app_add, drop_app_add, fmap_app. cbn. by rewrite Hn.
Qed.

(** ** The files of an event *)

Definition event_files (files : list FileInfo) : Prop :=
  NoDup (sequence <$> files) /\ Forall (fun f => valid_sequence (sequence f)) files.

Lemma announced_sequence f : sequence (announced_blocks sha256 f) = sequence f.
Proof. unfold announced_blocks. repeat case_match; done. Qed.

Lemma files_to_send_perm prev files :
  files_to_send sha256 prev files ≡ₚ announced_blocks sha256 <$> filter (fun f => prev < sequence f) files.
Proof. apply sort_by_perm. Qed.

Lemma files_to_send_elem prev files g :
  g ∈ files_to_send sha256 prev files <->
  exists f, g = announced_blocks sha256 f /\ f ∈ files /\ prev < sequence f.
Proof.
  rewrite files_to_send_perm, list_elem_of_fmap. setoid_rewrite list_elem_of_filter.
  split; intros (f & -> & Hf); exists f; tauto.
Qed.

Lemma files_to_send_ascending prev files : event_files files ->
  ascending (files_to_send sha256 prev files) /\
  Forall (fun f => prev < sequence f /\ valid_sequence (sequence f)) (files_to_send sha256 prev files).
Proof.
  intros [Hnd Hv]. rewrite Forall_forall in Hv. split.
  - assert (NoDup (sequence <$> files_to_send sha256 prev files)) as Hnd'.
    { rewrite files_to_send_perm, <-list_fmap_compose.
      erewrite list_fmap_ext; [|intros i f _; apply announced_sequence].
      eapply sublist_NoDup; [done|]. apply fmap_sublist, sublist_filter. }
    unfold ascending, files_to_send in *. pose proof (sort_by_sorted sequence
      (announced_blocks sha256 <$> filter (fun f => prev < sequence f) files)) as Hs.
    induction Hs as [|f l Hl IH Hf]; [constructor|]. cbn in Hnd' |- *. apply NoDup_cons in Hnd' as [Hni Hnd'].
    constructor; [by apply IH|]. apply Forall_fmap, Forall_forall. intros g Hg. cbn. rewrite Forall_forall in Hf.
    specialize (Hf g Hg). enough (sequence f <> sequence g) by lia. intros E. apply Hni. rewrite E. by apply list_elem_of_fmap_2.
  - apply Forall_forall. intros g (f & -> & Hf & Hp)%files_to_send_elem. rewrite announced_sequence. auto.
Qed.

(** A turn for [device] extends its chain. *)
Lemma dispatch_device_chain files outcome st prev : event_files files -> valid_sequence prev ->
  indexed_folders_map st !! (device, folder) = Some prev ->
  exists us s', sent_prefix st (dispatch_device encode sha256 folder files outcome st device) prev
    (files_to_send sha256 prev files) us s'.
Proof.
  intros Hf Hp Hi. destruct (files_to_send_ascending prev files Hf) as [Hasc Hall]. unfold dispatch_device.
  assert (exists us s', sent_prefix st st prev (files_to_send sha256 prev files) us s') as Hnone.
  { exists [], prev. apply sent_prefix_none; [done..|]. apply (Forall_impl _ _ _ Hall). tauto. }
  destruct (device_shared_folders st !! device) as [shared|]; [|done]. case_decide; [|done]. rewrite Hi.
  apply send_chunks_chain; auto. apply build_chunks_chunked.
Qed.

End Sending.

(** ** The chain over a run *)

Definition updates_to (d : DeviceId) (fo : str) (sent : list (DeviceId * WireIndexUpdate)) : list WireIndexUpdate :=
  snd <$> filter (fun p => p.1 = d /\ wu_folder p.2 = fo) sent.

Lemma updates_to_app d fo a b : updates_to d fo (a ++ b) = updates_to d fo a ++ updates_to d fo b.
Proof. unfold updates_to. by rewrite filter_app, fmap_app. Qed.

Lemma updates_to_chain d fo s us s' : update_chain fo s us s' -> updates_to d fo ((d,.) <$> us) = us.
Proof.
  unfold updates_to. induction 1; [done|]. rewrite fmap_cons, filter_cons_True by done. rewrite fmap_cons. by f_equal.
Qed.

(** What was sent to [d] for [fo] between two states continues its chain. *)
Definition chain_step (d : DeviceId) (fo : str) (st st' : DispatchState) : Prop :=
  forall s, indexed_folders_map st !! (d, fo) = Some s -> valid_sequence s ->
  exists us s', updates_to d fo (ds_sent st') = updates_to d fo (ds_sent st) ++ us /\
    update_chain fo s us s' /\ indexed_folders_map st' !! (d, fo) = Some s' /\ valid_sequence s'.

#[global] Instance chain_step_preorder d fo : PreOrder (chain_step d fo).
Proof.
  split.
  - intros st s Hi Hv. exists [], s. rewrite app_nil_r. split_and!; [done|constructor|done|done].
  - intros st1 st2 st3 H12 H23 s Hi Hv. destruct (H12 s Hi Hv) as (us & s2 & Eu & Hc & Hi2 & Hv2).
    destruct (H23 s2 Hi2 Hv2) as (vs & s3 & Ev & Hc' & Hi3 & Hv3). exists (us ++ vs), s3.
    rewrite Ev, Eu, app_assoc. split_and!; [done| |done|done]. by eapply update_chain_app.
Qed.

Section Run.
Context (encode : WireIndexUpdate -> option (list Z)) (sha256 : list Z -> list Z).
Context (d : DeviceId) (fo : str).
Implicit Types st : DispatchState.

Lemma chain_step_frame st st' :
  updates_to d fo (ds_sent st') = updates_to d fo (ds_sent st) ->
  indexed_folders_map st' !! (d, fo) = indexed_folders_map st !! (d, fo) -> chain_step d fo st st'.
Proof.
  intros Es Ei s Hi Hv. exists [], s. rewrite Es, Ei, app_nil_r. split_and!; [done|constructor|done|done].
Qed.

Lemma send_chunks_other device folder outcome total i chunks st : (device, folder) <> (d, fo) ->
  chain_step d fo st (send_chunks encode device folder outcome total i chunks st).
Proof.
  intros Hne. revert i st. induction chunks as [|[prev fs] chunks IH]; intros i st; [reflexivity|]. cbn [send_chunks].
  destruct (encode _); [|reflexivity]. destruct (outcome i); [reflexivity|reflexivity|].
  etransitivity; [|apply IH]. apply chain_step_frame; cbn [record_sent ds_sent indexed_folders_map].
  - rewrite updates_to_app. unfold updates_to at 2. rewrite filter_cons_False by (cbn; intros [-> ->]; congruence).
    by rewrite app_nil_r.
  - by apply lookup_insert_ne.
Qed.

Lemma dispatch_device_step folder files outcome st device : event_files files ->
  chain_step d fo st (dispatch_device encode sha256 folder files outcome st device).
Proof.
  intros Hf. destruct (decide ((device, folder) = (d, fo))) as [[= -> ->]|Hne].
  - intros s Hi Hv. destruct (dispatch_device_chain encode sha256 d fo files outcome st s Hf Hv Hi)
      as (us & s' & Hc & Hv' & Hs & _ & Hi' & _). exists us, s'. split_and!; [|done..].
    rewrite Hs, updates_to_app. by erewrite updates_to_chain.
  - unfold dispatch_device. destruct (device_shared_folders st !! device); [|reflexivity]. case_decide; [|reflexivity].
    destruct (indexed_folders_map st !! (device, folder)); [|reflexivity]. by apply send_chunks_other.
Qed.

Definition good_event (e : SyncEvent) : Prop :=
  match e with LocalIndexUpdated _ files => event_files files | _ => True end.

Lemma dispatch_event_step connected outcome st e : good_event e ->
  chain_step d fo st (dispatch_event encode sha256 connected outcome st e).
Proof.
  intros He. destruct e; try reflexivity. cbn. case_decide; [reflexivity|]. revert st.
  induction connected as [|device connected IH]; intros st; [reflexivity|]. cbn [fold_left].
  etransitivity; [by apply dispatch_device_step|apply IH].
Qed.

(** Inputs that neither restart the chain of [(d, fo)] with an initial index
    nor publish malformed events. *)
Definition chain_input (i : DispatchInput) : Prop :=
  match i with
  | InPublish e => good_event e
  | InTurn _ _ => True
  | InSession device (EvIndexSent _ folder _ _) => (device, folder) <> (d, fo)
  | InSession _ _ => True
  end.

Definition good_queue (s : EventSubscriber) : Prop := Forall good_event (sub_queue s).

Lemma publish_to_good cap s e : good_queue s -> good_event e -> good_queue (publish_to cap s e).
Proof.
  unfold good_queue, publish_to. intros Hq He. assert (Forall good_event (sub_queue s ++ [e])) as Ha.
  { apply Forall_app_2; [done|by constructor]. }
  case_match; [done|]. by apply Forall_tail.
Qed.

Lemma send_chunks_published device folder outcome total i chunks st :
  Forall good_event (ds_published st) ->
  Forall good_event (ds_published (send_chunks encode device folder outcome total i chunks st)).
Proof.
  revert i st. induction chunks as [|[prev fs] chunks IH]; intros i st Hp; [done|]. cbn [send_chunks].
  destruct (encode _); [|done]. destruct (outcome i); [done|done|]. apply IH. cbn. apply Forall_app_2; [done|].
  by constructor.
Qed.

Lemma dispatch_event_published connected outcome st e : Forall good_event (ds_published st) ->
  Forall good_event (ds_published (dispatch_event encode sha256 connected outcome st e)).
Proof.
  intros Hp. destruct e; try done. cbn. case_decide; [done|]. revert st Hp.
  induction connected as [|device connected IH]; intros st Hp; [done|]. cbn [fold_left]. apply IH.
  unfold dispatch_device. repeat case_match; [|done..]. by apply send_chunks_published.
Qed.

Lemma dispatcher_step_chain cap x i : chain_input i -> good_queue (dp_sub x) ->
  chain_step d fo (dp_state x) (dp_state (dispatcher_step encode sha256 cap x i)) /\
  good_queue (dp_sub (dispatcher_step encode sha256 cap x i)).
Proof.
  intros Hi Hq. destruct i as [e|connected outcome|device e]; cbn [dispatcher_step].
  - split; [reflexivity|]. by apply publish_to_good.
  - unfold dispatcher_turn. destruct (dp_running x); [|done]. unfold subscriber_recv.
    destruct (sub_lagged (dp_sub x)); [done|]. unfold good_queue in Hq. destruct (sub_queue (dp_sub x)) as [|e q] eqn:E.
    { split; [reflexivity|]. unfold good_queue. by rewrite E. }
    apply Forall_cons in Hq as [He Hq]. set (st0 := mkDispatchState _ _ _ _). cbn [dp_state dp_sub]. split.
    { etransitivity; [|by apply (dispatch_event_step connected outcome st0 e)]. by apply chain_step_frame. }
    assert (Forall good_event (ds_published (dispatch_event encode sha256 connected outcome st0 e))) as Hp.
    { by apply dispatch_event_published; constructor. }
    assert (good_queue (mkEventSubscriber q false)) as Hg by done. revert Hp Hg. generalize (mkEventSubscriber q false).
    generalize (ds_published (dispatch_event encode sha256 connected outcome st0 e)). intros es.
    induction es as [|e' es IH]; intros s Hes Hs; [done|]. apply Forall_cons in Hes as [He' Hes]. cbn [fold_left].
    apply IH; [done|]. by apply publish_to_good.
  - split; [|done]. destruct e; try (by apply chain_step_frame). apply chain_step_frame; [done|]. by apply lookup_insert_ne.
Qed.

Lemma dispatcher_run_chain cap inputs x : Forall chain_input inputs -> good_queue (dp_sub x) ->
  chain_step d fo (dp_state x) (dp_state (dispatcher_run encode sha256 cap x inputs)).
Proof.
  intros Hi. revert x. induction Hi as [|i inputs Hi _ IH]; intros x Hq; [reflexivity|]. cbn [dispatcher_run fold_left].
  destruct (dispatcher_step_chain cap x i Hi Hq) as [Hs Hq']. etransitivity; [done|]. by apply IH.
Qed.

End Run.

(** ** What the updates guarantee *)

Definition chain_sequences (us : list WireIndexUpdate) : list Z := wf_sequence <$> concat (wu_files <$> us).

Lemma chain_sequences_cons u us : chain_sequences (u :: us) = (wf_sequence <$> wu_files u) ++ chain_sequences us.
Proof. unfold chain_sequences. by rewrite fmap_cons, <-fmap_app. Qed.

Lemma update_chain_sequences fo s us s' : update_chain fo s us s' ->
  StronglySorted Z.lt (chain_sequences us) /\ s <= s' /\ forall q, q ∈ chain_sequences us -> s < q <= s'.
Proof.
  induction 1 as [s|s u us s' Hf Hp Hs Ha Hl Hc (IHs & IHle & IHq)].
  { split_and!; [constructor|lia|]. by intros q ?%elem_of_nil. }
  rewrite Forall_forall in Ha.
  assert (forall q, q ∈ (wf_sequence <$> wu_files u) -> s < q <= wu_last_sequence u) as Hu.
  { intros q (f & -> & Hf')%list_elem_of_fmap. by apply Ha. }
  rewrite chain_sequences_cons. pose proof (Hu _ Hl). split_and!; [|lia|].
  - apply StronglySorted_app. split_and!; [|done..]. intros a b ?%Hu ?%IHq. lia.
  - intros q [?%Hu|?%IHq]%elem_of_app; lia.
Qed.

Lemma chunked_concat encode folder prev chunks files :
  chunked encode folder prev chunks files -> concat (snd <$> chunks) = files.
Proof. induction 1 as [|p fs rest more _ _ _ _ IH]; [done|]. cbn. by rewrite IH. Qed.

(** Splitting a set of changes into update messages loses, adds and
    reorders nothing: the chunks joined are the files, each carries as previous
    sequence number the highest one of the chunk before it, none is empty, each
    is within the size limit or a single file, and a chunk ends only where the
    next file would have exceeded the limit. *)
Theorem index_update_chunks_correct encode folder prev files :
  let chunks := build_index_update_chunks encode folder prev files in
  concat (snd <$> chunks) = files /\
  Forall (fun '(p, fs) => chunk_fits encode folder p fs = true \/ length fs = 1%nat) chunks /\
  chunked encode folder prev chunks files.
Proof.
  intros chunks. pose proof (build_chunks_chunked encode folder prev files) as Hc. fold chunks in Hc.
  split_and!; [by eapply chunked_concat| |done]. clearbody chunks.
  induction Hc as [|p fs rest more Hne Hfit Hcl Hc IH]; by constructor.
Qed.

(** C6: From the initial index on, the updates a device gets for a folder form a
    chain, if the files of each published update carry valid sequence numbers,
    no two the same, and no new initial index restarts it; whichever updates
    are published, whichever sends fail and whichever devices come and go:
    every message starts at the sequence number the one before
    ended with, its files are in ascending order strictly above it, so no entry
    is sent twice or out of order, and the sequence number recorded for the
    device is the highest one it was sent. *)
Theorem index_updates_chain encode sha256 cap inputs x d fo s :
  indexed_folders_map (dp_state x) !! (d, fo) = Some s -> valid_sequence s ->
  good_queue (dp_sub x) -> Forall (chain_input d fo) inputs ->
  let x' := dispatcher_run encode sha256 cap x inputs in
  exists us s',
    updates_to d fo (ds_sent (dp_state x')) = updates_to d fo (ds_sent (dp_state x)) ++ us /\
    update_chain fo s us s' /\
    indexed_folders_map (dp_state x') !! (d, fo) = Some s' /\
    StronglySorted Z.lt (chain_sequences us) /\
    forall q, q ∈ chain_sequences us -> s < q <= s'.
Proof.
  intros Hi Hv Hq Hin x'. destruct (dispatcher_run_chain encode sha256 d fo cap inputs x Hin Hq s Hi Hv)
    as (us & s' & Hu & Hc & Hi' & _). exists us, s'.
  destruct (update_chain_sequences _ _ _ _ Hc) as (? & _ & ?). by split_and!.
Qed.

(** ** Complete updates *)

Lemma send_chunks_all encode device folder outcome total i chunks st :
  (forall u, is_Some (encode u)) -> (forall j, outcome j = SendDone) ->
  ds_sent (send_chunks encode device folder outcome total i chunks st) =
    ds_sent st ++ ((fun '(p, fs) => (device, chunk_update folder p fs)) <$> chunks).
Proof.
  intros He Ho. revert i st. induction chunks as [|[p fs] chunks IH]; intros i st; cbn [send_chunks].
  { by rewrite app_nil_r. }
  destruct (He (chunk_update folder p fs)) as [payload ->]. rewrite Ho, IH. cbn. by rewrite <-app_assoc.
Qed.

Lemma chunk_updates_files folder (chunks : list (Z * list FileInfo)) :
  concat (wu_files <$> ((fun '(p, fs) => chunk_update folder p fs) <$> chunks)) =
    wire_of_file <$> concat (snd <$> chunks).
Proof. induction chunks as [|[p fs] chunks IH]; [done|]. cbn. by rewrite fmap_app, <-IH. Qed.

(** What the protocol asks of the announcement [g] of an entry [f]: a deletion has
    no blocks, an empty file the block of nothing, every other entry its own
    blocks; all other fields are those of the entry. *)
Definition announced_as (sha256 : list Z -> list Z) (f g : FileInfo) : Prop :=
  set_blocks g (blocks f) = f /\
  (is_deleted f = true -> blocks g = []) /\
  (is_deleted f = false -> file_type f = File -> size f = 0 -> blocks f = [] -> blocks g = [mkBlockInfo 0 (sha256 []) 0]) /\
  (is_deleted f = false -> file_type f <> File \/ size f <> 0 \/ blocks f <> [] -> blocks g = blocks f).

Lemma strongly_sorted_fmap {A : Type} (key : A -> Z) l :
  StronglySorted (fun a b => key a <= key b) l -> StronglySorted Z.le (key <$> l).
Proof. induction 1 as [|a l _ IH Hl]; [constructor|]. cbn. constructor; [done|by apply Forall_fmap]. Qed.

Lemma announced_blocks_as sha256 f : announced_as sha256 f (announced_blocks sha256 f).
Proof.
  unfold announced_as, announced_blocks. destruct (is_deleted f) eqn:Ed; [split_and!; try done; by destruct f|].
  destruct (bool_decide (file_type f = File) && (size f =? 0) && bool_decide (blocks f = [])) eqn:E.
  - apply andb_true_iff in E as [[E1%bool_decide_eq_true E2%Z.eqb_eq]%andb_true_iff E3%bool_decide_eq_true].
    split_and!; [by destruct f|done|done|naive_solver].
  - split_and!; [by destruct f|done| |done]. intros _ E1 E2 E3. rewrite E1, E2, E3 in E. done.
Qed.

(** C19: When every message can be encoded and every send succeeds, a device that
    shares the folder and has its initial index is sent every changed file above
    the recorded sequence number exactly once, in ascending order of the sequence
    numbers, each as the protocol asks: deletions without blocks, empty files with
    the block of nothing, other files with their own blocks. *)
Theorem index_update_delivered encode sha256 st device folder files outcome shared prev :
  (forall u, is_Some (encode u)) -> (forall j, outcome device j = SendDone) ->
  device_shared_folders st !! device = Some shared -> folder ∈ shared ->
  indexed_folders_map st !! (device, folder) = Some prev ->
  exists us,
    ds_sent (dispatch_device encode sha256 folder files outcome st device) = ds_sent st ++ ((device,.) <$> us) /\
    exists fs gs, concat (wu_files <$> us) = wire_of_file <$> gs /\
      fs ≡ₚ filter (fun f => prev < sequence f) files /\ Forall2 (announced_as sha256) fs gs /\
      StronglySorted Z.le (sequence <$> gs).
Proof.
  intros He Ho Hsh Hin Hi. unfold dispatch_device. rewrite Hsh, Hi, decide_True by done.
  set (chunks := build_index_update_chunks _ _ _ _).
  exists ((fun '(p, fs) => chunk_update folder p fs) <$> chunks). split_and!.
  - rewrite send_chunks_all by done. f_equal. rewrite <-list_fmap_compose. apply list_fmap_ext. by intros ? [??] _.
  - destruct (Permutation_map_inv (announced_blocks sha256) (filter (fun f => prev < sequence f) files)
      (l1 := files_to_send sha256 prev files)) as (fs & Hgs & Hfs); [apply files_to_send_perm|].
    exists fs, (files_to_send sha256 prev files). split_and!.
    + rewrite chunk_updates_files. f_equal. eapply chunked_concat, build_chunks_chunked.
    + by symmetry.
    + rewrite Hgs. apply Forall2_fmap_r, Forall_Forall2_diag, Forall_forall. intros f _. apply announced_blocks_as.
    + apply strongly_sorted_fmap, sort_by_sorted.
Qed.

(** ** Updates that are lost *)

(** An entry the dispatcher failed to send is not sent later: as soon as a
    newer sequence number is recorded for the device, no run without a new
    initial index sends an entry at or below it, although the remaining files
    are said to be retried on the next event. *)
Theorem skipped_entries_not_resent encode sha256 cap inputs x d fo s q :
  indexed_folders_map (dp_state x) !! (d, fo) = Some s -> valid_sequence s ->
  good_queue (dp_sub x) -> Forall (chain_input d fo) inputs -> q <= s ->
  q ∉ chain_sequences (updates_to d fo (ds_sent (dp_state x))) ->
  q ∉ chain_sequences (updates_to d fo (ds_sent (dp_state (dispatcher_run encode sha256 cap x inputs)))).
Proof.
  intros Hi Hv Hgq Hin Hq Hn. destruct (dispatcher_run_chain encode sha256 d fo cap inputs x Hin Hgq s Hi Hv)
    as (us & s' & Hu & Hc & _ & _). rewrite Hu. unfold chain_sequences in *. rewrite fmap_app, concat_app, fmap_app.
  intros [Hq'|Hq']%elem_of_app; [done|]. apply update_chain_sequences in Hc as (_ & _ & Hc).
  specialize (Hc q Hq'). lia.
Qed.

Lemma stopped_run encode sha256 cap inputs x : dp_running x = false ->
  let x' := dispatcher_run encode sha256 cap x inputs in
  dp_running x' = false /\ ds_sent (dp_state x') = ds_sent (dp_state x).
Proof.
  revert x. induction inputs as [|i inputs IH]; intros x Hr; [done|]. cbn [dispatcher_run fold_left].
  assert (dp_running (dispatcher_step encode sha256 cap x i) = false /\
    ds_sent (dp_state (dispatcher_step encode sha256 cap x i)) = ds_sent (dp_state x)) as [Hr' Es].
  { destruct i as [e|connected outcome|device e]; cbn.
    - done.
    - unfold dispatcher_turn. by rewrite Hr.
    - by destruct e. }
  rewrite <-Es. by apply IH.
Qed.

Lemma publish_many_lags cap es s : (cap < length (sub_queue s) + length es)%nat ->
  (length (sub_queue s) <= cap)%nat -> sub_lagged (fold_left (publish_to cap) es s) = true.
Proof.
  revert s. induction es as [|e es IH]; intros s Hl Hs; cbn in *; [lia|]. unfold publish_to at 2.
  destruct (Nat.leb_spec (length (sub_queue s ++ [e])) cap) as [Hc|Hc].
  - apply IH; cbn; rewrite length_app in *; cbn in *; lia.
  - generalize (tail (sub_queue s ++ [e])). clear. intros q. revert q.
    induction es as [|e es IH]; intros q; [done|]. cbn [fold_left]. unfold publish_to at 2. cbn. case_match; apply IH.
Qed.

Lemma publish_events_run encode sha256 cap es x :
  dispatcher_run encode sha256 cap x (InPublish <$> es) =
    mkDispatcher (dp_running x) (fold_left (publish_to cap) es (dp_sub x)) (dp_state x).
Proof. revert x. induction es as [|e es IH]; intros [r s st]; [done|]. exact (IH (mkDispatcher r (publish_to cap s e) st)). Qed.

(** A dispatcher that falls more events behind than its channel holds stops
    for good: the error that tells of the missed events is taken for the end of
    the channel, and no change is announced to any device any more. *)
Theorem dispatcher_lag_stops encode sha256 cap es connected outcome inputs x :
  (length (sub_queue (dp_sub x)) <= cap)%nat -> (cap < length (sub_queue (dp_sub x)) + length es)%nat ->
  let x' := dispatcher_run encode sha256 cap x ((InPublish <$> es) ++ InTurn connected outcome :: inputs) in
  dp_running x' = false /\ ds_sent (dp_state x') = ds_sent (dp_state x).
Proof.
  intros Hq Hl. unfold dispatcher_run. rewrite fold_left_app. cbn [fold_left].
  pose proof (publish_events_run encode sha256 cap es x) as Ep. unfold dispatcher_run in Ep. rewrite Ep. set (y := dispatcher_step _ _ _ _ _).
  assert (dp_running y = false /\ ds_sent (dp_state y) = ds_sent (dp_state x)) as [Hr Es].
  { unfold y. cbn. unfold dispatcher_turn. cbn. destruct (dp_running x); [|done].
    unfold subscriber_recv. by rewrite publish_many_lags. }
  rewrite <-Es. by apply stopped_run.
Qed.

(** ** Examples *)

Definition demo_encode (u : WireIndexUpdate) : option (list Z) := Some [].
Definition demo_sha (_ : list Z) : list Z := [].
Definition demo_peer : DeviceId := mkDeviceId [1].

(** A device that shares folder f and got its index up to number 3. *)
Definition demo_dispatch : DispatchState :=
  mkDispatchState {[demo_peer := [$"f"]]} {[(demo_peer, $"f") := 3]} [] [].

Definition demo_dispatcher : Dispatcher := mkDispatcher true (mkEventSubscriber [] false) demo_dispatch.

Definition demo_turn (ok : bool) : DispatchInput :=
  InTurn [demo_peer] (fun _ _ => if ok then SendDone else SendFailed).

Definition demo_change (n : str) (seq : Z) : DispatchInput :=
  InPublish (LocalIndexUpdated ($"f") [sample_file n seq]).

Lemma demo_change_ok n seq : valid_sequence seq -> chain_input demo_peer ($"f") (demo_change n seq).
Proof. intros Hs. split; [apply NoDup_singleton|by constructor]. Qed.

Definition demo_failed : list DispatchInput :=
  [demo_change ($"a") 4; demo_turn false; demo_change ($"b") 5; demo_turn true].

Lemma index_updates_chain_witness :
  Forall (chain_input demo_peer ($"f")) demo_failed /\
  exists us s', update_chain ($"f") 3 us s' /\ s' = 5 /\ chain_sequences us = [5].
Proof.
  assert (Forall (chain_input demo_peer ($"f")) demo_failed) as Hin.
  { repeat apply Forall_cons_2; try done; apply demo_change_ok; unfold valid_sequence; lia. }
  split; [done|].
  destruct (index_updates_chain demo_encode demo_sha 1000 demo_failed demo_dispatcher demo_peer ($"f") 3)
    as (us & s' & Hu & Hc & Hi & _); [reflexivity|unfold valid_sequence; lia|constructor|done|].
  exists us, s'. split; [done|]. vm_compute in Hi. injection Hi as <-. split; [done|].
  vm_compute in Hu. by subst us.
Defined.

Lemma index_update_delivered_witness :
  exists us, ds_sent (dispatch_device demo_encode demo_sha ($"f") [sample_file ($"b") 5; sample_file ($"a") 4]
                        (fun _ _ => SendDone) demo_dispatch demo_peer) = (demo_peer,.) <$> us /\
    exists gs, concat (wu_files <$> us) = wire_of_file <$> gs /\ length gs = 2%nat /\ StronglySorted Z.le (sequence <$> gs).
Proof.
  destruct (index_update_delivered demo_encode demo_sha demo_dispatch demo_peer ($"f")
    [sample_file ($"b") 5; sample_file ($"a") 4] (fun _ _ => SendDone) [$"f"] 3) as (us & Hs & fs & gs & Hf & Hp & Ha & Hsorted);
    [by eexists|done|reflexivity|by left|reflexivity|].
  exists us. split; [done|]. exists gs. split; [done|]. split; [|done].
  rewrite <- (Forall2_length _ _ _ Ha), Hp. reflexivity.
Defined.

(** The file whose send failed is never announced, although the next change
    was. *)
Lemma skipped_entries_not_resent_witness :
  4 ∉ chain_sequences (updates_to demo_peer ($"f") (ds_sent (dp_state
        (dispatcher_run demo_encode demo_sha 1000
           (dispatcher_run demo_encode demo_sha 1000 demo_dispatcher demo_failed)
           [demo_change ($"c") 6; demo_turn true])))).
Proof.
  apply (skipped_entries_not_resent _ _ _ _ _ _ _ 5 4);
    [vm_compute; reflexivity|unfold valid_sequence; lia| | |lia|].
  - assert (sub_queue (dp_sub (dispatcher_run demo_encode demo_sha 1000 demo_dispatcher demo_failed)) =
      [IndexUpdateChunkSent ($"f") demo_peer 0 1 1 0]) as E by (vm_compute; reflexivity).
    unfold good_queue. rewrite E. by repeat constructor.
  - repeat apply Forall_cons_2; try done; apply demo_change_ok; unfold valid_sequence; lia.
  - vm_compute. intros [?|?%elem_of_nil]%elem_of_cons; done.
Defined.

Lemma dispatcher_lag_stops_witness :
  dp_running (dispatcher_run demo_encode demo_sha 1
    demo_dispatcher [demo_change ($"a") 4; demo_change ($"b") 5; demo_turn true]) = false.
Proof.
  apply (dispatcher_lag_stops demo_encode demo_sha 1
    [LocalIndexUpdated ($"f") [sample_file ($"a") 4]; LocalIndexUpdated ($"f") [sample_file ($"b") 5]]
    [demo_peer] (fun _ _ => SendDone) [] demo_dispatcher); cbn; lia.
Defined.

(** A change published before the session has reported its initial index is
    dropped, and is below the next one that is sent. *)
Example early_update_lost :
  let x := mkDispatcher true (mkEventSubscriber [] false)
             (mkDispatchState {[demo_peer := [$"f"]]} ∅ [] []) in
  chain_sequences (updates_to demo_peer ($"f") (ds_sent (dp_state
    (dispatcher_run demo_encode demo_sha 1000 x
       [demo_change ($"a") 4; demo_turn true;
        InSession demo_peer (EvIndexSent demo_peer ($"f") 3 3);
        demo_change ($"b") 5; demo_turn true])))) = [5].
Proof. reflexivity. Qed.

(** The record of the last session is still there when a device connects again:
    an update goes out before the index of the new session. *)
Example update_before_index :
  updates_to demo_peer ($"f") (ds_sent (dp_state
    (dispatcher_run demo_encode demo_sha 1000 demo_dispatcher
       [InSession demo_peer (EvSessionEnded demo_peer);
        InSession demo_peer (EvClusterConfigComplete demo_peer [$"f"]);
        demo_change ($"b") 5; demo_turn true]))) <> [].
Proof. vm_compute. discriminate. Qed.
