(* ===== verification/Service.v ===== *)
(** * The sync service

    [crates/syncthing-sync/src/service/] (lifecycle, the [SyncManager] and
    [SyncModel] operations, the calls of the network layer) and
    [cmd/syncthing/src/tui/bep_handler.rs], which answers a BEP session from the
    service.  The folder models share one database, disk and event stream; an
    [Arc] of a model is a number, so that the loops started for a model and the
    model that is registered under its folder ID can differ.  What the clock,
    the disk and the peers answer is a parameter and may depend on the whole
    state.  The concurrency policy and the orchestrator handed on to the models
    are not part of the state. *)

From Stdlib Require Import SpecFloat.
From S2P Require Import Prelude Core DeviceIds Bep Database Merge BlockServer Conflict IndexHandler Session Puller FolderModel Scanner FolderScan Config Dispatch.

(** ** Floating point

    [f64] as the Standard Library specifies binary64. *)
Definition f64 : Type := spec_float.
Definition f64_of_usize (n : Z) : f64 := binary_normalize 53 1024 n 0 false.
Definition f64_div : f64 -> f64 -> f64 := SFdiv 53 1024.
Definition f64_mul : f64 -> f64 -> f64 := SFmul 53 1024.

(** [as] to an unsigned type: towards zero, saturating, [NaN] is 0. *)
Definition f64_as_uint (w : Z) (x : f64) : Z :=
  match x with
  | S754_finite false m e => Z.min (Z.shiftl (Zpos m) e) (2 ^ w - 1)
  | S754_infinity false => 2 ^ w - 1
  | _ => 0
  end.

(** [((part as f64 / whole as f64) * 100.0)] *)
Definition percentage (part whole : Z) : f64 :=
  f64_mul (f64_div (f64_of_usize part) (f64_of_usize whole)) (f64_of_usize 100).

(** [FolderState::completion] *)
Definition completion (s : FolderState) : Z :=
  if fst_local_files s =? 0 then 100
  else f64_as_uint 8 (percentage (Z.max 0 (fst_local_files s - fst_need_files s)) (fst_local_files s)).

(** ** State *)

Abbreviation BlockSource := (str -> str -> BlockInfo -> nat -> result SyncError str).

(** An [Arc<FolderModel>]: [fc_id] is its identity. *)
Record FolderCore := mkFolderCore {
  fc_id : Z;
  fc_folder : Folder;
  fc_state : FolderState;
  fc_pending : list FileInfo;
  fc_counter : Z;
  fc_source : option BlockSource;
}.

(** [svc_tasks] maps a folder ID to the model whose loops its handles belong
    to; [svc_reconnects] records the calls of the renegotiation hook. *)
Record SyncService (DB : Type) := mkSyncService {
  svc_config : Config;
  svc_folders : gmap str FolderCore;
  svc_world : World DB;
  svc_connected : gset DeviceId;
  svc_local_id : option DeviceId;
  svc_source : option BlockSource;
  svc_hook : bool;
  svc_reconnects : list (list DeviceId);
  svc_peer_states : gmap (DeviceId * str) Z;
  svc_tasks : gmap str Z;
  svc_next : Z;
}.
Arguments mkSyncService {DB}.
Arguments svc_config {DB}.
Arguments svc_folders {DB}.
Arguments svc_world {DB}.
Arguments svc_connected {DB}.
Arguments svc_local_id {DB}.
Arguments svc_source {DB}.
Arguments svc_hook {DB}.
Arguments svc_reconnects {DB}.
Arguments svc_peer_states {DB}.
Arguments svc_tasks {DB}.
Arguments svc_next {DB}.

(** What is outside the service: the file system calls of a block request. *)
Record BlockEnv := mkBlockEnv {
  be_path : str -> PathBuf;
  be_canonicalize : PathBuf -> option PathBuf;
  be_current_dir : option PathBuf;
  be_open : PathBuf -> result OpenError (list Z);
  be_read : nat -> nat;
  be_sha256 : list Z -> list Z;
}.

Record ServiceEnv := mkServiceEnv {
  sv_conflict : ConflictEnv;
  sv_scan : Disk -> ScanEnv;
  sv_pull : PullEnv;
  sv_now : Z;
  sv_blocks : BlockEnv;
}.

Definition with_local_id (env : ConflictEnv) (id : option DeviceId) : ConflictEnv :=
  mkConflictEnv (env_timestamp env) id (env_hex_encode env) (env_rename_ok env) (env_write_ok env)
    (env_read_ok env) (env_diff env) (env_fuel env).

Definition with_counter (env : ScanEnv) (counter : Z) : ScanEnv :=
  mkScanEnv (sc_at env) (sc_read_max env) (sc_sha256 env) (sc_ignore env) (sc_error_text env) counter.

Definition with_source (env : PullEnv) (source : option BlockSource) : PullEnv :=
  mkPullEnv (pe_io env) (pe_torn env) source (pe_versioner env) (pe_sha256 env) (pe_utf8 env) (pe_diff env)
    (pe_fuel env) (pe_scratch_dir env) (pe_date env) (pe_time env) (pe_now env) (pe_parse_date env)
    (pe_dir_len env) (pe_error_text env) (pe_schedule env).

Section Service.
Context {DB : Type} `{LocalDatabase DB}.
Implicit Types s : SyncService DB.

Abbreviation ServiceM A := (SE (SyncService DB) SyncError A).

Definition set_svc_config s (c : Config) : SyncService DB :=
  mkSyncService c (svc_folders s) (svc_world s) (svc_connected s) (svc_local_id s) (svc_source s) (svc_hook s)
    (svc_reconnects s) (svc_peer_states s) (svc_tasks s) (svc_next s).

Definition set_svc_folders s (f : gmap str FolderCore) : SyncService DB :=
  mkSyncService (svc_config s) f (svc_world s) (svc_connected s) (svc_local_id s) (svc_source s) (svc_hook s)
    (svc_reconnects s) (svc_peer_states s) (svc_tasks s) (svc_next s).

Definition set_world s (w : World DB) : SyncService DB :=
  mkSyncService (svc_config s) (svc_folders s) w (svc_connected s) (svc_local_id s) (svc_source s) (svc_hook s)
    (svc_reconnects s) (svc_peer_states s) (svc_tasks s) (svc_next s).

Definition set_connected s (c : gset DeviceId) : SyncService DB :=
  mkSyncService (svc_config s) (svc_folders s) (svc_world s) c (svc_local_id s) (svc_source s) (svc_hook s)
    (svc_reconnects s) (svc_peer_states s) (svc_tasks s) (svc_next s).

Definition set_tasks s (t : gmap str Z) : SyncService DB :=
  mkSyncService (svc_config s) (svc_folders s) (svc_world s) (svc_connected s) (svc_local_id s) (svc_source s)
    (svc_hook s) (svc_reconnects s) (svc_peer_states s) t (svc_next s).

Definition set_peer_state s (device : DeviceId) (folder : str) (needed : Z) : SyncService DB :=
  mkSyncService (svc_config s) (svc_folders s) (svc_world s) (svc_connected s) (svc_local_id s) (svc_source s)
    (svc_hook s) (svc_reconnects s) (<[(device, folder) := needed]> (svc_peer_states s)) (svc_tasks s) (svc_next s).

Definition set_local_device_id s (id : DeviceId) : SyncService DB :=
  mkSyncService (svc_config s) (svc_folders s) (svc_world s) (svc_connected s) (Some id) (svc_source s)
    (svc_hook s) (svc_reconnects s) (svc_peer_states s) (svc_tasks s) (svc_next s).

(** ** Construction *)

Definition service_new (db : DB) (disk : Disk) : SyncService DB :=
  mkSyncService config_new ∅ (mkWorld db disk []) ∅ None None false [] ∅ ∅ 0.

Definition use_local_id s (config : Config) : SyncService DB :=
  match cfg_local_device_id config with Some id => set_local_device_id s id | None => s end.

Definition svc_with_config s (config : Config) : SyncService DB := set_svc_config (use_local_id s config) config.

Definition set_core_source (source : option BlockSource) (c : FolderCore) : FolderCore :=
  mkFolderCore (fc_id c) (fc_folder c) (fc_state c) (fc_pending c) (fc_counter c) source.

Definition set_block_source s (source : BlockSource) : SyncService DB :=
  mkSyncService (svc_config s) (set_core_source (Some source) <$> svc_folders s) (svc_world s) (svc_connected s)
    (svc_local_id s) (Some source) (svc_hook s) (svc_reconnects s) (svc_peer_states s) (svc_tasks s) (svc_next s).

Definition set_renegotiation_hook s : SyncService DB :=
  mkSyncService (svc_config s) (svc_folders s) (svc_world s) (svc_connected s) (svc_local_id s) (svc_source s)
    true (svc_reconnects s) (svc_peer_states s) (svc_tasks s) (svc_next s).

Definition fire_renegotiation_hook s : SyncService DB :=
  let devices := elements (svc_connected s) in
  if svc_hook s && negb (bool_decide (devices = [])) then
    mkSyncService (svc_config s) (svc_folders s) (svc_world s) (svc_connected s) (svc_local_id s) (svc_source s)
      (svc_hook s) (svc_reconnects s ++ [devices]) (svc_peer_states s) (svc_tasks s) (svc_next s)
  else s.

(** ** Folder models *)

Definition model_of s (c : FolderCore) : FolderModel DB :=
  mkFolderModel (fc_folder c) (fc_state c) (fc_pending c) (svc_world s).

(** The model and the shared world after one of its methods. *)
Definition store_model s (fid : str) (c : FolderCore) (m : FolderModel DB) : SyncService DB :=
  let c' := mkFolderCore (fc_id c) (fm_folder m) (fm_state m) (fm_pending m) (fc_counter c) (fc_source c) in
  set_world (set_svc_folders s (<[fid := c']> (svc_folders s))) (fm_world m).

(** One step, though the source suspends between the test whether the folder is
    registered and its insertion: calls that add folders are taken one after
    another. *)
Definition add_folder_internal (folder : Folder) : ServiceM unit := fun s =>
  let fid := folder_id folder in
  if decide (is_Some (svc_folders s !! fid)) then (Ok tt, s)
  else
    match update_folder (w_db (svc_world s)) folder with
    | (Err e, db) => (Err e, set_world s (mkWorld db (w_disk (svc_world s)) (w_events (svc_world s))))
    | (Ok _, db) =>
        let s := set_world s (mkWorld db (w_disk (svc_world s)) (w_events (svc_world s))) in
        let counter := from_option counter_id 0 (cfg_local_device_id (svc_config s)) in
        let c := mkFolderCore (svc_next s) folder (folder_state_new fid) [] counter (svc_source s) in
        let s := mkSyncService (svc_config s) (<[fid := c]> (svc_folders s)) (svc_world s) (svc_connected s)
                   (svc_local_id s) (svc_source s) (svc_hook s) (svc_reconnects s) (svc_peer_states s)
                   (svc_tasks s) (svc_next s + 1) in
        (Ok tt, store_model s fid c (init_state_from_db (model_of s c)))
    end.

Definition start_folder_internal (fid : str) : ServiceM unit := fun s =>
  match svc_folders s !! fid with
  | None => (Err (SyncFolderNotFound fid), s)
  | Some c =>
      if decide (is_Some (svc_tasks s !! fid)) then (Ok tt, s)
      else (Ok tt, set_tasks s (<[fid := fc_id c]> (svc_tasks s)))
  end.

(** [for folder_config in &config.folders { add_folder_internal(..)?; }] *)
Fixpoint add_folders (fs : list Folder) : ServiceM unit :=
  match fs with
  | [] => se_ret tt
  | f :: fs => do! add_folder_internal f in add_folders fs
  end.

Definition init_folders : ServiceM unit := fun s => add_folders (cfg_folders (svc_config s)) s.

Definition start_folder_loops s : SyncService DB :=
  fold_left (fun s fid => (start_folder_internal fid s).2) ((map_to_list (svc_folders s)).*1) s.

(** ** [SyncManager] *)

Definition svc_update_config s (config : Config) : SyncService DB :=
  fire_renegotiation_hook (set_svc_config (use_local_id s config) config).

Definition svc_add_device s (device : Device) : SyncService DB :=
  fire_renegotiation_hook
    (set_svc_config s (set_devices (svc_config s) (cfg_devices (svc_config s) ++ [device]))).

Definition svc_remove_device s (device : DeviceId) : SyncService DB :=
  let s := set_svc_config s (set_devices (svc_config s) (filter (fun d => dev_id d <> device) (cfg_devices (svc_config s)))) in
  fire_renegotiation_hook (set_connected s (svc_connected s ∖ {[device]})).

Definition svc_add_folder (folder : Folder) : ServiceM unit :=
  do! se_modify (fun s => set_svc_config s (set_folders (svc_config s) (cfg_folders (svc_config s) ++ [folder]))) in
  do! add_folder_internal folder in
  do! start_folder_internal (folder_id folder) in
  se_modify fire_renegotiation_hook.

Definition svc_remove_folder s (fid : str) : SyncService DB :=
  let s := set_svc_config s (set_folders (svc_config s) (filter (fun f => folder_id f <> fid) (cfg_folders (svc_config s)))) in
  fire_renegotiation_hook (set_svc_folders s (base.delete fid (svc_folders s))).

Definition get_folder_state s (fid : str) : Res FolderState :=
  match svc_folders s !! fid with
  | Some c => Ok (fc_state c)
  | None => Err (SyncFolderNotFound fid)
  end.

Definition service_start : ServiceM unit :=
  do! init_folders in
  se_modify start_folder_loops.

(** Every loop is told to stop and waited for. *)
Definition service_stop s : SyncService DB := set_tasks s ∅.

Definition connect_device s (device : DeviceId) : SyncService DB :=
  let s := set_connected s ({[device]} ∪ svc_connected s) in
  set_world s (publish_world (svc_world s) (DeviceConnected device)).

Definition disconnect_device s (device : DeviceId) : SyncService DB :=
  let s := set_connected s (svc_connected s ∖ {[device]}) in
  set_world s (publish_world (svc_world s) (DeviceDisconnected device ($"Manual disconnect"))).

(** ** Statistics *)

Record SvcFolderStats := mkSvcFolderStats {
  sfs_files : Z;
  sfs_directories : Z;
  sfs_symlinks : Z;
  sfs_total_bytes : Z;
  sfs_deleted : Z;
}.

Record SvcStats := mkSvcStats {
  ss_folders : gmap str SvcFolderStats;
  ss_total_files : Z;
  ss_total_bytes : Z;
}.

Definition count_files (p : FileInfo -> bool) (files : list FileInfo) : Z :=
  Z.of_nat (length (filter (fun f => p f = true) files)).

Definition folder_stats_of (c : FolderCore) (files : list FileInfo) : SvcFolderStats :=
  mkSvcFolderStats (fst_local_files (fc_state c))
    (count_files (fun f => bool_decide (file_type f = Directory)) files)
    (count_files (fun f => bool_decide (file_type f = Symlink)) files)
    (fold_left (fun n f => wrap 64 (n + wrap 64 (size f))) files 0)
    (count_files is_deleted files).

Definition add_stats s (st : SvcStats) (c : FolderCore) : SvcStats :=
  let fid := folder_id (fc_folder c) in
  match get_folder_files (w_db (svc_world s)) fid with
  | Ok files =>
      let f := folder_stats_of c files in
      mkSvcStats (<[fid := f]> (ss_folders st)) (wrap 64 (ss_total_files st + sfs_files f))
        (wrap 64 (ss_total_bytes st + sfs_total_bytes f))
  | Err _ => st
  end.

Definition get_stats s : SvcStats :=
  fold_left (add_stats s) ((map_to_list (svc_folders s)).*2) (mkSvcStats ∅ 0 0).

(** ** Operations that depend on the environment *)

Section Environment.
Context (env : SyncService DB -> ServiceEnv).

(** A method of the model registered under [fid]. *)
Definition on_folder {E A : Type} (missing : E) (fid : str)
    (f : SyncService DB -> FolderCore -> FolderModel DB -> result E A * FolderModel DB) s
  : result E A * SyncService DB :=
  match svc_folders s !! fid with
  | None => (Err missing, s)
  | Some c => let '(r, m) := f s c (model_of s c) in (r, store_model s fid c m)
  end.

Definition core_scan_env s (c : FolderCore) (d : Disk) : ScanEnv := with_counter (sv_scan (env s) d) (fc_counter c).

Definition core_pull_env s (c : FolderCore) : PullEnv := with_source (sv_pull (env s)) (fc_source c).

Definition svc_scan_folder (fid : str) : ServiceM unit :=
  on_folder (SyncFolderNotFound fid) fid (fun s c m =>
    let '(r, m) := fm_scan (core_scan_env s c (w_disk (fm_world m))) (sv_now (env s)) m in
    (result_map (fun _ => tt) r, m)).

Definition svc_scan_folder_sub (fid sub : str) : ServiceM unit :=
  on_folder (SyncFolderNotFound fid) fid (fun s c m =>
    let '(r, m) := fm_scan_sub (core_scan_env s c (w_disk (fm_world m))) (sv_now (env s)) m sub in
    (result_map (fun _ => tt) r, m)).

Definition svc_pull_folder (fid : str) s : result PullError unit * SyncService DB :=
  on_folder (PullFailed (SyncFolderNotFound fid)) fid (fun s c m =>
    let '(r, m) := pull (core_pull_env s c) m in (result_map (fun _ => tt) r, m)) s.

Definition override_folder (fid : str) : ServiceM unit :=
  on_folder (SyncFolderNotFound fid) fid (fun s c m =>
    override_local_changes (core_scan_env s c) (sv_now (env s)) m).

Definition revert_folder (fid : str) s : result PullError unit * SyncService DB :=
  on_folder (PullFailed (SyncFolderNotFound fid)) fid (fun s c m =>
    revert_local_changes (core_scan_env s c) (core_pull_env s c) (sv_now (env s)) m) s.

(** ** Calls of the network layer *)

(** The index of a peer: [handle] is the index handler's method. *)
Definition handle_remote (fid : str) (device : DeviceId)
    (handle : ConflictEnv -> Folder -> WorldM (DB := DB) (list FileInfo)) : ServiceM (list FileInfo) := fun s =>
  match svc_folders s !! fid with
  | None => (Err (SyncFolderNotFound fid), s)
  | Some c =>
      match handle (with_local_id (sv_conflict (env s)) (svc_local_id s)) (fc_folder c) (svc_world s) with
      | (Err e, w) => (Err e, set_world s w)
      | (Ok needed, w) =>
          let s := set_world s w in
          let s := store_model s fid c (handle_remote_index (model_of s c) needed) in
          (Ok needed, set_peer_state s device fid (Z.of_nat (length needed)))
      end
  end.

Definition svc_handle_index (fid : str) (device : DeviceId) (index : Index) : ServiceM (list FileInfo) :=
  handle_remote fid device (fun cenv folder => handle_index cenv folder device index).

Definition svc_handle_index_update (fid : str) (device : DeviceId) (update : IndexUpdate)
  : ServiceM (list FileInfo) :=
  handle_remote fid device (fun cenv folder => handle_index_update cenv folder device update).

Definition handle_block_request s (req : Request) : result BlockRequestError (list Z) :=
  match List.find (fun f => bool_decide (folder_id f = req_folder req)) (cfg_folders (svc_config s)) with
  | None => Err FolderNotFound
  | Some f =>
      let be := sv_blocks (env s) in
      serve_block_request_sync (be_canonicalize be) (be_current_dir be) (be_open be) (be_read be) (be_sha256 be)
        (be_path be (folder_path f)) req
  end.

Definition svc_generate_index_update s (fid : str) (since : Z) : Res (list FileInfo) :=
  generate_index_update (w_db (svc_world s)) fid since.

Definition get_folder_ids s : list str := (map_to_list (svc_folders s)).*1.

Definition get_folder_completion s (device : DeviceId) (fid : str) : Z :=
  default 0 (svc_peer_states s !! (device, fid)).

(** ** [SyncModel] *)

Definition stop_folder (fid : str) : SE (SyncService DB) SyncthingError unit := fun s =>
  if decide (is_Some (svc_tasks s !! fid)) then (Ok tt, set_tasks s (base.delete fid (svc_tasks s)))
  else (Err EInternal, s).

Inductive ModelStatus := MsIdle | MsScanning | MsSyncing | MsPaused | MsError.

Definition folder_status s (fid : str) : result SyncthingError ModelStatus :=
  match svc_folders s !! fid with
  | Some c =>
      Ok match fst_status (fc_state c) with
         | FolderIdle | FolderScanWaiting | FolderSyncWaiting | FolderSynced => MsIdle
         | FolderScanning => MsScanning
         | FolderPulling | FolderPushing => MsSyncing
         | FolderPaused => MsPaused
         | FolderError => MsError
         end
  | None => Err EInternal
  end.

Definition folder_completion s (fid : str) (device : DeviceId) : Z :=
  let needed := get_folder_completion s device fid in
  let total := Z.max (match get_folder_files (w_db (svc_world s)) fid with
                      | Ok files => Z.of_nat (length files)
                      | Err _ => 0
                      end) needed in
  if total =? 0 then 100 else f64_as_uint 64 (percentage (total - needed) total).

(** ** The daemon's session handler *)

Definition wire_device (id : DeviceId) : WireDevice :=
  mkWireDevice (device_id_bytes id) [] [] 0 [] 0 false 0 false [].

Definition wire_folder (local_id : DeviceId) (f : Folder) : WireFolder :=
  let devices := wire_device <$> folder_devices f in
  mkWireFolder (folder_id f) (default [] (folder_label f)) 0 0
    (if decide (local_id ∈ folder_devices f) then devices else devices ++ [wire_device local_id]).

Definition daemon_cluster_config s (device : DeviceId) : ClusterConfig :=
  let local_id := default (mkDeviceId (repeat 0 32)) (cfg_local_device_id (svc_config s)) in
  mkClusterConfig
    (wire_folder local_id <$> filter (fun f => device ∈ folder_devices f) (cfg_folders (svc_config s))) false.

Definition daemon_index s (fid : str) : option Index :=
  match svc_generate_index_update s fid 0 with
  | Ok files => Some (mkIndex fid (announced_blocks (be_sha256 (sv_blocks (env s))) <$> files))
  | Err _ => None
  end.

Definition unit_of {A : Type} (r : Res A) : option unit :=
  match r with Ok _ => Some tt | Err _ => None end.

Definition daemon_on_index s (device : DeviceId) (index : Index) : option unit * SyncService DB :=
  let '(r, s) := svc_handle_index (index_folder index) device index s in (unit_of r, s).

Definition daemon_on_index_update s (device : DeviceId) (update : IndexUpdate) : option unit * SyncService DB :=
  let '(r, s) := svc_handle_index_update (update_folder_id update) device update s in (unit_of r, s).

Definition daemon_on_block_request s (device : DeviceId) (req : Request) : result ErrorCode (list Z) :=
  match handle_block_request s req with Ok data => Ok data | Err e => Err (error_code e) end.

(** [DaemonBepHandler] *)
Definition DaemonBepHandler : BepSessionHandler (SyncService DB) := {|
  generate_cluster_config s device := Some (daemon_cluster_config s device);
  generate_index s fid _ := daemon_index s fid;
  on_index := daemon_on_index;
  on_index_update := daemon_on_index_update;
  on_block_request := daemon_on_block_request;
|}.

End Environment.
End Service.

(** ** Indexes between two daemons *)

(** What [announced_blocks] and the wire keep of an entry, as far as the index
    handler looks at it. *)
Record same_entry (f g : FileInfo) : Prop := {
  se_name : name g = name f;
  se_version : version g = version f;
  se_modified_s : modified_s g = modified_s f;
  se_modified_ns : modified_ns g = modified_ns f;
  se_deleted : is_deleted g = is_deleted f;
}.

(** The entry as the peer gets it. *)
Definition on_wire (sha256 : list Z -> list Z) (f : FileInfo) : FileInfo :=
  file_of_wire (wire_of_file (announced_blocks sha256 f)).

Lemma on_wire_same sha256 f : same_entry f (on_wire sha256 f).
Proof.
  assert (same_entry f (announced_blocks sha256 f)) as [En Ev Es Ens Ed].
  { unfold announced_blocks. repeat case_match; by constructor. }
  unfold on_wire. constructor; cbn [wire_of_file file_of_wire name version modified_s modified_ns].
  - done.
  - cbn. by rewrite vector_wire_roundtrip.
  - done.
  - done.
  - unfold is_deleted in *. cbn. done.
Qed.

Lemma same_entry_valid f g : same_entry f g -> valid_entry f -> valid_entry g.
Proof. intros [En _ _ _ _]. unfold valid_entry. by rewrite En. Qed.

Lemma same_entry_remote_wins a b b' : same_entry b b' -> remote_wins_conflict a b' = remote_wins_conflict a b.
Proof. intros [_ Ev Es Ens _]. unfold remote_wins_conflict, mtime_lt. by rewrite Ev, Es, Ens. Qed.

(** What is stored after an exchange depends, up to the version, only on what
    the wire keeps. *)
Lemma entry_exchange_wire a b a' b' :
  name a = name b -> valid_entry a -> valid_entry b -> same_entry a a' -> same_entry b b' ->
  agree (entry_step (Some a) b') (entry_step (Some b) a').
Proof.
  intros Hn Va Vb Ha Hb. pose proof (same_entry_valid _ _ Ha Va) as Va'. pose proof (same_entry_valid _ _ Hb Vb) as Vb'.
  assert (remote_wins_conflict a b' = remote_wins_conflict a b) as Rb by by apply same_entry_remote_wins.
  assert (remote_wins_conflict b a' = remote_wins_conflict b a) as Ra by by apply same_entry_remote_wins.
  pose proof (entry_exchange_agree a b Hn Va Vb) as Hagree. destruct Ha as [_ Eva _ _ _]. destruct Hb as [_ Evb _ _ _].
  unfold entry_step, conflict_winner, valid_entry in *. rewrite Va, Vb, Va', Vb' in *. cbn [negb] in *.
  rewrite Ra, Rb, Eva, Evb.
  destruct (vector_compare (version a) (version b)), (vector_compare (version b) (version a)),
    (remote_wins_conflict a b), (remote_wins_conflict b a); unfold agree in *; cbn in *; rewrite ?Eva, ?Evb; done.
Qed.

Section Exchange.
Context {DB : Type} `{LocalDatabaseLaws DB}.
Implicit Types s : SyncService DB.

(** A registered folder of a service whose environment can rename files. *)
Record serves (env : SyncService DB -> ServiceEnv) s (fid : str) (c : FolderCore) : Prop := {
  sv_registered : svc_folders s !! fid = Some c;
  sv_folder_id : folder_id (fc_folder c) = fid;
  sv_inv : w_inv (svc_world s);
  sv_rename : env_rename_ok (sv_conflict (env s)) = true;
}.

Abbreviation view s fid := (w_files (svc_world s) fid).

(** The index handler's refinement, through the service: the view, the queue
    of the folder model and the count kept for the peer. *)
Lemma handle_remote_run env s fid c device (handle : ConflictEnv -> Folder -> WorldM (DB := DB) (list FileInfo)) rs :
  serves env s fid c ->
  (forall cenv w, env_rename_ok cenv = true -> w_inv w ->
    exists w', handle cenv (fc_folder c) w = (Ok (index_steps (w_files w fid) rs).2, w') /\ w_inv w' /\
      w_files w' fid = (index_steps (w_files w fid) rs).1 /\
      (forall fo', fo' <> fid -> w_files w' fo' = w_files w fo')) ->
  let needed := (index_steps (view s fid) rs).2 in
  exists s', handle_remote env fid device handle s = (Ok needed, s') /\
    view s' fid = (index_steps (view s fid) rs).1 /\
    (forall fo', fo' <> fid -> view s' fo' = view s fo') /\
    w_inv (svc_world s') /\
    svc_folders s' = <[fid := mkFolderCore (fc_id c) (fc_folder c) (fc_state c) (enqueue (fc_pending c) needed)
                               (fc_counter c) (fc_source c)]> (svc_folders s) /\
    svc_peer_states s' = <[(device, fid) := Z.of_nat (length needed)]> (svc_peer_states s) /\
    svc_config s' = svc_config s /\ svc_tasks s' = svc_tasks s.
Proof.
  intros [Hc Hid Hi Hr] Hh needed. unfold handle_remote. rewrite Hc.
  destruct (Hh (with_local_id (sv_conflict (env s)) (svc_local_id s)) (svc_world s) Hr Hi) as (w' & -> & Hi' & Hf & Ho).
  eexists. split; [done|]. cbn. by split_and!.
Qed.

Lemma handle_index_run cenv folder device index (w : World DB) :
  env_rename_ok cenv = true -> w_inv w -> index_folder index = folder_id folder ->
  exists w', handle_index cenv folder device index w =
      (Ok (index_steps (w_files w (folder_id folder)) (index_files index)).2, w') /\ w_inv w' /\
    w_files w' (folder_id folder) = (index_steps (w_files w (folder_id folder)) (index_files index)).1 /\
    (forall fo', fo' <> folder_id folder -> w_files w' fo' = w_files w fo').
Proof.
  intros Hr Hi Hf. unfold handle_index. rewrite decide_True by done.
  destruct (law_get_folder_files (w_db w) (folder_id folder) Hi) as (l & El & _).
  erewrite se_bind_run; [|unfold w_get_folder_files, se_read; by rewrite El].
  by apply process_files_refines.
Qed.

(** The index a daemon sends for a folder whose entries all have a sequence
    number lists every entry. *)
Lemma daemon_index_run env s fid : w_inv (svc_world s) ->
  map_Forall (fun _ f => 0 < sequence f) (view s fid) ->
  exists files, daemon_index env s fid = Some (mkIndex fid files) /\
    files ≡ₚ announced_blocks (be_sha256 (sv_blocks (env s))) <$> (map_to_list (view s fid)).*2.
Proof.
  intros Hi Hseq. unfold daemon_index, svc_generate_index_update, generate_index_update.
  destruct (law_get_needed (w_db (svc_world s)) fid 0 Hi) as (l & -> & Hl). eexists. split; [done|].
  apply fmap_Permutation. rewrite Hl.
  assert (Forall (fun f => 0 < sequence f) (map_to_list (view s fid)).*2) as Hall.
  { apply Forall_forall. intros f ([k g] & -> & Hkg)%list_elem_of_fmap. apply elem_of_map_to_list in Hkg.
    by apply (Hseq k g). }
  change (db_files (w_db (svc_world s)) fid) with (view s fid).
  induction Hall as [|f fs Hf _ IH]; [done|]. rewrite filter_cons_True by done. by rewrite IH.
Qed.

Lemma fmap_values {A B : Type} (g : A -> B) (m : gmap str A) : (map_to_list (g <$> m)).*2 = g <$> (map_to_list m).*2.
Proof.
  rewrite map_to_list_fmap, <-!list_fmap_compose. apply list_fmap_ext. by intros i [k x] _.
Qed.

(** What a received index does to one name. *)
Lemma received_index_view (mine theirs : gmap str FileInfo) sha256 files n :
  (forall k f, theirs !! k = Some f -> name f = k) ->
  files ≡ₚ announced_blocks sha256 <$> (map_to_list theirs).*2 ->
  (index_steps mine (file_of_wire <$> (wire_of_file <$> files))).1 !! n =
    match theirs !! n with None => mine !! n | Some r => entry_step (mine !! n) (on_wire sha256 r) end.
Proof.
  intros Hn Hp. rewrite (index_steps_view mine (on_wire sha256 <$> theirs)).
  - rewrite lookup_fmap. by destruct (theirs !! n).
  - intros k f. rewrite lookup_fmap. intros (g & Hg & ->)%fmap_Some. rewrite (se_name _ _ (on_wire_same sha256 g)).
    by apply Hn.
  - rewrite fmap_values, Hp, <-!list_fmap_compose. done.
Qed.

End Exchange.

Lemma entry_new_wire f g : valid_entry f -> same_entry f g ->
  agree (Some f) (entry_step None g) /\ agree (entry_step None g) (Some f).
Proof.
  intros Hv Hs. pose proof (same_entry_valid _ _ Hs Hv) as Hg. destruct Hs as [_ Ev _ _ Ed].
  unfold entry_step, valid_entry in *. rewrite Hg. cbn [negb]. rewrite Ed.
  destruct (is_deleted f) eqn:Ef; cbn; [done|]. by rewrite Ev.
Qed.

Section Converge.
Context {DB : Type} `{LocalDatabaseLaws DB}.

Abbreviation view s fid := (w_files (svc_world s) fid).

(** What a daemon stores after it was sent [sender]'s index over the wire. *)
Lemma daemon_receives env s fid c envP (sP : SyncService DB) device :
  serves env s fid c -> w_inv (svc_world sP) -> map_Forall (fun _ f => 0 < sequence f) (view sP fid) ->
  exists index s', daemon_index envP sP fid = Some index /\
    daemon_on_index env s device (index_of_wire (wire_of_index index)) = (Some tt, s') /\
    forall n, view s' fid !! n =
      match view sP fid !! n with
      | None => view s fid !! n
      | Some r => entry_step (view s fid !! n) (on_wire (be_sha256 (sv_blocks (envP sP))) r)
      end.
Proof.
  intros Hs Hi Hseq. destruct (daemon_index_run envP sP fid Hi Hseq) as (files & Ed & Hp).
  set (rs := file_of_wire <$> (wire_of_file <$> files)).
  destruct (handle_remote_run env s fid c device
    (fun cenv folder => handle_index cenv folder device (mkIndex fid rs)) rs Hs) as (s' & E & Hv & _).
  { intros cenv w Hr Hw. pose proof (sv_folder_id _ _ _ _ Hs) as Hid. rewrite <-Hid.
    by apply (handle_index_run cenv (fc_folder c) device (mkIndex (folder_id (fc_folder c)) rs) w). }
  exists (mkIndex fid files), s'. split_and!; [done| |].
  - unfold daemon_on_index, svc_handle_index. unfold index_of_wire, wire_of_index.
    cbn [index_folder index_files wi_folder wi_files]. fold rs. by rewrite E.
  - intros n. rewrite Hv. apply received_index_view; [|done].
    intros k f. by apply (law_names (w_db (svc_world sP)) fid).
Qed.

(** C1: Two daemons that share a folder and exchange their initial indexes
    over the wire agree afterwards on every entry: both have stored the same
    version under each name, or one records the deletion of a file the other
    never had.  Their databases have the laws of the in-memory one (the file
    database does not: names can collide in it), conflict copies can be
    renamed, and every entry has a positive sequence number and a valid name.
    This composes the index a daemon generates from its database,
    the block lists it announces, the conversion to and from wire messages, the
    lookup of the folder, the index handler and conflict resolution. *)
Theorem daemons_converge envA envB (sA sB : SyncService DB) fid cA cB devA devB :
  serves envA sA fid cA -> serves envB sB fid cB ->
  map_Forall (fun _ f => 0 < sequence f /\ valid_entry f) (view sA fid) ->
  map_Forall (fun _ f => 0 < sequence f /\ valid_entry f) (view sB fid) ->
  exists indexA indexB sA' sB',
    daemon_index envA sA fid = Some indexA /\ daemon_index envB sB fid = Some indexB /\
    daemon_on_index envA sA devB (index_of_wire (wire_of_index indexB)) = (Some tt, sA') /\
    daemon_on_index envB sB devA (index_of_wire (wire_of_index indexA)) = (Some tt, sB') /\
    forall n, agree (view sA' fid !! n) (view sB' fid !! n).
Proof.
  intros HA HB VA VB. pose proof (sv_inv _ _ _ _ HA) as IA. pose proof (sv_inv _ _ _ _ HB) as IB.
  destruct (daemon_receives envA sA fid cA envB sB devB HA IB) as (indexB & sA' & EB & RA & FA).
  { apply (map_Forall_impl _ _ _ VB). tauto. }
  destruct (daemon_receives envB sB fid cB envA sA devA HB IA) as (indexA & sB' & EA & RB & FB).
  { apply (map_Forall_impl _ _ _ VA). tauto. }
  exists indexA, indexB, sA', sB'. split_and!; [done..|]. intros n. rewrite FA, FB.
  destruct (view sA fid !! n) as [a|] eqn:Ea, (view sB fid !! n) as [b|] eqn:Eb; [| | |done].
  - destruct (VA n a Ea) as [_ Va]. destruct (VB n b Eb) as [_ Vb]. apply entry_exchange_wire; [|done|done|apply on_wire_same..].
    by rewrite (law_names _ _ _ _ IA Ea), (law_names _ _ _ _ IB Eb).
  - destruct (VA n a Ea) as [_ Va]. by apply (entry_new_wire a), on_wire_same.
  - destruct (VB n b Eb) as [_ Vb]. by apply (entry_new_wire b), on_wire_same.
Qed.

End Converge.

(** ** The loops of the folders *)

Section Loops.
Context {DB : Type} `{LocalDatabase DB}.
Context (env : SyncService DB -> ServiceEnv).
Implicit Types (s : SyncService DB) (m : FolderModel DB).

Lemma fm_scan_folder senv now m sub : fm_folder (scan_inner senv now m sub).2 = fm_folder m.
Proof.
  unfold scan_inner, begin_scan, scan_failed, scan_succeeded, announce_changes, announce_state.
  destruct (folder_paused _); [done|]. cbn. destruct (scan_folder_at _ _ _ _) as [[files|e] w]; cbn; [|done].
  by case_decide.
Qed.

Lemma pull_folder_same penv m : fm_folder (pull penv m).2 = fm_folder m.
Proof.
  unfold pull. destruct (folder_paused _); [done|]. destruct (negb _); [done|]. case_decide; [done|].
  destruct (check_needed_files _ _ _) as [[fs|e] w]; [|done]. case_decide; [done|].
  by destruct (pull_folder _ _ _ _) as [[stats|[e| |]] w'].
Qed.

Lemma override_folder_same senv now m : fm_folder (override_local_changes senv now m).2 = fm_folder m.
Proof.
  unfold override_local_changes. destruct (negb _); [done|]. unfold fm_scan.
  pose proof (fm_scan_folder (senv (w_disk (fm_world m))) now m None) as E.
  destruct (scan_inner _ _ _ _) as [[changed|e] m']; cbn in *; [|done]. case_decide; [done|].
  by destruct (update_files _ _ _) as [r db].
Qed.

Lemma revert_folder_same senv penv now m : fm_folder (revert_local_changes senv penv now m).2 = fm_folder m.
Proof.
  unfold revert_local_changes. destruct (negb _); [done|]. destruct (get_folder_files _ _) as [files|e]; [|done].
  unfold fm_scan. set (m1 := with_world m _).
  pose proof (fm_scan_folder (senv (w_disk (fm_world m1))) now m1 None) as E.
  destruct (scan_inner _ _ _ _) as [[found|e] m2]; cbn in *; [|done].
  pose proof (pull_folder_same penv m2) as E2. destruct (pull penv m2) as [r m3]. cbn in *. by rewrite E2, E.
Qed.

(** The operations of the service. *)
Inductive ServiceOp :=
| OpUpdateConfig (c : Config)
| OpAddDevice (d : Device)
| OpRemoveDevice (d : DeviceId)
| OpAddFolder (f : Folder)
| OpRemoveFolder (fid : str)
| OpStart
| OpStop
| OpStartFolder (fid : str)
| OpStopFolder (fid : str)
| OpConnect (d : DeviceId)
| OpDisconnect (d : DeviceId)
| OpBlockSource (source : BlockSource)
| OpScan (fid : str)
| OpScanSub (fid sub : str)
| OpPull (fid : str)
| OpOverride (fid : str)
| OpRevert (fid : str)
| OpIndex (d : DeviceId) (i : Index)
| OpIndexUpdate (d : DeviceId) (u : IndexUpdate).

Definition service_step s (op : ServiceOp) : SyncService DB :=
  match op with
  | OpUpdateConfig c => svc_update_config s c
  | OpAddDevice d => svc_add_device s d
  | OpRemoveDevice d => svc_remove_device s d
  | OpAddFolder f => (svc_add_folder f s).2
  | OpRemoveFolder fid => svc_remove_folder s fid
  | OpStart => (service_start s).2
  | OpStop => service_stop s
  | OpStartFolder fid => (start_folder_internal fid s).2
  | OpStopFolder fid => (stop_folder fid s).2
  | OpConnect d => connect_device s d
  | OpDisconnect d => disconnect_device s d
  | OpBlockSource source => set_block_source s source
  | OpScan fid => (svc_scan_folder env fid s).2
  | OpScanSub fid sub => (svc_scan_folder_sub env fid sub s).2
  | OpPull fid => (svc_pull_folder env fid s).2
  | OpOverride fid => (override_folder env fid s).2
  | OpRevert fid => (revert_folder env fid s).2
  | OpIndex d i => (daemon_on_index env s d i).2
  | OpIndexUpdate d u => (daemon_on_index_update env s d u).2
  end.

Definition service_run s (ops : list ServiceOp) : SyncService DB := fold_left service_step ops s.

(** Folders are registered under their ID, models are told apart by their
    number, and loops run on a model that was created. *)
Record service_inv s : Prop := {
  inv_ids : forall fid c, svc_folders s !! fid = Some c -> folder_id (fc_folder c) = fid /\ fc_id c < svc_next s;
  inv_distinct : forall f1 f2 c1 c2, svc_folders s !! f1 = Some c1 -> svc_folders s !! f2 = Some c2 ->
    fc_id c1 = fc_id c2 -> f1 = f2;
  inv_tasks : forall fid id, svc_tasks s !! fid = Some id -> id < svc_next s;
}.

(** Every loop runs on the model registered for its folder. *)
Definition loops_current s : Prop :=
  forall fid id, svc_tasks s !! fid = Some id -> exists c, svc_folders s !! fid = Some c /\ fc_id c = id.

(** The registered models as far as the invariants see them. *)
Definition model_ids s : gmap str (Folder * Z) := (fun c => (fc_folder c, fc_id c)) <$> svc_folders s.

Lemma same_models_inv s s' : model_ids s' = model_ids s -> svc_tasks s' = svc_tasks s -> svc_next s' = svc_next s ->
  (service_inv s -> service_inv s') /\ (loops_current s -> loops_current s').
Proof.
  intros Em Et En.
  assert (forall fid c', svc_folders s' !! fid = Some c' ->
    exists c, svc_folders s !! fid = Some c /\ fc_folder c = fc_folder c' /\ fc_id c = fc_id c') as Hback.
  { intros fid c' Hc. assert (model_ids s' !! fid = Some (fc_folder c', fc_id c')) as E.
    { unfold model_ids. by rewrite lookup_fmap, Hc. }
    rewrite Em in E. unfold model_ids in E. rewrite lookup_fmap in E. apply fmap_Some in E as (c & Hc' & [= -> ->]). eauto. }
  assert (forall fid c, svc_folders s !! fid = Some c -> exists c', svc_folders s' !! fid = Some c' /\ fc_id c' = fc_id c) as Hfwd.
  { intros fid c Hc. assert (model_ids s !! fid = Some (fc_folder c, fc_id c)) as E.
    { unfold model_ids. by rewrite lookup_fmap, Hc. }
    rewrite <-Em in E. unfold model_ids in E. rewrite lookup_fmap in E. apply fmap_Some in E as (c' & Hc' & [= _ ->]). eauto. }
  split.
  - intros [Hids Hd Ht]. constructor; rewrite ?Et, ?En.
    + intros fid c' (c & Hc & <- & <-)%Hback. by apply Hids.
    + intros f1 f2 c1 c2 (d1 & H1 & _ & <-)%Hback (d2 & H2 & _ & <-)%Hback. by apply Hd.
    + done.
  - intros Hl fid id. rewrite Et. intros (c & Hc & <-)%Hl. by apply Hfwd.
Qed.

Definition quiet s s' : Prop :=
  model_ids s' = model_ids s /\ svc_tasks s' = svc_tasks s /\ svc_next s' = svc_next s.

#[local] Instance quiet_preorder : PreOrder quiet.
Proof. split; [by intros s|]. intros s1 s2 s3 (E1 & E2 & E3) (F1 & F2 & F3). unfold quiet. by rewrite F1, F2, F3. Qed.

Lemma quiet_fire s : quiet s (fire_renegotiation_hook s).
Proof. unfold fire_renegotiation_hook. by destruct (svc_hook s && _). Qed.

Lemma quiet_local_id s c : quiet s (use_local_id s c).
Proof. unfold use_local_id. by destruct (cfg_local_device_id c). Qed.

Lemma quiet_store s fid c m : svc_folders s !! fid = Some c -> fm_folder m = fc_folder c ->
  quiet s (store_model s fid c m).
Proof.
  intros Hc Hm. unfold quiet, model_ids, store_model. cbn. split_and!; [|done..].
  rewrite fmap_insert. cbn. rewrite Hm. apply insert_id. by rewrite lookup_fmap, Hc.
Qed.

Lemma quiet_on_folder {E A : Type} (missing : E) fid
    (f : SyncService DB -> FolderCore -> FolderModel DB -> result E A * FolderModel DB) s :
  (forall c, fm_folder (f s c (model_of s c)).2 = fc_folder c) -> quiet s (on_folder missing fid f s).2.
Proof.
  intros Hf. unfold on_folder. destruct (svc_folders s !! fid) as [c|] eqn:Hc; [|reflexivity].
  specialize (Hf c). destruct (f s c (model_of s c)) as [r m]. cbn in *. by apply quiet_store.
Qed.

Lemma quiet_remote fid device handle s : quiet s (handle_remote env fid device handle s).2.
Proof.
  unfold handle_remote. destruct (svc_folders s !! fid) as [c|] eqn:Hc; [|reflexivity].
  destruct (handle _ _ _) as [[needed|e] w]; [|done]. cbn [snd].
  etransitivity; [|by apply (quiet_store (set_world s w) fid c (handle_remote_index (model_of (set_world s w) c) needed))].
  done.
Qed.

Lemma quiet_source s source : quiet s (set_block_source s source).
Proof.
  unfold quiet, model_ids, set_block_source. cbn. split_and!; [|done..]. rewrite <-map_fmap_compose. by apply map_fmap_ext.
Qed.

(** Operations that neither register models nor start or stop loops. *)
Definition quiet_op (op : ServiceOp) : bool :=
  match op with
  | OpAddFolder _ | OpRemoveFolder _ | OpStart | OpStop | OpStartFolder _ | OpStopFolder _ => false
  | _ => true
  end.

Lemma quiet_step s op : quiet_op op = true -> quiet s (service_step s op).
Proof.
  destruct op; intros Hq; try discriminate Hq; cbn [service_step].
  - etransitivity; [apply quiet_local_id|]. etransitivity; [|apply quiet_fire]. done.
  - etransitivity; [|apply quiet_fire]. done.
  - etransitivity; [|apply quiet_fire]. done.
  - done.
  - done.
  - apply quiet_source.
  - apply quiet_on_folder. intros c. pose proof (fm_scan_folder (core_scan_env env s c (w_disk (svc_world s)))
      (sv_now (env s)) (model_of s c) None) as E. unfold fm_scan. by destruct (scan_inner _ _ _ _).
  - apply quiet_on_folder. intros c. pose proof (fm_scan_folder (core_scan_env env s c (w_disk (svc_world s)))
      (sv_now (env s)) (model_of s c) (Some sub)) as E. unfold fm_scan_sub. by destruct (scan_inner _ _ _ _).
  - apply quiet_on_folder. intros c. pose proof (pull_folder_same (core_pull_env env s c) (model_of s c)) as E.
    by destruct (pull _ _).
  - apply quiet_on_folder. intros c. apply (override_folder_same (core_scan_env env s c)).
  - apply quiet_on_folder. intros c. apply (revert_folder_same (core_scan_env env s c) (core_pull_env env s c)).
  - unfold daemon_on_index, svc_handle_index.
    pose proof (quiet_remote (index_folder i) d (fun cenv folder => handle_index cenv folder d i) s) as E.
    by destruct (handle_remote _ _ _ _ _).
  - unfold daemon_on_index_update, svc_handle_index_update.
    pose proof (quiet_remote (update_folder_id u) d (fun cenv folder => handle_index_update cenv folder d u) s) as E.
    by destruct (handle_remote _ _ _ _ _).
Qed.

(** Both invariants at once. *)
Definition loops_inv s : Prop := service_inv s /\ loops_current s.

Lemma quiet_inv s s' : quiet s s' -> (service_inv s -> service_inv s') /\ (loops_inv s -> loops_inv s').
Proof. intros (E1 & E2 & E3). destruct (same_models_inv s s' E1 E2 E3) as [Hi Hl]. unfold loops_inv. split; tauto. Qed.

Lemma register_inv s s' folder c :
  svc_folders s !! folder_id folder = None -> fc_folder c = folder -> fc_id c = svc_next s ->
  svc_folders s' = <[folder_id folder := c]> (svc_folders s) ->
  svc_tasks s' = svc_tasks s -> svc_next s' = svc_next s + 1 ->
  (service_inv s -> service_inv s') /\ (loops_inv s -> loops_inv s').
Proof.
  intros Hn Hf Hid Ef Et En. assert (service_inv s -> service_inv s') as Hi.
  { intros [Hids Hd Ht]. constructor; rewrite ?Ef, ?Et, ?En.
    - intros fid c'. rewrite lookup_insert_Some. intros [[<- <-]|[_ Hc]]; [rewrite Hf; split; [done|lia]|].
      destruct (Hids fid c' Hc). split; [done|lia].
    - intros f1 f2 c1 c2. rewrite !lookup_insert_Some. intros [[<- <-]|[N1 H1]] [[<- <-]|[N2 H2]] E; [done| | |by eapply Hd].
      + destruct (Hids f2 c2 H2). lia.
      + destruct (Hids f1 c1 H1). lia.
    - intros fid id Hx. specialize (Ht fid id Hx). lia. }
  split; [done|]. intros [Hinv Hl]. split; [by apply Hi|]. intros fid id. rewrite Et. intros (c' & Hc' & <-)%Hl.
  exists c'. split; [|done]. rewrite Ef, lookup_insert_ne; [done|]. intros E. congruence.
Qed.

Lemma add_folder_internal_inv folder s :
  let s' := (add_folder_internal folder s).2 in
  (service_inv s -> service_inv s') /\ (loops_inv s -> loops_inv s').
Proof.
  unfold add_folder_internal. case_decide as Hx; [done|]. apply eq_None_not_Some in Hx.
  destruct (update_folder _ _) as [[[]|e] db]; cbn [snd]; [|by apply quiet_inv].
  set (s0 := set_world s _). set (c := mkFolderCore _ _ _ _ _ _). set (s1 := mkSyncService _ _ _ _ _ _ _ _ _ _ _).
  destruct (register_inv s s1 folder c) as [H1 H2]; [done..|].
  destruct (quiet_inv s1 (store_model s1 (folder_id folder) c (init_state_from_db (model_of s1 c)))) as [H3 H4].
  { apply quiet_store; [apply lookup_insert_eq|]. unfold init_state_from_db. by case_match. }
  tauto.
Qed.

Lemma start_folder_internal_inv fid s :
  let s' := (start_folder_internal fid s).2 in
  (service_inv s -> service_inv s') /\ (loops_inv s -> loops_inv s').
Proof.
  unfold start_folder_internal. destruct (svc_folders s !! fid) as [c|] eqn:Hc; [|done]. case_decide as Ht; [done|].
  cbn. assert (service_inv s -> service_inv (set_tasks s (<[fid := fc_id c]> (svc_tasks s)))) as Hi.
  { intros [Hids Hd Hx]. constructor; cbn; [done|done|]. intros fid' id. rewrite lookup_insert_Some.
    intros [[<- <-]|[_ Hid]]; [by apply (Hids fid c)|by apply (Hx fid' id)]. }
  split; [done|]. intros [Hinv Hl]. split; [by apply Hi|]. intros fid' id. cbn. rewrite lookup_insert_Some.
  intros [[<- <-]|[_ Hid]]; [by exists c|by apply Hl].
Qed.

Lemma subset_tasks_inv s t : t ⊆ svc_tasks s ->
  (service_inv s -> service_inv (set_tasks s t)) /\ (loops_inv s -> loops_inv (set_tasks s t)).
Proof.
  intros Hsub. assert (service_inv s -> service_inv (set_tasks s t)) as Hi.
  { intros [Hids Hd Hx]. constructor; cbn; [done|done|]. intros fid id Ht. by apply (Hx fid id), (lookup_weaken _ _ _ _ Ht). }
  split; [done|]. intros [Hinv Hl]. split; [by apply Hi|]. intros fid id Ht. apply Hl. by apply (lookup_weaken _ _ _ _ Ht).
Qed.

Lemma add_folders_inv fs s :
  let s' := (add_folders fs s).2 in (service_inv s -> service_inv s') /\ (loops_inv s -> loops_inv s').
Proof.
  revert s. induction fs as [|f fs IH]; intros s; cbn [add_folders]; [done|]. unfold se_bind.
  pose proof (add_folder_internal_inv f s) as Ha. destruct (add_folder_internal f s) as [[[]|e] s1]; cbn in *; [|done].
  specialize (IH s1). tauto.
Qed.

Lemma start_loops_inv fids s :
  let s' := fold_left (fun s fid => (start_folder_internal fid s).2) fids s in
  (service_inv s -> service_inv s') /\ (loops_inv s -> loops_inv s').
Proof.
  revert s. induction fids as [|fid fids IH]; intros s; cbn [fold_left]; [done|].
  pose proof (start_folder_internal_inv fid s) as Ha. specialize (IH (start_folder_internal fid s).2). cbn in *. tauto.
Qed.

Definition removes (op : ServiceOp) : bool := match op with OpRemoveFolder _ => true | _ => false end.

Lemma service_step_inv s op :
  (service_inv s -> service_inv (service_step s op)) /\
  (removes op = false -> loops_inv s -> loops_inv (service_step s op)).
Proof.
  destruct (quiet_op op) eqn:Hq.
  { destruct (quiet_inv s (service_step s op)) as [Hi Hl]; [by apply quiet_step|]. tauto. }
  destruct op; try discriminate Hq; cbn [service_step removes].
  - unfold svc_add_folder, se_bind, se_modify. set (s0 := set_svc_config s _).
    assert (quiet s s0) as Hq0 by done. apply quiet_inv in Hq0.
    pose proof (add_folder_internal_inv f s0) as Ha. destruct (add_folder_internal f s0) as [[[]|e] s1]; cbn in *; [|tauto].
    pose proof (start_folder_internal_inv (folder_id f) s1) as Hs.
    destruct (start_folder_internal (folder_id f) s1) as [[[]|e] s2]; cbn in *; [|tauto].
    pose proof (quiet_inv _ _ (quiet_fire s2)). tauto.
  - split; [|done]. intros [Hids Hd Ht]. unfold svc_remove_folder.
    match goal with |- service_inv (fire_renegotiation_hook ?x) => apply (proj1 (quiet_inv x _ (quiet_fire x))) end.
    constructor; cbn.
    + intros fid' c. rewrite lookup_delete_Some. intros [_ Hc]. by apply Hids.
    + intros f1 f2 c1 c2. rewrite !lookup_delete_Some. intros [_ H1] [_ H2]. by apply Hd.
    + done.
  - unfold service_start, se_bind, se_modify, init_folders, start_folder_loops.
    pose proof (add_folders_inv (cfg_folders (svc_config s)) s) as Ha.
    destruct (add_folders _ s) as [[[]|e] s1]; cbn in *; [|tauto].
    pose proof (start_loops_inv ((map_to_list (svc_folders s1)).*1) s1) as Hs. cbn in Hs. tauto.
  - pose proof (subset_tasks_inv s ∅ (map_empty_subseteq _)). unfold service_stop. tauto.
  - pose proof (start_folder_internal_inv fid s) as Hs. cbn in Hs. tauto.
  - unfold stop_folder. case_decide; cbn; [|tauto].
    pose proof (subset_tasks_inv s (base.delete fid (svc_tasks s)) (delete_subseteq _ _)). tauto.
Qed.

Lemma service_run_inv ops s :
  (service_inv s -> service_inv (service_run s ops)) /\
  (Forall (fun op => removes op = false) ops -> loops_inv s -> loops_inv (service_run s ops)).
Proof.
  revert s. induction ops as [|op ops IH]; intros s; [done|]. cbn [service_run fold_left].
  destruct (service_step_inv s op) as [Hi Hl]. destruct (IH (service_step s op)) as [Hi' Hl'].
  split; [tauto|]. intros [Hop Hops]%Forall_cons. tauto.
Qed.

End Loops.

(** ** Folders over a run *)

(** C18: Whatever is configured, connected, scanned, pulled or received, a
    service from which no folder is removed keeps its folders apart and its
    loops right: every running set of loops works on the model that is
    registered for its folder ID, and no two folders share a model. *)
Theorem service_loops_current {DB : Type} `{LocalDatabase DB} env db disk config ops :
  Forall (fun op => removes op = false) ops ->
  loops_inv (service_run (DB := DB) env (svc_with_config (service_new db disk) config) ops).
Proof.
  intros Hops. apply service_run_inv; [done|]. unfold svc_with_config, use_local_id.
  destruct (cfg_local_device_id config); (split; [constructor; intros; done|intros fid id Hid; done]).
Qed.

(** Removing a folder leaves its loops running, and adding it again, with
    another path say, does not start any: the loops found under its ID belong
    to the removed model, so the new one is never scanned or pulled. *)
Theorem readded_folder_not_synced {DB : Type} `{LocalDatabase DB} (s : SyncService DB) folder c db :
  service_inv s -> svc_folders s !! folder_id folder = Some c -> svc_tasks s !! folder_id folder = Some (fc_id c) ->
  update_folder (w_db (svc_world s)) folder = (Ok tt, db) ->
  let s1 := svc_remove_folder s (folder_id folder) in
  let s2 := (svc_add_folder folder s1).2 in
  svc_folders s1 !! folder_id folder = None /\ svc_tasks s1 !! folder_id folder = Some (fc_id c) /\
  exists c', svc_folders s2 !! folder_id folder = Some c' /\ fc_folder c' = folder /\
    svc_tasks s2 !! folder_id folder = Some (fc_id c) /\ fc_id c' <> fc_id c.
Proof.
  intros [Hids _ _] Hc Ht Hu. destruct (Hids _ _ Hc) as [_ Hlt].
  assert (forall s0 : SyncService DB, svc_folders (fire_renegotiation_hook s0) = svc_folders s0 /\
    svc_tasks (fire_renegotiation_hook s0) = svc_tasks s0 /\ svc_world (fire_renegotiation_hook s0) = svc_world s0 /\
    svc_next (fire_renegotiation_hook s0) = svc_next s0) as Hfire.
  { intros s0. unfold fire_renegotiation_hook. by destruct (svc_hook s0 && _). }
  cbn zeta. unfold svc_remove_folder. set (s0 := set_svc_folders _ _). destruct (Hfire s0) as (F1 & F2 & F3 & F4).
  set (s1 := fire_renegotiation_hook s0) in *.
  assert (svc_folders s1 !! folder_id folder = None) as Hn by (rewrite F1; apply lookup_delete_eq).
  assert (svc_tasks s1 !! folder_id folder = Some (fc_id c)) as Ht1 by by rewrite F2.
  split_and!; [done..|]. unfold svc_add_folder, se_bind, se_modify. set (s2 := set_svc_config s1 _).
  unfold add_folder_internal. change (svc_folders s2) with (svc_folders s1). change (svc_world s2) with (svc_world s1).
  rewrite Hn, decide_False by (by intros [? ?]). rewrite F3. change (svc_world s0) with (svc_world s). rewrite Hu.
  set (s3 := set_world s2 _). set (c' := mkFolderCore _ _ _ _ _ _). set (s4 := mkSyncService _ _ _ _ _ _ _ _ _ _ _).
  set (s5 := store_model s4 _ _ _). assert (fm_folder (init_state_from_db (model_of s4 c')) = folder) as Hm.
  { unfold init_state_from_db. by destruct (get_folder_files _ _). }
  assert (exists c2, svc_folders s5 !! folder_id folder = Some c2 /\ fc_folder c2 = folder /\ fc_id c2 = svc_next s) as
    (c2 & H2 & Hf2 & Hid2).
  { eexists. split; [apply lookup_insert_eq|]. cbn. by rewrite Hm. }
  unfold start_folder_internal. rewrite H2. change (svc_tasks s5) with (svc_tasks s1).
  rewrite Ht1, decide_True by done. cbn [snd]. destruct (Hfire s5) as (G1 & G2 & _). exists c2.
  rewrite G1, G2. split_and!; [done|done|done|lia].
Qed.

(** A configuration taken over while the service runs is applied to the
    protocol and not to the folders: a folder it adds is announced to its
    devices, but no model or loop exists for it and the index a device sends for
    it is refused; a folder it drops keeps its model and its loops. *)
Theorem reloaded_folders_not_applied {DB : Type} `{LocalDatabase DB} env (s : SyncService DB) config folder device index :
  folder ∈ cfg_folders config -> device ∈ folder_devices folder -> svc_folders s !! folder_id folder = None ->
  index_folder index = folder_id folder ->
  let s' := svc_update_config s config in
  folder_id folder ∈ (wfo_id <$> cc_folders (daemon_cluster_config s' device)) /\
  svc_folders s' = svc_folders s /\ svc_tasks s' = svc_tasks s /\
  (daemon_on_index env s' device index).1 = None.
Proof.
  intros Hf Hd Hn Hi s'.
  assert (svc_folders s' = svc_folders s /\ svc_tasks s' = svc_tasks s /\ svc_config s' = config) as (Ef & Et & Ec).
  { unfold s', svc_update_config, fire_renegotiation_hook, use_local_id.
    by destruct (cfg_local_device_id config); cbn; destruct (svc_hook s && _). }
  split_and!; [|done|done|].
  - unfold daemon_cluster_config. rewrite Ec. cbn [cc_folders]. rewrite <-list_fmap_compose. apply list_elem_of_fmap.
    exists folder. split; [done|]. apply list_elem_of_filter. done.
  - unfold daemon_on_index, svc_handle_index, handle_remote. by rewrite Ef, Hi, Hn.
Qed.

(** An index update without files tells the service that nothing is needed
    from its device, although every file the device announced before is still
    queued. *)
Theorem completion_forgets_needed {DB : Type} `{LocalDatabaseLaws DB} env (s : SyncService DB) fid c device :
  serves env s fid c ->
  let s' := (svc_handle_index_update env fid device (mkIndexUpdate fid []) s).2 in
  get_folder_completion s' device fid = 0 /\
  (fc_pending <$> svc_folders s' !! fid) = Some (fc_pending c).
Proof.
  intros Hs s'.
  destruct (handle_remote_run env s fid c device
    (fun cenv folder => handle_index_update cenv folder device (mkIndexUpdate fid [])) [] Hs)
    as (s1 & E & _ & _ & _ & Hf & Hp & _).
  { intros cenv w Hr Hw. unfold handle_index_update. rewrite (sv_folder_id _ _ _ _ Hs), decide_True by done.
    by eexists. }
  unfold s', svc_handle_index_update. rewrite E. cbn [snd]. split.
  - unfold get_folder_completion. by rewrite Hp, lookup_insert_eq.
  - by rewrite Hf, lookup_insert_eq.
Qed.

(** ** Witnesses *)

Definition demo_block_env : BlockEnv :=
  mkBlockEnv (fun _ => mkPathBuf true [$"srv"]) Some None demo_open (fun n => n) (fun b => b).

Definition demo_service_env : SyncService MemoryDatabase -> ServiceEnv := fun _ =>
  mkServiceEnv demo_env demo_empty_env (pull_env None) 0 demo_block_env.

(** A service with the folder f registered and running. *)
Definition demo_core : FolderCore := mkFolderCore 0 demo_folder (folder_state_new ($"f")) [] 0 None.

Definition demo_service (f : FileInfo) : SyncService MemoryDatabase :=
  mkSyncService (set_folders config_new [demo_folder]) {[$"f" := demo_core]} (world_with f) ∅ None None true [] ∅
    {[$"f" := 0]} 1.

Definition numbered_local : FileInfo := with_sequence demo_local 1.
Definition numbered_remote : FileInfo := with_sequence demo_remote 2.

Lemma demo_serves f : serves demo_service_env (demo_service f) ($"f") demo_core.
Proof. constructor; [reflexivity|reflexivity|apply world_with_inv|reflexivity]. Qed.

Lemma demo_view_Forall (P : str -> FileInfo -> Prop) f : P (name f) f ->
  map_Forall P (w_files (svc_world (demo_service f)) ($"f")).
Proof.
  intros HP. change (svc_world (demo_service f)) with (world_with f). rewrite world_with_files. by apply map_Forall_singleton.
Qed.

Lemma daemons_converge_witness :
  exists sA' sB',
    agree (w_files (svc_world sA') ($"f") !! ($"a.bin")) (w_files (svc_world sB') ($"f") !! ($"a.bin")) /\
    daemon_on_index demo_service_env (demo_service numbered_local) demo_peer
      (mkIndex ($"f") [on_wire (fun b => b) numbered_remote]) = (Some tt, sA').
Proof.
  destruct (daemons_converge demo_service_env demo_service_env (demo_service numbered_local)
    (demo_service numbered_remote) ($"f") demo_core demo_core demo_device demo_peer)
    as (iA & iB & sA' & sB' & EA & EB & RA & RB & Hn).
  - apply demo_serves.
  - apply demo_serves.
  - apply demo_view_Forall. split; [cbn; lia|vm_compute; reflexivity].
  - apply demo_view_Forall. split; [cbn; lia|vm_compute; reflexivity].
  - exists sA', sB'. split; [apply Hn|]. rewrite <-RA. vm_compute in EB. injection EB as <-. reflexivity.
Defined.

Lemma service_loops_current_witness :
  loops_inv (service_run demo_service_env (svc_with_config (service_new memory_database_new (fun _ => None)) config_new)
    [OpAddFolder demo_folder; OpStop; OpStart]).
Proof. apply service_loops_current. repeat constructor. Defined.

Lemma demo_service_inv f : service_inv (demo_service f).
Proof.
  constructor; cbn.
  - intros fid c [<- <-]%lookup_singleton_Some. split; [done|cbn; lia].
  - intros f1 f2 c1 c2 [<- <-]%lookup_singleton_Some [<- <-]%lookup_singleton_Some. done.
  - intros fid id [<- <-]%lookup_singleton_Some. lia.
Qed.

Definition demo_moved : Folder := folder_new ($"f") ($"/elsewhere").

Lemma readded_folder_not_synced_witness :
  let s2 := (svc_add_folder demo_moved (svc_remove_folder (demo_service demo_local) ($"f"))).2 in
  exists c', svc_folders s2 !! ($"f") = Some c' /\ folder_path (fc_folder c') = $"/elsewhere" /\
    svc_tasks s2 !! ($"f") = Some 0 /\ fc_id c' <> 0.
Proof.
  destruct (readded_folder_not_synced (demo_service demo_local) demo_moved demo_core
    (update_folder (w_db (world_with demo_local)) demo_moved).2) as (_ & _ & c' & Hc & Hf & Ht & Hid).
  - apply demo_service_inv.
  - reflexivity.
  - reflexivity.
  - reflexivity.
  - exists c'. split_and!; [exact Hc|by rewrite Hf|exact Ht|exact Hid].
Defined.

Definition demo_new_folder : Folder := mkFolder ($"g") ($"/g") None SendReceive false 3600 [demo_peer] [] None.

Lemma reloaded_folders_not_applied_witness :
  let s' := svc_update_config (demo_service demo_local) (set_folders config_new [demo_new_folder]) in
  ($"g") ∈ (wfo_id <$> cc_folders (daemon_cluster_config s' demo_peer)) /\ svc_folders s' !! ($"g") = None /\
  svc_tasks s' !! ($"f") = Some 0.
Proof.
  destruct (reloaded_folders_not_applied demo_service_env (demo_service demo_local)
    (set_folders config_new [demo_new_folder]) demo_new_folder demo_peer (mkIndex ($"g") [])) as (H1 & H2 & H3 & _).
  - by left.
  - by left.
  - reflexivity.
  - reflexivity.
  - cbn zeta. rewrite H2, H3. split_and!; [exact H1|reflexivity|reflexivity].
Defined.

Lemma completion_forgets_needed_witness :
  get_folder_completion (svc_handle_index_update demo_service_env ($"f") demo_peer (mkIndexUpdate ($"f") [])
    (set_peer_state (demo_service demo_local) demo_peer ($"f") 5)).2 demo_peer ($"f") = 0.
Proof.
  apply (completion_forgets_needed demo_service_env (set_peer_state (demo_service demo_local) demo_peer ($"f") 5)
    ($"f") demo_core demo_peer).
  constructor; [reflexivity|reflexivity|apply world_with_inv|reflexivity].
Defined.

(** A device the folder is not shared with is told of no folder, but reads its
    blocks and writes its index. *)
Example unshared_device_accepted :
  let s := demo_service demo_local in
  cc_folders (daemon_cluster_config s demo_peer) = [] /\
  daemon_on_block_request demo_service_env s demo_peer (demo_request ($"a")) = Ok [11; 12] /\
  (daemon_on_index demo_service_env s demo_peer (mkIndex ($"f") [demo_remote])).1 = Some tt /\
  w_files (svc_world (daemon_on_index demo_service_env s demo_peer (mkIndex ($"f") [demo_remote])).2) ($"f")
    !! ($"a.bin") = Some demo_remote.
Proof. split_and!; vm_compute; reflexivity. Qed.

(** 29 of 100 files are 28 percent. *)
Example completion_rounds_down :
  completion (mkFolderState ($"f") FolderIdle None None 100 0 0 71 []) = 28.
Proof. vm_compute. reflexivity. Qed.
