(* ===== verification/FsIgnore.v ===== *)
(** * Ignore patterns of the file system layer

    [crates/syncthing-fs/src/ignore/mod.rs]: the parser of [.stignore] files
    with their include directives, the compiler from glob patterns to regular
    expressions, last-match-wins matching and its cache.

    A Rust string is the list of its chars here, a char its code point.  The
    regex crate is a parameter: what is used of it is its documented reading of
    the fragments the compiler emits ([RegexLaws]); an executable instance for
    them is at the end.  Paths are those of Unix. *)

From S2P Require Import Prelude.

Abbreviation text := (list Z).

Definition txt (s : str) : text := (fun a => Z.of_nat (Ascii.nat_of_ascii a)) <$> s.
Notation "'tx' s" := (txt (lit s%string)) (at level 1, s constr at level 0, format "'tx' s") : rust_scope.

Definition ch_slash : Z := 47.
Definition ch_star : Z := 42.
Definition ch_question : Z := 63.
Definition ch_dot : Z := 46.
Definition ch_backslash : Z := 92.
Definition ch_newline : Z := 10.
Definition ch_return : Z := 13.

(** ** Strings of the standard library *)

Fixpoint t_strip_prefix (p s : text) : option text :=
  match p, s with
  | [], _ => Some s
  | c :: p', d :: s' => if decide (c = d) then t_strip_prefix p' s' else None
  | _, _ => None
  end.

Definition t_starts_with (p s : text) : bool := bool_decide (is_Some (t_strip_prefix p s)).

(** [char::is_whitespace] *)
Definition is_whitespace (c : Z) : bool :=
  bool_decide (c ∈ [9; 10; 11; 12; 13; 32; 133; 160; 5760; 8192; 8193; 8194; 8195; 8196; 8197; 8198; 8199; 8200;
                    8201; 8202; 8232; 8233; 8239; 8287; 12288]).

Fixpoint trim_start (s : text) : text :=
  match s with
  | c :: s' => if is_whitespace c then trim_start s' else s
  | [] => []
  end.

Definition t_trim (s : text) : text := reverse (trim_start (reverse (trim_start s))).

(** The pieces between the occurrences of [c]. *)
Fixpoint t_split (c : Z) (s : text) : list text :=
  match s with
  | [] => [[]]
  | d :: s' => if decide (d = c) then [] :: t_split c s'
               else match t_split c s' with p :: ps => (d :: p) :: ps | [] => [[d]] end
  end.

(** [str::lines] *)
Definition drop_return (l : text) : text :=
  match last l with Some c => if decide (c = ch_return) then take (length l - 1) l else l | None => l end.

Definition t_lines (content : text) : list text :=
  let ls := t_split ch_newline content in
  drop_return <$> match last ls with Some [] => take (length ls - 1) ls | _ => ls end.

(** ** Paths *)

Definition is_absolute (p : text) : bool := t_starts_with (tx"/") p.

(** What [PathBuf] compares: whether it is absolute and its components. *)
Definition path_key (p : text) : bool * list text :=
  let cs := filter (fun c => c <> []) (t_split ch_slash p) in
  (is_absolute p,
   match cs with
   | c :: rest => if decide (c = tx"." /\ is_absolute p = false) then c :: filter (fun d => d <> tx".") rest
                  else filter (fun d => d <> tx".") cs
   | [] => []
   end).

Definition t_join (base p : text) : text :=
  if is_absolute p then p
  else match last base with
       | None => p
       | Some c => if decide (c = ch_slash) then base ++ p else base ++ [ch_slash] ++ p
       end.

(** [path.parent().unwrap_or("")] of a path that names a file. *)
Fixpoint t_parent_acc (acc s : text) (best : option text) : option text :=
  match s with
  | [] => best
  | c :: s' => t_parent_acc (acc ++ [c]) s' (if decide (c = ch_slash) then Some acc else best)
  end.

Definition t_parent (p : text) : text :=
  match t_parent_acc [] p None with
  | Some [] => tx"/"
  | Some d => d
  | None => []
  end.

(** ** Regular expressions *)

Class RegexCrate := {
  Regex : Type;
  regex_new : text -> option Regex;
  is_match : Regex -> text -> bool;
  case_fold : Z -> Z;
}.

(** ** Patterns *)

Record Pattern `{RegexCrate} := mkPattern {
  pt_pattern : text;
  pt_is_include : bool;
  pt_is_directory : bool;
  pt_is_root_only : bool;
  pt_case_insensitive : bool;
  pt_allow_delete : bool;
  pt_regex : Regex;
}.

(** The prefixes; each flag doubles as the mark that it was seen.  At most
    three of them are taken. *)
Fixpoint parse_flags (fuel : nat) (line : text) (inc ci del : bool) : text * bool * bool * bool :=
  match fuel with
  | O => (line, inc, ci, del)
  | S fuel' =>
      if t_starts_with (tx"!") line && negb inc then parse_flags fuel' (drop 1 line) true ci del
      else if t_starts_with (tx"(?i)") line && negb ci then parse_flags fuel' (drop 4 line) inc true del
      else if t_starts_with (tx"(?d)") line && negb del then parse_flags fuel' (drop 4 line) inc ci true
      else (line, inc, ci, del)
  end.

(** The loop that takes backslashes out. *)
Fixpoint unescape (cs : text) : text :=
  match cs with
  | [] => []
  | c :: rest =>
      if decide (c = ch_backslash) then
        match rest with
        | n :: rest' => n :: unescape rest'
        | [] => []
        end
      else c :: unescape rest
  end.

Definition strip_root (line : text) : bool * text :=
  match line with
  | c :: rest =>
      if decide (c = ch_slash) then
        (true, match rest with d :: rest' => if decide (d = ch_slash) then rest' else rest | [] => [] end)
      else (false, line)
  | [] => (false, [])
  end.

Definition strip_directory (p : text) : bool * text :=
  match last p with
  | Some c => if decide (c = ch_slash) then (true, take (length p - 1) p) else (false, p)
  | None => (false, p)
  end.

(** The chars that get a backslash, apart from the dot. *)
Definition regex_special (c : Z) : bool := bool_decide (c ∈ tx"+()|^${}[]").

Fixpoint glob_text (cs : text) : text :=
  match cs with
  | [] => []
  | c :: rest =>
      if decide (c = ch_star) then
        match rest with
        | d :: rest2 =>
            if decide (d = ch_star) then
              match rest2 with
              | e :: rest3 => if decide (e = ch_slash) then tx"(?:.*/)*" ++ glob_text rest3 else tx".*" ++ glob_text rest2
              | [] => tx".*"
              end
            else tx"[^/]*" ++ glob_text rest
        | [] => tx"[^/]*"
        end
      else if decide (c = ch_question) then tx"[^/]" ++ glob_text rest
      else if decide (c = ch_dot) then tx"\." ++ glob_text rest
      else if regex_special c then ch_backslash :: c :: glob_text rest
      else c :: glob_text rest
  end.

Definition regex_text (pattern : text) (root_only directory case_insensitive : bool) : text :=
  (if case_insensitive then tx"(?i)" else []) ++ tx"^" ++ (if root_only then [] else tx"(?:.*/)?") ++
  glob_text pattern ++ (if directory then tx"(?:/.*)?" else []) ++ tx"$".

Section Patterns.
Context `{RegexCrate}.

Definition compile_regex (pattern : text) (root_only directory case_insensitive : bool) : option Regex :=
  regex_new (regex_text pattern root_only directory case_insensitive).

(** [Pattern::parse]; [None] for its errors. *)
Definition pattern_parse (pattern : text) : option Pattern :=
  let '(line, inc, ci, del) := parse_flags 4 pattern false false false in
  if decide (line = []) then None
  else
    let '(root_only, line) := strip_root line in
    let '(directory, p) := strip_directory (unescape line) in
    let+ re := compile_regex p root_only directory ci in
    Some (mkPattern _ p inc directory root_only ci del re).

Definition pattern_matches (p : Pattern) (path : text) : bool := is_match (pt_regex p) path.

(** ** Ignore files *)

Record IgnorePatterns := mkIgnorePatterns {
  ip_patterns : list Pattern;
  ip_has_includes : bool;
  ip_includes : list text;
  ip_cache : option (gmap (bool * list text) bool);
}.

Definition ignore_new : IgnorePatterns := mkIgnorePatterns [] false [] None.

Definition push_pattern (ps : IgnorePatterns) (p : Pattern) : IgnorePatterns :=
  mkIgnorePatterns (ip_patterns ps ++ [p]) (ip_has_includes ps || pt_is_include p) (ip_includes ps) (ip_cache ps).

(** [split_once(' ')] on a line that starts with the directive. *)
Definition include_of (line : text) : option text :=
  let file := t_trim (drop 9 line) in
  if decide (file = []) then None else Some file.

Definition parse_line (ps : IgnorePatterns) (line : text) : IgnorePatterns :=
  let trimmed := t_trim line in
  if decide (trimmed = []) then ps
  else if t_starts_with (tx"#include ") trimmed || t_starts_with (tx"@include ") trimmed then
    match include_of trimmed with
    | Some file => mkIgnorePatterns (ip_patterns ps) (ip_has_includes ps) (ip_includes ps ++ [file]) (ip_cache ps)
    | None => ps
    end
  else if t_starts_with (tx"#") trimmed then ps
  else match pattern_parse trimmed with
       | Some p => push_pattern ps p
       | None => ps
       end.

Definition ignore_parse (content : text) : IgnorePatterns := fold_left parse_line (t_lines content) ignore_new.

(** ** Include files

    [read] is the file system; the recursion of [load_includes] has fuel:
    [None] when it runs out, otherwise the result, [None] for a file that
    cannot be read. *)
Section Includes.
Context (read : text -> option text).

Definition resolve_include (base include_path : text) : text :=
  if is_absolute include_path then include_path else t_join base include_path.

Definition extend_patterns (ps included : IgnorePatterns) : IgnorePatterns :=
  mkIgnorePatterns (ip_patterns ps ++ ip_patterns included) (ip_has_includes ps || ip_has_includes included)
    (ip_includes ps) (ip_cache ps).

Abbreviation LoadState := (IgnorePatterns * gset (bool * list text))%type.

Fixpoint load_includes (fuel : nat) (path : text) (st : LoadState) : option (option LoadState) :=
  match fuel with
  | O => None
  | S fuel' =>
      let '(ps, loaded) := st in
      if decide (path_key path ∈ loaded) then Some (Some st)
      else
        match read path with
        | None => Some None
        | Some content =>
            let included := ignore_parse content in
            foldl (fun (r : option (option LoadState)) include_path =>
                match r with
                | Some (Some st) => load_includes fuel' (resolve_include (t_parent path) include_path) st
                | _ => r
                end)
              (Some (Some (extend_patterns ps included, {[path_key path]} ∪ loaded))) (ip_includes included)
        end
  end.

Definition from_file (fuel : nat) (path : text) : option (option IgnorePatterns) :=
  match read path with
  | None => Some None
  | Some content =>
      let ps := ignore_parse content in
      fmap (M := option) (fmap (M := option) fst)
      (foldl (fun (r : option (option LoadState)) include_path =>
          match r with
          | Some (Some st) => load_includes fuel (resolve_include (t_parent path) include_path) st
          | _ => r
          end) (Some (Some (ps, {[path_key path]}))) (ip_includes ps))
  end.

End Includes.

(** ** Matching *)

(** [to_string_lossy().replace('\\', "/")] *)
Definition normalize_separators (path : text) : text :=
  (fun c => if decide (c = ch_backslash) then ch_slash else c) <$> path.

Definition is_ignored_str (ps : IgnorePatterns) (path : text) : bool :=
  fold_left (fun ignored p => if pattern_matches p path then negb (pt_is_include p) else ignored)
    (ip_patterns ps) false.

Definition is_ignored (ps : IgnorePatterns) (path : text) : bool := is_ignored_str ps (normalize_separators path).

Definition cache_get (ps : IgnorePatterns) (path : text) : option bool :=
  let+ cache := ip_cache ps in cache !! path_key path.

Definition with_cache (ps : IgnorePatterns) (c : option (gmap (bool * list text) bool)) : IgnorePatterns :=
  mkIgnorePatterns (ip_patterns ps) (ip_has_includes ps) (ip_includes ps) c.

Definition is_ignored_cached (ps : IgnorePatterns) (path : text) : bool * IgnorePatterns :=
  match cache_get ps path with
  | Some result => (result, ps)
  | None =>
      let result := is_ignored ps path in
      (result, with_cache ps (Some (<[path_key path := result]> (default ∅ (ip_cache ps)))))
  end.

Definition clear_cache (ps : IgnorePatterns) : IgnorePatterns := with_cache ps ((fun _ => ∅) <$> ip_cache ps).

Definition is_included (ps : IgnorePatterns) (path : text) : bool :=
  ip_has_includes ps &&
  existsb (fun p => pt_is_include p && pattern_matches p (normalize_separators path)) (ip_patterns ps).

Definition add_pattern (ps : IgnorePatterns) (pattern : text) : option IgnorePatterns :=
  push_pattern ps <$> pattern_parse pattern.

Definition allows_skipping_ignored_dirs (ps : IgnorePatterns) : bool :=
  negb (existsb (fun p => pt_is_include p || pt_allow_delete p) (ip_patterns ps)).

(** The raw string, line by line. *)
Definition default_ignore_text : text :=
  concat ((fun l => l ++ [ch_newline]) <$>
    [[]; tx"# Syncthing's own files"; tx".stfolder"; tx".stignore"; tx".stversions"; [];
     tx"# OS generated files"; tx".DS_Store"; tx".DS_Store?"; tx"._*"; tx".Spotlight-V100"; tx".Trashes";
     tx"ehthumbs.db"; tx"Thumbs.db"; tx"desktop.ini"; [];
     tx"# Editor backup files"; tx"*~"; tx"*.swp"; tx"*.swo"; tx"*.bak"; tx"*.orig"; [];
     tx"# Temporary files"; tx"*.tmp"; tx"*.temp"; tx"*.part"; tx"*.crdownload"]).

Definition default_ignore_patterns : IgnorePatterns := ignore_parse default_ignore_text.

End Patterns.

(** ** The fragments of regular expressions *)

Inductive Tok := KDirOpt | KDirs | KAll | KStar | KOne | KLit (c : Z) | KBelow.

#[global] Instance Tok_eq_dec : EqDecision Tok.
Proof. solve_decision. Defined.

Definition render_tok (k : Tok) : text :=
  match k with
  | KDirOpt => tx"(?:.*/)?"
  | KDirs => tx"(?:.*/)*"
  | KAll => tx".*"
  | KStar => tx"[^/]*"
  | KOne => tx"[^/]"
  | KLit c => if decide (c = ch_dot) then tx"\." else if regex_special c then [ch_backslash; c] else [c]
  | KBelow => tx"(?:/.*)?"
  end.

Definition render (ks : list Tok) : text := concat (render_tok <$> ks).

Definition render_re (ci : bool) (ks : list Tok) : text := (if ci then tx"(?i)" else []) ++ tx"^" ++ render ks ++ tx"$".

(** A literal that is not an operator by itself. *)
Definition tok_ok (k : Tok) : Prop :=
  match k with KLit c => c <> ch_star /\ c <> ch_question /\ c <> ch_backslash | _ => True end.

#[global] Instance tok_ok_dec k : Decision (tok_ok k).
Proof. destruct k; simpl; apply _. Defined.

Definition no_newline (t : text) : Prop := ch_newline ∉ t.

(** The documented reading: [.] is any char but a newline, [[^/]] any char but
    a slash. *)
Definition tok_lang (eqc : Z -> Z -> Prop) (k : Tok) (t : text) : Prop :=
  match k with
  | KDirOpt => t = [] \/ exists d, t = d ++ [ch_slash] /\ no_newline d
  | KDirs => exists ds, t = concat ((fun d => d ++ [ch_slash]) <$> ds) /\ Forall no_newline ds
  | KAll => no_newline t
  | KStar => ch_slash ∉ t
  | KOne => exists x, t = [x] /\ x <> ch_slash
  | KLit c => exists x, t = [x] /\ eqc c x
  | KBelow => t = [] \/ exists d, t = ch_slash :: d /\ no_newline d
  end.

Fixpoint toks_lang (eqc : Z -> Z -> Prop) (ks : list Tok) (t : text) : Prop :=
  match ks with
  | [] => t = []
  | k :: ks => exists u v, t = u ++ v /\ tok_lang eqc k u /\ toks_lang eqc ks v
  end.

Definition char_eq `{RegexCrate} (ci : bool) (c x : Z) : Prop :=
  if ci then case_fold c = case_fold x else c = x.

(** What the compiler relies on: an expression that is accepted, made of these
    fragments between [^] and [$], matches the texts of its language. *)
Class RegexLaws `{RegexCrate} := {
  law_is_match : forall ci ks re t, Forall tok_ok ks -> regex_new (render_re ci ks) = Some re ->
    is_match re t = true <-> toks_lang (char_eq ci) ks t;
}.

(** ** The compiler emits these fragments *)

Fixpoint glob_toks (cs : text) : list Tok :=
  match cs with
  | [] => []
  | c :: rest =>
      if decide (c = ch_star) then
        match rest with
        | d :: rest2 =>
            if decide (d = ch_star) then
              match rest2 with
              | e :: rest3 => if decide (e = ch_slash) then KDirs :: glob_toks rest3 else KAll :: glob_toks rest2
              | [] => [KAll]
              end
            else KStar :: glob_toks rest
        | [] => [KStar]
        end
      else if decide (c = ch_question) then KOne :: glob_toks rest
      else KLit c :: glob_toks rest
  end.

(** Induction over a pattern as the compiler reads it. *)
Lemma glob_rect (P : text -> Prop) :
  P [] ->
  (forall p, P p -> P (ch_star :: ch_star :: ch_slash :: p)) ->
  (forall p, head p <> Some ch_slash -> P p -> P (ch_star :: ch_star :: p)) ->
  (forall p, head p <> Some ch_star -> P p -> P (ch_star :: p)) ->
  (forall p, P p -> P (ch_question :: p)) ->
  (forall c p, c <> ch_star -> c <> ch_question -> P p -> P (c :: p)) ->
  forall p, P p.
Proof.
  intros Hnil Hdirs Hall Hstar Hone Hlit p. remember (length p) as n eqn:Hn. revert p Hn.
  induction (lt_wf n) as [n _ IH]. intros p ->.
  assert (forall q, (length q < length p)%nat -> P q) as Hq by (intros q Hl; by apply (IH (length q))). clear IH.
  destruct p as [|c p]; [done|]. destruct (decide (c = ch_star)) as [->|Hc].
  - destruct p as [|d p]; [apply Hstar; [done|apply Hq; cbn; lia]|].
    destruct (decide (d = ch_star)) as [->|Hd].
    + destruct p as [|e p]; [apply Hall; [done|apply Hq; cbn; lia]|].
      destruct (decide (e = ch_slash)) as [->|He]; [apply Hdirs, Hq; cbn; lia|].
      apply Hall; [cbn; congruence|apply Hq; cbn; lia].
    + apply Hstar; [cbn; congruence|apply Hq; cbn; lia].
  - destruct (decide (c = ch_question)) as [->|Hc2]; [apply Hone, Hq; cbn; lia|].
    apply Hlit; [done|done|apply Hq; cbn; lia].
Qed.

(** The equations of a function that reads a pattern this way. *)
Lemma glob_toks_all p : head p <> Some ch_slash -> glob_toks (ch_star :: ch_star :: p) = KAll :: glob_toks p.
Proof.
  destruct p as [|e p]; [done|]. intros He. assert (e <> ch_slash) by (intros ->; done). cbn [glob_toks].
  by rewrite !(decide_True (P := ch_star = ch_star)), (decide_False (P := e = ch_slash)).
Qed.

Lemma glob_toks_star p : head p <> Some ch_star -> glob_toks (ch_star :: p) = KStar :: glob_toks p.
Proof.
  destruct p as [|d p]; [done|]. intros Hd. assert (d <> ch_star) by (intros ->; done). cbn [glob_toks].
  by rewrite (decide_True (P := ch_star = ch_star)), (decide_False (P := d = ch_star)).
Qed.

Lemma glob_toks_lit c p : c <> ch_star -> c <> ch_question -> glob_toks (c :: p) = KLit c :: glob_toks p.
Proof. intros H1 H2. cbn. by rewrite !decide_False by done. Qed.

Lemma glob_text_all p : head p <> Some ch_slash -> glob_text (ch_star :: ch_star :: p) = tx".*" ++ glob_text p.
Proof.
  destruct p as [|e p]; [done|]. intros He. assert (e <> ch_slash) by (intros ->; done). cbn [glob_text].
  by rewrite !(decide_True (P := ch_star = ch_star)), (decide_False (P := e = ch_slash)).
Qed.

Lemma glob_text_star p : head p <> Some ch_star -> glob_text (ch_star :: p) = tx"[^/]*" ++ glob_text p.
Proof.
  destruct p as [|d p]; [done|]. intros Hd. assert (d <> ch_star) by (intros ->; done). cbn [glob_text].
  by rewrite (decide_True (P := ch_star = ch_star)), (decide_False (P := d = ch_star)).
Qed.

Lemma glob_text_render cs : glob_text cs = render (glob_toks cs).
Proof.
  induction cs as [|p IH|p Hh IH|p Hh IH|p IH|c p H1 H2 IH] using glob_rect.
  - done.
  - change (tx"(?:.*/)*" ++ glob_text p = tx"(?:.*/)*" ++ render (glob_toks p)). by rewrite IH.
  - rewrite glob_text_all, glob_toks_all by done. change (tx".*" ++ glob_text p = tx".*" ++ render (glob_toks p)). by rewrite IH.
  - rewrite glob_text_star, glob_toks_star by done. change (tx"[^/]*" ++ glob_text p = tx"[^/]*" ++ render (glob_toks p)). by rewrite IH.
  - change (tx"[^/]" ++ glob_text p = tx"[^/]" ++ render (glob_toks p)). by rewrite IH.
  - rewrite glob_toks_lit by done. change (render (KLit c :: glob_toks p)) with (render_tok (KLit c) ++ render (glob_toks p)).
    rewrite <-IH. cbn [glob_text render_tok]. rewrite !(decide_False (P := c = _)) by done. case_decide; [done|].
    by destruct (regex_special c).
Qed.

Lemma glob_toks_ok cs : ch_backslash ∉ cs -> Forall tok_ok (glob_toks cs).
Proof.
  induction cs as [|p IH|p Hh IH|p Hh IH|p IH|c p H1 H2 IH] using glob_rect; intros Hb.
  - constructor.
  - constructor; [done|]. apply IH. set_solver.
  - rewrite glob_toks_all by done. constructor; [done|]. apply IH. set_solver.
  - rewrite glob_toks_star by done. constructor; [done|]. apply IH. set_solver.
  - constructor; [done|]. apply IH. set_solver.
  - rewrite glob_toks_lit by done. constructor; [|apply IH; set_solver]. split_and!; [done|done|]. intros ->. set_solver.
Qed.

Definition regex_toks (pattern : text) (root_only directory : bool) : list Tok :=
  (if root_only then [] else [KDirOpt]) ++ glob_toks pattern ++ (if directory then [KBelow] else []).

Lemma render_app a b : render (a ++ b) = render a ++ render b.
Proof. unfold render. by rewrite fmap_app, concat_app. Qed.

Lemma regex_text_render pattern root_only directory ci :
  regex_text pattern root_only directory ci = render_re ci (regex_toks pattern root_only directory).
Proof.
  unfold regex_text, render_re, regex_toks. rewrite !render_app, glob_text_render, <-!app_assoc.
  by destruct root_only, directory.
Qed.

(** ** What a pattern means *)

(** A directory prefix: nothing, or a text that ends with a slash. *)
Definition dir_prefix (t : text) : Prop := t = [] \/ exists d, t = d ++ [ch_slash] /\ no_newline d.

Definition below (t : text) : Prop := t = [] \/ exists d, t = ch_slash :: d /\ no_newline d.

(** The glob language: [**/] is any directory prefix, [**] any text, [*] a text
    without slash, [?] a char other than a slash. *)
Inductive globs (eqc : Z -> Z -> Prop) : text -> text -> Prop :=
| globs_nil : globs eqc [] []
| globs_dirs p u t : dir_prefix u -> globs eqc p t -> globs eqc (ch_star :: ch_star :: ch_slash :: p) (u ++ t)
| globs_all p u t : head p <> Some ch_slash -> no_newline u -> globs eqc p t ->
    globs eqc (ch_star :: ch_star :: p) (u ++ t)
| globs_star p u t : head p <> Some ch_star -> ch_slash ∉ u -> globs eqc p t -> globs eqc (ch_star :: p) (u ++ t)
| globs_one p x t : x <> ch_slash -> globs eqc p t -> globs eqc (ch_question :: p) (x :: t)
| globs_lit c p x t : c <> ch_star -> c <> ch_question -> eqc c x -> globs eqc p t -> globs eqc (c :: p) (x :: t).

Lemma dirs_lang eqc t : tok_lang eqc KDirs t <-> dir_prefix t.
Proof.
  cbn. split.
  - intros (ds & -> & Hds). destruct ds as [|d ds] using rev_ind; [by left|]. right. apply Forall_app in Hds as [Hds Hd].
    exists (concat ((fun d => d ++ [ch_slash]) <$> ds) ++ d). split; [by rewrite fmap_app, concat_app; cbn; rewrite app_nil_r, app_assoc|].
    rewrite Forall_singleton in Hd. unfold no_newline in *. rewrite elem_of_app. intros [Hin|Hin]; [|by apply Hd].
    clear IHds. induction Hds as [|e ds He _ IH]; [by apply elem_of_nil in Hin|]. cbn in Hin.
    rewrite !elem_of_app, list_elem_of_singleton in Hin. destruct Hin as [[Hin|E]|Hin]; [by apply He|by compute in E|by apply IH].
  - intros [->|(d & -> & Hd)]; [by exists []|]. exists [d]. cbn. rewrite app_nil_r. split; [done|by constructor].
Qed.

Lemma toks_lang_app eqc a b t : toks_lang eqc (a ++ b) t <-> exists u v, t = u ++ v /\ toks_lang eqc a u /\ toks_lang eqc b v.
Proof.
  revert t. induction a as [|k a IH]; intros t; cbn.
  - split; [intros Hb; by exists [], t|]. by intros (u & v & -> & -> & Hb).
  - split.
    + intros (u & v & -> & Hk & (u' & v' & -> & Ha & Hb)%IH). exists (u ++ u'), v'. rewrite app_assoc.
      split; [done|]. split; [by exists u, u'|done].
    + intros (u & v & -> & (u1 & u2 & -> & Hk & Ha) & Hb). exists u1, (u2 ++ v). rewrite app_assoc.
      split; [done|]. split; [done|]. apply IH. by exists u2, v.
Qed.

Lemma toks_lang_one eqc k t : toks_lang eqc [k] t <-> tok_lang eqc k t.
Proof.
  cbn. split; [intros (u & v & -> & Hk & ->); by rewrite app_nil_r|]. intros Hk. exists t, []. by rewrite app_nil_r.
Qed.

Lemma glob_toks_lang eqc p t : toks_lang eqc (glob_toks p) t <-> globs eqc p t.
Proof.
  revert t. induction p as [|p IH|p Hh IH|p Hh IH|p IH|c p H1 H2 IH] using glob_rect; intros t.
  - cbn. split; [intros ->; constructor|]. by inversion 1.
  - change (glob_toks (ch_star :: ch_star :: ch_slash :: p)) with (KDirs :: glob_toks p).
    cbn [toks_lang]. setoid_rewrite dirs_lang. setoid_rewrite IH. split.
    + intros (u & v & -> & Hu & Hv). by constructor.
    + inversion 1; subst; [by eexists _, _|cbn in *; congruence..|done].
  - rewrite glob_toks_all by done. cbn [toks_lang]. setoid_rewrite IH. split.
    + intros (u & v & -> & Hu & Hv). by constructor.
    + inversion 1; subst; [cbn in *; congruence|by eexists _, _|cbn in *; congruence|done].
  - rewrite glob_toks_star by done. cbn [toks_lang]. setoid_rewrite IH. split.
    + intros (u & v & -> & Hu & Hv). by constructor.
    + inversion 1; subst; [cbn in *; congruence..|by eexists _, _|done].
  - change (glob_toks (ch_question :: p)) with (KOne :: glob_toks p). cbn [toks_lang]. setoid_rewrite IH. split.
    + intros (u & v & -> & (x & -> & Hx) & Hv). by constructor.
    + inversion 1; subst; [|done]. eexists [_], _. split; [done|]. split; [by eexists|done].
  - rewrite glob_toks_lit by done. cbn [toks_lang]. setoid_rewrite IH. split.
    + intros (u & v & -> & (x & -> & Hx) & Hv). by constructor.
    + inversion 1; subst; try done. eexists [_], _. split; [done|]. split; [by eexists|done].
Qed.

(** ** Patterns and ignore files *)

(** How a line without backslash is written: marks, each at most once, one or
    two slashes if the pattern is anchored, the pattern, and a slash if it
    means a directory. *)
Definition written_as `{RegexCrate} (line : text) (p : Pattern) : Prop :=
  exists marks slashes,
    line = concat marks ++ slashes ++ pt_pattern p ++ (if pt_is_directory p then tx"/" else []) /\
    NoDup marks /\ marks ⊆ [tx"!"; tx"(?i)"; tx"(?d)"] /\
    (pt_is_include p = true <-> tx"!" ∈ marks) /\
    (pt_case_insensitive p = true <-> tx"(?i)" ∈ marks) /\
    (pt_allow_delete p = true <-> tx"(?d)" ∈ marks) /\
    (if pt_is_root_only p then slashes = tx"/" \/ slashes = tx"//"
     else slashes = [] /\ head (pt_pattern p) <> Some ch_slash) /\
    (pt_is_directory p = false -> last (pt_pattern p) <> Some ch_slash).

Lemma unescape_plain a b : ch_backslash ∉ a -> unescape (a ++ b) = a ++ unescape b.
Proof.
  induction a as [|c a IH]; intros Ha; [done|]. cbn [app unescape]. rewrite decide_False by set_solver.
  rewrite IH by set_solver. done.
Qed.

Lemma starts_with_drop p s : t_starts_with p s = true -> s = p ++ drop (length p) s.
Proof.
  unfold t_starts_with. rewrite bool_decide_eq_true. revert s. induction p as [|c p IH]; intros s; [done|].
  destruct s as [|d s]; cbn; [by intros []|]. destruct (decide (c = d)) as [->|]; [|by intros []]. intros Hs. by rewrite <-(IH s Hs).
Qed.

(** The mark [m] is taken from [marks] iff its flag changes from [b] to [b']. *)
Definition mark_taken (m : text) (marks : list text) (b b' : bool) : Prop :=
  (b' = true <-> b = true \/ m ∈ marks) /\ (b = true -> m ∉ marks).

Lemma mark_taken_none m b : mark_taken m [] b b.
Proof. split; set_solver. Qed.

Lemma mark_taken_here m marks b' : mark_taken m marks true b' -> mark_taken m (m :: marks) false b'.
Proof. intros [H1 H2]. split; [|done]. rewrite elem_of_cons. tauto. Qed.

Lemma mark_taken_other m n marks b b' : m <> n -> mark_taken m marks b b' -> mark_taken m (n :: marks) b b'.
Proof. intros Hn [H1 H2]. split; rewrite elem_of_cons; tauto. Qed.

(** The marks taken are new ones. *)
Lemma parse_flags_written fuel line inc ci del :
  let '(l, inc', ci', del') := parse_flags fuel line inc ci del in
  exists marks, line = concat marks ++ l /\ NoDup marks /\ marks ⊆ [tx"!"; tx"(?i)"; tx"(?d)"] /\
    mark_taken (tx"!") marks inc inc' /\ mark_taken (tx"(?i)") marks ci ci' /\ mark_taken (tx"(?d)") marks del del'.
Proof.
  assert (forall line l m marks, line = m ++ l -> NoDup marks -> marks ⊆ [tx"!"; tx"(?i)"; tx"(?d)"] -> m ∉ marks ->
    m ∈ [tx"!"; tx"(?i)"; tx"(?d)"] -> forall r, l = concat marks ++ r ->
    line = concat (m :: marks) ++ r /\ NoDup (m :: marks) /\ m :: marks ⊆ [tx"!"; tx"(?i)"; tx"(?d)"]) as Hcons.
  { intros ln l m marks -> Hnd Hsub Hm Hin r ->. cbn [concat]. rewrite app_assoc. split_and!; [done|by constructor|].
    intros x [->|Hx]%elem_of_cons; [done|by apply Hsub]. }
  revert line inc ci del. induction fuel as [|fuel IH]; intros line inc ci del; cbn [parse_flags];
    [exists []; split_and!; [done|constructor|set_solver|apply mark_taken_none..]|].
  destruct (t_starts_with (tx"!") line && negb inc) eqn:E1; [|destruct (t_starts_with (tx"(?i)") line && negb ci) eqn:E2;
    [|destruct (t_starts_with (tx"(?d)") line && negb del) eqn:E3;
      [|exists []; split_and!; [done|constructor|set_solver|apply mark_taken_none..]]]].
  - apply andb_prop in E1 as [Es%starts_with_drop ->%negb_true_iff]. cbn [length] in Es. specialize (IH (drop 1 line) true ci del).
    destruct (parse_flags fuel (drop 1 line) true ci del) as [[[l i'] c'] d'].
    destruct IH as (marks & El & Hnd & Hsub & Hi & Hc & Hd). exists (tx"!" :: marks).
    destruct (Hcons line (drop 1 line) (tx"!") marks Es Hnd Hsub (proj2 Hi eq_refl) ltac:(set_solver) l El) as (? & ? & ?).
    split_and!; [done..|by apply mark_taken_here|by apply mark_taken_other|by apply mark_taken_other].
  - apply andb_prop in E2 as [Es%starts_with_drop ->%negb_true_iff]. cbn [length] in Es. specialize (IH (drop 4 line) inc true del).
    destruct (parse_flags fuel (drop 4 line) inc true del) as [[[l i'] c'] d'].
    destruct IH as (marks & El & Hnd & Hsub & Hi & Hc & Hd). exists (tx"(?i)" :: marks).
    destruct (Hcons line (drop 4 line) (tx"(?i)") marks Es Hnd Hsub (proj2 Hc eq_refl) ltac:(set_solver) l El) as (? & ? & ?).
    split_and!; [done..|by apply mark_taken_other|by apply mark_taken_here|by apply mark_taken_other].
  - apply andb_prop in E3 as [Es%starts_with_drop ->%negb_true_iff]. cbn [length] in Es. specialize (IH (drop 4 line) inc ci true).
    destruct (parse_flags fuel (drop 4 line) inc ci true) as [[[l i'] c'] d'].
    destruct IH as (marks & El & Hnd & Hsub & Hi & Hc & Hd). exists (tx"(?d)" :: marks).
    destruct (Hcons line (drop 4 line) (tx"(?d)") marks Es Hnd Hsub (proj2 Hd eq_refl) ltac:(set_solver) l El) as (? & ? & ?).
    split_and!; [done..|by apply mark_taken_other|by apply mark_taken_other|by apply mark_taken_here].
Qed.

Lemma strip_root_written l root l1 : strip_root l = (root, l1) -> exists slashes, l = slashes ++ l1 /\
  (if root then slashes = tx"/" \/ slashes = tx"//" else slashes = [] /\ head l1 <> Some ch_slash).
Proof.
  destruct l as [|c l]; cbn; [intros [= <- <-]; by exists []|]. case_decide as E; intros [= <- <-]; [subst c|exists []; split_and!; [done|done|cbn; congruence]].
  destruct l as [|d l]; [exists (tx"/"); auto|]. case_decide as Ed; [subst d; exists (tx"//"); auto|exists (tx"/"); auto].
Qed.

Lemma strip_directory_written q dir p : strip_directory q = (dir, p) ->
  q = p ++ (if dir then tx"/" else []) /\ (dir = false -> last p <> Some ch_slash).
Proof.
  unfold strip_directory. destruct q as [|c q _] using rev_ind; [intros [= <- <-]; done|]. rewrite last_snoc.
  case_decide as E; intros [= <- <-].
  - subst c. rewrite length_app, take_app_le by (cbn; lia). rewrite take_ge by (cbn; lia). done.
  - rewrite app_nil_r, last_snoc. split; [done|]. intros _. congruence.
Qed.

Lemma pattern_parse_written `{RegexCrate} line p :
  pattern_parse line = Some p -> ch_backslash ∉ line -> written_as line p /\ ch_backslash ∉ pt_pattern p.
Proof.
  unfold pattern_parse. intros Hp Hb. pose proof (parse_flags_written 4 line false false false) as Hf.
  destruct (parse_flags 4 line false false false) as [[[l inc] ci] del].
  destruct Hf as (marks & -> & Hnd & Hsub & [Hi _] & [Hc _] & [Hd _]). destruct (decide (l = [])); [done|].
  destruct (strip_root l) as [root l1] eqn:Er. destruct (strip_root_written _ _ _ Er) as (slashes & -> & Hs).
  rewrite (eq_trans (eq_sym (f_equal unescape (app_nil_r l1))) (unescape_plain l1 [] ltac:(set_solver))) in Hp.
  cbn [unescape] in Hp. rewrite app_nil_r in Hp. destruct (strip_directory l1) as [dir q] eqn:Ed.
  destruct (strip_directory_written _ _ _ Ed) as [-> Hdir]. destruct (compile_regex q root dir ci); [|done].
  injection Hp as <-. split; [|cbn; set_solver]. exists marks, slashes. cbn.
  split_and!; [done|done|done|naive_solver|naive_solver|naive_solver| |done].
  destruct root; [done|]. destruct Hs as [-> Hs]. split; [done|]. by destruct q; [|done].
Qed.

Section Meaning.
Context `{RegexLaws}.

(** C36: A pattern read from a line without backslash is what the line says,
    with its marks and slashes ([written_as]), and it matches exactly the paths
    its glob denotes: after a directory prefix unless it is anchored with a
    slash, and with anything below it if it ends with a slash.  [**], directory
    prefixes and what lies below a directory do not stretch over a newline;
    lines with a backslash are left out, because it does not escape what
    follows it. *)
Theorem fs_pattern_correct line p path :
  pattern_parse line = Some p -> ch_backslash ∉ line ->
  written_as line p /\
  (pattern_matches p path = true <->
   exists pre mid post, path = pre ++ mid ++ post /\
     (if pt_is_root_only p then pre = [] else dir_prefix pre) /\
     globs (char_eq (pt_case_insensitive p)) (pt_pattern p) mid /\
     (if pt_is_directory p then below post else post = [])).
Proof.
  intros Hp Hline. destruct (pattern_parse_written _ _ Hp Hline) as [Hw Hb]. split; [done|]. clear Hline Hw.
  revert Hp Hb. unfold pattern_parse. destruct (parse_flags 4 line false false false) as [[[l inc] ci] del]. case_decide; [done|].
  destruct (strip_root l) as [root l1]. destruct (strip_directory (unescape l1)) as [dir q].
  destruct (compile_regex q root dir ci) as [re|] eqn:Ere; [|done]. cbn. intros [= <-]. cbn. intros Hb.
  unfold pattern_matches. cbn. unfold compile_regex in Ere. rewrite regex_text_render in Ere.
  rewrite (law_is_match ci (regex_toks q root dir) re path); [|unfold regex_toks|done].
  2: { apply Forall_app. split; [by destruct root; repeat constructor|]. apply Forall_app.
       split; [by apply glob_toks_ok|by destruct dir; repeat constructor]. }
  unfold regex_toks. rewrite toks_lang_app. setoid_rewrite toks_lang_app. setoid_rewrite glob_toks_lang. split.
  - intros (pre & v & -> & Hpre & mid & post & -> & Hmid & Hpost). exists pre, mid, post. split_and!; [done| |done|].
    + destruct root; [done|]. by apply toks_lang_one in Hpre.
    + destruct dir; [|done]. by apply toks_lang_one in Hpost.
  - intros (pre & mid & post & -> & Hpre & Hmid & Hpost). exists pre, (mid ++ post). split_and!; [done| |exists mid, post; split_and!; [done|done|]].
    + destruct root; [done|]. by apply toks_lang_one.
    + destruct dir; [|done]. by apply toks_lang_one.
Qed.

End Meaning.

Section Files.
Context `{RegexCrate}.
Implicit Types ps : IgnorePatterns.

(** The last pattern that matches a path decides: it is ignored iff that one
    exists and is not an include. *)
Theorem fs_last_match_wins ps path :
  is_ignored_str ps path = true <->
  exists a p b, ip_patterns ps = a ++ p :: b /\ pattern_matches p path = true /\ pt_is_include p = false /\
    Forall (fun q => pattern_matches q path = false) b.
Proof.
  unfold is_ignored_str. generalize (ip_patterns ps). intros l. induction l as [|p l IH] using rev_ind.
  - cbn. split; [done|]. by intros ([|] & q & b & ? & _).
  - rewrite fold_left_app. cbn [fold_left]. destruct (pattern_matches p path) eqn:Em.
    + split.
      * intros Hi%negb_true_iff. exists l, p, []. by split_and!.
      * intros (a & q & b & E & Hq & Hi & Hb). apply negb_true_iff. destruct b as [|b' b _] using rev_ind.
        { apply app_inj_tail in E as [_ <-]. done. }
        rewrite app_comm_cons, app_assoc in E. apply app_inj_tail in E as [_ <-]. apply Forall_app in Hb as [_ Hb].
        rewrite Forall_singleton in Hb. congruence.
    + rewrite IH. split.
      * intros (a & q & b & -> & Hq & Hi & Hb). exists a, q, (b ++ [p]). split_and!; [by rewrite <-app_assoc|done|done|].
        apply Forall_app. split; [done|by constructor].
      * intros (a & q & b & E & Hq & Hi & Hb). destruct b as [|b' b _] using rev_ind.
        { apply app_inj_tail in E as [_ <-]. congruence. }
        rewrite app_comm_cons, app_assoc in E. apply app_inj_tail in E as [-> _]. exists a, q, b.
        apply Forall_app in Hb as [Hb _]. done.
Qed.

(** ** The cache *)

Definition cache_sound ps (S : gset text) : Prop :=
  forall path b, path ∈ S -> cache_get ps path = Some b -> b = is_ignored ps path.

Lemma cached_lookup_sound ps (S : gset text) path :
  (forall a b, a ∈ S -> b ∈ S -> path_key a = path_key b -> a = b) ->
  path ∈ S -> cache_sound ps S ->
  let '(r, ps') := is_ignored_cached ps path in
  r = is_ignored ps path /\ cache_sound ps' S /\ ip_patterns ps' = ip_patterns ps.
Proof.
  intros Hinj HS Hc. unfold is_ignored_cached. destruct (cache_get ps path) as [r|] eqn:Eg; [split_and!; [by apply Hc|done|done]|].
  split_and!; [done| |done]. intros q b Hq. unfold cache_get. cbn. rewrite lookup_insert_Some.
  intros [[Ek <-]|[_ El]].
  - by rewrite (Hinj path q HS Hq Ek).
  - destruct (ip_cache ps) as [c|] eqn:Ec; cbn in El; [|by rewrite lookup_empty in El].
    apply Hc; [done|]. unfold cache_get. by rewrite Ec.
Qed.

(** Lookups through the cache answer as the patterns do, for any sequence of
    lookups of paths that are not different spellings of one path. *)
Fixpoint cached_lookups ps (paths : list text) : list bool :=
  match paths with
  | [] => []
  | p :: rest => let '(r, ps') := is_ignored_cached ps p in r :: cached_lookups ps' rest
  end.

Theorem fs_cache_transparent ps paths :
  ip_cache ps = None ->
  (forall a b, a ∈ paths -> b ∈ paths -> path_key a = path_key b -> a = b) ->
  cached_lookups ps paths = is_ignored ps <$> paths.
Proof.
  intros Hn Hinj. assert (cache_sound ps (list_to_set paths)) as Hc.
  { intros p b _. unfold cache_get. by rewrite Hn. }
  assert (forall a b : text, a ∈ (list_to_set paths : gset text) -> b ∈ (list_to_set paths : gset text) ->
    path_key a = path_key b -> a = b) as Hinj' by (intros a b; rewrite !elem_of_list_to_set; apply Hinj).
  assert (paths ⊆ paths) as Hsub by done. clear Hn Hinj. revert Hsub Hc. generalize paths at 1 4 5. intros l. revert ps.
  induction l as [|p l IH]; intros ps Hsub Hc; [done|]. cbn [cached_lookups].
  pose proof (cached_lookup_sound ps (list_to_set paths) p Hinj') as Hl.
  destruct (is_ignored_cached ps p) as [r ps']. destruct Hl as (-> & Hc' & Ep); [set_solver|done|]. cbn. f_equal.
  rewrite IH; [|set_solver|done]. apply list_fmap_ext. intros i q _. unfold is_ignored, is_ignored_str. by rewrite Ep.
Qed.

End Files.

(** ** Include files *)

Section IncludeFiles.
Context `{RegexCrate} (read : text -> option text).

Abbreviation state := (IgnorePatterns * gset (bool * list text))%type.

(** Loading only adds to the set of loaded paths and ends when the fuel exceeds
    the number of readable paths that are not loaded yet. *)
Lemma load_includes_ends (S : gset (bool * list text)) fuel path st :
  (forall p, is_Some (read p) -> path_key p ∈ S) -> (size (S ∖ st.2) < fuel)%nat ->
  exists r, load_includes read fuel path st = Some r /\ forall st', r = Some st' -> st.2 ⊆ st'.2.
Proof.
  intros Hread. revert path st. induction fuel as [|fuel IH]; intros path [ps loaded] Hf; [lia|]. cbn [load_includes snd] in *.
  case_decide as Hin; [eexists; split; [done|]; by intros ? [= <-]|].
  destruct (read path) as [content|] eqn:Er; [|by eexists].
  assert (size (S ∖ ({[path_key path]} ∪ loaded)) < fuel)%nat as Hs.
  { enough (size (S ∖ ({[path_key path]} ∪ loaded)) < size (S ∖ loaded))%nat by lia. apply subset_size.
    assert (path_key path ∈ S) by (apply Hread; by rewrite Er). set_solver. }
  revert Hs. generalize (extend_patterns ps (ignore_parse content)). generalize (ip_includes (ignore_parse content)).
  intros incs. assert (loaded ⊆ {[path_key path]} ∪ loaded) as Hsub by set_solver. revert Hsub.
  generalize ({[path_key path]} ∪ loaded). intros l. revert l.
  induction incs as [|i incs IHi]; intros l Hsub ps' Hs; cbn [foldl].
  - eexists. split; [done|]. by intros ? [= <-].
  - destruct (IH (resolve_include (t_parent path) i) (ps', l) Hs) as (r & -> & Hr). destruct r as [[ps2 l2]|].
    + specialize (Hr _ eq_refl). cbn in Hr. apply IHi; [set_solver|].
      enough (size (S ∖ l2) <= size (S ∖ l))%nat by lia. apply subseteq_size. set_solver.
    + exists None. split; [clear IHi; by induction incs|done].
Qed.

(** C37: Loading an ignore file with its includes ends when only finitely many
    paths can be read, one level of recursion for each at most. *)
Theorem fs_includes_terminate (S : gset (bool * list text)) path :
  (forall p, is_Some (read p) -> path_key p ∈ S) ->
  exists r, from_file read (Datatypes.S (size S)) path = Some r.
Proof.
  intros Hread. unfold from_file. destruct (read path) as [content|]; [|by eexists]. generalize (ignore_parse content).
  intros ps. generalize (ip_includes ps). intros incs. generalize ({[path_key path]} : gset (bool * list text)). revert ps.
  induction incs as [|i incs IH]; intros ps l; cbn [foldl]; [by eexists|].
  destruct (load_includes_ends S (Datatypes.S (size S)) (resolve_include (t_parent path) i) (ps, l) Hread) as (r & -> & _).
  { cbn. enough (size (S ∖ l) <= size S)%nat by lia. apply subseteq_size. set_solver. }
  destruct r as [[ps' l']|]; [apply IH|]. exists None. clear IH. by induction incs.
Qed.

(** ** A cycle through [..] *)

Definition cycle_content : text := tx"#include ../f/.stignore".

(** The spellings of one file: [f/.stignore], [f/../f/.stignore], ... *)
Fixpoint spelling (n : nat) : text :=
  match n with
  | O => tx"f/.stignore"
  | S n => tx"f/../" ++ spelling n
  end.

Fixpoint spelling_dir (n : nat) : text :=
  match n with
  | O => tx"f"
  | S n => tx"f/../" ++ spelling_dir n
  end.

Fixpoint spelling_components (n : nat) : list text :=
  match n with
  | O => [tx"f"; tx".stignore"]
  | S n => tx"f" :: tx".." :: spelling_components n
  end.

Lemma spelling_split n : t_split ch_slash (spelling n) = spelling_components n.
Proof. induction n as [|n IH]; [done|]. cbn [spelling spelling_components]. rewrite <-IH. cbn. by destruct (t_split 47 (spelling n)). Qed.

Lemma spelling_key n : path_key (spelling n) = (false, spelling_components n).
Proof.
  unfold path_key. rewrite spelling_split. assert (is_absolute (spelling n) = false) as -> by by destruct n.
  assert (filter (fun c => c <> []) (spelling_components n) = spelling_components n) as ->.
  { induction n as [|n IH]; [done|]. cbn [spelling_components]. rewrite !filter_cons_True by done. by rewrite IH. }
  assert (filter (fun d => d <> tx".") (spelling_components n) = spelling_components n) as Hf.
  { induction n as [|n IH]; [done|]. cbn [spelling_components]. rewrite !filter_cons_True by (intros E; by vm_compute in E).
    by rewrite IH. }
  destruct n; cbn [spelling_components] in *; rewrite decide_False by (intros [E _]; by vm_compute in E); by rewrite Hf.
Qed.

Lemma spelling_length n : length (spelling_components n) = (2 * n + 2)%nat.
Proof. induction n as [|n IH]; [done|]. cbn [spelling_components length]. rewrite IH. lia. Qed.

Lemma parent_acc_dir d name acc best : ch_slash ∉ name ->
  t_parent_acc acc (d ++ [ch_slash] ++ name) best = Some (acc ++ d).
Proof.
  revert acc best. induction d as [|c d IH]; intros acc best Hn; cbn [app t_parent_acc].
  - rewrite decide_True by done. rewrite app_nil_r. generalize (acc ++ [ch_slash]). revert acc.
    induction name as [|x name IHn]; intros acc acc'; [done|]. cbn [t_parent_acc]. rewrite decide_False by set_solver.
    apply IHn. set_solver.
  - rewrite IH by done. by rewrite <-app_assoc.
Qed.

Lemma spelling_parent n : t_parent (spelling n) = spelling_dir n.
Proof.
  assert (spelling n = spelling_dir n ++ [ch_slash] ++ tx".stignore") as ->.
  { induction n as [|n IH]; [done|]. cbn [spelling spelling_dir]. by rewrite IH, <-app_assoc. }
  unfold t_parent. rewrite parent_acc_dir by (vm_compute; set_solver). by destruct n.
Qed.

Lemma spelling_next n : resolve_include (spelling_dir n) (tx"../f/.stignore") = spelling (S n).
Proof.
  unfold resolve_include. assert (is_absolute (tx"../f/.stignore") = false) as E by done. rewrite E. unfold t_join. rewrite E.
  assert (last (spelling_dir n) = Some 102) as ->.
  { induction n as [|n IH]; [done|]. cbn [spelling_dir]. by rewrite last_app, IH. }
  rewrite decide_False by done. induction n as [|n IH]; [done|].
  change (spelling (S (S n))) with (tx"f/../" ++ spelling (S n)). rewrite <-IH. cbn [spelling_dir]. by rewrite <-app_assoc.
Qed.

Hypothesis reads_cycle : forall n, read (spelling n) = Some cycle_content.

Lemma cycle_includes : ip_includes (ignore_parse cycle_content) = [tx"../f/.stignore"].
Proof. vm_compute. reflexivity. Qed.

Lemma cycle_load fuel n ps loaded : (forall k, k ∈ loaded -> (length k.2 < 2 * n + 2)%nat) ->
  load_includes read fuel (spelling n) (ps, loaded) = None.
Proof using reads_cycle.
  revert n ps loaded. induction fuel as [|fuel IH]; intros n ps loaded Hl; [done|]. cbn [load_includes].
  rewrite decide_False. 2: { intros Hin%Hl. rewrite spelling_key in Hin. cbn in Hin. rewrite spelling_length in Hin. lia. }
  rewrite reads_cycle, cycle_includes. cbn [foldl]. rewrite spelling_parent, spelling_next, spelling_key.
  apply IH. intros k [->%elem_of_singleton|Hk]%elem_of_union; [cbn; rewrite spelling_length; lia|]. specialize (Hl k Hk). lia.
Qed.

(** The check for include cycles compares spellings: a file that includes
    itself by way of its parent directory is loaded again under every longer
    spelling, whatever the depth allowed. *)
Theorem include_cycle_undetected fuel : from_file read fuel (tx"f/.stignore") = None.
Proof using reads_cycle.
  change (tx"f/.stignore") with (spelling 0). unfold from_file.
  rewrite reads_cycle, cycle_includes. cbn [foldl]. rewrite spelling_parent, spelling_next, cycle_load; [done|].
  intros k ->%elem_of_singleton. rewrite spelling_key. cbn. lia.
Qed.

End IncludeFiles.

(** ** An executable reading of the fragments *)

Definition dir_prefixb (t : text) : bool :=
  bool_decide (t = []) || (bool_decide (last t = Some ch_slash) && bool_decide (ch_newline ∉ t)).

Definition tokb (eqb : Z -> Z -> bool) (k : Tok) (t : text) : bool :=
  match k with
  | KDirOpt | KDirs => dir_prefixb t
  | KAll => bool_decide (ch_newline ∉ t)
  | KStar => bool_decide (ch_slash ∉ t)
  | KOne => match t with [x] => negb (x =? ch_slash) | _ => false end
  | KLit c => match t with [x] => eqb c x | _ => false end
  | KBelow => bool_decide (t = []) || (bool_decide (head t = Some ch_slash) && bool_decide (ch_newline ∉ t))
  end.

Fixpoint toksb (eqb : Z -> Z -> bool) (ks : list Tok) (t : text) : bool :=
  match ks with
  | [] => bool_decide (t = [])
  | k :: ks => existsb (fun i => tokb eqb k (take i t) && toksb eqb ks (drop i t)) (seq 0 (S (length t)))
  end.

Lemma dir_prefixb_spec t : dir_prefixb t = true <-> dir_prefix t.
Proof.
  unfold dir_prefixb, dir_prefix, no_newline. rewrite orb_true_iff, andb_true_iff, !bool_decide_eq_true. split.
  - intros [->|[Hl Hn]]; [by left|]. right. apply last_Some in Hl as [d ->]. exists d. set_solver.
  - intros [->|(d & -> & Hn)]; [by left|]. right. rewrite last_snoc. split; [done|]. rewrite elem_of_app.
    intros [?|E%list_elem_of_singleton]; [done|]. by compute in E.
Qed.

Lemma belowb_spec t :
  bool_decide (t = []) || (bool_decide (head t = Some ch_slash) && bool_decide (ch_newline ∉ t)) = true <-> below t.
Proof.
  unfold below, no_newline. rewrite orb_true_iff, andb_true_iff, !bool_decide_eq_true. split.
  - intros [->|[Hh Hn]]; [by left|]. right. destruct t as [|x t]; [done|]. injection Hh as ->. exists t. set_solver.
  - intros [->|(d & -> & Hn)]; [by left|]. right. split; [done|]. intros [E|?]%elem_of_cons; [by compute in E|done].
Qed.

Lemma tokb_spec eqb k t : tokb eqb k t = true <-> tok_lang (fun c x => eqb c x = true) k t.
Proof.
  destruct k as [| | | | |c|]; cbn [tokb].
  - apply dir_prefixb_spec.
  - rewrite dirs_lang. apply dir_prefixb_spec.
  - cbn. by rewrite bool_decide_eq_true.
  - cbn. by rewrite bool_decide_eq_true.
  - cbn. split.
    + destruct t as [|x [|]]; [done| |done]. intros Hx. exists x. split; [done|]. by apply negb_true_iff, Z.eqb_neq in Hx.
    + intros (x & -> & Hx). by apply negb_true_iff, Z.eqb_neq.
  - cbn. split.
    + destruct t as [|x [|]]; [done| |done]. intros Hx. by exists x.
    + by intros (x & -> & Hx).
  - apply belowb_spec.
Qed.

Lemma toksb_spec eqb ks t : toksb eqb ks t = true <-> toks_lang (fun c x => eqb c x = true) ks t.
Proof.
  revert t. induction ks as [|k ks IH]; intros t; cbn [toksb toks_lang]; [apply bool_decide_eq_true|].
  rewrite existsb_exists. setoid_rewrite andb_true_iff. setoid_rewrite tokb_spec. setoid_rewrite IH. split.
  - intros (i & _ & Hk & Hr). exists (take i t), (drop i t). by rewrite take_drop.
  - intros (u & v & -> & Hk & Hr). exists (length u). rewrite take_app_length, drop_app_length. split; [|done].
    apply in_seq. rewrite length_app. lia.
Qed.

(** Reading a rendered expression back. *)
Fixpoint parse_toks (fuel : nat) (t : text) : option (list Tok) :=
  match fuel with
  | O => None
  | S fuel' =>
      let cont (k : Tok) (rest : text) := let+ ks := parse_toks fuel' rest in Some (k :: ks) in
      if decide (t = tx"$") then Some []
      else match t_strip_prefix (render_tok KDirOpt) t with
      | Some rest => cont KDirOpt rest
      | None => match t_strip_prefix (render_tok KDirs) t with
      | Some rest => cont KDirs rest
      | None => match t_strip_prefix (render_tok KBelow) t with
      | Some rest => cont KBelow rest
      | None => match t_strip_prefix (render_tok KAll) t with
      | Some rest => cont KAll rest
      | None => match t_strip_prefix (render_tok KStar) t with
      | Some rest => cont KStar rest
      | None => match t_strip_prefix (render_tok KOne) t with
      | Some rest => cont KOne rest
      | None =>
          match t with
          | c :: rest =>
              if decide (c = ch_backslash) then match rest with d :: rest' => cont (KLit d) rest' | [] => None end
              else cont (KLit c) rest
          | [] => None
          end
      end end end end end end
  end.

Lemma render_head_not_star ks : Forall tok_ok ks -> head (render ks ++ tx"$") <> Some ch_star.
Proof.
  intros [|k ks' Hk _]; [done|]. destruct k as [| | | | |c|]; try done. destruct Hk as (H1 & _ & _).
  change (render (KLit c :: ks')) with (render_tok (KLit c) ++ render ks'). cbn [render_tok]. case_decide; [done|].
  destruct (regex_special c); [done|]. cbn. congruence.
Qed.

Lemma strip_prefix_head c p d s : c <> d -> t_strip_prefix (c :: p) (d :: s) = None.
Proof. intros Hne. cbn. by rewrite decide_False. Qed.

Lemma special_neq c d : regex_special c = false -> regex_special d = true -> c <> d.
Proof. intros E1 E2 ->. congruence. Qed.

Lemma parse_lit fuel c rest : tok_ok (KLit c) ->
  parse_toks (S fuel) (render_tok (KLit c) ++ rest) = (let+ ks := parse_toks fuel rest in Some (KLit c :: ks)).
Proof.
  intros (Hs & Hq & Hb). cbn [render_tok]. destruct (decide (c = ch_dot)) as [->|Hd]; [done|].
  destruct (regex_special c) eqn:Esp; [done|].
  cbn [app parse_toks]. rewrite decide_False by (intros [= E _]; subst c; by vm_compute in Esp).
  change (render_tok KDirOpt) with (40 :: drop 1 (tx"(?:.*/)?")). change (render_tok KDirs) with (40 :: drop 1 (tx"(?:.*/)*")).
  change (render_tok KBelow) with (40 :: drop 1 (tx"(?:/.*)?")). change (render_tok KAll) with [ch_dot; ch_star].
  change (render_tok KStar) with (91 :: drop 1 (tx"[^/]*")). change (render_tok KOne) with (91 :: drop 1 (tx"[^/]")).
  rewrite !(strip_prefix_head 40) by (apply not_eq_sym, special_neq; done).
  rewrite (strip_prefix_head ch_dot) by done.
  rewrite !(strip_prefix_head 91) by (apply not_eq_sym, special_neq; done).
  by rewrite decide_False.
Qed.

Lemma parse_render ks fuel : Forall tok_ok ks -> (length ks < fuel)%nat -> parse_toks fuel (render ks ++ tx"$") = Some ks.
Proof.
  intros Hok. revert fuel. induction Hok as [|k ks Hk Hks IH]; intros fuel Hf; (destruct fuel as [|fuel]; [cbn in Hf; lia|]).
  { done. }
  assert (parse_toks fuel (render ks ++ tx"$") = Some ks) as E by (apply IH; cbn in Hf; lia).
  change (render (k :: ks)) with (render_tok k ++ render ks). rewrite <-app_assoc.
  pose proof (render_head_not_star ks Hks) as Hh. revert E Hh. generalize (render ks ++ tx"$"). intros r E Hh.
  assert (forall k : Tok, (let+ l := parse_toks fuel r in Some (k :: l)) = Some (k :: ks)) as Hcont by (intros k0; by rewrite E).
  destruct k as [| | | | |c|]; [exact (Hcont KDirOpt)|exact (Hcont KDirs)|exact (Hcont KAll)|exact (Hcont KStar)| |
    by rewrite parse_lit|exact (Hcont KBelow)].
  destruct r as [|x r]; [by destruct fuel|].
  change (match (if decide (ch_star = x) then Some r else None) with
          | Some rest => let+ l := parse_toks fuel rest in Some (KStar :: l)
          | None => let+ l := parse_toks fuel (x :: r) in Some (KOne :: l)
          end = Some (KOne :: ks)).
  rewrite decide_False by (intros <-; done). exact (Hcont KOne).
Qed.

Definition ascii_lower (c : Z) : Z := if (65 <=? c) && (c <=? 90) then c + 32 else c.

Definition demo_regex_new (t : text) : option (bool * list Tok) :=
  let '(ci, t) := match t_strip_prefix (tx"(?i)") t with Some t' => (true, t') | None => (false, t) end in
  match t with
  | c :: t => if decide (c = 94) then let+ ks := parse_toks (S (length t)) t in Some (ci, ks) else None
  | [] => None
  end.

Definition demo_eqb (ci : bool) (c x : Z) : bool := if ci then ascii_lower c =? ascii_lower x else c =? x.

#[global] Instance demo_regex : RegexCrate := {|
  Regex := bool * list Tok;
  regex_new := demo_regex_new;
  is_match '(ci, ks) t := toksb (demo_eqb ci) ks t;
  case_fold := ascii_lower;
|}.

Lemma render_tok_nonempty k : (1 <= length (render_tok k))%nat.
Proof. destruct k as [| | | | |c|]; try (vm_compute; lia). cbn. repeat case_match; cbn; lia. Qed.

Lemma length_render ks : (length ks <= length (render ks))%nat.
Proof.
  induction ks as [|k ks IH]; [done|]. change (render (k :: ks)) with (render_tok k ++ render ks). rewrite length_app.
  pose proof (render_tok_nonempty k). cbn. lia.
Qed.

Lemma demo_regex_new_render ci ks : Forall tok_ok ks -> demo_regex_new (render_re ci ks) = Some (ci, ks).
Proof.
  intros Hok. assert (parse_toks (S (length (render ks ++ tx"$"))) (render ks ++ tx"$") = Some ks) as E.
  { apply parse_render; [done|]. rewrite length_app. pose proof (length_render ks). cbn. lia. }
  assert ((let+ l := parse_toks (S (length (render ks ++ tx"$"))) (render ks ++ tx"$") in Some (ci, l)) = Some (ci, ks)) as Er
    by by rewrite E.
  destruct ci; exact Er.
Qed.

#[global] Instance demo_regex_laws : RegexLaws.
Proof.
  constructor. intros ci ks re t Hok. change regex_new with demo_regex_new. rewrite demo_regex_new_render by done.
  intros [= <-]. cbn [is_match demo_regex]. rewrite toksb_spec. unfold char_eq, demo_eqb.
  assert (forall c x, (if ci then ascii_lower c =? ascii_lower x else c =? x) = true <->
    (if ci then case_fold c = case_fold x else c = x)) as Heq by (intros c x; destruct ci; apply Z.eqb_eq).
  revert t. induction ks as [|k ks IH]; intros t; [done|]. cbn [toks_lang]. inversion Hok; subst.
  setoid_rewrite IH; [|done]. destruct k; try done. cbn. by setoid_rewrite Heq.
Qed.

(** ** Escapes *)

Lemma parse_flags_plain fuel x line inc ci del : x ∉ tx"!(" -> parse_flags fuel (x :: line) inc ci del = (x :: line, inc, ci, del).
Proof.
  intros Hx. destruct fuel as [|fuel]; [done|]. cbn [parse_flags].
  assert (33 <> x /\ 40 <> x) as [H1 H2] by (split; intros <-; apply Hx; vm_compute; set_solver).
  assert (t_starts_with (tx"!") (x :: line) = false) as ->.
  { unfold t_starts_with. change (tx"!") with [33]. rewrite strip_prefix_head by done. done. }
  assert (t_starts_with (tx"(?i)") (x :: line) = false) as ->.
  { unfold t_starts_with. change (tx"(?i)") with (40 :: tx"?i)"). rewrite strip_prefix_head by done. done. }
  assert (t_starts_with (tx"(?d)") (x :: line) = false) as ->.
  { unfold t_starts_with. change (tx"(?d)") with (40 :: tx"?d)"). rewrite strip_prefix_head by done. done. }
  done.
Qed.

(** A backslash does not escape: it is dropped before the pattern is
    compiled, so what follows it keeps its special meaning. *)
Theorem escape_has_no_effect `{RegexCrate} x a c b :
  x ∉ tx"!(/" -> ch_backslash ∉ (x :: a) -> c <> ch_backslash ->
  pattern_parse (x :: a ++ ch_backslash :: c :: b) = pattern_parse (x :: a ++ c :: b).
Proof.
  intros Hx Ha Hc. unfold pattern_parse. rewrite !parse_flags_plain by (intros Hin; apply Hx; revert Hin; vm_compute; set_solver).
  cbn [strip_root]. rewrite !decide_False by done.
  assert (x <> ch_slash) as Hs by (intros ->; apply Hx; vm_compute; set_solver).
  rewrite !(decide_False (P := x = ch_slash)) by done.
  enough (unescape (x :: a ++ ch_backslash :: c :: b) = unescape (x :: a ++ c :: b)) as E by by rewrite E.
  rewrite !(app_comm_cons a), !(unescape_plain (x :: a)) by done. f_equal. cbn [unescape].
  by rewrite (decide_True (P := ch_backslash = ch_backslash)), decide_False.
Qed.

(** ** Witnesses *)

Definition demo_pattern (line : text) : Pattern :=
  default (mkPattern _ [] false false false false false (false, [])) (pattern_parse line).

Lemma fs_pattern_correct_witness :
  written_as (tx"(?d)*.bak") (demo_pattern (tx"(?d)*.bak")) /\
  exists pre mid post, tx"src/a.bak" = pre ++ mid ++ post /\ dir_prefix pre /\ globs (char_eq false) (tx"*.bak") mid /\ post = [].
Proof.
  assert (ch_backslash ∉ tx"(?d)*.bak") as Hb by (vm_compute; set_solver).
  destruct (fs_pattern_correct (tx"(?d)*.bak") (demo_pattern (tx"(?d)*.bak")) (tx"src/a.bak") ltac:(vm_compute; reflexivity) Hb) as [Hw Hm].
  split; [exact Hw|]. apply Hm. vm_compute. reflexivity.
Defined.

Lemma fs_cache_transparent_witness :
  cached_lookups (ignore_parse (tx"*.bak")) [tx"a.bak"; tx"b"; tx"a.bak"] = [true; false; true].
Proof.
  rewrite fs_cache_transparent.
  - vm_compute. reflexivity.
  - vm_compute. reflexivity.
  - intros a b Ha Hb E. revert E. repeat (apply elem_of_cons in Ha as [->|Ha]); try (by apply elem_of_nil in Ha);
      repeat (apply elem_of_cons in Hb as [->|Hb]); try (by apply elem_of_nil in Hb); vm_compute; congruence.
Defined.

(** A result stays cached when a pattern is added. *)
Example added_pattern_not_seen :
  let ps := (is_ignored_cached (ignore_parse (tx"*.bak")) (tx"notes.txt")).2 in
  exists ps', add_pattern ps (tx"*.txt") = Some ps' /\ is_ignored ps' (tx"notes.txt") = true /\
    (is_ignored_cached ps' (tx"notes.txt")).1 = false.
Proof. eexists. split; [vm_compute; reflexivity|]. split; vm_compute; reflexivity. Qed.

(** A directory whose name contains a newline hides its files from patterns. *)
Example newline_defeats_pattern :
  is_ignored (ignore_parse (tx"*.bak")) (tx"d/a.bak") = true /\
  is_ignored (ignore_parse (tx"*.bak")) ([100; ch_newline; 100] ++ tx"/a.bak") = false.
Proof. split; vm_compute; reflexivity. Qed.

Definition demo_files (p : text) : option text :=
  if decide (path_key p = path_key (tx"d/.stignore")) then Some (tx"#include more")
  else if decide (path_key p = path_key (tx"d/more")) then Some (tx"*.tmp")
  else None.

Lemma fs_includes_terminate_witness :
  exists r, from_file demo_files 3 (tx"d/.stignore") = Some r.
Proof.
  replace 3%nat with (S (size ({[path_key (tx"d/.stignore"); path_key (tx"d/more")]} : gset (bool * list text))))
    by (vm_compute; reflexivity).
  apply fs_includes_terminate.
  intros p. unfold demo_files. case_decide as E1; [intros _; rewrite E1; set_solver|].
  case_decide as E2; [intros _; rewrite E2; set_solver|]. by intros [? ?].
Defined.

Lemma include_cycle_undetected_witness :
  from_file (fun p => if decide (last (path_key p).2 = Some (tx".stignore")) then Some cycle_content else None)
    1000 (tx"f/.stignore") = None.
Proof.
  apply include_cycle_undetected. intros n. rewrite decide_True; [done|]. rewrite spelling_key.
  induction n as [|n IH]; [vm_compute; reflexivity|]. cbn [spelling_components snd] in *.
  rewrite !last_cons. rewrite IH. reflexivity.
Defined.

Lemma escape_has_no_effect_witness :
  pattern_parse (tx"a\*") = pattern_parse (tx"a*") /\ pattern_matches (demo_pattern (tx"a\*")) (tx"abc") = true.
Proof.
  split; [|vm_compute; reflexivity].
  apply (escape_has_no_effect 97 [] ch_star []); [vm_compute; set_solver|vm_compute; set_solver|done].
Defined.
