(* ===== verification/Fs.v ===== *)
(** * The file system layer

    [crates/syncthing-fs/src/]: block hashing and scanning of files and
    directories ([scanner/]), the native implementation of the [FileSystem]
    trait ([filesystem/]) and the watcher's event conversion and collection
    ([watcher.rs]), over the ignore patterns of the previous file.

    A file system is a tree; names are lists of chars as there.  SHA-256, how
    much one [read] delivers and what a path denotes when links are followed are
    parameters.  Tasks of one scan finish in any order; the results are listed
    in the order of the walk. *)

From S2P Require Import Prelude Core FsIgnore Config.

(** [metadata().len()] and times are those of the node; a link has its
    target. *)
Inductive FsNode :=
| FsFile (mtime : Z * Z) (mode : Z) (data : list Z)
| FsDir (mtime : Z * Z) (mode : Z) (children : list (text * FsNode))
| FsLink (mtime : Z * Z) (mode : Z) (target : text).

Definition node_mtime (n : FsNode) : Z * Z :=
  match n with FsFile t _ _ | FsDir t _ _ | FsLink t _ _ => t end.

Definition node_mode (n : FsNode) : Z := match n with FsFile _ m _ | FsDir _ m _ | FsLink _ m _ => m end.

Definition node_is_dir (n : FsNode) : bool := match n with FsDir _ _ _ => true | _ => false end.

(** The UTF-8 encoding of a char. *)
Definition fs_utf8_char (c : Z) : list Z :=
  if c <? 0x80 then [c]
  else if c <? 0x800 then [0xC0 + c / 64; 0x80 + c mod 64]
  else if c <? 0x10000 then [0xE0 + c / 4096; 0x80 + (c / 64) mod 64; 0x80 + c mod 64]
  else [0xF0 + c / 262144; 0x80 + (c / 4096) mod 64; 0x80 + (c / 64) mod 64; 0x80 + c mod 64].

Definition utf8_text (t : text) : str := (fun b => Ascii.ascii_of_nat (Z.to_nat b)) <$> concat (fs_utf8_char <$> t).

(** ** Blocks *)

Definition DEFAULT_FS_BLOCK_SIZE : Z := 128 * 1024.
Definition MAX_FS_BLOCK_SIZE : Z := 16 * 1024 * 1024.
Definition MIN_FS_BLOCK_SIZE : Z := 4 * 1024.
Definition HASH_BATCH_SIZE : nat := 32.

Definition optimal_block_size (file_size : Z) : Z :=
  if file_size <? 1024 * 1024 then 4 * 1024
  else if file_size <? 100 * 1024 * 1024 then 128 * 1024
  else if file_size <? 1024 * 1024 * 1024 then 256 * 1024
  else 1024 * 1024.

Definition clamp_block_size (block_size : Z) : Z := Z.max MIN_FS_BLOCK_SIZE (Z.min block_size MAX_FS_BLOCK_SIZE).

Section Scanning.
Context (sha256 : list Z -> list Z).
(** How many bytes a read at an offset into a buffer may deliver at most. *)
Context (read_max : Z -> nat -> nat).
Context (stat : text -> option FsNode) (lstat : text -> option FsNode).

Definition block_of (offset : Z) (chunk : list Z) : BlockInfo :=
  mkBlockInfo (Z.of_nat (length chunk)) (sha256 chunk) offset.

(** One [file.read] at [offset] with [rest] still to come. *)
Definition read_chunk (block_size : nat) (offset : Z) (rest : list Z) : list Z :=
  take (Nat.min block_size (read_max offset block_size)) rest.

(** The inner loop: one batch. *)
Fixpoint read_batch (room : nat) (block_size : nat) (file_size offset : Z) (rest : list Z)
  : list (Z * list Z) * Z * list Z :=
  match room with
  | O => ([], offset, rest)
  | S room =>
      if offset <? file_size then
        match read_chunk block_size offset rest with
        | [] => ([], offset, rest)
        | chunk =>
            let n := length chunk in
            let '(batch, offset', rest') := read_batch room block_size file_size (offset + Z.of_nat n) (drop n rest) in
            ((offset, chunk) :: batch, offset', rest')
        end
      else ([], offset, rest)
  end.

(** The outer loop; [None] when it runs out of fuel. *)
Fixpoint hash_batches (fuel : nat) (block_size : nat) (file_size offset : Z) (rest : list Z)
  : option (list BlockInfo) :=
  match fuel with
  | O => None
  | S fuel =>
      let '(batch, offset', rest') := read_batch HASH_BATCH_SIZE block_size file_size offset rest in
      if decide (batch = []) then Some []
      else let+ more := hash_batches fuel block_size file_size offset' rest' in
           Some (((fun '(o, c) => block_of o c) <$> batch) ++ more)
  end.

Definition compute_block_hashes (data : list Z) (block_size : Z) : option (list BlockInfo) :=
  hash_batches (S (length data)) (Z.to_nat block_size) (Z.of_nat (length data)) 0 data.

(** ** Scanning a file *)

(** [duration_since(UNIX_EPOCH).unwrap_or_default()] *)
Definition after_epoch (t : Z * Z) : Z * Z := if t.1 <? 0 then (0, 0) else t.

Definition scan_file_name (path : text) : text := default [] (last (path_key path).2).

Definition scanned_info (n : text) (ft : FileType) (node : FsNode) (size : Z) (mode : Z) (bs : list BlockInfo)
    (target : option str) : FileInfo :=
  let t := after_epoch (node_mtime node) in
  mkFileInfo (utf8_text n) ft size mode t.1 t.2 vector_new 0 0 bs target (Some false) None None None None.

(** The length a directory or a link reports is not interpreted. *)
Context (special_len : FsNode -> Z).

Definition node_len (n : FsNode) : Z :=
  match n with FsFile _ _ d => Z.of_nat (length d) | _ => special_len n end.

Definition fs_scan_file (path : text) (block_size : Z) : result SyncthingError FileInfo :=
  let block_size := clamp_block_size block_size in
  match stat path with
  | None => Err EIo
  | Some (FsFile t mode data) =>
      match compute_block_hashes data block_size with
      | Some bs =>
          Ok (scanned_info (scan_file_name path) File (FsFile t mode data) (Z.of_nat (length data)) 0 bs None)
      | None => Err EInternal
      end
  | Some _ => Err EIo
  end.

Definition quick_type (n : FsNode) : FileType :=
  match n with FsLink _ _ _ => Symlink | FsDir _ _ _ => Directory | FsFile _ _ _ => File end.

(** Metadata follow links, so no node is a link here. *)
Definition fs_quick_scan (path : text) : result SyncthingError FileInfo :=
  match stat path with
  | None => Err EIo
  | Some n => Ok (scanned_info (scan_file_name path) (quick_type n) n (node_len n) 0 [] None)
  end.

(** ** Walking a directory *)

Definition child_path (rel n : text) : text := if decide (rel = []) then n else rel ++ [ch_slash] ++ n.

(** What [walkdir] yields below a directory; [skip] says whether the walker
    does not descend into one. *)
Fixpoint fs_walk (skip : text -> bool) (rel : text) (n : FsNode) : list (text * FsNode) :=
  match n with
  | FsDir _ _ children =>
      (fix go (cs : list (text * FsNode)) : list (text * FsNode) :=
         match cs with
         | [] => []
         | (name, c) :: cs =>
             let p := child_path rel name in
             (p, c) :: ((if node_is_dir c && skip p then [] else fs_walk skip p c) ++ go cs)
         end) children
  | _ => []
  end.

Section Directory.
Context `{RegexCrate}.

(** The loop of [fs_scan_directory] over what the walker yields. *)
Definition fs_scan_entries (ignore : option IgnorePatterns) (root : FsNode) : list (text * FsNode) :=
  let can_skip := from_option allows_skipping_ignored_dirs false ignore in
  let ignored p := from_option (fun i => is_ignored i (normalize_separators p)) false ignore in
  filter (fun '(p, _) => ignored p = false) (fs_walk (fun p => can_skip && ignored p) [] root).

Definition is_file_node (n : FsNode) : bool := match n with FsFile _ _ _ => true | _ => false end.

Definition fs_scan_entry (base : text) (e : text * FsNode) : result SyncthingError FileInfo :=
  let '(rel, n) := e in
  let path := t_join base rel in
  let? info :=
    if is_file_node n
    then fs_scan_file path (optimal_block_size (from_option node_len 0 (stat path)))
    else fs_quick_scan path in
  Ok (mkFileInfo (utf8_text (normalize_separators rel)) (file_type info) (size info) (permissions info)
        (modified_s info) (modified_ns info) (version info) (sequence info) (block_size info) (blocks info)
        (symlink_target info) (deleted info) (modified_by info) (blocks_hash info) (no_permissions info)
        (base_version info)).

Fixpoint collect_results {A B E : Type} (f : A -> result E B) (l : list A) : result E (list B) :=
  match l with
  | [] => Ok []
  | a :: l => let? b := f a in let? bs := collect_results f l in Ok (b :: bs)
  end.

Definition fs_scan_directory (base : text) (ignore : option IgnorePatterns) : result SyncthingError (list FileInfo) :=
  match stat base with
  | Some (FsDir t m cs) => collect_results (fs_scan_entry base) (fs_scan_entries ignore (FsDir t m cs))
  | _ => Err EIo
  end.

(** [verify_file]: the counts, then the hashes one by one. *)
Definition verify_file (path : text) (expected : list (list Z)) (block_size : Z) : result SyncthingError unit :=
  let? info := fs_scan_file path block_size in
  let actual := bi_hash <$> blocks info in
  if negb (length actual =? length expected)%nat then Err EProtocol
  else if forallb (fun '(e, a) => bool_decide (e = a)) (combine expected actual) then Ok tt else Err EProtocol.

(** ** [NativeFileSystem] *)

Definition build_file_info (path n : text) : result SyncthingError FileInfo :=
  match lstat path with
  | None => Err EIo
  | Some (FsLink t m target) =>
      Ok (scanned_info n Symlink (FsLink t m target) (node_len (FsLink t m target)) m [] (Some (utf8_text target)))
  | Some (FsDir t m cs) => Ok (scanned_info n Directory (FsDir t m cs) (node_len (FsDir t m cs)) m [] None)
  | Some (FsFile t m data) =>
      let? f := fs_scan_file path DEFAULT_FS_BLOCK_SIZE in
      Ok (scanned_info n File (FsFile t m data) (Z.of_nat (length data)) m (blocks f) None)
  end.

(** The walk of [scan_directory_with_ignore]: an ignored directory is always
    skipped. *)
Definition native_entries (ignore : IgnorePatterns) (root : FsNode) : list (text * FsNode) :=
  filter (fun '(p, _) => is_ignored ignore (normalize_separators p) = false)
    (fs_walk (fun p => is_ignored ignore (normalize_separators p)) [] root).

Definition scan_directory_with_ignore (base : text) (ignore : IgnorePatterns) : result SyncthingError (list FileInfo) :=
  match stat base with
  | None => Ok []
  | Some (FsDir t m cs) =>
      collect_results (fun '(rel, _) => build_file_info (t_join base rel) (normalize_separators rel))
        (native_entries ignore (FsDir t m cs))
  | Some _ => Err EIo
  end.

Definition native_scan_directory (base : text) : result SyncthingError (list FileInfo) :=
  scan_directory_with_ignore base ignore_new.

Definition native_hash_file (path : text) (block_size : Z) : result SyncthingError (list (list Z)) :=
  let? info := fs_scan_file path block_size in
  Ok ((fun b => if (length (bi_hash b) =? 32)%nat then bi_hash b else repeat 0 32) <$> blocks info).

End Directory.
End Scanning.

(** ** Blocks of files on disk *)

(** [seek] to [offset] and [write_all]: the gap reads as zeros. *)
Definition write_at (data : list Z) (offset : nat) (bytes : list Z) : list Z :=
  if decide (bytes = []) then data
  else take offset (data ++ replicate (offset - length data) 0) ++ bytes ++ drop (offset + length bytes) data.

(** Files by their components below the root. *)
Abbreviation FileDisk := (gmap (list text) (list Z)).

Definition full_path (root path : text) : list text := (path_key (t_join root path)).2.

Section Native.
Context (root : text).

(** [read_delivers] bounds what the one [read] call returns. *)
Definition read_block (read_delivers : nat -> nat) (d : FileDisk) (path : text) (offset size : nat)
  : result SyncthingError (list Z) :=
  match d !! full_path root path with
  | None => Err EIo
  | Some data => Ok (take (Nat.min size (read_delivers size)) (drop offset data))
  end.

(** [io] says whether the calls succeed. *)
Definition write_block (io : bool) (d : FileDisk) (path : text) (offset : nat) (bytes : list Z)
  : result SyncthingError unit * FileDisk :=
  if io then
    let p := full_path root path in
    (Ok tt, <[p := write_at (default [] (d !! p)) offset bytes]> d)
  else (Err EIo, d).

Definition native_exists (d : FileDisk) (path : text) : bool := bool_decide (is_Some (d !! full_path root path)).

(** Removing a file; [lost_link] is a link whose target is missing. *)
Definition native_remove (lost_link : bool) (d : FileDisk) (path : text) : result SyncthingError unit * FileDisk :=
  if lost_link then (Err EIo, d)
  else match d !! full_path root path with
       | None => (Err EIo, d)
       | Some _ => (Ok tt, base.delete (full_path root path) d)
       end.

Inductive RenameOutcome := RenameDone | RenameCrossDevice | RenameError.

Definition move_file (d : FileDisk) (from to : list text) : FileDisk :=
  match d !! from with
  | Some data => <[to := data]> (base.delete from d)
  | None => d
  end.

(** [copied] is how much [fs::copy] writes before it fails, [None] when it
    succeeds; [removed] whether the original can be deleted. *)
Definition copy_and_delete (copied : option nat) (removed : bool) (d : FileDisk) (from to : list text)
  : result SyncthingError unit * FileDisk :=
  match d !! from with
  | None => (Err EIo, d)
  | Some data =>
      match copied with
      | Some n => (Err EIo, <[to := take n data]> d)
      | None => if removed then (Ok tt, base.delete from (<[to := data]> d)) else (Err EIo, <[to := data]> d)
      end
  end.

Definition native_rename (outcome : RenameOutcome) (copied : option nat) (removed : bool) (d : FileDisk)
    (from to : text) : result SyncthingError unit * FileDisk :=
  let f := full_path root from in
  let t := full_path root to in
  match outcome with
  | RenameDone => match d !! f with Some _ => (Ok tt, move_file d f t) | None => (Err EIo, d) end
  | RenameCrossDevice => copy_and_delete copied removed d f t
  | RenameError => (Err EIo, d)
  end.

End Native.

(** [atomic_write]: the disks a crash may leave, in order; the last one is the
    result. *)
Definition atomic_write_states (d : FileDisk) (path temp : list text) (data : list Z) : list FileDisk :=
  ((fun n => <[temp := take n data]> d) <$> seq 0 (S (length data))) ++ [<[path := data]> (base.delete temp (<[temp := data]> d))].

(** ** The watcher *)

Inductive FsEvent := Created (p : text) | Modified (p : text) | Removed (p : text) | Renamed (a b : text).

#[global] Instance FsEvent_eq_dec : EqDecision FsEvent.
Proof. solve_decision. Defined.

Definition event_paths (e : FsEvent) : list text :=
  match e with
  | Created p | Modified p | Removed p => [p]
  | Renamed a b => [a; b]
  end.

Definition affects (e : FsEvent) (p : text) : bool := bool_decide (p ∈ event_paths e).

Inductive EventKind := KindCreate | KindModify | KindRemove | KindAccess | KindAny | KindOther.

Definition convert_event (exists_now : text -> bool) (kind : EventKind) (paths : list text) : list FsEvent :=
  match kind with
  | KindCreate => Created <$> paths
  | KindModify => Modified <$> paths
  | KindRemove => Removed <$> paths
  | KindAccess => []
  | KindAny | KindOther => (fun p => if exists_now p then Modified p else Removed p) <$> paths
  end.

Definition collector_add (events : list FsEvent) (e : FsEvent) : list FsEvent :=
  match e with
  | Created p => filter (fun x => x <> Removed p) events ++ [e]
  | Removed p => filter (fun x => affects x p = false) events ++ [e]
  | _ => events ++ [e]
  end.

Definition take_all (events : list FsEvent) : list FsEvent * list FsEvent := (events, []).

(** The debouncing task: [inl] an event of the channel, [inr] the timer with
    the time since the last event. *)
Record Debouncer := mkDebouncer { db_pending : list FsEvent; db_calls : list (list FsEvent) }.

Definition debounce_step (debounce : Z) (s : Debouncer) (i : list FsEvent + Z) : Debouncer :=
  match i with
  | inl events => mkDebouncer (db_pending s ++ events) (db_calls s)
  | inr elapsed =>
      if negb (bool_decide (db_pending s = [])) && (debounce <=? elapsed)
      then mkDebouncer [] (db_calls s ++ [db_pending s])
      else s
  end.

(** ** Hashing covers the file *)

Section Hashing.
Context (sha256 : list Z -> list Z) (read_max : Z -> nat -> nat) (bs : nat).
Hypothesis reads_some : forall o n, (0 < n)%nat -> (0 < read_max o n)%nat.
Hypothesis bs_pos : (0 < bs)%nat.

(** Consecutive pieces from [offset] on. *)
Fixpoint placed (offset : Z) (chunks : list (list Z)) : list (Z * list Z) :=
  match chunks with
  | [] => []
  | c :: cs => (offset, c) :: placed (offset + Z.of_nat (length c)) cs
  end.

Lemma placed_app o a b : placed o (a ++ b) = placed o a ++ placed (o + Z.of_nat (length (concat a))) b.
Proof.
  revert o. induction a as [|c a IH]; intros o; cbn; [by rewrite Z.add_0_r|]. rewrite IH. do 3 f_equal.
  rewrite length_app. lia.
Qed.

Definition chunk_size (c : list Z) : Prop := (0 < length c <= bs)%nat.

Lemma read_batch_spec room offset rest :
  exists chunks rest', read_batch read_max room bs (offset + Z.of_nat (length rest)) offset rest =
      (placed offset chunks, offset + Z.of_nat (length (concat chunks)), rest') /\
    rest = concat chunks ++ rest' /\ Forall chunk_size chunks /\ ((0 < room)%nat -> chunks = [] -> rest = []).
Proof using reads_some bs_pos.
  revert offset rest. induction room as [|room IH]; intros offset rest; cbn [read_batch].
  { exists [], rest. cbn. rewrite Z.add_0_r. split_and!; [done|done|constructor|lia]. }
  destruct rest as [|b rest].
  { rewrite Z.add_0_r, Z.ltb_irrefl. exists [], []. cbn. rewrite Z.add_0_r. split_and!; [done|done|constructor|done]. }
  rewrite (proj2 (Z.ltb_lt offset _)) by (cbn; lia).
  assert (0 < read_max offset bs)%nat as Hr by (apply reads_some; lia).
  destruct (read_chunk read_max bs offset (b :: rest)) as [|x chunk] eqn:Ec.
  { unfold read_chunk in Ec. destruct (Nat.min bs (read_max offset bs)) eqn:Em; [lia|done]. }
  set (c := x :: chunk) in *. assert (c = take (Nat.min bs (read_max offset bs)) (b :: rest)) as Et by (symmetry; exact Ec).
  assert (b :: rest = c ++ drop (length c) (b :: rest)) as Esplit.
  { rewrite Et, length_take. set (k := Nat.min _ (read_max offset bs)). rewrite <-(take_drop k (b :: rest)) at 1. f_equal.
    destruct (decide (k <= length (b :: rest))%nat); [by rewrite Nat.min_l|].
    rewrite !drop_ge; [done|lia|lia]. }
  assert (offset + Z.of_nat (length (b :: rest)) =
    offset + Z.of_nat (length c) + Z.of_nat (length (drop (length c) (b :: rest)))) as El.
  { rewrite Esplit at 1. rewrite length_app. lia. }
  rewrite El. destruct (IH (offset + Z.of_nat (length c)) (drop (length c) (b :: rest))) as (cs & rest' & -> & Er & Hcs & _).
  exists (c :: cs), rest'. cbn [placed concat]. split_and!.
  - do 2 f_equal. rewrite length_app. lia.
  - rewrite <-app_assoc, <-Er. done.
  - constructor; [|done]. unfold chunk_size. rewrite Et at 2. rewrite length_take. split; [cbn; lia|lia].
  - done.
Qed.

Lemma hash_batches_spec fuel offset rest : (length rest < fuel)%nat ->
  exists chunks, hash_batches sha256 read_max fuel bs (offset + Z.of_nat (length rest)) offset rest =
      Some ((fun '(o, c) => block_of sha256 o c) <$> placed offset chunks) /\
    concat chunks = rest /\ Forall chunk_size chunks.
Proof using reads_some bs_pos.
  revert offset rest. induction fuel as [|fuel IH]; intros offset rest Hf; [lia|]. cbn [hash_batches].
  destruct (read_batch_spec HASH_BATCH_SIZE offset rest) as (cs & rest' & -> & Er & Hcs & Hempty). case_decide as Ed.
  - assert (cs = []) as -> by by destruct cs. exists []. rewrite Hempty by (unfold HASH_BATCH_SIZE; lia || done).
    split_and!; [done|done|constructor].
  - assert (cs <> []) as Hne by by destruct cs.
    assert (0 < length (concat cs))%nat as Hpos.
    { destruct Hcs as [|c cs' [Hc _] _]; [done|]. cbn. rewrite length_app. lia. }
    assert (offset + Z.of_nat (length rest) =
      offset + Z.of_nat (length (concat cs)) + Z.of_nat (length rest')) as -> by (rewrite Er, length_app; lia).
    destruct (IH (offset + Z.of_nat (length (concat cs))) rest') as (more & -> & Em & Hm).
    { rewrite Er, length_app in Hf. lia. }
    exists (cs ++ more). cbn. split_and!.
    + by rewrite placed_app, fmap_app.
    + by rewrite concat_app, Em.
    + by apply Forall_app.
Qed.

End Hashing.

(** Hashing a file ends and its blocks cover it exactly, however little a
    read delivers: they are consecutive, none is empty or larger than the block
    size, each carries the hash of the bytes at its place, and the pieces joined
    are the file. *)
Theorem fs_blocks_cover_file sha256 read_max data block_size :
  (forall o n, (0 < n)%nat -> (0 < read_max o n)%nat) -> 0 < block_size ->
  exists chunks,
    compute_block_hashes sha256 read_max data block_size = Some ((fun '(o, c) => block_of sha256 o c) <$> placed 0 chunks) /\
    concat chunks = data /\ Forall (fun c => (0 < length c <= Z.to_nat block_size)%nat) chunks.
Proof.
  intros Hr Hb. unfold compute_block_hashes.
  destruct (hash_batches_spec sha256 read_max (Z.to_nat block_size) Hr ltac:(lia) (S (length data)) 0 data)
    as (chunks & E & Hc & Hs); [lia|]. exists chunks. split_and!; [exact E|done|done].
Qed.

(** ** Writing blocks *)

Lemma length_write_at data offset bytes : bytes <> [] ->
  length (write_at data offset bytes) = Nat.max (length data) (offset + length bytes).
Proof.
  intros Hne. unfold write_at. rewrite decide_False by done.
  rewrite !length_app, length_take, length_app, length_replicate, length_drop. lia.
Qed.

Lemma lookup_write_at data offset bytes i : bytes <> [] ->
  write_at data offset bytes !! i =
    if decide (offset <= i < offset + length bytes)%nat then bytes !! (i - offset)%nat
    else if decide (i < length data)%nat then data !! i
    else if decide (i < offset)%nat then Some 0 else None.
Proof.
  intros Hne. unfold write_at. rewrite decide_False by done.
  set (pad := data ++ replicate (offset - length data) 0).
  assert (offset <= length pad)%nat as Hp by (unfold pad; rewrite length_app, length_replicate; lia).
  assert (length (take offset pad) = offset) as Hl by (rewrite length_take; lia).
  destruct (decide (i < offset)%nat) as [Hi|Hi].
  - rewrite lookup_app_l by lia. rewrite lookup_take_lt by done. rewrite decide_False by lia. unfold pad.
    destruct (decide (i < length data)%nat); [by rewrite lookup_app_l|]. rewrite lookup_app_r by lia.
    apply lookup_replicate_2. lia.
  - rewrite lookup_app_r by lia. rewrite Hl. destruct (decide (i < offset + length bytes)%nat) as [Hb|Hb].
    + rewrite lookup_app_l by lia. by rewrite decide_True by lia.
    + rewrite lookup_app_r by lia. rewrite lookup_drop, decide_False by lia.
      replace (offset + length bytes + (i - offset - length bytes))%nat with i by lia.
      destruct (decide (i < length data)%nat); [done|]. by rewrite lookup_ge_None_2 by lia.
Qed.

(** A block of [content] at its offset. *)
Definition block_at (content : list Z) (b : nat * nat) : list Z := take b.2 (drop b.1 content).

Definition fs_write_blocks (content : list Z) (bs : list (nat * nat)) (data : list Z) : list Z :=
  fold_left (fun d b => write_at d b.1 (block_at content b)) bs data.

Lemma write_blocks_agree content bs data i :
  Forall (fun b => (0 < b.2 /\ b.1 + b.2 <= length content)%nat) bs ->
  (length data <= length content)%nat ->
  (length (fs_write_blocks content bs data) <= length content)%nat /\
  ((i < length data)%nat /\ data !! i = content !! i \/ Exists (fun b => (b.1 <= i < b.1 + b.2)%nat) bs ->
    fs_write_blocks content bs data !! i = content !! i /\ (i < length (fs_write_blocks content bs data))%nat).
Proof.
  intros Hbs. revert data. induction Hbs as [|b bs [Hb1 Hb2] Hbs IH]; intros data Hl; cbn [fs_write_blocks fold_left].
  { split; [done|]. intros [[? ?]|Hx]; [done|by inversion Hx]. }
  assert (length (block_at content b) = b.2) as Hlen by (unfold block_at; rewrite length_take, length_drop; lia).
  assert (block_at content b <> []) as Hne by (intros E; rewrite E in Hlen; cbn in Hlen; lia).
  assert (length (write_at data b.1 (block_at content b)) <= length content)%nat as Hl'.
  { rewrite length_write_at by done. lia. }
  destruct (IH _ Hl') as [Hlen' Hag]. split; [done|]. intros Hi. apply Hag. clear Hag IH.
  rewrite length_write_at, lookup_write_at, Hlen by done. destruct (decide (b.1 <= i < b.1 + b.2)%nat) as [Hin|Hout].
  - left. split; [lia|]. unfold block_at. rewrite lookup_take_lt, lookup_drop by lia. f_equal. lia.
  - destruct Hi as [[Hid Hic]|Hx]; [left; split; [lia|by rewrite decide_True]|]. right. by apply Exists_cons in Hx as [|].
Qed.

(** A file is assembled by writing its blocks in any order, each any number
    of times, to a file that did not exist: when they cover the content, the
    result is the content. *)
Theorem fs_blocks_any_order content bs :
  Forall (fun b => (0 < b.2 /\ b.1 + b.2 <= length content)%nat) bs ->
  (forall i, (i < length content)%nat -> Exists (fun b => (b.1 <= i < b.1 + b.2)%nat) bs) ->
  fs_write_blocks content bs [] = content.
Proof.
  intros Hbs Hcov. apply list_eq. intros i.
  destruct (write_blocks_agree content bs [] i Hbs) as [Hl Hag]; [cbn; lia|].
  destruct (decide (i < length content)%nat) as [Hi|Hi]; [by apply Hag; right; apply Hcov|].
  rewrite !lookup_ge_None_2 by lia. done.
Qed.

(** ** Pruning *)

Section NodeInd.
Context (P : FsNode -> Prop).
Hypothesis Hfile : forall t m d, P (FsFile t m d).
Hypothesis Hlink : forall t m x, P (FsLink t m x).
Hypothesis Hdir : forall t m cs, Forall (fun '(_, c) => P c) cs -> P (FsDir t m cs).

Lemma node_ind : forall n, P n.
Proof using Hfile Hlink Hdir.
  fix IH 1. intros [t m d|t m cs|t m x]; [apply Hfile| |apply Hlink]. apply Hdir.
  induction cs as [|[name c] cs IHcs]; constructor; [apply IH|exact IHcs].
Qed.

End NodeInd.

Section Pruning.
Context (ignored : text -> bool).

(** What is below an ignored directory is ignored. *)
Definition closed_below : Prop := forall p n, ignored p = true -> ignored (child_path p n) = true.

Abbreviation kept := (filter (fun '(p, _) => ignored p = false)).

Lemma walk_below_ignored skip n rel : closed_below -> ignored rel = true -> kept (fs_walk skip rel n) = [].
Proof.
  intros Hcl. revert rel. induction n as [| |t m cs IH] using node_ind; intros rel Hrel; [done|done|].
  cbn [fs_walk]. induction IH as [|[name c] cs Hc _ IHcs]; [done|].
  assert (ignored (child_path rel name) = true) as Hp by by apply Hcl.
  rewrite filter_cons_False by congruence. rewrite filter_app. rewrite IHcs, app_nil_r.
  destruct (node_is_dir c && _); [done|]. by apply Hc.
Qed.

Lemma walk_prune skip n rel : closed_below -> (forall p, skip p = true -> ignored p = true) ->
  kept (fs_walk skip rel n) = kept (fs_walk (fun _ => false) rel n).
Proof.
  intros Hcl Hskip. revert rel. induction n as [| |t m cs IH] using node_ind; intros rel; [done|done|].
  cbn [fs_walk]. induction IH as [|[name c] cs Hc _ IHcs]; [done|]. rewrite andb_false_r.
  set (p := child_path rel name). rewrite !filter_cons, !filter_app, IHcs.
  assert (kept (if node_is_dir c && skip p then [] else fs_walk skip p c) = kept (fs_walk (fun _ => false) p c)) as ->; [|done].
  destruct (node_is_dir c && skip p) eqn:Es; [|apply Hc]. apply andb_true_iff in Es as [_ Es].
  symmetry. apply walk_below_ignored; [done|by apply Hskip].
Qed.

End Pruning.

(** Skipping ignored directories changes nothing when whatever is below an
    ignored directory is ignored too: both scanners then list exactly the
    entries of the tree that are not ignored. *)
Theorem fs_prune_safe `{RegexCrate} ignore root :
  closed_below (fun p => is_ignored ignore (normalize_separators p)) ->
  let all := filter (fun '(p, _) => is_ignored ignore (normalize_separators p) = false) (fs_walk (fun _ => false) [] root) in
  fs_scan_entries (Some ignore) root = all /\ native_entries ignore root = all.
Proof.
  intros Hcl all. split.
  - apply (walk_prune (fun p => is_ignored ignore (normalize_separators p))); [done|]. by intros p [_ Hp]%andb_true_iff.
  - by apply (walk_prune (fun p => is_ignored ignore (normalize_separators p))).
Qed.

(** ** Files are replaced as a whole *)

(** A crash at any point of an atomic write leaves the file with its old or
    its new content and every other file as it was; only the temporary file may
    be left over. *)
Theorem fs_atomic_write_safe d path temp data d' :
  temp <> path -> d' ∈ atomic_write_states d path temp data ->
  (d' !! path = d !! path \/ d' !! path = Some data) /\
  (forall p, p <> path -> p <> temp -> d' !! p = d !! p).
Proof.
  intros Hne. unfold atomic_write_states. intros [(n & -> & _)%list_elem_of_fmap| ->%list_elem_of_singleton]%elem_of_app.
  - split; [left; by apply lookup_insert_ne|]. intros p _ Ht. by apply lookup_insert_ne.
  - split; [right; apply lookup_insert_eq|]. intros p Hp Ht. rewrite lookup_insert_ne, lookup_delete_ne, lookup_insert_ne; done.
Qed.

(** However a rename ends, the content is still on disk as a whole, under
    the old name or the new one; when it reports success it is under the new. *)
Theorem fs_rename_keeps_content root outcome copied removed d from to data r d' :
  d !! full_path root from = Some data -> full_path root from <> full_path root to ->
  native_rename root outcome copied removed d from to = (r, d') ->
  (d' !! full_path root from = Some data \/ d' !! full_path root to = Some data) /\
  (r = Ok tt -> d' !! full_path root to = Some data /\ d' !! full_path root from = None).
Proof.
  intros Hd Hne. unfold native_rename, copy_and_delete, move_file. rewrite Hd.
  destruct outcome; [| |].
  - intros [= <- <-]. rewrite lookup_insert_eq, lookup_insert_ne, lookup_delete_eq by done. auto.
  - destruct copied as [n|].
    + intros [= <- <-]. rewrite lookup_insert_ne by done. split; [left; exact Hd|intros [=]].
    + destruct removed; intros [= <- <-].
      * rewrite lookup_delete_eq, lookup_delete_ne, lookup_insert_eq by done. auto.
      * rewrite lookup_insert_ne by done. split; [left; exact Hd|intros [=]].
  - intros [= <- <-]. split; [left; exact Hd|intros [=]].
Qed.

(** ** Collected events *)

Definition is_rename (e : FsEvent) : bool := match e with Renamed _ _ => true | _ => false end.

Definition touched (es : list FsEvent) (p : text) : Prop := exists e, e ∈ es /\ p ∈ event_paths e.

Definition collect_all (es : list FsEvent) : list FsEvent := fold_left collector_add es [].

Lemma collector_add_touched es e p : Forall (fun e => is_rename e = false) es ->
  touched (collector_add es e) p <-> touched es p \/ p ∈ event_paths e.
Proof.
  intros Hr. rewrite Forall_forall in Hr. unfold touched.
  assert (forall P : FsEvent -> Prop, forall HP : (forall x, Decision (P x)),
    (forall x, x ∈ es -> ~ P x -> event_paths x ⊆ event_paths e) ->
    (exists x, x ∈ filter P es ++ [e] /\ p ∈ event_paths x) <-> (exists x, x ∈ es /\ p ∈ event_paths x) \/ p ∈ event_paths e) as Hf.
  { intros P HP Hsub. setoid_rewrite elem_of_app. setoid_rewrite list_elem_of_filter. setoid_rewrite list_elem_of_singleton. split.
    - intros (x & [[_ Hx]| ->] & Hp); [left; by exists x|by right].
    - intros [(x & Hx & Hp)|Hp]; [|exists e; auto]. destruct (decide (P x)) as [HPx|HPx]; [exists x; auto|].
      exists e. split; [auto|]. by apply (Hsub x Hx HPx). }
  assert ((exists x, x ∈ es ++ [e] /\ p ∈ event_paths x) <-> (exists x, x ∈ es /\ p ∈ event_paths x) \/ p ∈ event_paths e) as Happ.
  { setoid_rewrite elem_of_app. setoid_rewrite list_elem_of_singleton. split.
    - intros (x & [Hx| ->] & Hp); [left; by exists x|by right].
    - intros [(x & Hx & Hp)|Hp]; [exists x; auto|exists e; auto]. }
  destruct e as [q|q|q|a b]; cbn [collector_add]; [|exact Happ| |exact Happ].
  - apply Hf. intros x Hx Hn. apply dec_stable in Hn. subst x. done.
  - apply Hf. intros x Hx Hn. apply not_false_iff_true in Hn. unfold affects in Hn. apply bool_decide_eq_true in Hn.
    specialize (Hr x Hx). destruct x; try done; cbn in *; set_solver.
Qed.

Lemma collector_add_no_rename es e : Forall (fun e => is_rename e = false) es -> is_rename e = false ->
  Forall (fun e => is_rename e = false) (collector_add es e).
Proof.
  intros Hes He. rewrite Forall_forall in Hes. apply Forall_forall. intros x. destruct e as [q|q|q|a b]; cbn [collector_add];
    rewrite elem_of_app, list_elem_of_singleton; rewrite ?list_elem_of_filter; intros [Hx| ->]; try done; try (by apply Hes).
  - by apply Hes, Hx.
  - by apply Hes, Hx.
Qed.

(** Collecting events loses no path that changed, as long as no rename is
    among them: a path is touched by the collected events iff it was by the
    events added. *)
Theorem fs_collector_keeps_paths es p :
  Forall (fun e => is_rename e = false) es -> touched (collect_all es) p <-> touched es p.
Proof.
  intros Hes. unfold collect_all.
  assert (forall acc, Forall (fun e => is_rename e = false) acc ->
    touched (fold_left collector_add es acc) p <-> touched acc p \/ touched es p) as Hacc.
  { induction Hes as [|e es He Hes IH]; intros acc Ha; cbn [fold_left].
    - split; [by left|]. intros [|(x & Hx & _)]; [done|by apply elem_of_nil in Hx].
    - rewrite IH by (by apply collector_add_no_rename). rewrite collector_add_touched by done. unfold touched.
      split; [intros [[?|?]|(x & Hx & ?)]|intros [?|(x & [->|Hx]%elem_of_cons & ?)]];
        [by left|right; exists e; split; [by left|done]|right; exists x; split; [by right|done]|
         by left; left|by left; right|right; by exists x]. }
  rewrite Hacc by constructor. split; [|by right]. intros [(x & Hx & _)|]; [by apply elem_of_nil in Hx|done].
Qed.

(** ** Witnesses *)

Lemma fs_blocks_cover_file_witness :
  exists chunks, compute_block_hashes (fun d => d) (fun _ _ => 2%nat) [1; 2; 3; 4; 5] 4 =
    Some ((fun '(o, c) => block_of (fun d => d) o c) <$> placed 0 chunks) /\ concat chunks = [1; 2; 3; 4; 5].
Proof.
  destruct (fs_blocks_cover_file (fun d => d) (fun _ _ => 2%nat) [1; 2; 3; 4; 5] 4) as (chunks & E & Hc & _).
  - intros o n _. lia.
  - lia.
  - exists chunks. split; [exact E|exact Hc].
Defined.

Lemma fs_blocks_any_order_witness : fs_write_blocks [1; 2; 3; 4; 5] [(4, 1); (2, 2); (0, 2); (2, 2)]%nat [] = [1; 2; 3; 4; 5].
Proof.
  apply fs_blocks_any_order.
  - repeat constructor; cbn; lia.
  - intros i Hi. do 5 (destruct i as [|i]; [rewrite !Exists_cons; cbn; lia|]). cbn in Hi. lia.
Defined.

(** A directory with one file below it. *)
Definition demo_tree : FsNode :=
  FsDir (0, 0) 0 [(tx"build", FsDir (0, 0) 0 [(tx"out.o", FsFile (0, 0) 0 [1])]); (tx"a.c", FsFile (0, 0) 0 [2])].

Lemma fs_prune_safe_witness :
  fs_scan_entries (Some (ignore_parse (tx"# nothing"))) demo_tree = native_entries (ignore_parse (tx"# nothing")) demo_tree.
Proof.
  destruct (fs_prune_safe (ignore_parse (tx"# nothing")) demo_tree) as [E1 E2].
  - intros p n Hp. exact Hp.
  - rewrite E1, E2. reflexivity.
Defined.

(** A pattern without a slash ignores the directory it names and, by itself,
    all that is below it; an unrelated include brings the files below back. *)
Example unrelated_include_unprunes :
  (fs_scan_entries (Some (ignore_parse (tx"build"))) demo_tree).*1 = [tx"a.c"] /\
  (fs_scan_entries (fmap (M := option) (fun ps => ps) (add_pattern (ignore_parse (tx"build")) (tx"!keep"))) demo_tree).*1 =
    [tx"build/out.o"; tx"a.c"].
Proof. split; vm_compute; reflexivity. Qed.

(** The native file system prunes even when an include brings a file below an
    ignored directory back. *)
Example native_scan_loses_included :
  let ps := default ignore_new (add_pattern (ignore_parse (tx"build/")) (tx"!build/out.o")) in
  allows_skipping_ignored_dirs ps = false /\ is_ignored ps (tx"build/out.o") = false /\
  (native_entries ps demo_tree).*1 = [tx"a.c"] /\ (fs_scan_entries (Some ps) demo_tree).*1 = [tx"build/out.o"; tx"a.c"].
Proof. split_and!; vm_compute; reflexivity. Qed.

(** A link to a file is recorded as a file without blocks, and a link whose
    target is missing makes the scan of the directory fail. *)
Definition demo_links (dangling : bool) (p : text) : option FsNode :=
  if decide (p = tx"r") then Some (FsDir (0, 0) 0 [(tx"l", FsLink (0, 0) 0 (tx"t"))])
  else if decide (p = tx"r/l") then (if dangling then None else Some (FsFile (0, 0) 0 [1; 2; 3]))
  else None.

Example link_scanned_as_file :
  result_map (fun fs : list FileInfo => (fun f => (file_type f, size f, blocks f)) <$> fs)
    (fs_scan_directory (fun d => d) (fun _ n => n) (demo_links false) (fun _ => 0) (tx"r") None) = Ok [(File, 3, [])] /\
  fs_scan_directory (fun d => d) (fun _ n => n) (demo_links true) (fun _ => 0) (tx"r") None = Err EIo.
Proof. split; vm_compute; reflexivity. Qed.

Definition demo_disk : FileDisk := {[ [tx"f"] := [1; 2] ]}.

Lemma fs_atomic_write_safe_witness :
  (<[[tx"t"] := [7]]> demo_disk) !! [tx"f"] = demo_disk !! [tx"f"] \/ (<[[tx"t"] := [7]]> demo_disk) !! [tx"f"] = Some [7; 8].
Proof.
  destruct (fs_atomic_write_safe demo_disk [tx"f"] [tx"t"] [7; 8] (<[[tx"t"] := [7]]> demo_disk)) as [E _].
  - vm_compute. congruence.
  - right. left.
  - exact E.
Defined.

Definition demo_moved_disk : FileDisk :=
  (native_rename (tx"/r") RenameCrossDevice (Some 1%nat) true {[ [tx"r"; tx"f"] := [1; 2] ]} (tx"f") (tx"g")).2.

Lemma fs_rename_keeps_content_witness :
  demo_moved_disk !! [tx"r"; tx"f"] = Some [1; 2] \/ demo_moved_disk !! [tx"r"; tx"g"] = Some [1; 2].
Proof.
  apply (fs_rename_keeps_content (tx"/r") RenameCrossDevice (Some 1%nat) true {[ [tx"r"; tx"f"] := [1; 2] ]}
    (tx"f") (tx"g") [1; 2] (Err EIo)).
  - vm_compute. reflexivity.
  - vm_compute. congruence.
  - unfold demo_moved_disk. rewrite surjective_pairing at 1. f_equal.
Defined.

Lemma fs_collector_keeps_paths_witness :
  touched (collect_all [Created (tx"a"); Removed (tx"a"); Modified (tx"b")]) (tx"a").
Proof.
  apply fs_collector_keeps_paths.
  - repeat constructor.
  - exists (Created (tx"a")). split; [by left|by left].
Defined.

(** A file that is renamed and then removed: that its old name is gone is
    forgotten. *)
Example rename_then_remove_loses_source :
  collect_all [Renamed (tx"a") (tx"b"); Removed (tx"b")] = [Removed (tx"b")].
Proof. vm_compute. reflexivity. Qed.
