(* ===== verification/Discovery.v ===== *)
(** * Finding devices

    Local announcements over UDP ([discovery/local.rs]), the client of the
    global discovery server ([discovery/global.rs]), the discovery manager
    ([discovery/mod.rs]) and the daemon's tasks that feed what they find to the
    connection manager ([tui/discovery_tasks.rs]).

    The network interfaces, the HTTP exchanges and the clock are inputs.
    [overflow_checks] is the build profile: with it a shift by 64 bits or more
    panics ([None]), without it the amount is taken modulo 64. *)

From S2P Require Import Prelude Core DeviceIds Bep Wire Net Relay Dialer Manager Config.

(** ** Local announcements *)

Definition LOCAL_DISCOVERY_MAGIC : Z := 0x2EA7D90B.
Definition LOCAL_DISCOVERY_PORT : Z := 21027.
Definition LOCAL_DISCOVERY_V6_MULTICAST : IpAddr := V6 [0xff12; 0; 0; 0; 0; 0; 0x8384; 21027].
Definition LOCAL_DISCOVERY_INTERVAL : Z := 30.

Record Announce := mkAnnounce {
  an_id : list Z;
  an_addresses : list str;
  an_instance_id : Z;
}.

(** The loop shifts a 64-bit value right by 7, so it ends within ten bytes. *)
Fixpoint put_varint_fuel (fuel : nat) (val : Z) : list Z :=
  match fuel with
  | O => []
  | S fuel' =>
      if 0x80 <=? val then Z.lor (wrap 8 val) 0x80 :: put_varint_fuel fuel' (Z.shiftr val 7)
      else [wrap 8 val]
  end.

Definition put_varint (val : Z) : list Z := put_varint_fuel 10 val.

(** A field is left out when it is empty; a length is cast to [u8]. *)
Definition announce_bytes_field (tag : Z) (value : list Z) : list Z :=
  if decide (value = []) then [] else tag :: wrap 8 (Z.of_nat (length value)) :: value.

Definition address_fields (addresses : list str) : list Z :=
  concat ((fun addr => announce_bytes_field 0x12 (bytes_of_str addr)) <$> addresses).

Definition instance_field (instance_id : Z) : list Z :=
  if instance_id =? 0 then [] else 0x18 :: put_varint (wrap 64 instance_id).

Definition announce_encode (a : Announce) : list Z :=
  announce_bytes_field 0x0a (an_id a) ++ address_fields (an_addresses a) ++ instance_field (an_instance_id a).

Section Profile.
Context (overflow_checks : bool).

(** [x << amount] on a [u64]. *)
Definition shl64 (x amount : Z) : option Z :=
  if 64 <=? amount then
    if overflow_checks then None else Some (wrap 64 (Z.shiftl x (amount mod 64)))
  else Some (wrap 64 (Z.shiftl x amount)).

(** The loop from byte [i] on; the value and the bytes consumed. *)
Fixpoint decode_varint_from (i : nat) (val : Z) (data : list Z) : option (Z * nat) :=
  match data with
  | [] => Some (val, i)
  | b :: data' =>
      let+ x := shl64 (Z.land b 0x7f) (7 * Z.of_nat i) in
      let val := Z.lor val x in
      if Z.land b 0x80 =? 0 then Some (val, S i) else decode_varint_from (S i) val data'
  end.

Definition decode_varint (data : list Z) : option (Z * nat) := decode_varint_from 0 0 data.

(** A length-prefixed value at the front, or [None] when the data end early. *)
Definition take_field (data : list Z) : option (list Z * list Z) :=
  match data with
  | [] => None
  | len :: rest =>
      if (length rest <? Z.to_nat len)%nat then None
      else Some (take (Z.to_nat len) rest, drop (Z.to_nat len) rest)
  end.

(** The loop on the bytes that are left: every turn consumes the tag, so the
    fuel is their number.  An unknown field or a truncated one ends it. *)
Fixpoint decode_loop (fuel : nat) (data : list Z) (a : Announce) : option (result SyncthingError Announce) :=
  match fuel, data with
  | S fuel', tag :: rest =>
      match Z.shiftr tag 3, Z.land tag 0x7 with
      | 1, 2 =>
          match take_field rest with
          | None => Some (Ok a)
          | Some (v, rest) => decode_loop fuel' rest (mkAnnounce v (an_addresses a) (an_instance_id a))
          end
      | 2, 2 =>
          match take_field rest with
          | None => Some (Ok a)
          | Some (v, rest) =>
              if utf8_valid (str_of_bytes v)
              then decode_loop fuel' rest (mkAnnounce (an_id a) (an_addresses a ++ [str_of_bytes v]) (an_instance_id a))
              else Some (Err EProtocol)
          end
      | 3, 0 =>
          match rest with
          | [] => Some (Ok a)
          | _ =>
              let+ (val, consumed) := decode_varint rest in
              decode_loop fuel' (drop consumed rest) (mkAnnounce (an_id a) (an_addresses a) (to_signed 64 val))
          end
      | _, _ => Some (Ok a)
      end
  | _, _ => Some (Ok a)
  end.

Definition announce_decode (data : list Z) : option (result SyncthingError Announce) :=
  decode_loop (length data) data (mkAnnounce [] [] 0).

(** ** The local discovery service *)

Inductive DiscoverySource := DsLocal | DsGlobal | DsConfig | DsRelay.

Inductive DiscoveryEvent :=
| DeviceDiscovered (device_id : DeviceId) (addresses : list str) (source : DiscoverySource)
| AddressesUpdated (device_id : DeviceId) (added removed : list str).

Record LocalDiscovery := mkLocalDiscovery {
  ld_device_id : DeviceId;
  ld_instance_id : Z;
  ld_announce_addrs : list str;
  ld_port : Z;
}.

(** [instance_id] is [rand::random()]. *)
Definition local_discovery_new (device_id : DeviceId) (announce_addrs : list str) (instance_id : Z) : LocalDiscovery :=
  mkLocalDiscovery device_id instance_id announce_addrs LOCAL_DISCOVERY_PORT.

Definition with_port (port : Z) (ld : LocalDiscovery) : LocalDiscovery :=
  mkLocalDiscovery (ld_device_id ld) (ld_instance_id ld) (ld_announce_addrs ld) port.

(** What [netdev::get_interfaces] tells of an interface. *)
Record NetInterface := mkNetInterface {
  ni_up : bool; ni_loopback : bool; ni_running : bool; ni_broadcast : bool; ni_multicast : bool;
  ni_v4_broadcasts : list (list Z);
  ni_has_v6 : bool;
}.

Definition interface_targets (port : Z) (i : NetInterface) : list SocketAddr :=
  if negb (ni_up i) || ni_loopback i || negb (ni_running i) then []
  else
    (if ni_broadcast i then (fun b => mkSocketAddr (V4 b) LOCAL_DISCOVERY_PORT) <$> ni_v4_broadcasts i else []) ++
    (if ni_multicast i && ni_has_v6 i then [mkSocketAddr LOCAL_DISCOVERY_V6_MULTICAST port] else []).

Definition get_broadcast_targets_sync (ifaces : list NetInterface) (port : Z) : list SocketAddr :=
  concat (interface_targets port <$> ifaces) ++ [mkSocketAddr (V4 [255; 255; 255; 255]) port].

Definition announce_of (ld : LocalDiscovery) : Announce :=
  mkAnnounce (device_id_bytes (ld_device_id ld)) (ld_announce_addrs ld) (to_signed 64 (ld_instance_id ld)).

Definition announce_packet (ld : LocalDiscovery) : list Z :=
  put_u32 LOCAL_DISCOVERY_MAGIC ++ announce_encode (announce_of ld).

(** [broadcast]: the datagrams handed to the sockets.  [None] for a list of
    interfaces is the failed enumeration; without a v6 socket the v6 targets are
    skipped; a datagram that cannot be sent is only logged. *)
Definition broadcast (ld : LocalDiscovery) (ifaces : option (list NetInterface)) (v4_bound v6_bound : bool)
    : result SyncthingError (list (SocketAddr * list Z)) :=
  let? interfaces := ok_or ifaces ENetwork in
  if negb v4_bound then Err ENetwork
  else Ok ((fun t => (t, announce_packet ld)) <$>
        filter (fun t => match sa_ip t with V4 _ => true | V6 _ => v6_bound end = true)
          (get_broadcast_targets_sync interfaces (ld_port ld))).

(** [listen_once] on one datagram. *)
Definition listen_once (packet : list Z) : option (result SyncthingError Announce) :=
  if (length packet <? 4)%nat then Some (Err EProtocol)
  else if negb (be_combine (take 4 packet) =? LOCAL_DISCOVERY_MAGIC) then Some (Err EProtocol)
  else announce_decode (drop 4 packet).

(** [handle_packet] on one datagram, or on a receive error: the event it
    sends. *)
Definition handle_packet (self : DeviceId) (received : option (list Z)) : option (option DiscoveryEvent) :=
  match received with
  | None => Some None
  | Some packet =>
      if (length packet <? 4)%nat then Some None
      else if negb (be_combine (take 4 packet) =? LOCAL_DISCOVERY_MAGIC) then Some None
      else
        let+ decoded := announce_decode (drop 4 packet) in
        Some match decoded with
             | Err _ => None
             | Ok a => match from_bytes (an_id a) with
                       | Err _ => None
                       | Ok device_id =>
                           if decide (device_id = self) then None
                           else Some (DeviceDiscovered device_id (an_addresses a) DsLocal)
                       end
             end
  end.

(** [run]: the events sent for a sequence of datagrams of either socket; a
    panic ends the task. *)
Fixpoint local_run (self : DeviceId) (packets : list (option (list Z))) : list DiscoveryEvent * bool :=
  match packets with
  | [] => ([], true)
  | p :: packets' =>
      match handle_packet self p with
      | None => ([], false)
      | Some e => let '(es, live) := local_run self packets' in (from_option (fun x => [x]) [] e ++ es, live)
      end
  end.
End Profile.

(** ** Texts of addresses ([Display] of [std::net]) *)

Definition digit_char (d : Z) : ascii := ascii_of_nat (Z.to_nat (if d <? 10 then 48 + d else 87 + d)).

(** The digits of [n], most significant first, before [acc]; five digits are
    enough for 16 bits. *)
Fixpoint number_fuel (fuel : nat) (radix n : Z) (acc : str) : str :=
  match fuel with
  | O => acc
  | S fuel' =>
      let acc := digit_char (n mod radix) :: acc in
      if n <? radix then acc else number_fuel fuel' radix (n / radix) acc
  end.

Definition display_number (radix n : Z) : str := number_fuel 5 radix n [].

Definition display_v4 (os : list Z) : str := join ($".") (display_number 10 <$> os).

(** The first longest run of zero segments: its start and length, [run] the
    length of the run that ends at [i]. *)
Fixpoint longest_zeroes (i run : nat) (best : nat * nat) (ss : list Z) : nat * nat :=
  match ss with
  | [] => best
  | s :: ss' =>
      if s =? 0 then
        let run := S run in
        longest_zeroes (S i) run (if (best.2 <? run)%nat then ((S i - run)%nat, run) else best) ss'
      else longest_zeroes (S i) 0 best ss'
  end.

Definition display_segments (ss : list Z) : str := join ($":") (display_number 16 <$> ss).

Definition display_v6 (ss : list Z) : str :=
  match ss with
  | [0; 0; 0; 0; 0; 0xffff; a; b] =>
      $"::ffff:" ++ display_v4 [a / 256; a mod 256; b / 256; b mod 256]
  | _ =>
      let '(start, len) := longest_zeroes 0 0 (0%nat, 0%nat) ss in
      if (1 <? len)%nat
      then display_segments (take start ss) ++ $"::" ++ display_segments (drop (start + len) ss)
      else display_segments ss
  end.

Definition display_socket_addr (a : SocketAddr) : str :=
  match sa_ip a with
  | V4 os => display_v4 os
  | V6 ss => $"[" ++ display_v6 ss ++ $"]"
  end ++ $":" ++ display_number 10 (sa_port a).

(** [format!("tcp://{}", addr)] *)
Definition tcp_url (a : SocketAddr) : str := $"tcp://" ++ display_socket_addr a.

(** ** The global discovery client *)

Definition DEFAULT_DISCOVERY_SERVER : str := $"https://discovery.syncthing.net/v2/".
Definition ANNOUNCE_INTERVAL : Z := 1800.
Definition RETRY_INTERVAL : Z := 300.

(** [serde_json::Value], as far as [query] looks into it. *)
Inductive JsonValue :=
| JvString (s : str)
| JvArray (vs : list JsonValue)
| JvObject (fields : list (str * JsonValue))
| JvOther.

Record GlobalDiscovery := mkGlobalDiscovery { gd_server_url : str; gd_device_id : DeviceId }.

Definition with_server (device_id : DeviceId) (server_url : str) : GlobalDiscovery :=
  mkGlobalDiscovery (if ends_with ($"/") server_url then server_url else server_url ++ $"/") device_id.

Definition global_discovery_new (device_id : DeviceId) : GlobalDiscovery :=
  with_server device_id DEFAULT_DISCOVERY_SERVER.

(** The files that can be read, and whether the identity and the client can be
    made from them. *)
Definition from_cert_files (device_id : DeviceId) (cert key : option (list Z))
    (identity : list Z -> bool) (client : bool) (server_url : option str) : result SyncthingError GlobalDiscovery :=
  let? cert_pem := ok_or cert EConfig in
  let? key_pem := ok_or key EConfig in
  if negb (identity (cert_pem ++ key_pem)) then Err ETls
  else if negb client then Err ENetwork
  else Ok (mkGlobalDiscovery (default DEFAULT_DISCOVERY_SERVER server_url) device_id).

(** [format!("{}?device={}", self.server_url, device)]; [None] is a panic of
    the ID's [Display]. *)
Definition device_url (gd : GlobalDiscovery) (device : DeviceId) : option str :=
  let+ id := device_id_to_string device in
  Some (gd_server_url gd ++ $"?device=" ++ str_of_bytes id).

Definition is_success (status : Z) : bool := (200 <=? status) && (status <=? 299).

(** [post url addresses] and [get url]: the response of the server, or [None]
    when the request fails; a body that is not JSON is [None]. *)
Record HttpClient (W : Type) := mkHttpClient {
  http_post : str -> list str -> W -> option Z * W;
  http_get : str -> W -> option (Z * option JsonValue) * W;
}.
Arguments http_post {W}.
Arguments http_get {W}.

Section Global.
Context {W : Type} (http : HttpClient W).

Definition global_announce (gd : GlobalDiscovery) (addresses : list str) (w : W) : option (result SyncthingError unit * W) :=
  let+ url := device_url gd (gd_device_id gd) in
  let '(resp, w) := http_post http url addresses w in
  Some (match resp with
        | None => Err ENetwork
        | Some status => if is_success status then Ok tt else Err ENetwork
        end, w).

Definition as_str (v : JsonValue) : option str := match v with JvString s => Some s | _ => None end.

Definition as_array (v : JsonValue) : option (list JsonValue) := match v with JvArray vs => Some vs | _ => None end.

(** A repeated key keeps its last value. *)
Definition json_get (key : str) (v : JsonValue) : option JsonValue :=
  match v with
  | JvObject fields => snd <$> last (filter (fun f => f.1 = key) fields)
  | _ => None
  end.

Definition addresses_of (data : JsonValue) : list str :=
  match json_get ($"addresses") data ≫= as_array with
  | Some arr => omap as_str arr
  | None => []
  end.

Definition query (gd : GlobalDiscovery) (target : DeviceId) (w : W) : option (result SyncthingError (list str) * W) :=
  let+ url := device_url gd target in
  let '(resp, w) := http_get http url w in
  Some (match resp with
        | None => Err ENetwork
        | Some (status, body) =>
            if is_success status then result_map addresses_of (ok_or body ENetwork)
            else if status =? 404 then Ok []
            else Err ENetwork
        end, w).
End Global.

(** *** The announce loop *)

(** Between two awaits of [run]: about to announce, in the sleep after a
    failure, in the [select!], or returned. *)
Inductive GlPhase := GlReady | GlRetrying | GlWaiting | GlStopped.

#[global] Instance GlPhase_eq_dec : EqDecision GlPhase.
Proof. solve_decision. Defined.

(** [gl_since]: the start of the sleep; [gl_permit]: the stored permit of
    [notify]; [gl_shutdown]: a message waits in [shutdown_rx]. *)
Record GlobalLoop := mkGlobalLoop {
  gl_phase : GlPhase;
  gl_since : Z;
  gl_permit : bool;
  gl_shutdown : bool;
}.

Definition global_loop_start : GlobalLoop := mkGlobalLoop GlReady 0 false false.

Inductive GlEvent :=
| GlTrigger
| GlShutdown
| GlAnnounce (addresses : list str) (ok : bool)
| GlRetry
| GlInterval
| GlNotified
| GlShutdownSeen.

(** One step at time [now]; [None]: the event cannot happen in this state. *)
Definition global_loop_step (now : Z) (e : GlEvent) (l : GlobalLoop) : option GlobalLoop :=
  let goto p since := mkGlobalLoop p since (gl_permit l) (gl_shutdown l) in
  match e, gl_phase l with
  | GlTrigger, _ => Some (mkGlobalLoop (gl_phase l) (gl_since l) true (gl_shutdown l))
  | GlShutdown, _ => Some (mkGlobalLoop (gl_phase l) (gl_since l) (gl_permit l) true)
  | GlAnnounce addresses ok, GlReady =>
      Some (goto (if decide (addresses = []) then GlWaiting else if ok then GlWaiting else GlRetrying) now)
  | GlRetry, GlRetrying => if gl_since l + RETRY_INTERVAL <=? now then Some (goto GlReady now) else None
  | GlInterval, GlWaiting => if gl_since l + ANNOUNCE_INTERVAL <=? now then Some (goto GlReady now) else None
  | GlNotified, GlWaiting =>
      if gl_permit l then Some (mkGlobalLoop GlReady now false (gl_shutdown l)) else None
  | GlShutdownSeen, GlWaiting => if gl_shutdown l then Some (goto GlStopped now) else None
  | _, _ => None
  end.

(** ** The daemon's tasks *)

(** One turn of the query loop for a peer. *)
Definition tcp_addrs_of (urls : list str) : list SocketAddr :=
  omap (fun u => strip_prefix ($"tcp://") u ≫= parse_socket_addr) urls.

Definition relay_urls_of (urls : list str) : list str := filter (fun u => starts_with ($"relay://") u = true) urls.

Definition handle_query_result (peer : DeviceId) (r : result SyncthingError (list str)) (m : Manager) : Manager :=
  match r with
  | Err _ => m
  | Ok urls =>
      let tcp_addrs := tcp_addrs_of urls in
      let relay_urls := relay_urls_of urls in
      if negb (bool_decide (tcp_addrs = [])) || negb (bool_decide (relay_urls = []))
      then update_addresses peer tcp_addrs relay_urls m
      else m
  end.

Fixpoint query_tick {W : Type} (http : HttpClient W) (gd : GlobalDiscovery) (peers : list DeviceId) (w : W) (m : Manager)
    : option (W * Manager) :=
  match peers with
  | [] => Some (w, m)
  | p :: peers' =>
      let+ (r, w) := query http gd p w in
      query_tick http gd peers' w (handle_query_result p r m)
  end.

(** The devices the loop asks for: read from the configuration once. *)
Definition query_devices (devices : list DeviceId) (local_device_id : DeviceId) : list DeviceId :=
  filter (fun d => d <> local_device_id) devices.

(** [spawn_local_discovery]: what is announced, and the task that receives the
    events.  [a.parse()] reads a bare socket address. *)
Definition discovery_addrs (actual_addr : SocketAddr) (public_addrs : list str) : list str :=
  tcp_url actual_addr :: public_addrs.

Definition handle_discovery_event (known : gset DeviceId) (e : DiscoveryEvent) (m : Manager) : Manager :=
  match e with
  | DeviceDiscovered device_id addresses _ =>
      if decide (device_id ∈ known) then
        let addrs := omap parse_socket_addr addresses in
        if decide (addrs = []) then m
        else
          let m := update_addresses device_id addrs [] m in
          match get_connection m device_id with
          | None => connect_to_with_relay device_id addrs [] m
          | Some _ => m
          end
      else m
  | AddressesUpdated _ _ _ => m
  end.

(** ** Announcements: what is sent is what is read *)

Lemma lor_shiftl_add acc x k : 0 <= k -> 0 <= acc < 2 ^ k -> Z.lor acc (Z.shiftl x k) = acc + x * 2 ^ k.
Proof.
  intros Hk Ha. rewrite Z.shiftl_mul_pow2 by lia. rewrite <- Z.add_lor_land.
  replace (Z.land acc (x * 2 ^ k)) with 0; [lia|]. symmetry. apply Z.bits_inj'. intros n Hn.
  rewrite Z.land_spec, Z.bits_0, Z.mul_pow2_bits by lia. destruct (decide (n < k)).
  - rewrite (Z.testbit_neg_r x) by lia. apply andb_false_r.
  - destruct (decide (acc = 0)) as [-> |]; [by rewrite Z.bits_0|].
    assert (Z.log2 acc < k) by (apply Z.log2_lt_pow2; lia).
    by rewrite (Z.bits_above_log2 acc n) by lia.
Qed.

Lemma continuation_payload v : Z.land (Z.lor (wrap 8 v) 128) 127 = v mod 128.
Proof.
  rewrite Z.land_lor_distr_l. change (Z.land 128 127) with 0. rewrite Z.lor_0_r.
  change 127 with (Z.ones 7). rewrite Z.land_ones by lia. unfold wrap.
  change (2 ^ 7) with 128. change (2 ^ 8) with (128 * 2). by rewrite mod_mul_mod by lia.
Qed.

Lemma continuation_flag v : (Z.land (Z.lor (wrap 8 v) 128) 128 =? 0) = false.
Proof.
  apply Z.eqb_neq. intros E. assert (T : Z.testbit (Z.land (Z.lor (wrap 8 v) 128) 128) 7 = true).
  { rewrite Z.land_spec, Z.lor_spec. by rewrite orb_true_r. }
  by rewrite E, Z.bits_0 in T.
Qed.

Lemma shl64_fits checks x i :
  0 <= x -> 0 <= i < 64 -> x * 2 ^ i < 2 ^ 64 -> shl64 checks x i = Some (Z.shiftl x i).
Proof.
  intros Hx Hi Hb. unfold shl64. destruct (Z.leb_spec 64 i) as [|_]; [lia|].
  rewrite wrap_id; [done|]. rewrite Z.shiftl_mul_pow2 by lia. split; nia.
Qed.

Lemma varint_last checks i acc v (data : list Z) :
  0 <= 7 * Z.of_nat i < 64 -> 0 <= acc < 2 ^ (7 * Z.of_nat i) -> 0 <= v < 128 ->
  v * 2 ^ (7 * Z.of_nat i) < 2 ^ 64 ->
  decode_varint_from checks i acc (wrap 8 v :: data) = Some (acc + v * 2 ^ (7 * Z.of_nat i), (i + 1)%nat).
Proof.
  intros Hk Ha Hv Hb. cbn [decode_varint_from]. rewrite wrap_id by (split; cbn; lia).
  assert (E : Z.land v 127 = v).
  { change 127 with (Z.ones 7). rewrite Z.land_ones by lia. apply Z.mod_small. cbn; lia. }
  rewrite E, shl64_fits by lia. cbn. rewrite lor_shiftl_add by lia.
  assert (F : Z.land v 128 = 0).
  { rewrite <- E, <- Z.land_assoc. change (Z.land 127 128) with 0. apply Z.land_0_r. }
  rewrite F. cbn. f_equal. f_equal. lia.
Qed.

Lemma put_varint_S f v :
  put_varint_fuel (S f) v =
  if 128 <=? v then Z.lor (wrap 8 v) 128 :: put_varint_fuel f (Z.shiftr v 7) else [wrap 8 v].
Proof. done. Qed.

(** The loop of the reader on the bytes of the writer, started at byte [i]. *)
Lemma varint_from checks rest f : forall i acc v,
  (S f + i)%nat = 10%nat -> 0 <= acc < 2 ^ (7 * Z.of_nat i) -> 0 <= v -> v * 2 ^ (7 * Z.of_nat i) < 2 ^ 64 ->
  decode_varint_from checks i acc (put_varint_fuel (S f) v ++ rest) =
  Some (acc + v * 2 ^ (7 * Z.of_nat i), (i + length (put_varint_fuel (S f) v))%nat).
Proof.
  induction f as [|f IH]; intros i acc v Hf Ha Hv Hb;
    set (k := 7 * Z.of_nat i) in *; assert (Hk : 0 <= k < 64) by (unfold k; lia);
    assert (Hp : 0 < 2 ^ k) by (apply Z.pow_pos_nonneg; lia);
    rewrite (put_varint_S _ v); destruct (Z.leb_spec 128 v) as [Hge|Hlt].
  - replace k with 63 in * by (unfold k; lia). change (2 ^ 64) with (2 * 2 ^ 63) in Hb. nia.
  - cbn [app decode_varint_from length]. by apply varint_last.
  - cbn [app decode_varint_from length]. rewrite continuation_payload, continuation_flag.
    pose proof (Z.mod_pos_bound v 128 ltac:(lia)) as Hm. pose proof (Z.div_mod v 128 ltac:(lia)) as Hd.
    fold k. rewrite shl64_fits by nia. cbn [mbind option_bind]. rewrite lor_shiftl_add by lia.
    assert (Ek : 7 * Z.of_nat (S i) = k + 7) by (unfold k; lia).
    assert (E2 : 2 ^ (k + 7) = 2 ^ k * 128) by (rewrite Z.pow_add_r by lia; done).
    rewrite Z.shiftr_div_pow2 by lia. change (2 ^ 7) with 128.
    assert (Hq : 0 <= v / 128) by (apply Z.div_pos; lia).
    rewrite IH; [|lia|rewrite Ek, E2; nia|done|rewrite Ek, E2; nia].
    rewrite Ek, E2. f_equal. f_equal; [nia|lia].
  - cbn [app decode_varint_from length]. by apply varint_last.
Qed.

Lemma varint_roundtrip checks v rest :
  in_u 64 v -> decode_varint checks (put_varint v ++ rest) = Some (v, length (put_varint v)).
Proof.
  intros [H1 H2]. unfold decode_varint, put_varint. rewrite varint_from; [|done|cbn; lia|done|cbn; lia].
  f_equal. f_equal; cbn; lia.
Qed.

Lemma take_field_app v rest :
  (length v < 256)%nat -> take_field (wrap 8 (Z.of_nat (length v)) :: v ++ rest) = Some (v, rest).
Proof.
  intros Hl. cbn [take_field]. rewrite wrap_id by (split; cbn; lia). rewrite Nat2Z.id, length_app.
  destruct (Nat.ltb_spec (length v + length rest) (length v)); [lia|].
  by rewrite take_app_length, drop_app_length.
Qed.

Lemma decode_id_field checks f v rest a :
  v <> [] -> (length v < 256)%nat ->
  decode_loop checks (S f) (announce_bytes_field 0x0a v ++ rest) a =
  decode_loop checks f rest (mkAnnounce v (an_addresses a) (an_instance_id a)).
Proof.
  intros Hv Hl. unfold announce_bytes_field. rewrite decide_False by done. cbn [decode_loop app].
  change (Z.shiftr 10 3) with 1. change (Z.land 10 7) with 2. by rewrite take_field_app.
Qed.

Lemma decode_address_field checks f s rest a :
  s <> [] -> (length s < 256)%nat -> utf8_valid s = true ->
  decode_loop checks (S f) (announce_bytes_field 0x12 (bytes_of_str s) ++ rest) a =
  decode_loop checks f rest (mkAnnounce (an_id a) (an_addresses a ++ [s]) (an_instance_id a)).
Proof.
  intros Hs Hl Hu. unfold announce_bytes_field.
  rewrite decide_False by (intros E; by apply fmap_nil_inv in E). cbn [decode_loop app].
  change (Z.shiftr 18 3) with 2. change (Z.land 18 7) with 2. rewrite take_field_app.
  - by rewrite str_of_bytes_of_str, Hu.
  - by rewrite length_bytes_of_str.
Qed.

(** An address that one length byte can describe. *)
Definition announceable (s : str) : Prop := (length s < 256)%nat /\ utf8_valid s = true.

#[global] Instance announceable_dec (s : str) : Decision (announceable s).
Proof. unfold announceable. apply _. Defined.

Lemma wrap_wrap_signed z : in_i 64 z -> to_signed 64 (wrap 64 z) = z.
Proof.
  intros Hz. rewrite <- (to_signed_id 64 z) at 2 by (done || lia). unfold to_signed.
  by rewrite (wrap_id 64 (wrap 64 z)) by (apply wrap_range; lia).
Qed.

Lemma decode_instance checks f z a :
  in_i 64 z -> (length (instance_field z) <= f)%nat -> an_instance_id a = 0 ->
  decode_loop checks f (instance_field z) a =
  Some (Ok (mkAnnounce (an_id a) (an_addresses a) z)).
Proof.
  intros Hz Hf Ha. unfold instance_field in *. destruct (Z.eqb_spec z 0) as [-> |Hne].
  { destruct f; cbn; destruct a; cbn in *; by subst. }
  destruct f as [|f]; [cbn in Hf; lia|]. cbn [decode_loop].
  change (Z.shiftr 24 3) with 3. change (Z.land 24 7) with 0. cbv iota.
  destruct (put_varint (wrap 64 z)) as [|b bs] eqn:E; [by apply (f_equal length) in E; unfold put_varint in E; rewrite put_varint_S in E; destruct (128 <=? _)|].
  rewrite <- E. rewrite <- (app_nil_r (put_varint (wrap 64 z))) at 1.
  rewrite varint_roundtrip by (apply wrap_range; lia). cbn [mbind option_bind].
  rewrite drop_all. rewrite wrap_wrap_signed by done. by destruct f.
Qed.

Lemma decode_addresses checks z addrs : forall f a,
  Forall announceable addrs -> in_i 64 z -> an_instance_id a = 0 ->
  (length (address_fields addrs ++ instance_field z) <= f)%nat ->
  decode_loop checks f (address_fields addrs ++ instance_field z) a =
  Some (Ok (mkAnnounce (an_id a) (an_addresses a ++ filter (fun s => s <> []) addrs) z)).
Proof.
  induction addrs as [|s addrs IH]; intros f a Hok Hz Ha Hf; unfold address_fields in *; cbn [fmap list_fmap concat].
  { cbn [app filter list_filter]. rewrite app_nil_r. by apply decode_instance. }
  apply Forall_cons in Hok as [[Hl Hu] Hok]. destruct (decide (s = [])) as [-> |Hs].
  { rewrite filter_cons_False by auto. by apply IH. }
  rewrite filter_cons_True by done. cbn [fmap list_fmap concat] in Hf. rewrite <- app_assoc in *.
  destruct f as [|f].
  { unfold announce_bytes_field in Hf at 1. rewrite decide_False in Hf by (intros E; by apply fmap_nil_inv in E).
    cbn in Hf. lia. }
  rewrite decode_address_field by done. rewrite IH; cbn [an_id an_addresses an_instance_id]; [|done..|].
  - by rewrite <- app_assoc.
  - rewrite length_app in Hf. unfold announce_bytes_field in Hf at 1.
    rewrite decide_False in Hf by (intros E; by apply fmap_nil_inv in E). cbn [length] in Hf. lia.
Qed.

(** What a reader makes of an announcement: the same device, its non-empty
    addresses in order, the same instance, in either build profile. *)
Lemma announce_decode_encode checks a :
  (length (an_id a) < 256)%nat -> Forall announceable (an_addresses a) -> in_i 64 (an_instance_id a) ->
  announce_decode checks (announce_encode a) =
  Some (Ok (mkAnnounce (an_id a) (filter (fun s => s <> []) (an_addresses a)) (an_instance_id a))).
Proof.
  intros Hid Hok Hz. unfold announce_decode, announce_encode. destruct (decide (an_id a = [])) as [E|E].
  - rewrite E. change (announce_bytes_field 10 []) with (@nil Z). cbn [app]. by rewrite decode_addresses.
  - set (rest := address_fields _ ++ _). unfold announce_bytes_field at 1. rewrite decide_False by done.
    cbn [length app].
    replace (10 :: wrap 8 (Z.of_nat (length (an_id a))) :: an_id a ++ rest)
      with (announce_bytes_field 10 (an_id a) ++ rest)
      by (unfold announce_bytes_field; by rewrite decide_False).
    rewrite decode_id_field by done. unfold rest. rewrite decode_addresses; [done..|].
    cbn [length]. rewrite (length_app (an_id a)). unfold rest. lia.
Qed.

(** ** The reader takes any datagram *)

(** Every turn consumes the tag at least, so more fuel than bytes changes
    nothing: the loop ends by itself. *)
Lemma decode_loop_fuel checks : forall f data a,
  (length data <= f)%nat -> decode_loop checks f data a = decode_loop checks (length data) data a.
Proof.
  induction f as [f IH] using (well_founded_induction lt_wf). intros data a Hf.
  destruct data as [|tag rest]; [by destruct f|]. destruct f as [|f]; [cbn in Hf; lia|].
  cbn [length] in *. cbn [decode_loop].
  assert (IHd : forall d a', (length d <= length rest)%nat ->
            decode_loop checks f d a' = decode_loop checks (length rest) d a').
  { intros d a' Hd. rewrite (IH f) by lia. destruct (decide (length rest = f)) as [-> |]; [by rewrite (IH f) by lia|].
    by rewrite (IH (length rest)) by lia. }
  assert (Ht : forall v r, take_field rest = Some (v, r) -> (length r <= length rest)%nat).
  { intros v r. unfold take_field. destruct rest; [done|]. case_match; [done|]. intros [= <- <-].
    rewrite length_drop. cbn. lia. }
  repeat case_match; try done; [|subst; apply IHd; eapply Ht; (done || eassumption)..].
  destruct (decode_varint checks _) as [[v n]|]; [|done]. cbn [mbind option_bind]. apply IHd. rewrite length_drop. lia.
Qed.

Lemma varint_wrapping_total : forall data i val, is_Some (decode_varint_from false i val data).
Proof.
  induction data as [|b data IH]; intros i val; cbn [decode_varint_from]; [by eexists|].
  assert (is_Some (shl64 false (Z.land b 127) (7 * Z.of_nat i))) as [x ->] by (unfold shl64; case_match; by eexists).
  cbn [mbind option_bind]. case_match; [by eexists|apply IH].
Qed.

Lemma decode_loop_total : forall f data a, is_Some (decode_loop false f data a).
Proof.
  induction f as [|f IH]; intros data a; [by destruct data; eexists|]. destruct data as [|tag rest]; [by eexists|].
  cbn [decode_loop]. repeat case_match; try (by eexists); try apply IH.
  destruct (varint_wrapping_total (z :: l) 0 0) as [[v n] E]. unfold decode_varint. rewrite E. cbn [mbind option_bind].
  apply IH.
Qed.

(** The release build answers every sequence of datagrams: the listener never
    ends, whatever bytes arrive on the port. *)
Theorem local_listener_survives self packets : (local_run false self packets).2 = true.
Proof.
  induction packets as [|p packets IH]; [done|]. cbn [local_run].
  assert (is_Some (handle_packet false self p)) as [e ->].
  { unfold handle_packet. repeat case_match; try (by eexists).
    destruct (decode_loop_total (length (drop 4 l)) (drop 4 l) (mkAnnounce [] [] 0)) as [r E].
    unfold announce_decode. rewrite E. by eexists. }
  by destruct (local_run false self packets) as [es live].
Qed.

(** With overflow checks one short datagram ends it: a varint of eleven bytes
    shifts by 70 bits. *)
Example long_varint_stops_listener :
  local_run true (mkDeviceId (replicate 32 0)) [Some (put_u32 LOCAL_DISCOVERY_MAGIC ++ 0x18 :: replicate 11 0x80)] = ([], false).
Proof. vm_compute. reflexivity. Qed.

(** An address of 256 bytes is announced with length 0: the reader takes its
    first byte for the next tag and drops what follows, the instance too. *)
Example long_address_lost :
  announce_decode false (announce_encode (mkAnnounce [1] [replicate 256 "a"%char; $"tcp://10.0.0.1:22001"] 7)) =
  Some (Ok (mkAnnounce [1] [[]] 0)).
Proof. vm_compute. reflexivity. Qed.

(** ** What a device announces reaches its neighbours *)

Lemma local_announce_read checks self (ld : LocalDiscovery) :
  length (device_id_bytes (ld_device_id ld)) = 32%nat -> Forall announceable (ld_announce_addrs ld) ->
  handle_packet checks self (Some (announce_packet ld)) =
  Some (if decide (ld_device_id ld = self) then None
        else Some (DeviceDiscovered (ld_device_id ld) (filter (fun s => s <> []) (ld_announce_addrs ld)) DsLocal)).
Proof.
  intros Hid Hok. unfold handle_packet, announce_packet, put_u32. rewrite length_app, length_be_split.
  destruct (Nat.ltb_spec (4 + length (announce_encode (announce_of ld))) 4); [lia|].
  rewrite take_app_length' by (by rewrite length_be_split). rewrite drop_app_length' by (by rewrite length_be_split).
  change (be_combine (be_split 4 LOCAL_DISCOVERY_MAGIC) =? LOCAL_DISCOVERY_MAGIC) with true. cbn [negb].
  rewrite announce_decode_encode; cbn [announce_of an_id an_addresses an_instance_id];
    [|lia|done|apply to_signed_range; lia].
  cbn [mbind option_bind]. unfold from_bytes. cbn [an_id]. rewrite Hid, Nat.eqb_refl.
  destruct (ld_device_id ld) as [bytes]; cbn. by destruct (decide (mkDeviceId bytes = self)).
Qed.

(** A datagram sent by [broadcast] is read by every other device as the
    discovery of the sender with its addresses; the sender ignores it. *)
Theorem local_announce_received checks self (ld : LocalDiscovery) :
  length (device_id_bytes (ld_device_id ld)) = 32%nat -> Forall announceable (ld_announce_addrs ld) ->
  handle_packet checks self (Some (announce_packet ld)) =
  Some (if decide (ld_device_id ld = self) then None
        else Some (DeviceDiscovered (ld_device_id ld) (filter (fun s => s <> []) (ld_announce_addrs ld)) DsLocal)).
Proof. apply local_announce_read. Qed.

Definition peer_a : DeviceId := mkDeviceId (replicate 32 7).
Definition peer_b : DeviceId := mkDeviceId (replicate 32 9).
Definition lan_a : SocketAddr := mkSocketAddr (V4 [192; 168; 1; 10]) 22001.

Lemma local_announce_received_witness :
  handle_packet true peer_b (Some (announce_packet (local_discovery_new peer_a [tcp_url lan_a; []] (2 ^ 64 - 1)))) =
  Some (Some (DeviceDiscovered peer_a [$"tcp://192.168.1.10:22001"] DsLocal)).
Proof.
  rewrite local_announce_received.
  - vm_compute. reflexivity.
  - reflexivity.
  - repeat apply Forall_cons_2; [split; [vm_compute; lia|vm_compute; reflexivity]..|done].
Defined.

(** ** ... and is not used *)

Lemma parse_tcp_url s : parse_socket_addr ($"tcp://" ++ s) = None.
Proof. done. Qed.

Lemma parse_relay_scheme s : parse_socket_addr ($"relay://" ++ s) = None.
Proof. done. Qed.

(** What the daemon puts into its list of public addresses. *)
Definition announced_url (s : str) : Prop :=
  (exists r, s = $"tcp://" ++ r) \/ (exists r, s = $"relay://" ++ r).

Lemma announced_url_unparsed addrs : Forall announced_url addrs -> omap parse_socket_addr addrs = [].
Proof.
  induction 1 as [|s addrs [[r ->] | [r ->]] _ IH]; [done|..]; cbn [omap list_omap].
  - by rewrite parse_tcp_url.
  - by rewrite parse_relay_scheme.
Qed.

(** The daemon that hears another daemon's announcement leaves its connection
    manager as it was, for every announcement the daemon sends and every set of
    known devices: the announced texts are URLs, the receiver parses bare socket
    addresses. *)
Theorem local_discovery_finds_nobody checks self d actual_addr public_addrs instance known e m :
  length (device_id_bytes d) = 32%nat -> Forall announceable (discovery_addrs actual_addr public_addrs) ->
  Forall announced_url public_addrs ->
  handle_packet checks self
    (Some (announce_packet (local_discovery_new d (discovery_addrs actual_addr public_addrs) instance))) = Some (Some e) ->
  handle_discovery_event known e m = m.
Proof.
  intros Hd Hok Hurl E. set (ld := local_discovery_new _ _ _) in E.
  assert (Hh := local_announce_read checks self ld Hd Hok). rewrite Hh in E.
  case_decide; [done|]. simplify_eq. cbn [handle_discovery_event ld local_discovery_new ld_device_id ld_announce_addrs].
  case_decide; [|done].
  rewrite announced_url_unparsed; [by rewrite decide_True|].
  apply Forall_forall. intros s [_ Hs]%list_elem_of_filter. revert s Hs. apply Forall_forall.
  apply Forall_cons_2; [|done]. left. by eexists.
Qed.

Lemma local_discovery_finds_nobody_witness :
  handle_discovery_event {[ peer_a ]} (DeviceDiscovered peer_a [$"tcp://192.168.1.10:22001"; $"relay://9.9.9.9:22067"] DsLocal)
    (manager_new peer_b 100 30) = manager_new peer_b 100 30.
Proof.
  apply (local_discovery_finds_nobody false peer_b peer_a lan_a [$"relay://9.9.9.9:22067"] 5).
  - reflexivity.
  - repeat apply Forall_cons_2; [split; [vm_compute; lia|vm_compute; reflexivity]..|done].
  - apply Forall_cons_2; [right; by exists ($"9.9.9.9:22067")|done].
  - vm_compute. reflexivity.
Defined.

(** ** Addresses as text *)

Lemma read_digits_app radix acc n s v k r :
  read_digits radix acc n s = (v, k, []) ->
  match r with c :: _ => to_digit radix c = None | [] => True end ->
  read_digits radix acc n (s ++ r) = (v, k, r).
Proof.
  revert acc n. induction s as [|c s IH]; intros acc n E Hr; cbn [read_digits app] in *.
  - simplify_eq. destruct r as [|c r]; [done|]. cbn. by rewrite Hr.
  - destruct (to_digit radix c) eqn:Ed; [by apply IH|]. simplify_eq.
Qed.

(** Each decimal number of 16 bits is read back, from its digits alone. *)
Definition decimal_ok (n : Z) : bool :=
  let s := display_number 10 n in
  let '(v, k, r) := read_digits 10 0 0 s in
  (v =? n) && (k =? length s)%nat && (length r =? 0)%nat &&
  negb (match s with c :: _ => Ascii.eqb c "0" | [] => false end && (1 <? length s)%nat) &&
  (negb (n <? 256) || (length s <=? 3)%nat) && negb (length s =? 0)%nat.

Definition below_256 : list Z := Z.of_nat <$> seq 0 256.

Lemma decimal_all : forallb (fun a => forallb (fun b => decimal_ok (a * 256 + b)) below_256) below_256 = true.
Proof. vm_compute. reflexivity. Qed.

Lemma elem_below_256 n : 0 <= n < 256 -> In n below_256.
Proof.
  intros Hn. apply list_elem_of_In, list_elem_of_fmap. exists (Z.to_nat n). split; [lia|]. apply elem_of_seq. lia.
Qed.

Lemma decimal_number n : in_u 16 n -> decimal_ok n = true.
Proof.
  intros [H1 H2]. change (2 ^ 16) with (256 * 256) in H2.
  pose proof (Z.div_mod n 256 ltac:(lia)) as Hd. pose proof (Z.mod_pos_bound n 256 ltac:(lia)) as Hm.
  assert (Hq : 0 <= n / 256 < 256) by (split; [apply Z.div_pos; lia|apply Z.div_lt_upper_bound; lia]).
  pose proof (proj1 (forallb_forall _ _) decimal_all _ (elem_below_256 _ Hq)) as Hr.
  pose proof (proj1 (forallb_forall _ _) Hr _ (elem_below_256 _ Hm)) as Hs. cbv beta in Hs.
  by replace (n / 256 * 256 + n mod 256) with n in Hs by lia.
Qed.

Lemma read_decimal bits max zero n r :
  in_u 16 n -> n < 2 ^ bits -> (max = None \/ n < 256 /\ max = Some 3%nat) ->
  match r with c :: _ => to_digit 10 c = None | [] => True end ->
  read_number bits 10 max zero (display_number 10 n ++ r) = Some (n, r).
Proof.
  intros Hn Hb Hm Hr. pose proof (decimal_number n Hn) as Hd. unfold decimal_ok in Hd.
  destruct (read_digits 10 0 0 (display_number 10 n)) as [[v k] r0] eqn:E.
  repeat (apply andb_prop in Hd as [Hd ?]). apply Z.eqb_eq in Hd as ->.
  rename select ((length r0 =? 0)%nat = true) into E0. apply Nat.eqb_eq, nil_length_inv in E0 as ->.
  rename select ((k =? _)%nat = true) into Ek. apply Nat.eqb_eq in Ek as ->.
  unfold read_number. rewrite (read_digits_app _ _ _ _ _ _ r E Hr).
  destruct (display_number 10 n) as [|c s] eqn:Es; [done|]. cbn [app head length] in *.
  rewrite (proj2 (Z.ltb_lt n (2 ^ bits)) Hb).
  replace (match max with Some m => (m <? S (length s))%nat | None => false end) with false.
  2: { destruct Hm as [-> |[H3 ->]]; [done|]. rename select (negb (n <? 256) || _ = true) into Hl.
       rewrite (proj2 (Z.ltb_lt n 256) H3) in Hl. cbn [negb orb] in Hl. apply Nat.leb_le in Hl.
       symmetry. apply Nat.ltb_ge. lia. }
  rename select (negb (_ && _) = true) into Hz. apply negb_true_iff in Hz. cbn [Nat.eqb].
  replace (bool_decide (Some c = Some "0"%char)) with (Ascii.eqb c "0").
  - by rewrite <- andb_assoc, Hz, andb_false_r.
  - destruct (Ascii.eqb_spec c "0"); symmetry; [by apply bool_decide_eq_true_2; f_equal|apply bool_decide_eq_false_2; congruence].
Qed.

Definition v4_addr (a : SocketAddr) : Prop :=
  exists b c d e, sa_ip a = V4 [b; c; d; e] /\ Forall is_byte [b; c; d; e] /\ in_u 16 (sa_port a).

Lemma read_octet n r :
  is_byte n -> match r with c :: _ => to_digit 10 c = None | [] => True end ->
  read_number 8 10 (Some 3%nat) false (display_number 10 n ++ r) = Some (n, r).
Proof.
  intros [H1 H2] Hr. change (2 ^ 8) with 256 in *. apply read_decimal; [split; [done|change (2 ^ 16) with 65536; lia]|done|right; by split|done].
Qed.

Lemma read_v4_display a b c d (r : str) :
  Forall is_byte [a; b; c; d] -> match r with x :: _ => to_digit 10 x = None | [] => True end ->
  read_ipv4_addr (display_v4 [a; b; c; d] ++ r) = Some ([a; b; c; d], r).
Proof.
  intros Hb Hr. repeat (apply Forall_cons in Hb as [? Hb]). unfold read_ipv4_addr, read_separator, display_v4.
  cbn [fmap list_fmap join]. rewrite <- !app_assoc.
  rewrite read_octet by done. cbn [mbind option_bind app lit String.list_ascii_of_string read_given_char]. rewrite decide_True by done.
  rewrite <- ?app_assoc. cbn [app]. rewrite read_octet by done. cbn [mbind option_bind read_given_char]. rewrite decide_True by done.
  rewrite <- ?app_assoc. cbn [app]. rewrite read_octet by done. cbn [mbind option_bind read_given_char]. rewrite decide_True by done.
  by rewrite read_octet by done.
Qed.

Lemma parse_display_v4 a : v4_addr a -> parse_socket_addr (display_socket_addr a) = Some a.
Proof.
  destruct a as [ip p]. intros (b & c & d & e & E & Hb & Hp). cbn in E, Hp. subst ip.
  unfold parse_socket_addr, parse_with, read_socket_addr, display_socket_addr. cbn [sa_ip sa_port].
  rewrite read_v4_display by done. cbn [mbind option_bind]. unfold read_port.
  cbn [read_given_char app lit String.list_ascii_of_string]. rewrite decide_True by done. cbn [mbind option_bind].
  rewrite <- (app_nil_r (display_number 10 p)). by rewrite read_decimal by (done || apply Hp || by left).
Qed.

Lemma tcp_addrs_of_app l1 l2 : tcp_addrs_of (l1 ++ l2) = tcp_addrs_of l1 ++ tcp_addrs_of l2.
Proof. apply omap_app. Qed.

Lemma tcp_addrs_of_urls l : Forall v4_addr l -> tcp_addrs_of (tcp_url <$> l) = l.
Proof.
  induction 1 as [|a l Ha _ IH]; [done|]. unfold tcp_addrs_of in *. cbn [fmap list_fmap omap list_omap].
  unfold tcp_url at 1. rewrite strip_prefix_app. cbn [mbind option_bind]. rewrite parse_display_v4 by done.
  cbn. by f_equal.
Qed.

Definition relay_url (s : str) : Prop := exists r, s = $"relay://" ++ r.

Lemma relay_not_tcp l : Forall relay_url l -> tcp_addrs_of l = [].
Proof. induction 1 as [|s l [r ->] _ IH]; [done|]. unfold tcp_addrs_of in *. cbn. exact IH. Qed.

Lemma relay_urls_kept l : Forall relay_url l -> relay_urls_of l = l.
Proof.
  induction 1 as [|s l [r ->] _ IH]; [done|]. unfold relay_urls_of in *.
  rewrite filter_cons_True by apply starts_with_app. by f_equal.
Qed.

Lemma tcp_not_relay l : relay_urls_of (tcp_url <$> l) = [].
Proof. induction l as [|a l IH]; [done|]. unfold relay_urls_of in *. cbn [fmap list_fmap]. by rewrite filter_cons_False. Qed.

(** ** What a device registers globally is what its peers dial *)

(** A discovery server as the protocol describes it: a successful POST registers
    the addresses under the URL, and a GET of a registered URL that is answered
    with success gives them as the field [addresses] of a JSON object.  It may
    also answer with any other status, as for an entry that has expired. *)
Class DiscoveryServer {W : Type} (http : HttpClient W) := {
  registered : W -> str -> option (list str);
  post_registers url addrs w status w' :
    http_post http url addrs w = (Some status, w') -> is_success status = true ->
    registered w' url = Some addrs;
  get_registered url addrs w status body w' :
    registered w url = Some addrs -> http_get http url w = (Some (status, body), w') ->
    is_success status = true ->
    forall v, body = Some v -> json_get ($"addresses") v = Some (JvArray (JvString <$> addrs));
}.

Lemma addresses_of_strings v addrs :
  json_get ($"addresses") v = Some (JvArray (JvString <$> addrs)) -> addresses_of v = addrs.
Proof.
  intros E. unfold addresses_of. rewrite E. cbn. clear E. induction addrs as [|a addrs IH]; [done|]. cbn. by f_equal.
Qed.

Lemma query_after_announce {W : Type} (http : HttpClient W) `{!DiscoveryServer http} gd gd' addrs w w1 urls w2 :
  gd_server_url gd' = gd_server_url gd ->
  global_announce http gd addrs w = Some (Ok tt, w1) -> query http gd' (gd_device_id gd) w1 = Some (Ok urls, w2) ->
  urls = addrs \/ urls = [].
Proof.
  intros Es Ha Hq. unfold global_announce, query, device_url in *. rewrite Es in Hq.
  destruct (device_id_to_string (gd_device_id gd)) as [id|]; [|done]. cbn [mbind option_bind] in *.
  set (url := gd_server_url gd ++ _) in *. destruct (http_post http url addrs w) as [resp w'] eqn:Ep.
  destruct resp as [status|]; [|done]. destruct (is_success status) eqn:Hs; [|done]. simplify_eq.
  pose proof (post_registers _ _ _ _ _ Ep Hs) as Hr. destruct (http_get http url w1) as [resp' w3] eqn:Eg.
  destruct resp' as [[status' body]|]; [|done]. destruct (is_success status') eqn:Hs'.
  - destruct body as [v|]; [|done]. cbn in Hq. simplify_eq. left. apply addresses_of_strings.
    by eapply get_registered.
  - destruct (Z.eqb_spec status' 404) as [E4|]; [|done]. right. by simplify_eq.
Qed.

(** C27: A device announces its TCP addresses (IPv4) and its relays, and a peer
    asks the same server afterwards.  If the server answers with an entry, the
    peer knows exactly the announced addresses for the device, ready to dial,
    and exactly the announced relays; a kind of which none was announced stays
    as the peer knew it.  If the server has no entry (any more), nothing
    changes; and what is known of other devices never does. *)
Theorem global_discovery_delivers {W : Type} (http : HttpClient W) `{!DiscoveryServer http}
    gd gd' tcps relays w w1 urls w2 (m : Manager) :
  gd_server_url gd' = gd_server_url gd -> Forall v4_addr tcps -> Forall relay_url relays ->
  global_announce http gd ((tcp_url <$> tcps) ++ relays) w = Some (Ok tt, w1) ->
  query http gd' (gd_device_id gd) w1 = Some (Ok urls, w2) ->
  let m' := handle_query_result (gd_device_id gd) (Ok urls) m in
  (urls = [] -> m' = m) /\
  (urls <> [] ->
   known_addresses m' (gd_device_id gd) = (if decide (tcps = []) then known_addresses m (gd_device_id gd) else tcps) /\
   known_relay_urls m' (gd_device_id gd) = (if decide (relays = []) then known_relay_urls m (gd_device_id gd) else relays)) /\
  forall d, d <> gd_device_id gd ->
    known_addresses m' d = known_addresses m d /\ known_relay_urls m' d = known_relay_urls m d.
Proof.
  intros Es Ht Hr Ha Hq. cbv zeta. destruct (query_after_announce http _ _ _ _ _ _ _ Es Ha Hq) as [-> | ->]; [|by split_and!].
  unfold handle_query_result. rewrite tcp_addrs_of_app, tcp_addrs_of_urls, (relay_not_tcp relays), app_nil_r by done.
  replace (relay_urls_of _) with relays
    by (unfold relay_urls_of; rewrite filter_app; fold (relay_urls_of (tcp_url <$> tcps)) (relay_urls_of relays);
        by rewrite tcp_not_relay, relay_urls_kept).
  unfold update_addresses, known_addresses, known_relay_urls.
  destruct tcps as [|t tcps], relays as [|r relays]; [by split_and!|..]; cbn [bool_decide negb orb];
    rewrite ?(decide_True (P := [] = [])), ?(decide_False (P := _ :: _ = [])) by done; cbn;
    (split; [done|]; split; [intros _; by rewrite ?lookup_insert_eq|]); intros d Hd; by rewrite ?lookup_insert_ne by done.
Qed.

(** A server that keeps the last addresses of each URL. *)
Definition demo_http : HttpClient (gmap str (list str)) :=
  mkHttpClient _ (fun url addrs w => (Some 204, <[url := addrs]> w))
    (fun url w => (match w !! url with
                   | Some addrs => Some (200, Some (JvObject [($"seen", JvOther); ($"addresses", JvArray (JvString <$> addrs))]))
                   | None => Some (404, None)
                   end, w)).

#[global, refine] Instance demo_discovery_server : DiscoveryServer demo_http := { registered := fun w url => w !! url }.
Proof.
  - intros url addrs w status w' [= <- <-] _. apply lookup_insert_eq.
  - intros url addrs w status body w' E. cbn. rewrite E. intros [= <- <- <-] _ v [= <-]. reflexivity.
Defined.

Lemma lan_a_v4 : v4_addr lan_a.
Proof.
  exists 192, 168, 1, 10. split; [done|]. split; [|by split]. repeat apply Forall_cons_2; done.
Qed.

Lemma global_discovery_delivers_witness :
  known_addresses (handle_query_result peer_a (Ok [tcp_url lan_a; $"relay://9.9.9.9:22067"]) (manager_new peer_b 100 30)) peer_a = [lan_a].
Proof.
  set (url := $"relay://9.9.9.9:22067").
  assert (exists w1, global_announce demo_http (global_discovery_new peer_a) ([tcp_url lan_a] ++ [url]) ∅ = Some (Ok tt, w1) /\
    query demo_http (global_discovery_new peer_b) peer_a w1 = Some (Ok [tcp_url lan_a; url], w1)) as (w1 & Ha & Hq).
  { destruct (device_id_to_string peer_a) as [id|] eqn:E; [|vm_compute in E; discriminate].
    eexists. unfold global_announce, query, device_url.
    change (gd_device_id (global_discovery_new peer_a)) with peer_a. rewrite E.
    cbn [mbind option_bind demo_http http_post http_get]. change (is_success 204) with true. cbv iota.
    split; [done|]. cbv beta. by rewrite lookup_insert_eq. }
  refine (proj1 (proj1 (proj2 (global_discovery_delivers demo_http (global_discovery_new peer_a) (global_discovery_new peer_b)
            [lan_a] [url] ∅ w1 _ w1 (manager_new peer_b 100 30) eq_refl _ _ Ha Hq)) _)).
  - apply Forall_singleton. exact lan_a_v4.
  - apply Forall_singleton. exists ($"9.9.9.9:22067"). reflexivity.
  - discriminate.
Defined.

(** A server URL without its final slash is completed by [with_server] and kept
    as it is by [from_cert_files]. *)
Example cert_client_keeps_bare_url :
  gd_server_url (with_server peer_a ($"https://d.example/v2")) = $"https://d.example/v2/" /\
  from_cert_files peer_a (Some []) (Some []) (fun _ => true) true (Some ($"https://d.example/v2")) =
    Ok (mkGlobalDiscovery ($"https://d.example/v2") peer_a).
Proof. split; reflexivity. Qed.

(** ** The announce loop *)

Fixpoint global_loop_run (l : GlobalLoop) (events : list (Z * GlEvent)) : option GlobalLoop :=
  match events with
  | [] => Some l
  | (now, e) :: events' => let+ l' := global_loop_step now e l in global_loop_run l' events'
  end.

Definition announces_fail (e : GlEvent) : Prop :=
  match e with GlAnnounce addresses ok => addresses <> [] /\ ok = false | _ => True end.

(** While the server refuses the announcements the loop never reaches its
    [select!]: no number of shutdown signals ends it. *)
Theorem failing_announce_blocks_shutdown events l :
  Forall (fun te => announces_fail te.2) events ->
  global_loop_run global_loop_start events = Some l -> gl_phase l <> GlStopped /\ gl_phase l <> GlWaiting.
Proof.
  assert (Hg : forall l0, gl_phase l0 = GlReady \/ gl_phase l0 = GlRetrying ->
            Forall (fun te => announces_fail te.2) events -> global_loop_run l0 events = Some l ->
            gl_phase l = GlReady \/ gl_phase l = GlRetrying).
  { induction events as [|[now e] events IH]; intros l0 Hp Hf E; [by simplify_eq/=|].
    apply Forall_cons in Hf as [He Hf]. cbn [global_loop_run] in E.
    destruct (global_loop_step now e l0) as [l1|] eqn:Es; [|done]. cbn in E. apply (IH l1); [|done..].
    unfold global_loop_step in Es. destruct Hp as [Hp|Hp]; rewrite Hp in Es;
      destruct e; cbn in He, Es; repeat case_match; simplify_eq/=; naive_solver. }
  intros Hf E. destruct (Hg global_loop_start (or_introl eq_refl) Hf E) as [-> | ->]; done.
Qed.

Definition refused_run : list (Z * GlEvent) :=
  [(0, GlAnnounce [tcp_url lan_a] false); (10, GlShutdown); (300, GlRetry); (301, GlAnnounce [tcp_url lan_a] false);
   (601, GlRetry)].

Lemma refused_run_end : global_loop_run global_loop_start refused_run = Some (mkGlobalLoop GlReady 601 false true).
Proof. vm_compute. reflexivity. Qed.

Lemma failing_announce_blocks_shutdown_witness :
  gl_phase (mkGlobalLoop GlReady 601 false true) <> GlStopped /\ gl_phase (mkGlobalLoop GlReady 601 false true) <> GlWaiting.
Proof.
  apply (failing_announce_blocks_shutdown refused_run); [|exact refused_run_end].
  repeat apply Forall_cons_2; done.
Defined.

(** The times at which the loop announces. *)
Definition announce_times (events : list (Z * GlEvent)) : list Z :=
  omap (fun te => match te.2 with GlAnnounce _ _ => Some te.1 | _ => None end) events.

Fixpoint ordered_from (t : Z) (events : list (Z * GlEvent)) : Prop :=
  match events with
  | [] => True
  | (now, _) :: events' => t <= now /\ ordered_from now events'
  end.

(** The earliest time of the next announcement, when nothing triggers one. *)
Definition next_announce (l : GlobalLoop) (t : Z) : Z :=
  match gl_phase l with
  | GlReady => t
  | GlRetrying => gl_since l + RETRY_INTERVAL
  | _ => gl_since l + ANNOUNCE_INTERVAL
  end.

Fixpoint spaced_by (gap : Z) (ts : list Z) : Prop :=
  match ts with
  | a :: (b :: _) as ts' => a + gap <= b /\ spaced_by gap ts'
  | _ => True
  end.

Lemma paced_step now e l l' t :
  gl_since l <= t -> t <= now -> e <> GlTrigger -> gl_permit l = false -> global_loop_step now e l = Some l' ->
  gl_permit l' = false /\ gl_since l' <= now /\
  match e with
  | GlAnnounce _ _ => next_announce l t <= now /\ now + RETRY_INTERVAL <= next_announce l' now
  | _ => next_announce l t <= next_announce l' now
  end.
Proof.
  intros H0 Ht He Hp Es. unfold global_loop_step, next_announce, RETRY_INTERVAL, ANNOUNCE_INTERVAL in *.
  destruct e; [done|..]; destruct (gl_phase l) eqn:Ep; repeat case_match; reflect_bools; simplify_eq/=;
    rewrite ?Ep in *; try done; repeat split; (done || lia).
Qed.

Lemma paced_run events l : forall l0 t,
  gl_since l0 <= t -> ordered_from t events -> Forall (fun te => te.2 <> GlTrigger) events -> gl_permit l0 = false ->
  global_loop_run l0 events = Some l ->
  spaced_by RETRY_INTERVAL (announce_times events) /\
  forall a, head (announce_times events) = Some a -> next_announce l0 t <= a.
Proof.
  induction events as [|[now e] events IH]; intros l0 t H0 Ho Hf Hp E; [done|].
  destruct Ho as [Ht Ho]. apply Forall_cons in Hf as [He Hf]. cbn [global_loop_run] in E.
  destruct (global_loop_step now e l0) as [l1|] eqn:Es; [|done]. cbn in E.
  destruct (paced_step _ _ _ _ t H0 Ht He Hp Es) as (Hp1 & H1 & Hst). destruct (IH l1 now H1 Ho Hf Hp1 E) as [Hs Hh].
  assert (Hother : (match e with GlAnnounce _ _ => False | _ => True end) ->
            announce_times ((now, e) :: events) = announce_times events) by (by destruct e).
  destruct e; try (rewrite Hother by done; split; [done|]; intros a Ha; specialize (Hh a Ha); cbn in Hst; lia).
  destruct Hst as [H2 H3]. change (announce_times ((now, GlAnnounce addresses ok) :: events)) with (now :: announce_times events).
  split; [|by intros a [= <-]]. destruct (announce_times events) as [|b ts]; [done|].
  split; [|done]. specialize (Hh b eq_refl). lia.
Qed.

(** Without a triggered re-announcement and whatever the server answers, the
    server sees at most one announcement in five minutes. *)
Theorem global_announces_paced events l :
  ordered_from 0 events -> Forall (fun te => te.2 <> GlTrigger) events ->
  global_loop_run global_loop_start events = Some l -> spaced_by RETRY_INTERVAL (announce_times events).
Proof. intros Ho Hf E. by destruct (paced_run events l global_loop_start 0 (Z.le_refl 0) Ho Hf eq_refl E). Qed.

Lemma global_announces_paced_witness : spaced_by RETRY_INTERVAL (announce_times refused_run) /\ announce_times refused_run = [0; 301].
Proof.
  split; [|reflexivity]. apply (global_announces_paced refused_run (mkGlobalLoop GlReady 601 false true)); [|repeat apply Forall_cons_2; done|exact refused_run_end].
  cbn. lia.
Defined.
