(* ===== verification/Reach.v ===== *)
(** * Staying reachable

    What the daemon does so that other devices can reach it: UPnP port
    mappings ([syncthing-net/src/upnp.rs] and [portmapper/upnp.rs]), the
    discovery manager ([discovery/mod.rs]), the tasks that keep the list of
    public addresses ([tui/nat_tasks.rs]), the relay listeners
    ([tui/relay_listener.rs]) and the health watchdog ([tui/watchdog.rs]).

    The [igd] crate is a record of operations on a gateway; STUN, port
    allocation, TLS and the HTTP health checks are outcomes handed in.  Times
    are milliseconds. *)

From S2P Require Import Prelude Core DeviceIds Connection Bep Wire Net Relay Traversal Dialer Manager Config Discovery.

(** ** The UPnP client *)

Definition DEFAULT_MAPPING_DURATION : Z := 1800.
Definition MIN_RENEWAL_INTERVAL : Z := 1500.

Inductive PortMappingProtocol := PmTcp | PmUdp.

#[global] Instance PortMappingProtocol_eq_dec : EqDecision PortMappingProtocol.
Proof. solve_decision. Defined.

(** The operations of [igd::aio] the client uses, on the state [G] of the local
    network; [igd_search] tells whether a gateway answers in time. *)
Record Igd (G : Type) := mkIgd {
  igd_search : G -> bool * G;
  igd_add_port : PortMappingProtocol -> Z -> list Z * Z -> Z -> str -> G -> bool * G;
  igd_remove_port : PortMappingProtocol -> Z -> G -> bool * G;
  igd_get_external_ip : G -> option (list Z) * G;
  igd_get_entry : Z -> G -> option PortMappingProtocol * G;
}.
Arguments igd_search {G}.
Arguments igd_add_port {G}.
Arguments igd_remove_port {G}.
Arguments igd_get_external_ip {G}.
Arguments igd_get_entry {G}.

Record UpnpClient := mkUpnpClient { uc_local_addr : SocketAddr; uc_description : str }.

Definition upnp_client_new (local_addr : SocketAddr) : UpnpClient := mkUpnpClient local_addr ($"syncthing-rust").

Definition with_description (description : str) (c : UpnpClient) : UpnpClient :=
  mkUpnpClient (uc_local_addr c) description.

(** A call of the gateway, a refusal becoming [e]. *)
Definition gateway_call {G A : Type} (e : SyncthingError) (f : G -> option A * G) : SE G SyncthingError A :=
  fun g => let '(r, g) := f g in (ok_or r e, g).

Definition gateway_bool {G : Type} (e : SyncthingError) (f : G -> bool * G) : SE G SyncthingError unit :=
  fun g => let '(b, g) := f g in (if b : bool then Ok tt else Err e, g).

Section Upnp.
Context {G : Type} (igd : Igd G).

Definition discover_gateway : SE G SyncthingError unit := gateway_bool EConnection (igd_search igd).

Definition add_port_mapping (c : UpnpClient) (external_port internal_port : Z) (protocol : PortMappingProtocol)
    (duration : Z) : SE G SyncthingError unit :=
  se_bind discover_gateway (fun _ =>
  match sa_ip (uc_local_addr c) with
  | V6 _ => se_throw EConfig
  | V4 os => gateway_bool EConnection
               (igd_add_port igd protocol external_port (os, sa_port (uc_local_addr c)) duration (uc_description c))
  end).

Definition add_tcp_mapping (c : UpnpClient) (external_port duration : Z) : SE G SyncthingError unit :=
  add_port_mapping c external_port (sa_port (uc_local_addr c)) PmTcp duration.

Definition add_udp_mapping (c : UpnpClient) (external_port duration : Z) : SE G SyncthingError unit :=
  add_port_mapping c external_port (sa_port (uc_local_addr c)) PmUdp duration.

(** Without a gateway there is nothing to remove. *)
Definition remove_port_mapping (external_port : Z) (protocol : PortMappingProtocol) : SE G SyncthingError unit :=
  fun g => match discover_gateway g with
           | (Err _, g) => (Ok tt, g)
           | (Ok _, g) => gateway_bool EConnection (igd_remove_port igd protocol external_port) g
           end.

Definition remove_tcp_mapping (external_port : Z) : SE G SyncthingError unit := remove_port_mapping external_port PmTcp.
Definition remove_udp_mapping (external_port : Z) : SE G SyncthingError unit := remove_port_mapping external_port PmUdp.

Definition upnp_external_ip : SE G SyncthingError IpAddr :=
  se_bind discover_gateway (fun _ => fun g =>
    let '(r, g) := gateway_call EConnection (igd_get_external_ip igd) g in (result_map V4 r, g)).

(** The entry is asked for by its index in the gateway's table. *)
Definition has_mapping (external_port : Z) (protocol : PortMappingProtocol) : SE G SyncthingError bool :=
  fun g => match discover_gateway g with
           | (Err _, g) => (Ok false, g)
           | (Ok _, g) => let '(entry, g) := igd_get_entry igd external_port g in
                          (Ok (bool_decide (entry = Some protocol)), g)
           end.

(** ** Managed mappings *)

Record PortMapping := mkPortMapping {
  pm_external_port : Z;
  pm_internal_port : Z;
  pm_protocol : PortMappingProtocol;
  pm_duration : Z;
  pm_created_at : Z;
}.

Definition is_expiring_soon_at (now : Z) (m : PortMapping) : bool :=
  if pm_duration m =? 0 then false
  else
    let elapsed := if pm_created_at m <? now then wrap 32 ((now - pm_created_at m) / 1000) else 0 in
    Z.max 0 (pm_duration m - elapsed) <? MIN_RENEWAL_INTERVAL.

Definition other_mapping (external_port : Z) (protocol : PortMappingProtocol) (m : PortMapping) : bool :=
  negb ((pm_external_port m =? external_port) && bool_decide (pm_protocol m = protocol)).

Definition retain_others (external_port : Z) (protocol : PortMappingProtocol) (ms : list PortMapping) : list PortMapping :=
  filter (fun m => other_mapping external_port protocol m = true) ms.

(** [add_mapping] at [now], the clock after the gateway's answer. *)
Definition add_mapping (c : UpnpClient) (now external_port internal_port : Z) (protocol : PortMappingProtocol)
    (duration : Z) (ms : list PortMapping) : SE G SyncthingError (list PortMapping) :=
  se_bind (add_port_mapping c external_port internal_port protocol duration) (fun _ =>
    se_ret (retain_others external_port protocol ms ++
            [mkPortMapping external_port internal_port protocol duration now])).

Definition remove_mapping (external_port : Z) (protocol : PortMappingProtocol) (ms : list PortMapping)
    : SE G SyncthingError (list PortMapping) :=
  se_bind (remove_port_mapping external_port protocol) (fun _ => se_ret (retain_others external_port protocol ms)).

(** One mapping at one tick of the renewal task. *)
Definition renew_mapping (c : UpnpClient) (now : Z) (m : PortMapping) (g : G) : PortMapping * G :=
  if is_expiring_soon_at now m then
    match add_port_mapping c (pm_external_port m) (pm_internal_port m) (pm_protocol m) (pm_duration m) g with
    | (Ok _, g) =>
        (mkPortMapping (pm_external_port m) (pm_internal_port m) (pm_protocol m) (pm_duration m) now, g)
    | (Err _, g) => (m, g)
    end
  else (m, g).

Fixpoint renewal_tick (c : UpnpClient) (now : Z) (ms : list PortMapping) (g : G) : list PortMapping * G :=
  match ms with
  | [] => ([], g)
  | m :: ms' =>
      let '(m', g) := renew_mapping c now m g in
      let '(ms'', g) := renewal_tick c now ms' g in (m' :: ms'', g)
  end.

(** Failures are logged; the list is cleared in any case. *)
Fixpoint upnp_cleanup (ms : list PortMapping) (g : G) : list PortMapping * G :=
  match ms with
  | [] => ([], g)
  | m :: ms' => upnp_cleanup ms' (remove_port_mapping (pm_external_port m) (pm_protocol m) g).2
  end.

Record UpnpDiscoveryResult := mkUpnpDiscoveryResult {
  ur_available : bool; ur_external_ip : option IpAddr; ur_gateway_info : option str;
}.

Definition upnp_unavailable : UpnpDiscoveryResult := mkUpnpDiscoveryResult false None None.

Definition discover_upnp (g : G) : UpnpDiscoveryResult * G :=
  match discover_gateway g with
  | (Err _, g) => (upnp_unavailable, g)
  | (Ok _, g) =>
      match upnp_external_ip g with
      | (Ok ip, g) => (mkUpnpDiscoveryResult true (Some ip) (Some ($"IGD Gateway found")), g)
      | (Err _, g) => (upnp_unavailable, g)
      end
  end.

(** ** The port mapper's UPnP fallback ([portmapper/upnp.rs]) *)

Record UpnpMappingState := mkUpnpMappingState { um_external_port : Z; um_protocol : str }.

Definition upnp_allocate_port (local_addr : SocketAddr) (local_port : Z) : SE G SyncthingError (SocketAddr * UpnpMappingState) :=
  se_bind discover_gateway (fun _ =>
  match sa_ip local_addr with
  | V6 _ => se_throw EConfig
  | V4 os =>
      se_bind (gateway_bool EConnection
                 (igd_add_port igd PmUdp local_port (os, sa_port local_addr) PORT_MAP_LIFETIME_SEC ($"syncthing-portmapper")))
        (fun _ =>
      se_bind (gateway_call EConnection (igd_get_external_ip igd)) (fun ip =>
      se_ret (mkSocketAddr (V4 ip) local_port, mkUpnpMappingState local_port ($"UDP"))))
  end).

Definition upnp_release_mapping (s : UpnpMappingState) : SE G SyncthingError unit :=
  remove_port_mapping (um_external_port s) (if decide (um_protocol s = $"TCP") then PmTcp else PmUdp).

(** ** The discovery manager ([discovery/mod.rs]) *)

Definition DEFAULT_STUN_SERVERS : list str :=
  [$"stun.l.google.com:19302"; $"stun.syncthing.net:3478"; $"stun1.l.google.com:19302"; $"stun2.l.google.com:19302";
   $"stun3.l.google.com:19302"; $"stun4.l.google.com:19302"].

Record DiscoveryConfig := mkDiscoveryConfig {
  dc_enable_stun : bool;
  dc_enable_upnp : bool;
  dc_stun_servers : list str;
  dc_upnp_duration : Z;
}.

Definition discovery_config_default : DiscoveryConfig := mkDiscoveryConfig true true DEFAULT_STUN_SERVERS DEFAULT_MAPPING_DURATION.

Record DiscoveryManager := mkDiscoveryManager {
  dm_local_addr : SocketAddr;
  dm_config : DiscoveryConfig;
  dm_stun : option (result SyncthingError SocketAddr);
  dm_upnp : option UpnpClient;
}.

(** [init]: both mappings are tried, a failure of either is logged. *)
Definition discovery_init (d : DiscoveryManager) (g : G) : G :=
  match dm_upnp d with
  | Some client =>
      if dc_enable_upnp (dm_config d) then
        let port := sa_port (dm_local_addr d) in
        let g := (add_tcp_mapping client port (dc_upnp_duration (dm_config d)) g).2 in
        (add_udp_mapping client port (dc_upnp_duration (dm_config d)) g).2
      else g
  | None => g
  end.

Definition get_public_addresses (d : DiscoveryManager) (g : G) : list str * G :=
  let stun := match dm_stun d with
              | Some (Ok addr) => if dc_enable_stun (dm_config d) then [tcp_url addr] else []
              | _ => []
              end in
  match dm_upnp d with
  | Some _ =>
      if dc_enable_upnp (dm_config d) then
        match upnp_external_ip g with
        | (Ok ip, g) => (stun ++ [tcp_url (mkSocketAddr ip (sa_port (dm_local_addr d)))], g)
        | (Err _, g) => (stun, g)
        end
      else (stun, g)
  | None => (stun, g)
  end.

Definition discovery_shutdown (d : DiscoveryManager) (g : G) : G :=
  match dm_upnp d with
  | Some _ =>
      let port := sa_port (dm_local_addr d) in
      (remove_udp_mapping port (remove_tcp_mapping port g).2).2
  | None => g
  end.
End Upnp.

(** ** The list of public addresses ([nat_tasks.rs])

    Other tasks push to the same list between two turns of the mapping task;
    [nt_triggers] counts the re-announcements asked for. *)

Record NatTask := mkNatTask {
  nt_mapper : PortMapper;
  nt_mapping : Mapping;
  nt_current_ext : SocketAddr;
  nt_public_addrs : list str;
  nt_triggers : nat;
}.

(** The first allocation; [None]: it failed and the task is over. *)
Definition port_mapper_start (env : MapEnv) (actual_addr : SocketAddr) (local_port : Z) (public_addrs : list str) : option NatTask :=
  match allocate_port env local_port (mkPortMapper actual_addr None) with
  | (Ok mapping, pm) =>
      Some (mkNatTask pm mapping (map_external mapping) (public_addrs ++ [tcp_url (map_external mapping)]) 1)
  | (Err _, _) => None
  end.

(** [Vec::remove] at the position of the first equal element, if any. *)
Fixpoint remove_first (x : str) (l : list str) : list str :=
  match l with
  | [] => []
  | y :: l' => if decide (y = x) then l' else y :: remove_first x l'
  end.

Definition replace_url (old new : SocketAddr) (addrs : list str) : list str :=
  remove_first (tcp_url old) addrs ++ [tcp_url new].

(** One turn of the renewal loop: at [now] the sleep is computed, meanwhile the
    others pushed [others], then the network is [env].  [false]: the loop ends. *)
Definition port_mapper_turn (local_port now : Z) (others : list str) (env : MapEnv) (t : NatTask) : NatTask * bool :=
  let with_addrs l := mkNatTask (nt_mapper t) (nt_mapping t) (nt_current_ext t) l (nt_triggers t) in
  if map_renew_after (nt_mapping t) <=? now then (with_addrs (nt_public_addrs t ++ others), false)
  else
    let addrs := nt_public_addrs t ++ others in
    match allocate_port env local_port (nt_mapper t) with
    | (Ok mapping, pm) =>
        (mkNatTask pm mapping (map_external mapping) (replace_url (nt_current_ext t) (map_external mapping) addrs)
           (S (nt_triggers t)), true)
    | (Err _, pm) => (with_addrs addrs, false)
    end.

Fixpoint port_mapper_loop (local_port : Z) (turns : list (Z * list str * MapEnv)) (t : NatTask) : NatTask * bool :=
  match turns with
  | [] => (t, true)
  | (now, others, env) :: turns' =>
      match port_mapper_turn local_port now others env t with
      | (t', true) => port_mapper_loop local_port turns' t'
      | (t', false) => (t', false)
      end
  end.

(** [spawn_stun], with the public address STUN found. *)
Definition stun_task (found : result StunError SocketAddr) (public_addrs : list str) : list str :=
  match found with Ok a => public_addrs ++ [tcp_url a] | Err _ => public_addrs end.

(** ** Relay listeners ([relay_listener.rs]) *)

Definition RELAY_MAX_BACKOFF_SECS : Z := 300.
Definition RELAY_BACKOFF_RESET_SECS : Z := 60.

Definition relay_listen_urls (relay_pool_urls config_relay_urls : list str) : gset str :=
  list_to_set config_relay_urls ∪ list_to_set relay_pool_urls.

(** The backoff after a listener that ended; [elapsed] since it was started,
    the sleep of [backoff] included. *)
Definition next_backoff (elapsed backoff : Z) : Z :=
  if RELAY_BACKOFF_RESET_SECS <? elapsed then 1 else Z.min (backoff * 2) RELAY_MAX_BACKOFF_SECS.

(** A run of a listener ends after [lived] seconds; then the backoff. *)
Fixpoint listener_backoffs (backoff : Z) (lived : list Z) : list Z :=
  match lived with
  | [] => []
  | l :: lived' => backoff :: listener_backoffs (next_backoff (l + backoff) backoff) lived'
  end.

(** The relay is joined: its URL is announced once. *)
Definition relay_joined (relay_url : str) (public_addrs : list str) : list str :=
  if decide (relay_url ∈ public_addrs) then public_addrs else public_addrs ++ [relay_url].

(** What the session of an invitation brings: the TCP connection, the device
    its TLS handshake authenticates, and the connection after the Hello. *)
Record RelaySession := mkRelaySession {
  rs_joined : bool;
  rs_tls : option DeviceId;
  rs_conn : option Uuid;
}.

(** One invitation.  The guard of the handshake is dropped on every path;
    [false]: an error, which ends the listener. *)
Definition handle_invitation (relay_addr : SocketAddr) (inv : SessionInvitation) (s : RelaySession) (m : Manager)
    : bool * Manager :=
  match resolve_session_addr relay_addr inv with
  | Err _ => (false, m)
  | Ok _ =>
      if negb (rs_joined s) then (false, m)
      else match rs_tls s with
           | None => (false, m)
           | Some d =>
               match begin_handshake d Incoming m with
               | (false, m) => (false, m)
               | (true, m) =>
                   match rs_conn s with
                   | None => (false, end_handshake d m)
                   | Some c =>
                       let m := on_conns <[c := mkConn Incoming CsProtocolHandshakeComplete (Some d) None]> m in
                       (true, end_handshake d (register_connection d c m))
                   end
               end
           end
  end.

Fixpoint relay_listener_loop (relay_addr : SocketAddr) (invs : list (SessionInvitation * RelaySession)) (m : Manager)
    : bool * Manager :=
  match invs with
  | [] => (true, m)
  | (inv, s) :: invs' =>
      match handle_invitation relay_addr inv s m with
      | (true, m) => relay_listener_loop relay_addr invs' m
      | (false, m) => (false, m)
      end
  end.

(** A whole run of a listener: the URL, the TLS configuration, the connection
    and the join, the announcement of the URL with its trigger, then the
    invitations.  [None] is a panic of the URL's parser; the addresses, whether a
    re-announcement was asked for, whether the loop still runs, the manager. *)
Definition run_relay_listener (unicode_alphanumeric : Z -> bool) (hex_decode : list Z -> option (list Z))
    (relay_url : str) (tls_ok connected joined : bool) (invs : list (SessionInvitation * RelaySession))
    (public_addrs : list str) (m : Manager) : option (list str * bool * bool * Manager) :=
  let+ parsed := parse_relay_url unicode_alphanumeric hex_decode relay_url in
  Some match parsed with
       | Err _ => (public_addrs, false, false, m)
       | Ok (relay_addr, _) =>
           if tls_ok && connected && joined then
             let '(running, m) := relay_listener_loop relay_addr invs m in
             (relay_joined relay_url public_addrs, true, running, m)
           else (public_addrs, false, false, m)
       end.

(** ** The watchdog ([watchdog.rs]) *)

Definition MAX_FAILURES : Z := 2.

(** A health check: an HTTP status, or [None] for no answer in time. *)
Definition check_failures (check : option Z) (failures : Z) : Z :=
  match check with
  | Some status => if is_success status then 0 else failures + 1
  | None => failures + 1
  end.

Inductive WatchdogEnd := WdDisabled | WdRestart | WdRunning.

Fixpoint watchdog_loop (failures : Z) (checks : list (option Z)) : WatchdogEnd :=
  match checks with
  | [] => WdRunning
  | c :: checks' =>
      let failures := check_failures c failures in
      if MAX_FAILURES <=? failures then WdRestart else watchdog_loop failures checks'
  end.

(** [api_key]: what the configuration gives, [None] when it cannot be read. *)
Definition watchdog_run (api_key : option str) (checks : list (option Z)) : WatchdogEnd :=
  if decide (default [] api_key = []) then WdDisabled else watchdog_loop 0 checks.

(** [restart_process]: whether the shutdown is signalled. *)
Definition restart_process (exe_found spawned : bool) : bool := exe_found && spawned.

(** ** Managed mappings *)

Definition mapping_key (m : PortMapping) : Z * PortMappingProtocol := (pm_external_port m, pm_protocol m).

(** What the code does with the list of a manager. *)
Inductive UpnpOp :=
| OpAdd (now external_port internal_port : Z) (protocol : PortMappingProtocol) (duration : Z)
| OpRemove (external_port : Z) (protocol : PortMappingProtocol)
| OpTick (now : Z)
| OpCleanup.

Definition upnp_op {G : Type} (igd : Igd G) (c : UpnpClient) (o : UpnpOp) (st : list PortMapping * G) : list PortMapping * G :=
  let keep (r : result SyncthingError (list PortMapping) * G) :=
    (match r.1 with Ok ms => ms | Err _ => st.1 end, r.2) in
  match o with
  | OpAdd now ext int p d => keep (add_mapping igd c now ext int p d st.1 st.2)
  | OpRemove ext p => keep (remove_mapping igd ext p st.1 st.2)
  | OpTick now => renewal_tick igd c now st.1 st.2
  | OpCleanup => upnp_cleanup igd st.1 st.2
  end.

Lemma other_mapping_key ext p m : other_mapping ext p m = true <-> mapping_key m <> (ext, p).
Proof.
  unfold other_mapping, mapping_key. rewrite negb_true_iff, andb_false_iff, Z.eqb_neq, bool_decide_eq_false.
  split; [intros [H|H] [= E1 E2]; contradiction|]. intros H.
  destruct (decide (pm_external_port m = ext)) as [He|]; [right; intros Hp; apply H; by rewrite He, Hp|by left].
Qed.

Lemma retain_others_keys ext p ms : mapping_key <$> retain_others ext p ms = filter (fun k => k <> (ext, p)) (mapping_key <$> ms).
Proof.
  unfold retain_others. induction ms as [|m ms IH]; [done|]. cbn [fmap list_fmap]. rewrite !filter_cons.
  pose proof (other_mapping_key ext p m). repeat case_decide; try tauto. cbn [fmap list_fmap]. by rewrite IH.
Qed.

Lemma renew_mapping_key {G : Type} (igd : Igd G) c now m g : mapping_key (renew_mapping igd c now m g).1 = mapping_key m.
Proof. unfold renew_mapping. destruct (is_expiring_soon_at now m); [|done]. by destruct (add_port_mapping _ _ _ _ _ _ g) as [[] ?]. Qed.

Lemma renewal_tick_keys {G : Type} (igd : Igd G) c now ms : forall g, mapping_key <$> (renewal_tick igd c now ms g).1 = mapping_key <$> ms.
Proof.
  induction ms as [|m ms IH]; intros g; [done|]. cbn [renewal_tick]. pose proof (renew_mapping_key igd c now m g) as Hk.
  destruct (renew_mapping igd c now m g) as [m' g']. specialize (IH g'). destruct (renewal_tick igd c now ms g') as [ms' g''].
  cbn in *. by rewrite Hk, IH.
Qed.

(** No two managed mappings claim the same external port and protocol, after
    any sequence of operations and whatever the gateway answers. *)
Theorem managed_mappings_unique {G : Type} (igd : Igd G) c ops g :
  NoDup (mapping_key <$> (foldl (fun st o => upnp_op igd c o st) ([], g) ops).1).
Proof.
  induction ops as [|o ops IH] using rev_ind; [constructor|]. rewrite foldl_app. cbn [foldl].
  destruct (foldl _ _ ops) as [ms g1]. cbn in IH. destruct o as [now ext int p d|ext p|now|]; cbn [upnp_op fst snd].
  - unfold add_mapping, se_bind. destruct (add_port_mapping igd c ext int p d g1) as [[] g2]; cbn; [|done].
    rewrite fmap_app, retain_others_keys. apply NoDup_app. split; [by apply NoDup_filter|]. split; [|apply NoDup_singleton].
    intros k [Hk _]%list_elem_of_filter ->%list_elem_of_singleton. by apply Hk.
  - unfold remove_mapping, se_bind. destruct (remove_port_mapping igd ext p g1) as [[] g2]; cbn; [|done].
    rewrite retain_others_keys. by apply NoDup_filter.
  - by rewrite renewal_tick_keys.
  - assert (E : forall g', (upnp_cleanup igd ms g').1 = []) by (clear; induction ms as [|m ms IH]; intros g'; [done|apply IH]).
    rewrite E. constructor.
Qed.

(** *** Renewal *)

(** Seconds of lease left when a mapping is not renewed at a tick. *)
Lemma not_expiring_age now m :
  pm_duration m <> 0 -> in_u 32 (pm_duration m) -> pm_created_at m <= now -> now - pm_created_at m < 2 ^ 32 * 1000 ->
  is_expiring_soon_at now m = false -> now - pm_created_at m < (pm_duration m - MIN_RENEWAL_INTERVAL + 1) * 1000.
Proof.
  unfold is_expiring_soon_at, in_u, MIN_RENEWAL_INTERVAL. intros Hd Hu Hc Hlt He.
  apply Z.eqb_neq in Hd. rewrite Hd in He. apply Z.ltb_ge in He.
  destruct (Z.ltb_spec (pm_created_at m) now) as [Hl|Hl]; [|lia].
  rewrite wrap_id in He; [|split; [apply Z.div_pos; lia|apply Z.div_lt_upper_bound; lia]].
  pose proof (Z.mod_pos_bound (now - pm_created_at m) 1000 ltac:(lia)).
  pose proof (Z.div_mod (now - pm_created_at m) 1000 ltac:(lia)). lia.
Qed.

(** A lease is live at [t] up to the second the clock is rounded down. *)
Definition lease_held (t : Z) (m : PortMapping) : Prop :=
  pm_created_at m <= t /\ t - pm_created_at m < (pm_duration m + 1) * 1000.

Definition leased (m : PortMapping) : Prop := MIN_RENEWAL_INTERVAL <= pm_duration m < 2 ^ 32 - 1.

(** The gateway grants every request. *)
Class Granting {G : Type} (igd : Igd G) : Prop := {
  search_granted g : (igd_search igd g).1 = true;
  add_granted p ext local d desc g : (igd_add_port igd p ext local d desc g).1 = true;
}.

Section Renewal.
Context {G : Type} (igd : Igd G) `{!Granting igd} (c : UpnpClient).
Hypothesis Hv4 : exists os, sa_ip (uc_local_addr c) = V4 os.

Lemma add_port_mapping_granted ext int p d g : (add_port_mapping igd c ext int p d g).1 = Ok tt.
Proof.
  destruct Hv4 as [os E]. unfold add_port_mapping, discover_gateway, gateway_bool, se_bind.
  pose proof (search_granted g) as Hs. destruct (igd_search igd g) as [b g']; cbn in Hs; subst b. rewrite E.
  pose proof (add_granted p ext (os, sa_port (uc_local_addr c)) d (uc_description c) g') as Ha.
  destruct (igd_add_port igd p ext _ d _ g') as [b g'']; cbn in Ha; by subst b.
Qed.

(** A tick leaves every lease with more than [MIN_RENEWAL_INTERVAL] to run. *)
Lemma renew_mapping_age now m g :
  leased m -> lease_held now m ->
  let m' := (renew_mapping igd c now m g).1 in
  leased m' /\ pm_created_at m' <= now /\ now - pm_created_at m' < (pm_duration m' - MIN_RENEWAL_INTERVAL + 1) * 1000.
Proof.
  unfold leased, lease_held, MIN_RENEWAL_INTERVAL. intros Hl [Hc Ha]. unfold renew_mapping. cbv zeta.
  destruct (is_expiring_soon_at now m) eqn:E.
  - pose proof (add_port_mapping_granted (pm_external_port m) (pm_internal_port m) (pm_protocol m) (pm_duration m) g) as Hg.
    destruct (add_port_mapping _ _ _ _ _ _ g) as [r g']; cbn in Hg; subst r. cbn. lia.
  - cbn. split; [done|]. split; [done|]. apply (not_expiring_age now m); unfold in_u; lia || done.
Qed.

Lemma renewal_tick_held now later ms : forall g,
  Forall leased ms -> Forall (lease_held now) ms -> now <= later <= now + MIN_RENEWAL_INTERVAL * 1000 ->
  Forall leased (renewal_tick igd c now ms g).1 /\ Forall (lease_held later) (renewal_tick igd c now ms g).1.
Proof.
  induction ms as [|m ms IH]; intros g Hl Hh Ht; [done|]. apply Forall_cons in Hl as [Hl1 Hl], Hh as [Hh1 Hh].
  cbn [renewal_tick]. pose proof (renew_mapping_age now m g Hl1 Hh1) as Hm. destruct (renew_mapping igd c now m g) as [m' g'].
  destruct (IH g' Hl Hh Ht) as [H1 H2]. destruct (renewal_tick igd c now ms g') as [ms' g'']. cbn in *.
  destruct Hm as (Hl' & Hc' & Ha'). unfold MIN_RENEWAL_INTERVAL in *.
  split; (constructor; [|done]); [done|]. split; lia.
Qed.
End Renewal.

(** The renewal task ticks at [times]; it starts with leases held at the first
    tick. *)
Fixpoint renewal_run {G : Type} (igd : Igd G) (c : UpnpClient) (times : list Z) (st : list PortMapping * G) : list PortMapping * G :=
  match times with
  | [] => st
  | now :: times' => renewal_run igd c times' (renewal_tick igd c now st.1 st.2)
  end.

Fixpoint ticks_within (gap t : Z) (times : list Z) (final : Z) : Prop :=
  match times with
  | [] => t <= final <= t + gap
  | now :: times' => t <= now <= t + gap /\ ticks_within gap now times' final
  end.

(** Ticks at most [MIN_RENEWAL_INTERVAL] apart keep every lease of at least
    that duration alive, up to the second the age is rounded down to, however
    long the task runs. *)
Theorem renewal_keeps_leases {G : Type} (igd : Igd G) `{!Granting igd} c first times final ms g :
  (exists os, sa_ip (uc_local_addr c) = V4 os) -> Forall leased ms -> Forall (lease_held first) ms ->
  ticks_within (MIN_RENEWAL_INTERVAL * 1000) first times final ->
  Forall (lease_held final) (renewal_run igd c (first :: times) (ms, g)).1.
Proof.
  intros Hv4. revert first ms g. induction times as [|now times IH]; intros first ms g Hl Hh Ht.
  - cbn. by apply renewal_tick_held with (now := first).
  - destruct Ht as [Ht1 Ht]. cbn [renewal_run fst snd] in *.
    destruct (renewal_tick_held igd c Hv4 first now ms g Hl Hh Ht1) as [H1 H2].
    destruct (renewal_tick igd c first ms g) as [ms' g']. by apply IH.
Qed.

(** A gateway that grants everything and keeps its table in order of arrival. *)
Definition demo_igd : Igd (list (PortMappingProtocol * Z * (list Z * Z))) :=
  mkIgd _ (fun g => (true, g)) (fun p ext local _ _ g => (true, (p, ext, local) :: g))
    (fun p ext g => (true, filter (fun e => e.1 <> (p, ext)) g)) (fun g => (Some [203; 0; 113; 7], g))
    (fun i g => ((fun e => e.1.1) <$> g !! Z.to_nat i, g)).

#[global] Instance demo_igd_grants : Granting demo_igd.
Proof. split; reflexivity. Qed.

Definition demo_upnp : UpnpClient := upnp_client_new (mkSocketAddr (V4 [192; 168; 1; 2]) 22001).

Definition managed (duration created_at : Z) : PortMapping := mkPortMapping 22001 22001 PmTcp duration created_at.

Lemma renewal_keeps_leases_witness :
  Forall (lease_held 4400000) (renewal_run demo_igd demo_upnp [0; 1500000; 3000000] ([managed 1800 0], [])).1.
Proof.
  apply (renewal_keeps_leases demo_igd demo_upnp 0 [1500000; 3000000]).
  - exists [192; 168; 1; 2]. reflexivity.
  - apply Forall_cons_2; [|constructor]. split; vm_compute; [discriminate|reflexivity].
  - apply Forall_cons_2; [|constructor]. split; vm_compute; [discriminate|reflexivity].
  - cbn. unfold MIN_RENEWAL_INTERVAL. lia.
Defined.

(** The second is real: a mapping made 300.9 s before a tick has 1500 s left by
    the code's clock, is not renewed, and is 0.9 s past its lease at the next
    tick. *)
Example lease_lapses_before_renewal :
  is_expiring_soon_at 300900 (managed 1800 0) = false /\ 1800 * 1000 < 300900 + MIN_RENEWAL_INTERVAL * 1000.
Proof. split; vm_compute; reflexivity. Qed.

(** The port the caller names as internal does not reach the gateway, which
    forwards to the port of the local address; the managed list says
    otherwise. *)
Example internal_port_ignored :
  add_mapping demo_igd demo_upnp 0 443 8443 PmTcp 1800 [] [] =
  (Ok [mkPortMapping 443 8443 PmTcp 1800 0], [(PmTcp, 443, ([192; 168; 1; 2], 22001))]).
Proof. reflexivity. Qed.

(** [has_mapping] looks at the entry whose index is the port number. *)
Example has_mapping_misses :
  has_mapping demo_igd 22001 PmTcp (add_tcp_mapping demo_igd demo_upnp 22001 1800 []).2 =
  (Ok false, [(PmTcp, 22001, ([192; 168; 1; 2], 22001))]).
Proof. vm_compute. reflexivity. Qed.

(** ** The list of public addresses *)

Lemma remove_first_perm x l1 l2 : l1 ≡ₚ l2 ++ [x] -> remove_first x l1 ≡ₚ l2.
Proof.
  assert (Hr : x ∈ l1 -> l1 ≡ₚ x :: remove_first x l1).
  { induction l1 as [|y l1 IH]; intros Hx; [by apply not_elem_of_nil in Hx|]. cbn [remove_first].
    case_decide as E; [by subst|]. apply elem_of_cons in Hx as [-> |Hx]; [done|].
    rewrite perm_swap. constructor. by apply IH. }
  intros Hp. apply (Permutation_cons_inv (a := x)). rewrite <- Hr.
  - rewrite Hp. symmetry. apply Permutation_cons_append.
  - rewrite Hp. apply elem_of_app. right. apply list_elem_of_singleton. done.
Qed.

Lemma port_mapper_turn_addrs local_port now others env t base :
  nt_public_addrs t ≡ₚ base ++ [tcp_url (nt_current_ext t)] ->
  let t' := (port_mapper_turn local_port now others env t).1 in
  nt_public_addrs t' ≡ₚ (base ++ others) ++ [tcp_url (nt_current_ext t')].
Proof.
  intros Hp. unfold port_mapper_turn. cbv zeta.
  assert (Ho : nt_public_addrs t ++ others ≡ₚ (base ++ others) ++ [tcp_url (nt_current_ext t)])
    by (rewrite Hp; solve_Permutation).
  destruct (_ <=? _); [done|]. destruct (allocate_port _ _ _) as [[mapping|e] pm]; [|done].
  cbn [fst nt_public_addrs nt_current_ext]. unfold replace_url. f_equiv. by apply remove_first_perm.
Qed.

(** The mapping task keeps exactly one entry in the list of public addresses,
    the address of its latest mapping, and leaves the entries of the other tasks
    alone; the order apart, through any number of renewals. *)
Theorem public_addresses_kept local_port env actual_addr turns base t :
  port_mapper_start env actual_addr local_port base = Some t ->
  let t' := (port_mapper_loop local_port turns t).1 in
  exists n, nt_public_addrs t' ≡ₚ
    (base ++ concat ((fun x => x.1.2) <$> take n turns)) ++ [tcp_url (nt_current_ext t')].
Proof.
  unfold port_mapper_start. destruct (allocate_port _ _ _) as [[mapping|e] pm]; [|done].
  intros [= <-]. set (t := mkNatTask _ _ _ _ _).
  assert (Hp : nt_public_addrs t ≡ₚ base ++ [tcp_url (nt_current_ext t)]) by done. clearbody t. clear mapping pm.
  revert t base Hp. induction turns as [|[[now others] env'] turns IH]; intros t base Hp.
  { exists 0%nat. cbn. by rewrite app_nil_r. }
  cbn [port_mapper_loop]. pose proof (port_mapper_turn_addrs local_port now others env' t base Hp) as Ht. cbv zeta in Ht.
  destruct (port_mapper_turn local_port now others env' t) as [t1 []]; cbn [fst] in *.
  - destruct (IH t1 _ Ht) as [n Hn]. exists (S n). cbn. by rewrite (app_assoc base others).
  - exists 1%nat. cbn. by rewrite app_nil_r.
Qed.

Definition gone_env : MapEnv := mkMapEnv None None None None None None None None 4600.

Lemma public_addresses_kept_witness :
  exists t, port_mapper_start (sample_map_env 7200) (mkSocketAddr (V4 [192; 168; 1; 2]) 22000) 22000 [$"relay://r"] = Some t /\
  exists n, nt_public_addrs (port_mapper_loop 22000 [(1000, [], sample_map_env 7200)] t).1 ≡ₚ
    ([$"relay://r"] ++ concat ((fun x => x.1.2) <$> take n [(1000, [], sample_map_env 7200)])) ++
    [tcp_url (nt_current_ext (port_mapper_loop 22000 [(1000, [], sample_map_env 7200)] t).1)].
Proof.
  destruct (port_mapper_start (sample_map_env 7200) (mkSocketAddr (V4 [192; 168; 1; 2]) 22000) 22000 [$"relay://r"]) as [t|] eqn:E.
  - exists t. split; [reflexivity|]. exact (public_addresses_kept _ _ _ [(1000, [], sample_map_env 7200)] _ _ E).
  - exfalso. vm_compute in E. discriminate.
Defined.

(** When a renewal fails the task ends, and the address of the mapping that
    runs out stays in the list that is announced. *)
Example failed_renewal_keeps_address :
  exists t, port_mapper_start (sample_map_env 7200) (mkSocketAddr (V4 [192; 168; 1; 2]) 22000) 22000 [] = Some t /\
    nt_public_addrs (port_mapper_loop 22000 [(1000, [], gone_env)] t).1 = [$"tcp://203.0.113.7:22000"] /\
    (port_mapper_loop 22000 [(1000, [], gone_env)] t).2 = false.
Proof. eexists. split; [vm_compute; reflexivity|]. split; vm_compute; reflexivity. Qed.

(** ** Relay listeners *)

Lemma next_backoff_bounds elapsed backoff :
  1 <= backoff <= RELAY_MAX_BACKOFF_SECS -> 1 <= next_backoff elapsed backoff <= RELAY_MAX_BACKOFF_SECS.
Proof. unfold next_backoff, RELAY_MAX_BACKOFF_SECS, RELAY_BACKOFF_RESET_SECS. intros. case_match; lia. Qed.

(** The elapsed time contains the backoff itself, so a listener that always
    fails at once never waits longer than 64 seconds: the delays are 1, 2, 4, 8,
    16, 32, 64 and start again. *)
Theorem listener_backoff_bound lived :
  Forall (fun l => 0 <= l) lived -> Forall (fun b => 1 <= b <= 64) (listener_backoffs 1 lived).
Proof.
  assert (Hg : forall b, b ∈ [1; 2; 4; 8; 16; 32; 64] -> Forall (fun l => 0 <= l) lived ->
            Forall (fun b => 1 <= b <= 64) (listener_backoffs b lived)).
  { induction lived as [|l lived IH]; intros b Hb Hl; [constructor|]. apply Forall_cons in Hl as [H0 Hl].
    cbn [listener_backoffs]. constructor; [set_unfold in Hb; lia|]. apply IH; [|done].
    unfold next_backoff, RELAY_MAX_BACKOFF_SECS, RELAY_BACKOFF_RESET_SECS. destruct (Z.ltb_spec 60 (l + b)); [set_solver|].
    set_unfold in Hb. set_unfold. lia. }
  apply Hg. set_solver.
Qed.

Lemma listener_backoff_bound_witness : Forall (fun b => 1 <= b <= 64) (listener_backoffs 1 (replicate 20 0)).
Proof. apply listener_backoff_bound. by apply Forall_replicate. Defined.

Lemma relay_joined_once url addrs : NoDup addrs -> NoDup (relay_joined url addrs) /\ url ∈ relay_joined url addrs.
Proof.
  intros Hn. unfold relay_joined. case_decide as E; [done|]. split; [|set_solver].
  apply NoDup_app. split; [done|]. split; [set_solver|apply NoDup_singleton].
Qed.

(** An address an invitation may send the daemon to. *)
Definition session_target_ok (a : SocketAddr) : Prop :=
  is_loopback (sa_ip a) = false /\ is_multicast (sa_ip a) = false /\ is_unspecified (sa_ip a) = false.

Lemma resolve_session_addr_ok relay_addr inv a :
  resolve_session_addr relay_addr inv = Ok a -> session_target_ok a.
Proof.
  unfold resolve_session_addr. intros E. apply result_bind_Ok in E as (a' & _ & E).
  destruct (_ || _) eqn:Eb; [done|]. reflect_bools.
  assert (a' = a) as <- by (by repeat case_match; simplify_eq). by split.
Qed.

Lemma begin_handshake_conns d t m c : mg_conns m !! c = None -> mg_conns (begin_handshake d t m).2 !! c = None.
Proof.
  intros Hc. assert (Hr : mg_conns (replace_connected d m) !! c = None).
  { unfold replace_connected. destruct (is_connected m d); [|done]. cbn [callback on_callbacks mg_conns].
    set (m0 := on_connections (base.delete d) m). assert (H0 : mg_conns m0 !! c = None) by done. clearbody m0.
    generalize (device_conns m d). intros l. revert m0 H0. induction l as [|x l IH]; intros m0 H0; [done|]. cbn [foldl].
    apply IH. cbn. rewrite lookup_alter_None. exact H0. }
  unfold begin_handshake. repeat case_match; done.
Qed.

(** Everything an invitation can do to the connection manager: the registry
    stays sound, a connection is registered only through a session address that
    passed the checks, and only for the device its TLS handshake authenticated. *)
Lemma handle_invitation_sound relay_addr inv s m ok m' :
  mg_inv m -> (forall c, rs_conn s = Some c -> mg_conns m !! c = None) ->
  handle_invitation relay_addr inv s m = (ok, m') ->
  mg_inv m' /\
  (ok = true -> exists a d c, resolve_session_addr relay_addr inv = Ok a /\ session_target_ok a /\
     rs_tls s = Some d /\ rs_conn s = Some c /\ mg_handshakes m' !! d = None).
Proof.
  intros HI Hf E. unfold handle_invitation in E.
  destruct (resolve_session_addr relay_addr inv) as [a|e] eqn:Ea; [|simplify_eq; by split].
  destruct (rs_joined s); cbn [negb] in E; [|simplify_eq; by split].
  destruct (rs_tls s) as [d|] eqn:Ed; [|simplify_eq; by split].
  pose proof (begin_handshake_inv d Incoming m HI) as Hb. pose proof (begin_handshake_conns d Incoming m) as Hn.
  destruct (begin_handshake d Incoming m) as [[] m1]; cbn [fst snd] in *; [|simplify_eq; by split].
  destruct (rs_conn s) as [c|] eqn:Ec; simplify_eq; [|split; [by apply mg_inv_handshakes|done]].
  split.
  - apply mg_inv_handshakes, register_new_inv; [done|]. by apply Hn, Hf.
  - intros _. exists a, d, c. repeat split; try done; try by eapply resolve_session_addr_ok.
    unfold end_handshake. cbn. apply lookup_delete_eq.
Qed.

Lemma register_connection_conns d c c' m : mg_conns m !! c' = None -> mg_conns (register_connection d c m) !! c' = None.
Proof.
  intros Hc. unfold register_connection. destruct (register_decide d c m) as [act old]. unfold register_act. cbn [fst snd].
  assert (Ho : mg_conns (match old with Some old => close_conn old m | None => m end) !! c' = None)
    by (destruct old; cbn; rewrite ?lookup_alter_None; done).
  destruct act; cbn; rewrite ?lookup_alter_None; done.
Qed.

Lemma handle_invitation_conns relay_addr inv s m ok m' c :
  handle_invitation relay_addr inv s m = (ok, m') -> rs_conn s <> Some c -> mg_conns m !! c = None -> mg_conns m' !! c = None.
Proof.
  intros E Hne Hc. unfold handle_invitation in E. pose proof (fun d => begin_handshake_conns d Incoming m c Hc) as Hb.
  repeat case_match; simplify_eq; try done;
    match goal with E : begin_handshake ?d _ _ = _ |- _ => specialize (Hb d); rewrite E in Hb; cbn in Hb end; try done.
  unfold end_handshake. cbn. apply register_connection_conns. cbn. rewrite lookup_insert_ne by congruence. done.
Qed.

(** A relay listener, whatever the relay sends and however the sessions end,
    keeps the registry of connections sound.  Each session brings a connection
    of its own. *)
Theorem relay_listener_sound relay_addr invs m ok m' :
  mg_inv m -> NoDup (omap (fun p => rs_conn p.2) invs) ->
  Forall (fun c => mg_conns m !! c = None) (omap (fun p => rs_conn p.2) invs) ->
  relay_listener_loop relay_addr invs m = (ok, m') -> mg_inv m'.
Proof.
  revert m. induction invs as [|[inv s] invs IH]; intros m HI Hnd Hf E; [by simplify_eq/=|].
  cbn [relay_listener_loop] in E. destruct (handle_invitation relay_addr inv s m) as [b m1] eqn:Eh.
  cbn [omap list_omap snd] in Hnd, Hf.
  assert (HI1 : mg_inv m1).
  { eapply handle_invitation_sound; [done| |done]. intros c Ec. rewrite Ec in Hf. by apply Forall_cons in Hf as [Hf _]. }
  destruct b; [|by simplify_eq]. apply (IH m1 HI1); [| |done].
  - destruct (rs_conn s); [by apply NoDup_cons in Hnd as [_ Hnd]|done].
  - apply Forall_forall. intros c Hc. apply (handle_invitation_conns _ _ _ _ _ _ _ Eh).
    + intros Es. rewrite Es in Hnd. by apply NoDup_cons in Hnd as [Hnd _].
    + revert c Hc. apply Forall_forall. destruct (rs_conn s); [by apply Forall_cons in Hf as [_ Hf]|done].
Qed.

(** *** The watchdog *)

Definition failed_check (c : option Z) : Prop := match c with Some status => is_success status = false | None => True end.

(** The process is restarted when, and only when, two checks in a row fail. *)
Theorem watchdog_restarts_iff checks :
  watchdog_loop 0 checks = WdRestart <->
  exists before a b after, checks = before ++ a :: b :: after /\ failed_check a /\ failed_check b.
Proof.
  assert (Hs : forall c f, check_failures c f = 0 \/ (check_failures c f = f + 1 /\ failed_check c)).
  { intros [st|] f; cbn; [destruct (is_success st); tauto|tauto]. }
  assert (Hg : forall f, 0 <= f <= 1 -> (watchdog_loop f checks = WdRestart <->
            (f = 1 /\ exists b after, checks = b :: after /\ failed_check b) \/
            exists before a b after, checks = before ++ a :: b :: after /\ failed_check a /\ failed_check b)).
  { induction checks as [|c checks IH]; intros f Hf.
    { split; [done|]. intros [(_ & b & after & E & _)|(bef & a & b & after & E & _)]; [done|by destruct bef]. }
    cbn [watchdog_loop]. unfold MAX_FAILURES.
    destruct (Hs c f) as [E0|[E1 Hc]].
    - rewrite E0. cbn [Z.leb]. change (2 <=? 0) with false. cbv iota. rewrite (IH 0) by lia.
      assert (Hok : ~ failed_check c).
      { destruct c as [st|]; cbn in *; [destruct (is_success st) eqn:Es; [done|lia]|lia]. }
      split.
      + intros [[? _]|(bef & a & b & after & -> & ?)]; [lia|]. right. by exists (c :: bef), a, b, after.
      + intros [(_ & b & after & [= <- <-] & ?)|(bef & a & b & after & E & Ha & Hb)]; [done|]. right.
        destruct bef as [|x bef]; cbn in E; simplify_eq; [done|]. by exists bef, a, b, after.
    - rewrite E1. destruct (Z.leb_spec 2 (f + 1)) as [H2|H2].
      + split; [|done]. intros _. left. split; [lia|]. by exists c, checks.
      + rewrite (IH (f + 1)) by lia. split.
        * intros [(_ & b & after & -> & Hb)|(bef & a & b & after & -> & ?)]; right; [by exists [], c, b, after|by exists (c :: bef), a, b, after].
        * intros [(Hf1 & _)|(bef & a & b & after & E & Ha & Hb)]; [lia|].
          destruct bef as [|x bef]; cbn in E; simplify_eq; [left; split; [lia|by exists b, after]|right; by exists bef, a, b, after]. }
  rewrite (Hg 0) by lia. split; [intros [[? _]|?]; [lia|done]|by right].
Qed.

(** Without an API key the watchdog does not run, and when the replacement
    cannot be started it is over while the daemon stays as it is. *)
Example watchdog_gives_up :
  watchdog_run None [None; None] = WdDisabled /\ watchdog_run (Some ($"k")) [None; None] = WdRestart /\
  restart_process true false = false.
Proof. repeat split. Qed.

Lemma manager_new_inv local max_connections timeout : mg_inv (manager_new local max_connections timeout).
Proof. constructor; try done; by intros d c (nested & Hn & _). Qed.

Definition demo_relay : SocketAddr := mkSocketAddr (V4 [203; 0; 113; 9]) 22067.

Lemma relay_listener_sound_witness :
  mg_inv (relay_listener_loop demo_relay
    [(mkSessionInvitation [] [] [] 22067 true, mkRelaySession true (Some peer_a) (Some 1%positive));
     (mkSessionInvitation [] [] (bytes_of_str ($"127.0.0.1")) 22067 true, mkRelaySession true (Some peer_a) (Some 2%positive))]
    (manager_new peer_b 100 30)).2.
Proof.
  set (invs := [_; _]). destruct (relay_listener_loop demo_relay invs (manager_new peer_b 100 30)) as [ok m'] eqn:E.
  refine (relay_listener_sound demo_relay invs _ ok m' _ _ _ E).
  - apply manager_new_inv.
  - cbn. apply (bool_decide_unpack _). vm_compute. exact I.
  - cbn. repeat apply Forall_cons_2; [reflexivity..|constructor].
Defined.
