(* ===== verification/Tasks.v ===== *)
(** * Queued tasks and predicted health

    The bounded priority queue of sync tasks and the executor that drains it
    ([syncthing-sync/src/sync_task.rs]), and the predictor that counts sync
    events in sliding windows and throttles the orchestrator
    ([cmd/syncthing/src/health_predictor.rs]). *)

From Stdlib Require Import SpecFloat.
From S2P Require Import Prelude Core Bep Conflict FolderModel Supervise Service.

(** ** The task queue *)

Inductive TaskSource := TaskLocal | TaskRemote | TaskManual.

Inductive TaskPriority := TpCritical | TpHigh | TpNormal | TpLow | TpBackground.

(** The discriminants, which the derived order compares. *)
Definition task_rank (p : TaskPriority) : Z :=
  match p with TpCritical => 0 | TpHigh => 1 | TpNormal => 2 | TpLow => 3 | TpBackground => 4 end.

Record SyncTask := mkSyncTask {
  st_id : str;
  st_folder : str;
  st_file : FileInfo;
  st_source : TaskSource;
  st_priority : TaskPriority;
}.

Definition sync_task_new (id folder : str) (file : FileInfo) (source : TaskSource) : SyncTask :=
  mkSyncTask id folder file source TpNormal.

Definition with_priority (p : TaskPriority) (t : SyncTask) : SyncTask :=
  mkSyncTask (st_id t) (st_folder t) (st_file t) (st_source t) p.

Definition rank (t : SyncTask) : Z := task_rank (st_priority t).

Record TaskQueue := mkTaskQueue { tq_queue : list SyncTask; tq_max_size : Z }.

Definition task_queue_new (max_size : Z) : TaskQueue := mkTaskQueue [] max_size.

(** [iter().position(|t| t.priority > task.priority).unwrap_or(len)] *)
Fixpoint insert_pos (task : SyncTask) (q : list SyncTask) : nat :=
  match q with
  | [] => 0
  | t :: q' => if rank task <? rank t then 0 else S (insert_pos task q')
  end.

(** [None]: the queue is full. *)
Definition tq_push (task : SyncTask) (tq : TaskQueue) : option TaskQueue :=
  let q := tq_queue tq in
  if tq_max_size tq <=? Z.of_nat (length q) then None
  else let pos := insert_pos task q in
       Some (mkTaskQueue (take pos q ++ task :: drop pos q) (tq_max_size tq)).

Definition tq_pop (tq : TaskQueue) : option SyncTask * TaskQueue :=
  match tq_queue tq with
  | [] => (None, tq)
  | t :: q' => (Some t, mkTaskQueue q' (tq_max_size tq))
  end.

Definition tq_peek (tq : TaskQueue) : option SyncTask := head (tq_queue tq).

Definition tq_len (tq : TaskQueue) : Z := Z.of_nat (length (tq_queue tq)).

Definition tq_is_empty (tq : TaskQueue) : bool := bool_decide (tq_queue tq = []).

Definition tq_clear (tq : TaskQueue) : TaskQueue := mkTaskQueue [] (tq_max_size tq).

Definition task_of_file (folder file_name : str) (t : SyncTask) : bool :=
  bool_decide (st_folder t = folder) && bool_decide (name (st_file t) = file_name).

Definition tq_remove_file (folder file_name : str) (tq : TaskQueue) : list SyncTask * TaskQueue :=
  (filter (fun t => task_of_file folder file_name t = true) (tq_queue tq),
   mkTaskQueue (filter (fun t => task_of_file folder file_name t = false) (tq_queue tq)) (tq_max_size tq)).

Definition get_folder_tasks (folder : str) (tq : TaskQueue) : list SyncTask :=
  filter (fun t => st_folder t = folder) (tq_queue tq).

(** ** The executor

    [ex_held]: a task that was popped and waits for a permit; [ex_done] the
    tasks whose handler has returned, with its outcome ignored. *)
Record Executor := mkExecutor {
  ex_queue : TaskQueue;
  ex_held : option SyncTask;
  ex_running : list SyncTask;
  ex_done : list SyncTask;
  ex_stopped : bool;
}.

Definition executor_new (tq : TaskQueue) : Executor := mkExecutor tq None [] [] false.

Inductive ExEvent :=
| ExPush (t : SyncTask)
| ExPop
| ExSpawn
| ExFinish (i : nat)
| ExShutdown.

(** One step; [None]: it cannot happen now.  A push to a full queue is refused
    and changes nothing. *)
Definition executor_step (max_concurrent : Z) (e : ExEvent) (x : Executor) : option Executor :=
  match e with
  | ExPush t =>
      Some match tq_push t (ex_queue x) with
           | Some tq => mkExecutor tq (ex_held x) (ex_running x) (ex_done x) (ex_stopped x)
           | None => x
           end
  | ExPop =>
      match ex_held x, ex_stopped x, tq_pop (ex_queue x) with
      | None, false, (Some t, tq) => Some (mkExecutor tq (Some t) (ex_running x) (ex_done x) false)
      | _, _, _ => None
      end
  | ExSpawn =>
      match ex_held x with
      | Some t => if Z.of_nat (length (ex_running x)) <? max_concurrent
                  then Some (mkExecutor (ex_queue x) None (t :: ex_running x) (ex_done x) (ex_stopped x))
                  else None
      | None => None
      end
  | ExFinish i =>
      match ex_running x !! i with
      | Some t => Some (mkExecutor (ex_queue x) (ex_held x) (base.delete i (ex_running x)) (t :: ex_done x) (ex_stopped x))
      | None => None
      end
  | ExShutdown =>
      match ex_held x with
      | None => Some (mkExecutor (ex_queue x) None (ex_running x) (ex_done x) true)
      | Some _ => None
      end
  end.

(** ** The health predictor *)

Record HealthPredictorConfig := mkHealthPredictorConfig {
  hp_interval_secs : Z;
  hp_window_intervals : Z;
  hp_scan_failure_ratio_threshold : f64;
  hp_pull_failure_ratio_threshold : f64;
  hp_watcher_drop_threshold : Z;
  hp_state_flap_threshold : Z;
  hp_incremental_ratio_threshold : f64;
}.

(** The doubles nearest to 0.1 and 0.5, and the two constants. *)
Definition f64_tenth : f64 := S754_finite false 7205759403792794 (-56).
Definition f64_half : f64 := S754_finite false 4503599627370496 (-53).
Definition f64_zero : f64 := f64_of_usize 0.
Definition f64_one : f64 := f64_of_usize 1.

Definition health_default : HealthPredictorConfig :=
  mkHealthPredictorConfig 60 5 f64_tenth f64_tenth 50 20 f64_half.

Record FolderWindow := mkFolderWindow {
  fw_scans_completed : Z;
  fw_scans_failed : Z;
  fw_pulls_completed : Z;
  fw_pulls_failed : Z;
  fw_watcher_dropped : Z;
  fw_incremental_scans : Z;
  fw_full_scans : Z;
  fw_state_transitions : Z;
}.

Definition window_default : FolderWindow := mkFolderWindow 0 0 0 0 0 0 0 0.

Definition window_add (a b : FolderWindow) : FolderWindow :=
  mkFolderWindow
    (wrap 64 (fw_scans_completed a + fw_scans_completed b))
    (wrap 64 (fw_scans_failed a + fw_scans_failed b))
    (wrap 64 (fw_pulls_completed a + fw_pulls_completed b))
    (wrap 64 (fw_pulls_failed a + fw_pulls_failed b))
    (wrap 64 (fw_watcher_dropped a + fw_watcher_dropped b))
    (wrap 64 (fw_incremental_scans a + fw_incremental_scans b))
    (wrap 64 (fw_full_scans a + fw_full_scans b))
    (wrap 64 (fw_state_transitions a + fw_state_transitions b)).

Abbreviation Windows := (gmap str FolderWindow).

(** [current.entry(folder).or_default()] with the counts of [w] added; the two
    global counters of the predictor are never read and are left out. *)
Definition bump (folder : str) (w : FolderWindow) (current : Windows) : Windows :=
  <[folder := window_add (default window_default (current !! folder)) w]> current.

Definition health_record (e : SyncEvent) (current : Windows) : Windows :=
  match e with
  | FolderScanCompleted folder _ => bump folder (mkFolderWindow 1 0 0 0 0 0 0 0) current
  | FolderScanFailed folder _ => bump folder (mkFolderWindow 0 1 0 0 0 0 0 0) current
  | SyncComplete folder _ => bump folder (mkFolderWindow 0 0 1 0 0 0 0 0) current
  | ItemFinished folder _ (ItemModify | ItemAdd) (Some _) => bump folder (mkFolderWindow 0 0 0 1 0 0 0 0) current
  | WatcherEventsDropped folder dropped => bump folder (mkFolderWindow 0 0 0 0 dropped 0 0 0) current
  | IncrementalScanTriggered folder _ => bump folder (mkFolderWindow 0 0 0 0 0 1 0 0) current
  | FolderStateChanged folder from to =>
      if decide (from = to) then current else bump folder (mkFolderWindow 0 0 0 0 0 0 0 1) current
  | _ => current
  end.

Definition merge_windows (result window : Windows) : Windows :=
  union_with (fun a b => Some (window_add a b)) result window.

Definition aggregate_windows (current : Windows) (history : list Windows) (max_intervals : Z) : Windows :=
  let start := (length history - Z.to_nat (Z.max 0 (max_intervals - 1)))%nat in
  foldl merge_windows current (drop start history).

(** [if total > 0 { part / total } else { empty }] *)
Definition ratio (part total : Z) (empty : f64) : f64 :=
  if 0 <? total then f64_div (f64_of_usize part) (f64_of_usize total) else empty.

Definition window_alert (c : HealthPredictorConfig) (w : FolderWindow) : bool :=
  let scan_total := wrap 64 (fw_scans_completed w + fw_scans_failed w) in
  let pull_total := wrap 64 (fw_pulls_completed w + fw_pulls_failed w) in
  let incremental_total := wrap 64 (fw_incremental_scans w + fw_full_scans w) in
  SFltb (hp_scan_failure_ratio_threshold c) (ratio (fw_scans_failed w) scan_total f64_zero) ||
  SFltb (hp_pull_failure_ratio_threshold c) (ratio (fw_pulls_failed w) pull_total f64_zero) ||
  (hp_watcher_drop_threshold c <? fw_watcher_dropped w) ||
  (hp_state_flap_threshold c <? fw_state_transitions w) ||
  (SFltb (ratio (fw_incremental_scans w) incremental_total f64_one) (hp_incremental_ratio_threshold c) && (0 <? incremental_total)).

Definition any_alert (c : HealthPredictorConfig) (aggregated : Windows) : bool :=
  existsb (fun fw => window_alert c fw.2) (map_to_list aggregated).

Definition evaluate (c : HealthPredictorConfig) (aggregated : Windows) (orch : option FolderOrchestrator) : option FolderOrchestrator :=
  match orch with
  | None => None
  | Some o =>
      let current := throttle_percent (fo_config o) in
      Some (if any_alert c aggregated && (50 <? current) then set_throttle o (Z.max (Z.max 0 (current - 20)) 50)
            else if negb (any_alert c aggregated) && (current <? 100) then set_throttle o (Z.min (current + 10) 100)
            else o)
  end.

Record HealthState := mkHealthState {
  hs_current : Windows;
  hs_history : list Windows;
  hs_orchestrator : option FolderOrchestrator;
}.

Inductive HealthInput := HealthTick | HealthEvent (e : SyncEvent).

Definition health_step (c : HealthPredictorConfig) (i : HealthInput) (s : HealthState) : HealthState :=
  match i with
  | HealthTick =>
      let orch := evaluate c (aggregate_windows (hs_current s) (hs_history s) (hp_window_intervals c)) (hs_orchestrator s) in
      let history := hs_history s ++ [hs_current s] in
      mkHealthState ∅ (if hp_window_intervals c <? Z.of_nat (length history) then drop 1 history else history) orch
  | HealthEvent e => mkHealthState (health_record e (hs_current s)) (hs_history s) (hs_orchestrator s)
  end.

Definition health_run (c : HealthPredictorConfig) (inputs : list HealthInput) (s : HealthState) : HealthState :=
  foldl (fun s i => health_step c i s) s inputs.

(** ** The queue is five queues

    The specification: one first-in-first-out list for each priority. *)

Definition priorities : list TaskPriority := [TpCritical; TpHigh; TpNormal; TpLow; TpBackground].

Definition level (p : TaskPriority) (q : list SyncTask) : list SyncTask := filter (fun t => rank t = task_rank p) q.

Abbreviation Levels := (list (Z * list SyncTask)).

Definition queue_of (L : Levels) : list SyncTask := concat L.*2.

Definition levels_empty : Levels := (fun p => (task_rank p, [])) <$> priorities.

Definition push_level (t : SyncTask) (L : Levels) : Levels :=
  (fun l => if l.1 =? rank t then (l.1, l.2 ++ [t]) else l) <$> L.

(** The head of the first level that has one. *)
Fixpoint pop_level (L : Levels) : option (SyncTask * Levels) :=
  match L with
  | [] => None
  | (p, []) :: L' => let+ (t, L'') := pop_level L' in Some (t, (p, []) :: L'')
  | (p, t :: ts) :: L' => Some (t, (p, ts) :: L')
  end.

Definition keep_levels (f : SyncTask -> bool) (L : Levels) : Levels :=
  (fun l => (l.1, filter (fun t => f t = true) l.2)) <$> L.

Inductive QueueOp :=
| QPush (t : SyncTask)
| QPop
| QPeek
| QLen
| QClear
| QRemoveFile (folder file_name : str).

Inductive QueueOut :=
| OutPushed (ok : bool)
| OutTask (t : option SyncTask)
| OutLen (n : Z)
| OutTasks (ts : list SyncTask)
| OutNone.

Definition queue_exec (o : QueueOp) (tq : TaskQueue) : QueueOut * TaskQueue :=
  match o with
  | QPush t => match tq_push t tq with Some tq' => (OutPushed true, tq') | None => (OutPushed false, tq) end
  | QPop => let '(t, tq') := tq_pop tq in (OutTask t, tq')
  | QPeek => (OutTask (tq_peek tq), tq)
  | QLen => (OutLen (tq_len tq), tq)
  | QClear => (OutNone, tq_clear tq)
  | QRemoveFile folder file_name => let '(ts, tq') := tq_remove_file folder file_name tq in (OutTasks ts, tq')
  end.

Definition spec_exec (max_size : Z) (o : QueueOp) (L : Levels) : QueueOut * Levels :=
  match o with
  | QPush t => if max_size <=? Z.of_nat (length (queue_of L)) then (OutPushed false, L) else (OutPushed true, push_level t L)
  | QPop => match pop_level L with Some (t, L') => (OutTask (Some t), L') | None => (OutTask None, L) end
  | QPeek => (OutTask (fst <$> pop_level L), L)
  | QLen => (OutLen (Z.of_nat (length (queue_of L))), L)
  | QClear => (OutNone, levels_empty)
  | QRemoveFile folder file_name =>
      (OutTasks (queue_of (keep_levels (task_of_file folder file_name) L)),
       keep_levels (fun t => negb (task_of_file folder file_name t)) L)
  end.

Definition run_ops {S : Type} (exec : QueueOp -> S -> QueueOut * S) (ops : list QueueOp) (s : S) : list QueueOut * S :=
  foldl (fun st o => let '(out, s') := exec o st.2 in (st.1 ++ [out], s')) ([], s) ops.

(** Every level holds the tasks of its priority; the levels are in order. *)
Definition levels_wf (L : Levels) : Prop :=
  L.*1 = task_rank <$> priorities /\ Forall (fun l => Forall (fun t => rank t = l.1) l.2) L.

Lemma insert_pos_low task l r :
  Forall (fun t => rank t <= rank task) l -> insert_pos task (l ++ r) = (length l + insert_pos task r)%nat.
Proof.
  induction 1 as [|t l Ht _ IH]; [done|]. cbn [app insert_pos length]. rewrite IH.
  by destruct (Z.ltb_spec (rank task) (rank t)); [lia|].
Qed.

Lemma insert_pos_high task l : Forall (fun t => rank task < rank t) l -> insert_pos task l = 0%nat.
Proof. destruct 1 as [|t l Ht _]; [done|]. cbn. by rewrite (proj2 (Z.ltb_lt _ _) Ht). Qed.

Lemma insert_between task l r :
  Forall (fun t => rank t <= rank task) l -> Forall (fun t => rank task < rank t) r ->
  let pos := insert_pos task (l ++ r) in
  take pos (l ++ r) ++ task :: drop pos (l ++ r) = l ++ task :: r.
Proof.
  intros Hl Hr. cbv zeta. rewrite insert_pos_low, insert_pos_high, Nat.add_0_r by done.
  by rewrite take_app_length, drop_app_length.
Qed.

Lemma push_level_skip t L : Forall (fun l => l.1 <> rank t) L -> push_level t L = L.
Proof.
  induction 1 as [|l L Hl _ IH]; [done|]. unfold push_level in *. cbn [fmap list_fmap].
  destruct (Z.eqb_spec l.1 (rank t)); [done|]. by rewrite IH.
Qed.

Lemma push_level_cons t l L :
  push_level t (l :: L) = (if l.1 =? rank t then (l.1, l.2 ++ [t]) else l) :: push_level t L.
Proof. done. Qed.

Lemma queue_of_cons l L : queue_of (l :: L) = l.2 ++ queue_of L.
Proof. done. Qed.

Lemma queue_above r L :
  Forall (Z.lt r) L.*1 -> Forall (fun l => Forall (fun x => rank x = l.1) l.2) L -> Forall (fun x => r < rank x) (queue_of L).
Proof.
  induction L as [|l L IH]; intros Hp Hl; [constructor|]. rewrite queue_of_cons. cbn [fmap list_fmap] in Hp.
  apply Forall_cons in Hp as [Hp0 Hp], Hl as [Hl0 Hl]. apply Forall_app_2; [|by apply IH].
  eapply Forall_impl; [exact Hl0|]. cbn. intros x ->. done.
Qed.

(** In levels of increasing rank, the insertion point is the end of the task's
    own level. *)
Lemma queue_push t L :
  StronglySorted Z.lt L.*1 -> rank t ∈ L.*1 -> Forall (fun l => Forall (fun x => rank x = l.1) l.2) L ->
  exists l r, queue_of L = l ++ r /\ queue_of (push_level t L) = l ++ t :: r /\
    Forall (fun x => rank x <= rank t) l /\ Forall (fun x => rank t < rank x) r.
Proof.
  induction L as [|[p ts] L IH]; intros Hs Ht Hl; [by apply not_elem_of_nil in Ht|].
  cbn [fmap list_fmap fst] in Hs, Ht. apply StronglySorted_inv in Hs as [Hs Hp]. apply Forall_cons in Hl as [Hl0 Hl]. cbn in Hl0.
  rewrite push_level_cons, !queue_of_cons. cbn [fst snd].
  destruct (Z.eqb_spec p (rank t)) as [E|Hne]; cbn [snd].
  - exists ts, (queue_of L). rewrite push_level_skip.
    + rewrite <- app_assoc. split_and!; [done|done| |].
      * eapply Forall_impl; [exact Hl0|]. cbn. intros; lia.
      * rewrite <- E. by apply queue_above.
    + rewrite Forall_fmap in Hp. eapply Forall_impl; [exact Hp|]. cbn. intros; lia.
  - apply elem_of_cons in Ht as [Ht|Ht]; [congruence|].
    destruct (IH Hs Ht Hl) as (l & r & -> & -> & H1 & H2). exists (ts ++ l), r. rewrite <- !app_assoc.
    split_and!; [done|done| |done]. apply Forall_app_2; [|done].
    assert (p < rank t) by (by eapply Forall_forall in Hp).
    eapply Forall_impl; [exact Hl0|]. cbn. intros; lia.
Qed.

Lemma priorities_sorted : StronglySorted Z.lt (task_rank <$> priorities).
Proof. cbn. repeat constructor. Qed.

Lemma rank_listed t : rank t ∈ task_rank <$> priorities.
Proof. unfold rank. destruct (st_priority t); cbn; set_solver. Qed.

Lemma push_levels_wf t L : levels_wf L -> levels_wf (push_level t L).
Proof.
  intros [H1 H2]. split.
  - rewrite <- H1. unfold push_level. rewrite <- list_fmap_compose. apply list_fmap_ext. intros i l _. cbn. by destruct (_ =? _).
  - apply Forall_fmap. eapply Forall_impl; [exact H2|]. intros l Hl. cbn.
    destruct (Z.eqb_spec l.1 (rank t)) as [E|]; [|done]. cbn. apply Forall_app_2; [done|]. by apply Forall_singleton.
Qed.

Lemma pop_level_queue L :
  match pop_level L with
  | Some (t, L') => queue_of L = t :: queue_of L' /\ L'.*1 = L.*1 /\
      forall P : Z * list SyncTask -> Prop, (forall p t ts, P (p, t :: ts) -> P (p, ts)) -> Forall P L -> Forall P L'
  | None => queue_of L = []
  end.
Proof.
  induction L as [|[p ts] L IH]; [done|]. cbn [pop_level]. destruct ts as [|t ts].
  - destruct (pop_level L) as [[t L']|]; cbn [mbind option_bind].
    + destruct IH as (E1 & E2 & E3). rewrite !queue_of_cons. cbn. split; [done|]. split; [by rewrite E2|].
      intros P HP [H1 H2]%Forall_cons. constructor; [done|by apply E3].
    + exact IH.
  - rewrite !queue_of_cons. cbn. split; [done|]. split; [done|]. intros P HP [H1 H2]%Forall_cons. constructor; [by eapply HP|done].
Qed.

Lemma keep_levels_queue f L : queue_of (keep_levels f L) = filter (fun t => f t = true) (queue_of L).
Proof. induction L as [|l L IH]; [done|]. rewrite queue_of_cons, filter_app, <- IH. done. Qed.

Lemma keep_levels_wf f L : levels_wf L -> levels_wf (keep_levels f L).
Proof.
  intros [H1 H2]. split.
  - rewrite <- H1. unfold keep_levels. by rewrite <- list_fmap_compose.
  - apply Forall_fmap. eapply Forall_impl; [exact H2|]. intros l Hl. cbn. apply Forall_forall.
    intros t [_ Ht]%list_elem_of_filter. by eapply Forall_forall in Hl.
Qed.

(** The queue that implements the levels. *)
Definition implements (max_size : Z) (L : Levels) (tq : TaskQueue) : Prop :=
  levels_wf L /\ tq = mkTaskQueue (queue_of L) max_size.

Lemma queue_step max_size o L tq :
  implements max_size L tq ->
  (queue_exec o tq).1 = (spec_exec max_size o L).1 /\ implements max_size (spec_exec max_size o L).2 (queue_exec o tq).2.
Proof.
  intros [Hw ->]. pose proof (pop_level_queue L) as Hp. destruct o as [t| | | | |folder file_name]; cbn [queue_exec spec_exec].
  - unfold tq_push. cbn [tq_queue tq_max_size]. destruct (max_size <=? _); [done|]. split; [done|].
    split; [by apply push_levels_wf|]. destruct Hw as [Hw1 Hw2].
    destruct (queue_push t L) as (l & r & E1 & E2 & H1 & H2); [by rewrite Hw1; apply priorities_sorted|by rewrite Hw1; apply rank_listed|done|].
    cbn [snd]. rewrite E1, E2. by rewrite insert_between.
  - unfold tq_pop. cbn [tq_queue tq_max_size]. destruct (pop_level L) as [[t L']|].
    + destruct Hp as (E & El & Ef). rewrite E. split; [done|]. split; [|done]. destruct Hw as [Hw1 Hw2].
      split; [exact (eq_trans El Hw1)|]. cbn. apply Ef; [|done]. by intros p x xs [_ Hx]%Forall_cons.
    + rewrite Hp. cbn. split; [done|]. split; [done|by rewrite Hp].
  - split; [|done]. unfold tq_peek. cbn. f_equal. destruct (pop_level L) as [[t L']|]; [by destruct Hp as (-> & _)|by rewrite Hp].
  - done.
  - split; [done|]. split; [|done]. split; [done|]. repeat constructor.
  - cbn. rewrite keep_levels_queue. split; [done|]. split; [by apply keep_levels_wf|]. rewrite keep_levels_queue.
    f_equal. apply list_filter_iff. intros x. by rewrite negb_true_iff.
Qed.

(** The bounded queue behaves as five first-in-first-out queues, one for each
    priority: for every sequence of operations it gives the same answers. *)
Theorem task_queue_refines max_size ops :
  (run_ops queue_exec ops (task_queue_new max_size)).1 = (run_ops (spec_exec max_size) ops levels_empty).1.
Proof.
  assert (Hg : (run_ops queue_exec ops (task_queue_new max_size)).1 = (run_ops (spec_exec max_size) ops levels_empty).1 /\
    implements max_size (run_ops (spec_exec max_size) ops levels_empty).2 (run_ops queue_exec ops (task_queue_new max_size)).2);
    [|by destruct Hg].
  unfold run_ops. induction ops as [|o ops [IH1 IH2]] using rev_ind.
  { split; [done|]. split; [|done]. split; [done|]. repeat constructor. }
  rewrite !foldl_app. cbn [foldl]. destruct (queue_step max_size o _ _ IH2) as [H1 H2].
  destruct (queue_exec o _) as [out tq'], (spec_exec max_size o _) as [out' L']. cbn in *. by rewrite IH1, H1.
Qed.

(** ** The executor loses no task and runs no more than it may *)

Lemma insert_perm t q : let pos := insert_pos t q in take pos q ++ t :: drop pos q ≡ₚ t :: q.
Proof. cbv zeta. rewrite <- Permutation_middle. by rewrite take_drop. Qed.

Fixpoint executor_run (max_concurrent : Z) (es : list ExEvent) (x : Executor) : option Executor :=
  match es with
  | [] => Some x
  | e :: es' => let+ x' := executor_step max_concurrent e x in executor_run max_concurrent es' x'
  end.

(** Everything the executor knows of, in no order. *)
Definition all_tasks (x : Executor) : list SyncTask :=
  tq_queue (ex_queue x) ++ from_option (fun t => [t]) [] (ex_held x) ++ ex_running x ++ ex_done x.

Definition accepted (x : Executor) (e : ExEvent) : list SyncTask :=
  match e with
  | ExPush t => match tq_push t (ex_queue x) with Some _ => [t] | None => [] end
  | _ => []
  end.

Fixpoint accepted_tasks (max_concurrent : Z) (es : list ExEvent) (x : Executor) : list SyncTask :=
  match es with
  | [] => []
  | e :: es' => accepted x e ++ match executor_step max_concurrent e x with
                                | Some x' => accepted_tasks max_concurrent es' x'
                                | None => []
                                end
  end.

Lemma executor_step_tasks max_concurrent e x x' :
  executor_step max_concurrent e x = Some x' -> all_tasks x' ≡ₚ all_tasks x ++ accepted x e.
Proof.
  unfold all_tasks. destruct e as [t| | |i|]; cbn [executor_step accepted]; intros E.
  - destruct (tq_push t (ex_queue x)) as [tq|] eqn:Ep; simplify_eq; [|by rewrite app_nil_r]. cbn.
    unfold tq_push in Ep. destruct (_ <=? _); [done|]. simplify_eq. cbn. rewrite insert_perm. solve_Permutation.
  - destruct (ex_held x); [done|]. destruct (ex_stopped x); [done|]. unfold tq_pop in E.
    destruct (tq_queue (ex_queue x)) as [|t q] eqn:Eq; [done|]. simplify_eq. cbn. solve_Permutation.
  - destruct (ex_held x) as [t|]; [|done]. destruct (_ <? _); [|done]. simplify_eq. cbn. solve_Permutation.
  - destruct (ex_running x !! i) as [t|] eqn:Er; [|done]. simplify_eq. cbn.
    rewrite app_nil_r. do 2 f_equiv. rewrite <- (Permutation_middle _ _ t). change (t :: ?a ++ ?b) with ((t :: a) ++ b).
    f_equiv. symmetry. by apply delete_Permutation.
  - destruct (ex_held x); [done|]. simplify_eq. cbn. by rewrite app_nil_r.
Qed.

Lemma executor_step_running max_concurrent e x x' :
  executor_step max_concurrent e x = Some x' -> Z.of_nat (length (ex_running x)) <= Z.max 0 max_concurrent ->
  Z.of_nat (length (ex_running x')) <= Z.max 0 max_concurrent.
Proof.
  intros E Hb. destruct e as [t| | |i|]; cbn [executor_step] in E.
  - destruct (tq_push t (ex_queue x)); by simplify_eq.
  - unfold tq_pop in E. repeat case_match; by simplify_eq.
  - destruct (ex_held x); [|done]. destruct (Z.ltb_spec (Z.of_nat (length (ex_running x))) max_concurrent); simplify_eq. cbn. lia.
  - destruct (ex_running x !! i) eqn:Er; [|done]. simplify_eq. cbn. rewrite length_delete by (by eexists). lia.
  - destruct (ex_held x); by simplify_eq.
Qed.

(** Along every run at most [max_concurrent] tasks are in flight, and every task
    the queue accepted is still queued, held, in flight or done: once each. *)
Theorem executor_sound max_concurrent max_size es x :
  executor_run max_concurrent es (executor_new (task_queue_new max_size)) = Some x ->
  Z.of_nat (length (ex_running x)) <= Z.max 0 max_concurrent /\
  all_tasks x ≡ₚ accepted_tasks max_concurrent es (executor_new (task_queue_new max_size)).
Proof.
  set (x0 := executor_new _). intros E.
  assert (Hg : forall x0, Z.of_nat (length (ex_running x0)) <= Z.max 0 max_concurrent ->
            executor_run max_concurrent es x0 = Some x ->
            Z.of_nat (length (ex_running x)) <= Z.max 0 max_concurrent /\
            all_tasks x ≡ₚ all_tasks x0 ++ accepted_tasks max_concurrent es x0).
  { clear x0 E. induction es as [|e es IH]; intros x0 Hb E; cbn [executor_run accepted_tasks] in *.
    { simplify_eq. by rewrite app_nil_r. }
    destruct (executor_step max_concurrent e x0) as [x1|] eqn:Es; [|done]. cbn in E.
    destruct (IH x1) as [H1 H2]; [by eapply executor_step_running|done|]. split; [done|].
    rewrite H2, (executor_step_tasks _ _ _ _ Es). by rewrite <- app_assoc. }
  destruct (Hg x0) as [H1 H2]; [cbn; lia|done|]. by split.
Qed.

Definition demo_task (p : TaskPriority) : SyncTask := with_priority p (sync_task_new [] ($"f") (file_info_new ($"a")) TaskLocal).

Definition demo_events : list ExEvent :=
  [ExPush (demo_task TpNormal); ExPush (demo_task TpCritical); ExPush (demo_task TpLow); ExPop; ExSpawn; ExPop; ExFinish 0; ExSpawn].

Lemma executor_sound_witness :
  exists x, executor_run 1 demo_events (executor_new (task_queue_new 2)) = Some x /\
    Z.of_nat (length (ex_running x)) <= 1 /\ all_tasks x ≡ₚ [demo_task TpNormal; demo_task TpCritical].
Proof.
  destruct (executor_run 1 demo_events (executor_new (task_queue_new 2))) as [x|] eqn:E; [|vm_compute in E; discriminate].
  exists x. split; [reflexivity|]. destruct (executor_sound 1 2 demo_events x E) as [H1 H2]. split; [exact H1|].
  rewrite H2. vm_compute. reflexivity.
Defined.

(** ** The throttle stays between half and full speed *)

Definition throttle_ok (o : option FolderOrchestrator) : Prop :=
  from_option (fun o => 50 <= throttle_percent (fo_config o) <= 100) True o.

Lemma evaluate_throttle c w o : throttle_ok o -> throttle_ok (evaluate c w o).
Proof.
  destruct o as [o|]; [|done]. cbn. destruct (any_alert c w); cbn [andb negb].
  - destruct (Z.ltb_spec 50 (throttle_percent (fo_config o))); cbn; lia.
  - destruct (Z.ltb_spec (throttle_percent (fo_config o)) 100); cbn; lia.
Qed.

(** Whatever events arrive and whenever the predictor evaluates them, the
    throttle it sets stays between 50 and 100 percent. *)
Theorem health_throttle_bounded c inputs s :
  throttle_ok (hs_orchestrator s) -> throttle_ok (hs_orchestrator (health_run c inputs s)).
Proof.
  unfold health_run. revert s. induction inputs as [|i inputs IH]; intros s Hs; [done|]. cbn [foldl]. apply IH.
  destruct i; [by apply evaluate_throttle|done].
Qed.

Lemma health_throttle_bounded_witness :
  throttle_ok (hs_orchestrator (health_run health_default
    [HealthEvent (WatcherEventsDropped ($"f") 51); HealthTick; HealthTick]
    (mkHealthState ∅ [] (Some (Supervise.with_config orchestrator_default))))).
Proof. apply health_throttle_bounded. split; vm_compute; discriminate. Defined.

(** *** Nothing counts a full scan *)

Definition no_full_scans (ws : Windows) : Prop := map_Forall (fun _ w => fw_full_scans w = 0) ws.

Lemma bump_no_full folder w ws : fw_full_scans w = 0 -> no_full_scans ws -> no_full_scans (bump folder w ws).
Proof.
  intros Hw Hs. unfold bump. apply map_Forall_insert_2; [|done]. cbn.
  assert (fw_full_scans (default window_default (ws !! folder)) = 0) as ->.
  { destruct (ws !! folder) as [w0|] eqn:E; [|done]. exact (Hs _ _ E). }
  by rewrite Hw.
Qed.

Lemma record_no_full e ws : no_full_scans ws -> no_full_scans (health_record e ws).
Proof. intros Hs. destruct e; cbn; repeat case_match; try done; by apply bump_no_full. Qed.

Lemma merge_no_full a b : no_full_scans a -> no_full_scans b -> no_full_scans (merge_windows a b).
Proof.
  intros Ha Hb k w. unfold merge_windows. rewrite lookup_union_with.
  destruct (a !! k) as [wa|] eqn:Ea, (b !! k) as [wb|] eqn:Eb; cbn; intros [= <-]; try by eauto.
  cbn. by rewrite (Ha _ _ Ea), (Hb _ _ Eb).
Qed.

Lemma aggregate_no_full current history n :
  no_full_scans current -> Forall no_full_scans history -> no_full_scans (aggregate_windows current history n).
Proof.
  intros Hc Hh. unfold aggregate_windows. apply (Forall_drop no_full_scans (length history - Z.to_nat (Z.max 0 (n - 1)))) in Hh.
  revert current Hc. induction Hh as [|w ws Hw _ IH]; intros current Hc; [done|]. cbn. apply IH. by apply merge_no_full.
Qed.

Definition health_no_full (s : HealthState) : Prop :=
  no_full_scans (hs_current s) /\ Forall no_full_scans (hs_history s).

Lemma health_run_no_full c inputs s : health_no_full s -> health_no_full (health_run c inputs s).
Proof.
  unfold health_run. revert s. induction inputs as [|i inputs IH]; intros s [Hc Hh]; [done|]. cbn [foldl]. apply IH.
  destruct i; [|split; [by apply record_no_full|done]]. split; [apply map_Forall_empty|]. cbn.
  assert (Forall no_full_scans (hs_history s ++ [hs_current s])) by (apply Forall_app_2; [done|by apply Forall_singleton]).
  destruct (_ <? _); [by apply Forall_drop|done].
Qed.

(** The ratio of a count to itself, up to five thousand. *)
Lemma ratio_self n : 0 < n <= 5000 -> SFltb (ratio n n f64_one) f64_half = false.
Proof.
  intros Hn. assert (Hall : forallb (fun k => negb (SFltb (ratio (Z.of_nat k) (Z.of_nat k) f64_one) f64_half)) (seq 1 5000) = true)
    by (vm_compute; reflexivity).
  apply negb_true_iff. rewrite <- (Z2Nat.id n) by lia.
  apply (proj1 (forallb_forall _ _) Hall (Z.to_nat n)). apply in_seq. lia.
Qed.

(** The alert on a low share of incremental scans is dead: no event counts a
    full scan, so in every state the predictor can reach the share is one. *)
Theorem incremental_alert_silent inputs s folder w :
  health_no_full s ->
  let s' := health_run health_default inputs s in
  aggregate_windows (hs_current s') (hs_history s') (hp_window_intervals health_default) !! folder = Some w ->
  0 <= fw_incremental_scans w <= 5000 ->
  let total := wrap 64 (fw_incremental_scans w + fw_full_scans w) in
  SFltb (ratio (fw_incremental_scans w) total f64_one) (hp_incremental_ratio_threshold health_default) && (0 <? total) = false.
Proof.
  intros Hs s' Hw Hi. cbv zeta. destruct (health_run_no_full health_default inputs s Hs) as [Hc Hh].
  rewrite (aggregate_no_full _ _ _ Hc Hh _ _ Hw), Z.add_0_r, wrap_id by (split; [lia|]; change (2 ^ 64) with 18446744073709551616; lia).
  destruct (Z.ltb_spec 0 (fw_incremental_scans w)); [|apply andb_false_r].
  by rewrite ratio_self by lia.
Qed.

Lemma incremental_alert_silent_witness :
  let w := mkFolderWindow 0 0 0 0 0 1 0 0 in
  let total := wrap 64 (fw_incremental_scans w + fw_full_scans w) in
  SFltb (ratio (fw_incremental_scans w) total f64_one) (hp_incremental_ratio_threshold health_default) && (0 <? total) = false.
Proof.
  apply (incremental_alert_silent [HealthEvent (IncrementalScanTriggered ($"f") 3)] (mkHealthState ∅ [] None) ($"f")).
  - split; [apply map_Forall_empty|constructor].
  - vm_compute. reflexivity.
  - split; vm_compute; discriminate.
Defined.
