(* ===== verification/Tls.v ===== *)
(** * TLS ([crates/syncthing-net/src/tls.rs])

    The device's certificate: reading it, making one, keeping it in the
    configuration directory; the configurations and verifiers given to rustls;
    the handshakes with the device ID they yield.  The PEM parser, SHA-256,
    base64, rcgen and rustls are parameters. *)

From S2P Require Import Prelude Core DeviceIds Wire Config.

Definition TLS_HANDSHAKE_TIMEOUT : Z := 10.
Definition CERT_FILE_NAME : str := $"cert.pem".
Definition KEY_FILE_NAME : str := $"key.pem".

Abbreviation CertificateDer := (list Z).

Inductive PrivateKeyDer :=
| Pkcs1 (der : list Z)
| Sec1 (der : list Z)
| Pkcs8 (der : list Z).

Record SyncthingTlsConfig := mkTlsConfig {
  cert_chain : list CertificateDer;
  private_key : PrivateKeyDer;
  tls_device_id : DeviceId;
}.

(** ** The certificate *)

(** What is used of the libraries that read certificates. *)
Record PemLib := mkPemLib {
  pem_certs : list Z -> list (option CertificateDer);
  pem_keys : list Z -> list (option PrivateKeyDer);
  pem_sha256 : list Z -> list Z;
  pem_base64 : list Z -> list Z;
}.

Section Certificate.
Context (pl : PemLib).

Definition derive_device_id (cert : CertificateDer) : result SyncthingError DeviceId :=
  match from_bytes (pem_sha256 pl cert) with
  | Ok d => Ok d
  | Err _ => Err EDeviceId
  end.

Definition from_pem (cert_pem key_pem : list Z) : result SyncthingError SyncthingTlsConfig :=
  match omap id (pem_certs pl cert_pem) with
  | [] => Err ETls
  | cert :: rest =>
      match pem_keys pl key_pem with
      | [] => Err ETls
      | None :: _ => Err ETls
      | Some key :: _ =>
          let? device_id := derive_device_id cert in
          Ok (mkTlsConfig (cert :: rest) key device_id)
      end
  end.

(** One PEM block: the header, the base64 text in lines of 64, the footer. *)
Definition pem_block (label : str) (der : list Z) : list Z :=
  bytes_of_str ($"-----BEGIN " ++ label ++ $"-----") ++ [10] ++
  concat ((fun chunk => chunk ++ [10]) <$> chunks 64 (pem_base64 pl der)) ++
  bytes_of_str ($"-----END " ++ label ++ $"-----") ++ [10].

Definition cert_pem (c : SyncthingTlsConfig) : list Z :=
  concat (pem_block ($"CERTIFICATE") <$> cert_chain c).

Definition key_pem (c : SyncthingTlsConfig) : list Z :=
  match private_key c with
  | Pkcs8 der => pem_block ($"PRIVATE KEY") der
  | _ => []
  end.

(** ** Making a certificate *)

(** [rcgen]: the parameters of a certificate and what makes it. *)
Record CertificateParams := mkCertificateParams {
  cp_names : list str;
  cp_not_before : Z * Z * Z;
  cp_not_after : Z * Z * Z;
}.

Record Rcgen := mkRcgen {
  rc_keypair : option (list Z);
  rc_params : list str -> option CertificateParams;
  rc_self_signed : CertificateParams -> list Z -> option (list Z);
  rc_ymd : Z -> Z * Z * Z;
}.

(** [now] in days; the PEM texts of the certificate and of the key. *)
Definition generate_self_signed_cert (rc : Rcgen) (now : Z) : result SyncthingError (list Z * list Z) :=
  match rc_keypair rc with
  | None => Err ETls
  | Some key_pair =>
      match rc_params rc [$"syncthing"] with
      | None => Err ETls
      | Some params =>
          let params := mkCertificateParams (cp_names params) (rc_ymd rc now) (rc_ymd rc (now + 365 * 20)) in
          match rc_self_signed rc params key_pair with
          | None => Err ETls
          | Some cert => Ok (cert, key_pair)
          end
      end
  end.

Definition generate_certificate (rc : Rcgen) (now : Z) (_device_name : str) : result SyncthingError (list Z * list Z) :=
  generate_self_signed_cert rc now.

(** ** The configuration directory *)

(** A file with its mode. *)
Record ConfigDir := mkConfigDir {
  dir_exists : bool;
  dir_files : gmap str (list Z * Z);
}.

(** Which operations of the file system fail; a write that fails leaves the
    file as it was or with what was written. *)
Record DirIo := mkDirIo {
  io_create : bool;
  io_read : str -> bool;
  io_write : str -> option (option (list Z));
  io_chmod : str -> bool;
}.

(** 0o644 and 0o600 *)
Definition DEFAULT_MODE : Z := 0x1A4.
Definition MODE_0600 : Z := 0x180.

Definition io_ok : DirIo := mkDirIo true (fun _ => true) (fun _ => None) (fun _ => true).

Definition read_file (io : DirIo) (name : str) (d : ConfigDir) : result SyncthingError (list Z) :=
  match dir_files d !! name with
  | Some (data, _) => if io_read io name then Ok data else Err ETls
  | None => Err ETls
  end.

(** [fs::write]: an existing file keeps its mode. *)
Definition place_file (name : str) (data : list Z) (d : ConfigDir) : ConfigDir :=
  let mode := match dir_files d !! name with Some (_, m) => m | None => DEFAULT_MODE end in
  mkConfigDir (dir_exists d) (<[name := (data, mode)]> (dir_files d)).

Definition write_file (io : DirIo) (name : str) (data : list Z) : SE ConfigDir SyncthingError unit :=
  fun d => match io_write io name with
           | None => (Ok tt, place_file name data d)
           | Some None => (Err ETls, d)
           | Some (Some partial) => (Err ETls, place_file name partial d)
           end.

Definition set_permissions (io : DirIo) (name : str) (mode : Z) (d : ConfigDir) : ConfigDir :=
  if io_chmod io name
  then mkConfigDir (dir_exists d) (alter (fun f => (f.1, mode)) name (dir_files d))
  else d.

Definition has_file (name : str) (d : ConfigDir) : bool := bool_decide (is_Some (dir_files d !! name)).

(** The certificate that is there: [None] when there is none to load or it
    does not parse. *)
Definition load_existing (io : DirIo) (d : ConfigDir) : result SyncthingError (option SyncthingTlsConfig) :=
  if has_file CERT_FILE_NAME d && has_file KEY_FILE_NAME d then
    let? cert_pem := read_file io CERT_FILE_NAME d in
    let? key_pem := read_file io KEY_FILE_NAME d in
    match from_pem cert_pem key_pem with
    | Ok config => Ok (Some config)
    | Err _ => Ok None
    end
  else Ok None.

Definition save_new (io : DirIo) (cert_pem key_pem : list Z) : SE ConfigDir SyncthingError SyncthingTlsConfig :=
  do! write_file io CERT_FILE_NAME cert_pem in
  do! write_file io KEY_FILE_NAME key_pem in
  do! se_modify (set_permissions io KEY_FILE_NAME MODE_0600) in
  do! se_modify (set_permissions io CERT_FILE_NAME MODE_0600) in
  se_read (fun _ => from_pem cert_pem key_pem).

Definition load_or_generate (io : DirIo) (rc : Rcgen) (now : Z) : SE ConfigDir SyncthingError SyncthingTlsConfig :=
  fun d =>
    if negb (dir_exists d) && negb (io_create io) then (Err EConfig, d)
    else
      let d := if dir_exists d then d else mkConfigDir true ∅ in
      match load_existing io d with
      | Err e => (Err e, d)
      | Ok (Some config) => (Ok config, d)
      | Ok None =>
          match generate_self_signed_cert rc now with
          | Err e => (Err e, d)
          | Ok (cert_pem, key_pem) => save_new io cert_pem key_pem d
          end
      end.
End Certificate.

(** ** The verifiers and the configurations of rustls *)

Inductive SignatureScheme :=
| ED25519 | ECDSA_NISTP256_SHA256 | ECDSA_NISTP384_SHA384
| RSA_PKCS1_SHA256 | RSA_PKCS1_SHA384 | RSA_PKCS1_SHA512
| RSA_PSS_SHA256 | RSA_PSS_SHA384 | RSA_PSS_SHA512.

#[global] Instance SignatureScheme_eq_dec : EqDecision SignatureScheme.
Proof. solve_decision. Defined.

Record DigitallySignedStruct := mkDss { dss_scheme : SignatureScheme; dss_signature : list Z }.

(** [ClientCertVerifier] and [ServerCertVerifier]: whether the certificate and
    the signature over the handshake are accepted. *)
Record CertVerifier := mkCertVerifier {
  verify_cert : CertificateDer -> list CertificateDer -> bool;
  verify_tls12_signature : list Z -> CertificateDer -> DigitallySignedStruct -> bool;
  verify_tls13_signature : list Z -> CertificateDer -> DigitallySignedStruct -> bool;
  supported_verify_schemes : list SignatureScheme;
}.

Definition verify_schemes : list SignatureScheme :=
  [ED25519; ECDSA_NISTP256_SHA256; ECDSA_NISTP384_SHA384; RSA_PKCS1_SHA256; RSA_PKCS1_SHA384; RSA_PKCS1_SHA512;
   RSA_PSS_SHA256; RSA_PSS_SHA384; RSA_PSS_SHA512].

Definition SyncthingClientCertVerifier : CertVerifier :=
  mkCertVerifier (fun _ _ => true) (fun _ _ _ => true) (fun _ _ _ => true) verify_schemes.

Definition SyncthingCertVerifier : CertVerifier :=
  mkCertVerifier (fun _ _ => true) (fun _ _ _ => true) (fun _ _ _ => true) verify_schemes.

(** [ServerConfig] and [ClientConfig]. *)
Record RustlsConfig := mkRustlsConfig {
  rc_verifier : CertVerifier;
  rc_chain : list CertificateDer;
  rc_key : PrivateKeyDer;
  rc_alpn : list str;
}.

Definition BEP_ALPN : str := $"bep/1.0".
Definition RELAY_ALPN : str := $"bep-relay".

(** What the other end shows in a handshake: its chain, its signature over the
    transcript, the protocols it speaks. *)
Record Credentials := mkCredentials {
  cr_chain : list CertificateDer;
  cr_transcript : list Z;
  cr_dss : DigitallySignedStruct;
  cr_alpn : list str;
  cr_tls13 : bool;
}.

(** A stream after the handshake: the peer's certificates, the bytes it will
    send. *)
Record TlsStream := mkTlsStream {
  ts_peer_certificates : option (list CertificateDer);
  ts_inbound : list Z;
}.

Inductive TlsOutcome := TlsElapsed | TlsFailed | TlsDone (t : TlsStream).

(** What rustls asks of a verifier: the certificate, a signature by one of
    the schemes; and of the protocols, if the other end names any, a common
    one. *)
Definition verifier_accepts (cfg : RustlsConfig) (cr : Credentials) : bool :=
  let v := rc_verifier cfg in
  match cr_chain cr with
  | [] => false
  | end_entity :: intermediates =>
      verify_cert v end_entity intermediates &&
      bool_decide (dss_scheme (cr_dss cr) ∈ supported_verify_schemes v) &&
      (if cr_tls13 cr then verify_tls13_signature v (cr_transcript cr) end_entity (cr_dss cr)
       else verify_tls12_signature v (cr_transcript cr) end_entity (cr_dss cr)) &&
      (bool_decide (cr_alpn cr = []) || existsb (fun p => bool_decide (p ∈ rc_alpn cfg)) (cr_alpn cr))
  end.

(** rustls, over streams of type [Stream] whose other end shows [presented]: a
    handshake that completes names the chain that was shown and had the
    verifier's consent; one the verifier consents to completes, if it is not cut
    short. *)
Class Rustls (Stream : Type) := {
  single_cert_ok : list CertificateDer -> PrivateKeyDer -> bool;
  server_name_ok : str -> bool;
  presented : Stream -> Credentials;
  uncut : Stream -> bool;
  rustls_accept : RustlsConfig -> Stream -> TlsOutcome;
  rustls_connect : RustlsConfig -> str -> Stream -> TlsOutcome;
  accept_presented cfg s t : rustls_accept cfg s = TlsDone t ->
    ts_peer_certificates t = Some (cr_chain (presented s)) /\ verifier_accepts cfg (presented s) = true;
  connect_presented cfg n s t : rustls_connect cfg n s = TlsDone t ->
    ts_peer_certificates t = Some (cr_chain (presented s)) /\ verifier_accepts cfg (presented s) = true;
  accept_completes cfg s : uncut s = true -> verifier_accepts cfg (presented s) = true ->
    exists t, rustls_accept cfg s = TlsDone t;
  connect_completes cfg n s : uncut s = true -> verifier_accepts cfg (presented s) = true ->
    exists t, rustls_connect cfg n s = TlsDone t;
}.

Section Handshakes.
Context (pl : PemLib) {Stream : Type} `{!Rustls Stream}.

Definition config_with (verifier : CertVerifier) (alpn : str) (c : SyncthingTlsConfig) : option RustlsConfig :=
  if single_cert_ok (cert_chain c) (private_key c)
  then Some (mkRustlsConfig verifier (cert_chain c) (private_key c) [alpn]) else None.

Definition server_config : SyncthingTlsConfig -> option RustlsConfig := config_with SyncthingClientCertVerifier BEP_ALPN.
Definition client_config : SyncthingTlsConfig -> option RustlsConfig := config_with SyncthingCertVerifier BEP_ALPN.
Definition relay_server_config : SyncthingTlsConfig -> option RustlsConfig :=
  config_with SyncthingClientCertVerifier RELAY_ALPN.
Definition relay_client_config : SyncthingTlsConfig -> option RustlsConfig :=
  config_with SyncthingCertVerifier RELAY_ALPN.

(** The two [map_err] of a handshake under its timeout. *)
Definition handshake_result (o : TlsOutcome) : result SyncthingError TlsStream :=
  match o with
  | TlsElapsed => Err ETimeout
  | TlsFailed => Err ETls
  | TlsDone t => Ok t
  end.

Definition accept_tls (s : Stream) (cfg : RustlsConfig) : result SyncthingError TlsStream :=
  handshake_result (rustls_accept cfg s).

Definition connect_tls (s : Stream) (cfg : RustlsConfig) (server_name : str) : result SyncthingError TlsStream :=
  if server_name_ok server_name then handshake_result (rustls_connect cfg server_name s) else Err ETls.

Definition peer_device_id_from_stream (t : TlsStream) : result SyncthingError DeviceId :=
  match ts_peer_certificates t with
  | None => Err ETls
  | Some [] => Err ETls
  | Some (peer_cert :: _) => derive_device_id pl peer_cert
  end.

(** The same for the client's stream. *)
Definition peer_device_id_from_client_stream : TlsStream -> result SyncthingError DeviceId := peer_device_id_from_stream.

Definition accept_tls_stream (s : Stream) (c : SyncthingTlsConfig) : result SyncthingError (TlsStream * DeviceId) :=
  match server_config c with
  | None => Err ETls
  | Some cfg =>
      let? tls_stream := handshake_result (rustls_accept cfg s) in
      let? device_id := peer_device_id_from_stream tls_stream in
      Ok (tls_stream, device_id)
  end.

Definition connect_tls_stream (s : Stream) (c : SyncthingTlsConfig) (remote_device : option DeviceId)
    : result SyncthingError (TlsStream * DeviceId) :=
  match client_config c with
  | None => Err ETls
  | Some cfg =>
      if server_name_ok ($"syncthing") then
        let? tls_stream := handshake_result (rustls_connect cfg ($"syncthing") s) in
        let? device_id := peer_device_id_from_client_stream tls_stream in
        match remote_device with
        | Some expected => if decide (device_id = expected) then Ok (tls_stream, device_id) else Err ETls
        | None => Ok (tls_stream, device_id)
        end
      else Err ETls
  end.
End Handshakes.

(** ** Lemmas on the certificate *)

Section CertificateLemmas.
Context (pl : PemLib).

(** The device ID is the hash of the first certificate. *)
Definition certifies (cert : CertificateDer) (d : DeviceId) : Prop := device_id_bytes d = pem_sha256 pl cert.

Lemma derive_device_id_spec cert d : derive_device_id pl cert = Ok d -> certifies cert d.
Proof. unfold derive_device_id, from_bytes, certifies. repeat case_match; intros; by simplify_eq. Qed.

Lemma derive_device_id_ok cert : length (pem_sha256 pl cert) = 32%nat ->
  derive_device_id pl cert = Ok (mkDeviceId (pem_sha256 pl cert)).
Proof. intros Hl. unfold derive_device_id, from_bytes. by rewrite Hl. Qed.

Lemma from_pem_spec cp kp c :
  from_pem pl cp kp = Ok c ->
  exists cert rest, cert_chain c = cert :: rest /\ cert_chain c = omap id (pem_certs pl cp) /\
    certifies cert (tls_device_id c) /\ head (pem_keys pl kp) = Some (Some (private_key c)).
Proof.
  unfold from_pem. destruct (omap id (pem_certs pl cp)) as [|cert rest] eqn:Ec; [done|].
  destruct (pem_keys pl kp) as [|[key|] ks]; [done| |done]. intros E.
  apply result_bind_Ok in E as (d & Ed & E). simplify_eq. exists cert, rest. repeat split.
  by apply derive_device_id_spec.
Qed.

Lemma has_file_put name name' data d :
  has_file name (place_file name' data d) = bool_decide (name = name') || has_file name d.
Proof.
  unfold has_file, place_file. cbn [dir_files]. destruct (decide (name = name')) as [->|Hn].
  - rewrite lookup_insert_eq, (bool_decide_true (name' = name')) by done. by apply bool_decide_true.
  - by rewrite lookup_insert_ne, (bool_decide_false (name = name')) by done.
Qed.

Lemma CERT_KEY_ne : CERT_FILE_NAME <> KEY_FILE_NAME.
Proof. done. Qed.

(** The directory after a certificate was saved. *)
Lemma save_new_files io cp kp d r d' :
  io_write io CERT_FILE_NAME = None -> io_write io KEY_FILE_NAME = None ->
  save_new pl io cp kp d = (r, d') ->
  r = from_pem pl cp kp /\ dir_exists d' = dir_exists d /\
  (fst <$> dir_files d' !! CERT_FILE_NAME) = Some cp /\ (fst <$> dir_files d' !! KEY_FILE_NAME) = Some kp /\
  (io_chmod io KEY_FILE_NAME = true -> (snd <$> dir_files d' !! KEY_FILE_NAME) = Some MODE_0600).
Proof.
  intros Hc Hk. unfold save_new, se_bind, write_file, se_modify, se_read. rewrite Hc, Hk. intros [= <- <-].
  pose proof CERT_KEY_ne as Hne. unfold set_permissions.
  destruct (io_chmod io KEY_FILE_NAME), (io_chmod io CERT_FILE_NAME); cbn [place_file dir_files dir_exists];
    repeat first [rewrite lookup_alter_eq | rewrite lookup_alter_ne by done | rewrite lookup_insert_eq
                 | rewrite lookup_insert_ne by done]; cbn; repeat split; done.
Qed.

(** A directory in which a certificate can be loaded. *)
Lemma load_or_generate_existing io rc now d c :
  dir_exists d = true -> load_existing pl io d = Ok (Some c) -> load_or_generate pl io rc now d = (Ok c, d).
Proof. intros Hd E. unfold load_or_generate. by rewrite Hd, E. Qed.

Lemma load_existing_files io d cp kp c :
  (fst <$> dir_files d !! CERT_FILE_NAME) = Some cp -> (fst <$> dir_files d !! KEY_FILE_NAME) = Some kp ->
  (forall n, io_read io n = true) -> from_pem pl cp kp = Ok c -> load_existing pl io d = Ok (Some c).
Proof.
  intros Hc Hk Hr Hp. unfold load_existing, has_file, read_file.
  destruct (dir_files d !! CERT_FILE_NAME) as [[? ?]|]; [|done]. destruct (dir_files d !! KEY_FILE_NAME) as [[? ?]|]; [|done].
  simplify_option_eq. rewrite !Hr. cbn [result_bind]. by rewrite Hp.
Qed.

(** A run that returns a configuration leaves a directory from which every
    later run, whatever it could generate and at any time, loads the same
    configuration: the device keeps its ID. *)
Lemma load_or_generate_stable io rc now d c d' :
  io_write io CERT_FILE_NAME = None -> io_write io KEY_FILE_NAME = None -> (forall n, io_read io n = true) ->
  load_or_generate pl io rc now d = (Ok c, d') ->
  forall io' rc' now', (forall n, io_read io' n = true) -> load_or_generate pl io' rc' now' d' = (Ok c, d').
Proof.
  intros Hc Hk Hr E io' rc' now' Hr'. unfold load_or_generate in E.
  destruct (negb (dir_exists d) && negb (io_create io)); [done|].
  set (d0 := if dir_exists d then d else mkConfigDir true ∅) in E.
  assert (Hd0 : dir_exists d0 = true) by (subst d0; by destruct (dir_exists d) eqn:?). clearbody d0.
  destruct (load_existing pl io d0) as [[c0|]|e] eqn:El; [| |done].
  - simplify_eq. apply load_or_generate_existing; [done|]. rewrite <- El. unfold load_existing, read_file.
    by rewrite !Hr, !Hr'.
  - destruct (generate_self_signed_cert rc now) as [[cp kp]|e]; [|done].
    destruct (save_new_files io cp kp d0 (Ok c) d' Hc Hk E) as (Hp & He & H1 & H2 & _).
    apply load_or_generate_existing; [congruence|]. by eapply load_existing_files.
Qed.
End CertificateLemmas.

Section LoadedChain.
Context (pl : PemLib).

Lemma load_or_generate_chain io rc now d c d' :
  load_or_generate pl io rc now d = (Ok c, d') ->
  exists cert rest, cert_chain c = cert :: rest /\ certifies pl cert (tls_device_id c).
Proof.
  intros E. assert (exists cp kp, from_pem pl cp kp = Ok c) as (cp & kp & Hp).
  { unfold load_or_generate in E. case_match; [done|]. set (d0 := if dir_exists d then d else _) in E. clearbody d0.
    destruct (load_existing pl io d0) as [[c0|]|e] eqn:El; [| |done].
    - simplify_eq. unfold load_existing in El. case_match; [|done].
      apply result_bind_Ok in El as (cp & _ & El). apply result_bind_Ok in El as (kp & _ & El).
      exists cp, kp. by destruct (from_pem pl cp kp); simplify_eq.
    - destruct (generate_self_signed_cert rc now) as [[cp kp]|e]; [|done]. exists cp, kp.
      unfold save_new, se_bind, write_file, se_modify, se_read in E. repeat case_match; by simplify_eq. }
  destruct (from_pem_spec pl cp kp c Hp) as (cert & rest & ? & _ & ? & _). by exists cert, rest.
Qed.
End LoadedChain.

(** ** Lemmas on the handshakes *)

Section HandshakeLemmas.
Context (pl : PemLib) {Stream : Type} `{!Rustls Stream}.

(** The other end of the stream showed the certificate of [d]. *)
Definition authentic (s : Stream) (d : DeviceId) : Prop :=
  exists cert rest, cr_chain (presented s) = cert :: rest /\ certifies pl cert d.

(** Two devices with the same stream are the same. *)
Lemma authentic_unique s d1 d2 : authentic s d1 -> authentic s d2 -> d1 = d2.
Proof.
  intros (c1 & r1 & E1 & H1) (c2 & r2 & E2 & H2). unfold certifies in *. destruct d1, d2. cbn in *. congruence.
Qed.

Lemma peer_device_id_authentic s t d :
  ts_peer_certificates t = Some (cr_chain (presented s)) -> peer_device_id_from_stream pl t = Ok d -> authentic s d.
Proof.
  unfold peer_device_id_from_stream. intros -> E. unfold authentic.
  destruct (cr_chain (presented s)) as [|cert rest]; [done|]. exists cert, rest. split; [done|].
  by apply derive_device_id_spec.
Qed.

Lemma accept_tls_stream_authentic s c t d : accept_tls_stream pl s c = Ok (t, d) -> authentic s d.
Proof.
  unfold accept_tls_stream. destruct (server_config c) as [cfg|]; [|done]. intros E.
  apply result_bind_Ok in E as (t' & Et & E). apply result_bind_Ok in E as (d' & Ed & E). simplify_eq.
  destruct (rustls_accept cfg s) as [| |t0] eqn:Er; [done|done|]. cbn in Et. simplify_eq.
  destruct (accept_presented _ _ _ Er) as [Hc _]. by eapply peer_device_id_authentic.
Qed.

Lemma connect_tls_stream_authentic s c remote t d :
  connect_tls_stream pl s c remote = Ok (t, d) ->
  authentic s d /\ (forall expected, remote = Some expected -> d = expected).
Proof.
  unfold connect_tls_stream. destruct (client_config c) as [cfg|]; [|done]. case_match; [|done]. intros E.
  apply result_bind_Ok in E as (t' & Et & E). apply result_bind_Ok in E as (d' & Ed & E).
  destruct (rustls_connect cfg ($"syncthing") s) as [| |t0] eqn:Er; [done|done|]. cbn in Et. simplify_eq.
  destruct (connect_presented _ _ _ _ Er) as [Hc _].
  destruct remote as [ex|]; [case_decide; [|done]|]; simplify_eq; (split; [by eapply peer_device_id_authentic|]);
    intros; by simplify_eq.
Qed.

(** With a hash that has no collisions: the peer has the very certificate of
    the device that was asked for. *)
Lemma authentic_certificate s d cert0 :
  Inj eq eq (pem_sha256 pl) -> certifies pl cert0 d -> authentic s d -> exists rest, cr_chain (presented s) = cert0 :: rest.
Proof.
  intros Hinj H0 (cert & rest & E & H1). exists rest. rewrite E. f_equal. apply Hinj. unfold certifies in *. congruence.
Qed.

(** The verifiers ask for nothing but a known scheme and protocol. *)
Lemma syncthing_verifier_accepts v alpn chain key cert rest tr sig scheme tls13 :
  v ∈ [SyncthingClientCertVerifier; SyncthingCertVerifier] ->
  verifier_accepts (mkRustlsConfig v chain key [alpn])
    (mkCredentials (cert :: rest) tr (mkDss scheme sig) [alpn] tls13) = true.
Proof.
  intros Hv. unfold verifier_accepts. cbn.
  assert (verify_cert v cert rest = true /\ supported_verify_schemes v = verify_schemes /\
          (forall a b c, verify_tls13_signature v a b c = true) /\ (forall a b c, verify_tls12_signature v a b c = true)) as (-> & -> & H1 & H2)
    by (set_solver).
  rewrite H1, H2, (bool_decide_true (alpn ∈ [alpn])) by set_solver.
  rewrite (bool_decide_true (scheme ∈ verify_schemes)) by (destruct scheme; unfold verify_schemes; set_solver).
  by destruct tls13; cbn; rewrite ?orb_true_r.
Qed.

(** A listener accepts whoever shows the certificate of a device, with any
    bytes in the place of the signature. *)
Lemma accept_any_signature s c cert rest tr sig scheme tls13 :
  single_cert_ok (cert_chain c) (private_key c) = true -> uncut s = true ->
  length (pem_sha256 pl cert) = 32%nat ->
  presented s = mkCredentials (cert :: rest) tr (mkDss scheme sig) [BEP_ALPN] tls13 ->
  exists t, accept_tls_stream pl s c = Ok (t, mkDeviceId (pem_sha256 pl cert)).
Proof.
  intros Hs Hu Hl Hp. unfold accept_tls_stream, server_config, config_with. rewrite Hs.
  set (cfg := mkRustlsConfig _ _ _ _).
  destruct (accept_completes cfg s Hu) as [t Et]; [rewrite Hp; apply syncthing_verifier_accepts; set_solver|].
  exists t. rewrite Et. cbn [handshake_result result_bind].
  destruct (accept_presented _ _ _ Et) as [Hc _]. rewrite Hp in Hc. cbn in Hc.
  unfold peer_device_id_from_stream. rewrite Hc, derive_device_id_ok by done. done.
Qed.

(** So does a dialer that asks for the device of that certificate. *)
Lemma connect_any_signature s c cert rest tr sig scheme tls13 :
  single_cert_ok (cert_chain c) (private_key c) = true -> server_name_ok ($"syncthing") = true -> uncut s = true ->
  length (pem_sha256 pl cert) = 32%nat ->
  presented s = mkCredentials (cert :: rest) tr (mkDss scheme sig) [BEP_ALPN] tls13 ->
  exists t, connect_tls_stream pl s c (Some (mkDeviceId (pem_sha256 pl cert))) = Ok (t, mkDeviceId (pem_sha256 pl cert)).
Proof.
  intros Hs Hn Hu Hl Hp. unfold connect_tls_stream, client_config, config_with. rewrite Hs, Hn.
  set (cfg := mkRustlsConfig _ _ _ _).
  destruct (connect_completes cfg ($"syncthing") s Hu) as [t Et]; [rewrite Hp; apply syncthing_verifier_accepts; set_solver|].
  exists t. rewrite Et. cbn [handshake_result result_bind].
  destruct (connect_presented _ _ _ _ Et) as [Hc _]. rewrite Hp in Hc. cbn in Hc.
  unfold peer_device_id_from_client_stream, peer_device_id_from_stream. rewrite Hc, derive_device_id_ok by done.
  cbn [result_bind]. by rewrite decide_True.
Qed.
End HandshakeLemmas.

(** ** A model of rustls *)

(** A stream is what its other end shows and sends; a handshake completes
    exactly when the verifier agrees. *)
Definition ideal_handshake (cfg : RustlsConfig) (s : Credentials * list Z) : TlsOutcome :=
  if verifier_accepts cfg s.1 then TlsDone (mkTlsStream (Some (cr_chain s.1)) s.2) else TlsFailed.

Lemma ideal_handshake_presented cfg s t : ideal_handshake cfg s = TlsDone t ->
  ts_peer_certificates t = Some (cr_chain s.1) /\ verifier_accepts cfg s.1 = true.
Proof. unfold ideal_handshake. case_match; [|done]. intros [= <-]. done. Qed.

Lemma ideal_handshake_completes (cfg : RustlsConfig) (s : Credentials * list Z) : true = true -> verifier_accepts cfg s.1 = true ->
  exists t, ideal_handshake cfg s = TlsDone t.
Proof. intros _ E. unfold ideal_handshake. rewrite E. by eexists. Qed.

#[global] Instance ideal_rustls : Rustls (Credentials * list Z) := {|
  single_cert_ok := fun _ _ => true;
  server_name_ok := fun _ => true;
  presented := fst;
  uncut := fun _ => true;
  rustls_accept := ideal_handshake;
  rustls_connect := fun cfg _ => ideal_handshake cfg;
  accept_presented := ideal_handshake_presented;
  connect_presented := fun cfg _ => ideal_handshake_presented cfg;
  accept_completes := ideal_handshake_completes;
  connect_completes := fun cfg _ => ideal_handshake_completes cfg;
|}.

(** Certificates one byte long: a hash that repeats the byte. *)
Definition toy_pem : PemLib :=
  mkPemLib (fun bs => Some <$> chunks 1 bs) (fun bs => (fun k => Some (Pkcs8 k)) <$> chunks 1 bs)
    (fun c => replicate 32 (hd 0 c)) id.

Definition toy_rcgen (cert key : Z) : Rcgen :=
  mkRcgen (Some [key]) (fun names => Some (mkCertificateParams names (0, 0, 0) (0, 0, 0)))
    (fun _ _ => Some [cert]) (fun d => (d, 1, 1)).

Example toy_generates :
  (load_or_generate toy_pem io_ok (toy_rcgen 7 9) 0 (mkConfigDir false ∅)).1 =
  Ok (mkTlsConfig [[7]] (Pkcs8 [9]) (mkDeviceId (replicate 32 7))).
Proof. vm_compute. reflexivity. Qed.

(** A certificate whose key file is gone is replaced: the device has a new ID. *)
Example toy_replaces :
  (load_or_generate toy_pem io_ok (toy_rcgen 8 9) 0
     (mkConfigDir true {[CERT_FILE_NAME := ([7], MODE_0600)]})).1 =
  Ok (mkTlsConfig [[8]] (Pkcs8 [9]) (mkDeviceId (replicate 32 8))).
Proof. vm_compute. reflexivity. Qed.

(** The certificate is written before the key: when the second write fails the
    next start loads the new certificate with the old key. *)
Example toy_mismatch :
  let io := mkDirIo true (fun _ => true) (fun n => if decide (n = KEY_FILE_NAME) then Some None else None) (fun _ => true) in
  let d := (load_or_generate toy_pem io (toy_rcgen 8 9) 0 (mkConfigDir true {[KEY_FILE_NAME := ([5], MODE_0600)]})).2 in
  (load_or_generate toy_pem io_ok (toy_rcgen 1 2) 0 d).1 = Ok (mkTlsConfig [[8]] (Pkcs8 [5]) (mkDeviceId (replicate 32 8))).
Proof. vm_compute. reflexivity. Qed.

(** Starts of the daemon, one after the other, on one directory. *)
Fixpoint restarts (pl : PemLib) (starts : list (DirIo * Rcgen * Z)) (d : ConfigDir)
    : list (result SyncthingError SyncthingTlsConfig) * ConfigDir :=
  match starts with
  | [] => ([], d)
  | (io, rc, now) :: starts' =>
      let '(r, d) := load_or_generate pl io rc now d in
      let '(rs, d) := restarts pl starts' d in
      (r :: rs, d)
  end.

(** C13: The device keeps its identity across restarts: when a start has got its
    certificate, loaded or made, with the file system at work, every later start
    on that directory, at any time and whatever a generator would make then,
    loads the same chain, key and device ID and leaves the directory as it is;
    the ID is the hash of the first certificate of the chain. *)
Theorem device_identity_stable (pl : PemLib) (io : DirIo) (rc : Rcgen) (now : Z) (d : ConfigDir)
    (c : SyncthingTlsConfig) (d' : ConfigDir) (starts : list (DirIo * Rcgen * Z)) :
  io_write io CERT_FILE_NAME = None -> io_write io KEY_FILE_NAME = None -> (forall n, io_read io n = true) ->
  Forall (fun s : DirIo * Rcgen * Z => forall n, io_read s.1.1 n = true) starts ->
  load_or_generate pl io rc now d = (Ok c, d') ->
  restarts pl starts d' = (replicate (length starts) (Ok c), d') /\
  exists cert rest, cert_chain c = cert :: rest /\ certifies pl cert (tls_device_id c).
Proof.
  intros Hc Hk Hr Hs E. split; [|by eapply load_or_generate_chain].
  pose proof (load_or_generate_stable pl io rc now d c d' Hc Hk Hr E) as Hst.
  induction Hs as [|[[io' rc'] now'] starts Hi _ IH]; [done|]. cbn [restarts length replicate].
  by rewrite Hst, IH.
Qed.

Lemma device_identity_stable_witness :
  restarts toy_pem [(io_ok, toy_rcgen 1 2, 5); (io_ok, toy_rcgen 3 4, 6)]
    (load_or_generate toy_pem io_ok (toy_rcgen 7 9) 0 (mkConfigDir false ∅)).2 =
  (replicate 2 (Ok (mkTlsConfig [[7]] (Pkcs8 [9]) (mkDeviceId (replicate 32 7)))),
   (load_or_generate toy_pem io_ok (toy_rcgen 7 9) 0 (mkConfigDir false ∅)).2).
Proof.
  apply (device_identity_stable toy_pem io_ok (toy_rcgen 7 9) 0 (mkConfigDir false ∅)
           (mkTlsConfig [[7]] (Pkcs8 [9]) (mkDeviceId (replicate 32 7))) _
           [(io_ok, toy_rcgen 1 2, 5); (io_ok, toy_rcgen 3 4, 6)]).
  - reflexivity.
  - reflexivity.
  - intros n. reflexivity.
  - repeat constructor.
  - rewrite (surjective_pairing (load_or_generate toy_pem io_ok (toy_rcgen 7 9) 0 (mkConfigDir false ∅))).
    rewrite toy_generates. reflexivity.
Defined.
