(* ===== verification/Transport.v ===== *)
(** * Transports ([crates/syncthing-net/src]: [tcp_transport.rs],
    [transport/mod.rs], [transport/tcp.rs], [transport/bep_adapter.rs],
    [relay/dial.rs], the listening part of [manager/mod.rs], [identity.rs])

    The listeners, which register what they accept; the connectors, which dial
    a device directly or through a relay; the dialer with its retries; the
    registry of transports, and which of these the connection manager uses.  The
    sockets and rustls are parameters. *)

From S2P Require Import Prelude Core DeviceIds Connection Bep Wire Session Net Relay Dialer Manager Frames Config Discovery Reach Tls.

Definition DEFAULT_TCP_PORT : Z := 22001.
Definition TCP_CONNECT_TIMEOUT : Z := 10.
Definition PROTOCOL_HANDSHAKE_TIMEOUT : Z := 30.

(** An operation under a timeout. *)
Inductive Timed (A : Type) := Elapsed | Failed (e : SyncthingError) | Got (a : A).
Arguments Elapsed {A}.
Arguments Failed {A} e.
Arguments Got {A} a.

Definition timed {A : Type} (o : Timed A) : result SyncthingError A :=
  match o with Elapsed => Err ETimeout | Failed e => Err e | Got a => Ok a end.

(** ** Addresses ([tcp_transport::addr]) *)

Definition parse_addr (addr_str : str) : result SyncthingError SocketAddr :=
  match parse_socket_addr addr_str with Some a => Ok a | None => Err EConfig end.

Fixpoint parse_addrs (addr_strs : list str) : result SyncthingError (list SocketAddr) :=
  match addr_strs with
  | [] => Ok []
  | s :: rest => let? a := parse_addr s in let? l := parse_addrs rest in Ok (a :: l)
  end.

Definition default_listen_addr : SocketAddr := mkSocketAddr (V4 [0; 0; 0; 0]) DEFAULT_TCP_PORT.

Definition localhost_listen_addr : SocketAddr := mkSocketAddr (V4 [127; 0; 0; 1]) DEFAULT_TCP_PORT.

(** ** The registry ([transport/mod.rs]) *)

(** A transport: its scheme and, for an address, the address it would be bound
    to. *)
Record Transport := mkTransport {
  tr_scheme : str;
  tr_bind : SocketAddr -> result SyncthingError SocketAddr;
}.

Abbreviation TransportRegistry := (list Transport).

Definition tr_register (t : Transport) (r : TransportRegistry) : TransportRegistry := r ++ [t].

Definition tr_get (scheme : str) (r : TransportRegistry) : option Transport :=
  (list_find (fun t => tr_scheme t = scheme) r) ≫= fun p => Some p.2.

Definition tr_schemes (r : TransportRegistry) : list str := tr_scheme <$> r.

Definition default_transport (r : TransportRegistry) : option Transport := head r.

(** ** Accepting *)

(** A connection made over [cs_stream], under a fresh identifier. *)
Record ConnSource (Stream : Type) := mkConnSource {
  cs_stream : Stream;
  cs_id : Uuid;
  cs_now : Z;
}.
Arguments mkConnSource {Stream} _ _ _.
Arguments cs_stream {Stream} _.
Arguments cs_id {Stream} _.
Arguments cs_now {Stream} _.

(** [BepConnection::new] *)
Definition conn_new (t : ConnectionType) : Conn := mkConn t CsConnected None None.

Definition assign_device (d : DeviceId) (c : Conn) : Conn := mkConn (cn_type c) (cn_state c) (Some d) (cn_last_activity c).

Section Transports.
Context (pl : PemLib) (hello_encode : Hello -> list Z) (hello_decode : list Z -> option Hello).
Context {Stream : Type} `{!Rustls Stream}.

(** The Hello exchange over a stream; its errors become protocol errors. *)
Definition hello_over (handshake : SE (list Z * list Z) HelloError Hello) (t : TlsStream) : result SyncthingError Hello :=
  match (handshake (ts_inbound t, [])).1 with Ok h => Ok h | Err _ => Err EProtocol end.

Definition server_hello (name : str) (now : Z) : TlsStream -> result SyncthingError Hello :=
  hello_over (server_handshake hello_encode hello_decode name now).

Definition client_hello (name : str) (now : Z) : TlsStream -> result SyncthingError Hello :=
  hello_over (client_handshake hello_encode hello_decode name now).

(** From the handshake to the registration, shared by the listeners: the guard
    of the handshake is dropped on every path.  [mark] is what the listener does
    to the connection before it registers it. *)
Definition accept_and_register (mark : Conn -> Conn) (src : ConnSource Stream) (name : str) (tls : SyncthingTlsConfig)
    (m : Manager) : result SyncthingError unit * Manager :=
  match accept_tls_stream pl (cs_stream src) tls with
  | Err e => (Err e, m)
  | Ok (tls_stream, d) =>
      match begin_handshake d Incoming m with
      | (false, m) => (Err EConnection, m)
      | (true, m) =>
          match server_hello name (cs_now src) tls_stream with
          | Err e => (Err e, end_handshake d m)
          | Ok _ =>
              let m := on_conns <[cs_id src := mark (assign_device d (conn_new Incoming))]> m in
              (Ok tt, end_handshake d (register_connection d (cs_id src) m))
          end
      end
  end.

(** *** [SyncthingTcpListener] *)

Definition configure_stream (nodelay : bool) : result SyncthingError unit := if nodelay then Ok tt else Err EConnection.

Definition tcp_handle_incoming (nodelay : bool) (src : ConnSource Stream) (name : str) (tls : SyncthingTlsConfig)
    (m : Manager) : result SyncthingError unit * Manager :=
  match configure_stream nodelay with
  | Err e => (Err e, m)
  | Ok _ => accept_and_register (set_conn_state CsProtocolHandshakeComplete) src name tls m
  end.

Record SyncthingTcpListener := mkTcpListener {
  li_bind_addr : SocketAddr;
  li_inner : option SocketAddr;
  li_device_name : str;
  li_tls : SyncthingTlsConfig;
  li_running : bool;
  li_shutdown_tx : bool;
}.

Definition listener_new (bind_addr : SocketAddr) (name : str) (tls : SyncthingTlsConfig) : SyncthingTcpListener :=
  mkTcpListener bind_addr None name tls false false.

(** [bound]: the socket's address, [None] inside for one that cannot be read. *)
Definition listener_bind (bound : option (option SocketAddr)) (l : SyncthingTcpListener)
    : result SyncthingError SocketAddr * SyncthingTcpListener :=
  match bound with
  | Some (Some actual) =>
      (Ok actual, mkTcpListener actual (Some actual) (li_device_name l) (li_tls l) (li_running l) (li_shutdown_tx l))
  | _ => (Err EConnection, l)
  end.

(** What [select!] delivers to the accept loop. *)
Inductive AcceptEvent :=
| AcShutdown
| AcError
| AcConnection (nodelay : bool) (src : ConnSource Stream).

Fixpoint accept_loop (name : str) (tls : SyncthingTlsConfig) (events : list AcceptEvent) (m : Manager) : Manager :=
  match events with
  | [] => m
  | AcShutdown :: _ => m
  | AcError :: rest => accept_loop name tls rest m
  | AcConnection nodelay src :: rest =>
      if can_accept_connection m
      then accept_loop name tls rest (tcp_handle_incoming nodelay src name tls m).2
      else accept_loop name tls rest m
  end.

Definition listener_run (events : list AcceptEvent) (l : SyncthingTcpListener) (m : Manager)
    : result SyncthingError unit * Manager :=
  match li_inner l with
  | None => (Err EConnection, m)
  | Some _ => (Ok tt, accept_loop (li_device_name l) (li_tls l) events m)
  end.

(** [true]: the shutdown signal was sent. *)
Definition listener_stop (l : SyncthingTcpListener) : bool * SyncthingTcpListener :=
  (li_shutdown_tx l, mkTcpListener (li_bind_addr l) (li_inner l) (li_device_name l) (li_tls l) false false).

(** *** [BepTransportListener] *)

Definition bep_handle_incoming (src : ConnSource Stream) (name : str) (tls : SyncthingTlsConfig) (m : Manager)
    : result SyncthingError unit * Manager :=
  accept_and_register id src name tls m.

(** The loop never ends; [None] is an error of [accept]. *)
Fixpoint bep_accept_loop (name : str) (tls : SyncthingTlsConfig) (events : list (option (ConnSource Stream))) (m : Manager)
    : Manager :=
  match events with
  | [] => m
  | None :: rest => bep_accept_loop name tls rest m
  | Some src :: rest => bep_accept_loop name tls rest (bep_handle_incoming src name tls m).2
  end.

Definition bep_listener_start (t : Transport) (bind_addr : str) : result SyncthingError SocketAddr :=
  match parse_socket_addr bind_addr with
  | None => Err EConfig
  | Some a => tr_bind t a
  end.

(** ** Dialing *)

(** What a TCP connection attempt brings. *)
Record TcpAttempt := mkTcpAttempt {
  ta_connect : Timed Stream;
  ta_nodelay : bool;
  ta_peer_addr : bool;
  ta_id : Uuid;
  ta_now : Z;
}.

Definition outgoing (d : DeviceId) (id : Uuid) : Uuid * Conn :=
  (id, set_conn_state CsProtocolHandshakeComplete (assign_device d (conn_new Connection.Outgoing))).

(** [connect_bep]: the handshake is rustls's own, not [connect_tls_stream]. *)
Definition connect_bep (a : TcpAttempt) (target_device : DeviceId) (name : str) (tls : SyncthingTlsConfig)
    : result SyncthingError (Uuid * Conn) :=
  let? stream := match ta_connect a with Elapsed => Err ETimeout | Failed _ => Err EConnection | Got s => Ok s end in
  let? _ := configure_stream (ta_nodelay a) in
  match client_config tls with
  | None => Err ETls
  | Some cfg =>
      if server_name_ok ($"syncthing") then
        let? tls_stream := handshake_result (rustls_connect cfg ($"syncthing") stream) in
        let? _ := client_hello name (ta_now a) tls_stream in
        Ok (outgoing target_device (ta_id a))
      else Err ETls
  end.

(** [RawTcpTransport::dial] *)
Definition raw_tcp_dial (a : TcpAttempt) : result SyncthingError Stream :=
  match ta_connect a with
  | Got s => if ta_nodelay a && ta_peer_addr a then Ok s else Err EConnection
  | _ => Err EConnection
  end.

(** [TransportBepConnector::connect], over the pipe the transport's
    [dial_device] gives. *)
Definition transport_connect (pipe : result SyncthingError Stream) (id : Uuid) (now : Z) (d : DeviceId) (name : str)
    (tls : SyncthingTlsConfig) : result SyncthingError (Uuid * Conn) :=
  let? pipe := match pipe with Ok p => Ok p | Err _ => Err EConnection end in
  let? r := connect_tls_stream pl pipe tls (Some d) in
  let? _ := client_hello name now r.1 in
  Ok (outgoing d id).

(** *** [connect_bep_via_relay] *)

(** What the steps of a relay dial bring: the connection to the relay, the
    invitation, the session's stream, and whether the second timeouts, around
    the TLS handshakes, expire. *)
Record RelayAttempt := mkRelayAttempt {
  ra_protocol : Timed unit;
  ra_invitation : Timed SessionInvitation;
  ra_session : SocketAddr -> Timed Stream;
  ra_tls_elapsed : bool;
  ra_id : Uuid;
  ra_now : Z;
}.

Definition relay_tls (a : RelayAttempt) (server_socket : bool) (s : Stream) (target : DeviceId) (tls : SyncthingTlsConfig)
    : result SyncthingError TlsStream :=
  if ra_tls_elapsed a then Err ETimeout
  else
    let? r := (if server_socket then accept_tls_stream pl s tls else connect_tls_stream pl s tls (Some target)) in
    if decide (r.2 = target) then Ok r.1 else Err ETls.

(** The session of an invitation, up to the connection. *)
Definition relay_session (relay_addr : SocketAddr) (invitation : SessionInvitation) (a : RelayAttempt) (target : DeviceId)
    (name : str) (tls : SyncthingTlsConfig) : result SyncthingError (Uuid * Conn) :=
  match resolve_session_addr relay_addr invitation with
  | Err _ => Err ENetwork
  | Ok session_addr =>
      let? stream := timed (ra_session a session_addr) in
      let? t := relay_tls a (si_server_socket invitation) stream target tls in
      let? _ := (if si_server_socket invitation then server_hello name (ra_now a) t else client_hello name (ra_now a) t) in
      Ok (outgoing target (ra_id a))
  end.

(** [None] is a panic of the URL's parser. *)
Definition connect_bep_via_relay (unicode_alphanumeric : Z -> bool) (hex_decode : list Z -> option (list Z))
    (relay_url : str) (a : RelayAttempt) (target : DeviceId) (name : str) (tls : SyncthingTlsConfig)
    : option (result SyncthingError (Uuid * Conn)) :=
  let+ parsed := parse_relay_url unicode_alphanumeric hex_decode relay_url in
  Some match parsed with
       | Err _ => Err EConfig
       | Ok (relay_addr, _) =>
           match relay_client_config tls with
           | None => Err ETls
           | Some _ =>
               let? _ := timed (ra_protocol a) in
               let? invitation := timed (ra_invitation a) in
               relay_session relay_addr invitation a target name tls
           end
       end.

(** *** [TcpDialer] *)

Record TcpDialer := mkTcpDialer {
  td_device_name : str;
  td_max_retries : nat;
  td_tls : SyncthingTlsConfig;
}.

Definition dialer_new (name : str) (tls : SyncthingTlsConfig) : TcpDialer := mkTcpDialer name 10 tls.

Definition with_retry_config (max_retries : nat) (t : TcpDialer) : TcpDialer :=
  mkTcpDialer (td_device_name t) max_retries (td_tls t).

Definition dial_once (t : TcpDialer) (a : TcpAttempt) (d : DeviceId) : result SyncthingError (Uuid * Conn) :=
  connect_bep a d (td_device_name t) (td_tls t).

(** The attempts from number [attempt] on, [n] of them; the result with the
    numbers of the attempts a backoff followed. *)
Fixpoint dial_from (t : TcpDialer) (attempts : nat -> TcpAttempt) (d : DeviceId) (n attempt : nat)
    (last_error : option SyncthingError) : result SyncthingError (Uuid * Conn) * list nat :=
  match n with
  | O => (Err (default EConnection last_error), [])
  | S n' =>
      match dial_once t (attempts attempt) d with
      | Ok conn => (Ok conn, [])
      | Err e =>
          let r := dial_from t attempts d n' (S attempt) (Some e) in
          (r.1, if (attempt <? td_max_retries t)%nat then attempt :: r.2 else r.2)
      end
  end.

Definition tcp_dial (t : TcpDialer) (attempts : nat -> TcpAttempt) (d : DeviceId)
    : result SyncthingError (Uuid * Conn) * list nat :=
  dial_from t attempts d (S (td_max_retries t)) 0 None.

Definition dial_and_register (t : TcpDialer) (attempts : nat -> TcpAttempt) (d : DeviceId) (m : Manager)
    : result SyncthingError unit * Manager :=
  match (tcp_dial t attempts d).1 with
  | Err e => (Err e, m)
  | Ok (id, conn) => (Ok tt, register_connection d id (on_conns <[id := conn]> m))
  end.

(** *** [TcpTransport] *)

Record TcpTransport := mkTcpTransport {
  tt_listener : option SyncthingTcpListener;
  tt_dialer : TcpDialer;
  tt_bind_addr : SocketAddr;
}.

Definition tcp_transport_new (bind_addr : SocketAddr) (name : str) (tls : SyncthingTlsConfig) : TcpTransport :=
  mkTcpTransport (Some (listener_new bind_addr name tls)) (dialer_new name tls) bind_addr.

(** The listener that was spawned, if any. *)
Definition tcp_transport_start (bound : option (option SocketAddr)) (t : TcpTransport)
    : result SyncthingError SocketAddr * TcpTransport * option SyncthingTcpListener :=
  match tt_listener t with
  | None => (Err EConfig, t, None)
  | Some l =>
      match listener_bind bound l with
      | (Err e, l) => (Err e, mkTcpTransport (Some l) (tt_dialer t) (tt_bind_addr t), None)
      | (Ok addr, l) => (Ok addr, mkTcpTransport None (tt_dialer t) (tt_bind_addr t), Some l)
      end
  end.

Definition tcp_transport_connect (t : TcpTransport) (attempts : nat -> TcpAttempt) (d : DeviceId)
    : result SyncthingError (Uuid * Conn) :=
  (tcp_dial (tt_dialer t) attempts d).1.
End Transports.

(** ** What the connection manager uses ([manager/mod.rs]) *)

Inductive Connector := TcpBepConnector | TransportBepConnector (t : Transport).

(** The connectors of the dialer, by scheme and by default, the registry, and
    whether the manager runs. *)
Record ManagerNet := mkManagerNet {
  mn_connectors : gmap str Connector;
  mn_connector : Connector;
  mn_registry : option TransportRegistry;
  mn_running : bool;
  mn_listen_addr : option SocketAddr;
}.

Definition manager_net_new : ManagerNet := mkManagerNet ∅ TcpBepConnector None false None.

Definition register_connectors (r : TransportRegistry) (cs : gmap str Connector) : gmap str Connector :=
  foldl (fun cs scheme => match tr_get scheme r with
                          | Some t => <[scheme := TransportBepConnector t]> cs
                          | None => cs
                          end) cs (tr_schemes r).

Definition set_transport_registry (r : TransportRegistry) (n : ManagerNet) : ManagerNet :=
  mkManagerNet (register_connectors r (mn_connectors n))
    (match default_transport r with Some t => TransportBepConnector t | None => mn_connector n end)
    (Some r) (mn_running n) (mn_listen_addr n).

Definition ANY_PORT : str := $"0.0.0.0:0".

(** The listener the manager starts: one that takes the limit of connections
    into account ([SyncthingTcpListener]) or one that does not. *)
Inductive ListenerKind := LkTcp | LkTransport (t : Transport).

(** [tcp_bind]: how the sockets of [TcpTransport] are bound. *)
Definition manager_start (tls : SyncthingTlsConfig) (tcp_bind : SocketAddr -> option (option SocketAddr)) (listen_addr : SocketAddr) (n : ManagerNet)
    : result SyncthingError (SocketAddr * ListenerKind) * ManagerNet :=
  if mn_running n then (Err EConfig, n)
  else
    let or_any (first any : result SyncthingError SocketAddr) :=
      match first with
      | Ok a => Ok a
      | Err e => if negb (sa_port listen_addr =? 0) then any else Err e
      end in
    let tcp_start (a : SocketAddr) := (tcp_transport_start (tcp_bind a) (tcp_transport_new a ($"syncthing-rust") tls)).1.1 in
    let started :=
      match mn_registry n ≫= default_transport with
      | Some t =>
          let? a := or_any (bep_listener_start t (display_socket_addr listen_addr)) (bep_listener_start t ANY_PORT) in
          Ok (a, LkTransport t)
      | None =>
          let? a := or_any (tcp_start listen_addr) (tcp_start (mkSocketAddr (V4 [0; 0; 0; 0]) 0)) in
          Ok (a, LkTcp)
      end in
    match started with
    | Err e => (Err e, n)
    | Ok (a, k) => (Ok (a, k), mkManagerNet (mn_connectors n) (mn_connector n) (mn_registry n) true (Some a))
    end.

(** The tasks that watch the network and that maintain are ended; the listener
    is not. *)
Definition manager_stop (n : ManagerNet) (m : Manager) : ManagerNet * Manager :=
  (mkManagerNet (mn_connectors n) (mn_connector n) (mn_registry n) false (mn_listen_addr n),
   disconnect_all ($"manager shutting down") m).

(** ** The registry of connections only shrinks, except by a registration *)

Definition shrinks (m m' : Manager) : Prop := forall d c, registered_at m' d c -> registered_at m d c.

#[global] Instance shrinks_preorder : PreOrder shrinks.
Proof. split; [by intros m d c|]. intros m1 m2 m3 H12 H23 d c Hr. by apply H12, H23. Qed.

Lemma shrinks_same m m' : mg_connections m' = mg_connections m -> shrinks m m'.
Proof. intros E d c. unfold registered_at. by rewrite E. Qed.

Lemma shrinks_delete d m : shrinks m (on_connections (base.delete d) m).
Proof. intros d' c (n & E & Hc). cbn in E. apply lookup_delete_Some in E as [_ E]. by exists n. Qed.

Lemma shrinks_foldl {A : Type} (f : Manager -> A -> Manager) (l : list A) m :
  (forall m x, shrinks m (f m x)) -> shrinks m (foldl f m l).
Proof.
  intros Hf. revert m. induction l as [|x l IH]; intros m; [done|]. cbn. etrans; [apply Hf|]. apply IH.
Qed.

Lemma shrinks_trans_r m m1 m2 : mg_connections m2 = mg_connections m1 -> shrinks m m1 -> shrinks m m2.
Proof. intros E Hs. etrans; [exact Hs|]. by apply shrinks_same. Qed.

Lemma replace_connected_shrinks d m : shrinks m (replace_connected d m).
Proof.
  unfold replace_connected. case_match; [|done].
  eapply shrinks_trans_r; [|etrans; [apply (shrinks_delete d)|]]; [done|].
  apply shrinks_foldl. intros m1 x. by apply shrinks_same.
Qed.

Lemma begin_handshake_shrinks d t m : shrinks m (begin_handshake d t m).2.
Proof.
  unfold begin_handshake. pose proof (replace_connected_shrinks d m) as Hs.
  repeat case_match; cbn [snd]; try done; (eapply shrinks_trans_r; [|exact Hs]; done).
Qed.

Lemma schedule_reconnect_shrinks d m : shrinks m (schedule_reconnect d m).
Proof. unfold schedule_reconnect. case_match; [done|]. by apply shrinks_same. Qed.

Lemma disconnect_shrinks d reason m : shrinks m (disconnect d reason m).
Proof.
  unfold disconnect.
  lazymatch goal with |- shrinks _ (if _ then schedule_reconnect _ ?x else _) => assert (Hs : shrinks m x) end.
  { case_match; [|done]. eapply shrinks_trans_r; [|etrans; [apply (shrinks_delete d)|]]; [done|].
    apply shrinks_foldl. intros m1 x. by apply shrinks_same. }
  destruct (should_reconnect reason); [|exact Hs]. etrans; [exact Hs|apply schedule_reconnect_shrinks].
Qed.

Lemma disconnect_connection_shrinks c reason m : shrinks m (disconnect_connection c reason m).
Proof.
  unfold disconnect_connection. destruct (mg_index m !! c) as [d|]; [|done].
  set (m1 := on_connections (alter _ d) (on_index (base.delete c) m)).
  assert (H1 : shrinks m m1).
  { intros d' c' (n & E & Hc). cbn in E. apply lookup_alter_Some in E as [(-> & n0 & E & ->)|(_ & E)];
      [|by exists n]. exists n0. split; [done|set_solver]. }
  clearbody m1. lazymatch goal with |- shrinks _ (if ?b then _ else _) => destruct b end; [exact H1|].
  etrans; [exact H1|]. etrans; [apply (shrinks_delete d)|]. destruct (should_reconnect reason); [|by apply shrinks_same]. etrans; [apply (schedule_reconnect_shrinks d)|]. by apply shrinks_same.
Qed.

Lemma connect_shrinks d addresses relay_urls m : shrinks m (connect_to_with_relay d addresses relay_urls m).
Proof.
  unfold connect_to_with_relay.
  set (m1 := if decide (relay_urls = []) then _ else _).
  assert (H1 : shrinks m m1) by (subst m1; case_decide; by apply shrinks_same). clearbody m1.
  case_match; [done|]. case_match; [done|].
  match goal with |- context [begin_handshake d Connection.Outgoing ?mm] =>
    pose proof (begin_handshake_shrinks d Connection.Outgoing mm) as H2;
    destruct (begin_handshake d Connection.Outgoing mm) as [[] m2] end; cbn [snd] in H2;
    (eapply shrinks_trans_r; [|etrans; [exact H1|etrans; [|exact H2]; by apply shrinks_same]]; done).
Qed.

Lemma cleanup_shrinks now m : shrinks m (cleanup_stale_connections now m).
Proof. apply shrinks_foldl. intros m1 c. apply disconnect_connection_shrinks. Qed.

(** What can happen in a manager without a new connection. *)
Inductive quiet_step (m : Manager) : Manager -> Prop :=
| q_connect d addresses relay_urls : quiet_step m (connect_to_with_relay d addresses relay_urls m)
| q_reconnect d addresses relay_urls : quiet_step m (reconnect_device d addresses relay_urls m)
| q_update d addresses relay_urls : quiet_step m (update_addresses d addresses relay_urls m)
| q_timer t : quiet_step m (reconnect_fires t m)
| q_cancelled t : quiet_step m (dial_cancelled t m)
| q_disconnect d reason : quiet_step m (disconnect d reason m)
| q_disconnect_conn c reason : quiet_step m (disconnect_connection c reason m)
| q_disconnect_all reason : quiet_step m (disconnect_all reason m)
| q_cleanup now : quiet_step m (cleanup_stale_connections now m)
| q_net_change now : quiet_step m (handle_net_change now m)
| q_conn c state activity :
    quiet_step m (on_conns (alter (fun k => mkConn (cn_type k) state (cn_device k) activity) c) m).

Lemma quiet_step_shrinks m m' : quiet_step m m' -> shrinks m m'.
Proof.
  destruct 1.
  - apply connect_shrinks.
  - unfold reconnect_device. etrans; [|apply connect_shrinks]. eapply shrinks_trans_r; [|apply disconnect_shrinks]. done.
  - unfold update_addresses. apply shrinks_same. by repeat case_decide.
  - unfold reconnect_fires. case_match; [|done]. etrans; [|apply connect_shrinks]. by apply shrinks_same.
  - unfold dial_cancelled. repeat case_match; try done. by apply shrinks_same.
  - apply disconnect_shrinks.
  - apply disconnect_connection_shrinks.
  - apply shrinks_foldl. intros m1 d. apply disconnect_shrinks.
  - apply cleanup_shrinks.
  - unfold handle_net_change. etrans; [apply (cleanup_shrinks now)|]. apply shrinks_foldl. intros m1 d.
    unfold redial_device. case_match; [done|]. case_match; [done|]. apply connect_shrinks.
  - by apply shrinks_same.
Qed.

(** A registration adds the one connection. *)
Lemma register_connection_adds d c m d' c' :
  registered_at (register_connection d c m) d' c' -> registered_at m d' c' \/ (d' = d /\ c' = c).
Proof.
  unfold register_connection. destruct (register_decide d c m) as [act old] eqn:Ed. intros (n & E & Hc).
  unfold register_act in E. cbn [fst snd] in E.
  set (m0 := match old with Some o => close_conn o m | None => m end) in E.
  assert (H0 : mg_connections m0 = mg_connections m) by (subst m0; by destruct old). clearbody m0.
  destruct act; rewrite ?registered_tail_connections in E; cbn in E; rewrite ?H0 in E.
  - apply lookup_insert_Some in E as [(<- & <-)|(_ & E)]; [right; set_solver|left; by exists n].
  - left. by exists n.
  - apply lookup_insert_Some in E as [(<- & <-)|(_ & E)]; [|left; by exists n].
    apply elem_of_union in Hc as [Hc|Hc]; [right; set_solver|]. left.
    destruct (mg_connections m !! d) as [n0|] eqn:En; [|set_solver]. by exists n0.
  - apply lookup_insert_Some in E as [(<- & <-)|(_ & E)]; [right; set_solver|left; by exists n].
Qed.

(** ** What a connector promises *)

Section Authentic.
Context (pl : PemLib) (hello_encode : Hello -> list Z) (hello_decode : list Z -> option Hello).
Context {Stream : Type} `{!Rustls Stream}.

(** A way to dial: what an attempt of type [A] yields, and the stream it was
    made over. *)
Class DialConnector (A : Type) := {
  dial_connect : A -> DeviceId -> str -> SyncthingTlsConfig -> result SyncthingError (Uuid * Conn);
  dial_stream : A -> option Stream;
}.

(** The connection returned for a device runs over a stream whose other end
    showed the certificate of that device. *)
Class AuthConnector (A : Type) `{!DialConnector A} :=
  dial_authentic (a : A) (d : DeviceId) (name : str) (tls : SyncthingTlsConfig) (c : Uuid) (k : Conn) :
    dial_connect a d name tls = Ok (c, k) ->
    cn_device k = Some d /\ exists s, dial_stream a = Some s /\ authentic pl s d.

(** [TransportBepConnector]: the pipe, the identifier, the time. *)
Definition PipeAttempt : Type := result SyncthingError Stream * Uuid * Z.

#[global] Instance transport_connector : DialConnector PipeAttempt := {
  dial_connect a d name tls := transport_connect pl hello_encode hello_decode a.1.1 a.1.2 a.2 d name tls;
  dial_stream a := match a.1.1 with Ok s => Some s | Err _ => None end;
}.

#[global] Instance transport_connector_auth : AuthConnector PipeAttempt.
Proof.
  intros [[pipe id] now] d name tls c k E. cbn in E. unfold transport_connect in E. destruct pipe as [s|e]; [|done].
  cbn [result_bind] in E. apply result_bind_Ok in E as ([t d'] & Et & E). apply result_bind_Ok in E as (h & _ & E).
  unfold outgoing in E. simplify_eq. split; [done|]. exists s. split; [done|].
  destruct (connect_tls_stream_authentic pl s tls (Some d) t d' Et) as [Ha He]. by rewrite <- (He d eq_refl).
Qed.

(** The session of [connect_bep_via_relay]. *)
Definition SessionAttempt : Type := SocketAddr * SessionInvitation * RelayAttempt (Stream := Stream).

#[global] Instance relay_connector : DialConnector SessionAttempt := {
  dial_connect a d name tls := relay_session pl hello_encode hello_decode a.1.1 a.1.2 a.2 d name tls;
  dial_stream a := match resolve_session_addr a.1.1 a.1.2 with
                   | Ok addr => match ra_session a.2 addr with Got s => Some s | _ => None end
                   | Err _ => None
                   end;
}.

#[global] Instance relay_connector_auth : AuthConnector SessionAttempt.
Proof.
  intros [[addr inv] a] d name tls c k E. cbn in E |- *. unfold relay_session in E.
  destruct (resolve_session_addr addr inv) as [sa|e]; [|done].
  apply result_bind_Ok in E as (s & Es & E). apply result_bind_Ok in E as (t & Et & E).
  apply result_bind_Ok in E as (h & _ & E). unfold outgoing in E. simplify_eq. split; [done|].
  destruct (ra_session a sa) as [| |s0]; [done|done|]. cbn in Es. simplify_eq. exists s. split; [done|].
  unfold relay_tls in Et. destruct (ra_tls_elapsed a); [done|]. apply result_bind_Ok in Et as ([t' d'] & Er & Et).
  cbn in Et. case_decide as Ed; [|done]. subst d'.
  destruct (si_server_socket inv); [by eapply accept_tls_stream_authentic|by eapply connect_tls_stream_authentic].
Qed.

(** ** The network around a manager *)

(** The stream each connection runs over. *)
Definition NetState : Type := Manager * gmap Uuid Stream.

(** Connection [c] was returned to a dial for [d]. *)
Definition dialed (st : gmap Uuid Stream) (d : DeviceId) (c : Uuid) : Prop :=
  exists s name tls k, st !! c = Some s /\
    ((exists a : PipeAttempt, dial_connect a d name tls = Ok (c, k) /\ dial_stream a = Some s) \/
     (exists a : SessionAttempt, dial_connect a d name tls = Ok (c, k) /\ dial_stream a = Some s)).

(** The device that the handshake of an invitation's session yields. *)
Definition invited_device (server_socket : bool) (s : Stream) (tls : SyncthingTlsConfig) : option DeviceId :=
  match (if server_socket then accept_tls_stream pl s tls else connect_tls_stream pl s tls None) with
  | Ok (_, d) => Some d
  | Err _ => None
  end.

Inductive nstep : NetState -> NetState -> Prop :=
| n_stream m st c s : st !! c = None -> nstep (m, st) (m, <[c := s]> st)
| n_quiet m m' st : quiet_step m m' -> nstep (m, st) (m', st)
| n_accept m st nodelay src name tls :
    st !! cs_id src = Some (cs_stream src) ->
    nstep (m, st) ((tcp_handle_incoming pl hello_encode hello_decode nodelay src name tls m).2, st)
| n_bep_accept m st src name tls :
    st !! cs_id src = Some (cs_stream src) ->
    nstep (m, st) ((bep_handle_incoming pl hello_encode hello_decode src name tls m).2, st)
| n_dial m st ua hd t d addresses relay_urls now finished race :
    mg_tasks m !! t = Some (Dialing d addresses relay_urls) ->
    (forall ts a c rtt, (a, Some (c, rtt)) ∈ race ts -> dialed st d c) ->
    nstep (m, st) (dial_finished ua hd t now finished race m, st)
| n_invited m st relay_addr inv rs s tls :
    rs_tls rs = invited_device (si_server_socket inv) s tls ->
    (forall c, rs_conn rs = Some c -> st !! c = Some s) ->
    nstep (m, st) ((handle_invitation relay_addr inv rs m).2, st).

(** Every registered connection runs over a stream of its device. *)
Definition registry_authentic (x : NetState) : Prop :=
  forall d c, registered_at x.1 d c -> exists s, x.2 !! c = Some s /\ authentic pl s d.

Lemma registry_authentic_shrinks m m' st : shrinks m m' -> registry_authentic (m, st) -> registry_authentic (m', st).
Proof. intros Hs HI d c Hr. apply HI. by apply Hs. Qed.

Lemma registry_authentic_register m st d c s :
  registry_authentic (m, st) -> st !! c = Some s -> authentic pl s d ->
  registry_authentic (register_connection d c m, st).
Proof.
  intros HI Hc Ha d' c' Hr. cbn in *. destruct (register_connection_adds d c m d' c' Hr) as [Hr'|[-> ->]]; [by apply HI|].
  by exists s.
Qed.

Lemma accept_and_register_authentic mark src name tls m st :
  registry_authentic (m, st) -> st !! cs_id src = Some (cs_stream src) ->
  registry_authentic ((accept_and_register pl hello_encode hello_decode mark src name tls m).2, st).
Proof.
  intros HI Hs. unfold accept_and_register.
  destruct (accept_tls_stream pl (cs_stream src) tls) as [[t d]|e] eqn:Ea; [|done].
  apply accept_tls_stream_authentic in Ea. pose proof (begin_handshake_shrinks d Incoming m) as Hb.
  destruct (begin_handshake d Incoming m) as [[] m1]; cbn [snd] in Hb; [|by eapply registry_authentic_shrinks].
  assert (H1 : registry_authentic (m1, st)) by (by eapply registry_authentic_shrinks).
  destruct (server_hello _ _ _ _ _) as [h|e]; cbn [snd].
  - eapply registry_authentic_shrinks; [apply shrinks_same; reflexivity|].
    eapply registry_authentic_register; [|exact Hs|exact Ea].
    eapply registry_authentic_shrinks; [by apply shrinks_same|exact H1].
  - eapply registry_authentic_shrinks; [by apply shrinks_same|exact H1].
Qed.

Lemma dialed_authentic st d c : dialed st d c -> exists s, st !! c = Some s /\ authentic pl s d.
Proof.
  intros (s & name & tls & k & Hs & [(a & E & Hd)|(a & E & Hd)]); exists s; split; try done;
    destruct (dial_authentic a d name tls c k E) as (_ & s' & Hs' & Ha); by simplify_eq.
Qed.

Lemma dial_finished_authentic m st ua hd t d addresses relay_urls now finished race :
  mg_tasks m !! t = Some (Dialing d addresses relay_urls) ->
  (forall ts a c rtt, (a, Some (c, rtt)) ∈ race ts -> dialed st d c) ->
  registry_authentic (m, st) -> registry_authentic (dial_finished ua hd t now finished race m, st).
Proof.
  intros Ht Hr HI. unfold dial_finished. rewrite Ht.
  destruct (dial ua hd true now finished race addresses relay_urls _) as [[[c|e] sc]|] eqn:Ed.
  - apply dial_conn in Ed as (ts & a & rtt & Hin). destruct (dialed_authentic st d c (Hr ts a c rtt Hin)) as (s & Hs & Ha).
    eapply registry_authentic_shrinks; [apply shrinks_same; reflexivity|].
    eapply registry_authentic_register; [|exact Hs|exact Ha].
    eapply registry_authentic_shrinks; [by apply shrinks_same|exact HI].
  - eapply registry_authentic_shrinks; [|exact HI]. eapply shrinks_trans_r; [|etrans; [|apply schedule_reconnect_shrinks]]; [done|].
    by apply shrinks_same.
  - eapply registry_authentic_shrinks; [by apply shrinks_same|exact HI].
Qed.

Lemma invited_device_authentic server_socket s tls d :
  invited_device server_socket s tls = Some d -> authentic pl s d.
Proof.
  unfold invited_device. destruct server_socket.
  - destruct (accept_tls_stream pl s tls) as [[t d']|] eqn:E; [|done]. intros [= <-]. by eapply accept_tls_stream_authentic.
  - destruct (connect_tls_stream pl s tls None) as [[t d']|] eqn:E; [|done]. intros [= <-].
    by eapply connect_tls_stream_authentic.
Qed.

Lemma handle_invitation_authentic m st relay_addr inv rs s tls :
  rs_tls rs = invited_device (si_server_socket inv) s tls -> (forall c, rs_conn rs = Some c -> st !! c = Some s) ->
  registry_authentic (m, st) -> registry_authentic ((handle_invitation relay_addr inv rs m).2, st).
Proof.
  intros Hd Hc HI. unfold handle_invitation. destruct (resolve_session_addr relay_addr inv) as [sa|e]; [|done].
  destruct (negb (rs_joined rs)); [done|]. destruct (rs_tls rs) as [d|]; [|done].
  symmetry in Hd. apply invited_device_authentic in Hd. pose proof (begin_handshake_shrinks d Incoming m) as Hb.
  destruct (begin_handshake d Incoming m) as [[] m1]; cbn [snd] in Hb; [|by eapply registry_authentic_shrinks].
  assert (H1 : registry_authentic (m1, st)) by (by eapply registry_authentic_shrinks).
  destruct (rs_conn rs) as [c|]; cbn [snd].
  - eapply registry_authentic_shrinks; [apply shrinks_same; reflexivity|].
    eapply registry_authentic_register; [|by apply Hc|exact Hd].
    eapply registry_authentic_shrinks; [by apply shrinks_same|exact H1].
  - eapply registry_authentic_shrinks; [by apply shrinks_same|exact H1].
Qed.

Lemma nstep_authentic x y : nstep x y -> registry_authentic x -> registry_authentic y.
Proof.
  destruct 1 as [m st c s Hc|m m' st Hq|m st nodelay src name tls Hs|m st src name tls Hs
                |m st ua hd t d addresses relay_urls now finished race Ht Hr|m st relay_addr inv rs s tls Hd Hc]; intros HI.
  - intros d c' Hr. cbn in *. destruct (HI d c' Hr) as (s' & Hs' & Ha). exists s'. split; [|done]. cbn in *.
    rewrite lookup_insert_ne; [done|congruence].
  - eapply registry_authentic_shrinks; [|exact HI]. by apply quiet_step_shrinks.
  - unfold tcp_handle_incoming. destruct (configure_stream nodelay); [|done]. by apply accept_and_register_authentic.
  - by apply accept_and_register_authentic.
  - by eapply dial_finished_authentic.
  - by eapply handle_invitation_authentic.
Qed.

Lemma nsteps_authentic x y : rtc nstep x y -> registry_authentic x -> registry_authentic y.
Proof. induction 1 as [x|x y z Hs _ IH]; [done|]. intros HI. apply IH. by eapply nstep_authentic. Qed.

Lemma manager_new_authentic local max_connections timeout : registry_authentic (manager_new local max_connections timeout, ∅).
Proof. intros d' c' (n & E & _). cbn in E. by rewrite lookup_empty in E. Qed.

Lemma get_connection_registered m d c : get_connection m d = Some c -> registered_at m d c.
Proof.
  unfold get_connection. intros E. apply bind_Some in E as ([i c'] & E & E2). simplify_eq/=.
  apply list_find_Some in E as (E & _ & _). apply list_elem_of_lookup_2 in E. unfold device_conns in E.
  destruct (mg_connections m !! d) as [n|] eqn:En; [|by apply not_elem_of_nil in E]. exists n. split; [done|].
  by apply elem_of_elements.
Qed.
End Authentic.

(** C3: Whatever a daemon's network does, devices are who they claim: however
    many streams are opened, connections accepted by either listener, dialed
    directly or through a relay, invited by a relay, replaced, dropped, cleaned
    up or redialed, the connection the manager hands out for a device runs over a
    stream whose other end showed a certificate with that device's ID as its
    hash; with a hash without collisions, the very certificate of the device. *)
Theorem connections_authentic {Stream : Type} (R : Rustls Stream) (pl : PemLib) (hello_encode : Hello -> list Z)
    (hello_decode : list Z -> option Hello) (local : DeviceId) (max_connections timeout : Z) (m : Manager)
    (st : gmap Uuid Stream) (d : DeviceId) (c : Uuid) :
  rtc (nstep pl hello_encode hello_decode) (manager_new local max_connections timeout, ∅) (m, st) ->
  get_connection m d = Some c ->
  exists s, st !! c = Some s /\ authentic pl s d /\
    (Inj eq eq (pem_sha256 pl) -> forall cert0, certifies pl cert0 d -> head (cr_chain (presented s)) = Some cert0).
Proof.
  intros Hreach Hg.
  pose proof (nsteps_authentic pl _ _ _ _ Hreach (manager_new_authentic pl local max_connections timeout)) as HI.
  destruct (HI d c (get_connection_registered m d c Hg)) as (s & Hs & Ha). exists s. repeat split; [done|done|].
  intros Hinj cert0 H0. destruct (authentic_certificate pl s d cert0 Hinj H0 Ha) as [rest E]. by rewrite E.
Qed.

(** A peer that shows certificate [7] and sends a Hello. *)
Definition toy_name : str := $"b".
Definition toy_encode (h : Hello) : list Z := bytes_of_str (hello_device_name h).
Definition toy_decode (bs : list Z) : option Hello := Some (build_hello (str_of_bytes bs) 0).
Definition toy_credentials (cert : Z) : Credentials := mkCredentials [[cert]] [] (mkDss ED25519 []) [BEP_ALPN] true.
Definition toy_peer (cert : Z) : Credentials * list Z :=
  (toy_credentials cert, be_split 4 HELLO_MAGIC ++ be_split 2 1 ++ bytes_of_str toy_name).
Definition toy_device (cert : Z) : DeviceId := mkDeviceId (replicate 32 cert).
Definition toy_tls (cert : Z) : SyncthingTlsConfig := mkTlsConfig [[cert]] (Pkcs8 [0]) (toy_device cert).
Definition toy_manager : Manager :=
  (bep_handle_incoming toy_pem toy_encode toy_decode (mkConnSource (toy_peer 7) 1%positive 0) toy_name (toy_tls 1)
     (manager_new (toy_device 1) 10 60)).2.

Lemma connections_authentic_witness :
  exists s, ({[1%positive := toy_peer 7]} : gmap Uuid (Credentials * list Z)) !! 1%positive = Some s /\
    authentic toy_pem s (toy_device 7).
Proof.
  destruct (connections_authentic ideal_rustls toy_pem toy_encode toy_decode (toy_device 1) 10 60 toy_manager
    {[1%positive := toy_peer 7]} (toy_device 7) 1%positive) as (s & Hs & Ha & _).
  - eapply rtc_l; [apply (n_stream _ _ _ _ _ 1%positive (toy_peer 7)); reflexivity|].
    eapply rtc_once. apply (n_bep_accept toy_pem toy_encode toy_decode (manager_new (toy_device 1) 10 60)
      (<[1%positive := toy_peer 7]> ∅) (mkConnSource (toy_peer 7) 1%positive 0) toy_name (toy_tls 1)). reflexivity.
  - vm_compute. reflexivity.
  - exists s. split; [exact Hs|exact Ha].
Defined.

(** ** The dialer's retries *)

Section Retries.
Context (pl : PemLib) (hello_encode : Hello -> list Z) (hello_decode : list Z -> option Hello).
Context {Stream : Type} `{!Rustls Stream}.

Lemma dial_from_spec t (attempts : nat -> TcpAttempt (Stream := Stream)) d n attempt last :
  (attempt + n = S (td_max_retries t))%nat ->
  let once i := dial_once hello_encode hello_decode t (attempts i) d in
  (exists i conn, (attempt <= i < attempt + n)%nat /\ once i = Ok conn /\
     (forall j, (attempt <= j < i)%nat -> exists e, once j = Err e) /\
     dial_from hello_encode hello_decode t attempts d n attempt last = (Ok conn, seq attempt (i - attempt))) \/
  ((forall j, (attempt <= j < attempt + n)%nat -> exists e, once j = Err e) /\
   exists e, (n = O -> e = default EConnection last) /\ ((0 < n)%nat -> once (td_max_retries t) = Err e) /\
     dial_from hello_encode hello_decode t attempts d n attempt last = (Err e, seq attempt (n - 1))).
Proof.
  intros Hn once. revert attempt last Hn. induction n as [|n IH]; intros attempt last Hn; cbn [dial_from].
  { right. split; [lia|]. exists (default EConnection last). split; [done|]. split; [lia|done]. }
  fold (once attempt). destruct (once attempt) as [conn|e] eqn:Eo.
  - left. exists attempt, conn. rewrite Nat.sub_diag. split_and!; [lia|lia|done|lia|done].
  - destruct (IH (S attempt) (Some e)) as [(i & conn & Hi & Eok & Hbad & ->)|(Hbad & e' & He0 & Hlast & ->)]; [lia| |]; cbn [fst snd].
    + left. exists i, conn. split_and!; [lia|lia|done| |].
      * intros j Hj. destruct (decide (j = attempt)) as [->|]; [by eexists|]. apply Hbad. lia.
      * rewrite (proj2 (Nat.ltb_lt _ _)) by lia. by replace (i - attempt)%nat with (S (i - S attempt)) by lia.
    + right. split.
      * intros j Hj. destruct (decide (j = attempt)) as [->|]; [by eexists|]. apply Hbad. lia.
      * destruct n as [|n].
        -- rewrite (He0 eq_refl). exists e. replace (td_max_retries t) with attempt by lia.
           rewrite Nat.ltb_irrefl. split_and!; done.
        -- exists e'. split_and!; [lia|intros _; apply Hlast; lia|]. rewrite (proj2 (Nat.ltb_lt _ _)) by lia.
           cbn. by rewrite Nat.sub_0_r.
Qed.

(** The dialer terminates with the first success or the last error: it makes
    at most [max_retries + 1] attempts, stops at the first that connects, and
    sleeps after each failed attempt but the last. *)
Lemma tcp_dial_retries t (attempts : nat -> TcpAttempt (Stream := Stream)) d :
  let once i := dial_once hello_encode hello_decode t (attempts i) d in
  (exists i conn, (i <= td_max_retries t)%nat /\ once i = Ok conn /\ (forall j, (j < i)%nat -> exists e, once j = Err e) /\
     tcp_dial hello_encode hello_decode t attempts d = (Ok conn, seq 0 i)) \/
  (exists e, (forall j, (j <= td_max_retries t)%nat -> exists e, once j = Err e) /\ once (td_max_retries t) = Err e /\
     tcp_dial hello_encode hello_decode t attempts d = (Err e, seq 0 (td_max_retries t))).
Proof.
  intros once. destruct (dial_from_spec t attempts d (S (td_max_retries t)) 0 None eq_refl)
    as [(i & conn & Hi & Eo & Hb & E)|(Hb & e & _ & He & E)].
  - left. exists i, conn. rewrite Nat.sub_0_r in E. split_and!; [lia|done| |done]. intros j Hj. apply Hb. lia.
  - right. exists e. cbn [Nat.sub] in E. rewrite Nat.sub_0_r in E. split_and!; [|apply He; lia|done].
    intros j Hj. apply Hb. lia.
Qed.

(** [connect_bep] looks at no certificate: with another target the same peer
    becomes that device. *)
Lemma connect_bep_unchecked (a : TcpAttempt (Stream := Stream)) d1 d2 name tls c k :
  connect_bep hello_encode hello_decode a d1 name tls = Ok (c, k) ->
  cn_device k = Some d1 /\
  exists k', connect_bep hello_encode hello_decode a d2 name tls = Ok (c, k') /\ cn_device k' = Some d2.
Proof.
  unfold connect_bep. intros E. apply result_bind_Ok in E as (s & Es & E). rewrite Es. cbn [result_bind].
  apply result_bind_Ok in E as (u & Eu & E). rewrite Eu. cbn [result_bind].
  destruct (client_config tls) as [cfg|]; [|done]. destruct (server_name_ok _); [|done].
  apply result_bind_Ok in E as (t & Et & E). rewrite Et. cbn [result_bind].
  apply result_bind_Ok in E as (h & Eh & E). rewrite Eh. cbn [result_bind]. unfold outgoing in *. simplify_eq.
  split; [done|]. by eexists.
Qed.
End Retries.

(** ** What the manager starts *)

(** With a registry that is not empty no dial goes through [connect_bep]. *)
Lemma set_transport_registry_connectors (r : TransportRegistry) :
  r <> [] ->
  let n := set_transport_registry r manager_net_new in
  (exists t, t ∈ r /\ mn_connector n = TransportBepConnector t) /\
  map_Forall (fun _ k => exists t, t ∈ r /\ k = TransportBepConnector t) (mn_connectors n).
Proof.
  intros Hr. split.
  - destruct r as [|t r]; [done|]. exists t. split; [set_solver|done].
  - cbn [set_transport_registry mn_connectors manager_net_new]. unfold register_connectors.
    assert (H0 : map_Forall (fun _ k => exists t, t ∈ r /\ k = TransportBepConnector t) (∅ : gmap str Connector))
      by apply map_Forall_empty.
    revert H0. generalize (∅ : gmap str Connector). induction (tr_schemes r) as [|x l IH]; intros g Hg; [done|].
    cbn [foldl]. apply IH. destruct (tr_get x r) as [t|] eqn:Et; [|done]. apply map_Forall_insert_2; [|done].
    unfold tr_get in Et. apply bind_Some in Et as ([i t'] & Ef & E). simplify_eq/=.
    apply list_find_Some in Ef as (Ef & _ & _). exists t. split; [by eapply list_elem_of_lookup_2|done].
Qed.

(** A manager starts one listener until it is stopped. *)
Lemma manager_start_once tls tcp_bind addr n a k n' :
  manager_start tls tcp_bind addr n = (Ok (a, k), n') ->
  mn_running n' = true /\ mn_listen_addr n' = Some a /\ forall tls' tcp_bind' addr', (manager_start tls' tcp_bind' addr' n').1 = Err EConfig.
Proof.
  unfold manager_start at 1. destruct (mn_running n); [done|]. cbn zeta.
  destruct (match mn_registry n ≫= default_transport with Some t => _ | None => _ end) as [[a0 k0]|e]; [|done].
  intros E. simplify_eq. repeat split.
Qed.

(** A second [start] of a TCP transport is an error; after a failed bind it may
    be started again. *)
Lemma tcp_transport_start_once bound t a t' l :
  tcp_transport_start bound t = (Ok a, t', Some l) ->
  li_inner l = Some a /\ forall bound', tcp_transport_start bound' t' = (Err EConfig, t', None).
Proof.
  unfold tcp_transport_start at 1. destruct (tt_listener t) as [l0|]; [|done].
  unfold listener_bind. destruct bound as [[b|]|]; [|done|done]. intros E. simplify_eq. done.
Qed.

(** The peer that shows certificate [7] is taken for device 9. *)
Example connect_bep_impostor :
  connect_bep toy_encode toy_decode (mkTcpAttempt (Got (toy_peer 7)) true true 1%positive 0) (toy_device 9) toy_name (toy_tls 1) =
  Ok (outgoing (toy_device 9) 1%positive).
Proof. vm_compute. reflexivity. Qed.

(** The connector the daemon uses rejects it. *)
Example transport_connect_impostor :
  transport_connect toy_pem toy_encode toy_decode (Ok (toy_peer 7)) 1%positive 0 (toy_device 9) toy_name (toy_tls 1) = Err ETls.
Proof. vm_compute. reflexivity. Qed.

(** [BepTransportListener] accepts although no connection is allowed; the TCP
    listener does not. *)
Example bep_listener_no_limit :
  get_connection (bep_accept_loop toy_pem toy_encode toy_decode toy_name (toy_tls 1)
    [Some (mkConnSource (toy_peer 7) 1%positive 0)] (manager_new (toy_device 1) 0 60)) (toy_device 7) = Some 1%positive /\
  get_connection (accept_loop toy_pem toy_encode toy_decode toy_name (toy_tls 1)
    [AcConnection true (mkConnSource (toy_peer 7) 1%positive 0)] (manager_new (toy_device 1) 0 60)) (toy_device 7) = None.
Proof. vm_compute. split; reflexivity. Qed.

(** After [stop] the listener goes on to register connections. *)
Example stopped_manager_accepts :
  let m := (manager_stop manager_net_new toy_manager).2 in
  get_connection m (toy_device 7) = None /\
  get_connection (bep_accept_loop toy_pem toy_encode toy_decode toy_name (toy_tls 1)
    [Some (mkConnSource (toy_peer 8) 2%positive 0)] m) (toy_device 8) = Some 2%positive.
Proof. vm_compute. split; reflexivity. Qed.
