(* ===== verification/ManagerSource.v ===== *)
(** * Requesting blocks ([ManagerBlockSource], [cmd/syncthing/src/main.rs])

    The daemon's block source: one request per connected device until one
    answers with a block of the right size.  The request is matched to its
    response by an identifier; the sessions that read the responses share the
    table of the requests that wait.  Protobuf coding and the connections'
    sending are parameters; the peers are either arbitrary or daemons that serve
    their folders. *)

From S2P Require Import Prelude Core DeviceIds Bep Database BlockServer Session Puller Manager Service.

Record ManagerBlockSource := mkManagerBlockSource {
  mb_next_id : Z;
  mb_pending : gmap Z DeviceId;
  mb_rtt : Z;
}.

Definition source_new : ManagerBlockSource := mkManagerBlockSource 1 ∅ rtt_new.

(** What happens to a request that was sent: nothing for 120 seconds, the end
    of its channel, or a response. *)
Inductive Reply := RpElapsed | RpClosed | RpResponse (resp : Response).

(** The network as a request finds it. *)
Record SourceEnv := mkSourceEnv {
  se_encode : Request -> bool;
  se_send : DeviceId -> Request -> bool;
  se_reply : DeviceId -> Request -> Reply;
  se_elapsed_ms : DeviceId -> Request -> Z;
}.

Inductive SourceError :=
| SrcEncode | SrcNoConnection | SrcSend | SrcTimeout | SrcClosed | SrcRemote (code : Z)
| SrcSize (expected got : Z) | SrcNoDevices.

Definition build_request (id : Z) (folder file : str) (block : BlockInfo) (block_no : Z) : Request :=
  mkRequest id folder file (bi_offset block) (bi_size block) (bi_hash block) false (to_signed 32 (wrap 32 block_no)).

Section Source.
Context (env : SourceEnv).

(** [fetch_add(1)] of an [AtomicI32]. *)
Definition fetch_id (b : ManagerBlockSource) : Z * ManagerBlockSource :=
  (mb_next_id b, mkManagerBlockSource (to_signed 32 (wrap 32 (mb_next_id b + 1))) (mb_pending b) (mb_rtt b)).

Definition set_waiting (f : gmap Z DeviceId -> gmap Z DeviceId) (b : ManagerBlockSource) : ManagerBlockSource :=
  mkManagerBlockSource (mb_next_id b) (f (mb_pending b)) (mb_rtt b).

Definition sample_rtt (ms : Z) (b : ManagerBlockSource) : ManagerBlockSource :=
  mkManagerBlockSource (mb_next_id b) (mb_pending b) (rtt_sample (mb_rtt b) ms).

(** The checks on a response; [as usize] of the requested size. *)
Definition check_response (block : BlockInfo) (resp : Response) : result SourceError (list Z) :=
  if negb (resp_code resp =? error_code_i32 NoError) then Err (SrcRemote (resp_code resp))
  else if negb (Z.of_nat (length (resp_data resp)) =? wrap 64 (bi_size block))
  then Err (SrcSize (bi_size block) (Z.of_nat (length (resp_data resp))))
  else Ok (resp_data resp).

(** The entry of a request leaves the table only when a session takes it to
    deliver a response or to close the channel. *)
Definition try_request_block_from_device (m : Manager) (d : DeviceId) (folder file : str) (block : BlockInfo) (block_no : Z)
    (b : ManagerBlockSource) : result SourceError (list Z) * ManagerBlockSource :=
  let '(id, b) := fetch_id b in
  let request := build_request id folder file block block_no in
  if negb (se_encode env request) then (Err SrcEncode, b)
  else match get_connection m d with
       | None => (Err SrcNoConnection, b)
       | Some _ =>
           let b := set_waiting <[id := d]> b in
           if negb (se_send env d request) then (Err SrcSend, b)
           else match se_reply env d request with
                | RpElapsed => (Err SrcTimeout, b)
                | RpClosed => (Err SrcClosed, set_waiting (base.delete id) b)
                | RpResponse resp =>
                    let b := set_waiting (base.delete id) b in
                    match check_response block resp with
                    | Err e => (Err e, b)
                    | Ok data => (Ok data, sample_rtt (se_elapsed_ms env d request) b)
                    end
                end
       end.

Fixpoint request_from (m : Manager) (devices : list DeviceId) (folder file : str) (block : BlockInfo) (block_no : Z)
    (last_error : option SourceError) (b : ManagerBlockSource) : result SourceError (list Z) * ManagerBlockSource :=
  match devices with
  | [] => (Err (default SrcNoDevices last_error), b)
  | d :: rest =>
      match try_request_block_from_device m d folder file block block_no b with
      | (Ok data, b) => (Ok data, b)
      | (Err e, b) => request_from m rest folder file block block_no (Some e) b
      end
  end.

Definition request_block (m : Manager) (folder file : str) (block : BlockInfo) (block_no : Z) (b : ManagerBlockSource)
    : result SourceError (list Z) * ManagerBlockSource :=
  match connected_devices m with
  | [] => (Err SrcNoDevices, b)
  | devices => request_from m devices folder file block block_no None b
  end.
End Source.

(** ** Lemmas *)

(** A device that is listed as connected has a connection. *)
Lemma connected_devices_connection m d : d ∈ connected_devices m -> is_Some (get_connection m d).
Proof.
  unfold connected_devices. intros ([d' n] & -> & Hin)%list_elem_of_fmap. apply list_elem_of_filter in Hin as [Hex Hin].
  apply elem_of_map_to_list in Hin. cbn [fst snd] in *. apply existsb_exists in Hex as (c & Hc & Ha).
  unfold get_connection, device_conns. rewrite Hin.
  destruct (list_find_elem_of (fun c => conn_alive m c = true) (elements n) c) as [[i c'] E]; [by apply list_elem_of_In|done|].
  rewrite E. by eexists.
Qed.

(** What a peer promises to one that asks it for a block: the identifier of
    the request does not matter, data that is served has the hash that was asked
    for, and a refusal carries an error code. *)
Class BlockPeer {H : Type} (handler : BepSessionHandler H) (sha256 : list Z -> list Z) : Prop := {
  peer_any_id h d req req' :
    (forall id, mkRequest id (req_folder req) (req_name req) (req_offset req) (req_size req) (req_hash req)
                  (req_from_temporary req) (req_block_no req) =
                mkRequest id (req_folder req') (req_name req') (req_offset req') (req_size req') (req_hash req')
                  (req_from_temporary req') (req_block_no req')) ->
    on_block_request h d req = on_block_request h d req';
  peer_hash h d req data : on_block_request h d req = Ok data -> req_hash req <> [] -> sha256 data = req_hash req;
  peer_error h d req code : on_block_request h d req = Err code -> code <> NoError;
}.

(** A daemon keeps it. *)
Lemma serve_block_request_hash canonicalize current_dir open_file read_some sha256 root req buf :
  serve_block_request_sync canonicalize current_dir open_file read_some sha256 root req = Ok buf ->
  req_hash req <> [] -> sha256 buf = req_hash req.
Proof.
  unfold serve_block_request_sync. intros E Hh.
  apply result_bind_Ok in E as (rel & _ & E). apply result_bind_Ok in E as (fp & _ & E). case_match; [done|].
  apply result_bind_Ok in E as (data & _ & E). apply result_bind_Ok in E as (b & _ & E).
  case_decide; [done|]. case_decide; by simplify_eq.
Qed.

Section DaemonPeer.
Context {DB : Type} `{LocalDatabase DB} (env : SyncService DB -> ServiceEnv) (sha256 : list Z -> list Z).

#[global] Instance daemon_block_peer :
  (forall s, be_sha256 (sv_blocks (env s)) = sha256) -> BlockPeer (DaemonBepHandler env) sha256.
Proof.
  intros Hsha. split.
  - intros h d [] [] Hr. specialize (Hr 0). cbn in Hr |- *. unfold daemon_on_block_request, handle_block_request. cbn.
    injection Hr as -> -> -> -> -> -> ->. reflexivity.
  - intros h d req data. cbn. unfold daemon_on_block_request, handle_block_request. repeat case_match; try done.
    intros E. simplify_eq. rewrite <- (Hsha h). by eapply serve_block_request_hash.
  - intros h d req code. cbn. unfold daemon_on_block_request. case_match; [done|]. intros [= <-]. by destruct e.
Qed.
End DaemonPeer.

Section Honest.
Context {H : Type} (handler : BepSessionHandler H) (sha256 : list Z -> list Z) `{!BlockPeer handler sha256}.
Context (peers : DeviceId -> H) (self : DeviceId) (elapsed : DeviceId -> Request -> Z).

(** The network when everything that is sent arrives and is answered. *)
Definition honest_env : SourceEnv :=
  mkSourceEnv (fun _ => true) (fun _ _ => true) (fun d req => RpResponse (response_for (peers d) self req)) elapsed.

(** The answer of a peer, to a request with any identifier. *)
Definition serves_block (d : DeviceId) (folder file : str) (b : BlockInfo) (no : Z) : result ErrorCode (list Z) :=
  on_block_request (peers d) self (build_request 0 folder file b no).

Definition in_usize (b : BlockInfo) : Prop := 0 <= bi_size b < 2 ^ 64.

Lemma build_request_any_id d id folder file b no :
  on_block_request (peers d) self (build_request id folder file b no) = serves_block d folder file b no.
Proof. apply peer_any_id. intros id'. done. Qed.

(** One request to one device. *)
Lemma try_request_honest m d folder file b no src :
  is_Some (get_connection m d) -> in_usize b ->
  exists src', try_request_block_from_device honest_env m d folder file b no src =
    (match serves_block d folder file b no with
     | Ok data => if Z.of_nat (length data) =? bi_size b then Ok data
                  else Err (SrcSize (bi_size b) (Z.of_nat (length data)))
     | Err code => Err (SrcRemote (error_code_i32 code))
     end, src') /\ mb_pending src' = base.delete (mb_next_id src) (mb_pending src).
Proof.
  intros [c Hc] Hsz. unfold try_request_block_from_device, honest_env. cbn [se_encode se_send se_reply negb fetch_id].
  rewrite Hc. unfold response_for. rewrite build_request_any_id.
  assert (Hw : wrap 64 (bi_size b) = bi_size b) by (apply wrap_id; exact Hsz).
  destruct (serves_block d folder file b no) as [data|code] eqn:Es; unfold check_response; cbn [resp_code resp_data]; rewrite ?Hw.
  - cbn [error_code_i32 Z.eqb negb]. destruct (_ =? bi_size b); cbn [negb]; eexists; (split; [reflexivity|]);
      cbn; by rewrite delete_insert_eq.
  - apply peer_error in Es. destruct code; [done|..]; cbn; eexists; (split; [reflexivity|]); cbn; by rewrite delete_insert_eq.
Qed.

(** The devices in turn: the first that serves the block, in full. *)
Lemma request_from_honest m devices folder file b no last src :
  Forall (fun d => is_Some (get_connection m d)) devices -> in_usize b ->
  (exists d data, d ∈ devices /\ serves_block d folder file b no = Ok data /\ Z.of_nat (length data) = bi_size b) ->
  exists d data src', d ∈ devices /\ serves_block d folder file b no = Ok data /\ Z.of_nat (length data) = bi_size b /\
    request_from honest_env m devices folder file b no last src = (Ok data, src').
Proof.
  intros Hc Hsz Hex. revert last src. induction Hc as [|d devices Hd _ IH]; intros last src.
  { destruct Hex as (d & _ & Hd & _). by apply not_elem_of_nil in Hd. }
  cbn [request_from]. destruct (try_request_honest m d folder file b no src Hd Hsz) as (src' & -> & _).
  destruct (serves_block d folder file b no) as [data|code] eqn:Es;
    [destruct (Z.eqb_spec (Z.of_nat (length data)) (bi_size b)) as [El|El]|].
  { exists d, data, src'. split; [by left|done]. }
  all: destruct IH with (last := Some (match serves_block d folder file b no with
                                      | Ok data => SrcSize (bi_size b) (Z.of_nat (length data))
                                      | Err code => SrcRemote (error_code_i32 code)
                                      end)) (src := src') as (d' & data' & src2 & Hin & Hs & Hl & E).
  all: rewrite ?Es in *.
  all: try (destruct Hex as (d0 & data0 & [-> | Hin]%elem_of_cons & Hs0 & Hl0); [simplify_eq; congruence|by exists d0, data0]).
  all: exists d', data', src2; split; [by right|]; done.
Qed.

(** A block that a connected daemon has is fetched, and is the one asked for. *)
Lemma request_block_honest m d folder file b no src data :
  d ∈ connected_devices m -> in_usize b -> bi_hash b <> [] ->
  serves_block d folder file b no = Ok data -> Z.of_nat (length data) = bi_size b ->
  exists data' src', request_block honest_env m folder file b no src = (Ok data', src') /\
    sha256 data' = bi_hash b /\ Z.of_nat (length data') = bi_size b.
Proof.
  intros Hd Hsz Hh Hs Hl. unfold request_block.
  assert (Hall : Forall (fun d => is_Some (get_connection m d)) (connected_devices m))
    by (apply Forall_forall; intros d' Hd'; by apply connected_devices_connection).
  destruct (request_from_honest m (connected_devices m) folder file b no None src Hall Hsz) as
    (d' & data' & src' & _ & Hs' & Hl' & E); [by exists d, data|].
  exists data', src'. destruct (connected_devices m); [by apply not_elem_of_nil in Hd|]. split_and!; [done| |done].
  by apply (peer_hash _ _ _ _ Hs').
Qed.
End Honest.

(** ** Bookkeeping of requests *)

Section Bookkeeping.
Context (env : SourceEnv).

(** Whatever the peers answer, data is returned only from a response without an
    error code and of the size of the block. *)
Lemma try_request_sound m d folder file b no src data src' :
  try_request_block_from_device env m d folder file b no src = (Ok data, src') ->
  is_Some (get_connection m d) /\
  (exists resp, se_reply env d (build_request (mb_next_id src) folder file b no) = RpResponse resp /\
     resp_code resp = 0 /\ resp_data resp = data) /\
  Z.of_nat (length data) = wrap 64 (bi_size b) /\ mb_pending src' = base.delete (mb_next_id src) (mb_pending src).
Proof.
  unfold try_request_block_from_device. cbn [fetch_id]. case_match; [done|]. destruct (get_connection m d) as [c|]; [|done].
  case_match; [done|]. destruct (se_reply env d _) as [| |resp]; [done|done|]. unfold check_response.
  destruct (Z.eqb_spec (resp_code resp) (error_code_i32 NoError)) as [Ec|]; [|done]. cbn [negb].
  destruct (Z.eqb_spec (Z.of_nat (length (resp_data resp))) (wrap 64 (bi_size b))) as [El|]; [|done]. cbn [negb].
  intros E. simplify_eq. split_and!; [by eexists| |done|].
  - exists resp. done.
  - cbn. by rewrite delete_insert_eq.
Qed.

(** A request that times out, or cannot be sent, stays in the table. *)
Lemma try_request_leaks m d folder file b no src :
  is_Some (get_connection m d) ->
  se_encode env (build_request (mb_next_id src) folder file b no) = true ->
  se_send env d (build_request (mb_next_id src) folder file b no) = false \/
    se_reply env d (build_request (mb_next_id src) folder file b no) = RpElapsed ->
  mb_pending (try_request_block_from_device env m d folder file b no src).2 !! mb_next_id src = Some d.
Proof.
  intros [c Hc] He Hs. unfold try_request_block_from_device. cbn [fetch_id]. rewrite He, Hc. cbn [negb].
  destruct (se_send env d _) eqn:Esend; cbn [negb].
  - destruct Hs as [? | ->]; [done|]. cbn. apply lookup_insert_eq.
  - cbn. apply lookup_insert_eq.
Qed.
End Bookkeeping.
