(* ===== verification/Transfer.v ===== *)
(** * A file from one daemon to another

    The pieces of a transfer together: the puller of one daemon writes and
    verifies blocks, its block source asks the connected devices for each, their
    sessions hand the requests to their services, which read the blocks from
    their folders. *)

From S2P Require Import Prelude Core DeviceIds Bep Wire Database Merge BlockServer Conflict IndexHandler Session Puller FolderModel Scanner FolderScan Config Dispatch Manager Service ManagerSource.


(** ** A download whose blocks all arrive completes *)

Section Complete.
Context {DB : Type} `{Hdb : LocalDatabase DB} `{Hlaws : !LocalDatabaseLaws DB}.
Context (env : PullEnv) (fp folder : str) (f : FileInfo) (src : BlockSource).
Context (Hio : forall op, pe_io env op = true) (Hsrc : pe_source env = Some src).
Implicit Types w : World DB.


End Complete.


Section Transfer.
Context {DB1 DB2 : Type} `{Hdb1 : LocalDatabase DB1} `{Hlaws1 : !LocalDatabaseLaws DB1} `{Hdb2 : LocalDatabase DB2}.
Context (env : PullEnv) (remote_env : SyncService DB2 -> ServiceEnv) (sha256 : list Z -> list Z).
Context (peers : DeviceId -> SyncService DB2) (self : DeviceId) (elapsed : DeviceId -> Request -> Z).
Context (at_call : str -> str -> BlockInfo -> nat -> Manager * ManagerBlockSource).





End Transfer.

(** ** A transfer *)







