(* ===== verification/Launch.v ===== *)
(** * Starting the program ([cmd/syncthing/src/main.rs], [single_instance.rs],
    and the first half of [tui/daemon_runner.rs])

    The lock on the configuration directory; the commands of the command line
    and what they start; the configuration a daemon runs with and what it saves
    of it; the transports it registers; the peers it dials and the relays it
    listens on.  Processes, random numbers and the file system are parameters. *)

From S2P Require Import Prelude Core DeviceIds Connection Net Ignore Versions Dialer Manager Config Relay Discovery Reach Tls Transport.

(** ** The single-instance lock *)

Definition PID_FILE_NAME : str := $"syncthing.pid".

(** The content of the pid file, if it exists, and the live processes. *)
Record LockDir := mkLockDir {
  ld_pid_file : option str;
  ld_alive : gset Z;
}.

Definition set_pid_file (f : option str) (l : LockDir) : LockDir := mkLockDir f (ld_alive l).

(** [pid_str.trim().parse::<u32>()] of an ASCII text. *)
Definition parse_pid (content : str) : option Z := parse_unsigned 32 (trim content).

(** [format!("{}\n", pid)]; ten digits are enough for 32 bits. *)
Definition pid_text (pid : Z) : str := number_fuel 10 10 pid [] ++ ["010"%char].

(** The check of [acquire]: no live process is named.  A file that cannot be
    read counts as empty. *)
Definition lock_free (readable : bool) (l : LockDir) : bool :=
  match (content ← ld_pid_file l; parse_pid (if readable then content else [])) with
  | Some p => negb (bool_decide (p ∈ ld_alive l))
  | None => true
  end.

(** Its write; [write_ok] covers the creation of the directory too. *)
Definition lock_write (pid : Z) (write_ok : bool) (l : LockDir) : bool * LockDir :=
  if write_ok then (true, set_pid_file (Some (pid_text pid)) l) else (false, l).

(** [true]: process [pid] has the lock. *)
Definition acquire (pid : Z) (readable write_ok : bool) (l : LockDir) : bool * LockDir :=
  if lock_free readable l then lock_write pid write_ok l else (false, l).

Definition release (l : LockDir) : LockDir := set_pid_file None l.

Definition is_process_alive (pid : Z) (l : LockDir) : bool := negb (pid =? 0) && bool_decide (pid ∈ ld_alive l).

Definition running_instance_pid (self : Z) (readable : bool) (l : LockDir) : option Z :=
  content ← ld_pid_file l;
  pid ← parse_pid (if readable then content else []);
  if pid =? self then None
  else if is_process_alive pid l then Some pid else None.

(** *** Processes and the lock *)

(** The processes that have found the lock free and not written it yet, and
    those that run with the lock. *)
Record LockState := mkLockState { ls_dir : LockDir; ls_checked : gset Z; ls_holders : gset Z }.

Inductive LockEvent :=
| LkSpawn (pid : Z)
| LkCheck (pid : Z) (readable : bool)
| LkWrite (pid : Z) (write_ok : bool)
| LkRelease (pid : Z)
| LkEnd (pid : Z).

(** What processes do, each operation of [acquire] a step of its own: start,
    check the lock, write it, give it back when the guard is dropped, and end,
    at any point. *)
Inductive lock_step (x : LockState) : LockEvent -> LockState -> Prop :=
| lk_spawn pid : 0 < pid < 2 ^ 32 -> pid ∉ ld_alive (ls_dir x) ->
    lock_step x (LkSpawn pid)
      (mkLockState (mkLockDir (ld_pid_file (ls_dir x)) ({[pid]} ∪ ld_alive (ls_dir x))) (ls_checked x) (ls_holders x))
| lk_check pid readable : 0 < pid < 2 ^ 32 -> pid ∈ ld_alive (ls_dir x) -> pid ∉ ls_checked x ∪ ls_holders x ->
    lock_step x (LkCheck pid readable)
      (mkLockState (ls_dir x) (if lock_free readable (ls_dir x) then {[pid]} ∪ ls_checked x else ls_checked x) (ls_holders x))
| lk_write pid write_ok : pid ∈ ls_checked x ->
    lock_step x (LkWrite pid write_ok)
      (let '(ok, l) := lock_write pid write_ok (ls_dir x) in
       mkLockState l (ls_checked x ∖ {[pid]}) (if ok then {[pid]} ∪ ls_holders x else ls_holders x))
| lk_release pid : pid ∈ ls_holders x ->
    lock_step x (LkRelease pid) (mkLockState (release (ls_dir x)) (ls_checked x) (ls_holders x ∖ {[pid]}))
| lk_end pid :
    lock_step x (LkEnd pid)
      (mkLockState (mkLockDir (ld_pid_file (ls_dir x)) (ld_alive (ls_dir x) ∖ {[pid]})) (ls_checked x ∖ {[pid]}) (ls_holders x ∖ {[pid]})).

(** No process begins to take the lock while another one is taking it, and the
    pid file can be read. *)
Definition lock_uncontended (x : LockState) (e : LockEvent) : Prop :=
  match e with LkCheck _ readable => readable = true /\ ls_checked x = ∅ | _ => True end.

Definition lock_moves (x y : LockState) : Prop := exists e, lock_step x e y.

Definition lock_moves_in_turn (x y : LockState) : Prop := exists e, lock_uncontended x e /\ lock_step x e y.

Definition lock_initial (alive : gset Z) : LockState := mkLockState (mkLockDir None alive) ∅ ∅.

(** A holder is alive and named by the file; while a process is taking the lock
    nobody holds it, and nobody else is taking it. *)
Record lock_inv (x : LockState) : Prop := {
  li_holder : forall pid, pid ∈ ls_holders x ->
    pid ∈ ld_alive (ls_dir x) /\ (ld_pid_file (ls_dir x) ≫= parse_pid) = Some pid;
  li_taking : forall pid, pid ∈ ls_checked x ->
    0 < pid < 2 ^ 32 /\ pid ∈ ld_alive (ls_dir x) /\ ls_holders x = ∅ /\ ls_checked x = {[pid]};
}.

Lemma lock_inv_single x p q : lock_inv x -> p ∈ ls_holders x -> q ∈ ls_holders x -> p = q.
Proof. intros HI Hp Hq. apply (li_holder x HI) in Hp as [_ Hp]. apply (li_holder x HI) in Hq as [_ Hq]. congruence. Qed.

(** The text of a pid is read back. *)
Lemma digit_char_code d : 0 <= d < 10 -> Z.of_N (N_of_ascii (digit_char d)) = 48 + d.
Proof.
  intros Hd. assert (d ∈ Z.of_nat <$> seq 0 10) as Hin.
  { apply list_elem_of_fmap. exists (Z.to_nat d). split; [lia|]. apply elem_of_seq. lia. }
  revert Hin. cbn. intros Hin. repeat (apply elem_of_cons in Hin as [-> | Hin]; [vm_compute; reflexivity|]).
  by apply not_elem_of_nil in Hin.
Qed.

Lemma parse_digits_number fuel n s : 0 <= n < 10 ^ Z.of_nat fuel -> (0 < fuel)%nat ->
  exists k : nat, forall acc, parse_digits acc (number_fuel fuel 10 n s) = parse_digits (acc * 10 ^ Z.of_nat k + n) s.
Proof.
  revert n s. induction fuel as [|fuel IH]; intros n s Hn Hf; [lia|]. cbn [number_fuel].
  pose proof (Z.mod_pos_bound n 10 ltac:(lia)) as Hm. pose proof (Z.div_mod n 10 ltac:(lia)) as Hdm.
  assert (Hone : forall acc, parse_digits acc (digit_char (n mod 10) :: s) = parse_digits (acc * 10 + n mod 10) s).
  { intros acc. cbn [parse_digits]. rewrite digit_char_code by done.
    rewrite (proj2 (Z.leb_le 48 _)), (proj2 (Z.leb_le _ 57)) by lia. cbn [andb]. f_equal. lia. }
  destruct (Z.ltb_spec n 10) as [Hlt|Hge].
  - exists 1%nat. intros acc. rewrite Hone. f_equal. rewrite Z.mod_small by lia. lia.
  - assert (Hdiv : 1 <= n / 10) by (apply Z.div_le_lower_bound; lia).
    destruct fuel as [|fuel]; [cbn in Hn; lia|].
    destruct (IH (n / 10) (digit_char (n mod 10) :: s)) as [k Hk]; [|lia|].
    { split; [lia|]. apply Z.div_lt_upper_bound; [lia|]. rewrite Nat2Z.inj_succ, Z.pow_succ_r in Hn by lia. lia. }
    exists (S k). intros acc. rewrite Hk, Hone, Nat2Z.inj_succ, Z.pow_succ_r by lia. f_equal. lia.
Qed.

Definition is_digit (c : ascii) : Prop := exists d, 0 <= d < 10 /\ c = digit_char d.

Lemma number_digits fuel n s : 0 <= n -> Forall is_digit s -> Forall is_digit (number_fuel fuel 10 n s).
Proof.
  revert n s. induction fuel as [|fuel IH]; intros n s Hn Hs; [done|]. cbn [number_fuel].
  assert (Forall is_digit (digit_char (n mod 10) :: s)).
  { constructor; [|done]. exists (n mod 10). split; [by apply Z.mod_pos_bound|done]. }
  case_match; [done|]. apply IH; [by apply Z.div_pos|done].
Qed.

Lemma digit_cases c : is_digit c -> c ∈ (["0"; "1"; "2"; "3"; "4"; "5"; "6"; "7"; "8"; "9"]%char : list ascii).
Proof.
  intros (d & Hd & ->). assert (d ∈ Z.of_nat <$> seq 0 10) as Hin.
  { apply list_elem_of_fmap. exists (Z.to_nat d). split; [lia|]. apply elem_of_seq. lia. }
  revert Hin. cbn. intros Hin.
  repeat (apply elem_of_cons in Hin as [-> | Hin]; [vm_compute; set_solver|]).
  by apply not_elem_of_nil in Hin.
Qed.

Lemma strip_any_digit c s : is_digit c -> strip_any whitespace (c :: s) = None /\ strip_any (reverse <$> whitespace) (c :: s) = None.
Proof.
  intros Hc. apply digit_cases in Hc. repeat (apply elem_of_cons in Hc as [-> | Hc]; [split; reflexivity|]).
  by apply not_elem_of_nil in Hc.
Qed.

Lemma trim_with_digits ps fuel s : (forall c t, is_digit c -> strip_any ps (c :: t) = None) -> Forall is_digit s ->
  strip_any ps [] = None -> trim_with ps fuel s = s.
Proof. intros Hp Hs Hn. destruct fuel; [done|]. cbn. destruct Hs as [|c s Hc Hs]; [by rewrite Hn|]. by rewrite Hp. Qed.

Lemma trim_digits_newline s : s <> [] -> Forall is_digit s -> trim (s ++ ["010"%char]) = s.
Proof.
  intros Hne Hs. unfold trim.
  assert (E : trim_with whitespace (length (s ++ ["010"%char])) (s ++ ["010"%char]) = s ++ ["010"%char]).
  { destruct Hs as [|c s Hc Hs]; [done|]. cbn [length app trim_with]. by rewrite (proj1 (strip_any_digit c _ Hc)). }
  rewrite E, length_app. cbn [length]. rewrite reverse_app, reverse_singleton. cbn [app].
  rewrite Nat.add_1_r. cbn [trim_with]. replace (strip_any (reverse <$> whitespace) ("010"%char :: reverse s)) with (Some (reverse s))
    by reflexivity.
  rewrite trim_with_digits; [apply reverse_involutive| |by apply Forall_reverse|reflexivity].
  intros c t Hc. by apply strip_any_digit.
Qed.

Lemma number_nonempty fuel n s : (0 < fuel)%nat -> number_fuel fuel 10 n s <> [].
Proof.
  revert n s. induction fuel as [|fuel IH]; intros n s Hf; [lia|]. cbn [number_fuel]. case_match; [done|].
  destruct fuel; [done|]. apply IH. lia.
Qed.

Lemma parse_pid_text pid : 0 <= pid < 2 ^ 32 -> parse_pid (pid_text pid) = Some pid.
Proof.
  intros Hp. unfold parse_pid, pid_text. rewrite trim_digits_newline;
    [|by apply number_nonempty; lia|apply number_digits; [lia|done]].
  unfold parse_unsigned. pose proof (number_digits 10 pid [] (proj1 Hp) (Forall_nil_2 _)) as Hd.
  pose proof (number_nonempty 10 pid [] ltac:(lia)) as Hne.
  destruct (parse_digits_number 10 pid []) as [k Hk]; [lia|lia|]. specialize (Hk 0). cbn [parse_digits] in Hk.
  replace (0 * 10 ^ Z.of_nat k + pid) with pid in Hk by lia.
  destruct (number_fuel 10 10 pid []) as [|c s] eqn:Es; [done|].
  replace (match c :: s with "+"%char :: s' => s' | _ => c :: s end) with (c :: s).
  2: { inversion Hd as [|? ? Hc _]; subst. apply digit_cases in Hc.
       repeat (apply elem_of_cons in Hc as [-> | Hc]; [reflexivity|]). by apply not_elem_of_nil in Hc. }
  rewrite decide_False by done. rewrite Hk. cbn [mbind option_bind]. by rewrite (proj2 (Z.ltb_lt pid (2 ^ 32))) by lia.
Qed.

Lemma lock_free_no_holder x : lock_inv x -> lock_free true (ls_dir x) = true -> ls_holders x = ∅.
Proof.
  intros HI Ef. apply elem_of_equiv_empty_L. intros q Hq. destruct (li_holder x HI q Hq) as [Hq1 Hq2]. unfold lock_free in Ef.
  assert (Hf : (content ← ld_pid_file (ls_dir x); parse_pid (if true then content else [])) = Some q) by exact Hq2.
  rewrite Hf in Ef. by rewrite (bool_decide_true (q ∈ _)) in Ef by done.
Qed.

Lemma lock_step_inv x e y : lock_uncontended x e -> lock_step x e y -> lock_inv x -> lock_inv y.
Proof.
  intros Hu Hs HI. destruct Hs as [pid Hp Hn|pid readable Hp Ha Hh|pid write_ok Hc|pid Hh|pid].
  - split; cbn; intros q Hq.
    + destruct (li_holder x HI q Hq) as [? ?]. split; [set_solver|done].
    + destruct (li_taking x HI q Hq) as (? & ? & ? & ?). split_and!; [lia..|set_solver|done|done].
  - destruct Hu as [-> Hu]. destruct (lock_free true (ls_dir x)) eqn:Ef; [|by destruct x, HI].
    pose proof (lock_free_no_holder x HI Ef) as Hno. rewrite Hu, union_empty_r_L, Hno. split; cbn; intros q Hq; [set_solver|].
    apply elem_of_singleton in Hq as ->. done.
  - destruct (li_taking x HI pid Hc) as (Hp & Ha & Hno & Hone). rewrite Hno, Hone. unfold lock_write.
    destruct write_ok; split; cbn; intros q Hq; try set_solver.
    rewrite union_empty_r_L in Hq. apply elem_of_singleton in Hq as ->. split; [done|]. exact (parse_pid_text pid ltac:(lia)).
  - split; cbn; intros q Hq.
    + assert (Hq' : q ∈ ls_holders x) by set_solver. rewrite (lock_inv_single x pid q HI Hh Hq') in Hq. set_solver.
    + destruct (li_taking x HI q Hq) as (_ & _ & Hno & _). set_solver.
  - split; cbn; intros q Hq; apply elem_of_difference in Hq as [Hq Hn].
    + destruct (li_holder x HI q Hq) as [? ?]. split; [set_solver|done].
    + destruct (li_taking x HI q Hq) as (? & ? & Hno & Hone). rewrite Hno, Hone in *. split_and!; [lia..|set_solver|set_solver|set_solver].
Qed.

(** C23: At most one instance runs on a configuration directory, if attempts at
    the lock do not overlap and the pid file can be read: whatever processes
    start, check the lock, write it, give it back or end, at whatever point and
    in whatever order otherwise, no two live processes hold the lock, every
    attempt beside a holder fails, and every other process is told who it is. *)
Theorem single_instance_exclusive (alive : gset Z) (x : LockState) (p : Z) :
  rtc lock_moves_in_turn (lock_initial alive) x -> p ∈ ls_holders x ->
  p ∈ ld_alive (ls_dir x) /\ (forall q, q ∈ ls_holders x -> q = p) /\ ls_checked x = ∅ /\
  (forall q write_ok, (acquire q true write_ok (ls_dir x)).1 = false) /\
  (p <> 0 -> forall q, q <> p -> running_instance_pid q true (ls_dir x) = Some p).
Proof.
  intros Hr Hp. assert (HI : lock_inv x).
  { assert (H0 : lock_inv (lock_initial alive)) by (split; cbn; set_solver). revert H0. clear Hp.
    induction Hr as [|a b c (e & Hu & Hs) _ IH]; [done|]. intros H0. apply IH. by eapply lock_step_inv. }
  destruct (li_holder x HI p Hp) as [Ha Hf]. split_and!; [done| | | |].
  - intros q Hq. by apply (lock_inv_single x).
  - apply elem_of_equiv_empty_L. intros q Hq. destruct (li_taking x HI q Hq) as (_ & _ & Hno & _). set_solver.
  - intros q write_ok. unfold acquire, lock_free. replace (content ← ld_pid_file (ls_dir x); parse_pid (if true then content else [])) with (Some p).
    by rewrite (bool_decide_true (p ∈ _)).
  - intros Hp0 q Hq. unfold running_instance_pid. destruct (ld_pid_file (ls_dir x)) as [content|]; [|done]. cbn in Hf |- *.
    rewrite Hf. cbn. rewrite (proj2 (Z.eqb_neq p q)) by done. unfold is_process_alive.
    by rewrite (proj2 (Z.eqb_neq p 0)), (bool_decide_true (p ∈ _)) by done.
Qed.

(** Process 5 takes the lock: the check and the write. *)
Lemma lock_taken_run : rtc lock_moves_in_turn (lock_initial {[5; 6]})
  (mkLockState (mkLockDir (Some (pid_text 5)) {[5; 6]}) (({[5]} ∪ ∅) ∖ {[5]}) ({[5]} ∪ ∅)).
Proof.
  eapply rtc_l; [exists (LkCheck 5 true); split; [by split|apply lk_check; [done|set_solver|set_solver]]|].
  apply rtc_once. exists (LkWrite 5 true). split; [done|].
  refine (lk_write (mkLockState (mkLockDir None {[5; 6]}) ({[5]} ∪ ∅) ∅) 5 true _). set_solver.
Qed.

Lemma single_instance_exclusive_witness :
  let l := mkLockDir (Some (pid_text 5)) {[5; 6]} in
  (acquire 6 true true l).1 = false /\ running_instance_pid 6 true l = Some 5.
Proof.
  destruct (single_instance_exclusive {[5; 6]} _ 5 lock_taken_run) as (_ & _ & _ & Ha & Hr).
  - set_solver.
  - split; [apply Ha|apply Hr; discriminate].
Defined.

(** The check and the write are two operations: two processes that both check
    before either writes both get the lock. *)
Example lock_race : exists x, rtc lock_moves (lock_initial {[5; 6]}) x /\ ls_holders x = {[5; 6]}.
Proof.
  eexists. split; [|shelve].
  eapply rtc_l; [exists (LkCheck 5 true); apply lk_check; [done|set_solver|set_solver]|].
  eapply rtc_l; [exists (LkCheck 6 true); apply lk_check; [done|set_solver|set_solver]|].
  eapply rtc_l; [exists (LkWrite 5 true); apply (lk_write _ 5 true); set_solver|].
  eapply rtc_l; [exists (LkWrite 6 true); apply (lk_write _ 6 true); set_solver|]. apply rtc_refl.
  Unshelve. set_solver.
Qed.

(** A file that cannot be read does not protect its holder. *)
Example lock_unreadable : (acquire 6 false true (mkLockDir (Some (pid_text 5)) {[5; 6]})).1 = true.
Proof. vm_compute. reflexivity. Qed.

(** ** The command line *)

Inductive Commands :=
| CmdRun (listen device_name : str)
| CmdTui (listen device_name : str) (tray_pipe : option str)
| CmdInit
| CmdStatus (json : bool)
| CmdDevices
| CmdFolders (status : bool)
| CmdLogs (tail : nat)
| CmdInstallAutostart
| CmdUninstallAutostart
| CmdRelayServer (listen : str) (session_port : Z)
| CmdAuto.

Definition needs_lock (command : option Commands) : bool :=
  match command with
  | None => true
  | Some (CmdTui _ _ _ | CmdStatus _ | CmdDevices | CmdFolders _ | CmdLogs _ | CmdInstallAutostart | CmdUninstallAutostart
         | CmdRelayServer _ _) => false
  | Some (CmdRun _ _ | CmdInit | CmdAuto) => true
  end.

Definition CLI_DEFAULT_LISTEN : str := DEFAULT_LISTEN_ADDR.

(** Without a tray the automatic mode runs the daemon. *)
Definition effective_command (command : option Commands) : Commands :=
  match default CmdAuto command with
  | CmdAuto => CmdRun CLI_DEFAULT_LISTEN DEFAULT_DEVICE_NAME
  | other => other
  end.

(** What a run of the program comes to, without a tray. *)
Inductive ProgramOutcome :=
| RunRefused
| RunTui (listen device_name : str)
| RunCommand (c : Commands).

(** When the lock is taken a program without a command opens the user
    interface; with one it reports the error. *)
Definition run_program (command : option Commands) (acquired : bool) : ProgramOutcome :=
  if needs_lock command && negb acquired then
    match command with
    | None => RunTui CLI_DEFAULT_LISTEN DEFAULT_DEVICE_NAME
    | Some _ => RunRefused
    end
  else RunCommand (effective_command command).

(** The address of the relay server's protocol mode. *)
Definition relay_listen (listen : str) : option SocketAddr :=
  match parse_socket_addr listen with
  | Some a => Some a
  | None => parse_socket_addr ($"0.0.0.0:22067")
  end.

(** ** The configuration file *)

(** The file: absent, without a readable configuration, or with one. *)
Inductive ConfigFile := CfAbsent | CfBroken | CfConfig (c : Config).

Definition read_config_file (f : ConfigFile) : option Config := match f with CfConfig c => Some c | _ => None end.

(** Both [resolve_daemon_config] and [start_daemon] fall back to the default. *)
Definition config_or_default (f : ConfigFile) : Config := default config_new (read_config_file f).

(** [None] is a panic of the validation; in the user interface its error is only
    printed. *)
Definition resolve_daemon_config (unicode_alphanumeric : Z -> bool) (hex_decode : list Z -> option (list Z)) (env : PathEnv)
    (f : ConfigFile) (cli_listen cli_device_name : str) (skip_path_check : bool) : option (result ConfigProblem (str * str)) :=
  let config := config_or_default f in
  let chosen :=
    (if decide (cli_listen = CLI_DEFAULT_LISTEN) then cfg_listen_addr config else cli_listen,
     if decide (cli_device_name = $"syncthing-rust") then cfg_device_name config else cli_device_name) in
  if skip_path_check then
    let+ _ := validate_config_non_blocking unicode_alphanumeric hex_decode env config in Some (Ok chosen)
  else
    let+ r := validate_config unicode_alphanumeric hex_decode env config in
    Some (let? _ := r in Ok chosen).

(** ** The configuration of a daemon ([start_daemon]) *)

(** The generated keys: 32 characters, each a draw from 36. *)
Definition key_char (i : Z) : ascii := ascii_of_nat (Z.to_nat (if i <? 10 then 48 + i else 97 + i - 10)).

Definition generate_key (draws : nat -> Z) : str := (fun n => key_char (draws n)) <$> seq 0 32.

Definition OLD_GUI_ADDRESSES : list str := [$"0.0.0.0:8384"; $"127.0.0.1:8384"].

Definition set_gui (g : GuiConfig) (c : Config) : Config :=
  mkConfig (cfg_version c) (cfg_listen_addr c) (cfg_device_name c) (cfg_folders c) (cfg_devices c)
    (cfg_local_device_id c) g (cfg_options c).

Definition with_local_device (d : DeviceId) (c : Config) : Config :=
  mkConfig (cfg_version c) (cfg_listen_addr c) (cfg_device_name c) (cfg_folders c) (cfg_devices c)
    (Some d) (cfg_gui c) (cfg_options c).

Definition claim_device (d : DeviceId) (c : Config) : bool * Config :=
  if decide (cfg_local_device_id c = Some d) then (false, c) else (true, with_local_device d c).

Definition migrate_gui (c : Config) : bool * Config :=
  let g := cfg_gui c in
  if decide (gui_address g ∈ OLD_GUI_ADDRESSES)
  then (true, set_gui (mkGuiConfig (gui_enabled g) ($"0.0.0.0:8385") (gui_api_key g) (gui_ro_api_key g)) c)
  else (false, c).

Definition ensure_keys (admin ro : nat -> Z) (c : Config) : bool * Config :=
  let g := cfg_gui c in
  if decide (gui_api_key g = []) then
    (true, set_gui (mkGuiConfig (gui_enabled g) (gui_address g) (generate_key admin)
                      (if decide (gui_ro_api_key g = []) then generate_key ro else gui_ro_api_key g)) c)
  else (false, c).

(** Whether the configuration was modified, and the result. *)
Definition prepare_config (d : DeviceId) (admin ro : nat -> Z) (c : Config) : bool * Config :=
  let '(m1, c) := claim_device d c in
  let '(m2, c) := migrate_gui c in
  let '(m3, c) := ensure_keys admin ro c in
  (m1 || m2 || m3, c).

(** The file after the start and the configuration the daemon runs with: the
    options of the command line are not saved.  [save]: [None] when the file is
    written, else what a failed write leaves. *)
Definition daemon_config (d : DeviceId) (admin ro : nat -> Z) (save : option ConfigFile) (listen device_name : str) (f : ConfigFile)
    : ConfigFile * Config :=
  let '(modified, c) := prepare_config d admin ro (config_or_default f) in
  ((if modified then default (CfConfig c) save else f),
   mkConfig (cfg_version c) listen device_name (cfg_folders c) (cfg_devices c) (cfg_local_device_id c) (cfg_gui c) (cfg_options c)).

(** ** Transports *)

(** The transports the daemon can make: [ws_feature] as compiled, the proxy
    from the environment. *)
Record TransportSet := mkTransportSet {
  ts_tcp : Transport;
  ts_ws : option Transport;
  ts_derp : Transport;
  ts_proxy : option Transport;
}.

Definition add_scheme (ts : TransportSet) (r : TransportRegistry) (scheme : str) : TransportRegistry :=
  if decide (scheme = $"tcp") then tr_register (ts_tcp ts) r
  else if decide (scheme ∈ [$"websocket"; $"ws"])
  then match ts_ws ts with Some t => tr_register t r | None => r end
  else r.

Definition daemon_registry (ts : TransportSet) (schemes : list str) : TransportRegistry :=
  let r := foldl (add_scheme ts) [] schemes in
  let r := if decide (tr_schemes r = []) then tr_register (ts_tcp ts) r else r in
  let r := tr_register (ts_derp ts) r in
  match ts_proxy ts with Some t => tr_register t r | None => r end.

(** ** Peers and relays *)

Definition RELAY_HEALTH_CHECK_CAP : nat := 10.

(** The relays of the pool that pass both health checks; [None] is a panic. *)
Definition relay_pool_urls (unicode_alphanumeric : Z -> bool) (hex_decode : list Z -> option (list Z)) (enabled : bool)
    (pool : option (list str)) (reachable : SocketAddr -> bool) (tls_ok : bool) (joined : SocketAddr -> bool) : option (list str) :=
  if enabled then
    match pool with
    | None => Some []
    | Some urls =>
        let+ tcp_healthy := filter_healthy_relays unicode_alphanumeric hex_decode reachable urls in
        filter_healthy_relays_tls unicode_alphanumeric hex_decode tls_ok joined (take RELAY_HEALTH_CHECK_CAP tcp_healthy) 10
    end
  else Some [].

Definition device_tcp_addrs (dev : Device) : list SocketAddr :=
  omap (fun a => match a with Tcp s => parse_socket_addr s | _ => None end) (dev_addresses dev).

Definition device_relay_urls (dev : Device) : list str :=
  omap (fun a => match a with Connection.Relay s => Some s | _ => None end) (dev_addresses dev).

(** The peers that are dialed after the start. *)
Definition daemon_peers (self : DeviceId) (pool : list str) (devices : list Device) : list (DeviceId * list SocketAddr * list str) :=
  omap (fun dev =>
    let tcp_addrs := device_tcp_addrs dev in
    let relay_addrs := match device_relay_urls dev with [] => pool | rs => rs end in
    if negb (bool_decide (tcp_addrs = [])) || negb (bool_decide (relay_addrs = []))
    then Some (dev_id dev, tcp_addrs, relay_addrs) else None)
    (filter (fun dev => dev_id dev <> self) devices).

(** The first relay of each device. *)
Definition config_relay_urls (devices : list Device) : list str := omap (fun dev => head (device_relay_urls dev)) devices.

(** The dials two seconds later. *)
Definition auto_dial (peers : list (DeviceId * list SocketAddr * list str)) (m : Manager) : Manager :=
  foldl (fun m p => connect_to_with_relay p.1.1 p.1.2 p.2 m) m peers.

(** ** Lemmas *)

Lemma generate_key_length draws : length (generate_key draws) = 32%nat.
Proof. unfold generate_key. by rewrite length_fmap, length_seq. Qed.

Lemma generate_key_nonempty draws : generate_key draws <> [].
Proof. intros E. pose proof (generate_key_length draws) as Hl. by rewrite E in Hl. Qed.

(** A configuration that needs no preparation. *)
Definition settled_config (d : DeviceId) (c : Config) : Prop :=
  cfg_local_device_id c = Some d /\ gui_address (cfg_gui c) ∉ OLD_GUI_ADDRESSES /\ gui_api_key (cfg_gui c) <> [].

Lemma prepare_settled d admin ro c : settled_config d c <-> prepare_config d admin ro c = (false, c).
Proof.
  unfold settled_config, prepare_config, claim_device, migrate_gui, ensure_keys. split.
  - intros (Hd & Ha & Hk). rewrite decide_True by done. by rewrite decide_False, decide_False by done.
  - case_decide as Hd; [|by repeat case_decide]. case_decide as Ha; [by repeat case_decide|].
    case_decide as Hk; [done|]. done.
Qed.

(** What the preparation keeps. *)
Lemma prepare_config_keeps d admin ro c :
  let c' := (prepare_config d admin ro c).2 in
  settled_config d c' /\ cfg_folders c' = cfg_folders c /\ cfg_devices c' = cfg_devices c /\
  cfg_options c' = cfg_options c /\ cfg_version c' = cfg_version c /\
  cfg_listen_addr c' = cfg_listen_addr c /\ cfg_device_name c' = cfg_device_name c /\
  (gui_api_key (cfg_gui c) <> [] -> gui_api_key (cfg_gui c') = gui_api_key (cfg_gui c)).
Proof.
  intros c'. subst c'. unfold prepare_config, claim_device, migrate_gui, ensure_keys, settled_config.
  pose proof (generate_key_nonempty admin) as Hg.
  assert (Hnew : ($"0.0.0.0:8385") ∉ OLD_GUI_ADDRESSES) by (unfold OLD_GUI_ADDRESSES; set_solver).
  repeat case_decide; cbn in *; split_and!; try done; congruence.
Qed.

(** C24: The configuration settles: whatever the file holds, the daemon runs with
    its own device ID, a non-empty API key and a web address that is not the
    migrated one, with the folders, devices and options of the file; the listen
    address and device name of the command line stay out of the file; and once a
    start has saved, the next start of the device reads the same configuration
    and leaves the file alone. *)
Theorem daemon_config_settles (d : DeviceId) (admin ro : nat -> Z) (save : option ConfigFile) (listen device_name : str)
    (f f' : ConfigFile) (c : Config) :
  daemon_config d admin ro save listen device_name f = (f', c) ->
  settled_config d c /\ cfg_listen_addr c = listen /\ cfg_device_name c = device_name /\
  cfg_folders c = cfg_folders (config_or_default f) /\ cfg_devices c = cfg_devices (config_or_default f) /\
  cfg_options c = cfg_options (config_or_default f) /\
  (save = None ->
     cfg_listen_addr (config_or_default f') = cfg_listen_addr (config_or_default f) /\
     cfg_device_name (config_or_default f') = cfg_device_name (config_or_default f) /\
     forall admin2 ro2 save2 listen2 name2, exists c2, daemon_config d admin2 ro2 save2 listen2 name2 f' = (f', c2) /\
       cfg_gui c2 = cfg_gui c /\ cfg_folders c2 = cfg_folders c /\ cfg_devices c2 = cfg_devices c).
Proof.
  unfold daemon_config. destruct (prepare_config_keeps d admin ro (config_or_default f)) as (Hs & Hf & Hd & Ho & Hv & Hl & Hn & _).
  destruct (prepare_config d admin ro (config_or_default f)) as [modified c0] eqn:E. cbn [snd] in *. intros Eq. simplify_eq.
  split_and!; [exact Hs|done..|]. intros ->.
  assert (Hf' : config_or_default (if modified then default (CfConfig c0) None else f) = c0).
  { destruct modified; [done|]. unfold prepare_config, claim_device, migrate_gui, ensure_keys in E.
    repeat case_decide; by simplify_eq. }
  rewrite Hf'. split_and!; [done|done|]. intros admin2 ro2 save2 listen2 name2.
  rewrite (proj1 (prepare_settled d admin2 ro2 c0) Hs). by eexists.
Qed.

Lemma daemon_config_settles_witness :
  let r := daemon_config (toy_device 7) (fun _ => 3) (fun _ => 12) None ($"0.0.0.0:1") ($"x") CfAbsent in
  gui_api_key (cfg_gui r.2) <> [] /\ cfg_listen_addr (config_or_default r.1) = DEFAULT_LISTEN_ADDR.
Proof.
  destruct (daemon_config_settles (toy_device 7) (fun _ => 3) (fun _ => 12) None ($"0.0.0.0:1") ($"x") CfAbsent
    (daemon_config (toy_device 7) (fun _ => 3) (fun _ => 12) None ($"0.0.0.0:1") ($"x") CfAbsent).1
    (daemon_config (toy_device 7) (fun _ => 3) (fun _ => 12) None ($"0.0.0.0:1") ($"x") CfAbsent).2)
    as (Hs & _ & _ & _ & _ & _ & Hn).
  - apply surjective_pairing.
  - split; [apply Hs|]. destruct (Hn eq_refl) as [E _]. exact E.
Defined.

(** A broken file is replaced by the default configuration: its folders and
    devices are gone. *)
Example broken_config_replaced :
  exists c, (daemon_config (toy_device 7) (fun _ => 3) (fun _ => 12) None ($"0.0.0.0:1") ($"x") CfBroken).1 = CfConfig c /\
    cfg_folders c = [] /\ cfg_devices c = [].
Proof. eexists. split; [reflexivity|done]. Qed.

(** A listen address equal to the default cannot be chosen on the command line. *)
Example default_listen_not_chosen :
  let c := mkConfig 1 ($"0.0.0.0:9") ($"x") [] [] None gui_default options_default in
  resolve_daemon_config (fun _ => false) (fun _ => None) (mkPathEnv (fun _ => true) (fun _ => true)) (CfConfig c)
    CLI_DEFAULT_LISTEN ($"syncthing-rust") true = Some (Ok ($"0.0.0.0:9", $"x")).
Proof. vm_compute. reflexivity. Qed.

(** The transports: never empty, and the first, which all dials and the
    listener use, is the TCP or the WebSocket transport. *)
Lemma add_scheme_default ts schemes r :
  (forall t, head r = Some t -> t = ts_tcp ts \/ Some t = ts_ws ts) ->
  forall t, head (foldl (add_scheme ts) r schemes) = Some t -> t = ts_tcp ts \/ Some t = ts_ws ts.
Proof.
  revert r. induction schemes as [|s schemes IH]; intros r Hr t; [apply Hr|]. cbn [foldl]. apply IH.
  intros t'. unfold add_scheme, tr_register. repeat case_match; destruct r; cbn in *; try (by apply Hr);
    intros [= <-]; by (left + right).
Qed.

Lemma daemon_registry_default ts schemes :
  exists t, default_transport (daemon_registry ts schemes) = Some t /\ (t = ts_tcp ts \/ Some t = ts_ws ts).
Proof.
  unfold daemon_registry, default_transport.
  pose proof (add_scheme_default ts schemes [] (fun t H => ltac:(discriminate H))) as Hd.
  destruct (foldl (add_scheme ts) [] schemes) as [|t r] eqn:E.
  - exists (ts_tcp ts). split; [|by left]. by destruct (ts_proxy ts).
  - exists t. split; [|by apply Hd]. cbn. by destruct (ts_proxy ts).
Qed.

(** No dial of the daemon goes through the unchecked connector. *)
Lemma daemon_connectors_checked ts schemes :
  let n := set_transport_registry (daemon_registry ts schemes) manager_net_new in
  mn_connector n <> TcpBepConnector /\ map_Forall (fun _ k => k <> TcpBepConnector) (mn_connectors n).
Proof.
  intros n. destruct (daemon_registry_default ts schemes) as (t0 & Ht0 & _).
  destruct (set_transport_registry_connectors (daemon_registry ts schemes)) as [(t & _ & Hc) Hall].
  { intros E. by rewrite E in Ht0. }
  fold n in Hc, Hall. rewrite Hc. split; [done|]. intros s k Hk. by destruct (Hall s k Hk) as (t' & _ & ->).
Qed.

(** The peers that are dialed: not the device itself, each with an address to
    try. *)
Lemma daemon_peers_spec self pool devices d addrs relays :
  (d, addrs, relays) ∈ daemon_peers self pool devices ->
  d <> self /\ (addrs <> [] \/ relays <> []) /\ exists dev, dev ∈ devices /\ dev_id dev = d /\ addrs = device_tcp_addrs dev.
Proof.
  unfold daemon_peers. intros (dev & Hdev & E)%list_elem_of_omap. apply list_elem_of_filter in Hdev as [Hs Hdev]. cbv zeta in E.
  destruct (bool_decide_reflect (device_tcp_addrs dev = [])) as [Ha|Ha], (bool_decide_reflect
    (match device_relay_urls dev with [] => pool | rs => rs end = [])) as [Hr|Hr]; cbn in E; simplify_eq;
    (split; [done|]; split; [by (left + right)|]); exists dev; done.
Qed.
