(* ===== verification/Runtime.v ===== *)
(** * The running daemon ([cmd/syncthing/src/tui/daemon_runner.rs], second half;
    [tui/daemon_controller.rs]; the controllers of [main.rs])

    The handles of the sessions, kept by the callbacks of the connection manager
    and by the loop that watches over them; the reload of the configuration when
    its file changes; the shutdown; what starts and stops a daemon. *)

From S2P Require Import Prelude Core DeviceIds Connection Conflict Puller Manager Config Service Launch.

(** ** Sessions *)

(** A session task: it runs on a connection until that ends, then asks the
    manager to disconnect the device. *)
Inductive SessionTask := StRunning (d : DeviceId) (conn : option Uuid) | StFinished | StAborted.

(** The callbacks of the manager are run as tasks of their own, in any order. *)
Record DaemonState := mkDaemonState {
  da_manager : Manager;
  da_handles : gmap DeviceId nat;
  da_tasks : gmap nat SessionTask;
  da_next : nat;
  da_ticks : Z;
}.

Definition on_manager (f : Manager -> Manager) (s : DaemonState) : DaemonState :=
  mkDaemonState (f (da_manager s)) (da_handles s) (da_tasks s) (da_next s) (da_ticks s).
Definition on_handles (f : gmap DeviceId nat -> gmap DeviceId nat) (s : DaemonState) : DaemonState :=
  mkDaemonState (da_manager s) (f (da_handles s)) (da_tasks s) (da_next s) (da_ticks s).
Definition on_session_tasks (f : gmap nat SessionTask -> gmap nat SessionTask) (s : DaemonState) : DaemonState :=
  mkDaemonState (da_manager s) (da_handles s) (f (da_tasks s)) (da_next s) (da_ticks s).

(** [JoinHandle::abort]: a task that has finished is not changed. *)
Definition abort_task (t : nat) : DaemonState -> DaemonState :=
  on_session_tasks (alter (fun k => match k with StRunning _ _ => StAborted | k => k end) t).

Definition session_finished (s : DaemonState) (t : nat) : bool :=
  match da_tasks s !! t with Some (StRunning _ _) => false | _ => true end.

(** The task of [on_connected]: the old handle is aborted, the new session is
    spawned with the connection the manager has for the device now. *)
Definition run_on_connected (d : DeviceId) (s : DaemonState) : DaemonState :=
  let s := match da_handles s !! d with
           | Some old => abort_task old (on_handles (base.delete d) s)
           | None => s
           end in
  let t := da_next s in
  mkDaemonState (da_manager s) (<[d := t]> (da_handles s))
    (<[t := StRunning d (get_connection (da_manager s) d)]> (da_tasks s)) (S t) (da_ticks s).

(** The task of [on_disconnected]: the handle is dropped, which does not stop
    the session. *)
Definition run_on_disconnected (d : DeviceId) : DaemonState -> DaemonState := on_handles (base.delete d).

(** The end of a session. *)
Definition session_ends (t : nat) (s : DaemonState) : DaemonState :=
  match da_tasks s !! t with
  | Some (StRunning d _) =>
      on_session_tasks <[t := StFinished]> (on_manager (disconnect d ($"bep session ended")) s)
  | _ => s
  end.

(** A second of the loop: finished sessions are dropped; every sixtieth, the
    devices that have a connection and no session are reconnected. *)
Definition drop_finished (s : DaemonState) : DaemonState :=
  on_handles (filter (fun p : DeviceId * nat => session_finished s p.2 = false)) s.

Definition reconnect_orphans (s : DaemonState) : DaemonState :=
  foldl (fun s d => if bool_decide (is_Some (da_handles s !! d)) then s else on_manager (reconnect_device_by_id d) s)
    s (connected_devices (da_manager s)).

Definition daemon_tick (s : DaemonState) : DaemonState :=
  let s := mkDaemonState (da_manager s) (da_handles s) (da_tasks s) (da_next s) (wrap 64 (da_ticks s + 1)) in
  let s := drop_finished s in
  if da_ticks s mod 60 =? 0 then reconnect_orphans s else s.

(** The end of the loop, after the service was stopped. *)
Definition daemon_shutdown (s : DaemonState) : DaemonState :=
  let s := on_manager (disconnect_all ($"manager shutting down")) s in
  foldl (fun s t => abort_task t s) s (map_to_list (da_handles s)).*2.

(** The task that adapts the puller to the links, every thirty seconds. *)
Definition policy_tick (rtt : Z) : ConcurrencyPolicy := set_for_rtt rtt.

(** ** Reload of the configuration *)

Definition CONFIG_WATCH_DEBOUNCE_MS : Z := 500.

Definition WATCH_CAPACITY : nat := 10.

(** A version of the file: its modification time and its content. *)
Record ConfigVersion := mkConfigVersion { fv_mtime : Z; fv_content : ConfigFile }.

Definition fv_config (v : ConfigVersion) : option Config := read_config_file (fv_content v).

Definition fv_absent (v : ConfigVersion) : bool := match fv_content v with CfAbsent => true | _ => false end.

(** Where the task is: waiting for a change, or waiting out the debounce
    interval, in which changes are taken too ([false] after one that failed).
    Taking a change is three operations: the signal, the look at the file, the
    update of the cache; [outer] tells where it happens. *)
Inductive WatchPhase :=
| WpWait
| WpDebounce (enabled : bool)
| WpTaken (outer : bool)
| WpRead (outer : bool) (v : ConfigVersion).

Record Watch := mkWatch {
  wt_file : ConfigVersion;
  wt_signals : nat;
  wt_cache : option Config;
  wt_last_modified : option Z;
  wt_phase : WatchPhase;
  wt_applied : list Config;
}.

Inductive WatchEvent :=
| WeChange (v : ConfigVersion)
| WeTake
| WeLook
| WeStore
| WeDeadline (now : Z).

Definition set_watch_phase (p : WatchPhase) (w : Watch) : Watch :=
  mkWatch (wt_file w) (wt_signals w) (wt_cache w) (wt_last_modified w) p (wt_applied w).

(** What [next] returning leads to. *)
Definition next_done (outer ok : bool) : WatchPhase :=
  match ok, outer with
  | true, _ => WpDebounce true
  | false, true => WpWait
  | false, false => WpDebounce false
  end.

(** A write of the file signals, up to the capacity of the channel. *)
Definition signal (n : nat) : nat := (S n `min` WATCH_CAPACITY)%nat.

(** The store's [load] and [update_config]: the cache if there is one, else the
    file, which is created with the default when it is absent. *)
Definition apply_config (now : Z) (w : Watch) : Watch :=
  match wt_cache w, fv_content (wt_file w) with
  | Some c, _ => mkWatch (wt_file w) (wt_signals w) (Some c) (wt_last_modified w) WpWait (wt_applied w ++ [c])
  | None, CfConfig c => mkWatch (wt_file w) (wt_signals w) (Some c) (wt_last_modified w) WpWait (wt_applied w ++ [c])
  | None, CfAbsent =>
      mkWatch (mkConfigVersion now (CfConfig config_new)) (signal (wt_signals w)) (Some config_new) (wt_last_modified w) WpWait
        (wt_applied w ++ [config_new])
  | None, CfBroken => mkWatch (wt_file w) (wt_signals w) None (wt_last_modified w) WpWait (wt_applied w)
  end.

Definition watch_step (w : Watch) (e : WatchEvent) : Watch :=
  match e with
  | WeChange v =>
      mkWatch v (signal (wt_signals w)) (wt_cache w) (wt_last_modified w) (wt_phase w) (wt_applied w)
  | WeTake =>
      match wt_signals w, wt_phase w with
      | S n, WpWait => mkWatch (wt_file w) n (wt_cache w) (wt_last_modified w) (WpTaken true) (wt_applied w)
      | S n, WpDebounce true => mkWatch (wt_file w) n (wt_cache w) (wt_last_modified w) (WpTaken false) (wt_applied w)
      | _, _ => w
      end
  | WeLook =>
      match wt_phase w with
      | WpTaken outer =>
          if fv_absent (wt_file w) || bool_decide (wt_last_modified w = Some (fv_mtime (wt_file w)))
          then set_watch_phase (next_done outer true) w
          else set_watch_phase (WpRead outer (wt_file w)) w
      | _ => w
      end
  | WeStore =>
      match wt_phase w with
      | WpRead outer v =>
          match fv_config v with
          | Some c => mkWatch (wt_file w) (wt_signals w) (Some c) (Some (fv_mtime v)) (next_done outer true) (wt_applied w)
          | None => set_watch_phase (next_done outer false) w
          end
      | _ => w
      end
  | WeDeadline now =>
      match wt_phase w with
      | WpDebounce _ => apply_config now w
      | WpTaken false | WpRead false _ => apply_config now w
      | _ => w
      end
  end.

Definition watch_run (es : list WatchEvent) (w : Watch) : Watch := foldl watch_step w es.

Definition reload_start (v : ConfigVersion) : Watch := mkWatch v 0 None None WpWait [].

(** ** The reload follows the file *)

(** No deadline falls into the taking of a change, where it would cancel it;
    modification times grow. *)
Definition in_flight (p : WatchPhase) : bool :=
  match p with WpTaken false | WpRead false _ => true | _ => false end.

Definition uncut_event (w : Watch) (e : WatchEvent) : Prop :=
  match e with
  | WeDeadline now => in_flight (wt_phase w) = false /\ fv_mtime (wt_file w) < now
  | WeChange v => fv_mtime (wt_file w) < fv_mtime v
  | _ => True
  end.

Fixpoint uncut_run (w : Watch) (es : list WatchEvent) : Prop :=
  match es with
  | [] => True
  | e :: es' => uncut_event w e /\ uncut_run (watch_step w e) es'
  end.

(** Nothing is left to do. *)
Definition quiescent (w : Watch) : Prop := wt_phase w = WpWait /\ wt_signals w = 0%nat.

(** The configuration of the file, if it has one, satisfies [P]. *)
Definition current (w : Watch) (P : Config -> Prop) : Prop := forall c, fv_config (wt_file w) = Some c -> P c.

Record reload_inv (v0 : ConfigVersion) (w : Watch) : Prop := mkWatchInv {
  wi_modified : forall t, wt_last_modified w = Some t -> t <= fv_mtime (wt_file w);
  wi_cache : wt_last_modified w = Some (fv_mtime (wt_file w)) -> wt_cache w = fv_config (wt_file w);
  wi_read : forall outer v, wt_phase w = WpRead outer v ->
    fv_mtime v <= fv_mtime (wt_file w) /\ (fv_mtime v = fv_mtime (wt_file w) -> v = wt_file w) /\
    (wt_signals w = 0%nat -> v = wt_file w);
  wi_debounce : forall enabled, wt_phase w = WpDebounce enabled -> wt_signals w = 0%nat ->
    current w (fun c => wt_cache w = Some c);
  wi_wait : wt_phase w = WpWait -> wt_signals w = 0%nat ->
    (wt_file w = v0 /\ wt_applied w = []) \/ current w (fun c => last (wt_applied w) = Some c);
}.

Lemma reload_start_inv v0 : reload_inv v0 (reload_start v0).
Proof. split; try done. intros _ _. by left. Qed.

Lemma signal_pos n : signal n <> 0%nat.
Proof. unfold signal, WATCH_CAPACITY. lia. Qed.

Lemma apply_config_inv v0 now w enabled : reload_inv v0 w -> wt_phase w = WpDebounce enabled -> fv_mtime (wt_file w) < now ->
  reload_inv v0 (apply_config now w).
Proof.
  intros [Hm Hc Hr Hd Hw] Hp Hn. specialize (Hd enabled Hp). unfold apply_config. unfold fv_config, current in *.
  destruct (wt_cache w) as [c|] eqn:Ec; [|destruct (fv_content (wt_file w)) as [| |c] eqn:Ef]; split; cbn; try done.
  - intros _ Hs. right. intros c' Hcur. cbn in Hcur. specialize (Hd Hs c' Hcur). by rewrite last_snoc.
  - intros t Ht. specialize (Hm t Ht). lia.
  - intros _. unfold fv_config. by rewrite Ef.
  - intros _ _. right. intros c' Hcur. unfold fv_config in Hcur. cbn in Hcur. by rewrite Ef in Hcur.
  - intros _. unfold fv_config. by rewrite Ef.
  - intros _ _. right. intros c' Hcur. unfold fv_config in Hcur. cbn in Hcur. rewrite Ef in Hcur. cbn in Hcur.
    rewrite last_snoc. congruence.
Qed.

(** After [next] has returned with success. *)
Lemma next_ok_inv v0 w cache modified outer :
  (forall t, modified = Some t -> t <= fv_mtime (wt_file w)) ->
  (modified = Some (fv_mtime (wt_file w)) -> cache = fv_config (wt_file w)) ->
  (wt_signals w = 0%nat -> modified = Some (fv_mtime (wt_file w))) ->
  reload_inv v0 (mkWatch (wt_file w) (wt_signals w) cache modified (next_done outer true) (wt_applied w)).
Proof.
  intros Hm Hc Hs. split; cbn; try done.
  - intros enabled _ H0 c Hcur. cbn in Hcur |- *. rewrite (Hc (Hs H0)). exact Hcur.
Qed.

Lemma watch_step_inv v0 w e : reload_inv v0 w -> uncut_event w e -> reload_inv v0 (watch_step w e).
Proof.
  intros HI He. destruct (HI) as [Hm Hc Hr Hd Hw]. destruct e as [v| | | |now]; cbn [watch_step].
  - cbn in He. split; cbn.
    + intros t Ht. apply Hm in Ht. lia.
    + intros Ht. apply Hm in Ht. lia.
    + intros outer v' Hp. destruct (Hr outer v' Hp) as (H1 & _ & _). split; [lia|]. split; [lia|]. 
      intros H0. by apply signal_pos in H0.
    + intros enabled _ H0. by apply signal_pos in H0.
    + intros _ H0. by apply signal_pos in H0.
  - destruct (wt_signals w) as [|n]; [done|]. destruct (wt_phase w) as [|[]| |]; try done; by split.
  - destruct (wt_phase w) as [| |outer|] eqn:Ep; try done. destruct (fv_absent (wt_file w)) eqn:Ea; cbn [orb].
    { assert (Hn : fv_config (wt_file w) = None) by (unfold fv_absent, fv_config in *; by destruct (fv_content (wt_file w))).
      destruct outer; split; cbn; try done; intros ? _ _ c Hcur; unfold current in *; cbn in Hcur; congruence. }
    case_bool_decide as Ht.
    + destruct w as [f n cache modified ph app]; cbn in *. unfold set_watch_phase. cbn.
      apply (next_ok_inv v0 (mkWatch f n cache modified ph app) cache modified outer); cbn; done.
    + split; cbn; try done. intros o v' Hp. simplify_eq. done.
  - destruct (wt_phase w) as [| | |outer v] eqn:Ep; try done. destruct (Hr outer v eq_refl) as (H1 & H2 & H3).
    destruct (fv_config v) as [c|] eqn:Ec.
    + apply next_ok_inv.
      * intros t [= <-]. done.
      * intros [= Ht]. by rewrite <- (H2 Ht), Ec.
      * intros H0. by rewrite (H3 H0).
    + destruct outer; split; cbn; try done.
      * intros _ H0. right. intros c Hcur. cbn in Hcur. rewrite <- (H3 H0), Ec in Hcur. done.
      * intros en _ H0 c Hcur. cbn in Hcur. rewrite <- (H3 H0), Ec in Hcur. done.
  - destruct He as [Hf Hn]. destruct (wt_phase w) as [|enabled|[]|[] v] eqn:Ep; try done. by apply (apply_config_inv v0 now w enabled).
Qed.

Lemma watch_run_inv v0 es w : reload_inv v0 w -> uncut_run w es -> reload_inv v0 (watch_run es w).
Proof.
  revert w. induction es as [|e es IH]; intros w HI Hu; [done|]. destruct Hu as [He Hu]. cbn. apply IH; [|done].
  by apply watch_step_inv.
Qed.

Lemma uncut_run_app w es1 es2 : uncut_run w es1 -> uncut_run (watch_run es1 w) es2 -> uncut_run w (es1 ++ es2).
Proof. revert w. induction es1 as [|e es1 IH]; intros w H1 H2; [done|]. destruct H1 as [He H1]. cbn. split; [done|]. by apply IH. Qed.

(** The task's own steps. *)
Definition own (e : WatchEvent) : Prop := match e with WeChange _ => False | _ => True end.

(** What is left to do: the signals, and the one a created file would add. *)
Definition reload_work (w : Watch) : nat := (wt_signals w + match wt_cache w with None => 1 | Some _ => 0 end)%nat.

Lemma apply_config_work now w : wt_phase (apply_config now w) = WpWait /\ (reload_work (apply_config now w) <= reload_work w)%nat.
Proof.
  unfold reload_work, apply_config. destruct (wt_cache w) eqn:Ec; [|destruct (fv_content (wt_file w)) eqn:Ef]; cbn;
    rewrite ?Ec; split; try done; unfold signal; lia.
Qed.

(** A deadline after the interval has started leads back to waiting. *)
Definition expire (w : Watch) : WatchEvent := WeDeadline (fv_mtime (wt_file w) + 1).

Lemma settle_debounce w : wt_phase w = WpWait \/ (exists enabled, wt_phase w = WpDebounce enabled) ->
  uncut_run w [expire w] /\ wt_phase (watch_run [expire w] w) = WpWait /\ (reload_work (watch_run [expire w] w) <= reload_work w)%nat.
Proof.
  intros Hp. cbn. split.
  - destruct Hp as [Hp|[en Hp]]; rewrite Hp; split_and!; cbn; try done; lia.
  - destruct Hp as [Hp|[en Hp]]; rewrite Hp; [done|]. apply apply_config_work.
Qed.

Lemma settle_read w outer v : wt_phase w = WpRead outer v ->
  let w' := watch_step w WeStore in
  (wt_phase w' = WpWait \/ (exists enabled, wt_phase w' = WpDebounce enabled)) /\ (reload_work w' <= reload_work w)%nat.
Proof.
  intros Hp. cbn. rewrite Hp. unfold reload_work. destruct (fv_config v), outer; cbn; split; eauto; destruct (wt_cache w); lia.
Qed.

Lemma settle_once w : exists es, Forall own es /\ uncut_run w es /\
  wt_phase (watch_run es w) = WpWait /\ (reload_work (watch_run es w) <= reload_work w)%nat.
Proof.
  assert (Hread : forall w outer v, wt_phase w = WpRead outer v -> exists es, Forall own es /\ uncut_run w es /\
            wt_phase (watch_run es w) = WpWait /\ (reload_work (watch_run es w) <= reload_work w)%nat).
  { clear w. intros w outer v Hp. destruct (settle_read w outer v Hp) as [Hd Hw]. set (w1 := watch_step w WeStore) in *.
    destruct (settle_debounce w1 Hd) as (Hu & Hp1 & Hw1). exists [WeStore; expire w1].
    split_and!; [by repeat constructor|by split|exact Hp1|]. change (watch_run [WeStore; expire w1] w) with (watch_run [expire w1] w1). lia. }
  destruct (wt_phase w) as [|enabled|outer|outer v] eqn:Ep.
  - exists []. by split_and!.
  - destruct (settle_debounce w ltac:(eauto)) as (Hu & Hp1 & Hw1). exists [expire w]. split_and!; try done. by repeat constructor.
  - set (w1 := watch_step w WeLook).
    assert (E : w1 = set_watch_phase (WpDebounce true) w \/ w1 = set_watch_phase (WpRead outer (wt_file w)) w).
    { unfold w1. cbn. rewrite Ep. case_match; [left|right]; by destruct outer. }
    assert (Hk : reload_work w1 = reload_work w) by (by destruct E as [-> | ->]).
    destruct E as [E|E].
    + destruct (settle_debounce w1) as (Hu & Hp1 & Hw1); [rewrite E; eauto|]. exists [WeLook; expire w1].
      split_and!; [by repeat constructor|by split|exact Hp1|].
      change (watch_run [WeLook; expire w1] w) with (watch_run [expire w1] w1). lia.
    + destruct (Hread w1 outer (wt_file w)) as (es & Ho & Hu & Hp1 & Hw1); [by rewrite E|]. exists (WeLook :: es).
      split_and!; [by constructor|by split|exact Hp1|]. change (watch_run (WeLook :: es) w) with (watch_run es w1).
      lia.
  - by apply (Hread w outer v).
Qed.

Lemma watch_settles w : exists es, Forall own es /\ uncut_run w es /\ quiescent (watch_run es w).
Proof.
  assert (Hall : forall n w, (reload_work w <= n)%nat -> exists es, Forall own es /\ uncut_run w es /\ quiescent (watch_run es w)).
  { clear w. induction n as [|n IH]; intros w Hn; destruct (settle_once w) as (es & Ho & Hu & Hp & Hs).
    - exists es. split_and!; try done. split; [done|]. unfold reload_work in *. lia.
    - set (w1 := watch_run es w) in *. set (w2 := watch_step w1 WeTake).
      destruct (wt_signals w1) as [|k] eqn:Ek; [exists es; by split_and!|].
      assert (H2 : (reload_work w2 <= n)%nat).
      { unfold w2. cbn. rewrite Ek, Hp. unfold reload_work in *. cbn. rewrite Ek in Hs. lia. }
      destruct (IH w2 H2) as (es2 & Ho2 & Hu2 & Hq2). exists (es ++ WeTake :: es2). split_and!.
      + apply Forall_app. split; [done|]. by constructor.
      + apply uncut_run_app; [done|]. by split.
      + unfold watch_run. rewrite foldl_app. exact Hq2. }
  by apply (Hall (reload_work w)).
Qed.

(** A change of the file stays a change. *)
Lemma watch_run_mtime w es : uncut_run w es -> fv_mtime (wt_file w) <= fv_mtime (wt_file (watch_run es w)) /\
  ((exists v, WeChange v ∈ es) -> fv_mtime (wt_file w) < fv_mtime (wt_file (watch_run es w))).
Proof.
  revert w. induction es as [|e es IH]; intros w Hu; [split; [done|]; intros [v Hv]; by apply not_elem_of_nil in Hv|].
  destruct Hu as [He Hu]. cbn [watch_run foldl]. destruct (IH _ Hu) as [H1 H2].
  assert (H0 : fv_mtime (wt_file w) <= fv_mtime (wt_file (watch_step w e)) /\
               (forall v, e = WeChange v -> fv_mtime (wt_file w) < fv_mtime (wt_file (watch_step w e)))).
  { destruct e; cbn in *; (split; [|intros; simplify_eq; done]); unfold apply_config; repeat case_match; cbn; lia. }
  destruct H0 as [H0 H0']. unfold watch_run in *. split; [lia|]. intros [v [Hv|Hv]%elem_of_cons]; [specialize (H0' v (eq_sym Hv)); lia|].
  specialize (H2 (ex_intro _ v Hv)). lia.
Qed.

(** C25: The daemon ends up with the configuration of the file: however the file
    is changed (its modification time growing), and however the changes fall
    around the debounce interval (with no deadline in the middle of taking a
    change), the task can always come to
    rest by its own steps, and whenever it is at rest after a change, the last
    configuration it has applied is the one in the file, if the file has one. *)
Theorem config_reload_current (v0 : ConfigVersion) (es : list WatchEvent) :
  uncut_run (reload_start v0) es ->
  (exists es2, Forall own es2 /\ uncut_run (reload_start v0) (es ++ es2) /\
     quiescent (watch_run (es ++ es2) (reload_start v0))) /\
  ((exists v, WeChange v ∈ es) -> quiescent (watch_run es (reload_start v0)) ->
   current (watch_run es (reload_start v0)) (fun c => last (wt_applied (watch_run es (reload_start v0))) = Some c)).
Proof.
  intros Hu. split.
  - destruct (watch_settles (watch_run es (reload_start v0))) as (es2 & Ho & Hu2 & Hq). exists es2.
    split_and!; [done|by apply uncut_run_app|]. unfold watch_run in *. by rewrite foldl_app.
  - intros Hch [Hp Hs]. pose proof (watch_run_inv v0 es _ (reload_start_inv v0) Hu) as HI.
    destruct (wi_wait v0 _ HI Hp Hs) as [[Hf _]|Hcur]; [|exact Hcur].
    destruct (watch_run_mtime _ es Hu) as [_ Hm]. specialize (Hm Hch). rewrite Hf in Hm. cbn in Hm. lia.
Qed.

Definition config_version (t : Z) (name : str) : ConfigVersion :=
  mkConfigVersion t (CfConfig (mkConfig 1 [] name [] [] None gui_default options_default)).

Lemma config_reload_current_witness :
  let es := [WeChange (config_version 1 ($"a")); WeTake; WeLook; WeChange (config_version 2 ($"b")); WeStore; WeTake; WeLook; WeStore;
             WeDeadline 9] in
  last (wt_applied (watch_run es (reload_start (config_version 0 ($"o"))))) = fv_config (config_version 2 ($"b")).
Proof.
  destruct (config_reload_current (config_version 0 ($"o"))
    [WeChange (config_version 1 ($"a")); WeTake; WeLook; WeChange (config_version 2 ($"b")); WeStore; WeTake; WeLook; WeStore; WeDeadline 9])
    as [_ H2].
  - repeat split; reflexivity.
  - apply H2.
    + exists (config_version 1 ($"a")). apply elem_of_cons. left. reflexivity.
    + split; reflexivity.
    + reflexivity.
Defined.

(** A deadline that falls into the taking of a change cancels it: the signal
    is gone, the old configuration is applied again, and the task waits. *)
Example reload_lost :
  let es := [WeChange (config_version 1 ($"a")); WeTake; WeLook; WeStore; WeChange (config_version 2 ($"b")); WeTake; WeLook; WeDeadline 9] in
  let w := watch_run es (reload_start (config_version 0 ($"o"))) in
  quiescent w /\ fv_config (wt_file w) = fv_config (config_version 2 ($"b")) /\
  last (wt_applied w) = fv_config (config_version 1 ($"a")).
Proof. split_and!; [split|..]; reflexivity. Qed.

(** ** The loop leaves supervised sessions alone *)

(** Every connected device has a session that runs. *)
Definition supervised (s : DaemonState) : Prop :=
  forall d, d ∈ connected_devices (da_manager s) -> exists t, da_handles s !! d = Some t /\ session_finished s t = false.

Lemma drop_finished_lookup s d t : da_handles s !! d = Some t -> session_finished s t = false ->
  da_handles (drop_finished s) !! d = Some t.
Proof. intros Hd Hf. cbn. by apply map_lookup_filter_Some. Qed.

Lemma reconnect_orphans_none s l :
  (forall d, d ∈ l -> is_Some (da_handles s !! d)) ->
  foldl (fun s d => if bool_decide (is_Some (da_handles s !! d)) then s else on_manager (reconnect_device_by_id d) s) s l = s.
Proof.
  intros Hall. induction l as [|d l IH]; [done|]. cbn [foldl]. rewrite bool_decide_true by (apply Hall; by left).
  apply IH. intros d' Hd'. apply Hall. by right.
Qed.

Lemma supervised_untouched s : supervised s -> da_manager (daemon_tick s) = da_manager s /\ supervised (daemon_tick s).
Proof.
  intros Hs. unfold daemon_tick.
  set (s1 := mkDaemonState (da_manager s) (da_handles s) (da_tasks s) (da_next s) (wrap 64 (da_ticks s + 1))).
  assert (Hs1 : supervised s1) by exact Hs. assert (Hm : da_manager s1 = da_manager s) by done. clearbody s1.
  assert (Hs2 : supervised (drop_finished s1)).
  { intros d Hd. destruct (Hs1 d Hd) as (t & Ht & Hf). exists t. split; [by apply drop_finished_lookup|exact Hf]. }
  assert (Hr : reconnect_orphans (drop_finished s1) = drop_finished s1).
  { apply reconnect_orphans_none. intros d Hd. destruct (Hs2 d Hd) as (t & Ht & _). by eexists. }
  case_match; rewrite ?Hr; by split.
Qed.

(** A finished session's handle is gone after a second. *)
Lemma finished_dropped s d t : da_handles s !! d = Some t -> session_finished s t = true -> da_handles (drop_finished s) !! d = None.
Proof.
  intros Hd Hf. cbn. apply map_lookup_filter_None. right. intros t' Ht' Hn. cbn in Hn. simplify_eq. congruence.
Qed.

Module SessionExamples.
Definition peer_dev : DeviceId := mkDeviceId [7].
Definition self_dev : DeviceId := mkDeviceId [1].
Definition conn_of (t : ConnectionType) : Conn := mkConn t CsProtocolHandshakeComplete (Some peer_dev) None.

(** The peer is connected through connection 1 and its session runs. *)
Definition running : DaemonState :=
  run_on_connected peer_dev
    (mkDaemonState (register_connection peer_dev 1%positive
       (on_conns <[1%positive := conn_of Incoming]> (manager_new self_dev 10 60))) ∅ ∅ 0 59).

(** The peer connects again: connection 2 takes the place of connection 1. *)
Definition replaced : DaemonState :=
  on_manager (fun m => register_connection peer_dev 2%positive
    (on_conns <[2%positive := conn_of Incoming]> (begin_handshake peer_dev Incoming m).2)) running.
End SessionExamples.

(** The session of a replaced connection, when it ends before the callback for
    the new one has aborted it, disconnects the new connection. *)
Example old_session_ends_new_connection :
  get_connection (da_manager SessionExamples.replaced) SessionExamples.peer_dev = Some 2%positive /\
  get_connection (da_manager (session_ends 0 SessionExamples.replaced)) SessionExamples.peer_dev = None.
Proof. split; vm_compute; reflexivity. Qed.

(** The callbacks of a replacement run in any order: when the one for the old
    connection comes last, the handle of the new session is dropped, and the next
    sixtieth tick reconnects a device whose session runs. *)
Example late_callback_reconnects :
  let s := run_on_disconnected SessionExamples.peer_dev
             (run_on_connected SessionExamples.peer_dev SessionExamples.replaced) in
  get_connection (da_manager s) SessionExamples.peer_dev = Some 2%positive /\
  session_finished s 1 = false /\ da_handles s !! SessionExamples.peer_dev = None /\
  get_connection (da_manager (daemon_tick s)) SessionExamples.peer_dev = None.
Proof. split_and!; vm_compute; reflexivity. Qed.

(** ** Who starts and stops a daemon *)

(** [config.gui.address.rsplit(':').next()] *)
Definition api_port (address : str) : str := default [] (last (split_on ":"%char address)).

(** A health check: an HTTP status, or no answer in time. *)
Definition daemon_health_check (answer : option Z) : bool :=
  match answer with Some status => (200 <=? status) && (status <? 300) | None => false end.

(** The process of the pid file, else 0 for one that only answers. *)
Definition detect_external_daemon (running_pid : option Z) (answer : option Z) : option Z :=
  match running_pid with
  | Some pid => Some pid
  | None => if daemon_health_check answer then Some 0 else None
  end.

(** The user interface's own daemon: whether a shutdown sender is held and
    whether its task has ended. *)
Record TuiDaemon := mkTuiDaemon {
  td_external : bool;
  td_tray : bool;
  td_running : bool;
  td_shutdown_tx : bool;
  td_task : option bool;
}.

Inductive ToggleAction :=
| TaTray (start : bool)
| TaRefused
| TaStop
| TaBusy
| TaStarted
| TaStartFailed.

(** [started]: the outcome of [start_daemon]. *)
Definition toggle_daemon (started : bool) (a : TuiDaemon) : ToggleAction * TuiDaemon :=
  if td_external a && td_tray a then (TaTray (negb (td_running a)), a)
  else if td_external a then (TaRefused, a)
  else if td_shutdown_tx a then (TaStop, mkTuiDaemon (td_external a) (td_tray a) false false (td_task a))
  else match td_task a with
       | Some false => (TaBusy, a)
       | _ => if started then (TaStarted, mkTuiDaemon (td_external a) (td_tray a) true true (Some false)) else (TaStartFailed, a)
       end.

(** What the user interface is told of the events of its daemon. *)
Inductive TuiEvent :=
| TuiFolderStateChanged (folder : str) (status : FolderStatus)
| TuiDeviceConnected (device_id : DeviceId)
| TuiDeviceDisconnected (device_id : DeviceId)
| TuiSyncProgress (folder : str) (progress : f64).

Definition tui_event (e : SyncEvent) : option TuiEvent :=
  match e with
  | FolderStateChanged folder _ to_status => Some (TuiFolderStateChanged folder to_status)
  | DeviceConnected device => Some (TuiDeviceConnected device)
  | DeviceDisconnected device _ => Some (TuiDeviceDisconnected device)
  | DownloadProgress folder _ bytes_done bytes_total =>
      Some (TuiSyncProgress folder
        (if 0 <? bytes_total then f64_div (f64_of_usize bytes_done) (f64_of_usize bytes_total) else f64_of_usize 0))
  | _ => None
  end.

(** The task of a daemon that was told to stop ends. *)
Definition task_ends (a : TuiDaemon) : TuiDaemon :=
  match td_task a with
  | Some false => mkTuiDaemon (td_external a) (td_tray a) (td_running a) (td_shutdown_tx a) (Some true)
  | _ => a
  end.

(** The commands of the tray's controller; what it does with an instance. *)
Inductive DaemonCommand := DcStart | DcStop | DcExit.

Inductive ControllerAction := CaStarted | CaStopped.

Fixpoint daemon_controller (cmds : list (DaemonCommand * bool)) (instance : bool) : list ControllerAction :=
  match cmds with
  | [] => []
  | (DcStart, start_ok) :: rest =>
      if instance then daemon_controller rest true
      else if start_ok then CaStarted :: daemon_controller rest true else daemon_controller rest false
  | (DcStop, _) :: rest => if instance then CaStopped :: daemon_controller rest false else daemon_controller rest false
  | (DcExit, _) :: _ => if instance then [CaStopped] else []
  end.

(** The user interface never has two daemons: it starts one only when its last
    task has ended. *)
Lemma toggle_starts_alone started a a' : toggle_daemon started a = (TaStarted, a') ->
  td_external a = false /\ td_shutdown_tx a = false /\ td_task a <> Some false.
Proof. unfold toggle_daemon. repeat case_match; intros E; simplify_eq; try done; by destruct (td_external a), (td_tray a). Qed.

(** The controller starts and stops by turns: one instance at a time. *)
Fixpoint alternates (instance : bool) (l : list ControllerAction) : Prop :=
  match l with
  | [] => True
  | CaStarted :: l' => instance = false /\ alternates true l'
  | CaStopped :: l' => instance = true /\ alternates false l'
  end.

Lemma daemon_controller_alternates cmds instance : alternates instance (daemon_controller cmds instance).
Proof.
  revert instance. induction cmds as [|[[] ok] cmds IH]; intros []; cbn; try done; try apply IH;
    destruct ok; cbn; (apply IH || (split; [done|apply IH])).
Qed.
