(* ===== verification/Proxy.v ===== *)
(** * Proxies ([crates/syncthing-net/src/transport/proxy.rs])

    The proxy of the environment, and the two handshakes through which a tunnel
    is made: HTTP CONNECT and SOCKS5 (RFC 1928, without authentication).  A
    stream is what will arrive and what was written; [read_exact] waits for its
    bytes, [read] takes what one segment brings. *)

From S2P Require Import Prelude Core Net Wire Bep Config Relay Discovery Transport.

Inductive ProxyType := HttpConnect | Socks5.

Record ProxyAuth := mkProxyAuth { pa_username : str; pa_password : str }.

Record ProxyConfig := mkProxyConfig {
  proxy_type : ProxyType;
  proxy_addr : SocketAddr;
  proxy_auth : option ProxyAuth;
}.

Definition parse_proxy_url (t : ProxyType) (scheme url : str) : option ProxyConfig :=
  let addr_str := default url (strip_prefix scheme url) in
  let+ addr := parse_socket_addr addr_str in
  Some (mkProxyConfig t addr None).

Definition parse_socks_url (url : str) : option ProxyConfig := parse_proxy_url Socks5 ($"socks5://") url.

Definition parse_http_url (url : str) : option ProxyConfig := parse_proxy_url HttpConnect ($"http://") url.

(** The first of some variables of the environment. *)
Fixpoint first_var (env : str -> option str) (names : list str) : option str :=
  match names with
  | [] => None
  | n :: rest => match env n with Some v => Some v | None => first_var env rest end
  end.

Definition proxy_from_env (env : str -> option str) : option ProxyConfig :=
  let socks := first_var env [$"SOCKS5_PROXY"; $"socks5_proxy"; $"ALL_PROXY"; $"all_proxy"] in
  match socks ≫= parse_socks_url with
  | Some cfg => Some cfg
  | None => first_var env [$"HTTP_PROXY"; $"http_proxy"] ≫= parse_http_url
  end.

Definition proxy_scheme (c : ProxyConfig) : str :=
  match proxy_type c with HttpConnect => $"http-proxy" | Socks5 => $"socks5-proxy" end.

(** A stream to the proxy: the segments that will arrive, what was written. *)
Record ProxyStream := mkProxyStream { ps_inbound : list (list Z); ps_written : list Z }.

Abbreviation ProxyM A := (SE ProxyStream SyncthingError A).

Definition ps_write (bytes : list Z) : ProxyM unit :=
  fun s => (Ok tt, mkProxyStream (ps_inbound s) (ps_written s ++ bytes)).

(** [read(buf)] with [max] bytes of buffer: at most one segment; no bytes at the
    end of the stream. *)
Definition ps_read (max : nat) : ProxyM (list Z) :=
  fun s => match ps_inbound s with
           | [] => (Ok [], s)
           | seg :: rest =>
               (Ok (take max seg),
                mkProxyStream (match drop max seg with [] => rest | seg' => seg' :: rest end) (ps_written s))
           end.

(** The next [n] bytes of segments, and what is left. *)
Fixpoint take_segments (n : nat) (segs : list (list Z)) : option (list Z * list (list Z)) :=
  match n with
  | O => Some ([], segs)
  | S _ =>
      match segs with
      | [] => None
      | seg :: rest =>
          if (n <? length seg)%nat then Some (take n seg, drop n seg :: rest)
          else let+ r := take_segments (n - length seg) rest in Some (seg ++ r.1, r.2)
      end
  end.

Definition ps_read_exact (n : nat) : ProxyM (list Z) :=
  fun s => match take_segments n (ps_inbound s) with
           | Some (bytes, rest) => (Ok bytes, mkProxyStream rest (ps_written s))
           | None => (Err EConnection, s)
           end.

(** ** HTTP CONNECT *)

Definition crlf : str := ["013"; "010"]%char.

Definition connect_request (target : SocketAddr) : str :=
  $"CONNECT " ++ display_socket_addr target ++ $" HTTP/1.1" ++ crlf ++ $"Host: " ++ display_socket_addr target ++ crlf ++ crlf.

Definition http_connect_handshake (target : SocketAddr) : ProxyM unit :=
  do! ps_write (bytes_of_str (connect_request target)) in
  let! buf := ps_read 1024 in
  let response := from_utf8_lossy (str_of_bytes buf) in
  if starts_with ($"HTTP/1.1 200") response || starts_with ($"HTTP/1.0 200") response then se_ret tt
  else se_throw EConnection.

(** ** SOCKS5 *)

(** [u16::to_be_bytes], and the octets of an address. *)
Definition ip_octets (ip : IpAddr) : list Z :=
  match ip with
  | V4 os => os
  | V6 ss => concat (be_split 2 <$> ss)
  end.

Definition socks5_request (target : SocketAddr) : list Z :=
  [0x05; 0x01; 0x00] ++ [match sa_ip target with V4 _ => 0x01 | V6 _ => 0x04 end] ++
  ip_octets (sa_ip target) ++ be_split 2 (sa_port target).

(** The bound address of the reply, which is discarded. *)
Definition read_bound (atyp : Z) : ProxyM unit :=
  if atyp =? 0x01 then do! ps_read_exact 6 in se_ret tt
  else if atyp =? 0x03 then
    let! len_buf := ps_read_exact 1 in
    do! ps_read_exact (Z.to_nat (nth 0 len_buf 0) + 2) in se_ret tt
  else if atyp =? 0x04 then do! ps_read_exact 18 in se_ret tt
  else se_throw EConnection.

Definition socks5_handshake (target : SocketAddr) : ProxyM unit :=
  do! ps_write [0x05; 0x01; 0x00] in
  let! auth_response := ps_read_exact 2 in
  if negb (nth 0 auth_response 0 =? 0x05) then se_throw EConnection
  else if negb (nth 1 auth_response 0 =? 0x00) then se_throw EConnection
  else
    do! ps_write (socks5_request target) in
    let! response_header := ps_read_exact 4 in
    if negb (nth 0 response_header 0 =? 0x05) then se_throw EConnection
    else if negb (nth 1 response_header 0 =? 0x00) then se_throw EConnection
    else read_bound (nth 3 response_header 0).

(** ** Dialing *)

(** [connected]: the stream to the proxy.  The pipe's peer address is the
    target's. *)
Definition proxy_dial (c : ProxyConfig) (connected : option ProxyStream) (target : SocketAddr)
    : result SyncthingError (ProxyStream * SocketAddr) :=
  match connected with
  | None => Err EConnection
  | Some s =>
      match (match proxy_type c with HttpConnect => http_connect_handshake | Socks5 => socks5_handshake end) target s with
      | (Ok _, s) => Ok (s, target)
      | (Err e, _) => Err e
      end
  end.

Definition proxied_transport (c : ProxyConfig) : Transport := mkTransport (proxy_scheme c) (fun _ => Err EConfig).

(** ** Lemmas *)

Lemma take_bytes_spec n segs :
  match take_segments n segs with
  | Some (bytes, rest) => bytes = take n (concat segs) /\ concat rest = drop n (concat segs) /\ (n <= length (concat segs))%nat
  | None => (length (concat segs) < n)%nat
  end.
Proof.
  revert n. induction segs as [|seg segs IH]; intros [|n]; cbn [take_segments concat].
  - by rewrite take_0.
  - cbn. lia.
  - rewrite take_0, drop_0. split_and!; try done. lia.
  - destruct (Nat.ltb_spec (S n) (length seg)) as [Hl|Hl].
    + rewrite take_app_le, drop_app_le, length_app by lia. cbn [concat]. split_and!; [done|done|lia].
    + specialize (IH (S n - length seg)%nat). destruct (take_segments (S n - length seg) segs) as [[b r]|]; cbn [mbind option_bind fst snd].
      * destruct IH as (-> & -> & Hl2). rewrite take_app_ge, drop_app_ge, length_app by lia. split_and!; [done|done|lia].
      * rewrite length_app. lia.
Qed.

(** Reading is a matter of the bytes, not of the segments they come in. *)
Lemma ps_read_exact_ok n (s : ProxyStream) bytes rest :
  concat (ps_inbound s) = bytes ++ rest -> length bytes = n ->
  exists segs, ps_read_exact n s = (Ok bytes, mkProxyStream segs (ps_written s)) /\ concat segs = rest.
Proof.
  intros E Hl. unfold ps_read_exact. pose proof (take_bytes_spec n (ps_inbound s)) as Hs. rewrite E in Hs.
  destruct (take_segments n (ps_inbound s)) as [[b r]|].
  - destruct Hs as (-> & Hr & _). exists r. rewrite take_app_le, take_ge by lia. split; [done|].
    by rewrite Hr, drop_app_ge, Hl, Nat.sub_diag, drop_0 by lia.
  - rewrite length_app in Hs. lia.
Qed.

Lemma ps_read_exact_inv n (s s' : ProxyStream) bytes :
  ps_read_exact n s = (Ok bytes, s') ->
  concat (ps_inbound s) = bytes ++ concat (ps_inbound s') /\ length bytes = n /\ ps_written s' = ps_written s.
Proof.
  unfold ps_read_exact. pose proof (take_bytes_spec n (ps_inbound s)) as Hs.
  destruct (take_segments n (ps_inbound s)) as [[b r]|]; [|done]. intros E. simplify_eq. destruct Hs as (-> & Hr & Hl). cbn.
  rewrite Hr, take_drop. split_and!; [done| |done]. rewrite length_take. lia.
Qed.

(** A bound address as a reply carries it. *)
Inductive bound_bytes : Z -> list Z -> Prop :=
| bound_v4 b : length b = 6%nat -> bound_bytes 0x01 b
| bound_domain n b : length b = (Z.to_nat n + 2)%nat -> bound_bytes 0x03 (n :: b)
| bound_v6 b : length b = 18%nat -> bound_bytes 0x04 b.

Lemma read_bound_ok atyp b (s : ProxyStream) rest :
  bound_bytes atyp b -> concat (ps_inbound s) = b ++ rest ->
  exists segs, read_bound atyp s = (Ok tt, mkProxyStream segs (ps_written s)) /\ concat segs = rest.
Proof.
  intros Hb E. unfold read_bound. destruct Hb as [b Hl|n b Hl|b Hl]; cbn [Z.eqb Pos.eqb].
  - destruct (ps_read_exact_ok 6 s b rest E Hl) as (segs & Er & Hs). exists segs. by rewrite (se_bind_run _ _ _ _ _ Er).
  - destruct (ps_read_exact_ok 1 s [n] (b ++ rest) E eq_refl) as (segs & Er & Hs). rewrite (se_bind_run _ _ _ _ _ Er). cbn [nth].
    destruct (ps_read_exact_ok _ (mkProxyStream segs (ps_written s)) b rest Hs Hl) as (segs2 & Er2 & Hs2). exists segs2.
    by rewrite (se_bind_run _ _ _ _ _ Er2).
  - destruct (ps_read_exact_ok 18 s b rest E Hl) as (segs & Er & Hs). exists segs. by rewrite (se_bind_run _ _ _ _ _ Er).
Qed.

Lemma read_bound_inv atyp (s s' : ProxyStream) :
  read_bound atyp s = (Ok tt, s') ->
  exists b, bound_bytes atyp b /\ concat (ps_inbound s) = b ++ concat (ps_inbound s') /\ ps_written s' = ps_written s.
Proof.
  unfold read_bound. destruct (Z.eqb_spec atyp 0x01) as [->|]; [|destruct (Z.eqb_spec atyp 0x03) as [->|]; [|
    destruct (Z.eqb_spec atyp 0x04) as [->|]; [|done]]].
  - intros E. apply se_bind_Ok in E as (b & s1 & E1 & [= <-]). apply ps_read_exact_inv in E1 as (Hc & Hl & Hw). exists b.
    split_and!; [by constructor|done|done].
  - intros E. apply se_bind_Ok in E as (lb & s1 & E1 & E). apply se_bind_Ok in E as (b & s2 & E2 & [= <-]).
    apply ps_read_exact_inv in E1 as (Hc & Hl & Hw). apply ps_read_exact_inv in E2 as (Hc2 & Hl2 & Hw2).
    destruct lb as [|m [|]]; [done| |done]. exists (m :: b). split_and!; [by constructor| |congruence]. rewrite Hc, Hc2. done.
  - intros E. apply se_bind_Ok in E as (b & s1 & E1 & [= <-]). apply ps_read_exact_inv in E1 as (Hc & Hl & Hw). exists b.
    split_and!; [by constructor|done|done].
Qed.

(** The replies to which the handshake succeeds. *)
Definition socks5_reply (reply : list Z) : Prop :=
  exists rsv atyp b, reply = [0x05; 0x00] ++ [0x05; 0x00; rsv; atyp] ++ b /\ bound_bytes atyp b.

Lemma socks5_handshake_ok target segs reply rest :
  socks5_reply reply -> concat segs = reply ++ rest ->
  exists segs', socks5_handshake target (mkProxyStream segs []) =
      (Ok tt, mkProxyStream segs' ([0x05; 0x01; 0x00] ++ socks5_request target)) /\ concat segs' = rest.
Proof.
  intros (rsv & atyp & b & -> & Hb) E. unfold socks5_handshake. set (s0 := mkProxyStream segs []).
  rewrite (se_bind_run _ _ s0 tt (mkProxyStream segs [0x05; 0x01; 0x00])) by done.
  destruct (ps_read_exact_ok 2 (mkProxyStream segs [0x05; 0x01; 0x00]) [0x05; 0x00] ([0x05; 0x00; rsv; atyp] ++ b ++ rest))
    as (segs1 & E1 & H1); [cbn; by rewrite E, <- !app_assoc|done|].
  rewrite (se_bind_run _ _ _ _ _ E1). cbn [nth Z.eqb Pos.eqb negb ps_written].
  set (s1 := mkProxyStream segs1 _). rewrite (se_bind_run _ _ s1 tt (mkProxyStream segs1 ([0x05; 0x01; 0x00] ++ socks5_request target))) by done.
  destruct (ps_read_exact_ok 4 (mkProxyStream segs1 ([0x05; 0x01; 0x00] ++ socks5_request target)) [0x05; 0x00; rsv; atyp] (b ++ rest))
    as (segs2 & E2 & H2); [exact H1|done|].
  rewrite (se_bind_run _ _ _ _ _ E2). cbn [nth Z.eqb Pos.eqb negb ps_written].
  by apply (read_bound_ok atyp b (mkProxyStream segs2 _) rest Hb).
Qed.

Lemma socks5_handshake_inv target segs s' :
  socks5_handshake target (mkProxyStream segs []) = (Ok tt, s') ->
  exists reply, socks5_reply reply /\ concat segs = reply ++ concat (ps_inbound s').
Proof.
  intros E. unfold socks5_handshake in E. apply se_bind_Ok in E as ([] & s0 & [= <-] & E).
  apply se_bind_Ok in E as (auth & s1 & E1 & E). apply ps_read_exact_inv in E1 as (H1 & L1 & _).
  destruct auth as [|a0 [|a1 [|]]]; [done|done| |done]. cbn [nth] in E.
  destruct (Z.eqb_spec a0 0x05) as [->|]; [|done]. destruct (Z.eqb_spec a1 0x00) as [->|]; [|done]. cbn [negb] in E.
  apply se_bind_Ok in E as ([] & s2 & [= <-] & E). apply se_bind_Ok in E as (hd & s3 & E3 & E).
  apply ps_read_exact_inv in E3 as (H3 & L3 & _). destruct hd as [|h0 [|h1 [|h2 [|h3 [|]]]]]; try done. cbn [nth] in E.
  destruct (Z.eqb_spec h0 0x05) as [->|]; [|done]. destruct (Z.eqb_spec h1 0x00) as [->|]; [|done]. cbn [negb] in E.
  apply read_bound_inv in E as (b & Hb & H4 & _). exists ([0x05; 0x00] ++ [0x05; 0x00; h2; h3] ++ b). split; [by exists h2, h3, b|].
  cbn in H1, H3. rewrite H1, H3, H4. done.
Qed.

(** A proxy reads the target from the request. *)
Lemma be_split_2_inj a b : in_u 16 a -> in_u 16 b -> be_split 2 a = be_split 2 b -> a = b.
Proof. intros Ha Hb E. by apply (be_split_inj 2). Qed.

Lemma length_segments ss : length (concat (be_split 2 <$> ss)) = (2 * length ss)%nat.
Proof. induction ss as [|a ss IH]; [done|]. cbn [fmap list_fmap concat]. rewrite length_app, length_be_split, IH. cbn. lia. Qed.

Lemma segments_inj ss1 ss2 : Forall (in_u 16) ss1 -> Forall (in_u 16) ss2 -> length ss1 = length ss2 ->
  concat (be_split 2 <$> ss1) = concat (be_split 2 <$> ss2) -> ss1 = ss2.
Proof.
  intros H1. revert ss2. induction H1 as [|a ss1 Ha _ IH]; intros [|b ss2] H2 Hl E; try done. inversion H2; subst.
  cbn [fmap list_fmap concat] in E. apply app_inj_1 in E as [Ea E]; [|by rewrite !length_be_split].
  f_equal; [by apply be_split_2_inj|]. apply IH; [done|by injection Hl|done].
Qed.

(** An address as it is on the wire. *)
Definition target_ok (a : SocketAddr) : Prop := ip_ok (sa_ip a) /\ in_u 16 (sa_port a).

Lemma socks5_request_inj t1 t2 : target_ok t1 -> target_ok t2 -> socks5_request t1 = socks5_request t2 -> t1 = t2.
Proof.
  destruct t1 as [[o1|s1] p1], t2 as [[o2|s2] p2]; unfold socks5_request; cbn [sa_ip sa_port ip_octets app];
    intros [W1 P1] [W2 P2] E; injection E as E; try done; destruct W1 as [L1 F1], W2 as [L2 F2]; cbn in P1, P2.
  - apply app_inj_1 in E as [-> E]; [|congruence]. by rewrite (be_split_2_inj _ _ P1 P2 E).
  - apply app_inj_1 in E as [Es E]; [|rewrite !length_segments; lia].
    rewrite (segments_inj s1 s2) by (done || congruence). by rewrite (be_split_2_inj _ _ P1 P2 E).
Qed.

(** C29: A SOCKS5 tunnel carries exactly the peer's bytes: however the proxy's
    bytes are cut into segments, the handshake succeeds if and only if they begin
    with a reply that accepts the method and the connection and gives a bound
    address of a known type, it writes the greeting and the request, from which
    the target can be told, and every byte after the reply is left for the
    connection. *)
Theorem socks5_tunnel_transparent (target : SocketAddr) (segs : list (list Z)) :
  (forall reply rest, socks5_reply reply -> concat segs = reply ++ rest ->
     exists segs', proxy_dial (mkProxyConfig Socks5 target None) (Some (mkProxyStream segs [])) target =
         Ok (mkProxyStream segs' ([0x05; 0x01; 0x00] ++ socks5_request target), target) /\ concat segs' = rest) /\
  (forall s' peer, proxy_dial (mkProxyConfig Socks5 target None) (Some (mkProxyStream segs [])) target = Ok (s', peer) ->
     peer = target /\ exists reply, socks5_reply reply /\ concat segs = reply ++ concat (ps_inbound s')) /\
  (target_ok target -> forall target', target_ok target' -> socks5_request target' = socks5_request target -> target' = target).
Proof.
  unfold proxy_dial. cbn [proxy_type]. split_and!.
  - intros reply rest Hr E. destruct (socks5_handshake_ok target segs reply rest Hr E) as (segs' & -> & Hs). by exists segs'.
  - intros s' peer. destruct (socks5_handshake target (mkProxyStream segs [])) as [[[]|e] s1] eqn:E; [|done]. intros [= <- <-].
    split; [done|]. by apply (socks5_handshake_inv target).
  - intros Hw target' Hw' E. by apply socks5_request_inj.
Qed.

(** The HTTP handshake reads once: what one segment of up to 1024 bytes holds
    is all it sees, and all it sees is gone. *)
Lemma http_connect_reads_once target seg rest w :
  (length seg <= 1024)%nat ->
  http_connect_handshake target (mkProxyStream (seg :: rest) w) =
    ((if starts_with ($"HTTP/1.1 200") (from_utf8_lossy (str_of_bytes seg)) ||
         starts_with ($"HTTP/1.0 200") (from_utf8_lossy (str_of_bytes seg)) then Ok tt else Err EConnection),
     mkProxyStream rest (w ++ bytes_of_str (connect_request target))).
Proof.
  intros Hl. unfold http_connect_handshake, se_bind, ps_write, ps_read. cbn [ps_inbound ps_written].
  rewrite take_ge, drop_ge by lia. by case_match.
Qed.

Definition proxy_target : SocketAddr := mkSocketAddr (V4 [10; 0; 0; 1]) 22000.

(** Bytes of the peer that come with the response are lost; a response in two
    segments is taken for a refusal. *)
Example http_connect_loses_bytes :
  let ok := bytes_of_str ($"HTTP/1.1 200 OK" ++ crlf ++ crlf) in
  (http_connect_handshake proxy_target (mkProxyStream [ok ++ [1; 2; 3]] [])).1 = Ok tt /\
  ps_inbound (http_connect_handshake proxy_target (mkProxyStream [ok ++ [1; 2; 3]] [])).2 = [] /\
  (http_connect_handshake proxy_target (mkProxyStream [take 8 ok; drop 8 ok] [])).1 = Err EConnection.
Proof. split_and!; vm_compute; reflexivity. Qed.

(** A variable that does not parse hides the ones after it; a host name does
    not parse. *)
Example socks_variable_hides :
  proxy_from_env (fun n => if decide (n = $"SOCKS5_PROXY") then Some ($"proxy.local:1080")
                           else if decide (n = $"ALL_PROXY") then Some ($"socks5://10.0.0.9:1080") else None) = None.
Proof. vm_compute. reflexivity. Qed.

Lemma socks5_tunnel_transparent_witness :
  exists segs', proxy_dial (mkProxyConfig Socks5 proxy_target None)
      (Some (mkProxyStream [[5]; [0; 5; 0; 0; 1; 9]; [9; 9; 9; 1; 2; 77]; [78]] [])) proxy_target =
    Ok (mkProxyStream segs' ([5; 1; 0] ++ [5; 1; 0; 1; 10; 0; 0; 1; 85; 240]), proxy_target) /\ concat segs' = [77; 78].
Proof.
  destruct (socks5_tunnel_transparent proxy_target [[5]; [0; 5; 0; 0; 1; 9]; [9; 9; 9; 1; 2; 77]; [78]]) as [Hok _].
  apply (Hok ([5; 0] ++ [5; 0; 0; 1] ++ [9; 9; 9; 9; 1; 2]) [77; 78]).
  - exists 0, 1, [9; 9; 9; 9; 1; 2]. split; [reflexivity|]. constructor. reflexivity.
  - reflexivity.
Defined.
