(* ===== verification/Tui.v ===== *)
(** * The terminal interface ([cmd/syncthing/src/tui/])

    The configuration editor: tabs, filtered lists, forms, the confirmation
    dialog and the log view ([app.rs], [events/], [forms/]), the events it takes
    from its daemon and the log buffer it reads ([runner.rs],
    [logging_buffer.rs], [log_loader.rs]).  Drawing is left out, and with it
    labels, hints and sizes.  [None] is a panic.  What the terminal, the
    clipboard and the disk answer to a key press is part of the press. *)

From S2P Require Import Prelude Core DeviceIds Connection Bep Conflict Wire Relay Ignore Config Discovery Service Launch Runtime.

(** ** Keys *)

Inductive KeyCode :=
| KcChar (c : Z)
| KcEnter | KcEsc | KcBackspace | KcTab | KcBackTab | KcUp | KcDown | KcLeft | KcRight
| KcInsert | KcDelete | KcHome | KcEnd | KcPageUp | KcPageDown
| KcF (n : Z)
| KcOther.

#[global] Instance KeyCode_eq_dec : EqDecision KeyCode.
Proof. solve_decision. Defined.

(** A key event with what its handler may ask for: the text of the clipboard,
    the rows of the terminal, the error of a save, whether an ignore file exists. *)
Record KeyEvent := mkKeyEvent {
  ke_code : KeyCode;
  ke_press : bool;
  ke_control : bool;
  ke_shift : bool;
  ke_clipboard : option str;
  ke_rows : option Z;
  ke_save_error : option str;
  ke_ignore_exists : bool;
}.

Definition ch (c : ascii) : Z := byte_of c.

Definition pressed (k : KeyEvent) (c : ascii) : bool := bool_decide (ke_code k = KcChar (ch c)).

(** ** Strings as they are typed *)

Definition char_utf8 (c : Z) : str :=
  str_of_bytes
    (if c <? 0x80 then [c]
     else if c <? 0x800 then [0xC0 + c / 64; 0x80 + c mod 64]
     else if c <? 0x10000 then [0xE0 + c / 4096; 0x80 + (c / 64) mod 64; 0x80 + c mod 64]
     else [0xF0 + c / 262144; 0x80 + (c / 4096) mod 64; 0x80 + (c / 64) mod 64; 0x80 + c mod 64]).

(** [String::pop] of a UTF-8 text: the last byte that is no continuation, and
    the continuations after it. *)
Definition continuation (c : ascii) : bool := (0x80 <=? byte_of c) && (byte_of c <? 0xC0).

Fixpoint drop_char (rev_s : str) : str :=
  match rev_s with
  | [] => []
  | c :: s' => if continuation c then drop_char s' else s'
  end.

Definition pop_char (s : str) : str := reverse (drop_char (reverse s)).

Definition is_ascii_alphanumeric (c : ascii) : bool :=
  let n := byte_of c in ((48 <=? n) && (n <=? 57)) || ((65 <=? n) && (n <=? 90)) || ((97 <=? n) && (n <=? 122)).

(** ** Forms ([forms/mod.rs], [forms/handler.rs]) *)

Record FormField := mkFormField { ff_name : str; ff_value : str; ff_editable : bool }.

Inductive FormError := FeValidation (e : SyncthingError) | FeDeviceId (e : DeviceIdError).

Record FormState := mkFormState { fo_fields : list FormField; fo_focus : nat; fo_error : option FormError }.

Inductive FormAction := FaContinue | FaSubmit | FaCancel.

Definition form_new : FormState := mkFormState [] 0 None.

Definition add_field (name value : str) (editable : bool) (f : FormState) : FormState :=
  mkFormState (fo_fields f ++ [mkFormField name value editable]) (fo_focus f) (fo_error f).

Definition form_value (name : str) (f : FormState) : option str :=
  ff_value <$> List.find (fun x => bool_decide (ff_name x = name)) (fo_fields f).

Definition set_error (e : FormError) (f : FormState) : FormState := mkFormState (fo_fields f) (fo_focus f) (Some e).

Definition set_focus (n : nat) (f : FormState) : FormState := mkFormState (fo_fields f) n (fo_error f).

Definition focused_field_name (f : FormState) : option str := ff_name <$> fo_fields f !! fo_focus f.

Definition format_device_id (input : str) : str :=
  join ($"-") (take 8 (chunks 7 (filter is_ascii_alphanumeric input))).

Definition DEVICE_ID_FIELD : str := $"device_id".

(** The focused field, if it may be edited. *)
Definition edit_focused (g : str -> str) (f : FormState) : FormState :=
  mkFormState (alter (fun x => if ff_editable x then mkFormField (ff_name x) (g (ff_value x)) true else x) (fo_focus f) (fo_fields f))
    (fo_focus f) (fo_error f).

Definition append_char (c : Z) (f : FormState) : FormState :=
  if decide (focused_field_name f = Some DEVICE_ID_FIELD) then
    if (c <? 128) && is_ascii_alphanumeric (ascii_of_nat (Z.to_nat c))
    then edit_focused (fun v => format_device_id (v ++ char_utf8 c)) f
    else f
  else edit_focused (fun v => v ++ char_utf8 c) f.

Definition form_backspace (f : FormState) : FormState :=
  if decide (focused_field_name f = Some DEVICE_ID_FIELD) then
    edit_focused (fun v => let cleaned := filter is_ascii_alphanumeric v in
                           format_device_id (take (length cleaned - 1) cleaned)) f
  else edit_focused pop_char f.

(** The loops of [focus_next] and [focus_prev]: [step] goes to the neighbour,
    [fuel] counts the fields.  [None] is an index out of range. *)
Fixpoint focus_loop (step : nat -> nat) (skip_readonly : bool) (fields : list FormField) (start fuel focus : nat) : option nat :=
  match fuel with
  | O => None
  | S fuel' =>
      let focus := step focus in
      let+ field := fields !! focus in
      if negb skip_readonly || ff_editable field || (focus =? start)%nat then Some focus
      else focus_loop step skip_readonly fields start fuel' focus
  end.

Definition next_index (count focus : nat) : nat := (S focus mod count)%nat.
Definition prev_index (count focus : nat) : nat := match focus with O => count - 1 | S n => n end%nat.

Definition focus_move (step : nat -> nat -> nat) (skip_readonly : bool) (f : FormState) : option FormState :=
  let count := length (fo_fields f) in
  if (count =? 0)%nat then Some f
  else let+ n := focus_loop (step count) skip_readonly (fo_fields f) (fo_focus f) count (fo_focus f) in Some (set_focus n f).

Definition focus_next : bool -> FormState -> option FormState := focus_move next_index.
Definition focus_prev : bool -> FormState -> option FormState := focus_move prev_index.

Definition is_on_list (f : FormState) : bool := (fo_focus f =? length (fo_fields f))%nat.

Definition paste_into (clipboard : option str) (f : FormState) : FormState :=
  match clipboard with
  | None => f
  | Some text =>
      if decide (focused_field_name f = Some DEVICE_ID_FIELD)
      then edit_focused (fun v => format_device_id (v ++ text)) f
      else edit_focused (fun v => v ++ text) f
  end.

Definition handle_form_key (k : KeyEvent) (f : FormState) : option (FormAction * FormState) :=
  let continue f := Some (FaContinue, f) in
  match ke_code k with
  | KcEsc => Some (FaCancel, f)
  | KcEnter => Some (FaSubmit, f)
  | code =>
      if is_on_list f then continue f
      else match code with
           | KcTab | KcDown => let+ f := focus_next true f in continue f
           | KcBackTab | KcUp => let+ f := focus_prev true f in continue f
           | KcChar c => if ((c =? ch "v") || (c =? ch "V")) && ke_control k then continue (paste_into (ke_clipboard k) f)
                         else continue (append_char c f)
           | KcInsert => continue (if ke_shift k then paste_into (ke_clipboard k) f else f)
           | KcBackspace => continue (form_backspace f)
           | _ => continue f
           end
  end.

(** ** The state ([app.rs]) *)

Inductive Tab := TabOverview | TabDevices | TabFolders | TabLogs.

Definition tab_next (t : Tab) : Tab :=
  match t with TabOverview => TabDevices | TabDevices => TabFolders | TabFolders => TabLogs | TabLogs => TabOverview end.
Definition tab_prev (t : Tab) : Tab :=
  match t with TabOverview => TabLogs | TabDevices => TabOverview | TabFolders => TabDevices | TabLogs => TabFolders end.

Inductive Popup :=
| PopNone
| PopAddDevice | PopAddFolder | PopEditDevice | PopEditFolder
| PopHelp
| PopError (msg : str)
| PopSearch (query : str)
| PopFilter (query : str)
| PopConfirm (title message : str).

(** The closures the confirmation can hold. *)
Inductive ConfirmAction := DeleteDevice (id : DeviceId) | DeleteFolder (id : str).

(** [tracing::Level]: the more verbose the greater. *)
Inductive Level := LvError | LvWarn | LvInfo | LvDebug | LvTrace.

Definition level_rank (l : Level) : Z :=
  match l with LvError => 0 | LvWarn => 1 | LvInfo => 2 | LvDebug => 3 | LvTrace => 4 end.

Record Logs := mkLogs {
  lg_lines : list str;
  lg_level : Level;
  lg_scroll : nat;
  lg_search : option str;
  lg_matches : list nat;
  lg_selected : nat;
}.

(** The filter, the indices it leaves in both lists, the position in the
    filtered list (one for both), and the selected entries. *)
Record Lists := mkLists {
  li_filter : option str;
  li_devices : list nat;
  li_folders : list nat;
  li_selected : nat;
  li_device : nat;
  li_folder : nat;
}.

(** What leaves the interface: configurations handed to the sync service, scans
    it is asked for, ignore files made, editors started. *)
Inductive TuiEffect := TeUpdateConfig (c : Config) | TeScan (folder : str) | TeCreate (path : str) | TeEditor (path : str).

Record App := mkApp {
  ap_config : Config;
  ap_disk : option Config;
  ap_service : bool;
  ap_effects : list TuiEffect;
  ap_tab : Tab;
  ap_popup : Popup;
  ap_logs : Logs;
  ap_lists : Lists;
  ap_form : option FormState;
  ap_selection : list bool;
  ap_selection_at : nat;
  ap_confirm : option ConfirmAction;
}.

Definition edit_config (c : Config) (a : App) : App :=
  mkApp c (ap_disk a) (ap_service a) (ap_effects a) (ap_tab a) (ap_popup a) (ap_logs a) (ap_lists a) (ap_form a) (ap_selection a)
    (ap_selection_at a) (ap_confirm a).
Definition set_saved (c : option Config) (a : App) : App :=
  mkApp (ap_config a) c (ap_service a) (ap_effects a) (ap_tab a) (ap_popup a) (ap_logs a) (ap_lists a) (ap_form a) (ap_selection a)
    (ap_selection_at a) (ap_confirm a).
Definition add_effect (e : TuiEffect) (a : App) : App :=
  mkApp (ap_config a) (ap_disk a) (ap_service a) (ap_effects a ++ [e]) (ap_tab a) (ap_popup a) (ap_logs a) (ap_lists a) (ap_form a)
    (ap_selection a) (ap_selection_at a) (ap_confirm a).
Definition set_tab (t : Tab) (a : App) : App :=
  mkApp (ap_config a) (ap_disk a) (ap_service a) (ap_effects a) t (ap_popup a) (ap_logs a) (ap_lists a) (ap_form a) (ap_selection a)
    (ap_selection_at a) (ap_confirm a).
Definition set_popup (p : Popup) (a : App) : App :=
  mkApp (ap_config a) (ap_disk a) (ap_service a) (ap_effects a) (ap_tab a) p (ap_logs a) (ap_lists a) (ap_form a) (ap_selection a)
    (ap_selection_at a) (ap_confirm a).
Definition set_logs (l : Logs) (a : App) : App :=
  mkApp (ap_config a) (ap_disk a) (ap_service a) (ap_effects a) (ap_tab a) (ap_popup a) l (ap_lists a) (ap_form a) (ap_selection a)
    (ap_selection_at a) (ap_confirm a).
Definition set_lists (l : Lists) (a : App) : App :=
  mkApp (ap_config a) (ap_disk a) (ap_service a) (ap_effects a) (ap_tab a) (ap_popup a) (ap_logs a) l (ap_form a) (ap_selection a)
    (ap_selection_at a) (ap_confirm a).
Definition set_form (f : option FormState) (a : App) : App :=
  mkApp (ap_config a) (ap_disk a) (ap_service a) (ap_effects a) (ap_tab a) (ap_popup a) (ap_logs a) (ap_lists a) f (ap_selection a)
    (ap_selection_at a) (ap_confirm a).
Definition set_selection (s : list bool) (at_ : nat) (a : App) : App :=
  mkApp (ap_config a) (ap_disk a) (ap_service a) (ap_effects a) (ap_tab a) (ap_popup a) (ap_logs a) (ap_lists a) (ap_form a) s at_
    (ap_confirm a).
Definition set_confirm (c : option ConfirmAction) (a : App) : App :=
  mkApp (ap_config a) (ap_disk a) (ap_service a) (ap_effects a) (ap_tab a) (ap_popup a) (ap_logs a) (ap_lists a) (ap_form a)
    (ap_selection a) (ap_selection_at a) c.

Definition LOG_BUFFER_CAP : nat := 100.
Definition LOG_TAIL_LINES : nat := 50.

Section Tui.
(** [to_lowercase], and what device IDs are parsed and shown with. *)
Context (lower : str -> str) (unicode_alphanumeric : Z -> bool) (hex_encode : list Z -> str)
        (hex_decode : list Z -> option (list Z)).

(** [DeviceId::to_string], which does not panic on 32 bytes. *)
Definition device_text (d : DeviceId) : str := str_of_bytes (default [] (device_id_to_string d)).

Definition app_new (config : Config) (disk : option Config) (service : bool) : App :=
  mkApp config disk service [] TabOverview PopNone (mkLogs [] LvInfo 0 None [] 0)
    (mkLists None (seq 0 (length (cfg_devices config))) (seq 0 (length (cfg_folders config))) 0 0 0)
    None (replicate (length (cfg_devices config) `max` 1) false) 0 None.

(** The indices of the elements that satisfy a test. *)
Fixpoint indices_from {A : Type} (test : A -> bool) (i : nat) (l : list A) : list nat :=
  match l with
  | [] => []
  | x :: l' => if test x then i :: indices_from test (S i) l' else indices_from test (S i) l'
  end.

Definition clamp (selected len : nat) : nat := if (len <=? selected)%nat then (len - 1)%nat else selected.

Definition recompute_log_search_matches (l : Logs) : Logs :=
  let ms := match lg_search l with
            | Some ((_ :: _) as pattern) => indices_from (fun line => contains_sub (lower pattern) (lower line)) 0 (lg_lines l)
            | _ => []
            end in
  mkLogs (lg_lines l) (lg_level l) (lg_scroll l) (lg_search l) ms (clamp (lg_selected l) (length ms)).

Definition log_push (msg : str) (l : Logs) : Logs :=
  let lines := (if (LOG_BUFFER_CAP <=? length (lg_lines l))%nat then drop 1 (lg_lines l) else lg_lines l) ++ [msg] in
  let l := mkLogs lines (lg_level l) (lg_scroll l) (lg_search l) (lg_matches l) (lg_selected l) in
  match lg_search l with Some _ => recompute_log_search_matches l | None => l end.

Definition push_log (msg : str) (a : App) : App := set_logs (log_push msg (ap_logs a)) a.

Definition device_matches (query : str) (d : Device) : bool :=
  let q := lower query in
  contains_sub q (lower (default [] (dev_name d))) || contains_sub q (lower (device_text (dev_id d))) ||
  existsb (fun a => contains_sub q (lower (address_as_str a))) (dev_addresses d).

Definition folder_matches (query : str) (f : Folder) : bool :=
  let q := lower query in
  contains_sub q (lower (folder_id f)) || contains_sub q (lower (folder_path f)) ||
  contains_sub q (join ($" ") ((fun d => lower (device_text d)) <$> folder_devices f)).

Definition filtered {A : Type} (matches : str -> A -> bool) (query : option str) (l : list A) : list nat :=
  match query with
  | Some q => indices_from (matches q) 0 l
  | None => seq 0 (length l)
  end.

Definition recompute_device_filter_matches (a : App) : App :=
  let l := ap_lists a in
  let ms := filtered device_matches (li_filter l) (cfg_devices (ap_config a)) in
  let sel := clamp (li_selected l) (length ms) in
  set_lists (mkLists (li_filter l) ms (li_folders l) sel (default (li_device l) (ms !! sel)) (li_folder l)) a.

Definition recompute_folder_filter_matches (a : App) : App :=
  let l := ap_lists a in
  let ms := filtered folder_matches (li_filter l) (cfg_folders (ap_config a)) in
  let sel := clamp (li_selected l) (length ms) in
  set_lists (mkLists (li_filter l) (li_devices l) ms sel (li_device l) (default (li_folder l) (ms !! sel))) a.

Definition recompute_lists (a : App) : App := recompute_folder_filter_matches (recompute_device_filter_matches a).

Definition max_log_scroll_offset (l : Logs) : nat :=
  match lg_search l, lg_matches l with
  | Some _, _ :: _ => length (lg_matches l) - 1
  | _, _ => length (lg_lines l) - 1
  end%nat.

Definition resize_form (a : App) : App :=
  set_selection (resize (length (cfg_devices (ap_config a)) `max` 1) false (ap_selection a)) (ap_selection_at a) a.

(** ** Saving ([events/tab.rs]) *)

Definition save_and_log (k : KeyEvent) (a : App) : App :=
  match ke_save_error k with
  | None =>
      let a := set_saved (Some (ap_config a)) a in
      let a := recompute_lists (push_log ($"Config saved.") a) in
      if ap_service a then add_effect (TeUpdateConfig (ap_config a)) a else a
  | Some e => push_log ($"Failed to save config: " ++ e) a
  end.

(** ** Keys in a list ([events/tab.rs]) *)

Definition open_filter (a : App) : App :=
  match ap_tab a with
  | TabDevices | TabFolders => set_popup (PopFilter (default [] (li_filter (ap_lists a)))) a
  | _ => a
  end.

Definition set_filter (q : option str) (a : App) : App :=
  let l := ap_lists a in
  recompute_lists (set_lists (mkLists q (li_devices l) (li_folders l) 0 (li_device l) (li_folder l)) a).

Definition clear_filter (a : App) : App :=
  match ap_tab a with TabDevices | TabFolders => set_filter None a | _ => a end.

Definition device_form (id name addr : str) (editable : bool) : FormState :=
  add_field ($"address") addr true (add_field ($"device_name") name true (add_field DEVICE_ID_FIELD id editable form_new)).

Definition folder_form (id path : str) (editable : bool) : FormState :=
  add_field ($"path") path true (add_field ($"folder_id") id editable form_new).

Definition open_add (a : App) : App :=
  match ap_tab a with
  | TabDevices => set_popup PopAddDevice (set_form (Some (device_form [] [] [] true)) a)
  | TabFolders =>
      let a := set_form (Some (folder_form [] [] true)) (resize_form a) in
      set_popup PopAddFolder (set_selection (replicate (length (cfg_devices (ap_config a))) false) 0 a)
  | _ => a
  end.

Definition quoted (s : str) : str := ["034"%char] ++ s ++ ["034"%char].

Definition device_question (d : Device) : str :=
  $"Delete device " ++ quoted (default [] (dev_name d)) ++ $" (" ++ short_id hex_encode (dev_id d) ++ $")?".

Definition folder_question (id : str) : str := $"Delete folder " ++ quoted id ++ $"?".

Definition ask_delete (a : App) : option App :=
  match ap_tab a, li_devices (ap_lists a), li_folders (ap_lists a) with
  | TabDevices, _ :: _, _ =>
      let+ device := cfg_devices (ap_config a) !! li_device (ap_lists a) in
      Some (set_popup (PopConfirm ($"Confirm Delete") (device_question device)) (set_confirm (Some (DeleteDevice (dev_id device))) a))
  | TabFolders, _, _ :: _ =>
      let+ folder := cfg_folders (ap_config a) !! li_folder (ap_lists a) in
      Some (set_popup (PopConfirm ($"Confirm Delete") (folder_question (folder_id folder)))
        (set_confirm (Some (DeleteFolder (folder_id folder))) a))
  | _, _, _ => Some a
  end.

Definition select_device (sel : nat) (a : App) : option App :=
  let l := ap_lists a in
  let+ i := li_devices l !! sel in
  Some (set_lists (mkLists (li_filter l) (li_devices l) (li_folders l) sel i (li_folder l)) a).

Definition select_folder (sel : nat) (a : App) : option App :=
  let l := ap_lists a in
  let+ i := li_folders l !! sel in
  Some (set_lists (mkLists (li_filter l) (li_devices l) (li_folders l) sel (li_device l) i) a).

Definition list_down (a : App) : option App :=
  let l := ap_lists a in
  match ap_tab a with
  | TabDevices => if (S (li_selected l) <? length (li_devices l))%nat then select_device (S (li_selected l)) a else Some a
  | TabFolders => if (S (li_selected l) <? length (li_folders l))%nat then select_folder (S (li_selected l)) a else Some a
  | _ => Some a
  end.

Definition list_up (a : App) : option App :=
  match ap_tab a, li_selected (ap_lists a) with
  | TabDevices, S n => select_device n a
  | TabFolders, S n => select_folder n a
  | _, _ => Some a
  end.

Definition open_edit (a : App) : App :=
  match ap_tab a, li_devices (ap_lists a), li_folders (ap_lists a) with
  | TabDevices, _ :: _, _ =>
      match cfg_devices (ap_config a) !! li_device (ap_lists a) with
      | Some device =>
          let addr := default [] (address_to_string <$> head (dev_addresses device)) in
          set_popup PopEditDevice
            (set_form (Some (device_form (device_text (dev_id device)) (default [] (dev_name device)) addr false)) a)
      | None => a
      end
  | TabFolders, _, _ :: _ =>
      match cfg_folders (ap_config a) !! li_folder (ap_lists a) with
      | Some folder =>
          let shared := (fun d => bool_decide (dev_id d ∈ folder_devices folder)) <$> cfg_devices (ap_config a) in
          set_popup PopEditFolder (set_form (Some (folder_form (folder_id folder) (folder_path folder) false)) (set_selection shared 0 a))
      | None => a
      end
  | _, _, _ => a
  end.

(** Key [i]: the ignore file is made if there is none and opened in an editor;
    the folder is scanned at once. *)
Definition edit_ignores (k : KeyEvent) (a : App) : App :=
  match ap_tab a, li_folders (ap_lists a), cfg_folders (ap_config a) !! li_folder (ap_lists a) with
  | TabFolders, _ :: _, Some folder =>
      let stignore := path_join (folder_path folder) ($".stignore") in
      let a := if ke_ignore_exists k then a else add_effect (TeCreate stignore) a in
      let a := add_effect (TeEditor stignore) a in
      if ap_service a then add_effect (TeScan (folder_id folder)) a else a
  | _, _, _ => a
  end.

Definition handle_tab_key (k : KeyEvent) (a : App) : option App :=
  match ke_code k with
  | KcRight | KcTab => Some (set_tab (tab_next (ap_tab a)) a)
  | KcLeft | KcBackTab => Some (set_tab (tab_prev (ap_tab a)) a)
  | KcEsc => Some (clear_filter a)
  | KcInsert => Some (open_add a)
  | KcDelete => ask_delete a
  | KcDown => list_down a
  | KcUp => list_up a
  | KcEnter => Some (open_edit a)
  | KcChar c =>
      if c =? ch "/" then Some (open_filter a)
      else if c =? ch "a" then Some (open_add a)
      else if c =? ch "d" then ask_delete a
      else if c =? ch "e" then Some (open_edit a)
      else if c =? ch "i" then Some (edit_ignores k a)
      else Some a
  | _ => Some a
  end.

(** ** Submitting a form ([events/popup.rs]) *)

Definition close_form (a : App) : App := set_popup PopNone (set_form None a).

Definition entered (name : str) (f : FormState) : str := trim (default [] (form_value name f)).

Definition entered_addresses (f : FormState) : list AddressType :=
  match entered ($"address") f with [] => [Dynamic] | addr => [Tcp addr] end.

Definition entered_name (f : FormState) : option str :=
  match entered ($"device_name") f with [] => None | name => Some name end.

Definition submit_add_device (k : KeyEvent) (f : FormState) (a : App) : option App :=
  let id_str := entered DEVICE_ID_FIELD f in
  let+ valid := validate_device_id unicode_alphanumeric hex_decode id_str in
  match valid with
  | Err e => Some (set_form (Some (set_error (FeValidation e) f)) a)
  | Ok _ =>
      let+ r := parse_id unicode_alphanumeric hex_decode id_str in
      match r with
      | Err e => Some (set_form (Some (set_error (FeDeviceId e) f)) a)
      | Ok id =>
          let device := mkDevice id (entered_name f) (entered_addresses f) false false in
          let a := edit_config (set_devices (ap_config a) (cfg_devices (ap_config a) ++ [device])) a in
          Some (save_and_log k (close_form (resize_form a)))
      end
  end.

Definition submit_edit_device (k : KeyEvent) (f : FormState) (a : App) : App :=
  let i := li_device (ap_lists a) in
  match cfg_devices (ap_config a) !! i with
  | None => a
  | Some d =>
      let d := mkDevice (dev_id d) (entered_name f) (entered_addresses f) (dev_paused d) (dev_introducer d) in
      save_and_log k (close_form (edit_config (set_devices (ap_config a) (<[i := d]> (cfg_devices (ap_config a)))) a))
  end.

(** The local device and the devices that are ticked. *)
Definition shared_devices (a : App) : list DeviceId :=
  default default_device_id (cfg_local_device_id (ap_config a)) ::
  omap (fun p : nat * bool => if p.2 then dev_id <$> cfg_devices (ap_config a) !! p.1 else None) (imap pair (ap_selection a)).

Definition with_devices (ds : list DeviceId) (path : str) (f : Folder) : Folder :=
  mkFolder (folder_id f) path (folder_label f) (folder_type f) (folder_paused f) (rescan_interval_secs f) ds (ignore_patterns f)
    (versioning f).

Definition submit_add_folder (k : KeyEvent) (f : FormState) (a : App) : App :=
  let id := entered ($"folder_id") f in
  let path := entered ($"path") f in
  match validate_folder_id unicode_alphanumeric id, validate_path path with
  | Err e, _ => set_form (Some (set_error (FeValidation e) f)) a
  | _, Err e => set_form (Some (set_error (FeValidation e) f)) a
  | Ok _, Ok _ =>
      let folder := with_devices (shared_devices a) path (folder_new id path) in
      save_and_log k (close_form (edit_config (set_folders (ap_config a) (cfg_folders (ap_config a) ++ [folder])) a))
  end.

Definition submit_edit_folder (k : KeyEvent) (f : FormState) (a : App) : App :=
  let path := entered ($"path") f in
  match validate_path path with
  | Err e => set_form (Some (set_error (FeValidation e) f)) a
  | Ok _ =>
      let i := li_folder (ap_lists a) in
      match cfg_folders (ap_config a) !! i with
      | None => a
      | Some folder =>
          let folder := with_devices (shared_devices a) path folder in
          save_and_log k (close_form (edit_config (set_folders (ap_config a) (<[i := folder]> (cfg_folders (ap_config a)))) a))
      end
  end.

Definition submit_form (k : KeyEvent) (f : FormState) (a : App) : option App :=
  match ap_popup a with
  | PopAddDevice => submit_add_device k f a
  | PopEditDevice => Some (submit_edit_device k f a)
  | PopAddFolder => Some (submit_add_folder k f a)
  | PopEditFolder => Some (submit_edit_folder k f a)
  | _ => Some a
  end.

Definition toggle_at (i : nat) (l : list bool) : list bool := alter negb i l.

(** A key while the list of devices of a folder form has the focus; [None] when
    the form's own keys are to be tried. *)
Definition handle_device_list_key (k : KeyEvent) (f : FormState) (a : App) : option App :=
  let at_ := ap_selection_at a in
  match ke_code k with
  | KcDown => Some (if (S at_ <? length (cfg_devices (ap_config a)))%nat then set_selection (ap_selection a) (S at_) a else a)
  | KcUp => Some (set_selection (ap_selection a) (at_ - 1) a)
  | KcTab => Some (set_form (Some (set_focus 0 f)) a)
  | KcBackTab => Some (set_form (Some (set_focus (length (fo_fields f) - 1) f)) a)
  | KcEnter | KcEsc => None
  | KcChar c => Some (if c =? ch " " then set_selection (toggle_at at_ (ap_selection a)) at_ a else a)
  | _ => Some a
  end.

(** The keys that go from the fields of a folder form to the list. *)
Definition to_device_list (k : KeyEvent) (f : FormState) : bool :=
  match ke_code k with
  | KcTab | KcDown => (fo_focus f =? length (fo_fields f) - 1)%nat
  | KcBackTab | KcUp => (fo_focus f =? 0)%nat
  | _ => false
  end.

Definition is_folder_popup (p : Popup) : bool := match p with PopAddFolder | PopEditFolder => true | _ => false end.

Definition handle_popup_key (k : KeyEvent) (a : App) : option App :=
  match ap_form a with
  | None => Some a
  | Some f =>
      let is_folder := is_folder_popup (ap_popup a) in
      if is_folder && negb (is_on_list f) && to_device_list k f then Some (set_form (Some (set_focus (length (fo_fields f)) f)) a)
      else
        match (if is_folder && is_on_list f then handle_device_list_key k f a else None) with
        | Some a => Some a
        | None =>
            let+ (action, f) := handle_form_key k f in
            let a := set_form (Some f) a in
            match action with
            | FaCancel => Some (close_form a)
            | FaSubmit => submit_form k f a
            | FaContinue => Some a
            end
        end
  end.

(** ** The other popups ([events/confirm.rs], [events/search.rs]) *)

Definition confirmed_config (c : ConfirmAction) (config : Config) : Config :=
  match c with
  | DeleteDevice id =>
      set_folders (set_devices config (filter (fun d => dev_id d <> id) (cfg_devices config)))
        ((fun f => with_devices (filter (fun d => d <> id) (folder_devices f)) (folder_path f) f) <$> cfg_folders config)
  | DeleteFolder id => set_folders config (filter (fun f => folder_id f <> id) (cfg_folders config))
  end.

Definition run_confirm (k : KeyEvent) (c : ConfirmAction) (a : App) : App :=
  let a := edit_config (confirmed_config c (ap_config a)) a in
  save_and_log k (match c with DeleteDevice _ => resize_form a | DeleteFolder _ => a end).

Definition handle_confirm_key (k : KeyEvent) (a : App) : App :=
  if pressed k "y" || pressed k "Y" then
    set_popup PopNone (match ap_confirm a with Some c => run_confirm k c (set_confirm None a) | None => a end)
  else if pressed k "n" || pressed k "N" || bool_decide (ke_code k = KcEsc) then set_popup PopNone (set_confirm None a)
  else a.

(** What a key does to a query: keeps the popup open with a query, or closes it
    with an answer. *)
Definition query_key (k : KeyEvent) (query : str) : str + bool :=
  match ke_code k with
  | KcEnter => inr true
  | KcEsc => inr false
  | KcBackspace => inl (pop_char query)
  | KcChar c => inl (query ++ char_utf8 c)
  | _ => inl query
  end.

Definition handle_filter_popup_key (k : KeyEvent) (query : str) (a : App) : App :=
  match query_key k query with
  | inl q => set_popup (PopFilter q) a
  | inr accepted => let a := set_popup PopNone a in if (accepted : bool) then set_filter (Some query) a else a
  end.

Definition handle_search_popup_key (k : KeyEvent) (query : str) (a : App) : App :=
  match query_key k query with
  | inl q => set_popup (PopSearch q) a
  | inr accepted =>
      let a := set_popup PopNone a in
      if (accepted : bool) then
        let l := ap_logs a in
        let l := recompute_log_search_matches (mkLogs (lg_lines l) (lg_level l) (lg_scroll l) (Some query) (lg_matches l) (lg_selected l)) in
        set_logs (mkLogs (lg_lines l) (lg_level l) 0 (lg_search l) (lg_matches l) (length (lg_matches l) - 1)) a
      else a
  end.

(** ** The log view ([events/logs.rs]) *)

Definition log_page_size (rows : option Z) : nat :=
  match rows with Some h => Z.to_nat (Z.max (Z.max 0 (h - 6)) 1) | None => 10%nat end.

Definition set_scroll (n : nat) (l : Logs) : Logs := mkLogs (lg_lines l) (lg_level l) n (lg_search l) (lg_matches l) (lg_selected l).

(** [len() - 1 - selected]: [None] when it would be negative. *)
Definition select_match (sel : nat) (l : Logs) : option Logs :=
  let len := length (lg_matches l) in
  if (sel <=? len - 1)%nat
  then Some (mkLogs (lg_lines l) (lg_level l) (len - 1 - sel) (lg_search l) (lg_matches l) sel)
  else None.

Definition next_match (l : Logs) : option Logs :=
  match lg_matches l with [] => Some l | _ => select_match (S (lg_selected l) `min` (length (lg_matches l) - 1)) l end.
Definition prev_match (l : Logs) : option Logs :=
  match lg_matches l with [] => Some l | _ => select_match (lg_selected l - 1) l end.

(** [inr]: the key was not for the view. *)
Definition handle_logs_key (k : KeyEvent) (a : App) : option (App + unit) :=
  let l := ap_logs a in
  let page_size := log_page_size (ke_rows k) in
  let max_offset := max_log_scroll_offset l in
  let with_logs o := let+ l := o in Some (inl (set_logs l a)) in
  let scroll n := Some (inl (set_logs (set_scroll n l) a)) in
  match ke_code k with
  | KcDown => scroll (lg_scroll l - 1)%nat
  | KcUp => scroll (S (lg_scroll l) `min` max_offset)%nat
  | KcPageUp => scroll ((lg_scroll l + page_size) `min` max_offset)%nat
  | KcPageDown => scroll (lg_scroll l - page_size)%nat
  | KcHome => scroll max_offset
  | KcEnd => scroll 0%nat
  | KcEsc => Some (inl (set_logs (mkLogs (lg_lines l) (lg_level l) 0 None [] 0) a))
  | KcChar c =>
      if c =? ch "/" then Some (inl (set_popup (PopSearch (default [] (lg_search l))) a))
      else if c =? ch "j" then scroll (lg_scroll l - 1)%nat
      else if c =? ch "k" then scroll (S (lg_scroll l) `min` max_offset)%nat
      else if c =? ch "n" then with_logs (next_match l)
      else if c =? ch "N" then with_logs (prev_match l)
      else Some (inr tt)
  | _ => Some (inr tt)
  end.

(** ** Dispatch ([events/mod.rs]) *)

Definition next_level (l : Level) : Level :=
  match l with LvError => LvWarn | LvWarn => LvInfo | LvInfo => LvDebug | LvDebug => LvTrace | LvTrace => LvError end.

Definition level_name (l : Level) : str :=
  match l with LvError => $"ERROR" | LvWarn => $"WARN" | LvInfo => $"INFO" | LvDebug => $"DEBUG" | LvTrace => $"TRACE" end.

Definition cycle_level (a : App) : App :=
  let l := ap_logs a in
  let level := next_level (lg_level l) in
  push_log ($"Log filter changed to " ++ level_name level)
    (set_logs (mkLogs (lg_lines l) level (lg_scroll l) (lg_search l) (lg_matches l) (lg_selected l)) a).

Definition no_popup (p : Popup) : bool := match p with PopNone => true | _ => false end.

(** [true]: the interface is to exit. *)
Definition handle_key (k : KeyEvent) (a : App) : option (bool * App) :=
  let stay o := let+ a := o in Some (false, a) in
  if pressed k "q" && no_popup (ap_popup a) then Some (true, a)
  else if bool_decide (ke_code k = KcF 5) then Some (false, a)
  else if pressed k "?" && no_popup (ap_popup a) then Some (false, set_popup PopHelp a)
  else if pressed k "l" && no_popup (ap_popup a) then Some (false, cycle_level a)
  else
    match ap_popup a with
    | PopAddDevice | PopEditDevice | PopAddFolder | PopEditFolder => stay (handle_popup_key k a)
    | PopHelp | PopError _ => Some (false, set_popup PopNone a)
    | PopSearch q => Some (false, handle_search_popup_key k q a)
    | PopFilter q => Some (false, handle_filter_popup_key k q a)
    | PopConfirm _ _ => Some (false, handle_confirm_key k a)
    | PopNone =>
        match ap_tab a with
        | TabLogs =>
            let+ r := handle_logs_key k a in
            match r with
            | inl a => Some (false, a)
            | inr _ => stay (handle_tab_key k a)
            end
        | _ => stay (handle_tab_key k a)
        end
    end.

Definition handle_event (k : KeyEvent) (a : App) : option (bool * App) :=
  if ke_press k then handle_key k a else Some (false, a).
End Tui.

(** ** The log buffer ([logging_buffer.rs]) and file ([log_loader.rs]) *)

Record LogEntry := mkLogEntry { le_msg : str; le_level : Level }.

Record MemoryBuffer := mkMemoryBuffer { mbuf_entries : list LogEntry; mbuf_capacity : nat }.

Definition memory_push (e : LogEntry) (b : MemoryBuffer) : MemoryBuffer :=
  mkMemoryBuffer ((if (mbuf_capacity b <=? length (mbuf_entries b))%nat then drop 1 (mbuf_entries b) else mbuf_entries b) ++ [e])
    (mbuf_capacity b).

(** [.rev().take(n).rev()] *)
Definition last_n {A : Type} (n : nat) (l : list A) : list A := drop (length l - n) l.

Definition take_lines_filtered (n : nat) (min_level : Level) (b : MemoryBuffer) : list LogEntry :=
  last_n n (filter (fun e => level_rank min_level <= level_rank (le_level e)) (mbuf_entries b)).

Definition MAX_LOG_READ_BYTES : nat := N.to_nat (1024 * 1024).

Definition tail_lines (content : str) (n : nat) : list str :=
  let start := (length content - MAX_LOG_READ_BYTES)%nat in
  let lines := str_lines (from_utf8_lossy (drop start content)) in
  if (0 <? start)%nat then $"[...truncated]" :: last_n (n - 1) (drop 1 lines) else last_n n lines.

(** The newest log file: the first with the greatest modification time, an
    unknown one being the smallest. *)
Definition newer (t u : option Z) : bool :=
  match t, u with
  | Some t, Some u => u <? t
  | Some _, None => true
  | None, _ => false
  end.

Definition find_latest_log_file (entries : list (str * option Z)) : option str :=
  fst <$> foldl (fun best e => match best with
                               | Some b => if newer e.2 b.2 then Some e else best
                               | None => Some e
                               end) None (filter (fun e => ends_with ($".log") e.1 && negb (bool_decide (e.1 = $".log"))) entries).

(** ** The loop ([runner.rs]) *)

Record TuiState := mkTuiState {
  ts_app : App;
  ts_daemon : TuiDaemon;
  ts_status : str;
  ts_external_pid : option Z;
  ts_connected : list DeviceId;
  ts_folder_states : gmap str FolderStatus;
  ts_progress : gmap str f64;
  ts_health_tick : Z;
}.

Definition on_app (f : App -> App) (s : TuiState) : TuiState :=
  mkTuiState (f (ts_app s)) (ts_daemon s) (ts_status s) (ts_external_pid s) (ts_connected s) (ts_folder_states s) (ts_progress s)
    (ts_health_tick s).
Definition set_daemon (d : TuiDaemon) (status : str) (s : TuiState) : TuiState :=
  mkTuiState (ts_app s) d status (ts_external_pid s) (ts_connected s) (ts_folder_states s) (ts_progress s) (ts_health_tick s).
Definition set_listed (l : list DeviceId) (s : TuiState) : TuiState :=
  mkTuiState (ts_app s) (ts_daemon s) (ts_status s) (ts_external_pid s) l (ts_folder_states s) (ts_progress s) (ts_health_tick s).

Definition set_service (b : bool) (a : App) : App :=
  mkApp (ap_config a) (ap_disk a) b (ap_effects a) (ap_tab a) (ap_popup a) (ap_logs a) (ap_lists a) (ap_form a) (ap_selection a)
    (ap_selection_at a) (ap_confirm a).

Definition add_connected (d : DeviceId) (l : list DeviceId) : list DeviceId := if decide (d ∈ l) then l else l ++ [d].

Definition tui_apply (s : TuiState) (e : TuiEvent) : TuiState :=
  match e with
  | TuiFolderStateChanged folder status =>
      mkTuiState (ts_app s) (ts_daemon s) (ts_status s) (ts_external_pid s) (ts_connected s) (<[folder := status]> (ts_folder_states s))
        (ts_progress s) (ts_health_tick s)
  | TuiDeviceConnected d => set_listed (add_connected d (ts_connected s)) s
  | TuiDeviceDisconnected d => set_listed (filter (fun d' => d' <> d) (ts_connected s)) s
  | TuiSyncProgress folder progress =>
      mkTuiState (ts_app s) (ts_daemon s) (ts_status s) (ts_external_pid s) (ts_connected s) (ts_folder_states s)
        (<[folder := progress]> (ts_progress s)) (ts_health_tick s)
  end.

Section Runner.
Context (lower : str -> str).

(** F5, with the messages of [toggle_daemon]; [tray_ok]: the tray's answer. *)
Definition press_f5 (started tray_ok : bool) (s : TuiState) : TuiState :=
  let '(action, d) := toggle_daemon started (ts_daemon s) in
  let log msg := on_app (push_log lower msg) in
  match action with
  | TaTray start =>
      if tray_ok
      then log ($"Daemon " ++ (if start then $"start" else $"stop") ++ $" command sent to tray.")
             (set_daemon d (if start then $"Starting..." else $"Stopping...") s)
      else log ($"Tray daemon command failed") s
  | TaRefused => log ($"Daemon is managed externally. Use the tray menu to stop it.") s
  | TaStop =>
      log ($"Daemon stopping...") (log ($"Daemon shutdown signal sent.")
        (on_app (set_service false) (set_daemon d ($"Stopping...") s)))
  | TaBusy =>
      log ($"Daemon start blocked: previous daemon is still shutting down.")
        (on_app (set_popup (PopError ($"Daemon is still shutting down. Please wait a moment."))) s)
  | TaStarted => log ($"Daemon started.") (on_app (set_service true) (set_daemon d ($"Running") s))
  | TaStartFailed => log ($"Daemon start failed") (on_app (set_popup (PopError ($"Failed to start daemon"))) s)
  end.

(** What a tick finds: whether the connection manager has an address, its
    devices, the log buffer, the live processes, and the answer of the health
    check. *)
Record TickInput := mkTickInput {
  ti_listening : bool;
  ti_live : list DeviceId;
  ti_buffer : MemoryBuffer;
  ti_process : Z -> bool;
  ti_health : bool;
}.

Definition tick_crash (i : TickInput) (s : TuiState) : TuiState :=
  let d := ts_daemon s in
  let alive := td_shutdown_tx d && ti_listening i in
  let finished := match td_task d with Some ended => ended | None => true end in
  if td_running d && negb (td_external d) && (negb alive || finished) then
    on_app (push_log lower ($"Daemon crashed or exited unexpectedly."))
      (on_app (set_service false) (set_daemon (mkTuiDaemon (td_external d) (td_tray d) false false None) ($"Crashed") s))
  else s.

Definition tick_stopped (s : TuiState) : TuiState :=
  let d := ts_daemon s in
  let finished := match td_task d with Some ended => ended | None => true end in
  if negb (td_running d) && negb (td_external d) && bool_decide (ts_status s = $"Stopping...") && finished then
    on_app (push_log lower ($"Daemon stopped."))
      (set_daemon (mkTuiDaemon (td_external d) (td_tray d) (td_running d) (td_shutdown_tx d) None) ($"Stopped") s)
  else s.

Definition tick_connected (i : TickInput) (s : TuiState) : TuiState :=
  if td_shutdown_tx (ts_daemon s) then
    let s := set_listed (foldl (fun l d => add_connected d l) (ts_connected s) (ti_live i)) s in
    if td_running (ts_daemon s)
    then set_daemon (ts_daemon s)
           ($"Running | " ++ number_fuel 20 10 (Z.of_nat (length (ts_connected s))) [] ++ $" devices connected") s
    else s
  else s.

Definition copy_log (l : Logs) (e : LogEntry) : Logs :=
  if decide (last (lg_lines l) = Some (le_msg e)) then l else log_push lower (le_msg e) l.

Definition tick_logs (i : TickInput) (s : TuiState) : TuiState :=
  on_app (fun a => set_logs (foldl copy_log (ap_logs a) (take_lines_filtered 100 (lg_level (ap_logs a)) (ti_buffer i))) a) s.

Definition tick_external (i : TickInput) (s : TuiState) : TuiState :=
  let d := ts_daemon s in
  match td_external d, ts_external_pid s with
  | true, Some pid =>
      if negb (pid =? 0) && negb (ti_process i pid) then
        let s := set_daemon (mkTuiDaemon false false false (td_shutdown_tx d) (td_task d)) ($"Tray exited. Local control enabled.") s in
        on_app (push_log lower ($"Tray process exited. TUI switched to local daemon control."))
          (mkTuiState (ts_app s) (ts_daemon s) (ts_status s) None (ts_connected s) (ts_folder_states s) (ts_progress s) (ts_health_tick s))
      else s
  | _, _ => s
  end.

Definition tick_health (i : TickInput) (s : TuiState) : TuiState :=
  let d := ts_daemon s in
  if td_tray d then
    let n := wrap 8 (ts_health_tick s + 1) in
    let s := mkTuiState (ts_app s) d (ts_status s) (ts_external_pid s) (ts_connected s) (ts_folder_states s) (ts_progress s) n in
    if (n mod 8 =? 0) && negb (Bool.eqb (ti_health i) (td_running d)) then
      set_daemon (mkTuiDaemon (td_external d) (td_tray d) (ti_health i) (td_shutdown_tx d) (td_task d))
        (if ti_health i then $"Running (tray-managed)" else $"Stopped (tray-managed)") s
    else s
  else s.

Definition tui_tick (i : TickInput) (s : TuiState) : TuiState :=
  tick_health i (tick_external i (tick_logs i (tick_connected i (tick_stopped (tick_crash i s))))).
End Runner.

(** ** Typed device IDs are ASCII *)

Definition ascii_text (s : str) : Prop := Forall (fun c => byte_of c < 128) s.

Lemma trim_with_Forall (P : ascii -> Prop) ps fuel s : Forall P s -> Forall P (trim_with ps fuel s).
Proof.
  revert s. induction fuel as [|fuel IH]; intros s Hs; cbn; [done|].
  assert (Hany : forall s', strip_any ps s = Some s' -> Forall P s').
  { clear IH. induction ps as [|p ps IH]; cbn; intros s' E; [done|]. destruct (strip_prefix p s) as [r|] eqn:Ep; [|by apply IH].
    simplify_eq. apply strip_prefix_Some in Ep as ->. by apply Forall_app in Hs as [_ ?]. }
  destruct (strip_any ps s) as [s'|]; [|done]. apply IH, Hany, eq_refl.
Qed.

Lemma trim_Forall (P : ascii -> Prop) s : Forall P s -> Forall P (trim s).
Proof. intros Hs. unfold trim. apply Forall_reverse, trim_with_Forall, Forall_reverse, trim_with_Forall, Hs. Qed.

Lemma chars_of_ascii s : ascii_text s -> Forall is_ascii (chars_of s).
Proof.
  unfold chars_of. assert (Hall : forall fuel s, ascii_text s -> Forall is_ascii (chars_fuel fuel s)).
  { clear s. induction fuel as [|fuel IH]; intros [|c s] Hs; cbn [chars_fuel]; try done. apply Forall_cons in Hs as [Hc Hs].
    cbn [utf8_head]. rewrite (proj2 (Z.ltb_lt _ _) Hc). constructor; [done|]. by apply IH. }
  apply Hall.
Qed.

Lemma clean_Forall unicode_alphanumeric (P : Z -> Prop) s : Forall P s -> Forall P (clean unicode_alphanumeric s).
Proof. rewrite !Forall_forall. intros H c [_ Hc]%list_elem_of_filter. by apply H. Qed.

Lemma parse_id_no_panic unicode_alphanumeric hex_decode id : ascii_text id -> is_Some (parse_id unicode_alphanumeric hex_decode id).
Proof. intros H. apply from_str_no_panic, clean_Forall, chars_of_ascii, H. Qed.

Lemma chunks_fuel_Forall {A : Type} (P : A -> Prop) n fuel l : Forall P l -> Forall (Forall P) (chunks_fuel fuel n l).
Proof.
  revert l. induction fuel as [|fuel IH]; intros [|x l] H; cbn [chunks_fuel]; try done.
  constructor; [by apply Forall_take|]. apply IH. by apply Forall_drop.
Qed.

Lemma join_Forall {A : Type} (P : A -> Prop) sep ls : Forall P sep -> Forall (Forall P) ls -> Forall P (join sep ls).
Proof.
  intros Hsep. induction ls as [|l [|l' ls] IH]; intros H; cbn [join]; try done.
  - by apply Forall_cons in H as [? _].
  - apply Forall_cons in H as [Hl H]. rewrite !Forall_app. split_and!; try done. by apply IH.
Qed.

Lemma format_device_id_ascii s : ascii_text (format_device_id s).
Proof.
  unfold format_device_id. apply join_Forall; [by repeat constructor|]. apply Forall_take, chunks_fuel_Forall.
  apply Forall_forall. intros c [Hc _]%list_elem_of_filter. apply Is_true_eq_true in Hc. unfold is_ascii_alphanumeric in Hc. lia.
Qed.

(** ** Forms stay in shape *)

(** [add]: the form of a device that is added. *)
Record form_ok (add : bool) (f : FormState) : Prop := mkFormOk {
  fk_focus : (fo_focus f <= length (fo_fields f))%nat;
  fk_fields : fo_fields f <> [];
  fk_id : add = true -> Forall (fun x => ff_name x = DEVICE_ID_FIELD -> ascii_text (ff_value x)) (fo_fields f);
}.

Lemma edit_focused_ok add g f : form_ok add f ->
  (add = true -> focused_field_name f = Some DEVICE_ID_FIELD -> forall v, ascii_text (g v)) -> form_ok add (edit_focused g f).
Proof.
  intros [H1 H2 H3] Hg. unfold edit_focused. split; cbn.
  - by rewrite length_alter.
  - intros E. apply H2. apply (f_equal length) in E. rewrite length_alter in E. by apply nil_length_inv.
  - intros Ha. specialize (H3 Ha). specialize (Hg Ha). unfold focused_field_name in Hg.
    rewrite Forall_lookup in H3. apply Forall_lookup. intros i x Hx. rewrite list_lookup_alter in Hx.
    case_decide as Hi; [|exact (H3 _ _ Hx)]. destruct (fo_fields f !! i) as [y|] eqn:Ey; rewrite ?Hi, ?Ey in Hx; cbn in Hx; [|discriminate Hx].
    destruct (ff_editable y); simplify_eq/=; [|exact (H3 _ _ Ey)]. intros Hn. apply Hg. rewrite Ey. cbn. by f_equal.
Qed.

Lemma append_char_ok add c f : form_ok add f -> form_ok add (append_char c f).
Proof.
  intros H. unfold append_char. case_decide as Hf; [case_match; [|done]|]; apply edit_focused_ok; try done.
  intros _ _ v. apply format_device_id_ascii.
Qed.

Lemma form_backspace_ok add f : form_ok add f -> form_ok add (form_backspace f).
Proof.
  intros H. unfold form_backspace. case_decide as Hf; apply edit_focused_ok; try done. intros _ _ v. apply format_device_id_ascii.
Qed.

Lemma paste_into_ok add text f : form_ok add f -> form_ok add (paste_into text f).
Proof.
  intros H. unfold paste_into. destruct text as [t|]; [|done]. case_decide as Hf; apply edit_focused_ok; try done.
  intros _ _ v. apply format_device_id_ascii.
Qed.

(** The focus goes round: [d] steps forward modulo the number of fields. *)
Lemma focus_loop_goes_round step skip fields start d :
  (forall n, (n < length fields)%nat -> step n = (n + d) mod length fields)%nat -> (start < length fields)%nat ->
  exists n, focus_loop step skip fields start (length fields) start = Some n /\ (n < length fields)%nat.
Proof.
  intros Hstep Hstart. set (count := length fields) in *.
  assert (Hall : forall j fuel, (fuel + j = count)%nat -> (0 < fuel)%nat ->
    exists n, focus_loop step skip fields start fuel ((start + j * d) mod count)%nat = Some n /\ (n < count)%nat); cycle 1.
  { destruct (Hall 0%nat count) as (n & Hn & Hlt); [lia|lia|]. exists n. split; [|done].
    cbn [Nat.mul] in Hn. by rewrite Nat.add_0_r, Nat.mod_small in Hn. }
  intros j fuel. revert j. induction fuel as [|fuel IH]; intros j Hj Hpos; [lia|]. cbn [focus_loop].
  assert (E : step ((start + j * d) mod count)%nat = ((start + S j * d) mod count)%nat).
  { rewrite Hstep by (apply Nat.mod_upper_bound; lia). rewrite Nat.Div0.add_mod_idemp_l. f_equal. lia. }
  rewrite E. assert (Hlt : ((start + S j * d) mod count < count)%nat) by (apply Nat.mod_upper_bound; lia).
  destruct (lookup_lt_is_Some_2 fields _ Hlt) as [x Hx]. rewrite Hx. cbn [mbind option_bind].
  destruct (negb skip || ff_editable x || _) eqn:Eb; [by eexists|].
  destruct fuel as [|fuel].
  - exfalso. replace (S j) with count in Eb by lia. rewrite (Nat.mul_comm count d), Nat.Div0.mod_add, Nat.mod_small, Nat.eqb_refl in Eb by done.
    by rewrite orb_true_r in Eb.
  - destruct (IH (S j)) as (n & Hn & Hlt'); [lia|lia|]. by exists n.
Qed.

Lemma focus_move_ok add step d f :
  (forall count n, n < count -> step count n = (n + d count) mod count)%nat ->
  form_ok add f -> is_on_list f = false -> exists f', focus_move step true f = Some f' /\ form_ok add f'.
Proof.
  intros Hstep [H1 H2 H3] Hl. unfold is_on_list in Hl. apply Nat.eqb_neq in Hl. unfold focus_move.
  destruct (Nat.eqb_spec (length (fo_fields f)) 0) as [E|_]; [by apply nil_length_inv in E|].
  destruct (focus_loop_goes_round (step (length (fo_fields f))) true (fo_fields f) (fo_focus f) (d (length (fo_fields f))))
    as (n & -> & Hn); [intros; by apply Hstep|lia|].
  cbn. eexists. split; [done|]. split; cbn; [lia|done|done].
Qed.

Lemma handle_form_key_ok add k f : form_ok add f ->
  exists action f', handle_form_key k f = Some (action, f') /\ form_ok add f' /\ (action = FaSubmit -> ke_code k = KcEnter).
Proof.
  intros Hf. unfold handle_form_key.
  assert (Hnext : forall count n, (n < count -> next_index count n = (n + 1) mod count)%nat).
  { intros count n _. unfold next_index. f_equal. lia. }
  assert (Hprev : forall count n, (n < count -> prev_index count n = (n + (count - 1)) mod count)%nat).
  { intros count [|n] Hn; cbn [prev_index]; [by rewrite Nat.mod_small by lia|].
    replace (S n + (count - 1))%nat with (n + 1 * count)%nat by lia. rewrite Nat.Div0.mod_add. by rewrite Nat.mod_small by lia. }
  destruct (is_on_list f) eqn:El.
  { destruct (ke_code k); eexists _, _; (split; [done|]); done. }
  destruct (ke_code k); try (eexists _, _; (split; [done|]); done).
  - case_match; eexists _, _; (split; [done|]); split; try done; [by apply paste_into_ok|by apply append_char_ok].
  - eexists _, _; (split; [done|]); split; try done. by apply form_backspace_ok.
  - destruct (focus_move_ok add _ (fun _ => 1%nat) f Hnext Hf El) as (f' & E & Hf'). unfold focus_next. rewrite E. cbn. by eexists _, _.
  - destruct (focus_move_ok add _ (fun c => (c - 1)%nat) f Hprev Hf El) as (f' & E & Hf'). unfold focus_prev. rewrite E. cbn. by eexists _, _.
  - destruct (focus_move_ok add _ (fun c => (c - 1)%nat) f Hprev Hf El) as (f' & E & Hf'). unfold focus_prev. rewrite E. cbn. by eexists _, _.
  - destruct (focus_move_ok add _ (fun _ => 1%nat) f Hnext Hf El) as (f' & E & Hf'). unfold focus_next. rewrite E. cbn. by eexists _, _.
  - eexists _, _; (split; [done|]); split; try done. case_match; [by apply paste_into_ok|done].
Qed.

(** ** Lists and logs *)

Lemma indices_from_bound {A : Type} (test : A -> bool) i l n : n ∈ indices_from test i l -> (i <= n < i + length l)%nat.
Proof.
  revert i. induction l as [|x l IH]; intros i; cbn [indices_from length]; [by intros ?%not_elem_of_nil|].
  case_match; [intros [-> | Hn]%elem_of_cons; [lia|]|intros Hn]; apply IH in Hn; lia.
Qed.

Lemma filtered_bound {A : Type} (matches : str -> A -> bool) q l n : n ∈ filtered matches q l -> (n < length l)%nat.
Proof. destruct q as [q|]; cbn; [intros Hn%indices_from_bound|intros Hn%elem_of_seq]; lia. Qed.

Lemma clamp_lookup {A : Type} (l : list A) sel : l <> [] -> is_Some (l !! clamp sel (length l)).
Proof.
  intros Hl. apply lookup_lt_is_Some_2. unfold clamp. destruct l; [done|]. cbn [length]. case_match eqn:E; [lia|].
  apply Nat.leb_gt in E. lia.
Qed.

Section Sound.
Context (lower : str -> str) (unicode_alphanumeric : Z -> bool) (hex_encode : list Z -> str)
        (hex_decode : list Z -> option (list Z)).

Record logs_ok (l : Logs) : Prop := mkLogsOk {
  lk_cap : (length (lg_lines l) <= LOG_BUFFER_CAP)%nat;
  lk_matches : Forall (fun i => (i < length (lg_lines l))%nat) (lg_matches l);
  lk_search : lg_search l = None -> lg_matches l = [];
  lk_selected : lg_matches l <> [] -> (lg_selected l < length (lg_matches l))%nat;
}.

Lemma recompute_logs_ok l : (length (lg_lines l) <= LOG_BUFFER_CAP)%nat -> logs_ok (recompute_log_search_matches lower l).
Proof.
  intros Hc. split; cbn.
  - done.
  - apply Forall_forall. intros i Hi. destruct (lg_search l) as [[|c p]|]; try (by apply not_elem_of_nil in Hi).
    apply indices_from_bound in Hi. lia.
  - by intros ->.
  - match goal with |- ?m <> [] -> _ => generalize m end. intros m Hm. unfold clamp.
    destruct (Nat.leb_spec (length m) (lg_selected l)); [destruct m; [done|cbn; lia]|done].
Qed.

Lemma log_push_ok msg l : logs_ok l -> logs_ok (log_push lower msg l).
Proof.
  intros [H1 H2 H3 H4]. unfold log_push. set (lines := _ ++ [msg]).
  assert (Hc : (length lines <= LOG_BUFFER_CAP)%nat).
  { unfold lines. rewrite length_app. cbn [length]. case_match eqn:E; [rewrite length_drop; unfold LOG_BUFFER_CAP in *; lia|].
    apply Nat.leb_gt in E. lia. }
  cbn [lg_search]. destruct (lg_search l) eqn:Es; [by apply recompute_logs_ok|].
  rewrite (H3 eq_refl). by split; cbn.
Qed.

Record lists_ok (l : Lists) (c : Config) : Prop := mkListsOk {
  sk_devices : li_devices l = filtered (device_matches lower) (li_filter l) (cfg_devices c);
  sk_folders : li_folders l = filtered (folder_matches lower) (li_filter l) (cfg_folders c);
  sk_device : li_devices l <> [] -> (li_device l < length (cfg_devices c))%nat;
  sk_folder : li_folders l <> [] -> (li_folder l < length (cfg_folders c))%nat;
}.

Lemma clamped_selection {A : Type} (matches : str -> A -> bool) q (l : list A) sel old :
  filtered matches q l <> [] ->
  (default old (filtered matches q l !! clamp sel (length (filtered matches q l))) < length l)%nat.
Proof.
  intros Hm. destruct (clamp_lookup _ sel Hm) as [i Hi]. rewrite Hi. cbn.
  eapply filtered_bound. by eapply list_elem_of_lookup_2.
Qed.

Lemma recompute_lists_ok a : lists_ok (ap_lists (recompute_lists lower a)) (ap_config a).
Proof. split; cbn; try done; intros Hm; by apply clamped_selection. Qed.

(** ** The invariant of the interface *)

Definition is_form_popup (p : Popup) : bool :=
  match p with PopAddDevice | PopEditDevice | PopAddFolder | PopEditFolder => true | _ => false end.

Definition adds_device (p : Popup) : bool := match p with PopAddDevice => true | _ => false end.

(** The question of the dialog is about what its action deletes. *)
Definition names (m : str) (c : ConfirmAction) (config : Config) : Prop :=
  match c with
  | DeleteDevice id => exists d, d ∈ cfg_devices config /\ dev_id d = id /\ m = device_question hex_encode d
  | DeleteFolder id => m = folder_question id
  end.

Definition popup_ok (p : Popup) (form : option FormState) (confirm : option ConfirmAction) (c : Config) : Prop :=
  (is_form_popup p = true -> exists f, form = Some f /\ form_ok (adds_device p) f) /\
  (forall t m, p = PopConfirm t m -> exists x, confirm = Some x /\ names m x c).

Record app_ok (a : App) : Prop := mkAppOk {
  ak_logs : logs_ok (ap_logs a);
  ak_lists : lists_ok (ap_lists a) (ap_config a);
  ak_popup : popup_ok (ap_popup a) (ap_form a) (ap_confirm a) (ap_config a);
}.

Lemma app_new_ok c disk service : app_ok (app_new c disk service).
Proof.
  split.
  - split; cbn; try done. unfold LOG_BUFFER_CAP. lia.
  - split; cbn; try done; [destruct (cfg_devices c)|destruct (cfg_folders c)]; try done; cbn; lia.
  - by split.
Qed.

(** A save that works: the file has the configuration, the lists are current. *)
Lemma save_and_log_ok k a : ke_save_error k = None -> logs_ok (ap_logs a) -> popup_ok (ap_popup a) (ap_form a) (ap_confirm a) (ap_config a) ->
  app_ok (save_and_log lower k a) /\ ap_config (save_and_log lower k a) = ap_config a /\
  ap_disk (save_and_log lower k a) = Some (ap_config a).
Proof.
  intros Hs Hl Hp. unfold save_and_log. rewrite Hs.
  set (b := recompute_lists lower (push_log lower ($"Config saved.") (set_saved (Some (ap_config a)) a))).
  assert (Hb : app_ok b).
  { split; [by apply log_push_ok|apply (recompute_lists_ok (push_log lower ($"Config saved.") (set_saved (Some (ap_config a)) a)))|done]. }
  destruct (ap_service b); (split; [|done]); [|done]. destruct Hb as [H1 H2 H3]. by split.
Qed.

Lemma popup_ok_simple p form confirm c : is_form_popup p = false -> (forall t m, p <> PopConfirm t m) -> popup_ok p form confirm c.
Proof. intros Hp Hc. split; [by rewrite Hp|]. intros t m E. by apply Hc in E. Qed.

(** A change that leaves logs, configuration and lists alone. *)
Lemma same_parts a a' : app_ok a -> ap_logs a' = ap_logs a -> ap_lists a' = ap_lists a -> ap_config a' = ap_config a ->
  popup_ok (ap_popup a') (ap_form a') (ap_confirm a') (ap_config a') -> app_ok a'.
Proof. intros [H1 H2 H3] El Es Ec Hp. split; [by rewrite El|by rewrite Es, Ec|done]. Qed.

(** The one way to crash: Up in a list, when the common position, moved in the
    other list, is beyond its end. *)
Definition lost_selection (k : KeyEvent) (a : App) : Prop :=
  ke_code k = KcUp /\ ap_popup a = PopNone /\ exists n, li_selected (ap_lists a) = S n /\
  (ap_tab a = TabDevices /\ (length (li_devices (ap_lists a)) <= n)%nat \/
   ap_tab a = TabFolders /\ (length (li_folders (ap_lists a)) <= n)%nat).

(** A handler that only looks and moves. *)
Definition key_quiet (k : KeyEvent) (a : App) (r : option App) : Prop :=
  match r with
  | Some a' => app_ok a' /\ ap_config a' = ap_config a
  | None => lost_selection k a
  end.

Lemma select_device_ok k sel a : app_ok a -> (li_devices (ap_lists a) !! sel = None -> lost_selection k a) ->
  key_quiet k a (select_device sel a).
Proof.
  intros [H1 [E1 E2 E3 E4] H3] Hn. unfold select_device. destruct (li_devices (ap_lists a) !! sel) as [i|] eqn:Ei; [|by apply Hn].
  cbn. split; [|done]. split; [done| |done]. split; cbn; try done. intros _. apply list_elem_of_lookup_2 in Ei. rewrite E1 in Ei.
  by apply filtered_bound in Ei.
Qed.

Lemma select_folder_ok k sel a : app_ok a -> (li_folders (ap_lists a) !! sel = None -> lost_selection k a) ->
  key_quiet k a (select_folder sel a).
Proof.
  intros [H1 [E1 E2 E3 E4] H3] Hn. unfold select_folder. destruct (li_folders (ap_lists a) !! sel) as [i|] eqn:Ei; [|by apply Hn].
  cbn. split; [|done]. split; [done| |done]. split; cbn; try done. intros _. apply list_elem_of_lookup_2 in Ei. rewrite E2 in Ei.
  by apply filtered_bound in Ei.
Qed.

Lemma key_quiet_refl k a : app_ok a -> key_quiet k a (Some a).
Proof. by split. Qed.

Lemma list_moves_ok k a : app_ok a -> ap_popup a = PopNone -> ke_code k = KcUp -> key_quiet k a (list_up a).
Proof.
  intros Ha Hp Hk. unfold list_up.
  destruct (ap_tab a) eqn:Et; destruct (li_selected (ap_lists a)) as [|n] eqn:En; try (by apply key_quiet_refl).
  - apply select_device_ok; [done|]. intros Hn%lookup_ge_None_1. split_and!; try done. exists n. split; [done|]. by left.
  - apply select_folder_ok; [done|]. intros Hn%lookup_ge_None_1. split_and!; try done. exists n. split; [done|]. by right.
Qed.

Lemma list_down_ok k a : app_ok a -> key_quiet k a (list_down a).
Proof.
  intros Ha. unfold list_down. destruct (ap_tab a); try (by apply key_quiet_refl).
  - destruct (Nat.ltb_spec (S (li_selected (ap_lists a))) (length (li_devices (ap_lists a)))); [|by apply key_quiet_refl].
    apply select_device_ok; [done|]. intros Hn%lookup_ge_None_1. lia.
  - destruct (Nat.ltb_spec (S (li_selected (ap_lists a))) (length (li_folders (ap_lists a)))); [|by apply key_quiet_refl].
    apply select_folder_ok; [done|]. intros Hn%lookup_ge_None_1. lia.
Qed.

Lemma set_filter_ok q a : app_ok a -> app_ok (set_filter lower q a).
Proof. intros [H1 H2 H3]. split; [done| |done]. unfold set_filter. set (b := set_lists _ a).
  change (ap_config (recompute_lists lower b)) with (ap_config b). apply recompute_lists_ok.
Qed.

Lemma device_form_ok id name addr editable : form_ok false (device_form id name addr editable) /\ form_ok true (device_form [] name addr editable).
Proof. split; split; cbn; try done; try lia. intros _. by repeat constructor. Qed.

Lemma folder_form_ok id path editable : form_ok false (folder_form id path editable).
Proof. split; cbn; try done. lia. Qed.

Lemma open_add_ok k a : app_ok a -> key_quiet k a (Some (open_add a)).
Proof.
  intros Ha. unfold open_add. destruct (ap_tab a); try (by apply key_quiet_refl); (split; [|done]); eapply (same_parts a); try done;
    (split; [|done]); intros _; eexists; (split; [done|]).
  - apply (device_form_ok []).
  - apply folder_form_ok.
Qed.

Lemma ask_delete_ok k a : app_ok a -> key_quiet k a (ask_delete hex_encode a).
Proof.
  intros Ha. destruct (ak_lists a Ha) as [_ _ H3 H4]. unfold ask_delete.
  destruct (ap_tab a); try (by apply key_quiet_refl).
  - destruct (li_devices (ap_lists a)) as [|i ds] eqn:El; [by apply key_quiet_refl|].
    destruct (lookup_lt_is_Some_2 (cfg_devices (ap_config a)) (li_device (ap_lists a))) as [d Hd]; [by apply H3|]. rewrite Hd. cbn.
    split; [|done]. apply (same_parts a); try done. split; [done|]. intros t m E. injection E as <- <-. eexists. split; [done|].
    exists d. split_and!; try done. by eapply list_elem_of_lookup_2.
  - destruct (li_folders (ap_lists a)) as [|i ds] eqn:El; [destruct (li_devices (ap_lists a)); by apply key_quiet_refl|].
    destruct (lookup_lt_is_Some_2 (cfg_folders (ap_config a)) (li_folder (ap_lists a))) as [d Hd]; [by apply H4|].
    replace (match li_devices (ap_lists a) with [] | _ => _ end) with
      (d ← cfg_folders (ap_config a) !! li_folder (ap_lists a);
       Some (set_popup (PopConfirm ($"Confirm Delete") (folder_question (folder_id d))) (set_confirm (Some (DeleteFolder (folder_id d))) a)))
      by (by destruct (li_devices (ap_lists a))).
    rewrite Hd. cbn. split; [|done]. apply (same_parts a); try done. split; [done|]. intros t m E. injection E as <- <-. by eexists.
Qed.

Lemma open_edit_ok k a : app_ok a -> key_quiet k a (Some (open_edit a)).
Proof.
  intros Ha. unfold open_edit.
  destruct (ap_tab a), (li_devices (ap_lists a)), (li_folders (ap_lists a)); try (by apply key_quiet_refl);
    (case_match; [|by apply key_quiet_refl]); (split; [|done]); apply (same_parts a); try done; (split; [|done]); intros _; eexists;
    (split; [done|]); try apply folder_form_ok; apply device_form_ok.
Qed.

Lemma edit_ignores_ok k a : app_ok a -> key_quiet k a (Some (edit_ignores k a)).
Proof.
  intros Ha. destruct (Ha) as [H1 H2 H3]. unfold edit_ignores.
  destruct (ap_tab a), (li_folders (ap_lists a)), (cfg_folders (ap_config a) !! li_folder (ap_lists a)); try exact (key_quiet_refl k a Ha).
  destruct (ke_ignore_exists k); cbn [ap_service add_effect]; destruct (ap_service a); (split; [|done]);
    apply (same_parts a); done || exact H3.
Qed.

Lemma handle_tab_key_ok k a : app_ok a -> ap_popup a = PopNone -> key_quiet k a (handle_tab_key lower hex_encode k a).
Proof.
  intros Ha Hp. unfold handle_tab_key.
  assert (Htab : forall t, key_quiet k a (Some (set_tab t a))) by
    (intros t; split; [apply (same_parts a); done || exact (ak_popup a Ha)|done]).
  assert (Hfilter : key_quiet k a (Some (open_filter a))).
  { unfold open_filter. destruct (ap_tab a); try (by apply key_quiet_refl); (split; [|done]); apply (same_parts a); try done;
      by apply popup_ok_simple. }
  assert (Hclear : key_quiet k a (Some (clear_filter lower a))).
  { unfold clear_filter. destruct (ap_tab a); try (by apply key_quiet_refl); (split; [|done]); by apply set_filter_ok. }
  pose proof (open_add_ok k a Ha). pose proof (ask_delete_ok k a Ha). pose proof (open_edit_ok k a Ha).
  pose proof (edit_ignores_ok k a Ha). pose proof (key_quiet_refl k a Ha). pose proof (list_down_ok k a Ha).
  destruct (ke_code k) as [c| | | | | | | | | | | | | | | |n|] eqn:Ek; try done; [|by apply list_moves_ok].
  repeat (case_match; [done|]). done.
Qed.

(** ** Changes of the configuration *)

(** What submitting a form may do. *)
Inductive submission (c : Config) : Popup -> Config -> Prop :=
| sub_add_device d text : parse_id unicode_alphanumeric hex_decode text = Some (Ok (dev_id d)) ->
    submission c PopAddDevice (set_devices c (cfg_devices c ++ [d]))
| sub_edit_device i d d' : cfg_devices c !! i = Some d -> dev_id d' = dev_id d ->
    submission c PopEditDevice (set_devices c (<[i := d']> (cfg_devices c)))
| sub_add_folder f : validate_folder_id unicode_alphanumeric (folder_id f) = Ok tt -> validate_path (folder_path f) = Ok tt ->
    submission c PopAddFolder (set_folders c (cfg_folders c ++ [f]))
| sub_edit_folder i f f' : cfg_folders c !! i = Some f -> folder_id f' = folder_id f -> validate_path (folder_path f') = Ok tt ->
    submission c PopEditFolder (set_folders c (<[i := f']> (cfg_folders c))).

(** What a deletion may do. *)
Definition deletes (c : ConfirmAction) (x y : Config) : Prop :=
  match c with
  | DeleteDevice id =>
      (forall d, d ∈ cfg_devices y <-> d ∈ cfg_devices x /\ dev_id d <> id) /\
      folder_id <$> cfg_folders y = folder_id <$> cfg_folders x /\ folder_path <$> cfg_folders y = folder_path <$> cfg_folders x /\
      (forall f, f ∈ cfg_folders y -> id ∉ folder_devices f)
  | DeleteFolder id => cfg_devices y = cfg_devices x /\ (forall f, f ∈ cfg_folders y <-> f ∈ cfg_folders x /\ folder_id f <> id)
  end.

Lemma confirmed_config_deletes c x : deletes c x (confirmed_config c x).
Proof.
  destruct c as [id|id]; cbn.
  - split_and!.
    + intros d. rewrite list_elem_of_filter. tauto.
    + rewrite <- list_fmap_compose. by apply list_fmap_ext.
    + rewrite <- list_fmap_compose. by apply list_fmap_ext.
    + intros f (g & -> & _)%list_elem_of_fmap. cbn. rewrite list_elem_of_filter. tauto.
  - split; [done|]. intros f. rewrite list_elem_of_filter. tauto.
Qed.

(** The user has asked for the change: by submitting a form, or by answering
    the question that names what is deleted. *)
Definition asked_for (k : KeyEvent) (a a' : App) : Prop :=
  (ke_code k = KcEnter /\ submission (ap_config a) (ap_popup a) (ap_config a')) \/
  (exists t m c, ap_popup a = PopConfirm t m /\ (pressed k "y" = true \/ pressed k "Y" = true) /\ names m c (ap_config a) /\
     deletes c (ap_config a) (ap_config a')).

Definition key_outcome (k : KeyEvent) (a : App) (r : option App) : Prop :=
  match r with
  | Some a' => app_ok a' /\ (ap_config a' = ap_config a \/ ap_disk a' = Some (ap_config a') /\ asked_for k a a')
  | None => lost_selection k a
  end.

Lemma quiet_outcome k a r : key_quiet k a r -> key_outcome k a r.
Proof. destruct r as [a'|]; [|done]. intros [H1 H2]. split; [done|]. by left. Qed.

(** A form that is saved and closed. *)
Lemma submit_saved k a b : app_ok a -> ke_save_error k = None -> ke_code k = KcEnter -> ap_logs b = ap_logs a ->
  submission (ap_config a) (ap_popup a) (ap_config b) -> key_outcome k a (Some (save_and_log lower k (close_form b))).
Proof.
  intros Ha Hs Hk El Hsub.
  destruct (save_and_log_ok k (close_form b)) as (H1 & H2 & H3); [done|cbn; rewrite El; apply (ak_logs a Ha)|by apply popup_ok_simple|].
  split; [done|]. right. rewrite H2, H3. split; [done|]. left. split; [done|]. rewrite H2. exact Hsub.
Qed.

(** A form that stays open. *)
Lemma form_stays k a b f : app_ok a -> ap_logs b = ap_logs a -> ap_lists b = ap_lists a -> ap_config b = ap_config a ->
  ap_popup b = ap_popup a -> ap_confirm b = ap_confirm a -> is_form_popup (ap_popup a) = true ->
  ap_form b = Some f -> form_ok (adds_device (ap_popup a)) f -> key_outcome k a (Some b).
Proof.
  intros Ha El Es Ec Ep Eq Hp Ef Hf. split; [|by left]. apply (same_parts a); try done. rewrite Ep, Ef. split; [|intros t m E; by rewrite E in Hp].
  intros _. by eexists.
Qed.

Lemma set_error_ok add e f : form_ok add f -> form_ok add (set_error e f).
Proof. by intros [H1 H2 H3]. Qed.

Lemma set_focus_ok add n f : (n <= length (fo_fields f))%nat -> form_ok add f -> form_ok add (set_focus n f).
Proof. by intros Hn [H1 H2 H3]. Qed.

Lemma entered_id_ascii f : form_ok true f -> ascii_text (entered DEVICE_ID_FIELD f).
Proof.
  intros [_ _ H]. specialize (H eq_refl). unfold entered, form_value. apply trim_Forall.
  destruct (List.find _ _) as [x|] eqn:E; [|done]. apply List.find_some in E as [Hin Hn]. cbn.
  rewrite Forall_forall in H. apply (H x); [by apply list_elem_of_In|]. by apply bool_decide_eq_true in Hn.
Qed.

Lemma submit_form_ok k f a : app_ok a -> ke_save_error k = None -> ke_code k = KcEnter -> is_form_popup (ap_popup a) = true ->
  form_ok (adds_device (ap_popup a)) f -> key_outcome k a (submit_form lower unicode_alphanumeric hex_decode k f (set_form (Some f) a)).
Proof.
  intros Ha Hs Hk Hp Hf. unfold submit_form. cbn [ap_popup set_form].
  assert (Hstay : forall e, key_outcome k a (Some (set_form (Some (set_error e f)) (set_form (Some f) a)))).
  { intros e. eapply (form_stays k a _ (set_error e f)); try done. by apply set_error_ok. }
  assert (Hopen : key_outcome k a (Some (set_form (Some f) a))) by (by eapply (form_stays k a _ f)).
  destruct (ap_popup a) eqn:Epop; try done.
  - unfold submit_add_device. destruct (parse_id_no_panic unicode_alphanumeric hex_decode (entered DEVICE_ID_FIELD f)) as [r Hr];
      [by apply entered_id_ascii|].
    unfold validate_device_id. case_decide; [apply Hstay|]. rewrite Hr. cbn [mbind option_bind]. destruct r as [id|e]; [|apply Hstay].
    rewrite ?Hr. cbn [mbind option_bind]. apply submit_saved; try done. rewrite Epop. eapply (sub_add_device _ _ _). exact Hr.
  - unfold submit_add_folder. destruct (validate_folder_id _ _) as [[]|e] eqn:E1; [|apply Hstay].
    destruct (validate_path _) as [[]|e] eqn:E2; [|apply Hstay].
    apply submit_saved; try done. rewrite Epop. by apply sub_add_folder.
  - unfold submit_edit_device. cbn [ap_lists ap_config set_form]. destruct (cfg_devices (ap_config a) !! _) as [d|] eqn:Ed; [|done].
    apply submit_saved; try done. rewrite Epop. by eapply sub_edit_device.
  - unfold submit_edit_folder. destruct (validate_path _) as [[]|e] eqn:E2; [|apply Hstay].
    cbn [ap_lists ap_config set_form]. destruct (cfg_folders (ap_config a) !! _) as [g|] eqn:Eg; [|done].
    apply submit_saved; try done. rewrite Epop. by eapply sub_edit_folder.
Qed.

Lemma device_list_key_ok k f a r : app_ok a -> is_form_popup (ap_popup a) = true -> ap_form a = Some f ->
  form_ok (adds_device (ap_popup a)) f -> handle_device_list_key k f a = Some r -> key_outcome k a (Some r).
Proof.
  intros Ha Hp Ef Hf E. unfold handle_device_list_key in E.
  destruct (ke_code k); try discriminate E; injection E as E; rewrite <- E; try case_match;
    (lazymatch goal with |- key_outcome _ _ (Some (set_form (Some ?g) _)) => apply (form_stays k a _ g) | _ => apply (form_stays k a _ f) end);
    try done; apply set_focus_ok; try done; lia.
Qed.

Lemma handle_popup_key_ok k a : app_ok a -> ke_save_error k = None -> is_form_popup (ap_popup a) = true ->
  key_outcome k a (handle_popup_key lower unicode_alphanumeric hex_decode k a).
Proof.
  intros Ha Hs Hp. unfold handle_popup_key. destruct (proj1 (ak_popup a Ha) Hp) as (f & Ef & Hf). rewrite Ef.
  destruct (_ && negb (is_on_list f) && _).
  { eapply (form_stays k a _ (set_focus (length (fo_fields f)) f)); try done. by apply set_focus_ok. }
  match goal with |- context [match ?x with Some _ => _ | None => _ end] => destruct x as [r|] eqn:El end.
  { destruct (is_folder_popup _ && _); [|done]. by eapply device_list_key_ok. }
  destruct (handle_form_key_ok (adds_device (ap_popup a)) k f Hf) as (action & f' & E & Hf' & Hsub). rewrite E. cbn [mbind option_bind].
  destruct action.
  - by eapply (form_stays k a _ f').
  - apply submit_form_ok; try done. by apply Hsub.
  - split; [|by left]. apply (same_parts a); done || by apply popup_ok_simple.
Qed.

Lemma handle_confirm_key_ok k a t m : app_ok a -> ke_save_error k = None -> ap_popup a = PopConfirm t m ->
  key_outcome k a (Some (handle_confirm_key lower k a)).
Proof.
  intros Ha Hs Hp. unfold handle_confirm_key. destruct (proj2 (ak_popup a Ha) t m Hp) as (c & Ec & Hn).
  destruct (pressed k "y" || pressed k "Y") eqn:Ey.
  - rewrite Ec. unfold run_confirm. set (b := match c with DeleteDevice _ => _ | DeleteFolder _ => _ end).
    assert (Hb : ap_logs b = ap_logs a /\ ap_config b = confirmed_config c (ap_config a)) by (by destruct c).
    destruct Hb as [Hb1 Hb2].
    destruct (save_and_log_ok k (set_popup PopNone b)) as (H1 & H2 & H3);
      [done|cbn; rewrite Hb1; apply (ak_logs a Ha)|by apply popup_ok_simple|].
    assert (E : set_popup PopNone (save_and_log lower k b) = save_and_log lower k (set_popup PopNone b)).
    { unfold save_and_log. rewrite Hs. cbn. destruct (ap_service b); done. }
    rewrite E. split; [done|]. right. rewrite H2, H3. split; [done|]. right. exists t, m, c. split_and!; try done.
    + by apply orb_true_iff in Ey.
    + rewrite H2. cbn. rewrite Hb2. apply confirmed_config_deletes.
  - case_match; [|split; [done|by left]]. split; [|by left]. apply (same_parts a); done || by apply popup_ok_simple.
Qed.

Lemma handle_filter_popup_key_ok k q a : app_ok a -> key_outcome k a (Some (handle_filter_popup_key lower k q a)).
Proof.
  intros Ha. apply quiet_outcome. unfold handle_filter_popup_key.
  assert (Hset : forall p, is_form_popup p = false -> (forall t m, p <> PopConfirm t m) -> app_ok (set_popup p a)).
  { intros p Hp Hc. apply (same_parts a); try done. by apply popup_ok_simple. }
  destruct (query_key k q) as [q'|[]]; (split; [|done]); [|apply set_filter_ok|]; by apply Hset.
Qed.

Lemma handle_search_popup_key_ok k q a : app_ok a -> key_outcome k a (Some (handle_search_popup_key lower k q a)).
Proof.
  intros Ha. apply quiet_outcome. unfold handle_search_popup_key.
  assert (Hset : forall p, is_form_popup p = false -> (forall t m, p <> PopConfirm t m) -> app_ok (set_popup p a)).
  { intros p Hp Hc. apply (same_parts a); try done. by apply popup_ok_simple. }
  destruct (query_key k q) as [q'|[]]; (split; [|done]); try (by apply Hset).
  destruct (ak_logs a Ha) as [H1 _ _ _]. pose proof (recompute_logs_ok (mkLogs (lg_lines (ap_logs a)) (lg_level (ap_logs a))
    (lg_scroll (ap_logs a)) (Some q) (lg_matches (ap_logs a)) (lg_selected (ap_logs a))) H1) as [K1 K2 K3 K4].
  destruct Ha as [_ A2 _]. split; [|exact A2|by apply popup_ok_simple]. split; try done. cbn in *.
  match goal with |- ?m <> [] -> _ => generalize m end. intros [|x m] Hm; [done|]. cbn. lia.
Qed.

Lemma select_match_ok sel l : logs_ok l -> lg_matches l <> [] -> (sel < length (lg_matches l))%nat ->
  exists l', select_match sel l = Some l' /\ logs_ok l'.
Proof.
  intros [H1 H2 H3 H4] Hm Hs. unfold select_match. rewrite (proj2 (Nat.leb_le _ _)) by lia. eexists. split; [done|]. by split.
Qed.

Lemma handle_logs_key_ok k a : app_ok a -> ap_popup a = PopNone ->
  exists r, handle_logs_key k a = Some r /\ (forall a', r = inl a' -> key_quiet k a (Some a')).
Proof.
  intros Ha Hp. destruct (ak_logs a Ha) as [H1 H2 H3 H4]. unfold handle_logs_key.
  assert (Hlogs : forall l, logs_ok l -> key_quiet k a (Some (set_logs l a))).
  { intros l Hl. destruct Ha as [_ A2 A3]. split; [|done]. by split. }
  assert (Hscroll : forall n, exists r : App + unit, Some (inl (set_logs (set_scroll n (ap_logs a)) a)) = Some r /\
            (forall a', r = inl a' -> key_quiet k a (Some a'))).
  { intros n. eexists. split; [done|]. intros a' [= <-]. apply Hlogs. by split. }
  assert (Hnot : exists r : App + unit, Some (inr tt) = Some r /\ (forall a', r = inl a' -> key_quiet k a (Some a'))).
  { eexists. split; [done|]. by intros. }
  destruct (ke_code k) as [c| | | | | | | | | | | | | | | |n|]; try apply Hscroll; try apply Hnot.
  - repeat (case_match; [try apply Hscroll|]); try apply Hnot.
    + eexists. split; [done|]. intros a' [= <-]. split; [|done]. apply (same_parts a); done || by apply popup_ok_simple.
    + unfold next_match. destruct (lg_matches (ap_logs a)) as [|x ms] eqn:Em.
      { eexists. split; [done|]. intros a' [= <-]. apply Hlogs. apply (ak_logs a Ha). }
      rewrite <- Em in *. destruct (select_match_ok (S (lg_selected (ap_logs a)) `min` (length (lg_matches (ap_logs a)) - 1)) (ap_logs a))
        as (l' & -> & Hl'); [apply (ak_logs a Ha)|by rewrite Em|rewrite Em; cbn [length]; lia|].
      cbn. eexists. split; [done|]. intros a' [= <-]. by apply Hlogs.
    + unfold prev_match. destruct (lg_matches (ap_logs a)) as [|x ms] eqn:Em.
      { eexists. split; [done|]. intros a' [= <-]. apply Hlogs. apply (ak_logs a Ha). }
      rewrite <- Em in *. assert (Hne : lg_matches (ap_logs a) <> []) by (by rewrite Em). specialize (H4 Hne).
      destruct (select_match_ok (lg_selected (ap_logs a) - 1) (ap_logs a)) as (l' & -> & Hl'); [apply (ak_logs a Ha)|done|lia|].
      cbn. eexists. split; [done|]. intros a' [= <-]. by apply Hlogs.
  - eexists. split; [done|]. intros a' [= <-]. apply Hlogs. by split.
Qed.

Definition without_exit (r : option (bool * App)) : option App := snd <$> r.

Lemma handle_event_ok k a : app_ok a -> ke_save_error k = None ->
  key_outcome k a (without_exit (handle_event lower unicode_alphanumeric hex_encode hex_decode k a)).
Proof.
  intros Ha Hs. pose proof (quiet_outcome k a (Some a) (key_quiet_refl k a Ha)) as Hsame.
  unfold handle_event. destruct (ke_press k); [|done]. unfold handle_key.
  assert (Hpop : forall p, is_form_popup p = false -> (forall t m, p <> PopConfirm t m) -> key_outcome k a (Some (set_popup p a))).
  { intros p Hp Hc. apply quiet_outcome. split; [|done]. apply (same_parts a); try done. by apply popup_ok_simple. }
  assert (Hstay : forall o, without_exit (let+ a := o in Some (false, a)) = o) by (by intros [b|]).
  do 3 (case_match; [try done; try (by apply Hpop)|]).
  case_match.
  { apply quiet_outcome. split; [|done]. destruct Ha as [[A1 A2 A3 A4] B C]. split; [by apply log_push_ok|done|done]. }
  destruct (ap_popup a) eqn:Ep; rewrite ?Hstay; try (by apply handle_popup_key_ok; rewrite ?Ep); try (by apply Hpop).
  - assert (Htab : key_outcome k a (without_exit (let+ a0 := handle_tab_key lower hex_encode k a in Some (false, a0)))).
    { rewrite Hstay. apply quiet_outcome. by apply handle_tab_key_ok. }
    destruct (ap_tab a); try done. destruct (handle_logs_key_ok k a Ha Ep) as (r & -> & Hr). cbn [mbind option_bind].
    destruct r as [a'|]; [|done]. apply quiet_outcome. by apply Hr.
  - by apply handle_search_popup_key_ok.
  - by apply handle_filter_popup_key_ok.
  - by eapply handle_confirm_key_ok.
Qed.

(** Key presses one after the other. *)
Fixpoint tui_run (ks : list KeyEvent) (a : App) : option App :=
  match ks with
  | [] => Some a
  | k :: ks' => let+ a := without_exit (handle_event lower unicode_alphanumeric hex_encode hex_decode k a) in tui_run ks' a
  end.

Lemma tui_run_ok ks a a' : app_ok a -> Forall (fun k => ke_save_error k = None) ks -> tui_run ks a = Some a' -> app_ok a'.
Proof.
  revert a. induction ks as [|k ks IH]; intros a Ha Hs E; cbn in E; [by simplify_eq|]. apply Forall_cons in Hs as [Hk Hs].
  pose proof (handle_event_ok k a Ha Hk) as Ho. destruct (without_exit _) as [b|]; [|done]. cbn in E. destruct Ho as [Hb _]. by apply (IH b).
Qed.
End Sound.

(** C26: The configuration editor does what it was asked and no more: as long as
    saving works, after any key presses a further one either leaves the
    configuration as it is, or saves the new one, which comes from a form that
    was submitted with Enter (an entry added with a valid name, or the entry
    edited, its identifier kept) or from answering yes to the question that names
    what is deleted; it crashes in one situation only: Up in a list, when the
    position that both lists share is beyond its end. *)
Theorem tui_changes_asked_for (lower : str -> str) (unicode_alphanumeric : Z -> bool) (hex_encode : list Z -> str)
    (hex_decode : list Z -> option (list Z)) (config : Config) (disk : option Config) (service : bool) (ks : list KeyEvent) (k : KeyEvent)
    (a : App) :
  Forall (fun k => ke_save_error k = None) (k :: ks) ->
  tui_run lower unicode_alphanumeric hex_encode hex_decode ks (app_new config disk service) = Some a ->
  match handle_event lower unicode_alphanumeric hex_encode hex_decode k a with
  | Some (_, a') => ap_config a' = ap_config a \/
      ap_disk a' = Some (ap_config a') /\ asked_for unicode_alphanumeric hex_encode hex_decode k a a'
  | None => lost_selection k a
  end.
Proof.
  intros [Hk Hs]%Forall_cons E. pose proof (tui_run_ok _ _ _ _ _ _ _ (app_new_ok lower hex_encode config disk service) Hs E) as Ha.
  pose proof (handle_event_ok lower unicode_alphanumeric hex_encode hex_decode k a Ha Hk) as Ho.
  destruct (handle_event _ _ _ _ k a) as [[ex a']|]; [by destruct Ho|exact Ho].
Qed.

(** ** A small interface *)

Module TuiExamples.
Definition press (c : KeyCode) : KeyEvent := mkKeyEvent c true false false None None None false.
Definition no_alnum (c : Z) : bool := false.
Definition no_hex_text (bs : list Z) : str := [].
Definition no_hex_bytes (s : list Z) : option (list Z) := None.
Definition same_case (s : str) : str := s.
Definition run : list KeyEvent -> App -> option App := tui_run same_case no_alnum no_hex_text no_hex_bytes.
Definition device (n : Z) (addrs : list AddressType) : Device := mkDevice (mkDeviceId (replicate 32 n)) None addrs false false.
Definition folder (id : str) : Folder := folder_new id ($"/" ++ id).
Definition editor (ds : list Device) (fs : list Folder) : App :=
  app_new (set_folders (set_devices config_new ds) fs) None false.
End TuiExamples.
Import TuiExamples.

Lemma tui_changes_asked_for_witness :
  let a := run [press KcRight; press KcRight; press (KcChar (ch "d"))] (editor [] [folder ($"a"); folder ($"b")]) in
  exists a1 a2, a = Some a1 /\
    handle_event same_case no_alnum no_hex_text no_hex_bytes (press (KcChar (ch "y"))) a1 = Some (false, a2) /\
    ap_disk a2 = Some (ap_config a2) /\ asked_for no_alnum no_hex_text no_hex_bytes (press (KcChar (ch "y"))) a1 a2 /\
    cfg_folders (ap_config a2) = [folder ($"b")].
Proof.
  intros a. destruct a as [a1|] eqn:E; [|discriminate E].
  pose proof (tui_changes_asked_for same_case no_alnum no_hex_text no_hex_bytes
    (set_folders (set_devices config_new []) [folder ($"a"); folder ($"b")]) None false
    [press KcRight; press KcRight; press (KcChar (ch "d"))] (press (KcChar (ch "y"))) a1 ltac:(repeat constructor) E) as H.
  destruct (handle_event same_case no_alnum no_hex_text no_hex_bytes (press (KcChar (ch "y"))) a1) as [[ex a2]|] eqn:E2;
    unfold a in E; vm_compute in E; injection E as <-; vm_compute in E2; [|discriminate E2]. injection E2 as <- <-.
  eexists _, _. split; [reflexivity|]. split; [reflexivity|].
  destruct H as [H|[H1 H2]]; [discriminate H|]. split; [reflexivity|]. split; [exact H2|reflexivity].
Defined.

(** The position is shared by the two lists: after the third folder was
    selected, Up in a list of one device is out of range. *)
Example up_in_other_list_crashes :
  run [press KcRight; press KcRight; press KcDown; press KcDown; press KcLeft; press KcUp]
    (editor [device 1 [Dynamic]] [folder ($"a"); folder ($"b"); folder ($"c")]) = None.
Proof. vm_compute. reflexivity. Qed.

(** And the highlighted device is not the one that is edited or deleted. *)
Example highlight_is_not_selection :
  exists a, run [press KcRight; press KcRight; press KcDown; press KcLeft]
              (editor [device 1 [Dynamic]; device 2 [Dynamic]] [folder ($"a"); folder ($"b")]) = Some a /\
    ap_tab a = TabDevices /\ li_devices (ap_lists a) !! li_selected (ap_lists a) = Some 1%nat /\ li_device (ap_lists a) = 0%nat.
Proof. eexists. split_and!; (vm_compute; reflexivity). Qed.

(** When a save fails the lists keep the deleted entry: deleting again is out of
    range. *)
Example failed_save_crashes :
  run [press KcRight; press (KcChar (ch "d")); mkKeyEvent (KcChar (ch "y")) true false false None None (Some ($"disk full")) false;
       press (KcChar (ch "d"))] (editor [device 1 [Dynamic]] []) = None.
Proof. vm_compute. reflexivity. Qed.

(** Opening a device and submitting the form unchanged puts the scheme into the
    address, which then is no address any more. *)
Example edit_breaks_address :
  exists a, run [press KcRight; press KcEnter; press KcEnter] (editor [device 1 [Tcp ($"10.0.0.1:22000")]] []) = Some a /\
    dev_addresses <$> cfg_devices (ap_config a) = [[Tcp ($"tcp://10.0.0.1:22000")]] /\
    length (device_tcp_addrs (device 1 [Tcp ($"10.0.0.1:22000")])) = 1%nat /\
    mbind device_tcp_addrs (cfg_devices (ap_config a)) = [].
Proof.
  eexists. split; [vm_compute; reflexivity|]. split; [vm_compute; reflexivity|]. split; vm_compute; reflexivity.
Qed.

(** A device can be added twice. *)
Example device_added_twice :
  let id := device_text (mkDeviceId (replicate 32 1)) in
  let paste := mkKeyEvent KcInsert true false true (Some id) None None false in
  exists a, run [press KcRight; press (KcChar (ch "a")); paste; press KcEnter] (editor [device 1 [Dynamic]] []) = Some a /\
    dev_id <$> cfg_devices (ap_config a) = [mkDeviceId (replicate 32 1); mkDeviceId (replicate 32 1)].
Proof. eexists. split; (vm_compute; reflexivity). Qed.

(** At level INFO the errors are filtered out. *)
Example errors_are_hidden :
  take_lines_filtered 100 LvInfo (mkMemoryBuffer [mkLogEntry ($"e") LvError; mkLogEntry ($"i") LvInfo] 1000) = [mkLogEntry ($"i") LvInfo].
Proof. vm_compute. reflexivity. Qed.

(** The buffer is not emptied: every tick copies the same lines again. *)
Example log_lines_repeat :
  let b := mkMemoryBuffer [mkLogEntry ($"a") LvInfo; mkLogEntry ($"b") LvInfo] 1000 in
  let copy l := foldl (copy_log same_case) l (take_lines_filtered 100 (lg_level l) b) in
  lg_lines (copy (copy (mkLogs [] LvInfo 0 None [] 0))) = [$"a"; $"b"; $"a"; $"b"].
Proof. vm_compute. reflexivity. Qed.

(** Devices stay listed as connected after the daemon was stopped. *)
Example stopped_daemon_connected d live :
  let s := mkTuiState (editor [] []) (mkTuiDaemon false false true true (Some false)) ($"Running") None [d] ∅ ∅ 0 in
  let i := mkTickInput true live (mkMemoryBuffer [] 1000) (fun _ => true) true in
  ts_connected (tui_tick same_case i (press_f5 same_case true true s)) = [d].
Proof. vm_compute. reflexivity. Qed.
