(* ===== verification/Vault.v ===== *)
(** * The vault encryption adapter ([crates/obsidian-vault-crypto-adapter])

    Key derivation, the format of encrypted names and contents, and the mirror
    of a vault directory in both directions, over directories as maps from
    relative paths to files and subdirectories.  The ciphers, the key derivation
    functions, the base32 coding and Unicode case mapping are interfaces with
    laws; the order of a directory walk, random nonces and failing disk
    operations are inputs. *)

From S2P Require Import Prelude Core Bep Wire.

(** ** Interfaces *)

Class VaultCrypto := {
  argon2_hash : str -> list Z -> option (list Z);
  hkdf_expand : list Z -> list Z -> list Z -> nat -> option (list Z);
  gcm_encrypt : list Z -> list Z -> list Z -> option (list Z);
  gcm_decrypt : list Z -> list Z -> list Z -> option (list Z);
  siv_encrypt : list Z -> list Z -> option (list Z);
  siv_decrypt : list Z -> list Z -> option (list Z);
  b32_encode : list Z -> str;
  b32_decode : str -> option (list Z);
  unicode_lower : str -> str;
  unicode_upper : str -> str;
}.

(** Decryption inverts encryption, decoding inverts encoding, and upper case
    restores what base32 writes in lower case. *)
Class VaultCryptoLaws `{VaultCrypto} : Prop := {
  gcm_inverse k n p c : gcm_encrypt k n p = Some c -> gcm_decrypt k n c = Some p;
  siv_inverse k p c : siv_encrypt k p = Some c -> siv_decrypt k c = Some p;
  siv_bytes k p c : siv_encrypt k p = Some c -> Forall is_byte p -> Forall is_byte c;
  b32_inverse bs : Forall is_byte bs -> b32_decode (b32_encode bs) = Some bs;
  b32_case bs : unicode_upper (unicode_lower (b32_encode bs)) = b32_encode bs;
  b32_name bs : Forall is_byte bs -> utf8_valid (unicode_lower (b32_encode bs)) = true;
}.

Inductive VaultError :=
| VeIo | VeArgon2 | VeWalkdir | VeEncrypt | VeDecrypt | VeInvalidFormat | VeUnsupportedVersion (version : Z) | VeInvalidFilename.

Definition CONTENT_INFO : list Z := bytes_of_str ($"obsidian-vault-content-v1").
Definition FILENAME_INFO : list Z := bytes_of_str ($"obsidian-vault-filename-v1").
Definition FORMAT_VERSION : Z := 1.
Definition NONCE_LEN : nat := 12.
Definition SALT_LEN : nat := 16.

Record CryptoAdapter := mkCryptoAdapter { ca_content_key : list Z; ca_filename_key : list Z }.

(** ** Directories *)

(** A path is the list of its components below the root. *)
Abbreviation VPath := (list str).

Inductive VNode := VFile (content : list Z) | VDir.

Abbreviation VTree := (gmap VPath VNode).

(** The disk operations that work. *)
Record VaultIo := mkVaultIo {
  vi_root : bool;
  vi_read : VPath -> bool;
  vi_mkdir : VPath -> bool;
  vi_write : VPath -> bool;
}.

(** The directory that is written, and how many nonces were drawn. *)
Record VaultState := mkVaultState { vs_tree : VTree; vs_draws : nat }.

Abbreviation VaultM A := (SE VaultState VaultError A).

Definition on_tree (f : VTree -> VTree) (s : VaultState) : VaultState := mkVaultState (f (vs_tree s)) (vs_draws s).

(** The nonempty prefixes of a path, shortest first. *)
Fixpoint prefixes_from (done_ : VPath) (p : VPath) : list VPath :=
  match p with
  | [] => []
  | c :: p' => (done_ ++ [c]) :: prefixes_from (done_ ++ [c]) p'
  end.

(** [create_dir_all]: what exists is kept, a file in the way is an error. *)
Fixpoint mkdir_each (io : VaultIo) (ps : list VPath) : VaultM unit :=
  match ps with
  | [] => se_ret tt
  | p :: ps' => fun s =>
      match vs_tree s !! p with
      | Some VDir => mkdir_each io ps' s
      | Some (VFile _) => (Err VeIo, s)
      | None => if vi_mkdir io p then mkdir_each io ps' (on_tree <[p := VDir]> s) else (Err VeIo, s)
      end
  end.

Definition create_dir_all (io : VaultIo) (p : VPath) : VaultM unit := mkdir_each io (prefixes_from [] p).

(** [fs::write]: the parent has to be there, a directory is not overwritten. *)
Definition dir_exists_at (t : VTree) (p : VPath) : bool :=
  match p with [] => true | _ => match t !! p with Some VDir => true | _ => false end end.

Definition vault_write (io : VaultIo) (p : VPath) (content : list Z) : VaultM unit := fun s =>
  if vi_write io p && dir_exists_at (vs_tree s) (take (length p - 1) p) then
    match vs_tree s !! p with
    | Some VDir => (Err VeIo, s)
    | _ => (Ok tt, on_tree <[p := VFile content]> s)
    end
  else (Err VeIo, s).

Section Adapter.
Context `{VaultCrypto} (nonces : nat -> list Z).

(** ** Keys, names and contents *)

Definition from_password (password : str) (salt : list Z) : result VaultError CryptoAdapter :=
  let? master_key := ok_or (argon2_hash password salt) VeArgon2 in
  let? content_key := ok_or (hkdf_expand salt master_key CONTENT_INFO 32) VeEncrypt in
  let? filename_key := ok_or (hkdf_expand salt master_key FILENAME_INFO 64) VeEncrypt in
  Ok (mkCryptoAdapter content_key filename_key).

Definition encrypt_filename (a : CryptoAdapter) (name : str) : result VaultError str :=
  let? encrypted := ok_or (siv_encrypt (ca_filename_key a) (bytes_of_str name)) VeEncrypt in
  Ok (unicode_lower (b32_encode encrypted)).

Definition decrypt_filename (a : CryptoAdapter) (encrypted_name : str) : result VaultError str :=
  let? decoded := ok_or (b32_decode (unicode_upper encrypted_name)) VeInvalidFilename in
  let? plaintext := ok_or (siv_decrypt (ca_filename_key a) decoded) VeDecrypt in
  if utf8_valid (str_of_bytes plaintext) then Ok (str_of_bytes plaintext) else Err VeInvalidFilename.

Definition encrypt_content (a : CryptoAdapter) (plaintext : list Z) : VaultM (list Z) := fun s =>
  let nonce := nonces (vs_draws s) in
  (let? ciphertext := ok_or (gcm_encrypt (ca_content_key a) nonce plaintext) VeEncrypt in
   Ok (FORMAT_VERSION :: nonce ++ ciphertext),
   mkVaultState (vs_tree s) (S (vs_draws s))).

Definition decrypt_content (a : CryptoAdapter) (ciphertext : list Z) : result VaultError (list Z) :=
  if (length ciphertext <? 1 + NONCE_LEN)%nat then Err VeInvalidFormat
  else
    let version := nth 0 ciphertext 0 in
    if negb (version =? FORMAT_VERSION) then Err (VeUnsupportedVersion version)
    else ok_or (gcm_decrypt (ca_content_key a) (take NONCE_LEN (drop 1 ciphertext)) (drop (1 + NONCE_LEN) ciphertext)) VeDecrypt.

(** ** Directories *)

(** The components of the mirrored path. *)
Fixpoint map_names (f : str -> result VaultError str) (p : VPath) : result VaultError VPath :=
  match p with
  | [] => Ok []
  | c :: p' =>
      let? c' := f (from_utf8_lossy c) in
      let? rest := map_names f p' in
      Ok (c' :: rest)
  end.

Definition is_hidden_component (c : str) : bool :=
  starts_with ($".") (from_utf8_lossy c) && negb (bool_decide (from_utf8_lossy c = $".obsidian")).

(** The step of both loops for an entry of the walk: [skip] the path, map its
    names, and make the directory or transform and write the file. *)
Definition mirror_entry (io : VaultIo) (skip : VPath -> bool) (name : str -> result VaultError str)
    (transform : list Z -> VaultM (list Z)) (entry : VPath * VNode) : VaultM unit :=
  let '(rel, node) := entry in
  if skip rel then se_ret tt
  else
    let! dst_path := se_read (fun _ => map_names name rel) in
    match node with
    | VDir => create_dir_all io dst_path
    | VFile content =>
        do! create_dir_all io (take (length dst_path - 1) dst_path) in
        if vi_read io rel then
          let! out := transform content in
          vault_write io dst_path out
        else se_throw VeIo
    end.

(** An entry of the walk, or its error. *)
Fixpoint mirror_entries (step : VPath * VNode -> VaultM unit) (es : list (result VaultError (VPath * VNode))) : VaultM unit :=
  match es with
  | [] => se_ret tt
  | e :: es' => let! entry := se_read (fun _ => e) in do! step entry in mirror_entries step es'
  end.

Definition encrypt_dir (a : CryptoAdapter) (io : VaultIo) (walk : list (result VaultError (VPath * VNode))) : VaultM unit :=
  if vi_root io
  then mirror_entries (mirror_entry io (existsb is_hidden_component) (encrypt_filename a) (encrypt_content a)) walk
  else se_throw VeIo.

Definition decrypt_dir (a : CryptoAdapter) (io : VaultIo) (walk : list (result VaultError (VPath * VNode))) : VaultM unit :=
  if vi_root io
  then mirror_entries (mirror_entry io (fun _ => false) (decrypt_filename a) (fun c => se_read (fun _ => decrypt_content a c))) walk
  else se_throw VeIo.
End Adapter.

(** ** Walks and mirrors *)

(** An order in which a directory is walked: every entry once, directories
    before what they contain. *)
Definition parent_first (es : list (VPath * VNode)) : Prop :=
  forall es1 p n es2, es = es1 ++ (p, n) :: es2 ->
    p <> [] /\ p ∉ es1.*1 /\ (forall q x, p = q ++ [x] -> q <> [] -> (q, VDir) ∈ es1).

Lemma parent_first_app es1 es2 : parent_first (es1 ++ es2) -> parent_first es1.
Proof. intros H a p n b ->. apply (H a p n (b ++ es2)). by rewrite <- app_assoc. Qed.

Lemma prefix_walked es1 p n es2 q r : parent_first (es1 ++ (p, n) :: es2) -> p = q ++ r -> q <> [] -> r <> [] -> (q, VDir) ∈ es1.
Proof.
  revert es1 p n es2. induction r as [|x r IH] using rev_ind; intros es1 p n es2 Hpf -> Hq Hr; [done|].
  destruct (Hpf es1 (q ++ r ++ [x]) n es2 eq_refl) as (_ & _ & Hpar). rewrite app_assoc in Hpar.
  specialize (Hpar (q ++ r) x eq_refl). destruct r as [|y r]; [rewrite app_nil_r in Hpar; by apply Hpar|].
  assert (Hne : q ++ y :: r <> []) by (by destruct q). specialize (Hpar Hne).
  apply list_elem_of_split in Hpar as (a & b & ->). apply elem_of_app. left.
  apply (IH a (q ++ y :: r) VDir b); try done. by apply parent_first_app in Hpf.
Qed.

Lemma prefixes_from_snoc d q x : prefixes_from d (q ++ [x]) = prefixes_from d q ++ [d ++ q ++ [x]].
Proof. revert d. induction q as [|c q IH]; intros d; cbn; [done|]. by rewrite IH, <- app_assoc. Qed.

Lemma prefixes_from_spec d p : Forall (fun t => exists q r, t = d ++ q /\ p = q ++ r /\ q <> []) (prefixes_from d p).
Proof.
  revert d. induction p as [|c p IH]; intros d; cbn; constructor; [by exists [c], p|].
  eapply Forall_impl; [apply IH|]. cbn. intros t (q & r & -> & -> & Hq). exists (c :: q), r. split_and!; try done. by rewrite <- app_assoc.
Qed.

Lemma mkdir_existing io ps s : Forall (fun p => vs_tree s !! p = Some VDir) ps -> mkdir_each io ps s = (Ok tt, s).
Proof. induction 1 as [|p ps Hp _ IH]; cbn [mkdir_each]; [done|]. by rewrite Hp. Qed.

Lemma mkdir_last io ps p s : Forall (fun p => vs_tree s !! p = Some VDir) ps -> vs_tree s !! p = None -> vi_mkdir io p = true ->
  mkdir_each io (ps ++ [p]) s = (Ok tt, on_tree <[p := VDir]> s).
Proof. intros Hps Hp Hio. induction Hps as [|q ps Hq _ IH]; cbn [mkdir_each app]; [by rewrite Hp, Hio|]. by rewrite Hq. Qed.

(** *** One mirror *)

Section Mirror.
Context (io : VaultIo) (skip : VPath -> bool) (name : str -> result VaultError str) (transform : list Z -> VaultM (list Z)).
Context (g h : str -> str) (T : list Z -> list Z -> Prop).
Hypothesis Hread : forall p, vi_read io p = true.
Hypothesis Hmkdir : forall p, vi_mkdir io p = true.
Hypothesis Hwrite : forall p, vi_write io p = true.
Hypothesis Hskip : forall p q, skip (p ++ q) = false -> skip p = false.

Definition mirrored (n n' : VNode) : Prop :=
  match n, n' with
  | VDir, VDir => True
  | VFile c, VFile c' => T c c'
  | _, _ => False
  end.

(** The tree holds the mirror of the entries and nothing else. *)
Record mirror_of (es : list (VPath * VNode)) (t : VTree) : Prop := mkMirrorOf {
  mo_complete : forall p n, (p, n) ∈ es -> skip p = false -> exists n', t !! (g <$> p) = Some n' /\ mirrored n n';
  mo_sound : forall p' n', t !! p' = Some n' -> exists p n, (p, n) ∈ es /\ skip p = false /\ p' = g <$> p /\ mirrored n n';
}.

Definition names_ok (es : list (VPath * VNode)) : Prop :=
  forall p n c, (p, n) ∈ es -> skip p = false -> c ∈ p -> name (from_utf8_lossy c) = Ok (g c) /\ h (g c) = c.

Definition contents_ok (es : list (VPath * VNode)) : Prop :=
  forall p c s, (p, VFile c) ∈ es -> exists out s', transform c s = (Ok out, s') /\ vs_tree s' = vs_tree s /\ T c out.

Lemma map_names_ok (p : VPath) : (forall c, c ∈ p -> name (from_utf8_lossy c) = Ok (g c)) -> map_names name p = Ok (g <$> p).
Proof.
  induction p as [|c p IH]; intros Hn; cbn; [done|]. rewrite Hn by (by left). cbn. rewrite IH; [done|]. intros c' Hc'. apply Hn. by right.
Qed.

Lemma fmap_inverse (p : VPath) : (forall c, c ∈ p -> h (g c) = c) -> h <$> (g <$> p) = p.
Proof.
  induction p as [|c p IH]; intros Hc; [done|]. rewrite !fmap_cons, Hc by (by left). f_equal. apply IH. intros c' Hc'. apply Hc. by right.
Qed.

Lemma mirror_insert es t p n n' : mirror_of es t -> skip p = false -> mirrored n n' ->
  t !! (g <$> p) = None -> mirror_of (es ++ [(p, n)]) (<[g <$> p := n']> t).
Proof.
  intros [Hc Hs] Hp Hm Hnone. split.
  - intros q m [Hq | E%list_elem_of_singleton]%elem_of_app Hsk; [|simplify_eq].
    + destruct (Hc q m Hq Hsk) as (m' & Hm' & Hmm). exists m'. split; [|done]. rewrite lookup_insert_ne; [done|].
      intros E. rewrite E in Hnone. congruence.
    + exists n'. by rewrite lookup_insert_eq.
  - intros p' m' Hp'. destruct (decide (p' = g <$> p)) as [-> |Hne].
    + rewrite lookup_insert_eq in Hp'. simplify_eq. exists p, n. split_and!; try done. apply elem_of_app. right. by apply list_elem_of_singleton.
    + rewrite lookup_insert_ne in Hp' by done. destruct (Hs p' m' Hp') as (q & m & Hq & ? & ? & ?). exists q, m. split_and!; try done.
      apply elem_of_app. by left.
Qed.

Lemma mirror_skip es t p n : mirror_of es t -> skip p = true -> mirror_of (es ++ [(p, n)]) t.
Proof.
  intros [Hc Hs] Hp. split.
  - intros q m [Hq | E%list_elem_of_singleton]%elem_of_app Hsk; [by apply Hc|]. simplify_eq. congruence.
  - intros p' m' Hp'. destruct (Hs p' m' Hp') as (q & m & Hq & ?). exists q, m. split; [|done]. apply elem_of_app. by left.
Qed.

(** The parent of a mirrored path is there, the path itself is new. *)
Lemma mirror_place es1 p n es2 s : parent_first (es1 ++ (p, n) :: es2) -> names_ok (es1 ++ (p, n) :: es2) -> skip p = false ->
  mirror_of es1 (vs_tree s) -> exists q x, p = q ++ [x] /\
    Forall (fun t => vs_tree s !! t = Some VDir) (prefixes_from [] (g <$> q)) /\ vs_tree s !! (g <$> p) = None /\
    dir_exists_at (vs_tree s) (g <$> q) = true.
Proof.
  intros Hpf Hn Hp [Hc Hs]. destruct (Hpf es1 p n es2 eq_refl) as (Hne & Hnew & Hpar).
  destruct (exists_last Hne) as (q & x & ->). exists q, x. split; [done|].
  assert (Hdir : forall q1 r, q = q1 ++ r -> q1 <> [] -> vs_tree s !! (g <$> q1) = Some VDir).
  { intros q1 r -> Hq1. assert (Hin : (q1, VDir) ∈ es1).
    { eapply (prefix_walked es1 _ n es2 q1 (r ++ [x])); [done|by rewrite app_assoc|done|by destruct r]. }
    destruct (Hc q1 VDir Hin) as (n' & Hn' & Hm); [rewrite <- app_assoc in Hp; by apply Hskip in Hp|]. by destruct n'. }
  split_and!.
  - eapply Forall_impl; [apply prefixes_from_spec|]. cbn. intros t (q1 & r & -> & E & Hq1). apply fmap_app_inv in E as (a & b & -> & -> & ->).
    apply (Hdir a b); [done|]. by intros ->.
  - destruct (vs_tree s !! (g <$> q ++ [x])) as [n'|] eqn:E; [|done]. exfalso. apply Hs in E as (p2 & m & Hin & Hsk & E & _).
    apply Hnew. apply list_elem_of_fmap. exists (p2, m). split; [|done]. cbn.
    rewrite <- (fmap_inverse p2), <- (fmap_inverse (q ++ [x])); [by rewrite E| |].
    + intros c Hcin. apply (Hn (q ++ [x]) n c); try done. apply elem_of_app. right. by left.
    + intros c Hcin. apply (Hn p2 m c); try done. apply elem_of_app. by left.
  - destruct q as [|c q]; [done|]. unfold dir_exists_at. rewrite fmap_cons at 1. rewrite (Hdir (c :: q) []); [done|by rewrite app_nil_r|done].
Qed.

Lemma mirror_entry_spec es1 p n es2 s : parent_first (es1 ++ (p, n) :: es2) -> names_ok (es1 ++ (p, n) :: es2) ->
  contents_ok (es1 ++ (p, n) :: es2) ->
  mirror_of es1 (vs_tree s) ->
  exists s', mirror_entry io skip name transform (p, n) s = (Ok tt, s') /\ mirror_of (es1 ++ [(p, n)]) (vs_tree s').
Proof.
  intros Hpf Hn Hct Hm. unfold mirror_entry. destruct (skip p) eqn:Hp; [exists s; split; [done|]; by apply mirror_skip|].
  destruct (mirror_place es1 p n es2 s Hpf Hn Hp Hm) as (q & x & -> & Hdirs & Hnone & Hparent).
  unfold se_bind at 1, se_read. rewrite map_names_ok by (intros c Hc; apply (Hn (q ++ [x]) n c); try done; apply elem_of_app; right; by left).
  assert (Ep : g <$> q ++ [x] = (g <$> q) ++ [g x]) by (by rewrite fmap_app). rewrite Ep in *. destruct n as [content|].
  - rewrite length_app, Nat.add_sub, take_app_length. unfold create_dir_all, se_bind at 1. rewrite mkdir_existing by done.
    rewrite Hread. destruct (Hct (q ++ [x]) content s) as (out & s1 & E & Et & HT); [apply elem_of_app; right; by left|]. unfold se_bind. rewrite E.
    unfold vault_write. rewrite Hwrite, length_app, Nat.add_sub, take_app_length, Et, Hparent, Hnone. cbn [andb].
    eexists. split; [done|]. cbn. rewrite Et. rewrite <- Ep in *. by apply (mirror_insert _ _ _ (VFile content)).
  - unfold create_dir_all. rewrite prefixes_from_snoc, mkdir_last; try done. eexists. split; [done|]. cbn.
    rewrite <- Ep in *. by apply (mirror_insert _ _ _ VDir).
Qed.

Lemma mirror_entries_from es1 es2 s : parent_first (es1 ++ es2) -> names_ok (es1 ++ es2) -> contents_ok (es1 ++ es2) -> mirror_of es1 (vs_tree s) ->
  exists s', mirror_entries (mirror_entry io skip name transform) (Ok <$> es2) s = (Ok tt, s') /\ mirror_of (es1 ++ es2) (vs_tree s').
Proof.
  revert es1 s. induction es2 as [|[p n] es2 IH]; intros es1 s Hpf Hn Hct Hm; [exists s; by rewrite app_nil_r|].
  destruct (mirror_entry_spec es1 p n es2 s Hpf Hn Hct Hm) as (s1 & E1 & Hm1).
  rewrite (assoc_L (++) es1 [(p, n)] es2 : es1 ++ (p, n) :: es2 = _) in Hpf, Hn, Hct |- *.
  destruct (IH (es1 ++ [(p, n)]) s1 Hpf Hn Hct Hm1) as (s2 & E2 & Hm2).
  exists s2. split; [|done]. cbn [fmap list_fmap mirror_entries]. unfold se_bind at 1, se_read. unfold se_bind. rewrite E1. exact E2.
Qed.

Lemma mirror_entries_spec es draws : parent_first es -> names_ok es -> contents_ok es ->
  exists s', mirror_entries (mirror_entry io skip name transform) (Ok <$> es) (mkVaultState ∅ draws) = (Ok tt, s') /\ mirror_of es (vs_tree s').
Proof.
  intros Hpf Hn Hct. apply (mirror_entries_from [] es (mkVaultState ∅ draws)); try done.
  split; [by intros p n ?%not_elem_of_nil|]. intros p' n' E. cbn in E. by rewrite lookup_empty in E.
Qed.
End Mirror.

(** ** The round trip *)

Definition visible (p : VPath) : Prop := existsb is_hidden_component p = false.

Lemma visible_app p q : visible (p ++ q) -> visible p.
Proof. unfold visible. rewrite existsb_app. by intros [? _]%orb_false_iff. Qed.

Definition io_works (io : VaultIo) : Prop :=
  vi_root io = true /\ (forall p, vi_read io p = true) /\ (forall p, vi_mkdir io p = true) /\ (forall p, vi_write io p = true).

(** A walk of a tree. *)
Definition walk_of (t : VTree) (es : list (VPath * VNode)) : Prop := es ≡ₚ map_to_list t /\ parent_first es.

Lemma walk_of_elem t es p n : walk_of t es -> (p, n) ∈ es <-> t !! p = Some n.
Proof. intros [Hp _]. rewrite Hp. apply elem_of_map_to_list. Qed.

Section Roundtrip.
Context `{VaultCryptoLaws} (nonces : nat -> list Z) (a : CryptoAdapter).
Hypothesis Hnonces : forall i, length (nonces i) = NONCE_LEN.
Hypothesis Hgcm : forall n p, is_Some (gcm_encrypt (ca_content_key a) n p).
Hypothesis Hsiv : forall p, is_Some (siv_encrypt (ca_filename_key a) p).

Definition enc (c : str) : str := match encrypt_filename a c with Ok e => e | Err _ => [] end.
Definition dec (e : str) : str := match decrypt_filename a e with Ok c => c | Err _ => [] end.

Lemma enc_spec c : encrypt_filename a c = Ok (enc c).
Proof using Hsiv. unfold enc, encrypt_filename. destruct (Hsiv (bytes_of_str c)) as [e ->]. done. Qed.

Lemma enc_name c : utf8_valid (enc c) = true.
Proof using Hsiv H0.
  unfold enc, encrypt_filename. destruct (Hsiv (bytes_of_str c)) as [e E]. rewrite E.
  apply b32_name. eapply siv_bytes; [exact E|apply bytes_of_str_bytes].
Qed.

Lemma filename_roundtrip c : utf8_valid c = true -> decrypt_filename a (enc c) = Ok c.
Proof using Hsiv H0.
  intros Hc. unfold enc, encrypt_filename, decrypt_filename. destruct (Hsiv (bytes_of_str c)) as [e E]. rewrite E. cbn.
  rewrite b32_case, b32_inverse by (eapply siv_bytes; [exact E|apply bytes_of_str_bytes]). cbn. apply siv_inverse in E as ->. cbn. by rewrite str_of_bytes_of_str, Hc.
Qed.

Lemma dec_enc c : utf8_valid c = true -> dec (enc c) = c.
Proof using Hsiv H0. intros Hc. unfold dec. by rewrite filename_roundtrip. Qed.

(** What an encrypted file is. *)
Definition encrypted (c out : list Z) : Prop :=
  exists i ct, gcm_encrypt (ca_content_key a) (nonces i) c = Some ct /\ out = FORMAT_VERSION :: nonces i ++ ct.

Lemma encrypted_decrypts c out : encrypted c out -> decrypt_content a out = Ok c.
Proof using Hnonces H0.
  intros (i & ct & E & ->). unfold decrypt_content. change (1 + NONCE_LEN)%nat with (S NONCE_LEN). cbn [length drop nth]. rewrite length_app, Hnonces.
  rewrite (proj2 (Nat.ltb_ge _ _)) by lia. rewrite Z.eqb_refl. cbn [negb].
  rewrite <- (Hnonces i), drop_app_length, drop_0, take_app_length. by apply gcm_inverse in E as ->.
Qed.

Lemma encrypt_dir_spec io es draws : io_works io -> parent_first es ->
  (forall p n c, (p, n) ∈ es -> c ∈ p -> utf8_valid c = true) ->
  exists s, encrypt_dir nonces a io (Ok <$> es) (mkVaultState ∅ draws) = (Ok tt, s) /\
    mirror_of (existsb is_hidden_component) enc encrypted es (vs_tree s).
Proof using All.
  intros (Hroot & Hread & Hmkdir & Hwrite) Hpf Hutf. unfold encrypt_dir. rewrite Hroot.
  eapply (mirror_entries_spec io (existsb is_hidden_component) (encrypt_filename a) (encrypt_content nonces a) enc dec encrypted); try done.
  - apply visible_app.
  - intros p n c Hin _ Hc. specialize (Hutf p n c Hin Hc). split; [|by apply dec_enc]. rewrite from_utf8_lossy_valid by done. apply enc_spec.
  - intros p c s _. unfold encrypt_content. destruct (Hgcm (nonces (vs_draws s)) c) as [ct E]. rewrite E. cbn.
    eexists _, _. split_and!; try done. by exists (vs_draws s), ct.
Qed.

Lemma decrypt_dir_spec io es es' draws t : io_works io ->
  (forall p n c, (p, n) ∈ es -> c ∈ p -> utf8_valid c = true) ->
  mirror_of (existsb is_hidden_component) enc encrypted es t -> walk_of t es' ->
  exists s, decrypt_dir a io (Ok <$> es') (mkVaultState ∅ draws) = (Ok tt, s) /\
    mirror_of (fun _ => false) dec (fun out c => decrypt_content a out = Ok c) es' (vs_tree s).
Proof using All.
  intros (Hroot & Hread & Hmkdir & Hwrite) Hutf Hm Hw. unfold decrypt_dir. rewrite Hroot.
  eapply (mirror_entries_spec io (fun _ => false) (decrypt_filename a) _ dec enc (fun out c => decrypt_content a out = Ok c)); try done.
  - by destruct Hw.
  - intros p' n' c' Hin _ Hc'. apply (walk_of_elem _ _ _ _ Hw) in Hin. apply (mo_sound _ _ _ _ _ Hm) in Hin as (p & n & Hin & _ & -> & _).
    apply list_elem_of_fmap in Hc' as (c & -> & Hc). specialize (Hutf p n c Hin Hc).
    rewrite from_utf8_lossy_valid by apply enc_name. unfold dec. rewrite filename_roundtrip by done. done.
  - intros p' out s Hin. apply (walk_of_elem _ _ _ _ Hw) in Hin. apply (mo_sound _ _ _ _ _ Hm) in Hin as (p & [c|] & _ & _ & _ & HT); [|done].
    cbn in HT. apply encrypted_decrypts in HT. unfold se_read. rewrite HT. by eexists _, _.
Qed.

Lemma mirrors_compose vault es es' t d : walk_of vault es -> walk_of t es' ->
  (forall p n c, (p, n) ∈ es -> c ∈ p -> utf8_valid c = true) ->
  mirror_of (existsb is_hidden_component) enc encrypted es t ->
  mirror_of (fun _ => false) dec (fun out c => decrypt_content a out = Ok c) es' d ->
  d = filter (fun pn : VPath * VNode => visible pn.1) vault.
Proof using All.
  intros Hv Ht Hutf He Hd. apply map_eq. intros p. apply option_eq. intros n. rewrite map_lookup_filter_Some. cbn.
  assert (Hinv : forall p n, (p, n) ∈ es -> dec <$> (enc <$> p) = p).
  { intros q m Hin. apply fmap_inverse. intros c Hc. apply dec_enc. by apply (Hutf q m). }
  assert (Hnode : forall n0 n1 n2, mirrored encrypted n0 n1 -> mirrored (fun out c => decrypt_content a out = Ok c) n1 n2 -> n2 = n0).
  { intros [c0|] [c1|] [c2|]; cbn; try done. intros E1%encrypted_decrypts E2. congruence. }
  split.
  - intros E. apply (mo_sound _ _ _ _ _ Hd) in E as (p1 & n1 & Hin1 & _ & -> & Hm2). apply (walk_of_elem _ _ _ _ Ht) in Hin1.
    apply (mo_sound _ _ _ _ _ He) in Hin1 as (p0 & n0 & Hin0 & Hvis & -> & Hm1). rewrite (Hinv p0 n0 Hin0).
    rewrite (Hnode n0 n1 n Hm1 Hm2). split; [|done]. by apply (walk_of_elem _ _ _ _ Hv).
  - intros [E Hvis]. apply (walk_of_elem _ _ _ _ Hv) in E as Hin. destruct (mo_complete _ _ _ _ _ He p n Hin Hvis) as (n1 & E1 & Hm1).
    apply (walk_of_elem _ _ _ _ Ht) in E1. destruct (mo_complete _ _ _ _ _ Hd _ _ E1 eq_refl) as (n2 & E2 & Hm2).
    rewrite (Hinv p n Hin) in E2. by rewrite (Hnode n n1 n2 Hm1 Hm2) in E2.
Qed.
End Roundtrip.

(** C32: An encrypted vault comes back: whatever the order of the walks and the
    random nonces, with ciphers and a disk that work (also for the longer names
    of the mirror), names in UTF-8, and a mirror and a destination that are
    empty at first, encrypting a vault succeeds, and decrypting the mirror, in
    any order, succeeds and gives exactly the directories and files of the vault none of
    whose path components is hidden, with their contents. *)
Theorem vault_roundtrip `{VaultCryptoLaws} (nonces : nat -> list Z) (a : CryptoAdapter) (io1 io2 : VaultIo) (vault : VTree)
    (es : list (VPath * VNode)) :
  (forall i, length (nonces i) = NONCE_LEN) ->
  (forall n p, is_Some (gcm_encrypt (ca_content_key a) n p)) -> (forall p, is_Some (siv_encrypt (ca_filename_key a) p)) ->
  io_works io1 -> io_works io2 -> walk_of vault es ->
  (forall p n c, vault !! p = Some n -> c ∈ p -> utf8_valid c = true) ->
  exists mirror, encrypt_dir nonces a io1 (Ok <$> es) (mkVaultState ∅ 0) = (Ok tt, mirror) /\
    forall es' draws, walk_of (vs_tree mirror) es' ->
      exists restored, decrypt_dir a io2 (Ok <$> es') (mkVaultState ∅ draws) = (Ok tt, restored) /\
        vs_tree restored = filter (fun pn : VPath * VNode => visible pn.1) vault.
Proof.
  intros Hnonces Hgcm Hsiv Hio1 Hio2 Hw Hutf.
  assert (Hutf' : forall p n c, (p, n) ∈ es -> c ∈ p -> utf8_valid c = true).
  { intros p n c Hin. apply (walk_of_elem _ _ _ _ Hw) in Hin. by apply (Hutf p n). }
  destruct (encrypt_dir_spec nonces a Hnonces Hgcm Hsiv io1 es 0 Hio1 (proj2 Hw) Hutf') as (mirror & E & Hm).
  exists mirror. split; [done|]. intros es' draws Hw'.
  destruct (decrypt_dir_spec nonces a Hnonces Hgcm Hsiv io2 es es' draws (vs_tree mirror) Hio2 Hutf' Hm Hw') as (restored & E' & Hd).
  exists restored. split; [done|]. by apply (mirrors_compose nonces a Hnonces Hgcm Hsiv vault es es' (vs_tree mirror)).
Qed.

(** ** A small vault *)

Module VaultExamples.
(** Two characters for a byte. *)
Definition vault_toy_encode (bs : list Z) : str := bs ≫= (fun b => [ascii_of_nat (Z.to_nat (b mod 128)); ascii_of_nat (Z.to_nat (b / 128))]).

Fixpoint vault_toy_decode (s : str) : option (list Z) :=
  match s with
  | [] => Some []
  | x :: y :: s' => let+ bs := vault_toy_decode s' in Some (byte_of x + 128 * byte_of y :: bs)
  | _ => None
  end.

#[global] Instance toy_crypto : VaultCrypto := {|
  argon2_hash := fun password salt => Some (bytes_of_str password);
  hkdf_expand := fun salt key info n => Some (take n key);
  gcm_encrypt := fun k n p => Some p;
  gcm_decrypt := fun k n c => Some c;
  siv_encrypt := fun k p => Some p;
  siv_decrypt := fun k c => Some c;
  b32_encode := vault_toy_encode;
  b32_decode := vault_toy_decode;
  unicode_lower := fun s => s;
  unicode_upper := fun s => s;
|}.

Lemma toy_byte (b : Z) : 0 <= b < 256 -> byte_of (ascii_of_nat (Z.to_nat b)) = b.
Proof. intros Hb. unfold byte_of. rewrite nat_ascii_embedding by lia. lia. Qed.

Lemma toy_low (b : Z) : byte_of (ascii_of_nat (Z.to_nat (b mod 128))) = b mod 128.
Proof. apply toy_byte. pose proof (Z.mod_pos_bound b 128). lia. Qed.

Lemma utf8_valid_ascii s : Forall (fun c => byte_of c < 128) s -> utf8_valid s = true.
Proof.
  unfold utf8_valid. assert (Hall : forall fuel s, Forall (fun c => byte_of c < 128) s -> (length s <= fuel)%nat -> utf8_valid_fuel fuel s = true).
  { clear s. induction fuel as [|fuel IH]; intros [|c s] Hs Hl; try done; cbn in Hl; try lia. apply Forall_cons in Hs as [Hc Hs].
    cbn [utf8_valid_fuel utf8_head]. rewrite (proj2 (Z.ltb_lt _ _) Hc). apply IH; cbn; rewrite drop_0; [done|lia]. }
  intros Hs. by apply Hall.
Qed.

Lemma toy_high b : is_byte b -> byte_of (ascii_of_nat (Z.to_nat (b / 128))) = b / 128 /\ b / 128 < 2.
Proof. unfold is_byte. intros Hb. rewrite toy_byte by (split; [apply Z.div_pos; lia|apply Z.div_lt_upper_bound; lia]). split; [done|]. apply Z.div_lt_upper_bound; lia. Qed.

#[global] Instance toy_laws : VaultCryptoLaws.
Proof.
  split; cbn.
  - intros. congruence.
  - intros. congruence.
  - intros k p c [= ->]. done.
  - induction 1 as [|b bs Hb _ IH]; [done|]. cbn. unfold vault_toy_encode in IH. rewrite IH. cbn. do 2 f_equal.
    rewrite toy_low, (proj1 (toy_high b Hb)). pose proof (Z.div_mod b 128). lia.
  - done.
  - intros bs Hbs. apply utf8_valid_ascii. induction Hbs as [|b bs Hb _ IH]; [done|]. cbn. unfold vault_toy_encode in IH.
    constructor; [rewrite toy_low; pose proof (Z.mod_pos_bound b 128); lia|]. constructor; [|exact IH].
    destruct (toy_high b Hb) as [-> ?]. lia.
Qed.

Definition toy_adapter : CryptoAdapter := mkCryptoAdapter [] [].
Definition toy_nonces (i : nat) : list Z := replicate 12 (Z.of_nat i).
Definition good_io : VaultIo := mkVaultIo true (fun _ => true) (fun _ => true) (fun _ => true).

Definition toy_walk : list (VPath * VNode) :=
  [([$"n"], VDir); ([$"n"; $"d"], VFile [1; 2]); ([$".git"], VDir); ([$".git"; $"x"], VFile [3])].

Lemma parent_first_snoc es p n : parent_first es -> p <> [] -> p ∉ es.*1 ->
  (forall q x, p = q ++ [x] -> q <> [] -> (q, VDir) ∈ es) -> parent_first (es ++ [(p, n)]).
Proof.
  intros Hes H1 H2 H3 es1 p' n' es2 E. destruct es2 as [|e es2 _] using rev_ind.
  - apply app_inj_tail in E as [<- [= <- <-]]. done.
  - rewrite app_comm_cons, app_assoc in E. apply app_inj_tail in E as [E _]. by apply (Hes es1 p' n' es2).
Qed.

Lemma toy_walk_of : walk_of (list_to_map toy_walk) toy_walk.
Proof.
  split; [symmetry; apply map_to_list_to_map; apply (bool_decide_unpack _); by vm_compute|].
  change toy_walk with (((([] ++ [([$"n"], VDir)]) ++ [([$"n"; $"d"], VFile [1; 2])]) ++ [([$".git"], VDir)]) ++ [([$".git"; $"x"], VFile [3])]).
  repeat apply parent_first_snoc; try done; try (apply (bool_decide_unpack _); by vm_compute).
  all: intros q x E Hq; destruct q as [|c [|c' q]]; try done; injection E; intros; subst; try (by destruct q);
    repeat first [by apply elem_of_cons; left | apply elem_of_cons; right].
Qed.

Definition vault_toy_name (s : str) : str := vault_toy_encode (bytes_of_str s).

Definition toy_mirror_walk : list (VPath * VNode) :=
  [([vault_toy_name ($"n")], VDir); ([vault_toy_name ($"n"); vault_toy_name ($"d")], VFile (1 :: replicate 12 0 ++ [1; 2]))].

Lemma toy_mirror_walk_of : walk_of (list_to_map toy_mirror_walk) toy_mirror_walk.
Proof.
  split; [symmetry; apply map_to_list_to_map; apply (bool_decide_unpack _); by vm_compute|].
  change toy_mirror_walk with
    (([] ++ [([vault_toy_name ($"n")], VDir)]) ++ [([vault_toy_name ($"n"); vault_toy_name ($"d")], VFile (1 :: replicate 12 0 ++ [1; 2]))]).
  repeat apply parent_first_snoc; try done; try (apply (bool_decide_unpack _); by vm_compute).
  all: intros q x E Hq; destruct q as [|c [|c' q]]; try done; injection E; intros; subst; try (by destruct q); by apply elem_of_cons; left.
Qed.
End VaultExamples.
Import VaultExamples.

Lemma vault_roundtrip_witness :
  exists mirror restored,
    encrypt_dir toy_nonces toy_adapter good_io (Ok <$> toy_walk) (mkVaultState ∅ 0) = (Ok tt, mirror) /\
    decrypt_dir toy_adapter good_io (Ok <$> toy_mirror_walk) (mkVaultState ∅ 0) = (Ok tt, restored) /\
    vs_tree restored = filter (fun pn : VPath * VNode => visible pn.1) (list_to_map toy_walk) /\
    vs_tree restored !! [$"n"; $"d"] = Some (VFile [1; 2]) /\ vs_tree restored !! [$".git"] = None.
Proof.
  destruct (vault_roundtrip toy_nonces toy_adapter good_io good_io (list_to_map toy_walk) toy_walk) as (mirror & E & H).
  - intros i. apply length_replicate.
  - intros n p. eexists. reflexivity.
  - intros p. eexists. reflexivity.
  - split_and!; intros; reflexivity.
  - split_and!; intros; reflexivity.
  - exact toy_walk_of.
  - intros p n c Hp Hc. apply (walk_of_elem _ _ _ _ toy_walk_of) in Hp.
    assert (Hall : Forall (fun e : VPath * VNode => Forall (fun c => utf8_valid c = true) e.1) toy_walk) by (vm_compute; repeat constructor).
    rewrite Forall_forall in Hall. specialize (Hall _ Hp). cbn in Hall. rewrite Forall_forall in Hall. exact (Hall c Hc).
  - assert (Em : vs_tree mirror = list_to_map toy_mirror_walk).
    { apply (f_equal (fun r => vs_tree r.2)) in E. vm_compute in E |- *. symmetry. exact E. }
    destruct (H toy_mirror_walk 0%nat) as (restored & E2 & H2); [rewrite Em; exact toy_mirror_walk_of|].
    exists mirror, restored. split_and!; [exact E|exact E2|exact H2|rewrite H2; vm_compute; reflexivity|rewrite H2; vm_compute; reflexivity].
Defined.

(** Names that are no UTF-8 are replaced before they are encrypted: two files
    become one. *)
Example lossy_names_collide :
  (fun r => base.size (vs_tree r.2)) (encrypt_dir toy_nonces toy_adapter good_io
     [Ok ([["255"%char]], VFile [1]); Ok ([["254"%char]], VFile [2])] (mkVaultState ∅ 0)) = 1%nat.
Proof. vm_compute. reflexivity. Qed.

(** What was deleted from the vault stays in the mirror. *)
Example deleted_file_stays :
  (fun r => is_ok r.1 && bool_decide (is_Some (vs_tree r.2 !! [vault_toy_name ($"a")])))
    (encrypt_dir toy_nonces toy_adapter good_io [] (mkVaultState {[[vault_toy_name ($"a")] := VFile [1]]} 0)) = true.
Proof. vm_compute. reflexivity. Qed.

(** An unchanged file is written with another content in every run. *)
Example unchanged_file_rewritten :
  (encrypt_content toy_nonces toy_adapter [7] (mkVaultState ∅ 0)).1 <> (encrypt_content toy_nonces toy_adapter [7] (mkVaultState ∅ 1)).1.
Proof. vm_compute. discriminate. Qed.
