(* ===== verification/Browse.v ===== *)
(** * What the REST API shows

    [crates/syncthing-api/src/rest/db.rs] (the tree of a folder, one file),
    [rest/system.rs] and [get_folder_status] of [rest/folder.rs] (status, counts,
    completion, connections).  These handlers change nothing; they read the
    configuration store, the database, the sync model and the connection manager,
    whose answers are the fields of [ReadEnv].  [build_tree] recurses once for each
    directory level, without a bound of its own: the depth of the stack is an
    argument, and running out of it ends the process. *)

From S2P Require Import Prelude Core DeviceIds Connection Bep Wire Database BlockServer BlockCache Net Relay Manager Config Metadata BlockStoreImpl Rest Service.

(** ** The tree of a folder *)

Inductive BrowseEntry := mkBrowseEntry {
  be_name : str;
  be_type : str;
  be_size : option Z;
  be_modified_s : option Z;
  be_children : list BrowseEntry;
}.

Definition entry_type_name (t : FileType) : str :=
  match t with File => $"file" | Directory => $"directory" | Symlink => $"symlink" end.

(** The name of a file below [prefix]; [None]: it does not start with it. *)
Definition relative_to (prefix n : str) : option str :=
  if decide (prefix = []) then Some n
  else match strip_prefix prefix n with
       | Some stripped => Some (default stripped (strip_prefix [slash] stripped))
       | None => None
       end.

(** [entries.entry(segment).or_insert_with(..).1.push(file)] on a [BTreeMap],
    which is a list in the order of its keys.  The directory record it also keeps
    is not used. *)
Fixpoint group_push (k : str) (f : FileInfo) (m : list (str * list FileInfo)) : list (str * list FileInfo) :=
  match m with
  | [] => [(k, [f])]
  | (k', fs) :: rest =>
      if decide (k = k') then (k', fs ++ [f]) :: rest
      else if str_leb k k' then (k, [f]) :: m
      else (k', fs) :: group_push k f rest
  end.

(** One round of the loop over the files. *)
Definition sort_file (prefix : str) (acc : list (str * list FileInfo) * list FileInfo) (f : FileInfo)
  : list (str * list FileInfo) * list FileInfo :=
  let '(entries, direct_files) := acc in
  match relative_to prefix (name f) with
  | None => acc
  | Some relative =>
      match split_on slash relative with
      | first_segment :: _ :: _ => (group_push first_segment f entries, direct_files)
      | _ => (entries, direct_files ++ [f])
      end
  end.

(** The entry of a file that is directly below the prefix. *)
Definition direct_entry (prefix : str) (f : FileInfo) : option BrowseEntry :=
  let n := default (name f) (relative_to prefix (name f)) in
  if contains slash n then None
  else Some (mkBrowseEntry n (entry_type_name (file_type f))
               (if decide (file_type f = File) then Some (size f) else None)
               (if decide (file_type f = File) then Some (modified_s f) else None) []).

Definition sub_prefix (prefix n : str) : str := if decide (prefix = []) then n else prefix ++ slash :: n.

(** [None]: the stack is exhausted. *)
Fixpoint build_tree (stack : nat) (files : list FileInfo) (prefix : str) (levels current_depth : nat)
  : option (list BrowseEntry) :=
  match stack with
  | O => None
  | S stack =>
      if ((0 <? levels) && (levels <=? current_depth))%nat then Some []
      else
        let '(entries, direct_files) := foldl (sort_file prefix) ([], []) files in
        let+ dirs := mapM (fun e : str * list FileInfo =>
                             let+ children := build_tree stack e.2 (sub_prefix prefix e.1) levels (S current_depth) in
                             Some (mkBrowseEntry e.1 ($"directory") None None children)) entries in
        Some (dirs ++ omap (direct_entry prefix) direct_files)
  end.

(** ** Handlers *)

(** [traits::ConnectionManager], as far as the pages read it. *)
Record ConnectionView := mkConnectionView {
  cv_devices : list DeviceId;
  cv_remote_addr : DeviceId -> option str;
  cv_bytes_sent : Z;
  cv_bytes_received : Z;
}.

Record ReadEnv := mkReadEnv {
  re_db : option (str -> result SyncthingError (list FileInfo));
  re_status : option (str -> result SyncthingError ModelStatus);
  re_completion : option (str -> DeviceId -> result SyncthingError Z);
  re_manager : option ConnectionView;
  re_my_id : option DeviceId;
  re_uptime : Z;
  re_stack : nat;
}.

Record BrowseQuery := mkBrowseQuery { bq_folder : str; bq_prefix : option str; bq_levels : option nat }.

Record FileInfoResponse := mkFileInfoResponse {
  fr_name : str; fr_type : str; fr_size : Z; fr_modified_s : Z; fr_modified_ns : Z; fr_permissions : Z;
  fr_deleted : bool; fr_num_blocks : nat;
}.

Definition file_info_response (f : FileInfo) : FileInfoResponse :=
  mkFileInfoResponse (name f) (entry_type_name (file_type f)) (size f) (modified_s f) (modified_ns f) (permissions f)
    (is_deleted f) (length (blocks f)).

(** The version, architecture and system of the build are left out. *)
Record SystemStatus := mkSystemStatus {
  ss_my_id : option chars; ss_uptime : Z; ss_folder_count : nat; ss_device_count : nat; ss_totup : Z; ss_totdown : Z;
}.

Record DbStatus := mkDbStatus {
  ds_folder : str; ds_files : Z; ds_directories : Z; ds_symlinks : Z; ds_bytes : Z;
  ds_need_files : Z; ds_need_directories : Z; ds_need_symlinks : Z; ds_need_bytes : Z; ds_pull_errors : Z;
  ds_global_bytes : Z; ds_local_bytes : Z; ds_state : str;
}.

Record DeviceConnection := mkDeviceConnection {
  dc_id : option chars; dc_address : str; dc_conn_type : str; dc_connected_since : Z;
}.

Record ConnectionStatus := mkConnectionStatus { cs_total : nat; cs_connections : list DeviceConnection }.

(** The timestamp, which is that of the request, is left out. *)
Record SystemConnectionStats := mkSystemConnectionStats {
  st_in_bytes_total : Z; st_out_bytes_total : Z; st_conn_type : str; st_connected : bool; st_paused : bool;
  st_address : str;
}.

Definition status_name (r : result SyncthingError ModelStatus) : str :=
  match r with
  | Ok MsIdle => $"idle"
  | Ok MsScanning => $"scanning"
  | Ok MsSyncing => $"syncing"
  | Ok MsError => $"error"
  | Ok MsPaused => $"paused"
  | Err _ => $"unknown"
  end.

(** The counters are [u64]; the size is cast to it. *)
Definition count_file (s : DbStatus) (f : FileInfo) : DbStatus :=
  let bytes := wrap 64 (ds_bytes s + wrap 64 (size f)) in
  mkDbStatus (ds_folder s)
    (ds_files s + if decide (file_type f = File) then 1 else 0)
    (ds_directories s + if decide (file_type f = Directory) then 1 else 0)
    (ds_symlinks s + if decide (file_type f = Symlink) then 1 else 0)
    bytes (ds_need_files s) (ds_need_directories s) (ds_need_symlinks s) (ds_need_bytes s) (ds_pull_errors s)
    bytes bytes (ds_state s).

Section Pages.
Context {C : Type} `{ConfigStore C} (env : ReadEnv).
Context (unicode_alphanumeric : Z -> bool) (hex_decode : chars -> option (list Z)).
Abbreviation M A := (SE (ApiWorld C) ApiFailure A).

(** The part [browse] and [file_info] share: the files of a configured folder. *)
Definition folder_listing (folder : str) : M (list FileInfo) :=
  match re_db env with
  | None => se_throw (Status 503)
  | Some db =>
      let! config := load_config in
      if existsb (fun f => bool_decide (folder_id f = folder)) (cfg_folders config) then
        match db folder with
        | Ok files => se_ret files
        | Err _ => se_throw (Status 500)
        end
      else se_throw (Status 404)
  end.

Definition browse (query : BrowseQuery) : M (list BrowseEntry) :=
  let! files := folder_listing (bq_folder query) in
  no_panic (build_tree (re_stack env) files (default [] (bq_prefix query)) (default 0%nat (bq_levels query)) 0).

Definition file_info (folder file : str) : M FileInfoResponse :=
  let! files := folder_listing folder in
  match List.find (fun f => bool_decide (name f = file)) files with
  | Some info => se_ret (file_info_response info)
  | None => se_throw (Status 404)
  end.

(** [None] for the ID is the text UNKNOWN. *)
Definition get_status : M SystemStatus :=
  let! config := load_config in
  se_ret (mkSystemStatus None 0 (length (cfg_folders config)) (length (cfg_devices config)) 0 0).

(** An ID that cannot be printed panics. *)
Definition printed (d : DeviceId) : M chars := no_panic (device_id_to_string d).

Definition get_system_status : M SystemStatus :=
  let! config := load_config in
  let! my_id := match re_my_id env with
                | Some d => let! s := printed d in se_ret (Some s)
                | None => se_ret None
                end in
  let '(totup, totdown) := match re_manager env with
                           | Some cm => (cv_bytes_sent cm, cv_bytes_received cm)
                           | None => (0, 0)
                           end in
  se_ret (mkSystemStatus my_id (re_uptime env) (length (cfg_folders config)) (length (cfg_devices config))
            totup totdown).

(** The percentage, with the folder and the device it was asked for. *)
Definition get_db_completion (folder device : str) : M (Z * DeviceId * str) :=
  let! parsed := no_panic (parse_id unicode_alphanumeric hex_decode device) in
  match parsed with
  | Err _ => se_throw (Status 400)
  | Ok device_id =>
      match re_completion env with
      | Some model =>
          match model folder device_id with
          | Ok completion => se_ret (completion, device_id, folder)
          | Err _ => se_throw (Status 500)
          end
      | None => se_ret (100, device_id, folder)
      end
  end.

(** The row of one folder; a database error leaves its counters at zero. *)
Definition db_status_of (folder : str) : DbStatus :=
  let state := match re_status env with Some model => status_name (model folder) | None => $"unknown" end in
  let empty := mkDbStatus folder 0 0 0 0 0 0 0 0 0 0 0 state in
  match re_db env with
  | Some db => match db folder with Ok files => foldl count_file empty files | Err _ => empty end
  | None => empty
  end.

Definition get_db_status : M (list DbStatus) :=
  let! config := load_config in se_ret ((fun f => db_status_of (folder_id f)) <$> cfg_folders config).

(** [Ok] is the default summary, whatever the model answered. *)
Definition get_folder_status (id : str) : M unit :=
  let! config := load_config in
  if existsb (fun f => bool_decide (folder_id f = id)) (cfg_folders config) then
    match re_status env with
    | Some model => match model id with Ok _ => se_ret tt | Err _ => se_throw (Status 500) end
    | None => se_ret tt
    end
  else se_throw (Status 404).

Definition get_connections : ConnectionStatus :=
  match re_manager env with
  | Some cm =>
      let connections := omap (fun d => let+ addr := cv_remote_addr cm d in
                                        Some (mkDeviceConnection (device_id_to_string d) addr ($"tcp-server") 0))
                           (cv_devices cm) in
      mkConnectionStatus (length connections) connections
  | None => mkConnectionStatus 0 []
  end.

(** The rows by device; the totals of the answer are always zero. *)
Definition get_system_connections : gmap DeviceId SystemConnectionStats :=
  match re_manager env with
  | Some cm =>
      foldl (fun m d => match cv_remote_addr cm d with
                        | Some addr => <[d := mkSystemConnectionStats 0 0 ($"tcp-server") true false addr]> m
                        | None => m
                        end) ∅ (cv_devices cm)
  | None => ∅
  end.

(** The checks of [health_check]: database, manager, configuration. *)
Definition health_check : SE (ApiWorld C) ApiFailure (bool * (bool * bool * bool)) := fun w =>
  let '(r, w') := load_config w in
  let config_ok := match r with Ok _ => true | Err _ => false end in
  let cm_ok := bool_decide (is_Some (re_manager env)) in
  (Ok (cm_ok && config_ok, (true, cm_ok, config_ok)), w').

End Pages.

(** ** The tree lists the folder *)

(** A relative name without empty segments. *)
Definition tidy (rel : str) : Prop := Forall (fun seg => seg <> []) (split_on slash rel).

(** The path of an entry below a prefix; an empty name is the prefix itself. *)
Definition under (p rel : str) : str := if decide (rel = []) then p else sub_prefix p rel.

(** What the tree says of a file. *)
Definition listing_row (f : FileInfo) : str * str * option Z * option Z :=
  (name f, entry_type_name (file_type f), if decide (file_type f = File) then Some (size f) else None,
   if decide (file_type f = File) then Some (modified_s f) else None).

(** The rows of an entry below a prefix: those of its children, or its own. *)
Fixpoint listed (p : str) (e : BrowseEntry) : list (str * str * option Z * option Z) :=
  match be_children e with
  | [] => [(under p (be_name e), be_type e, be_size e, be_modified_s e)]
  | children => flat_map (listed (sub_prefix p (be_name e))) children
  end.

(** A file below a prefix, within the depth of the stack. *)
Definition below_prefix (prefix : str) (stack : nat) (f : FileInfo) : Prop :=
  exists rel, name f = under prefix rel /\ (rel = [] \/ tidy rel) /\ (length (split_on slash rel) <= stack)%nat.

Lemma relative_to_under p rel : relative_to p (under p rel) = Some rel.
Proof.
  unfold relative_to, under, sub_prefix. destruct (decide (rel = [])) as [-> | Hr].
  - case_decide; [by subst|]. by rewrite <- (app_nil_r p) at 2; rewrite strip_prefix_app.
  - case_decide; [done|]. by rewrite strip_prefix_app; cbn.
Qed.

Lemma split_on_cases (s : str) :
  (exists k rest, s = k ++ slash :: rest /\ slash ∉ k /\ split_on slash s = k :: split_on slash rest) \/
  (slash ∉ s /\ split_on slash s = [s]).
Proof.
  induction s as [|x s IH]; [right; split; [set_solver|done]|].
  destruct (decide (x = slash)) as [-> | Hx].
  - left. exists [], s. split; [done|]. split; [set_solver|]. cbn [split_on]. by rewrite decide_True.
  - destruct IH as [(k & rest & -> & Hk & E) | [Hs E]]; cbn [split_on]; rewrite decide_False by done; rewrite E.
    + left. exists (x :: k), rest. split; [done|]. split; [set_solver|done].
    + right. split; [set_solver|done].
Qed.

(** What the loop over the files has sorted out. *)
Record sorted_out (prefix : str) (files : list FileInfo) (acc : list (str * list FileInfo) * list FileInfo) : Prop := {
  so_perm : flat_map snd acc.1 ++ acc.2 ≡ₚ files;
  so_group : forall k fs, (k, fs) ∈ acc.1 -> fs <> [] /\
    forall f, f ∈ fs -> exists rest, relative_to prefix (name f) = Some (k ++ slash :: rest) /\ slash ∉ k;
  so_direct : forall f, f ∈ acc.2 -> exists r, relative_to prefix (name f) = Some r /\ slash ∉ r;
}.

Lemma group_push_perm k f m : flat_map snd (group_push k f m) ≡ₚ f :: flat_map snd m.
Proof.
  induction m as [|[k' fs] m IH]; [done|]. cbn. case_decide; cbn.
  - rewrite <- app_assoc. cbn. by rewrite <- Permutation_middle.
  - destruct (str_leb k k'); [done|]. cbn. rewrite IH. by rewrite <- Permutation_middle.
Qed.

Lemma group_push_elem k f m k0 fs0 :
  (k0, fs0) ∈ group_push k f m -> (k0, fs0) ∈ m \/
    (k0 = k /\ (fs0 = [f] \/ exists fs, (k, fs) ∈ m /\ fs0 = fs ++ [f])).
Proof.
  induction m as [|[k' fs] m IH]; cbn; [set_solver|]. case_decide as Hk.
  - subst k'. intros [[= -> ->] | H]%elem_of_cons; [right; split; [done|]; right; exists fs; set_solver|set_solver].
  - destruct (str_leb k k'); [set_solver|].
    intros [[= -> ->] | H]%elem_of_cons; [set_solver|]. apply IH in H. set_solver.
Qed.

Lemma sort_file_step prefix files acc f r :
  sorted_out prefix files acc -> relative_to prefix (name f) = Some r ->
  sorted_out prefix (files ++ [f]) (sort_file prefix acc f).
Proof.
  destruct acc as [entries direct]. intros [Hp Hg Hd] Hr. cbn in Hp, Hg, Hd. unfold sort_file. rewrite Hr.
  destruct (split_on_cases r) as [(k & rest & -> & Hk & E) | [Hs E]]; rewrite E.
  - pose proof (split_on_nonempty slash rest) as Hne. destruct (split_on slash rest) as [|h t]; [done|].
    split; cbn.
    + rewrite group_push_perm. cbn. rewrite Hp. by rewrite Permutation_cons_append.
    + intros k0 fs0 [H | (-> & [-> | (fs & Hin & ->)])]%group_push_elem; [by apply Hg| |].
      * split; [done|]. intros g ->%list_elem_of_singleton. by exists rest.
      * split; [by destruct fs|]. destruct (Hg _ _ Hin) as [_ Hfs].
        intros g [Hin' | ->%list_elem_of_singleton]%elem_of_app; [by apply Hfs|by exists rest].
    + done.
  - split; cbn; [by rewrite app_assoc, Hp|done|].
    intros g [Hin | ->%list_elem_of_singleton]%elem_of_app; [by apply Hd|by exists r].
Qed.

Lemma sort_files_ok prefix files :
  Forall (fun f => is_Some (relative_to prefix (name f))) files ->
  sorted_out prefix files (foldl (sort_file prefix) ([], []) files).
Proof.
  induction files as [|f files IH] using rev_ind; intros Hf.
  - split; cbn; [done|set_solver|set_solver].
  - rewrite foldl_app. cbn. apply Forall_app in Hf as [Hf Hl]. apply Forall_singleton in Hl as [r Hr].
    by eapply sort_file_step; [apply IH|].
Qed.

Lemma tidy_cut k rest : slash ∉ k -> tidy (k ++ slash :: rest) -> k <> [] /\ tidy rest.
Proof. unfold tidy. intros Hk. rewrite split_on_app_sep by done. by intros [? ?]%Forall_cons. Qed.

Lemma tidy_nonempty rel : tidy rel -> rel <> [].
Proof. intros H ->. unfold tidy in H. cbn in H. inversion H as [|? ? Hx _]. by apply Hx. Qed.

(** A file of a group is below the group's own prefix. *)
Lemma group_below prefix stack k rest f :
  below_prefix prefix (S stack) f -> relative_to prefix (name f) = Some (k ++ slash :: rest) -> slash ∉ k ->
  below_prefix (sub_prefix prefix k) stack f.
Proof.
  intros (rel & Hn & Ht & Hl) Hr Hk. rewrite Hn, relative_to_under in Hr. simplify_eq.
  destruct Ht as [He | Ht]; [by apply app_eq_nil in He as [_ ?]|].
  destruct (tidy_cut k rest Hk Ht) as [Hk0 Hrest]. pose proof (tidy_nonempty _ Hrest) as Hr0.
  exists rest. split_and!; [|by right|].
  - rewrite Hn. unfold under, sub_prefix.
    repeat case_decide; try (by destruct k); try (by destruct prefix); try done. by rewrite <- app_assoc.
  - rewrite split_on_app_sep in Hl by done. cbn in Hl. lia.
Qed.

Lemma direct_listed prefix stack f r :
  below_prefix prefix stack f -> relative_to prefix (name f) = Some r -> slash ∉ r ->
  exists e, direct_entry prefix f = Some e /\ listed prefix e = [listing_row f].
Proof.
  intros (rel & Hn & _) Hr Hs. rewrite Hn, relative_to_under in Hr. injection Hr as ->.
  unfold direct_entry. rewrite Hn, relative_to_under. cbn [from_option id].
  rewrite (proj2 (contains_false slash r)) by done. eexists. split; [done|]. cbn. unfold listing_row. by rewrite Hn.
Qed.

(** The directory entries: each lists the files of its group. *)
Lemma dirs_listed (sub : str * list FileInfo -> option (list BrowseEntry)) prefix entries :
  (forall e, e ∈ entries -> e.2 <> [] /\ exists tree, sub e = Some tree /\
     flat_map (listed (sub_prefix prefix e.1)) tree ≡ₚ listing_row <$> e.2) ->
  exists dirs, mapM (fun e => let+ children := sub e in
                              Some (mkBrowseEntry e.1 ($"directory") None None children)) entries = Some dirs /\
    flat_map (listed prefix) dirs ≡ₚ listing_row <$> flat_map snd entries.
Proof.
  induction entries as [|[k fs] entries IH]; intros Hs; [by exists []|].
  destruct (Hs (k, fs)) as (Hne & tree & Ht & Hl); [set_solver|].
  destruct IH as (dirs & Hd & Hp); [intros e He; apply Hs; set_solver|].
  eexists. cbn. rewrite Ht. cbn. cbn in Hd. rewrite Hd. split; [done|]. cbn in *.
  rewrite fmap_app, <- Hl, Hp. destruct tree as [|e tree]; [|done].
  cbn in Hl. apply Permutation_nil_l in Hl. by destruct fs.
Qed.

Lemma directs_listed prefix stack fs :
  (forall f, f ∈ fs -> below_prefix prefix stack f /\ exists r, relative_to prefix (name f) = Some r /\ slash ∉ r) ->
  flat_map (listed prefix) (omap (direct_entry prefix) fs) = listing_row <$> fs.
Proof.
  induction fs as [|f fs IH]; intros Hf; [done|].
  destruct (Hf f) as (Hb & r & Hr & Hs); [set_solver|].
  destruct (direct_listed prefix stack f r Hb Hr Hs) as (e & He & Hl).
  cbn. rewrite He. cbn. rewrite Hl. cbn. f_equal. apply IH. set_solver.
Qed.

Lemma build_tree_listed stack : forall files prefix depth,
  (0 < stack)%nat -> Forall (below_prefix prefix stack) files ->
  exists tree, build_tree stack files prefix 0 depth = Some tree /\
    flat_map (listed prefix) tree ≡ₚ listing_row <$> files.
Proof.
  induction stack as [|stack IH]; intros files prefix depth Hs Hf; [lia|]. cbn [build_tree Nat.ltb Nat.leb andb].
  destruct (foldl (sort_file prefix) ([], []) files) as [entries direct] eqn:E.
  assert (sorted_out prefix files (entries, direct)) as [Hp Hg Hd].
  { rewrite <- E. apply sort_files_ok. eapply Forall_impl; [exact Hf|].
    intros f (rel & -> & _). by rewrite relative_to_under. }
  cbn in Hp, Hg, Hd. rewrite Forall_forall in Hf.
  assert (forall f, f ∈ flat_map snd entries ++ direct -> below_prefix prefix (S stack) f) as Hb.
  { intros f Hin. apply Hf. by rewrite Hp in Hin. }
  edestruct (dirs_listed (fun e => build_tree stack e.2 (sub_prefix prefix e.1) 0 (S depth)) prefix entries)
    as (dirs & Hdirs & Hdl).
  { intros [k fs] Hin. destruct (Hg _ _ Hin) as [Hne Hfs]. cbn. split; [done|].
    assert (Forall (below_prefix (sub_prefix prefix k) stack) fs) as Hbs.
    { apply Forall_forall. intros f Hff. destruct (Hfs f Hff) as (rest & Hr & Hk).
      eapply group_below; [|done|done]. apply Hb, elem_of_app. left.
      apply list_elem_of_In, in_flat_map. exists (k, fs). by rewrite <- !list_elem_of_In. }
    apply IH; [|done]. destruct fs as [|f fs]; [done|]. apply Forall_cons in Hbs as [(rel & _ & _ & Hl) _].
    pose proof (split_on_nonempty slash rel). destruct (split_on slash rel); [done|]. cbn in Hl. lia. }
  exists (dirs ++ omap (direct_entry prefix) direct). rewrite Hdirs. split; [done|].
  rewrite flat_map_app, Hdl, (directs_listed prefix (S stack) direct), <- fmap_app; [by rewrite Hp|].
  intros f Hin. split; [apply Hb; set_solver|by apply Hd].
Qed.

(** Names that do not start with the prefix are left out. *)
Lemma relative_to_is_Some p n : is_Some (relative_to p n) <-> starts_with p n = true.
Proof.
  unfold relative_to, starts_with. case_decide as Hp; [subst; naive_solver|].
  destruct (strip_prefix p n); naive_solver.
Qed.

Lemma sort_files_skip prefix files acc :
  foldl (sort_file prefix) acc files =
  foldl (sort_file prefix) acc (filter (fun f => starts_with prefix (name f) = true) files).
Proof.
  revert acc. induction files as [|f files IH]; intros acc; [done|]. rewrite filter_cons. cbn.
  case_decide as Hf; [apply IH|]. rewrite <- relative_to_is_Some in Hf.
  assert (sort_file prefix acc f = acc) as ->; [|apply IH].
  unfold sort_file. destruct acc. destruct (relative_to prefix (name f)); [naive_solver|done].
Qed.

Lemma build_tree_skip stack files prefix levels depth :
  build_tree stack files prefix levels depth =
  build_tree stack (filter (fun f => starts_with prefix (name f) = true) files) prefix levels depth.
Proof. destruct stack; [done|]. cbn [build_tree]. by rewrite sort_files_skip. Qed.

(** The tree down to a depth: directories below it are shown without children. *)
Fixpoint prune (n : nat) (e : BrowseEntry) : BrowseEntry :=
  mkBrowseEntry (be_name e) (be_type e) (be_size e) (be_modified_s e)
    match n with
    | O => []
    | S n => prune n <$> be_children e
    end.

Lemma prune_direct prefix n (fs : list FileInfo) : prune n <$> omap (direct_entry prefix) fs = omap (direct_entry prefix) fs.
Proof.
  induction fs as [|f fs IH]; [done|]. cbn. destruct (direct_entry prefix f) as [e|] eqn:E; [|done].
  cbn. f_equal; [|done]. unfold direct_entry in E. case_match; [done|]. injection E as <-. by destruct n.
Qed.

Lemma mapM_prune (sub sub' : str * list FileInfo -> option (list BrowseEntry)) n
    (entries : list (str * list FileInfo)) (dirs : list BrowseEntry) :
  (forall e tree, sub e = Some tree -> sub' e = Some (match n with O => [] | S n => prune n <$> tree end)) ->
  mapM (fun e => let+ children := sub e in Some (mkBrowseEntry e.1 ($"directory") None None children)) entries
    = Some dirs ->
  mapM (fun e => let+ children := sub' e in Some (mkBrowseEntry e.1 ($"directory") None None children)) entries
    = Some (prune n <$> dirs).
Proof.
  intros Hs. revert dirs. induction entries as [|e entries IH]; intros dirs; [by intros [= <-]|]. cbn.
  destruct (sub e) as [tree|] eqn:E; [|done]. rewrite (Hs _ _ E). cbn.
  intros (ds & Hd & [= <-])%bind_Some. cbn in IH. rewrite (IH _ Hd). cbn. by destruct n.
Qed.

Lemma build_tree_prune stack : forall files prefix levels depth tree,
  build_tree stack files prefix 0 depth = Some tree -> (depth < levels)%nat ->
  build_tree stack files prefix levels depth = Some (prune (levels - S depth) <$> tree).
Proof.
  induction stack as [|stack IH]; intros files prefix levels depth tree; [done|].
  cbn [build_tree]. change (0 <? 0)%nat with false. cbn [andb].
  destruct (foldl _ _ files) as [entries direct]. intros (dirs & Hd & [= <-])%bind_Some Hl.
  assert (((0 <? levels) && (levels <=? depth))%nat = false) as ->.
  { apply andb_false_iff. right. apply Nat.leb_gt. lia. }
  erewrite (mapM_prune _ _ (levels - S depth)%nat); [|clear Hd|exact Hd].
  - cbn. by rewrite fmap_app, prune_direct.
  - intros [k fs] sub Hsub. destruct (levels - S depth)%nat as [|n] eqn:En.
    + destruct stack as [|stack]; [done|]. cbn [build_tree].
      by rewrite (proj2 (andb_true_iff _ _)) by (split; [apply Nat.ltb_lt|apply Nat.leb_le]; lia).
    + rewrite (IH _ _ levels (S depth) sub Hsub) by lia. by replace (levels - S (S depth))%nat with n by lia.
Qed.

(** A name that starts with a slash: the recursion does not end. *)
Lemma leading_slash_diverges stack f rest depth :
  name f = slash :: rest -> build_tree stack [f] [] 0 depth = None.
Proof.
  intros Hn. revert depth. induction stack as [|stack IH]; intros depth; [done|]. cbn [build_tree Nat.ltb Nat.leb andb].
  unfold sort_file. cbn [foldl]. unfold relative_to. rewrite decide_True by done. rewrite Hn. cbn [split_on].
  rewrite decide_True by done. pose proof (split_on_nonempty slash rest) as Hne.
  destruct (split_on slash rest); [done|]. cbn [group_push mapM fst snd sub_prefix]. 
  change (sub_prefix [] []) with (@nil ascii). by rewrite IH.
Qed.

(** For a configured folder of which the database lists the files, the browse
    page shows exactly the files whose names start with the asked prefix: the
    rows of the tree, with type, size and time, are a permutation of theirs, each
    at its full path; and a page limited to some levels is that tree cut off at
    that depth.  The prefix must end at the boundary of a path segment and the
    names may not have empty segments or more of them than the stack has room
    for: [leading_slash_diverges] and the examples below show that the page is
    wrong, or the process gone, otherwise. *)
Theorem browse_lists_folder {C : Type} `{ConfigStore C} env (w w' : ApiWorld C) config db folder prefix files :
  re_db env = Some db ->
  load_config w = (Ok config, w') ->
  folder ∈ folder_id <$> cfg_folders config ->
  db folder = Ok files ->
  (0 < re_stack env)%nat ->
  (forall f, f ∈ files -> starts_with prefix (name f) = true -> below_prefix prefix (re_stack env) f) ->
  exists tree,
    browse env (mkBrowseQuery folder (Some prefix) None) w = (Ok tree, w') /\
    flat_map (listed prefix) tree ≡ₚ
      listing_row <$> filter (fun f => starts_with prefix (name f) = true) files /\
    forall n, browse env (mkBrowseQuery folder (Some prefix) (Some (S n))) w = (Ok (prune n <$> tree), w').
Proof.
  intros Hdb Hload Hin Hfiles Hs Hbelow.
  destruct (build_tree_listed (re_stack env) (filter (fun f => starts_with prefix (name f) = true) files) prefix 0)
    as (tree & Ht & Hp); [done| |].
  { apply Forall_forall. intros f [Hf Hin']%list_elem_of_filter. by apply Hbelow. }
  rewrite <- build_tree_skip in Ht. exists tree.
  assert (folder_listing env folder w = (Ok files, w')) as Hl.
  { unfold folder_listing. rewrite Hdb. unfold se_bind. rewrite Hload.
    rewrite (proj2 (existsb_exists _ _)); [by rewrite Hfiles|].
    apply list_elem_of_fmap in Hin as (fo & -> & Hfo). exists fo. rewrite <- list_elem_of_In.
    split; [done|by apply bool_decide_eq_true]. }
  unfold browse, se_bind. cbn [bq_folder bq_prefix bq_levels]. rewrite Hl. cbn [from_option id]. rewrite Ht.
  split_and!; [done|done|]. intros n.
  rewrite (build_tree_prune _ _ _ (S n) 0 tree Ht) by lia. cbn. by rewrite Nat.sub_0_r.
Qed.

Definition sized (n : str) (t : FileType) (sz : Z) : FileInfo :=
  mkFileInfo n t sz 0 7 0 vector_new 0 0 [] None (Some false) None None None None.

Definition browse_demo_world : ApiWorld MemoryConfigStore :=
  mkApiWorld (memory_with_config (mkConfig 1 [] [] [folder_new ($"f") ($"/f")] [] None
    (mkGuiConfig true [] [] []) (mkOptions [] true true true []))) [].

Definition browse_demo_env (files : list FileInfo) : ReadEnv :=
  mkReadEnv (Some (fun _ => Ok files)) None None None None 0 8.

Definition browse_demo_files : list FileInfo :=
  [sized ($"docs/a") File 1; sized ($"b") File 2; sized ($"docs/x/c") File 3; sized ($"docs") Directory 0].

Lemma browse_lists_folder_witness :
  exists tree,
    browse (browse_demo_env browse_demo_files) (mkBrowseQuery ($"f") (Some ($"docs")) None) browse_demo_world
      = (Ok tree, browse_demo_world) /\
    length (flat_map (listed ($"docs")) tree) = 3%nat.
Proof.
  destruct (browse_lists_folder (browse_demo_env browse_demo_files) browse_demo_world browse_demo_world
    (mc_config (aw_store browse_demo_world)) (fun _ => Ok browse_demo_files) ($"f") ($"docs") browse_demo_files)
    as (tree & Ht & Hp & _).
  - reflexivity.
  - reflexivity.
  - cbn. set_solver.
  - reflexivity.
  - cbn. lia.
  - intros f Hf Hs. unfold browse_demo_files in Hf.
    repeat (apply elem_of_cons in Hf as [-> | Hf]); [| | | |by apply not_elem_of_nil in Hf].
    + exists ($"a"). split; [done|]. split; [right; unfold tidy; apply (bool_decide_unpack _); vm_compute; exact I|apply Nat.leb_le; reflexivity].
    + done.
    + exists ($"x/c"). split; [done|]. split; [right; unfold tidy; apply (bool_decide_unpack _); vm_compute; exact I|apply Nat.leb_le; reflexivity].
    + exists []. split; [done|]. split; [by left|apply Nat.leb_le; reflexivity].
  - exists tree. split; [exact Ht|]. rewrite Hp. reflexivity.
Defined.

(** A directory the database knows is shown twice: with its children, and as an
    entry of its own. *)
Example directory_listed_twice :
  (fun e => (be_name e, length (be_children e))) <$> default [] (build_tree 8 browse_demo_files [] 0 0) =
  [($"docs", 2%nat); ($"b", 0%nat); ($"docs", 0%nat)].
Proof. reflexivity. Qed.

(** A prefix that is not at the end of a segment shows an empty directory of
    which there is no such path; one that ends in a slash hides what is below the
    subdirectories. *)
Example prefix_inside_segment :
  build_tree 8 [sized ($"foobar/x") File 1] ($"foo") 0 0 = Some [mkBrowseEntry ($"bar") ($"directory") None None []].
Proof. reflexivity. Qed.

Example prefix_with_slash :
  build_tree 8 browse_demo_files ($"docs/") 0 0 =
  Some [mkBrowseEntry ($"x") ($"directory") None None []; mkBrowseEntry ($"a") ($"file") (Some 1) (Some 7) []].
Proof. reflexivity. Qed.

(** One file whose name starts with a slash takes the page, and the process, down. *)
Example leading_slash_crash :
  browse (browse_demo_env [sized ($"/etc") File 1]) (mkBrowseQuery ($"f") None None) browse_demo_world =
  (Err Panicked, browse_demo_world).
Proof. reflexivity. Qed.

(** A deletion is shown as a file and counted with its size. *)
Example deletion_shown :
  let gone := mkFileInfo ($"b") File 2 0 7 0 vector_new 0 0 [] None (Some true) None None None None in
  build_tree 8 [gone] [] 0 0 = Some [mkBrowseEntry ($"b") ($"file") (Some 2) (Some 7) []] /\
  ds_files (db_status_of (browse_demo_env [gone]) ($"f")) = 1 /\ ds_bytes (db_status_of (browse_demo_env [gone]) ($"f")) = 2.
Proof. split_and!; reflexivity. Qed.

(** Whatever is missing, the page says that nothing is needed. *)
Lemma db_status_never_needs env folder : ds_need_files (db_status_of env folder) = 0.
Proof.
  unfold db_status_of. destruct (re_db env) as [db|]; [|done]. destruct (db folder) as [files|]; [|done].
  match goal with |- ds_need_files (foldl _ ?e _) = _ => assert (ds_need_files e = 0) as He by done; revert He; generalize e end.
  induction files as [|f files IH]; intros s Hs; [done|]. cbn. by apply IH.
Qed.
