(* ===== verification/Monitor.v ===== *)
(** * The process monitor

    [cmd/syncthing/src/bin/monitor/]: the program that watches running daemons.
    [args.rs] (durations and process names), [log_parser.rs] (the incremental
    reader of a log file and its counters), [sample.rs] (process samples),
    [api.rs] (what it reads from the REST API) and [alerts.rs] (thresholds,
    projection, silence).  The metadata and the content a poll sees, the process
    table, the answers of the API and the clock are arguments.  Times are
    milliseconds in the log parser and nanoseconds in the alerts; floating point
    is the binary64 of the Standard Library, as in [Service].  The CSV and JSON
    texts of a sample are not modelled. *)

From Stdlib Require Import SpecFloat.
From S2P Require Import Prelude Core DeviceIds Connection Bep Wire Ignore Puller Versions Net Relay Service Tasks.

(** ** Arguments *)

Inductive ProcId := ByPid (pid : Z) | ByName (name : str).

Definition proc_id_parse (s : str) : ProcId :=
  match parse_unsigned 32 s with
  | Some pid => ByPid pid
  | None => ByName s
  end.

Definition is_ascii_digit (c : ascii) : bool := (48 <=? byte_of c) && (byte_of c <=? 57).

(** [parse_duration], in seconds.  [None]: the slice cuts a character in two and
    panics; [Some None]: an error.  The multiplications wrap around in a release
    build. *)
Definition parse_duration (text : str) : option (option Z) :=
  let s := trim text in
  match last s with
  | None => Some None
  | Some unit =>
      if forallb is_ascii_digit s then Some (parse_unsigned 64 s)
      else if 128 <=? byte_of unit then None
      else
        Some match parse_unsigned 64 (take (length s - 1) s) with
             | None => None
             | Some num =>
                 if decide (unit = "s"%char) then Some num
                 else if decide (unit = "m"%char) then Some (wrap 64 (num * 60))
                 else if decide (unit = "h"%char) then Some (wrap 64 (num * 3600))
                 else if decide (unit = "d"%char) then Some (wrap 64 (num * 86400))
                 else None
             end
  end.

(** ** The log parser *)

Record LogMetrics := mkLogMetrics {
  lm_scan_count : Z; lm_pull_count : Z; lm_pull_failed : Z; lm_invalid_file_count : Z;
  lm_scan_count_total : Z; lm_pull_count_total : Z; lm_pull_failed_total : Z; lm_invalid_file_total : Z;
  lm_scan_duration_ms : option Z; lm_pull_duration_ms : option Z;
}.

Record LogParser := mkLogParser {
  lp_offset : Z;
  lp_leftover : str;
  lp_scan_starts : gmap str Z;
  lp_pull_starts : gmap str Z;
  lp_metrics : LogMetrics;
}.

Definition zero_metrics : LogMetrics := mkLogMetrics 0 0 0 0 0 0 0 0 None None.

Definition log_parser_new : LogParser := mkLogParser 0 [] ∅ ∅ zero_metrics.

Definition nl : ascii := "010"%char.

(** The text up to the first whitespace, comma or semicolon. *)
Fixpoint up_to_break (s : str) : str :=
  match s with
  | [] => []
  | c :: rest =>
      if bool_decide (is_Some (strip_any whitespace s)) || bool_decide (c = ","%char) || bool_decide (c = ";"%char)
      then [] else c :: up_to_break rest
  end.

Definition extract_kv (line key : str) : option str :=
  let+ p := split_once (key ++ $"=") line in Some (up_to_break p.2).

Definition set_metrics (m : LogMetrics) (p : LogParser) : LogParser :=
  mkLogParser (lp_offset p) (lp_leftover p) (lp_scan_starts p) (lp_pull_starts p) m.

Definition set_scans (f : gmap str Z -> gmap str Z) (p : LogParser) : LogParser :=
  mkLogParser (lp_offset p) (lp_leftover p) (f (lp_scan_starts p)) (lp_pull_starts p) (lp_metrics p).

Definition set_pulls (f : gmap str Z -> gmap str Z) (p : LogParser) : LogParser :=
  mkLogParser (lp_offset p) (lp_leftover p) (lp_scan_starts p) (f (lp_pull_starts p)) (lp_metrics p).

Definition scan_counted (m : LogMetrics) : LogMetrics :=
  mkLogMetrics (lm_scan_count m + 1) (lm_pull_count m) (lm_pull_failed m) (lm_invalid_file_count m)
    (lm_scan_count_total m + 1) (lm_pull_count_total m) (lm_pull_failed_total m) (lm_invalid_file_total m)
    (lm_scan_duration_ms m) (lm_pull_duration_ms m).

Definition pull_counted (m : LogMetrics) : LogMetrics :=
  mkLogMetrics (lm_scan_count m) (lm_pull_count m + 1) (lm_pull_failed m) (lm_invalid_file_count m)
    (lm_scan_count_total m) (lm_pull_count_total m + 1) (lm_pull_failed_total m) (lm_invalid_file_total m)
    (lm_scan_duration_ms m) (lm_pull_duration_ms m).

Definition failures_counted (n : Z) (m : LogMetrics) : LogMetrics :=
  mkLogMetrics (lm_scan_count m) (lm_pull_count m) (wrap 64 (lm_pull_failed m + n)) (lm_invalid_file_count m)
    (lm_scan_count_total m) (lm_pull_count_total m) (wrap 64 (lm_pull_failed_total m + n)) (lm_invalid_file_total m)
    (lm_scan_duration_ms m) (lm_pull_duration_ms m).

Definition invalid_counted (m : LogMetrics) : LogMetrics :=
  mkLogMetrics (lm_scan_count m) (lm_pull_count m) (lm_pull_failed m) (lm_invalid_file_count m + 1)
    (lm_scan_count_total m) (lm_pull_count_total m) (lm_pull_failed_total m) (lm_invalid_file_total m + 1)
    (lm_scan_duration_ms m) (lm_pull_duration_ms m).

Definition with_durations (scan pull : option Z) (m : LogMetrics) : LogMetrics :=
  mkLogMetrics (lm_scan_count m) (lm_pull_count m) (lm_pull_failed m) (lm_invalid_file_count m)
    (lm_scan_count_total m) (lm_pull_count_total m) (lm_pull_failed_total m) (lm_invalid_file_total m) scan pull.

Definition on_metrics (f : LogMetrics -> LogMetrics) (p : LogParser) : LogParser := set_metrics (f (lp_metrics p)) p.

(** The end of a scan or pull of a folder: its start is taken out, and the time
    since then is the last duration. *)
Definition scan_ended (now : Z) (line : str) (p : LogParser) : LogParser :=
  match extract_kv line ($"folder_id") with
  | Some f =>
      match lp_scan_starts p !! f with
      | Some start =>
          on_metrics (fun m => with_durations (Some (now - start)) (lm_pull_duration_ms m) m) (set_scans (base.delete f) p)
      | None => p
      end
  | None => p
  end.

Definition pull_ended (now : Z) (line : str) (p : LogParser) : LogParser :=
  match extract_kv line ($"folder_id") with
  | Some f =>
      match lp_pull_starts p !! f with
      | Some start =>
          on_metrics (fun m => with_durations (lm_scan_duration_ms m) (Some (now - start)) m) (set_pulls (base.delete f) p)
      | None => p
      end
  | None => p
  end.

Definition failures_of (line : str) (p : LogParser) : LogParser :=
  match (v ← extract_kv line ($"failed"); parse_unsigned 64 v) with
  | Some n => on_metrics (failures_counted n) p
  | None => p
  end.

Definition process_line (p : LogParser) (e : Z * str) : LogParser :=
  let '(now, line) := e in
  if contains_sub ($"Folder scan completed") line then scan_ended now line (on_metrics scan_counted p)
  else if contains_sub ($"Starting folder scan") line then
    match extract_kv line ($"folder_id") with Some f => set_scans <[f := now]> p | None => p end
  else if contains_sub ($"Folder pull completed") line || contains_sub ($"Pull completed") line then
    failures_of line (pull_ended now line (on_metrics pull_counted p))
  else if contains_sub ($"Starting folder pull") line then
    match extract_kv line ($"folder_id") with Some f => set_pulls <[f := now]> p | None => p end
  else if contains_sub ($"InvalidFile") line then on_metrics invalid_counted p
  else p.

(** [update]: the size the metadata gave, if they could be read, and the content
    at the time of the read, if opening, seeking and reading succeeded.  [clock]
    gives the time at which the lines are processed, by their number. *)
Definition log_update (meta : option Z) (content : option str) (clock : nat -> Z) (p0 : LogParser) : LogParser :=
  match meta with
  | None => p0
  | Some size =>
      let p := if size <? lp_offset p0
               then mkLogParser 0 [] (lp_scan_starts p0) (lp_pull_starts p0) (lp_metrics p0) else p0 in
      if size =? lp_offset p then p
      else
        match content with
        | None => p
        | Some content =>
            let buf := lp_leftover p ++ drop (Z.to_nat (lp_offset p)) content in
            match rsplit_once nl buf with
            | None => mkLogParser size buf (lp_scan_starts p) (lp_pull_starts p) (lp_metrics p)
            | Some (complete, leftover) =>
                let lines := str_lines (from_utf8_lossy (complete ++ [nl])) in
                let p := foldl process_line p (imap (fun i l => (clock i, l)) lines) in
                mkLogParser (wrap 64 (size - Z.of_nat (length leftover))) leftover (lp_scan_starts p)
                  (lp_pull_starts p) (lp_metrics p)
            end
        end
  end.

(** The counters of the window start again; the totals stay. *)
Definition take_metrics (p : LogParser) : LogMetrics * LogParser :=
  let m := lp_metrics p in
  (m, set_metrics (mkLogMetrics 0 0 0 0 (lm_scan_count_total m) (lm_pull_count_total m) (lm_pull_failed_total m)
                     (lm_invalid_file_total m) None None) p).

(** The later parser's duration wins, where it has one. *)
Definition add_metrics (agg m : LogMetrics) : LogMetrics :=
  mkLogMetrics (lm_scan_count agg + lm_scan_count m) (lm_pull_count agg + lm_pull_count m)
    (wrap 64 (lm_pull_failed agg + lm_pull_failed m)) (lm_invalid_file_count agg + lm_invalid_file_count m)
    (lm_scan_count_total agg + lm_scan_count_total m) (lm_pull_count_total agg + lm_pull_count_total m)
    (wrap 64 (lm_pull_failed_total agg + lm_pull_failed_total m))
    (lm_invalid_file_total agg + lm_invalid_file_total m)
    (match lm_scan_duration_ms agg, lm_scan_duration_ms m with
     | Some d, None => Some d
     | _, d => d
     end)
    (match lm_pull_duration_ms agg, lm_pull_duration_ms m with
     | Some d, None => Some d
     | _, d => d
     end).

Definition aggregate_log_metrics (parsers : list LogParser) : LogMetrics * list LogParser :=
  (foldl add_metrics zero_metrics ((fun p => (take_metrics p).1) <$> parsers), (fun p => (take_metrics p).2) <$> parsers).

(** ** Samples *)

(** CPU usage is not modelled. *)
Record ProcSample := mkProcSample { ps_rss_mb : Z; ps_found : bool }.

(** The process table: PID, name and memory in bytes. *)
Definition sample_process (table : list (Z * str * Z)) (id : ProcId) : ProcSample :=
  match id with
  | ByPid pid =>
      match List.find (fun r => r.1.1 =? pid) table with
      | Some r => mkProcSample (r.2 / 1024 / 1024) true
      | None => mkProcSample 0 false
      end
  | ByName n =>
      foldl (fun s r => mkProcSample (ps_rss_mb s + r.2 / 1024 / 1024) true) (mkProcSample 0 false)
        (filter (fun r : Z * str * Z => r.1.2 = n) table)
  end.

(** A size in MiB; a file that cannot be read has size 0. *)
Definition sample_log_size (meta : option Z) : Z := from_option (fun n => n / 1024 / 1024) 0 meta.

Record ApiSample := mkApiSample {
  as_connected : option bool;
  as_connection_type : str;
  as_need_files : option Z;
  as_need_bytes : option Z;
  as_per_folder_need_files : gmap str Z;
}.

(** [poll_api].  The answer to [/rest/system/connections], as the rows the monitor
    reads of it ([connected] and [address]), and for each folder the numbers
    [needFiles] and [needBytes] of [/rest/db/status], absent fields being
    [None]; the outer [None] is a failed request. *)
Definition poll_connections (answer : option (list (bool * str))) : option bool * str :=
  match answer with
  | None => (None, [])
  | Some rows =>
      let connected := (filter (fun r : bool * str => r.1 = true) rows).*2 in
      let relayed a := starts_with ($"relay://") a || contains_sub ($"relay") a in
      (Some (negb (bool_decide (connected = []))),
       if existsb (fun a => negb (relayed a)) connected then $"direct"
       else if existsb relayed connected then $"relay" else [])
  end.

Definition poll_folder (acc : Z * Z * gmap str Z) (e : str * option (option Z * option Z)) : Z * Z * gmap str Z :=
  let '(files, bytes, per_folder) := acc in
  match e.2 with
  | None => acc
  | Some (need_files, need_bytes) =>
      let n := wrap 64 (default 0 need_files) in
      (wrap 64 (files + n), wrap 64 (bytes + wrap 64 (default 0 need_bytes)), <[e.1 := n]> per_folder)
  end.

Definition poll_api (connections : option (list (bool * str)))
    (folders : list (str * option (option Z * option Z))) : ApiSample :=
  let '(connected, connection_type) := poll_connections connections in
  let '(files, bytes, per_folder) := foldl poll_folder (0, 0, ∅) folders in
  if decide (folders = []) then mkApiSample connected connection_type None None ∅
  else mkApiSample connected connection_type (Some files) (Some bytes) per_folder.

(** ** Alerts *)

Definition f64_add : f64 -> f64 -> f64 := SFadd 53 1024.
Definition f64_sub : f64 -> f64 -> f64 := SFsub 53 1024.

Definition f64_sum (l : list f64) : f64 := foldl f64_add f64_zero l.

(** Slope and intercept of the least squares line. *)
Definition linear_regression (xs ys : list f64) : option (f64 * f64) :=
  let n := length xs in
  if (n <? 2)%nat || negb (n =? length ys)%nat then None
  else
    let n_f := f64_of_usize (Z.of_nat n) in
    let mean_x := f64_div (f64_sum xs) n_f in
    let mean_y := f64_div (f64_sum ys) n_f in
    let '(num, den) :=
      foldl (fun acc p => let '(num, den) := acc in
                          let dx := f64_sub p.1 mean_x in
                          (f64_add num (f64_mul dx (f64_sub p.2 mean_y)), f64_add den (f64_mul dx dx)))
        (f64_zero, f64_zero) (zip xs ys) in
    if SFeqb den f64_zero then None
    else let slope := f64_div num den in Some (slope, f64_sub mean_y (f64_mul slope mean_x)).

Record AlertArgs := mkAlertArgs {
  aa_rss_alert_mb : Z;
  aa_log_alert_mb : Z;
  aa_log_silent_secs : Z;
}.

Inductive Alert :=
| ProcessNotFound (idx : nat)
| RssAbove (idx : nat) (rss : Z)
| RssProjected (idx : nat)
| BacklogGrowing (folder : str) (need : Z)
| LogTooBig (idx : nat) (size : Z)
| LogSilent (idx : nat) (secs : Z).

Record LogMtimeTracker := mkLogMtimeTracker { lt_mtime : Z; lt_size : Z }.

Definition window_push (rss : Z) (window : list Z) : list Z :=
  let w := window ++ [rss] in if (60 <? length w)%nat then drop 1 w else w.

(** Whether the window projects the threshold to be passed within six hours;
    [interval] is that between samples, in seconds. *)
Definition projected (threshold : Z) (interval : f64) (window : list Z) : bool :=
  if (length window <? 30)%nat then false
  else
    let ys := f64_of_usize <$> window in
    let xs := (fun i => f64_of_usize (Z.of_nat i)) <$> seq 0 (length window) in
    match linear_regression xs ys with
    | None => false
    | Some (slope, intercept) =>
        if SFltb f64_zero slope then
          let to_threshold := f64_sub (f64_div (f64_sub (f64_of_usize threshold) intercept) slope)
                                (default f64_zero (last xs)) in
          let in_6h := f64_div (f64_mul (f64_of_usize 6) (f64_of_usize 3600)) interval in
          SFltb f64_zero to_threshold && SFleb to_threshold in_6h
        else false
    end.

(** One process: its alerts and its window. *)
Definition check_process (args : AlertArgs) (interval : f64) (idx : nat) (p : ProcSample) (window : list Z)
  : list Alert * list Z :=
  if ps_found p then
    let window := window_push (ps_rss_mb p) window in
    ((if aa_rss_alert_mb args <? ps_rss_mb p then [RssAbove idx (ps_rss_mb p)] else []) ++
     (if projected (aa_rss_alert_mb args) interval window then [RssProjected idx] else []), window)
  else ([ProcessNotFound idx], window).

Definition check_backlog (acc : list Alert * gmap str Z) (e : str * Z) : list Alert * gmap str Z :=
  let '(alerts, prev) := acc in
  let '(folder, need) := e in
  (alerts ++ (if 0 <? need then match prev !! folder with
                                | Some before => if before <? need then [BacklogGrowing folder need] else []
                                | None => []
                                end else []),
   <[folder := need]> prev).

(** [meta]: modification time in nanoseconds and size; [now] is the current time. *)
Definition check_silence (silent_secs : Z) (now : Z) (idx : nat) (meta : option (Z * Z)) (t : LogMtimeTracker)
  : list Alert * LogMtimeTracker :=
  let '(mtime, size) := default (0, 0) meta in
  if (lt_size t <? size) || (lt_mtime t <? mtime) then ([], mkLogMtimeTracker mtime size)
  else
    let silent := Z.max 0 (mtime - lt_mtime t) / 10 ^ 9 in
    if silent_secs <=? silent then ([LogSilent idx silent], mkLogMtimeTracker now (lt_size t)) else ([], t).

Record AlertState := mkAlertState {
  al_windows : list (list Z);
  al_prev_need : gmap str Z;
  al_trackers : list LogMtimeTracker;
}.

(** The alerts of one sample.  There is a window for each process; the folders
    come in the order of a hash map. *)
Definition check_alerts (args : AlertArgs) (interval : f64) (procs : list ProcSample) (api : ApiSample)
    (log_sizes : list Z) (metas : list (option (Z * Z))) (now : Z) (s : AlertState) : list Alert * AlertState :=
  let procs' := imap (fun i pw => check_process args interval i pw.1 pw.2) (zip procs (al_windows s)) in
  let '(backlog, prev) := foldl check_backlog ([], al_prev_need s) (map_to_list (as_per_folder_need_files api)) in
  let sizes := concat (imap (fun i n => if aa_log_alert_mb args <? n then [LogTooBig i n] else []) log_sizes) in
  let silence := imap (fun i mt => check_silence (aa_log_silent_secs args) now i mt.1 mt.2) (zip metas (al_trackers s)) in
  (concat procs'.*1 ++ backlog ++ sizes ++ concat silence.*1, mkAlertState procs'.*2 prev silence.*2).

(** ** Every line is counted once *)

(** What a line reports: the first marker it has. *)
Inductive LineKind := ScanDone | ScanStart | PullDone | PullStart | InvalidSeen | OtherLine.

#[global] Instance LineKind_eq_dec : EqDecision LineKind.
Proof. solve_decision. Defined.

Definition line_kind (line : str) : LineKind :=
  if contains_sub ($"Folder scan completed") line then ScanDone
  else if contains_sub ($"Starting folder scan") line then ScanStart
  else if contains_sub ($"Folder pull completed") line || contains_sub ($"Pull completed") line then PullDone
  else if contains_sub ($"Starting folder pull") line then PullStart
  else if contains_sub ($"InvalidFile") line then InvalidSeen
  else OtherLine.

Definition lines_of_kind (k : LineKind) (lines : list str) : Z :=
  Z.of_nat (length (filter (fun l => line_kind l = k) lines)).

Lemma lines_of_kind_app k a b : lines_of_kind k (a ++ b) = lines_of_kind k a + lines_of_kind k b.
Proof. unfold lines_of_kind. rewrite filter_app, length_app. lia. Qed.

(** The counters of the window, or those since the start. *)
Definition window_count (k : LineKind) (m : LogMetrics) : Z :=
  match k with
  | ScanDone => lm_scan_count m
  | PullDone => lm_pull_count m
  | InvalidSeen => lm_invalid_file_count m
  | _ => 0
  end.

Definition total_count (k : LineKind) (m : LogMetrics) : Z :=
  match k with
  | ScanDone => lm_scan_count_total m
  | PullDone => lm_pull_count_total m
  | InvalidSeen => lm_invalid_file_total m
  | _ => 0
  end.

Definition counted (k : LineKind) : bool :=
  match k with ScanDone | PullDone | InvalidSeen => true | _ => false end.

(** What a line adds to a counter. *)
Record adds (k : LineKind) (n : Z) (p q : LogParser) : Prop := {
  ad_window : window_count k (lp_metrics q) = window_count k (lp_metrics p) + n;
  ad_total : total_count k (lp_metrics q) = total_count k (lp_metrics p) + n;
  ad_offset : lp_offset q = lp_offset p;
  ad_leftover : lp_leftover q = lp_leftover p;
}.

Lemma adds_refl k p : adds k 0 p p.
Proof. split; lia || done. Qed.

Lemma adds_trans k a b p q r : adds k a p q -> adds k b q r -> adds k (a + b) p r.
Proof. intros [] []. split; lia || congruence. Qed.

Lemma adds_quiet k p q :
  lp_metrics q = lp_metrics p -> lp_offset q = lp_offset p -> lp_leftover q = lp_leftover p -> adds k 0 p q.
Proof. intros Hm Ho Hl. split; try done; rewrite Hm; lia. Qed.

Lemma scan_ended_adds k now line p : adds k 0 p (scan_ended now line p).
Proof.
  unfold scan_ended. destruct (extract_kv _ _); [|apply adds_refl]. destruct (_ !! _); [|apply adds_refl].
  by split; destruct k; cbn; rewrite ?Z.add_0_r.
Qed.

Lemma pull_ended_adds k now line p : adds k 0 p (pull_ended now line p).
Proof.
  unfold pull_ended. destruct (extract_kv _ _); [|apply adds_refl]. destruct (_ !! _); [|apply adds_refl].
  by split; destruct k; cbn; rewrite ?Z.add_0_r.
Qed.

Lemma failures_adds k line p : adds k 0 p (failures_of line p).
Proof.
  unfold failures_of. destruct (extract_kv _ _ ≫= _); [|apply adds_refl].
  by split; destruct k; cbn; rewrite ?Z.add_0_r.
Qed.

Lemma process_line_adds k p e : counted k = true -> adds k (lines_of_kind k [e.2]) p (process_line p e).
Proof.
  destruct e as [now line]. intros Hk. unfold process_line, lines_of_kind. rewrite filter_cons, filter_nil. cbn [snd].
  assert (forall p, adds k (if decide (ScanDone = k) then 1 else 0) p (on_metrics scan_counted p)) as Hs.
  { intros q. destruct (decide (ScanDone = k)) as [Hc|Hc]; [rewrite <- Hc|destruct k]; split; try done; cbn; lia. }
  assert (forall p, adds k (if decide (PullDone = k) then 1 else 0) p (on_metrics pull_counted p)) as Hp.
  { intros q. destruct (decide (PullDone = k)) as [Hc|Hc]; [rewrite <- Hc|destruct k]; split; try done; cbn; lia. }
  assert (forall p, adds k (if decide (InvalidSeen = k) then 1 else 0) p (on_metrics invalid_counted p)) as Hi.
  { intros q. destruct (decide (InvalidSeen = k)) as [Hc|Hc]; [rewrite <- Hc|destruct k]; split; try done; cbn; lia. }
  unfold line_kind.
  destruct (contains_sub ($"Folder scan completed") line).
  { specialize (Hs p). pose proof (adds_trans _ _ _ _ _ _ Hs (scan_ended_adds k now line _)) as H.
    rewrite Z.add_0_r in H. by case_decide. }
  destruct (contains_sub ($"Starting folder scan") line).
  { rewrite decide_False by (by intros <-). destruct (extract_kv _ _); [by apply adds_quiet|apply adds_refl]. }
  destruct (contains_sub ($"Folder pull completed") line || contains_sub ($"Pull completed") line).
  { specialize (Hp p). pose proof (adds_trans _ _ _ _ _ _ (adds_trans _ _ _ _ _ _ Hp (pull_ended_adds k now line _))
      (failures_adds k line _)) as H. rewrite !Z.add_0_r in H. by case_decide. }
  destruct (contains_sub ($"Starting folder pull") line).
  { rewrite decide_False by (by intros <-). destruct (extract_kv _ _); [by apply adds_quiet|apply adds_refl]. }
  destruct (contains_sub ($"InvalidFile") line); [specialize (Hi p); by case_decide|].
  rewrite decide_False by (by intros <-). apply adds_refl.
Qed.

Lemma process_lines_adds k es p : counted k = true -> adds k (lines_of_kind k es.*2) p (foldl process_line p es).
Proof.
  intros Hk. revert p. induction es as [|e es IH]; intros p; [apply adds_refl|].
  rewrite fmap_cons. change (e.2 :: es.*2) with ([e.2] ++ es.*2). rewrite lines_of_kind_app. cbn [foldl].
  eapply adds_trans; [by apply process_line_adds|apply IH].
Qed.

(** Text that is empty or ends with a line. *)
Definition whole_lines (s : str) : Prop := s = [] \/ exists t, s = t ++ [nl].

Lemma split_on_snoc_app (c : ascii) a b : split_on c (a ++ c :: b) = split_on c a ++ split_on c b.
Proof.
  induction a as [|x a IH]; cbn [app split_on]; [by rewrite decide_True|].
  destruct (decide (x = c)); [by rewrite IH|]. rewrite IH. pose proof (split_on_nonempty c a).
  by destruct (split_on c a).
Qed.

(** The lines before the carriage returns are cut off. *)
Definition raw_lines (s : str) : list str :=
  let ls := split_on nl s in match last ls with Some [] => take (length ls - 1) ls | _ => ls end.

Lemma raw_lines_nl t : raw_lines (t ++ [nl]) = split_on nl t.
Proof.
  unfold raw_lines. change [nl] with (nl :: []). rewrite split_on_snoc_app. cbn [split_on].
  rewrite last_snoc, length_app. cbn [length]. rewrite Nat.add_sub. by rewrite take_app_length.
Qed.

Lemma raw_lines_app a b : whole_lines a -> raw_lines (a ++ b) = raw_lines a ++ raw_lines b.
Proof.
  intros [-> | (t & ->)]; [done|]. rewrite raw_lines_nl. unfold raw_lines. rewrite <- app_assoc. cbn [app].
  rewrite split_on_snoc_app. pose proof (split_on_nonempty nl b) as Hne.
  destruct (split_on nl b) as [|h l] using rev_ind; [done|]. rewrite app_assoc, !last_snoc. destruct h; [|by rewrite <- app_assoc].
  rewrite !length_app. cbn [length]. rewrite !Nat.add_sub. rewrite take_app_length.
  by rewrite <- length_app, take_app_length.
Qed.

Lemma str_lines_app a b : whole_lines a -> str_lines (a ++ b) = str_lines a ++ str_lines b.
Proof. intros H. unfold str_lines. fold nl. rewrite <- fmap_app. f_equal. by apply (raw_lines_app a b). Qed.

Lemma str_lines_concat chunks : Forall whole_lines chunks -> str_lines (concat chunks) = concat (str_lines <$> chunks).
Proof.
  induction chunks as [|c chunks IH]; intros H; [done|]. apply Forall_cons in H as [Hc H].
  rewrite fmap_cons. cbn [concat]. rewrite str_lines_app by done. by rewrite IH.
Qed.

Lemma rsplit_once_snoc (c : ascii) t : rsplit_once c (t ++ [c]) = Some (t, []).
Proof. induction t as [|x t IH]; cbn; [by rewrite decide_True|]. by rewrite IH. Qed.

(** The monitor's loop on one log: before each round the daemon appends a text,
    the size and the content the parser sees are those of the file then, and the
    counters of the window are taken. *)
Fixpoint watch (file : str) (rounds : list (str * (nat -> Z))) (p : LogParser) : list LogMetrics * LogParser :=
  match rounds with
  | [] => ([], p)
  | (appended, clock) :: rest =>
      let file := file ++ appended in
      let '(m, p) := take_metrics (log_update (Some (Z.of_nat (length file))) (Some file) clock p) in
      let '(ms, q) := watch file rest p in
      (m :: ms, q)
  end.

Definition z_sum (l : list Z) : Z := foldr Z.add 0 l.

(** One round on a file read to its end. *)
Lemma round_adds k file appended clock p :
  counted k = true -> whole_lines appended -> utf8_valid appended = true ->
  Z.of_nat (length (file ++ appended)) < 2 ^ 64 ->
  lp_offset p = Z.of_nat (length file) -> lp_leftover p = [] ->
  let q := log_update (Some (Z.of_nat (length (file ++ appended)))) (Some (file ++ appended)) clock p in
  window_count k (lp_metrics q) = window_count k (lp_metrics p) + lines_of_kind k (str_lines appended) /\
  total_count k (lp_metrics q) = total_count k (lp_metrics p) + lines_of_kind k (str_lines appended) /\
  lp_offset q = Z.of_nat (length (file ++ appended)) /\ lp_leftover q = [].
Proof.
  intros Hk Hw Hu Hs Ho Hl. unfold log_update. rewrite Ho.
  rewrite (proj2 (Z.ltb_ge _ _)) by (rewrite length_app; lia). rewrite Ho.
  destruct Hw as [-> | (t & ->)].
  { rewrite app_nil_r, Z.eqb_refl. cbn. rewrite !Z.add_0_r. by rewrite Ho. }
  rewrite (proj2 (Z.eqb_neq _ _)) by (rewrite !length_app; cbn; lia).
  rewrite Hl, Nat2Z.id, drop_app_length. cbn [app]. rewrite rsplit_once_snoc, from_utf8_lossy_valid by done.
  cbn [length lp_metrics lp_offset lp_leftover Z.of_nat]. rewrite Z.sub_0_r.
  pose proof (process_lines_adds k (imap (fun i l => (clock i, l)) (str_lines (t ++ [nl]))) p Hk) as [Hwin Htot _ _].
  assert ((imap (fun i l => (clock i, l)) (str_lines (t ++ [nl]))).*2 = str_lines (t ++ [nl])) as E.
  { rewrite fmap_imap. by rewrite (imap_const id), list_fmap_id. }
  rewrite E in Hwin, Htot. split_and!; [done|done| |done].
  unfold wrap. apply Z.mod_small. lia.
Qed.

Lemma watch_counts k rounds : forall file p,
  counted k = true -> Forall (fun r => whole_lines r.1 /\ utf8_valid r.1 = true) rounds ->
  Z.of_nat (length (file ++ concat rounds.*1)) < 2 ^ 64 ->
  lp_offset p = Z.of_nat (length file) -> lp_leftover p = [] -> window_count k (lp_metrics p) = 0 ->
  let '(ms, q) := watch file rounds p in
  z_sum (window_count k <$> ms) = lines_of_kind k (str_lines (concat rounds.*1)) /\
  total_count k (lp_metrics q) = total_count k (lp_metrics p) + lines_of_kind k (str_lines (concat rounds.*1)).
Proof.
  induction rounds as [|[appended clock] rounds IH]; intros file p Hk Hr Hs Ho Hl Hw; [cbn; rewrite Z.add_0_r; done|].
  apply Forall_cons in Hr as [[Hwl Hu] Hr]. cbn [watch]. rewrite fmap_cons in *. cbn [fst concat] in *.
  rewrite app_assoc in Hs.
  destruct (round_adds k file appended clock p Hk Hwl Hu) as (W & T & O & L);
    [rewrite length_app in Hs; lia|done|done|].
  set (q := log_update _ _ _ p) in *. unfold take_metrics. cbn [fst snd].
  match goal with |- context [watch _ rounds ?p'] => set (p1 := p') end.
  specialize (IH (file ++ appended) p1 Hk Hr Hs O L). destruct (watch (file ++ appended) rounds p1) as [ms r].
  destruct IH as [I1 I2]; [by destruct k|]. rewrite fmap_cons. cbn [z_sum foldr]. fold (z_sum (window_count k <$> ms)).
  rewrite str_lines_app by done. rewrite lines_of_kind_app, I1, I2, W, Hw.
  assert (total_count k (lp_metrics p1) = total_count k (lp_metrics q)) as -> by by destruct k.
  rewrite T. lia.
Qed.

(** A monitor that finds the log at the end of a line at every round counts
    each line of it exactly once: the windows it reports add up to the number of
    lines of each counted kind in the whole file, and so do its totals. *)
Theorem monitor_counts_lines k rounds :
  counted k = true ->
  Forall (fun r => whole_lines r.1 /\ utf8_valid r.1 = true) rounds ->
  Z.of_nat (length (concat rounds.*1)) < 2 ^ 64 ->
  let '(ms, q) := watch [] rounds log_parser_new in
  z_sum (window_count k <$> ms) = lines_of_kind k (str_lines (concat rounds.*1)) /\
  total_count k (lp_metrics q) = lines_of_kind k (str_lines (concat rounds.*1)).
Proof.
  intros Hk Hr Hs. pose proof (watch_counts k rounds [] log_parser_new Hk Hr Hs) as H.
  destruct (watch [] rounds log_parser_new) as [ms q].
  destruct H as [H1 H2]; [done|done|by destruct k|]. split; [done|]. rewrite H2. by destruct k.
Qed.

Definition log_text (lines : list str) : str := concat ((fun l => l ++ [nl]) <$> lines).

Lemma log_text_whole lines : whole_lines (log_text lines).
Proof.
  destruct lines as [|l lines] using rev_ind; [by left|]. right. unfold log_text. rewrite fmap_app, concat_app. cbn.
  rewrite app_nil_r, app_assoc. by eexists.
Qed.

Lemma monitor_counts_lines_witness :
  let rounds := [(log_text [ $"Starting folder scan folder_id=a"; $"Folder scan completed folder_id=a"], fun _ => 5);
                 ([], fun _ => 6); (log_text [ $"Folder scan completed folder_id=b"], fun _ => 7)] in
  total_count ScanDone (lp_metrics (watch [] rounds log_parser_new).2) = 2.
Proof.
  cbn zeta. match goal with |- context [watch [] ?r _] => set (rounds := r) end.
  pose proof (monitor_counts_lines ScanDone rounds) as H.
  destruct (watch [] rounds log_parser_new) as [ms q]. cbn [snd]. destruct H as [_ ->].
  - reflexivity.
  - apply Forall_cons. split; [split; [apply log_text_whole|reflexivity]|].
    apply Forall_cons. split; [split; [by left|reflexivity]|].
    apply Forall_cons. split; [split; [apply log_text_whole|reflexivity]|]. by apply Forall_nil.
  - vm_compute. reflexivity.
  - vm_compute. reflexivity.
Defined.

(** A line that was only partly written when it was read is put together wrongly:
    its beginning is kept and read again.  Ten failed files are not counted. *)
Example partial_line_garbled :
  let first := log_text [ $"start"] ++ $"Pull completed failed=1" in
  let p := log_update (Some 29) (Some first) (fun _ => 0) log_parser_new in
  let q := log_update (Some 31) (Some (first ++ $"0" ++ [nl])) (fun _ => 0) p in
  Z.of_nat (length first) = 29 /\ lm_pull_count_total (lp_metrics q) = 1 /\ lm_pull_failed_total (lp_metrics q) = 0.
Proof. vm_compute. split_and!; reflexivity. Qed.

(** A line written between the look at the size and the read is counted twice. *)
Example growth_counted_twice :
  let line := log_text [ $"Folder scan completed"] in
  let p := log_update (Some 22) (Some (line ++ line)) (fun _ => 0) log_parser_new in
  lm_scan_count_total (lp_metrics (log_update (Some 44) (Some (line ++ line)) (fun _ => 0) p)) = 3.
Proof. reflexivity. Qed.

(** ** Silence is never reported *)

(** A log that does not change is what the threshold is for: whenever the branch
    is taken the modification time has not moved, so that the measured silence is
    zero. *)
Lemma check_silence_quiet silent_secs now idx meta t :
  0 < silent_secs -> (check_silence silent_secs now idx meta t).1 = [].
Proof.
  intros Hs. unfold check_silence. destruct (default (0, 0) meta) as [mtime size].
  destruct ((lt_size t <? size) || (lt_mtime t <? mtime)) eqn:E; [done|].
  apply orb_false_iff in E as [_ E%Z.ltb_ge]. rewrite Z.max_l by lia. change (0 / 10 ^ 9) with 0.
  by rewrite (proj2 (Z.leb_gt _ _) Hs).
Qed.

Lemma not_elem_concat {A : Type} (x : A) ls : (forall l, l ∈ ls -> x ∉ l) -> x ∉ concat ls.
Proof. intros H (l & Hl & Hx)%list_elem_of_In%in_concat. apply (H l); by apply list_elem_of_In. Qed.

Lemma check_process_not_silent args interval i p w idx secs :
  LogSilent idx secs ∉ (check_process args interval i p w).1.
Proof. unfold check_process. destruct (ps_found p); cbn; [|set_solver]. repeat case_match; set_solver. Qed.

Lemma check_backlog_not_silent (l : list (str * Z)) acc idx secs :
  LogSilent idx secs ∉ acc.1 -> LogSilent idx secs ∉ (foldl check_backlog acc l).1.
Proof.
  revert acc. induction l as [|[f n] l IH]; intros [al prev] Ha; [done|]. cbn. apply IH. cbn in *.
  rewrite not_elem_of_app. split; [done|]. repeat case_match; set_solver.
Qed.

(** With a threshold above zero, whatever happens to the logs and however long
    they stay as they are, [check_alerts] reports no silence. *)
Lemma silence_never_reported args interval procs api sizes metas now s idx secs :
  0 < aa_log_silent_secs args ->
  LogSilent idx secs ∉ (check_alerts args interval procs api sizes metas now s).1.
Proof.
  intros Hs. unfold check_alerts.
  pose proof (check_backlog_not_silent (map_to_list (as_per_folder_need_files api)) ([], al_prev_need s) idx secs
    (not_elem_of_nil _)) as Hb.
  destruct (foldl check_backlog _ _) as [backlog prev]. cbn [fst] in *. rewrite !not_elem_of_app. split_and!; [|done| |].
  - apply not_elem_concat. intros l (r & -> & (i & pw & -> & _)%elem_of_lookup_imap_1)%list_elem_of_fmap.
    apply check_process_not_silent.
  - apply not_elem_concat. intros l (i & n & -> & _)%elem_of_lookup_imap_1. case_match; set_solver.
  - apply not_elem_concat. intros l (r & -> & (i & mt & -> & _)%elem_of_lookup_imap_1)%list_elem_of_fmap.
    rewrite check_silence_quiet by done. set_solver.
Qed.

(** *** Durations *)

Example durations_read :
  parse_duration ($" 10s ") = Some (Some 10) /\ parse_duration ($"5m") = Some (Some 300) /\
  parse_duration ($"60") = Some (Some 60) /\ parse_duration ($"2w") = Some None /\ parse_duration [] = Some None.
Proof. vm_compute. split_and!; reflexivity. Qed.

(** A unit outside ASCII panics, and a large number of days wraps around. *)
Example durations_break :
  parse_duration ($"5" ++ ["194"; "181"]%char) = None /\
  parse_duration ($"213503982334602d") = Some (Some 61184).
Proof. vm_compute. split_and!; reflexivity. Qed.

(** A process that grows by one MiB a minute from 400 MiB is projected to pass 512
    MiB within six hours; one that stays is not. *)
Example growth_projected :
  projected 512 (f64_of_usize 60) ((fun i => 400 + Z.of_nat i) <$> seq 0 30) = true /\
  projected 512 (f64_of_usize 60) (repeat 400 30) = false.
Proof. vm_compute. split; reflexivity. Qed.
