(* ===== verification/WebSocket.v ===== *)
(** * The WebSocket byte pipe

    [crates/syncthing-net/src/transport/websocket.rs]: [WebSocketPipe], which makes
    a byte stream of a WebSocket.  At each end a bridge task runs two loops until
    the first of them ends: one writes the binary messages it receives into a
    buffer the connection reads from, the other sends what the connection wrote in
    messages of at most 4096 bytes.  The capacity of the buffers delays the loops
    and loses nothing, so it is left out.  Setting up the connections (TCP, TLS and
    the WebSocket handshake) is library code; the two ends and the queues of
    messages between them are the state of a machine. *)

From stdpp Require Import functions.
From S2P Require Import Prelude Core DeviceIds Bep Wire BlockCache.

Inductive WsMessage := WsBinary (data : Bytes) | WsClose | WsOther.

(** [wp_running]: the bridge; [wp_to_bep], [wp_to_ws]: the two buffers; [wp_shut]:
    the connection has shut its writer down or dropped it. *)
Record WebSocketPipe := mkWebSocketPipe {
  wp_running : bool;
  wp_to_bep : Bytes;
  wp_to_ws : Bytes;
  wp_shut : bool;
}.

Definition ws_pipe_new : WebSocketPipe := mkWebSocketPipe true [] [] false.

(** The end of the bridge: what was received stays readable, what was to be sent
    is dropped with the bridge's end of the buffer. *)
Definition bridge_stop (p : WebSocketPipe) : WebSocketPipe := mkWebSocketPipe false (wp_to_bep p) [] (wp_shut p).

(** [recv_to_duplex] on one item of the stream; [None]: its end or an error.
    [write_ok] is the outcome of writing a message into the buffer, which fails once
    the connection has dropped the pipe. *)
Definition recv_to_duplex (write_ok : bool) (m : option WsMessage) (p : WebSocketPipe) : WebSocketPipe :=
  match m with
  | Some (WsBinary data) =>
      if write_ok then mkWebSocketPipe (wp_running p) (wp_to_bep p ++ data) (wp_to_ws p) (wp_shut p) else bridge_stop p
  | Some WsOther => p
  | Some WsClose | None => bridge_stop p
  end.

Definition WS_CHUNK : nat := 4096.

(** [duplex_to_send]: one read of at most [n] bytes, and the message sent for it.
    An empty buffer ends the loop once the writer is gone, and blocks before. *)
Definition duplex_to_send (n : nat) (p : WebSocketPipe) : option WsMessage * WebSocketPipe :=
  match wp_to_ws p with
  | [] => if wp_shut p then (None, bridge_stop p) else (None, p)
  | _ =>
      let k := Nat.min n WS_CHUNK in
      (Some (WsBinary (take k (wp_to_ws p))),
       mkWebSocketPipe (wp_running p) (wp_to_bep p) (drop k (wp_to_ws p)) (wp_shut p))
  end.

(** What the connection does with its pipe. *)
Definition pipe_write (data : Bytes) (p : WebSocketPipe) : WebSocketPipe :=
  mkWebSocketPipe (wp_running p) (wp_to_bep p) (wp_to_ws p ++ data) (wp_shut p).

Definition pipe_read (n : nat) (p : WebSocketPipe) : Bytes * WebSocketPipe :=
  (take n (wp_to_bep p), mkWebSocketPipe (wp_running p) (drop n (wp_to_bep p)) (wp_to_ws p) (wp_shut p)).

Definition pipe_shutdown (p : WebSocketPipe) : WebSocketPipe :=
  mkWebSocketPipe (wp_running p) (wp_to_bep p) (wp_to_ws p) true.

(** ** Two ends *)

(** By side: the pipes, the messages under way that the side sent, and all it
    wrote and read. *)
Record WsLink := mkWsLink {
  wl_pipe : bool -> WebSocketPipe;
  wl_queue : bool -> list WsMessage;
  wl_written : bool -> Bytes;
  wl_read : bool -> Bytes;
}.

Definition ws_link_new : WsLink := mkWsLink (fun _ => ws_pipe_new) (fun _ => []) (fun _ => []) (fun _ => []).

Definition set_pipe (i : bool) (p : WebSocketPipe) (s : WsLink) : WsLink :=
  mkWsLink (<[i := p]> (wl_pipe s)) (wl_queue s) (wl_written s) (wl_read s).

Definition set_queue (i : bool) (q : list WsMessage) (s : WsLink) : WsLink :=
  mkWsLink (wl_pipe s) (<[i := q]> (wl_queue s)) (wl_written s) (wl_read s).

Inductive WsAct := WsWrite (data : Bytes) | WsRead (n : nat) | WsShutdown | WsSend (n : nat) | WsRecv (write_ok : bool).

(** One action at side [i].  A write needs a running bridge, which holds the other
    end of the buffer.  A receiver whose peer has stopped sees the end of the stream
    after the messages under way.  A message that could not be written still counts
    as under way: nobody receives after it. *)
Definition ws_act (i : bool) (a : WsAct) (s : WsLink) : option WsLink :=
  let p := wl_pipe s i in
  match a with
  | WsWrite data =>
      if wp_running p && negb (wp_shut p) then
        let s := set_pipe i (pipe_write data p) s in
        Some (mkWsLink (wl_pipe s) (wl_queue s) (<[i := wl_written s i ++ data]> (wl_written s)) (wl_read s))
      else None
  | WsRead n =>
      let '(data, p) := pipe_read n p in
      let s := set_pipe i p s in
      Some (mkWsLink (wl_pipe s) (wl_queue s) (wl_written s) (<[i := wl_read s i ++ data]> (wl_read s)))
  | WsShutdown => Some (set_pipe i (pipe_shutdown p) s)
  | WsSend n =>
      if wp_running p && (0 <? n)%nat then
        let '(m, p) := duplex_to_send n p in
        let s := set_pipe i p s in
        Some match m with Some m => set_queue i (wl_queue s i ++ [m]) s | None => s end
      else None
  | WsRecv write_ok =>
      if wp_running p then
        match wl_queue s (negb i) with
        | m :: rest =>
            let s := set_pipe i (recv_to_duplex write_ok (Some m) p) s in
            Some (if write_ok then set_queue (negb i) rest s else s)
        | [] => if wp_running (wl_pipe s (negb i)) then None else Some (set_pipe i (recv_to_duplex write_ok None p) s)
        end
      else None
  end.

Inductive ws_reachable : WsLink -> Prop :=
| ws_start : ws_reachable ws_link_new
| ws_next s s' i a : ws_reachable s -> ws_act i a s = Some s' -> ws_reachable s'.

Definition payload (q : list WsMessage) : Bytes :=
  flat_map (fun m => match m with WsBinary d => d | _ => [] end) q.

(** What side [i] wrote is what the other side has read or holds, what is under
    way and, until the sender's bridge stops, what waits to be sent. *)
Definition ws_inv (s : WsLink) : Prop := forall i, exists waiting,
  wl_written s i = wl_read s (negb i) ++ wp_to_bep (wl_pipe s (negb i)) ++ payload (wl_queue s i) ++ waiting /\
  (wp_running (wl_pipe s i) = true -> waiting = wp_to_ws (wl_pipe s i)).

Lemma payload_snoc q d : payload (q ++ [WsBinary d]) = payload q ++ d.
Proof. unfold payload. rewrite flat_map_app. cbn. by rewrite app_nil_r. Qed.

(** One direction of the invariant. *)
Definition stream_inv (written read : Bytes) (to_bep : Bytes) (queue : list WsMessage) (sender : WebSocketPipe) : Prop :=
  exists waiting, written = read ++ to_bep ++ payload queue ++ waiting /\
    (wp_running sender = true -> waiting = wp_to_ws sender).

Ltac ws_simpl Hne :=
  cbn [wl_pipe wl_queue wl_written wl_read set_pipe set_queue];
  rewrite ?negb_involutive; rewrite ?fn_lookup_insert; rewrite ?(fn_lookup_insert_ne _ _ _ _ Hne);
  rewrite ?(fn_lookup_insert_ne _ _ _ _ (not_eq_sym Hne)).

(** The sender's side of a direction: writing, sending, shutting down. *)
Lemma stream_write w r b q p data :
  wp_running p = true -> stream_inv w r b q p -> stream_inv (w ++ data) r b q (pipe_write data p).
Proof. intros Hr (x & -> & Hx). rewrite (Hx Hr). exists (wp_to_ws p ++ data). by rewrite <- !app_assoc. Qed.

Lemma stream_stop w r b q p : stream_inv w r b q p -> stream_inv w r b q (bridge_stop p).
Proof. intros (x & -> & _). by exists x. Qed.

Lemma stream_send w r b q p n m p' :
  wp_running p = true -> stream_inv w r b q p -> duplex_to_send n p = (m, p') ->
  stream_inv w r b (q ++ match m with Some m => [m] | None => [] end) p'.
Proof.
  intros Hr Hs. unfold duplex_to_send. destruct (wp_to_ws p) as [|x l] eqn:E.
  - rewrite <- (app_nil_r q) in Hs. destruct (wp_shut p); intros [= <- <-]; [by apply stream_stop|done].
  - rewrite <- E. intros [= <- <-]. destruct Hs as (y & -> & Hy). rewrite (Hy Hr).
    exists (drop (n `min` WS_CHUNK) (wp_to_ws p)). split; [|done].
    rewrite payload_snoc, <- !app_assoc.
    by rewrite take_drop.
Qed.

(** The receiver's side: a message is taken from the queue, or bytes are read. *)
Lemma stream_recv w r b m q p pr :
  b = wp_to_bep pr -> stream_inv w r b (m :: q) p -> stream_inv w r (wp_to_bep (recv_to_duplex true (Some m) pr)) q p.
Proof.
  intros -> (x & -> & Hx). exists x. split; [|done]. destruct m; cbn; by rewrite <- ?app_assoc.
Qed.

Lemma stream_read w r b q p n : stream_inv w r b q p -> stream_inv w (r ++ take n b) (drop n b) q p.
Proof.
  intros (x & -> & Hx). exists x. split; [|done]. rewrite <- !app_assoc. f_equal.
  by rewrite (app_assoc (take n b)), take_drop.
Qed.

Lemma ws_act_inv i a s s' : ws_inv s -> ws_act i a s = Some s' -> ws_inv s'.
Proof.
  intros Hi. pose proof (Hi i) as Di. pose proof (Hi (negb i)) as Dj. rewrite negb_involutive in Dj.
  change (stream_inv (wl_written s i) (wl_read s (negb i)) (wp_to_bep (wl_pipe s (negb i))) (wl_queue s i) (wl_pipe s i)) in Di.
  change (stream_inv (wl_written s (negb i)) (wl_read s i) (wp_to_bep (wl_pipe s i)) (wl_queue s (negb i)) (wl_pipe s (negb i))) in Dj.
  assert (i <> negb i) as Hne by by destruct i.
  assert (forall s',
    stream_inv (wl_written s' i) (wl_read s' (negb i)) (wp_to_bep (wl_pipe s' (negb i))) (wl_queue s' i) (wl_pipe s' i) ->
    stream_inv (wl_written s' (negb i)) (wl_read s' i) (wp_to_bep (wl_pipe s' i)) (wl_queue s' (negb i)) (wl_pipe s' (negb i)) ->
    ws_inv s') as Hboth.
  { intros t Pi Pj k. destruct i, k; done. }
  unfold ws_act. destruct a as [data|n| |n|write_ok].
  - destruct (wp_running (wl_pipe s i)) eqn:Er; [|done]. destruct (wp_shut _); [done|]. intros [= <-].
    apply Hboth; ws_simpl Hne; [by apply stream_write|done].
  - intros [= <-]. apply Hboth; ws_simpl Hne; [done|by apply stream_read].
  - intros [= <-]. apply Hboth; ws_simpl Hne; done.
  - destruct (wp_running (wl_pipe s i)) eqn:Er; [|done]. destruct (0 <? n)%nat; [|done]. cbn [andb].
    destruct (duplex_to_send n (wl_pipe s i)) as [m p] eqn:E. pose proof (stream_send _ _ _ _ _ _ _ _ Er Di E) as Hs.
    assert (wp_to_bep p = wp_to_bep (wl_pipe s i)) as Hb.
    { unfold duplex_to_send in E. repeat case_match; by simplify_eq. }
    destruct m as [m|]; intros [= <-]; apply Hboth; ws_simpl Hne; rewrite ?Hb; try done.
    by rewrite app_nil_r in Hs.
  - destruct (wp_running (wl_pipe s i)) eqn:Er; [|done]. destruct (wl_queue s (negb i)) as [|m q] eqn:Eq.
    + destruct (wp_running (wl_pipe s (negb i))); [done|]. intros [= <-].
      apply Hboth; ws_simpl Hne; [by apply stream_stop|by rewrite Eq].
    + assert (stream_inv (wl_written s i) (wl_read s (negb i)) (wp_to_bep (wl_pipe s (negb i))) (wl_queue s i)
                (recv_to_duplex write_ok (Some m) (wl_pipe s i))) as Hs.
      { destruct m; cbn [recv_to_duplex]; [destruct write_ok; [done|]| |done]; by apply stream_stop. }
      destruct write_ok; intros [= <-]; apply Hboth; ws_simpl Hne; [done|by eapply stream_recv|done|].
      rewrite Eq. by destruct m.
Qed.

(** In every state of the two ends, what a side has read is a prefix of what the
    other wrote; as long as the sender's bridge runs, the rest is in the buffers
    and the queue, so that a drained link has delivered everything. *)
Theorem websocket_is_stream s i :
  ws_reachable s ->
  wl_read s (negb i) `prefix_of` wl_written s i /\
  (wp_running (wl_pipe s i) = true ->
   wl_written s i = wl_read s (negb i) ++ wp_to_bep (wl_pipe s (negb i)) ++ payload (wl_queue s i) ++ wp_to_ws (wl_pipe s i)).
Proof.
  intros H. assert (ws_inv s) as Hi.
  { induction H as [|s s' j a _ IH Ha]; [|by eapply ws_act_inv]. intros j. by exists []. }
  destruct (Hi i) as (x & E & Hx). split; [rewrite E; by eexists|]. intros Hr. by rewrite E, (Hx Hr).
Qed.

Fixpoint ws_run (acts : list (bool * WsAct)) (s : WsLink) : option WsLink :=
  match acts with
  | [] => Some s
  | (i, a) :: rest => match ws_act i a s with Some s => ws_run rest s | None => None end
  end.

Lemma ws_run_reachable acts s s' : ws_reachable s -> ws_run acts s = Some s' -> ws_reachable s'.
Proof.
  revert s. induction acts as [|[i a] acts IH]; intros s Hs; [by intros [= <-]|]. cbn.
  destruct (ws_act i a s) as [t|] eqn:E; [|done]. apply IH. by eapply ws_next.
Qed.

Lemma websocket_is_stream_witness :
  exists s, ws_run [(true, WsWrite [1; 2; 3]); (true, WsSend 2); (false, WsRecv true); (false, WsRead 9)] ws_link_new = Some s /\
    wl_read s false = [1; 2] /\ wl_read s false `prefix_of` wl_written s true.
Proof.
  eexists. split; [vm_compute; reflexivity|]. split; [reflexivity|].
  apply (websocket_is_stream _ true). eapply ws_run_reachable; [apply ws_start|].
  instantiate (1 := [(true, WsWrite [1; 2; 3]); (true, WsSend 2); (false, WsRecv true); (false, WsRead 9)]).
  vm_compute. reflexivity.
Defined.

(** Closing one direction ends both: a side that has sent its request and shuts
    its writer down never reads the answer, although the other side sent it. *)
Example half_close_loses_answer :
  (fun s => (wl_written s false, payload (wl_queue s false), wl_read s true, wp_running (wl_pipe s true))) <$>
  ws_run [(true, WsWrite [1]); (true, WsSend 9); (true, WsShutdown); (false, WsRecv true); (false, WsWrite [2; 2]);
          (false, WsSend 9); (true, WsSend 9)] ws_link_new = Some ([2; 2], [2; 2], [], false).
Proof. reflexivity. Qed.
